(* ===== verification/_CoqProject ===== *)
-Q . S2P
Prelude.v
ILOpcodes.v
ILList.v
ILEncoding.v
ILImport.v
ILExport.v
ILRewriterWrapper.v
ILRewriterSpec.v
Utf.v
CorSig.v
Signature.v
SignatureBuilder.v
TypeNameParser.v
TypeNameRewriter.v
UnsafeAccessorBlob.v
AssemblyRedirection.v
SamplesBuffer.v
SampleQueues.v
ClrSignatures.v
TypeNames.v
NameCache.v
NamingHelper.v
ResolvedNames.v
ThreadStacks.v
ShutdownAdmission.v
SamplerLifecycle.v
RuntimeSampler.v
AllocationSubSampler.v
StackFrames.v
ProfilerState.v
AllocationTick.v
SelectedTraces.v
SamplingCycle.v
SamplingWorker.v
ProfilerEvents.v
StackWalkChecks.v
StackWalkGuard.v
StackWalkProgress.v
StackCapture.v
CaptureInvariants.v
StackCaptureSafe.v
StackCaptureRuns.v
CaptureCycle.v
CanaryThreads.v
CallTargetTokens.v
TracerTokens.v
MethodRewriter.v
Emission.v
CallTargetTokensSafe.v
LocalSignature.v
TracerCode.v
MethodPieces.v
MethodCode.v
Returns.v
RewrittenMethod.v
ClrTypes.v
SilentFailures.v
RewriteExport.v
RewriterProperties.v
RejitQueue.v
ClrHelpers.v
ClrNames.v
Integrations.v
RejitModules.v
RejitSelection.v
RejitRequests.v
RejitDescription.v
