(* ===== verification/Prelude.v ===== *)
(** * OpenTelemetry .NET automatic instrumentation: the native profiler

    The program is a profiler library that the .NET runtime loads: it rewrites the IL of methods
    and the metadata of modules so that the managed instrumentation runs inside the application,
    and it samples the application's threads and allocations.  Its own code is C++, under
    src/src/OpenTelemetry.AutoInstrumentation.Native/ (called N/ below).  This library models the
    parts of it that compute something and proves them correct.  The files, in the order of
    _CoqProject:

    ** Rewriting method bodies (N/il_rewriter.cpp, N/il_rewriter_wrapper.cpp)

    - [ILOpcodes]: the opcode tables, from opcode.def.
    - [ILList]: the circular doubly linked list of instructions, in a heap, with the insertions;
      they refine insertion into a sequence.
    - [ILEncoding]: the specification, the bytes of an instruction sequence after ECMA-335.
    - [ILImport]: [Import]: bytes to list.  It returns for all bytes, reads inside them, and what
      it accepts is the encoding of the list.
    - [ILExport]: [Export]: list to bytes, with the widening of short branches, the header and the
      exception table.
    - [ILRewriterWrapper]: the cursor that emits instructions.
    - [ILRewriterSpec]: the properties of the three together, such as import after export.

    ** Instrumenting methods (N/tracer_method_rewriter.cpp, N/tracer_tokens.cpp,
    N/calltarget_tokens.cpp, N/runtime_async.cpp, N/metadata_builder.cpp, parts of
    N/cor_profiler.cpp and N/clr_helpers.cpp)

    - [CallTargetTokens], [TracerTokens]: the references and signatures of the calls into the
      managed profiler, cached in [TracerTokens] by [TokenSlot]; the signature of the locals; the
      calls as instructions.  The CLR's metadata are an instance of the class [Metadata].
    - [MethodRewriter]: [Rewrite], from the guards to the exported body.
    - [Emission], [CallTargetTokensSafe], [LocalSignature], [TracerCode], [MethodPieces],
      [MethodCode], [Returns], [RewrittenMethod]: the code that each of these operations emits, the
      layout of the locals, the loop over the returns, and the whole method ([instrumented]).
    - [ClrTypes]: on the types of [ClrSignatures] the queries read inside them.
    - [SilentFailures]: an operation that fails hands the CLR nothing.
    - [RewriteExport]: the rewritten method can be exported; [Rewrite] as a whole.
    - [RewriterProperties]: the properties, with instances on a concrete method.

    ** Requesting that methods are compiled again (N/rejit_work_offloader.cpp, N/rejit_handler.cpp,
    N/rejit_preprocessor.cpp, N/tracer_rejit_preprocessor.cpp, N/function_control_wrapper.cpp,
    N/integration.cpp, N/tracer_integration_definition.cpp, N/Synchronized.hpp, parts of
    N/clr_helpers.cpp, N/util.cpp and N/cor_profiler.cpp)

    - [RejitQueue]: the calls that register integrations, load and unload modules and shut down,
      the two mutexes they take and the worker they hand work to, as interleavings; safety and
      progress.
    - [ClrHelpers]: enumerations, functions, types, names and assemblies of a module's metadata,
      which are the record [metadata].
    - [Integrations]: what an integration is, the arrays in which the managed code passes them, and
      the configuration of traced methods.
    - [RejitModules]: the records of modules and methods, the native images that inline them, the
      requests, and the chain of rewriters that a method's body goes through.
    - [RejitSelection]: which methods a definition describes, as the loops of the code.
    - [ClrNames]: the types of parameters have names.
    - [RejitRequests]: the loops without loops, enumerators and state ([described]); what is recorded.
    - [RejitDescription]: what the definitions say, in terms of the metadata ([describes]), and that
      this is what is requested.

    ** Text, signatures and metadata (N/miniutf.cpp, N/string_utils.cpp, N/clr_helpers.cpp,
    N/signature_builder.h, N/continuous_profiler_clr_helpers.cpp, cor.h of the runtime)

    - [Utf]: conversions between UTF-8, UTF-16 and UTF-32.
    - [CorSig]: compressed integers and tokens.
    - [ClrSignatures]: the types of a signature as a grammar.
    - [Signature]: the parsers of method, local and generic signatures, against a grammar.
    - [SignatureBuilder]: building signatures; what is built is parsed again.
    - [TypeNames]: names of types and functions, and a second signature parser that agrees with
      the first.

    ** Redirecting assemblies (N/clr_helpers.cpp, N/type_name_assembly_reference_parser.cpp,
    N/type_name_assembly_redirection_rewriter.cpp, N/unsafe_accessor_type_attribute_blob_rewriter.cpp)

    - [TypeNameParser]: the assembly qualifications in a reflection type name.
    - [TypeNameRewriter]: raising the versions in them; the result is exactly the planned edits.
    - [UnsafeAccessorBlob]: the same inside a custom attribute value.
    - [AssemblyRedirection]: the references of modules; a redirection that has been applied never
      changes.

    ** The continuous profiler (N/continuous_profiler.cpp and .h, N/shutdown_admission.cpp,
    N/runtime_sampler_service.cpp, N/runtime_sampler_configuration.cpp, N/cor_profiler.cpp,
    N/interop.cpp)

    What samples hold, and how they reach the reader:
    - [SamplesBuffer]: the wire format with its bound of 200 KiB, and a reader of it.
    - [SampleQueues]: the two slots, a queue, and the two growing buffers, instances of the class
      [SampleChannel].
    - [NameCache], [NamingHelper]: the LRU cache and the names of frames, owned by pointer.
    - [ResolvedNames]: over metadata that can be read every function on a stack has a name.
    - [ThreadStacks], [StackFrames]: the storage and the contents of captured stacks.

    The threads of control:
    - [ShutdownAdmission]: the gate that every operation passes, as interleavings of its atomic
      actions; safety and progress of the shutdown.
    - [SamplerLifecycle], [RuntimeSampler]: starting, configuring and stopping the producers, with
      the runtime's answers as an instance of the class [Runtime]; the effects form a legal history
      and a configuration is applied as a transaction.
    - [AllocationSubSampler], [AllocationTick]: which allocations are sampled, and one allocation
      event from its delivery to the appended sample.
    - [SelectedTraces]: what the application says of its threads and spans.
    - [SamplingCycle], [SamplingWorker]: one cycle of the worker, and its waits and schedule.
    - [ProfilerState], [ProfilerEvents]: the state that all of these share, its invariant
      [profiler_ok], and every sequence of what happens to it.

    Walking stacks (N/stack_walk_guard.cpp, N/stack_capturer.cpp, N/clr_runtime_capture.cpp,
    N/netfx_runtime_capture.cpp, N/safe_native_walk_service.cpp, N/suspension_guards.cpp,
    N/thread_suspend.cpp, N/stack_walker_impl.h, N/profiler_api.h):
    - [StackWalkChecks], [StackWalkGuard], [StackWalkProgress]: the probes that find out whether a
      suspended thread can be walked; the worker that makes them, the sampling thread and the
      shutdown as interleavings around one mutex and one condition variable; safety of the storage
      lent to the worker, meaning of the verdicts, and progress.
    - [StackCapture], [CaptureInvariants], [StackCaptureSafe], [StackCaptureRuns]: the capture of a batch of stacks on
      both runtimes, with exceptions, destructors and the answers of the platform as an instance of
      the class [CapturePlatform]; what it does outside is a legal record ([monitored]) that leaves
      nothing suspended, its result is the one the record accounts for ([batch_report]), and the
      frames delivered are what they should be.
    - [CanaryThreads]: the election of the thread that .NET Framework is probed with.
    - [CaptureCycle]: the callback of [SamplingCycle] as the consumer of [StackCapture].

    They interact as in the code: what the worker of [RejitQueue] runs is
    [RequestRejitForLoadedModules] of [RejitSelection], over the metadata of [ClrHelpers] and the
    definitions of [Integrations]; the methods it records in [RejitModules] are no longer inlined,
    and when the runtime compiles one again its body goes to [Rewrite] of [MethodRewriter].  A configuration applied by [RuntimeSampler] is staged by
    [SamplerLifecycle] and found by the waits of [SamplingWorker], whose cycles are those of
    [SamplingCycle]; a cycle fills [ThreadStacks], names the frames through [NamingHelper], writes
    a batch with [SamplesBuffer] and publishes it to [SampleQueues], from which the exported
    functions read.  [CaptureCycle] shows
    that the frames a cycle is given are those a capture delivers.  [ProfilerEvents] composes the last ones: [profiler_never_stuck] is about all
    sequences of callbacks, exported calls, allocation events, cycles and reads.

    ** How the code is modelled

    A fixed-width integer is a [Z]; [wrap] and [sgn] are the conversions.  A byte string is a list
    of [Z], a UTF-16 string a list of code units.  Code that can fail returns an [outcome]; code
    that changes shared objects is a function of the monad [stM], the state being kept when it
    fails.  [Stuck] is undefined behaviour: a read or write outside an object, a null or dangling
    pointer.  The theorems exclude it for all inputs, unless their doc comments say when it
    happens.  [wp m s Q X] means that [m] started in [s] is not stuck, returns with [Q] or throws
    with [X].  Where several pointers reach one object ([ILList], [NamingHelper], [NameCache]) the
    heap is explicit.  Locks are not modelled where one lock protects an operation as a whole: the
    operation is a step; where the code uses atomics ([ShutdownAdmission]) the steps are the
    atomic accesses, and where threads wait for each other ([StackWalkGuard], [RejitQueue]) the critical sections.

    What the code asks of its surroundings is an argument: the metadata interfaces ([IMetaData...]
    records, a failed query being [None]), the answers of the runtime ([Runtime]), what an event
    or a cycle meets ([tick_input], [cycle_input], [observation], [CapturePlatform]: cancellations, clocks, dice,
    frames delivered), the allocator ([reserve], [emplace]: the answer to the k-th request), the
    order in which a hash map is visited ([visit]).  The hypotheses on them are what their
    documentation promises: [reserve] grants at least what it is asked for when it grants, [visit]
    is some order of the entries, a reference that was defined is not nil and a method's signature
    of locals is one ([metadata_ok]), the CLR says the same of a type whenever it is asked
    ([consistent]), and the metadata of a module can be read ([metadata_readable] of [ResolvedNames]
    for the profiler, of [RejitRequests] for the requests): an enumeration delivers no empty batch,
    a chain of types ends (no type specification is an instance of itself: [GetTypeInfo_terminates]
    shows that the code does not return on one), a reported signature is in memory, and one that the
    parser accepts has parameters of the types of [ClrSignatures].

    The theorems on the instrumented method have two more conditions, outside which the code does
    fail: the type of the bubble-up exception is available and can be defined
    ([bubble_up_definable]; example [no_filter_null_handler] shows the null handler otherwise), and
    a method without a signature of locals has fewer than 122 by-ref-like parameters (example
    [overflow_by_one_byte] shows the write behind the buffer otherwise).

    Loops that are not structural take fuel, or are structural in a list of what they consume.
    The bounds: importing, parsing and converting use the number of bytes left, each step consumes
    one; exporting uses the number of branches, each retry widens one for good; looking types up
    uses the rank of the token in the metadata; a wait for a cycle uses the number of observations.
    Each theorem states that the fuel given is enough, [Fuel] never being the result.

    ** What the theorems show

    Round trips and equivalences with a specification: [Import_decodes], [Export_encodes],
    [Import_Export_roundtrip], [utf_roundtrip], [utf8_check_exact], [ParseType_exact],
    [TryParse_exact], [Method_parses], [TryRewrite_exact],
    [allocation_sample_reported], [sampling_cycle_reported].  The instrumented method:
    [Rewrite_instruments] says what the CLR is given and that nothing is accessed outside its
    object, [ModifyLocalSig_layout] that the locals have the types they are used with,
    [rewrite_body_one_exit] that the method's own instructions are kept and leave through the end,
    [Rewrite_failure_hands_nothing_over] what a failure leaves behind.  Which methods get there:
    [requested_methods_exact] and [trace_methods_parsed], and by what way [rewriters_in_turn],
    [rejit_requests_processed] and [rejit_calls_return].  Refinements:
    [Insert_refines_list_insert], [names_looked_up], [cpu_buffers_fifo].  Invariants and safety in every execution:
    [profiler_never_stuck], [sampling_cycle_safe], [allocation_event_handled],
    [storage_bounded], [service_legal], [no_operation_after_wait], [redirections_consistent],
    [selected_traces_lifetime], [allocation_rate_bounded], [guard_storage_safe],
    [stack_capture_safe], [canary_is_elected].  Termination and progress:
    [ParseTypeName_total_ordered], [GetTypeInfo_terminates], [shutdown_completes],
    [waiting_for_cycle], [guard_settles].  Schedules and results: [sampling_worker_runs],
    [stack_capture_reports], [cycle_records_stacks].  Where the code does not do what it means to, a theorem says what it does
    ([headers_decode], [GenericTypeProps_TryParse_exact], [ToWSTRING_stops_at_nul],
    [functions_looked_up]).

    ** Not modelled

    The resolver of native symbols, and the callbacks of the runtime that only forward or log: they
    are sequences of calls into the runtime and the operating system.  ResolveType of clr_helpers.cpp, which
    the method rewriting takes as a parameter, and the parts of an assembly reference that no
    definition uses.  Of [RejitQueue]: a mutex that throws, and the callbacks that read the handler
    without a lock.  Case folding and normalisation
    of miniutf: generated tables, used by nothing modelled here.  The Windows branches: calls of
    the operating system.  std::bad_alloc is modelled for the storage of captured stacks only.
    Third-party headers, the managed code, tests and build scripts. *)

From stdpp Require Export base tactics numbers list gmap sets strings.
From Stdlib Require Export ZArith Lia.

#[export] Set Default Goal Selector "!".
Open Scope Z_scope.

(** ** Fixed-width integers

    A w-bit unsigned integer is the [Z] in [0, 2^w); [wrap w] is C++'s conversion to it and
    [sgn w] the two's complement conversion to the w-bit signed type. *)

Definition wrap (w x : Z) : Z := x mod 2 ^ w.

Definition sgn (w x : Z) : Z :=
  let u := wrap w x in if decide (u < 2 ^ (w - 1)) then u else u - 2 ^ w.

Abbreviation u8 := (wrap 8).
Abbreviation u16 := (wrap 16).
Abbreviation u32 := (wrap 32).
Abbreviation u64 := (wrap 64).
Abbreviation s8 := (sgn 8).
Abbreviation s16 := (sgn 16).
Abbreviation s32 := (sgn 32).
Abbreviation s64 := (sgn 64).

(** ** Outcomes of code that can fail

    [Ret a]: the code returned [a].  [Err e]: it returned or threw the error [e].  [Stuck]: it
    read or wrote outside an object (a null or dangling pointer, an index out of range).
    [Fuel]: the bound on the number of loop iterations or nested calls given to the model was
    reached.  The safety and termination theorems say that the last two never occur. *)
Inductive outcome (E A : Type) : Type :=
| Ret (a : A)
| Err (e : E)
| Stuck
| Fuel.
Arguments Ret {E A} a.
Arguments Err {E A} e.
Arguments Stuck {E A}.
Arguments Fuel {E A}.

#[export] Instance outcome_ret E : MRet (outcome E) := λ A a, Ret a.
#[export] Instance outcome_bind E : MBind (outcome E) := λ A B f m,
  match m with
  | Ret a => f a
  | Err e => Err e
  | Stuck => Stuck
  | Fuel => Fuel
  end.

#[export] Instance outcome_fmap E : FMap (outcome E) := λ A B f m, a ← m; mret (f a).

Definition of_option {E A} (o : option A) : outcome E A :=
  match o with Some a => Ret a | None => Stuck end.

(** The state monad over outcomes: the state reached is kept also when the code fails. *)
Definition stM (S E A : Type) : Type := S → outcome E A * S.

#[export] Instance stM_ret S E : MRet (stM S E) := λ A a s, (Ret a, s).
#[export] Instance stM_bind S E : MBind (stM S E) := λ A B f m s,
  match m s with
  | (Ret a, s') => f a s'
  | (Err e, s') => (Err e, s')
  | (Stuck, s') => (Stuck, s')
  | (Fuel, s') => (Fuel, s')
  end.

Section StateMonad.
Context {S E : Type}.

Definition get : stM S E S := λ s, (Ret s, s).
Definition put (s : S) : stM S E unit := λ _, (Ret tt, s).
Definition modify (f : S → S) : stM S E unit := λ s, (Ret tt, f s).
Definition throw {A} (e : E) : stM S E A := λ s, (Err e, s).
Definition stuck {A} : stM S E A := λ s, (Stuck, s).
Definition out_of_fuel {A} : stM S E A := λ s, (Fuel, s).
Definition lift_option {A} (o : option A) : stM S E A :=
  match o with Some a => mret a | None => stuck end.

Lemma stM_bind_Ret {A B} (m : stM S E A) (f : A → stM S E B) s a s' :
  m s = (Ret a, s') → (m ≫= f) s = f a s'.
Proof. intros H. unfold mbind, stM_bind. by rewrite H. Qed.

Lemma stM_bind_Err {A B} (m : stM S E A) (f : A → stM S E B) s e s' :
  m s = (Err e, s') → (m ≫= f) s = (Err e, s').
Proof. intros H. unfold mbind, stM_bind. by rewrite H. Qed.

Lemma stM_bind_inv {A B} (m : stM S E A) (f : A → stM S E B) s b s' :
  (m ≫= f) s = (Ret b, s') → ∃ a s1, m s = (Ret a, s1) ∧ f a s1 = (Ret b, s').
Proof.
  unfold mbind, stM_bind. destruct (m s) as [[a|e| |] s1]; intros H; simplify_eq; eauto.
Qed.

(** [wp m s Q X]: from [s], [m] returns a value and state satisfying [Q] or fails with an error
    and state satisfying [X]; it neither gets stuck nor runs out of fuel. *)
Definition wp {A} (m : stM S E A) (s : S) (Q : A → S → Prop) (X : E → S → Prop) : Prop :=
  match m s with
  | (Ret a, s') => Q a s'
  | (Err e, s') => X e s'
  | _ => False
  end.

Lemma wp_bind {A B} (m : stM S E A) (f : A → stM S E B) s Q X :
  wp m s (λ a s', wp (f a) s' Q X) X → wp (m ≫= f) s Q X.
Proof. unfold wp, mbind, stM_bind. by destruct (m s) as [[a|e| |] s1]. Qed.

Lemma wp_run {A} (m : stM S E A) s a s' (Q : A → S → Prop) X :
  m s = (Ret a, s') → Q a s' → wp m s Q X.
Proof. unfold wp. by intros ->. Qed.

Lemma wp_run_bind {A B} (m : stM S E A) (f : A → stM S E B) s a s' Q X :
  m s = (Ret a, s') → wp (f a) s' Q X → wp (m ≫= f) s Q X.
Proof. intros H ?. apply wp_bind. by eapply wp_run. Qed.

(** The state and value of a run whose outcome is known. *)
Lemma wp_Ret {A} (m : stM S E A) s (Q : A → S → Prop) X a :
  wp m s Q X → (m s).1 = Ret a → Q a (m s).2.
Proof. unfold wp. destruct (m s) as [[a'|e| |] s1]; intros H E'; simplify_eq/=; done. Qed.

Lemma wp_mono {A} (m : stM S E A) s (Q Q' : A → S → Prop) (X X' : E → S → Prop) :
  wp m s Q X → (∀ a s', Q a s' → Q' a s') → (∀ e s', X e s' → X' e s') → wp m s Q' X'.
Proof. unfold wp. destruct (m s) as [[a|e| |] s1]; auto. Qed.
End StateMonad.

(** [wp_step tac]: the first action of a sequence runs without failing, [tac] says to what. *)
Tactic Notation "wp_step" tactic3(tac) := eapply wp_run_bind; [solve [tac]|cbv beta].

(** [run_by tac]: run the first action of a sequence, [tac] giving its result. *)
Tactic Notation "run_by" tactic3(tac) := erewrite stM_bind_Ret; [cbv beta|solve [tac]].
(** [bind_inv H as a s E]: split a successful run of a sequence. *)
Tactic Notation "bind_inv" hyp(H) "as" simple_intropattern(a) simple_intropattern(s)
    simple_intropattern(E) :=
  apply stM_bind_inv in H as (a & s & E & H).

Lemma decide_ne_swap {A} (x y : Z) (a b : A) :
  (if decide (x ≠ y) then a else b) = if decide (x = y) then b else a.
Proof. destruct (decide (x = y)) as [->|H]; [by rewrite decide_False by tauto|by rewrite decide_True]. Qed.

(** ** Arithmetic of the fixed widths *)

Create Rewrite HintDb width.
Create Rewrite HintDb bytes.

Lemma wrap_range w x : 0 ≤ w → 0 ≤ wrap w x < 2 ^ w.
Proof. intros ?. apply Z.mod_pos_bound, Z.pow_pos_nonneg; lia. Qed.

Lemma wrap_small w x : 0 ≤ x < 2 ^ w → wrap w x = x.
Proof. apply Z.mod_small. Qed.

Lemma wrap_wrap w x : 0 ≤ w → wrap w (wrap w x) = wrap w x.
Proof. intros. apply wrap_small, wrap_range; lia. Qed.

Lemma wrap_add_l w x y : wrap w (wrap w x + y) = wrap w (x + y).
Proof. apply Zplus_mod_idemp_l. Qed.

Lemma wrap_add_r w x y : wrap w (x + wrap w y) = wrap w (x + y).
Proof. apply Zplus_mod_idemp_r. Qed.

Lemma wrap_sub_l w x y : wrap w (wrap w x - y) = wrap w (x - y).
Proof. apply Zminus_mod_idemp_l. Qed.

Lemma wrap_sub_r w x y : wrap w (x - wrap w y) = wrap w (x - y).
Proof. apply Zminus_mod_idemp_r. Qed.

Lemma wrap_wrap_le v w x : 0 ≤ v ≤ w → wrap v (wrap w x) = wrap v x.
Proof.
  intros. unfold wrap. replace w with (v + (w - v)) by lia.
  rewrite Z.pow_add_r, Z.mod_mod_divide; try lia.
  by exists (2 ^ (w - v)); lia.
Qed.

Lemma wrap_eq_iff w x y : 0 ≤ w → wrap w x = wrap w y ↔ (2 ^ w | x - y).
Proof.
  intros Hw. pose proof (Z.pow_pos_nonneg 2 w ltac:(lia) Hw). split.
  - intros H1. apply Z.mod_divide; [lia|]. rewrite Zminus_mod. unfold wrap in H1. rewrite H1, Z.sub_diag.
    by apply Z.mod_0_l; lia.
  - intros [k Hk]. unfold wrap. replace x with (y + k * 2 ^ w) by lia. apply Z_mod_plus_full.
Qed.

(** Overwriting the low bits of a storage unit. *)
Lemma wrap_set_low w a v : 0 ≤ w → wrap w (a - wrap w a + wrap w v) = wrap w v.
Proof.
  intros Hw. rewrite wrap_add_r. apply wrap_eq_iff; [done|].
  replace (a - wrap w a + v - v) with (a - wrap w a) by lia.
  apply wrap_eq_iff; [done|]. by rewrite wrap_wrap.
Qed.

Lemma pow2_half w : 0 < w → 2 ^ w = 2 * 2 ^ (w - 1).
Proof. intros. rewrite <-Z.pow_succ_r by lia. f_equal. lia. Qed.

Lemma sgn_range w x : 0 < w → - 2 ^ (w - 1) ≤ sgn w x < 2 ^ (w - 1).
Proof.
  intros Hw. unfold sgn. pose proof (wrap_range w x ltac:(lia)). pose proof (pow2_half w Hw).
  case_decide; lia.
Qed.

Lemma wrap_sgn w x : 0 < w → wrap w (sgn w x) = wrap w x.
Proof.
  intros Hw. unfold sgn. case_decide.
  - apply wrap_wrap. lia.
  - rewrite <-(wrap_wrap w x) at 2 by lia. unfold wrap at 1 3.
    replace (wrap w x - 2 ^ w) with (wrap w x + (-1) * 2 ^ w) by lia.
    apply Z_mod_plus_full.
Qed.

Lemma sgn_wrap w x : 0 ≤ w → sgn w (wrap w x) = sgn w x.
Proof. intros. unfold sgn. by rewrite wrap_wrap by lia. Qed.

Lemma sgn_cong w x : 0 < w → ∃ k, sgn w x = x + k * 2 ^ w.
Proof.
  intros Hw. destruct (proj1 (wrap_eq_iff w (sgn w x) x ltac:(lia)) (wrap_sgn w x Hw)) as [k Hk].
  exists k. lia.
Qed.

Lemma sgn_small w x : 0 < w → - 2 ^ (w - 1) ≤ x < 2 ^ (w - 1) → sgn w x = x.
Proof.
  intros Hw Hx. pose proof (pow2_half w Hw). unfold sgn, wrap.
  destruct (decide (0 ≤ x)).
  - rewrite Z.mod_small by lia. rewrite decide_True by lia. done.
  - assert (Hm : x mod 2 ^ w = x + 2 ^ w).
    { symmetry. apply (Z.mod_unique_pos x (2 ^ w) (-1)); lia. }
    rewrite Hm. rewrite decide_False by lia. lia.
Qed.

Lemma sgn_eq_iff w x y : 0 < w → sgn w x = sgn w y ↔ wrap w x = wrap w y.
Proof.
  intros Hw. split; intros H.
  - by rewrite <-(wrap_sgn w x), <-(wrap_sgn w y), H by done.
  - unfold sgn. by rewrite H.
Qed.

#[export] Hint Rewrite wrap_wrap wrap_sgn sgn_wrap wrap_add_l wrap_add_r wrap_sub_l wrap_sub_r
  using lia : width.

(** ** Little-endian byte sequences *)

Abbreviation is_byte b := (0 ≤ b < 256).

Fixpoint le_bytes (n : nat) (x : Z) : list Z :=
  match n with
  | O => []
  | S n => x mod 256 :: le_bytes n (x / 256)
  end.

Fixpoint le_val (bs : list Z) : Z :=
  match bs with
  | [] => 0
  | b :: bs => b + 256 * le_val bs
  end.

Lemma length_le_bytes n x : length (le_bytes n x) = n.
Proof. revert x. induction n; intros; simpl; [done|]. by rewrite IHn. Qed.

Lemma le_bytes_bound n x : Forall (λ b, is_byte b) (le_bytes n x).
Proof.
  revert x. induction n; intros; simpl; constructor; auto. apply Z.mod_pos_bound. lia.
Qed.

Lemma le_val_bytes n x : le_val (le_bytes n x) = wrap (8 * Z.of_nat n) x.
Proof.
  revert x. induction n as [|n IH]; intros x.
  - simpl. unfold wrap. by rewrite Z.mod_1_r.
  - cbn [le_bytes le_val]. rewrite IH. unfold wrap.
    replace (8 * Z.of_nat (S n)) with (8 + 8 * Z.of_nat n) by lia.
    rewrite Z.pow_add_r, Z.rem_mul_r by lia. done.
Qed.

Lemma le_val_range bs :
  Forall (λ b, is_byte b) bs → 0 ≤ le_val bs < 2 ^ (8 * Z.of_nat (length bs)).
Proof.
  induction 1 as [|b bs Hb Hbs IH]; [done|]. cbn [le_val length].
  replace (8 * Z.of_nat (S (length bs))) with (8 + 8 * Z.of_nat (length bs)) by lia.
  rewrite Z.pow_add_r by lia. lia.
Qed.

Lemma le_bytes_val bs : Forall (λ b, is_byte b) bs → le_bytes (length bs) (le_val bs) = bs.
Proof.
  induction 1 as [|b bs Hb Hbs IH]; [done|]. cbn [le_val length le_bytes].
  f_equal.
  - rewrite (Z.mul_comm 256), Z_mod_plus_full. by apply Z.mod_small.
  - rewrite (Z.mul_comm 256), Z.div_add by lia. rewrite Z.div_small by lia. done.
Qed.

Lemma le_bytes_wrap n w x :
  8 * Z.of_nat n ≤ w → le_bytes n (wrap w x) = le_bytes n x.
Proof.
  intros Hw.
  assert (∀ y, le_bytes n (wrap w y) = le_bytes n (le_val (le_bytes n y))) as E.
  { intros y. rewrite <-(le_bytes_val (le_bytes n (wrap w y))) by apply le_bytes_bound.
    rewrite length_le_bytes, !le_val_bytes, wrap_wrap_le by lia. done. }
  rewrite E. rewrite <-(length_le_bytes n x) at 1. by rewrite le_bytes_val by apply le_bytes_bound.
Qed.

(** ** Big-endian byte sequences *)

Definition be_bytes (n : nat) (x : Z) : list Z := reverse (le_bytes n x).
Definition be_val (bs : list Z) : Z := le_val (reverse bs).

Lemma length_be_bytes n x : length (be_bytes n x) = n.
Proof. unfold be_bytes. by rewrite length_reverse, length_le_bytes. Qed.

Lemma be_val_bytes n x : be_val (be_bytes n x) = wrap (8 * Z.of_nat n) x.
Proof. unfold be_val, be_bytes. by rewrite reverse_involutive, le_val_bytes. Qed.

Lemma be_bytes_bound n x : Forall (λ b, is_byte b) (be_bytes n x).
Proof. unfold be_bytes. apply Forall_reverse, le_bytes_bound. Qed.

#[export] Hint Rewrite length_le_bytes length_be_bytes le_val_bytes be_val_bytes : bytes.

(** ** Arrays of bytes

    [upd_range i bs l] overwrites the elements of [l] from index [i] with [bs]; it is undefined
    when the range leaves the array. *)

Definition upd_range {A} (i : nat) (bs l : list A) : option (list A) :=
  if decide (i + length bs ≤ length l)%nat
  then Some (take i l ++ bs ++ drop (i + length bs) l)
  else None.

Definition slice {A} (i n : nat) (l : list A) : list A := take n (drop i l).

Lemma length_upd_range {A} i (bs l l' : list A) :
  upd_range i bs l = Some l' → length l' = length l.
Proof.
  unfold upd_range. intros H. case_decide; simplify_eq.
  rewrite !length_app, length_take, length_drop. lia.
Qed.

Lemma upd_range_lookup_in {A} i (bs l l' : list A) j :
  upd_range i bs l = Some l' → (j < length bs)%nat → l' !! (i + j)%nat = bs !! j.
Proof.
  unfold upd_range. intros H Hj. case_decide; simplify_eq.
  rewrite lookup_app_r by (rewrite length_take; lia). rewrite length_take.
  replace (i + j - i `min` length l)%nat with j by lia.
  by rewrite lookup_app_l by lia.
Qed.

Lemma upd_range_lookup_out {A} i (bs l l' : list A) j :
  upd_range i bs l = Some l' → (j < i ∨ i + length bs ≤ j)%nat → l' !! j = l !! j.
Proof.
  unfold upd_range. intros H Hj. case_decide; simplify_eq.
  destruct Hj as [Hj|Hj].
  - rewrite lookup_app_l by (rewrite length_take; lia). by rewrite lookup_take_lt by lia.
  - rewrite lookup_app_r by (rewrite length_take; lia). rewrite length_take.
    rewrite lookup_app_r by lia. rewrite lookup_drop. f_equal. lia.
Qed.

Lemma upd_range_is_Some {A} i (bs l : list A) :
  (i + length bs ≤ length l)%nat → is_Some (upd_range i bs l).
Proof. intros. unfold upd_range. rewrite decide_True by done. eauto. Qed.

Lemma take_slice {A} i n (l : list A) : take (i + n) l = take i l ++ slice i n l.
Proof. unfold slice. by rewrite take_take_drop. Qed.

Lemma slice_app {A} i m n (l : list A) : slice i (m + n) l = slice i m l ++ slice (i + m) n l.
Proof. unfold slice. by rewrite <-drop_drop, take_take_drop. Qed.

Lemma length_slice {A} i n (l : list A) : (i + n ≤ length l)%nat → length (slice i n l) = n.
Proof. intros. unfold slice. rewrite length_take, length_drop. lia. Qed.

Lemma Forall_slice {A} (P : A → Prop) i n l : Forall P l → Forall P (slice i n l).
Proof. intros. unfold slice. by apply Forall_take, Forall_drop. Qed.

Lemma slice_1 {A} i (l : list A) x : l !! i = Some x → slice i 1 l = [x].
Proof.
  intros H. unfold slice. erewrite drop_S by done. done.
Qed.

Lemma slice_0 {A} i (l : list A) : slice i 0 l = [].
Proof. done. Qed.

(** A little-endian field of a byte list determines its bytes. *)
Lemma le_bytes_slice i n bs :
  Forall (λ b, is_byte b) bs → (i + n ≤ length bs)%nat → le_bytes n (le_val (slice i n bs)) = slice i n bs.
Proof.
  intros Hb Hl. rewrite <-(length_slice i n bs Hl) at 1. apply le_bytes_val, Forall_slice, Hb.
Qed.

Lemma le_val_slice_range i n bs :
  Forall (λ b, is_byte b) bs → (i + n ≤ length bs)%nat →
  0 ≤ le_val (slice i n bs) < 2 ^ (8 * Z.of_nat n).
Proof.
  intros Hb Hl. rewrite <-(length_slice i n bs Hl) at 3. apply le_val_range, Forall_slice, Hb.
Qed.

Lemma slice_upd_in {A} i (bs l l' : list A) :
  upd_range i bs l = Some l' → slice i (length bs) l' = bs.
Proof.
  unfold upd_range, slice. intros H. case_decide; simplify_eq.
  rewrite drop_app_ge by (rewrite length_take; lia). rewrite length_take.
  replace (i - i `min` length l)%nat with 0%nat by lia. rewrite drop_0.
  by rewrite take_app_le, take_ge by lia.
Qed.

Lemma slice_ext {A} i n (l l' : list A) :
  (∀ j, (i ≤ j < i + n)%nat → l' !! j = l !! j) → slice i n l' = slice i n l.
Proof.
  intros H. apply list_eq. intros j. unfold slice. destruct (decide (j < n)%nat).
  - rewrite !lookup_take_lt, !lookup_drop by lia. apply H. lia.
  - by rewrite !lookup_take_ge by lia.
Qed.

Lemma slice_upd_out {A} i (bs l l' : list A) j n :
  upd_range i bs l = Some l' → (j + n ≤ i ∨ i + length bs ≤ j)%nat → slice j n l' = slice j n l.
Proof. intros H Hj. apply slice_ext. intros k Hk. eapply upd_range_lookup_out; [done|lia]. Qed.

(** [wrote off bs buf buf']: [buf'] is [buf] with [bs] written from index [off]. *)
Record wrote {A} (off : nat) (bs buf buf' : list A) : Prop := {
  wrote_length : length buf' = length buf;
  wrote_in : slice off (length bs) buf' = bs;
  wrote_out : ∀ j n, (j + n ≤ off ∨ off + length bs ≤ j)%nat → slice j n buf' = slice j n buf;
}.

Lemma upd_range_wrote {A} i (bs l : list A) :
  (i + length bs ≤ length l)%nat → ∃ l', upd_range i bs l = Some l' ∧ wrote i bs l l'.
Proof.
  intros H. destruct (upd_range_is_Some i bs l H) as [l' Hl']. exists l'. split; [done|]. split.
  - by eapply length_upd_range.
  - by eapply slice_upd_in.
  - intros. by eapply slice_upd_out.
Qed.

Lemma wrote_app {A} i (b1 b2 l l1 l2 : list A) :
  wrote i b1 l l1 → wrote (i + length b1) b2 l1 l2 → wrote i (b1 ++ b2) l l2.
Proof.
  intros [L1 I1 O1] [L2 I2 O2]. split; [congruence|..]; rewrite length_app.
  - rewrite slice_app, I2, O2, I1 by lia. done.
  - intros j n Hj. by rewrite O2, O1 by lia.
Qed.

Lemma wrote_nil {A} i (l : list A) : wrote i [] l l.
Proof. by split. Qed.

(** Writing behind a known prefix, after a gap of [g] elements. *)
Lemma upd_range_append {A} (pre rest bs : list A) g :
  (g + length bs ≤ length rest)%nat →
  upd_range (length pre + g) bs (pre ++ rest) =
    Some ((pre ++ take g rest ++ bs) ++ drop (g + length bs) rest).
Proof.
  intros H. unfold upd_range. rewrite decide_True by (rewrite length_app; lia). f_equal.
  rewrite take_app_ge, drop_app_ge by lia.
  replace (length pre + g - length pre)%nat with g by lia.
  replace (length pre + g + length bs - length pre)%nat with (g + length bs)%nat by lia.
  by rewrite <-!app_assoc.
Qed.

Lemma align4 x : 0 ≤ x < 2 ^ 32 → Z.land x (wrap 32 (Z.lnot 3)) = 4 * (x / 4).
Proof.
  intros Hx. unfold wrap. rewrite <-(Z.land_ones _ 32), (Z.land_comm (Z.lnot 3)), Z.land_assoc by lia.
  rewrite Z.land_ones, Z.mod_small by lia. change 3 with (Z.ones 2).
  rewrite <-Z.ldiff_land, Z.ldiff_ones_r, Z.shiftl_mul_pow2, Z.shiftr_div_pow2 by lia. change (2 ^ 2) with 4. lia.
Qed.

(** ** Bit operations as arithmetic *)

Ltac divmod := Z.div_mod_to_equations; lia.

Lemma lor_disjoint a b k : 0 ≤ k → 0 ≤ a < 2 ^ k → Z.lor (b * 2 ^ k) a = b * 2 ^ k + a.
Proof.
  intros Hk Ha. symmetry. apply Z.add_nocarry_lor.
  apply Z.bits_inj'. intros n Hn. rewrite Z.land_spec, Z.bits_0.
  destruct (decide (n < k)).
  - rewrite Z.mul_pow2_bits_low by lia. done.
  - destruct (decide (a = 0)) as [->|]; [rewrite Z.bits_0; apply andb_false_r|].
    rewrite (Z.bits_above_log2 a); [apply andb_false_r|lia|]. apply Z.log2_lt_pow2; [lia|].
    apply Z.lt_le_trans with (2 ^ k); [lia|]. apply Z.pow_le_mono_r; lia.
Qed.

(** A fact about a byte, checked for all 256. *)
Lemma byte_cases (P : Z → Prop) `{∀ b, Decision (P b)} :
  forallb (λ n, bool_decide (P (Z.of_nat n))) (seq 0 256) = true → ∀ b, is_byte b → P b.
Proof.
  intros Hall b Hb. rewrite forallb_forall in Hall. specialize (Hall (Z.to_nat b)). rewrite Z2Nat.id in Hall by lia.
  apply (bool_decide_eq_true (P b)), Hall, in_seq. lia.
Qed.

(** [check_bytes]: a goal [∀ b, is_byte b → P b], by computation. *)
Ltac check_bytes :=
  let b := fresh in let Hb := fresh in intros b Hb; pattern b;
  match goal with |- ?P b => refine (byte_cases P _ b Hb); vm_compute; reflexivity end.

(** ** Sums over the entries of a map *)

Definition weigh {A} (w : A → nat) (m : gmap nat A) : nat := map_fold (λ _ l acc, (w l + acc)%nat) 0%nat m.
Definition weight_at {A} (w : A → nat) (o : option A) : nat := match o with Some l => w l | None => 0 end.

Section Weigh.
Context {A : Type} (w : A → nat).

Lemma weigh_delete m i : weigh w m = (weight_at w (m !! i) + weigh w (delete i m))%nat.
Proof.
  destruct (m !! i) as [l|] eqn:E; cbn; [|by rewrite delete_id]. rewrite <-(insert_delete_id m i l E) at 1. unfold weigh.
  apply (map_fold_insert_L (λ _ l acc, (w l + acc)%nat)); [intros; lia|apply lookup_delete_eq].
Qed.

Lemma weigh_insert m i l : (weigh w (<[i := l]> m) + weight_at w (m !! i) = weigh w m + w l)%nat.
Proof. rewrite (weigh_delete _ i), (weigh_delete m i), lookup_insert_eq, delete_insert_eq. cbn. lia. Qed.

Lemma weigh_fmap (f : A → A) m : (∀ l, w (f l) = w l) → weigh w (f <$> m) = weigh w m.
Proof.
  intros Hw. induction m as [|i l m Hi IH] using map_ind; [by rewrite fmap_empty|].
  rewrite fmap_insert, !(weigh_delete (<[i := _]> _) i), !lookup_insert_eq, !delete_insert_eq, !delete_id by (by rewrite ?lookup_fmap, ?Hi).
  cbn. by rewrite IH, Hw.
Qed.
End Weigh.
