(* ===== verification/ILOpcodes.v ===== *)
(** * The IL opcode tables (opcode.def as il_rewriter.h and il_rewriter.cpp expand it)

    The rows of lib/coreclr/src/inc/opcode.def in order, with the two columns that
    il_rewriter.cpp uses: the operand kind (expanded into [s_OpCodeFlags]) and the stack pushes
    (expanded into [k_rgnStackPushes]).  An opcode's value is its row number, which is how the
    OPCODE enumeration of il_rewriter.h numbers it. *)

From S2P Require Import Prelude.

(** Operand kinds and stack pushes, by the names of opcode.def. *)
Inductive OpArgs :=
| InlineNone | ShortInlineVar | InlineVar | ShortInlineI | InlineI | InlineI8 | ShortInlineR
| InlineR | ShortInlineBrTarget | InlineBrTarget | InlineMethod | InlineField | InlineType
| InlineString | InlineSig | InlineRVA | InlineTok | InlineSwitch.

Inductive OpPush :=
| Push0 | Push1 | PushI | PushI4 | PushR4 | PushI8 | PushR8 | PushRef | VarPush.

Record OpDef := OPDEF { op_name : string; op_push : list OpPush; op_args : OpArgs }.

Definition opcode_def : list OpDef := [
  OPDEF "CEE_NOP" [Push0] InlineNone;
  OPDEF "CEE_BREAK" [Push0] InlineNone;
  OPDEF "CEE_LDARG_0" [Push1] InlineNone;
  OPDEF "CEE_LDARG_1" [Push1] InlineNone;
  OPDEF "CEE_LDARG_2" [Push1] InlineNone;
  OPDEF "CEE_LDARG_3" [Push1] InlineNone;
  OPDEF "CEE_LDLOC_0" [Push1] InlineNone;
  OPDEF "CEE_LDLOC_1" [Push1] InlineNone;
  OPDEF "CEE_LDLOC_2" [Push1] InlineNone;
  OPDEF "CEE_LDLOC_3" [Push1] InlineNone;
  OPDEF "CEE_STLOC_0" [Push0] InlineNone;
  OPDEF "CEE_STLOC_1" [Push0] InlineNone;
  OPDEF "CEE_STLOC_2" [Push0] InlineNone;
  OPDEF "CEE_STLOC_3" [Push0] InlineNone;
  OPDEF "CEE_LDARG_S" [Push1] ShortInlineVar;
  OPDEF "CEE_LDARGA_S" [PushI] ShortInlineVar;
  OPDEF "CEE_STARG_S" [Push0] ShortInlineVar;
  OPDEF "CEE_LDLOC_S" [Push1] ShortInlineVar;
  OPDEF "CEE_LDLOCA_S" [PushI] ShortInlineVar;
  OPDEF "CEE_STLOC_S" [Push0] ShortInlineVar;
  OPDEF "CEE_LDNULL" [PushRef] InlineNone;
  OPDEF "CEE_LDC_I4_M1" [PushI] InlineNone;
  OPDEF "CEE_LDC_I4_0" [PushI] InlineNone;
  OPDEF "CEE_LDC_I4_1" [PushI] InlineNone;
  OPDEF "CEE_LDC_I4_2" [PushI] InlineNone;
  OPDEF "CEE_LDC_I4_3" [PushI] InlineNone;
  OPDEF "CEE_LDC_I4_4" [PushI] InlineNone;
  OPDEF "CEE_LDC_I4_5" [PushI] InlineNone;
  OPDEF "CEE_LDC_I4_6" [PushI] InlineNone;
  OPDEF "CEE_LDC_I4_7" [PushI] InlineNone;
  OPDEF "CEE_LDC_I4_8" [PushI] InlineNone;
  OPDEF "CEE_LDC_I4_S" [PushI] ShortInlineI;
  OPDEF "CEE_LDC_I4" [PushI] InlineI;
  OPDEF "CEE_LDC_I8" [PushI8] InlineI8;
  OPDEF "CEE_LDC_R4" [PushR4] ShortInlineR;
  OPDEF "CEE_LDC_R8" [PushR8] InlineR;
  OPDEF "CEE_UNUSED49" [Push0] InlineNone;
  OPDEF "CEE_DUP" [Push1; Push1] InlineNone;
  OPDEF "CEE_POP" [Push0] InlineNone;
  OPDEF "CEE_JMP" [Push0] InlineMethod;
  OPDEF "CEE_CALL" [VarPush] InlineMethod;
  OPDEF "CEE_CALLI" [VarPush] InlineSig;
  OPDEF "CEE_RET" [Push0] InlineNone;
  OPDEF "CEE_BR_S" [Push0] ShortInlineBrTarget;
  OPDEF "CEE_BRFALSE_S" [Push0] ShortInlineBrTarget;
  OPDEF "CEE_BRTRUE_S" [Push0] ShortInlineBrTarget;
  OPDEF "CEE_BEQ_S" [Push0] ShortInlineBrTarget;
  OPDEF "CEE_BGE_S" [Push0] ShortInlineBrTarget;
  OPDEF "CEE_BGT_S" [Push0] ShortInlineBrTarget;
  OPDEF "CEE_BLE_S" [Push0] ShortInlineBrTarget;
  OPDEF "CEE_BLT_S" [Push0] ShortInlineBrTarget;
  OPDEF "CEE_BNE_UN_S" [Push0] ShortInlineBrTarget;
  OPDEF "CEE_BGE_UN_S" [Push0] ShortInlineBrTarget;
  OPDEF "CEE_BGT_UN_S" [Push0] ShortInlineBrTarget;
  OPDEF "CEE_BLE_UN_S" [Push0] ShortInlineBrTarget;
  OPDEF "CEE_BLT_UN_S" [Push0] ShortInlineBrTarget;
  OPDEF "CEE_BR" [Push0] InlineBrTarget;
  OPDEF "CEE_BRFALSE" [Push0] InlineBrTarget;
  OPDEF "CEE_BRTRUE" [Push0] InlineBrTarget;
  OPDEF "CEE_BEQ" [Push0] InlineBrTarget;
  OPDEF "CEE_BGE" [Push0] InlineBrTarget;
  OPDEF "CEE_BGT" [Push0] InlineBrTarget;
  OPDEF "CEE_BLE" [Push0] InlineBrTarget;
  OPDEF "CEE_BLT" [Push0] InlineBrTarget;
  OPDEF "CEE_BNE_UN" [Push0] InlineBrTarget;
  OPDEF "CEE_BGE_UN" [Push0] InlineBrTarget;
  OPDEF "CEE_BGT_UN" [Push0] InlineBrTarget;
  OPDEF "CEE_BLE_UN" [Push0] InlineBrTarget;
  OPDEF "CEE_BLT_UN" [Push0] InlineBrTarget;
  OPDEF "CEE_SWITCH" [Push0] InlineSwitch;
  OPDEF "CEE_LDIND_I1" [PushI] InlineNone;
  OPDEF "CEE_LDIND_U1" [PushI] InlineNone;
  OPDEF "CEE_LDIND_I2" [PushI] InlineNone;
  OPDEF "CEE_LDIND_U2" [PushI] InlineNone;
  OPDEF "CEE_LDIND_I4" [PushI] InlineNone;
  OPDEF "CEE_LDIND_U4" [PushI] InlineNone;
  OPDEF "CEE_LDIND_I8" [PushI8] InlineNone;
  OPDEF "CEE_LDIND_I" [PushI] InlineNone;
  OPDEF "CEE_LDIND_R4" [PushR4] InlineNone;
  OPDEF "CEE_LDIND_R8" [PushR8] InlineNone;
  OPDEF "CEE_LDIND_REF" [PushRef] InlineNone;
  OPDEF "CEE_STIND_REF" [Push0] InlineNone;
  OPDEF "CEE_STIND_I1" [Push0] InlineNone;
  OPDEF "CEE_STIND_I2" [Push0] InlineNone;
  OPDEF "CEE_STIND_I4" [Push0] InlineNone;
  OPDEF "CEE_STIND_I8" [Push0] InlineNone;
  OPDEF "CEE_STIND_R4" [Push0] InlineNone;
  OPDEF "CEE_STIND_R8" [Push0] InlineNone;
  OPDEF "CEE_ADD" [Push1] InlineNone;
  OPDEF "CEE_SUB" [Push1] InlineNone;
  OPDEF "CEE_MUL" [Push1] InlineNone;
  OPDEF "CEE_DIV" [Push1] InlineNone;
  OPDEF "CEE_DIV_UN" [Push1] InlineNone;
  OPDEF "CEE_REM" [Push1] InlineNone;
  OPDEF "CEE_REM_UN" [Push1] InlineNone;
  OPDEF "CEE_AND" [Push1] InlineNone;
  OPDEF "CEE_OR" [Push1] InlineNone;
  OPDEF "CEE_XOR" [Push1] InlineNone;
  OPDEF "CEE_SHL" [Push1] InlineNone;
  OPDEF "CEE_SHR" [Push1] InlineNone;
  OPDEF "CEE_SHR_UN" [Push1] InlineNone;
  OPDEF "CEE_NEG" [Push1] InlineNone;
  OPDEF "CEE_NOT" [Push1] InlineNone;
  OPDEF "CEE_CONV_I1" [PushI] InlineNone;
  OPDEF "CEE_CONV_I2" [PushI] InlineNone;
  OPDEF "CEE_CONV_I4" [PushI] InlineNone;
  OPDEF "CEE_CONV_I8" [PushI8] InlineNone;
  OPDEF "CEE_CONV_R4" [PushR4] InlineNone;
  OPDEF "CEE_CONV_R8" [PushR8] InlineNone;
  OPDEF "CEE_CONV_U4" [PushI] InlineNone;
  OPDEF "CEE_CONV_U8" [PushI8] InlineNone;
  OPDEF "CEE_CALLVIRT" [VarPush] InlineMethod;
  OPDEF "CEE_CPOBJ" [Push0] InlineType;
  OPDEF "CEE_LDOBJ" [Push1] InlineType;
  OPDEF "CEE_LDSTR" [PushRef] InlineString;
  OPDEF "CEE_NEWOBJ" [PushRef] InlineMethod;
  OPDEF "CEE_CASTCLASS" [PushRef] InlineType;
  OPDEF "CEE_ISINST" [PushI] InlineType;
  OPDEF "CEE_CONV_R_UN" [PushR8] InlineNone;
  OPDEF "CEE_UNUSED58" [Push0] InlineNone;
  OPDEF "CEE_UNUSED1" [Push0] InlineNone;
  OPDEF "CEE_UNBOX" [PushI] InlineType;
  OPDEF "CEE_THROW" [Push0] InlineNone;
  OPDEF "CEE_LDFLD" [Push1] InlineField;
  OPDEF "CEE_LDFLDA" [PushI] InlineField;
  OPDEF "CEE_STFLD" [Push0] InlineField;
  OPDEF "CEE_LDSFLD" [Push1] InlineField;
  OPDEF "CEE_LDSFLDA" [PushI] InlineField;
  OPDEF "CEE_STSFLD" [Push0] InlineField;
  OPDEF "CEE_STOBJ" [Push0] InlineType;
  OPDEF "CEE_CONV_OVF_I1_UN" [PushI] InlineNone;
  OPDEF "CEE_CONV_OVF_I2_UN" [PushI] InlineNone;
  OPDEF "CEE_CONV_OVF_I4_UN" [PushI] InlineNone;
  OPDEF "CEE_CONV_OVF_I8_UN" [PushI8] InlineNone;
  OPDEF "CEE_CONV_OVF_U1_UN" [PushI] InlineNone;
  OPDEF "CEE_CONV_OVF_U2_UN" [PushI] InlineNone;
  OPDEF "CEE_CONV_OVF_U4_UN" [PushI] InlineNone;
  OPDEF "CEE_CONV_OVF_U8_UN" [PushI8] InlineNone;
  OPDEF "CEE_CONV_OVF_I_UN" [PushI] InlineNone;
  OPDEF "CEE_CONV_OVF_U_UN" [PushI] InlineNone;
  OPDEF "CEE_BOX" [PushRef] InlineType;
  OPDEF "CEE_NEWARR" [PushRef] InlineType;
  OPDEF "CEE_LDLEN" [PushI] InlineNone;
  OPDEF "CEE_LDELEMA" [PushI] InlineType;
  OPDEF "CEE_LDELEM_I1" [PushI] InlineNone;
  OPDEF "CEE_LDELEM_U1" [PushI] InlineNone;
  OPDEF "CEE_LDELEM_I2" [PushI] InlineNone;
  OPDEF "CEE_LDELEM_U2" [PushI] InlineNone;
  OPDEF "CEE_LDELEM_I4" [PushI] InlineNone;
  OPDEF "CEE_LDELEM_U4" [PushI] InlineNone;
  OPDEF "CEE_LDELEM_I8" [PushI8] InlineNone;
  OPDEF "CEE_LDELEM_I" [PushI] InlineNone;
  OPDEF "CEE_LDELEM_R4" [PushR4] InlineNone;
  OPDEF "CEE_LDELEM_R8" [PushR8] InlineNone;
  OPDEF "CEE_LDELEM_REF" [PushRef] InlineNone;
  OPDEF "CEE_STELEM_I" [Push0] InlineNone;
  OPDEF "CEE_STELEM_I1" [Push0] InlineNone;
  OPDEF "CEE_STELEM_I2" [Push0] InlineNone;
  OPDEF "CEE_STELEM_I4" [Push0] InlineNone;
  OPDEF "CEE_STELEM_I8" [Push0] InlineNone;
  OPDEF "CEE_STELEM_R4" [Push0] InlineNone;
  OPDEF "CEE_STELEM_R8" [Push0] InlineNone;
  OPDEF "CEE_STELEM_REF" [Push0] InlineNone;
  OPDEF "CEE_LDELEM" [Push1] InlineType;
  OPDEF "CEE_STELEM" [Push0] InlineType;
  OPDEF "CEE_UNBOX_ANY" [Push1] InlineType;
  OPDEF "CEE_UNUSED5" [Push0] InlineNone;
  OPDEF "CEE_UNUSED6" [Push0] InlineNone;
  OPDEF "CEE_UNUSED7" [Push0] InlineNone;
  OPDEF "CEE_UNUSED8" [Push0] InlineNone;
  OPDEF "CEE_UNUSED9" [Push0] InlineNone;
  OPDEF "CEE_UNUSED10" [Push0] InlineNone;
  OPDEF "CEE_UNUSED11" [Push0] InlineNone;
  OPDEF "CEE_UNUSED12" [Push0] InlineNone;
  OPDEF "CEE_UNUSED13" [Push0] InlineNone;
  OPDEF "CEE_UNUSED14" [Push0] InlineNone;
  OPDEF "CEE_UNUSED15" [Push0] InlineNone;
  OPDEF "CEE_UNUSED16" [Push0] InlineNone;
  OPDEF "CEE_UNUSED17" [Push0] InlineNone;
  OPDEF "CEE_CONV_OVF_I1" [PushI] InlineNone;
  OPDEF "CEE_CONV_OVF_U1" [PushI] InlineNone;
  OPDEF "CEE_CONV_OVF_I2" [PushI] InlineNone;
  OPDEF "CEE_CONV_OVF_U2" [PushI] InlineNone;
  OPDEF "CEE_CONV_OVF_I4" [PushI] InlineNone;
  OPDEF "CEE_CONV_OVF_U4" [PushI] InlineNone;
  OPDEF "CEE_CONV_OVF_I8" [PushI8] InlineNone;
  OPDEF "CEE_CONV_OVF_U8" [PushI8] InlineNone;
  OPDEF "CEE_UNUSED50" [Push0] InlineNone;
  OPDEF "CEE_UNUSED18" [Push0] InlineNone;
  OPDEF "CEE_UNUSED19" [Push0] InlineNone;
  OPDEF "CEE_UNUSED20" [Push0] InlineNone;
  OPDEF "CEE_UNUSED21" [Push0] InlineNone;
  OPDEF "CEE_UNUSED22" [Push0] InlineNone;
  OPDEF "CEE_UNUSED23" [Push0] InlineNone;
  OPDEF "CEE_REFANYVAL" [PushI] InlineType;
  OPDEF "CEE_CKFINITE" [PushR8] InlineNone;
  OPDEF "CEE_UNUSED24" [Push0] InlineNone;
  OPDEF "CEE_UNUSED25" [Push0] InlineNone;
  OPDEF "CEE_MKREFANY" [Push1] InlineType;
  OPDEF "CEE_UNUSED59" [Push0] InlineNone;
  OPDEF "CEE_UNUSED60" [Push0] InlineNone;
  OPDEF "CEE_UNUSED61" [Push0] InlineNone;
  OPDEF "CEE_UNUSED62" [Push0] InlineNone;
  OPDEF "CEE_UNUSED63" [Push0] InlineNone;
  OPDEF "CEE_UNUSED64" [Push0] InlineNone;
  OPDEF "CEE_UNUSED65" [Push0] InlineNone;
  OPDEF "CEE_UNUSED66" [Push0] InlineNone;
  OPDEF "CEE_UNUSED67" [Push0] InlineNone;
  OPDEF "CEE_LDTOKEN" [PushI] InlineTok;
  OPDEF "CEE_CONV_U2" [PushI] InlineNone;
  OPDEF "CEE_CONV_U1" [PushI] InlineNone;
  OPDEF "CEE_CONV_I" [PushI] InlineNone;
  OPDEF "CEE_CONV_OVF_I" [PushI] InlineNone;
  OPDEF "CEE_CONV_OVF_U" [PushI] InlineNone;
  OPDEF "CEE_ADD_OVF" [Push1] InlineNone;
  OPDEF "CEE_ADD_OVF_UN" [Push1] InlineNone;
  OPDEF "CEE_MUL_OVF" [Push1] InlineNone;
  OPDEF "CEE_MUL_OVF_UN" [Push1] InlineNone;
  OPDEF "CEE_SUB_OVF" [Push1] InlineNone;
  OPDEF "CEE_SUB_OVF_UN" [Push1] InlineNone;
  OPDEF "CEE_ENDFINALLY" [Push0] InlineNone;
  OPDEF "CEE_LEAVE" [Push0] InlineBrTarget;
  OPDEF "CEE_LEAVE_S" [Push0] ShortInlineBrTarget;
  OPDEF "CEE_STIND_I" [Push0] InlineNone;
  OPDEF "CEE_CONV_U" [PushI] InlineNone;
  OPDEF "CEE_UNUSED26" [Push0] InlineNone;
  OPDEF "CEE_UNUSED27" [Push0] InlineNone;
  OPDEF "CEE_UNUSED28" [Push0] InlineNone;
  OPDEF "CEE_UNUSED29" [Push0] InlineNone;
  OPDEF "CEE_UNUSED30" [Push0] InlineNone;
  OPDEF "CEE_UNUSED31" [Push0] InlineNone;
  OPDEF "CEE_UNUSED32" [Push0] InlineNone;
  OPDEF "CEE_UNUSED33" [Push0] InlineNone;
  OPDEF "CEE_UNUSED34" [Push0] InlineNone;
  OPDEF "CEE_UNUSED35" [Push0] InlineNone;
  OPDEF "CEE_UNUSED36" [Push0] InlineNone;
  OPDEF "CEE_UNUSED37" [Push0] InlineNone;
  OPDEF "CEE_UNUSED38" [Push0] InlineNone;
  OPDEF "CEE_UNUSED39" [Push0] InlineNone;
  OPDEF "CEE_UNUSED40" [Push0] InlineNone;
  OPDEF "CEE_UNUSED41" [Push0] InlineNone;
  OPDEF "CEE_UNUSED42" [Push0] InlineNone;
  OPDEF "CEE_UNUSED43" [Push0] InlineNone;
  OPDEF "CEE_UNUSED44" [Push0] InlineNone;
  OPDEF "CEE_UNUSED45" [Push0] InlineNone;
  OPDEF "CEE_UNUSED46" [Push0] InlineNone;
  OPDEF "CEE_UNUSED47" [Push0] InlineNone;
  OPDEF "CEE_UNUSED48" [Push0] InlineNone;
  OPDEF "CEE_PREFIX7" [Push0] InlineNone;
  OPDEF "CEE_PREFIX6" [Push0] InlineNone;
  OPDEF "CEE_PREFIX5" [Push0] InlineNone;
  OPDEF "CEE_PREFIX4" [Push0] InlineNone;
  OPDEF "CEE_PREFIX3" [Push0] InlineNone;
  OPDEF "CEE_PREFIX2" [Push0] InlineNone;
  OPDEF "CEE_PREFIX1" [Push0] InlineNone;
  OPDEF "CEE_PREFIXREF" [Push0] InlineNone;
  OPDEF "CEE_ARGLIST" [PushI] InlineNone;
  OPDEF "CEE_CEQ" [PushI] InlineNone;
  OPDEF "CEE_CGT" [PushI] InlineNone;
  OPDEF "CEE_CGT_UN" [PushI] InlineNone;
  OPDEF "CEE_CLT" [PushI] InlineNone;
  OPDEF "CEE_CLT_UN" [PushI] InlineNone;
  OPDEF "CEE_LDFTN" [PushI] InlineMethod;
  OPDEF "CEE_LDVIRTFTN" [PushI] InlineMethod;
  OPDEF "CEE_UNUSED56" [Push0] InlineNone;
  OPDEF "CEE_LDARG" [Push1] InlineVar;
  OPDEF "CEE_LDARGA" [PushI] InlineVar;
  OPDEF "CEE_STARG" [Push0] InlineVar;
  OPDEF "CEE_LDLOC" [Push1] InlineVar;
  OPDEF "CEE_LDLOCA" [PushI] InlineVar;
  OPDEF "CEE_STLOC" [Push0] InlineVar;
  OPDEF "CEE_LOCALLOC" [PushI] InlineNone;
  OPDEF "CEE_UNUSED57" [Push0] InlineNone;
  OPDEF "CEE_ENDFILTER" [Push0] InlineNone;
  OPDEF "CEE_UNALIGNED" [Push0] ShortInlineI;
  OPDEF "CEE_VOLATILE" [Push0] InlineNone;
  OPDEF "CEE_TAILCALL" [Push0] InlineNone;
  OPDEF "CEE_INITOBJ" [Push0] InlineType;
  OPDEF "CEE_CONSTRAINED" [Push0] InlineType;
  OPDEF "CEE_CPBLK" [Push0] InlineNone;
  OPDEF "CEE_INITBLK" [Push0] InlineNone;
  OPDEF "CEE_UNUSED69" [Push0] InlineNone;
  OPDEF "CEE_RETHROW" [Push0] InlineNone;
  OPDEF "CEE_UNUSED51" [Push0] InlineNone;
  OPDEF "CEE_SIZEOF" [PushI] InlineType;
  OPDEF "CEE_REFANYTYPE" [PushI] InlineNone;
  OPDEF "CEE_READONLY" [Push0] InlineNone;
  OPDEF "CEE_UNUSED53" [Push0] InlineNone;
  OPDEF "CEE_UNUSED54" [Push0] InlineNone;
  OPDEF "CEE_UNUSED55" [Push0] InlineNone;
  OPDEF "CEE_UNUSED70" [Push0] InlineNone;
  OPDEF "CEE_ILLEGAL" [Push0] InlineNone;
  OPDEF "CEE_MACRO_END" [Push0] InlineNone;
  OPDEF "CEE_CODE_LABEL" [Push0] InlineNone
].

(** ** Opcode values *)

Definition opcode_value (name : string) : Z :=
  match list_find (λ d, op_name d = name) opcode_def with
  | Some (i, _) => Z.of_nat i
  | None => -1
  end.

Definition CEE_NOP : Z := Eval vm_compute in opcode_value "CEE_NOP".
Definition CEE_LDARG_0 : Z := Eval vm_compute in opcode_value "CEE_LDARG_0".
Definition CEE_LDARG_1 : Z := Eval vm_compute in opcode_value "CEE_LDARG_1".
Definition CEE_LDARG_2 : Z := Eval vm_compute in opcode_value "CEE_LDARG_2".
Definition CEE_LDARG_3 : Z := Eval vm_compute in opcode_value "CEE_LDARG_3".
Definition CEE_LDLOC_0 : Z := Eval vm_compute in opcode_value "CEE_LDLOC_0".
Definition CEE_LDLOC_1 : Z := Eval vm_compute in opcode_value "CEE_LDLOC_1".
Definition CEE_LDLOC_2 : Z := Eval vm_compute in opcode_value "CEE_LDLOC_2".
Definition CEE_LDLOC_3 : Z := Eval vm_compute in opcode_value "CEE_LDLOC_3".
Definition CEE_STLOC_0 : Z := Eval vm_compute in opcode_value "CEE_STLOC_0".
Definition CEE_STLOC_1 : Z := Eval vm_compute in opcode_value "CEE_STLOC_1".
Definition CEE_STLOC_2 : Z := Eval vm_compute in opcode_value "CEE_STLOC_2".
Definition CEE_STLOC_3 : Z := Eval vm_compute in opcode_value "CEE_STLOC_3".
Definition CEE_LDARG_S : Z := Eval vm_compute in opcode_value "CEE_LDARG_S".
Definition CEE_LDARGA_S : Z := Eval vm_compute in opcode_value "CEE_LDARGA_S".
Definition CEE_LDLOC_S : Z := Eval vm_compute in opcode_value "CEE_LDLOC_S".
Definition CEE_LDLOCA_S : Z := Eval vm_compute in opcode_value "CEE_LDLOCA_S".
Definition CEE_STLOC_S : Z := Eval vm_compute in opcode_value "CEE_STLOC_S".
Definition CEE_LDNULL : Z := Eval vm_compute in opcode_value "CEE_LDNULL".
Definition CEE_LDC_I4_0 : Z := Eval vm_compute in opcode_value "CEE_LDC_I4_0".
Definition CEE_LDC_I4_1 : Z := Eval vm_compute in opcode_value "CEE_LDC_I4_1".
Definition CEE_LDC_I4_2 : Z := Eval vm_compute in opcode_value "CEE_LDC_I4_2".
Definition CEE_LDC_I4_3 : Z := Eval vm_compute in opcode_value "CEE_LDC_I4_3".
Definition CEE_LDC_I4_4 : Z := Eval vm_compute in opcode_value "CEE_LDC_I4_4".
Definition CEE_LDC_I4_5 : Z := Eval vm_compute in opcode_value "CEE_LDC_I4_5".
Definition CEE_LDC_I4_6 : Z := Eval vm_compute in opcode_value "CEE_LDC_I4_6".
Definition CEE_LDC_I4_7 : Z := Eval vm_compute in opcode_value "CEE_LDC_I4_7".
Definition CEE_LDC_I4_8 : Z := Eval vm_compute in opcode_value "CEE_LDC_I4_8".
Definition CEE_LDC_I4_S : Z := Eval vm_compute in opcode_value "CEE_LDC_I4_S".
Definition CEE_LDC_I4 : Z := Eval vm_compute in opcode_value "CEE_LDC_I4".
Definition CEE_LDC_I8 : Z := Eval vm_compute in opcode_value "CEE_LDC_I8".
Definition CEE_DUP : Z := Eval vm_compute in opcode_value "CEE_DUP".
Definition CEE_POP : Z := Eval vm_compute in opcode_value "CEE_POP".
Definition CEE_CALL : Z := Eval vm_compute in opcode_value "CEE_CALL".
Definition CEE_RET : Z := Eval vm_compute in opcode_value "CEE_RET".
Definition CEE_BR_S : Z := Eval vm_compute in opcode_value "CEE_BR_S".
Definition CEE_BLT_UN_S : Z := Eval vm_compute in opcode_value "CEE_BLT_UN_S".
Definition CEE_BR : Z := Eval vm_compute in opcode_value "CEE_BR".
Definition CEE_BLT_UN : Z := Eval vm_compute in opcode_value "CEE_BLT_UN".
Definition CEE_SWITCH : Z := Eval vm_compute in opcode_value "CEE_SWITCH".
Definition CEE_CALLVIRT : Z := Eval vm_compute in opcode_value "CEE_CALLVIRT".
Definition CEE_LDOBJ : Z := Eval vm_compute in opcode_value "CEE_LDOBJ".
Definition CEE_LDSTR : Z := Eval vm_compute in opcode_value "CEE_LDSTR".
Definition CEE_CASTCLASS : Z := Eval vm_compute in opcode_value "CEE_CASTCLASS".
Definition CEE_LDFLDA : Z := Eval vm_compute in opcode_value "CEE_LDFLDA".
Definition CEE_LDSFLDA : Z := Eval vm_compute in opcode_value "CEE_LDSFLDA".
Definition CEE_BOX : Z := Eval vm_compute in opcode_value "CEE_BOX".
Definition CEE_NEWARR : Z := Eval vm_compute in opcode_value "CEE_NEWARR".
Definition CEE_STELEM_REF : Z := Eval vm_compute in opcode_value "CEE_STELEM_REF".
Definition CEE_UNBOX_ANY : Z := Eval vm_compute in opcode_value "CEE_UNBOX_ANY".
Definition CEE_LDTOKEN : Z := Eval vm_compute in opcode_value "CEE_LDTOKEN".
Definition CEE_ENDFINALLY : Z := Eval vm_compute in opcode_value "CEE_ENDFINALLY".
Definition CEE_LEAVE : Z := Eval vm_compute in opcode_value "CEE_LEAVE".
Definition CEE_LEAVE_S : Z := Eval vm_compute in opcode_value "CEE_LEAVE_S".
Definition CEE_PREFIX7 : Z := Eval vm_compute in opcode_value "CEE_PREFIX7".
Definition CEE_PREFIX2 : Z := Eval vm_compute in opcode_value "CEE_PREFIX2".
Definition CEE_PREFIX1 : Z := Eval vm_compute in opcode_value "CEE_PREFIX1".
Definition CEE_LDARG : Z := Eval vm_compute in opcode_value "CEE_LDARG".
Definition CEE_LDARGA : Z := Eval vm_compute in opcode_value "CEE_LDARGA".
Definition CEE_LDLOC : Z := Eval vm_compute in opcode_value "CEE_LDLOC".
Definition CEE_LDLOCA : Z := Eval vm_compute in opcode_value "CEE_LDLOCA".
Definition CEE_STLOC : Z := Eval vm_compute in opcode_value "CEE_STLOC".
Definition CEE_INITOBJ : Z := Eval vm_compute in opcode_value "CEE_INITOBJ".
Definition CEE_RETHROW : Z := Eval vm_compute in opcode_value "CEE_RETHROW".
Definition CEE_CONV_U : Z := Eval vm_compute in opcode_value "CEE_CONV_U".
Definition CEE_ISINST : Z := Eval vm_compute in opcode_value "CEE_ISINST".
Definition CEE_BRTRUE_S : Z := Eval vm_compute in opcode_value "CEE_BRTRUE_S".
Definition CEE_CEQ : Z := Eval vm_compute in opcode_value "CEE_CEQ".
Definition CEE_CGT_UN : Z := Eval vm_compute in opcode_value "CEE_CGT_UN".
Definition CEE_ENDFILTER : Z := Eval vm_compute in opcode_value "CEE_ENDFILTER".

(** The two values that close the enumeration after the rows of opcode.def. *)
Definition CEE_COUNT : Z := Eval vm_compute in Z.of_nat (length opcode_def).
Definition CEE_SWITCH_ARG : Z := Eval vm_compute in CEE_COUNT + 1.

(** ** [s_OpCodeFlags] *)

Definition OPCODEFLAGS_SizeMask : Z := 0x0F.
Definition OPCODEFLAGS_BranchTarget : Z := 0x10.
Definition OPCODEFLAGS_Switch : Z := 0x20.

Definition flags_of_args (a : OpArgs) : Z :=
  match a with
  | InlineNone => 0
  | ShortInlineVar => 1
  | InlineVar => 2
  | ShortInlineI => 1
  | InlineI => 4
  | InlineI8 => 8
  | ShortInlineR => 4
  | InlineR => 8
  | ShortInlineBrTarget => Z.lor 1 OPCODEFLAGS_BranchTarget
  | InlineBrTarget => Z.lor 4 OPCODEFLAGS_BranchTarget
  | InlineMethod | InlineField | InlineType | InlineString | InlineSig | InlineRVA
  | InlineTok => 4
  | InlineSwitch => Z.lor 0 OPCODEFLAGS_Switch
  end.

Definition s_OpCodeFlags : list Z :=
  (flags_of_args ∘ op_args <$> opcode_def) ++ [0; Z.lor 4 OPCODEFLAGS_BranchTarget].

(** ** [k_rgnStackPushes] *)

Definition push_count (p : OpPush) : Z :=
  match p with
  | Push0 => 0
  | Push1 | PushI | PushI4 | PushR4 | PushI8 | PushR8 | PushRef | VarPush => 1
  end.

Definition k_rgnStackPushes : list Z :=
  (λ d, foldr Z.add 0 (push_count <$> op_push d)) <$> opcode_def ++ [OPDEF "" [] InlineNone; OPDEF "" [] InlineNone].
