(* ===== verification/ILList.v ===== *)
(** * The instruction list of ILRewriter (il_rewriter.h, il_rewriter.cpp)

    The state of the class, the circular doubly linked list of [ILInstr] it owns, the operations
    on the list, and their refinement of operations on a sequence of instructions.

    Instructions live in a store indexed by address, so that [m_pNext], [m_pPrev] and
    [m_pTarget] are addresses and aliasing is the code's.  The union of [ILInstr] is its 64 bits
    of storage (x64: [m_pTarget] occupies all of them, [m_Arg8] the low 8, ...). *)

From S2P Require Import Prelude ILOpcodes.

(** ** Data *)

Record ILInstr := {
  m_pNext : Z;
  m_pPrev : Z;
  m_opcode : Z;
  m_offset : Z;
  m_Arg : Z; (* the anonymous union: 64 bits of storage *)
}.

Definition set_pNext (p : Z) (i : ILInstr) : ILInstr :=
  {| m_pNext := p; m_pPrev := m_pPrev i; m_opcode := m_opcode i; m_offset := m_offset i; m_Arg := m_Arg i |}.
Definition set_pPrev (p : Z) (i : ILInstr) : ILInstr :=
  {| m_pNext := m_pNext i; m_pPrev := p; m_opcode := m_opcode i; m_offset := m_offset i; m_Arg := m_Arg i |}.
Definition set_opcode (o : Z) (i : ILInstr) : ILInstr :=
  {| m_pNext := m_pNext i; m_pPrev := m_pPrev i; m_opcode := o; m_offset := m_offset i; m_Arg := m_Arg i |}.
Definition set_offset (o : Z) (i : ILInstr) : ILInstr :=
  {| m_pNext := m_pNext i; m_pPrev := m_pPrev i; m_opcode := m_opcode i; m_offset := o; m_Arg := m_Arg i |}.
Definition set_Arg (a : Z) (i : ILInstr) : ILInstr :=
  {| m_pNext := m_pNext i; m_pPrev := m_pPrev i; m_opcode := m_opcode i; m_offset := m_offset i; m_Arg := a |}.

(** Members of the union: reads are sign-extended, writes keep the bits above. *)
Definition m_Arg8 (i : ILInstr) : Z := s8 (m_Arg i).
Definition m_Arg16 (i : ILInstr) : Z := s16 (m_Arg i).
Definition m_Arg32 (i : ILInstr) : Z := s32 (m_Arg i).
Definition m_Arg64 (i : ILInstr) : Z := s64 (m_Arg i).
Definition m_pTarget (i : ILInstr) : Z := m_Arg i.
Definition set_low (w v : Z) (i : ILInstr) : ILInstr :=
  set_Arg (m_Arg i - wrap w (m_Arg i) + wrap w v) i.
Definition set_Arg8 : Z → ILInstr → ILInstr := set_low 8.
Definition set_Arg16 : Z → ILInstr → ILInstr := set_low 16.
Definition set_Arg32 : Z → ILInstr → ILInstr := set_low 32.
Definition set_Arg64 : Z → ILInstr → ILInstr := set_low 64.
Definition set_pTarget : Z → ILInstr → ILInstr := set_Arg.

(** [m_Class] is the storage of the union of [m_ClassToken] (its low 32 bits) and [m_pFilter]. *)
Record EHClause := {
  m_Flags : Z;
  m_pTryBegin : Z;
  m_pTryEnd : Z;
  m_pHandlerBegin : Z;
  m_pHandlerEnd : Z;
  m_Class : Z;
}.

(** The failure codes of the rewriter; [HR] is one that a CLR call returned. *)
Inductive HRESULT :=
| E_OUTOFMEMORY
| E_FAIL
| COR_E_INVALIDPROGRAM
| COR_E_INVALIDOPERATION
| COR_E_INDEXOUTOFRANGE
| HR (hr : Z).

Record ILRewriter := {
  m_pICorProfilerFunctionControl : bool; (* m_pICorProfilerFunctionControl != nullptr *)
  m_tkLocalVarSig : Z;
  m_maxStack : Z;
  m_flags : Z;
  m_fGenerateTinyHeader : bool;
  il_store : gmap Z ILInstr; (* every live ILInstr by address, the sentinel m_IL included *)
  il_fresh : Z; (* the address the next [new ILInstr()] returns *)
  m_nEH : Z;
  m_pEH : option (list EHClause); (* None is nullptr *)
  m_pOffsetToInstr : option (list Z); (* None is nullptr *)
  m_CodeSize : Z;
  m_nInstrs : Z;
  m_pOutputBuffer : option (list Z); (* None is nullptr *)
  il_body : option (list Z); (* the body last handed to the CLR *)
}.

Definition upd_m_pICorProfilerFunctionControl (f : bool → bool) (r : ILRewriter) : ILRewriter :=
  {| m_pICorProfilerFunctionControl := f (m_pICorProfilerFunctionControl r); m_tkLocalVarSig := m_tkLocalVarSig r; m_maxStack := m_maxStack r; m_flags := m_flags r; m_fGenerateTinyHeader := m_fGenerateTinyHeader r; il_store := il_store r; il_fresh := il_fresh r; m_nEH := m_nEH r; m_pEH := m_pEH r; m_pOffsetToInstr := m_pOffsetToInstr r; m_CodeSize := m_CodeSize r; m_nInstrs := m_nInstrs r; m_pOutputBuffer := m_pOutputBuffer r; il_body := il_body r |}.
Definition upd_m_tkLocalVarSig (f : Z → Z) (r : ILRewriter) : ILRewriter :=
  {| m_pICorProfilerFunctionControl := m_pICorProfilerFunctionControl r; m_tkLocalVarSig := f (m_tkLocalVarSig r); m_maxStack := m_maxStack r; m_flags := m_flags r; m_fGenerateTinyHeader := m_fGenerateTinyHeader r; il_store := il_store r; il_fresh := il_fresh r; m_nEH := m_nEH r; m_pEH := m_pEH r; m_pOffsetToInstr := m_pOffsetToInstr r; m_CodeSize := m_CodeSize r; m_nInstrs := m_nInstrs r; m_pOutputBuffer := m_pOutputBuffer r; il_body := il_body r |}.
Definition upd_m_maxStack (f : Z → Z) (r : ILRewriter) : ILRewriter :=
  {| m_pICorProfilerFunctionControl := m_pICorProfilerFunctionControl r; m_tkLocalVarSig := m_tkLocalVarSig r; m_maxStack := f (m_maxStack r); m_flags := m_flags r; m_fGenerateTinyHeader := m_fGenerateTinyHeader r; il_store := il_store r; il_fresh := il_fresh r; m_nEH := m_nEH r; m_pEH := m_pEH r; m_pOffsetToInstr := m_pOffsetToInstr r; m_CodeSize := m_CodeSize r; m_nInstrs := m_nInstrs r; m_pOutputBuffer := m_pOutputBuffer r; il_body := il_body r |}.
Definition upd_m_flags (f : Z → Z) (r : ILRewriter) : ILRewriter :=
  {| m_pICorProfilerFunctionControl := m_pICorProfilerFunctionControl r; m_tkLocalVarSig := m_tkLocalVarSig r; m_maxStack := m_maxStack r; m_flags := f (m_flags r); m_fGenerateTinyHeader := m_fGenerateTinyHeader r; il_store := il_store r; il_fresh := il_fresh r; m_nEH := m_nEH r; m_pEH := m_pEH r; m_pOffsetToInstr := m_pOffsetToInstr r; m_CodeSize := m_CodeSize r; m_nInstrs := m_nInstrs r; m_pOutputBuffer := m_pOutputBuffer r; il_body := il_body r |}.
Definition upd_m_fGenerateTinyHeader (f : bool → bool) (r : ILRewriter) : ILRewriter :=
  {| m_pICorProfilerFunctionControl := m_pICorProfilerFunctionControl r; m_tkLocalVarSig := m_tkLocalVarSig r; m_maxStack := m_maxStack r; m_flags := m_flags r; m_fGenerateTinyHeader := f (m_fGenerateTinyHeader r); il_store := il_store r; il_fresh := il_fresh r; m_nEH := m_nEH r; m_pEH := m_pEH r; m_pOffsetToInstr := m_pOffsetToInstr r; m_CodeSize := m_CodeSize r; m_nInstrs := m_nInstrs r; m_pOutputBuffer := m_pOutputBuffer r; il_body := il_body r |}.
Definition upd_il_store (f : gmap Z ILInstr → gmap Z ILInstr) (r : ILRewriter) : ILRewriter :=
  {| m_pICorProfilerFunctionControl := m_pICorProfilerFunctionControl r; m_tkLocalVarSig := m_tkLocalVarSig r; m_maxStack := m_maxStack r; m_flags := m_flags r; m_fGenerateTinyHeader := m_fGenerateTinyHeader r; il_store := f (il_store r); il_fresh := il_fresh r; m_nEH := m_nEH r; m_pEH := m_pEH r; m_pOffsetToInstr := m_pOffsetToInstr r; m_CodeSize := m_CodeSize r; m_nInstrs := m_nInstrs r; m_pOutputBuffer := m_pOutputBuffer r; il_body := il_body r |}.
Definition upd_il_fresh (f : Z → Z) (r : ILRewriter) : ILRewriter :=
  {| m_pICorProfilerFunctionControl := m_pICorProfilerFunctionControl r; m_tkLocalVarSig := m_tkLocalVarSig r; m_maxStack := m_maxStack r; m_flags := m_flags r; m_fGenerateTinyHeader := m_fGenerateTinyHeader r; il_store := il_store r; il_fresh := f (il_fresh r); m_nEH := m_nEH r; m_pEH := m_pEH r; m_pOffsetToInstr := m_pOffsetToInstr r; m_CodeSize := m_CodeSize r; m_nInstrs := m_nInstrs r; m_pOutputBuffer := m_pOutputBuffer r; il_body := il_body r |}.
Definition upd_m_nEH (f : Z → Z) (r : ILRewriter) : ILRewriter :=
  {| m_pICorProfilerFunctionControl := m_pICorProfilerFunctionControl r; m_tkLocalVarSig := m_tkLocalVarSig r; m_maxStack := m_maxStack r; m_flags := m_flags r; m_fGenerateTinyHeader := m_fGenerateTinyHeader r; il_store := il_store r; il_fresh := il_fresh r; m_nEH := f (m_nEH r); m_pEH := m_pEH r; m_pOffsetToInstr := m_pOffsetToInstr r; m_CodeSize := m_CodeSize r; m_nInstrs := m_nInstrs r; m_pOutputBuffer := m_pOutputBuffer r; il_body := il_body r |}.
Definition upd_m_pEH (f : option (list EHClause) → option (list EHClause)) (r : ILRewriter) : ILRewriter :=
  {| m_pICorProfilerFunctionControl := m_pICorProfilerFunctionControl r; m_tkLocalVarSig := m_tkLocalVarSig r; m_maxStack := m_maxStack r; m_flags := m_flags r; m_fGenerateTinyHeader := m_fGenerateTinyHeader r; il_store := il_store r; il_fresh := il_fresh r; m_nEH := m_nEH r; m_pEH := f (m_pEH r); m_pOffsetToInstr := m_pOffsetToInstr r; m_CodeSize := m_CodeSize r; m_nInstrs := m_nInstrs r; m_pOutputBuffer := m_pOutputBuffer r; il_body := il_body r |}.
Definition upd_m_pOffsetToInstr (f : option (list Z) → option (list Z)) (r : ILRewriter) : ILRewriter :=
  {| m_pICorProfilerFunctionControl := m_pICorProfilerFunctionControl r; m_tkLocalVarSig := m_tkLocalVarSig r; m_maxStack := m_maxStack r; m_flags := m_flags r; m_fGenerateTinyHeader := m_fGenerateTinyHeader r; il_store := il_store r; il_fresh := il_fresh r; m_nEH := m_nEH r; m_pEH := m_pEH r; m_pOffsetToInstr := f (m_pOffsetToInstr r); m_CodeSize := m_CodeSize r; m_nInstrs := m_nInstrs r; m_pOutputBuffer := m_pOutputBuffer r; il_body := il_body r |}.
Definition upd_m_CodeSize (f : Z → Z) (r : ILRewriter) : ILRewriter :=
  {| m_pICorProfilerFunctionControl := m_pICorProfilerFunctionControl r; m_tkLocalVarSig := m_tkLocalVarSig r; m_maxStack := m_maxStack r; m_flags := m_flags r; m_fGenerateTinyHeader := m_fGenerateTinyHeader r; il_store := il_store r; il_fresh := il_fresh r; m_nEH := m_nEH r; m_pEH := m_pEH r; m_pOffsetToInstr := m_pOffsetToInstr r; m_CodeSize := f (m_CodeSize r); m_nInstrs := m_nInstrs r; m_pOutputBuffer := m_pOutputBuffer r; il_body := il_body r |}.
Definition upd_m_nInstrs (f : Z → Z) (r : ILRewriter) : ILRewriter :=
  {| m_pICorProfilerFunctionControl := m_pICorProfilerFunctionControl r; m_tkLocalVarSig := m_tkLocalVarSig r; m_maxStack := m_maxStack r; m_flags := m_flags r; m_fGenerateTinyHeader := m_fGenerateTinyHeader r; il_store := il_store r; il_fresh := il_fresh r; m_nEH := m_nEH r; m_pEH := m_pEH r; m_pOffsetToInstr := m_pOffsetToInstr r; m_CodeSize := m_CodeSize r; m_nInstrs := f (m_nInstrs r); m_pOutputBuffer := m_pOutputBuffer r; il_body := il_body r |}.
Definition upd_m_pOutputBuffer (f : option (list Z) → option (list Z)) (r : ILRewriter) : ILRewriter :=
  {| m_pICorProfilerFunctionControl := m_pICorProfilerFunctionControl r; m_tkLocalVarSig := m_tkLocalVarSig r; m_maxStack := m_maxStack r; m_flags := m_flags r; m_fGenerateTinyHeader := m_fGenerateTinyHeader r; il_store := il_store r; il_fresh := il_fresh r; m_nEH := m_nEH r; m_pEH := m_pEH r; m_pOffsetToInstr := m_pOffsetToInstr r; m_CodeSize := m_CodeSize r; m_nInstrs := m_nInstrs r; m_pOutputBuffer := f (m_pOutputBuffer r); il_body := il_body r |}.
Definition upd_il_body (f : option (list Z) → option (list Z)) (r : ILRewriter) : ILRewriter :=
  {| m_pICorProfilerFunctionControl := m_pICorProfilerFunctionControl r; m_tkLocalVarSig := m_tkLocalVarSig r; m_maxStack := m_maxStack r; m_flags := m_flags r; m_fGenerateTinyHeader := m_fGenerateTinyHeader r; il_store := il_store r; il_fresh := il_fresh r; m_nEH := m_nEH r; m_pEH := m_pEH r; m_pOffsetToInstr := m_pOffsetToInstr r; m_CodeSize := m_CodeSize r; m_nInstrs := m_nInstrs r; m_pOutputBuffer := m_pOutputBuffer r; il_body := f (il_body r) |}.

Abbreviation M := (stM ILRewriter HRESULT).

(** The address of the embedded sentinel [m_IL], and the null pointer. *)
Definition m_IL : Z := 1.
Definition nullptr : Z := 0.

(** ** Memory accesses *)

Definition read_instr (p : Z) : M ILInstr := λ r,
  match il_store r !! p with Some i => (Ret i, r) | None => (Stuck, r) end.

Definition write_instr (p : Z) (f : ILInstr → ILInstr) : M unit := λ r,
  match il_store r !! p with
  | Some i => (Ret tt, upd_il_store (insert p (f i)) r)
  | None => (Stuck, r)
  end.

Definition zlookup {A} (l : list A) (i : Z) : option A :=
  if decide (0 ≤ i) then l !! Z.to_nat i else None.

(** ** Construction *)

(** [new ILInstr()]: value-initialised. *)
Definition ILInstr_zero : ILInstr :=
  {| m_pNext := nullptr; m_pPrev := nullptr; m_opcode := 0; m_offset := 0; m_Arg := 0 |}.

Definition CorILMethod_TinyFormat : Z := 2.
Definition CorILMethod_FatFormat : Z := 3.
Definition CorILMethod_MoreSects : Z := 8.
Definition CorILMethod_InitLocals : Z := 0x10.

(** The constructor; [tkUninit] is what the uninitialised member [m_tkLocalVarSig] holds. *)
Definition ILRewriter_new (functionControl : bool) (tkUninit : Z) : ILRewriter := {|
  m_pICorProfilerFunctionControl := functionControl;
  m_tkLocalVarSig := tkUninit;
  m_maxStack := 0;
  m_flags := CorILMethod_TinyFormat;
  m_fGenerateTinyHeader := false;
  il_store := {[ m_IL := set_pNext m_IL (set_pPrev m_IL ILInstr_zero) ]};
  il_fresh := m_IL + 1;
  m_nEH := 0;
  m_pEH := None;
  m_pOffsetToInstr := None;
  m_CodeSize := 0;
  m_nInstrs := 0;
  m_pOutputBuffer := None;
  il_body := None;
|}.

Definition InitializeTiny : M unit :=
  modify (upd_m_tkLocalVarSig (λ _, 0));;
  modify (upd_m_maxStack (λ _, 8));;
  modify (upd_m_flags (λ _, CorILMethod_TinyFormat));;
  modify (upd_m_CodeSize (λ _, 0));;
  modify (upd_m_nEH (λ _, 0));;
  modify (upd_m_fGenerateTinyHeader (λ _, true)).

Definition SetTkLocalVarSig (tkLocalVarSig : Z) : M unit :=
  modify (upd_m_tkLocalVarSig (λ _, tkLocalVarSig));;
  modify (upd_m_fGenerateTinyHeader (λ _, false)).

Definition SetEHClause (ehPointer : option (list EHClause)) (ehLength : Z) : M unit :=
  modify (upd_m_nEH (λ _, ehLength));;
  modify (upd_m_pEH (λ _, ehPointer)).

(** ** List operations *)

Definition NewILInstr : M Z :=
  modify (upd_m_nInstrs (λ n, u32 (n + 1)));;
  r ← get;
  modify (upd_il_store (insert (il_fresh r) ILInstr_zero));;
  modify (upd_il_fresh (λ p, p + 1));;
  mret (il_fresh r).

Definition AdjustState (pNewInstr : Z) : M unit :=
  i ← read_instr pNewInstr;
  pushes ← lift_option (zlookup k_rgnStackPushes (m_opcode i));
  modify (upd_m_maxStack (λ s, u32 (s + pushes))).

Definition InsertBefore (pWhere pWhat : Z) : M unit :=
  write_instr pWhat (set_pNext pWhere);;
  where' ← read_instr pWhere;
  write_instr pWhat (set_pPrev (m_pPrev where'));;
  what ← read_instr pWhat;
  write_instr (m_pNext what) (set_pPrev pWhat);;
  what ← read_instr pWhat;
  write_instr (m_pPrev what) (set_pNext pWhat);;
  AdjustState pWhat.

Definition InsertAfter (pWhere pWhat : Z) : M unit :=
  where' ← read_instr pWhere;
  write_instr pWhat (set_pNext (m_pNext where'));;
  write_instr pWhat (set_pPrev pWhere);;
  what ← read_instr pWhat;
  write_instr (m_pNext what) (set_pPrev pWhat);;
  what ← read_instr pWhat;
  write_instr (m_pPrev what) (set_pNext pWhat);;
  AdjustState pWhat.

(** [for (pInstr = m_IL.m_pNext; pInstr != &m_IL; pInstr = pInstr->m_pNext)] with the loop's
    variables in [acc]; the fuel is the number of live instructions. *)
Fixpoint il_for {A} (fuel : nat) (pInstr : Z) (acc : A) (body : Z → A → M A) : M A :=
  if decide (pInstr = m_IL) then mret acc
  else match fuel with
  | O => out_of_fuel
  | S fuel =>
      acc' ← body pInstr acc;
      i ← read_instr pInstr;
      il_for fuel (m_pNext i) acc' body
  end.

Definition il_for_each {A} (acc : A) (body : Z → A → M A) : M A :=
  head ← read_instr m_IL;
  r ← get;
  il_for (size (il_store r)) (m_pNext head) acc body.

(** ** The list as a sequence of addresses

    [chain h a l b]: following [m_pNext] from [a] visits [l] and then reaches [b], and
    [m_pPrev] leads back the same way.  [il_list r l]: [l] is the content of the rewriter's
    circular list, in order. *)

Definition nxt (h : gmap Z ILInstr) (p : Z) : option Z := m_pNext <$> h !! p.
Definition prv (h : gmap Z ILInstr) (p : Z) : option Z := m_pPrev <$> h !! p.
Definition data_of (i : ILInstr) : Z * Z * Z := (m_opcode i, m_offset i, m_Arg i).
Definition data (h : gmap Z ILInstr) (p : Z) : option (Z * Z * Z) := data_of <$> h !! p.

Fixpoint chain (h : gmap Z ILInstr) (a : Z) (l : list Z) (b : Z) : Prop :=
  match l with
  | [] => nxt h a = Some b ∧ prv h b = Some a
  | x :: l => nxt h a = Some x ∧ prv h x = Some a ∧ chain h x l b
  end.

Definition il_list (r : ILRewriter) (l : list Z) : Prop :=
  NoDup (m_IL :: l) ∧ chain (il_store r) m_IL l m_IL ∧
  (∀ p, p ∈ dom (il_store r) → 0 < p < il_fresh r).

(** What [InsertBefore] and [InsertAfter] do to the store, [n] being the node after [w] and [p]
    the one before. *)
Definition link (p w n : Z) (h : gmap Z ILInstr) : gmap Z ILInstr :=
  alter (set_pNext w) p (alter (set_pPrev w) n (alter (set_pPrev p ∘ set_pNext n) w h)).

Create HintDb il.

Lemma nxt_Some h p q : nxt h p = Some q → ∃ i, h !! p = Some i ∧ m_pNext i = q.
Proof. unfold nxt. intros (i & Hi & ->)%fmap_Some. eauto. Qed.

Lemma prv_Some h p q : prv h p = Some q → ∃ i, h !! p = Some i ∧ m_pPrev i = q.
Proof. unfold prv. intros (i & Hi & ->)%fmap_Some. eauto. Qed.

Lemma chain_frame h h' a l b :
  (∀ p, p ∈ a :: l → nxt h' p = nxt h p) →
  (∀ p, p ∈ l ++ [b] → prv h' p = prv h p) →
  chain h a l b → chain h' a l b.
Proof.
  revert a. induction l as [|x l IH]; intros a Hn Hp; simpl.
  - intros [H1 H2]. rewrite Hn, Hp by set_solver. done.
  - intros (H1 & H2 & H3). rewrite Hn, Hp by set_solver. split_and!; [done..|].
    apply IH; [| |done]; intros; [apply Hn|apply Hp]; set_solver.
Qed.

Lemma chain_app h a l1 x l2 b :
  chain h a (l1 ++ x :: l2) b ↔ chain h a l1 x ∧ chain h x l2 b.
Proof.
  revert a. induction l1 as [|y l1 IH]; intros a; simpl.
  - tauto.
  - rewrite IH. tauto.
Qed.

Lemma chain_nxt h a l b p : chain h a l b → p ∈ a :: l → is_Some (nxt h p).
Proof.
  revert a. induction l as [|x l IH]; intros a; simpl.
  - intros [H1 H2] Hp. apply list_elem_of_singleton in Hp as ->. eauto.
  - intros (H1 & H2 & H3) Hp. apply elem_of_cons in Hp as [->|Hp]; eauto.
Qed.

Lemma chain_nxt_det h h' a l b p : chain h a l b → chain h' a l b → p ∈ a :: l → nxt h p = nxt h' p.
Proof.
  revert a. induction l as [|x l IH]; intros a; simpl.
  - intros [H1 _] [H2 _] Hp. apply list_elem_of_singleton in Hp as ->. congruence.
  - intros (H1 & _ & H2) (H1' & _ & H2') Hp. apply elem_of_cons in Hp as [->|Hp]; [congruence|eauto].
Qed.

Lemma chain_prv_end h a l b : chain h a l b → prv h b = Some (default a (last l)).
Proof.
  revert a. induction l as [|x l IH]; intros a; simpl; [tauto|].
  intros (_ & _ & H). rewrite (IH _ H). change (last (x :: l)) with (last ([x] ++ l)).
  rewrite last_app. by destruct (last l).
Qed.

Lemma chain_nxt_start h a l b : chain h a l b → nxt h a = Some (default b (head l)).
Proof. destruct l; simpl; tauto. Qed.

Lemma chain_store h a l b p : chain h a l b → p ∈ a :: l → is_Some (h !! p).
Proof.
  intros Hc Hp. destruct (chain_nxt _ _ _ _ _ Hc Hp) as [q (i & Hi & _)%nxt_Some]. eauto.
Qed.

Lemma nxt_link p w n h q :
  is_Some (h !! w) → is_Some (h !! p) → p ≠ w →
  nxt (link p w n h) q =
    if decide (q = p) then Some w else if decide (q = w) then Some n else nxt h q.
Proof.
  intros [iw Hw] [ip Hp] Hne. unfold nxt, link. rewrite !lookup_alter.
  repeat case_decide; simplify_eq; rewrite ?Hw, ?Hp; try done; by destruct (h !! q).
Qed.

Lemma prv_link p w n h q :
  is_Some (h !! w) → is_Some (h !! n) → n ≠ w →
  prv (link p w n h) q =
    if decide (q = n) then Some w else if decide (q = w) then Some p else prv h q.
Proof.
  intros [iw Hw] [iN Hn] Hne. unfold prv, link. rewrite !lookup_alter.
  repeat case_decide; simplify_eq; rewrite ?Hw, ?Hn; try done; by destruct (h !! q).
Qed.

Lemma data_link p w n h q : data (link p w n h) q = data h q.
Proof.
  unfold data, link. rewrite !lookup_alter.
  repeat case_decide; simplify_eq; by destruct (h !! _).
Qed.

Lemma dom_link p w n h : dom (link p w n h) = dom h.
Proof. unfold link. by rewrite !dom_alter_L. Qed.

(** Splicing a fresh node into a chain: the part after the node, the part before it. *)
Section Splice.
Context (h : gmap Z ILInstr) (a b w : Z) (l1 l2 : list Z).
Context (Hc : chain h a (l1 ++ l2) b) (Hnd : NoDup (a :: l1 ++ l2)).
Context (Hw : w ∉ a :: b :: l1 ++ l2) (Hsw : is_Some (h !! w)) (Hb : b ∉ l1 ++ l2).
Let p := default a (last l1).
Let n := default b (head l2).

Lemma splice_p : p ∈ a :: l1.
Proof.
  subst p. clear. destruct (last l1) eqn:E; simpl; [|left].
  right. by apply last_Some_elem_of.
Qed.

Lemma splice_n : n ∈ b :: l2.
Proof. subst n. clear. destruct l2; simpl; [left|right; left]. Qed.

Lemma splice_p_store : is_Some (h !! p).
Proof.
  eapply chain_store; [exact Hc|]. pose proof splice_p as Hp. clearbody p. set_solver +Hp.
Qed.

Lemma splice_n_store : is_Some (h !! n).
Proof.
  pose proof (chain_prv_end _ _ _ _ Hc) as Hend. destruct l2 as [|x l2'] eqn:E.
  - subst n. rewrite app_nil_r in *. destruct (prv_Some _ _ _ Hend) as (i & Hi & _). eauto.
  - eapply chain_store; [exact Hc|]. subst n. clear. set_solver.
Qed.

Lemma splice_pw : p ≠ w.
Proof. pose proof splice_p as Hp. clearbody p. set_solver +Hp Hw. Qed.

Lemma splice_nw : n ≠ w.
Proof. pose proof splice_n as Hn. clearbody n. set_solver +Hn Hw. Qed.

Lemma chain_link_after : chain (link p w n h) w l2 b.
Proof.
  pose proof splice_p as Hp. pose proof splice_p_store. pose proof splice_n_store.
  pose proof splice_pw as Hpw. pose proof splice_nw as Hnw.
  destruct l2 as [|x l2'] eqn:E; simpl.
  - rewrite nxt_link, prv_link by done. rewrite (decide_False (P := w = p)) by done.
    subst n. simpl. by rewrite !decide_True by done.
  - subst n. simpl in *. clearbody p. rewrite nxt_link, prv_link by done.
    rewrite (decide_False (P := w = p)), !decide_True by done. split_and!; [done..|].
    apply chain_app in Hc as [_ Hc']. eapply chain_frame; [| |exact Hc'].
    + intros q Hq. rewrite nxt_link by done. rewrite !decide_False; [done| |].
      * set_solver +Hq Hw.
      * intros ->. apply NoDup_cons in Hnd as [Ha Hnd']. apply NoDup_app in Hnd' as (_ & Hdj & _).
        set_solver +Hq Hp Ha Hdj.
    + intros q Hq. rewrite prv_link by done. rewrite !decide_False; [done| |].
      * set_solver +Hq Hw.
      * intros ->. apply NoDup_cons in Hnd as [_ Hnd']. apply NoDup_app in Hnd' as (_ & _ & Hnd2).
        apply NoDup_cons in Hnd2 as [Hx _]. set_solver +Hq Hx Hb.
Qed.

Lemma chain_link_before : chain (link p w n h) a l1 w.
Proof.
  pose proof splice_n as Hn. pose proof splice_p_store. pose proof splice_n_store.
  pose proof splice_pw as Hpw. pose proof splice_nw as Hnw. pose proof splice_p as Hp.
  assert (Hmid : nxt (link p w n h) p = Some w ∧ prv (link p w n h) w = Some p).
  { rewrite nxt_link, prv_link by done. rewrite decide_True, decide_False by done.
    by rewrite decide_True by done. }
  destruct (decide (l1 = [])) as [->|Hne]; [done|].
  destruct (exists_last Hne) as (l1' & x & Hl1).
  assert (p = x) as Hpx by (subst p; by rewrite Hl1, last_snoc).
  clearbody p n. subst p l1. apply chain_app. split; [|done].
  rewrite <-app_assoc in Hc. simpl in Hc. apply chain_app in Hc as [Hc' _].
  apply NoDup_cons in Hnd as [Ha Hnd']. apply NoDup_app in Hnd' as (Hnd1 & Hdj & _).
  apply NoDup_app in Hnd1 as (_ & Hdx & _).
  eapply chain_frame; [| |exact Hc'].
  - intros q Hq. rewrite nxt_link by done. rewrite !decide_False; [done| |].
    + set_solver +Hq Hw.
    + set_solver +Hq Ha Hdx.
  - intros q Hq. rewrite prv_link by done. rewrite !decide_False; [done| |].
    + set_solver +Hq Hw.
    + set_solver +Hq Hn Hb Hdj.
Qed.

Lemma chain_link : chain (link p w n h) a (l1 ++ w :: l2) b.
Proof. apply chain_app. split; [apply chain_link_before|apply chain_link_after]. Qed.
End Splice.

(** ** Running the list operations *)

Lemma read_instr_run r p i : il_store r !! p = Some i → read_instr p r = (Ret i, r).
Proof. intros H. unfold read_instr. by rewrite H. Qed.

Lemma write_instr_run r p i f :
  il_store r !! p = Some i → write_instr p f r = (Ret tt, upd_il_store (insert p (f i)) r).
Proof. intros H. unfold write_instr. by rewrite H. Qed.

Lemma zlookup_is_Some {A} (l : list A) i :
  0 ≤ i < Z.of_nat (length l) → is_Some (zlookup l i).
Proof. intros. unfold zlookup. rewrite decide_True by lia. apply lookup_lt_is_Some. lia. Qed.

Lemma zlookup_Some {A} (l : list A) i x :
  zlookup l i = Some x → 0 ≤ i < Z.of_nat (length l) ∧ l !! Z.to_nat i = Some x.
Proof.
  unfold zlookup. intros H. case_decide; [|done]. split; [|done].
  apply lookup_lt_Some in H. lia.
Qed.

(** The number of stack pushes [AdjustState] charges for an opcode. *)
Definition pushes (op : Z) : Z := default 0 (zlookup k_rgnStackPushes op).

Lemma AdjustState_run r p i :
  il_store r !! p = Some i → 0 ≤ m_opcode i ≤ CEE_SWITCH_ARG →
  AdjustState p r = (Ret tt, upd_m_maxStack (λ s, u32 (s + pushes (m_opcode i))) r).
Proof.
  intros Hi Hop. unfold AdjustState. rewrite (stM_bind_Ret _ _ _ _ _ (read_instr_run _ _ _ Hi)).
  unfold pushes. destruct (zlookup_is_Some k_rgnStackPushes (m_opcode i)) as [n Hn].
  { change (length k_rgnStackPushes) with 296%nat. unfold CEE_SWITCH_ARG in Hop. lia. }
  by rewrite Hn.
Qed.

Lemma m_pNext_set_pPrev p i : m_pNext (set_pPrev p i) = m_pNext i.
Proof. done. Qed.

(** Both insertions are [link] between the two neighbours. *)
Lemma InsertBefore_run r pWhere pWhat w iw p :
  il_store r !! pWhere = Some w → il_store r !! pWhat = Some iw → m_pPrev w = p →
  is_Some (il_store r !! p) → pWhat ≠ pWhere → pWhat ≠ p → 0 ≤ m_opcode iw ≤ CEE_SWITCH_ARG →
  InsertBefore pWhere pWhat r =
    (Ret tt, upd_m_maxStack (λ s, u32 (s + pushes (m_opcode iw)))
               (upd_il_store (link p pWhat pWhere) r)).
Proof.
  intros Hw Hiw Hp [ip Hip] Hne1 Hne2 Hop. unfold InsertBefore.
  run_by (exact (write_instr_run _ _ _ _ Hiw)).
  run_by (apply read_instr_run; cbn; by rewrite lookup_insert_ne by done).
  run_by (apply write_instr_run; cbn; apply lookup_insert_eq).
  run_by (apply read_instr_run; cbn; apply lookup_insert_eq).
  run_by (apply write_instr_run; cbn; by rewrite !lookup_insert_ne by done).
  run_by (apply read_instr_run; cbn; rewrite lookup_insert_ne by done; apply lookup_insert_eq).
  subst p.
  set (h := <[pWhere := set_pPrev pWhat w]> (<[pWhat := set_pPrev (m_pPrev w) (set_pNext pWhere iw)]>
    (<[pWhat := set_pNext pWhere iw]> (il_store r))) : gmap Z ILInstr).
  match goal with |- (_ ≫= _) ?s = _ => change s with (upd_il_store (λ _, h) r) end.
  assert (is_Some (h !! m_pPrev w)) as [ip' Hip'].
  { unfold h. rewrite !lookup_insert. repeat case_decide; eauto. }
  run_by (apply write_instr_run; exact Hip').
  assert (Hst : <[m_pPrev w := set_pNext pWhat ip']> h = link (m_pPrev w) pWhat pWhere (il_store r)).
  { apply map_eq. intros q. unfold h, link in *.
    rewrite !lookup_insert, !lookup_alter in *.
    repeat case_decide; simplify_eq; simplify_map_eq; done. }
  rewrite (AdjustState_run _ _ (set_pPrev (m_pPrev w) (set_pNext pWhere iw))); [|cbn|done].
  - cbn. f_equal. unfold upd_m_maxStack, upd_il_store. cbn. by rewrite Hst.
  - unfold h. rewrite lookup_insert_ne, lookup_insert_ne by done. by apply lookup_insert_eq.
Qed.

Lemma InsertAfter_run r pWhere pWhat w iw n :
  il_store r !! pWhere = Some w → il_store r !! pWhat = Some iw → m_pNext w = n →
  is_Some (il_store r !! n) → pWhat ≠ pWhere → pWhat ≠ n → 0 ≤ m_opcode iw ≤ CEE_SWITCH_ARG →
  InsertAfter pWhere pWhat r =
    (Ret tt, upd_m_maxStack (λ s, u32 (s + pushes (m_opcode iw)))
               (upd_il_store (link pWhere pWhat n) r)).
Proof.
  intros Hw Hiw Hn [iN HiN] Hne1 Hne2 Hop. unfold InsertAfter.
  run_by (exact (read_instr_run _ _ _ Hw)).
  run_by (exact (write_instr_run _ _ _ _ Hiw)).
  run_by (apply write_instr_run; cbn; apply lookup_insert_eq).
  run_by (apply read_instr_run; cbn; apply lookup_insert_eq).
  subst n.
  run_by (apply write_instr_run; cbn; by rewrite !lookup_insert_ne by done).
  run_by (apply read_instr_run; cbn; rewrite lookup_insert_ne by done; apply lookup_insert_eq).
  set (h := <[m_pNext w := set_pPrev pWhat iN]> (<[pWhat := set_pPrev pWhere (set_pNext (m_pNext w) iw)]>
    (<[pWhat := set_pNext (m_pNext w) iw]> (il_store r))) : gmap Z ILInstr).
  match goal with |- (_ ≫= _) ?s = _ => change s with (upd_il_store (λ _, h) r) end.
  assert (is_Some (h !! pWhere)) as [ip' Hip'].
  { unfold h. rewrite !lookup_insert. repeat case_decide; eauto. }
  run_by (apply write_instr_run; exact Hip').
  assert (Hst : <[pWhere := set_pNext pWhat ip']> h = link pWhere pWhat (m_pNext w) (il_store r)).
  { apply map_eq. intros q. unfold h, link in *.
    rewrite !lookup_insert, !lookup_alter in *.
    repeat case_decide; simplify_eq; simplify_map_eq; done. }
  rewrite (AdjustState_run _ _ (set_pPrev pWhere (set_pNext (m_pNext w) iw))); [|cbn|done].
  - cbn. f_equal. unfold upd_m_maxStack, upd_il_store. cbn. by rewrite Hst.
  - unfold h. rewrite lookup_insert_ne, lookup_insert_ne by done. by apply lookup_insert_eq.
Qed.

(** ** Refinement: the operations on the sequence *)

Lemma il_list_store r l p : il_list r l → p ∈ m_IL :: l → is_Some (il_store r !! p).
Proof. intros (_ & Hc & _) Hp. by eapply chain_store. Qed.

Lemma il_list_no_IL r l p : il_list r l → p ∈ l → p ≠ m_IL.
Proof. intros (Hnd & _ & _) Hp ->. by apply NoDup_cons in Hnd as [? _]. Qed.

Lemma il_list_start r l :
  il_list r l → ∃ i, il_store r !! m_IL = Some i ∧ m_pNext i = default m_IL (head l).
Proof. intros (_ & Hc & _). by apply nxt_Some, (chain_nxt_start _ _ _ _ Hc). Qed.

(** Any state with the same links and a store of the same addresses has the same list. *)
Lemma il_list_frame r r' l :
  (∀ p, nxt (il_store r') p = nxt (il_store r) p) →
  (∀ p, prv (il_store r') p = prv (il_store r) p) →
  il_fresh r' = il_fresh r → il_list r l → il_list r' l.
Proof.
  intros Hn Hp Hf (Hnd & Hc & Hd). split_and!; [done| |].
  - eapply chain_frame; [..|exact Hc]; intros; auto.
  - intros p Hp'. rewrite Hf. apply Hd. apply elem_of_dom in Hp' as [i Hi].
    apply elem_of_dom. specialize (Hn p). unfold nxt in Hn. rewrite Hi in Hn. simpl in Hn.
    by destruct (il_store r !! p).
Qed.

(** [same_data r r']: no instruction's opcode, offset or operand differs. *)
Definition same_data (r r' : ILRewriter) : Prop := ∀ q, data (il_store r') q = data (il_store r) q.

Definition after_link (p w n : Z) (op : Z) (r : ILRewriter) : ILRewriter :=
  upd_m_maxStack (λ s, u32 (s + pushes op)) (upd_il_store (link p w n) r).

Lemma after_link_list r l1 l2 w iw :
  il_list r (l1 ++ l2) → il_store r !! w = Some iw → w ∉ m_IL :: l1 ++ l2 →
  let r' := after_link (default m_IL (last l1)) w (default m_IL (head l2)) (m_opcode iw) r in
  il_list r' (l1 ++ w :: l2) ∧ same_data r r'.
Proof.
  intros (Hnd & Hc & Hd) Hiw Hw r'. split.
  - split_and!.
    + apply NoDup_cons in Hnd as [HIL Hnd]. apply NoDup_cons. split.
      * set_solver +HIL Hw.
      * assert (Hp : l1 ++ w :: l2 ≡ₚ w :: l1 ++ l2) by solve_Permutation.
        rewrite Hp. apply NoDup_cons. split; [set_solver +Hw|done].
    + apply chain_link; try done.
      * set_solver +Hw.
      * by apply NoDup_cons in Hnd as [? _].
    + cbn. intros q. rewrite dom_link. apply Hd.
  - intros q. cbn. apply data_link.
Qed.

Section InsertSpec.
Context (r : ILRewriter) (l1 l2 : list Z) (w : Z) (iw : ILInstr).
Context (Hl : il_list r (l1 ++ l2)) (Hw : w ∉ m_IL :: l1 ++ l2).
Context (Hiw : il_store r !! w = Some iw) (Hop : 0 ≤ m_opcode iw ≤ CEE_SWITCH_ARG).
Let p := default m_IL (last l1).
Let n := default m_IL (head l2).

Lemma insert_neighbours :
  (∃ ip, il_store r !! p = Some ip ∧ m_pNext ip = n) ∧
  (∃ i, il_store r !! n = Some i ∧ m_pPrev i = p) ∧ w ≠ p ∧ w ≠ n.
Proof.
  destruct Hl as (Hnd & Hc & _). pose proof (splice_p m_IL l1) as Hp.
  pose proof (splice_n m_IL l2) as Hn. fold p in Hp. fold n in Hn.
  split_and!; [| |clearbody p; set_solver +Hw Hp|clearbody n; set_solver +Hw Hn].
  - apply nxt_Some. subst p n. destruct (decide (l1 = [])) as [->|Hne].
    + by apply (chain_nxt_start _ _ _ _ Hc).
    + destruct (exists_last Hne) as (l1' & x & ->). rewrite last_snoc. simpl.
      rewrite <-app_assoc in Hc. simpl in Hc. apply chain_app in Hc as [_ Hc].
      by apply (chain_nxt_start _ _ _ _ Hc).
  - apply prv_Some. subst p n. destruct l2 as [|y l2']; simpl.
    + rewrite app_nil_r in Hc. by apply (chain_prv_end _ _ _ _ Hc).
    + apply chain_app in Hc as [Hc _]. by apply (chain_prv_end _ _ _ _ Hc).
Qed.

Lemma InsertBefore_spec :
  InsertBefore n w r = (Ret tt, after_link p w n (m_opcode iw) r).
Proof.
  destruct insert_neighbours as ((ip & Hip & _) & (i & Hi & Hprev) & Hwp & Hwn).
  eapply InsertBefore_run; eauto.
Qed.

Lemma InsertAfter_spec :
  InsertAfter p w r = (Ret tt, after_link p w n (m_opcode iw) r).
Proof.
  destruct insert_neighbours as ((ip & Hip & Hnext) & (i & Hi & _) & Hwp & Hwn).
  eapply InsertAfter_run; eauto.
Qed.
End InsertSpec.

(** ** [new ILInstr()] *)

Definition after_new (r : ILRewriter) : ILRewriter :=
  upd_il_fresh (λ p, p + 1)
    (upd_il_store (insert (il_fresh r) ILInstr_zero) (upd_m_nInstrs (λ n, u32 (n + 1)) r)).

Lemma NewILInstr_run r : NewILInstr r = (Ret (il_fresh r), after_new r).
Proof. done. Qed.

Lemma il_list_after_new r l : il_list r l → il_list (after_new r) l ∧ il_fresh r ∉ m_IL :: l.
Proof.
  intros (Hnd & Hc & Hd).
  assert (Hfr : il_fresh r ∉ dom (il_store r)) by (intros Hf; apply Hd in Hf; lia).
  assert (Hnl : il_fresh r ∉ m_IL :: l).
  { intros Hf. apply Hfr, elem_of_dom. by eapply chain_store. }
  split; [|done]. split_and!; [done| |].
  - eapply chain_frame; [..|exact Hc]; intros p Hp; cbn; unfold nxt, prv;
      rewrite lookup_insert_ne; try done; intros <-; apply Hnl; set_solver +Hp.
  - cbn. intros p. rewrite dom_insert_L, elem_of_union, elem_of_singleton.
    intros [->|Hp%Hd]; [|lia].
    destruct (il_list_start r l) as (i & Hi & _); [done|].
    assert (m_IL ∈ dom (il_store r)) as HIL by (apply elem_of_dom; eauto).
    apply Hd in HIL. unfold m_IL in HIL. lia.
Qed.

(** ** The loop over the list

    [I l1 acc r] holds when the nodes [l1] have been visited. *)

Lemma il_list_size r l : il_list r l → (length l < size (il_store r))%nat.
Proof.
  intros (Hnd & Hc & _).
  assert (list_to_set (m_IL :: l) ⊆ dom (il_store r)) as Hsub.
  { intros p Hp. apply elem_of_list_to_set in Hp. apply elem_of_dom. by eapply chain_store. }
  apply subseteq_size in Hsub. rewrite size_list_to_set, size_dom in Hsub by done.
  simpl in Hsub. lia.
Qed.

Section ForEach.
Context {A : Type} (body : Z → A → M A) (l : list Z).
Context (I : list Z → A → ILRewriter → Prop) (X : HRESULT → ILRewriter → Prop).
Context (HI : ∀ l1 acc r, I l1 acc r → il_list r l).
Context (Hbody : ∀ l1 p l2 acc r, l = l1 ++ p :: l2 → I l1 acc r →
  wp (body p acc) r (λ acc' r', I (l1 ++ [p]) acc' r') X).

Lemma il_for_wp l2 l1 fuel acc r :
  l = l1 ++ l2 → (length l2 ≤ fuel)%nat → I l1 acc r →
  wp (il_for fuel (default m_IL (head l2)) acc body) r (I l) X.
Proof.
  revert l1 fuel acc r. induction l2 as [|x l2 IH]; intros l1 fuel acc r Hl Hfuel Hr.
  - rewrite app_nil_r in Hl. subst l1. by destruct fuel; eapply wp_run.
  - simpl in Hfuel. destruct fuel as [|fuel]; [lia|].
    assert (Hx : x ∈ l) by (subst l; clear; set_solver).
    cbn [il_for head default]. simpl.
    rewrite decide_False by (by eapply il_list_no_IL; [eapply HI|]).
    apply wp_bind. eapply wp_mono; [by eapply Hbody|..|done]. cbv beta. intros acc' r' HI'.
    assert (∃ i, il_store r' !! x = Some i ∧ m_pNext i = default m_IL (head l2))
      as (i & Hi & Hnext).
    { apply nxt_Some. destruct (HI _ _ _ HI') as (_ & Hc & _). rewrite Hl in Hc.
      apply chain_app in Hc as [_ Hc]. by apply (chain_nxt_start _ _ _ _ Hc). }
    wp_step (by apply read_instr_run). rewrite Hnext.
    apply (IH (l1 ++ [x])); [by rewrite <-app_assoc|lia|done].
Qed.

Lemma il_for_each_wp acc r : I [] acc r → wp (il_for_each acc body) r (I l) X.
Proof.
  intros Hr. destruct (il_list_start _ _ (HI _ _ _ Hr)) as (i & Hi & Hnext).
  unfold il_for_each. wp_step (by apply read_instr_run). rewrite Hnext.
  wp_step (done). apply (il_for_wp l []); [done| |done].
  apply HI, il_list_size in Hr. lia.
Qed.
End ForEach.

(** ** Updates that leave the links alone *)

Definition keeps_links (f : ILInstr → ILInstr) : Prop :=
  ∀ i, m_pNext (f i) = m_pNext i ∧ m_pPrev (f i) = m_pPrev i.

Lemma keeps_links_set_opcode o : keeps_links (set_opcode o). Proof. by split. Qed.
Lemma keeps_links_set_offset o : keeps_links (set_offset o). Proof. by split. Qed.
Lemma keeps_links_set_Arg o : keeps_links (set_Arg o). Proof. by split. Qed.
Lemma keeps_links_set_low w v : keeps_links (set_low w v). Proof. by split. Qed.
#[export] Hint Resolve keeps_links_set_opcode keeps_links_set_offset keeps_links_set_Arg
  keeps_links_set_low : il.

Lemma il_list_write r l p f i :
  keeps_links f → il_store r !! p = Some i → il_list r l →
  il_list (upd_il_store (insert p (f i)) r) l.
Proof.
  intros Hf Hi. apply il_list_frame; [..|done]; intros q; cbn; unfold nxt, prv;
    destruct (decide (q = p)) as [->|]; rewrite ?lookup_insert_eq, ?lookup_insert_ne by done;
    try done; rewrite Hi; simpl; f_equal; apply Hf.
Qed.

Lemma data_write r p f i q :
  il_store r !! p = Some i →
  data (il_store (upd_il_store (insert p (f i)) r)) q =
    if decide (q = p) then Some (data_of (f i)) else data (il_store r) q.
Proof.
  intros Hi. cbn. unfold data. case_decide as E; [subst; by rewrite lookup_insert_eq|].
  by rewrite lookup_insert_ne.
Qed.

Lemma data_Some r p d : data (il_store r) p = Some d → ∃ i, il_store r !! p = Some i ∧ data_of i = d.
Proof. unfold data. intros (i & Hi & ->)%fmap_Some. eauto. Qed.

(** The members that the list operations leave alone. *)
Definition frame (r : ILRewriter) :=
  (m_pICorProfilerFunctionControl r, m_tkLocalVarSig r, m_flags r, m_fGenerateTinyHeader r,
   (m_nEH r, m_pEH r, m_CodeSize r, m_pOutputBuffer r, il_body r)).

(** [appended r r' l w op arg]: [r'] is [r] with the new instruction [w] at the end of the list. *)
Record appended (r r' : ILRewriter) (l : list Z) (w op arg : Z) : Prop := {
  ap_addr : w = il_fresh r;
  ap_list : il_list r' (l ++ [w]);
  ap_new : data (il_store r') w = Some (op, 0, arg);
  ap_old : ∀ q, q ∈ l → data (il_store r') q = data (il_store r) q;
  ap_frame : frame r' = frame r;
  ap_table : m_pOffsetToInstr r' = m_pOffsetToInstr r;
  ap_nInstrs : m_nInstrs r' = u32 (m_nInstrs r + 1);
  ap_maxStack : m_maxStack r' = u32 (m_maxStack r + pushes op);
}.

Section Append.
Context (r : ILRewriter) (l : list Z) (Hl : il_list r l).
Context (f : ILInstr → ILInstr) (Hf : keeps_links f) (op arg : Z).
Context (Hop : 0 ≤ op ≤ CEE_SWITCH_ARG) (Hd : data_of (f ILInstr_zero) = (op, 0, arg)).

Lemma append_spec :
  ∃ r', InsertBefore m_IL (il_fresh r)
          (upd_il_store (insert (il_fresh r) (f ILInstr_zero)) (after_new r)) = (Ret tt, r') ∧
        appended r r' l (il_fresh r) op arg.
Proof.
  destruct (il_list_after_new r l Hl) as [Hl1 Hfr].
  set (r1 := after_new r) in *. set (w := il_fresh r) in *.
  assert (Hz : il_store r1 !! w = Some ILInstr_zero) by (subst r1 w; cbn; apply lookup_insert_eq).
  pose proof (il_list_write r1 l w f _ Hf Hz Hl1) as Hl2.
  set (r2 := upd_il_store _ r1) in *.
  assert (Hw : il_store r2 !! w = Some (f ILInstr_zero)) by (subst r2; cbn; apply lookup_insert_eq).
  injection Hd as Ho Hoff Ha.
  assert (Hl2' : il_list r2 (l ++ [])) by (by rewrite app_nil_r).
  assert (Hfr' : w ∉ m_IL :: l ++ []) by (by rewrite app_nil_r).
  pose proof (InsertBefore_spec r2 l [] w _ Hl2' Hfr' Hw ltac:(by rewrite Ho)) as Hrun.
  destruct (after_link_list r2 l [] w _ Hl2' Hw Hfr') as [Hl3 Hsame].
  eexists. split; [exact Hrun|]. split; try done.
  - rewrite Hsame. unfold data. rewrite Hw. simpl. unfold data_of. by rewrite Ho, Hoff, Ha.
  - intros q Hq. rewrite Hsame. subst r2 r1. cbn. unfold data.
    rewrite !lookup_insert_ne; [done|..]; intros <-; apply Hfr; set_solver +Hq.
  - cbn. by rewrite Ho.
Qed.
End Append.

Lemma appended_set_low r r1 l w op arg wd v :
  appended r r1 l w op arg →
  ∃ r2, write_instr w (set_low wd v) r1 = (Ret tt, r2) ∧
        appended r r2 l w op (arg - wrap wd arg + wrap wd v).
Proof.
  intros [Ha Hl Hn Ho Hf Ht Hi Hm].
  destruct (data_Some _ _ _ Hn) as (i & Hi' & [= Hop Hoff Harg]).
  eexists. split; [by apply write_instr_run|]. split; try done.
  - apply il_list_write; auto with il.
  - rewrite data_write by done. rewrite decide_True by done. unfold data_of. cbn.
    by rewrite Hop, Hoff, Harg.
  - intros q Hq. rewrite data_write by done. rewrite decide_False; [by apply Ho|].
    intros ->. destruct Hl as (Hnd & _). apply NoDup_cons in Hnd as [_ Hnd].
    apply NoDup_app in Hnd as (_ & Hnd & _). apply (Hnd _ Hq). left.
Qed.
