(* ===== verification/ILEncoding.v ===== *)
(** * The encoding of an IL instruction sequence

    The specification that import and export are proved against: an instruction is an opcode and
    a 64-bit operand, a branch's or switch case's operand being the offset of its target, and
    [enc_code] lays a sequence out as bytes, following ECMA-335 III.1.2: a branch is encoded
    relative to the next instruction, a case relative to the end of its switch.  Nothing here
    models a function of the program. *)

From S2P Require Import Prelude ILOpcodes ILList.

(** ** Operand kinds of opcodes *)

Definition op_flags (op : Z) : Z := default 0 (zlookup s_OpCodeFlags op).
Definition is_branch (op : Z) : bool :=
  bool_decide (Z.land (op_flags op) OPCODEFLAGS_BranchTarget ≠ 0).
Definition short_branch : Z := 0x11.
Definition long_branch : Z := 0x14.
Definition switch_flags : Z := 0x20.

(** Opcodes that an instruction list may hold. *)
Definition valid_op (op : Z) : Prop := 0 ≤ op < CEE_COUNT ∨ op = CEE_SWITCH_ARG.
#[export] Instance valid_op_dec op : Decision (valid_op op).
Proof. unfold valid_op. apply _. Defined.

(** The number of operand bytes. *)
Definition operand_size (op : Z) : Z :=
  Z.land (op_flags op) OPCODEFLAGS_SizeMask + (if decide (op_flags op = switch_flags) then 4 else 0).

Definition opcode_bytes (op : Z) : list Z :=
  if decide (op < CEE_COUNT) then
    if decide (0x100 ≤ op) then [CEE_PREFIX1; op mod 256] else [op mod 256]
  else [].

Definition isize (op : Z) : Z := Z.of_nat (length (opcode_bytes op)) + operand_size op.

(** The operand bytes, [next] being the offset of the next instruction and [sb] the base of the
    current switch. *)
Definition operand_bytes (sb next op arg : Z) : list Z :=
  if decide (op = CEE_SWITCH_ARG) then le_bytes 4 (arg - sb)
  else if decide (op_flags op = short_branch) then le_bytes 1 (arg - next)
  else if decide (op_flags op = long_branch) then le_bytes 4 (arg - next)
  else le_bytes (Z.to_nat (operand_size op)) arg.

(** The base of the switch that is current after the instruction at [off]. *)
Definition sb_step (sb off op arg : Z) : Z :=
  if decide (op = CEE_SWITCH) then off + 1 + 4 * (s32 arg + 1) else sb.

Fixpoint enc_code (sb off : Z) (its : list (Z * Z)) : list Z :=
  match its with
  | [] => []
  | (op, arg) :: its =>
      (opcode_bytes op ++ operand_bytes sb (off + isize op) op arg) ++
      enc_code (sb_step sb off op arg) (off + isize op) its
  end.

Definition code_size (its : list (Z * Z)) : Z := foldr (λ it n, isize it.1 + n) 0 its.

Fixpoint sb_after (sb off : Z) (its : list (Z * Z)) : Z :=
  match its with
  | [] => sb
  | (op, arg) :: its => sb_after (sb_step sb off op arg) (off + isize op) its
  end.

(** The offset of the k-th instruction. *)
Definition offset_of (its : list (Z * Z)) (k : nat) : Z := code_size (take k its).

(** ** Facts about the opcode tables, by evaluation of every row *)

(** A decidable property of all opcodes of a list, checked by evaluation. *)
Lemma valid_op_decide (P : Z → Prop) `{∀ op, Decision (P op)} :
  forallb (λ n, bool_decide (P (Z.of_nat n))) (seq 0 (Z.to_nat CEE_COUNT)) &&
    bool_decide (P CEE_SWITCH_ARG) = true →
  ∀ op, valid_op op → P op.
Proof.
  intros [Hall Hsw]%andb_true_iff op [Hop| ->]; [|by apply bool_decide_eq_true in Hsw].
  rewrite forallb_forall in Hall. specialize (Hall (Z.to_nat op)).
  rewrite Z2Nat.id in Hall by lia. apply (bool_decide_eq_true (P op)), Hall, in_seq. lia.
Qed.

Lemma valid_op_range op : valid_op op → 0 ≤ op ≤ CEE_SWITCH_ARG.
Proof. unfold valid_op, CEE_COUNT, CEE_SWITCH_ARG. lia. Qed.

Lemma op_flags_cases op :
  valid_op op →
  op_flags op = 0 ∨ op_flags op = 1 ∨ op_flags op = 2 ∨ op_flags op = 4 ∨ op_flags op = 8 ∨
  op_flags op = short_branch ∨ op_flags op = long_branch ∨ op_flags op = switch_flags.
Proof. revert op. apply (valid_op_decide _). vm_compute. reflexivity. Qed.

Lemma op_flags_lookup op : valid_op op → zlookup s_OpCodeFlags op = Some (op_flags op).
Proof. revert op. apply (valid_op_decide _). vm_compute. reflexivity. Qed.

Lemma switch_flags_iff op : valid_op op → op_flags op = switch_flags ↔ op = CEE_SWITCH.
Proof. revert op. apply (valid_op_decide _). vm_compute. reflexivity. Qed.

Lemma isize_bounds op : valid_op op → 1 ≤ isize op ≤ 10.
Proof. revert op. apply (valid_op_decide _). vm_compute. reflexivity. Qed.

Lemma is_branch_flags op :
  valid_op op → is_branch op = true ↔ op_flags op = short_branch ∨ op_flags op = long_branch.
Proof. revert op. apply (valid_op_decide _). vm_compute. reflexivity. Qed.

Lemma isize_operand op :
  valid_op op → isize op = Z.of_nat (length (opcode_bytes op)) + operand_size op ∧ 0 ≤ operand_size op ≤ 8.
Proof. revert op. apply (valid_op_decide _). vm_compute. reflexivity. Qed.

Lemma operand_size_special op :
  valid_op op →
  (op = CEE_SWITCH_ARG → operand_size op = 4) ∧
  (op_flags op = short_branch → operand_size op = 1) ∧
  (op_flags op = long_branch → operand_size op = 4) ∧
  (op_flags op = switch_flags → operand_size op = 4).
Proof. revert op. apply (valid_op_decide _). vm_compute. reflexivity. Qed.

(** ** Layout *)

Lemma length_operand_bytes sb next op arg :
  valid_op op → Z.of_nat (length (operand_bytes sb next op arg)) = operand_size op.
Proof.
  intros Hop. destruct (operand_size_special op Hop) as (H1 & H2 & H3 & _).
  destruct (isize_operand op Hop) as [_ H4]. unfold operand_bytes.
  repeat case_decide; rewrite length_le_bytes; lia.
Qed.

Lemma length_enc_code sb off its :
  Forall (λ it, valid_op it.1) its → Z.of_nat (length (enc_code sb off its)) = code_size its.
Proof.
  intros Hv. revert sb off. induction Hv as [|[op arg] its Hop Hits IH]; intros sb off; [done|].
  change (code_size ((op, arg) :: its)) with (isize op + code_size its).
  cbn [enc_code]. rewrite !length_app, !Nat2Z.inj_add, IH, length_operand_bytes by done.
  destruct (isize_operand op Hop) as [Hi _].
  lia.
Qed.

Lemma code_size_nonneg its : Forall (λ it, valid_op it.1) its → 0 ≤ code_size its.
Proof. intros Hv. rewrite <-(length_enc_code 0 0) by done. lia. Qed.

Lemma code_size_app its1 its2 : code_size (its1 ++ its2) = code_size its1 + code_size its2.
Proof. induction its1; simpl; lia. Qed.

Lemma enc_code_app sb off its1 its2 :
  enc_code sb off (its1 ++ its2) =
    enc_code sb off its1 ++ enc_code (sb_after sb off its1) (off + code_size its1) its2.
Proof.
  revert sb off. induction its1 as [|[op arg] its1 IH]; intros sb off; simpl.
  - f_equal. lia.
  - rewrite IH, !app_assoc.
    by replace (off + (isize op + code_size its1)) with (off + isize op + code_size its1) by lia.
Qed.

Lemma sb_after_app sb off its1 its2 :
  sb_after sb off (its1 ++ its2) = sb_after (sb_after sb off its1) (off + code_size its1) its2.
Proof.
  revert sb off. induction its1 as [|[op arg] its1 IH]; intros sb off; simpl.
  - f_equal. lia.
  - rewrite IH.
    by replace (off + (isize op + code_size its1)) with (off + isize op + code_size its1) by lia.
Qed.

Lemma offset_of_S its k it : its !! k = Some it → offset_of its (S k) = offset_of its k + isize it.1.
Proof.
  intros H. unfold offset_of. erewrite take_S_r by done. rewrite code_size_app. simpl. lia.
Qed.

Lemma offset_of_all its k : (length its ≤ k)%nat → offset_of its k = code_size its.
Proof. intros. unfold offset_of. by rewrite take_ge by lia. Qed.

Lemma offset_of_app_l its1 its2 k :
  (k ≤ length its1)%nat → offset_of (its1 ++ its2) k = offset_of its1 k.
Proof. intros. unfold offset_of. by rewrite take_app_le. Qed.

Lemma offset_of_le its k1 k2 :
  Forall (λ it, valid_op it.1) its → (k1 ≤ k2)%nat → offset_of its k1 ≤ offset_of its k2.
Proof.
  intros Hv Hk. unfold offset_of. replace k2 with (k1 + (k2 - k1))%nat by lia.
  rewrite <-take_take_drop, code_size_app.
  pose proof (code_size_nonneg (take (k2 - k1) (drop k1 its))) as H.
  assert (0 ≤ code_size (take (k2 - k1) (drop k1 its))); [|lia].
  apply H, Forall_take, Forall_drop, Hv.
Qed.

Lemma offset_of_inj its k1 k2 :
  Forall (λ it, valid_op it.1) its → (k1 ≤ length its)%nat → (k2 ≤ length its)%nat →
  offset_of its k1 = offset_of its k2 → k1 = k2.
Proof.
  intros Hv. revert k1 k2.
  assert (∀ k1 k2, (k1 < k2 ≤ length its)%nat → offset_of its k1 < offset_of its k2) as Hlt.
  { intros k1 k2 Hk. destruct (lookup_lt_is_Some_2 its k1) as [it Hit]; [lia|].
    pose proof (offset_of_le its (S k1) k2 Hv). rewrite (offset_of_S _ _ _ Hit) in *.
    pose proof (isize_bounds it.1 (Forall_lookup_1 _ _ _ _ Hv Hit)). lia. }
  intros k1 k2 H1 H2 H. destruct (lt_eq_lt_dec k1 k2) as [[Hl|]|Hl]; [|done|].
  - specialize (Hlt k1 k2). lia.
  - specialize (Hlt k2 k1). lia.
Qed.

(** Operand bytes only depend on the operand modulo the operand's width. *)
Lemma le_bytes_wrap_eq n x y :
  wrap (8 * Z.of_nat n) x = wrap (8 * Z.of_nat n) y → le_bytes n x = le_bytes n y.
Proof.
  intros H. rewrite <-(le_bytes_wrap n (8 * Z.of_nat n) x), H by lia. by apply le_bytes_wrap.
Qed.
