(* ===== verification/ILImport.v ===== *)
(** * Importing a method body (ILRewriter::Import, ImportIL, ImportEH of il_rewriter.cpp)

    The decoder turns the bytes of a method's code into the instruction list and resolves the
    operand of every branch and switch case to the instruction it names.  The main results: an
    import never reads outside the code and always returns (with [S_OK] or
    [COR_E_INVALIDPROGRAM]), and an accepted code is the encoding [enc_code] of the list built. *)

From S2P Require Import Prelude ILOpcodes ILList ILEncoding.

(** ** Reading the code bytes *)

(** [*(UNALIGNED T* )&pIL[offset]] for an n-byte little-endian T, before sign extension. *)
Definition read_le (n : nat) (pIL : list Z) (offset : Z) : M Z :=
  if decide (0 ≤ offset ∧ offset + Z.of_nat n ≤ Z.of_nat (length pIL))
  then mret (le_val (slice (Z.to_nat offset) n pIL))
  else stuck.

Definition set_offset_entry (offset pInstr : Z) : M unit :=
  r ← get;
  table ← lift_option (m_pOffsetToInstr r);
  if decide (0 ≤ offset < Z.of_nat (length table))
  then modify (upd_m_pOffsetToInstr (λ _, Some (<[Z.to_nat offset := pInstr]> table)))
  else stuck.

(** ** [ImportIL] *)

Definition GetInstrFromOffset (offset : Z) : M Z :=
  r ← get;
  if decide (offset ≤ m_CodeSize r) then
    table ← lift_option (m_pOffsetToInstr r);
    result ← lift_option (zlookup table offset);
    if decide (result ≠ nullptr) then mret result else throw COR_E_INVALIDPROGRAM
  else throw COR_E_INVALIDPROGRAM.

(** The cases of a switch: [for (iTarget = 0; iTarget < nTargets; iTarget++)]. *)
Fixpoint ImportIL_switch (fuel : nat) (pIL : list Z) (base nTargets iTarget offset : Z) : M Z :=
  if decide (iTarget < nTargets) then
    match fuel with
    | O => out_of_fuel
    | S fuel =>
        r ← get;
        if decide (m_CodeSize r < offset + 4) then throw COR_E_INVALIDPROGRAM
        else
          pInstr ← NewILInstr;
          write_instr pInstr (set_opcode CEE_SWITCH_ARG);;
          rel ← read_le 4 pIL offset;
          write_instr pInstr (set_Arg32 (u32 (base + s32 rel)));;
          InsertBefore m_IL pInstr;;
          ImportIL_switch fuel pIL base nTargets (u32 (iTarget + 1)) (u32 (offset + 4))
    end
  else mret offset.

(** The operand: [switch (flags)].  Returns [fBranch] and [offset] after the statement. *)
Definition ImportIL_operand (fuel : nat) (pIL : list Z) (flags pInstr offset : Z) (fBranch : bool) :
    M (Z * bool) :=
  if decide (flags = 0) then mret (offset, fBranch)
  else if decide (flags = 1) then
    v ← read_le 1 pIL offset; write_instr pInstr (set_Arg8 (s8 v));; mret (offset, fBranch)
  else if decide (flags = 2) then
    v ← read_le 2 pIL offset; write_instr pInstr (set_Arg16 (s16 v));; mret (offset, fBranch)
  else if decide (flags = 4) then
    v ← read_le 4 pIL offset; write_instr pInstr (set_Arg32 (s32 v));; mret (offset, fBranch)
  else if decide (flags = 8) then
    v ← read_le 8 pIL offset; write_instr pInstr (set_Arg64 (s64 v));; mret (offset, fBranch)
  else if decide (flags = Z.lor 1 OPCODEFLAGS_BranchTarget) then
    v ← read_le 1 pIL offset;
    write_instr pInstr (set_Arg32 (u32 (offset + 1 + s8 v)));; mret (offset, true)
  else if decide (flags = Z.lor 4 OPCODEFLAGS_BranchTarget) then
    v ← read_le 4 pIL offset;
    write_instr pInstr (set_Arg32 (u32 (offset + 4 + s32 v)));; mret (offset, true)
  else if decide (flags = Z.lor 0 OPCODEFLAGS_Switch) then
    r ← get;
    if decide (m_CodeSize r < offset + 4) then throw COR_E_INVALIDPROGRAM
    else
      v ← read_le 4 pIL offset;
      let nTargets := u32 (s32 v) in
      write_instr pInstr (set_Arg32 nTargets);;
      let offset := u32 (offset + 4) in
      let base := u32 (offset + nTargets * 4) in
      offset ← ImportIL_switch fuel pIL base nTargets 0 offset;
      mret (offset, true)
  else throw COR_E_INVALIDPROGRAM.

(** The opcode at [offset], with the two-byte form behind [CEE_PREFIX1], and the offset after it. *)
Definition ImportIL_opcode (pIL : list Z) (offset : Z) : M (Z * Z) :=
  opcode ← read_le 1 pIL offset;
  let offset := u32 (offset + 1) in
  '(opcode, offset) ← (
    if decide (opcode = CEE_PREFIX1) then
      r ← get;
      if decide (m_CodeSize r ≤ offset) then throw COR_E_INVALIDPROGRAM
      else b ← read_le 1 pIL offset; mret (0x100 + b, u32 (offset + 1))
    else mret (opcode, offset));
  if decide (CEE_PREFIX7 ≤ opcode ∧ opcode ≤ CEE_PREFIX2) then throw COR_E_INVALIDPROGRAM
  else if decide (CEE_COUNT ≤ opcode) then throw COR_E_INVALIDPROGRAM
  else mret (opcode, offset).

(** One iteration of [while (offset < m_CodeSize)]. *)
Definition ImportIL_step (fuel : nat) (pIL : list Z) (startOffset : Z) (fBranch : bool) :
    M (Z * bool) :=
  '(opcode, offset) ← ImportIL_opcode pIL startOffset;
  flags ← lift_option (zlookup s_OpCodeFlags opcode);
  let size := Z.land flags OPCODEFLAGS_SizeMask in
  r ← get;
  if decide (m_CodeSize r < u32 (offset + size)) then throw COR_E_INVALIDPROGRAM
  else
    pInstr ← NewILInstr;
    write_instr pInstr (set_opcode opcode);;
    InsertBefore m_IL pInstr;;
    set_offset_entry startOffset pInstr;;
    '(offset, fBranch) ← ImportIL_operand fuel pIL flags pInstr offset fBranch;
    mret (u32 (offset + size), fBranch).

Fixpoint ImportIL_loop (fuel : nat) (pIL : list Z) (offset : Z) (fBranch : bool) : M (Z * bool) :=
  r ← get;
  if decide (offset < m_CodeSize r) then
    match fuel with
    | O => out_of_fuel
    | S fuel =>
        '(offset, fBranch) ← ImportIL_step fuel pIL offset fBranch;
        ImportIL_loop fuel pIL offset fBranch
    end
  else mret (offset, fBranch).

(** The second loop: the operand of every control flow instruction becomes its target. *)
Definition ImportIL_resolve_one (pInstr : Z) (_ : unit) : M unit :=
  i ← read_instr pInstr;
  flags ← lift_option (zlookup s_OpCodeFlags (m_opcode i));
  if decide (Z.land flags OPCODEFLAGS_BranchTarget ≠ 0) then
    target ← GetInstrFromOffset (u32 (m_Arg32 i));
    write_instr pInstr (set_pTarget target)
  else mret tt.

(** The exception clauses in the fat form that [EHClause] of corhlpr.cpp returns. *)
Record COR_ILMETHOD_SECT_EH_CLAUSE_FAT := {
  eh_Flags : Z;
  eh_TryOffset : Z;
  eh_TryLength : Z;
  eh_HandlerOffset : Z;
  eh_HandlerLength : Z;
  eh_ClassToken : Z; (* and FilterOffset: one 32-bit field *)
}.

(** What [COR_ILMETHOD_DECODER] yields for the bytes of a method. *)
Record COR_ILMETHOD_DECODER := {
  dec_LocalVarSigTok : Z;
  dec_MaxStack : Z;
  dec_Flags : Z;
  dec_CodeSize : Z;
  dec_Code : list Z;
  dec_EH : list COR_ILMETHOD_SECT_EH_CLAUSE_FAT;
}.

Definition COR_ILEXCEPTION_CLAUSE_FILTER : Z := 1.

(** [nothrow_new n]: whether [new (std::nothrow)] of n bytes succeeds; [EHClause_uninit]: what an
    element of [new EHClause[n]] holds before it is written. *)
Section Importer.
Context (nothrow_new : Z → bool) (EHClause_uninit : EHClause).

(** Every iteration of the three loops consumes a byte, so the fuel is the code size. *)
Definition ImportIL (pIL : list Z) : M unit :=
  r ← get;
  let n := m_CodeSize r in
  if nothrow_new (8 * u32 (n + 1)) then
    modify (upd_m_pOffsetToInstr (λ _, Some (replicate (Z.to_nat (u32 (n + 1))) nullptr)));;
    set_offset_entry n m_IL;;
    write_instr m_IL (set_opcode (u32 (-1)));;
    '(offset, fBranch) ← ImportIL_loop (S (Z.to_nat n)) pIL 0 false;
    if decide (offset ≠ n) then throw COR_E_INVALIDPROGRAM
    else if (fBranch : bool) then il_for_each tt ImportIL_resolve_one
    else mret tt
  else modify (upd_m_pOffsetToInstr (λ _, None));; throw E_OUTOFMEMORY.

(** ** [ImportEH] *)

(** [m_pEH[iEH]], updated by [f]. *)
Definition write_clause (iEH : nat) (f : EHClause → EHClause) : M unit :=
  r ← get;
  cs ← lift_option (m_pEH r);
  c ← lift_option (cs !! iEH);
  modify (upd_m_pEH (λ _, Some (<[iEH := f c]> cs))).

Definition set_ehFlags (x : Z) (c : EHClause) : EHClause :=
  {| m_Flags := x; m_pTryBegin := m_pTryBegin c; m_pTryEnd := m_pTryEnd c;
     m_pHandlerBegin := m_pHandlerBegin c; m_pHandlerEnd := m_pHandlerEnd c; m_Class := m_Class c |}.
Definition set_pTryBegin (x : Z) (c : EHClause) : EHClause :=
  {| m_Flags := m_Flags c; m_pTryBegin := x; m_pTryEnd := m_pTryEnd c;
     m_pHandlerBegin := m_pHandlerBegin c; m_pHandlerEnd := m_pHandlerEnd c; m_Class := m_Class c |}.
Definition set_pTryEnd (x : Z) (c : EHClause) : EHClause :=
  {| m_Flags := m_Flags c; m_pTryBegin := m_pTryBegin c; m_pTryEnd := x;
     m_pHandlerBegin := m_pHandlerBegin c; m_pHandlerEnd := m_pHandlerEnd c; m_Class := m_Class c |}.
Definition set_pHandlerBegin (x : Z) (c : EHClause) : EHClause :=
  {| m_Flags := m_Flags c; m_pTryBegin := m_pTryBegin c; m_pTryEnd := m_pTryEnd c;
     m_pHandlerBegin := x; m_pHandlerEnd := m_pHandlerEnd c; m_Class := m_Class c |}.
Definition set_pHandlerEnd (x : Z) (c : EHClause) : EHClause :=
  {| m_Flags := m_Flags c; m_pTryBegin := m_pTryBegin c; m_pTryEnd := m_pTryEnd c;
     m_pHandlerBegin := m_pHandlerBegin c; m_pHandlerEnd := x; m_Class := m_Class c |}.
Definition set_ClassToken (x : Z) (c : EHClause) : EHClause :=
  {| m_Flags := m_Flags c; m_pTryBegin := m_pTryBegin c; m_pTryEnd := m_pTryEnd c;
     m_pHandlerBegin := m_pHandlerBegin c; m_pHandlerEnd := m_pHandlerEnd c;
     m_Class := m_Class c - u32 (m_Class c) + u32 x |}.
Definition set_pFilter (x : Z) (c : EHClause) : EHClause :=
  {| m_Flags := m_Flags c; m_pTryBegin := m_pTryBegin c; m_pTryEnd := m_pTryEnd c;
     m_pHandlerBegin := m_pHandlerBegin c; m_pHandlerEnd := m_pHandlerEnd c; m_Class := x |}.

Definition ImportEH_clause (iEH : nat) (ehInfo : COR_ILMETHOD_SECT_EH_CLAUSE_FAT) : M unit :=
  write_clause iEH (set_ehFlags (eh_Flags ehInfo));;
  pInstr ← GetInstrFromOffset (eh_TryOffset ehInfo);
  write_clause iEH (set_pTryBegin pInstr);;
  pInstr ← GetInstrFromOffset (u32 (eh_TryOffset ehInfo + eh_TryLength ehInfo));
  write_clause iEH (set_pTryEnd pInstr);;
  pInstr ← GetInstrFromOffset (eh_HandlerOffset ehInfo);
  write_clause iEH (set_pHandlerBegin pInstr);;
  pInstr ← GetInstrFromOffset (u32 (eh_HandlerOffset ehInfo + eh_HandlerLength ehInfo));
  i ← read_instr pInstr;
  write_clause iEH (set_pHandlerEnd (m_pPrev i));;
  if decide (Z.land (eh_Flags ehInfo) COR_ILEXCEPTION_CLAUSE_FILTER = 0) then
    write_clause iEH (set_ClassToken (eh_ClassToken ehInfo))
  else
    pInstr ← GetInstrFromOffset (eh_ClassToken ehInfo);
    write_clause iEH (set_pFilter pInstr).

Fixpoint ImportEH_loop (iEH : nat) (pILEH : list COR_ILMETHOD_SECT_EH_CLAUSE_FAT) : M unit :=
  match pILEH with
  | [] => mret tt
  | ehInfo :: rest => ImportEH_clause iEH ehInfo;; ImportEH_loop (S iEH) rest
  end.

Definition ImportEH (pILEH : list COR_ILMETHOD_SECT_EH_CLAUSE_FAT) : M unit :=
  r ← get;
  if decide (m_pEH r ≠ None) then throw COR_E_INVALIDOPERATION
  else
    let nEH := Z.of_nat (length pILEH) in
    modify (upd_m_nEH (λ _, nEH));;
    if decide (nEH = 0) then mret tt
    else if nothrow_new (48 * nEH) then
      modify (upd_m_pEH (λ _, Some (replicate (length pILEH) EHClause_uninit)));;
      ImportEH_loop 0 pILEH
    else throw E_OUTOFMEMORY.

(** ** [Import] *)

Definition Import (decoder : COR_ILMETHOD_DECODER) : M unit :=
  modify (upd_m_tkLocalVarSig (λ _, dec_LocalVarSigTok decoder));;
  modify (upd_m_maxStack (λ _, dec_MaxStack decoder));;
  modify (upd_m_flags (λ _, Z.land (dec_Flags decoder) CorILMethod_InitLocals));;
  modify (upd_m_CodeSize (λ _, dec_CodeSize decoder));;
  ImportIL (dec_Code decoder);;
  ImportEH (dec_EH decoder).
End Importer.

Lemma upd_il_store_twice r p i1 i2 :
  upd_il_store (insert p i1) (upd_il_store (insert p i2) r) = upd_il_store (insert p i1) r.
Proof. unfold upd_il_store. cbn. by rewrite insert_insert_eq. Qed.

(** ** Correctness of [ImportIL]

    [pIL] is the method's code, [n] its size. *)

Section ImportProof.
Context (pIL : list Z) (n : Z).
Context (Hn : 0 ≤ n < 2 ^ 31) (Hlen : n ≤ Z.of_nat (length pIL)).
Context (Hbytes : Forall (λ b, is_byte b) pIL).

Lemma read_le_run k offset r :
  0 ≤ offset → offset + Z.of_nat k ≤ n →
  read_le k pIL offset r = (Ret (le_val (slice (Z.to_nat offset) k pIL)), r).
Proof. intros. unfold read_le. by rewrite decide_True by lia. Qed.

(** [p] is a list node with the given opcode and operand. *)
Definition item (r : ILRewriter) (p : Z) (it : Z * Z) : Prop :=
  ∃ off, data (il_store r) p = Some (it.1, off, it.2).

Definition pushes_of (its : list (Z * Z)) : Z := foldr (λ it s, pushes it.1 + s) 0 its.

(** A short branch's target is within reach of its one-byte displacement. *)
Definition short_fits (its : list (Z * Z)) : Prop := ∀ k op arg,
  its !! k = Some (op, arg) → op_flags op = short_branch →
  -128 ≤ s32 (arg - offset_of its (S k)) < 128.

Definition branch_args (its : list (Z * Z)) : Prop := ∀ k op arg,
  its !! k = Some (op, arg) → is_branch op = true → 0 ≤ arg < 2 ^ 32.

(** The entries of [m_pOffsetToInstr]. *)
Definition table_ok (r : ILRewriter) (l : list Z) (its : list (Z * Z)) : Prop :=
  ∃ tbl, m_pOffsetToInstr r = Some tbl ∧ Z.of_nat (length tbl) = n + 1 ∧
    ∀ o p, tbl !! o = Some p → p ≠ nullptr →
      (Z.of_nat o = n ∧ p = m_IL) ∨ (∃ k, l !! k = Some p ∧ Z.of_nat o = offset_of its k).

(** The state after the instructions [its] have been read, up to offset [off]. *)
Record import_inv (r0 r : ILRewriter) (off : Z) (l : list Z) (its : list (Z * Z)) : Prop := {
  ii_list : il_list r l;
  ii_items : Forall2 (item r) l its;
  ii_valid : Forall (λ it, valid_op it.1) its;
  ii_off : off = code_size its;
  ii_bound : off ≤ n;
  ii_code : enc_code 0 0 its = take (Z.to_nat off) pIL;
  ii_short : short_fits its;
  ii_args : branch_args its;
  ii_table : table_ok r l its;
  ii_frame : frame r = frame r0;
  ii_nInstrs : m_nInstrs r = u32 (m_nInstrs r0 + Z.of_nat (length its));
  ii_maxStack : m_maxStack r = u32 (m_maxStack r0 + pushes_of its);
}.

Lemma pushes_of_app its1 its2 : pushes_of (its1 ++ its2) = pushes_of its1 + pushes_of its2.
Proof. unfold pushes_of. induction its1; simpl; lia. Qed.

(** The table after the entry of a new instruction was, or (a switch case) was not, made. *)
Definition table_step (r r' : ILRewriter) (off w : Z) : Prop :=
  m_pOffsetToInstr r' = m_pOffsetToInstr r ∨
  ∃ tbl, m_pOffsetToInstr r = Some tbl ∧
         m_pOffsetToInstr r' = Some (<[Z.to_nat off := w]> tbl).

Lemma table_ok_step r r' off l its w it :
  table_ok r l its → table_step r r' off w → off = code_size its → 0 ≤ off →
  length l = length its → table_ok r' (l ++ [w]) (its ++ [it]).
Proof.
  intros (tbl & Ht & Htl & Hte) Hstep Hoff Hoff0 Hll.
  assert (Hold : ∀ o p, tbl !! o = Some p → p ≠ nullptr →
    (Z.of_nat o = n ∧ p = m_IL) ∨
    (∃ k, (l ++ [w]) !! k = Some p ∧ Z.of_nat o = offset_of (its ++ [it]) k)).
  { intros o p Ho Hp. destruct (Hte o p Ho Hp) as [?|(k & Hk & Ho')]; [by left|right].
    exists k. pose proof (lookup_lt_Some _ _ _ Hk). split; [by apply lookup_app_l_Some|].
    by rewrite offset_of_app_l by lia. }
  destruct Hstep as [Heq|(tbl' & Ht' & Heq)].
  - exists tbl. by rewrite Heq.
  - rewrite Ht in Ht'. injection Ht' as <-. eexists. split_and!; [done|by rewrite length_insert|].
    intros o p Ho Hp. destruct (decide (Z.to_nat off = o)) as [<-|Hne].
    + apply list_lookup_insert_Some in Ho as [(_ & -> & _)|[? _]]; [|done].
      right. exists (length l). rewrite lookup_app_r, Nat.sub_diag by lia. split; [done|].
      rewrite offset_of_app_l, offset_of_all by lia. lia.
    + rewrite list_lookup_insert_ne in Ho by done. eauto.
Qed.

(** One more instruction, given that its bytes are those at [off]. *)
Lemma import_inv_step r0 r r' off l its w op arg :
  import_inv r0 r off l its → valid_op op →
  il_list r' (l ++ [w]) → item r' w (op, arg) →
  (∀ q, q ∈ l → data (il_store r') q = data (il_store r) q) → frame r' = frame r →
  m_nInstrs r' = u32 (m_nInstrs r + 1) → m_maxStack r' = u32 (m_maxStack r + pushes op) →
  table_step r r' off w → off + isize op ≤ n →
  opcode_bytes op ++ operand_bytes (sb_after 0 0 its) (off + isize op) op arg =
    slice (Z.to_nat off) (Z.to_nat (isize op)) pIL →
  (op_flags op = short_branch → -128 ≤ s32 (arg - (off + isize op)) < 128) →
  (is_branch op = true → 0 ≤ arg < 2 ^ 32) →
  import_inv r0 r' (off + isize op) (l ++ [w]) (its ++ [(op, arg)]).
Proof.
  intros [Hl Hits Hv Hoff Hbd Hcode Hsh Hargs Htab Hfr Hni Hms] Hop Hl' Hw Hold Hfr' Hni' Hms'
    Htab' Hbound Hslice Hshort Harg.
  pose proof (isize_bounds op Hop). pose proof (code_size_nonneg its Hv).
  pose proof (Forall2_length _ _ _ Hits) as Hll.
  split; try done.
  - apply Forall2_app; [|by apply Forall2_cons].
    apply Forall2_same_length_lookup. split; [done|]. intros k p it Hp Hit.
    destruct (Forall2_lookup_lr _ _ _ _ _ _ Hits Hp Hit) as [o Ho]. exists o.
    rewrite Hold; [done|]. by eapply list_elem_of_lookup_2.
  - apply Forall_app. split; [done|]. by apply Forall_singleton.
  - rewrite code_size_app. simpl. lia.
  - rewrite enc_code_app, Hcode. cbn [enc_code]. rewrite app_nil_r.
    rewrite Z.add_0_l, <-Hoff, Hslice.
    replace (Z.to_nat (off + isize op)) with (Z.to_nat off + Z.to_nat (isize op))%nat by lia.
    by rewrite take_slice.
  - intros k op' arg' Hk Hfl. apply lookup_app_Some in Hk as [Hk|[Hge Hk]].
    + pose proof (lookup_lt_Some _ _ _ Hk). rewrite offset_of_app_l by lia. eauto.
    + apply list_lookup_singleton_Some in Hk as [Hk [= <- <-]].
      rewrite offset_of_all by (rewrite length_app; simpl; lia).
      rewrite code_size_app. simpl. rewrite <-Hoff, Z.add_0_r. auto.
  - intros k op' arg' Hk Hfl. apply lookup_app_Some in Hk as [Hk|[Hge Hk]]; [eauto|].
    apply list_lookup_singleton_Some in Hk as [Hk [= <- <-]]. auto.
  - apply (table_ok_step r r' off); auto. lia.
  - by rewrite Hfr'.
  - rewrite Hni', Hni, wrap_add_l, length_app. f_equal. simpl. lia.
  - rewrite Hms', Hms, wrap_add_l, pushes_of_app. f_equal. simpl. lia.
Qed.

Lemma import_inv_appended r0 r rt r' off l its w op arg :
  import_inv r0 r off l its → valid_op op →
  (rt = r ∨ ∃ tbl, m_pOffsetToInstr r = Some tbl ∧
                   rt = upd_m_pOffsetToInstr (λ _, Some (<[Z.to_nat off := w]> tbl)) r) →
  appended rt r' l w op arg →
  let off1 := off + Z.of_nat (length (opcode_bytes op)) in
  off1 + operand_size op ≤ n →
  opcode_bytes op = slice (Z.to_nat off) (length (opcode_bytes op)) pIL →
  operand_bytes (sb_after 0 0 its) (off1 + operand_size op) op arg =
    slice (Z.to_nat off1) (Z.to_nat (operand_size op)) pIL →
  (op_flags op = short_branch → -128 ≤ s32 (arg - (off1 + operand_size op)) < 128) →
  (is_branch op = true → 0 ≤ arg < 2 ^ 32) →
  import_inv r0 r' (off1 + operand_size op) (l ++ [w]) (its ++ [(op, arg)]).
Proof.
  intros Hinv Hop Hrt Happ off1 Hb Hopb Hargb Hshort Hbr.
  destruct (isize_operand op Hop) as [Hi Hos].
  pose proof (code_size_nonneg its (ii_valid _ _ _ _ _ Hinv)) as Hnn. rewrite <-(ii_off _ _ _ _ _ Hinv) in Hnn.
  replace (off1 + operand_size op) with (off + isize op) in * by lia.
  destruct Happ as [Ha Hal Han Hao Haf Hat Hai Ham].
  eapply (import_inv_step r0 r); try done.
  - by exists 0.
  - intros q Hq. rewrite Hao by done. by destruct Hrt as [->|(tbl & _ & ->)].
  - rewrite Haf. by destruct Hrt as [->|(tbl & _ & ->)].
  - rewrite Hai. by destruct Hrt as [->|(tbl & _ & ->)].
  - rewrite Ham. by destruct Hrt as [->|(tbl & _ & ->)].
  - destruct Hrt as [->|(tbl & Ht & ->)]; [by left|right]. by exists tbl.
  - rewrite Hargb, Hi, Hopb at 1. rewrite Z2Nat.inj_add, Nat2Z.id by lia. rewrite slice_app.
    unfold off1. by rewrite Z2Nat.inj_add, Nat2Z.id by lia.
Qed.

(** *** Bytes of the code as operands *)

Lemma slice_operand k off :
  0 ≤ off → off + Z.of_nat k ≤ n →
  le_bytes k (le_val (slice (Z.to_nat off) k pIL)) = slice (Z.to_nat off) k pIL.
Proof. intros. apply le_bytes_slice; [done|lia]. Qed.

Lemma operand_val_range k off :
  0 ≤ off → off + Z.of_nat k ≤ n →
  0 ≤ le_val (slice (Z.to_nat off) k pIL) < 2 ^ (8 * Z.of_nat k).
Proof. intros. apply le_val_slice_range; [done|lia]. Qed.

(** What the operand statement must establish for the new instruction. *)
Definition good_arg (op off arg : Z) : Prop :=
  (∀ sb, operand_bytes sb (off + operand_size op) op arg =
         slice (Z.to_nat off) (Z.to_nat (operand_size op)) pIL) ∧
  (op_flags op = short_branch → -128 ≤ s32 (arg - (off + operand_size op)) < 128) ∧
  (is_branch op = true → 0 ≤ arg < 2 ^ 32).

Lemma good_arg_plain op off k v :
  valid_op op → op ≠ CEE_SWITCH_ARG → op_flags op = Z.of_nat k → (k = 0 ∨ k = 1 ∨ k = 2 ∨ k = 4 ∨ k = 8)%nat →
  0 ≤ off → off + Z.of_nat k ≤ n → wrap (8 * Z.of_nat k) v = le_val (slice (Z.to_nat off) k pIL) →
  good_arg op off v.
Proof.
  intros Hop Hsw Hfl Hk Hoff Hb Hv.
  assert (operand_size op = Z.of_nat k) as Hsz.
  { unfold operand_size. rewrite Hfl. by destruct Hk as [->|[->|[->|[->| ->]]]]. }
  assert (op_flags op ≠ short_branch ∧ op_flags op ≠ long_branch) as [Hs Hl].
  { rewrite Hfl. by destruct Hk as [->|[->|[->|[->| ->]]]]. }
  split_and!.
  - intros sb. unfold operand_bytes. rewrite !decide_False by done. rewrite Hsz, Nat2Z.id.
    rewrite <-(slice_operand k off), <-Hv by lia. by rewrite le_bytes_wrap by lia.
  - done.
  - rewrite is_branch_flags by done. tauto.
Qed.

Lemma good_arg_branch op off k v :
  valid_op op → op ≠ CEE_SWITCH_ARG →
  (op_flags op = short_branch ∧ k = 1%nat) ∨ (op_flags op = long_branch ∧ k = 4%nat) →
  0 ≤ off → off + Z.of_nat k ≤ n → v = le_val (slice (Z.to_nat off) k pIL) →
  good_arg op off (u32 (off + Z.of_nat k + sgn (8 * Z.of_nat k) v)).
Proof.
  intros Hop Hsw Hk Hoff Hb Hv.
  assert (operand_size op = Z.of_nat k ∧ op_flags op ≠ switch_flags) as [Hsz _].
  { unfold operand_size. by destruct Hk as [[-> ->]|[-> ->]]. }
  assert (Hw : ∀ x, wrap (8 * Z.of_nat k) (u32 (off + Z.of_nat k + sgn (8 * Z.of_nat k) x) - (off + Z.of_nat k))
                  = wrap (8 * Z.of_nat k) x).
  { intros x. rewrite <-(wrap_wrap_le _ 32) by (destruct Hk as [[_ ->]|[_ ->]]; lia).
    rewrite wrap_sub_l, wrap_wrap_le by (destruct Hk as [[_ ->]|[_ ->]]; lia).
    rewrite <-(wrap_sgn _ x) by (destruct Hk as [[_ ->]|[_ ->]]; lia). f_equal. lia. }
  unfold good_arg. rewrite Hsz. split_and!.
  - intros sb. rewrite Nat2Z.id, <-(slice_operand k off) by lia. rewrite <-Hv.
    unfold operand_bytes. rewrite decide_False by done.
    destruct Hk as [[-> ->]|[-> ->]].
    + rewrite decide_True by done. apply le_bytes_wrap_eq, Hw.
    + rewrite decide_False, decide_True by done. apply le_bytes_wrap_eq, Hw.
  - intros Hf. destruct Hk as [[_ ->]|[Hf' _]]; [|by rewrite Hf in Hf'].
    rewrite <-sgn_wrap, wrap_sub_l, sgn_wrap by lia.
    replace (off + Z.of_nat 1 + sgn (8 * Z.of_nat 1) v - (off + Z.of_nat 1)) with (s8 v) by (change (8 * Z.of_nat 1) with 8; lia).
    pose proof (sgn_range 8 v ltac:(lia)) as Hr. simpl in Hr.
    rewrite sgn_small; [lia..|]. simpl. lia.
  - intros _. apply (wrap_range 32). lia.
Qed.

(** *** The operand statement, for every opcode but [switch] *)

Lemma plain_operand_run k op r r1 l w off (fBranch : bool) :
  valid_op op → op ≠ CEE_SWITCH_ARG → op_flags op = Z.of_nat k → (k = 1 ∨ k = 2 ∨ k = 4 ∨ k = 8)%nat →
  appended r r1 l w op 0 → 0 ≤ off → off + Z.of_nat k ≤ n →
  ∃ r2 arg,
    (v ← read_le k pIL off;
     write_instr w (set_low (8 * Z.of_nat k) (sgn (8 * Z.of_nat k) v));; mret (off, fBranch)) r1 =
      (Ret (off, fBranch), r2) ∧
    appended r r2 l w op arg ∧ good_arg op off arg.
Proof.
  intros Hop Hsa Hf Hk Happ Hoff Hb.
  run_by (by apply read_le_run).
  set (v := le_val _).
  destruct (appended_set_low _ _ _ _ _ _ (8 * Z.of_nat k) (sgn (8 * Z.of_nat k) v) Happ) as (r2 & Hr2 & Ha2).
  run_by (exact Hr2). eexists r2, _. split_and!; [done|exact Ha2|].
  pose proof (operand_val_range k off Hoff Hb) as Hr. apply (good_arg_plain op off k); [done..|tauto|done|done|].
  assert (wrap (8 * Z.of_nat k) 0 = 0) as -> by done.
  rewrite Z.sub_0_r, Z.add_0_l. autorewrite with width. by apply wrap_small.
Qed.

Lemma branch_operand_run k op r r1 l w off :
  valid_op op → op ≠ CEE_SWITCH_ARG →
  (op_flags op = short_branch ∧ k = 1%nat) ∨ (op_flags op = long_branch ∧ k = 4%nat) →
  appended r r1 l w op 0 → 0 ≤ off → off + Z.of_nat k ≤ n →
  ∃ r2 arg,
    (v ← read_le k pIL off;
     write_instr w (set_Arg32 (u32 (off + Z.of_nat k + sgn (8 * Z.of_nat k) v)));; mret (off, true)) r1 =
      (Ret (off, true), r2) ∧
    appended r r2 l w op arg ∧ good_arg op off arg.
Proof.
  intros Hop Hsa Hk Happ Hoff Hb.
  run_by (by apply read_le_run).
  set (v := le_val _).
  destruct (appended_set_low _ _ _ _ _ _ 32 (u32 (off + Z.of_nat k + sgn (8 * Z.of_nat k) v)) Happ) as (r2 & Hr2 & Ha2).
  run_by (exact Hr2). eexists r2, _. split_and!; [done|exact Ha2|].
  change (wrap 32 0) with 0. rewrite Z.sub_0_r, Z.add_0_l, wrap_wrap by lia.
  by apply (good_arg_branch op off k).
Qed.

Lemma ImportIL_operand_run fuel op r r1 l w off fBranch :
  valid_op op → op ≠ CEE_SWITCH_ARG → op_flags op ≠ switch_flags → appended r r1 l w op 0 →
  0 ≤ off → off + operand_size op ≤ n →
  ∃ r2 arg, ImportIL_operand fuel pIL (op_flags op) w off fBranch r1 =
              (Ret (off, is_branch op || fBranch), r2) ∧
            appended r r2 l w op arg ∧ good_arg op off arg.
Proof.
  intros Hop Hsa Hsw Happ Hoff Hb. unfold ImportIL_operand.
  pose proof (is_branch_flags op Hop) as Hbr.
  assert (Hplain : op_flags op ≠ short_branch → op_flags op ≠ long_branch → is_branch op = false)
    by (intros; destruct (is_branch op); tauto).
  assert (Hsize : operand_size op = Z.land (op_flags op) OPCODEFLAGS_SizeMask).
  { unfold operand_size. rewrite decide_False by done. lia. }
  destruct (op_flags_cases op Hop) as [Hf|[Hf|[Hf|[Hf|[Hf|[Hf|[Hf|Hf]]]]]]]; rewrite Hf in *;
    try done; cbn in Hsize; rewrite ?Hsize in Hb;
    try (rewrite Hplain by done; simpl);
    try (rewrite (proj2 Hbr) by auto; simpl).
  - exists r1, 0. split_and!; [done|done|]. apply (good_arg_plain op off 0); auto.
  - apply (plain_operand_run 1); auto.
  - apply (plain_operand_run 2); auto.
  - apply (plain_operand_run 4); auto.
  - apply (plain_operand_run 8); auto.
  - apply (branch_operand_run 1 op r r1 l w off); auto.
  - apply (branch_operand_run 4 op r r1 l w off); auto.
Qed.

(** *** The opcode *)

Lemma opcode_bytes_one op : 0 ≤ op < 0x100 → opcode_bytes op = [op].
Proof.
  intros. unfold opcode_bytes, CEE_COUNT. rewrite decide_True, decide_False by lia.
  by rewrite Z.mod_small by lia.
Qed.

Lemma opcode_bytes_two b :
  0 ≤ b → 0x100 + b < CEE_COUNT → opcode_bytes (0x100 + b) = [CEE_PREFIX1; b].
Proof.
  unfold CEE_COUNT. intros. unfold opcode_bytes, CEE_COUNT. rewrite !decide_True by lia.
  rewrite Z.add_comm, <-(Z.mul_1_l 0x100), Z_mod_plus_full. by rewrite Z.mod_small by lia.
Qed.

Lemma ImportIL_opcode_wp r off :
  m_CodeSize r = n → 0 ≤ off < n →
  wp (ImportIL_opcode pIL off) r
    (λ res r', r' = r ∧ valid_op res.1 ∧ res.1 ≠ CEE_SWITCH_ARG ∧
      res.2 = off + Z.of_nat (length (opcode_bytes res.1)) ∧ res.2 ≤ n ∧
      opcode_bytes res.1 = slice (Z.to_nat off) (length (opcode_bytes res.1)) pIL)
    (λ e _, e = COR_E_INVALIDPROGRAM).
Proof.
  intros Hcs Hoff. unfold ImportIL_opcode.
  destruct (lookup_lt_is_Some_2 pIL (Z.to_nat off)) as [b Hb]; [lia|].
  pose proof (Forall_lookup_1 _ _ _ _ Hbytes Hb) as Hrb. simpl in Hrb.
  wp_step (apply (read_le_run 1); lia).
  rewrite (slice_1 _ _ _ Hb). replace (le_val [b]) with b by (simpl; lia).
  rewrite (wrap_small 32 (off + 1)) by lia.
  apply wp_bind. case_decide as Hpre.
  - wp_step (done). rewrite Hcs. case_decide; [done|].
    wp_step (apply (read_le_run 1); lia).
    destruct (lookup_lt_is_Some_2 pIL (Z.to_nat (off + 1))) as [b2 Hb2]; [lia|].
    pose proof (Forall_lookup_1 _ _ _ _ Hbytes Hb2) as Hrb2. simpl in Hrb2.
    rewrite (slice_1 _ _ _ Hb2). replace (le_val [b2]) with b2 by (simpl; lia).
    rewrite (wrap_small 32 (off + 1 + 1)) by lia.
    eapply wp_run; [done|]. cbv beta iota.
    case_decide; [done|]. case_decide as Hcnt; [done|]. eapply wp_run; [done|]. cbn [fst snd].
    rewrite opcode_bytes_two by lia. split_and!; [done|left; lia|unfold CEE_SWITCH_ARG, CEE_COUNT in *; lia|simpl; lia|lia|].
    rewrite (slice_app _ 1 1), (slice_1 _ _ _ Hb). subst b. simpl. f_equal.
    symmetry. apply slice_1. rewrite <-Hb2. f_equal. lia.
  - eapply wp_run; [done|]. cbv beta iota.
    case_decide; [done|]. case_decide as Hcnt; [done|]. eapply wp_run; [done|]. cbn [fst snd].
    rewrite opcode_bytes_one by lia.
    split_and!; [done|left; lia|unfold CEE_SWITCH_ARG, CEE_COUNT in *; lia|simpl; lia|lia|].
    symmetry. by apply slice_1.
Qed.

(** *** The cases of a switch *)

(** [switch_pending its]: the number of cases that the last switch of [its] still lacks, [None]
    when a case stands where no switch wants one, or an instruction where a case is missing. *)
Definition switch_step (pending : option Z) (it : Z * Z) : option Z :=
  k ← pending;
  if decide (it.1 = CEE_SWITCH_ARG) then if decide (0 < k) then Some (k - 1) else None
  else if decide (k = 0) then Some (if decide (it.1 = CEE_SWITCH) then u32 it.2 else 0) else None.
Definition switch_pending (its : list (Z * Z)) : option Z := foldl switch_step (Some 0) its.

Lemma switch_pending_snoc its it :
  switch_pending (its ++ [it]) = switch_step (switch_pending its) it.
Proof. unfold switch_pending. by rewrite foldl_app. Qed.

Lemma import_inv_range r0 r off l its : import_inv r0 r off l its → 0 ≤ off ≤ n.
Proof. intros H. rewrite (ii_off _ _ _ _ _ H). split; [by eapply code_size_nonneg, ii_valid|]. rewrite <-(ii_off _ _ _ _ _ H). by eapply ii_bound. Qed.

Lemma ImportIL_switch_wp r0 base nT :
  m_CodeSize r0 = n → 0 ≤ nT < 2 ^ 32 → ∀ fuel iT off r l its,
  import_inv r0 r off l its → switch_pending its = Some (nT - iT) → 0 ≤ iT ≤ nT →
  u32 base = u32 (sb_after 0 0 its) → n - off < 4 * Z.of_nat fuel →
  wp (ImportIL_switch fuel pIL base nT iT off) r
    (λ off' r', ∃ l' its', import_inv r0 r' off' l' its' ∧ switch_pending its' = Some 0 ∧ off ≤ off')
    (λ e _, e = COR_E_INVALIDPROGRAM).
Proof.
  intros Hcs0 HnT fuel. induction fuel as [|fuel IH]; intros iT off r l its Hinv Hpend HiT Hbase Hfuel;
    pose proof (import_inv_range _ _ _ _ _ Hinv); [lia|].
  cbn [ImportIL_switch]. case_decide; [|eapply wp_run; [done|]; exists l, its; split_and!; [done| |lia];
    rewrite Hpend; f_equal; lia].
  wp_step (done).
  assert (m_CodeSize r = n) as Hcs by (pose proof (ii_frame _ _ _ _ _ Hinv) as Hf; unfold frame in Hf; congruence).
  rewrite Hcs. case_decide; [done|].
  wp_step (done).
  wp_step (apply write_instr_run, lookup_insert_eq).
  wp_step (apply (read_le_run 4); lia).
  wp_step (apply write_instr_run, lookup_insert_eq).
  set (v := u32 (base + s32 _)).
  pose proof (ii_list _ _ _ _ _ Hinv) as Hl.
  destruct (append_spec r l Hl (λ i, set_Arg32 v (set_opcode CEE_SWITCH_ARG i)))
    with (op := CEE_SWITCH_ARG) (arg := v) as (r1 & Hr1 & Happ); [done|done| |].
  { unfold data_of. cbn. change (wrap 32 0) with 0. unfold v. by rewrite wrap_wrap by lia. }
  rewrite upd_il_store_twice. wp_step (exact Hr1).
  rewrite (wrap_small 32 (iT + 1)), (wrap_small 32 (off + 4)) by lia.
  assert (Hv : valid_op CEE_SWITCH_ARG) by (by right).
  eapply wp_mono; [eapply (IH _ _ _ (l ++ [il_fresh r]) (its ++ [(CEE_SWITCH_ARG, v)]))|..]; try lia; try done.
  - replace (off + 4) with (off + Z.of_nat (length (opcode_bytes CEE_SWITCH_ARG)) +
      operand_size CEE_SWITCH_ARG) by (change (off + 0 + 4 = off + 4); lia).
    apply (import_inv_appended r0 r r r1 off l its (il_fresh r) CEE_SWITCH_ARG v); auto.
    + change (off + 0 + 4 ≤ n). lia.
    + change (operand_bytes (sb_after 0 0 its) (off + 0 + 4) CEE_SWITCH_ARG v = slice (Z.to_nat (off + 0)) 4 pIL).
      rewrite Z.add_0_r. unfold operand_bytes. rewrite decide_True by done.
      rewrite <-(slice_operand 4 off) by lia. apply le_bytes_wrap_eq.
      change (8 * Z.of_nat 4) with 32. unfold v. rewrite wrap_sub_l, <-wrap_sub_r, <-Hbase, wrap_sub_r.
      replace (base + _ - base) with (s32 (le_val (slice (Z.to_nat off) 4 pIL))) by lia.
      by rewrite wrap_sgn by lia.
    + done.
    + intros _. apply (wrap_range 32). lia.
  - rewrite switch_pending_snoc, Hpend. unfold switch_step. cbn -[decide]. rewrite decide_True, decide_True by (done || lia). f_equal. lia.
  - rewrite sb_after_app. cbn. unfold sb_step. by rewrite decide_False by done.
  - cbv beta. intros off' r' (l' & its' & ? & ? & ?). exists l', its'. split_and!; [done..|lia].
Qed.

(** *** One instruction, and the loop *)

Record loop_inv (r0 r : ILRewriter) (off : Z) (fBranch : bool) (l : list Z) (its : list (Z * Z)) : Prop := {
  li_inv : import_inv r0 r off l its;
  li_pending : switch_pending its = Some 0;
  li_branch : fBranch = false → Forall (λ it, is_branch it.1 = false) its;
}.

Lemma set_offset_entry_run r off p tbl :
  m_pOffsetToInstr r = Some tbl → 0 ≤ off < Z.of_nat (length tbl) →
  set_offset_entry off p r = (Ret tt, upd_m_pOffsetToInstr (λ _, Some (<[Z.to_nat off := p]> tbl)) r).
Proof.
  intros Ht Ho. unfold set_offset_entry. run_by (done). rewrite Ht. run_by (done).
  by rewrite decide_True by done.
Qed.

Lemma appended_table r r' l w op arg f :
  appended r r' l w op arg →
  appended (upd_m_pOffsetToInstr f r) (upd_m_pOffsetToInstr f r') l w op arg.
Proof. intros [? ? ? ? ? Ht ? ?]. split; try done. cbn. by rewrite Ht. Qed.

Lemma ImportIL_operand_switch r0 fuel r rt r1 off l its w fBranch :
  m_CodeSize r0 = n → import_inv r0 r off l its → switch_pending its = Some 0 →
  (rt = r ∨ ∃ tbl, m_pOffsetToInstr r = Some tbl ∧
                   rt = upd_m_pOffsetToInstr (λ _, Some (<[Z.to_nat off := w]> tbl)) r) →
  appended rt r1 l w CEE_SWITCH 0 → 0 ≤ off → off + 1 ≤ n → n - off ≤ Z.of_nat fuel →
  [CEE_SWITCH] = slice (Z.to_nat off) 1 pIL →
  wp (ImportIL_operand fuel pIL (op_flags CEE_SWITCH) w (off + 1) fBranch) r1
    (λ res r', ∃ l' its', import_inv r0 r' res.1 l' its' ∧ switch_pending its' = Some 0 ∧
                          off < res.1 ∧ res.2 = true)
    (λ e _, e = COR_E_INVALIDPROGRAM).
Proof.
  intros Hcs0 Hinv Hpend Hrt Happ Hoff Hb Hfuel Hopb.
  change (op_flags CEE_SWITCH) with switch_flags. unfold ImportIL_operand.
  rewrite !(decide_False (P := switch_flags = _)) by done.
  rewrite decide_True by done.
  assert (m_CodeSize r1 = n) as Hcs.
  { pose proof (ii_frame _ _ _ _ _ Hinv) as Hf. pose proof (ap_frame _ _ _ _ _ _ Happ) as Hf1.
    destruct Hrt as [->|(? & _ & ->)]; unfold frame in Hf, Hf1; cbn in Hf1; congruence. }
  wp_step (done). rewrite Hcs. case_decide; [done|].
  wp_step (apply (read_le_run 4); lia).
  pose proof (operand_val_range 4 (off + 1) ltac:(lia) ltac:(lia)) as Hv.
  change (8 * Z.of_nat 4) with 32 in Hv.
  set (v := le_val _) in *. rewrite (wrap_sgn 32 v), (wrap_small 32 v) by lia.
  destruct (appended_set_low _ _ _ _ _ _ 32 v Happ) as (r2 & Hr2 & Happ2).
  wp_step (exact Hr2). rewrite (wrap_small 32 (off + 1 + 4)) by lia.
  change (wrap 32 0) with 0 in Happ2. rewrite Z.sub_0_r, Z.add_0_l, wrap_small in Happ2 by lia.
  assert (Hsw : valid_op CEE_SWITCH) by (left; unfold CEE_SWITCH, CEE_COUNT; lia).
  assert (Hinv2 : import_inv r0 r2 (off + 1 + 4) (l ++ [w]) (its ++ [(CEE_SWITCH, v)])).
  { change (off + 1 + 4) with (off + Z.of_nat (length (opcode_bytes CEE_SWITCH)) + operand_size CEE_SWITCH).
    eapply import_inv_appended; eauto; try done.
    - change (off + 1 + 4 ≤ n). lia.
    - change (le_bytes 4 v = slice (Z.to_nat (off + 1)) 4 pIL). apply slice_operand; lia. }
  apply wp_bind. eapply wp_mono; [eapply (ImportIL_switch_wp r0 _ v Hcs0 Hv fuel 0 _ r2); eauto; try lia|..|done].
  - rewrite switch_pending_snoc, Hpend. unfold switch_step. cbn -[decide wrap].
    rewrite decide_False, !decide_True by done. f_equal. rewrite wrap_small; lia.
  - rewrite wrap_wrap by lia. rewrite sb_after_app. cbn -[wrap sgn Z.mul].
    unfold sb_step. rewrite decide_True by done. rewrite <-(ii_off _ _ _ _ _ Hinv).
    rewrite Z.add_0_l. apply wrap_eq_iff; [lia|]. destruct (sgn_cong 32 v) as [k Hk]; [lia|].
    rewrite Hk. exists (- 4 * k). lia.
  - cbv beta. intros off' r' (l' & its' & Hinv' & Hpend' & Hle). eapply wp_run; [done|].
    exists l', its'. cbn [fst snd]. split_and!; [done..|lia|done].
Qed.

Lemma ImportIL_step_wp r0 fuel r off fBranch l its :
  m_CodeSize r0 = n → loop_inv r0 r off fBranch l its → off < n → n - off ≤ Z.of_nat fuel →
  wp (ImportIL_step fuel pIL off fBranch) r
    (λ res r', off < res.1 ∧ ∃ l' its', loop_inv r0 r' res.1 res.2 l' its')
    (λ e _, e = COR_E_INVALIDPROGRAM).
Proof.
  intros Hcs0 [Hinv Hpend Hbr] Hoff Hfuel. unfold ImportIL_step.
  pose proof (import_inv_range _ _ _ _ _ Hinv) as Hrange.
  assert (m_CodeSize r = n) as Hcs by (pose proof (ii_frame _ _ _ _ _ Hinv) as Hf; unfold frame in Hf; congruence).
  apply wp_bind. eapply wp_mono; [apply ImportIL_opcode_wp; [done|lia]|..|done].
  intros [op off1] s (-> & Hop & Hsa & Hoff1 & Hle & Hopb). cbn [fst snd] in *.
  pose proof (op_flags_lookup op Hop) as Hfl. rewrite Hfl. wp_step (done). wp_step (done).
  assert (Hsz : 0 ≤ Z.land (op_flags op) OPCODEFLAGS_SizeMask ≤ 8).
  { by destruct (op_flags_cases op Hop) as [->|[->|[->|[->|[->|[->|[->| ->]]]]]]]. }
  rewrite Hcs. rewrite (wrap_small 32 (off1 + _)) by lia.
  case_decide as Hfit; [done|]. 
  wp_step (apply NewILInstr_run). wp_step (apply write_instr_run, lookup_insert_eq).
  pose proof (ii_list _ _ _ _ _ Hinv) as Hl.
  destruct (append_spec r l Hl (set_opcode op)) with (op := op) (arg := 0) as (r1 & Hr1 & Happ);
    [done|by apply valid_op_range|done|].
  wp_step (exact Hr1).
  destruct (ii_table _ _ _ _ _ Hinv) as (tbl & Ht & Htl & Hte).
  wp_step (eapply set_offset_entry_run; [by rewrite (ap_table _ _ _ _ _ _ Happ)|lia]).
  apply (appended_table _ _ _ _ _ _ (λ _, Some (<[Z.to_nat off := il_fresh r]> tbl))) in Happ.
  apply wp_bind. destruct (decide (op_flags op = switch_flags)) as [Hsw|Hsw].
  - apply (switch_flags_iff op Hop) in Hsw. subst op.
    change (Z.of_nat (length (opcode_bytes CEE_SWITCH))) with 1 in Hoff1. subst off1.
    eapply wp_mono; [apply (ImportIL_operand_switch r0 fuel r _ _ off l its (il_fresh r) fBranch Hcs0 Hinv Hpend
      (or_intror (ex_intro _ tbl (conj Ht eq_refl))) Happ); [lia..|exact Hopb]|..|done].
    cbv beta. intros [off' fb'] r' (l' & its' & Hinv' & Hpend' & Hle' & Hfb). cbn [fst snd] in *. subst fb'.
    pose proof (import_inv_range _ _ _ _ _ Hinv').
    change (Z.land (op_flags CEE_SWITCH) OPCODEFLAGS_SizeMask) with 0. rewrite Z.add_0_r, wrap_small by lia.
    eapply wp_run; [done|]. cbn [fst snd]. split; [lia|]. exists l', its'. by split.
  - assert (Hsize : operand_size op = Z.land (op_flags op) OPCODEFLAGS_SizeMask).
    { unfold operand_size. rewrite decide_False by done. lia. }
    destruct (ImportIL_operand_run fuel op _ _ l _ off1 fBranch Hop Hsa Hsw Happ)
      as (r2 & arg & Hr2 & Happ2 & Hga1 & Hga2 & Hga3); [lia..|].
    eapply wp_run; [exact Hr2|]. cbv beta iota. rewrite <-Hsize, wrap_small by lia.
    eapply wp_run; [done|]. cbn [fst snd].
    destruct (isize_operand op Hop) as [Hi _]. pose proof (isize_bounds op Hop).
    split; [lia|]. exists (l ++ [il_fresh r]), (its ++ [(op, arg)]). split.
    + subst off1. eapply import_inv_appended; eauto; lia.
    + rewrite switch_pending_snoc, Hpend. unfold switch_step. cbn -[decide].
      rewrite decide_False, decide_True by done. rewrite decide_False; [done|].
      intros Heq. by apply Hsw, (switch_flags_iff op Hop).
    + intros [? ?]%orb_false_iff. apply Forall_app. split; [auto|]. by apply Forall_singleton.
Qed.

Lemma ImportIL_loop_wp r0 : m_CodeSize r0 = n → ∀ fuel r off fBranch l its,
  loop_inv r0 r off fBranch l its → n - off < Z.of_nat fuel →
  wp (ImportIL_loop fuel pIL off fBranch) r
    (λ res r', res.1 = n ∧ ∃ l' its', loop_inv r0 r' n res.2 l' its')
    (λ e _, e = COR_E_INVALIDPROGRAM).
Proof.
  intros Hcs0 fuel. induction fuel as [|fuel IH]; intros r off fBranch l its Hinv Hfuel;
    pose proof (import_inv_range _ _ _ _ _ (li_inv _ _ _ _ _ _ Hinv)) as Hr; [lia|].
  cbn [ImportIL_loop]. wp_step (done).
  assert (m_CodeSize r = n) as ->.
  { pose proof (ii_frame _ _ _ _ _ (li_inv _ _ _ _ _ _ Hinv)) as Hf. unfold frame in Hf. congruence. }
  case_decide.
  - apply wp_bind. eapply wp_mono; [eapply ImportIL_step_wp; eauto; lia|..|done].
    intros [off' fb'] r' (Hlt & l' & its' & Hinv'). cbn [fst snd] in *.
    eapply IH; [exact Hinv'|lia].
  - eapply wp_run; [done|]. cbn [fst snd]. assert (off = n) as -> by lia. eauto.
Qed.

(** *** Resolving the branch targets *)

(** [p] is the instruction at offset [arg], the sentinel standing for the end of the code. *)
Definition target_at (l : list Z) (its : list (Z * Z)) (arg p : Z) : Prop :=
  (p = m_IL ∧ arg = code_size its) ∨ (∃ k, l !! k = Some p ∧ arg = offset_of its k).

(** [p] holds the instruction [it], its operand being a pointer to its target if [it] branches. *)
Definition resolved (r : ILRewriter) (l : list Z) (its : list (Z * Z)) (p : Z) (it : Z * Z) : Prop :=
  ∃ off a, data (il_store r) p = Some (it.1, off, a) ∧
           if is_branch it.1 then target_at l its it.2 a else a = it.2.

Lemma resolved_plain r l its p it : item r p it → is_branch it.1 = false → resolved r l its p it.
Proof. intros [off Hd] Hb. exists off, it.2. by rewrite Hb. Qed.

(** The members that resolving leaves alone. *)
Definition rframe (r : ILRewriter) := (frame r, m_pOffsetToInstr r, m_nInstrs r, m_maxStack r, il_fresh r).

Lemma table_ok_target r l its o p :
  table_ok r l its → code_size its = n → zlookup (default [] (m_pOffsetToInstr r)) o = Some p → p ≠ nullptr →
  target_at l its o p.
Proof.
  intros (tbl & Ht & _ & Hte) Hn' Hz Hp. rewrite Ht in Hz. apply zlookup_Some in Hz as [Ho Hz].
  destruct (Hte _ _ Hz Hp) as [[Ho' ->]|(k & Hk & Ho')]; [left|right; exists k]; split; try done; lia.
Qed.

(** A lookup of an offset of an instruction yields the instruction, any other fails. *)
Lemma GetInstrFromOffset_wp r l its o :
  m_CodeSize r = n → code_size its = n → table_ok r l its → 0 ≤ o →
  wp (GetInstrFromOffset o) r (λ p r', r' = r ∧ p ≠ nullptr ∧ target_at l its o p) (λ e _, e = COR_E_INVALIDPROGRAM).
Proof.
  intros Hcs Hn' Htab Ho. unfold GetInstrFromOffset. wp_step (done). rewrite Hcs. case_decide; [|done].
  pose proof Htab as (tbl & Ht & Htl & _). rewrite Ht. wp_step (done).
  destruct (zlookup_is_Some tbl o) as [p Hp]; [lia|]. rewrite Hp. wp_step (done).
  case_decide; [|done]. eapply wp_run; [done|]. split_and!; [done..|].
  eapply table_ok_target; [done|done| |done]. by rewrite Ht.
Qed.

Lemma rframe_fields r r' : rframe r' = rframe r →
  m_CodeSize r' = m_CodeSize r ∧ m_pOffsetToInstr r' = m_pOffsetToInstr r.
Proof. unfold rframe, frame. intros H. by simplify_eq. Qed.

Lemma resolve_one_wp r l its p it :
  m_CodeSize r = n → code_size its = n → table_ok r l its → valid_op it.1 →
  (is_branch it.1 = true → 0 ≤ it.2 < 2 ^ 32) → il_list r l → item r p it →
  wp (ImportIL_resolve_one p tt) r
    (λ _ r', rframe r' = rframe r ∧ il_list r' l ∧ resolved r' l its p it ∧
             ∀ q, q ≠ p → data (il_store r') q = data (il_store r) q)
    (λ e _, e = COR_E_INVALIDPROGRAM).
Proof.
  intros Hcs Hn' Htab Hop Harg Hl Hit. destruct it as [op arg]. cbn [fst snd] in *.
  pose proof Hit as [off Hd]. destruct (data_Some _ _ _ Hd) as (i & Hi & [= Hio Hioff Hia]). cbn [fst snd] in *.
  unfold ImportIL_resolve_one. wp_step (by apply read_instr_run). rewrite Hio.
  rewrite op_flags_lookup by done. wp_step (done).
  case_decide as Hb.
  - assert (Hbd : is_branch op = true) by (by apply bool_decide_eq_true). specialize (Harg Hbd).
    unfold m_Arg32. rewrite Hia, wrap_sgn, wrap_small by lia.
    apply wp_bind. eapply wp_mono; [apply (GetInstrFromOffset_wp r l its); auto; lia|..|done].
    cbv beta. intros a r' (-> & Hnull & Htgt). eapply wp_run; [by apply write_instr_run|].
    split_and!; [done| | |].
    + apply il_list_write; auto with il.
    + exists off, a. rewrite (data_write r p (set_pTarget a) i), decide_True by done. unfold data_of. cbn. by rewrite Hio, Hioff, Hbd.
    + intros q Hq. by rewrite (data_write r p (set_pTarget a) i), decide_False by done.
  - assert (Hbd : is_branch op = false) by (unfold is_branch; apply bool_decide_eq_false; tauto). eapply wp_run; [done|].
    split_and!; [done..|by apply resolved_plain|done].
Qed.

Lemma resolve_all_wp l its r0 :
  m_CodeSize r0 = n → code_size its = n → table_ok r0 l its → Forall (λ it, valid_op it.1) its → branch_args its →
  il_list r0 l → Forall2 (item r0) l its →
  wp (il_for_each tt ImportIL_resolve_one) r0
    (λ _ r', rframe r' = rframe r0 ∧ il_list r' l ∧ Forall2 (resolved r' l its) l its)
    (λ e _, e = COR_E_INVALIDPROGRAM).
Proof.
  intros Hcs Hn' Htab Hval Hargs Hl Hits.
  set (I := λ (l1 : list Z) (_ : unit) r, rframe r = rframe r0 ∧ il_list r l ∧ ∃ its1 its2 l2,
    l = l1 ++ l2 ∧ its = its1 ++ its2 ∧ Forall2 (resolved r l its) l1 its1 ∧ Forall2 (item r) l2 its2).
  eapply wp_mono; [apply (il_for_each_wp _ l I (λ e _, e = COR_E_INVALIDPROGRAM))|..|done].
  - by intros l1 [] r (_ & ? & _).
  - intros l1 p l2 [] r Hl1 (Hfr & Hr & its1 & its2 & l2' & Hl' & -> & Hdone & Htodo).
    rewrite Hl1 in Hl'. apply app_inv_head in Hl' as <-.
    apply Forall2_cons_inv_l in Htodo as (it & its2' & Hit & Htodo & ->).
    destruct (rframe_fields _ _ Hfr) as [Hcs' Htb].
    set (its := its1 ++ it :: its2') in *.
    assert (Hlk : its !! length its1 = Some it) by (apply list_lookup_middle; done).
    assert (Hnd : NoDup l) by (destruct Hr as (Hnd & _); by apply NoDup_cons in Hnd as [_ ?]).
    assert (p ∉ l1 ∧ p ∉ l2) as [Hnp1 Hnp2].
    { rewrite Hl1 in Hnd. apply NoDup_app in Hnd as (_ & Hx & Hy). apply NoDup_cons in Hy as [Hy _]. set_solver +Hx Hy. }
    eapply wp_mono; [apply (resolve_one_wp r l its p it); auto|..|done].
    + congruence.
    + unfold table_ok. by rewrite Htb.
    + by eapply (Forall_lookup_1 _ _ _ _ Hval Hlk).
    + destruct it. by eapply Hargs.
    + cbv beta. intros [] r' (Hfr' & Hr' & Hres & Hoth). unfold I. split_and!; [congruence|done|].
      exists (its1 ++ [it]), its2', l2. split_and!; [by rewrite <-app_assoc..| |].
      * apply Forall2_app; [|by apply Forall2_cons]. apply Forall2_same_length_lookup_2.
        { by eapply Forall2_length. }
        intros k q it' Hq Hit'. destruct (Forall2_lookup_lr _ _ _ _ _ _ Hdone Hq Hit') as (o & a & Hd & Ht).
        exists o, a. rewrite Hoth; [done|]. intros ->. apply Hnp1. by eapply list_elem_of_lookup_2.
      * apply Forall2_same_length_lookup_2; [by eapply Forall2_length|].
        intros k q it' Hq Hit'. destruct (Forall2_lookup_lr _ _ _ _ _ _ Htodo Hq Hit') as (o & Hd).
        exists o. rewrite Hoth; [done|]. intros ->. apply Hnp2. by eapply list_elem_of_lookup_2.
  - unfold I. split_and!; [done..|]. by exists [], its, l.
  - cbv beta. intros [] r' (Hfr & Hr & its1 & its2 & l2 & Hl2 & -> & Hdone & Htodo).
    rewrite <-(app_nil_r l) in Hl2 at 1. apply app_inv_head in Hl2 as <-.
    apply Forall2_nil_inv_l in Htodo as ->. by rewrite app_nil_r in *.
Qed.

(** *** The whole of [ImportIL] *)

Record imported (r0 r : ILRewriter) (l : list Z) (its : list (Z * Z)) : Prop := {
  im_list : il_list r l;
  im_items : Forall2 (resolved r l its) l its;
  im_valid : Forall (λ it, valid_op it.1) its;
  im_size : code_size its = n;
  im_code : enc_code 0 0 its = take (Z.to_nat n) pIL;
  im_short : short_fits its;
  im_args : branch_args its;
  im_pending : switch_pending its = Some 0;
  im_table : table_ok r l its;
  im_frame : frame r = frame r0;
  im_nInstrs : m_nInstrs r = u32 (m_nInstrs r0 + Z.of_nat (length its));
  im_maxStack : m_maxStack r = u32 (m_maxStack r0 + pushes_of its);
}.

Lemma import_inv_imported r0 r r' l its :
  import_inv r0 r n l its → switch_pending its = Some 0 → rframe r' = rframe r → il_list r' l →
  Forall2 (resolved r' l its) l its → imported r0 r' l its.
Proof.
  intros [Hl Hits Hv Hoff Hbd Hcode Hsh Hargs Htab Hfr Hni Hms] Hpend Hrf Hl' Hres.
  apply pair_eq in Hrf as [Hrf _]. apply pair_eq in Hrf as [Hrf Hm].
  apply pair_eq in Hrf as [Hrf Hi]. apply pair_eq in Hrf as [Hf Ht].
  split; try done; try congruence. unfold table_ok. by rewrite Ht.
Qed.

Lemma import_inv_init r tbl :
  il_list r [] → m_pOffsetToInstr r = Some (<[Z.to_nat n := m_IL]> (replicate (Z.to_nat (n + 1)) nullptr)) →
  m_nInstrs r = u32 (m_nInstrs r) → m_maxStack r = u32 (m_maxStack r) → tbl = m_pOffsetToInstr r →
  import_inv r r 0 [] [].
Proof.
  intros Hl Ht Hi Hm ->. split; try done.
  - lia.
  - eexists. split_and!; [done|rewrite length_insert, length_replicate; lia|].
    intros o p Ho Hp. left. destruct (decide (o = Z.to_nat n)) as [->|Hne].
    + apply list_lookup_insert_Some in Ho as [(_ & -> & _)|[? _]]; [|done]. split; [lia|done].
    + rewrite list_lookup_insert_ne in Ho by done. by apply lookup_replicate_1 in Ho as [-> _].
  - simpl. by rewrite Z.add_0_r.
  - simpl. by rewrite Z.add_0_r.
Qed.

Lemma ImportIL_wp nothrow_new r :
  il_list r [] → m_CodeSize r = n → m_nInstrs r = u32 (m_nInstrs r) → m_maxStack r = u32 (m_maxStack r) →
  wp (ImportIL nothrow_new pIL) r (λ _ r', ∃ l its, imported r r' l its)
    (λ e _, e = COR_E_INVALIDPROGRAM ∨ (e = E_OUTOFMEMORY ∧ nothrow_new (8 * (n + 1)) = false)).
Proof.
  intros Hl Hcs Hi Hm. unfold ImportIL. wp_step (done). rewrite Hcs, (wrap_small 32 (n + 1)) by lia.
  destruct (nothrow_new _) eqn:Hnew; [|wp_step (done); right; done].
  wp_step (done). wp_step (eapply set_offset_entry_run; [done|rewrite length_replicate; lia]).
  destruct (il_list_start _ _ Hl) as (i & HIL & _).
  wp_step (apply write_instr_run; exact HIL).
  set (r1 := upd_il_store _ _).
  assert (Hl1 : il_list r1 []).
  { apply (il_list_write _ _ _ (set_opcode _) i); [auto with il|exact HIL|]. by apply (il_list_frame r). }
  assert (Hinv : loop_inv r1 r1 0 false [] []) by (split; [by eapply import_inv_init|done|done]).
  apply wp_bind. eapply wp_mono; [eapply (ImportIL_loop_wp r1 Hcs); [exact Hinv|lia]|..|by left].
  cbv beta. intros [off fb] r2 (Hoff & l & its & [Hinv2 Hpend Hbr]). cbn [fst snd] in *. subst off.
  rewrite decide_False by tauto.
  assert (Hfin : ∀ r', imported r1 r' l its → imported r r' l its) by (intros r' []; by split).
  pose proof Hinv2 as [Hl2 Hits Hv Hoff2 _ _ _ Hargs Htab Hfr _ _].
  destruct fb.
  - eapply wp_mono; [apply (resolve_all_wp l its r2); try done|..|by left].
    + unfold frame in Hfr. cbn in Hfr. congruence.
    + cbv beta. intros _ r' (? & ? & ?). exists l, its. apply Hfin. by eapply import_inv_imported.
  - eapply wp_run; [done|]. exists l, its. apply Hfin. eapply import_inv_imported; try done.
    apply Forall2_same_length_lookup_2; [by eapply Forall2_length|]. intros k p it Hp Hit.
    apply resolved_plain; [by eapply Forall2_lookup_lr|]. by apply (Forall_lookup_1 _ _ _ _ (Hbr eq_refl) Hit).
Qed.

(** *** [ImportEH] *)

(** The fields of a clause are unsigned 32-bit integers. *)
Definition eh_wf (eh : COR_ILMETHOD_SECT_EH_CLAUSE_FAT) : Prop :=
  0 ≤ eh_Flags eh < 2 ^ 32 ∧ 0 ≤ eh_TryOffset eh < 2 ^ 32 ∧ 0 ≤ eh_TryLength eh < 2 ^ 32 ∧
  0 ≤ eh_HandlerOffset eh < 2 ^ 32 ∧ 0 ≤ eh_HandlerLength eh < 2 ^ 32 ∧ 0 ≤ eh_ClassToken eh < 2 ^ 32.

(** Clause [c] names the instructions at the offsets of [eh]; its handler end is the last
    instruction of the handler. *)
Record eh_resolved (h : gmap Z ILInstr) (l : list Z) (its : list (Z * Z)) (c : EHClause)
    (eh : COR_ILMETHOD_SECT_EH_CLAUSE_FAT) : Prop := {
  er_flags : m_Flags c = eh_Flags eh;
  er_try_begin : target_at l its (eh_TryOffset eh) (m_pTryBegin c);
  er_try_end : target_at l its (u32 (eh_TryOffset eh + eh_TryLength eh)) (m_pTryEnd c);
  er_handler_begin : target_at l its (eh_HandlerOffset eh) (m_pHandlerBegin c);
  er_handler_end : ∃ p, target_at l its (u32 (eh_HandlerOffset eh + eh_HandlerLength eh)) p ∧
                        prv h p = Some (m_pHandlerEnd c);
  er_class : if decide (Z.land (eh_Flags eh) COR_ILEXCEPTION_CLAUSE_FILTER = 0)
             then u32 (m_Class c) = eh_ClassToken eh else target_at l its (eh_ClassToken eh) (m_Class c);
}.

Lemma target_at_elem l its o p : target_at l its o p → p ∈ m_IL :: l.
Proof. intros [[-> _]|(k & Hk & _)]; [left|right]. by eapply list_elem_of_lookup_2. Qed.

Lemma write_clause_run i f r cs c :
  m_pEH r = Some cs → cs !! i = Some c →
  write_clause i f r = (Ret tt, upd_m_pEH (λ _, Some (<[i := f c]> cs)) r).
Proof.
  intros Hcs Hc. unfold write_clause. run_by (done). rewrite Hcs. run_by (done). rewrite Hc. by run_by (done).
Qed.

Section EH.
Context (r0 : ILRewriter) (l : list Z) (its : list (Z * Z)) (i : nat) (cs : list EHClause).
Context (Hl : il_list r0 l) (Htab : table_ok r0 l its) (Hsz : code_size its = n) (Hcs : m_CodeSize r0 = n).
Context (Hi : (i < length cs)%nat).

(** The rewriter with [c] as the clause under construction. *)
Definition eh_state (c : EHClause) : ILRewriter := upd_m_pEH (λ _, Some (<[i := c]> cs)) r0.

Lemma eh_write_end f c (Q : unit → ILRewriter → Prop) X :
  Q tt (eh_state (f c)) → wp (write_clause i f) (eh_state c) Q X.
Proof.
  intros HQ. eapply wp_run; [eapply write_clause_run; [done|by apply list_lookup_insert_eq]|].
  unfold eh_state, upd_m_pEH in *. cbn in *. by rewrite list_insert_insert_eq.
Qed.

Lemma eh_write f c {A} (k : M A) Q X :
  wp k (eh_state (f c)) Q X → wp (write_clause i f;; k) (eh_state c) Q X.
Proof. intros Hk. apply wp_bind. by apply eh_write_end. Qed.

Lemma eh_target o c {A} (k : Z → M A) Q :
  0 ≤ o → (∀ p, target_at l its o p → wp (k p) (eh_state c) Q (λ e _, e = COR_E_INVALIDPROGRAM)) →
  wp (GetInstrFromOffset o ≫= k) (eh_state c) Q (λ e _, e = COR_E_INVALIDPROGRAM).
Proof.
  intros Ho Hk. apply wp_bind. eapply wp_mono; [by apply (GetInstrFromOffset_wp (eh_state c) l its)|..|done].
  cbv beta. intros p r' (-> & _ & Hp). auto.
Qed.

Lemma ImportEH_clause_wp eh c0 :
  eh_wf eh →
  wp (ImportEH_clause i eh) (eh_state c0)
    (λ _ r', ∃ c, r' = eh_state c ∧ eh_resolved (il_store r0) l its c eh) (λ e _, e = COR_E_INVALIDPROGRAM).
Proof.
  intros (Hw1 & Hw2 & Hw3 & Hw4 & Hw5 & Hw6). unfold ImportEH_clause.
  apply eh_write, eh_target; [lia|]. intros p1 Hp1.
  apply eh_write, eh_target; [apply wrap_range; lia|]. intros p2 Hp2.
  apply eh_write, eh_target; [lia|]. intros p3 Hp3.
  apply eh_write, eh_target; [apply wrap_range; lia|]. intros p4 Hp4.
  destruct (il_list_store _ _ p4 Hl (target_at_elem _ _ _ _ Hp4)) as [i4 Hi4].
  eapply wp_run_bind; [by apply read_instr_run|]. apply eh_write.
  case_decide as Hfl.
  - apply eh_write_end. eexists. split; [done|]. split; try done; cbn.
    + exists p4. split; [done|]. unfold prv. by rewrite Hi4.
    + rewrite decide_True by done. by rewrite wrap_set_low, wrap_small by lia.
  - apply eh_target; [lia|]. intros p5 Hp5. apply eh_write_end. eexists. split; [done|]. split; try done; cbn.
    + exists p4. split; [done|]. unfold prv. by rewrite Hi4.
    + by rewrite decide_False by done.
Qed.
End EH.

Lemma ImportEH_loop_wp r0 l its :
  il_list r0 l → table_ok r0 l its → code_size its = n → m_CodeSize r0 = n → ∀ ehs ds cs,
  Forall eh_wf ehs → length cs = (length ds + length ehs)%nat →
  Forall2 (eh_resolved (il_store r0) l its) (take (length ds) cs) ds →
  wp (ImportEH_loop (length ds) ehs) (upd_m_pEH (λ _, Some cs) r0)
    (λ _ r', ∃ cs', r' = upd_m_pEH (λ _, Some cs') r0 ∧
                    Forall2 (eh_resolved (il_store r0) l its) cs' (ds ++ ehs))
    (λ e _, e = COR_E_INVALIDPROGRAM).
Proof.
  intros Hl Htab Hsz Hcs ehs. induction ehs as [|eh ehs IH]; intros ds cs Hwf Hlc Hdone; simpl in Hlc.
  - eapply wp_run; [done|]. exists cs. split; [done|]. by rewrite app_nil_r, <-(take_ge cs (length ds)) by lia.
  - apply Forall_cons in Hwf as [Hwf1 Hwf2]. cbn [ImportEH_loop].
    destruct (lookup_lt_is_Some_2 cs (length ds)) as [c0 Hc0]; [lia|].
    assert (Hst : upd_m_pEH (λ _, Some cs) r0 = eh_state r0 (length ds) cs c0).
    { unfold eh_state. by rewrite list_insert_id. }
    rewrite Hst. apply wp_bind.
    eapply wp_mono; [apply (ImportEH_clause_wp r0 l its (length ds) cs Hl Htab Hsz Hcs); [lia|done]|..|done].
    cbv beta. intros [] r' (c & -> & Hc).
    specialize (IH (ds ++ [eh]) (<[length ds := c]> cs)).
    rewrite length_app, length_insert, <-app_assoc in IH. simpl in IH. rewrite Nat.add_1_r in IH.
    apply IH; [done|lia|].
    erewrite take_S_r by (apply list_lookup_insert_eq; lia).
    rewrite take_insert_ge by lia. apply Forall2_app; [done|by apply Forall2_cons].
Qed.
End ImportProof.

(** ** Correctness of [Import] *)

(** What the decoder guarantees of its result: [Code] has [CodeSize] bytes, and the fields have
    the widths of the header's. *)
Record decoder_ok (d : COR_ILMETHOD_DECODER) : Prop := {
  do_size : 0 ≤ dec_CodeSize d < 2 ^ 31;
  do_code : dec_CodeSize d ≤ Z.of_nat (length (dec_Code d));
  do_bytes : Forall (λ b, is_byte b) (dec_Code d);
  do_maxStack : 0 ≤ dec_MaxStack d < 2 ^ 32;
  do_tk : 0 ≤ dec_LocalVarSigTok d < 2 ^ 32;
  do_eh : Forall eh_wf (dec_EH d);
  do_eh_size : Z.of_nat (length (dec_EH d)) < 2 ^ 32;
}.

(** The rewriter after a successful import: the listing [its] of its list [l] encodes to the
    code, every branch and every clause names the instruction at the offset it had, and the
    counters are exact. *)
Record method_imported (d : COR_ILMETHOD_DECODER) (r : ILRewriter) (l : list Z) (its : list (Z * Z)) : Prop := {
  mi_list : il_list r l;
  mi_items : Forall2 (resolved r l its) l its;
  mi_valid : Forall (λ it, valid_op it.1) its;
  mi_size : code_size its = dec_CodeSize d;
  mi_code : enc_code 0 0 its = take (Z.to_nat (dec_CodeSize d)) (dec_Code d);
  mi_short : short_fits its;
  mi_args : branch_args its;
  mi_pending : switch_pending its = Some 0;
  mi_eh : Forall2 (eh_resolved (il_store r) l its) (default [] (m_pEH r)) (dec_EH d);
  mi_nEH : m_nEH r = Z.of_nat (length (dec_EH d));
  mi_CodeSize : m_CodeSize r = dec_CodeSize d;
  mi_flags : m_flags r = Z.land (dec_Flags d) CorILMethod_InitLocals;
  mi_tk : m_tkLocalVarSig r = dec_LocalVarSigTok d;
  mi_nInstrs : m_nInstrs r = u32 (Z.of_nat (length its));
  mi_maxStack : m_maxStack r = u32 (dec_MaxStack d + pushes_of its);
  mi_tiny : m_fGenerateTinyHeader r = false;
}.

Section ImportMethod.
Context (nothrow_new : Z → bool) (EHClause_uninit : EHClause).
Context (d : COR_ILMETHOD_DECODER) (Hd : decoder_ok d).
Context (fc : bool) (tk : Z).

Lemma ILRewriter_new_list : il_list (ILRewriter_new fc tk) [].
Proof.
  split_and!; [apply NoDup_singleton|done|]. intros p [i Hi]%elem_of_dom.
  unfold ILRewriter_new, il_store in Hi. by apply lookup_singleton_Some in Hi as [<- _].
Qed.

Lemma method_imported_intro r0 r l its cs :
  imported (dec_Code d) (dec_CodeSize d) r0 r l its →
  m_flags r0 = Z.land (dec_Flags d) CorILMethod_InitLocals → m_tkLocalVarSig r0 = dec_LocalVarSigTok d →
  m_CodeSize r0 = dec_CodeSize d → m_nInstrs r0 = 0 → m_maxStack r0 = dec_MaxStack d →
  m_fGenerateTinyHeader r0 = false → Forall2 (eh_resolved (il_store r) l its) (default [] cs) (dec_EH d) →
  method_imported d (upd_m_pEH (λ _, cs) (upd_m_nEH (λ _, Z.of_nat (length (dec_EH d))) r)) l its.
Proof.
  intros [? ? ? ? ? ? ? ? ? Hfr Hi Hm] Hfl Htk Hcs Hni Hms Htiny Heh. unfold frame in Hfr.
  split; try done; cbn; try congruence. by rewrite Hi, Hni.
Qed.

Lemma ImportEH_wp r l its :
  il_list r l → table_ok (dec_CodeSize d) r l its → code_size its = dec_CodeSize d →
  m_CodeSize r = dec_CodeSize d → m_pEH r = None →
  wp (ImportEH nothrow_new EHClause_uninit (dec_EH d)) r
    (λ _ r', ∃ cs, r' = upd_m_pEH (λ _, cs) (upd_m_nEH (λ _, Z.of_nat (length (dec_EH d))) r) ∧
             Forall2 (eh_resolved (il_store r) l its) (default [] cs) (dec_EH d))
    (λ e _, e = COR_E_INVALIDPROGRAM ∨ (e = E_OUTOFMEMORY ∧ nothrow_new (48 * Z.of_nat (length (dec_EH d))) = false)).
Proof.
  intros Hl Htab Hsz Hcs Heh. unfold ImportEH. wp_step (done). rewrite decide_False by tauto.
  wp_step (done). case_decide as Hz.
  - eapply wp_run; [done|]. exists None. split; [by rewrite <-Heh|].
    destruct (dec_EH d); [done|simpl in Hz; lia].
  - destruct (nothrow_new _) eqn:Hnew; [|by right]. wp_step (done).
    eapply wp_mono; [eapply (ImportEH_loop_wp (dec_Code d) (dec_CodeSize d)) with
      (r0 := upd_m_nEH (λ _, Z.of_nat (length (dec_EH d))) r) (its := its) (l := l) (ds := [])|..|by left].
    all: try done.
    + apply Hd.
    + by rewrite length_replicate.
    + cbv beta. intros [] r' (cs & -> & Hall). by exists (Some cs).
Qed.

Lemma Import_wp :
  wp (Import nothrow_new EHClause_uninit d) (ILRewriter_new fc tk)
    (λ _ r, ∃ l its, method_imported d r l its)
    (λ e _, e = COR_E_INVALIDPROGRAM ∨
            (e = E_OUTOFMEMORY ∧ ∃ size, nothrow_new size = false)).
Proof.
  unfold Import. do 4 wp_step (done).
  set (r1 := upd_m_CodeSize _ _).
  assert (Hl : il_list r1 []) by exact ILRewriter_new_list.
  apply wp_bind. eapply wp_mono; [eapply (ImportIL_wp (dec_Code d) (dec_CodeSize d)); try apply Hd; try done|..].
  - symmetry. apply wrap_small, Hd.
  - cbv beta. intros [] r2 (l & its & Him). pose proof Him as [? ? ? ? ? ? ? ? ? Hfr ? ?].
    eapply wp_mono; [apply (ImportEH_wp r2 l its); try done|..].
    all: try (unfold frame in Hfr; cbn in Hfr; congruence).
    + cbv beta. intros [] r' (cs & -> & Hcs). exists l, its. by eapply method_imported_intro.
    + intros e s [->|[-> ?]]; [by left|right]. eauto.
  - intros e s [->|[-> ?]]; [by left|right]. eauto.
Qed.
End ImportMethod.
