(* ===== verification/ILExport.v ===== *)
(** * Exporting the instruction list (ILRewriter::Export and the functions it calls)

    The encoder lays the instructions out, fills in branch displacements, widens a short branch
    whose target is out of reach and starts again, then writes the method header, the code and
    the exception table.  The main results: the loop ends, no write leaves a buffer, and the body
    handed to the CLR is the header, the encoding [enc_code] of the list in which every branch
    names the offset of its target, and the clauses at the new offsets. *)

From S2P Require Import Prelude ILOpcodes ILList ILEncoding ILImport.

(** ** The output buffer *)

(** [*(UNALIGNED T* )&(pIL[offset]) = v], the bytes of v being [bs]. *)
Definition write_out (offset : Z) (bs : list Z) : M unit :=
  r ← get;
  buf ← lift_option (m_pOutputBuffer r);
  if decide (0 ≤ offset) then
    buf' ← lift_option (upd_range (Z.to_nat offset) bs buf);
    modify (upd_m_pOutputBuffer (λ _, Some buf'))
  else stuck.

(** ** First loop: opcodes and plain operands *)

(** The operand: [switch (flags)].  Returns [fBranch] and [offset] after the statement. *)
Definition Export_operand (flags : Z) (i : ILInstr) (fBranch : bool) (offset : Z) : M (bool * Z) :=
  if decide (flags = 0) then mret (fBranch, offset)
  else if decide (flags = 1) then write_out offset (le_bytes 1 (m_Arg8 i));; mret (fBranch, offset)
  else if decide (flags = 2) then write_out offset (le_bytes 2 (m_Arg16 i));; mret (fBranch, offset)
  else if decide (flags = 4) then write_out offset (le_bytes 4 (m_Arg32 i));; mret (fBranch, offset)
  else if decide (flags = 8) then write_out offset (le_bytes 8 (m_Arg64 i));; mret (fBranch, offset)
  else if decide (flags = Z.lor 1 OPCODEFLAGS_BranchTarget) then mret (true, offset)
  else if decide (flags = Z.lor 4 OPCODEFLAGS_BranchTarget) then mret (true, offset)
  else if decide (flags = Z.lor 0 OPCODEFLAGS_Switch) then
    write_out offset (le_bytes 4 (m_Arg32 i));; mret (fBranch, u32 (offset + 4))
  else throw COR_E_INVALIDPROGRAM.

Definition Export_opcode (opcode offset : Z) : M Z :=
  if decide (opcode < CEE_COUNT) then
    offset ← (if decide (0x100 ≤ opcode) then
                write_out offset [CEE_PREFIX1];; mret (u32 (offset + 1))
              else mret offset);
    write_out offset [Z.land opcode 0xFF];;
    mret (u32 (offset + 1))
  else mret offset.

Definition Export_emit (maxSize pInstr : Z) (acc : bool * Z) : M (bool * Z) :=
  let '(fBranch, offset) := acc in
  if decide (maxSize ≤ offset) then throw COR_E_INDEXOUTOFRANGE
  else
    write_instr pInstr (set_offset offset);;
    i ← read_instr pInstr;
    offset ← Export_opcode (m_opcode i) offset;
    if decide (Z.of_nat (length s_OpCodeFlags) ≤ m_opcode i) then throw COR_E_INVALIDPROGRAM
    else
      flags ← lift_option (zlookup s_OpCodeFlags (m_opcode i));
      '(fBranch, offset) ← Export_operand flags i fBranch offset;
      mret (fBranch, u32 (offset + Z.land flags OPCODEFLAGS_SizeMask)).

(** ** Second loop: branch displacements *)

(** A short branch whose displacement does not fit becomes the long one. *)
Definition Export_widen (pInstr opcode : Z) : M unit :=
  if decide (opcode = CEE_LEAVE_S) then write_instr pInstr (set_opcode CEE_LEAVE)
  else if decide (¬ (CEE_BR_S ≤ opcode ∧ opcode ≤ CEE_BLT_UN_S)) then throw COR_E_INVALIDPROGRAM
  else
    write_instr pInstr (set_opcode (u32 (opcode - CEE_BR_S + CEE_BR)));;
    i ← read_instr pInstr;
    if decide (¬ (CEE_BR ≤ m_opcode i ∧ m_opcode i ≤ CEE_BLT_UN)) then throw COR_E_INVALIDPROGRAM
    else mret tt.

Definition Export_branch (pInstr : Z) (acc : bool * Z) : M (bool * Z) :=
  let '(fTryAgain, switchBase) := acc in
  i ← read_instr pInstr;
  let opcode := m_opcode i in
  if decide (opcode = CEE_SWITCH) then
    mret (fTryAgain, u32 (m_offset i + 1 + 4 * (m_Arg32 i + 1)))
  else if decide (opcode = CEE_SWITCH_ARG) then
    target ← read_instr (m_pTarget i);
    write_out (m_offset i) (le_bytes 4 (u32 (m_offset target - switchBase)));;
    mret (fTryAgain, switchBase)
  else
    flags ← lift_option (zlookup s_OpCodeFlags opcode);
    if decide (Z.land flags OPCODEFLAGS_BranchTarget ≠ 0) then
      target ← read_instr (m_pTarget i);
      next ← read_instr (m_pNext i);
      let delta := s32 (m_offset target - m_offset next) in
      if decide (flags = Z.lor 1 OPCODEFLAGS_BranchTarget) then
        if decide (s8 delta ≠ delta) then
          Export_widen pInstr opcode;; mret (true, switchBase)
        else
          write_out (m_offset next - 1) (le_bytes 1 delta);; mret (fTryAgain, switchBase)
      else if decide (flags = Z.lor 4 OPCODEFLAGS_BranchTarget) then
        write_out (m_offset next - 4) (le_bytes 4 delta);; mret (fTryAgain, switchBase)
      else throw COR_E_INVALIDPROGRAM
    else mret (fTryAgain, switchBase).

(** From the label [again] to the jump back to it; returns the code size. *)
Fixpoint Export_again (fuel : nat) (maxSize : Z) : M Z :=
  match fuel with
  | O => out_of_fuel
  | S fuel =>
      '(fBranch, offset) ← il_for_each (false, 0) (Export_emit maxSize);
      write_instr m_IL (set_offset offset);;
      if (fBranch : bool) then
        '(fTryAgain, _) ← il_for_each (false, 0) Export_branch;
        if (fTryAgain : bool) then Export_again fuel maxSize else mret offset
      else mret offset
  end.

(** ** The method body *)

Definition CorILMethod_Sect_EHTable : Z := 1.
Definition CorILMethod_Sect_FatFormat : Z := 0x40.

(** The bytes of IMAGE_COR_ILMETHOD_TINY. *)
Definition tiny_header (codeSize : Z) : list Z :=
  [u8 (Z.lor CorILMethod_TinyFormat (Z.shiftl codeSize 2))].

(** The bytes of IMAGE_COR_ILMETHOD_FAT: three DWORDs, the first with bit fields of 12 (Flags),
    4 (Size) and 16 (MaxStack) bits. *)
Definition fat_header (flags maxStack codeSize tkLocalVarSig : Z) : list Z :=
  le_bytes 4 (wrap 12 flags + Z.shiftl (wrap 4 3) 12 + Z.shiftl (wrap 16 maxStack) 16) ++
  le_bytes 4 codeSize ++ le_bytes 4 tkLocalVarSig.

(** The bytes of IMAGE_COR_ILMETHOD_SECT_FAT: Kind (8 bits) and DataSize (24 bits). *)
Definition sect_header (nEH : Z) : list Z :=
  le_bytes 4 (wrap 8 (Z.lor CorILMethod_Sect_EHTable CorILMethod_Sect_FatFormat) +
              Z.shiftl (wrap 24 (4 + 24 * nEH)) 8).

(** The bytes of one IMAGE_COR_ILMETHOD_SECT_EH_CLAUSE_FAT. *)
Definition Export_clause (pSrc : EHClause) : M (list Z) :=
  tryBegin ← read_instr (m_pTryBegin pSrc);
  tryEnd ← read_instr (m_pTryEnd pSrc);
  handlerBegin ← read_instr (m_pHandlerBegin pSrc);
  handlerEnd ← read_instr (m_pHandlerEnd pSrc);
  handlerNext ← read_instr (m_pNext handlerEnd);
  last ← (if decide (Z.land (m_Flags pSrc) COR_ILEXCEPTION_CLAUSE_FILTER = 0)
          then mret (u32 (m_Class pSrc))
          else filter ← read_instr (m_Class pSrc); mret (m_offset filter));
  mret (le_bytes 4 (m_Flags pSrc) ++
        le_bytes 4 (m_offset tryBegin) ++
        le_bytes 4 (m_offset tryEnd - m_offset tryBegin) ++
        le_bytes 4 (m_offset handlerBegin) ++
        le_bytes 4 (m_offset handlerNext - m_offset handlerBegin) ++
        le_bytes 4 last).

(** [for (iEH = 0; iEH < m_nEH; iEH++)], writing from index [pos] of the body. *)
Fixpoint Export_clauses (iEHs : list nat) (pos : nat) (pBody : list Z) : M (list Z) :=
  match iEHs with
  | [] => mret pBody
  | iEH :: iEHs =>
      r ← get;
      cs ← lift_option (m_pEH r);
      pSrc ← lift_option (cs !! iEH);
      bs ← Export_clause pSrc;
      pBody ← lift_option (upd_range pos bs pBody);
      Export_clauses iEHs (pos + 24) pBody
  end.

(** The CLR and the heap: whether [new (std::nothrow)] of a size succeeds, what fresh memory of a
    size holds, what the CLR's IL allocator returns, and the result of its SetILFunctionBody. *)
Record clr_env := {
  env_nothrow_new : Z → bool;
  env_heap : Z → list Z;
  env_il_alloc : Z → option (list Z);
  env_SetILFunctionBody : list Z → Z;
}.

Section Exporter.
Context (env : clr_env).

Definition AllocateILMemory (size : Z) : M (list Z) :=
  r ← get;
  if m_pICorProfilerFunctionControl r then mret (env_heap env size)
  else match env_il_alloc env size with Some m => mret m | None => throw E_OUTOFMEMORY end.

(** Both ways of installing a body pass its bytes to the CLR and return its HRESULT. *)
Definition SetILFunctionBody (pBody : list Z) : M unit :=
  let hr := env_SetILFunctionBody env pBody in
  if decide (hr < 0) then throw (HR hr) else modify (upd_il_body (λ _, Some pBody)).

(** [CopyMemory(pCurrent, m_pOutputBuffer, codeSize)] at index [pos] of the body. *)
Definition copy_code (pos : nat) (codeSize : Z) (pBody : list Z) : M (list Z) :=
  r ← get;
  buf ← lift_option (m_pOutputBuffer r);
  if decide (0 ≤ codeSize ≤ Z.of_nat (length buf))
  then lift_option (upd_range pos (take (Z.to_nat codeSize) buf) pBody)
  else stuck.

Definition Export_tiny (codeSize : Z) : M (list Z) :=
  if decide (64 ≤ codeSize) then throw E_FAIL
  else
    pBody ← AllocateILMemory (u32 (1 + codeSize));
    pBody ← lift_option (upd_range 0 (tiny_header codeSize) pBody);
    copy_code 1 codeSize pBody.

Definition Export_fat (offset : Z) : M (list Z) :=
  let alignedCodeSize := Z.land (u32 (offset + 3)) (u32 (Z.lnot 3)) in
  r ← get;
  let nEH := m_nEH r in
  let totalSize := u32 (12 + alignedCodeSize + (if decide (nEH ≠ 0) then 4 + 24 * nEH else 0)) in
  pBody ← AllocateILMemory totalSize;
  let flags := Z.lor (Z.lor (m_flags r) (if decide (nEH ≠ 0) then CorILMethod_MoreSects else 0))
                     CorILMethod_FatFormat in
  pBody ← lift_option (upd_range 0 (fat_header flags (m_maxStack r) offset (m_tkLocalVarSig r)) pBody);
  pBody ← copy_code 12 offset pBody;
  let pos := (12 + Z.to_nat alignedCodeSize)%nat in
  if decide (nEH ≠ 0) then
    pBody ← lift_option (upd_range pos (sect_header nEH) pBody);
    Export_clauses (seq 0 (Z.to_nat nEH)) (pos + 4) pBody
  else mret pBody.

(** Each jump back to [again] widens at least one instruction: the fuel exceeds their number. *)
Definition Export : M unit :=
  r ← get;
  let maxSize := u32 (m_nInstrs r * 10) in
  if env_nothrow_new env maxSize then
    modify (upd_m_pOutputBuffer (λ _, Some (env_heap env maxSize)));;
    codeSize ← Export_again (S (size (il_store r))) maxSize;
    r ← get;
    pBody ← (if m_fGenerateTinyHeader r then Export_tiny codeSize else Export_fat codeSize);
    SetILFunctionBody pBody
  else modify (upd_m_pOutputBuffer (λ _, None));; throw E_OUTOFMEMORY.
End Exporter.

(** ** Correctness of the layout loops

    [raws] is the content of the list: opcode and operand, a branch's operand being the address
    of its target. *)

(** The members that the layout loops leave alone. *)
Definition eframe (r : ILRewriter) :=
  (m_pICorProfilerFunctionControl r, m_tkLocalVarSig r, m_flags r, m_fGenerateTinyHeader r,
   (m_nEH r, m_pEH r, m_maxStack r, il_body r, il_fresh r)).

Definition exportable (l : list Z) (raws : list (Z * Z)) : Prop :=
  Forall (λ it, valid_op it.1 ∧ (is_branch it.1 = true → it.2 ∈ m_IL :: l)) raws.

(** The bytes the first loop writes for an instruction. *)
Definition plain_bytes (op arg : Z) : list Z :=
  if is_branch op then [] else le_bytes (Z.to_nat (operand_size op)) arg.

Lemma exportable_valid l raws : exportable l raws → Forall (λ it, valid_op it.1) raws.
Proof. intros H. eapply Forall_impl; [exact H|]. by intros ? []. Qed.

Lemma offset_of_bound raws k :
  Forall (λ it, valid_op it.1) raws → (k ≤ length raws)%nat → 0 ≤ offset_of raws k ≤ 10 * Z.of_nat k.
Proof.
  intros Hv. induction k as [|k IH]; intros Hk; [done|].
  destruct (lookup_lt_is_Some_2 raws k) as [it Hit]; [lia|].
  rewrite (offset_of_S _ _ _ Hit). pose proof (isize_bounds it.1 (Forall_lookup_1 _ _ _ _ Hv Hit)). lia.
Qed.

Lemma write_out_run r buf off bs :
  m_pOutputBuffer r = Some buf → 0 ≤ off → off + Z.of_nat (length bs) ≤ Z.of_nat (length buf) →
  ∃ buf', write_out off bs r = (Ret tt, upd_m_pOutputBuffer (λ _, Some buf') r) ∧
          wrote (Z.to_nat off) bs buf buf'.
Proof.
  intros Hb Ho Hl. destruct (upd_range_wrote (Z.to_nat off) bs buf) as (buf' & Hu & Hw); [lia|].
  exists buf'. split; [|done]. unfold write_out. run_by (done). rewrite Hb. run_by (done).
  rewrite decide_True by done. rewrite Hu. by run_by (done).
Qed.

(** [out_step r buf off bs m a]: running [m] from [r] returns [a] and writes [bs] at [off] of the
    output buffer, changing nothing else. *)
Definition out_step {A} (r : ILRewriter) (buf : list Z) (off : Z) (bs : list Z) (m : M A) (a : A) : Prop :=
  ∃ buf', m r = (Ret a, upd_m_pOutputBuffer (λ _, Some buf') r) ∧ wrote (Z.to_nat off) bs buf buf'.

Lemma Export_opcode_run r buf op off :
  m_pOutputBuffer r = Some buf → valid_op op → 0 ≤ off → off + isize op ≤ Z.of_nat (length buf) → off + 10 < 2 ^ 32 →
  out_step r buf off (opcode_bytes op) (Export_opcode op off) (off + Z.of_nat (length (opcode_bytes op))).
Proof.
  intros Hb Hop Ho Hl Hw. unfold out_step, Export_opcode, opcode_bytes in *.
  destruct (isize_operand op Hop) as [Hi Hos]. unfold opcode_bytes in Hi.
  assert (Hland : Z.land op 0xFF = op mod 256) by (apply (Z.land_ones op 8); lia).
  case_decide as H1.
  - case_decide as H2; cbn in Hi.
    + destruct (write_out_run r buf off [CEE_PREFIX1]) as (b1 & Hr1 & Hw1); [done|lia|simpl; lia|].
      destruct (write_out_run (upd_m_pOutputBuffer (λ _, Some b1) r) b1 (off + 1) [op mod 256]) as (b2 & Hr2 & Hw2);
        [done|lia|rewrite (wrote_length _ _ _ _ Hw1); simpl; lia|].
      exists b2. split; [|].
      * run_by (by run_by (exact Hr1)). rewrite (wrap_small 32 (off + 1)), Hland by lia.
        run_by (exact Hr2). rewrite wrap_small by lia. unfold mret, stM_ret. do 2 f_equal. simpl. lia.
      * apply (wrote_app _ [_] [_] _ b1); [done|]. by replace (Z.to_nat off + length [CEE_PREFIX1])%nat with (Z.to_nat (off + 1)) by (simpl; lia).
    + destruct (write_out_run r buf off [op mod 256]) as (b1 & Hr1 & Hw1); [done|lia|simpl; lia|].
      exists b1. split; [|done]. run_by (done). rewrite Hland. run_by (exact Hr1). by rewrite wrap_small by lia.
  - exists buf. split; [|apply wrote_nil]. unfold mret, stM_ret. f_equal; [f_equal; simpl; lia|].
    unfold upd_m_pOutputBuffer. destruct r. cbn in *. by rewrite Hb.
Qed.

Lemma out_plain k {A} r buf i off x (a : A) :
  (0 < k)%nat → m_pOutputBuffer r = Some buf → 0 ≤ off → off + Z.of_nat k ≤ Z.of_nat (length buf) →
  x = sgn (8 * Z.of_nat k) (m_Arg i) →
  out_step r buf off (le_bytes k (m_Arg i)) (write_out off (le_bytes k x);; mret a) a.
Proof.
  intros Hk Hb Ho Hl ->.
  assert (le_bytes k (sgn (8 * Z.of_nat k) (m_Arg i)) = le_bytes k (m_Arg i)) as ->
    by (apply le_bytes_wrap_eq, wrap_sgn; lia).
  destruct (write_out_run r buf off (le_bytes k (m_Arg i))) as (b & Hr & Hwr);
    [done|lia|rewrite length_le_bytes; lia|].
  exists b. split; [by run_by (exact Hr)|done].
Qed.

Lemma Export_operand_run r buf op i off fBranch :
  m_pOutputBuffer r = Some buf → valid_op op → 0 ≤ off → off + operand_size op ≤ Z.of_nat (length buf) → off + 10 < 2 ^ 32 →
  out_step r buf off (plain_bytes op (m_Arg i)) (Export_operand (op_flags op) i fBranch off)
    (fBranch || is_branch op, off + (if decide (op_flags op = switch_flags) then 4 else 0)).
Proof.
  intros Hb Hop Ho Hl Hw. unfold plain_bytes.
  pose proof (is_branch_flags op Hop) as Hbr.
  assert (Hplain : op_flags op ≠ short_branch → op_flags op ≠ long_branch → is_branch op = false)
    by (intros; destruct (is_branch op); tauto).
  assert (Hsame : upd_m_pOutputBuffer (λ _, Some buf) r = r).
  { unfold upd_m_pOutputBuffer. destruct r. cbn in *. by rewrite Hb. }
  assert (Hsz : ∃ sz, sz = operand_size op ∧
    sz = Z.land (op_flags op) OPCODEFLAGS_SizeMask + (if decide (op_flags op = switch_flags) then 4 else 0))
    by (by eexists).
  destruct Hsz as (sz & Hsz1 & Hsz). rewrite <-Hsz1 in *. clear Hsz1. unfold Export_operand.
  destruct (op_flags_cases op Hop) as [Hf|[Hf|[Hf|[Hf|[Hf|[Hf|[Hf|Hf]]]]]]]; rewrite Hf in *;
    try (rewrite Hplain by done); try (rewrite (proj2 Hbr) by auto);
    rewrite ?orb_false_r, ?orb_true_r; vm_compute in Hsz; subst sz;
    try (rewrite (decide_False (P := _ = switch_flags)), Z.add_0_r by done).
  - exists buf. rewrite Hsame. split; [done|apply wrote_nil].
  - apply (out_plain 1); auto.
  - apply (out_plain 2); auto.
  - apply (out_plain 4); auto.
  - apply (out_plain 8); auto with lia.
  - exists buf. rewrite Hsame. split; [done|apply wrote_nil].
  - exists buf. rewrite Hsame. split; [done|apply wrote_nil].
  - rewrite (decide_True (P := switch_flags = switch_flags)), wrap_small by (done || lia).
    apply (out_plain 4); auto.
Qed.

Section Layout.
Context (l : list Z) (maxSize : Z).
Context (Hmax : 10 * Z.of_nat (length l) ≤ maxSize < 2 ^ 32 - 10).

(** The list holds [raws], and the nodes before the k-th have their offsets. *)
Record laid (r : ILRewriter) (raws : list (Z * Z)) (k : nat) : Prop := {
  la_list : il_list r l;
  la_len : length l = length raws;
  la_item : ∀ j p it, l !! j = Some p → raws !! j = Some it → ∃ off,
    data (il_store r) p = Some (it.1, off, it.2) ∧ ((j < k)%nat → off = offset_of raws j);
}.

Definition buffer (r : ILRewriter) (buf : list Z) : Prop :=
  m_pOutputBuffer r = Some buf ∧ Z.of_nat (length buf) = maxSize.

(** The bytes of the first [k] instructions that the first loop fixes. *)
Definition emitted (raws : list (Z * Z)) (buf : list Z) (k : nat) : Prop :=
  ∀ j op arg, (j < k)%nat → raws !! j = Some (op, arg) →
    let bs := opcode_bytes op ++ plain_bytes op arg in
    slice (Z.to_nat (offset_of raws j)) (length bs) buf = bs.

Lemma length_fixed op arg :
  valid_op op → Z.of_nat (length (opcode_bytes op ++ plain_bytes op arg)) ≤ isize op.
Proof.
  intros Hop. destruct (isize_operand op Hop) as [-> H]. rewrite length_app. unfold plain_bytes.
  destruct (is_branch op); simpl; rewrite ?length_le_bytes; lia.
Qed.

Lemma offset_of_nat_le raws j k :
  Forall (λ it, valid_op it.1) raws → (j ≤ k)%nat → (Z.to_nat (offset_of raws j) ≤ Z.to_nat (offset_of raws k))%nat.
Proof. intros Hv Hjk. pose proof (offset_of_le raws j k Hv Hjk). lia. Qed.

(** *** First loop *)

Record emit_inv (r0 : ILRewriter) (raws : list (Z * Z)) (l1 : list Z) (acc : bool * Z) (r : ILRewriter) : Prop := {
  ei_laid : laid r raws (length l1);
  ei_offset : acc.2 = offset_of raws (length l1);
  ei_branch : acc.1 = existsb (λ it, is_branch it.1) (take (length l1) raws);
  ei_buffer : ∃ buf, buffer r buf ∧ emitted raws buf (length l1);
  ei_frame : eframe r = eframe r0;
}.

Lemma laid_write_offset r raws k p it :
  laid r raws k → l !! k = Some p → raws !! k = Some it →
  ∃ i, il_store r !! p = Some i ∧ m_opcode i = it.1 ∧ m_Arg i = it.2 ∧
       laid (upd_il_store (insert p (set_offset (offset_of raws k) i)) r) raws (S k).
Proof.
  intros [Hl Hlen Hitem] Hp Hit. destruct (Hitem _ _ _ Hp Hit) as (off & Hd & _).
  destruct (data_Some _ _ _ Hd) as (i & Hi & [= Hio Hioff Hia]). exists i. split_and!; [done..|].
  split; [by apply il_list_write; auto with il|done|].
  intros j q it' Hq Hit'. destruct (Hitem _ _ _ Hq Hit') as (off' & Hd' & Hoff').
  rewrite (data_write r p (set_offset _) i) by done. case_decide as E.
  - subst q. assert (j = k) as ->.
    { destruct Hl as (Hnd & _). apply NoDup_cons in Hnd as [_ Hnd]. by eapply NoDup_lookup. }
    eexists. unfold data_of. cbn. rewrite Hio, Hia. simplify_eq. by split.
  - exists off'. split; [done|]. intros Hj. apply Hoff'.
    assert (j ≠ k) by (intros ->; congruence). lia.
Qed.

Lemma Export_emit_wp r0 raws l1 p l2 acc r :
  exportable l raws → l = l1 ++ p :: l2 → emit_inv r0 raws l1 acc r →
  wp (Export_emit maxSize p acc) r (λ acc' r', emit_inv r0 raws (l1 ++ [p]) acc' r') (λ _ _, False).
Proof.
  intros Hexp Hl [Hlaid Hoff Hbr (buf & [Hbuf Hbl] & Hem) Hfr]. destruct acc as [fB off]. cbn [fst snd] in *.
  pose proof (exportable_valid _ _ Hexp) as Hv.
  set (k := length l1) in *.
  assert (Hp : l !! k = Some p) by (rewrite Hl; by apply list_lookup_middle).
  assert (Hkl : (k < length l)%nat) by (by eapply lookup_lt_Some).
  destruct (lookup_lt_is_Some_2 raws k) as [[op arg] Hit]; [by rewrite <-(la_len _ _ _ Hlaid)|].
  pose proof (Forall_lookup_1 _ _ _ _ Hv Hit) as Hop. simpl in Hop.
  pose proof (isize_bounds op Hop) as Hsz. pose proof (isize_operand op Hop) as [Hiz Hos].
  pose proof (offset_of_bound raws k Hv) as Hob. rewrite <-(la_len _ _ _ Hlaid), <-Hoff in Hob.
  destruct (laid_write_offset r raws k p _ Hlaid Hp Hit) as (i & Hi & Hio & Hia & Hlaid1).
  cbn [fst snd] in *. rewrite <-Hoff in Hlaid1. set (r1 := upd_il_store _ r) in *.
  unfold Export_emit. rewrite decide_False by lia. wp_step (by apply write_instr_run).
  wp_step (apply read_instr_run, lookup_insert_eq). cbn [m_opcode set_offset]. rewrite Hio.
  destruct (Export_opcode_run r1 buf op off) as (b1 & Hr1 & Hw1); [done|done|lia..|].
  fold r1. wp_step (exact Hr1).
  rewrite decide_False by (pose proof (valid_op_range op Hop) as Hr; unfold CEE_SWITCH_ARG in Hr;
    change (length s_OpCodeFlags) with 296%nat; lia).
  rewrite op_flags_lookup by done. wp_step (done).
  pose proof (wrote_length _ _ _ _ Hw1) as Hwl1.
  set (off1 := off + Z.of_nat (length (opcode_bytes op))) in *.
  destruct (Export_operand_run (upd_m_pOutputBuffer (λ _, Some b1) r1) b1 op (set_offset off i) off1 fB)
    as (b2 & Hr2 & Hw2); [done|done|lia..|].
  wp_step (exact Hr2). eapply wp_run; [done|].
  replace (u32 (off1 + (if decide (op_flags op = switch_flags) then 4 else 0) +
    Z.land (op_flags op) OPCODEFLAGS_SizeMask)) with (offset_of raws (S k)).
  2:{ rewrite (offset_of_S _ _ _ Hit), <-Hoff. cbn [fst]. unfold operand_size in *.
      rewrite wrap_small; [lia|]. lia. }
  assert (Hw : wrote (Z.to_nat off) (opcode_bytes op ++ plain_bytes op arg) buf b2).
  { apply (wrote_app _ _ _ _ b1); [done|]. cbn in Hw2. rewrite Hia in Hw2.
    by replace (Z.to_nat off + length (opcode_bytes op))%nat with (Z.to_nat off1) by lia. }
  assert (Hlen1 : length (l1 ++ [p]) = S k) by (rewrite length_app; simpl; lia).
  split; rewrite ?Hlen1.
  - destruct Hlaid1 as [Hx1 Hx2 Hx3]. by split.
  - done.
  - cbn [fst]. erewrite take_S_r by done. rewrite existsb_app, Hbr. simpl. by rewrite orb_false_r.
  - exists b2. split; [split; [done|]|].
    + rewrite (wrote_length _ _ _ _ Hw). done.
    + intros j op' arg' Hj Hj'. destruct (decide (j = k)) as [->|Hne].
      * assert ((op', arg') = (op, arg)) as [= -> ->] by congruence. rewrite <-Hoff. apply Hw.
      * cbv zeta. rewrite (wrote_out _ _ _ _ Hw); [apply Hem; [lia|done]|left].
        pose proof (length_fixed op' arg' (Forall_lookup_1 _ _ _ _ Hv Hj')) as Hfx.
        pose proof (offset_of_le raws (S j) k Hv ltac:(lia)) as Hle.
        rewrite (offset_of_S _ _ _ Hj') in Hle. cbn [fst] in Hle.
        pose proof (offset_of_bound raws j Hv) as Hjb. rewrite <-(la_len _ _ _ Hlaid) in Hjb. lia.
  - done.
Qed.

Lemma emit_loop_wp r0 raws r buf :
  exportable l raws → laid r raws 0 → buffer r buf → eframe r = eframe r0 →
  wp (il_for_each (false, 0) (Export_emit maxSize)) r (emit_inv r0 raws l) (λ _ _, False).
Proof.
  intros Hexp Hlaid Hbuf Hfr. apply (il_for_each_wp _ l (emit_inv r0 raws)).
  - by intros l1 acc r' [[] _ _ _ _].
  - intros l1 p l2 acc r' Hl Hinv. by eapply Export_emit_wp.
  - split; try done. exists buf. split; [done|]. intros j op arg Hj. simpl in Hj. lia.
Qed.

(** *** The listing that a layout denotes *)

Definition node_offset (r : ILRewriter) (a : Z) : Z := default 0 (m_offset <$> il_store r !! a).

(** A branch's operand is the offset of its target. *)
Definition listing (r : ILRewriter) (raws : list (Z * Z)) : list (Z * Z) :=
  (λ it, (it.1, if is_branch it.1 then node_offset r it.2 else it.2)) <$> raws.

Lemma code_size_fst its1 its2 : its1.*1 = its2.*1 → code_size its1 = code_size its2.
Proof.
  revert its2. induction its1 as [|it1 its1 IH]; intros [|it2 its2] H; simplify_eq/=; [done|].
  rewrite H, (IH its2); done.
Qed.

Lemma offset_of_fst its1 its2 k : its1.*1 = its2.*1 → offset_of its1 k = offset_of its2 k.
Proof. intros H. apply code_size_fst. by rewrite !fmap_take, H. Qed.

Lemma listing_fst r raws : (listing r raws).*1 = raws.*1.
Proof. unfold listing. rewrite <-list_fmap_compose. by apply list_fmap_ext. Qed.

Lemma offset_of_listing r raws k : offset_of (listing r raws) k = offset_of raws k.
Proof. apply offset_of_fst, listing_fst. Qed.

Lemma listing_lookup r raws j op arg :
  listing r raws !! j = Some (op, arg) →
  ∃ a, raws !! j = Some (op, a) ∧ arg = if is_branch op then node_offset r a else a.
Proof.
  unfold listing. rewrite list_lookup_fmap. intros ([op' a] & Hj & [= -> ->])%fmap_Some. by exists a.
Qed.

Lemma listing_lookup_2 r raws j op a :
  raws !! j = Some (op, a) →
  listing r raws !! j = Some (op, if is_branch op then node_offset r a else a).
Proof. intros H. unfold listing. by rewrite list_lookup_fmap, H. Qed.

Lemma listing_valid r raws :
  Forall (λ it, valid_op it.1) raws → Forall (λ it, valid_op it.1) (listing r raws).
Proof. intros H. unfold listing. by apply Forall_fmap. Qed.

(** *** Widening *)

Definition widen (op : Z) : Z := if decide (op = CEE_LEAVE_S) then CEE_LEAVE else op - CEE_BR_S + CEE_BR.

Definition widened (op op' : Z) : Prop :=
  valid_op op' ∧ op_flags op' = long_branch ∧
  (op ≠ CEE_LEAVE_S → (CEE_BR_S ≤ op ∧ op ≤ CEE_BLT_UN_S) ∧ (CEE_BR ≤ op' ∧ op' ≤ CEE_BLT_UN)) ∧
  0 ≤ op' < 2 ^ 32.
#[local] Instance widened_dec op op' : Decision (widened op op').
Proof. unfold widened. apply _. Defined.

Lemma widen_spec op : valid_op op → op_flags op = short_branch → widened op (widen op).
Proof.
  revert op. apply (valid_op_decide (λ op, op_flags op = short_branch → widened op (widen op))).
  vm_compute. reflexivity.
Qed.

Definition relaxed (it it' : Z * Z) : Prop :=
  it'.2 = it.2 ∧ (it'.1 = it.1 ∨ (op_flags it.1 = short_branch ∧ it'.1 = widen it.1)).

Definition nshort (raws : list (Z * Z)) : nat :=
  length (filter (λ it, op_flags it.1 = short_branch) raws).

Lemma nshort_relaxed raws raws' :
  Forall (λ it, valid_op it.1) raws → Forall2 relaxed raws raws' →
  (nshort raws' ≤ nshort raws)%nat ∧ (raws' ≠ raws → (nshort raws' < nshort raws)%nat).
Proof.
  intros Hv Hr. induction Hr as [|it it' raws raws' Hit Hr IH]; [done|].
  apply Forall_cons in Hv as [Hop Hv]. specialize (IH Hv) as [IH1 IH2].
  destruct it as [op a], it' as [op' a']. destruct Hit as [Ha Ho]. cbn [fst snd] in *. subst a'.
  unfold nshort in *. rewrite !filter_cons. cbn [fst].
  destruct Ho as [->|[Hs ->]].
  - case_decide; simpl; split; try lia; intros Hne; assert (raws' ≠ raws) as Hne' by congruence;
      specialize (IH2 Hne'); lia.
  - destruct (widen_spec op Hop Hs) as (_ & Hl & _). rewrite (decide_True _ _ Hs).
    rewrite decide_False by (by rewrite Hl). simpl. split; [lia|]. intros _. lia.
Qed.

(** *** Second loop *)

(** The bytes of the [j]-th instruction of [its]. *)
Definition item_bytes (its : list (Z * Z)) (j : nat) (op arg : Z) : list Z :=
  opcode_bytes op ++ operand_bytes (sb_after 0 0 (take j its)) (offset_of its (S j)) op arg.

(** All bytes are in place, but for the operands of the branches from the [k]-th on. *)
Definition patched (its : list (Z * Z)) (buf : list Z) (k : nat) : Prop :=
  ∀ j op arg, its !! j = Some (op, arg) →
    let bs := if is_branch op && bool_decide (k ≤ j)%nat then opcode_bytes op else item_bytes its j op arg in
    slice (Z.to_nat (offset_of its j)) (length bs) buf = bs.

Lemma length_item_bytes its j op arg :
  valid_op op → Z.of_nat (length (item_bytes its j op arg)) = isize op.
Proof.
  intros Hop. unfold item_bytes. rewrite length_app, Nat2Z.inj_add, length_operand_bytes by done.
  by destruct (isize_operand op Hop) as [-> _].
Qed.

Lemma operand_bytes_plain sb next op arg :
  valid_op op → is_branch op = false → operand_bytes sb next op arg = plain_bytes op arg.
Proof.
  intros Hop Hb. unfold operand_bytes, plain_bytes. rewrite Hb.
  assert (¬ (op_flags op = short_branch ∨ op_flags op = long_branch)) as Hn
    by (rewrite <-is_branch_flags by done; congruence).
  rewrite !decide_False; [done|tauto|tauto|]. intros ->. by vm_compute in Hb.
Qed.

Lemma emitted_patched r raws buf :
  Forall (λ it, valid_op it.1) raws → emitted raws buf (length raws) → patched (listing r raws) buf 0.
Proof.
  intros Hv He j op arg Hj. apply listing_lookup in Hj as (a & Hj & ->).
  pose proof (Forall_lookup_1 _ _ _ _ Hv Hj) as Hop. simpl in Hop.
  specialize (He j op a (lookup_lt_Some _ _ _ Hj) Hj). rewrite offset_of_listing. cbv zeta in *.
  unfold plain_bytes in He. destruct (is_branch op) eqn:Hb.
  - rewrite bool_decide_true by lia. simpl. by rewrite app_nil_r in He.
  - simpl. unfold item_bytes. rewrite operand_bytes_plain by done. unfold plain_bytes. by rewrite Hb.
Qed.

Lemma patched_skip its buf k op arg :
  its !! k = Some (op, arg) → is_branch op = false → patched its buf k → patched its buf (S k).
Proof.
  intros Hk Hb Hp j op' arg' Hj. specialize (Hp j op' arg' Hj). cbv zeta in *.
  destruct (decide (j = k)) as [->|Hne].
  - assert (op' = op) as -> by congruence. by rewrite Hb in *.
  - by rewrite (bool_decide_ext (S k ≤ j)%nat (k ≤ j)%nat) by lia.
Qed.

Lemma patched_write its buf buf' k op arg :
  Forall (λ it, valid_op it.1) its → its !! k = Some (op, arg) → is_branch op = true → patched its buf k →
  wrote (Z.to_nat (offset_of its (S k) - operand_size op))
    (operand_bytes (sb_after 0 0 (take k its)) (offset_of its (S k)) op arg) buf buf' →
  patched its buf' (S k).
Proof.
  intros Hv Hk Hb Hp Hw j op' arg' Hj. pose proof (Hp j op' arg' Hj) as Hpj. cbv zeta in *.
  pose proof (Forall_lookup_1 _ _ _ _ Hv Hk) as Hop. simpl in Hop.
  pose proof (Forall_lookup_1 _ _ _ _ Hv Hj) as Hop'. simpl in Hop'.
  pose proof (offset_of_S _ _ _ Hk) as Hok. pose proof (offset_of_S _ _ _ Hj) as Hoj. cbn [fst] in *.
  destruct (isize_operand op Hop) as [Hi Hos]. destruct (isize_operand op' Hop') as [Hi' Hos'].
  pose proof (length_operand_bytes (sb_after 0 0 (take k its)) (offset_of its (S k)) op arg Hop) as Hlen.
  pose proof (offset_of_bound its k Hv) as Hbk. pose proof (lookup_lt_Some _ _ _ Hk).
  pose proof (offset_of_bound its j Hv) as Hbj. pose proof (lookup_lt_Some _ _ _ Hj).
  destruct (decide (j = k)) as [->|Hne].
  - assert ((op', arg') = (op, arg)) as [= -> ->] by congruence.
    rewrite Hb, bool_decide_true in Hpj by lia. rewrite Hb, bool_decide_false by lia. simpl in *.
    unfold item_bytes. rewrite length_app, slice_app.
    destruct Hw as [_ Hin Hout]. rewrite Hout, Hpj by lia. f_equal.
    by replace (Z.to_nat (offset_of its k) + length (opcode_bytes op))%nat
      with (Z.to_nat (offset_of its (S k) - operand_size op)) by lia.
  - rewrite (bool_decide_ext (S k ≤ j)%nat (k ≤ j)%nat) by lia.
    rewrite (wrote_out _ _ _ _ Hw); [done|].
    assert (Hbs : Z.of_nat (length (if is_branch op' && bool_decide (k ≤ j)%nat then opcode_bytes op'
      else item_bytes its j op' arg')) ≤ isize op').
    { destruct (is_branch op' && bool_decide (k ≤ j)%nat); [lia|]. by rewrite length_item_bytes. }
    destruct (decide (j < k)%nat).
    + left. pose proof (offset_of_le its (S j) k Hv ltac:(lia)). lia.
    + right. pose proof (offset_of_le its (S k) j Hv ltac:(lia)). lia.
Qed.

(** Every instruction in place makes the code. *)
Lemma patched_code its buf :
  Forall (λ it, valid_op it.1) its → patched its buf (length its) →
  take (Z.to_nat (code_size its)) buf = enc_code 0 0 its.
Proof.
  intros Hv Hp. rewrite <-(offset_of_all its (length its)) by lia.
  assert (∀ k, (k ≤ length its)%nat → take (Z.to_nat (offset_of its k)) buf = enc_code 0 0 (take k its)) as Hk.
  { induction k as [|k IH]; intros Hk; [done|].
    destruct (lookup_lt_is_Some_2 its k) as [[op arg] Hit]; [lia|].
    pose proof (Forall_lookup_1 _ _ _ _ Hv Hit) as Hop. simpl in Hop.
    specialize (Hp k op arg Hit). cbv zeta in Hp. rewrite bool_decide_false, andb_false_r in Hp by lia.
    pose proof (length_item_bytes its k op arg Hop) as Hl. pose proof (isize_bounds op Hop).
    pose proof (offset_of_bound its k Hv) as Hbk.
    erewrite take_S_r by done. rewrite enc_code_app, <-IH by lia.
    rewrite (offset_of_S _ _ _ Hit). cbn [fst].
    rewrite Z2Nat.inj_add, take_slice by lia. f_equal.
    replace (Z.to_nat (isize op)) with (length (item_bytes its k op arg)) by lia. rewrite Hp.
    unfold item_bytes. cbn [enc_code]. rewrite app_nil_r, Z.add_0_l. fold (offset_of its k).
    by rewrite (offset_of_S _ _ _ Hit). }
  rewrite Hk by done. by rewrite take_ge by done.
Qed.

(** The state between the loops: every node, and the sentinel, has its offset. *)
Definition placed (r : ILRewriter) (raws : list (Z * Z)) : Prop :=
  laid r raws (length l) ∧ node_offset r m_IL = code_size raws.

Definition fits (its : list (Z * Z)) (j : nat) : Prop := ∀ op arg,
  its !! j = Some (op, arg) → op_flags op = short_branch → -128 ≤ s32 (arg - offset_of its (S j)) < 128.

Record branch_inv (r1 : ILRewriter) (raws : list (Z * Z)) (l1 : list Z) (acc : bool * Z) (r : ILRewriter) : Prop := {
  bi_list : il_list r l;
  bi_nodes : ∀ j p it, l !! j = Some p → raws !! j = Some it → ∃ op',
    data (il_store r) p = Some (op', offset_of raws j, it.2) ∧
    (op' = it.1 ∨ ((j < length l1)%nat ∧ acc.1 = true ∧ op_flags it.1 = short_branch ∧ op' = widen it.1));
  bi_offsets : ∀ a, node_offset r a = node_offset r1 a;
  bi_try : acc.1 = true → ∃ j p it, l !! j = Some p ∧ raws !! j = Some it ∧ op_flags it.1 = short_branch ∧
    (∃ off a, data (il_store r) p = Some (widen it.1, off, a)) ∧ ¬ fits (listing r1 raws) j;
  bi_base : acc.2 = u32 (sb_after 0 0 (take (length l1) (listing r1 raws)));
  bi_buffer : ∃ buf, buffer r buf ∧ (acc.1 = false → patched (listing r1 raws) buf (length l1));
  bi_fits : acc.1 = false → ∀ j, (j < length l1)%nat → fits (listing r1 raws) j;
  bi_frame : eframe r = eframe r1;
}.

Section BranchStep.
Context (r1 : ILRewriter) (raws : list (Z * Z)) (l1 l2 : list Z) (p op a : Z) (fTry : bool) (sb : Z) (r : ILRewriter).
Context (Hexp : exportable l raws) (Hpl : placed r1 raws) (Hl : l = l1 ++ p :: l2).
Context (Hinv : branch_inv r1 raws l1 (fTry, sb) r).
Context (Hit : raws !! length l1 = Some (op, a)).
Let k := length l1.
Let its := listing r1 raws.
Let arg := if is_branch op then node_offset r1 a else a.

Lemma bs_valid : Forall (λ it, valid_op it.1) raws.
Proof. by eapply exportable_valid. Qed.

Lemma bs_op : valid_op op.
Proof. exact (Forall_lookup_1 _ _ _ _ bs_valid Hit). Qed.

Lemma bs_p : l !! k = Some p.
Proof. rewrite Hl. by apply list_lookup_middle. Qed.

Lemma bs_item : its !! k = Some (op, arg).
Proof. by apply listing_lookup_2. Qed.

Lemma bs_len : (k < length l)%nat ∧ length l = length raws.
Proof. split; [by eapply lookup_lt_Some, bs_p|]. apply Hpl. Qed.

Lemma bs_node : ∃ i, il_store r !! p = Some i ∧ m_opcode i = op ∧ m_offset i = offset_of raws k ∧ m_Arg i = a.
Proof.
  destruct (bi_nodes _ _ _ _ _ Hinv _ _ _ bs_p Hit) as (op' & Hd & Hop').
  destruct (data_Some _ _ _ Hd) as (i & Hi & [= Hio Hioff Hia]). exists i. split_and!; try done.
  destruct Hop' as [->|(? & _)]; [done|lia].
Qed.

Lemma bs_offset q i : il_store r !! q = Some i → m_offset i = node_offset r1 q.
Proof. intros Hi. rewrite <-(bi_offsets _ _ _ _ _ Hinv q). unfold node_offset. by rewrite Hi. Qed.

Lemma bs_next i : il_store r !! p = Some i →
  ∃ nx, il_store r !! m_pNext i = Some nx ∧ m_offset nx = offset_of raws (S k).
Proof.
  intros Hi. destruct (bi_list _ _ _ _ _ Hinv) as (Hnd & Hc & Hd). rewrite Hl in Hc.
  apply chain_app in Hc as [_ Hc]. apply chain_nxt_start in Hc. unfold nxt in Hc. rewrite Hi in Hc.
  injection Hc as ->.
  assert (Hel : default m_IL (head l2) ∈ m_IL :: l).
  { rewrite Hl. destruct l2; simpl; [left|]. right. apply elem_of_app. right. right. left. }
  destruct (il_list_store _ _ _ (bi_list _ _ _ _ _ Hinv) Hel) as [nx Hnx]. exists nx. split; [done|].
  pose proof bs_len as [_ Hlen]. pose proof (bs_offset _ _ Hnx) as Hoff.
  pose proof (bi_nodes _ _ _ _ _ Hinv) as Hnodes. clear Hel.
  revert Hl Hnx Hoff. destruct l2 as [|q l2']; simpl; intros Hl' Hnx Hoff.
  - rewrite Hoff, (proj2 Hpl). symmetry. apply offset_of_all.
    rewrite <-Hlen, Hl', length_app. simpl. unfold k. lia.
  - assert (Hq : l !! S k = Some q).
    { rewrite Hl'. unfold k. rewrite lookup_app_r by lia. by replace (S (length l1) - length l1)%nat with 1%nat by lia. }
    destruct (lookup_lt_is_Some_2 raws (S k)) as [it' Hit'].
    { rewrite <-Hlen. by eapply lookup_lt_Some. }
    destruct (Hnodes _ _ _ Hq Hit') as (op' & Hdq & _).
    destruct (data_Some _ _ _ Hdq) as (i' & Hi' & [= _ Hioff _]). congruence.
Qed.

Lemma bs_target : is_branch op = true → ∃ t, il_store r !! a = Some t ∧ m_offset t = arg.
Proof.
  intros Hb. destruct (Forall_lookup_1 _ _ _ _ Hexp Hit) as [_ Ht]. simpl in Ht.
  destruct (il_list_store _ _ a (bi_list _ _ _ _ _ Hinv) (Ht Hb)) as [t Ht']. exists t. split; [done|].
  rewrite (bs_offset _ _ Ht'). unfold arg. by rewrite Hb.
Qed.

Lemma bs_bounds : 0 ≤ offset_of raws k ∧ offset_of raws (S k) = offset_of raws k + isize op ∧ offset_of raws (S k) ≤ maxSize.
Proof.
  pose proof (offset_of_S _ _ _ Hit) as Ho. fold k in Ho. cbn [fst] in Ho. destruct bs_len as [H1 H2].
  pose proof (offset_of_bound raws k bs_valid). pose proof (offset_of_bound raws (S k) bs_valid). lia.
Qed.

(** The next state, when the instruction keeps its size. *)
Lemma bs_keep buf :
  buffer r buf → ∀ buf', length buf' = length buf →
  (fTry = false → patched its buf k → patched its buf' (S k)) → (fTry = false → fits its k) →
  branch_inv r1 raws (l1 ++ [p])
    (fTry, u32 (sb_step (sb_after 0 0 (take k its)) (offset_of raws k) op arg))
    (upd_m_pOutputBuffer (λ _, Some buf') r).
Proof.
  intros [Hbuf Hbl] buf' Hlen Hpat Hfit.
  destruct Hinv as [Hl' Hn Ho Ht Hb (b & [Hb1 _] & Hb2) Hf Hfr]. cbn [fst snd] in *.
  assert (b = buf) as -> by congruence.
  assert (Hk1 : length (l1 ++ [p]) = S k) by (rewrite length_app; simpl; unfold k; lia).
  split; rewrite ?Hk1; cbn [fst snd]; try done.
  - intros j q it Hq Hit'. destruct (Hn j q it Hq Hit') as (op' & Hd & Hop). exists op'. split; [done|].
    destruct Hop as [->|(? & ? & ? & ?)]; [by left|right]. split_and!; [unfold k; lia|done..].
  - erewrite take_S_r by exact bs_item. rewrite sb_after_app. cbn [sb_after]. rewrite Z.add_0_l.
    by rewrite <-(offset_of_listing r1 raws k).
  - exists buf'. split; [split; [done|congruence]|]. intros HT. apply Hpat; [done|]. by apply Hb2.
  - intros HT j Hj. destruct (decide (j = k)) as [->|]; [by apply Hfit|]. apply Hf; [done|unfold k in *; lia].
Qed.

Let Next (acc : bool * Z) (r' : ILRewriter) : Prop := branch_inv r1 raws (l1 ++ [p]) acc r'.

Lemma upd_same_buffer buf : m_pOutputBuffer r = Some buf → upd_m_pOutputBuffer (λ _, Some buf) r = r.
Proof. intros Hb. unfold upd_m_pOutputBuffer. destruct r. cbn in *. by rewrite Hb. Qed.

Lemma bs_fits_other : op_flags op ≠ short_branch → fits its k.
Proof. intros Hf op' arg' Hj Hs. rewrite bs_item in Hj. congruence. Qed.

Lemma bs_base : op ≠ CEE_SWITCH → sb = u32 (sb_step (sb_after 0 0 (take k its)) (offset_of raws k) op arg).
Proof. intros Hsw. unfold sb_step. rewrite decide_False by done. apply (bi_base _ _ _ _ _ Hinv). Qed.

Lemma bs_skip :
  is_branch op = false →
  Next (fTry, u32 (sb_step (sb_after 0 0 (take k its)) (offset_of raws k) op arg)) r.
Proof.
  intros Hb. destruct (bi_buffer _ _ _ _ _ Hinv) as (buf & Hbuf & _).
  rewrite <-(upd_same_buffer buf) by apply Hbuf. apply (bs_keep buf Hbuf); [done|..].
  - intros _. by apply (patched_skip _ _ _ _ _ bs_item).
  - intros _. apply bs_fits_other. intros Hs. assert (is_branch op = true); [|congruence].
    apply is_branch_flags; [exact bs_op|by left].
Qed.

Lemma bs_patch off bs :
  is_branch op = true → op ≠ CEE_SWITCH → (fTry = false → fits its k) →
  bs = operand_bytes (sb_after 0 0 (take k its)) (offset_of raws (S k)) op arg →
  off = offset_of raws (S k) - operand_size op →
  wp (write_out off bs;; mret (fTry, sb)) r Next (λ _ _, False).
Proof.
  intros Hb Hsw Hfit -> ->. destruct (bi_buffer _ _ _ _ _ Hinv) as (buf & Hbuf & _).
  pose proof (length_operand_bytes (sb_after 0 0 (take k its)) (offset_of raws (S k)) op arg bs_op) as Hlen.
  destruct (isize_operand op bs_op) as [Hi Hos]. destruct bs_bounds as (Hb1 & Hb2 & Hb3).
  destruct (write_out_run r buf (offset_of raws (S k) - operand_size op)
    (operand_bytes (sb_after 0 0 (take k its)) (offset_of raws (S k)) op arg)) as (buf' & Hr & Hw);
    [apply Hbuf|lia|rewrite (proj2 Hbuf); lia|].
  wp_step (exact Hr). eapply wp_run; [done|]. rewrite (bs_base Hsw).
  apply (bs_keep buf Hbuf); [apply Hw| |done].
  intros _ Hp. rewrite <-(offset_of_listing r1 raws) in Hw.
  eapply patched_write; [apply listing_valid, bs_valid|exact bs_item|done|exact Hp|exact Hw].
Qed.

Lemma bs_widen i :
  il_store r !! p = Some i → op_flags op = short_branch → ¬ fits its k →
  Next (true, sb) (upd_il_store (insert p (set_opcode (widen op) i)) r).
Proof.
  intros Hi Hs Hnf. assert (Hsw : op ≠ CEE_SWITCH) by (intros ->; done).
  destruct bs_node as (i' & Hi' & Hio & Hioff & Hia). assert (i' = i) as -> by congruence.
  assert (Hpd : data (il_store (upd_il_store (insert p (set_opcode (widen op) i)) r)) p =
    Some (widen op, offset_of raws k, a)).
  { rewrite (data_write r p (set_opcode _) i), decide_True by done. unfold data_of. cbn. by rewrite Hioff, Hia. }
  destruct Hinv as [Hl' Hn Ho Ht Hb (b & Hb1 & Hb2) Hf Hfr]. cbn [fst snd] in *.
  assert (Hk1 : length (l1 ++ [p]) = S k) by (rewrite length_app; simpl; unfold k; lia).
  unfold Next. split; rewrite ?Hk1; cbn [fst snd]; try done.
  - apply il_list_write; auto with il.
  - intros j q it Hq Hit'. destruct (decide (q = p)) as [->|Hne].
    + assert (j = k) as ->.
      { destruct Hl' as (Hnd & _). apply NoDup_cons in Hnd as [_ Hnd]. eapply NoDup_lookup; [done..|apply bs_p]. }
      assert (it = (op, a)) as -> by (unfold k in Hit'; congruence).
      exists (widen op). split; [done|]. right. split_and!; [lia|done..].
    + destruct (Hn j q it Hq Hit') as (op' & Hd & Hop). exists op'.
      rewrite (data_write r p (set_opcode _) i), decide_False by done. split; [done|].
      destruct Hop as [->|(? & ? & ? & ?)]; [by left|right]. split_and!; [unfold k; lia|done..].
  - intros q. rewrite <-Ho. unfold node_offset. cbn. destruct (decide (q = p)) as [->|].
    + by rewrite lookup_insert_eq, Hi.
    + by rewrite lookup_insert_ne.
  - intros _. exists k, p, (op, a). split_and!; [exact bs_p|done..| |exact Hnf]. by eexists _, _.
  - erewrite take_S_r by exact bs_item. rewrite sb_after_app. cbn [sb_after].
    unfold sb_step. by rewrite decide_False by done.
  - exists b. by split.
Qed.

Lemma Export_widen_wp i (k' : M (bool * Z)) Q X :
  il_store r !! p = Some i → op_flags op = short_branch →
  wp k' (upd_il_store (insert p (set_opcode (widen op) i)) r) Q X →
  wp (Export_widen p op;; k') r Q X.
Proof.
  intros Hi Hs Hk. destruct (widen_spec op bs_op Hs) as (_ & _ & Hr & Hr2). unfold Export_widen.
  unfold widen in *. case_decide as Hlv.
  - by wp_step (by apply write_instr_run).
  - destruct (Hr Hlv) as [H1 H2]. rewrite decide_False by tauto. rewrite wrap_small by done.
    apply wp_bind. wp_step (by apply write_instr_run).
    wp_step (apply read_instr_run, lookup_insert_eq). cbn [m_opcode set_opcode].
    rewrite decide_False by tauto. by eapply wp_run.
Qed.

Lemma Export_branch_wp : wp (Export_branch p (fTry, sb)) r Next (λ _ _, False).
Proof.
  destruct bs_node as (i & Hi & Hio & Hioff & Hia).
  destruct bs_bounds as (Hb1 & Hb2 & Hb3). pose proof (is_branch_flags op bs_op) as Hbr.
  destruct (isize_operand op bs_op) as [Hiz Hos].
  pose proof (operand_size_special op bs_op) as (Hz1 & Hz2 & Hz3 & _).
  unfold Export_branch. wp_step (by apply read_instr_run). rewrite Hio.
  case_decide as Hsw.
  { eapply wp_run; [done|]. assert (Hb : is_branch op = false) by (by rewrite Hsw).
    pose proof (bs_skip Hb) as Hn. unfold arg in Hn. rewrite Hb in Hn. unfold sb_step in Hn.
    rewrite decide_True in Hn by done. unfold m_Arg32. by rewrite Hioff, Hia. }
  case_decide as Hsa.
  { assert (Hb : is_branch op = true) by (by rewrite Hsa).
    destruct (bs_target Hb) as (t & Ht & Hto). unfold m_pTarget. rewrite Hia.
    wp_step (by apply read_instr_run). rewrite Hto, Hioff. apply bs_patch; try done.
    - intros _. apply bs_fits_other. by rewrite Hsa.
    - unfold operand_bytes. rewrite decide_True by done. apply le_bytes_wrap_eq.
      change (8 * Z.of_nat 4) with 32. rewrite wrap_wrap by lia.
      pose proof (bi_base _ _ _ _ _ Hinv) as Hsb. cbn [snd] in Hsb. fold k its in Hsb.
      by rewrite Hsb, wrap_sub_r.
    - rewrite Hsa in Hb2. change (isize CEE_SWITCH_ARG) with 4 in Hb2. rewrite Hz1 by done. lia. }
  rewrite op_flags_lookup by exact bs_op. wp_step (done).
  case_decide as Hbt.
  2:{ eapply wp_run; [done|]. rewrite (bs_base Hsw). apply bs_skip.
      apply bool_decide_eq_false. tauto. }
  assert (Hb : is_branch op = true) by (by apply bool_decide_eq_true).
  destruct (bs_target Hb) as (t & Ht & Hto). destruct (bs_next i Hi) as (nx & Hnx & Hnxo).
  unfold m_pTarget. rewrite Hia. wp_step (by apply read_instr_run). wp_step (by apply read_instr_run).
  rewrite Hto, Hnxo. apply Hbr in Hb as Hcase. destruct Hcase as [Hs|Hs].
  - rewrite decide_True by done. case_decide as Hfit.
    + eapply Export_widen_wp; [done..|]. eapply wp_run; [done|]. apply bs_widen; [done..|].
      intros Hf. apply Hfit. apply sgn_small; [lia|].
      specialize (Hf op arg bs_item Hs). unfold its in Hf. rewrite offset_of_listing in Hf. simpl. lia.
    + apply bs_patch; try done.
      * intros _ op' arg' Hj _. rewrite bs_item in Hj. injection Hj as <- <-.
        unfold its. rewrite offset_of_listing.
        destruct (decide (s8 (s32 (arg - offset_of raws (S k))) = s32 (arg - offset_of raws (S k)))) as [E|E]; [|tauto].
        rewrite <-E. pose proof (sgn_range 8 (s32 (arg - offset_of raws (S k))) ltac:(lia)). simpl in *. lia.
      * unfold operand_bytes. rewrite decide_False, decide_True by done. apply le_bytes_wrap_eq.
        change (8 * Z.of_nat 1) with 8. rewrite <-(wrap_wrap_le 8 32), wrap_sgn, wrap_wrap_le by lia. done.
      * by rewrite Hz2 by done.
  - rewrite decide_False, decide_True by (by rewrite ?Hs). apply bs_patch; try done.
    + intros _. apply bs_fits_other. by rewrite Hs.
    + unfold operand_bytes. rewrite decide_False, decide_False, decide_True by (by rewrite ?Hs).
      apply le_bytes_wrap_eq. change (8 * Z.of_nat 4) with 32. by rewrite wrap_sgn by lia.
    + by rewrite Hz3 by done.
Qed.
End BranchStep.

Lemma branch_loop_wp r1 raws buf :
  exportable l raws → placed r1 raws → buffer r1 buf → patched (listing r1 raws) buf 0 →
  wp (il_for_each (false, 0) Export_branch) r1 (branch_inv r1 raws l) (λ _ _, False).
Proof.
  intros Hexp Hpl Hbuf Hp. apply (il_for_each_wp _ l (branch_inv r1 raws)).
  - by intros l1 acc r' [].
  - intros l1 p l2 [fTry sb] r' Hl Hinv.
    destruct (lookup_lt_is_Some_2 raws (length l1)) as [[op a] Hit].
    { destruct Hpl as [[_ <- _] _]. rewrite Hl, length_app. simpl. lia. }
    by eapply Export_branch_wp.
  - destruct Hpl as [[Hl Hlen Hitem] HIL]. split; try done.
    + intros j p it Hj Hit. destruct (Hitem j p it Hj Hit) as (off & Hd & Hoff).
      exists it.1. rewrite <-Hoff by (by eapply lookup_lt_Some). split; [done|by left].
    + exists buf. by split.
    + intros _ j Hj. simpl in Hj. lia.
Qed.

(** *** The loop of [goto again] *)

Lemma emit_inv_placed r0 raws fB off r :
  emit_inv r0 raws l (fB, off) r →
  ∃ i, il_store r !! m_IL = Some i ∧ placed (upd_il_store (insert m_IL (set_offset off i)) r) raws.
Proof.
  intros [[Hl Hlen Hitem] Hoff _ _ _]. cbn [snd] in Hoff.
  destruct (il_list_start _ _ Hl) as (i & Hi & _). exists i. split; [done|]. split; [split|].
  - apply il_list_write; auto with il.
  - done.
  - intros j p it Hp Hit. destruct (Hitem j p it Hp Hit) as (o & Hd & Ho). exists o. split; [|done].
    rewrite (data_write r m_IL (set_offset off) i), decide_False; [done| |done].
    apply (il_list_no_IL _ _ _ Hl). by eapply list_elem_of_lookup_2.
  - unfold node_offset. cbn. rewrite lookup_insert_eq. cbn. rewrite Hoff. apply offset_of_all. lia.
Qed.

(** What the list holds, read off the store. *)
Definition contents (r : ILRewriter) : list (Z * Z) :=
  (λ p, match il_store r !! p with Some i => (m_opcode i, m_Arg i) | None => (0, 0) end) <$> l.

Lemma laid_contents r : il_list r l → laid r (contents r) 0.
Proof.
  intros Hl. split; [done|by unfold contents; rewrite length_fmap|]. intros j p it Hp Hit.
  unfold contents in Hit. rewrite list_lookup_fmap, Hp in Hit. simpl in Hit.
  destruct (il_list_store _ _ p Hl) as [i Hi]; [right; by eapply list_elem_of_lookup_2|].
  rewrite Hi in Hit. simplify_eq. exists (m_offset i). split; [|lia]. unfold data. by rewrite Hi.
Qed.

Lemma branch_inv_relaxed r1 raws acc r :
  Forall (λ it, valid_op it.1) raws → length l = length raws → branch_inv r1 raws l acc r →
  Forall2 relaxed raws (contents r) ∧ (acc.1 = true → contents r ≠ raws) ∧ (acc.1 = false → contents r = raws).
Proof.
  intros Hv Hlen [Hl Hn _ Ht _ _ _ _].
  assert (Hc : ∀ j p it op' off a, l !! j = Some p → raws !! j = Some it →
    data (il_store r) p = Some (op', off, a) → contents r !! j = Some (op', a)).
  { intros j p it op' off a Hp Hit Hd. unfold contents. rewrite list_lookup_fmap, Hp. simpl.
    destruct (data_Some _ _ _ Hd) as (i & -> & [= -> _ ->]). done. }
  assert (Hcl : length (contents r) = length l) by (by unfold contents; rewrite length_fmap).
  split_and!.
  - apply Forall2_same_length_lookup_2; [lia|]. intros j it it' Hit Hit'.
    destruct (lookup_lt_is_Some_2 l j) as [p Hp]; [rewrite Hlen; by eapply lookup_lt_Some|].
    destruct (Hn j p it Hp Hit) as (op' & Hd & Hop). rewrite (Hc _ _ _ _ _ _ Hp Hit Hd) in Hit'.
    injection Hit' as <-. split; [done|]. cbn [fst]. destruct Hop as [->|(_ & _ & ? & ->)]; auto.
  - intros HT Heq. destruct (Ht HT) as (j & p & it & Hp & Hit & Hs & (off & a & Hd) & _).
    pose proof (Hc _ _ _ _ _ _ Hp Hit Hd) as Hj. rewrite Heq, Hit in Hj.
    destruct it as [op0 a0]. injection Hj as Hw _. cbn [fst] in *.
    pose proof (Forall_lookup_1 _ _ _ _ Hv Hit) as Hop. cbn [fst] in Hop.
    destruct (widen_spec _ Hop Hs) as (_ & Hlong & _). rewrite <-Hw, Hs in Hlong. done.
  - intros HF. apply list_eq. intros j. destruct (l !! j) as [p|] eqn:Hp.
    + destruct (lookup_lt_is_Some_2 raws j) as [it Hit]; [rewrite <-Hlen; by eapply lookup_lt_Some|].
      destruct (Hn j p it Hp Hit) as (op' & Hd & Hop). rewrite (Hc _ _ _ _ _ _ Hp Hit Hd), Hit.
      destruct Hop as [->|(_ & ? & _)]; [by destruct it|congruence].
    + apply lookup_ge_None in Hp. rewrite !lookup_ge_None_2 by lia. done.
Qed.

Lemma relaxed_trans it1 it2 it3 : valid_op it1.1 → relaxed it1 it2 → relaxed it2 it3 → relaxed it1 it3.
Proof.
  intros Hv [Ha Ho] [Ha' Ho']. split; [congruence|].
  destruct Ho as [Ho|[Hs Ho]]; rewrite Ho in Ho'; [done|].
  destruct (widen_spec _ Hv Hs) as (_ & Hl & _). destruct Ho' as [->|[Hs' _]]; [by right|].
  by rewrite Hl in Hs'.
Qed.

Lemma exportable_relaxed raws raws' : exportable l raws → Forall2 relaxed raws raws' → exportable l raws'.
Proof.
  intros Hexp Hr. induction Hr as [|[op a] [op' a'] raws raws' [Ha Ho] Hr IH]; [done|].
  apply Forall_cons in Hexp as [[Hop Hb] Hexp]. cbn [fst snd] in *. subst a'.
  apply Forall_cons. split; [|by apply IH]. cbn [fst snd].
  destruct Ho as [->|[Hs ->]]; [done|]. destruct (widen_spec _ Hop Hs) as (Hv & _). split; [done|].
  intros _. apply Hb, is_branch_flags; auto.
Qed.

(** The code is in the buffer. *)
Record code_ready (r0 : ILRewriter) (raws : list (Z * Z)) (n : Z) (r : ILRewriter) (raws' : list (Z * Z)) (buf : list Z) : Prop := {
  cr_relaxed : Forall2 relaxed raws raws';
  cr_exportable : exportable l raws';
  cr_placed : placed r raws';
  cr_size : n = code_size raws';
  cr_buffer : buffer r buf;
  cr_code : take (Z.to_nat n) buf = enc_code 0 0 (listing r raws');
  cr_fits : ∀ j, fits (listing r raws') j;
  cr_frame : eframe r = eframe r0;
}.

Lemma code_ready_trans r0 r1 raws raws1 n r raws' buf :
  Forall (λ it, valid_op it.1) raws → Forall2 relaxed raws raws1 → eframe r1 = eframe r0 →
  code_ready r1 raws1 n r raws' buf → code_ready r0 raws n r raws' buf.
Proof.
  intros Hv Hrel Hfr [H1 H2 H3 H4 H5 H6 H7 H8]. split; try done; [|congruence].
  apply Forall2_same_length_lookup_2.
  { by rewrite (Forall2_length _ _ _ Hrel), (Forall2_length _ _ _ H1). }
  intros j it1 it3 Hj1 Hj3. destruct (Forall2_lookup_l _ _ _ _ _ Hrel Hj1) as (it2 & Hj2 & H12).
  eapply relaxed_trans; [by eapply (Forall_lookup_1 _ _ _ _ Hv)|done|]. by eapply Forall2_lookup_lr.
Qed.

Lemma relaxed_refl raws : Forall2 relaxed raws raws.
Proof. apply Forall2_same_length_lookup_2; [done|]. intros j it it' H1 H2. simplify_eq. split; auto. Qed.

Lemma listing_ext r r' raws :
  (∀ a, node_offset r a = node_offset r' a) → listing r raws = listing r' raws.
Proof. intros H. apply list_fmap_ext. intros _ [op a] _. cbn. by rewrite H. Qed.

(** The last round of the loop: no branch was widened. *)
Lemma branch_inv_ready r0 r1 raws sb r :
  exportable l raws → placed r1 raws → eframe r1 = eframe r0 → branch_inv r1 raws l (false, sb) r →
  ∃ buf, code_ready r0 raws (code_size raws) r raws buf.
Proof.
  intros Hexp [[Hl1 Hlen Hitem] HIL] Hfr [Hl Hn Ho _ _ (buf & Hbuf & Hp) Hf Hfr'].
  cbn [fst snd] in *. specialize (Hp eq_refl). specialize (Hf eq_refl).
  pose proof (exportable_valid _ _ Hexp) as Hv. exists buf.
  assert (Hlst : listing r raws = listing r1 raws) by (by apply listing_ext).
  assert (Hll : length (listing r1 raws) = length raws) by (unfold listing; by rewrite length_fmap).
  split; try done.
  - apply relaxed_refl.
  - split; [split; [done|done|]|by rewrite Ho].
    intros j p it Hj Hit. destruct (Hn j p it Hj Hit) as (op' & Hd & Hop). exists (offset_of raws j).
    destruct Hop as [->|(_ & ? & _)]; [done|congruence].
  - rewrite Hlst, <-(patched_code _ buf); [|by apply listing_valid|by rewrite Hll, <-Hlen].
    by rewrite (code_size_fst _ _ (listing_fst r1 raws)).
  - rewrite Hlst. intros j op arg Hj. eapply Hf; [|done].
    rewrite Hlen, <-Hll. by eapply lookup_lt_Some.
  - congruence.
Qed.

(** Code without branches is complete after the first loop. *)
Lemma emit_inv_ready r0 raws off r i :
  exportable l raws → emit_inv r0 raws l (false, off) r → il_store r !! m_IL = Some i →
  let r' := upd_il_store (insert m_IL (set_offset off i)) r in
  placed r' raws → ∃ buf, code_ready r0 raws off r' raws buf.
Proof.
  intros Hexp [[Hl Hlen Hitem] Hoff Hbr (buf & Hbuf & Hem) Hfr] Hi r' Hpl. cbn [fst snd] in *.
  pose proof (exportable_valid _ _ Hexp) as Hv. exists buf.
  assert (Hnb : ∀ j op arg, listing r' raws !! j = Some (op, arg) → is_branch op = false).
  { intros j op arg (a & Hj & _)%listing_lookup. rewrite take_ge in Hbr by lia.
    destruct (is_branch op) eqn:Hb; [|done]. assert (existsb (λ it, is_branch it.1) raws = true); [|congruence].
    apply existsb_exists. exists (op, a). split; [|done]. apply list_elem_of_In. by eapply list_elem_of_lookup_2. }
  assert (Hll : length (listing r' raws) = length raws) by (unfold listing; by rewrite length_fmap).
  rewrite Hlen, offset_of_all in Hoff by lia. rewrite Hlen in Hem.
  split; try done.
  - apply relaxed_refl.
  - rewrite Hoff, <-(patched_code _ buf); [|by apply listing_valid|].
    + by rewrite (code_size_fst _ _ (listing_fst r' raws)).
    + pose proof (emitted_patched r' raws buf Hv Hem) as Hp. intros j op arg Hj.
      specialize (Hp j op arg Hj). cbv zeta in *. by rewrite (Hnb _ _ _ Hj) in *.
  - intros j op arg Hj Hs. apply Hnb in Hj as Hb.
    assert (is_branch op = true); [|congruence]. apply is_branch_flags; [|by left].
    by apply (Forall_lookup_1 _ _ _ _ (listing_valid r' raws Hv) Hj).
Qed.

Lemma Export_again_wp r0 : ∀ fuel raws r buf,
  exportable l raws → laid r raws 0 → buffer r buf → eframe r = eframe r0 → (nshort raws < fuel)%nat →
  wp (Export_again fuel maxSize) r
    (λ n r', ∃ raws' buf', code_ready r0 raws n r' raws' buf' ∧
      ((∀ r1 j, placed r1 raws → fits (listing r1 raws) j) → raws' = raws)) (λ _ _, False).
Proof.
  intros fuel. induction fuel as [|fuel IH]; intros raws r buf Hexp Hlaid Hbuf Hfr Hfuel; [lia|].
  pose proof (exportable_valid _ _ Hexp) as Hv.
  cbn [Export_again]. apply wp_bind. eapply wp_mono; [by eapply (emit_loop_wp r0 raws)|..|done].
  intros [fB off] r1 Hem. destruct (emit_inv_placed _ _ _ _ _ Hem) as (i & Hi & Hpl).
  wp_step (by apply write_instr_run). set (r2 := upd_il_store _ r1) in *.
  pose proof Hem as [[Hl1 Hlen _] _ _ (buf1 & Hbuf1 & Hem1) Hfr1]. rewrite Hlen in Hem1.
  destruct fB.
  - apply wp_bind. eapply wp_mono; [eapply (branch_loop_wp r2 raws buf1); try done; by apply emitted_patched|..|done].
    intros [fTry sb] r3 Hbi. destruct (branch_inv_relaxed _ _ _ _ Hv Hlen Hbi) as (Hrel & Hneq & Heq). cbn [fst] in *.
    destruct fTry.
    + destruct (nshort_relaxed raws (contents r3) Hv Hrel) as [_ Hlt]. specialize (Hlt (Hneq eq_refl)).
      destruct (bi_buffer _ _ _ _ _ Hbi) as (buf3 & Hbuf3 & _).
      pose proof (bi_frame _ _ _ _ _ Hbi) as Hfr3. change (eframe r2) with (eframe r1) in Hfr3.
      eapply wp_mono; [eapply (IH (contents r3) r3 buf3)|..|done]; try done.
      * by eapply exportable_relaxed.
      * apply laid_contents, Hbi.
      * congruence.
      * lia.
      * cbv beta. intros n r' (raws' & buf' & Hcr & _). exists raws', buf'.
        split; [by apply (code_ready_trans r0 r0 raws (contents r3))|]. intros Hall.
        destruct (bi_try _ _ _ _ _ Hbi eq_refl) as (j & p & it & _ & _ & _ & _ & Hnf).
        destruct (Hnf (Hall r2 j Hpl)).
    + eapply wp_run; [done|]. exists raws.
      assert (off = code_size raws) as ->.
      { destruct Hpl as [_ HIL]. unfold node_offset in HIL. cbn in HIL. rewrite lookup_insert_eq in HIL. done. }
      destruct (branch_inv_ready r0 r2 raws sb r3) as [buf3 Hcr]; try done. by exists buf3.
  - eapply wp_run; [done|]. exists raws.
    destruct (emit_inv_ready r0 raws off r1 i) as [buf3 Hcr]; try done. by exists buf3.
Qed.
End Layout.

(** ** Correctness of the method body *)

(** The contract of the memory the environment hands out. *)
Record env_ok (env : clr_env) : Prop := {
  env_heap_length : ∀ n, 0 ≤ n → Z.of_nat (length (env_heap env n)) = n;
  env_il_alloc_length : ∀ n m, 0 ≤ n → env_il_alloc env n = Some m → Z.of_nat (length m) = n;
}.

Definition clause_wf (l : list Z) (c : EHClause) : Prop :=
  m_pTryBegin c ∈ m_IL :: l ∧ m_pTryEnd c ∈ m_IL :: l ∧ m_pHandlerBegin c ∈ m_IL :: l ∧
  m_pHandlerEnd c ∈ m_IL :: l ∧
  (Z.land (m_Flags c) COR_ILEXCEPTION_CLAUSE_FILTER ≠ 0 → m_Class c ∈ m_IL :: l).

(** A clause at the offsets of the instructions it names; the handler ends where the instruction
    after its last one begins. *)
Definition clause_bytes (r : ILRewriter) (c : EHClause) : list Z :=
  let off := node_offset r in
  le_bytes 4 (m_Flags c) ++
  le_bytes 4 (off (m_pTryBegin c)) ++
  le_bytes 4 (off (m_pTryEnd c) - off (m_pTryBegin c)) ++
  le_bytes 4 (off (m_pHandlerBegin c)) ++
  le_bytes 4 (off (default 0 (nxt (il_store r) (m_pHandlerEnd c))) - off (m_pHandlerBegin c)) ++
  le_bytes 4 (if decide (Z.land (m_Flags c) COR_ILEXCEPTION_CLAUSE_FILTER = 0)
              then u32 (m_Class c) else off (m_Class c)).

Lemma node_offset_read r p i : il_store r !! p = Some i → m_offset i = node_offset r p.
Proof. intros H. unfold node_offset. by rewrite H. Qed.

Lemma length_clause_bytes r c : length (clause_bytes r c) = 24%nat.
Proof. unfold clause_bytes. by rewrite !length_app, !length_le_bytes. Qed.

Lemma chain_next_store r l p i : il_list r l → p ∈ m_IL :: l → il_store r !! p = Some i →
  is_Some (il_store r !! m_pNext i).
Proof.
  intros Hl Hp Hi. pose proof Hl as (_ & Hc & _).
  assert (∃ l2, m_pNext i = default m_IL (head l2) ∧ ∀ q, q ∈ l2 → q ∈ m_IL :: l) as (l2 & -> & Hsub).
  { apply elem_of_cons in Hp as [->|Hp].
    - exists l. split; [|set_solver]. apply chain_nxt_start in Hc. unfold nxt in Hc. rewrite Hi in Hc. by injection Hc.
    - apply list_elem_of_split in Hp as (l1 & l2 & ->). exists l2. split; [|set_solver].
      apply chain_app in Hc as [_ Hc]. apply chain_nxt_start in Hc. unfold nxt in Hc. rewrite Hi in Hc. by injection Hc. }
  eapply il_list_store; [done|]. destruct l2; simpl; [left|]. apply Hsub. left.
Qed.

Lemma Export_clause_run r l c :
  il_list r l → clause_wf l c → Export_clause c r = (Ret (clause_bytes r c), r).
Proof.
  intros Hl (H1 & H2 & H3 & H4 & H5). unfold Export_clause.
  destruct (il_list_store _ _ _ Hl H1) as [i1 Hi1]. destruct (il_list_store _ _ _ Hl H2) as [i2 Hi2].
  destruct (il_list_store _ _ _ Hl H3) as [i3 Hi3]. destruct (il_list_store _ _ _ Hl H4) as [i4 Hi4].
  destruct (chain_next_store _ _ _ _ Hl H4 Hi4) as [i5 Hi5].
  do 5 (run_by (by apply read_instr_run)).
  assert (Hnx : default 0 (nxt (il_store r) (m_pHandlerEnd c)) = m_pNext i4) by (unfold nxt; by rewrite Hi4).
  unfold clause_bytes. rewrite Hnx.
  rewrite (node_offset_read _ _ _ Hi1), (node_offset_read _ _ _ Hi2), (node_offset_read _ _ _ Hi3),
    (node_offset_read _ _ _ Hi5).
  case_decide as Hf; [by run_by (done)|].
  destruct (il_list_store _ _ _ Hl (H5 Hf)) as [i6 Hi6].
  run_by (by run_by (by apply read_instr_run)). by rewrite (node_offset_read _ _ _ Hi6).
Qed.

Lemma Export_clauses_run r l cs :
  il_list r l → m_pEH r = Some cs → Forall (clause_wf l) cs → ∀ m j pre rest,
  (j + m = length cs)%nat → length rest = (24 * m)%nat →
  Export_clauses (seq j m) (length pre) (pre ++ rest) r =
    (Ret (pre ++ concat (clause_bytes r <$> drop j cs)), r).
Proof.
  intros Hl Hcs Hwf m. induction m as [|m IH]; intros j pre rest Hj Hrest; cbn [seq Export_clauses].
  - rewrite drop_ge by lia. destruct rest; [|done]. done.
  - run_by (done). rewrite Hcs. run_by (done).
    destruct (lookup_lt_is_Some_2 cs j) as [c Hc]; [lia|]. rewrite Hc. run_by (done).
    run_by (apply (Export_clause_run r l); [done|by apply (Forall_lookup_1 _ _ _ _ Hwf Hc)]).
    pose proof (upd_range_append pre rest (clause_bytes r c) 0) as Hu.
    rewrite length_clause_bytes, Nat.add_0_r in Hu. rewrite Hu by lia. run_by (done).
    cbn [take app]. replace (length pre + 24)%nat with (length (pre ++ clause_bytes r c))
      by (rewrite length_app, length_clause_bytes; lia).
    rewrite IH by (rewrite ?length_drop; simpl; lia).
    rewrite (drop_S cs c j Hc). by rewrite fmap_cons, <-app_assoc.
Qed.

(** The exception clauses that [m_nEH] and [m_pEH] denote. *)
Definition eh_clauses (r : ILRewriter) : list EHClause := default [] (m_pEH r).

Definition eh_section (r : ILRewriter) : list Z :=
  if decide (m_nEH r = 0) then [] else sect_header (m_nEH r) ++ concat (clause_bytes r <$> eh_clauses r).

(** A method body around [code]: the header, the code, padding to a multiple of 4 (bytes the
    rewriter does not write) and the exception table. *)
Definition method_body (r : ILRewriter) (code body : list Z) : Prop :=
  let n := Z.of_nat (length code) in
  if m_fGenerateTinyHeader r then n < 64 ∧ body = tiny_header n ++ code
  else ∃ pad, Z.of_nat (length pad) = (- n) mod 4 ∧
    body = fat_header (Z.lor (Z.lor (m_flags r) (if decide (m_nEH r = 0) then 0 else CorILMethod_MoreSects))
                             CorILMethod_FatFormat) (m_maxStack r) n (m_tkLocalVarSig r) ++
           code ++ pad ++ eh_section r.

Section Body.
Context (env : clr_env) (Henv : env_ok env).
Context (l : list Z) (r : ILRewriter) (n : Z) (buf : list Z).
Context (Hl : il_list r l) (Hbuf : m_pOutputBuffer r = Some buf) (Hn : 0 ≤ n ≤ Z.of_nat (length buf)).
Context (Heh : m_nEH r = Z.of_nat (length (eh_clauses r))) (Hwf : Forall (clause_wf l) (eh_clauses r)).
Context (Htotal : n + 24 * m_nEH r < 2 ^ 32 - 32).
Let code := take (Z.to_nat n) buf.

Lemma body_code_length : Z.of_nat (length code) = n.
Proof. unfold code. rewrite length_take. lia. Qed.

Lemma AllocateILMemory_wp size :
  0 ≤ size → wp (AllocateILMemory env size) r (λ m r', r' = r ∧ Z.of_nat (length m) = size) (λ e _, e = E_OUTOFMEMORY).
Proof.
  intros Hs. unfold AllocateILMemory. wp_step (done). destruct (m_pICorProfilerFunctionControl r).
  - eapply wp_run; [done|]. split; [done|]. by apply (env_heap_length _ Henv).
  - destruct (env_il_alloc env size) eqn:E; [|done]. eapply wp_run; [done|]. split; [done|].
    by eapply (env_il_alloc_length _ Henv).
Qed.

Lemma copy_code_run pre rest :
  (length code ≤ length rest)%nat →
  copy_code (length pre) n (pre ++ rest) r = (Ret ((pre ++ code) ++ drop (length code) rest), r).
Proof.
  intros H. unfold copy_code. run_by (done). rewrite Hbuf. run_by (done). rewrite decide_True by lia.
  fold code. pose proof (upd_range_append pre rest code 0) as Hu. rewrite Nat.add_0_r in Hu.
  by rewrite Hu by lia.
Qed.

Lemma Export_tiny_wp :
  m_fGenerateTinyHeader r = true →
  wp (Export_tiny env n) r (λ body r', r' = r ∧ method_body r code body)
    (λ e _, (e = E_FAIL ∧ 64 ≤ n) ∨ e = E_OUTOFMEMORY).
Proof.
  intros Ht. unfold Export_tiny. case_decide; [by left|]. rewrite wrap_small by lia.
  apply wp_bind. eapply wp_mono; [apply AllocateILMemory_wp; lia|..|auto].
  cbv beta. intros m r' [-> Hm]. pose proof body_code_length as Hcl.
  pose proof (upd_range_append [] m (tiny_header n) 0) as Hu. simpl in Hu. rewrite Hu by lia.
  wp_step (done). eapply wp_run; [apply (copy_code_run (tiny_header n)); rewrite length_drop; lia|].
  split; [done|]. unfold method_body. rewrite Ht, Hcl. split; [lia|].
  rewrite drop_drop, drop_ge by lia. by rewrite app_nil_r.
Qed.

Lemma Export_fat_wp :
  m_fGenerateTinyHeader r = false →
  wp (Export_fat env n) r (λ body r', r' = r ∧ method_body r code body) (λ e _, e = E_OUTOFMEMORY).
Proof.
  intros Ht. unfold Export_fat. pose proof body_code_length as Hcl.
  assert (HnEH : 0 ≤ m_nEH r) by lia.
  rewrite (wrap_small 32 (n + 3)), align4 by lia. set (al := 4 * ((n + 3) / 4)).
  pose proof (Z.div_mod (n + 3) 4 ltac:(lia)) as Hdm. pose proof (Z.mod_pos_bound (n + 3) 4 ltac:(lia)) as Hmb.
  assert (Hal : n ≤ al < n + 4) by (unfold al; lia).
  assert (Hpad : al - n = (- n) mod 4).
  { apply (Z.mod_unique_pos _ _ (- ((n + 3) / 4))); unfold al in *; lia. }
  wp_step (done).
  set (eh := if decide (m_nEH r ≠ 0) then 4 + 24 * m_nEH r else 0).
  assert (Hehs : eh = if decide (m_nEH r = 0) then 0 else 4 + 24 * m_nEH r).
  { unfold eh. apply decide_ne_swap. }
  assert (Heh0 : 0 ≤ eh ≤ 4 + 24 * m_nEH r) by (rewrite Hehs; case_decide; lia).
  clearbody eh. rewrite wrap_small by lia.
  apply wp_bind. eapply wp_mono; [apply AllocateILMemory_wp; lia|..|auto].
  cbv beta. intros m r' [-> Hm].
  remember (fat_header _ _ _ _) as hdr eqn:Hh.
  assert (Hhdr : length hdr = 12%nat) by (rewrite Hh; unfold fat_header; by rewrite !length_app, !length_le_bytes).
  pose proof (upd_range_append [] m hdr 0) as Hu. simpl in Hu. rewrite Hu by lia.
  clear Hu. wp_step (done). rewrite Hhdr.
  wp_step (rewrite <-Hhdr; apply copy_code_run; rewrite length_drop; lia).
  rewrite drop_drop. set (rest := drop _ m).
  assert (Hrest : Z.of_nat (length rest) = al - n + eh) by (unfold rest; rewrite length_drop; lia).
  assert (Hpre : (12 + Z.to_nat al = length (hdr ++ code) + Z.to_nat (al - n))%nat) by (rewrite length_app; lia).
  unfold method_body. rewrite Ht, Hcl.
  assert (Hspec : ∀ body, body = (hdr ++ code) ++ take (Z.to_nat (al - n)) rest ++ eh_section r →
    ∃ pad, Z.of_nat (length pad) = (- n) mod 4 ∧
      body = fat_header (Z.lor (Z.lor (m_flags r) (if decide (m_nEH r = 0) then 0 else CorILMethod_MoreSects))
        CorILMethod_FatFormat) (m_maxStack r) n (m_tkLocalVarSig r) ++ code ++ pad ++ eh_section r).
  { intros body ->. exists (take (Z.to_nat (al - n)) rest). split.
    - rewrite length_take. lia.
    - by rewrite Hh, decide_ne_swap, <-!app_assoc. }
  destruct (decide (m_nEH r ≠ 0)) as [Hz|Hz].
  - rewrite decide_False in Hehs by done.
    assert (Hsh : length (sect_header (m_nEH r)) = 4%nat) by apply length_le_bytes.
    rewrite Hpre. rewrite (upd_range_append (hdr ++ code) rest (sect_header (m_nEH r))) by (rewrite Hsh; lia).
    wp_step (done).
    replace (length (hdr ++ code) + Z.to_nat (al - n) + 4)%nat
      with (length ((hdr ++ code) ++ take (Z.to_nat (al - n)) rest ++ sect_header (m_nEH r)))
      by (rewrite !length_app, length_take, Hsh; lia).
    destruct (m_pEH r) as [cs|] eqn:Hcs; unfold eh_clauses in *; rewrite Hcs in *; simpl in Heh; [|lia].
    eapply wp_run.
    { apply (Export_clauses_run r l cs); [done..|lia|]. rewrite length_drop, Hsh. lia. }
    split; [done|]. apply Hspec. unfold eh_section, eh_clauses. rewrite decide_False, Hcs by done.
    by rewrite drop_0, <-!app_assoc.
  - eapply wp_run; [done|]. split; [done|]. apply Hspec.
    assert (m_nEH r = 0) as Hz' by lia. unfold eh_section. rewrite decide_True, app_nil_r by done.
    rewrite take_ge; [done|]. rewrite decide_True in Hehs by done. lia.
Qed.
End Body.

(** ** Correctness of [Export] *)

(** A rewriter that can be exported: its list holds [raws], whose branches and whose exception
    clauses name instructions of the list; the counter of instructions covers the list. *)
Record rewritable (r : ILRewriter) (l : list Z) (raws : list (Z * Z)) : Prop := {
  rw_laid : laid l r raws 0;
  rw_exportable : exportable l raws;
  rw_count : Z.of_nat (length l) ≤ m_nInstrs r;
  rw_bound : 10 * m_nInstrs r + 24 * m_nEH r < 2 ^ 32 - 32;
  rw_nEH : m_nEH r = Z.of_nat (length (eh_clauses r));
  rw_clauses : Forall (clause_wf l) (eh_clauses r);
}.

(** The state after an export: the list is [raws] with some short branches made long, every node
    has its offset, and the CLR has a body made of the encoding of the list. *)
Record exported (r0 : ILRewriter) (l : list Z) (raws : list (Z * Z)) (r : ILRewriter) (raws' : list (Z * Z)) : Prop := {
  ex_relaxed : Forall2 relaxed raws raws';
  ex_placed : placed l r raws';
  ex_fits : ∀ j, fits (listing r raws') j;
  ex_body : ∃ body, il_body r = Some body ∧ method_body r (enc_code 0 0 (listing r raws')) body;
  ex_minimal : (∀ r1 j, placed l r1 raws → fits (listing r1 raws) j) → raws' = raws;
  ex_frame : eframe (upd_il_body (λ _, il_body r0) r) = eframe r0;
}.

Lemma nshort_bound raws : (nshort raws ≤ length raws)%nat.
Proof. apply length_filter. Qed.

Lemma Export_wp env r l raws :
  env_ok env → rewritable r l raws →
  wp (Export env) r (λ _ r', ∃ raws', exported r l raws r' raws')
    (λ e _, e = E_OUTOFMEMORY ∨ (e = E_FAIL ∧ m_fGenerateTinyHeader r = true) ∨ (∃ hr, e = HR hr ∧ hr < 0)).
Proof.
  intros Henv [Hlaid Hexp Hcnt Hbd HnEH Hwf]. unfold Export. wp_step (done).
  rewrite (wrap_small 32) by lia. set (maxSize := m_nInstrs r * 10).
  destruct (env_nothrow_new env maxSize); [|wp_step (done); by left]. wp_step (done).
  set (r1 := upd_m_pOutputBuffer _ r).
  assert (Hlaid1 : laid l r1 raws 0) by (destruct Hlaid; by split).
  assert (Hbuf1 : buffer maxSize r1 (env_heap env maxSize)).
  { split; [done|]. apply (env_heap_length _ Henv). lia. }
  apply wp_bind. eapply wp_mono; [apply (Export_again_wp l maxSize) with (r0 := r) (raws := raws) (buf := env_heap env maxSize)|..].
  all: try done.
  { lia. }
  { pose proof (nshort_bound raws). rewrite <-(la_len _ _ _ _ Hlaid) in *.
    pose proof (il_list_size _ _ (la_list _ _ _ _ Hlaid)). lia. }
  cbv beta. intros n r2 (raws' & buf & [H1 H2 H3 H4 H5 H6 H7 H8] & Hmin).
  wp_step (done).
  pose proof (exportable_valid _ _ H2) as Hv'. pose proof (Forall2_length _ _ _ H1) as Hll.
  assert (Hn : 0 ≤ n ≤ maxSize).
  { pose proof (offset_of_bound raws' (length raws') Hv' ltac:(lia)) as Hb. rewrite offset_of_all in Hb by lia.
    rewrite <-Hll, <-(la_len _ _ _ _ Hlaid) in Hb. unfold maxSize. lia. }
  pose proof (la_list _ _ _ _ (proj1 H3)) as Hl2.
  unfold eframe in H8.
  assert (Heq : eh_clauses r2 = eh_clauses r ∧ m_nEH r2 = m_nEH r ∧ m_fGenerateTinyHeader r2 = m_fGenerateTinyHeader r)
    by (unfold eh_clauses; split_and!; congruence).
  destruct Heq as (Heq1 & Heq2 & Heq3).
  assert (Hfin : ∀ body, method_body r2 (take (Z.to_nat n) buf) body →
    wp (SetILFunctionBody env body) r2 (λ _ r', ∃ raws', exported r l raws r' raws')
      (λ e _, e = E_OUTOFMEMORY ∨ (e = E_FAIL ∧ m_fGenerateTinyHeader r = true) ∨ (∃ hr, e = HR hr ∧ hr < 0))).
  { intros body Hbody. unfold SetILFunctionBody. case_decide; [right; right; by eexists|].
    eapply wp_run; [done|]. exists raws'. split; try done.
    - destruct H3 as [[] ?]. by split.
    - exists body. split; [done|]. rewrite H6 in Hbody. exact Hbody.
    - unfold eframe. cbn. congruence. }
  apply wp_bind. destruct (m_fGenerateTinyHeader r2) eqn:Htiny.
  - eapply wp_mono; [apply (Export_tiny_wp env Henv r2 n buf); [apply H5|rewrite (proj2 H5); lia|done]|..].
    + cbv beta. intros body r' [-> Hb]. by apply Hfin.
    + intros e s [[-> ?]| ->]; [right; left; split; congruence|by left].
  - eapply wp_mono; [apply (Export_fat_wp env Henv l r2 n buf); try done|..].
    + apply H5.
    + rewrite (proj2 H5). lia.
    + congruence.
    + by rewrite Heq1.
    + rewrite Heq2. unfold maxSize in *. lia.
    + cbv beta. intros body r' [-> Hb]. by apply Hfin.
    + intros e s ->. by left.
Qed.

(** ** Reading the headers back *)

Lemma tiny_header_decode n : 0 ≤ n < 64 →
  let b := u8 (Z.lor CorILMethod_TinyFormat (Z.shiftl n 2)) in
  Z.land b 3 = CorILMethod_TinyFormat ∧ Z.shiftr b 2 = n.
Proof.
  intros Hn. cbv zeta.
  assert (Hd : forallb (λ k, let b := u8 (Z.lor CorILMethod_TinyFormat (Z.shiftl (Z.of_nat k) 2)) in
    (Z.land b 3 =? CorILMethod_TinyFormat) && (Z.shiftr b 2 =? Z.of_nat k)) (seq 0 64) = true) by (by vm_compute).
  rewrite forallb_forall in Hd. specialize (Hd (Z.to_nat n)). rewrite Z2Nat.id in Hd by lia.
  apply andb_true_iff in Hd as [H1 H2]; [|apply in_seq; lia]. by rewrite !Z.eqb_eq in *.
Qed.

Section FatHeader.
Context (flags maxStack codeSize tk : Z).
Let h := fat_header flags maxStack codeSize tk.
Let w0 := wrap 12 flags + Z.shiftl (wrap 4 3) 12 + Z.shiftl (wrap 16 maxStack) 16.

Lemma length_fat_header : length h = 12%nat.
Proof. unfold h, fat_header. by rewrite !length_app, !length_le_bytes. Qed.

Lemma fat_header_low : slice 0 2 h = le_bytes 2 w0 ∧ slice 2 2 h = le_bytes 2 (w0 / 256 / 256).
Proof. done. Qed.

Lemma fat_header_word : w0 = flags mod 2 ^ 12 + 3 * 2 ^ 12 + (maxStack mod 2 ^ 16) * 2 ^ 16.
Proof. unfold w0, wrap. rewrite !Z.shiftl_mul_pow2 by lia. done. Qed.

Lemma fat_header_flags : 0 ≤ flags < 2 ^ 12 → le_val (slice 0 2 h) = flags + 3 * 2 ^ 12.
Proof.
  intros Hf. rewrite (proj1 fat_header_low), le_val_bytes, fat_header_word. change (8 * Z.of_nat 2) with 16.
  unfold wrap. rewrite Z_mod_plus_full, (Z.mod_small flags), Z.mod_small by lia. done.
Qed.

Lemma fat_header_maxStack : le_val (slice 2 2 h) = u16 maxStack.
Proof.
  rewrite (proj2 fat_header_low), le_val_bytes, fat_header_word. change (8 * Z.of_nat 2) with 16.
  rewrite Z.div_div by lia. change (256 * 256) with (2 ^ 16).
  pose proof (Z.mod_pos_bound flags (2 ^ 12) ltac:(lia)).
  rewrite Z.div_add, Z.div_small by lia. rewrite Z.add_0_l. fold (wrap 16 maxStack). by rewrite wrap_wrap by lia.
Qed.

Lemma fat_header_fields : 0 ≤ codeSize < 2 ^ 32 → 0 ≤ tk < 2 ^ 32 →
  le_val (slice 4 4 h) = codeSize ∧ le_val (slice 8 4 h) = tk.
Proof.
  intros. change (slice 4 4 h) with (le_bytes 4 codeSize). change (slice 8 4 h) with (le_bytes 4 tk).
  rewrite !le_val_bytes. change (8 * Z.of_nat 4) with 32. by rewrite !wrap_small.
Qed.
End FatHeader.
