(* ===== verification/ILRewriterWrapper.v ===== *)
(** * ILRewriterWrapper (il_rewriter_wrapper.h, il_rewriter_wrapper.cpp)

    The cursor through which the instrumentation emits IL.  The wrapper holds a position in the
    instruction list of its ILRewriter; each operation creates one or two instructions and links
    them in at the position.  The rewriter is the state of the monad, the position an argument. *)

From S2P Require Import Prelude ILOpcodes ILList ILEncoding ILImport ILExport.

(** The members of the class, [m_ILRewriter] being the monad's state. *)
Record ILRewriterWrapper := { m_ILInstr : Z }.

Definition ILRewriterWrapper_new : ILRewriterWrapper := {| m_ILInstr := nullptr |}.
Definition SetILPosition (pILInstr : Z) (_ : ILRewriterWrapper) : ILRewriterWrapper := {| m_ILInstr := pILInstr |}.
Definition GetCurrentILInstr (this : ILRewriterWrapper) : Z := m_ILInstr this.

(** The shape all the operations share: a new instruction, its members set by [f], linked in
    before the position. *)
Definition emit (this : ILRewriterWrapper) (f : ILInstr → ILInstr) : M Z :=
  pNewInstr ← NewILInstr;
  write_instr pNewInstr f;;
  InsertBefore (m_ILInstr this) pNewInstr;;
  mret pNewInstr.

Section Operations.
Context (this : ILRewriterWrapper).

Definition Pop : M Z := emit this (set_opcode CEE_POP).
Definition LoadNull : M Z := emit this (set_opcode CEE_LDNULL).
Definition LoadInt64 (value : Z) : M Z := emit this (set_Arg64 value ∘ set_opcode CEE_LDC_I8).

Definition LoadInt32_opcodes : list Z :=
  [CEE_LDC_I4_0; CEE_LDC_I4_1; CEE_LDC_I4_2; CEE_LDC_I4_3; CEE_LDC_I4_4;
   CEE_LDC_I4_5; CEE_LDC_I4_6; CEE_LDC_I4_7; CEE_LDC_I4_8].

Definition LoadInt32 (value : Z) : M Z :=
  pNewInstr ← NewILInstr;
  (if decide (0 ≤ value ∧ value ≤ 8) then
     opcode ← lift_option (zlookup LoadInt32_opcodes value);
     write_instr pNewInstr (set_opcode opcode)
   else if decide (-128 ≤ value ∧ value ≤ 127) then
     write_instr pNewInstr (set_opcode CEE_LDC_I4_S);;
     write_instr pNewInstr (set_Arg8 (s8 value))
   else
     write_instr pNewInstr (set_opcode CEE_LDC_I4);;
     write_instr pNewInstr (set_Arg32 value));;
  InsertBefore (m_ILInstr this) pNewInstr;;
  mret pNewInstr.

(** The shape of LoadArgument, StLocal and LoadLocal: four short opcodes, then the form with a
    byte, then the one with 16 bits. *)
Definition emit_indexed (opcodes : list Z) (op_s op_l index : Z) : M Z :=
  pNewInstr ← NewILInstr;
  (if decide (index ≤ 3) then
     opcode ← lift_option (zlookup opcodes index);
     write_instr pNewInstr (set_opcode opcode)
   else if decide (index ≤ 255) then
     write_instr pNewInstr (set_opcode op_s);;
     write_instr pNewInstr (set_Arg8 (u8 index))
   else
     write_instr pNewInstr (set_opcode op_l);;
     write_instr pNewInstr (set_Arg16 index));;
  InsertBefore (m_ILInstr this) pNewInstr;;
  mret pNewInstr.

Definition LoadArgument : Z → M Z :=
  emit_indexed [CEE_LDARG_0; CEE_LDARG_1; CEE_LDARG_2; CEE_LDARG_3] CEE_LDARG_S CEE_LDARG.
Definition StLocal : Z → M Z :=
  emit_indexed [CEE_STLOC_0; CEE_STLOC_1; CEE_STLOC_2; CEE_STLOC_3] CEE_STLOC_S CEE_STLOC.
Definition LoadLocal : Z → M Z :=
  emit_indexed [CEE_LDLOC_0; CEE_LDLOC_1; CEE_LDLOC_2; CEE_LDLOC_3] CEE_LDLOC_S CEE_LDLOC.

(** The shape of LoadArgumentRef and LoadLocalAddress: a byte or 16 bits. *)
Definition emit_address (op_s op_l index : Z) : M Z :=
  pNewInstr ← NewILInstr;
  (if decide (index ≤ 255) then
     write_instr pNewInstr (set_opcode op_s);;
     write_instr pNewInstr (set_Arg8 (u8 index))
   else
     write_instr pNewInstr (set_opcode op_l);;
     write_instr pNewInstr (set_Arg16 index));;
  InsertBefore (m_ILInstr this) pNewInstr;;
  mret pNewInstr.

Definition LoadArgumentRef : Z → M Z := emit_address CEE_LDARGA_S CEE_LDARGA.
Definition LoadLocalAddress : Z → M Z := emit_address CEE_LDLOCA_S CEE_LDLOCA.

(** The operations with a 32-bit operand. *)
Definition LoadFieldAddress (field_def : Z) (is_static : bool) : M Z :=
  emit this (set_Arg32 field_def ∘ set_opcode (if is_static then CEE_LDSFLDA else CEE_LDFLDA)).
Definition Cast (type_ref : Z) : M Z := emit this (set_Arg32 type_ref ∘ set_opcode CEE_CASTCLASS).
Definition Box (type_ref : Z) : M Z := emit this (set_Arg32 type_ref ∘ set_opcode CEE_BOX).
Definition UnboxAny (type_ref : Z) : M Z := emit this (set_Arg32 type_ref ∘ set_opcode CEE_UNBOX_ANY).

Definition UnboxAnyAfter (type_ref : Z) : M Z :=
  pNewInstr ← NewILInstr;
  write_instr pNewInstr (set_Arg32 type_ref ∘ set_opcode CEE_UNBOX_ANY);;
  InsertAfter (m_ILInstr this) pNewInstr;;
  mret pNewInstr.

Definition CreateArray (type_ref size : Z) : M unit :=
  LoadInt32 size;;
  emit this (set_Arg32 type_ref ∘ set_opcode CEE_NEWARR);;
  mret tt.

Definition CallMember (member_ref : Z) (is_virtual : bool) : M Z :=
  emit this (set_Arg32 member_ref ∘ set_opcode (if is_virtual then CEE_CALLVIRT else CEE_CALL)).
Definition Duplicate : M Z := emit this (set_opcode CEE_DUP).

Definition BeginLoadValueIntoArray (arrayIndex : Z) : M unit :=
  Duplicate;; LoadInt32 arrayIndex;; mret tt.
Definition EndLoadValueIntoArray : M Z := emit this (set_opcode CEE_STELEM_REF).

Definition LoadToken (token : Z) : M Z := emit this (set_Arg32 token ∘ set_opcode CEE_LDTOKEN).
Definition LoadObj (token : Z) : M Z := emit this (set_Arg32 token ∘ set_opcode CEE_LDOBJ).
Definition LoadStr (token : Z) : M Z := emit this (set_Arg32 token ∘ set_opcode CEE_LDSTR).
Definition Return : M Z := emit this (set_opcode CEE_RET).
Definition Rethrow : M Z := emit this (set_opcode CEE_RETHROW).
Definition EndFinally : M Z := emit this (set_opcode CEE_ENDFINALLY).
Definition NOP : M Z := emit this (set_opcode CEE_NOP).
Definition CreateInstr (opCode : Z) : M Z := emit this (set_opcode opCode).
Definition CreateInstr_arg (opCode arg : Z) : M Z := emit this (set_Arg32 arg ∘ set_opcode opCode).
Definition CreateInstr_target (opCode target : Z) : M Z := emit this (set_pTarget target ∘ set_opcode opCode).
Definition InitObj (type_ref : Z) : M Z := emit this (set_Arg32 type_ref ∘ set_opcode CEE_INITOBJ).
End Operations.

Definition ReplaceMethodCalls (old_method_ref new_method_ref : Z) : M bool :=
  il_for_each false (λ pInstr modified,
    i ← read_instr pInstr;
    if decide ((m_opcode i = CEE_CALL ∨ m_opcode i = CEE_CALLVIRT) ∧ m_Arg32 i = s32 old_method_ref) then
      write_instr pInstr (set_opcode CEE_CALL);;
      write_instr pInstr (set_Arg32 new_method_ref);;
      mret true
    else mret modified).

(** ** Insertion of a new instruction at a position *)

(** [inserted r r' l1 l2 w op arg]: [r'] is [r] with a new instruction [w] between [l1] and [l2]. *)
Record inserted (r r' : ILRewriter) (l1 l2 : list Z) (w op arg : Z) : Prop := {
  in_addr : w = il_fresh r;
  in_fresh : il_fresh r' = il_fresh r + 1;
  in_list : il_list r' (l1 ++ w :: l2);
  in_new : data (il_store r') w = Some (op, 0, arg);
  in_old : ∀ q, q ∈ l1 ++ l2 → data (il_store r') q = data (il_store r) q;
  in_frame : frame r' = frame r;
  in_nInstrs : m_nInstrs r' = u32 (m_nInstrs r + 1);
  in_maxStack : m_maxStack r' = u32 (m_maxStack r + pushes op);
}.

Section Emit.
Context (r : ILRewriter) (l1 l2 : list Z) (Hl : il_list r (l1 ++ l2)).

Lemma insert_new f op arg :
  keeps_links f → 0 ≤ op ≤ CEE_SWITCH_ARG → data_of (f ILInstr_zero) = (op, 0, arg) →
  let r2 := upd_il_store (insert (il_fresh r) (f ILInstr_zero)) (after_new r) in
  ∃ r', InsertBefore (default m_IL (head l2)) (il_fresh r) r2 = (Ret tt, r') ∧
        InsertAfter (default m_IL (last l1)) (il_fresh r) r2 = (Ret tt, r') ∧
        inserted r r' l1 l2 (il_fresh r) op arg.
Proof.
  intros Hf Hop Hd r2. destruct (il_list_after_new r _ Hl) as [Hl1 Hfr].
  assert (Hz : il_store (after_new r) !! il_fresh r = Some ILInstr_zero) by (cbn; apply lookup_insert_eq).
  pose proof (il_list_write _ _ _ f _ Hf Hz Hl1) as Hl2. fold r2 in Hl2.
  assert (Hw : il_store r2 !! il_fresh r = Some (f ILInstr_zero)) by (subst r2; cbn; apply lookup_insert_eq).
  injection Hd as Ho Hoff Ha. set (w := il_fresh r) in *.
  destruct (after_link_list r2 l1 l2 w _ Hl2 Hw Hfr) as [Hl3 Hsame].
  eexists. split_and!; [apply InsertBefore_spec; try done; by rewrite Ho|apply InsertAfter_spec; try done; by rewrite Ho|].
  split; try done.
  - rewrite Hsame. unfold data. rewrite Hw. simpl. unfold data_of. by rewrite Ho, Hoff, Ha.
  - intros q Hq. rewrite Hsame. subst r2. cbn. unfold data.
    rewrite !lookup_insert_ne; [done|..]; intros <-; apply Hfr; by right.
  - cbn. by rewrite Ho.
Qed.

(** [m] links the instruction [(op, arg)] in between [l1] and [l2], and returns it. *)
Definition emits (m : M Z) (op arg : Z) : Prop :=
  ∃ r', m r = (Ret (il_fresh r), r') ∧ inserted r r' l1 l2 (il_fresh r) op arg.

Context (this : ILRewriterWrapper) (Hpos : m_ILInstr this = default m_IL (head l2)).

(** Any way of setting the members of the new instruction. *)
Lemma emit_with (body : Z → M unit) f op arg :
  body (il_fresh r) (after_new r) =
    (Ret tt, upd_il_store (insert (il_fresh r) (f ILInstr_zero)) (after_new r)) →
  keeps_links f → 0 ≤ op ≤ CEE_SWITCH_ARG → data_of (f ILInstr_zero) = (op, 0, arg) →
  emits (p ← NewILInstr; body p;; InsertBefore (m_ILInstr this) p;; mret p) op arg.
Proof.
  intros Hb Hf Hop Hd. destruct (insert_new f op arg Hf Hop Hd) as (r' & Hr & _ & Hin).
  exists r'. split; [|done]. run_by (apply NewILInstr_run). run_by (exact Hb).
  rewrite Hpos. by run_by (exact Hr).
Qed.

Lemma set_one f :
  write_instr (il_fresh r) f (after_new r) =
    (Ret tt, upd_il_store (insert (il_fresh r) (f ILInstr_zero)) (after_new r)).
Proof. apply write_instr_run, lookup_insert_eq. Qed.

Lemma set_two f g :
  (write_instr (il_fresh r) f;; write_instr (il_fresh r) g) (after_new r) =
    (Ret tt, upd_il_store (insert (il_fresh r) (g (f ILInstr_zero))) (after_new r)).
Proof.
  run_by (apply set_one). rewrite (write_instr_run _ _ (f ILInstr_zero)) by apply lookup_insert_eq.
  by rewrite upd_il_store_twice.
Qed.

Lemma emit_emits f op arg :
  keeps_links f → 0 ≤ op ≤ CEE_SWITCH_ARG → data_of (f ILInstr_zero) = (op, 0, arg) → emits (emit this f) op arg.
Proof. intros. apply (emit_with (λ p, write_instr p f) f); [apply set_one|done..]. Qed.
End Emit.

Lemma keeps_links_compose f g : keeps_links f → keeps_links g → keeps_links (g ∘ f).
Proof. intros Hf Hg i. destruct (Hf i), (Hg (f i)). split; simpl; congruence. Qed.
#[export] Hint Resolve keeps_links_compose : il.

(** ** What the emitted instructions do (ECMA-335 III) *)

(** The constant an [ldc.i4] form pushes. *)
Definition int32_const (op arg : Z) : option Z :=
  if decide (CEE_LDC_I4_0 ≤ op ≤ CEE_LDC_I4_8) then Some (op - CEE_LDC_I4_0)
  else if decide (op = CEE_LDC_I4_S) then Some (s8 arg)
  else if decide (op = CEE_LDC_I4) then Some (s32 arg)
  else None.

(** The argument or local an instruction with forms [op0 .. op0 + 3], [op_s], [op_l] names. *)
Definition slot (op0 op_s op_l : Z) (op arg : Z) : option Z :=
  if decide (op0 ≤ op ≤ op0 + 3) then Some (op - op0)
  else if decide (op = op_s) then Some (u8 arg)
  else if decide (op = op_l) then Some (u16 arg)
  else None.

Lemma set_low_zero w v i : m_Arg i = 0 → 0 ≤ w → m_Arg (set_low w v i) = wrap w v.
Proof. intros H Hw. cbn. rewrite H. unfold wrap at 1. rewrite Z.mod_0_l by (apply Z.pow_nonzero; lia). lia. Qed.

Section Operands.
Context (r : ILRewriter) (l1 l2 : list Z) (Hl : il_list r (l1 ++ l2)).
Context (this : ILRewriterWrapper) (Hpos : m_ILInstr this = default m_IL (head l2)).

Lemma data_of_set_low op w v : 0 ≤ w → data_of (set_low w v (set_opcode op ILInstr_zero)) = (op, 0, wrap w v).
Proof. intros. unfold data_of. by rewrite set_low_zero. Qed.

Lemma LoadInt32_spec v :
  - 2 ^ 31 ≤ v < 2 ^ 31 →
  ∃ op arg, emits r l1 l2 (LoadInt32 this v) op arg ∧ int32_const op arg = Some v.
Proof.
  intros Hv. unfold LoadInt32. destruct (decide (0 ≤ v ∧ v ≤ 8)) as [H1|H1].
  - assert (zlookup LoadInt32_opcodes v = Some (CEE_LDC_I4_0 + v)) as ->.
    { assert (v = 0 ∨ v = 1 ∨ v = 2 ∨ v = 3 ∨ v = 4 ∨ v = 5 ∨ v = 6 ∨ v = 7 ∨ v = 8) as Hc by lia.
      by destruct Hc as [->|[->|[->|[->|[->|[->|[->|[->| ->]]]]]]]]. }
    exists (CEE_LDC_I4_0 + v), 0. split.
    + apply (emit_with r l1 l2 Hl this Hpos (λ p, _) (set_opcode (CEE_LDC_I4_0 + v)));
        [|auto with il|unfold CEE_SWITCH_ARG, CEE_LDC_I4_0; lia|done].
      run_by (done). apply set_one.
    + unfold int32_const. rewrite decide_True; [f_equal; lia|]. unfold CEE_LDC_I4_0, CEE_LDC_I4_8. lia.
  - destruct (decide (-128 ≤ v ∧ v ≤ 127)) as [H2|H2].
    + exists CEE_LDC_I4_S, (u8 (s8 v)). split.
      * apply (emit_with r l1 l2 Hl this Hpos (λ p, _) (set_Arg8 (s8 v) ∘ set_opcode CEE_LDC_I4_S));
          [apply set_two|by apply keeps_links_compose; auto with il|done|by apply data_of_set_low].
      * unfold int32_const. rewrite decide_False, decide_True by (unfold CEE_LDC_I4_0, CEE_LDC_I4_8, CEE_LDC_I4_S, CEE_LDC_I4; lia).
        f_equal. rewrite wrap_sgn, sgn_wrap by lia. apply sgn_small; simpl; lia.
    + exists CEE_LDC_I4, (u32 v). split.
      * apply (emit_with r l1 l2 Hl this Hpos (λ p, _) (set_Arg32 v ∘ set_opcode CEE_LDC_I4));
          [apply set_two|by apply keeps_links_compose; auto with il|done|by apply data_of_set_low].
      * unfold int32_const. rewrite decide_False, decide_False, decide_True by (unfold CEE_LDC_I4_0, CEE_LDC_I4_8, CEE_LDC_I4_S, CEE_LDC_I4; lia).
        f_equal. rewrite sgn_wrap by lia. by apply sgn_small.
Qed.

(** [op0 .. op0 + 3] are the short forms, distinct from the two others. *)
Definition indexed_forms (opcodes : list Z) (op0 op_s op_l : Z) : Prop :=
  opcodes = [op0; op0 + 1; op0 + 2; op0 + 3] ∧ 0 ≤ op0 ∧ op0 + 3 < op_s ∧ op_s < op_l ≤ CEE_SWITCH_ARG.

Lemma emit_indexed_spec opcodes op0 op_s op_l index :
  indexed_forms opcodes op0 op_s op_l → 0 ≤ index →
  ∃ op arg, emits r l1 l2 (emit_indexed this opcodes op_s op_l index) op arg ∧
            slot op0 op_s op_l op arg = Some (u16 index).
Proof.
  intros (-> & H0 & Hs & Hll) Hi. unfold emit_indexed. destruct (decide (index ≤ 3)) as [H1|H1].
  - assert (zlookup [op0; op0 + 1; op0 + 2; op0 + 3] index = Some (op0 + index)) as ->.
    { assert (index = 0 ∨ index = 1 ∨ index = 2 ∨ index = 3) as Hc by lia.
      destruct Hc as [->|[->|[->| ->]]]; [by rewrite Z.add_0_r|done..]. }
    exists (op0 + index), 0. split.
    + apply (emit_with r l1 l2 Hl this Hpos (λ p, _) (set_opcode (op0 + index))); [|auto with il|lia|done].
      run_by (done). apply set_one.
    + unfold slot. rewrite decide_True by lia. f_equal. rewrite wrap_small; lia.
  - destruct (decide (index ≤ 255)) as [H2|H2].
    + exists op_s, (u8 (u8 index)). split.
      * apply (emit_with r l1 l2 Hl this Hpos (λ p, _) (set_Arg8 (u8 index) ∘ set_opcode op_s));
          [apply set_two|by apply keeps_links_compose; auto with il|lia|by apply data_of_set_low].
      * unfold slot. rewrite decide_False, decide_True by lia. f_equal.
        rewrite !wrap_wrap, !wrap_small by lia. done.
    + exists op_l, (u16 index). split.
      * apply (emit_with r l1 l2 Hl this Hpos (λ p, _) (set_Arg16 index ∘ set_opcode op_l));
          [apply set_two|by apply keeps_links_compose; auto with il|lia|by apply data_of_set_low].
      * unfold slot. rewrite decide_False, decide_False, decide_True by lia. by rewrite wrap_wrap by lia.
Qed.

Lemma emit_address_spec op_s op_l index :
  0 ≤ op_s < op_l → op_l ≤ CEE_SWITCH_ARG → 0 ≤ index →
  ∃ op arg, emits r l1 l2 (emit_address this op_s op_l index) op arg ∧
            slot (-4) op_s op_l op arg = Some (u16 index).
Proof.
  intros Hs Hll Hi. unfold emit_address. destruct (decide (index ≤ 255)) as [H2|H2].
  - exists op_s, (u8 (u8 index)). split.
    + apply (emit_with r l1 l2 Hl this Hpos (λ p, _) (set_Arg8 (u8 index) ∘ set_opcode op_s));
        [apply set_two|by apply keeps_links_compose; auto with il|lia|by apply data_of_set_low].
    + unfold slot. rewrite decide_False, decide_True by lia. f_equal.
      rewrite !wrap_wrap, !wrap_small by lia. done.
  - exists op_l, (u16 index). split.
    + apply (emit_with r l1 l2 Hl this Hpos (λ p, _) (set_Arg16 index ∘ set_opcode op_l));
        [apply set_two|by apply keeps_links_compose; auto with il|lia|by apply data_of_set_low].
    + unfold slot. rewrite decide_False, decide_False, decide_True by lia. by rewrite wrap_wrap by lia.
Qed.
End Operands.

(** ** [ReplaceMethodCalls] as a map over the sequence *)

Definition calls (old_method_ref : Z) (it : Z * Z) : bool :=
  bool_decide ((it.1 = CEE_CALL ∨ it.1 = CEE_CALLVIRT) ∧ s32 it.2 = s32 old_method_ref).

Definition replace_call (old_method_ref new_method_ref : Z) (it : Z * Z) : Z * Z :=
  if calls old_method_ref it then (CEE_CALL, it.2 - u32 it.2 + u32 new_method_ref) else it.

Section Replace.
Context (l : list Z) (raws : list (Z * Z)) (old new : Z) (r0 : ILRewriter).

Record replace_inv (l1 : list Z) (modified : bool) (r : ILRewriter) : Prop := {
  ri_list : il_list r l;
  ri_len : length l = length raws;
  ri_items : ∀ j p it, l !! j = Some p → raws !! j = Some it →
    item r p (if decide (j < length l1)%nat then replace_call old new it else it);
  ri_modified : modified = existsb (calls old) (take (length l1) raws);
  ri_frame : (frame r, m_nInstrs r, m_maxStack r) = (frame r0, m_nInstrs r0, m_maxStack r0);
}.

Lemma replace_step l1 p l2 modified r :
  l = l1 ++ p :: l2 → replace_inv l1 modified r →
  wp (i ← read_instr p;
      if decide ((m_opcode i = CEE_CALL ∨ m_opcode i = CEE_CALLVIRT) ∧ m_Arg32 i = s32 old) then
        write_instr p (set_opcode CEE_CALL);; write_instr p (set_Arg32 new);; mret true
      else mret modified) r (replace_inv (l1 ++ [p])) (λ _ _, False).
Proof.
  intros Hl [Hr Hlen Hit Hm Hfr].
  assert (Hp : l !! length l1 = Some p) by (rewrite Hl; by apply list_lookup_middle).
  destruct (lookup_lt_is_Some_2 raws (length l1)) as [[op a] Hop]; [rewrite <-Hlen; by eapply lookup_lt_Some|].
  destruct (Hit _ _ _ Hp Hop) as [off Hd]. rewrite decide_False in Hd by lia. cbn [fst snd] in Hd.
  destruct (data_Some _ _ _ Hd) as (i & Hi & [= Hio Hioff Hia]).
  wp_step (by apply read_instr_run). unfold m_Arg32. rewrite Hio, Hia.
  assert (Hk1 : length (l1 ++ [p]) = S (length l1)) by (rewrite length_app; simpl; lia).
  assert (Hnd : ∀ j, l !! j = Some p → j = length l1).
  { intros j Hj. destruct Hr as (Hnd & _). apply NoDup_cons in Hnd as [_ Hnd]. by eapply NoDup_lookup. }
  assert (Hex : ∀ b, b = calls old (op, a) || modified →
    b = existsb (calls old) (take (S (length l1)) raws)).
  { intros b ->. erewrite take_S_r by done. rewrite existsb_app, Hm. simpl. by rewrite orb_false_r, orb_comm. }
  case_decide as Hc.
  - assert (Hcl : calls old (op, a) = true) by (by apply bool_decide_eq_true).
    wp_step (by apply write_instr_run). wp_step (apply write_instr_run, lookup_insert_eq).
    eapply wp_run; [done|]. rewrite upd_il_store_twice.
    change (set_Arg32 new (set_opcode CEE_CALL i)) with ((set_Arg32 new ∘ set_opcode CEE_CALL) i).
    split; rewrite ?Hk1; try done.
    + apply il_list_write; [by apply keeps_links_compose; auto with il|done..].
    + intros j q it Hq Hj. unfold item. rewrite (data_write r p _ i) by done. case_decide as E.
      * subst q. pose proof (Hnd _ Hq) as ->. assert (it = (op, a)) as -> by congruence.
        rewrite decide_True by lia. unfold replace_call. rewrite Hcl. cbn [fst snd].
        exists off. unfold data_of. cbn. by rewrite Hioff, Hia.
      * destruct (Hit _ _ _ Hq Hj) as [o Ho]. exists o. rewrite Ho.
        assert (j ≠ length l1) by congruence.
        destruct (decide (j < length l1)%nat), (decide (j < S (length l1))%nat); done || lia.
    + apply Hex. by rewrite Hcl.
  - assert (Hcl : calls old (op, a) = false) by (by apply bool_decide_eq_false).
    eapply wp_run; [done|]. split; rewrite ?Hk1; try done.
    + intros j q it Hq Hj. destruct (Hit _ _ _ Hq Hj) as [o Ho]. exists o. rewrite Ho.
      destruct (decide (j = length l1)) as [->|].
      * assert (it = (op, a)) as -> by congruence. unfold replace_call. rewrite Hcl.
        by destruct (decide (length l1 < length l1)%nat), (decide (length l1 < S (length l1))%nat).
      * destruct (decide (j < length l1)%nat), (decide (j < S (length l1))%nat); done || lia.
    + apply Hex. by rewrite Hcl.
Qed.

Lemma ReplaceMethodCalls_wp :
  il_list r0 l → Forall2 (item r0) l raws →
  wp (ReplaceMethodCalls old new) r0
    (λ modified r, il_list r l ∧ Forall2 (item r) l (replace_call old new <$> raws) ∧
       modified = existsb (calls old) raws ∧
       (frame r, m_nInstrs r, m_maxStack r) = (frame r0, m_nInstrs r0, m_maxStack r0)) (λ _ _, False).
Proof.
  intros Hl Hits. pose proof (Forall2_length _ _ _ Hits) as Hlen. unfold ReplaceMethodCalls.
  eapply wp_mono; [apply (il_for_each_wp _ l replace_inv (λ _ _, False))|..|done].
  - by intros l1 acc r [].
  - intros l1 p l2 acc r Hl' Hinv. by eapply replace_step.
  - split; try done. intros j p it Hp Hit. rewrite decide_False by (simpl; lia). by eapply Forall2_lookup_lr.
  - intros m r [Hr _ Hit Hm Hfr]. split_and!; try done; [|by rewrite Hm, take_ge by lia].
    apply Forall2_same_length_lookup_2; [by rewrite length_fmap|]. intros j p it Hp Hj.
    rewrite list_lookup_fmap in Hj. destruct (raws !! j) as [it'|] eqn:Hj'; simplify_eq/=.
    specialize (Hit _ _ _ Hp Hj'). by rewrite decide_True in Hit by (by eapply lookup_lt_Some).
Qed.
End Replace.
