(* ===== verification/ILRewriterSpec.v ===== *)
(** * What ILRewriter guarantees

    The correctness properties of importing, editing and exporting a method body, each with an
    instance on a concrete method. *)

From S2P Require Import Prelude ILOpcodes ILList ILEncoding ILImport ILExport ILRewriterWrapper.

(** ** From an imported method to its export *)

Section RoundTrip.
Context (d : COR_ILMETHOD_DECODER) (Hd : decoder_ok d).
Context (r : ILRewriter) (l : list Z) (its : list (Z * Z)) (Him : method_imported d r l its).
Let raws := contents l r.

Lemma imported_node j p it :
  l !! j = Some p → its !! j = Some it → ∃ a, raws !! j = Some (it.1, a) ∧
    if is_branch it.1 then target_at l its it.2 a else a = it.2.
Proof.
  intros Hp Hit. destruct (Forall2_lookup_lr _ _ _ _ _ _ (mi_items _ _ _ _ Him) Hp Hit) as (off & a & Hda & Ha).
  exists a. split; [|done]. unfold raws, contents. rewrite list_lookup_fmap, Hp. simpl.
  by destruct (data_Some _ _ _ Hda) as (i & -> & [= -> _ ->]).
Qed.

Lemma imported_lengths : length l = length its ∧ length raws = length l.
Proof.
  split; [by eapply Forall2_length, Him|]. unfold raws, contents. by rewrite length_fmap.
Qed.

Lemma imported_fst : raws.*1 = its.*1.
Proof.
  destruct imported_lengths as [H1 H2]. apply list_eq. intros j. rewrite !list_lookup_fmap.
  destruct (its !! j) as [it|] eqn:Hit.
  - destruct (lookup_lt_is_Some_2 l j) as [p Hp]; [rewrite H1; by eapply lookup_lt_Some|].
    by destruct (imported_node _ _ _ Hp Hit) as (a & -> & _).
  - apply lookup_ge_None in Hit. by rewrite lookup_ge_None_2 by lia.
Qed.

(** In any layout of the list, the instruction at an offset of the original code has that
    offset again. *)
Lemma placed_target r1 o p : placed l r1 raws → target_at l its o p → node_offset r1 p = o.
Proof.
  intros [[Hl Hlen Hitem] HIL] [[-> ->]|(k & Hk & ->)].
  - rewrite HIL. apply code_size_fst, imported_fst.
  - destruct (lookup_lt_is_Some_2 raws k) as [it Hit]; [rewrite <-Hlen; by eapply lookup_lt_Some|].
    destruct (Hitem _ _ _ Hk Hit) as (off & Hda & Hoff).
    destruct (data_Some _ _ _ Hda) as (i & Hi & [= _ Hio _]).
    unfold node_offset. rewrite Hi. simpl. rewrite Hio, Hoff by (by eapply lookup_lt_Some).
    apply offset_of_fst, imported_fst.
Qed.

Lemma placed_listing r1 : placed l r1 raws → listing r1 raws = its.
Proof.
  intros Hpl. destruct imported_lengths as [H1 H2]. apply list_eq. intros j.
  destruct (its !! j) as [[op arg]|] eqn:Hit.
  - destruct (lookup_lt_is_Some_2 l j) as [p Hp]; [rewrite H1; by eapply lookup_lt_Some|].
    destruct (imported_node _ _ _ Hp Hit) as (a & Ha & Harg). cbn [fst snd] in *.
    rewrite (listing_lookup_2 _ _ _ _ _ Ha). destruct (is_branch op); [|by subst].
    by rewrite (placed_target _ _ _ Hpl Harg).
  - apply lookup_ge_None in Hit. rewrite lookup_ge_None_2; [done|]. unfold listing. rewrite length_fmap. lia.
Qed.

Lemma imported_exportable : exportable l raws.
Proof.
  destruct imported_lengths as [H1 H2]. apply Forall_lookup. intros j [op a] Ha. cbn [fst snd].
  destruct (lookup_lt_is_Some_2 l j) as [p Hp]; [rewrite <-H2; by eapply lookup_lt_Some|].
  destruct (lookup_lt_is_Some_2 its j) as [it Hit]; [rewrite <-H1; by eapply lookup_lt_Some|].
  destruct (imported_node _ _ _ Hp Hit) as (a' & Ha' & Harg). rewrite Ha in Ha'. injection Ha' as -> ->.
  split; [by apply (Forall_lookup_1 _ _ _ _ (mi_valid _ _ _ _ Him) Hit)|].
  intros Hb. rewrite Hb in Harg. by eapply target_at_elem.
Qed.

Lemma prv_elem p q : p ∈ m_IL :: l → prv (il_store r) p = Some q → q ∈ m_IL :: l ∧ nxt (il_store r) q = Some p.
Proof.
  intros Hp Hq. pose proof (mi_list _ _ _ _ Him) as (_ & Hc & _).
  apply elem_of_cons in Hp as [->|Hp].
  - pose proof (chain_prv_end _ _ _ _ Hc) as He. rewrite He in Hq. injection Hq as <-.
    destruct (decide (l = [])) as [->|Hne]; [split; [left|apply Hc]|].
    destruct (exists_last Hne) as (l' & x & Hx). rewrite Hx in *. rewrite last_snoc. simpl.
    split; [right; apply elem_of_app; right; left|]. apply chain_app in Hc as [_ Hc]. apply Hc.
  - apply list_elem_of_split in Hp as (l1 & l2 & Hl). rewrite Hl in *. apply chain_app in Hc as [Hc _].
    pose proof (chain_prv_end _ _ _ _ Hc) as He. rewrite He in Hq. injection Hq as <-.
    destruct (decide (l1 = [])) as [->|Hne]; [split; [left|apply Hc]|].
    destruct (exists_last Hne) as (l' & x & ->). rewrite last_snoc. simpl. split.
    + right. apply elem_of_app. left. apply elem_of_app. right. left.
    + apply chain_app in Hc as [_ Hc]. apply Hc.
Qed.

Lemma imported_clauses : Forall (clause_wf l) (eh_clauses r).
Proof.
  apply Forall_lookup. intros i c Hc.
  destruct (Forall2_lookup_l _ _ _ _ _ (mi_eh _ _ _ _ Him) Hc) as (eh & _ & [Hf H1 H2 H3 (p & Hp & Hprv) H5]).
  split_and!; try by eapply target_at_elem.
  - eapply prv_elem; [|done]. by eapply target_at_elem.
  - rewrite Hf. intros Hfl. rewrite decide_False in H5 by done. by eapply target_at_elem.
Qed.

Lemma imported_rewritable :
  Z.of_nat (length its) < 2 ^ 28 → Z.of_nat (length (dec_EH d)) < 2 ^ 24 → rewritable r l raws.
Proof.
  intros Hi He. destruct imported_lengths as [H1 H2]. split.
  - apply laid_contents, Him.
  - apply imported_exportable.
  - rewrite (mi_nInstrs _ _ _ _ Him), wrap_small by lia. lia.
  - rewrite (mi_nInstrs _ _ _ _ Him), (mi_nEH _ _ _ _ Him), wrap_small by lia. lia.
  - rewrite (mi_nEH _ _ _ _ Him). by rewrite <-(Forall2_length _ _ _ (mi_eh _ _ _ _ Him)).
  - apply imported_clauses.
Qed.

(** The clause as it was in the original body. *)
Definition eh_bytes (eh : COR_ILMETHOD_SECT_EH_CLAUSE_FAT) : list Z :=
  le_bytes 4 (eh_Flags eh) ++ le_bytes 4 (eh_TryOffset eh) ++ le_bytes 4 (eh_TryLength eh) ++
  le_bytes 4 (eh_HandlerOffset eh) ++ le_bytes 4 (eh_HandlerLength eh) ++ le_bytes 4 (eh_ClassToken eh).

Lemma le_bytes_len o n : le_bytes 4 (u32 (o + n) - o) = le_bytes 4 n.
Proof. apply le_bytes_wrap_eq. change (8 * Z.of_nat 4) with 32. rewrite wrap_sub_l. f_equal. lia. Qed.

Lemma imported_clause_bytes r1 c eh :
  placed l r1 raws → eh_resolved (il_store r) l its c eh → clause_bytes r1 c = eh_bytes eh.
Proof.
  intros Hpl [Hf H1 H2 H3 (p & Hp & Hprv) H5]. unfold clause_bytes, eh_bytes.
  destruct (prv_elem _ _ (target_at_elem _ _ _ _ Hp) Hprv) as [Hel Hn].
  pose proof (mi_list _ _ _ _ Him) as (_ & Hc & _). pose proof Hpl as [[(_ & Hc1 & _) _ _] _].
  rewrite <-(chain_nxt_det _ _ _ _ _ _ Hc Hc1 Hel), Hn. change (default 0 (Some p)) with p.
  rewrite (placed_target _ _ _ Hpl H1), (placed_target _ _ _ Hpl H2), (placed_target _ _ _ Hpl H3),
    (placed_target _ _ _ Hpl Hp), !le_bytes_len, Hf.
  case_decide; [by rewrite H5|]. by rewrite (placed_target _ _ _ Hpl H5).
Qed.
End RoundTrip.

Lemma length_code_size its : Forall (λ it, valid_op it.1) its → Z.of_nat (length its) ≤ code_size its.
Proof.
  induction 1 as [|it its Hop Hits IH]; [done|]. pose proof (isize_bounds it.1 Hop).
  change (code_size (it :: its)) with (isize it.1 + code_size its). simpl length. lia.
Qed.

(** ** Properties *)

(** C1: importing a method always returns and never reads outside the code: it either rejects
    the method ([COR_E_INVALIDPROGRAM], or out of memory), or builds a list whose listing encodes
    to exactly the method's code, with every switch followed by its number of cases, every branch
    and every exception clause pointing to the instruction that starts at the offset it named. *)
Theorem Import_decodes nothrow_new EHClause_uninit d fc tk :
  decoder_ok d →
  wp (Import nothrow_new EHClause_uninit d) (ILRewriter_new fc tk)
    (λ _ r, ∃ l its, method_imported d r l its)
    (λ e _, e = COR_E_INVALIDPROGRAM ∨ (e = E_OUTOFMEMORY ∧ ∃ size, nothrow_new size = false)).
Proof. intros Hd. by apply Import_wp. Qed.

(** C2: exporting a rewriter whose branches and clauses name instructions of its list always
    returns, never writes outside its buffers, and hands the CLR a body made of the header, the
    encoding of the list with every branch at its target's final offset, and the exception table
    at the final offsets; the only changes to the list are short branches made long, every short
    branch left fits its byte, and none is made long if all fit. *)
Theorem Export_encodes env r l raws :
  env_ok env → rewritable r l raws →
  wp (Export env) r (λ _ r', ∃ raws', exported r l raws r' raws')
    (λ e _, e = E_OUTOFMEMORY ∨ (e = E_FAIL ∧ m_fGenerateTinyHeader r = true) ∨ (∃ hr, e = HR hr ∧ hr < 0)).
Proof. apply Export_wp. Qed.

Section RoundTripProof.
Context (env : clr_env) (d : COR_ILMETHOD_DECODER) (Henv : env_ok env) (Hd : decoder_ok d).

Definition roundtrip_body (its : list (Z * Z)) (pad : list Z) : list Z :=
  let nEH := Z.of_nat (length (dec_EH d)) in
  fat_header (Z.lor (Z.lor (Z.land (dec_Flags d) CorILMethod_InitLocals)
                           (if decide (nEH = 0) then 0 else CorILMethod_MoreSects)) CorILMethod_FatFormat)
             (u32 (dec_MaxStack d + pushes_of its)) (dec_CodeSize d) (dec_LocalVarSigTok d) ++
  take (Z.to_nat (dec_CodeSize d)) (dec_Code d) ++ pad ++
  (if decide (nEH = 0) then [] else sect_header nEH ++ concat (eh_bytes <$> dec_EH d)).

Lemma exported_roundtrip r l its r' raws' :
  method_imported d r l its → exported r l (contents l r) r' raws' →
  ∃ pad, Z.of_nat (length pad) = (- dec_CodeSize d) mod 4 ∧ il_body r' = Some (roundtrip_body its pad).
Proof.
  intros Him [Hrel Hpl _ (body & Hbody & Hmb) Hmin Hfr].
  assert (raws' = contents l r) as ->.
  { apply Hmin. intros r1 j Hpl1. rewrite (placed_listing _ _ _ _ Him _ Hpl1). intros op arg. apply (mi_short _ _ _ _ Him). }
  rewrite (placed_listing _ _ _ _ Him _ Hpl), (mi_code _ _ _ _ Him) in Hmb.
  unfold eframe in Hfr. cbn in Hfr. injection Hfr as _ Htk Hfl Htiny Hn Hp Hms _.
  assert (Hcl : Z.of_nat (length (take (Z.to_nat (dec_CodeSize d)) (dec_Code d))) = dec_CodeSize d).
  { rewrite length_take. destruct Hd. lia. }
  unfold method_body in Hmb. rewrite Htiny, (mi_tiny _ _ _ _ Him), Hcl in Hmb. destruct Hmb as (pad & Hpad & ->).
  exists pad. split; [done|]. rewrite Hbody. f_equal. unfold roundtrip_body, eh_section.
  rewrite Hn, Hfl, Hms, Htk, (mi_nEH _ _ _ _ Him), (mi_flags _ _ _ _ Him), (mi_maxStack _ _ _ _ Him), (mi_tk _ _ _ _ Him).
  f_equal. f_equal. f_equal. destruct (decide (Z.of_nat (length (dec_EH d)) = 0)); [done|]. f_equal. f_equal. unfold eh_clauses. rewrite Hp.
  pose proof (mi_eh _ _ _ _ Him) as Heh. revert Heh. generalize (default [] (m_pEH r)) (dec_EH d).
  intros cs ehs. induction 1 as [|c eh cs ehs Hc Hcs IH]; [done|]. rewrite !fmap_cons. f_equal; [|done].
  by eapply imported_clause_bytes.
Qed.
End RoundTripProof.

(** C9: importing a method and exporting it without edits gives the CLR the same code bytes, the
    same exception clauses, local signature token and init-locals flag; only the header's maximum
    stack differs. *)
Theorem Import_Export_roundtrip nothrow_new EHClause_uninit env d fc tk :
  decoder_ok d → env_ok env → dec_CodeSize d < 2 ^ 28 → Z.of_nat (length (dec_EH d)) < 2 ^ 24 →
  wp (Import nothrow_new EHClause_uninit d;; Export env) (ILRewriter_new fc tk)
    (λ _ r, ∃ its pad, enc_code 0 0 its = take (Z.to_nat (dec_CodeSize d)) (dec_Code d) ∧
       Z.of_nat (length pad) = (- dec_CodeSize d) mod 4 ∧ il_body r = Some (roundtrip_body d its pad))
    (λ e _, e = COR_E_INVALIDPROGRAM ∨ e = E_OUTOFMEMORY ∨ (∃ hr, e = HR hr ∧ hr < 0)).
Proof.
  intros Hd Henv Hsz Heh. apply wp_bind. eapply wp_mono; [by apply Import_wp|..].
  - cbv beta. intros [] r (l & its & Him).
    pose proof (length_code_size its (mi_valid _ _ _ _ Him)) as Hlen. rewrite (mi_size _ _ _ _ Him) in Hlen.
    eapply wp_mono; [eapply (Export_wp env r l (contents l r)); [done|eapply imported_rewritable; [done|lia|done]]|..].
    + cbv beta. intros [] r' (raws' & Hex). destruct (exported_roundtrip d Hd r l its r' raws' Him Hex) as (pad & Hp & Hb).
      exists its, pad. split_and!; [apply (mi_code _ _ _ _ Him)|done..].
    + intros e s [->|[[-> Ht]|?]]; [by auto| |by auto]. by rewrite (mi_tiny _ _ _ _ Him) in Ht.
  - intros e s [->|[-> _]]; auto.
Qed.

(** C15: [InsertBefore] and [InsertAfter] both insert the instruction into the sequence at their
    position, leave every instruction's opcode, offset and operand as it was, and add the
    opcode's pushes to the maximum stack. *)
Theorem Insert_refines_list_insert r l1 l2 w iw :
  il_list r (l1 ++ l2) → w ∉ m_IL :: l1 ++ l2 → il_store r !! w = Some iw → 0 ≤ m_opcode iw ≤ CEE_SWITCH_ARG →
  ∃ r', InsertBefore (default m_IL (head l2)) w r = (Ret tt, r') ∧
        InsertAfter (default m_IL (last l1)) w r = (Ret tt, r') ∧
        il_list r' (l1 ++ w :: l2) ∧ same_data r r' ∧
        m_maxStack r' = u32 (m_maxStack r + pushes (m_opcode iw)).
Proof.
  intros Hl Hw Hiw Hop. eexists. split_and!; [by apply InsertBefore_spec|by apply InsertAfter_spec|..].
  - by apply after_link_list.
  - by apply after_link_list.
  - done.
Qed.

(** C5: [LoadInt32] links in, at the wrapper's position, one instruction, and for every INT32
    that instruction pushes exactly the value. *)
Theorem LoadInt32_pushes r l1 l2 this v :
  il_list r (l1 ++ l2) → m_ILInstr this = default m_IL (head l2) → - 2 ^ 31 ≤ v < 2 ^ 31 →
  ∃ op arg, emits r l1 l2 (LoadInt32 this v) op arg ∧ int32_const op arg = Some v.
Proof. intros Hl Hpos Hv. by apply LoadInt32_spec. Qed.

(** The operations that take the index of an argument or local link in one instruction that
    names the index modulo 2^16: the one asked for when it is below 65536, as every index of a
    CLR method is. *)
Theorem indexed_operations_name_slot r l1 l2 this index :
  il_list r (l1 ++ l2) → m_ILInstr this = default m_IL (head l2) → 0 ≤ index →
  let names m op0 op_s op_l :=
    ∃ op arg, emits r l1 l2 (m index) op arg ∧ slot op0 op_s op_l op arg = Some (u16 index) in
  names (LoadArgument this) CEE_LDARG_0 CEE_LDARG_S CEE_LDARG ∧
  names (StLocal this) CEE_STLOC_0 CEE_STLOC_S CEE_STLOC ∧
  names (LoadLocal this) CEE_LDLOC_0 CEE_LDLOC_S CEE_LDLOC ∧
  names (LoadArgumentRef this) (-4) CEE_LDARGA_S CEE_LDARGA ∧
  names (LoadLocalAddress this) (-4) CEE_LDLOCA_S CEE_LDLOCA.
Proof.
  intros Hl Hpos Hi names. split_and!.
  - by apply emit_indexed_spec.
  - by apply emit_indexed_spec.
  - by apply emit_indexed_spec.
  - by apply emit_address_spec.
  - by apply emit_address_spec.
Qed.

(** C28: [ReplaceMethodCalls] turns exactly the calls and virtual calls of the old method into
    calls of the new one, leaves every other instruction, the order and the rest of the rewriter
    alone, and reports whether there was one. *)
Theorem ReplaceMethodCalls_maps old new r l raws :
  il_list r l → Forall2 (item r) l raws →
  wp (ReplaceMethodCalls old new) r
    (λ modified r', il_list r' l ∧ Forall2 (item r') l (replace_call old new <$> raws) ∧
       modified = existsb (calls old) raws ∧
       (frame r', m_nInstrs r', m_maxStack r') = (frame r, m_nInstrs r, m_maxStack r)) (λ _ _, False).
Proof. apply ReplaceMethodCalls_wp. Qed.

(** The fields of an exported header decode to what was put in: a tiny header to the format
    and the code size, a fat one to the flags, its size in DWORDs, the code size and the local
    signature token; the maximum stack field holds the computed maximum modulo 2^16. *)
Theorem headers_decode flags maxStack codeSize tk :
  0 ≤ flags < 2 ^ 12 → 0 ≤ codeSize < 2 ^ 32 → 0 ≤ tk < 2 ^ 32 →
  (codeSize < 64 → ∃ b, tiny_header codeSize = [b] ∧ Z.land b 3 = CorILMethod_TinyFormat ∧ Z.shiftr b 2 = codeSize) ∧
  let h := fat_header flags maxStack codeSize tk in
  length h = 12%nat ∧
  le_val (slice 0 2 h) = flags + 3 * 2 ^ 12 ∧ le_val (slice 2 2 h) = u16 maxStack ∧
  le_val (slice 4 4 h) = codeSize ∧ le_val (slice 8 4 h) = tk.
Proof.
  intros Hf Hc Ht. split.
  - intros Hc64. eexists. split; [done|]. apply tiny_header_decode. lia.
  - intros h. destruct (fat_header_fields flags maxStack codeSize tk Hc Ht) as [H1 H2].
    split_and!; [apply length_fat_header|by apply fat_header_flags|apply fat_header_maxStack|done..].
Qed.

(** ** Instances

    [br.s +1; nop; switch (0, 1); nop; nop; ceq] with one catch clause. *)

Definition sample_method : COR_ILMETHOD_DECODER := {|
  dec_LocalVarSigTok := 0x11000001;
  dec_MaxStack := 8;
  dec_Flags := 0x13;
  dec_CodeSize := 20;
  dec_Code := [0x2B; 1; 0; 0x45; 2; 0; 0; 0; 0; 0; 0; 0; 1; 0; 0; 0; 0; 0; 0xFE; 0x01];
  dec_EH := [ {| eh_Flags := 0; eh_TryOffset := 0; eh_TryLength := 3; eh_HandlerOffset := 16;
                 eh_HandlerLength := 4; eh_ClassToken := 0x02000001 |} ];
|}.

Definition sample_clause : EHClause :=
  {| m_Flags := 0; m_pTryBegin := 0; m_pTryEnd := 0; m_pHandlerBegin := 0; m_pHandlerEnd := 0; m_Class := 0 |}.

Definition sample_env : clr_env := {|
  env_nothrow_new := λ _, true;
  env_heap := λ n, replicate (Z.to_nat n) 0xCD;
  env_il_alloc := λ n, Some (replicate (Z.to_nat n) 0xCD);
  env_SetILFunctionBody := λ _, 0;
|}.

Lemma sample_method_ok : decoder_ok sample_method.
Proof.
  split; cbn [sample_method dec_CodeSize dec_Code dec_MaxStack dec_LocalVarSigTok dec_EH length].
  - lia.
  - simpl. lia.
  - repeat (apply Forall_cons; split; [lia|]). apply Forall_nil_2.
  - lia.
  - lia.
  - apply Forall_singleton. unfold eh_wf. simpl. lia.
  - simpl. lia.
Defined.

Lemma sample_env_ok : env_ok sample_env.
Proof.
  split.
  - intros n Hn. cbn [env_heap sample_env]. rewrite length_replicate. lia.
  - intros n m Hn [= <-]. rewrite length_replicate. lia.
Defined.

Definition sample_import : M unit := Import (λ _, true) sample_clause sample_method.
Definition sample_rewriter : ILRewriter := (sample_import (ILRewriter_new true 0)).2.

Lemma sample_import_returns : (sample_import (ILRewriter_new true 0)).1 = Ret tt.
Proof. vm_compute. reflexivity. Qed.

Lemma Import_decodes_witness :
  (sample_import (ILRewriter_new true 0)).1 = Ret tt ∧
  wp sample_import (ILRewriter_new true 0) (λ _ r, ∃ l its, method_imported sample_method r l its)
    (λ e _, e = COR_E_INVALIDPROGRAM ∨ (e = E_OUTOFMEMORY ∧ ∃ size : Z, true = false)).
Proof.
  split; [exact sample_import_returns|].
  exact (Import_decodes (λ _, true) sample_clause sample_method true 0 sample_method_ok).
Defined.

Lemma sample_import_wp :
  wp sample_import (ILRewriter_new true 0) (λ _ r, ∃ l its, method_imported sample_method r l its)
    (λ e _, e = COR_E_INVALIDPROGRAM ∨ (e = E_OUTOFMEMORY ∧ ∃ size : Z, true = false)).
Proof. exact (Import_wp (λ _, true) sample_clause sample_method sample_method_ok true 0). Qed.

Lemma sample_imported : ∃ l its, method_imported sample_method sample_rewriter l its.
Proof. exact (wp_Ret sample_import (ILRewriter_new true 0) _ _ tt sample_import_wp sample_import_returns). Qed.

Lemma sample_rewritable : ∃ l raws, rewritable sample_rewriter l raws.
Proof.
  destruct sample_imported as (l & its & Him). exists l, (contents l sample_rewriter).
  pose proof (length_code_size its (mi_valid _ _ _ _ Him)) as Hlen. rewrite (mi_size _ _ _ _ Him) in Hlen.
  change (dec_CodeSize sample_method) with 20 in Hlen.
  apply (imported_rewritable sample_method sample_rewriter l its Him); [lia|].
  change (length (dec_EH sample_method)) with 1%nat. lia.
Qed.

Lemma Export_encodes_witness : ∃ l raws,
  wp (Export sample_env) sample_rewriter (λ _ r', ∃ raws', exported sample_rewriter l raws r' raws')
    (λ e _, e = E_OUTOFMEMORY ∨ (e = E_FAIL ∧ m_fGenerateTinyHeader sample_rewriter = true) ∨ (∃ hr, e = HR hr ∧ hr < 0)).
Proof.
  destruct sample_rewritable as (l & raws & Hrw). exists l, raws.
  exact (Export_encodes sample_env sample_rewriter l raws sample_env_ok Hrw).
Defined.

Lemma Import_Export_roundtrip_witness :
  ((sample_import;; Export sample_env) (ILRewriter_new true 0)).1 = Ret tt ∧
  wp (sample_import;; Export sample_env) (ILRewriter_new true 0)
    (λ _ r, ∃ its pad, enc_code 0 0 its = dec_Code sample_method ∧
       Z.of_nat (length pad) = 0 ∧ il_body r = Some (roundtrip_body sample_method its pad))
    (λ e _, e = COR_E_INVALIDPROGRAM ∨ e = E_OUTOFMEMORY ∨ (∃ hr, e = HR hr ∧ hr < 0)).
Proof.
  split; [by vm_compute|].
  exact (Import_Export_roundtrip (λ _, true) sample_clause sample_env sample_method true 0
           sample_method_ok sample_env_ok eq_refl eq_refl).
Defined.

Lemma Insert_refines_list_insert_witness :
  let r := after_new (ILRewriter_new true 0) in
  ∃ r', InsertBefore m_IL 2 r = (Ret tt, r') ∧ InsertAfter m_IL 2 r = (Ret tt, r') ∧
        il_list r' [2] ∧ same_data r r' ∧ m_maxStack r' = u32 (0 + pushes CEE_NOP).
Proof.
  destruct (il_list_after_new (ILRewriter_new true 0) [] (ILRewriter_new_list true 0)) as [Hl Hw].
  exact (Insert_refines_list_insert (after_new (ILRewriter_new true 0)) [] [] 2 ILInstr_zero Hl Hw
           eq_refl ltac:(by vm_compute)).
Defined.

(** A rewriter with one [call 0x0A000001] in its list. *)
Definition sample_call_rewriter : ILRewriter :=
  (CreateInstr_arg (SetILPosition m_IL ILRewriterWrapper_new) CEE_CALL 0x0A000001 (ILRewriter_new true 0)).2.

Lemma sample_call : emits (ILRewriter_new true 0) [] []
  (CreateInstr_arg (SetILPosition m_IL ILRewriterWrapper_new) CEE_CALL 0x0A000001) CEE_CALL 0x0A000001.
Proof. by apply (emit_emits _ [] [] (ILRewriter_new_list true 0)). Qed.

Lemma sample_call_list : il_list sample_call_rewriter [2] ∧ Forall2 (item sample_call_rewriter) [2] [(CEE_CALL, 0x0A000001)].
Proof.
  unfold sample_call_rewriter. destruct sample_call as (r' & -> & Hin). split; [exact (in_list _ _ _ _ _ _ _ Hin)|].
  apply Forall2_cons. split; [|done]. exists 0. exact (in_new _ _ _ _ _ _ _ Hin).
Qed.

Lemma LoadInt32_pushes_witness :
  ∃ op arg, emits (ILRewriter_new true 0) [] []
    (LoadInt32 (SetILPosition m_IL ILRewriterWrapper_new) (-200)) op arg ∧ int32_const op arg = Some (-200).
Proof.
  exact (LoadInt32_pushes (ILRewriter_new true 0) [] [] (SetILPosition m_IL ILRewriterWrapper_new) (-200)
           (ILRewriter_new_list true 0) eq_refl ltac:(lia)).
Defined.

Lemma indexed_operations_name_slot_witness :
  ∃ op arg, emits (ILRewriter_new true 0) [] [] (LoadArgument (SetILPosition m_IL ILRewriterWrapper_new) 300) op arg ∧
            slot CEE_LDARG_0 CEE_LDARG_S CEE_LDARG op arg = Some 300.
Proof.
  exact (proj1 (indexed_operations_name_slot (ILRewriter_new true 0) [] []
           (SetILPosition m_IL ILRewriterWrapper_new) 300 (ILRewriter_new_list true 0) eq_refl ltac:(lia))).
Defined.

Lemma ReplaceMethodCalls_maps_witness :
  wp (ReplaceMethodCalls 0x0A000001 0x0A000002) sample_call_rewriter
    (λ modified r', il_list r' [2] ∧ Forall2 (item r') [2] [(CEE_CALL, 0x0A000002)] ∧ modified = true ∧
       (frame r', m_nInstrs r', m_maxStack r') =
       (frame sample_call_rewriter, m_nInstrs sample_call_rewriter, m_maxStack sample_call_rewriter)) (λ _ _, False).
Proof.
  exact (ReplaceMethodCalls_maps 0x0A000001 0x0A000002 sample_call_rewriter [2] [(CEE_CALL, 0x0A000001)]
           (proj1 sample_call_list) (proj2 sample_call_list)).
Defined.

Lemma headers_decode_witness :
  (∃ b, tiny_header 63 = [b] ∧ Z.land b 3 = CorILMethod_TinyFormat ∧ Z.shiftr b 2 = 63) ∧
  le_val (slice 2 2 (fat_header 0x13 65544 63 0x11000001)) = 8.
Proof.
  pose proof (headers_decode 0x13 65544 63 0x11000001 ltac:(lia) ltac:(lia) ltac:(lia)) as [H1 (_ & _ & H2 & _)].
  split; [apply H1; lia|exact H2].
Defined.
