(* ===== verification/Utf.v ===== *)
(** * UTF-8 and UTF-16 conversion (miniutf.hpp, miniutf.cpp; ToString and ToWSTRING of
    string_utils.cpp on the platforms that use it)

    Strings are sequences of code units: bytes for UTF-8, 16-bit units for UTF-16.  Reading index
    [length s] of a std::string yields its terminating NUL, reading further is [Stuck].  The main
    results: no conversion reads behind the terminator, encoding and decoding are inverse, and
    the conversions between the two forms are inverse on well-formed text. *)

From S2P Require Import Prelude.

(** [str[i]] of a std::basic_string. *)
Definition str_at (str : list Z) (i : nat) : outcome unit Z :=
  match str !! i with
  | Some c => Ret c
  | None => if decide (i = length str) then Ret 0 else Stuck
  end.

(** ** Encoding *)

Definition utf8_encode (pt : Z) : list Z :=
  if decide (pt < 0x80) then [u8 pt]
  else if decide (pt < 0x800) then
    [u8 (Z.lor (Z.shiftr pt 6) 0xC0); u8 (Z.lor (Z.land pt 0x3F) 0x80)]
  else if decide (pt < 0x10000) then
    [u8 (Z.lor (Z.shiftr pt 12) 0xE0); u8 (Z.lor (Z.land (Z.shiftr pt 6) 0x3F) 0x80);
     u8 (Z.lor (Z.land pt 0x3F) 0x80)]
  else if decide (pt < 0x110000) then
    [u8 (Z.lor (Z.shiftr pt 18) 0xF0); u8 (Z.lor (Z.land (Z.shiftr pt 12) 0x3F) 0x80);
     u8 (Z.lor (Z.land (Z.shiftr pt 6) 0x3F) 0x80); u8 (Z.lor (Z.land pt 0x3F) 0x80)]
  else [0xEF; 0xBF; 0xBD].

Definition utf16_encode (pt : Z) : list Z :=
  if decide (pt < 0x10000) then [u16 pt]
  else if decide (pt < 0x110000) then
    [u16 (Z.shiftr (pt - 0x10000) 10 + 0xD800); u16 (Z.land pt 0x3FF + 0xDC00)]
  else [0xFFFD].

(** ** Decoding *)

(** [offset_pt]; [None] is [invalid_pt]. *)
Definition offset_pt : Type := option (nat * Z).

Definition is_cont (b : Z) : bool := bool_decide (Z.land b 0xC0 = 0x80).

Definition utf8_decode_check (str : list Z) (i : nat) : outcome unit offset_pt :=
  b0 ← str_at str i;
  if decide (b0 < 0x80) then mret (Some (1%nat, b0))
  else if decide (b0 < 0xC0) then mret None
  else if decide (b0 < 0xE0) then
    b1 ← str_at str (i + 1);
    if negb (is_cont b1) then mret None
    else
      let pt := Z.lor (Z.shiftl (Z.land b0 0x1F) 6) (Z.land b1 0x3F) in
      if decide (pt < 0x80) then mret None else mret (Some (2%nat, pt))
  else if decide (b0 < 0xF0) then
    b1 ← str_at str (i + 1);
    if negb (is_cont b1) then mret None
    else
      b2 ← str_at str (i + 2);
      if negb (is_cont b2) then mret None
      else
        let pt := Z.lor (Z.lor (Z.shiftl (Z.land b0 0x0F) 12) (Z.shiftl (Z.land b1 0x3F) 6)) (Z.land b2 0x3F) in
        if decide (pt < 0x800) then mret None else mret (Some (3%nat, pt))
  else if decide (b0 < 0xF8) then
    b1 ← str_at str (i + 1);
    if negb (is_cont b1) then mret None
    else
      b2 ← str_at str (i + 2);
      if negb (is_cont b2) then mret None
      else
        b3 ← str_at str (i + 3);
        if negb (is_cont b3) then mret None
        else
          let pt := Z.lor (Z.lor (Z.lor (Z.shiftl (Z.land b0 0x0F) 18) (Z.shiftl (Z.land b1 0x3F) 12))
                                 (Z.shiftl (Z.land b2 0x3F) 6)) (Z.land b3 0x3F) in
          if decide (pt < 0x10000 ∨ 0x110000 ≤ pt) then mret None else mret (Some (4%nat, pt))
  else mret None.

Definition is_high_surrogate (c : Z) : bool := bool_decide (0xD800 ≤ c < 0xDC00).
Definition is_low_surrogate (c : Z) : bool := bool_decide (0xDC00 ≤ c < 0xE000).

Definition utf16_decode_check (str : list Z) (i : nat) : outcome unit offset_pt :=
  c ← str_at str i;
  paired ← (if is_high_surrogate c then c' ← str_at str (i + 1); mret (is_low_surrogate c') else mret false);
  if (paired : bool) then
    c' ← str_at str (i + 1);
    mret (Some (2%nat, Z.lor (Z.shiftl (c - 0xD800) 10) (c' - 0xDC00) + 0x10000))
  else if is_high_surrogate c || is_low_surrogate c then mret None
  else mret (Some (1%nat, c)).

Definition utf32_decode_check (str : list Z) (i : nat) : outcome unit offset_pt :=
  c ← str_at str i;
  if decide (c < 0x110000) then mret (Some (1%nat, c)) else mret None.

(** The code point at [i] and the index after it; an invalid one counts as U+FFFD. *)
Definition decode (check : list Z → nat → outcome unit offset_pt) (str : list Z) (i : nat) :
    outcome unit (Z * nat) :=
  res ← check str i;
  match res with
  | None => mret (0xFFFD, (i + 1)%nat)
  | Some (offset, pt) => mret (pt, (i + offset)%nat)
  end.

Definition utf8_decode := decode utf8_decode_check.
Definition utf16_decode := decode utf16_decode_check.

(** ** Checking and conversion: loops over the string, one code unit or more per iteration *)

Fixpoint check_helper (func : list Z → nat → outcome unit offset_pt) (fuel : nat) (str : list Z) (i : nat) :
    outcome unit bool :=
  if decide (i < length str)%nat then
    match fuel with
    | O => Fuel
    | S fuel =>
        res ← func str i;
        match res with
        | None => mret false
        | Some (offset, _) => check_helper func fuel str (i + offset)
        end
    end
  else mret true.

Definition utf8_check (str : list Z) : outcome unit bool := check_helper utf8_decode_check (length str) str 0.
Definition utf16_check (str : list Z) : outcome unit bool := check_helper utf16_decode_check (length str) str 0.
Definition utf32_check (str : list Z) : outcome unit bool := check_helper utf32_decode_check (length str) str 0.

(** [for (i = 0; i < str.length();) encode(decode(str, i), out)]. *)
Fixpoint convert (dec : list Z → nat → outcome unit (Z * nat)) (enc : Z → list Z) (fuel : nat)
    (str : list Z) (i : nat) (out : list Z) : outcome unit (list Z) :=
  if decide (i < length str)%nat then
    match fuel with
    | O => Fuel
    | S fuel =>
        '(pt, i) ← dec str i;
        convert dec enc fuel str i (out ++ enc pt)
    end
  else mret out.

Definition to_utf32 (str : list Z) : outcome unit (list Z) := convert utf8_decode (λ pt, [pt]) (length str) str 0 [].
Definition to_utf16 (str : list Z) : outcome unit (list Z) := convert utf8_decode utf16_encode (length str) str 0 [].
Definition to_utf8 (str : list Z) : outcome unit (list Z) := convert utf16_decode utf8_encode (length str) str 0 [].
Definition to_utf8_32 (str : list Z) : list Z := concat (utf8_encode <$> str).

(** ** string_utils.cpp, on platforms other than Windows *)

Definition ToString_w (wstr : list Z) : outcome unit (list Z) := to_utf8 wstr.

(** [WSTRING(ustr.c_str())]: the string up to its first NUL. *)
Fixpoint until_nul (s : list Z) : list Z :=
  match s with
  | [] => []
  | c :: s => if decide (c = 0) then [] else c :: until_nul s
  end.

Definition ToWSTRING (str : list Z) : outcome unit (list Z) :=
  ustr ← to_utf16 str; mret (until_nul ustr).

(** ** Bit operations as arithmetic *)

Lemma land_63 x : Z.land x 0x3F = x mod 64.
Proof. apply (Z.land_ones x 6). lia. Qed.
Lemma land_1023 x : Z.land x 0x3FF = x mod 1024.
Proof. apply (Z.land_ones x 10). lia. Qed.

(** The lead and continuation bytes. *)
Lemma lor_80 x : 0 ≤ x < 64 → u8 (Z.lor x 0x80) = 128 + x.
Proof. intros. change 0x80 with (2 * 2 ^ 6). rewrite Z.lor_comm, lor_disjoint, wrap_small by lia. done. Qed.
Lemma lor_C0 x : 0 ≤ x < 32 → u8 (Z.lor x 0xC0) = 192 + x.
Proof. intros. change 0xC0 with (6 * 2 ^ 5). rewrite Z.lor_comm, lor_disjoint, wrap_small by lia. done. Qed.
Lemma lor_E0 x : 0 ≤ x < 16 → u8 (Z.lor x 0xE0) = 224 + x.
Proof. intros. change 0xE0 with (14 * 2 ^ 4). rewrite Z.lor_comm, lor_disjoint, wrap_small by lia. done. Qed.
Lemma lor_F0 x : 0 ≤ x < 8 → u8 (Z.lor x 0xF0) = 240 + x.
Proof. intros. change 0xF0 with (30 * 2 ^ 3). rewrite Z.lor_comm, lor_disjoint, wrap_small by lia. done. Qed.

Lemma is_cont_iff b : is_byte b → is_cont b = true ↔ 128 ≤ b < 192.
Proof.
  intros Hb. unfold is_cont. rewrite bool_decide_eq_true. revert b Hb. check_bytes.
Qed.

(** Fields of a code point put together. *)
Lemma join_6 x y : 0 ≤ y → Z.lor (Z.shiftl x 6) (Z.land y 0x3F) = x * 64 + y mod 64.
Proof.
  intros. rewrite Z.shiftl_mul_pow2, land_63 by lia. apply (lor_disjoint _ _ 6); [lia|].
  apply Z.mod_pos_bound. lia.
Qed.

Lemma join_12 x y z : Z.lor (Z.lor (Z.shiftl x 12) (Z.shiftl (Z.land y 0x3F) 6)) (Z.land z 0x3F) =
  x * 4096 + (y mod 64) * 64 + z mod 64.
Proof.
  rewrite !Z.shiftl_mul_pow2, !land_63 by lia.
  pose proof (Z.mod_pos_bound y 64). pose proof (Z.mod_pos_bound z 64).
  rewrite (lor_disjoint _ x 12) by lia.
  replace (x * 2 ^ 12 + y mod 64 * 2 ^ 6) with ((x * 64 + y mod 64) * 2 ^ 6) by lia.
  rewrite lor_disjoint by lia. lia.
Qed.

Lemma join_18 x y z w :
  Z.lor (Z.lor (Z.lor (Z.shiftl x 18) (Z.shiftl (Z.land y 0x3F) 12)) (Z.shiftl (Z.land z 0x3F) 6)) (Z.land w 0x3F) =
  x * 262144 + (y mod 64) * 4096 + (z mod 64) * 64 + w mod 64.
Proof.
  rewrite !Z.shiftl_mul_pow2, !land_63 by lia.
  pose proof (Z.mod_pos_bound y 64). pose proof (Z.mod_pos_bound z 64). pose proof (Z.mod_pos_bound w 64).
  rewrite (lor_disjoint _ x 18) by lia.
  replace (x * 2 ^ 18 + y mod 64 * 2 ^ 12) with ((x * 64 + y mod 64) * 2 ^ 12) by lia.
  rewrite lor_disjoint by lia.
  replace ((x * 64 + y mod 64) * 2 ^ 12 + z mod 64 * 2 ^ 6) with (((x * 64 + y mod 64) * 64 + z mod 64) * 2 ^ 6) by lia.
  rewrite lor_disjoint by lia. lia.
Qed.

(** ** UTF-8: encoding in arithmetic form *)

Lemma utf8_encode_1 pt : 0 ≤ pt < 0x80 → utf8_encode pt = [pt].
Proof. intros. unfold utf8_encode. rewrite decide_True, wrap_small by lia. done. Qed.

Lemma utf8_encode_2 pt : 0x80 ≤ pt < 0x800 → utf8_encode pt = [192 + pt / 64; 128 + pt mod 64].
Proof.
  intros. unfold utf8_encode. rewrite decide_False, decide_True by lia.
  rewrite Z.shiftr_div_pow2, land_63 by lia. change (2 ^ 6) with 64. rewrite lor_C0, lor_80 by divmod. done.
Qed.

Lemma utf8_encode_3 pt :
  0x800 ≤ pt < 0x10000 → utf8_encode pt = [224 + pt / 4096; 128 + (pt / 64) mod 64; 128 + pt mod 64].
Proof.
  intros. unfold utf8_encode. rewrite decide_False, decide_False, decide_True by lia.
  rewrite !Z.shiftr_div_pow2, !land_63 by lia. change (2 ^ 6) with 64. change (2 ^ 12) with 4096.
  rewrite lor_E0, !lor_80 by divmod. done.
Qed.

Lemma utf8_encode_4 pt :
  0x10000 ≤ pt < 0x110000 →
  utf8_encode pt = [240 + pt / 262144; 128 + (pt / 4096) mod 64; 128 + (pt / 64) mod 64; 128 + pt mod 64].
Proof.
  intros. unfold utf8_encode. rewrite decide_False, decide_False, decide_False, decide_True by lia.
  rewrite !Z.shiftr_div_pow2, !land_63 by lia. change (2 ^ 6) with 64. change (2 ^ 12) with 4096.
  change (2 ^ 18) with 262144. rewrite lor_F0, !lor_80 by divmod. done.
Qed.

(** The four ranges of code points. *)
Lemma pt_cases pt :
  0 ≤ pt < 0x110000 →
  0 ≤ pt < 0x80 ∨ 0x80 ≤ pt < 0x800 ∨ 0x800 ≤ pt < 0x10000 ∨ 0x10000 ≤ pt < 0x110000.
Proof. lia. Qed.

(** ** Decoding what was encoded *)

Lemma str_at_mid pre l post j c :
  l !! j = Some c → str_at (pre ++ l ++ post) (length pre + j) = Ret c.
Proof.
  intros Hc. unfold str_at. rewrite lookup_app_r by lia.
  replace (length pre + j - length pre)%nat with j by lia.
  by rewrite lookup_app_l, Hc by (by eapply lookup_lt_Some).
Qed.

Lemma str_at_mid_0 pre c l post : str_at (pre ++ (c :: l) ++ post) (length pre) = Ret c.
Proof. rewrite <-(Nat.add_0_r (length pre)). by apply (str_at_mid _ (c :: l)). Qed.

Lemma land_1F b : Z.land b 0x1F = b mod 32.
Proof. apply (Z.land_ones b 5). lia. Qed.
Lemma land_0F b : Z.land b 0x0F = b mod 16.
Proof. apply (Z.land_ones b 4). lia. Qed.

Lemma utf8_decode_encode pre post pt :
  0 ≤ pt < 0x110000 →
  utf8_decode_check (pre ++ utf8_encode pt ++ post) (length pre) = Ret (Some (length (utf8_encode pt), pt)).
Proof.
  intros Hpt. destruct (pt_cases pt Hpt) as [H|[H|[H|H]]]; unfold utf8_decode_check.
  - rewrite utf8_encode_1, str_at_mid_0 by done. cbn [mbind outcome_bind]. by rewrite decide_True by lia.
  - rewrite utf8_encode_2 by done. rewrite str_at_mid_0, (str_at_mid pre _ post 1 (128 + pt mod 64)) by done.
    cbn [mbind outcome_bind]. rewrite decide_False, decide_False, decide_True by divmod.
    rewrite (proj2 (is_cont_iff (128 + pt mod 64) ltac:(divmod))) by divmod. cbn [negb]. cbv zeta.
    rewrite join_6, land_1F by divmod.
    replace ((192 + pt / 64) mod 32 * 64 + (128 + pt mod 64) mod 64) with pt by divmod.
    by rewrite decide_False by lia.
  - rewrite utf8_encode_3 by done. rewrite str_at_mid_0, (str_at_mid pre _ post 1 (128 + (pt / 64) mod 64)),
      (str_at_mid pre _ post 2 (128 + pt mod 64)) by done.
    cbn [mbind outcome_bind]. rewrite decide_False, decide_False, decide_False, decide_True by divmod.
    rewrite (proj2 (is_cont_iff (128 + (pt / 64) mod 64) ltac:(divmod))) by divmod. cbn [negb mbind outcome_bind].
    rewrite (proj2 (is_cont_iff (128 + pt mod 64) ltac:(divmod))) by divmod. cbn [negb]. cbv zeta.
    rewrite join_12, land_0F.
    replace ((224 + pt / 4096) mod 16 * 4096 + (128 + (pt / 64) mod 64) mod 64 * 64 + (128 + pt mod 64) mod 64)
      with pt by divmod.
    by rewrite decide_False by lia.
  - rewrite utf8_encode_4 by done. rewrite str_at_mid_0, (str_at_mid pre _ post 1 (128 + (pt / 4096) mod 64)),
      (str_at_mid pre _ post 2 (128 + (pt / 64) mod 64)), (str_at_mid pre _ post 3 (128 + pt mod 64)) by done.
    cbn [mbind outcome_bind]. rewrite decide_False, decide_False, decide_False, decide_False, decide_True by divmod.
    rewrite (proj2 (is_cont_iff (128 + (pt / 4096) mod 64) ltac:(divmod))) by divmod. cbn [negb mbind outcome_bind].
    rewrite (proj2 (is_cont_iff (128 + (pt / 64) mod 64) ltac:(divmod))) by divmod. cbn [negb mbind outcome_bind].
    rewrite (proj2 (is_cont_iff (128 + pt mod 64) ltac:(divmod))) by divmod. cbn [negb]. cbv zeta.
    rewrite join_18, land_0F.
    replace ((240 + pt / 262144) mod 16 * 262144 + (128 + (pt / 4096) mod 64) mod 64 * 4096 +
      (128 + (pt / 64) mod 64) mod 64 * 64 + (128 + pt mod 64) mod 64) with pt by divmod.
    by rewrite decide_False by lia.
Qed.

(** ** Encoding what was decoded, and safety *)

Lemma str_at_safe str i :
  Forall (λ b, is_byte b) str → (i ≤ length str)%nat →
  ∃ c, str_at str i = Ret c ∧ is_byte c ∧ (is_cont c = true → str !! i = Some c).
Proof.
  intros Hb Hi. unfold str_at. destruct (str !! i) as [c|] eqn:E.
  - exists c. split_and!; [done|..|done]; apply (Forall_lookup_1 _ _ _ _ Hb E).
  - apply lookup_ge_None in E. rewrite decide_True by lia. exists 0. split_and!; [done|lia|lia|]. done.
Qed.

Definition good_decode (enc : Z → list Z) (str : list Z) (i : nat) (res : offset_pt) : Prop :=
  match res with
  | None => True
  | Some (n, pt) => 0 ≤ pt < 0x110000 ∧ slice i n str = enc pt ∧ (i + n ≤ length str)%nat ∧ (0 < n)%nat
  end.

Lemma slice_S {A} (str : list A) i n c : str !! i = Some c → slice i (S n) str = c :: slice (S i) n str.
Proof. intros H. unfold slice. by erewrite drop_S by done. Qed.

(** [cont_step]: read a continuation byte, or stop. *)
Ltac cont_step str i b Hb Hl :=
  let Hr := fresh in let Hc := fresh in let Hlt := fresh in
  destruct (str_at_safe str i) as (b & Hr & Hb & Hl); [assumption|lia|];
  rewrite Hr; cbn [mbind outcome_bind]; clear Hr;
  destruct (is_cont b) eqn:Hc; cbn [negb]; [specialize (Hl eq_refl); apply (is_cont_iff b Hb) in Hc|by eexists];
  pose proof (lookup_lt_Some _ _ _ Hl) as Hlt.

Lemma utf8_decode_spec str i :
  Forall (λ b, is_byte b) str → (i < length str)%nat →
  ∃ res, utf8_decode_check str i = Ret res ∧ good_decode utf8_encode str i res.
Proof.
  intros Hbs Hi. destruct (lookup_lt_is_Some_2 str i Hi) as [b0 H0].
  pose proof (Forall_lookup_1 _ _ _ _ Hbs H0) as Hb0. simpl in Hb0.
  assert (Hs0 : str_at str i = Ret b0) by (unfold str_at; by rewrite H0).
  unfold utf8_decode_check. rewrite Hs0. cbn [mbind outcome_bind].
  destruct (decide (b0 < 0x80)) as [H1|H1].
  { eexists. split; [done|]. split_and!; [lia..| |lia|lia]. rewrite (slice_1 _ _ _ H0). by rewrite utf8_encode_1 by lia. }
  destruct (decide (b0 < 0xC0)) as [H2|H2]; [by eexists|].
  destruct (decide (b0 < 0xE0)) as [H3|H3].
  { cont_step str (i + 1)%nat b1 Hb1 Hl1. cbv zeta. rewrite join_6, land_1F by lia.
    case_decide; [by eexists|]. eexists. split; [done|].
    split_and!; [divmod|divmod| |lia|lia].
    rewrite utf8_encode_2 by divmod. rewrite (slice_S _ _ _ _ H0), (slice_1 _ _ b1) by (rewrite <-Hl1; f_equal; lia).
    f_equal; [divmod|]. f_equal. divmod. }
  destruct (decide (b0 < 0xF0)) as [H4|H4].
  { cont_step str (i + 1)%nat b1 Hb1 Hl1. cont_step str (i + 2)%nat b2 Hb2 Hl2. cbv zeta. rewrite join_12, land_0F.
    case_decide; [by eexists|]. eexists. split; [done|].
    split_and!; [divmod|divmod| |lia|lia].
    rewrite utf8_encode_3 by divmod.
    rewrite (slice_S _ _ _ _ H0), (slice_S _ _ _ b1), (slice_1 _ _ b2) by (rewrite <-?Hl1, <-?Hl2; f_equal; lia).
    f_equal; [divmod|]. f_equal; [divmod|]. f_equal. divmod. }
  destruct (decide (b0 < 0xF8)) as [H5|H5]; [|by eexists].
  cont_step str (i + 1)%nat b1 Hb1 Hl1. cont_step str (i + 2)%nat b2 Hb2 Hl2. cont_step str (i + 3)%nat b3 Hb3 Hl3.
  cbv zeta. rewrite join_18, land_0F. case_decide; [by eexists|]. eexists. split; [done|].
  split_and!; [divmod|divmod| |lia|lia].
  rewrite utf8_encode_4 by divmod.
  rewrite (slice_S _ _ _ _ H0), (slice_S _ _ _ b1), (slice_S _ _ _ b2), (slice_1 _ _ b3)
    by (rewrite <-?Hl1, <-?Hl2, <-?Hl3; f_equal; lia).
  f_equal; [divmod|]. f_equal; [divmod|]. f_equal; [divmod|]. f_equal. divmod.
Qed.

(** ** UTF-16 *)

Abbreviation is_unit c := (0 ≤ c < 65536).
Definition surrogate (pt : Z) : Prop := 0xD800 ≤ pt < 0xE000.

Lemma utf16_encode_1 pt : 0 ≤ pt < 0x10000 → utf16_encode pt = [pt].
Proof. intros. unfold utf16_encode. rewrite decide_True, wrap_small by lia. done. Qed.

Lemma utf16_encode_2 pt :
  0x10000 ≤ pt < 0x110000 → utf16_encode pt = [0xD800 + (pt - 0x10000) / 1024; 0xDC00 + pt mod 1024].
Proof.
  intros. unfold utf16_encode. rewrite decide_False, decide_True by lia.
  rewrite Z.shiftr_div_pow2, land_1023 by lia. change (2 ^ 10) with 1024. rewrite !wrap_small by divmod.
  f_equal; [lia|]. f_equal. lia.
Qed.

Lemma high_surrogate_iff c : is_high_surrogate c = true ↔ 0xD800 ≤ c < 0xDC00.
Proof. unfold is_high_surrogate. by rewrite bool_decide_eq_true. Qed.
Lemma low_surrogate_iff c : is_low_surrogate c = true ↔ 0xDC00 ≤ c < 0xE000.
Proof. unfold is_low_surrogate. by rewrite bool_decide_eq_true. Qed.
Lemma high_surrogate_false c : is_high_surrogate c = false ↔ ¬ 0xD800 ≤ c < 0xDC00.
Proof. unfold is_high_surrogate. by rewrite bool_decide_eq_false. Qed.
Lemma low_surrogate_false c : is_low_surrogate c = false ↔ ¬ 0xDC00 ≤ c < 0xE000.
Proof. unfold is_low_surrogate. by rewrite bool_decide_eq_false. Qed.

Lemma join_10 c c' : 0 ≤ c' < 1024 → Z.lor (Z.shiftl c 10) c' = c * 1024 + c'.
Proof. intros. rewrite Z.shiftl_mul_pow2 by lia. apply (lor_disjoint _ _ 10); lia. Qed.

Lemma utf16_decode_encode pre post pt :
  0 ≤ pt < 0x110000 → ¬ surrogate pt →
  utf16_decode_check (pre ++ utf16_encode pt ++ post) (length pre) = Ret (Some (length (utf16_encode pt), pt)).
Proof.
  unfold surrogate. intros Hpt Hs. unfold utf16_decode_check. destruct (decide (pt < 0x10000)) as [H|H].
  - rewrite utf16_encode_1, str_at_mid_0 by lia. cbn [mbind outcome_bind].
    rewrite (proj2 (high_surrogate_false pt)), (proj2 (low_surrogate_false pt)) by lia. done.
  - rewrite utf16_encode_2 by lia. rewrite str_at_mid_0, (str_at_mid pre _ post 1 (0xDC00 + pt mod 1024)) by done.
    cbn [mbind outcome_bind]. rewrite (proj2 (high_surrogate_iff (0xD800 + (pt - 0x10000) / 1024))) by divmod. cbn [mbind outcome_bind].
    rewrite (proj2 (low_surrogate_iff (0xDC00 + pt mod 1024))) by divmod. cbn [mbind outcome_bind mret outcome_ret].
    rewrite join_10 by divmod. do 2 f_equal. f_equal. divmod.
Qed.

Lemma unit_at_safe str i :
  Forall (λ c, is_unit c) str → (i ≤ length str)%nat →
  ∃ c, str_at str i = Ret c ∧ is_unit c ∧ (c ≠ 0 → str !! i = Some c).
Proof.
  intros Hb Hi. unfold str_at. destruct (str !! i) as [c|] eqn:E.
  - exists c. split_and!; [done|..|done]; apply (Forall_lookup_1 _ _ _ _ Hb E).
  - apply lookup_ge_None in E. rewrite decide_True by lia. exists 0. split_and!; [done|lia|lia|done].
Qed.

Lemma utf16_decode_spec str i :
  Forall (λ c, is_unit c) str → (i < length str)%nat →
  ∃ res, utf16_decode_check str i = Ret res ∧ good_decode utf16_encode str i res ∧
         (∀ n pt, res = Some (n, pt) → ¬ surrogate pt).
Proof.
  intros Hbs Hi. destruct (lookup_lt_is_Some_2 str i Hi) as [c H0].
  pose proof (Forall_lookup_1 _ _ _ _ Hbs H0) as Hc. simpl in Hc.
  assert (Hs0 : str_at str i = Ret c) by (unfold str_at; by rewrite H0).
  destruct (unit_at_safe str (i + 1) Hbs) as (c' & Hs1 & Hc' & Hl1); [lia|].
  unfold utf16_decode_check, surrogate. rewrite Hs0. cbn [mbind outcome_bind].
  destruct (is_high_surrogate c) eqn:Hh.
  - apply high_surrogate_iff in Hh. rewrite Hs1. cbn [mbind outcome_bind mret outcome_ret].
    destruct (is_low_surrogate c') eqn:Hlo.
    + apply low_surrogate_iff in Hlo. cbn [mbind outcome_bind]. rewrite join_10 by lia.
      specialize (Hl1 ltac:(lia)). pose proof (lookup_lt_Some _ _ _ Hl1).
      eexists. split; [done|]. split; [|intros ? ? [= <- <-]; lia].
      split_and!; [lia|lia| |lia|lia].
      rewrite utf16_encode_2 by lia. rewrite (slice_S _ _ _ _ H0), (slice_1 _ _ c') by (rewrite <-Hl1; f_equal; lia).
      f_equal; [divmod|]. f_equal. divmod.
    + eexists. by split_and!.
  - cbn [mbind outcome_bind mret outcome_ret orb]. destruct (is_low_surrogate c) eqn:Hlo; eexists; [by split_and!|].
    apply high_surrogate_false in Hh. apply low_surrogate_false in Hlo.
    split; [done|]. split; [|intros ? ? [= <- <-]; lia].
    split_and!; [lia|lia| |lia|lia]. rewrite (slice_1 _ _ _ H0). by rewrite utf16_encode_1 by lia.
Qed.

(** ** The conversion loop *)

Section Convert.
Context (check : list Z → nat → outcome unit offset_pt) (encA encB : Z → list Z).
Context (unit_ok : Z → Prop) (pt_ok : Z → Prop).
Context (Hnil : ∀ pt, encA pt ≠ []).
Context (Hdec : ∀ pre post pt, pt_ok pt → check (pre ++ encA pt ++ post) (length pre) = Ret (Some (length (encA pt), pt))).
Context (Hsafe : ∀ str i, Forall unit_ok str → (i < length str)%nat →
  ∃ res, check str i = Ret res ∧ good_decode encA str i res ∧ ∀ n pt, res = Some (n, pt) → pt_ok pt).

(** Every iteration advances, so [length str] rounds are enough, for every input. *)
Lemma convert_total str fuel i out :
  Forall unit_ok str → (length str - i ≤ fuel)%nat →
  ∃ out', convert (decode check) encB fuel str i out = Ret (out ++ out').
Proof.
  intros Hs. revert i out. induction fuel as [|fuel IH]; intros i out Hf; cbn [convert].
  - rewrite decide_False by lia. exists []. by rewrite app_nil_r.
  - case_decide as Hi; [|exists []; by rewrite app_nil_r].
    destruct (Hsafe str i Hs Hi) as (res & Hres & Hgood & _). unfold decode. rewrite Hres. cbn [mbind outcome_bind].
    assert (∃ pt i', (match res with None => mret (0xFFFD, (i + 1)%nat) | Some (o, p) => mret (p, (i + o)%nat) end :
      outcome unit (Z * nat)) = Ret (pt, i') ∧ (i < i')%nat) as (pt & i' & -> & Hi').
    { destruct res as [[o p]|]; eexists _, _; (split; [done|]); [destruct Hgood as (_ & _ & _ & ?)|]; lia. }
    cbn [mbind outcome_bind]. destruct (IH i' (out ++ encB pt)) as [out' Ho]; [lia|].
    exists (encB pt ++ out'). by rewrite app_assoc.
Qed.

(** On the encoding of code points it yields the other encoding of the same code points. *)
Lemma convert_encoded pts pre fuel out :
  Forall pt_ok pts → (length (concat (encA <$> pts)) ≤ fuel)%nat →
  convert (decode check) encB fuel (pre ++ concat (encA <$> pts)) (length pre) out = Ret (out ++ concat (encB <$> pts)).
Proof.
  intros Hp. revert pre fuel out. induction Hp as [|pt pts Hpt Hpts IH]; intros pre fuel out Hf.
  - simpl. rewrite app_nil_r. destruct fuel; cbn [convert]; rewrite decide_False by lia; by rewrite app_nil_r.
  - rewrite !fmap_cons in *. cbn [concat] in *. rewrite length_app in Hf.
    pose proof (Hnil pt) as Hne. destruct (encA pt) as [|c cs] eqn:E; [done|]. rewrite <-E in *.
    assert (Hlen : (0 < length (encA pt))%nat) by (rewrite E; simpl; lia).
    destruct fuel as [|fuel]; [lia|]. cbn [convert]. rewrite decide_True by (rewrite !length_app; lia).
    unfold decode. rewrite Hdec by done. cbn [mbind outcome_bind mret outcome_ret].
    specialize (IH (pre ++ encA pt) fuel (out ++ encB pt)).
    rewrite length_app, <-!app_assoc in IH. apply IH. lia.
Qed.

Lemma check_total str fuel i :
  Forall unit_ok str → (length str - i ≤ fuel)%nat →
  ∃ b, check_helper check fuel str i = Ret b ∧
    (b = true → ∃ pts, Forall pt_ok pts ∧ drop i str = concat (encA <$> pts)).
Proof.
  intros Hs. revert i. induction fuel as [|fuel IH]; intros i Hf; cbn [check_helper].
  - rewrite decide_False by lia. exists true. split; [done|]. exists []. by rewrite drop_ge by lia.
  - case_decide as Hi; [|exists true; split; [done|]; exists []; by rewrite drop_ge by lia].
    destruct (Hsafe str i Hs Hi) as (res & Hres & Hgood & Hpt). rewrite Hres. cbn [mbind outcome_bind].
    destruct res as [[o p]|]; [|by exists false]. destruct Hgood as (_ & Hsl & Hle & Ho).
    destruct (IH (i + o)%nat) as (b & Hb & Hall); [lia|]. exists b. split; [done|]. intros ->.
    destruct (Hall eq_refl) as (pts & Hpts & Hd). exists (p :: pts). split; [apply Forall_cons; eauto|].
    rewrite fmap_cons. cbn [concat]. rewrite <-Hsl, <-Hd. unfold slice.
    by rewrite <-drop_drop, take_drop.
Qed.
End Convert.

(** ** The conversions *)

(** A Unicode scalar value. *)
Definition scalar (pt : Z) : Prop := 0 ≤ pt < 0x110000 ∧ ¬ surrogate pt.

Lemma utf8_encode_not_nil pt : utf8_encode pt ≠ [].
Proof. unfold utf8_encode. by repeat case_decide. Qed.
Lemma utf16_encode_not_nil pt : utf16_encode pt ≠ [].
Proof. unfold utf16_encode. by repeat case_decide. Qed.

Lemma utf8_safe str i : Forall (λ b, is_byte b) str → (i < length str)%nat →
  ∃ res, utf8_decode_check str i = Ret res ∧ good_decode utf8_encode str i res ∧
         ∀ n pt, res = Some (n, pt) → 0 ≤ pt < 0x110000.
Proof.
  intros Hs Hi. destruct (utf8_decode_spec str i Hs Hi) as (res & Hr & Hg). exists res. split_and!; [done..|].
  intros n pt ->. apply Hg.
Qed.

Lemma utf16_safe str i : Forall (λ c, is_unit c) str → (i < length str)%nat →
  ∃ res, utf16_decode_check str i = Ret res ∧ good_decode utf16_encode str i res ∧ ∀ n pt, res = Some (n, pt) → scalar pt.
Proof.
  intros Hs Hi. destruct (utf16_decode_spec str i Hs Hi) as (res & Hr & Hg & Hn). exists res. split_and!; [done..|].
  intros n pt ->. split; [apply Hg|by eapply Hn].
Qed.

Lemma to_utf16_encoded pts :
  Forall (λ pt, 0 ≤ pt < 0x110000) pts → to_utf16 (concat (utf8_encode <$> pts)) = Ret (concat (utf16_encode <$> pts)).
Proof.
  intros Hp. unfold to_utf16, utf8_decode.
  apply (convert_encoded utf8_decode_check utf8_encode utf16_encode (λ pt, 0 ≤ pt < 0x110000)
    utf8_encode_not_nil utf8_decode_encode pts []); done.
Qed.

Lemma to_utf8_encoded pts :
  Forall scalar pts → to_utf8 (concat (utf16_encode <$> pts)) = Ret (concat (utf8_encode <$> pts)).
Proof.
  intros Hp. unfold to_utf8, utf16_decode.
  apply (convert_encoded utf16_decode_check utf16_encode utf8_encode scalar utf16_encode_not_nil
    (λ pre post pt H, utf16_decode_encode pre post pt (proj1 H) (proj2 H)) pts []); done.
Qed.

Lemma scalars_in_range pts : Forall scalar pts → Forall (λ pt, 0 ≤ pt < 0x110000) pts.
Proof. intros H. eapply Forall_impl; [exact H|]. by intros ? []. Qed.

Lemma check_encoded pre pts fuel :
  Forall (λ pt, 0 ≤ pt < 0x110000) pts → (length (concat (utf8_encode <$> pts)) ≤ fuel)%nat →
  check_helper utf8_decode_check fuel (pre ++ concat (utf8_encode <$> pts)) (length pre) = Ret true.
Proof.
  intros Hp. revert pre fuel. induction Hp as [|pt pts Hpt Hpts IH]; intros pre fuel Hf.
  - simpl. rewrite app_nil_r. by destruct fuel; cbn [check_helper]; rewrite decide_False by lia.
  - rewrite !fmap_cons in *. cbn [concat] in *. rewrite length_app in Hf.
    pose proof (utf8_encode_not_nil pt) as Hne. destruct (utf8_encode pt) as [|c cs] eqn:E; [done|]. rewrite <-E in *.
    assert (Hlen : (0 < length (utf8_encode pt))%nat) by (rewrite E; simpl; lia).
    destruct fuel as [|fuel]; [lia|]. cbn [check_helper]. rewrite decide_True by (rewrite !length_app; lia).
    rewrite utf8_decode_encode by done. cbn [mbind outcome_bind].
    specialize (IH (pre ++ utf8_encode pt) fuel). rewrite length_app, <-!app_assoc in IH. apply IH. lia.
Qed.

Lemma until_nul_encoded pts pts' :
  Forall (λ pt, 0 < pt < 0x110000) pts →
  until_nul (concat (utf16_encode <$> pts ++ 0 :: pts')) = concat (utf16_encode <$> pts).
Proof.
  induction 1 as [|pt pts Hpt Hpts IH]; [done|]. rewrite <-app_comm_cons, !fmap_cons. cbn [concat].
  destruct (decide (pt < 0x10000)).
  - rewrite utf16_encode_1 by lia. cbn [app until_nul]. rewrite decide_False by lia. by rewrite IH.
  - rewrite utf16_encode_2 by lia. cbn [app until_nul]. rewrite !decide_False by divmod. by rewrite IH.
Qed.

(** ** Properties *)

(** Every conversion and check of a string returns, whatever its bytes or code units: none
    reads behind the string's terminator and none loops. *)
Theorem utf_conversions_total s u :
  Forall (λ b, is_byte b) s → Forall (λ c, is_unit c) u →
  (∃ x, to_utf16 s = Ret x) ∧ (∃ x, to_utf8 u = Ret x) ∧ (∃ x, to_utf32 s = Ret x) ∧
  (∃ b, utf8_check s = Ret b) ∧ (∃ b, utf16_check u = Ret b).
Proof.
  intros Hs Hu. split_and!.
  - apply (convert_total utf8_decode_check utf8_encode utf16_encode _ _ utf8_safe s (length s) 0 [] Hs). lia.
  - apply (convert_total utf16_decode_check utf16_encode utf8_encode _ _ utf16_safe u (length u) 0 [] Hu). lia.
  - apply (convert_total utf8_decode_check utf8_encode _ _ _ utf8_safe s (length s) 0 [] Hs). lia.
  - destruct (check_total utf8_decode_check utf8_encode _ _ utf8_safe s (length s) 0 Hs) as (b & Hb & _); [lia|]. by exists b.
  - destruct (check_total utf16_decode_check utf16_encode _ _ utf16_safe u (length u) 0 Hu) as (b & Hb & _); [lia|]. by exists b.
Qed.

(** C35: the conversions are inverse on well-formed text: a UTF-16 string without unpaired
    surrogates survives the way to UTF-8 and back, and the UTF-8 encoding of scalar values
    survives the way to UTF-16 and back. *)
Theorem utf_roundtrip u pts :
  Forall (λ c, is_unit c) u → utf16_check u = Ret true → Forall scalar pts →
  (∃ s, to_utf8 u = Ret s ∧ to_utf16 s = Ret u) ∧
  (∃ v, to_utf16 (concat (utf8_encode <$> pts)) = Ret v ∧ to_utf8 v = Ret (concat (utf8_encode <$> pts))).
Proof.
  intros Hu Hc Hp. split.
  - destruct (check_total utf16_decode_check utf16_encode _ _ utf16_safe u (length u) 0 Hu) as (b & Hb & Hall); [lia|].
    unfold utf16_check in Hc. rewrite Hb in Hc. injection Hc as ->. destruct (Hall eq_refl) as (qs & Hqs & Hd).
    rewrite drop_0 in Hd. subst u. exists (concat (utf8_encode <$> qs)).
    split; [by apply to_utf8_encoded|by apply to_utf16_encoded, scalars_in_range].
  - exists (concat (utf16_encode <$> pts)). split; [by apply to_utf16_encoded, scalars_in_range|by apply to_utf8_encoded].
Qed.

(** C35: [utf8_check] accepts exactly the encodings of code points up to U+10FFFF, so no overlong
    form, stray or missing continuation byte. *)
Theorem utf8_check_exact s :
  Forall (λ b, is_byte b) s →
  utf8_check s = Ret true ↔ ∃ pts, Forall (λ pt, 0 ≤ pt < 0x110000) pts ∧ s = concat (utf8_encode <$> pts).
Proof.
  intros Hs. split.
  - intros Hc. destruct (check_total utf8_decode_check utf8_encode _ _ utf8_safe s (length s) 0 Hs) as (b & Hb & Hall); [lia|].
    unfold utf8_check in Hc. rewrite Hb in Hc. injection Hc as ->. destruct (Hall eq_refl) as (qs & Hqs & Hd).
    by exists qs.
  - intros (pts & Hp & ->). unfold utf8_check. by apply (check_encoded [] pts (length (concat (utf8_encode <$> pts)))).
Qed.

(** C12: [ToWSTRING] drops everything from the first NUL on, since it rebuilds the string from a
    C string. *)
Theorem ToWSTRING_stops_at_nul pts pts' :
  Forall (λ pt, 0 < pt < 0x110000) pts → Forall (λ pt, 0 ≤ pt < 0x110000) pts' →
  ToWSTRING (concat (utf8_encode <$> pts ++ 0 :: pts')) = Ret (concat (utf16_encode <$> pts)).
Proof.
  intros Hp Hp'. unfold ToWSTRING. rewrite to_utf16_encoded.
  - cbn [mbind outcome_bind]. by rewrite until_nul_encoded.
  - apply Forall_app. split; [|apply Forall_cons; split; [lia|done]]. eapply Forall_impl; [exact Hp|].
    intros pt Hpt. simpl in *. lia.
Qed.

(** ** Instances *)

Lemma utf_conversions_total_witness :
  (∃ x, to_utf16 [0xE2; 0x82; 0xAC; 0xFF; 0xC3] = Ret x) ∧ (∃ x, to_utf8 [0xD83D; 0x41; 0xDE00] = Ret x).
Proof.
  pose proof (utf_conversions_total [0xE2; 0x82; 0xAC; 0xFF; 0xC3] [0xD83D; 0x41; 0xDE00]
    ltac:(repeat (apply Forall_cons; split; [lia|]); apply Forall_nil_2)
    ltac:(repeat (apply Forall_cons; split; [lia|]); apply Forall_nil_2)) as (H1 & H2 & _).
  split; [exact H1|exact H2].
Defined.

Lemma utf_roundtrip_witness :
  (∃ s, to_utf8 [0x41; 0x20AC; 0xD83D; 0xDE00] = Ret s ∧ to_utf16 s = Ret [0x41; 0x20AC; 0xD83D; 0xDE00]) ∧
  (∃ v, to_utf16 (concat (utf8_encode <$> [0x41; 0x1F600])) = Ret v ∧
        to_utf8 v = Ret (concat (utf8_encode <$> [0x41; 0x1F600]))).
Proof.
  apply (utf_roundtrip [0x41; 0x20AC; 0xD83D; 0xDE00] [0x41; 0x1F600]).
  - repeat (apply Forall_cons; split; [lia|]). apply Forall_nil_2.
  - vm_compute. reflexivity.
  - unfold scalar, surrogate. repeat (apply Forall_cons; split; [lia|]). apply Forall_nil_2.
Defined.

Lemma utf8_check_exact_witness : utf8_check [0xC3; 0xA9; 0x41] = Ret true ↔
  ∃ pts, Forall (λ pt, 0 ≤ pt < 0x110000) pts ∧ [0xC3; 0xA9; 0x41] = concat (utf8_encode <$> pts).
Proof.
  apply (utf8_check_exact [0xC3; 0xA9; 0x41]). repeat (apply Forall_cons; split; [lia|]). apply Forall_nil_2.
Defined.

Lemma ToWSTRING_stops_at_nul_witness :
  ToWSTRING (concat (utf8_encode <$> [0x41; 0x42] ++ 0 :: [0x43])) = Ret [0x41; 0x42].
Proof.
  apply (ToWSTRING_stops_at_nul [0x41; 0x42] [0x43]);
    repeat (apply Forall_cons; split; [lia|]); apply Forall_nil_2.
Defined.
