(* ===== verification/CorSig.v ===== *)
(** * Compressed integers and tokens in metadata (cor.h)

    The inline functions of the runtime's headers that the signature code and the custom
    attribute code call.  A pointer is the list of the bytes from it to the end of the memory it
    points into; reading behind them is [Stuck], an unrecognised encoding is [Err tt].  The main
    result: compressing and uncompressing are inverse, for integers and for tokens. *)

From S2P Require Import Prelude.

(** ** Integers *)

(** The bytes written; [None] is the result -1. *)
Definition CorSigCompressData (iLen : Z) : option (list Z) :=
  if decide (iLen ≤ 0x7F) then Some [u8 iLen]
  else if decide (iLen ≤ 0x3FFF) then
    Some [u8 (Z.lor (Z.shiftr iLen 8) 0x80); u8 (Z.land iLen 0xff)]
  else if decide (iLen ≤ 0x1FFFFFFF) then
    Some [u8 (Z.lor (Z.shiftr iLen 24) 0xC0); u8 (Z.land (Z.shiftr iLen 16) 0xff);
          u8 (Z.land (Z.shiftr iLen 8) 0xff); u8 (Z.land iLen 0xff)]
  else None.

(** [pData[i]]. *)
Definition byte_at (pData : list Z) (i : nat) : outcome unit Z := of_option (pData !! i).

(** The checked overload: the value and its size. *)
Definition CorSigUncompressData (pData : list Z) (len : Z) : outcome unit (Z * Z) :=
  b0 ← byte_at pData 0;
  if decide (Z.land b0 0x80 = 0x00) then
    if decide (len < 1) then Err tt else mret (b0, 1)
  else if decide (Z.land b0 0xC0 = 0x80) then
    if decide (len < 2) then Err tt
    else b1 ← byte_at pData 1; mret (Z.lor (Z.shiftl (Z.land b0 0x3f) 8) b1, 2)
  else if decide (Z.land b0 0xE0 = 0xC0) then
    if decide (len < 4) then Err tt
    else
      b1 ← byte_at pData 1; b2 ← byte_at pData 2; b3 ← byte_at pData 3;
      mret (Z.lor (Z.lor (Z.lor (Z.shiftl (Z.land b0 0x1f) 24) (Z.shiftl b1 16)) (Z.shiftl b2 8)) b3, 4)
  else Err tt.

(** The overload that takes no length and assumes 0xff bytes; [Err tt] is the result -1. *)
Definition CorSigUncompressData_unchecked (pData : list Z) : outcome unit (Z * Z) :=
  CorSigUncompressData pData 0xff.

(** ** Tokens *)

Definition mdtTypeRef : Z := 0x01000000.
Definition mdtTypeDef : Z := 0x02000000.
Definition mdtTypeSpec : Z := 0x1b000000.
Definition mdtBaseType : Z := 0x72000000.

Definition RidFromToken (tk : Z) : Z := Z.land tk 0x00ffffff.
Definition TypeFromToken (tk : Z) : Z := Z.land tk 0xff000000.
Definition TokenFromRid (rid tktype : Z) : Z := Z.lor rid tktype.

Definition CorSigDecodeTokenType (encoded : Z) : Z :=
  nth (Z.to_nat encoded) [mdtTypeDef; mdtTypeRef; mdtTypeSpec; mdtBaseType] 0.

Definition CorSigCompressToken (tk : Z) : option (list Z) :=
  let rid := RidFromToken tk in
  let ulTyp := TypeFromToken tk in
  if decide (0x3FFFFFF < rid) then None
  else
    let rid := Z.shiftl rid 2 in
    let rid :=
      if decide (ulTyp = CorSigDecodeTokenType 1) then Z.lor rid 1
      else if decide (ulTyp = CorSigDecodeTokenType 2) then Z.lor rid 2
      else if decide (ulTyp = CorSigDecodeTokenType 3) then Z.lor rid 3
      else rid in
    CorSigCompressData rid.

(** The token and the size of its encoding. *)
Definition CorSigUncompressToken (pData : list Z) : outcome unit (Z * Z) :=
  '(tk, cb) ← CorSigUncompressData_unchecked pData;
  let tkType := CorSigDecodeTokenType (Z.land tk 3) in
  mret (TokenFromRid (Z.shiftr tk 2) tkType, cb).

(** ** The encoding in arithmetic form *)

Definition packed (n : Z) : list Z :=
  if decide (n < 128) then [n]
  else if decide (n < 16384) then [128 + n / 256; n mod 256]
  else [192 + n / 16777216; n / 65536 mod 256; n / 256 mod 256; n mod 256].

(** Values that can be packed. *)
Abbreviation packable n := (0 ≤ n < 2 ^ 29).

Lemma packed_length n : (1 ≤ length (packed n) ≤ 4)%nat.
Proof. unfold packed. repeat case_decide; simpl; lia. Qed.

Lemma packed_bytes n : packable n → Forall (λ b, is_byte b) (packed n).
Proof. intros Hn. unfold packed. repeat case_decide; repeat constructor; divmod. Qed.

Lemma land_255 x : Z.land x 0xff = x mod 256.
Proof. apply (Z.land_ones x 8). lia. Qed.

Lemma land_3 x : Z.land x 3 = x mod 4.
Proof. apply (Z.land_ones x 2). lia. Qed.

Lemma lor_top x k t : 0 ≤ k → 0 ≤ x < 2 ^ k → Z.lor x (t * 2 ^ k) = t * 2 ^ k + x.
Proof. intros. rewrite Z.lor_comm. by apply lor_disjoint. Qed.

Lemma CorSigCompressData_packed n : packable n → CorSigCompressData n = Some (packed n).
Proof.
  intros Hn. unfold CorSigCompressData, packed. rewrite !land_255, !Z.shiftr_div_pow2 by lia.
  assert (∀ x, u8 (x mod 256) = x mod 256) as Hm by (intros; apply wrap_small; change (2 ^ 8) with 256; divmod).
  destruct (decide (n ≤ 0x7F)).
  { rewrite decide_True by lia. by rewrite wrap_small by (change (2 ^ 8) with 256; lia). }
  rewrite (decide_False (P := n < 128)) by lia. destruct (decide (n ≤ 0x3FFF)).
  { rewrite decide_True by lia. rewrite Hm. change 0x80 with (2 * 2 ^ 6). change (2 ^ 8) with 256.
    rewrite lor_top by divmod. rewrite wrap_small by (change (2 ^ 8) with 256; divmod). done. }
  rewrite decide_True, decide_False by lia. rewrite !Hm. change 0xC0 with (6 * 2 ^ 5).
  change (2 ^ 8) with 256. change (2 ^ 24) with 16777216. change (2 ^ 16) with 65536.
  rewrite lor_top by divmod. rewrite wrap_small by (change (2 ^ 8) with 256; divmod). done.
Qed.

(** ** Uncompressing *)

(** The leading byte determines the size of the encoding. *)
Lemma lead_1 : ∀ b, is_byte b → Z.land b 0x80 = 0 ↔ b < 128.
Proof. check_bytes. Qed.
Lemma lead_2 : ∀ b, is_byte b → Z.land b 0xC0 = 0x80 ↔ 128 ≤ b < 192.
Proof. check_bytes. Qed.
Lemma lead_4 : ∀ b, is_byte b → Z.land b 0xE0 = 0xC0 ↔ 192 ≤ b < 224.
Proof. check_bytes. Qed.

Lemma pack_2 b0 b1 : is_byte b0 → is_byte b1 → Z.lor (Z.shiftl (Z.land b0 0x3f) 8) b1 = b0 mod 64 * 256 + b1.
Proof.
  intros. change 0x3f with (Z.ones 6). rewrite Z.land_ones, Z.shiftl_mul_pow2 by lia. by rewrite lor_disjoint by lia.
Qed.

Lemma pack_4 b0 b1 b2 b3 :
  is_byte b0 → is_byte b1 → is_byte b2 → is_byte b3 →
  Z.lor (Z.lor (Z.lor (Z.shiftl (Z.land b0 0x1f) 24) (Z.shiftl b1 16)) (Z.shiftl b2 8)) b3 =
  b0 mod 32 * 16777216 + b1 * 65536 + b2 * 256 + b3.
Proof.
  intros. change 0x1f with (Z.ones 5). rewrite Z.land_ones, !Z.shiftl_mul_pow2 by lia.
  rewrite (lor_disjoint _ _ 24) by lia.
  replace (b0 mod 2 ^ 5 * 2 ^ 24 + b1 * 2 ^ 16) with ((b0 mod 2 ^ 5 * 2 ^ 8 + b1) * 2 ^ 16) by lia.
  rewrite lor_disjoint by lia.
  replace ((b0 mod 2 ^ 5 * 2 ^ 8 + b1) * 2 ^ 16 + b2 * 2 ^ 8) with (((b0 mod 2 ^ 5 * 2 ^ 8 + b1) * 2 ^ 8 + b2) * 2 ^ 8) by lia.
  rewrite lor_disjoint by lia. change (2 ^ 5) with 32. lia.
Qed.

Lemma CorSigUncompressData_packed n rest len :
  packable n → Z.of_nat (length (packed n)) ≤ len →
  CorSigUncompressData (packed n ++ rest) len = Ret (n, Z.of_nat (length (packed n))).
Proof.
  intros Hn. unfold packed, CorSigUncompressData, byte_at.
  destruct (decide (n < 128)); [|destruct (decide (n < 16384))]; cbn [app length lookup list_lookup of_option mbind outcome_bind];
    intros Hlen; cbn -[decide] in *.
  - rewrite decide_True by (apply lead_1; lia). by rewrite decide_False by lia.
  - rewrite decide_False by (rewrite lead_1 by divmod; divmod).
    rewrite decide_True by (apply lead_2; divmod). rewrite decide_False by lia.
    rewrite pack_2 by divmod. cbn. do 2 f_equal. divmod.
  - rewrite decide_False by (rewrite lead_1 by divmod; divmod).
    rewrite decide_False by (rewrite lead_2 by divmod; divmod).
    rewrite decide_True by (apply lead_4; divmod). rewrite decide_False by lia.
    rewrite pack_4 by divmod. cbn. do 2 f_equal. divmod.
Qed.

(** What the checked overload returns lies in the bytes it may read. *)
Lemma CorSigUncompressData_bounds pData len :
  Forall (λ b, is_byte b) pData → 0 < len → len ≤ Z.of_nat (length pData) →
  CorSigUncompressData pData len = Err tt ∨
  ∃ n size, CorSigUncompressData pData len = Ret (n, size) ∧ packable n ∧ 1 ≤ size ≤ len ∧ size ≤ 4.
Proof.
  intros Hb Hpos Hlen. unfold CorSigUncompressData, byte_at.
  destruct pData as [|b0 p]; [simpl in *; lia|]. apply Forall_cons in Hb as [H0 Hb]. cbn -[decide Z.land].
  destruct (decide (Z.land b0 0x80 = 0)) as [E1|]; [apply lead_1 in E1; [|done]|destruct (decide (Z.land b0 0xC0 = 0x80)); [|
    destruct (decide (Z.land b0 0xE0 = 0xC0))]]; try done; try (by left).
  - rewrite decide_False by lia. right. eexists _, _. split; [done|lia].
  - case_decide; [by left|]. right. destruct p as [|b1 p]; [simpl in *; lia|]. apply Forall_cons in Hb as [H1 _].
    cbn -[Z.land Z.lor]. eexists _, _. split; [done|]. rewrite pack_2 by done. split; [divmod|lia].
  - case_decide; [by left|]. right. destruct p as [|b1 [|b2 [|b3 p]]]; [simpl in *; lia..|].
    apply Forall_cons in Hb as [H1 Hb]. apply Forall_cons in Hb as [H2 Hb]. apply Forall_cons in Hb as [H3 _].
    cbn -[Z.land Z.lor]. eexists _, _. split; [done|]. rewrite pack_4 by done. split; [divmod|lia].
Qed.

(** ** Tokens *)

(** The tokens the encoding can hold: a type definition, reference or specification, or a base
    type, with a 24-bit row. *)
Definition token_table (t : Z) : Prop := t = mdtTypeDef ∨ t = mdtTypeRef ∨ t = mdtTypeSpec ∨ t = mdtBaseType.
Definition type_token (tk : Z) : Prop :=
  ∃ t rid, token_table t ∧ 0 ≤ rid < 2 ^ 24 ∧ tk = t + rid.

(** The number a token is compressed to: the row and, in the low bits, its type. *)
Definition token_number (tk : Z) : Z :=
  4 * RidFromToken tk +
  (if decide (TypeFromToken tk = mdtTypeRef) then 1 else if decide (TypeFromToken tk = mdtTypeSpec) then 2
   else if decide (TypeFromToken tk = mdtBaseType) then 3 else 0).

Lemma RidFromToken_mod tk : RidFromToken tk = tk mod 2 ^ 24.
Proof. apply (Z.land_ones tk 24). lia. Qed.

Lemma TypeFromToken_table t rid :
  token_table t → 0 ≤ rid < 2 ^ 24 → TypeFromToken (t + rid) = t.
Proof.
  intros Ht Hr. unfold TypeFromToken. change 0xff000000 with (Z.shiftl (Z.ones 8) 24).
  assert (∃ u, 0 ≤ u < 256 ∧ t = u * 2 ^ 24) as (u & Hu & ->).
  { unfold token_table, mdtTypeDef, mdtTypeRef, mdtTypeSpec, mdtBaseType in Ht.
    destruct Ht as [->|[->|[->| ->]]]; [exists 2|exists 1|exists 27|exists 114]; lia. }
  rewrite <-lor_disjoint by lia. rewrite <-Z.shiftl_mul_pow2 by lia. apply Z.bits_inj'. intros n Hn.
  rewrite Z.land_spec, Z.lor_spec, !Z.shiftl_spec by lia.
  destruct (decide (n < 24)).
  - rewrite !(Z.testbit_neg_r _ (n - 24)) by lia. by rewrite andb_false_r.
  - replace (Z.testbit rid n) with false.
    2: { symmetry. destruct (decide (rid = 0)) as [->|]; [apply Z.bits_0|]. apply Z.bits_above_log2; [lia|].
         apply Z.log2_lt_pow2; [lia|]. pose proof (Z.pow_le_mono_r 2 24 n). lia. }
    rewrite orb_false_r. destruct (decide (n - 24 < 8)).
    + rewrite Z.ones_spec_low by lia. by rewrite andb_true_r.
    + rewrite Z.ones_spec_high, andb_false_r by lia. destruct (decide (u = 0)) as [->|]; [by rewrite Z.bits_0|].
      symmetry. apply Z.bits_above_log2; [lia|]. apply Z.log2_lt_pow2; [lia|]. pose proof (Z.pow_le_mono_r 2 8 (n - 24)). lia.
Qed.

Lemma token_number_range tk : 0 ≤ token_number tk < 2 ^ 26.
Proof. unfold token_number. rewrite RidFromToken_mod. repeat case_decide; divmod. Qed.

(** A token is always compressible: its row has 24 bits. *)
Lemma CorSigCompressToken_packed tk : CorSigCompressToken tk = Some (packed (token_number tk)).
Proof.
  assert (Hr : 0 ≤ RidFromToken tk < 2 ^ 24) by (rewrite RidFromToken_mod; apply Z.mod_pos_bound; lia).
  unfold CorSigCompressToken. rewrite decide_False by lia. rewrite <-CorSigCompressData_packed
    by (pose proof (token_number_range tk); lia).
  f_equal. unfold token_number.
  change (CorSigDecodeTokenType 1) with mdtTypeRef. change (CorSigDecodeTokenType 2) with mdtTypeSpec.
  change (CorSigDecodeTokenType 3) with mdtBaseType.
  rewrite Z.shiftl_mul_pow2 by lia. rewrite !(lor_disjoint _ _ 2) by lia. repeat case_decide; lia.
Qed.

Lemma CorSigUncompressToken_packed tk rest :
  type_token tk →
  CorSigUncompressToken (packed (token_number tk) ++ rest) = Ret (tk, Z.of_nat (length (packed (token_number tk)))).
Proof.
  intros (t & rid & Ht & Hr & ->). unfold CorSigUncompressToken, CorSigUncompressData_unchecked.
  pose proof (token_number_range (t + rid)). pose proof (packed_length (token_number (t + rid))).
  rewrite CorSigUncompressData_packed by lia. cbn [mbind outcome_bind]. unfold mret, outcome_ret. do 2 f_equal.
  assert (Hrid : RidFromToken (t + rid) = rid).
  { rewrite RidFromToken_mod. unfold token_table, mdtTypeDef, mdtTypeRef, mdtTypeSpec, mdtBaseType in Ht. divmod. }
  unfold token_number. rewrite Hrid, TypeFromToken_table by done. 
  rewrite land_3, Z.shiftr_div_pow2 by lia. change (2 ^ 2) with 4. unfold TokenFromRid.
  assert (∀ k, 0 ≤ k < 4 → (4 * rid + k) mod 4 = k ∧ (4 * rid + k) / 4 = rid) as Hk by (intros; divmod).
  destruct Ht as [->|[->|[->| ->]]].
  - rewrite !decide_False by done. destruct (Hk 0) as [-> ->]; [lia|]. rewrite Z.lor_comm. apply (lor_disjoint rid 2 24); lia.
  - rewrite decide_True by done. destruct (Hk 1) as [-> ->]; [lia|]. rewrite Z.lor_comm. apply (lor_disjoint rid 1 24); lia.
  - rewrite decide_False, decide_True by done. destruct (Hk 2) as [-> ->]; [lia|]. rewrite Z.lor_comm. apply (lor_disjoint rid 27 24); lia.
  - rewrite !decide_False, decide_True by done. destruct (Hk 3) as [-> ->]; [lia|]. rewrite Z.lor_comm. apply (lor_disjoint rid 114 24); lia.
Qed.

(** The result depends only on the bytes of the encoding. *)
Lemma CorSigUncompressData_take pData len n size q len' :
  Forall (λ b, is_byte b) pData → 0 < len → len ≤ Z.of_nat (length pData) →
  CorSigUncompressData pData len = Ret (n, size) → size ≤ len' →
  CorSigUncompressData (take (Z.to_nat size) pData ++ q) len' = Ret (n, size).
Proof.
  intros Hb Hpos Hlen. unfold CorSigUncompressData, byte_at.
  destruct pData as [|b0 p]; [simpl in *; lia|]. apply Forall_cons in Hb as [H0 Hb]. cbn -[decide Z.land].
  destruct (decide (Z.land b0 0x80 = 0)) as [E1|E1]; [|destruct (decide (Z.land b0 0xC0 = 0x80)) as [E2|E2]; [|
    destruct (decide (Z.land b0 0xE0 = 0xC0)) as [E3|E3]; [|done]]]; case_decide; try done.
  - intros [= <- <-] ?. change (Z.to_nat 1) with 1%nat. cbn -[decide Z.land]. rewrite decide_True by done. by rewrite decide_False by lia.
  - destruct p as [|b1 p]; [simpl in *; lia|]. intros [= <- <-] ?. change (Z.to_nat 2) with 2%nat. cbn -[decide Z.land Z.lor].
    rewrite decide_False, decide_True by done. by rewrite decide_False by lia.
  - destruct p as [|b1 [|b2 [|b3 p]]]; [simpl in *; lia..|]. intros [= <- <-] ?. change (Z.to_nat 4) with 4%nat. cbn -[decide Z.land Z.lor].
    rewrite decide_False, decide_False, decide_True by done. by rewrite decide_False by lia.
Qed.

(** ** Properties *)

(** Every integer below 2^29 and every type token is compressed to one, two or four bytes
    from which it is uncompressed again, whatever follows, and the number of bytes is reported. *)
Theorem CorSig_roundtrip n tk rest :
  packable n → type_token tk →
  (∃ bs, CorSigCompressData n = Some bs ∧
         CorSigUncompressData_unchecked (bs ++ rest) = Ret (n, Z.of_nat (length bs))) ∧
  (∃ bs, CorSigCompressToken tk = Some bs ∧
         CorSigUncompressToken (bs ++ rest) = Ret (tk, Z.of_nat (length bs))).
Proof.
  intros Hn Htk. split.
  - exists (packed n). split; [by apply CorSigCompressData_packed|]. apply CorSigUncompressData_packed; [done|].
    pose proof (packed_length n). lia.
  - exists (packed (token_number tk)). split; [apply CorSigCompressToken_packed|by apply CorSigUncompressToken_packed].
Qed.

Lemma CorSig_roundtrip_witness :
  CorSigCompressData 0x3FFF = Some [0xBF; 0xFF] ∧ CorSigCompressToken 0x01000049 = Some [0x81; 0x25] ∧
  CorSigUncompressToken [0x81; 0x25; 0x07] = Ret (0x01000049, 2).
Proof.
  destruct (CorSig_roundtrip 0x3FFF 0x01000049 [0x07]) as [_ (bs & H1 & H2)].
  - lia.
  - exists mdtTypeRef, 0x49. split; [right; left; reflexivity|]. split; [lia|reflexivity].
  - split; [reflexivity|]. split; [reflexivity|]. vm_compute in H1. injection H1 as <-. exact H2.
Defined.
