(* ===== verification/Signature.v ===== *)
(** * Method signatures (clr_helpers.cpp, clr_helpers.h)

    The parser of method and local signatures, of generic instances, and the queries on a parsed
    type.  A signature is the bytes [pb] from [pbBase] to the end of the memory it is in; [pbEnd]
    is the end the parser is given, as an index; the state of the parser is the cursor [pbCur].
    [return false] and E_FAIL are [throw tt], reading outside the memory is [stuck].

    The main results: the parser accepts exactly the grammar below and stops behind it, it always
    terminates inside the signature, and the spans it reports are those of the parts. *)

From S2P Require Import Prelude CorSig.

(** ** Element types (corhdr.h) *)

Definition ELEMENT_TYPE_VOID := 0x01.
Definition ELEMENT_TYPE_BOOLEAN := 0x02.
Definition ELEMENT_TYPE_CHAR := 0x03.
Definition ELEMENT_TYPE_I1 := 0x04.
Definition ELEMENT_TYPE_U1 := 0x05.
Definition ELEMENT_TYPE_I2 := 0x06.
Definition ELEMENT_TYPE_U2 := 0x07.
Definition ELEMENT_TYPE_I4 := 0x08.
Definition ELEMENT_TYPE_U4 := 0x09.
Definition ELEMENT_TYPE_I8 := 0x0a.
Definition ELEMENT_TYPE_U8 := 0x0b.
Definition ELEMENT_TYPE_R4 := 0x0c.
Definition ELEMENT_TYPE_R8 := 0x0d.
Definition ELEMENT_TYPE_STRING := 0x0e.
Definition ELEMENT_TYPE_PTR := 0x0f.
Definition ELEMENT_TYPE_BYREF := 0x10.
Definition ELEMENT_TYPE_VALUETYPE := 0x11.
Definition ELEMENT_TYPE_CLASS := 0x12.
Definition ELEMENT_TYPE_VAR := 0x13.
Definition ELEMENT_TYPE_ARRAY := 0x14.
Definition ELEMENT_TYPE_GENERICINST := 0x15.
Definition ELEMENT_TYPE_TYPEDBYREF := 0x16.
Definition ELEMENT_TYPE_I := 0x18.
Definition ELEMENT_TYPE_U := 0x19.
Definition ELEMENT_TYPE_FNPTR := 0x1b.
Definition ELEMENT_TYPE_OBJECT := 0x1c.
Definition ELEMENT_TYPE_SZARRAY := 0x1d.
Definition ELEMENT_TYPE_MVAR := 0x1e.
Definition ELEMENT_TYPE_CMOD_REQD := 0x1f.
Definition ELEMENT_TYPE_CMOD_OPT := 0x20.
Definition ELEMENT_TYPE_SENTINEL := 0x41.
Definition ELEMENT_TYPE_PINNED := 0x45.

Definition IMAGE_CEE_CS_CALLCONV_DEFAULT := 0x00.
Definition IMAGE_CEE_CS_CALLCONV_FIELD := 0x06.
Definition IMAGE_CEE_CS_CALLCONV_GENERIC := 0x10.
Definition IMAGE_CEE_CS_CALLCONV_HASTHIS := 0x20.

(** ** The parser *)

Abbreviation C := (stM nat unit).

Section Parser.
Context (pb : list Z) (pbEnd : nat).

(** [*pbCur] *)
Definition peek : C Z := pbCur ← get; lift_option (pb !! pbCur).

(** [pbCur++] *)
Definition advance : C unit := modify S.

(** [if (pbCur >= pbEnd) return false;] *)
Definition check_end : C unit := pbCur ← get; if decide (pbEnd ≤ pbCur)%nat then throw tt else mret tt.

Definition ParseByte : C Z :=
  pbCur ← get;
  if decide (pbCur < pbEnd)%nat then b ← lift_option (pb !! pbCur); advance;; mret b
  else throw tt.

Definition ParseNumber : C Z :=
  b1 ← ParseByte;
  if decide (b1 = 0xff) then throw tt
  else if decide (Z.land b1 0x80 = 0) then mret b1
  else
    b2 ← ParseByte;
    if decide (Z.land b1 0x40 = 0) then mret (Z.lor (Z.shiftl (Z.land b1 0x3f) 8) b2)
    else if decide (Z.land b1 0x20 ≠ 0) then throw tt
    else
      b3 ← ParseByte;
      b4 ← ParseByte;
      mret (Z.lor (Z.lor (Z.lor (Z.shiftl (Z.land b1 0x1f) 24) (Z.shiftl b2 16)) (Z.shiftl b3 8)) b4).

Definition ParseTypeDefOrRefEncoded : C (Z * Z) :=
  encoded ← ParseNumber; mret (Z.land encoded 0x3, Z.shiftr encoded 2).

(** [for (i = 0; i < number; i++) if (!parse) return false;]: every successful [parse] reads a
    byte, so that one iteration more than there are bytes suffices. *)
Fixpoint parse_times (parse : C unit) (fuel : nat) (i number : Z) : C unit :=
  if decide (i < number) then
    match fuel with
    | O => out_of_fuel
    | S fuel => parse;; parse_times parse fuel (i + 1) number
    end
  else mret tt.

(** [fuel] bounds the nesting of types, hence by the number of bytes left. *)
Fixpoint ParseType (fuel : nat) : C unit :=
  match fuel with
  | O => out_of_fuel
  | S fuel =>
      elem_type ← ParseByte;
      if decide (elem_type = ELEMENT_TYPE_PTR) then throw tt
      else if decide (elem_type = ELEMENT_TYPE_CLASS ∨ elem_type = ELEMENT_TYPE_VALUETYPE) then
        ParseTypeDefOrRefEncoded;; mret tt
      else if decide (elem_type = ELEMENT_TYPE_FNPTR ∨ elem_type = ELEMENT_TYPE_ARRAY) then throw tt
      else if decide (elem_type = ELEMENT_TYPE_SZARRAY) then
        check_end;;
        b ← peek;
        if decide (b = ELEMENT_TYPE_CMOD_OPT ∨ b = ELEMENT_TYPE_CMOD_REQD) then throw tt
        else ParseType fuel
      else if decide (elem_type = ELEMENT_TYPE_GENERICINST) then
        elem_type ← ParseByte;
        if decide (elem_type ≠ ELEMENT_TYPE_CLASS ∧ elem_type ≠ ELEMENT_TYPE_VALUETYPE) then throw tt
        else
          ParseTypeDefOrRefEncoded;;
          number ← ParseNumber;
          parse_times (ParseType fuel) (S pbEnd) 0 number
      else if decide (elem_type = ELEMENT_TYPE_VAR ∨ elem_type = ELEMENT_TYPE_MVAR) then
        ParseNumber;; mret tt
      else mret tt (* the simple types, and every code the switch does not list *)
  end.

Definition ParseParamOrLocal : C unit :=
  check_end;;
  b ← peek;
  if decide (b = ELEMENT_TYPE_CMOD_OPT ∨ b = ELEMENT_TYPE_CMOD_REQD) then throw tt
  else if decide (b = ELEMENT_TYPE_TYPEDBYREF) then throw tt
  else
    (if decide (b = ELEMENT_TYPE_BYREF) then advance else mret tt);;
    check_end;;
    b ← peek;
    (if decide (b = ELEMENT_TYPE_PTR) then advance else mret tt);;
    ParseType (S pbEnd).

Definition ParseRetType : C unit :=
  check_end;;
  b ← peek;
  if decide (b = ELEMENT_TYPE_CMOD_OPT ∨ b = ELEMENT_TYPE_CMOD_REQD) then throw tt
  else if decide (b = ELEMENT_TYPE_TYPEDBYREF) then throw tt
  else if decide (b = ELEMENT_TYPE_VOID) then advance
  else
    (if decide (b = ELEMENT_TYPE_BYREF) then advance else mret tt);;
    ParseType (S pbEnd).
End Parser.

(** ** [TypeSignature], [FunctionMethodSignature], [FunctionLocalSignature] *)

(** A part of the signature; [pbBase] is that of the signature. *)
Record TypeSignature := { offset : nat; length_ : nat }.

Record FunctionMethodSignature := {
  numberOfTypeArguments : Z;
  numberOfArguments : Z;
  returnValue : TypeSignature;
  params : list TypeSignature;
}.

Definition empty_signature : FunctionMethodSignature :=
  {| numberOfTypeArguments := 0; numberOfArguments := 0; returnValue := {| offset := 0; length_ := 0 |}; params := [] |}.

(** The cursor and the object whose members TryParse sets. *)
Abbreviation M T := (stM (nat * T) unit).

Definition on_cursor {T A} (m : C A) : M T A := λ '(pbCur, t), let '(r, pbCur) := m pbCur in (r, (pbCur, t)).
Definition on_object {T} (f : T → T) : M T unit := λ '(pbCur, t), (Ret tt, (pbCur, f t)).
Definition cursor {T} : M T nat := λ '(pbCur, t), (Ret pbCur, (pbCur, t)).

Section TryParse.
Context (pb : list Z) (len : nat).

(** [argument.length = pbCur - pbParam; argument.offset = pbCur - pbBase - argument.length] *)
Definition span_to (pbParam pbCur : nat) : TypeSignature :=
  {| offset := pbCur - (pbCur - pbParam); length_ := pbCur - pbParam |}.

(** The loop over the parameters; [fuel] as in [parse_times]. *)
Fixpoint TryParse_params (fuel : nat) (fEncounteredSentinal : bool) (i param_count : Z) : M FunctionMethodSignature unit :=
  if decide (i < param_count) then
    match fuel with
    | O => out_of_fuel
    | S fuel =>
        on_cursor (check_end len);;
        b ← on_cursor (peek pb);
        fEncounteredSentinal ←
          (if decide (b = ELEMENT_TYPE_SENTINEL) then
             if fEncounteredSentinal then throw tt else on_cursor advance;; mret true
           else mret fEncounteredSentinal);
        pbParam ← cursor;
        on_cursor (ParseParamOrLocal pb len);;
        pbCur ← cursor;
        on_object (λ s, {| numberOfTypeArguments := numberOfTypeArguments s; numberOfArguments := numberOfArguments s;
                           returnValue := returnValue s; params := params s ++ [span_to pbParam pbCur] |});;
        TryParse_params fuel fEncounteredSentinal (i + 1) param_count
    end
  else mret tt.

Definition FunctionMethodSignature_TryParse : M FunctionMethodSignature unit :=
  elem_type ← on_cursor (ParseByte pb len);
  (if decide (Z.land elem_type IMAGE_CEE_CS_CALLCONV_GENERIC ≠ 0) then
     gen_param_count ← on_cursor (ParseNumber pb len);
     on_object (λ s, {| numberOfTypeArguments := gen_param_count; numberOfArguments := numberOfArguments s;
                        returnValue := returnValue s; params := params s |})
   else mret tt);;
  param_count ← on_cursor (ParseNumber pb len);
  on_object (λ s, {| numberOfTypeArguments := numberOfTypeArguments s; numberOfArguments := param_count;
                     returnValue := returnValue s; params := params s |});;
  pbRet ← cursor;
  on_cursor (ParseRetType pb len);;
  pbCur ← cursor;
  on_object (λ s, {| numberOfTypeArguments := numberOfTypeArguments s; numberOfArguments := numberOfArguments s;
                     returnValue := span_to pbRet pbCur; params := params s |});;
  TryParse_params (S len) false 0 param_count.

Fixpoint TryParse_locals (fuel : nat) (i get_locals_count : Z) : M (list TypeSignature) unit :=
  if decide (i < get_locals_count) then
    match fuel with
    | O => out_of_fuel
    | S fuel =>
        on_cursor (check_end len);;
        pbLocal ← cursor;
        on_cursor (ParseParamOrLocal pb len);;
        pbCur ← cursor;
        on_object (λ locals, locals ++ [span_to pbLocal pbCur]);;
        TryParse_locals fuel (i + 1) get_locals_count
    end
  else mret tt.

Definition FunctionLocalSignature_TryParse : M (list TypeSignature) unit :=
  temp ← on_cursor (ParseByte pb len);
  if decide (temp ≠ 0x07) then throw tt
  else
    get_locals_count ← on_cursor (ParseNumber pb len);
    TryParse_locals (S len) 0 get_locals_count.
End TryParse.

(** ** [TypeSignature::GetElementTypeAndFlags] *)

Definition TypeFlagByRef : Z := 0x01.
Definition TypeFlagVoid : Z := 0x02.
Definition TypeFlagBoxedType : Z := 0x04.
Definition TypeFlagPinnedType : Z := 0x08.

Definition boxed_element_types : list Z :=
  [ELEMENT_TYPE_BOOLEAN; ELEMENT_TYPE_CHAR; ELEMENT_TYPE_I1; ELEMENT_TYPE_U1; ELEMENT_TYPE_U2; ELEMENT_TYPE_I2;
   ELEMENT_TYPE_I4; ELEMENT_TYPE_U4; ELEMENT_TYPE_I8; ELEMENT_TYPE_U8; ELEMENT_TYPE_R4; ELEMENT_TYPE_R8;
   ELEMENT_TYPE_I; ELEMENT_TYPE_U; ELEMENT_TYPE_VALUETYPE; ELEMENT_TYPE_MVAR; ELEMENT_TYPE_VAR].

(** The cursor starts at [offset]; the result is the element type and the flags. *)
Definition GetElementTypeAndFlags (pb : list Z) : C (Z * Z) :=
  b ← peek pb;
  typeFlags ← (if decide (b = ELEMENT_TYPE_PTR) then advance;; mret (Z.lor 0 TypeFlagByRef) else mret 0);
  b ← peek pb;
  typeFlags ← (if decide (b = ELEMENT_TYPE_PINNED) then advance;; mret (Z.lor typeFlags TypeFlagPinnedType) else mret typeFlags);
  b ← peek pb;
  let typeFlags := if decide (b = ELEMENT_TYPE_VOID) then Z.lor typeFlags TypeFlagVoid else typeFlags in
  typeFlags ← (if decide (b = ELEMENT_TYPE_BYREF) then advance;; mret (Z.lor typeFlags TypeFlagByRef) else mret typeFlags);
  elementType ← peek pb;
  if decide (elementType ∈ boxed_element_types) then mret (elementType, Z.lor typeFlags TypeFlagBoxedType)
  else if decide (elementType = ELEMENT_TYPE_GENERICINST) then
    advance;;
    b ← peek pb;
    mret (elementType, if decide (b = ELEMENT_TYPE_VALUETYPE) then Z.lor typeFlags TypeFlagBoxedType else typeFlags)
  else mret (elementType, typeFlags).

(** ** [GenericTypeProps::TryParse] *)

Record GenericTypeProps := {
  SpecElementType : Z;
  OpenTypeToken : Z;
  GenericElementType : Z;
  ParamsCount : Z;
  IndexOfFirstParam : Z;
  ParamPosition : Z;
  ParamsSignature : list (nat * nat * Z); (* start, length and element type *)
}.

Section GenericProps.
Context (pb : list Z) (len : nat).

(** [while (elementType == ELEMENT_TYPE_BYREF) { ParseByte; offset++; }]: [len] iterations at
    most succeed. *)
Fixpoint skip_byref (fuel : nat) (elementType offset : Z) : C (Z * Z) :=
  if decide (elementType = ELEMENT_TYPE_BYREF) then
    match fuel with
    | O => out_of_fuel
    | S fuel => elementType ← ParseByte pb len; skip_byref fuel elementType (u32 (offset + 1))
    end
  else mret (elementType, offset).

(** [while ( *elementTypeSig == ELEMENT_TYPE_BYREF) elementTypeSig++;], then [*elementTypeSig]:
    the loop leaves the memory or stops before. *)
Fixpoint skip_byref_unchecked (fuel : nat) (elementTypeSig : nat) : C Z :=
  b ← lift_option (pb !! elementTypeSig);
  if decide (b = ELEMENT_TYPE_BYREF) then
    match fuel with
    | O => out_of_fuel
    | S fuel => skip_byref_unchecked fuel (elementTypeSig + 1)
    end
  else mret b.

Fixpoint parse_params (fuel : nat) (i paramCount : Z) (signatures : list (nat * nat * Z)) : C (list (nat * nat * Z)) :=
  if decide (i < paramCount) then
    match fuel with
    | O => out_of_fuel
    | S fuel =>
        copySig ← get;
        ParseType pb len (S len);;
        paramElementType ← skip_byref_unchecked (length pb) copySig;
        pbCur ← get;
        parse_params fuel (i + 1) paramCount (signatures ++ [(copySig, (pbCur - copySig)%nat, paramElementType)])
    end
  else mret signatures.

(** The cursor starts at 0.  [Err tt] is E_FAIL, the object is then unchanged. *)
Definition GenericTypeProps_TryParse : C GenericTypeProps :=
  specElementType ← ParseByte pb len;
  '(specElementType, offset) ← skip_byref len specElementType 0;
  if decide (specElementType = ELEMENT_TYPE_VAR ∨ specElementType = ELEMENT_TYPE_MVAR) then
    genericParamPosition ← ParseNumber pb len;
    mret {| SpecElementType := specElementType; OpenTypeToken := 0; GenericElementType := 0; ParamsCount := 0;
            IndexOfFirstParam := offset; ParamPosition := genericParamPosition; ParamsSignature := [] |}
  else if decide (specElementType ≠ ELEMENT_TYPE_GENERICINST) then throw tt
  else
    let offset := u32 (offset + 1) in
    elementType ← ParseByte pb len;
    '(elementType, offset) ← skip_byref len elementType offset;
    if decide (elementType ≠ ELEMENT_TYPE_CLASS ∧ elementType ≠ ELEMENT_TYPE_VALUETYPE) then throw tt
    else
      let offset := u32 (offset + 1) in
      pbCur ← get;
      match CorSigUncompressToken (drop pbCur pb) with
      | Stuck => stuck
      | Fuel => out_of_fuel
      | Err _ => throw tt
      | Ret (openGenericToken, tokenSigLength) =>
          let offset := u32 (offset + tokenSigLength) in
          put (pbCur + Z.to_nat tokenSigLength)%nat;;
          paramCount ← ParseNumber pb len;
          let offset := u32 (offset + 1) in
          signatures ← parse_params (S len) 0 paramCount [];
          mret {| SpecElementType := specElementType; OpenTypeToken := openGenericToken;
                  GenericElementType := elementType; ParamsCount := paramCount;
                  IndexOfFirstParam := offset; ParamPosition := 0; ParamsSignature := signatures |}
      end.
End GenericProps.

(** ** The grammar *)

(** A packed number, in one, two or four bytes. *)
Definition number_sig (bs : list Z) (n : Z) : Prop :=
  CorSigUncompressData bs (Z.of_nat (length bs)) = Ret (n, Z.of_nat (length bs)).

(** [n] phrases one after the other. *)
Inductive many (P : list Z → Prop) : nat → list Z → Prop :=
| many_nil : many P 0 []
| many_cons n bs bs' : P bs → many P n bs' → many P (S n) (bs ++ bs').
Arguments many_nil {P}.
Arguments many_cons {P}.

(** The element types the parser handles specially. *)
Definition structured_element_types : list Z :=
  [ELEMENT_TYPE_PTR; ELEMENT_TYPE_CLASS; ELEMENT_TYPE_VALUETYPE; ELEMENT_TYPE_FNPTR; ELEMENT_TYPE_ARRAY;
   ELEMENT_TYPE_SZARRAY; ELEMENT_TYPE_GENERICINST; ELEMENT_TYPE_VAR; ELEMENT_TYPE_MVAR].

Definition is_cmod (b : Z) : Prop := b = ELEMENT_TYPE_CMOD_OPT ∨ b = ELEMENT_TYPE_CMOD_REQD.

(** Type ::= code | (CLASS | VALUETYPE) Number | (VAR | MVAR) Number | SZARRAY Type
           | GENERICINST (CLASS | VALUETYPE) Number Number Type* *)
Inductive type_sig : list Z → Prop :=
| sig_code b : b ∉ structured_element_types → type_sig [b]
| sig_token b bs n : b = ELEMENT_TYPE_CLASS ∨ b = ELEMENT_TYPE_VALUETYPE → number_sig bs n → type_sig (b :: bs)
| sig_var b bs n : b = ELEMENT_TYPE_VAR ∨ b = ELEMENT_TYPE_MVAR → number_sig bs n → type_sig (b :: bs)
| sig_szarray bs : type_sig bs → (∀ b, head bs = Some b → ¬ is_cmod b) → type_sig (ELEMENT_TYPE_SZARRAY :: bs)
| sig_generic b tok tk num n args :
    b = ELEMENT_TYPE_CLASS ∨ b = ELEMENT_TYPE_VALUETYPE → number_sig tok tk → number_sig num n →
    many type_sig (Z.to_nat n) args → type_sig (ELEMENT_TYPE_GENERICINST :: b :: tok ++ num ++ args).

(** Param ::= [BYREF] [PTR] Type, without custom modifiers and TYPEDBYREF. *)
Definition param_sig (bs : list Z) : Prop :=
  ∃ r p t, bs = r ++ p ++ t ∧ (r = [] ∨ r = [ELEMENT_TYPE_BYREF]) ∧ (p = [] ∨ p = [ELEMENT_TYPE_PTR]) ∧ type_sig t ∧
    ∀ b, head bs = Some b → ¬ is_cmod b ∧ b ≠ ELEMENT_TYPE_TYPEDBYREF ∧ (r = [] → b ≠ ELEMENT_TYPE_BYREF).

(** RetType ::= VOID | [BYREF] Type *)
Definition ret_sig (bs : list Z) : Prop :=
  bs = [ELEMENT_TYPE_VOID] ∨
  ∃ r t, bs = r ++ t ∧ (r = [] ∨ r = [ELEMENT_TYPE_BYREF]) ∧ type_sig t ∧
    ∀ b, head bs = Some b → ¬ is_cmod b ∧ b ≠ ELEMENT_TYPE_TYPEDBYREF ∧ b ≠ ELEMENT_TYPE_VOID ∧ (r = [] → b ≠ ELEMENT_TYPE_BYREF).

Lemma number_sig_nonempty bs n : number_sig bs n → (0 < length bs)%nat.
Proof. destruct bs; [done|simpl; lia]. Qed.

Lemma type_sig_nonempty bs : type_sig bs → (0 < length bs)%nat.
Proof. destruct 1; simpl; lia. Qed.

Lemma many_length P n bs : (∀ bs, P bs → (0 < length bs)%nat) → many P n bs → (n ≤ length bs)%nat.
Proof. intros HP. induction 1 as [|n bs bs' H _ IH]; [simpl; lia|]. apply HP in H. rewrite length_app. lia. Qed.

Lemma many_short P n bs k : many P n bs → (length bs ≤ k)%nat → many (λ bs, P bs ∧ (length bs ≤ k)%nat) n bs.
Proof.
  induction 1 as [|n bs bs' H _ IH]; intros Hk; [apply many_nil|]. rewrite length_app in Hk.
  apply many_cons; [split; [done|lia]|apply IH; lia].
Qed.

Lemma param_sig_nonempty bs : param_sig bs → (0 < length bs)%nat.
Proof. intros (r & p & t & -> & _ & _ & Ht & _). apply type_sig_nonempty in Ht. rewrite !length_app. lia. Qed.

(** ** Reading *)

Abbreviation may_fail := (λ _ _, True).

(** The three bits of the leading byte the parser looks at, and the masks of [CorSigUncompressData]. *)
Lemma lead_bits : ∀ b, is_byte b →
  (Z.land b 0x80 ≠ 0 ∧ Z.land b 0x40 = 0 ↔ Z.land b 0xC0 = 0x80) ∧
  (Z.land b 0x80 ≠ 0 ∧ Z.land b 0x40 ≠ 0 ∧ Z.land b 0x20 = 0 ↔ Z.land b 0xE0 = 0xC0) ∧
  (Z.land b 0xC0 = 0x80 → Z.land b 0x80 ≠ 0) ∧ (Z.land b 0xE0 = 0xC0 → Z.land b 0x80 ≠ 0 ∧ Z.land b 0xC0 ≠ 0x80) ∧
  (b = 0xff → Z.land b 0x80 ≠ 0 ∧ Z.land b 0x40 ≠ 0 ∧ Z.land b 0x20 ≠ 0).
Proof. check_bytes. Qed.

Section Grammar.
Context (pb : list Z) (pbEnd : nat).
Context (Hbytes : Forall (λ b, is_byte b) pb) (Hend : (pbEnd ≤ length pb)%nat).

(** The bytes [bs] are at [c], before the end. *)
Definition reads (c : nat) (bs : list Z) : Prop :=
  (c + length bs ≤ pbEnd)%nat ∧ ∀ i b, bs !! i = Some b → pb !! (c + i)%nat = Some b.

Lemma reads_cons c b bs : reads c (b :: bs) ↔ (c < pbEnd)%nat ∧ pb !! c = Some b ∧ (bs = [] ∨ reads (S c) bs).
Proof.
  unfold reads. split.
  - intros [H1 H2]. simpl in H1. split_and!; [lia|specialize (H2 0%nat b eq_refl); by rewrite Nat.add_0_r in H2|].
    right. split; [lia|]. intros i b' Hi. specialize (H2 (S i) b' Hi). by rewrite Nat.add_succ_r in H2.
  - intros (H1 & H2 & [->|[H3 H4]]).
    + simpl. split; [lia|]. intros [|i] b'; [|done]. intros [= <-]. by rewrite Nat.add_0_r.
    + simpl. split; [lia|]. intros [|i] b'; [intros [= <-]; by rewrite Nat.add_0_r|].
      intros Hi%H4. by rewrite Nat.add_succ_r.
Qed.

Lemma reads_byte c b : (c < pbEnd)%nat → pb !! c = Some b → reads c [b].
Proof. intros. apply reads_cons. auto. Qed.

Lemma reads_app c bs bs' : reads c bs → reads (c + length bs) bs' → reads c (bs ++ bs').
Proof.
  intros [H1 H2] [H3 H4]. split; [rewrite length_app; lia|]. intros i b [Hi|[Hl Hi]]%lookup_app_Some; [by apply H2|].
  apply H4 in Hi. rewrite <-Hi. f_equal. lia.
Qed.

Lemma reads_app_inv c bs bs' : reads c (bs ++ bs') → reads c bs ∧ reads (c + length bs) bs'.
Proof.
  intros [H1 H2]. rewrite length_app in H1. split; (split; [lia|]); intros i b Hi.
  - apply H2. by apply lookup_app_l_Some.
  - specialize (H2 (length bs + i)%nat b). rewrite Nat.add_assoc in H2. apply H2.
    rewrite lookup_app_r by lia. by replace (length bs + i - length bs)%nat with i by lia.
Qed.

Lemma reads_byte_range c b bs : reads c (b :: bs) → is_byte b.
Proof.
  intros (_ & Hb & _)%reads_cons. apply list_elem_of_lookup_2 in Hb. by apply (proj1 (Forall_forall _ _) Hbytes) in Hb.
Qed.

(** [phrase P c c']: the bytes between the two cursors are a phrase of [P]. *)
Definition phrase (P : list Z → Prop) (c c' : nat) : Prop := ∃ bs, P bs ∧ reads c bs ∧ c' = (c + length bs)%nat.

Lemma ParseByte_wp c :
  wp (ParseByte pb pbEnd) c (λ b c', reads c [b] ∧ c' = S c) may_fail.
Proof.
  unfold ParseByte. wp_step (done). case_decide as Hc; [|done].
  destruct (lookup_lt_is_Some_2 pb c) as [b Hb]; [lia|]. rewrite Hb. wp_step (done). wp_step (done). eapply wp_run; [done|].
  split; [by apply reads_byte|done].
Qed.

Lemma ParseByte_run c b bs : reads c (b :: bs) → ParseByte pb pbEnd c = (Ret b, S c).
Proof.
  intros (Hc & Hb & _)%reads_cons. unfold ParseByte. run_by (done). rewrite decide_True by done. by rewrite Hb.
Qed.

Lemma check_end_wp c : wp (check_end pbEnd) c (λ _ c', c' = c ∧ (c < pbEnd)%nat) may_fail.
Proof. unfold check_end. wp_step (done). case_decide; [done|]. eapply wp_run; [done|]. split; [done|lia]. Qed.

Lemma check_end_run c b bs : reads c (b :: bs) → check_end pbEnd c = (Ret tt, c).
Proof. intros (Hc & _)%reads_cons. unfold check_end. run_by (done). by rewrite decide_False by lia. Qed.

Lemma peek_wp c : (c < pbEnd)%nat → wp (peek pb) c (λ b c', c' = c ∧ reads c [b]) (λ _ _, False).
Proof.
  intros Hc. unfold peek. wp_step (done). destruct (lookup_lt_is_Some_2 pb c) as [b Hb]; [lia|]. rewrite Hb.
  eapply wp_run; [done|]. split; [done|by apply reads_byte].
Qed.

Lemma peek_run c b bs : reads c (b :: bs) → peek pb c = (Ret b, c).
Proof. intros (_ & Hb & _)%reads_cons. unfold peek. run_by (done). by rewrite Hb. Qed.

(** *** Numbers *)

Lemma ParseNumber_wp c :
  wp (ParseNumber pb pbEnd) c (λ n, phrase (λ bs, number_sig bs n) c) may_fail.
Proof.
  unfold ParseNumber. apply wp_bind. eapply wp_mono; [apply ParseByte_wp|..|done]. intros b1 c1 (R1 & ->).
  case_decide; [done|]. pose proof (lead_bits b1 (reads_byte_range _ _ _ R1)) as (L2 & L4 & _).
  unfold phrase, number_sig, CorSigUncompressData.
  case_decide as E1.
  { eapply wp_run; [done|]. exists [b1]. cbn -[decide Z.land]. rewrite decide_True by done.
    split_and!; [done..|lia]. }
  apply wp_bind. eapply wp_mono; [apply ParseByte_wp|..|done]. intros b2 c2 (R2 & ->).
  case_decide as E2.
  { eapply wp_run; [done|]. exists [b1; b2]. cbn -[decide Z.land Z.lor]. rewrite decide_False, decide_True by tauto.
    split_and!; [done| |lia]. apply (reads_app c [b1] [b2]); [done|]. simpl. by rewrite Nat.add_1_r. }
  case_decide as E3; [done|]. apply wp_bind. eapply wp_mono; [apply ParseByte_wp|..|done]. intros b3 c3 (R3 & ->).
  apply wp_bind. eapply wp_mono; [apply ParseByte_wp|..|done]. intros b4 c4 (R4 & ->).
  eapply wp_run; [done|]. exists [b1; b2; b3; b4]. cbn -[decide Z.land Z.lor].
  rewrite decide_False, decide_False, decide_True by tauto. split_and!; [done| |lia].
  apply (reads_app c [b1] [b2; b3; b4]); [done|]. apply (reads_app _ [b2] [b3; b4]); [simpl; by rewrite Nat.add_1_r|].
  apply (reads_app _ [b3] [b4]); simpl; by rewrite !Nat.add_1_r.
Qed.

Lemma ParseNumber_run c bs n : number_sig bs n → reads c bs → ParseNumber pb pbEnd c = (Ret n, c + length bs)%nat.
Proof.
  intros Hn R. unfold number_sig, CorSigUncompressData in Hn.
  destruct bs as [|b1 bs]; [done|]. pose proof (reads_byte_range _ _ _ R) as Hb1.
  pose proof (lead_bits b1 Hb1) as (L2 & L4 & L5 & L6 & L7). cbn -[decide Z.land Z.lor] in Hn.
  unfold ParseNumber. run_by (by eapply ParseByte_run).
  apply reads_cons in R as (_ & _ & R).
  destruct (decide (Z.land b1 0x80 = 0)) as [E1|E1].
  { rewrite decide_False by (intros ->; done). case_decide; [done|]. injection Hn as <- Hl.
    destruct bs; [|simpl in Hl; lia]. unfold mret, stM_ret. f_equal. simpl. lia. }
  destruct (decide (Z.land b1 0xC0 = 0x80)) as [E2|E2].
  { rewrite decide_False by (intros ->; done). case_decide; [done|]. destruct bs as [|b2 bs]; [simpl in *; lia|].
    destruct R as [?|R]; [done|]. cbn -[Z.land Z.lor] in Hn. injection Hn as <- Hl. destruct bs; [|simpl in Hl; lia].
    run_by (by eapply ParseByte_run). rewrite decide_True by tauto. unfold mret, stM_ret. f_equal. simpl. lia. }
  destruct (decide (Z.land b1 0xE0 = 0xC0)) as [E3|E3]; [|done].
  rewrite decide_False by (intros ->; done). case_decide; [done|]. destruct bs as [|b2 [|b3 [|b4 bs]]]; [simpl in *; lia..|].
  destruct R as [?|R]; [done|]. pose proof R as R2. apply reads_cons in R as (_ & _ & R). destruct R as [?|R]; [done|].
  pose proof R as R3. apply reads_cons in R as (_ & _ & R). destruct R as [?|R]; [done|].
  cbn -[Z.land Z.lor] in Hn. injection Hn as <- Hl. destruct bs; [|simpl in Hl; lia].
  run_by (by eapply ParseByte_run). rewrite decide_False by tauto. rewrite decide_False by tauto.
  run_by (by eapply ParseByte_run). run_by (by eapply ParseByte_run). unfold mret, stM_ret. f_equal. simpl. lia.
Qed.

Lemma ParseTypeDefOrRef_run c bs n :
  number_sig bs n → reads c bs →
  ParseTypeDefOrRefEncoded pb pbEnd c = (Ret (Z.land n 0x3, Z.shiftr n 2), c + length bs)%nat.
Proof. intros. unfold ParseTypeDefOrRefEncoded. by run_by (by eapply ParseNumber_run). Qed.

(** *** Types *)

Lemma reads_nil c : (c ≤ pbEnd)%nat → reads c [].
Proof. intros. split; [simpl; lia|done]. Qed.

Lemma reads_end c bs : reads c bs → (c + length bs ≤ pbEnd)%nat.
Proof. by intros []. Qed.

Lemma parse_times_wp (parse : C unit) (P : list Z → Prop) c0 fuel i number c :
  (∀ c, (c0 ≤ c)%nat → wp parse c (λ _, phrase P c) may_fail) → (∀ bs, P bs → (0 < length bs)%nat) →
  (c0 ≤ c ≤ pbEnd)%nat → (pbEnd - c < fuel)%nat →
  wp (parse_times parse fuel i number) c (λ _, phrase (many P (Z.to_nat (number - i))) c) may_fail.
Proof.
  intros Hp HP. revert i c. induction fuel as [|fuel IH]; intros i c Hc Hf; [lia|]. cbn [parse_times].
  case_decide as Hi.
  2: { eapply wp_run; [done|]. exists []. replace (Z.to_nat (number - i)) with 0%nat by lia.
       split_and!; [apply many_nil|by apply reads_nil; lia|simpl; lia]. }
  apply wp_bind. eapply wp_mono; [apply Hp; lia|..|done]. intros _ c1 (bs & Hbs & R & ->).
  pose proof (HP _ Hbs). pose proof (reads_end _ _ R).
  eapply wp_mono; [apply IH; lia|..|done]. intros _ c2 (bs' & Hbs' & R' & ->).
  replace (Z.to_nat (number - i)) with (S (Z.to_nat (number - (i + 1)))) by lia.
  exists (bs ++ bs'). rewrite length_app. split_and!; [by apply many_cons|by apply reads_app|lia].
Qed.

Lemma parse_times_run (parse : C unit) (P : list Z → Prop) fuel i number n c bs :
  (∀ c bs, P bs → reads c bs → parse c = (Ret tt, c + length bs)%nat) →
  many P n bs → reads c bs → (n < fuel)%nat → Z.to_nat (number - i) = n →
  parse_times parse fuel i number c = (Ret tt, c + length bs)%nat.
Proof.
  intros Hp Hm. revert fuel i c. induction Hm as [|n bs bs' H _ IH]; intros fuel i c R Hf Hn;
    (destruct fuel as [|fuel]; [lia|]); cbn [parse_times].
  - rewrite decide_False by lia. unfold mret, stM_ret. f_equal. simpl. lia.
  - rewrite decide_True by lia. apply reads_app_inv in R as [R1 R2]. run_by (by apply Hp).
    rewrite IH by (done || lia). f_equal. rewrite length_app. lia.
Qed.

Lemma phrase_byte (P Q : list Z → Prop) c c' b :
  reads c [b] → (∀ bs, P bs → Q (b :: bs)) → phrase P (S c) c' → phrase Q c c'.
Proof.
  intros R HQ (bs & HP & R' & ->). exists (b :: bs). split_and!; [by apply HQ| |simpl; lia].
  apply (reads_app c [b] bs); [done|]. simpl. by rewrite Nat.add_1_r.
Qed.

Lemma reads_head c b bs b' : reads c [b] → reads c bs → head bs = Some b' → b' = b.
Proof.
  intros (_ & Hb & _)%reads_cons R. destruct bs as [|b'' bs]; [done|]. apply reads_cons in R as (_ & Hb' & _).
  intros [= ->]. congruence.
Qed.

(** [step tac]: the specification [tac] of the first action. *)
Tactic Notation "step" tactic3(tac) := apply wp_bind; eapply wp_mono; [solve [tac]|cbv beta|try done].

Lemma ParseType_wp fuel c :
  (pbEnd - c < fuel)%nat → wp (ParseType pb pbEnd fuel) c (λ _, phrase type_sig c) may_fail.
Proof.
  revert c. induction fuel as [|fuel IH]; intros c Hf; [lia|]. cbn [ParseType].
  step (apply ParseByte_wp). intros b c1 (R & ->). pose proof (reads_end _ _ R) as Hc. simpl in Hc.
  case_decide as N1; [done|]. case_decide as N2.
  { unfold ParseTypeDefOrRefEncoded. apply wp_bind. step (apply ParseNumber_wp). intros n c1 Hn. eapply wp_run; [done|].
    eapply wp_run; [done|]. eapply (phrase_byte (λ bs, number_sig bs n)); [done| |exact Hn]. intros bs Hbs. by eapply sig_token. }
  case_decide as N3; [done|]. case_decide as N4.
  { step (apply check_end_wp). intros _ c1 (-> & Hc1). step (by apply peek_wp). intros b' c1 (-> & R').
    case_decide as Hm; [done|]. eapply wp_mono; [apply IH; lia|..|done].
    intros _ c1 (bs & Hbs & R1 & ->). subst b. exists (ELEMENT_TYPE_SZARRAY :: bs). split_and!; [|by apply reads_cons; apply reads_cons in R as (? & ? & _); auto|simpl; lia].
    apply sig_szarray; [done|]. intros b Hb. by rewrite (reads_head _ _ _ _ R' R1 Hb). }
  case_decide as N5.
  { step (apply ParseByte_wp). intros b' c1 (R' & ->). case_decide as N6; [done|].
    unfold ParseTypeDefOrRefEncoded. apply wp_bind. step (apply ParseNumber_wp). intros tk c1 (tok & Htok & R1 & ->).
    eapply wp_run; [done|]. step (apply ParseNumber_wp). intros n c1 (num & Hnum & R2 & ->).
    pose proof (reads_end _ _ R2).
    eapply wp_mono; [apply (parse_times_wp _ type_sig (S c)); [intros; apply IH; lia|apply type_sig_nonempty|lia|lia]|..|done].
    intros _ c1 (args & Hargs & R3 & ->). subst b. rewrite Z.sub_0_r in Hargs.
    exists (ELEMENT_TYPE_GENERICINST :: b' :: tok ++ num ++ args). split_and!.
    - eapply sig_generic; [|done..]. destruct (decide (b' = ELEMENT_TYPE_CLASS)), (decide (b' = ELEMENT_TYPE_VALUETYPE)); tauto.
    - apply (reads_app c [ELEMENT_TYPE_GENERICINST]); [done|]. simpl length. rewrite Nat.add_1_r.
      apply (reads_app _ [b']); [done|]. simpl length. rewrite Nat.add_1_r. by repeat apply reads_app.
    - simpl. rewrite !length_app. lia. }
  case_decide as N6.
  { step (apply ParseNumber_wp). intros n c1 Hn. eapply wp_run; [done|].
    eapply (phrase_byte (λ bs, number_sig bs n)); [done| |exact Hn]. intros bs Hbs. by eapply sig_var. }
  eapply wp_run; [done|]. exists [b]. split_and!; [|done|simpl; lia]. apply sig_code.
  unfold structured_element_types. rewrite !not_elem_of_cons. pose proof (not_elem_of_nil b). tauto.
Qed.

(** The tests of the switch, for a byte of each kind. *)
Lemma ParseType_run fuel c bs :
  type_sig bs → reads c bs → (length bs ≤ fuel)%nat → ParseType pb pbEnd fuel c = (Ret tt, c + length bs)%nat.
Proof.
  revert c bs. induction fuel as [|fuel IH]; intros c bs Ht R Hf; [pose proof (type_sig_nonempty _ Ht); lia|].
  cbn [ParseType].
  destruct Ht as [b Hb|b bs n Hb Hn|b bs n Hb Hn|bs Ht Hm|b tok tk num n args Hb Htok Hnum Hargs].
  - run_by (by eapply ParseByte_run). unfold structured_element_types in Hb. rewrite !not_elem_of_cons in Hb.
    rewrite decide_False by tauto. rewrite decide_False by tauto. rewrite decide_False by tauto.
    rewrite decide_False by tauto. rewrite decide_False by tauto. rewrite decide_False by tauto.
    unfold mret, stM_ret. f_equal. simpl. lia.
  - run_by (by eapply ParseByte_run). apply reads_cons in R as (_ & _ & [->|R]); [done|].
    rewrite decide_False by (destruct Hb as [->| ->]; done). rewrite decide_True by done.
    run_by (by eapply ParseTypeDefOrRef_run). unfold mret, stM_ret. f_equal. simpl. lia.
  - run_by (by eapply ParseByte_run). apply reads_cons in R as (_ & _ & [->|R]); [done|].
    do 5 rewrite decide_False by (destruct Hb as [->| ->]; by intuition). rewrite decide_True by done.
    run_by (by eapply ParseNumber_run). unfold mret, stM_ret. f_equal. simpl. lia.
  - run_by (by eapply ParseByte_run). apply reads_cons in R as (_ & _ & [->|R]); [pose proof (type_sig_nonempty _ Ht) as Hne; simpl in Hne; lia|].
    do 3 rewrite decide_False by by intuition. rewrite decide_True by done.
    destruct bs as [|b bs]; [pose proof (type_sig_nonempty _ Ht) as Hne; simpl in Hne; lia|].
    run_by (by eapply check_end_run). run_by (by eapply peek_run).
    rewrite decide_False by (by apply Hm). rewrite (IH _ (b :: bs)) by (done || (simpl in *; lia)). f_equal. simpl. lia.
  - run_by (by eapply ParseByte_run). do 4 rewrite decide_False by by intuition. rewrite decide_True by done.
    apply reads_cons in R as (_ & _ & [?|R]); [done|]. run_by (by eapply ParseByte_run).
    rewrite decide_False by tauto.
    apply (reads_app_inv _ [b]) in R as [_ R]. apply reads_app_inv in R as [R1 R]. apply reads_app_inv in R as [R2 R3].
    simpl length in R1, R2, R3. rewrite Nat.add_1_r in R1, R2, R3.
    run_by (apply (ParseTypeDefOrRef_run _ tok tk Htok R1)).
    run_by (apply (ParseNumber_run _ num n Hnum R2)). simpl in Hf. rewrite !length_app in Hf. pose proof (reads_end _ _ R3).
    pose proof (many_length _ _ _ type_sig_nonempty Hargs).
    rewrite (parse_times_run _ (λ bs, type_sig bs ∧ (length bs ≤ fuel)%nat) _ _ _ (Z.to_nat n) _ args).
    + f_equal. simpl. rewrite !length_app. lia.
    + intros c' bs' [? ?] ?. by apply IH.
    + eapply many_short; [exact Hargs|lia].
    + done.
    + lia.
    + lia.
Qed.

(** *** Parameters and return types *)

(** A one-byte prefix that may be there. *)
Lemma optional_wp P c b e :
  reads c [b] →
  wp (if decide (b = e) then advance else mret tt : C unit) c
     (λ _ c', if decide (b = e) then c' = S c ∧ reads c [e] else c' = c) (λ _ _, P).
Proof. 
  intros R. destruct (decide (b = e)) as [<-|E]; by eapply wp_run.
Qed.

Lemma ParseParamOrLocal_wp c :
  wp (ParseParamOrLocal pb pbEnd) c (λ _, phrase param_sig c) may_fail.
Proof.
  unfold ParseParamOrLocal. step (apply check_end_wp). intros _ c1 (-> & Hc). step (by apply peek_wp).
  intros b c1 (-> & R). case_decide as N1; [done|]. case_decide as N2; [done|].
  step (by apply (optional_wp True)). intros _ c1 Hc1.
  assert (∃ r, reads c r ∧ (r = [] ∨ r = [ELEMENT_TYPE_BYREF]) ∧ c1 = (c + length r)%nat ∧ (r = [] → b ≠ ELEMENT_TYPE_BYREF) ∧
    (∀ b', head r = Some b' → b' = b)) as (r & Rr & Hr & -> & Hrb & Hrh).
  { case_decide as E.
    - destruct Hc1 as [-> R1]. exists [ELEMENT_TYPE_BYREF]. split_and!; [done|auto|simpl; lia|done|by intros b' [= <-]].
    - subst c1. exists []. split_and!; [by apply reads_nil; lia|auto|simpl; lia|done..]. }
  step (apply check_end_wp). intros _ c1 (-> & Hc1'). step (by apply peek_wp).
  intros b2 c1 (-> & R2). step (by apply (optional_wp True)). intros _ c2 Hc2.
  assert (∃ p, reads (c + length r) p ∧ (p = [] ∨ p = [ELEMENT_TYPE_PTR]) ∧ c2 = (c + length r + length p)%nat)
    as (p & Rp & Hp & ->).
  { case_decide as E.
    - destruct Hc2 as [-> R3]. exists [ELEMENT_TYPE_PTR]. split_and!; [done|auto|simpl; lia].
    - subst c2. exists []. split_and!; [by apply reads_nil; lia|auto|simpl; lia]. }
  eapply wp_mono; [apply ParseType_wp; lia|cbv beta|done]. intros _ c1 (t & Ht & Rt & ->).
  assert (Rall : reads c (r ++ p ++ t)) by by repeat apply reads_app.
  exists (r ++ p ++ t). split_and!; [|done|rewrite !length_app; lia]. exists r, p, t. split_and!; [done..|].
  intros b' Hb'. rewrite (reads_head _ _ _ _ R Rall Hb'). by split_and!.
Qed.

Lemma type_sig_head t b : type_sig t → head t = Some b → b ≠ ELEMENT_TYPE_PTR.
Proof.
  destruct 1 as [b' Hb|b' bs n Hb _|b' bs n Hb _|bs Ht|]; intros [= <-]; try done.
  - intros ->. apply Hb. unfold structured_element_types. set_solver.
  - by destruct Hb as [->| ->].
  - by destruct Hb as [->| ->].
Qed.

Lemma ParseParamOrLocal_run c bs :
  param_sig bs → reads c bs → ParseParamOrLocal pb pbEnd c = (Ret tt, c + length bs)%nat.
Proof.
  intros (r & p & t & -> & Hr & Hp & Ht & Hh) R. unfold ParseParamOrLocal.
  apply reads_app_inv in R as [R1 R2]. pose proof R2 as R3. apply reads_app_inv in R3 as [R3 R4].
  pose proof (type_sig_nonempty _ Ht) as Hne. destruct t as [|b t]; [simpl in Hne; lia|].
  pose proof (type_sig_head _ b Ht eq_refl) as HP. pose proof (reads_end _ _ R4).
  assert (Hnext : (check_end pbEnd;; b ← peek pb;
    (if decide (b = ELEMENT_TYPE_PTR) then advance else mret tt);; ParseType pb pbEnd (S pbEnd)) (c + length r)%nat =
    (Ret tt, (c + length (r ++ p ++ b :: t))%nat)).
  { destruct Hp as [->| ->]; cbn [app] in R2; run_by (by eapply check_end_run); run_by (by eapply peek_run).
    - rewrite decide_False by done. run_by (done). simpl in R4. rewrite Nat.add_0_r in R4.
      rewrite (ParseType_run _ _ (b :: t)) by (done || (simpl in *; lia)). f_equal. rewrite !length_app. simpl. lia.
    - rewrite decide_True by done. run_by (done). simpl length in R4. rewrite Nat.add_1_r in R4.
      rewrite (ParseType_run _ _ (b :: t)) by (done || (simpl in *; lia)). f_equal. rewrite !length_app. simpl. lia. }
  destruct Hr as [->| ->].
  - cbn [app length] in R2, Hh, Hnext. rewrite Nat.add_0_r in R2, Hnext. destruct (p ++ b :: t) as [|b' t'] eqn:E; [by destruct p|].
    destruct (Hh b' eq_refl) as (H1 & H2 & H3). run_by (by eapply check_end_run). run_by (by eapply peek_run).
    rewrite decide_False by done. rewrite decide_False by done. rewrite decide_False by auto.
    by run_by (done).
  - run_by (by eapply check_end_run). run_by (by eapply peek_run).
    rewrite decide_False by by intuition. rewrite decide_False by done. rewrite decide_True by done.
    run_by (done). simpl length in Hnext. rewrite Nat.add_1_r in Hnext. exact Hnext.
Qed.

Lemma ParseRetType_wp c :
  wp (ParseRetType pb pbEnd) c (λ _, phrase ret_sig c) may_fail.
Proof.
  unfold ParseRetType. step (apply check_end_wp). intros _ c1 (-> & Hc). step (by apply peek_wp).
  intros b c1 (-> & R). case_decide as N1; [done|]. case_decide as N2; [done|]. case_decide as N3.
  { eapply wp_run; [done|]. exists [b]. subst b. split_and!; [by left|done|simpl; lia]. }
  step (by apply (optional_wp True)). intros _ c1 Hc1.
  assert (∃ r, reads c r ∧ (r = [] ∨ r = [ELEMENT_TYPE_BYREF]) ∧ c1 = (c + length r)%nat ∧ (r = [] → b ≠ ELEMENT_TYPE_BYREF))
    as (r & Rr & Hr & -> & Hrb).
  { case_decide as E.
    - destruct Hc1 as [-> R1]. exists [ELEMENT_TYPE_BYREF]. split_and!; [done|auto|simpl; lia|done].
    - subst c1. exists []. split_and!; [by apply reads_nil; lia|auto|simpl; lia|done..]. }
  eapply wp_mono; [apply ParseType_wp; lia|cbv beta|done]. intros _ c1 (t & Ht & Rt & ->).
  assert (Rall : reads c (r ++ t)) by by repeat apply reads_app.
  exists (r ++ t). split_and!; [|done|rewrite !length_app; lia]. right. exists r, t. split_and!; [done..|].
  intros b' Hb'. rewrite (reads_head _ _ _ _ R Rall Hb'). by split_and!.
Qed.

Lemma ParseRetType_run c bs :
  ret_sig bs → reads c bs → ParseRetType pb pbEnd c = (Ret tt, c + length bs)%nat.
Proof.
  intros [->|(r & t & -> & Hr & Ht & Hh)] R; unfold ParseRetType.
  { run_by (by eapply check_end_run). run_by (by eapply peek_run).
    rewrite decide_False by by intuition. rewrite decide_False by done. rewrite decide_True by done.
    unfold advance, modify. f_equal. simpl. lia. }
  pose proof (type_sig_nonempty _ Ht) as Hne. destruct t as [|b t]; [simpl in Hne; lia|]. pose proof (reads_end _ _ R) as He.
  rewrite length_app in He.
  destruct Hr as [->| ->]; cbn [app] in R, Hh; run_by (by eapply check_end_run); run_by (by eapply peek_run).
  - destruct (Hh b eq_refl) as (H1 & H2 & H3 & H4). rewrite decide_False by done. rewrite decide_False by done.
    rewrite decide_False by done. rewrite decide_False by auto. run_by (done).
    by rewrite (ParseType_run _ _ (b :: t)) by (done || (simpl in *; lia)).
  - rewrite decide_False by by intuition. rewrite decide_False by done. rewrite decide_False by done.
    rewrite decide_True by done. run_by (done). apply (reads_app_inv _ [ELEMENT_TYPE_BYREF]) in R as [_ R].
    simpl length in R. rewrite Nat.add_1_r in R.
    rewrite (ParseType_run _ _ (b :: t)) by (done || (simpl in *; lia)). f_equal. simpl. lia.
Qed.

(** *** Whole signatures *)

(** Parameters from [c] on and where they are; one of them may be behind a sentinel, unless
    there has been one ([sent]). *)
Inductive param_spans : bool → nat → list TypeSignature → nat → Prop :=
| spans_nil sent c : param_spans sent c [] c
| spans_param sent c bs ps c' :
    param_sig bs → reads c bs → head bs ≠ Some ELEMENT_TYPE_SENTINEL → param_spans sent (c + length bs) ps c' →
    param_spans sent c ({| offset := c; length_ := length bs |} :: ps) c'
| spans_sentinel c bs ps c' :
    reads c [ELEMENT_TYPE_SENTINEL] → param_sig bs → reads (S c) bs → param_spans true (S c + length bs) ps c' →
    param_spans false c ({| offset := S c; length_ := length bs |} :: ps) c'.

(** The counts behind the calling convention. *)
Definition counts_sig (cc : Z) (bs : list Z) (type_args args : Z) : Prop :=
  if decide (Z.land cc IMAGE_CEE_CS_CALLCONV_GENERIC ≠ 0)
  then ∃ bs1 bs2, bs = bs1 ++ bs2 ∧ number_sig bs1 type_args ∧ number_sig bs2 args
  else type_args = 0 ∧ number_sig bs args.

(** [s] describes the method signature that ends at [c']. *)
Definition method_sig (s : FunctionMethodSignature) (c' : nat) : Prop :=
  ∃ cc counts ret, reads 0 (cc :: counts ++ ret) ∧ counts_sig cc counts (numberOfTypeArguments s) (numberOfArguments s) ∧
    ret_sig ret ∧ returnValue s = {| offset := S (length counts); length_ := length ret |} ∧
    param_spans false (S (length counts + length ret)) (params s) c' ∧
    length (params s) = Z.to_nat (numberOfArguments s).

Inductive local_spans : nat → list TypeSignature → nat → Prop :=
| locals_nil c : local_spans c [] c
| locals_cons c bs ps c' :
    param_sig bs → reads c bs → local_spans (c + length bs) ps c' →
    local_spans c ({| offset := c; length_ := length bs |} :: ps) c'.

Definition locals_sig (ls : list TypeSignature) (c' : nat) : Prop :=
  ∃ count n, reads 0 (0x07 :: count) ∧ number_sig count n ∧ local_spans (S (length count)) ls c' ∧ length ls = Z.to_nat n.

Lemma on_cursor_wp {T A} (m : C A) c (t : T) (Q : A → nat → Prop) :
  wp m c Q may_fail → wp (on_cursor m) (c, t) (λ a st, Q a st.1 ∧ st.2 = t) may_fail.
Proof. unfold wp, on_cursor. destruct (m c) as [[a|e| |] c'] eqn:E; cbn; try done. Qed.

Lemma on_cursor_run {T A} (m : C A) c (t : T) a c' : m c = (Ret a, c') → on_cursor m (c, t) = (Ret a, (c', t)).
Proof. intros H. unfold on_cursor. by rewrite H. Qed.

Lemma span_to_eq c n : span_to c (c + n) = {| offset := c; length_ := n |}.
Proof. unfold span_to. f_equal; lia. Qed.

(** [step_on tac]: likewise for an action on the cursor. *)
Tactic Notation "step_on" tactic3(tac) := step (apply on_cursor_wp; tac).

Lemma TryParse_params_wp fuel sent i count c s :
  (pbEnd - c < fuel)%nat → (c ≤ pbEnd)%nat →
  wp (TryParse_params pb pbEnd fuel sent i count) (c, s)
    (λ _ st, ∃ ps, st.2 = {| numberOfTypeArguments := numberOfTypeArguments s; numberOfArguments := numberOfArguments s;
                              returnValue := returnValue s; params := params s ++ ps |} ∧
             param_spans sent c ps st.1 ∧ length ps = Z.to_nat (count - i)) may_fail.
Proof.
  revert sent i c s. induction fuel as [|fuel IH]; intros sent i c s Hf Hc; [lia|]. cbn [TryParse_params].
  case_decide as Hi.
  2: { eapply wp_run; [done|]. exists []. rewrite app_nil_r. split_and!; [by destruct s|constructor|simpl; lia]. }
  step_on (apply check_end_wp). intros _ [c1 s1] [H1 Hs]. cbn in H1, Hs. destruct H1 as [-> Hc']. subst s1.
  step_on (eapply wp_mono; [by apply peek_wp|intros ? ? H'; exact H'|done]). intros b [c1 s1] [H1 Hs]. cbn in H1, Hs. destruct H1 as [-> R]. subst s1.
  assert (Hgo : ∀ sent' c1, (c ≤ c1 ≤ pbEnd)%nat →
    (∀ bs ps c', reads c1 bs → param_sig bs → param_spans sent' (c1 + length bs) ps c' →
       param_spans sent c ({| offset := c1; length_ := length bs |} :: ps) c') →
    wp (pbParam ← cursor; on_cursor (ParseParamOrLocal pb pbEnd);; pbCur ← cursor;
        on_object (λ s, {| numberOfTypeArguments := numberOfTypeArguments s; numberOfArguments := numberOfArguments s;
                           returnValue := returnValue s; params := params s ++ [span_to pbParam pbCur] |});;
        TryParse_params pb pbEnd fuel sent' (i + 1) count) (c1, s)
      (λ _ st, ∃ ps, st.2 = {| numberOfTypeArguments := numberOfTypeArguments s; numberOfArguments := numberOfArguments s;
                              returnValue := returnValue s; params := params s ++ ps |} ∧
             param_spans sent c ps st.1 ∧ length ps = Z.to_nat (count - i)) may_fail).
  { intros sent' c1 Hc1 Hspan. wp_step (done).
    step_on (apply ParseParamOrLocal_wp). intros _ [c2 s1] [H1 Hs]. cbn in H1, Hs. destruct H1 as (bs & Hbs & R' & ->). subst s1.
    pose proof (param_sig_nonempty _ Hbs). pose proof (reads_end _ _ R').
    wp_step (done). wp_step (done). eapply wp_mono; [apply IH; lia| |done].
    intros _ [c2 s1] (ps & Hs & Hps & Hl). cbn in Hs, Hps |- *. subst s1.
    exists ({| offset := c1; length_ := length bs |} :: ps). rewrite span_to_eq, <-app_assoc.
    split_and!; [done|by apply Hspan|simpl; lia]. }
  case_decide as Eb.
  - destruct sent; [done|]. wp_step (done). subst b. pose proof (reads_end _ _ R) as Hr. simpl in Hr. apply Hgo; [lia|].
    intros bs ps c' Rb Hbs Hps. by apply spans_sentinel.
  - wp_step (done). apply Hgo; [lia|]. intros bs ps c' Rb Hbs Hps. apply spans_param; [done..| |done].
    intros Hh. apply Eb. symmetry. exact (reads_head _ _ _ _ R Rb Hh).
Qed.

Lemma TryParse_params_run fuel sent i count c s ps c' :
  param_spans sent c ps c' → length ps = Z.to_nat (count - i) → (pbEnd - c < fuel)%nat →
  TryParse_params pb pbEnd fuel sent i count (c, s) =
    (Ret tt, (c', {| numberOfTypeArguments := numberOfTypeArguments s; numberOfArguments := numberOfArguments s;
                     returnValue := returnValue s; params := params s ++ ps |})).
Proof.
  intros Hps. revert fuel i s. induction Hps as [sent c|sent c bs ps c' Hbs R Hh Hps IH|c bs ps c' R Hbs R' Hps IH];
    intros fuel i s Hl Hf; (destruct fuel as [|fuel]; [lia|]); cbn [TryParse_params length] in *.
  - rewrite decide_False by lia. rewrite app_nil_r. by destruct s.
  - rewrite decide_True by lia. pose proof (param_sig_nonempty _ Hbs) as Hne. pose proof (reads_end _ _ R).
    pose proof (ParseParamOrLocal_run _ _ Hbs R) as Hrun.
    destruct bs as [|b bs]; [simpl in Hne; lia|].
    run_by (by eapply on_cursor_run, check_end_run). run_by (by eapply on_cursor_run, peek_run).
    rewrite decide_False by (intros ->; done). run_by (done). run_by (done). run_by (by apply on_cursor_run).
    run_by (done). run_by (done). rewrite IH by lia. rewrite span_to_eq. cbn. by rewrite <-app_assoc.
  - rewrite decide_True by lia. pose proof (param_sig_nonempty _ Hbs) as Hne. pose proof (reads_end _ _ R').
    run_by (by eapply on_cursor_run, check_end_run). run_by (by eapply on_cursor_run, peek_run).
    rewrite decide_True by done. run_by (run_by (done); done). run_by (done).
    run_by (by eapply on_cursor_run, ParseParamOrLocal_run). run_by (done). run_by (done).
    rewrite IH by lia. rewrite span_to_eq. cbn. by rewrite <-app_assoc.
Qed.

Lemma TryParse_locals_wp fuel i count c ls :
  (pbEnd - c < fuel)%nat → (c ≤ pbEnd)%nat →
  wp (TryParse_locals pb pbEnd fuel i count) (c, ls)
    (λ _ st, ∃ ps, st.2 = ls ++ ps ∧ local_spans c ps st.1 ∧ length ps = Z.to_nat (count - i)) may_fail.
Proof.
  revert i c ls. induction fuel as [|fuel IH]; intros i c ls Hf Hc; [lia|]. cbn [TryParse_locals].
  case_decide as Hi.
  2: { eapply wp_run; [done|]. exists []. rewrite app_nil_r. split_and!; [done|constructor|simpl; lia]. }
  step_on (apply check_end_wp). intros _ [c1 s1] [H1 Hs]. cbn in H1, Hs. destruct H1 as [-> Hc']. subst s1. wp_step (done).
  step_on (apply ParseParamOrLocal_wp). intros _ [c2 s1] [H1 Hs]. cbn in H1, Hs. destruct H1 as (bs & Hbs & R' & ->). subst s1.
  pose proof (param_sig_nonempty _ Hbs). pose proof (reads_end _ _ R').
  wp_step (done). wp_step (done). eapply wp_mono; [apply IH; lia| |done].
  intros _ [c2 s1] (ps & Hs & Hps & Hl). cbn in Hs, Hps |- *. subst s1.
  exists ({| offset := c; length_ := length bs |} :: ps). rewrite span_to_eq, <-app_assoc.
  split_and!; [done|by apply locals_cons|simpl; lia].
Qed.

Lemma TryParse_locals_run fuel i count c ls ps c' :
  local_spans c ps c' → length ps = Z.to_nat (count - i) → (pbEnd - c < fuel)%nat →
  TryParse_locals pb pbEnd fuel i count (c, ls) = (Ret tt, (c', ls ++ ps)).
Proof.
  intros Hps. revert fuel i ls. induction Hps as [c|c bs ps c' Hbs R Hps IH];
    intros fuel i ls Hl Hf; (destruct fuel as [|fuel]; [lia|]); cbn [TryParse_locals length] in *.
  - rewrite decide_False by lia. by rewrite app_nil_r.
  - rewrite decide_True by lia. pose proof (param_sig_nonempty _ Hbs) as Hne. pose proof (reads_end _ _ R).
    pose proof (ParseParamOrLocal_run _ _ Hbs R) as Hrun.
    destruct bs as [|b bs]; [simpl in Hne; lia|].
    run_by (by eapply on_cursor_run, check_end_run). run_by (done). run_by (by apply on_cursor_run).
    run_by (done). run_by (done). rewrite IH by lia. by rewrite span_to_eq, <-app_assoc.
Qed.

Lemma reads_counts cc counts ret c :
  reads c (cc :: counts ++ ret) → reads (S c) counts ∧ reads (S c + length counts) ret.
Proof.
  intros R. apply (reads_app_inv _ [cc]) in R as [_ R]. simpl length in R. rewrite Nat.add_1_r in R. by apply reads_app_inv.
Qed.

Lemma FunctionMethodSignature_TryParse_wp :
  wp (FunctionMethodSignature_TryParse pb pbEnd) (0%nat, empty_signature) (λ _ st, method_sig st.2 st.1) may_fail.
Proof.
  unfold FunctionMethodSignature_TryParse.
  step_on (apply ParseByte_wp). intros cc [c1 s1] [H1 Hs]. cbn in H1, Hs. destruct H1 as [R ->]. subst s1.
  apply wp_bind. apply (wp_mono _ _ (λ _ st, ∃ bs targs, reads 1 bs ∧ st.1 = (1 + length bs)%nat ∧
    (if decide (Z.land cc IMAGE_CEE_CS_CALLCONV_GENERIC ≠ 0) then number_sig bs targs else targs = 0 ∧ bs = []) ∧
    st.2 = {| numberOfTypeArguments := targs; numberOfArguments := 0; returnValue := {| offset := 0; length_ := 0 |}; params := [] |})
    _ may_fail); [| |done].
  { case_decide.
    - step_on (apply ParseNumber_wp). intros n [c1 s1] [H1 Hs]. cbn in H1, Hs. destruct H1 as (bs & Hbs & R' & ->). subst s1.
      eapply wp_run; [done|]. by exists bs, n.
    - eapply wp_run; [done|]. exists [], 0. split_and!; [|simpl; lia|done..]. apply reads_nil. pose proof (reads_end _ _ R). simpl in *. lia. }
  intros _ [c1 s1] (bs1 & targs & R1 & Hc & Hbs1 & Hs). cbn in Hc, Hs. subst c1 s1.
  step_on (apply ParseNumber_wp). intros n [c1 s1] [H1 Hs]. cbn in H1, Hs. destruct H1 as (bs2 & Hbs2 & R2 & ->). subst s1.
  wp_step (done). wp_step (done).
  step_on (apply ParseRetType_wp). intros _ [c1 s1] [H1 Hs]. cbn in H1, Hs. destruct H1 as (ret & Hret & R3 & ->). subst s1.
  wp_step (done). wp_step (done). pose proof (reads_end _ _ R3).
  eapply wp_mono; [apply TryParse_params_wp; lia| |done].
  intros _ [c2 s1] (ps & Hs & Hps & Hl). rewrite span_to_eq in Hs. cbn in Hs, Hps. subst s1. rewrite Z.sub_0_r in Hl.
  exists cc, (bs1 ++ bs2), ret. rewrite length_app.
  cbn [numberOfTypeArguments numberOfArguments returnValue params app]. split_and!.
  - apply (reads_app _ [cc]); [done|]. rewrite <-app_assoc. by repeat apply reads_app.
  - unfold counts_sig. case_decide; [by exists bs1, bs2|]. by destruct Hbs1 as [-> ->].
  - done.
  - done.
  - replace (S (length bs1 + length bs2 + length ret)) with (1 + length bs1 + length bs2 + length ret)%nat by lia. exact Hps.
  - done.
Qed.

Lemma FunctionMethodSignature_TryParse_run s c' :
  method_sig s c' → FunctionMethodSignature_TryParse pb pbEnd (0%nat, empty_signature) = (Ret tt, (c', s)).
Proof.
  intros (cc & counts & ret & R & Hcounts & Hret & Hrv & Hps & Hl). unfold FunctionMethodSignature_TryParse.
  run_by (by eapply on_cursor_run, ParseByte_run). destruct (reads_counts _ _ _ _ R) as [R1 R2].
  assert (∃ bs1 bs2, counts = bs1 ++ bs2 ∧ number_sig bs2 (numberOfArguments s) ∧ 
    (if decide (Z.land cc IMAGE_CEE_CS_CALLCONV_GENERIC ≠ 0) then number_sig bs1 (numberOfTypeArguments s)
     else numberOfTypeArguments s = 0 ∧ bs1 = [])) as (bs1 & bs2 & -> & Hn & Hgen).
  { unfold counts_sig in Hcounts. case_decide.
    - by destruct Hcounts as (bs1 & bs2 & -> & ? & ?); exists bs1, bs2.
    - destruct Hcounts. by exists [], counts. }
  apply reads_app_inv in R1 as [R0 R1]. rewrite length_app in R2, Hrv, Hps.
  erewrite stM_bind_Ret.
  2: { instantiate (1 := ((1 + length bs1)%nat, {| numberOfTypeArguments := numberOfTypeArguments s; numberOfArguments := 0;
         returnValue := {| offset := 0; length_ := 0 |}; params := [] |})). instantiate (1 := tt). case_decide.
       - run_by (by eapply on_cursor_run, ParseNumber_run). done.
       - by destruct Hgen as [-> ->]. }
  run_by (by eapply on_cursor_run, ParseNumber_run). run_by (done). run_by (done).
  rewrite Nat.add_assoc in R2.
  run_by (by eapply on_cursor_run, ParseRetType_run). run_by (done). run_by (done).
  pose proof (reads_end _ _ R2). rewrite span_to_eq.
  rewrite (TryParse_params_run _ _ _ _ _ _ (params s) c'); [|exact Hps|by rewrite Z.sub_0_r|lia].
  cbn. destruct s; cbn in *. subst. done.
Qed.

Lemma FunctionLocalSignature_TryParse_wp :
  wp (FunctionLocalSignature_TryParse pb pbEnd) (0%nat, []) (λ _ st, locals_sig st.2 st.1) may_fail.
Proof.
  unfold FunctionLocalSignature_TryParse.
  step_on (apply ParseByte_wp). intros b [c1 s1] [H1 Hs]. cbn in H1, Hs. destruct H1 as [R ->]. subst s1.
  case_decide as Hb; [done|]. assert (b = 0x07) as -> by (destruct (decide (b = 0x07)); tauto).
  step_on (apply ParseNumber_wp). intros n [c1 s1] [H1 Hs]. cbn in H1, Hs. destruct H1 as (bs & Hbs & R' & ->). subst s1.
  pose proof (reads_end _ _ R'). eapply wp_mono; [apply TryParse_locals_wp; lia| |done].
  intros _ [c2 s1] (ps & Hs & Hps & Hl). cbn in Hs, Hps |- *. subst s1. rewrite Z.sub_0_r in Hl.
  exists bs, n. split_and!; try done. by apply (reads_app _ [0x07]).
Qed.

Lemma FunctionLocalSignature_TryParse_run ls c' :
  locals_sig ls c' → FunctionLocalSignature_TryParse pb pbEnd (0%nat, []) = (Ret tt, (c', ls)).
Proof.
  intros (count & n & R & Hn & Hls & Hl). unfold FunctionLocalSignature_TryParse.
  run_by (by eapply on_cursor_run, ParseByte_run). rewrite decide_False by congruence.
  apply (reads_app_inv _ [0x07]) in R as [_ R].
  run_by (by eapply on_cursor_run, ParseNumber_run). pose proof (reads_end _ _ R).
  by rewrite (TryParse_locals_run _ _ _ _ _ ls c') by (done || rewrite ?Z.sub_0_r; done || lia).
Qed.

(** *** Generic instances *)

(** The type arguments from [c] on, as GenericTypeProps reports them. *)
Inductive type_spans : nat → list (nat * nat * Z) → nat → Prop :=
| type_spans_nil c : type_spans c [] c
| type_spans_cons c b bs ps c' :
    type_sig (b :: bs) → reads c (b :: bs) → b ≠ ELEMENT_TYPE_BYREF → type_spans (c + length (b :: bs)) ps c' →
    type_spans c ((c, length (b :: bs), b) :: ps) c'.

Lemma parse_params_run fuel i count c ps c' acc :
  type_spans c ps c' → length ps = Z.to_nat (count - i) → (pbEnd - c < fuel)%nat →
  parse_params pb pbEnd fuel i count acc c = (Ret (acc ++ ps), c').
Proof.
  intros Hps. revert fuel i acc. induction Hps as [c|c b bs ps c' Hbs R Hb Hps IH];
    intros fuel i acc Hl Hf; (destruct fuel as [|fuel]; [lia|]); cbn [parse_params].
  - simpl in Hl. rewrite decide_False by lia. by rewrite app_nil_r.
  - simpl in Hl. rewrite decide_True by lia. pose proof (reads_end _ _ R).
    assert (Hlen : (length (b :: bs) ≤ S pbEnd)%nat) by lia.
    run_by (done). run_by (exact (ParseType_run _ _ _ Hbs R Hlen)).
    assert (pb !! c = Some b) as Hc by (by apply reads_cons in R as (_ & ? & _)).
    run_by (destruct (length pb); cbn [skip_byref_unchecked]; rewrite Hc; (run_by (done)); by rewrite decide_False).
    run_by (done). replace (c + length (b :: bs) - c)%nat with (length (b :: bs)) by lia.
    rewrite IH by (simpl in *; lia). by rewrite <-app_assoc.
Qed.
End Grammar.

(** ** Properties *)

(** The parser of types, started before the end with one unit of fuel per byte, returns and
    succeeds exactly on the phrases of the grammar, stopping right behind them; it never reads
    outside the signature. *)
Theorem ParseType_exact pb pbEnd c c' :
  Forall (λ b, is_byte b) pb → (pbEnd ≤ length pb)%nat → (c ≤ pbEnd)%nat →
  (∃ c1, ParseType pb pbEnd (S pbEnd) c = (Err tt, c1) ∨ ParseType pb pbEnd (S pbEnd) c = (Ret tt, c1)) ∧
  (ParseType pb pbEnd (S pbEnd) c = (Ret tt, c') ↔ phrase pb pbEnd type_sig c c').
Proof.
  intros Hb He Hc. pose proof (ParseType_wp pb pbEnd Hb He (S pbEnd) c ltac:(lia)) as Hw. unfold wp in Hw.
  destruct (ParseType pb pbEnd (S pbEnd) c) as [[[]|[]| |] c1] eqn:E; try done.
  - split; [by exists c1; right|]. split; [by intros [= <-]|]. intros (bs & Hbs & R & ->).
    pose proof (reads_end _ _ _ _ R). by rewrite (ParseType_run pb pbEnd Hb He _ _ _ Hbs R) in E by lia.
  - split; [by exists c1; left|]. split; [done|]. intros (bs & Hbs & R & ->).
    pose proof (reads_end _ _ _ _ R). by rewrite (ParseType_run pb pbEnd Hb He _ _ _ Hbs R) in E by lia.
Qed.

(** C13: parsing a method signature returns for every byte string, and succeeds exactly on the
    method signatures, with the counts, the span of the return type and one span per parameter,
    in order; the same holds for the signatures of locals. *)
Theorem TryParse_exact pb len s ls c' :
  Forall (λ b, is_byte b) pb → (len ≤ length pb)%nat →
  (∃ st, FunctionMethodSignature_TryParse pb len (0%nat, empty_signature) = (Err tt, st) ∨
         FunctionMethodSignature_TryParse pb len (0%nat, empty_signature) = (Ret tt, st)) ∧
  (FunctionMethodSignature_TryParse pb len (0%nat, empty_signature) = (Ret tt, (c', s)) ↔ method_sig pb len s c') ∧
  (∃ st, FunctionLocalSignature_TryParse pb len (0%nat, []) = (Err tt, st) ∨
         FunctionLocalSignature_TryParse pb len (0%nat, []) = (Ret tt, st)) ∧
  (FunctionLocalSignature_TryParse pb len (0%nat, []) = (Ret tt, (c', ls)) ↔ locals_sig pb len ls c').
Proof.
  intros Hb He.
  pose proof (FunctionMethodSignature_TryParse_wp pb len Hb He) as Hm.
  pose proof (FunctionMethodSignature_TryParse_run pb len Hb He s c') as Hm'.
  pose proof (FunctionLocalSignature_TryParse_wp pb len Hb He) as Hl.
  pose proof (FunctionLocalSignature_TryParse_run pb len Hb He ls c') as Hl'. unfold wp in Hm, Hl.
  destruct (FunctionMethodSignature_TryParse _ _ _) as [[[]|[]| |] [c1 s1]]; try done;
    destruct (FunctionLocalSignature_TryParse _ _ _) as [[[]|[]| |] [c2 s2]]; try done; split_and!; eauto;
    split; intros H; try (by simplify_eq); try (by apply Hm'); try (by apply Hl').
Qed.

(** For the signature of a closed generic type whose arguments are not by reference,
    GenericTypeProps reports the open type, the number of arguments and the span of each.
    IndexOfFirstParam counts one byte for the number of arguments, and so is the index of the
    first argument only up to 127 of them.  A signature that ends behind CLASS is read past its
    end. *)
Theorem GenericTypeProps_TryParse_exact b tk n args ps c' :
  let pb := ELEMENT_TYPE_GENERICINST :: b :: packed (token_number tk) ++ packed n ++ args in
  let first := (2 + length (packed (token_number tk)) + length (packed n))%nat in
  Forall (λ b, is_byte b) pb → b = ELEMENT_TYPE_CLASS ∨ b = ELEMENT_TYPE_VALUETYPE → type_token tk → packable n →
  type_spans pb (length pb) first ps c' → length ps = Z.to_nat n →
  (∃ index, GenericTypeProps_TryParse pb (length pb) 0%nat =
    (Ret {| SpecElementType := ELEMENT_TYPE_GENERICINST; OpenTypeToken := tk; GenericElementType := b; ParamsCount := n;
            IndexOfFirstParam := index; ParamPosition := 0; ParamsSignature := ps |}, c') ∧
    (index = Z.of_nat first ↔ n < 128)) ∧
  GenericTypeProps_TryParse [ELEMENT_TYPE_GENERICINST; b] 2 0%nat = (Stuck, 2%nat).
Proof.
  intros pb first Hb Hk Htk Hn Hps Hl. split; [|by destruct Hk as [->| ->]].
  assert (R : reads pb (length pb) 0 pb) by (by split). pose proof (le_n (length pb)) as He.
  unfold pb in R at 2. unfold GenericTypeProps_TryParse.
  run_by (by eapply ParseByte_run). apply (reads_cons _ _ He) in R as (_ & _ & [?|R]); [done|].
  assert (Hskip : ∀ e off c, e ≠ ELEMENT_TYPE_BYREF → skip_byref pb (length pb) (length pb) e off c = (Ret (e, off), c)).
  { intros e off c Hne. destruct (length pb); cbn [skip_byref]; by rewrite decide_False. }
  run_by (by apply Hskip). cbv beta iota. rewrite decide_False by by intuition. rewrite decide_False by (intros H; by apply H).
  run_by (by eapply ParseByte_run). apply (reads_app_inv _ _ He _ [b]) in R as [_ R].
  run_by (apply Hskip; by destruct Hk as [->| ->]). cbv beta iota. rewrite decide_False by tauto. run_by (done).
  change (drop 2 pb) with (packed (token_number tk) ++ packed n ++ args). rewrite CorSigUncompressToken_packed by done.
  apply (reads_app_inv _ _ He) in R as [R1 R2]. apply (reads_app_inv _ _ He) in R2 as [R2 _]. simpl length in R1, R2. rewrite Nat2Z.id.
  run_by (done).
  run_by (eapply (ParseNumber_run _ _ Hb (le_n _) _ (packed n) n); [|exact R2];
    unfold number_sig; rewrite <-(app_nil_r (packed n)) at 1; by apply CorSigUncompressData_packed).
  run_by (apply (parse_params_run _ _ Hb (le_n _) _ _ _ _ ps c'); [exact Hps|by rewrite Z.sub_0_r|lia]).
  eexists. split; [done|]. pose proof (packed_length (token_number tk)). unfold first.
  autorewrite with width. rewrite (wrap_small 32 (0 + 1 + 1)) by lia. rewrite wrap_small by lia.
  assert (length (packed n) = 1%nat ↔ n < 128) as <- by (unfold packed; repeat case_decide; simpl; lia).
  lia.
Qed.

(** ** Instances *)

(** List<int, string[]>: GENERICINST CLASS 0x49 2 I4 SZARRAY STRING *)
Definition example_type : list Z := [0x15; 0x12; 0x49; 0x02; 0x08; 0x1d; 0x0e].

Lemma ParseType_exact_witness : phrase example_type 7 type_sig 0 7.
Proof.
  refine (proj1 (proj2 (ParseType_exact example_type 7 0 7 _ _ _)) _).
  - unfold example_type. repeat (apply Forall_cons; split; [lia|]). apply Forall_nil_2.
  - apply le_n.
  - lia.
  - reflexivity.
Defined.

(** An instance method with two parameters: the example type and a reference to an object. *)
Lemma TryParse_exact_witness :
  method_sig ([0x20; 0x02; 0x01] ++ example_type ++ [0x10; 0x1c]) 12
    {| numberOfTypeArguments := 0; numberOfArguments := 2; returnValue := {| offset := 2; length_ := 1 |};
       params := [{| offset := 3; length_ := 7 |}; {| offset := 10; length_ := 2 |}] |} 12.
Proof.
  refine (proj1 (proj1 (proj2 (TryParse_exact _ 12 _ [] _ _ _))) _).
  - unfold example_type. cbn [app]. repeat (apply Forall_cons; split; [lia|]). apply Forall_nil_2.
  - apply le_n.
  - reflexivity.
Defined.

Lemma GenericTypeProps_TryParse_exact_witness :
  ∃ index, GenericTypeProps_TryParse [0x15; 0x12; 0x49; 0x01; 0x08] 5 0%nat =
    (Ret {| SpecElementType := 0x15; OpenTypeToken := 0x01000012; GenericElementType := 0x12; ParamsCount := 1;
            IndexOfFirstParam := index; ParamPosition := 0; ParamsSignature := [(4%nat, 1%nat, 0x08)] |}, 5%nat) ∧
    (index = 4 ↔ 1 < 128).
Proof.
  refine (proj1 (GenericTypeProps_TryParse_exact 0x12 0x01000012 1 [0x08] [(4%nat, 1%nat, 0x08)] 5 _ _ _ _ _ _)).
  - vm_compute. repeat (apply Forall_cons; split; [split; [discriminate|reflexivity]|]). apply Forall_nil_2.
  - left. reflexivity.
  - exists mdtTypeRef, 0x12. split; [right; left; reflexivity|]. split; [lia|reflexivity].
  - lia.
  - apply (type_spans_cons _ _ 4 0x08 [] [] 5).
    + apply sig_code. unfold structured_element_types. rewrite !not_elem_of_cons. repeat split; try discriminate. apply not_elem_of_nil.
    + split; [simpl; lia|]. intros [|i] x Hx; [exact Hx|discriminate Hx].
    + discriminate.
    + apply type_spans_nil.
  - reflexivity.
Defined.
