(* ===== verification/SignatureBuilder.v ===== *)
(** * Building signatures (signature_builder.h)

    [SignatureBuilder] and its nested classes put a signature together from types.  A SignatureData
    is its bytes.  The main result: the parser of Signature.v takes a built method signature
    apart again into the pieces it was built from. *)

From S2P Require Import Prelude CorSig Signature.

(** ** [SignatureBuilder]: the bytes so far and what is appended *)

Definition PushRawByte (blob : list Z) (byte : Z) : list Z := blob ++ [byte].
Definition PushRawBytes (blob bytes : list Z) : list Z := blob ++ bytes.
Definition Push (blob inner : list Z) : list Z := blob ++ inner.

(** [for (i = 0; i < compressedSize; i++) PushRawByte(compressed[i]);]: with the size -1 the loop
    leaves the array of four bytes. *)
Definition push_compressed (blob : list Z) (compressed : option (list Z)) : outcome unit (list Z) :=
  match compressed with
  | Some compressed => mret (foldl PushRawByte blob compressed)
  | None => Stuck
  end.

Definition PushCompressedData (blob : list Z) (data : Z) : outcome unit (list Z) :=
  push_compressed blob (CorSigCompressData data).
Definition PushToken (blob : list Z) (token : Z) : outcome unit (list Z) :=
  push_compressed blob (CorSigCompressToken token).

(** ** The classes of types *)

Inductive MethodCallingConvection := Static | Instance_.
Inductive TokenTypeMode := ValueType | Class_.
Inductive GenericArgMode := OfType | OfMethod.

Definition calling_convection (m : MethodCallingConvection) : Z :=
  match m with Static => IMAGE_CEE_CS_CALLCONV_DEFAULT | Instance_ => IMAGE_CEE_CS_CALLCONV_HASTHIS end.
Definition token_type_mode (m : TokenTypeMode) : Z :=
  match m with ValueType => ELEMENT_TYPE_VALUETYPE | Class_ => ELEMENT_TYPE_CLASS end.
Definition generic_arg_mode (m : GenericArgMode) : Z :=
  match m with OfType => ELEMENT_TYPE_VAR | OfMethod => ELEMENT_TYPE_MVAR end.

(** [enum class BuiltIn] *)
Definition BuiltIn : list Z :=
  [ELEMENT_TYPE_VOID; ELEMENT_TYPE_BOOLEAN; ELEMENT_TYPE_CHAR; ELEMENT_TYPE_I1; ELEMENT_TYPE_U1; ELEMENT_TYPE_I2;
   ELEMENT_TYPE_U2; ELEMENT_TYPE_I4; ELEMENT_TYPE_U4; ELEMENT_TYPE_I8; ELEMENT_TYPE_U8; ELEMENT_TYPE_R4;
   ELEMENT_TYPE_R8; ELEMENT_TYPE_STRING; ELEMENT_TYPE_I; ELEMENT_TYPE_U; ELEMENT_TYPE_OBJECT].

Definition Type_ (builtin : Z) : list Z := [builtin].
Definition TokenType (type : TokenTypeMode) (token : Z) : outcome unit (list Z) :=
  PushToken (PushRawByte [] (token_type_mode type)) token.
Definition Array (type : list Z) : list Z := Push (PushRawByte [] ELEMENT_TYPE_SZARRAY) type.
Definition ByRef (type : list Z) : list Z := Push (PushRawByte [] ELEMENT_TYPE_BYREF) type.
Definition GenericArgument (type : GenericArgMode) (num : Z) : outcome unit (list Z) :=
  PushCompressedData (PushRawByte [] (generic_arg_mode type)) num.
Definition GenericInstance (open_generic : list Z) (generic_args : list (list Z)) : outcome unit (list Z) :=
  blob ← PushCompressedData (Push (PushRawByte [] ELEMENT_TYPE_GENERICINST) open_generic) (u32 (Z.of_nat (length generic_args)));
  mret (foldl Push blob generic_args).
Definition Field (field_type : list Z) : list Z := Push (PushRawByte [] IMAGE_CEE_CS_CALLCONV_FIELD) field_type.
Definition Method (calling : MethodCallingConvection) (return_type : list Z) (args : list (list Z)) : outcome unit (list Z) :=
  blob ← PushCompressedData (PushRawByte [] (calling_convection calling)) (u32 (Z.of_nat (length args)));
  mret (foldl Push (Push blob return_type) args).
Definition InstanceMethod := Method Instance_.
Definition StaticMethod := Method Static.

(** ** Expressions over these classes *)

Inductive type_expr :=
| EBuiltIn (b : Z)
| EToken (m : TokenTypeMode) (token : Z)
| EArray (t : type_expr)
| EByRef (t : type_expr)
| EGenericArgument (m : GenericArgMode) (num : Z)
| EGenericInstance (m : TokenTypeMode) (token : Z) (args : list type_expr).

Fixpoint build (t : type_expr) : outcome unit (list Z) :=
  match t with
  | EBuiltIn b => mret (Type_ b)
  | EToken m tk => TokenType m tk
  | EArray t => bs ← build t; mret (Array bs)
  | EByRef t => bs ← build t; mret (ByRef bs)
  | EGenericArgument m n => GenericArgument m n
  | EGenericInstance m tk args =>
      open_generic ← TokenType m tk;
      args ← (fix build_all (l : list type_expr) : outcome unit (list (list Z)) :=
        match l with
        | [] => mret []
        | t :: l => b ← build t; bs ← build_all l; mret (b :: bs)
        end) args;
      GenericInstance open_generic args
  end.

Fixpoint build_all (l : list type_expr) : outcome unit (list (list Z)) :=
  match l with
  | [] => mret []
  | t :: l => b ← build t; bs ← build_all l; mret (b :: bs)
  end.

(** A type by value: no reference in it, all numbers of the size metadata has. *)
Inductive by_value : type_expr → Prop :=
| value_builtin b : b ∈ BuiltIn → by_value (EBuiltIn b)
| value_token m tk : by_value (EToken m tk)
| value_array t : by_value t → by_value (EArray t)
| value_argument m n : packable n → by_value (EGenericArgument m n)
| value_instance m tk args :
    Forall by_value args → packable (Z.of_nat (length args)) → by_value (EGenericInstance m tk args).

(** A parameter or result: by value or by reference. *)
Definition parameter (t : type_expr) : Prop := by_value t ∨ ∃ t', t = EByRef t' ∧ by_value t'.

(** ** What is built is a phrase of the grammar *)

Lemma push_compressed_app blob c : push_compressed blob (Some c) = Ret (blob ++ c).
Proof.
  unfold push_compressed, mret, outcome_ret. f_equal. revert blob. induction c as [|b c IH]; intros blob; simpl; [by rewrite app_nil_r|].
  rewrite IH. unfold PushRawByte. by rewrite <-app_assoc.
Qed.

Lemma foldl_Push blob bss : foldl Push blob bss = blob ++ concat bss.
Proof.
  revert blob. induction bss as [|bs bss IH]; intros blob; simpl; [by rewrite app_nil_r|].
  rewrite IH. unfold Push. by rewrite <-app_assoc.
Qed.

Lemma number_sig_packed n : packable n → number_sig (packed n) n.
Proof. intros Hn. unfold number_sig. rewrite <-(app_nil_r (packed n)) at 1. by apply CorSigUncompressData_packed. Qed.

Lemma many_concat P bss : Forall P bss → many P (length bss) (concat bss).
Proof. induction 1; [apply many_nil|by apply many_cons]. Qed.

Lemma builtin_code b : b ∈ BuiltIn → b ∉ structured_element_types ∧ ¬ is_cmod b ∧
  b ≠ ELEMENT_TYPE_TYPEDBYREF ∧ b ≠ ELEMENT_TYPE_BYREF ∧ b ≠ ELEMENT_TYPE_SENTINEL ∧ is_byte b.
Proof.
  assert (Hall : Forall (λ b, b ∉ structured_element_types ∧ ¬ is_cmod b ∧
    b ≠ ELEMENT_TYPE_TYPEDBYREF ∧ b ≠ ELEMENT_TYPE_BYREF ∧ b ≠ ELEMENT_TYPE_SENTINEL ∧ is_byte b) BuiltIn).
  { unfold is_cmod. refine (bool_decide_unpack _ _). by vm_compute. }
  by apply (proj1 (Forall_forall _ _) Hall).
Qed.

(** What the parser needs of the bytes of a type. *)
Definition plain_type (bs : list Z) : Prop :=
  type_sig bs ∧ Forall (λ b, is_byte b) bs ∧
  ∀ b, head bs = Some b → ¬ is_cmod b ∧ b ≠ ELEMENT_TYPE_TYPEDBYREF ∧ b ≠ ELEMENT_TYPE_BYREF ∧ b ≠ ELEMENT_TYPE_SENTINEL.

Lemma build_instance m tk args :
  build (EGenericInstance m tk args) =
  (open_generic ← TokenType m tk; args ← build_all args; GenericInstance open_generic args).
Proof. reflexivity. Qed.

Lemma build_by_value t : by_value t → ∃ bs, build t = Ret bs ∧ plain_type bs.
Proof.
  revert t. fix IH 2. intros t [b Hb|m tk|t' Ht|m n Hn|m tk args Hargs Hlen].
  - exists [b]. split; [done|]. destruct (builtin_code b Hb) as (H1 & H2 & H3 & H4 & H5 & H6).
    split_and!; [by apply sig_code|by apply Forall_singleton|by intros b' [= <-]].
  - exists (token_type_mode m :: packed (token_number tk)). pose proof (token_number_range tk).
    split; [cbn [build]; unfold TokenType, PushToken; rewrite CorSigCompressToken_packed; apply push_compressed_app|]. split_and!.
    + eapply sig_token; [by destruct m; auto|]. by apply number_sig_packed; lia.
    + constructor; [by destruct m|]. apply packed_bytes. lia.
    + by intros b [= <-]; destruct m; split_and!; try done; intros [?|?].
  - destruct (IH t' Ht) as (bs & Hbs & H1 & H2 & H3). exists (ELEMENT_TYPE_SZARRAY :: bs). cbn [build]. rewrite Hbs.
    split; [done|]. split_and!.
    + apply sig_szarray; [done|]. intros b Hb. by apply H3.
    + by constructor.
    + by intros b [= <-]; split_and!; try done; intros [?|?].
  - exists (generic_arg_mode m :: packed n).
    split; [cbn [build]; unfold GenericArgument, PushCompressedData; rewrite CorSigCompressData_packed by done; apply push_compressed_app|].
    split_and!.
    + eapply sig_var; [by destruct m; auto|]. by apply number_sig_packed.
    + constructor; [by destruct m|]. by apply packed_bytes.
    + by intros b [= <-]; destruct m; split_and!; try done; intros [?|?].
  - assert (Hall : ∃ bss, build_all args = Ret bss ∧ Forall plain_type bss ∧ length bss = length args).
    { clear Hlen. induction Hargs as [|ti l Ht Hl IHl]; [by exists []|]. destruct (IH ti Ht) as (bs & Hbs & Hp).
      destruct IHl as (bss & Hbss & HF & Hlen). exists (bs :: bss). cbn [build_all]. rewrite Hbs, Hbss.
      split_and!; [done|by constructor|by simpl; rewrite Hlen]. }
    destruct Hall as (bss & Hbss & HF & Hl). pose proof (token_number_range tk).
    exists (ELEMENT_TYPE_GENERICINST :: token_type_mode m :: packed (token_number tk) ++ packed (Z.of_nat (length args)) ++ concat bss).
    split.
    { rewrite build_instance. unfold TokenType, PushToken.
      rewrite CorSigCompressToken_packed, push_compressed_app. cbn [mbind outcome_bind]. rewrite Hbss. cbn [mbind outcome_bind].
      unfold GenericInstance, PushCompressedData. rewrite Hl, wrap_small, CorSigCompressData_packed, push_compressed_app by lia.
      cbn [mbind outcome_bind]. rewrite foldl_Push. unfold Push, PushRawByte. cbn [app]. by rewrite <-!app_assoc. }
    split_and!.
    + eapply sig_generic; [by destruct m; auto|apply number_sig_packed; lia|by apply number_sig_packed|].
      rewrite Nat2Z.id, <-Hl. apply many_concat. eapply Forall_impl; [exact HF|]. by intros ? [].
    + constructor; [done|]. constructor; [by destruct m|]. rewrite !Forall_app. split_and!; [by apply packed_bytes; lia|by apply packed_bytes|].
      apply Forall_concat. eapply Forall_impl; [exact HF|]. by intros ? (? & ? & _).
    + by intros b [= <-]; split_and!; try done; intros [?|?].
Qed.

(** What is built for a parameter is a parameter of the grammar. *)
Lemma build_parameter t :
  parameter t → ∃ bs, build t = Ret bs ∧ param_sig bs ∧ Forall (λ b, is_byte b) bs ∧ head bs ≠ Some ELEMENT_TYPE_SENTINEL ∧
    (bs = [ELEMENT_TYPE_VOID] ∨ ret_sig bs).
Proof.
  intros [Ht|(t' & -> & Ht)]; destruct (build_by_value _ Ht) as (bs & Hbs & H1 & H2 & H3).
  - exists bs. split_and!; [done| |done| |].
    + exists [], [], bs. split_and!; [done|auto|auto|done|]. intros b Hb. destruct (H3 b Hb) as (? & ? & ? & ?). auto.
    + intros Hh. by destruct (H3 _ Hh) as (_ & _ & _ & ?).
    + destruct bs as [|b bs]; [by apply type_sig_nonempty in H1; simpl in H1; lia|].
      destruct (decide (b = ELEMENT_TYPE_VOID)) as [->|Hv].
      * inversion H1; subst; try (by destruct H2 as [? ?]). 1: by left. all: by intuition.
      * right. right. exists [], (b :: bs). split_and!; [done|auto|done|]. intros b' [= <-]. destruct (H3 b eq_refl) as (? & ? & ? & ?). auto.
  - exists (ELEMENT_TYPE_BYREF :: bs). cbn [build]. rewrite Hbs. split_and!; [done| |by constructor|done|].
    + exists [ELEMENT_TYPE_BYREF], [], bs. split_and!; [done|auto|auto|done|]. intros b [= <-].
      split_and!; [by intros [?|?]|done|done].
    + right. right. exists [ELEMENT_TYPE_BYREF], bs. split_and!; [done|auto|done|]. intros b [= <-].
      split_and!; [by intros [?|?]|done..].
Qed.

Lemma build_all_parameters l :
  Forall parameter l → ∃ bss, build_all l = Ret bss ∧ length bss = length l ∧
    Forall (λ bs, param_sig bs ∧ Forall (λ b, is_byte b) bs ∧ head bs ≠ Some ELEMENT_TYPE_SENTINEL) bss.
Proof.
  induction 1 as [|t l Ht Hl (bss & Hbss & Hlen & HF)]; [by exists []|].
  destruct (build_parameter t Ht) as (bs & Hbs & H1 & H2 & H3 & _). exists (bs :: bss). cbn [build_all]. rewrite Hbs, Hbss.
  split_and!; [done|by simpl; rewrite Hlen|by constructor].
Qed.

(** The bytes of a part of a signature. *)
Definition part (bs : list Z) (s : TypeSignature) : list Z := slice (offset s) (length_ s) bs.

Lemma part_app pre bs post : part (pre ++ bs ++ post) {| offset := length pre; length_ := length bs |} = bs.
Proof. unfold part, slice. cbn [offset length_]. by rewrite drop_app_length, take_app_length. Qed.

Fixpoint spans_of (c : nat) (bss : list (list Z)) : list TypeSignature :=
  match bss with
  | [] => []
  | bs :: bss => {| offset := c; length_ := length bs |} :: spans_of (c + length bs) bss
  end.

Lemma length_spans_of c bss : length (spans_of c bss) = length bss.
Proof. revert c. induction bss as [|bs bss IH]; intros c; simpl; [done|]. by rewrite IH. Qed.

Lemma spans_of_parts pre bss post : part (pre ++ concat bss ++ post) <$> spans_of (length pre) bss = bss.
Proof.
  revert pre. induction bss as [|bs bss IH]; intros pre; [done|]. cbn [concat spans_of fmap list_fmap].
  f_equal; [rewrite <-app_assoc; apply part_app|]. rewrite <-length_app. rewrite <-app_assoc, (app_assoc pre). apply IH.
Qed.

Lemma reads_mid pre bs post : reads (pre ++ bs ++ post) (length (pre ++ bs ++ post)) (length pre) bs.
Proof.
  split; [rewrite !length_app; lia|]. intros i b Hi. rewrite lookup_app_r by lia.
  replace (length pre + i - length pre)%nat with i by lia. by apply lookup_app_l_Some.
Qed.

Lemma param_spans_of pre bss :
  Forall (λ bs, param_sig bs ∧ Forall (λ b, is_byte b) bs ∧ head bs ≠ Some ELEMENT_TYPE_SENTINEL) bss →
  param_spans (pre ++ concat bss) (length (pre ++ concat bss)) false (length pre) (spans_of (length pre) bss) (length (pre ++ concat bss)).
Proof.
  intros HF. revert pre. induction HF as [|bs bss (H1 & H2 & H3) _ IH]; intros pre; cbn [concat spans_of].
  - rewrite app_nil_r. constructor.
  - constructor; [done|apply reads_mid|done|]. rewrite <-length_app. rewrite app_assoc. apply IH.
Qed.

(** ** Properties *)

(** C38: A method signature built from a result and parameters, by value or by reference, is
    parsed again: the parser succeeds at its end, with the number of parameters, and the spans it
    reports hold exactly the bytes built for the result and for each parameter. The number of
    parameters, the numbers of generic arguments and the lengths of their lists are those the
    packed encoding has, below [2^29]. *)
Theorem Method_parses calling ret args :
  parameter ret → Forall parameter args → packable (Z.of_nat (length args)) →
  ∃ ret_bytes arg_bytes bs s,
    build ret = Ret ret_bytes ∧ build_all args = Ret arg_bytes ∧ Method calling ret_bytes arg_bytes = Ret bs ∧
    FunctionMethodSignature_TryParse bs (length bs) (0%nat, empty_signature) = (Ret tt, (length bs, s)) ∧
    numberOfTypeArguments s = 0 ∧ numberOfArguments s = Z.of_nat (length args) ∧
    part bs (returnValue s) = ret_bytes ∧ part bs <$> params s = arg_bytes.
Proof.
  intros Hret Hargs Hlen. destruct (build_parameter ret Hret) as (rb & Hrb & _ & Hb1 & _ & Hret').
  destruct (build_all_parameters args Hargs) as (abs & Habs & Hl & HF).
  assert (Hrs : ret_sig rb) by (destruct Hret'; [by left|done]).
  set (cc := calling_convection calling). set (n := Z.of_nat (length args)) in *.
  set (pre := cc :: packed n ++ rb). set (s := {| numberOfTypeArguments := 0; numberOfArguments := n;
    returnValue := {| offset := S (length (packed n)); length_ := length rb |}; params := spans_of (length pre) abs |}).
  exists rb, abs, (pre ++ concat abs), s. split_and!; [done|done| | |done|done| |].
  - unfold Method, PushCompressedData. rewrite Hl, wrap_small, CorSigCompressData_packed, push_compressed_app by (unfold n in *; lia).
    cbn [mbind outcome_bind]. rewrite foldl_Push. unfold Push, PushRawByte, pre. cbn [app]. by rewrite <-!app_assoc.
  - apply FunctionMethodSignature_TryParse_run; [|done|].
    { unfold pre. cbn [app]. constructor; [unfold cc; by destruct calling|]. rewrite !Forall_app. split_and!; [by apply packed_bytes|done|].
      apply Forall_concat. eapply Forall_impl; [exact HF|]. by intros ? (_ & ? & _). }
    exists cc, (packed n), rb. split_and!.
    + apply (reads_mid [] pre (concat abs)).
    + unfold counts_sig. rewrite decide_False by (unfold cc; by destruct calling; intros H; apply H). split; [done|by apply number_sig_packed].
    + done.
    + done.
    + cbn [params s]. replace (S (length (packed n) + length rb)) with (length pre) by (unfold pre; simpl; by rewrite length_app).
      by apply param_spans_of.
    + cbn [params numberOfArguments s]. rewrite length_spans_of, Hl. unfold n. by rewrite Nat2Z.id.
  - cbn [returnValue s]. unfold pre. change (S (length (packed n))) with (length (cc :: packed n)).
    rewrite app_comm_cons, <-app_assoc. apply part_app.
  - cbn [params s]. rewrite <-(app_nil_r (concat abs)). apply spans_of_parts.
Qed.

(** static bool M(List<int>, ref object) *)
Lemma Method_parses_witness :
  ∃ ret_bytes arg_bytes bs s,
    build (EBuiltIn ELEMENT_TYPE_BOOLEAN) = Ret ret_bytes ∧
    build_all [EGenericInstance Class_ 0x01000012 [EBuiltIn ELEMENT_TYPE_I4]; EByRef (EBuiltIn ELEMENT_TYPE_OBJECT)] = Ret arg_bytes ∧
    Method Static ret_bytes arg_bytes = Ret bs ∧
    FunctionMethodSignature_TryParse bs (length bs) (0%nat, empty_signature) = (Ret tt, (length bs, s)) ∧
    numberOfTypeArguments s = 0 ∧ numberOfArguments s = 2 ∧ part bs (returnValue s) = ret_bytes ∧ part bs <$> params s = arg_bytes.
Proof.
  apply (Method_parses Static (EBuiltIn ELEMENT_TYPE_BOOLEAN)
    [EGenericInstance Class_ 0x01000012 [EBuiltIn ELEMENT_TYPE_I4]; EByRef (EBuiltIn ELEMENT_TYPE_OBJECT)]).
  - left. apply value_builtin. unfold BuiltIn. set_solver.
  - apply Forall_cons. split; [|apply Forall_cons; split; [|apply Forall_nil_2]].
    + left. apply value_instance; [|simpl; lia]. apply Forall_singleton, value_builtin. unfold BuiltIn. set_solver.
    + right. exists (EBuiltIn ELEMENT_TYPE_OBJECT). split; [reflexivity|]. apply value_builtin. unfold BuiltIn. set_solver.
  - simpl. lia.
Defined.
