(* ===== verification/TypeNameParser.v ===== *)
(** * Assembly references in reflection type names (type_name_assembly_reference_parser.h/.cpp,
    ascii_string_utils.h)

    The parser finds the assembly qualifications of a type name such as
    [Outer`1[[Inner, A, Version=1.0.0.0]], B, Version=2.0.0.0], generic arguments included.

    A type name is its UTF-8 bytes; positions are indices into it.  The vector [references] is
    the state of the monad; [return false] is [throw tt]; reading a byte outside the string is
    [stuck].  The main results: for every byte string the parser returns, with all reads inside
    the string, and the references it reports lie inside the string, in order and apart. *)

From S2P Require Import Prelude.

(** ** ascii_string_utils.h *)

Definition ToAsciiLower (value : Z) : Z :=
  if decide (65 ≤ value ∧ value ≤ 90) then value - 65 + 97 else value.

Definition EqualsIgnoreAsciiCase (left right : list Z) : bool :=
  bool_decide (length left = length right) &&
  forallb (λ p, bool_decide (ToAsciiLower p.1 = ToAsciiLower p.2)) (zip left right).

(** ** Data *)

Record Span := { begin : nat; end_ : nat }.
Definition Empty (span : Span) : bool := bool_decide (end_ span ≤ begin span)%nat.
Definition View (span : Span) (value : list Z) : list Z := slice (begin span) (end_ span - begin span) value.

Record ParsedAssemblyReference := {
  assembly_name : list Z;
  insert_version_at : nat;
  version_span : option Span;
}.

Abbreviation P := (stM (list ParsedAssemblyReference) unit).

(** [value[i]] of a std::string_view. *)
Definition char_at (value : list Z) (i : nat) : P Z := lift_option (value !! i).

(** ASCII. *)
Definition ch_space : Z := 32.
Definition ch_dquote : Z := 34.
Definition ch_squote : Z := 39.
Definition ch_comma : Z := 44.
Definition ch_equals : Z := 61.
Definition ch_lbracket : Z := 91.
Definition ch_backslash : Z := 92.
Definition ch_rbracket : Z := 93.

(** ** [Span::Trimmed] *)

Definition is_ascii_space (c : Z) : bool :=
  bool_decide (c = 32) || bool_decide (c = 9) || bool_decide (c = 10) || bool_decide (c = 11) ||
  bool_decide (c = 12) || bool_decide (c = 13).

Fixpoint trim_begin (fuel : nat) (value : list Z) (span : Span) : P Span :=
  if Empty span then mret span
  else match fuel with
  | O => out_of_fuel
  | S fuel =>
      c ← char_at value (begin span);
      if is_ascii_space c then trim_begin fuel value {| begin := begin span + 1; end_ := end_ span |}
      else mret span
  end.

Fixpoint trim_end (fuel : nat) (value : list Z) (span : Span) : P Span :=
  if Empty span then mret span
  else match fuel with
  | O => out_of_fuel
  | S fuel =>
      c ← char_at value (end_ span - 1);
      if is_ascii_space c then trim_end fuel value {| begin := begin span; end_ := end_ span - 1 |}
      else mret span
  end.

(** Each iteration shortens the span: its length is the fuel. *)
Definition Trimmed (value : list Z) (span : Span) : P Span :=
  span ← trim_begin (end_ span - begin span) value span;
  trim_end (end_ span - begin span) value span.

(** ** Searches *)

(** The quote that is active after [c]; [0] is outside quotes. *)
Definition toggle_quote (active_quote c : Z) : Z :=
  if decide (active_quote = 0) then c else if decide (active_quote = c) then 0 else active_quote.

Fixpoint find_unescaped (fuel : nat) (value : list Z) (stop : nat) (expected : Z)
    (active_quote : Z) (current_position : nat) : P (option nat) :=
  if decide (current_position < stop)%nat then
    match fuel with
    | O => out_of_fuel
    | S fuel =>
        c ← char_at value current_position;
        if decide (c = ch_backslash) then
          if decide (current_position + 1 = stop)%nat then throw tt
          else find_unescaped fuel value stop expected active_quote (current_position + 2)
        else if decide (c = ch_squote ∨ c = ch_dquote) then
          find_unescaped fuel value stop expected (toggle_quote active_quote c) (current_position + 1)
        else if decide (c = ch_lbracket ∨ c = ch_rbracket) then
          if decide (active_quote = 0) then throw tt
          else find_unescaped fuel value stop expected active_quote (current_position + 1)
        else if decide (active_quote = 0 ∧ c = expected) then mret (Some current_position)
        else find_unescaped fuel value stop expected active_quote (current_position + 1)
    end
  else if decide (active_quote = 0) then mret None else throw tt.

Definition TryFindUnescaped (value : list Z) (span : Span) (expected : Z) : P (option nat) :=
  find_unescaped (end_ span - begin span) value (end_ span) expected 0 (begin span).

Fixpoint find_top_level (fuel : nat) (type_name : list Z) (stop : nat) (separator : Z)
    (bracket_depth : nat) (active_quote : Z) (current_position : nat) : P (option nat) :=
  if decide (current_position < stop)%nat then
    match fuel with
    | O => out_of_fuel
    | S fuel =>
        c ← char_at type_name current_position;
        if decide (c = ch_backslash) then
          if decide (current_position + 1 = stop)%nat then throw tt
          else find_top_level fuel type_name stop separator bracket_depth active_quote (current_position + 2)
        else if decide (c = ch_squote ∨ c = ch_dquote) then
          find_top_level fuel type_name stop separator bracket_depth (toggle_quote active_quote c) (current_position + 1)
        else if decide (c = ch_lbracket) then
          find_top_level fuel type_name stop separator
            (if decide (active_quote = 0) then bracket_depth + 1 else bracket_depth) active_quote (current_position + 1)
        else if decide (c = ch_rbracket) then
          if decide (active_quote = 0) then
            match bracket_depth with
            | O => throw tt
            | S d => find_top_level fuel type_name stop separator d active_quote (current_position + 1)
            end
          else find_top_level fuel type_name stop separator bracket_depth active_quote (current_position + 1)
        else if decide (active_quote = 0 ∧ c = separator ∧ bracket_depth = 0%nat) then mret (Some current_position)
        else find_top_level fuel type_name stop separator bracket_depth active_quote (current_position + 1)
    end
  else if decide (active_quote = 0 ∧ bracket_depth = 0%nat) then mret None else throw tt.

Definition TryFindTopLevelSeparator (type_name : list Z) (span : Span) (separator : Z) : P (option nat) :=
  find_top_level (end_ span - begin span) type_name (end_ span) separator 0 0 (begin span).

Fixpoint find_closing (fuel : nat) (type_name : list Z) (stop : nat) (depth : nat) (active_quote : Z)
    (position : nat) : P (option nat) :=
  if decide (position < stop)%nat then
    match fuel with
    | O => out_of_fuel
    | S fuel =>
        c ← char_at type_name position;
        if decide (c = ch_backslash) then
          if decide (position + 1 = stop)%nat then mret None
          else find_closing fuel type_name stop depth active_quote (position + 2)
        else if decide (c = ch_squote ∨ c = ch_dquote) then
          find_closing fuel type_name stop depth (toggle_quote active_quote c) (position + 1)
        else if decide (c = ch_lbracket) then
          find_closing fuel type_name stop (if decide (active_quote = 0) then depth + 1 else depth) active_quote (position + 1)
        else if decide (c = ch_rbracket) then
          if decide (active_quote = 0) then
            if decide (depth - 1 = 0)%nat then mret (Some position)
            else find_closing fuel type_name stop (depth - 1) active_quote (position + 1)
          else find_closing fuel type_name stop depth active_quote (position + 1)
        else find_closing fuel type_name stop depth active_quote (position + 1)
    end
  else mret None.

Definition FindClosingBracket (type_name : list Z) (opening_bracket stop : nat) : P (option nat) :=
  if decide (stop ≤ opening_bracket)%nat then mret None
  else
    c ← char_at type_name opening_bracket;
    if decide (c ≠ ch_lbracket) then mret None
    else find_closing (stop - opening_bracket - 1) type_name stop 1 0 (opening_bracket + 1).

(** ** Parts of an assembly qualification *)

Definition is_quote (c : Z) : bool := bool_decide (c = ch_squote) || bool_decide (c = ch_dquote).

(** [std::find_if(value.begin() + entry.begin, value.begin() + entry.end, is_quote) == end]. *)
Fixpoint no_quote (n : nat) (value : list Z) (i : nat) : P bool :=
  match n with
  | O => mret true
  | S n => c ← char_at value i; if is_quote c then mret false else no_quote n value (i + 1)
  end.

Definition TryGetUnquoted (value : list Z) (entry : Span) : P Span :=
  if Empty entry then mret entry
  else
    quote ← char_at value (begin entry);
    if negb (is_quote quote) then
      ok ← no_quote (end_ entry - begin entry) value (begin entry);
      if (ok : bool) then mret entry else throw tt
    else if decide (end_ entry - begin entry < 2)%nat then throw tt
    else
      last ← char_at value (end_ entry - 1);
      if decide (last ≠ quote) then throw tt
      else mret {| begin := begin entry + 1; end_ := end_ entry - 1 |}.

(** Returns the rest of the qualification and the part. *)
Definition TryGetNextQualifierPart (value : list Z) (remaining : Span) : P (Span * Span) :=
  separator_position ← TryFindUnescaped value remaining ch_comma;
  let part := {| begin := begin remaining; end_ := default (end_ remaining) separator_position |} in
  let remaining' := {| begin := match separator_position with Some p => p + 1 | None => end_ remaining end;
                       end_ := end_ remaining |} in
  part ← Trimmed value part;
  mret (remaining', part).

Fixpoint Unescape (value : list Z) : list Z :=
  match value with
  | [] => []
  | c :: rest =>
      match rest with
      | c' :: rest' => if decide (c = ch_backslash) then c' :: Unescape rest' else c :: Unescape rest
      | [] => [c]
      end
  end.

(** "Version" *)
Definition version_key : list Z := [86; 101; 114; 115; 105; 111; 110].

(** One iteration of [while (!qualification.Empty())]: the rest and the reference. *)
Definition ParseAssemblyQualification_step (type_name : list Z) (qualification : Span)
    (reference : ParsedAssemblyReference) : P (Span * ParsedAssemblyReference) :=
  '(qualification, qualifier) ← TryGetNextQualifierPart type_name qualification;
  equals ← TryFindUnescaped type_name qualifier ch_equals;
  key ← Trimmed type_name {| begin := begin qualifier; end_ := default (end_ qualifier) equals |};
  key ← TryGetUnquoted type_name key;
  match version_span reference, equals with
  | None, Some eq =>
      if EqualsIgnoreAsciiCase (View key type_name) version_key then
        value ← Trimmed type_name {| begin := eq + 1; end_ := end_ qualifier |};
        value ← TryGetUnquoted type_name value;
        mret (qualification, {| assembly_name := assembly_name reference;
                                insert_version_at := insert_version_at reference;
                                version_span := Some value |})
      else mret (qualification, reference)
  | _, _ => mret (qualification, reference)
  end.

Fixpoint ParseAssemblyQualification_loop (fuel : nat) (type_name : list Z) (qualification : Span)
    (reference : ParsedAssemblyReference) : P ParsedAssemblyReference :=
  if Empty qualification then mret reference
  else match fuel with
  | O => out_of_fuel
  | S fuel =>
      '(qualification, reference) ← ParseAssemblyQualification_step type_name qualification reference;
      ParseAssemblyQualification_loop fuel type_name qualification reference
  end.

Definition ParseAssemblyQualification (type_name : list Z) (qualification : Span) : P unit :=
  '(qualification, name) ← TryGetNextQualifierPart type_name qualification;
  if Empty name then mret tt
  else
    let insert_at := end_ name in
    name ← TryGetUnquoted type_name name;
    let reference := {| assembly_name := Unescape (View name type_name);
                        insert_version_at := insert_at; version_span := None |} in
    reference ← ParseAssemblyQualification_loop (end_ qualification - begin qualification) type_name qualification reference;
    modify (λ references, references ++ [reference]).

(** ** The collectors *)

(** [collect] is CollectTypeAssemblyReferences at the next nesting depth. *)
Fixpoint CollectGenericTypeArgumentAssemblyReferences (collect : Span → P unit) (fuel : nat)
    (type_name : list Z) (arguments : Span) : P unit :=
  if Empty arguments then mret tt
  else match fuel with
  | O => out_of_fuel
  | S fuel =>
      separator ← TryFindTopLevelSeparator type_name arguments ch_comma;
      let argument := {| begin := begin arguments; end_ := default (end_ arguments) separator |} in
      let arguments := {| begin := match separator with Some p => p + 1 | None => end_ arguments end;
                          end_ := end_ arguments |} in
      argument ← Trimmed type_name argument;
      if Empty argument then CollectGenericTypeArgumentAssemblyReferences collect fuel type_name arguments
      else
        c ← char_at type_name (begin argument);
        argument ← (
          if decide (c = ch_lbracket) then
            closing_bracket ← FindClosingBracket type_name (begin argument) (end_ argument);
            match closing_bracket with
            | Some p => if decide (p = end_ argument - 1)%nat
                        then mret {| begin := begin argument + 1; end_ := p |} else throw tt
            | None => throw tt
            end
          else mret argument);
        collect argument;;
        CollectGenericTypeArgumentAssemblyReferences collect fuel type_name arguments
  end.

(** [while (position < type_name_end)]; [generic] handles an argument list, [None] when the
    nesting depth has reached its maximum. *)
Fixpoint CollectType_scan (generic : option (Span → P unit)) (fuel : nat) (type_name : list Z)
    (type_name_end position : nat) : P unit :=
  if decide (position < type_name_end)%nat then
    match fuel with
    | O => out_of_fuel
    | S fuel =>
        c ← char_at type_name position;
        if decide (c = ch_backslash) then
          if decide (position + 1 = type_name_end)%nat then throw tt
          else CollectType_scan generic fuel type_name type_name_end (position + 2)
        else if decide (c = ch_lbracket) then
          closing_bracket ← FindClosingBracket type_name position type_name_end;
          match closing_bracket, generic with
          | Some p, Some collect_arguments =>
              collect_arguments {| begin := position + 1; end_ := p |};;
              CollectType_scan generic fuel type_name type_name_end (p + 1)
          | _, _ => throw tt
          end
        else CollectType_scan generic fuel type_name type_name_end (position + 1)
    end
  else mret tt.

Definition max_generic_nesting_depth : nat := 64.

(** [levels] is [max_generic_nesting_depth - generic_nesting_depth]. *)
Fixpoint CollectTypeAssemblyReferences (levels : nat) (type_name : list Z) (type : Span) : P unit :=
  type ← Trimmed type_name type;
  if Empty type then mret tt
  else
    assembly_separator ← TryFindTopLevelSeparator type_name type ch_comma;
    let type_name_end := default (end_ type) assembly_separator in
    let generic :=
      match levels with
      | O => None
      | S levels => Some (λ arguments,
          CollectGenericTypeArgumentAssemblyReferences (CollectTypeAssemblyReferences levels type_name)
            (end_ arguments - begin arguments) type_name arguments)
      end in
    CollectType_scan generic (type_name_end - begin type) type_name type_name_end (begin type);;
    match assembly_separator with
    | None => mret tt
    | Some p => ParseAssemblyQualification type_name {| begin := p + 1; end_ := end_ type |}
    end.

(** The vector after the call and the result. *)
Definition ParseTypeNameAssemblyReferences (type_name : list Z) : outcome unit (list ParsedAssemblyReference) :=
  match CollectTypeAssemblyReferences max_generic_nesting_depth type_name {| begin := 0; end_ := length type_name |} [] with
  | (Ret _, references) => Ret references
  | (Err _, _) => Err tt
  | (Stuck, _) => Stuck
  | (Fuel, _) => Fuel
  end.

(** ** Safety and termination of the searches *)

Definition sub_span (sp sp' : Span) : Prop :=
  (begin sp ≤ begin sp' ∧ begin sp' ≤ end_ sp' ∧ end_ sp' ≤ end_ sp)%nat.

Abbreviation may_fail := (λ (_ : unit) (_ : list ParsedAssemblyReference), True).
Abbreviation no_fail := (λ (_ : unit) (_ : list ParsedAssemblyReference), False).

Lemma Empty_false sp : Empty sp = false ↔ (begin sp < end_ sp)%nat.
Proof. unfold Empty. rewrite bool_decide_eq_false. lia. Qed.
Lemma Empty_true sp : Empty sp = true ↔ (end_ sp ≤ begin sp)%nat.
Proof. unfold Empty. by rewrite bool_decide_eq_true. Qed.

Section Searches.
Context (value : list Z) (refs : list ParsedAssemblyReference).

Lemma wp_char_at {A} i (k : Z → P A) Q X :
  (i < length value)%nat → (∀ c, value !! i = Some c → wp (k c) refs Q X) → wp (char_at value i ≫= k) refs Q X.
Proof.
  intros Hi Hk. destruct (lookup_lt_is_Some_2 value i Hi) as [c Hc]. unfold char_at. rewrite Hc.
  wp_step (done). by apply Hk.
Qed.

Lemma trim_begin_wp fuel sp :
  (begin sp ≤ end_ sp ≤ length value)%nat → (end_ sp - begin sp ≤ fuel)%nat →
  wp (trim_begin fuel value sp) refs (λ sp' refs', refs' = refs ∧ sub_span sp sp') no_fail.
Proof.
  revert sp. induction fuel as [|fuel IH]; intros sp Hsp Hf; cbn [trim_begin]; destruct (Empty sp) eqn:E.
  - eapply wp_run; [done|]. unfold sub_span. split; [done|lia].
  - apply Empty_false in E. lia.
  - eapply wp_run; [done|]. unfold sub_span. split; [done|lia].
  - apply Empty_false in E. apply wp_char_at; [lia|]. intros c _. destruct (is_ascii_space c).
    + eapply wp_mono; [apply IH; simpl; lia|..|done]. cbv beta. unfold sub_span. simpl. intros sp' s' (-> & ?). split; [done|lia].
    + eapply wp_run; [done|]. unfold sub_span. split; [done|lia].
Qed.

Lemma trim_end_wp fuel sp :
  (begin sp ≤ end_ sp ≤ length value)%nat → (end_ sp - begin sp ≤ fuel)%nat →
  wp (trim_end fuel value sp) refs (λ sp' refs', refs' = refs ∧ sub_span sp sp') no_fail.
Proof.
  revert sp. induction fuel as [|fuel IH]; intros sp Hsp Hf; cbn [trim_end]; destruct (Empty sp) eqn:E.
  - eapply wp_run; [done|]. unfold sub_span. split; [done|lia].
  - apply Empty_false in E. lia.
  - eapply wp_run; [done|]. unfold sub_span. split; [done|lia].
  - apply Empty_false in E. apply wp_char_at; [lia|]. intros c _. destruct (is_ascii_space c).
    + eapply wp_mono; [apply IH; simpl; lia|..|done]. cbv beta. unfold sub_span. simpl. intros sp' s' (-> & ?). split; [done|lia].
    + eapply wp_run; [done|]. unfold sub_span. split; [done|lia].
Qed.

Lemma Trimmed_wp sp :
  (begin sp ≤ end_ sp ≤ length value)%nat →
  wp (Trimmed value sp) refs (λ sp' refs', refs' = refs ∧ sub_span sp sp') no_fail.
Proof.
  intros Hsp. unfold Trimmed. apply wp_bind. eapply wp_mono; [by apply trim_begin_wp|..|done].
  cbv beta. unfold sub_span. intros sp1 s1 (-> & H1). eapply wp_mono; [apply trim_end_wp; lia|..|done].
  cbv beta. unfold sub_span. intros sp2 s2 (-> & H2). split; [done|lia].
Qed.

(** The position found is inside the span. *)
Definition found (lo hi : nat) (res : option nat) : Prop :=
  match res with Some p => (lo ≤ p < hi)%nat | None => True end.

Lemma found_mono lo lo' hi res : (lo ≤ lo')%nat → found lo' hi res → found lo hi res.
Proof. destruct res; simpl; [lia|done]. Qed.

(** [search IH]: the cases of a search loop: stop, or go on from a later position. *)
Ltac search IH :=
  repeat case_decide; try done;
  try (eapply wp_run; [done|]; simpl; split; [done|lia]);
  try (by eapply wp_mono; [apply IH; lia|intros ? ? [-> ?]; split; [done|by eapply found_mono; [|eassumption]; lia]|done]).

Lemma find_unescaped_wp expected stop fuel q pos :
  (stop ≤ length value)%nat → (stop - pos ≤ fuel)%nat →
  wp (find_unescaped fuel value stop expected q pos) refs (λ res refs', refs' = refs ∧ found pos stop res) may_fail.
Proof.
  intros Hstop. revert q pos. induction fuel as [|fuel IH]; intros q pos Hf; cbn [find_unescaped].
  - search IH. lia.
  - case_decide; [|search IH]. apply wp_char_at; [lia|]. intros c _. search IH.
Qed.

Lemma find_top_level_wp separator stop fuel d q pos :
  (stop ≤ length value)%nat → (stop - pos ≤ fuel)%nat →
  wp (find_top_level fuel value stop separator d q pos) refs (λ res refs', refs' = refs ∧ found pos stop res) may_fail.
Proof.
  intros Hstop. revert d q pos. induction fuel as [|fuel IH]; intros d q pos Hf; cbn [find_top_level].
  - search IH. lia.
  - case_decide; [|search IH]. apply wp_char_at; [lia|]. intros c _. destruct d; search IH.
Qed.

Lemma find_closing_wp stop fuel d q pos :
  (stop ≤ length value)%nat → (stop - pos ≤ fuel)%nat →
  wp (find_closing fuel value stop d q pos) refs (λ res refs', refs' = refs ∧ found pos stop res) no_fail.
Proof.
  intros Hstop. revert d q pos. induction fuel as [|fuel IH]; intros d q pos Hf; cbn [find_closing].
  - search IH. lia.
  - case_decide; [|search IH]. apply wp_char_at; [lia|]. intros c _. search IH.
Qed.
End Searches.

(** ** Order of the references *)

Lemma Unescape_subseteq s : Unescape s ⊆ s.
Proof.
  induction s as [s IH] using (induction_ltof1 _ length); unfold ltof in IH.
  destruct s as [|c [|c' s]]; [done..|]. cbn [Unescape]. case_decide.
  - intros x [->|Hx]%elem_of_cons; [set_solver|]. apply (IH s) in Hx; [set_solver|simpl; lia].
  - intros x [->|Hx]%elem_of_cons; [set_solver|]. apply (IH (c' :: s)) in Hx; [set_solver|simpl; lia].
Qed.

Lemma View_subseteq sp s : View sp s ⊆ s.
Proof. unfold View, slice. intros x Hx. eapply subseteq_drop, subseteq_take, Hx. Qed.

(** The part of the type name that redirecting a reference replaces. *)
Definition edit_range (r : ParsedAssemblyReference) : nat * nat :=
  match version_span r with
  | Some sp => (begin sp, end_ sp)
  | None => (insert_version_at r, insert_version_at r)
  end.

Section Collect.
Context (type_name : list Z).

(** The ranges lie between [lo] and [hi], each behind the one before it; the name of a reference
  is made of characters of the type name. *)
Fixpoint ordered (lo hi : nat) (rs : list ParsedAssemblyReference) : Prop :=
match rs with
| [] => True
| r :: rs => (lo ≤ (edit_range r).1 ∧ (edit_range r).1 ≤ (edit_range r).2 ∧ (edit_range r).2 ≤ hi)%nat ∧
             assembly_name r ⊆ type_name ∧ ordered (S (edit_range r).2) hi rs
end.

Lemma ordered_mono lo lo' hi hi' rs :
(lo' ≤ lo)%nat → (hi ≤ hi')%nat → ordered lo hi rs → ordered lo' hi' rs.
Proof.
intros Hlo Hhi. revert lo lo' Hlo. induction rs as [|r rs IH]; intros lo lo' Hlo; [done|].
intros (? & ? & ?). split_and!; [lia|lia|lia|done|]. by eapply IH; [|done].
Qed.

Lemma ordered_app lo m lo2 hi rs1 rs2 :
(lo ≤ lo2)%nat → (m < lo2)%nat → (m ≤ hi)%nat → ordered lo m rs1 → ordered lo2 hi rs2 → ordered lo hi (rs1 ++ rs2).
Proof.
intros Hlo Hm Hhi H1 H2. revert lo Hlo H1. induction rs1 as [|r rs1 IH]; intros lo Hlo; simpl.
- intros _. by eapply ordered_mono; [..|done].
- intros (? & ? & ?). split_and!; [lia|lia|lia|done|]. apply IH; [lia|done].
Qed.

(** [collects m refs lo hi]: [m] adds references that lie between [lo] and [hi], or fails. *)
Definition collects (m : P unit) (lo hi : nat) : Prop := ∀ refs,
wp m refs (λ _ refs', ∃ new, refs' = refs ++ new ∧ ordered lo hi new) may_fail.

Lemma collects_nothing lo hi : collects (mret tt) lo hi.
Proof. intros refs. eapply wp_run; [done|]. exists []. by rewrite app_nil_r. Qed.

Lemma collects_mono m lo lo' hi hi' :
(lo' ≤ lo)%nat → (hi ≤ hi')%nat → collects m lo hi → collects m lo' hi'.
Proof.
intros Hlo Hhi H refs. eapply wp_mono; [apply H|..|done]. intros _ s (new & -> & Ho).
exists new. split; [done|]. by eapply ordered_mono; [..|done].
Qed.

Lemma collects_seq m1 m2 lo m lo2 hi :
(lo ≤ lo2)%nat → (m < lo2)%nat → (m ≤ hi)%nat → collects m1 lo m → collects m2 lo2 hi → collects (m1;; m2) lo hi.
Proof.
intros Hlo Hm Hhi H1 H2 refs. apply wp_bind. eapply wp_mono; [apply H1|..|done]. intros [] s (new1 & -> & Ho1).
eapply wp_mono; [apply H2|..|done]. intros [] s (new2 & -> & Ho2). exists (new1 ++ new2).
split; [by rewrite app_assoc|]. by eapply ordered_app.
Qed.

Abbreviation in_name sp := ((begin sp ≤ end_ sp)%nat ∧ (end_ sp ≤ length type_name)%nat).

Lemma TryFindUnescaped_wp refs sp expected :
  in_name sp →
  wp (TryFindUnescaped type_name sp expected) refs (λ res refs', refs' = refs ∧ found (begin sp) (end_ sp) res) may_fail.
Proof. intros []. by apply find_unescaped_wp. Qed.

Lemma TryFindTopLevelSeparator_wp refs sp sep :
  in_name sp →
  wp (TryFindTopLevelSeparator type_name sp sep) refs (λ res refs', refs' = refs ∧ found (begin sp) (end_ sp) res) may_fail.
Proof. intros []. by apply find_top_level_wp. Qed.

Lemma FindClosingBracket_wp refs o stop :
  (stop ≤ length type_name)%nat →
  wp (FindClosingBracket type_name o stop) refs (λ res refs', refs' = refs ∧ found (o + 1) stop res) no_fail.
Proof.
  intros Hs. unfold FindClosingBracket. case_decide; [by eapply wp_run|].
  apply wp_char_at; [lia|]. intros c _. case_decide; [by eapply wp_run|]. apply find_closing_wp; lia.
Qed.

Lemma no_quote_wp refs n i :
  (i + n ≤ length type_name)%nat → wp (no_quote n type_name i) refs (λ _ refs', refs' = refs) no_fail.
Proof.
  revert i. induction n as [|n IH]; intros i Hi; cbn [no_quote]; [by eapply wp_run|].
  apply wp_char_at; [lia|]. intros c _. destruct (is_quote c); [by eapply wp_run|]. apply IH. lia.
Qed.

Lemma TryGetUnquoted_wp refs sp :
  in_name sp → wp (TryGetUnquoted type_name sp) refs (λ sp' refs', refs' = refs ∧ sub_span sp sp') may_fail.
Proof.
  intros [H1 H2]. unfold TryGetUnquoted. destruct (Empty sp) eqn:E.
  { eapply wp_run; [done|]. unfold sub_span. split; [done|lia]. }
  apply Empty_false in E. apply wp_char_at; [lia|]. intros c _. destruct (negb (is_quote c)).
  - apply wp_bind. eapply wp_mono; [apply no_quote_wp; lia|..|done]. cbv beta. intros [] s ->; [|done].
    eapply wp_run; [done|]. unfold sub_span. split; [done|lia].
  - case_decide; [done|]. apply wp_char_at; [lia|]. intros c' _. case_decide; [done|].
    eapply wp_run; [done|]. unfold sub_span. simpl. split; [done|lia].
Qed.

Lemma TryGetNextQualifierPart_wp refs sp :
  in_name sp →
  wp (TryGetNextQualifierPart type_name sp) refs
    (λ res refs', refs' = refs ∧ sub_span sp res.2 ∧ in_name res.2 ∧ end_ res.1 = end_ sp ∧
       (begin sp < end_ sp → begin sp < begin res.1)%nat ∧ (begin sp ≤ begin res.1 ≤ end_ sp)%nat) may_fail.
Proof.
  intros [H1 H2]. unfold TryGetNextQualifierPart. apply wp_bind.
  eapply wp_mono; [by apply TryFindUnescaped_wp|..|done]. cbv beta. intros res s (-> & Hf).
  apply wp_bind. eapply wp_mono; [apply Trimmed_wp; destruct res; simpl in *; lia|..|done].
  cbv beta. unfold sub_span. intros sp' s (-> & Hs). eapply wp_run; [done|].
  destruct res; simpl in *; split_and!; try done; lia.
Qed.

(** The reference being built, when its qualification lies in [lo, hi]. *)
Definition building (lo hi : nat) (r : ParsedAssemblyReference) : Prop :=
  (lo ≤ insert_version_at r ≤ hi)%nat ∧ assembly_name r ⊆ type_name ∧
  match version_span r with Some sp => (lo ≤ begin sp ∧ begin sp ≤ end_ sp ∧ end_ sp ≤ hi)%nat | None => True end.

Lemma ParseAssemblyQualification_step_wp refs lo sp r :
  (lo ≤ begin sp < end_ sp)%nat → in_name sp → building lo (end_ sp) r →
  wp (ParseAssemblyQualification_step type_name sp r) refs
    (λ res refs', refs' = refs ∧ end_ res.1 = end_ sp ∧ (begin sp < begin res.1 ≤ end_ sp)%nat ∧
       building lo (end_ sp) res.2) may_fail.
Proof.
  intros Hlo Hin Hb. unfold ParseAssemblyQualification_step. apply wp_bind.
  eapply wp_mono; [by apply TryGetNextQualifierPart_wp|..|done].
  unfold sub_span. intros [rest part] s (-> & H1 & H2 & H3 & H4 & H5). cbn [fst snd] in *.
  apply wp_bind. eapply wp_mono; [by apply TryFindUnescaped_wp|..|done]. cbv beta. intros eq s (-> & Hf).
  apply wp_bind. eapply wp_mono; [apply Trimmed_wp; destruct eq; simpl in *; lia|..|done].
  cbv beta. unfold sub_span. intros key s (-> & Hk). cbn [begin end_] in Hk.
  apply wp_bind. eapply wp_mono; [apply TryGetUnquoted_wp; destruct eq; simpl in *; lia|..|done].
  cbv beta. intros key' s (-> & _).
  assert (Hkeep : wp (mret (rest, r) : P _) refs (λ res refs', refs' = refs ∧ end_ res.1 = end_ sp ∧
    (begin sp < begin res.1 ≤ end_ sp)%nat ∧ building lo (end_ sp) res.2) may_fail).
  { eapply wp_run; [done|]. split_and!; simpl; try done; lia. }
  destruct (version_span r) eqn:Hv; [done|]. destruct eq as [eq|]; [|done].
  destruct (EqualsIgnoreAsciiCase _ _); [|done]. simpl in Hf.
  apply wp_bind. eapply wp_mono; [apply Trimmed_wp; simpl; lia|..|done].
  cbv beta. unfold sub_span. intros val s (-> & Hval). cbn [begin end_] in Hval.
  apply wp_bind. eapply wp_mono; [apply TryGetUnquoted_wp; lia|..|done].
  cbv beta. unfold sub_span. intros val' s (-> & Hval'). eapply wp_run; [done|]. cbn [fst snd].
  destruct Hb as (Hb1 & Hb2 & _). split_and!; try done; try lia. split_and!; simpl; try done; lia.
Qed.

Lemma ParseAssemblyQualification_loop_wp refs lo fuel sp r :
  (lo ≤ begin sp)%nat → in_name sp → building lo (end_ sp) r → (end_ sp - begin sp ≤ fuel)%nat →
  wp (ParseAssemblyQualification_loop fuel type_name sp r) refs
    (λ r' refs', refs' = refs ∧ building lo (end_ sp) r') may_fail.
Proof.
  revert sp r. induction fuel as [|fuel IH]; intros sp r Hlo Hin Hb Hf; cbn [ParseAssemblyQualification_loop];
    destruct (Empty sp) eqn:E.
  - by eapply wp_run.
  - apply Empty_false in E. lia.
  - by eapply wp_run.
  - apply Empty_false in E. apply wp_bind.
    eapply wp_mono; [apply (ParseAssemblyQualification_step_wp refs lo); [lia|done..]|..|done].
    intros [sp' r'] s (-> & He & Hb1 & Hb2). cbn [fst snd] in *. rewrite <-He in Hb2 |- *. apply IH; try lia. done.
Qed.

Lemma ParseAssemblyQualification_collects sp :
  in_name sp → collects (ParseAssemblyQualification type_name sp) (begin sp) (end_ sp).
Proof.
  intros Hin refs. unfold ParseAssemblyQualification. apply wp_bind.
  eapply wp_mono; [by apply TryGetNextQualifierPart_wp|..|done].
  unfold sub_span. intros [rest name] s (-> & H1 & H2 & H3 & H4 & H5). cbn [fst snd] in *.
  destruct (Empty name); [apply collects_nothing|].
  apply wp_bind. eapply wp_mono; [by apply TryGetUnquoted_wp|..|done]. cbv beta. intros name' s (-> & _).
  apply wp_bind. eapply wp_mono.
  - apply (ParseAssemblyQualification_loop_wp refs (begin sp)); [lia|lia| |lia].
    split_and!; simpl; [lia|lia| |done]. etrans; [apply Unescape_subseteq|apply View_subseteq].
  - cbv beta. intros r s (-> & (Hb1 & Hb2 & Hb3)). rewrite H3 in *. eapply wp_run; [done|]. exists [r]. split; [done|].
    split; [|done]. unfold edit_range. destruct (version_span r); simpl; lia.
  - done.
Qed.

Lemma collects_empty_args collect fuel e refs :
  wp (CollectGenericTypeArgumentAssemblyReferences collect fuel type_name {| begin := e; end_ := e |}) refs
    (λ _ refs', refs' = refs) may_fail.
Proof.
  destruct fuel; cbn [CollectGenericTypeArgumentAssemblyReferences];
    assert (Empty {| begin := e; end_ := e |} = true) as -> by (apply Empty_true; simpl; lia); by eapply wp_run.
Qed.

(** What a collector of types must do for every span of the name. *)
Definition collector (collect : Span → P unit) : Prop := ∀ sp, in_name sp → collects (collect sp) (begin sp) (end_ sp).

Lemma CollectGeneric_collects collect fuel args :
  collector collect → in_name args → (end_ args - begin args ≤ fuel)%nat →
  collects (CollectGenericTypeArgumentAssemblyReferences collect fuel type_name args) (begin args) (end_ args).
Proof.
  intros Hc. revert args. induction fuel as [|fuel IH]; intros args Hin Hf;
    cbn [CollectGenericTypeArgumentAssemblyReferences]; destruct (Empty args) eqn:E.
  - apply collects_nothing.
  - apply Empty_false in E. lia.
  - apply collects_nothing.
  - apply Empty_false in E. intros refs. apply wp_bind.
    eapply wp_mono; [by apply TryFindTopLevelSeparator_wp|..|done]. cbv beta. intros sep s (-> & Hs).
    apply wp_bind. eapply wp_mono; [apply Trimmed_wp; destruct sep; simpl in *; lia|..|done].
    cbv beta. unfold sub_span. intros arg s (-> & Ha). cbn [begin end_] in Ha.
    set (args' := {| begin := match sep with Some p => (p + 1)%nat | None => end_ args end; end_ := end_ args |}).
    assert (Hargs' : (begin args < begin args' ≤ end_ args ∧ end_ args' = end_ args ∧
      (end_ arg < begin args' ∨ begin args' = end_ args'))%nat)
      by (unfold args'; destruct sep; simpl in *; lia).
    assert (Hrest : collects (CollectGenericTypeArgumentAssemblyReferences collect fuel type_name args') (begin args') (end_ args))
      by (apply (IH args'); lia).
    destruct (Empty arg) eqn:Ea.
    { eapply collects_mono; [| |exact Hrest]; lia. }
    apply Empty_false in Ea. apply wp_char_at; [destruct sep; simpl in *; lia|]. intros c _.
    assert (Hseq : ∀ arg', sub_span arg arg' → collects (collect arg';;
      CollectGenericTypeArgumentAssemblyReferences collect fuel type_name args') (begin args) (end_ args)).
    { intros arg' Hsub. unfold sub_span in Hsub.
      assert (Hca : collects (collect arg') (begin args) (end_ arg)).
      { eapply collects_mono; [| |apply Hc]; destruct sep; simpl in *; lia. }
      destruct Hargs' as (? & ? & [Hlt|Heq]).
      - eapply collects_seq; [| | |exact Hca|exact Hrest]; destruct sep; simpl in *; lia.
      - assert (args' = {| begin := end_ args; end_ := end_ args |}) as -> by (unfold args' in *; destruct sep; simpl in *; f_equal; lia).
        intros refs'. apply wp_bind. eapply wp_mono; [apply Hca|..|done]. intros [] s' (new & -> & Ho).
        eapply wp_mono; [apply collects_empty_args|..|done]. cbv beta. intros [] s' ->. exists new. split; [done|].
        eapply ordered_mono; [| |exact Ho]; destruct sep; simpl in *; lia. }
    case_decide.
    + apply wp_bind. apply wp_bind. eapply wp_mono; [apply FindClosingBracket_wp; destruct sep; simpl in *; lia|..|done].
      cbv beta. intros cb s (-> & Hcb). destruct cb as [p|]; [|done]. case_decide; [|done]. eapply wp_run; [done|].
      apply Hseq. unfold sub_span. simpl in *. lia.
    + wp_step (done). apply Hseq. unfold sub_span. lia.
Qed.

Lemma CollectType_scan_collects generic fuel stop pos :
  (∀ collect, generic = Some collect → collector collect) → (stop ≤ length type_name)%nat → (stop - pos ≤ fuel)%nat →
  (pos ≤ stop)%nat → collects (CollectType_scan generic fuel type_name stop pos) pos stop.
Proof.
  intros Hg Hstop. revert pos. induction fuel as [|fuel IH]; intros pos Hf Hpos; cbn [CollectType_scan].
  - rewrite decide_False by lia. apply collects_nothing.
  - case_decide; [|apply collects_nothing]. intros refs. apply wp_char_at; [lia|]. intros c _.
    case_decide; [case_decide; [done|eapply collects_mono; [| |apply IH]; lia]|].
    case_decide; [|eapply collects_mono; [| |apply IH]; lia].
    apply wp_bind. eapply wp_mono; [by apply FindClosingBracket_wp|..|done]. cbv beta. intros cb s (-> & Hcb).
    destruct cb as [p|]; [|done]. destruct generic as [collect|] eqn:E; [|done]. simpl in Hcb.
    refine (collects_seq _ _ pos p (p + 1) stop _ _ _ _ _ refs); [lia..| |].
    + eapply collects_mono; [| |apply (Hg collect eq_refl)]; simpl; lia.
    + apply IH; lia.
Qed.

(** The part of CollectTypeAssemblyReferences behind the search for the separator. *)
Lemma CollectType_tail generic sep ty :
  (∀ collect, generic = Some collect → collector collect) → in_name ty → found (begin ty) (end_ ty) sep →
  collects (CollectType_scan generic (default (end_ ty) sep - begin ty) type_name (default (end_ ty) sep) (begin ty);;
            match sep with
            | None => mret tt
            | Some p => ParseAssemblyQualification type_name {| begin := p + 1; end_ := end_ ty |}
            end) (begin ty) (end_ ty).
Proof.
  intros Hg Hin Hsep. destruct sep as [p|]; simpl in *.
  - eapply (collects_seq _ _ _ p (p + 1)); [lia..| |].
    + apply CollectType_scan_collects; [done|lia..].
    + apply (ParseAssemblyQualification_collects {| begin := p + 1; end_ := end_ ty |}). simpl. lia.
  - intros refs. apply wp_bind. eapply wp_mono; [apply CollectType_scan_collects; [done|lia..]|..|done].
    cbv beta. intros [] s (new & -> & Ho). eapply wp_run; [done|]. by exists new.
Qed.

Lemma CollectType_collects levels : collector (CollectTypeAssemblyReferences levels type_name).
Proof.
  induction levels as [|levels IH]; intros sp Hin refs; cbn [CollectTypeAssemblyReferences]; apply wp_bind;
    (eapply wp_mono; [apply Trimmed_wp; lia|..|done]); cbv beta; unfold sub_span; intros ty s (-> & Hty);
    (destruct (Empty ty) eqn:E; [apply collects_nothing|]); apply Empty_false in E; apply wp_bind;
    (eapply wp_mono; [apply TryFindTopLevelSeparator_wp; lia|..|done]); cbv beta; intros sep s (-> & Hsep);
    (eapply collects_mono; [| |apply CollectType_tail]); try lia; try done.
  intros collect [= <-] args Hargs. by apply CollectGeneric_collects.
Qed.
End Collect.

Lemma ParseTypeName_spec type_name :
  ParseTypeNameAssemblyReferences type_name = Err tt ∨
  ∃ references, ParseTypeNameAssemblyReferences type_name = Ret references ∧ ordered type_name 0 (length type_name) references.
Proof.
  unfold ParseTypeNameAssemblyReferences.
  pose proof (CollectType_collects type_name max_generic_nesting_depth {| begin := 0; end_ := length type_name |}) as H.
  specialize (H ltac:(simpl; lia) []). unfold wp in H.
  destruct (CollectTypeAssemblyReferences _ _ _ _) as [[[]|[]| |] refs]; try done; [right|by left].
  destruct H as (new & -> & Ho). by exists new.
Qed.

(** ** Properties *)

(** C36: parsing a type name returns for every byte string, within 64 levels of generic nesting,
    and never reads outside the string; on success every reported insertion point or version span
    lies inside the string, in increasing order and without touching another. *)
Theorem ParseTypeName_total_ordered type_name :
  ParseTypeNameAssemblyReferences type_name = Err tt ∨
  ∃ references, ParseTypeNameAssemblyReferences type_name = Ret references ∧ ordered type_name 0 (length type_name) references.
Proof. apply ParseTypeName_spec. Qed.
