(* ===== verification/TypeNameRewriter.v ===== *)
(** * Redirecting the assemblies of a type name (type_name_assembly_redirection_rewriter.cpp,
    AssemblyVersionRedirection of clr_helpers.h, VersionStr of util.cpp)

    The rewriter parses the assembly references of a type name and raises the versions of those
    with a configured redirection.  [Err tt] is [return false].  The main results: the rewrite is
    the replacement of exactly the planned version spans, no reference is ever redirected to a
    version below the one it asks for, and version strings survive printing and parsing. *)

From S2P Require Import Prelude Utf TypeNameParser.

(** ** Versions *)

(** The version fields of ASSEMBLYMETADATA. *)
Record ASSEMBLYMETADATA := {
  usMajorVersion : Z;
  usMinorVersion : Z;
  usBuildNumber : Z;
  usRevisionNumber : Z;
}.

Record AssemblyVersionRedirection := {
  avr_version : ASSEMBLYMETADATA; (* the four members with the names of ASSEMBLYMETADATA's *)
  ulRedirectionCount : Z;
}.

Definition CompareToAssemblyVersion (this : AssemblyVersionRedirection) (assembly : ASSEMBLYMETADATA) : Z :=
  let v := avr_version this in
  if decide (usMajorVersion v ≠ usMajorVersion assembly) then
    (if decide (usMajorVersion v > usMajorVersion assembly) then 1 else -1)
  else if decide (usMinorVersion v ≠ usMinorVersion assembly) then
    (if decide (usMinorVersion v > usMinorVersion assembly) then 1 else -1)
  else if decide (usBuildNumber v ≠ usBuildNumber assembly) then
    (if decide (usBuildNumber v > usBuildNumber assembly) then 1 else -1)
  else if decide (usRevisionNumber v ≠ usRevisionNumber assembly) then
    (if decide (usRevisionNumber v > usRevisionNumber assembly) then 1 else -1)
  else 0.

(** [ss << n] for an unsigned n: its decimal digits. *)
Fixpoint decimal_fuel (fuel : nat) (n : Z) : list Z :=
  match fuel with
  | O => []
  | S fuel => (if decide (n < 10) then [] else decimal_fuel fuel (n / 10)) ++ [48 + n mod 10]
  end.
Definition decimal (n : Z) : list Z := decimal_fuel (S (Z.to_nat (Z.log2 n))) n.

Definition ch_dot : Z := 46.

(** The characters of VersionStr before ToWSTRING. *)
Definition version_chars (v : ASSEMBLYMETADATA) : list Z :=
  decimal (usMajorVersion v) ++ [ch_dot] ++ decimal (usMinorVersion v) ++ [ch_dot] ++
  decimal (usBuildNumber v) ++ [ch_dot] ++ decimal (usRevisionNumber v).

Definition VersionStr (this : AssemblyVersionRedirection) : outcome unit (list Z) :=
  ToWSTRING (version_chars (avr_version this)).

(** ** [TryParseVersion] *)

Definition is_digit (c : Z) : bool := bool_decide (48 ≤ c ≤ 57).

(** The longest prefix of digits, and its value. *)
Fixpoint digits_prefix (s : list Z) : list Z :=
  match s with
  | c :: s => if is_digit c then c :: digits_prefix s else []
  | [] => []
  end.
Definition digits_value (s : list Z) : Z := foldl (λ v c, 10 * v + (c - 48)) 0 s.

(** [std::from_chars] for an unsigned int: the characters consumed and, when [ec] is empty, the
    value. *)
Definition from_chars (s : list Z) : nat * option Z :=
  let ds := digits_prefix s in
  (length ds,
   if decide (ds = []) then None else if decide (2 ^ 32 ≤ digits_value ds) then None else Some (digits_value ds)).

(** [std::find(current, end, '.')]: the part before the dot, and the part behind it if there is one. *)
Fixpoint split_dot (s : list Z) : list Z * option (list Z) :=
  match s with
  | [] => ([], None)
  | c :: s => if decide (c = ch_dot) then ([], Some s)
              else let '(a, b) := split_dot s in (c :: a, b)
  end.

Definition unspecified_version_component : Z := 65535.

(** The loop over [index]: [n] iterations are left; [parsed] holds the components so far.
    [None] is [return false] in the loop, the flag [fully_consumed]. *)
Fixpoint parse_components (n : nat) (current : list Z) (has_unspecified_component : bool) (parsed : list Z) :
    option (list Z * bool) :=
  match n with
  | O => Some (parsed, false)
  | S n =>
      let '(text, rest) := split_dot current in
      let '(consumed, result) := from_chars text in
      match result with
      | None => None
      | Some parsed_component =>
          if decide (text = [] ∨ consumed ≠ length text ∨ unspecified_version_component < parsed_component) then None
          else if decide (parsed_component = unspecified_version_component ∧ (length parsed < 2)%nat) then None
          else
            let unspecified := has_unspecified_component || bool_decide (parsed_component = unspecified_version_component) in
            let parsed := parsed ++ [if unspecified then 0 else parsed_component] in
            match rest with
            | None => Some (parsed, true)
            | Some current => parse_components n current unspecified parsed
            end
      end
  end.

Definition TryParseVersion (value : list Z) : option ASSEMBLYMETADATA :=
  '(parsed, fully_consumed) ← parse_components 4 value false [];
  if decide ((length parsed < 2)%nat ∨ fully_consumed = false) then None
  else Some {| usMajorVersion := nth 0 parsed 0; usMinorVersion := nth 1 parsed 0;
               usBuildNumber := nth 2 parsed 0; usRevisionNumber := nth 3 parsed 0 |}.

(** ** [TryRewriteTypeNameAssemblyRedirections] *)

(** The unordered_map, in its iteration order. *)
Definition redirects : Type := list (list Z * AssemblyVersionRedirection).

Definition find_redirect (assembly_redirects : redirects) (assembly_name : list Z) :
    option (list Z * AssemblyVersionRedirection) :=
  match find (λ e, bool_decide (e.1 = assembly_name)) assembly_redirects with
  | Some e => Some e
  | None => find (λ e, EqualsIgnoreAsciiCase e.1 assembly_name) assembly_redirects
  end.

Record Edit := {
  edit_begin : nat;
  edit_end : nat;
  edit_value : list Z;
  edit_assembly : list Z;
}.

(** ", Version=" *)
Definition version_prefix : list Z := [44; 32; 86; 101; 114; 115; 105; 111; 110; 61].

(** One iteration of the loop over the references: the edit it pushes, if any. *)
Definition plan_edit (type_name : list Z) (assembly_redirects : redirects) (reference : ParsedAssemblyReference) :
    outcome unit (option Edit) :=
  name ← ToWSTRING (assembly_name reference);
  match find_redirect assembly_redirects name with
  | None => mret None
  | Some (key, redirect) =>
      match version_span reference with
      | None =>
          w ← VersionStr redirect;
          target_version ← ToString_w w;
          mret (Some {| edit_begin := insert_version_at reference; edit_end := insert_version_at reference;
                        edit_value := version_prefix ++ target_version; edit_assembly := key |})
      | Some sp =>
          match TryParseVersion (View sp type_name) with
          | None => Err tt
          | Some parsed_version =>
              if decide (CompareToAssemblyVersion redirect parsed_version ≤ 0) then mret None
              else
                w ← VersionStr redirect;
                target_version ← ToString_w w;
                mret (Some {| edit_begin := begin sp; edit_end := end_ sp;
                              edit_value := target_version; edit_assembly := key |})
          end
      end
  end.

Fixpoint plan_edits (type_name : list Z) (assembly_redirects : redirects)
    (references : list ParsedAssemblyReference) (edits : list Edit) : outcome unit (list Edit) :=
  match references with
  | [] => mret edits
  | r :: rs =>
      e ← plan_edit type_name assembly_redirects r;
      plan_edits type_name assembly_redirects rs (match e with Some e => edits ++ [e] | None => edits end)
  end.

(** [std::sort] by begin, then end. *)
Definition edit_lt (left right : Edit) : Prop :=
  if decide (edit_begin left ≠ edit_begin right) then (edit_begin left < edit_begin right)%nat
  else (edit_end left < edit_end right)%nat.
#[export] Instance edit_lt_dec l r : Decision (edit_lt l r).
Proof. unfold edit_lt. case_decide; apply _. Defined.

Fixpoint insert_edit (e : Edit) (es : list Edit) : list Edit :=
  match es with
  | [] => [e]
  | e' :: es' => if decide (edit_lt e' e) then e' :: insert_edit e es' else e :: es
  end.
Definition sort_edits (es : list Edit) : list Edit := foldr insert_edit [] es.

(** The copying loop: [rewritten] so far, [copied] and the names so far. *)
Fixpoint apply_edits (type_name : list Z) (edits : list Edit) (copied : nat) (rewritten : list Z) (names : list (list Z)) :
    outcome unit (list Z * list (list Z)) :=
  match edits with
  | [] => mret (rewritten ++ drop copied type_name, names)
  | e :: es =>
      if decide (edit_begin e < copied ∨ edit_end e < edit_begin e ∨ length type_name < edit_end e)%nat then Err tt
      else apply_edits type_name es (edit_end e)
             (rewritten ++ slice copied (edit_begin e - copied) type_name ++ edit_value e)
             (names ++ [edit_assembly e])
  end.

Definition TryRewriteTypeNameAssemblyRedirections (type_name : list Z) (assembly_redirects : redirects) :
    outcome unit (list Z * list (list Z)) :=
  references ← ParseTypeNameAssemblyReferences type_name;
  edits ← plan_edits type_name assembly_redirects references [];
  match edits with
  | [] => Err tt
  | _ => apply_edits type_name (sort_edits edits) 0 [] []
  end.

(** ** Decimal numbers *)

Lemma decimal_fuel_spec fuel n :
  0 ≤ n < 10 ^ Z.of_nat fuel → (0 < fuel)%nat →
  decimal_fuel fuel n ≠ [] ∧ Forall (λ c, 48 ≤ c ≤ 57) (decimal_fuel fuel n) ∧ digits_value (decimal_fuel fuel n) = n.
Proof.
  revert n. induction fuel as [|fuel IH]; intros n Hn Hf; [lia|]. cbn [decimal_fuel].
  pose proof (Z.mod_pos_bound n 10 ltac:(lia)) as Hm. split_and!; [by intros [_ ?]%app_eq_nil|..];
    destruct (decide (n < 10)).
  - repeat constructor; lia.
  - rewrite Nat2Z.inj_succ, Z.pow_succ_r in Hn by lia.
    apply Forall_app. split; [|repeat constructor; lia]. destruct fuel; [simpl in Hn; lia|].
    apply IH; [|lia]. pose proof (Z_div_mod_eq_full n 10). lia.
  - unfold digits_value. cbn. rewrite Z.mod_small by lia. lia.
  - rewrite Nat2Z.inj_succ, Z.pow_succ_r in Hn by lia. destruct fuel; [simpl in Hn; lia|].
    pose proof (Z_div_mod_eq_full n 10). destruct (IH (n / 10)) as (_ & _ & E); [lia|lia|].
    unfold digits_value in *. rewrite foldl_app, E. cbn. lia.
Qed.

Lemma decimal_spec n :
  0 ≤ n → decimal n ≠ [] ∧ Forall (λ c, 48 ≤ c ≤ 57) (decimal n) ∧ digits_value (decimal n) = n.
Proof.
  intros Hn. apply decimal_fuel_spec; [|lia]. split; [done|].
  rewrite Nat2Z.inj_succ, Z2Nat.id by apply Z.log2_nonneg.
  destruct (decide (n = 0)) as [->|]; [by vm_compute|].
  eapply Z.lt_le_trans; [apply Z.log2_spec; lia|]. apply Z.pow_le_mono_l. lia.
Qed.

(** ** Versions *)

Definition ushort_version (v : ASSEMBLYMETADATA) : Prop :=
  0 ≤ usMajorVersion v < 65536 ∧ 0 ≤ usMinorVersion v < 65536 ∧
  0 ≤ usBuildNumber v < 65536 ∧ 0 ≤ usRevisionNumber v < 65536.

(** Lexicographic order on versions. *)
Definition version_lt (v w : ASSEMBLYMETADATA) : Prop :=
  usMajorVersion v < usMajorVersion w ∨ usMajorVersion v = usMajorVersion w ∧
  (usMinorVersion v < usMinorVersion w ∨ usMinorVersion v = usMinorVersion w ∧
   (usBuildNumber v < usBuildNumber w ∨ usBuildNumber v = usBuildNumber w ∧
    usRevisionNumber v < usRevisionNumber w)).

Lemma Compare_positive this v : 0 < CompareToAssemblyVersion this v ↔ version_lt v (avr_version this).
Proof. unfold CompareToAssemblyVersion, version_lt. repeat case_decide; lia. Qed.

Lemma version_chars_ascii v : ushort_version v → Forall (λ c, 0 < c < 128) (version_chars v).
Proof.
  intros (H1 & H2 & H3 & H4). unfold version_chars, ch_dot.
  assert (∀ n, 0 ≤ n → Forall (λ c, 0 < c < 128) (decimal n)) as Hd.
  { intros n Hn. destruct (decimal_spec n Hn) as (_ & H & _). eapply Forall_impl; [exact H|]. simpl. lia. }
  rewrite !Forall_app, !Forall_singleton. split_and!; try lia; apply Hd; lia.
Qed.

Lemma ascii_utf8 s : Forall (λ c, 0 < c < 128) s → concat (utf8_encode <$> s) = s.
Proof. induction 1 as [|c s Hc _ IH]; [done|]. rewrite fmap_cons. cbn [concat]. by rewrite utf8_encode_1, IH by lia. Qed.

Lemma ascii_utf16 s : Forall (λ c, 0 < c < 128) s → concat (utf16_encode <$> s) = s.
Proof. induction 1 as [|c s Hc _ IH]; [done|]. rewrite fmap_cons. cbn [concat]. by rewrite utf16_encode_1, IH by lia. Qed.

Lemma ascii_until_nul s : Forall (λ c, 0 < c < 128) s → until_nul s = s.
Proof. induction 1 as [|c s Hc _ IH]; [done|]. cbn [until_nul]. by rewrite decide_False, IH by lia. Qed.

Lemma ToWSTRING_ascii s : Forall (λ c, 0 < c < 128) s → ToWSTRING s = Ret s.
Proof.
  intros Hs. unfold ToWSTRING. rewrite <-(ascii_utf8 s) at 1 by done. rewrite to_utf16_encoded.
  - cbn [mbind outcome_bind]. by rewrite ascii_utf16, ascii_until_nul.
  - eapply Forall_impl; [exact Hs|]. simpl. lia.
Qed.

Lemma ToString_ascii s : Forall (λ c, 0 < c < 128) s → ToString_w s = Ret s.
Proof.
  intros Hs. unfold ToString_w. rewrite <-(ascii_utf16 s) at 1 by done. rewrite to_utf8_encoded.
  - by rewrite ascii_utf8.
  - eapply Forall_impl; [exact Hs|]. unfold scalar, surrogate. simpl. lia.
Qed.

Lemma VersionStr_ToString this :
  ushort_version (avr_version this) →
  (w ← VersionStr this; ToString_w w) = Ret (version_chars (avr_version this)).
Proof.
  intros H%version_chars_ascii. unfold VersionStr. rewrite ToWSTRING_ascii by done.
  cbn [mbind outcome_bind]. by apply ToString_ascii.
Qed.

Lemma ToWSTRING_total s : Forall (λ b, is_byte b) s → ∃ w, ToWSTRING s = Ret w.
Proof.
  intros Hs. destruct (convert_total utf8_decode_check utf8_encode utf16_encode _ _ utf8_safe s (length s) 0 [] Hs) as [w Hw]; [lia|].
  exists (until_nul w). unfold ToWSTRING. change (to_utf16 s) with (convert utf8_decode utf16_encode (length s) s 0 []).
  unfold utf8_decode. by rewrite Hw.
Qed.

(** ** Parsing versions *)

Lemma digits_prefix_all ds : Forall (λ c, 48 ≤ c ≤ 57) ds → digits_prefix ds = ds.
Proof.
  induction 1 as [|c ds Hc _ IH]; [done|]. cbn [digits_prefix]. unfold is_digit.
  rewrite bool_decide_eq_true_2 by done. by rewrite IH.
Qed.

Lemma from_chars_decimal n : 0 ≤ n < 65536 → from_chars (decimal n) = (length (decimal n), Some n).
Proof.
  intros Hn. destruct (decimal_spec n) as (H1 & H2 & H3); [lia|]. unfold from_chars.
  rewrite digits_prefix_all, H3 by done. rewrite decide_False by done. by rewrite decide_False by lia.
Qed.

Lemma split_dot_decimal n s :
  0 ≤ n → split_dot (decimal n ++ ch_dot :: s) = (decimal n, Some s) ∧ split_dot (decimal n) = (decimal n, None).
Proof.
  intros Hn. destruct (decimal_spec n Hn) as (_ & Hd & _). induction Hd as [|c ds Hc _ [IH1 IH2]]; [done|].
  unfold ch_dot in *. cbn [app split_dot]. rewrite !decide_False by (unfold ch_dot; lia). by rewrite IH1, IH2.
Qed.

(** One component of a printed version. *)
Lemma parse_components_decimal n c rest unspec parsed :
  0 ≤ c < 65536 →
  parse_components (S n) (decimal c ++ match rest with Some s => ch_dot :: s | None => [] end) unspec parsed =
  if decide (c = 65535 ∧ (length parsed < 2)%nat) then None
  else
    let unspec := unspec || bool_decide (c = 65535) in
    let parsed := parsed ++ [if unspec then 0 else c] in
    match rest with
    | None => Some (parsed, true)
    | Some s => parse_components n s unspec parsed
    end.
Proof.
  intros Hc. destruct (decimal_spec c) as (H1 & _ & _); [lia|].
  assert (split_dot (decimal c ++ match rest with Some s => ch_dot :: s | None => [] end) = (decimal c, rest)) as E.
  { destruct rest as [s|]; [by apply split_dot_decimal; lia|]. rewrite app_nil_r. by apply (split_dot_decimal c []); lia. }
  cbn [parse_components]. rewrite E, from_chars_decimal by done. cbn -[decide].
  rewrite (decide_False (P := decimal c = [] ∨ _)); [done|]. unfold unspecified_version_component. intros [?|[?|?]]; [congruence|congruence|lia].
Qed.

(** What the parser makes of a version: 65535 makes the build, or the revision, and what follows
    it zero; it is refused for the major and minor numbers. *)
Definition normalised (v : ASSEMBLYMETADATA) : option ASSEMBLYMETADATA :=
  if decide (usMajorVersion v = 65535 ∨ usMinorVersion v = 65535) then None
  else Some {| usMajorVersion := usMajorVersion v; usMinorVersion := usMinorVersion v;
               usBuildNumber := if decide (usBuildNumber v = 65535) then 0 else usBuildNumber v;
               usRevisionNumber := if decide (usBuildNumber v = 65535 ∨ usRevisionNumber v = 65535) then 0
                                   else usRevisionNumber v |}.

Lemma TryParseVersion_version_chars v :
  ushort_version v → TryParseVersion (version_chars v) = normalised v.
Proof.
  intros (H1 & H2 & H3 & H4). unfold TryParseVersion, version_chars.
  set (s2 := decimal (usBuildNumber v) ++ [ch_dot] ++ decimal (usRevisionNumber v)).
  set (s1 := decimal (usMinorVersion v) ++ [ch_dot] ++ s2).
  change (decimal (usMajorVersion v) ++ [ch_dot] ++ s1) with (decimal (usMajorVersion v) ++ ch_dot :: s1).
  rewrite (parse_components_decimal 3 (usMajorVersion v) (Some s1)) by done. unfold normalised.
  destruct (decide (usMajorVersion v = 65535)) as [E1|E1].
  { by rewrite !decide_True by (simpl; lia). }
  rewrite decide_False by lia. cbv zeta. rewrite bool_decide_eq_false_2 by done. cbn [orb app].
  unfold s1 at 1. cbn [app].
  rewrite (parse_components_decimal 2 (usMinorVersion v) (Some s2)) by done.
  destruct (decide (usMinorVersion v = 65535)) as [E2|E2].
  { by rewrite !decide_True by (simpl; lia). }
  rewrite (decide_False (P := usMinorVersion v = 65535 ∧ _)) by lia. cbv zeta. rewrite bool_decide_eq_false_2 by done.
  cbn [orb app]. unfold s2 at 1. cbn [app].
  rewrite (parse_components_decimal 1 (usBuildNumber v) (Some (decimal (usRevisionNumber v)))) by done.
  rewrite (decide_False (P := usBuildNumber v = 65535 ∧ _)) by (simpl; lia). cbv zeta. cbn [orb app].
  rewrite <-(app_nil_r (decimal (usRevisionNumber v))).
  rewrite (parse_components_decimal 0 (usRevisionNumber v) None) by done.
  rewrite (decide_False (P := usRevisionNumber v = 65535 ∧ _)) by (simpl; lia). cbv zeta.
  rewrite (decide_False (P := usMajorVersion v = 65535 ∨ _)) by tauto. cbn -[decide bool_decide].
  rewrite decide_False by (intros [?|?]; [lia|done]).
  destruct (decide (usBuildNumber v = 65535)), (decide (usRevisionNumber v = 65535)); repeat case_bool_decide; try tauto;
    cbn [orb]; repeat case_decide; try tauto; done.
Qed.

(** ** What is redirected *)

Section Redirecting.
Context (type_name : list Z) (assembly_redirects : redirects).

(** The redirection for a reference: the entry with exactly its name or, if there is none, the
    first one whose name differs only in ASCII case. *)
Definition redirect_for (r : ParsedAssemblyReference) (key : list Z) (redirect : AssemblyVersionRedirection) : Prop :=
  ∃ name, ToWSTRING (assembly_name r) = Ret name ∧ find_redirect assembly_redirects name = Some (key, redirect).

Definition no_redirect_for (r : ParsedAssemblyReference) : Prop :=
  ∃ name, ToWSTRING (assembly_name r) = Ret name ∧
          ∀ key redirect, (key, redirect) ∈ assembly_redirects → key ≠ name ∧ EqualsIgnoreAsciiCase key name = false.

(** The edit of a reference: [None] when it stays as it is. *)
Definition edit_of (r : ParsedAssemblyReference) (oe : option Edit) : Prop :=
  match oe with
  | None =>
      no_redirect_for r ∨
      ∃ key redirect sp v, redirect_for r key redirect ∧ version_span r = Some sp ∧
        TryParseVersion (View sp type_name) = Some v ∧ ¬ version_lt v (avr_version redirect)
  | Some e =>
      ∃ redirect, redirect_for r (edit_assembly e) redirect ∧ (edit_begin e, edit_end e) = edit_range r ∧
      match version_span r with
      | None => edit_value e = version_prefix ++ version_chars (avr_version redirect)
      | Some sp => ∃ v, TryParseVersion (View sp type_name) = Some v ∧ version_lt v (avr_version redirect) ∧
                        edit_value e = version_chars (avr_version redirect)
      end
  end.

(** A reference that makes the rewriter give up. *)
Definition bad_version (r : ParsedAssemblyReference) : Prop :=
  ∃ key redirect sp, redirect_for r key redirect ∧ version_span r = Some sp ∧
    TryParseVersion (View sp type_name) = None.

Context (Hname : Forall (λ b, is_byte b) type_name)
        (Hredirects : ∀ key redirect, (key, redirect) ∈ assembly_redirects → ushort_version (avr_version redirect)).

Lemma find_redirect_In name key redirect :
  find_redirect assembly_redirects name = Some (key, redirect) → (key, redirect) ∈ assembly_redirects.
Proof.
  unfold find_redirect. destruct (find _ _) as [e|] eqn:E; intros H; simplify_eq;
    [apply find_some in E as [E _]|apply find_some in H as [H _]]; by apply list_elem_of_In.
Qed.

Lemma find_redirect_None name :
  find_redirect assembly_redirects name = None →
  ∀ key redirect, (key, redirect) ∈ assembly_redirects → key ≠ name ∧ EqualsIgnoreAsciiCase key name = false.
Proof.
  unfold find_redirect. destruct (find _ _) as [e|] eqn:E; [done|]. intros H key redirect Hin%list_elem_of_In. split.
  - pose proof (find_none _ _ E _ Hin) as Hk. by apply bool_decide_eq_false in Hk.
  - apply (find_none _ _ H _ Hin).
Qed.

Lemma plan_edit_spec r :
  assembly_name r ⊆ type_name →
  (plan_edit type_name assembly_redirects r = Err tt ∧ bad_version r) ∨
  ∃ oe, plan_edit type_name assembly_redirects r = Ret oe ∧ edit_of r oe.
Proof.
  intros Hr. destruct (ToWSTRING_total (assembly_name r)) as [name Hn].
  { apply Forall_forall. intros c Hc%Hr. by apply (proj1 (Forall_forall _ _) Hname). }
  unfold plan_edit. rewrite Hn. cbn [mbind outcome_bind].
  destruct (find_redirect assembly_redirects name) as [[key redirect]|] eqn:Ef.
  2: { right. exists None. split; [done|]. left. exists name. split; [done|]. by apply find_redirect_None. }
  pose proof (Hredirects _ _ (find_redirect_In _ _ _ Ef)) as Hv%VersionStr_ToString.
  assert (Hf : redirect_for r key redirect) by by exists name.
  destruct (VersionStr redirect) as [w| | |]; try done. cbn [mbind outcome_bind] in Hv |- *. rewrite Hv.
  destruct (version_span r) as [sp|] eqn:Es.
  - destruct (TryParseVersion (View sp type_name)) as [v|] eqn:Ep.
    2: { left. split; [done|]. by exists key, redirect, sp. }
    right. case_decide as Hc; cbn [mbind outcome_bind].
    + exists None. split; [done|]. right. exists key, redirect, sp, v. split_and!; [done..|].
      rewrite <-Compare_positive. lia.
    + eexists (Some _). split; [done|]. exists redirect. unfold edit_range. cbn -[TryParseVersion]. rewrite Es. split_and!; [done..|].
      exists v. split_and!; [done| |done]. apply Compare_positive. lia.
  - right. eexists (Some _). split; [done|]. exists redirect. unfold edit_range. cbn. rewrite Es. by split_and!.
Qed.

Lemma plan_edits_spec lo hi references edits :
  ordered type_name lo hi references →
  (plan_edits type_name assembly_redirects references edits = Err tt ∧ Exists bad_version references) ∨
  ∃ oes, Forall2 edit_of references oes ∧
         plan_edits type_name assembly_redirects references edits = Ret (edits ++ omap id oes).
Proof.
  revert lo edits. induction references as [|r rs IH]; intros lo edits Ho.
  - right. exists []. split; [constructor|]. simpl. by rewrite app_nil_r.
  - destruct Ho as (_ & Hr & Ho). cbn [plan_edits].
    destruct (plan_edit_spec r Hr) as [[-> Hbad]|(oe & -> & He)]; [left; split; [done|by constructor]|].
    cbn [mbind outcome_bind].
    destruct (IH _ (match oe with Some e => edits ++ [e] | None => edits end) Ho) as [[-> Hbad]|(oes & HF & ->)].
    + left. split; [done|]. by apply Exists_cons_tl.
    + right. exists (oe :: oes). split; [by constructor|]. destruct oe; simpl; [by rewrite <-app_assoc|done].
Qed.

(** Edits are as apart as their references. *)
Fixpoint apart (lo : nat) (es : list Edit) : Prop :=
  match es with
  | [] => True
  | e :: es => (lo ≤ edit_begin e ∧ edit_begin e ≤ edit_end e ∧ edit_end e ≤ length type_name)%nat ∧ apart (S (edit_end e)) es
  end.

Lemma apart_mono lo lo' es : (lo' ≤ lo)%nat → apart lo es → apart lo' es.
Proof. destruct es; simpl; [done|]. intros ? [? ?]. split; [lia|done]. Qed.

Lemma edits_apart lo references oes :
  ordered type_name lo (length type_name) references → Forall2 edit_of references oes → apart lo (omap id oes).
Proof.
  intros Ho HF. revert lo Ho. induction HF as [|r oe rs oes He HF IH]; intros lo Ho; [done|].
  destruct Ho as (Hr & _ & Ho). apply IH in Ho. destruct oe as [e|]; simpl.
  - destruct He as (redirect & _ & He & _). destruct (edit_range r) as [b e'].
    injection He as -> ->. simpl in *. split; [lia|done].
  - eapply apart_mono; [|exact Ho]. lia.
Qed.

Lemma sort_edits_id lo es : apart lo es → sort_edits es = es.
Proof.
  revert lo. induction es as [|e es IH]; intros lo; [done|]. intros [He Ha].
  unfold sort_edits in *. cbn [foldr]. rewrite (IH _ Ha). destruct es as [|e' es]; [done|]. cbn [insert_edit].
  destruct Ha as [He' _]. rewrite decide_False; [done|]. unfold edit_lt. case_decide; lia.
Qed.

(** Each edit done on the whole string, the last one first. *)
Definition replace_all (es : list Edit) : list Z :=
  foldr (λ e s, take (edit_begin e) s ++ edit_value e ++ drop (edit_end e) s) type_name es.

Lemma replace_all_prefix lo es n : apart lo es → (n ≤ lo)%nat → take n (replace_all es) = take n type_name.
Proof.
  revert lo n. induction es as [|e es IH]; intros lo n; [done|]. intros [He Ha] Hn. cbn [replace_all foldr].
  change (foldr _ type_name es) with (replace_all es).
  rewrite (IH _ (edit_begin e) Ha) by lia. rewrite take_app_le by (rewrite length_take; lia). rewrite take_take. f_equal. lia.
Qed.

Lemma apply_edits_spec es copied out names :
  apart copied es → (copied ≤ length type_name)%nat →
  apply_edits type_name es copied out names = Ret (out ++ drop copied (replace_all es), names ++ (edit_assembly <$> es)).
Proof.
  revert copied out names. induction es as [|e es IH]; intros copied out names Ha Hc; cbn [apply_edits].
  - by rewrite app_nil_r.
  - destruct Ha as [He Ha]. rewrite decide_False by lia.
    rewrite IH by (lia || by eapply apart_mono; [|exact Ha]; lia).
    cbn [replace_all foldr]. change (foldr _ type_name es) with (replace_all es).
    rewrite (replace_all_prefix (S (edit_end e)) es (edit_begin e)) by (try done; lia).
    rewrite drop_app_le by (rewrite length_take; lia). rewrite <-!app_assoc, fmap_cons. do 3 f_equal.
    unfold slice. by rewrite <-skipn_firstn_comm.
Qed.

Lemma TryRewrite_spec :
  (TryRewriteTypeNameAssemblyRedirections type_name assembly_redirects = Err tt ∧
     (ParseTypeNameAssemblyReferences type_name = Err tt ∨
      ∃ references, ParseTypeNameAssemblyReferences type_name = Ret references ∧
        (Exists bad_version references ∨ Forall (λ r, edit_of r None) references))) ∨
  ∃ references oes, ParseTypeNameAssemblyReferences type_name = Ret references ∧
    Forall2 edit_of references oes ∧ omap id oes ≠ [] ∧
    TryRewriteTypeNameAssemblyRedirections type_name assembly_redirects =
      Ret (replace_all (omap id oes), edit_assembly <$> omap id oes).
Proof.
  unfold TryRewriteTypeNameAssemblyRedirections.
  destruct (ParseTypeName_spec type_name) as [->|(references & -> & Ho)]; [by left; split; [|left]|].
  cbn [mbind outcome_bind].
  destruct (plan_edits_spec _ _ references [] Ho) as [[-> Hbad]|(oes & HF & ->)].
  { left. split; [done|]. right. exists references. auto. }
  cbn [mbind outcome_bind app]. destruct (omap id oes) as [|e es] eqn:E.
  - left. split; [done|]. right. exists references. split; [done|]. right.
    clear Ho. induction HF as [|r oe rs oes He HF IH]; [constructor|]. destruct oe; [done|]. constructor; [done|]. by apply IH.
  - right. exists references, oes. rewrite E. split_and!; [done..|]. rewrite <-E.
    pose proof (edits_apart _ _ _ Ho HF) as Ha. rewrite (sort_edits_id _ _ Ha), apply_edits_spec by (done || lia).
    by rewrite drop_0.
Qed.
End Redirecting.

(** ** Properties *)

(** C14: rewriting a type name always returns, and does exactly what is planned: every reference
    with a configured redirection to a higher version gets that version, inserted behind the
    assembly name when it had none, every other byte of the name is kept, and the sorting and
    overlap check never change or refuse the plan.  It fails only when the name does not parse, a
    redirected reference has a malformed version, or there is nothing to redirect. *)
Theorem TryRewrite_exact type_name assembly_redirects :
  Forall (λ b, is_byte b) type_name →
  (∀ key redirect, (key, redirect) ∈ assembly_redirects → ushort_version (avr_version redirect)) →
  (TryRewriteTypeNameAssemblyRedirections type_name assembly_redirects = Err tt ∧
     (ParseTypeNameAssemblyReferences type_name = Err tt ∨
      ∃ references, ParseTypeNameAssemblyReferences type_name = Ret references ∧
        (Exists (bad_version type_name assembly_redirects) references ∨
         Forall (λ r, edit_of type_name assembly_redirects r None) references))) ∨
  ∃ references oes, ParseTypeNameAssemblyReferences type_name = Ret references ∧
    Forall2 (edit_of type_name assembly_redirects) references oes ∧ omap id oes ≠ [] ∧
    TryRewriteTypeNameAssemblyRedirections type_name assembly_redirects =
      Ret (replace_all type_name (omap id oes), edit_assembly <$> omap id oes).
Proof. apply TryRewrite_spec. Qed.

(** A version printed into a type name is read back, with 65535 meaning an unspecified build
    or revision; so a reference that was redirected to a fully specified version is left alone by
    the next rewrite. *)
Theorem version_roundtrip redirect :
  ushort_version (avr_version redirect) →
  TryParseVersion (version_chars (avr_version redirect)) = normalised (avr_version redirect) ∧
  ∀ v, TryParseVersion (version_chars (avr_version redirect)) = Some v →
       usBuildNumber (avr_version redirect) < 65535 → usRevisionNumber (avr_version redirect) < 65535 →
       CompareToAssemblyVersion redirect v = 0.
Proof.
  intros Hv. rewrite TryParseVersion_version_chars by done. split; [done|]. intros v Hn Hb Hr.
  unfold normalised in Hn. case_decide; [done|]. injection Hn as <-. unfold CompareToAssemblyVersion. cbn -[decide].
  by repeat (case_decide; try lia).
Qed.

(** ** Instances *)

(** "T, b, Version=1.0" with a redirection of "B" to 1.2.0.9. *)
Definition example_name : list Z := [84; 44; 32; 98; 44; 32; 86; 101; 114; 115; 105; 111; 110; 61; 49; 46; 48].
Definition example_redirect : AssemblyVersionRedirection :=
  {| avr_version := {| usMajorVersion := 1; usMinorVersion := 2; usBuildNumber := 0; usRevisionNumber := 9 |};
     ulRedirectionCount := 0 |}.

(** The version "1.0" at index 14 becomes "1.2.0.9". *)
Lemma TryRewrite_exact_witness :
  TryRewriteTypeNameAssemblyRedirections example_name [([66], example_redirect)] =
    Ret (take 14 example_name ++ [49; 46; 50; 46; 48; 46; 57], [[66]]) ∧
  ∃ references oes, ParseTypeNameAssemblyReferences example_name = Ret references ∧
    Forall2 (edit_of example_name [([66], example_redirect)]) references oes.
Proof.
  destruct (TryRewrite_exact example_name [([66], example_redirect)]) as [[H _]|(references & oes & H1 & H2 & _)].
  - unfold example_name. repeat (apply Forall_cons; split; [lia|]). apply Forall_nil_2.
  - intros key redirect Hin. apply list_elem_of_singleton in Hin. injection Hin as -> ->. vm_compute. intuition discriminate.
  - vm_compute in H. discriminate H.
  - split; [vm_compute; reflexivity|]. exists references, oes. split; [exact H1|exact H2].
Defined.

Lemma version_roundtrip_witness :
  TryParseVersion (version_chars (avr_version example_redirect)) = Some (avr_version example_redirect) ∧
  CompareToAssemblyVersion example_redirect (avr_version example_redirect) = 0.
Proof.
  destruct (version_roundtrip example_redirect) as [H1 H2].
  - vm_compute. intuition discriminate.
  - split; [exact H1|]. apply H2; [exact H1|vm_compute; reflexivity|vm_compute; reflexivity].
Defined.
