(* ===== verification/UnsafeAccessorBlob.v ===== *)
(** * Redirecting the type name in a custom attribute value
    (unsafe_accessor_type_attribute_blob_rewriter.cpp)

    The value of an UnsafeAccessorTypeAttribute is a prolog, a length-prefixed type name and the
    named arguments.  The rewriter replaces the type name and its length prefix.  [Err tt] is
    [return false]; reading outside the blob is [Stuck].  The main result describes the rewritten
    blob completely. *)

From S2P Require Import Prelude CorSig TypeNameParser TypeNameRewriter.

Definition WritePackedLength (blob : list Z) (length_ : Z) : option (list Z) :=
  if decide (0x1FFFFFFF < length_) then None
  else encoded_length ← CorSigCompressData length_; Some (blob ++ encoded_length).

Definition max_blob_size : Z := 0xFFFFFFFF.

Definition TryRewriteUnsafeAccessorTypeAttributeBlob (blob : option (list Z)) (blob_size : Z)
    (assembly_redirects : redirects) : outcome unit (list Z * list (list Z)) :=
  match blob with
  | None => Err tt
  | Some blob =>
      if decide (blob_size < 2 + 1 + 2) then Err tt
      else
        b0 ← byte_at blob 0;
        if decide (b0 ≠ 0x01) then Err tt
        else
          b1 ← byte_at blob 1;
          if decide (b1 ≠ 0x00) then Err tt
          else
            b2 ← byte_at blob 2;
            if decide (b2 = 0xFF) then Err tt
            else
              let serialized_string_size := blob_size - 2 - 2 in
              '(string_length, encoded_length_size) ← CorSigUncompressData (drop 2 blob) serialized_string_size;
              if decide (serialized_string_size < encoded_length_size ∨
                         serialized_string_size - encoded_length_size < string_length) then Err tt
              else
                let string_begin := 2 + encoded_length_size in
                if decide (Z.of_nat (length blob) < string_begin + string_length) then Stuck
                else
                  let type_name := slice (Z.to_nat string_begin) (Z.to_nat string_length) blob in
                  '(rewritten_type_name, rewritten_assembly_names) ←
                    TryRewriteTypeNameAssemblyRedirections type_name assembly_redirects;
                  let trailing_size := serialized_string_size - encoded_length_size - string_length + 2 in
                  match WritePackedLength (take 2 blob) (Z.of_nat (length rewritten_type_name)) with
                  | None => Err tt
                  | Some rewritten_blob =>
                      let size := Z.of_nat (length rewritten_blob) in
                      if decide (max_blob_size - size < Z.of_nat (length rewritten_type_name) ∨
                                 max_blob_size - size - Z.of_nat (length rewritten_type_name) < trailing_size) then Err tt
                      else if decide (Z.of_nat (length blob) < blob_size) then Stuck
                      else mret (rewritten_blob ++ rewritten_type_name ++
                                 slice (Z.to_nat (string_begin + string_length))
                                       (Z.to_nat (blob_size - string_begin - string_length)) blob,
                                 rewritten_assembly_names)
                  end
  end.

(** ** The format *)

(** A blob is the prolog, the packed length of the name, the name and the rest, at least the
    number of named arguments. *)
Record attribute_blob (blob prefix name trailing : list Z) : Prop := {
  blob_parts : blob = [0x01; 0x00] ++ prefix ++ name ++ trailing;
  blob_prefix : CorSigUncompressData prefix (Z.of_nat (length prefix)) =
                Ret (Z.of_nat (length name), Z.of_nat (length prefix));
  blob_trailing : (2 ≤ length trailing)%nat;
}.

Lemma uncompress_nonempty len : CorSigUncompressData [] len = Stuck.
Proof. done. Qed.

Lemma prefix_not_FF prefix len n size :
  CorSigUncompressData prefix len = Ret (n, size) → ∃ b p, prefix = b :: p ∧ b ≠ 0xFF.
Proof.
  destruct prefix as [|b p]; [done|]. intros H. exists b, p. split; [done|]. intros ->. by vm_compute in H.
Qed.

(** The names the rewriter returns are as long as what it can pack. *)
Definition fits (prefix_size name_size trailing_size : nat) : Prop :=
  Z.of_nat name_size ≤ 0x1FFFFFFF ∧ 2 + Z.of_nat prefix_size + Z.of_nat name_size + Z.of_nat trailing_size ≤ max_blob_size.
#[export] Instance fits_dec p n t : Decision (fits p n t).
Proof. unfold fits. apply _. Defined.

Section Format.
Context (assembly_redirects : redirects).

(** What the rewriter does with a blob of the format. *)
Definition rewritten (name trailing : list Z) : outcome unit (list Z * list (list Z)) :=
  '(name', names) ← TryRewriteTypeNameAssemblyRedirections name assembly_redirects;
  let prefix := packed (Z.of_nat (length name')) in
  if decide (fits (length prefix) (length name') (length trailing))
  then Ret ([0x01; 0x00] ++ prefix ++ name' ++ trailing, names) else Err tt.

Lemma WritePackedLength_packed blob n :
  0 ≤ n → WritePackedLength blob n = if decide (n ≤ 0x1FFFFFFF) then Some (blob ++ packed n) else None.
Proof.
  intros Hn. unfold WritePackedLength. case_decide; [by rewrite decide_False by lia|].
  rewrite decide_True by lia. by rewrite CorSigCompressData_packed by lia.
Qed.

(** The part of the rewriter behind the checks of the prolog. *)
Lemma rewrite_attribute_blob blob prefix name trailing :
  attribute_blob blob prefix name trailing → Forall (λ b, is_byte b) blob →
  TryRewriteUnsafeAccessorTypeAttributeBlob (Some blob) (Z.of_nat (length blob)) assembly_redirects =
  rewritten name trailing.
Proof.
  intros [-> Hp Ht] Hb. destruct (prefix_not_FF _ _ _ _ Hp) as (b & p & Hbp & HFF).
  set (len := Z.of_nat (length ([0x01; 0x00] ++ prefix ++ name ++ trailing))).
  assert (Hlen : len = 2 + Z.of_nat (length prefix) + Z.of_nat (length name) + Z.of_nat (length trailing))
    by (unfold len; rewrite !length_app; simpl length; lia).
  assert (Hplen : (1 ≤ length prefix)%nat) by (rewrite Hbp; simpl; lia).
  assert (Hun : CorSigUncompressData (prefix ++ name ++ trailing) (len - 2 - 2) =
                Ret (Z.of_nat (length name), Z.of_nat (length prefix))).
  { rewrite <-(take_ge prefix (Z.to_nat (Z.of_nat (length prefix)))) at 1 by lia.
    apply CorSigUncompressData_take with (len := Z.of_nat (length prefix)); [|lia|lia|done|lia].
    apply Forall_app in Hb as [_ Hb]. by apply Forall_app in Hb as [? _]. }
  unfold TryRewriteUnsafeAccessorTypeAttributeBlob. rewrite decide_False by lia.
  assert (Hb2 : byte_at ([0x01; 0x00] ++ prefix ++ name ++ trailing) 2 = Ret b) by by rewrite Hbp.
  rewrite Hb2. cbn [byte_at app lookup list_lookup of_option mbind outcome_bind].
  do 2 rewrite decide_False by congruence. rewrite decide_False by done.
  cbn [drop]. rewrite drop_0, Hun. cbn [mbind outcome_bind]. rewrite decide_False by lia.
  change (0x01 :: 0x00 :: prefix ++ name ++ trailing) with ([0x01; 0x00] ++ prefix ++ name ++ trailing).
  fold len. rewrite decide_False by lia.
  replace (slice _ (Z.to_nat (Z.of_nat (length name))) _) with name.
  2: { unfold slice. rewrite !Nat2Z.id, Z2Nat.inj_add, Nat2Z.id by lia. change (Z.to_nat 2) with 2%nat. cbn [app drop Nat.add]. rewrite ?drop_0.
       rewrite drop_app_length. by rewrite take_app_length. }
  unfold rewritten. destruct (TryRewriteTypeNameAssemblyRedirections _ _) as [[name' names]|[]| |]; try done.
  cbn [mbind outcome_bind]. cbn [app take]. rewrite WritePackedLength_packed by lia. unfold fits.
  destruct (decide (Z.of_nat (length name') ≤ 0x1FFFFFFF)) as [Hn|Hn].
  2: { rewrite decide_False by tauto. done. }
  cbn [app length]. rewrite take_0. cbn [app]. destruct (decide (_ ∧ _)) as [Hf|Hf].
  - rewrite decide_False by lia. rewrite decide_False by lia. unfold mret, outcome_ret. do 2 f_equal.
    unfold slice.
    rewrite !Z2Nat.inj_add, !Nat2Z.id by lia. change (Z.to_nat 2) with 2%nat. cbn [app drop Nat.add]. rewrite ?drop_0.
    do 2 f_equal. rewrite (app_assoc prefix), drop_app_ge by (rewrite length_app; lia). rewrite length_app, Nat.sub_diag, drop_0.
    do 2 f_equal. apply take_ge. lia.
  - by rewrite decide_True by lia.
Qed.

(** Everything else is refused. *)
Lemma rewrite_other_blob blob :
  (¬ ∃ prefix name trailing, attribute_blob blob prefix name trailing) → Forall (λ b, is_byte b) blob →
  TryRewriteUnsafeAccessorTypeAttributeBlob (Some blob) (Z.of_nat (length blob)) assembly_redirects = Err tt.
Proof.
  intros Hno Hb. unfold TryRewriteUnsafeAccessorTypeAttributeBlob. case_decide as Hl; [done|].
  destruct blob as [|b0 [|b1 [|b2 bs]]]; [simpl in Hl; lia..|]. unfold byte_at.
  cbn [app lookup list_lookup of_option mbind outcome_bind]. repeat (case_decide; [done|]). cbn [drop].
  set (len := Z.of_nat (length (b0 :: b1 :: b2 :: bs))) in *.
  assert (Hlen : len = 3 + Z.of_nat (length bs)) by (unfold len; simpl length; lia).
  repeat (apply Forall_cons in Hb as [? Hb]).
  assert (Hb2 : Forall (λ b, is_byte b) (b2 :: bs)) by by apply Forall_cons.
  destruct (CorSigUncompressData_bounds (b2 :: bs) (len - 2 - 2)) as [->|(n & size & Hun & Hn & Hs & _)];
    [done|lia|simpl length; lia|done|].
  rewrite Hun. cbn [mbind outcome_bind]. case_decide as Hfit; [done|]. exfalso. apply Hno.
  exists (take (Z.to_nat size) (b2 :: bs)), (slice (Z.to_nat size) (Z.to_nat n) (b2 :: bs)),
    (drop (Z.to_nat size + Z.to_nat n) (b2 :: bs)).
  assert (b0 = 0x01) as -> by (destruct (decide (b0 = 0x01)); tauto).
  assert (b1 = 0x00) as -> by (destruct (decide (b1 = 0x00)); tauto).
  split.
  - cbn [app]. do 2 f_equal. unfold slice. rewrite <-drop_drop, take_drop. by rewrite take_drop.
  - rewrite length_slice, length_take by (simpl length; lia).
    replace (_ `min` _)%nat with (Z.to_nat size) by (simpl length; lia). rewrite !Z2Nat.id by lia.
    rewrite <-(app_nil_r (take _ _)). eapply CorSigUncompressData_take; [done|..|exact Hun|done]; [lia|simpl length; lia].
  - rewrite length_drop. simpl length. lia.
Qed.
End Format.

(** ** Properties *)

(** C37: the rewriter of attribute values returns for every blob, reads only inside it, and on a
    blob of the format does nothing but replace the type name and its packed length: the prolog
    and all bytes behind the name are kept, and the result is again of the format, whatever sizes
    the length prefixes have.  Any other blob is refused. *)
Theorem attribute_blob_rewrite blob assembly_redirects :
  Forall (λ b, is_byte b) blob →
  (∀ prefix name trailing, attribute_blob blob prefix name trailing →
     TryRewriteUnsafeAccessorTypeAttributeBlob (Some blob) (Z.of_nat (length blob)) assembly_redirects =
       rewritten assembly_redirects name trailing ∧
     ∀ blob' names, rewritten assembly_redirects name trailing = Ret (blob', names) →
       ∃ name', TryRewriteTypeNameAssemblyRedirections name assembly_redirects = Ret (name', names) ∧
         attribute_blob blob' (packed (Z.of_nat (length name'))) name' trailing ∧
         Z.of_nat (length blob') ≤ max_blob_size) ∧
  ((¬ ∃ prefix name trailing, attribute_blob blob prefix name trailing) →
     TryRewriteUnsafeAccessorTypeAttributeBlob (Some blob) (Z.of_nat (length blob)) assembly_redirects = Err tt).
Proof.
  intros Hb. split; [|by intros; apply rewrite_other_blob]. intros prefix name trailing Hf.
  split; [by eapply rewrite_attribute_blob|]. intros blob' names. unfold rewritten.
  destruct (TryRewriteTypeNameAssemblyRedirections _ _) as [[name' names']|[]| |]; try done. cbn [mbind outcome_bind].
  case_decide as Hfit; [|done]. intros [= <- <-]. exists name'. destruct Hfit. destruct Hf. split_and!; [done|split|].
  - done.
  - rewrite <-(app_nil_r (packed _)) at 1. apply CorSigUncompressData_packed; lia.
  - done.
  - cbn [app length]. rewrite !length_app. lia.
Qed.

(** A blob for the type name of the example of TypeNameRewriter.v. *)
Lemma attribute_blob_rewrite_witness :
  TryRewriteUnsafeAccessorTypeAttributeBlob (Some ([1; 0; 17] ++ example_name ++ [0; 0])) 22 [([66], example_redirect)] =
    Ret ([1; 0; 21] ++ take 14 example_name ++ [49; 46; 50; 46; 48; 46; 57; 0; 0], [[66]]).
Proof.
  destruct (attribute_blob_rewrite ([1; 0; 17] ++ example_name ++ [0; 0]) [([66], example_redirect)]) as [H _].
  - unfold example_name. cbn [app]. repeat (apply Forall_cons; split; [lia|]). apply Forall_nil_2.
  - destruct (H [17] example_name [0; 0]) as [Heq _].
    + split; [reflexivity|vm_compute; reflexivity|simpl; lia].
    + etransitivity; [exact Heq|]. vm_compute. reflexivity.
Defined.
