(* ===== verification/AssemblyRedirection.v ===== *)
(** * Redirecting assembly references (RedirectAssemblyReferences of clr_helpers.cpp)

    For every assembly reference of a module the map of redirections is consulted: a reference to
    a lower version is rewritten, a reference to a higher one raises the redirection if it has not
    been used yet.  The map is shared by all modules, so that its evolution matters: the main
    result is that a redirection, once applied, never changes, and that all references rewritten
    to an assembly get one version. *)

From S2P Require Import Prelude TypeNameRewriter.

(** What IMetaDataAssemblyImport reports of a reference: [None] when GetAssemblyRefProps fails or
    the name is empty. *)
Record AssemblyRef := {
  assembly_ref : Z;
  ref_props : option (list Z * ASSEMBLYMETADATA);
}.

(** A call of SetAssemblyRefProps, and whether it returned S_OK. *)
Record SetProps := {
  set_ref : Z;
  set_name : list Z;
  set_from : ASSEMBLYMETADATA;
  set_to : ASSEMBLYMETADATA;
  set_ok : bool;
}.

Record RedirectState := {
  redirect_map : gmap (list Z) AssemblyVersionRedirection;
  calls : list SetProps;
}.

Section Redirect.
(** The outcome of SetAssemblyRefProps for a reference and a version, a call of the metadata API. *)
Context (SetAssemblyRefProps : Z → ASSEMBLYMETADATA → bool).

(** The body of the loop. *)
Definition redirect_reference (r : AssemblyRef) (st : RedirectState) : RedirectState :=
  match ref_props r with
  | None => st
  | Some (name, assembly_metadata) =>
      match redirect_map st !! name with
      | None => st
      | Some redirect =>
          let version_comparison := CompareToAssemblyVersion redirect assembly_metadata in
          if decide (0 < version_comparison) then
            let hr := SetAssemblyRefProps (assembly_ref r) (avr_version redirect) in
            {| redirect_map :=
                 if hr then <[name := {| avr_version := avr_version redirect;
                                         ulRedirectionCount := u32 (ulRedirectionCount redirect + 1) |}]> (redirect_map st)
                 else redirect_map st;
               calls := calls st ++ [{| set_ref := assembly_ref r; set_name := name; set_from := assembly_metadata;
                                        set_to := avr_version redirect; set_ok := hr |}] |}
          else if decide (version_comparison = 0) then st
          else if decide (ulRedirectionCount redirect = 0) then
            {| redirect_map := <[name := {| avr_version := assembly_metadata;
                                            ulRedirectionCount := u32 (ulRedirectionCount redirect + 1) |}]> (redirect_map st);
               calls := calls st |}
          else st
      end
  end.

Definition RedirectAssemblyReferences (refs : list AssemblyRef) (st : RedirectState) : RedirectState :=
  foldl (λ st r, redirect_reference r st) st refs.

(** ** The evolution of one redirection *)

Lemma Compare_negative this v :
  CompareToAssemblyVersion this v < 0 → version_lt (avr_version this) v.
Proof. unfold CompareToAssemblyVersion, version_lt. repeat case_decide; lia. Qed.

(** From [red] to [red'], by at most [n] steps: the version does not decrease, and stays when the
    redirection has been used before. *)
Record evolves (n : Z) (red red' : AssemblyVersionRedirection) : Prop := {
  evolves_count : ulRedirectionCount red ≤ ulRedirectionCount red' ≤ ulRedirectionCount red + n;
  evolves_version : avr_version red' = avr_version red ∨
                    version_lt (avr_version red) (avr_version red') ∧ 0 < ulRedirectionCount red';
  evolves_used : 0 < ulRedirectionCount red → avr_version red' = avr_version red;
}.

Lemma version_lt_trans u v w : version_lt u v → version_lt v w → version_lt u w.
Proof. unfold version_lt. lia. Qed.

Lemma evolves_refl red : evolves 0 red red.
Proof. split; [lia|by left|done]. Qed.

Lemma evolves_trans n m red1 red2 red3 : evolves n red1 red2 → evolves m red2 red3 → evolves (n + m) red1 red3.
Proof.
  intros [C1 V1 U1] [C2 V2 U2]. split; [lia| |].
  - destruct V1 as [V1|[V1 P1]], V2 as [V2|[V2 P2]].
    + left. by rewrite V2.
    + right. by rewrite <-V1.
    + right. rewrite V2. split; [done|lia].
    + right. split; [by eapply version_lt_trans|done].
  - intros H. rewrite U2 by lia. by apply U1.
Qed.

(** A call made for [name] when the redirection ends up as [red']. *)
Definition call_for (name : list Z) (red' : AssemblyVersionRedirection) (c : SetProps) : Prop :=
  set_name c = name →
  version_lt (set_from c) (set_to c) ∧ (set_ok c = true → set_to c = avr_version red' ∧ 0 < ulRedirectionCount red').

Lemma call_for_evolves name n red red' c : call_for name red c → evolves n red red' → call_for name red' c.
Proof.
  intros Hc [C V U] Hn. destruct (Hc Hn) as [H1 H2]. split; [done|]. intros Hok. destruct (H2 Hok) as [H3 H4].
  split; [by rewrite H3, U|lia].
Qed.

Lemma redirect_reference_spec r st name red :
  redirect_map st !! name = Some red → 0 ≤ ulRedirectionCount red → ulRedirectionCount red + 1 < 2 ^ 32 →
  ∃ red' new, redirect_map (redirect_reference r st) !! name = Some red' ∧ evolves 1 red red' ∧
    calls (redirect_reference r st) = calls st ++ new ∧ Forall (call_for name red') new.
Proof.
  intros Hm Hpos Hc.
  assert (Hsame : ∃ red' new, redirect_map st !! name = Some red' ∧ evolves 1 red red' ∧
    calls st = calls st ++ new ∧ Forall (call_for name red') new).
  { exists red, []. rewrite app_nil_r. split_and!; [done| |done|constructor]. split; [lia|by left|done]. }
  unfold redirect_reference. destruct (ref_props r) as [[name' v]|]; [|done].
  destruct (redirect_map st !! name') as [red0|] eqn:Hm0; [|done].
  case_decide as Hcmp.
  - apply Compare_positive in Hcmp. destruct (decide (name' = name)) as [->|Hne].
    + assert (red0 = red) as -> by congruence. destruct (SetAssemblyRefProps _ _) eqn:Hok; cbn [redirect_map calls].
      * eexists _, _. rewrite lookup_insert_eq. split_and!; [done| |done|].
        -- split; cbn; [rewrite wrap_small by lia; lia|by left|done].
        -- apply Forall_singleton. intros _. cbn. split; [done|]. intros _. split; [done|]. rewrite wrap_small by lia. lia.
      * exists red. eexists _. split_and!; [done|split; [lia|by left|done]|done|]. apply Forall_singleton. intros _. by cbn.
    + exists red. eexists _. split_and!; [| |done|].
      * cbn [redirect_map]. destruct (SetAssemblyRefProps _ _); [by rewrite lookup_insert_ne|done].
      * split; [lia|by left|done].
      * apply Forall_singleton. by intros Hn.
  - case_decide; [done|]. case_decide as H0; [|done]. cbn [redirect_map calls].
    destruct (decide (name' = name)) as [->|Hne].
    + assert (red0 = red) as -> by congruence. eexists _, []. rewrite lookup_insert_eq, app_nil_r.
      split_and!; [done| |done|constructor]. rewrite H0. split; cbn.
      * rewrite wrap_small by lia. lia.
      * right. split; [apply Compare_negative; lia|]. rewrite wrap_small by lia. lia.
      * lia.
    + exists red, []. rewrite app_nil_r, lookup_insert_ne by done. split_and!; [done| |done|constructor]. split; [lia|by left|done].
Qed.

Lemma RedirectAssemblyReferences_spec refs st name red :
  redirect_map st !! name = Some red → 0 ≤ ulRedirectionCount red →
  ulRedirectionCount red + Z.of_nat (length refs) < 2 ^ 32 →
  ∃ red' new, redirect_map (RedirectAssemblyReferences refs st) !! name = Some red' ∧
    evolves (Z.of_nat (length refs)) red red' ∧
    calls (RedirectAssemblyReferences refs st) = calls st ++ new ∧ Forall (call_for name red') new.
Proof.
  revert st red. induction refs as [|r refs IH]; intros st red Hm Hpos Hc; simpl in Hc.
  { exists red, []. rewrite app_nil_r. split_and!; [done|apply evolves_refl|done|constructor]. }
  destruct (redirect_reference_spec r st name red Hm Hpos) as (red1 & new1 & Hm1 & He1 & Hcalls1 & Hf1); [lia|].
  destruct (IH (redirect_reference r st) red1 Hm1) as (red2 & new2 & Hm2 & He2 & Hcalls2 & Hf2); [destruct He1; lia..|].
  exists red2, (new1 ++ new2). split_and!; [done| | |].
  - replace (Z.of_nat (length (r :: refs))) with (1 + Z.of_nat (length refs)) by (simpl; lia). by eapply evolves_trans.
  - cbn [RedirectAssemblyReferences foldl]. unfold RedirectAssemblyReferences in Hcalls2. by rewrite Hcalls2, Hcalls1, app_assoc.
  - apply Forall_app. split; [|done]. eapply Forall_impl; [exact Hf1|]. intros c Hcf. by eapply call_for_evolves.
Qed.

Lemma redirect_reference_None r st name :
  redirect_map st !! name = None → redirect_map (redirect_reference r st) !! name = None.
Proof.
  intros Hm. unfold redirect_reference. destruct (ref_props r) as [[name' v]|]; [|done].
  destruct (redirect_map st !! name') as [red0|] eqn:Hm0; [|done]. assert (name' ≠ name) by congruence.
  repeat case_decide; cbn [redirect_map]; try done; [destruct (SetAssemblyRefProps _ _); [|done]|];
    by rewrite lookup_insert_ne.
Qed.

(** ** Properties *)

(** C39: redirecting the references of a module never lowers a redirection and never changes one
    that has been applied before; every reference is rewritten to a higher version, and all
    references successfully rewritten to an assembly, in this module and before, have the one
    version the map ends with.  No redirection is added. *)
Theorem redirections_consistent refs st :
  (∀ name red, redirect_map st !! name = Some red → 0 ≤ ulRedirectionCount red ∧
     ulRedirectionCount red + Z.of_nat (length refs) < 2 ^ 32 ∧ Forall (call_for name red) (calls st)) →
  let st' := RedirectAssemblyReferences refs st in
  (∀ name red, redirect_map st !! name = Some red → ∃ red',
     redirect_map st' !! name = Some red' ∧ evolves (Z.of_nat (length refs)) red red' ∧ Forall (call_for name red') (calls st')) ∧
  (∀ name, redirect_map st !! name = None → redirect_map st' !! name = None).
Proof.
  intros Hst st'. split.
  - intros name red Hm. destruct (Hst name red Hm) as (Hpos & Hc & Hf).
    destruct (RedirectAssemblyReferences_spec refs st name red Hm Hpos Hc) as (red' & new & Hm' & He & Hcalls & Hf').
    exists red'. split_and!; [done..|]. unfold st'. rewrite Hcalls. apply Forall_app. split; [|done].
    eapply Forall_impl; [exact Hf|]. intros c Hcf. by eapply call_for_evolves.
  - intros name. unfold st', RedirectAssemblyReferences. clear Hst st'. revert st.
    induction refs as [|r refs IH]; intros st Hm; [done|]. simpl. by apply IH, redirect_reference_None.
Qed.
End Redirect.

(** Two references to one assembly: a higher one raises the redirection, the lower one follows. *)
Definition example_version (major : Z) : ASSEMBLYMETADATA :=
  {| usMajorVersion := major; usMinorVersion := 0; usBuildNumber := 0; usRevisionNumber := 0 |}.

Lemma redirections_consistent_witness :
  let st := {| redirect_map := {[ [65] := {| avr_version := example_version 2; ulRedirectionCount := 0 |} ]}; calls := [] |} in
  let refs := [{| assembly_ref := 1; ref_props := Some ([65], example_version 3) |};
               {| assembly_ref := 2; ref_props := Some ([65], example_version 1) |}] in
  ∃ red', redirect_map (RedirectAssemblyReferences (λ _ _, true) refs st) !! [65] = Some red' ∧
    evolves 2 {| avr_version := example_version 2; ulRedirectionCount := 0 |} red'.
Proof.
  intros st refs. destruct (redirections_consistent (λ _ _, true) refs st) as [H _].
  - intros name red Hm. unfold st in Hm. cbn [redirect_map] in Hm. apply lookup_singleton_Some in Hm. destruct Hm as [_ Hr].
    rewrite <-Hr. cbn. split; [lia|]. split; [lia|]. apply Forall_nil_2.
  - destruct (H [65] {| avr_version := example_version 2; ulRedirectionCount := 0 |}) as (red' & H1 & H2 & _).
    + reflexivity.
    + exists red'. split; [exact H1|exact H2].
Defined.
