(* ===== verification/SamplesBuffer.v ===== *)
(** * The samples buffer (ThreadSamplesBuffer of continuous_profiler.h/.cpp)

    The binary format in which thread stacks are handed to the managed exporter.  The object has a
    bound of 200 KiB: every write first checks that it fits, and the first that does not sets a
    sticky flag.  The buffer is [None] when [buffer_] is null.

    The main results: the buffer never exceeds its bound and always is a prefix of what was to be
    written, all of it exactly when the flag is not set; and a reader of the format recovers the
    threads, their contexts and the names of their frames. *)

From S2P Require Import Prelude.

(** ** Data *)

Record FunctionIdentifier := {
  function_token : Z;
  module_id : Z;
  is_valid : bool;
  native_ip : Z;
}.

(** [operator==] compares all members, so it is equality. *)
#[export] Instance FunctionIdentifier_eq_dec : EqDecision FunctionIdentifier.
Proof. solve_decision. Defined.
#[export] Instance FunctionIdentifier_countable : Countable FunctionIdentifier.
Proof.
  refine (inj_countable' (λ f, (function_token f, module_id f, is_valid f, native_ip f))
    (λ '(a, b, c, d), {| function_token := a; module_id := b; is_valid := c; native_ip := d |}) _).
  by intros [].
Defined.

Record trace_context := { trace_id_high_ : Z; trace_id_low_ : Z }.
#[export] Instance trace_context_eq_dec : EqDecision trace_context.
Proof. solve_decision. Defined.
#[export] Instance trace_context_countable : Countable trace_context.
Proof.
  refine (inj_countable' (λ c, (trace_id_high_ c, trace_id_low_ c)) (λ '(a, b), {| trace_id_high_ := a; trace_id_low_ := b |}) _).
  by intros [].
Defined.

Record thread_span_context := { trace_context_ : trace_context; span_id_ : Z }.
#[export] Instance thread_span_context_eq_dec : EqDecision thread_span_context.
Proof. solve_decision. Defined.

Definition trace_context_IsDefault (c : trace_context) : bool :=
  bool_decide (trace_id_high_ c = 0) && bool_decide (trace_id_low_ c = 0).
Definition thread_span_context_IsDefault (c : thread_span_context) : bool :=
  trace_context_IsDefault (trace_context_ c) && bool_decide (span_id_ c = 0).

Record SamplingStatistics := {
  micros_suspended : Z;
  num_threads : Z;
  total_frames : Z;
  name_cache_misses : Z;
}.

Record ThreadSamplesBuffer := {
  codes_ : gmap FunctionIdentifier Z;
  buffer_ : option (list Z);
  overflowed_ : bool;
}.

Definition kMaxStringLength : nat := 512.
Definition kMaxCodesPerBuffer : nat := 10 * 1000.
Definition kSamplesBufferMaximumSize : nat := 200 * 1024.
Definition kThreadSamplesStartBatch : Z := 0x01.
Definition kThreadSamplesStartSample : Z := 0x02.
Definition kThreadSamplesEndBatch : Z := 0x06.
Definition kThreadSamplesFinalStats : Z := 0x07.
Definition kAllocationSample : Z := 0x08.
Definition kSelectedThreadSample : Z := 0x09.
Definition kSelectedThreadsStartBatch : Z := 0x0A.
Definition kSelectedThreadsEndBatch : Z := 0x0B.
Definition kCurrentThreadSamplesBufferVersion : Z := 1.

Lemma samples_buffer_size : Z.of_nat kSamplesBufferMaximumSize = 204800.
Proof. unfold kSamplesBufferMaximumSize. lia. Qed.

#[global] Opaque kMaxCodesPerBuffer kSamplesBufferMaximumSize.

(** ** Writing: actions on the object *)

Abbreviation W := (ThreadSamplesBuffer → ThreadSamplesBuffer).
Abbreviation B := ThreadSamplesBuffer.

Definition ThreadSamplesBuffer_init (buf : option (list Z)) : B :=
  {| codes_ := ∅; buffer_ := buf; overflowed_ := false |}.

Definition IsOverflowed (b : B) : bool := overflowed_ b.

(** The result, and the object with its flag. *)
Definition CanWrite (byteCount : nat) (b : B) : bool * B :=
  let refuse := (false, {| codes_ := codes_ b; buffer_ := buffer_ b; overflowed_ := true |}) in
  if overflowed_ b then refuse
  else match buffer_ b with
  | None => refuse
  | Some bytes =>
      if decide (kSamplesBufferMaximumSize < length bytes ∨ kSamplesBufferMaximumSize - length bytes < byteCount)%nat
      then refuse else (true, b)
  end.

Definition push_bytes (bs : list Z) : W := λ b,
  {| codes_ := codes_ b; buffer_ := (λ bytes, bytes ++ bs) <$> buffer_ b; overflowed_ := overflowed_ b |}.

(** [if (!CanWrite(n)) return;] before the action. *)
Definition if_can_write (n : nat) (w : W) : W := λ b,
  match CanWrite n b with (true, b) => w b | (false, b) => b end.

(** CHECK_SAMPLES_BUFFER_LENGTH *)
Definition CHECK_SAMPLES_BUFFER_LENGTH (w : W) : W := if_can_write 1 w.

(** One action after the other. *)
Definition andthen (w1 w2 : W) : W := λ b, w2 (w1 b).
Declare Scope write_scope.
Delimit Scope write_scope with W.
Infix ">>" := andthen (at level 60, right associativity) : write_scope.
Open Scope write_scope.

Definition byte_of (val shift : Z) : Z := Z.land (Z.shiftr val shift) 0xFF.

Definition WriteByte (v : Z) : W := if_can_write 1 (push_bytes [v]).
Definition WriteShort (val : Z) : W := if_can_write 2 (push_bytes [byte_of val 8; byte_of val 0]).
Definition WriteInt (val : Z) : W :=
  if_can_write 4 (push_bytes [byte_of val 24; byte_of val 16; byte_of val 8; byte_of val 0]).
Definition WriteUInt64 (val : Z) : W :=
  if_can_write 8 (push_bytes [byte_of val 56; byte_of val 48; byte_of val 40; byte_of val 32;
                              byte_of val 24; byte_of val 16; byte_of val 8; byte_of val 0]).

(** The bytes of UTF-16 code units in memory, little-endian. *)
Definition unit_bytes (s : list Z) : list Z := concat (le_bytes 2 <$> s).

(** The string is [charLen] code units at [s]. *)
Definition WriteString (s : list Z) : W :=
  let used_len := Nat.min (length s) kMaxStringLength in
  if_can_write (2 + used_len * 2)
    (WriteShort (sgn 16 (Z.of_nat used_len)) >> push_bytes (take (used_len * 2) (unit_bytes s))).

(** [now] is the clock in milliseconds. *)
Definition WriteCurrentTimeMillis (now : Z) : W := WriteUInt64 (u64 now).

Definition WriteSpanContext (c : thread_span_context) : W :=
  WriteUInt64 (trace_id_high_ (trace_context_ c)) >> WriteUInt64 (trace_id_low_ (trace_context_ c)) >>
  WriteUInt64 (span_id_ c).

Definition WriteCodedFrameString (fid : FunctionIdentifier) (str : list Z) : W := λ b,
  match codes_ b !! fid with
  | Some code => WriteShort (sgn 16 code) b
  | None =>
      let code := Z.of_nat (size (codes_ b)) + 1 in
      let b := if decide (size (codes_ b) + 1 < kMaxCodesPerBuffer)%nat
               then {| codes_ := <[fid := code]> (codes_ b); buffer_ := buffer_ b; overflowed_ := overflowed_ b |}
               else b in
      (WriteShort (sgn 16 (- code)) >> WriteString str) b
  end.

Definition StartBatch (now : Z) : W := CHECK_SAMPLES_BUFFER_LENGTH (
  WriteByte kThreadSamplesStartBatch >> WriteInt kCurrentThreadSamplesBufferVersion >> WriteCurrentTimeMillis now).
Definition StartSelectedThreadsBatch : W := CHECK_SAMPLES_BUFFER_LENGTH (WriteByte kSelectedThreadsStartBatch).
Definition EndSelectedThreadsBatch : W := CHECK_SAMPLES_BUFFER_LENGTH (WriteByte kSelectedThreadsEndBatch).
Definition StartSample (thread_name_ : list Z) (c : thread_span_context) : W := CHECK_SAMPLES_BUFFER_LENGTH (
  WriteByte kThreadSamplesStartSample >> WriteString thread_name_ >> WriteSpanContext c).
Definition StartSampleForSelectedThread (now : Z) (thread_name_ : list Z) (c : thread_span_context) : W :=
  CHECK_SAMPLES_BUFFER_LENGTH (
    WriteByte kSelectedThreadSample >> WriteCurrentTimeMillis now >> WriteString thread_name_ >> WriteSpanContext c).
Definition MarkSelectedForFrequentSampling (value : bool) : W :=
  CHECK_SAMPLES_BUFFER_LENGTH (WriteByte (if value then 1 else 0)).
Definition AllocationSample (now allocSize : Z) (allocType : list Z) (thread_name_ : list Z) (c : thread_span_context) : W :=
  CHECK_SAMPLES_BUFFER_LENGTH (
    WriteByte kAllocationSample >> WriteCurrentTimeMillis now >> WriteUInt64 allocSize >> WriteString allocType >>
    WriteString thread_name_ >> WriteSpanContext c).
Definition RecordFrame (fid : FunctionIdentifier) (frame : list Z) : W :=
  CHECK_SAMPLES_BUFFER_LENGTH (WriteCodedFrameString fid frame).
Definition EndSample : W := CHECK_SAMPLES_BUFFER_LENGTH (WriteShort 0).
Definition EndBatch : W := CHECK_SAMPLES_BUFFER_LENGTH (WriteByte kThreadSamplesEndBatch).
Definition WriteFinalStats (stats : SamplingStatistics) : W := CHECK_SAMPLES_BUFFER_LENGTH (
  WriteByte kThreadSamplesFinalStats >> WriteInt (micros_suspended stats) >> WriteInt (num_threads stats) >>
  WriteInt (total_frames stats) >> WriteInt (name_cache_misses stats)).

(** ** Everything written is a sequence of checked blocks *)

Definition put (bs : list Z) : W := if_can_write (length bs) (push_bytes bs).

Lemma byte_of_div v k : 0 ≤ k → byte_of v k = v / 2 ^ k mod 256.
Proof. intros. unfold byte_of. rewrite Z.shiftr_div_pow2 by lia. apply (Z.land_ones _ 8). lia. Qed.

Lemma WriteShort_put v : WriteShort v = put (be_bytes 2 v).
Proof. unfold WriteShort, put, be_bytes. cbn. rewrite !byte_of_div by lia. by rewrite Z.div_1_r. Qed.

Lemma WriteInt_put v : WriteInt v = put (be_bytes 4 v).
Proof. unfold WriteInt, put, be_bytes. cbn. rewrite !byte_of_div by lia. by rewrite !Z.div_div, Z.div_1_r by lia. Qed.

Lemma WriteUInt64_put v : WriteUInt64 v = put (be_bytes 8 v).
Proof. unfold WriteUInt64, put, be_bytes. cbn. rewrite !byte_of_div by lia. by rewrite !Z.div_div, Z.div_1_r by lia. Qed.

Lemma CanWrite_true n b b' :
  CanWrite n b = (true, b') → b' = b ∧ overflowed_ b = false ∧
    ∃ bytes, buffer_ b = Some bytes ∧ (length bytes + n ≤ kSamplesBufferMaximumSize)%nat.
Proof.
  unfold CanWrite. destruct (overflowed_ b); [done|]. destruct (buffer_ b) as [bytes|]; [|done]. case_decide; [done|].
  intros [= <-]. split_and!; [done|done|]. exists bytes. split; [done|lia].
Qed.

Lemma CanWrite_fits n b bytes :
  overflowed_ b = false → buffer_ b = Some bytes → (length bytes + n ≤ kSamplesBufferMaximumSize)%nat →
  CanWrite n b = (true, b).
Proof. intros Ho Hb Hl. unfold CanWrite. rewrite Ho, Hb. by rewrite decide_False by lia. Qed.

Lemma CanWrite_false n b b' :
  CanWrite n b = (false, b') →
  b' = {| codes_ := codes_ b; buffer_ := buffer_ b; overflowed_ := true |} ∧
  (overflowed_ b = true ∨ buffer_ b = None ∨ ∃ bytes, buffer_ b = Some bytes ∧ (kSamplesBufferMaximumSize < length bytes + n)%nat).
Proof.
  unfold CanWrite. destruct (overflowed_ b); [intros [= <-]; auto|].
  destruct (buffer_ b) as [bytes|]; [|intros [= <-]; auto]. case_decide as Hc; [|done]. intros [= <-].
  split; [done|]. right. right. exists bytes. split; [done|lia].
Qed.

Lemma put_fits bs b bytes :
  overflowed_ b = false → buffer_ b = Some bytes → (length bytes + length bs ≤ kSamplesBufferMaximumSize)%nat →
  put bs b = {| codes_ := codes_ b; buffer_ := Some (bytes ++ bs); overflowed_ := false |}.
Proof.
  intros Ho Hb Hl. unfold put, if_can_write. erewrite CanWrite_fits by done. unfold push_bytes. by rewrite Ho, Hb.
Qed.

(** The bytes of a string in the format. *)
Definition string_bytes (s : list Z) : list Z :=
  be_bytes 2 (Z.of_nat (Nat.min (length s) kMaxStringLength)) ++ unit_bytes (take kMaxStringLength s).

Lemma length_unit_bytes s : length (unit_bytes s) = (length s * 2)%nat.
Proof. induction s as [|c s IH]; [done|]. unfold unit_bytes in *. rewrite fmap_cons. cbn [concat]. rewrite length_app, length_le_bytes, IH. simpl. lia. Qed.

Lemma unit_bytes_app s t : unit_bytes (s ++ t) = unit_bytes s ++ unit_bytes t.
Proof. unfold unit_bytes. by rewrite fmap_app, concat_app. Qed.

Lemma length_string_bytes s : length (string_bytes s) = (2 + Nat.min (length s) kMaxStringLength * 2)%nat.
Proof. unfold string_bytes. rewrite length_app, length_be_bytes, length_unit_bytes, length_take. lia. Qed.

Lemma WriteString_put s b : WriteString s b = put (string_bytes s) b.
Proof.
  unfold WriteString, put, if_can_write. rewrite length_string_bytes.
  destruct (CanWrite _ b) as [[] b'] eqn:E; [|done]. apply CanWrite_true in E as (-> & Ho & bytes & Hb & Hl).
  set (n := Nat.min (length s) kMaxStringLength) in *. unfold andthen. rewrite WriteShort_put.
  rewrite (put_fits _ b bytes) by (rewrite ?length_be_bytes; done || lia).
  unfold push_bytes, string_bytes. cbn [codes_ buffer_ overflowed_]. rewrite Hb, Ho. cbn [fmap option_fmap option_map]. f_equal. f_equal.
  assert (Hn : (n ≤ 512)%nat) by (unfold n, kMaxStringLength; lia).
  rewrite sgn_small by lia. rewrite <-app_assoc. do 2 f_equal.
  rewrite <-(take_drop kMaxStringLength s) at 1. rewrite unit_bytes_app.
  rewrite take_app_le by (rewrite length_unit_bytes, length_take; lia). apply take_ge.
  rewrite length_unit_bytes, length_take. lia.
Qed.

(** ** Operations *)

Inductive operation :=
| OStartBatch (now : Z)
| OStartSelectedThreadsBatch
| OEndSelectedThreadsBatch
| OStartSample (thread_name : list Z) (c : thread_span_context)
| OStartSampleForSelectedThread (now : Z) (thread_name : list Z) (c : thread_span_context)
| OMarkSelectedForFrequentSampling (value : bool)
| OAllocationSample (now allocSize : Z) (allocType thread_name : list Z) (c : thread_span_context)
| ORecordFrame (fid : FunctionIdentifier) (frame : list Z)
| OEndSample
| OEndBatch
| OWriteFinalStats (stats : SamplingStatistics).

Definition perform (o : operation) : W :=
  match o with
  | OStartBatch now => StartBatch now
  | OStartSelectedThreadsBatch => StartSelectedThreadsBatch
  | OEndSelectedThreadsBatch => EndSelectedThreadsBatch
  | OStartSample name c => StartSample name c
  | OStartSampleForSelectedThread now name c => StartSampleForSelectedThread now name c
  | OMarkSelectedForFrequentSampling v => MarkSelectedForFrequentSampling v
  | OAllocationSample now size ty name c => AllocationSample now size ty name c
  | ORecordFrame fid frame => RecordFrame fid frame
  | OEndSample => EndSample
  | OEndBatch => EndBatch
  | OWriteFinalStats stats => WriteFinalStats stats
  end.

Definition perform_all (os : list operation) : W := λ b, foldl (λ b o, perform o b) b os.

(** ** The format *)

Definition context_blocks (c : thread_span_context) : list (list Z) :=
  [be_bytes 8 (trace_id_high_ (trace_context_ c)); be_bytes 8 (trace_id_low_ (trace_context_ c)); be_bytes 8 (span_id_ c)].

(** The code of a frame: one it has, or the next one. *)
Definition frame_code (codes : gmap FunctionIdentifier Z) (fid : FunctionIdentifier) : Z :=
  default (Z.of_nat (size codes) + 1) (codes !! fid).
Definition codes_after (codes : gmap FunctionIdentifier Z) (fid : FunctionIdentifier) : gmap FunctionIdentifier Z :=
  if decide (codes !! fid = None ∧ (size codes + 1 < kMaxCodesPerBuffer)%nat)
  then <[fid := Z.of_nat (size codes) + 1]> codes else codes.

(** The blocks of an operation, given the codes in use. *)
Definition blocks (codes : gmap FunctionIdentifier Z) (o : operation) : list (list Z) :=
  match o with
  | OStartBatch now => [[kThreadSamplesStartBatch]; be_bytes 4 kCurrentThreadSamplesBufferVersion; be_bytes 8 (u64 now)]
  | OStartSelectedThreadsBatch => [[kSelectedThreadsStartBatch]]
  | OEndSelectedThreadsBatch => [[kSelectedThreadsEndBatch]]
  | OStartSample name c => [kThreadSamplesStartSample] :: string_bytes name :: context_blocks c
  | OStartSampleForSelectedThread now name c =>
      [kSelectedThreadSample] :: be_bytes 8 (u64 now) :: string_bytes name :: context_blocks c
  | OMarkSelectedForFrequentSampling v => [[if v then 1 else 0]]
  | OAllocationSample now size ty name c =>
      [kAllocationSample] :: be_bytes 8 (u64 now) :: be_bytes 8 size :: string_bytes ty :: string_bytes name :: context_blocks c
  | ORecordFrame fid frame =>
      match codes !! fid with
      | Some code => [be_bytes 2 (sgn 16 code)]
      | None => [be_bytes 2 (sgn 16 (- frame_code codes fid)); string_bytes frame]
      end
  | OEndSample => [be_bytes 2 0]
  | OEndBatch => [[kThreadSamplesEndBatch]]
  | OWriteFinalStats s => [[kThreadSamplesFinalStats]; be_bytes 4 (micros_suspended s); be_bytes 4 (num_threads s);
                           be_bytes 4 (total_frames s); be_bytes 4 (name_cache_misses s)]
  end.

Definition next_codes (codes : gmap FunctionIdentifier Z) (o : operation) : gmap FunctionIdentifier Z :=
  match o with ORecordFrame fid _ => codes_after codes fid | _ => codes end.

(** The bytes of a sequence of operations, without a bound. *)
Fixpoint format (codes : gmap FunctionIdentifier Z) (os : list operation) : list Z :=
  match os with
  | [] => []
  | o :: os => concat (blocks codes o) ++ format (next_codes codes o) os
  end.

(** ** The object follows the format *)

(** [b] has been given [full] to write, with [codes] in use at its end. *)
Definition tracks (b : B) (full : list Z) (codes : gmap FunctionIdentifier Z) : Prop :=
  ∃ bytes, buffer_ b = Some bytes ∧ bytes `prefix_of` full ∧ (length bytes ≤ kSamplesBufferMaximumSize)%nat ∧
    (overflowed_ b = false → bytes = full ∧ codes_ b = codes) ∧
    (overflowed_ b = true → (kSamplesBufferMaximumSize < length full)%nat).

(** The action writes [bs]. *)
Definition writes (w : W) (bs : list Z) : Prop := ∀ b full codes, tracks b full codes → tracks (w b) (full ++ bs) codes.

(** A refused write, of what has at least [n] bytes. *)
Lemma tracks_refused n b b' full bs codes codes' :
  tracks b full codes → CanWrite n b = (false, b') → (n ≤ length bs)%nat → tracks b' (full ++ bs) codes'.
Proof.
  intros (bytes & Hb & Hp & Hl & Hok & Hov) E Hn. apply CanWrite_false in E as (-> & Hc). exists bytes. cbn.
  split_and!; [done|by apply prefix_app_r|done|done|]. intros _. rewrite length_app.
  destruct (overflowed_ b); [specialize (Hov eq_refl); lia|]. destruct (Hok eq_refl) as [-> _].
  destruct Hc as [?|[?|(bytes' & Hb' & Hc)]]; [done|congruence|]. simplify_eq. lia.
Qed.

Lemma writes_put bs : writes (put bs) bs.
Proof.
  intros b full codes Ht. unfold put, if_can_write. destruct (CanWrite _ b) as [[] b'] eqn:E; [|by eapply tracks_refused].
  apply CanWrite_true in E as (-> & Ho & bytes' & Hb' & Hl'). destruct Ht as (bytes & Hb & Hp & Hl & Hok & Hov).
  simplify_eq. destruct (Hok Ho) as [-> Hc]. exists (full ++ bs). unfold push_bytes. cbn. rewrite Hb, length_app.
  split_and!; [done|done|lia|done|congruence].
Qed.

Lemma writes_andthen w1 w2 bs1 bs2 : writes w1 bs1 → writes w2 bs2 → writes (w1 >> w2) (bs1 ++ bs2).
Proof. intros H1 H2 b full codes Ht. unfold andthen. rewrite app_assoc. by apply H2, H1. Qed.

Lemma writes_check w bs : writes w bs → (0 < length bs)%nat → writes (CHECK_SAMPLES_BUFFER_LENGTH w) bs.
Proof.
  intros Hw Hl b full codes Ht. unfold CHECK_SAMPLES_BUFFER_LENGTH, if_can_write. destruct (CanWrite 1 b) as [[] b'] eqn:E.
  - apply CanWrite_true in E as (-> & _). by apply Hw.
  - eapply tracks_refused; [done|done|lia].
Qed.

Lemma writes_byte v : writes (WriteByte v) [v].
Proof. apply (writes_put [v]). Qed.
Lemma writes_short v : writes (WriteShort v) (be_bytes 2 v).
Proof. rewrite WriteShort_put. apply writes_put. Qed.
Lemma writes_int v : writes (WriteInt v) (be_bytes 4 v).
Proof. rewrite WriteInt_put. apply writes_put. Qed.
Lemma writes_uint64 v : writes (WriteUInt64 v) (be_bytes 8 v).
Proof. rewrite WriteUInt64_put. apply writes_put. Qed.
Lemma writes_string s : writes (WriteString s) (string_bytes s).
Proof. intros b full codes Ht. rewrite WriteString_put. by apply writes_put. Qed.
Lemma writes_context c : writes (WriteSpanContext c) (concat (context_blocks c)).
Proof. unfold context_blocks. cbn [concat]. rewrite app_nil_r. repeat apply writes_andthen; apply writes_uint64. Qed.

Lemma writes_time now : writes (WriteCurrentTimeMillis now) (be_bytes 8 (u64 now)).
Proof. apply writes_uint64. Qed.

Create HintDb writes.
#[export] Hint Resolve writes_byte writes_short writes_int writes_uint64 writes_string writes_context writes_time : writes.

(** [solve_writes]: the blocks of an operation, one after the other. *)
Ltac solve_writes :=
  apply writes_check; [|rewrite ?length_app; simpl; lia]; rewrite ?app_nil_r;
  repeat (apply writes_andthen; [by auto with writes|]); by auto with writes.

Lemma tracks_frame fid frame b full codes :
  tracks b full codes →
  tracks (RecordFrame fid frame b) (full ++ concat (blocks codes (ORecordFrame fid frame))) (codes_after codes fid).
Proof.
  intros Ht. unfold RecordFrame, CHECK_SAMPLES_BUFFER_LENGTH, if_can_write.
  destruct (CanWrite 1 b) as [[] b'] eqn:E.
  2: { eapply tracks_refused; [done|done|]. cbn [blocks]. destruct (codes !! fid); cbn [concat]; rewrite !length_app, length_be_bytes; lia. }
  apply CanWrite_true in E as (-> & Ho & _). unfold WriteCodedFrameString.
  assert (codes_ b = codes) as Hc by (destruct Ht as (? & _ & _ & _ & Hok & _); by apply Hok).
  rewrite Hc. unfold blocks, codes_after, frame_code. destruct (codes !! fid) as [code|] eqn:Ef.
  - rewrite decide_False by (by intros []). cbn [concat]. rewrite app_nil_r. by apply writes_short.
  - cbn [concat default]. rewrite app_nil_r. apply writes_andthen; [apply writes_short|apply writes_string|].
    case_decide as Hd.
    + rewrite decide_True by done. destruct Ht as (bytes & Hb & Hp & Hl & Hok & Hov). exists bytes. cbn.
      split_and!; [done|done|done| |done]. intros H. by destruct (Hok H).
    + rewrite decide_False by tauto. done.
Qed.

Lemma tracks_perform o b full codes :
  tracks b full codes → tracks (perform o b) (full ++ concat (blocks codes o)) (next_codes codes o).
Proof.
  destruct o; cbn [perform next_codes]; try apply tracks_frame; intros Ht; revert b full codes Ht; cbn [blocks concat];
    refine (_ : writes _ _); solve_writes.
Qed.

Lemma tracks_perform_all os b full codes :
  tracks b full codes → ∃ codes', tracks (perform_all os b) (full ++ format codes os) codes'.
Proof.
  revert b full codes. induction os as [|o os IH]; intros b full codes Ht; cbn [format].
  - exists codes. by rewrite app_nil_r.
  - rewrite app_assoc. apply IH. by apply tracks_perform.
Qed.

Lemma tracks_init : tracks (ThreadSamplesBuffer_init (Some [])) [] ∅.
Proof. exists []. cbn. split_and!; try done. lia. Qed.

(** What the object is after a sequence of operations on an empty buffer. *)
Lemma performed os :
  let b := perform_all os (ThreadSamplesBuffer_init (Some [])) in
  ∃ bytes, buffer_ b = Some bytes ∧ bytes `prefix_of` format ∅ os ∧
    Z.of_nat (length bytes) ≤ 204800 ∧
    (IsOverflowed b = true ↔ 204800 < Z.of_nat (length (format ∅ os))) ∧
    (IsOverflowed b = false → bytes = format ∅ os).
Proof.
  intros b. destruct (tracks_perform_all os _ _ _ tracks_init) as (codes & bytes & Hb & Hp & Hl & Hok & Hov).
  fold b in Hb, Hok, Hov. pose proof samples_buffer_size as Hmax.
  exists bytes. unfold IsOverflowed. cbn [app] in *. split_and!; [done|done|lia| |].
  - split; [intros Ho; specialize (Hov Ho); lia|]. intros H.
    destruct (overflowed_ b) eqn:E; [reflexivity|]. destruct (Hok eq_refl) as [-> _]. lia.
  - intros Ho. by destruct (Hok Ho).
Qed.

(** ** A batch of all threads, as ResolveSymbolsAndPublishBufferForAllThreads writes it *)

(** What is known of one thread: its name, span context and frames, and whether its trace is
    selected for frequent sampling. *)
Record thread_sample := {
  ts_name : list Z;
  ts_context : thread_span_context;
  ts_selected : bool;
  ts_frames : list FunctionIdentifier;
}.

Section Batch.
(** The name of a frame (NamingHelper::Lookup). *)
Context (Lookup : FunctionIdentifier → list Z).

Definition ResolveFrames (threadStack : list FunctionIdentifier) : list operation :=
  (λ f, ORecordFrame f (Lookup f)) <$> threadStack.

Definition sample_operations (selectiveSamplingEnabled : bool) (t : thread_sample) : list operation :=
  if decide (ts_frames t = []) then []
  else [OStartSample (ts_name t) (ts_context t)] ++
       (if selectiveSamplingEnabled then [OMarkSelectedForFrequentSampling (ts_selected t)] else []) ++
       ResolveFrames (ts_frames t) ++ [OEndSample].

Definition all_threads_operations (now : Z) (selectiveSamplingEnabled : bool) (threads : list thread_sample)
    (stats : SamplingStatistics) : list operation :=
  [OStartBatch now] ++ concat (sample_operations selectiveSamplingEnabled <$> threads) ++ [OEndBatch; OWriteFinalStats stats].

(** A sample of a selected thread carries its own time. *)
Definition selected_sample_operations (timed : Z * thread_sample) : list operation :=
  let '(now, t) := timed in
  if decide (ts_frames t = []) then []
  else [OStartSampleForSelectedThread now (ts_name t) (ts_context t)] ++ ResolveFrames (ts_frames t) ++ [OEndSample].

Definition selected_threads_operations (threads : list (Z * thread_sample)) : list operation :=
  [OStartSelectedThreadsBatch] ++ concat (selected_sample_operations <$> threads) ++ [OEndSelectedThreadsBatch].
End Batch.

(** ** A reader of the format *)

Definition read_be (n : nat) (bs : list Z) : option (Z * list Z) :=
  if decide (n ≤ length bs)%nat then Some (be_val (take n bs), drop n bs) else None.
Definition read_short (bs : list Z) : option (Z * list Z) := '(v, bs) ← read_be 2 bs; Some (sgn 16 v, bs).
Definition read_int (bs : list Z) : option (Z * list Z) := '(v, bs) ← read_be 4 bs; Some (sgn 32 v, bs).

Fixpoint read_units (n : nat) (bs : list Z) : option (list Z * list Z) :=
  match n, bs with
  | O, _ => Some ([], bs)
  | S n, b0 :: b1 :: bs => '(s, bs) ← read_units n bs; Some (le_val [b0; b1] :: s, bs)
  | S _, _ => None
  end.

Definition read_string (bs : list Z) : option (list Z * list Z) :=
  '(n, bs) ← read_short bs; read_units (Z.to_nat n) bs.

Definition read_context (bs : list Z) : option (thread_span_context * list Z) :=
  '(hi, bs) ← read_be 8 bs;
  '(lo, bs) ← read_be 8 bs;
  '(id, bs) ← read_be 8 bs;
  Some ({| trace_context_ := {| trace_id_high_ := hi; trace_id_low_ := lo |}; span_id_ := id |}, bs).

(** The frames of a sample: names, with the codes introduced so far. *)
Fixpoint read_frames (fuel : nat) (codes : gmap Z (list Z)) (bs : list Z) : option (list (list Z) * gmap Z (list Z) * list Z) :=
  match fuel with
  | O => None
  | S fuel =>
      '(code, bs) ← read_short bs;
      if decide (code = 0) then Some ([], codes, bs)
      else if decide (0 < code) then
        name ← codes !! code;
        '(names, codes, bs) ← read_frames fuel codes bs;
        Some (name :: names, codes, bs)
      else
        '(name, bs) ← read_string bs;
        '(names, codes, bs) ← read_frames fuel (<[- code := name]> codes) bs;
        Some (name :: names, codes, bs)
  end.

(** What is read of a thread: its name, context, mark and the names of its frames. *)
Definition read_sample (marked : bool) (codes : gmap Z (list Z)) (bs : list Z) :
    option ((list Z * thread_span_context * option bool * list (list Z)) * gmap Z (list Z) * list Z) :=
  '(name, bs) ← read_string bs;
  '(c, bs) ← read_context bs;
  '(mark, bs) ← (if marked : bool then '(m, bs) ← read_be 1 bs; Some (Some (bool_decide (m = 1)), bs) else Some (None, bs));
  '(names, codes, bs) ← read_frames (S (length bs)) codes bs;
  Some ((name, c, mark, names), codes, bs).

Fixpoint read_samples (fuel : nat) (marked : bool) (codes : gmap Z (list Z)) (bs : list Z) :
    option (list (list Z * thread_span_context * option bool * list (list Z)) * list Z) :=
  match fuel with
  | O => None
  | S fuel =>
      '(op, bs) ← read_be 1 bs;
      if decide (op = kThreadSamplesEndBatch) then Some ([], bs)
      else if decide (op = kThreadSamplesStartSample) then
        '(sample, codes, bs) ← read_sample marked codes bs;
        '(samples, bs) ← read_samples fuel marked codes bs;
        Some (sample :: samples, bs)
      else None
  end.

(** The time of the batch, its samples and statistics; nothing may follow. *)
Definition read_batch (marked : bool) (bs : list Z) :=
  '(op, bs) ← read_be 1 bs;
  '(version, bs) ← read_int bs;
  '(time, bs) ← read_be 8 bs;
  '(samples, bs) ← read_samples (S (length bs)) marked ∅ bs;
  '(op', bs) ← read_be 1 bs;
  '(s1, bs) ← read_int bs;
  '(s2, bs) ← read_int bs;
  '(s3, bs) ← read_int bs;
  '(s4, bs) ← read_int bs;
  if decide (op = kThreadSamplesStartBatch ∧ version = kCurrentThreadSamplesBufferVersion ∧
             op' = kThreadSamplesFinalStats ∧ bs = [])
  then Some (time, samples, {| micros_suspended := s1; num_threads := s2; total_frames := s3; name_cache_misses := s4 |})
  else None.

Lemma read_be_bytes n v rest : 0 ≤ v < 2 ^ (8 * Z.of_nat n) → read_be n (be_bytes n v ++ rest) = Some (v, rest).
Proof.
  intros Hv. unfold read_be. rewrite decide_True by (rewrite length_app, length_be_bytes; lia).
  rewrite <-(length_be_bytes n v) at 1 3. rewrite take_app_length, drop_app_length, be_val_bytes. by rewrite wrap_small.
Qed.

Lemma be_bytes_wrap n v : be_bytes n (wrap (8 * Z.of_nat n) v) = be_bytes n v.
Proof. unfold be_bytes. by rewrite le_bytes_wrap. Qed.

Lemma read_byte_cons v rest : is_byte v → read_be 1 (v :: rest) = Some (v, rest).
Proof.
  intros Hv. unfold read_be. rewrite decide_True by (simpl; lia). unfold be_val. cbn [take drop].
  rewrite take_0, drop_0, reverse_singleton. cbn [le_val]. do 2 f_equal. lia.
Qed.

Lemma read_short_bytes v rest : - 2 ^ 15 ≤ v < 2 ^ 15 → read_short (be_bytes 2 v ++ rest) = Some (v, rest).
Proof.
  intros Hv. unfold read_short. rewrite <-(be_bytes_wrap 2), read_be_bytes by (apply (wrap_range 16); lia).
  cbn [mbind option_bind]. change (8 * Z.of_nat 2) with 16. by rewrite sgn_wrap, sgn_small by lia.
Qed.

Lemma read_int_sgn v rest : read_int (be_bytes 4 v ++ rest) = Some (sgn 32 v, rest).
Proof.
  unfold read_int. rewrite <-(be_bytes_wrap 4), read_be_bytes by (apply (wrap_range 32); lia).
  cbn [mbind option_bind]. change (8 * Z.of_nat 4) with 32. by rewrite sgn_wrap by lia.
Qed.

Lemma read_int_bytes v rest : - 2 ^ 31 ≤ v < 2 ^ 31 → read_int (be_bytes 4 v ++ rest) = Some (v, rest).
Proof. intros Hv. by rewrite read_int_sgn, sgn_small by lia. Qed.

Abbreviation units s := (Forall (λ c, 0 ≤ c < 65536) s).

Lemma read_units_bytes s rest : units s → read_units (length s) (unit_bytes s ++ rest) = Some (s, rest).
Proof.
  induction 1 as [|c s Hc Hs IH]; [done|]. unfold unit_bytes in *. rewrite fmap_cons. cbn [concat length].
  rewrite <-app_assoc. change (le_bytes 2 c) with [c mod 256; c / 256 mod 256]. cbn [app read_units]. rewrite IH. cbn [mbind option_bind le_val]. do 3 f_equal. divmod.
Qed.

Lemma read_string_bytes s rest : units s → read_string (string_bytes s ++ rest) = Some (take kMaxStringLength s, rest).
Proof.
  intros Hs. unfold read_string, string_bytes. rewrite <-app_assoc, read_short_bytes by (unfold kMaxStringLength; lia).
  cbn [mbind option_bind]. rewrite Nat2Z.id, Nat.min_comm, <-length_take. apply read_units_bytes. by apply Forall_take.
Qed.

Definition context_range (c : thread_span_context) : Prop :=
  0 ≤ trace_id_high_ (trace_context_ c) < 2 ^ 64 ∧ 0 ≤ trace_id_low_ (trace_context_ c) < 2 ^ 64 ∧ 0 ≤ span_id_ c < 2 ^ 64.

Lemma read_context_bytes c rest : context_range c → read_context (concat (context_blocks c) ++ rest) = Some (c, rest).
Proof.
  intros (H1 & H2 & H3). unfold read_context, context_blocks. cbn [concat]. rewrite <-!app_assoc. cbn [app].
  rewrite !read_be_bytes by done. cbn [mbind option_bind]. rewrite read_be_bytes by done. cbn [mbind option_bind].
  rewrite read_be_bytes by done. cbn [mbind option_bind]. by destruct c as [[] ?].
Qed.

(** ** Reading what was written *)

#[global] Transparent kMaxCodesPerBuffer.

Section Roundtrip.
Context (Lookup : FunctionIdentifier → list Z) (Hunits : ∀ f, units (Lookup f)).

(** The writer's codes are the numbers up to their count, and the reader knows their names. *)
Record codes_agree (codes : gmap FunctionIdentifier Z) (names : gmap Z (list Z)) : Prop := {
  codes_count : (size codes < kMaxCodesPerBuffer)%nat;
  codes_known : ∀ f c, codes !! f = Some c →
    1 ≤ c ≤ Z.of_nat (size codes) ∧ names !! c = Some (take kMaxStringLength (Lookup f));
}.

Lemma codes_agree_empty : codes_agree ∅ ∅.
Proof. split; [rewrite map_size_empty; unfold kMaxCodesPerBuffer; lia|by intros f c]. Qed.

Definition frame_bytes (codes : gmap FunctionIdentifier Z) (f : FunctionIdentifier) : list Z :=
  concat (blocks codes (ORecordFrame f (Lookup f))).

(** The reader's codes after a frame. *)
Definition names_after (codes : gmap FunctionIdentifier Z) (names : gmap Z (list Z)) (f : FunctionIdentifier) : gmap Z (list Z) :=
  match codes !! f with
  | Some _ => names
  | None => <[Z.of_nat (size codes) + 1 := take kMaxStringLength (Lookup f)]> names
  end.

Lemma codes_agree_after codes names f :
  codes_agree codes names → codes_agree (codes_after codes f) (names_after codes names f).
Proof.
  intros [Hsz Hk]. unfold codes_after, names_after. destruct (codes !! f) as [c|] eqn:Ef.
  { by rewrite decide_False by (by intros []). }
  destruct (decide (size codes + 1 < kMaxCodesPerBuffer)%nat) as [Hlt|Hge].
  - rewrite decide_True by done. assert (size (<[f := Z.of_nat (size codes) + 1]> codes) = S (size codes)) as Hs by by apply map_size_insert_None.
    split; [lia|].
    intros g c. destruct (decide (f = g)) as [->|Hne].
    + rewrite lookup_insert_eq. intros [= <-]. rewrite lookup_insert_eq. split; [lia|done].
    + rewrite lookup_insert_ne by done. intros Hg. destruct (Hk g c Hg) as [Hc1 Hc2].
      rewrite lookup_insert_ne by lia. split; [lia|done].
  - rewrite decide_False by tauto. split; [done|]. intros g c Hg. destruct (Hk g c Hg) as [Hc1 Hc2].
    rewrite lookup_insert_ne by lia. done.
Qed.

Fixpoint frames_bytes (codes : gmap FunctionIdentifier Z) (fs : list FunctionIdentifier) : list Z :=
  match fs with [] => [] | f :: fs => frame_bytes codes f ++ frames_bytes (codes_after codes f) fs end.

Definition codes_after_all (codes : gmap FunctionIdentifier Z) (fs : list FunctionIdentifier) : gmap FunctionIdentifier Z :=
  foldl codes_after codes fs.

Lemma read_frames_bytes fs codes names rest fuel :
  codes_agree codes names → (length fs < fuel)%nat →
  ∃ names', codes_agree (codes_after_all codes fs) names' ∧
    read_frames fuel names (frames_bytes codes fs ++ be_bytes 2 0 ++ rest) =
      Some ((λ f, take kMaxStringLength (Lookup f)) <$> fs, names', rest).
Proof.
  revert codes names fuel. induction fs as [|f fs IH]; intros codes names fuel Ha Hf; (destruct fuel as [|fuel]; [lia|]);
    cbn [read_frames frames_bytes].
  - exists names. split; [done|]. cbn [app]. by rewrite read_short_bytes by lia.
  - destruct Ha as [Hsz Hk] eqn:EHa. clear EHa. pose proof (codes_agree_after codes names f Ha) as Ha'.
    destruct (IH _ _ fuel Ha') as (names' & Hn' & Hr); [simpl in Hf; lia|]. exists names'. split; [done|].
    unfold frame_bytes, blocks, frame_code, kMaxCodesPerBuffer in *. unfold names_after in Hr.
    destruct (codes !! f) as [c|] eqn:Ef; cbn [concat].
    + destruct (Hk f c Ef) as [Hc1 Hc2]. rewrite <-!app_assoc. cbn [app]. rewrite sgn_small by lia.
      rewrite read_short_bytes by lia. cbn [mbind option_bind]. rewrite decide_False, decide_True by lia.
      rewrite Hc2. cbn [mbind option_bind]. rewrite Hr. done.
    + cbn [default]. rewrite <-!app_assoc. cbn [app]. rewrite sgn_small by lia.
      rewrite read_short_bytes by lia. cbn [mbind option_bind]. rewrite decide_False, decide_False by lia.
      rewrite read_string_bytes by done. cbn [mbind option_bind]. rewrite Z.opp_involutive. rewrite Hr. done.
Qed.

Lemma format_app codes os1 os2 :
  format codes (os1 ++ os2) = format codes os1 ++ format (foldl next_codes codes os1) os2.
Proof. revert codes. induction os1 as [|o os1 IH]; intros codes; [done|]. cbn [app format foldl]. by rewrite IH, app_assoc. Qed.

Lemma format_frames codes fs :
  format codes (ResolveFrames Lookup fs) = frames_bytes codes fs ∧
  foldl next_codes codes (ResolveFrames Lookup fs) = codes_after_all codes fs.
Proof.
  revert codes. induction fs as [|f fs IH]; intros codes; [done|]. destruct (IH (codes_after codes f)) as [H1 H2].
  unfold ResolveFrames in *. rewrite fmap_cons. cbn [format foldl next_codes frames_bytes]. by rewrite H1, H2.
Qed.

Lemma frames_bytes_length codes fs : (length fs ≤ length (frames_bytes codes fs))%nat.
Proof.
  revert codes. induction fs as [|f fs IH]; intros codes; [done|]. cbn [frames_bytes length]. rewrite length_app.
  specialize (IH (codes_after codes f)).
  assert (0 < length (frame_bytes codes f))%nat; [|lia]. unfold frame_bytes, blocks.
  destruct (codes !! f); cbn [concat]; rewrite !length_app, length_be_bytes; lia.
Qed.

(** What the reader reports of a thread. *)
Definition reported (marked : bool) (t : thread_sample) : list Z * thread_span_context * option bool * list (list Z) :=
  (take kMaxStringLength (ts_name t), ts_context t, if marked then Some (ts_selected t) else None,
   (λ f, take kMaxStringLength (Lookup f)) <$> ts_frames t).

Definition sample_ok (t : thread_sample) : Prop := units (ts_name t) ∧ context_range (ts_context t).

Lemma read_sample_bytes marked t codes names rest :
  codes_agree codes names → sample_ok t → ts_frames t ≠ [] →
  ∃ names' bytes, format codes (sample_operations Lookup marked t) = kThreadSamplesStartSample :: bytes ∧
    codes_agree (foldl next_codes codes (sample_operations Lookup marked t)) names' ∧
    read_sample marked names (bytes ++ rest) = Some (reported marked t, names', rest).
Proof.
  intros Ha [Hn Hc] Hne. unfold sample_operations. rewrite decide_False by done.
  set (mark := if marked then [OMarkSelectedForFrequentSampling (ts_selected t)] else []).
  set (mark_bytes := if marked then [if ts_selected t then 1 else 0] else []).
  assert (Hm : format codes mark = mark_bytes ∧ foldl next_codes codes mark = codes) by (by destruct marked).
  destruct Hm as [Hm1 Hm2]. destruct (format_frames codes (ts_frames t)) as [Hf1 Hf2].
  destruct (read_frames_bytes (ts_frames t) codes names rest
    (S (length (frames_bytes codes (ts_frames t) ++ be_bytes 2 0 ++ rest)))) as (names' & Ha' & Hr); [done| |].
  { rewrite length_app. pose proof (frames_bytes_length codes (ts_frames t)). lia. }
  exists names'. eexists. rewrite !format_app. cbn [format blocks next_codes foldl]. cbn [concat app].
  split; [done|]. cbn [foldl next_codes]. rewrite !foldl_app, Hm2, Hf2. cbn [foldl next_codes]. split; [done|].
  rewrite Hm1, Hf1, !app_nil_r. unfold read_sample. rewrite <-!app_assoc.
  rewrite read_string_bytes by done. cbn [mbind option_bind]. rewrite read_context_bytes by done. cbn [mbind option_bind].
  unfold mark_bytes, reported. destruct marked.
  - cbn [app]. rewrite read_byte_cons by (destruct (ts_selected t); lia). cbn [mbind option_bind].
    rewrite Hr. cbn [mbind option_bind]. by destruct (ts_selected t).
  - cbn [app mbind option_bind]. by rewrite Hr.
Qed.

Lemma read_samples_bytes marked ts codes names rest fuel :
  codes_agree codes names → Forall sample_ok ts → (length (filter (λ t, ts_frames t ≠ []) ts) < fuel)%nat →
  read_samples fuel marked names
    (format codes (concat (sample_operations Lookup marked <$> ts)) ++ kThreadSamplesEndBatch :: rest) =
  Some (reported marked <$> filter (λ t, ts_frames t ≠ []) ts, rest).
Proof.
  intros Ha Hts. revert codes names fuel Ha. induction Hts as [|t ts Ht Hts IH]; intros codes names fuel Ha Hf;
    (destruct fuel as [|fuel]; [lia|]).
  - cbn [concat fmap list_fmap format app read_samples]. rewrite read_byte_cons by done. done.
  - rewrite fmap_cons. cbn [concat]. rewrite format_app. destruct (decide (ts_frames t = [])) as [He|Hne].
    + rewrite filter_cons_False by tauto. unfold sample_operations at 1 2. rewrite decide_True by done.
      rewrite filter_cons_False in Hf by tauto.
      cbn [format foldl app]. by apply IH.
    + rewrite filter_cons_True in Hf |- * by done. rewrite fmap_cons. rewrite <-app_assoc.
      destruct (read_sample_bytes marked t codes names
        (format (foldl next_codes codes (sample_operations Lookup marked t)) (concat (sample_operations Lookup marked <$> ts)) ++
         kThreadSamplesEndBatch :: rest) Ha Ht Hne) as (names' & bytes & -> & Ha' & Hr).
      cbn [app read_samples]. rewrite read_byte_cons by done. cbn [mbind option_bind].
      rewrite decide_False, decide_True by done. rewrite Hr. cbn [mbind option_bind]. rewrite (IH _ names') by (done || (simpl in Hf; lia)). done.
Qed.

Definition stats_ok (s : SamplingStatistics) : Prop :=
  Forall (λ v, - 2 ^ 31 ≤ v < 2 ^ 31) [micros_suspended s; num_threads s; total_frames s; name_cache_misses s].

(** The statistics as a reader of four ints gets them. *)
Definition int_statistics (s : SamplingStatistics) : SamplingStatistics :=
  {| micros_suspended := sgn 32 (micros_suspended s); num_threads := sgn 32 (num_threads s);
     total_frames := sgn 32 (total_frames s); name_cache_misses := sgn 32 (name_cache_misses s) |}.

Lemma int_statistics_ok s : stats_ok s → int_statistics s = s.
Proof.
  unfold stats_ok, int_statistics. rewrite !Forall_cons. intros (H1 & H2 & H3 & H4 & _). rewrite !sgn_small by lia. by destruct s.
Qed.

Lemma samples_bytes_length marked ts codes :
  (length (filter (λ t, ts_frames t ≠ []) ts) ≤ length (format codes (concat (sample_operations Lookup marked <$> ts))))%nat.
Proof.
  revert codes. induction ts as [|t ts IH]; intros codes; [done|]. rewrite fmap_cons. cbn [concat]. rewrite format_app, length_app.
  specialize (IH (foldl next_codes codes (sample_operations Lookup marked t))).
  destruct (decide (ts_frames t = [])) as [He|Hne].
  - rewrite filter_cons_False by tauto. lia.
  - rewrite filter_cons_True by done. unfold sample_operations at 1. rewrite decide_False by done.
    cbn [app format blocks concat length]. lia.
Qed.

Lemma read_batch_format now marked threads stats :
  Forall sample_ok threads →
  read_batch marked (format ∅ (all_threads_operations Lookup now marked threads stats)) =
  Some (u64 now, reported marked <$> filter (λ t, ts_frames t ≠ []) threads, int_statistics stats).
Proof.
  intros Hts. unfold all_threads_operations. rewrite !format_app. cbn [foldl next_codes format blocks concat].
  rewrite !app_nil_r, <-!app_assoc. unfold read_batch. cbn [app]. rewrite read_byte_cons by done. cbn [mbind option_bind].
  unfold kCurrentThreadSamplesBufferVersion. rewrite read_int_bytes by lia. cbn [mbind option_bind].
  rewrite read_be_bytes by (apply (wrap_range 64); lia). cbn [mbind option_bind].
  rewrite (read_samples_bytes marked threads ∅ ∅); [|apply codes_agree_empty|done|].
  2: { rewrite length_app. pose proof (samples_bytes_length marked threads ∅). lia. }
  cbn [mbind option_bind]. rewrite read_byte_cons by done. cbn [mbind option_bind].
  do 3 (rewrite read_int_sgn; cbn [mbind option_bind]).
  rewrite <-(app_nil_r (be_bytes 4 (name_cache_misses stats))), read_int_sgn. cbn [mbind option_bind]. by rewrite decide_True.
Qed.
End Roundtrip.

(** ** Properties *)

(** C19: however many operations are performed, the buffer stays within its bound of 200 KiB and
    is a prefix of what the operations would write without a bound; the overflow flag is set
    exactly when that is more than the bound, and otherwise the buffer is all of it.  So a batch
    whose flag is not set is complete. *)
Theorem samples_buffer_exact os :
  let b := perform_all os (ThreadSamplesBuffer_init (Some [])) in
  ∃ bytes, buffer_ b = Some bytes ∧ bytes `prefix_of` format ∅ os ∧
    Z.of_nat (length bytes) ≤ 204800 ∧
    (IsOverflowed b = true ↔ 204800 < Z.of_nat (length (format ∅ os))) ∧
    (IsOverflowed b = false → bytes = format ∅ os).
Proof. apply performed. Qed.

Definition example_frame (token : Z) : FunctionIdentifier :=
  {| function_token := token; module_id := 7; is_valid := true; native_ip := 0 |}.
Definition example_sample : thread_sample :=
  {| ts_name := [77; 97]; ts_context := {| trace_context_ := {| trace_id_high_ := 1; trace_id_low_ := 2 |}; span_id_ := 3 |};
     ts_selected := true; ts_frames := [example_frame 1; example_frame 2; example_frame 1] |}.
Definition example_stats : SamplingStatistics :=
  {| micros_suspended := 5; num_threads := 1; total_frames := 3; name_cache_misses := -1 |}.
