(* ===== verification/SampleQueues.v ===== *)
(** * The buffers between the samplers and the managed reader (continuous_profiler.cpp)

    Three producers hand their bytes to one reader: two slots for batches of all threads, one
    growing buffer for selected threads, one for allocation samples.  Every operation holds the
    lock of its buffer, so that any concurrent execution is a sequence of operations.  A null
    pointer is [None].

    The main results: the two slots are a queue of capacity two, so that the reader gets batches
    whole, in order and at most once; the growing buffers stay within their bounds and deliver
    what was accepted since the last read. *)

From S2P Require Import Prelude SamplesBuffer.

(** ** Batches of all threads *)

Record ThreadSampleBatch := { buffer : option (list Z); samplingInterval : Z }.
Definition no_batch : ThreadSampleBatch := {| buffer := None; samplingInterval := 0 |}.

Record CpuBuffers := { cpu_buffer_a : ThreadSampleBatch; cpu_buffer_b : ThreadSampleBatch }.
Definition cpu_buffers_init : CpuBuffers := {| cpu_buffer_a := no_batch; cpu_buffer_b := no_batch |}.

Definition ThreadSamplingShouldProduceThreadSample (s : CpuBuffers) : bool :=
  bool_decide (buffer (cpu_buffer_a s) = None) || bool_decide (buffer (cpu_buffer_b s) = None).

Definition ThreadSamplingRecordProducedThreadSample (buf : option (list Z)) (interval : Z) (s : CpuBuffers) : CpuBuffers :=
  if decide (buffer (cpu_buffer_a s) = None) then
    {| cpu_buffer_a := {| buffer := buf; samplingInterval := interval |}; cpu_buffer_b := cpu_buffer_b s |}
  else if decide (buffer (cpu_buffer_b s) = None) then
    {| cpu_buffer_a := cpu_buffer_a s; cpu_buffer_b := {| buffer := buf; samplingInterval := interval |} |}
  else s.

(** What a read returns: the result, the bytes copied to [buf] and the value of
    [*samplingInterval] ([None] when the pointer is null). *)
Record ReadResult := { read_result : Z; read_bytes : list Z; read_interval : option Z }.

(** [buf] and [samplingInterval] say whether the pointers are valid. *)
Definition ThreadSamplingConsumeOneThreadSample (len : Z) (buf interval : bool) (s : CpuBuffers) : ReadResult * CpuBuffers :=
  let interval0 := if interval then Some 0 else None in
  if decide (len ≤ 0 ∨ buf = false ∨ interval = false) then
    ({| read_result := 0; read_bytes := []; read_interval := interval0 |}, s)
  else
    let '(batch, s) :=
      if decide (buffer (cpu_buffer_a s) ≠ None)
      then (cpu_buffer_a s, {| cpu_buffer_a := cpu_buffer_b s; cpu_buffer_b := no_batch |})
      else (no_batch, s) in
    match buffer batch with
    | None => ({| read_result := 0; read_bytes := []; read_interval := interval0 |}, s)
    | Some bytes =>
        if decide (len < Z.of_nat (length bytes)) then
          ({| read_result := 0; read_bytes := []; read_interval := interval0 |}, s)
        else ({| read_result := sgn 32 (Z.of_nat (length bytes)); read_bytes := bytes;
                 read_interval := Some (samplingInterval batch) |}, s)
    end.

Definition ContinuousProfilerReadThreadSamples (len : Z) (buf : bool) (s : CpuBuffers) : ReadResult * CpuBuffers :=
  ThreadSamplingConsumeOneThreadSample len buf true s.

Definition ContinuousProfilerReadThreadSamplesV2 (len : Z) (buf interval : bool) (s : CpuBuffers) : ReadResult * CpuBuffers :=
  ThreadSamplingConsumeOneThreadSample len buf interval s.

(** ** Samples of selected threads *)

Record SelectiveBuffer := { selective_sampling_buffer : list Z; selective_sampling_buffer_saturated : bool }.
Definition selective_init : SelectiveBuffer :=
  {| selective_sampling_buffer := []; selective_sampling_buffer_saturated := false |}.

Definition SelectiveSamplingShouldProduceThreadSample (s : SelectiveBuffer) : bool :=
  negb (selective_sampling_buffer_saturated s).

(** [appendBuf]: the bytes at the pointer; the function copies [appendLen] of them. *)
Definition SelectiveSamplingRecordProducedThreadSample (appendLen : Z) (appendBuf : option (list Z)) (s : SelectiveBuffer) :
    outcome unit SelectiveBuffer :=
  match appendBuf with
  | None => mret s
  | Some bytes =>
      if decide (appendLen ≤ 0) then mret s
      else if selective_sampling_buffer_saturated s then mret s
      else
        let appendSize := Z.to_nat appendLen in
        let currentSize := length (selective_sampling_buffer s) in
        if decide (kSamplesBufferMaximumSize < currentSize ∨ kSamplesBufferMaximumSize - currentSize < appendSize)%nat then
          mret {| selective_sampling_buffer := selective_sampling_buffer s; selective_sampling_buffer_saturated := true |}
        else if decide (length bytes < appendSize)%nat then Stuck
        else
          let b := selective_sampling_buffer s ++ take appendSize bytes in
          mret {| selective_sampling_buffer := b;
                  selective_sampling_buffer_saturated := bool_decide (length b = kSamplesBufferMaximumSize) |}
  end.

(** The bytes copied and the result. *)
Definition SelectiveSamplingConsumeAndClearBuffer (len : Z) (buf : bool) (s : SelectiveBuffer) : (Z * list Z) * SelectiveBuffer :=
  if decide (len ≤ 0 ∨ buf = false) then ((0, []), s)
  else
    let to_use_len := Nat.min (length (selective_sampling_buffer s)) (Z.to_nat len) in
    ((sgn 32 (Z.of_nat to_use_len), take to_use_len (selective_sampling_buffer s)), selective_init).

Definition SelectiveSamplerReadThreadSamples := SelectiveSamplingConsumeAndClearBuffer.

(** ** Allocation samples *)

Definition AllocationSamplingAppendToBuffer (appendLen : Z) (appendBuf : option (list Z)) (allocation_buffer : list Z) :
    outcome unit (list Z) :=
  match appendBuf with
  | None => mret allocation_buffer
  | Some bytes =>
      if decide (appendLen ≤ 0) then mret allocation_buffer
      else if decide (kSamplesBufferMaximumSize ≤ length allocation_buffer + Z.to_nat appendLen)%nat then mret allocation_buffer
      else if decide (length bytes < Z.to_nat appendLen)%nat then Stuck
      else mret (allocation_buffer ++ take (Z.to_nat appendLen) bytes)
  end.

Definition AllocationSamplingConsumeAndReplaceBuffer (len : Z) (buf : bool) (allocation_buffer : list Z) : (Z * list Z) * list Z :=
  if decide (len ≤ 0 ∨ buf = false) then ((0, []), allocation_buffer)
  else
    let to_use_len := Nat.min (length allocation_buffer) (Z.to_nat len) in
    ((sgn 32 (Z.of_nat to_use_len), take to_use_len allocation_buffer), []).

Definition ContinuousProfilerReadAllocationSamples := AllocationSamplingConsumeAndReplaceBuffer.

(** ** The slots as a queue *)

Definition queue_of (s : CpuBuffers) : list (list Z * Z) :=
  match buffer (cpu_buffer_a s), buffer (cpu_buffer_b s) with
  | Some x, Some y => [(x, samplingInterval (cpu_buffer_a s)); (y, samplingInterval (cpu_buffer_b s))]
  | Some x, None => [(x, samplingInterval (cpu_buffer_a s))]
  | None, _ => []
  end.

(** The second slot is used only behind the first. *)
Definition slots_ok (s : CpuBuffers) : Prop := buffer (cpu_buffer_a s) = None → buffer (cpu_buffer_b s) = None.

(** The specification: a queue of capacity two that drops what does not fit. *)
Definition enqueue (bytes : list Z) (interval : Z) (q : list (list Z * Z)) : list (list Z * Z) :=
  if decide (length q < 2)%nat then q ++ [(bytes, interval)] else q.

Definition dequeue (len : Z) (q : list (list Z * Z)) : ReadResult * list (list Z * Z) :=
  match q with
  | [] => ({| read_result := 0; read_bytes := []; read_interval := Some 0 |}, [])
  | (bytes, interval) :: q =>
      if decide (Z.of_nat (length bytes) ≤ len)
      then ({| read_result := Z.of_nat (length bytes); read_bytes := bytes; read_interval := Some interval |}, q)
      else ({| read_result := 0; read_bytes := []; read_interval := Some 0 |}, q)
  end.

Lemma record_enqueues bytes interval s :
  slots_ok s →
  slots_ok (ThreadSamplingRecordProducedThreadSample (Some bytes) interval s) ∧
  queue_of (ThreadSamplingRecordProducedThreadSample (Some bytes) interval s) = enqueue bytes interval (queue_of s).
Proof.
  unfold slots_ok, ThreadSamplingRecordProducedThreadSample, queue_of, enqueue. destruct s as [[[a|] ia] [[b|] ib]]; cbn; intros H;
    try done. by specialize (H eq_refl).
Qed.

Lemma consume_dequeues len s :
  slots_ok s → 0 < len < 2 ^ 31 →
  let '(r, s') := ThreadSamplingConsumeOneThreadSample len true true s in
  slots_ok s' ∧ (r, queue_of s') = dequeue len (queue_of s).
Proof.
  intros H Hlen. unfold ThreadSamplingConsumeOneThreadSample. rewrite decide_False by (intros [?|[?|?]]; [lia|done|done]).
  unfold slots_ok, queue_of, dequeue in *. destruct s as [[[a|] ia] [[b|] ib]]; cbn -[decide sgn] in *.
  - rewrite (decide_True (P := Some a ≠ None)) by done. cbn -[decide sgn]. destruct (decide (len < Z.of_nat (length a))).
    + rewrite decide_False by lia. done.
    + rewrite decide_True by lia. rewrite sgn_small by lia. done.
  - rewrite (decide_True (P := Some a ≠ None)) by done. cbn -[decide sgn]. destruct (decide (len < Z.of_nat (length a))).
    + rewrite decide_False by lia. done.
    + rewrite decide_True by lia. rewrite sgn_small by lia. done.
  - by specialize (H eq_refl).
  - done.
Qed.

(** ** Executions *)

(** What the sampler and the reader do: publish a batch, or read with a buffer of [len] bytes. *)
Inductive cpu_event := Publish (bytes : list Z) (interval : Z) | Read (len : Z).

Fixpoint run_cpu (es : list cpu_event) (s : CpuBuffers) : list ReadResult * CpuBuffers :=
  match es with
  | [] => ([], s)
  | Publish bytes interval :: es => run_cpu es (ThreadSamplingRecordProducedThreadSample (Some bytes) interval s)
  | Read len :: es =>
      let '(r, s) := ThreadSamplingConsumeOneThreadSample len true true s in
      let '(rs, s) := run_cpu es s in (r :: rs, s)
  end.

Fixpoint run_queue (es : list cpu_event) (q : list (list Z * Z)) : list ReadResult * list (list Z * Z) :=
  match es with
  | [] => ([], q)
  | Publish bytes interval :: es => run_queue es (enqueue bytes interval q)
  | Read len :: es =>
      let '(r, q) := dequeue len q in
      let '(rs, q) := run_queue es q in (r :: rs, q)
  end.

Definition published (es : list cpu_event) : list (list Z * Z) :=
  omap (λ e, match e with Publish bytes interval => Some (bytes, interval) | Read _ => None end) es.

(** The batches read, those that a read of 0 bytes reported left out. *)
Definition delivered (rs : list ReadResult) : list (list Z * Z) :=
  omap (λ r, if decide (read_bytes r = []) then None else Some (read_bytes r, default 0 (read_interval r))) rs.

Definition read_sizes_ok (es : list cpu_event) : Prop :=
  Forall (λ e, match e with Read len => 0 < len < 2 ^ 31 | Publish bytes _ => bytes ≠ [] end) es.

Lemma run_cpu_refines es s :
  slots_ok s → read_sizes_ok es →
  (run_cpu es s).1 = (run_queue es (queue_of s)).1 ∧ queue_of (run_cpu es s).2 = (run_queue es (queue_of s)).2 ∧
  slots_ok (run_cpu es s).2.
Proof.
  intros Hs Hes. revert s Hs. induction Hes as [|[bytes interval|len] es He _ IH]; intros s Hs; cbn [run_cpu run_queue]; [done|..].
  - destruct (record_enqueues bytes interval s Hs) as [H1 <-]. by apply IH.
  - pose proof (consume_dequeues len s Hs He) as H. destruct (ThreadSamplingConsumeOneThreadSample len true true s) as [r s1].
    destruct H as [H1 H2]. destruct (dequeue len (queue_of s)) as [r' q]. injection H2 as -> <-.
    destruct (IH s1 H1) as (H3 & H4 & H5). destruct (run_cpu es s1), (run_queue es (queue_of s1)); simpl in *. by rewrite H3.
Qed.

Lemma run_queue_sublist es q :
  read_sizes_ok es → Forall (λ b, b.1 ≠ []) q →
  delivered (run_queue es q).1 ++ (run_queue es q).2 `sublist_of` q ++ published es.
Proof.
  intros Hes. revert q. induction Hes as [|[bytes interval|len] es He _ IH]; intros q Hq; cbn [run_queue].
  - cbn. by rewrite app_nil_r.
  - unfold enqueue. change (published (Publish bytes interval :: es)) with ([(bytes, interval)] ++ published es). case_decide.
    + rewrite app_assoc. apply IH. apply Forall_app. split; [done|]. by apply Forall_singleton.
    + etrans; [by apply IH|]. apply sublist_app; [done|]. by apply sublist_inserts_l.
  - change (published (Read len :: es)) with (published es). destruct q as [|[bytes interval] q]; cbn [dequeue].
    + specialize (IH [] Hq). destruct (run_queue es []) as [rs q']. exact IH.
    + apply Forall_cons in Hq as [Hb Hq]. specialize (IH q Hq). case_decide; destruct (run_queue es q) as [rs q'].
      * unfold delivered in *. cbn -[decide]. rewrite decide_False by done. cbn. by apply sublist_skip.
      * unfold delivered in *. cbn -[decide]. rewrite decide_True by done. cbn. by apply sublist_cons.
Qed.

(** ** The growing buffers: an interface *)

(** What the two buffers promise the sampler and the reader: bytes are accepted whole or not at
    all, a read takes the buffer and empties it, the size is bounded. *)
Class SampleChannel (St : Type) := {
  contents : St → list Z;
  append : list Z → St → outcome unit St;
  take_all : Z → St → (Z * list Z) * St;
  channel_ok : St → Prop;
  append_spec s bytes :
    channel_ok s → ∃ s', append bytes s = Ret s' ∧ channel_ok s' ∧ (contents s' = contents s ++ bytes ∨ contents s' = contents s);
  take_all_spec s len :
    channel_ok s → 0 < len < 2 ^ 31 →
    ∃ s', take_all len s = ((Z.of_nat (length (take (Z.to_nat len) (contents s))), take (Z.to_nat len) (contents s)), s') ∧
          channel_ok s' ∧ contents s' = [];
  channel_bound s : channel_ok s → (length (contents s) ≤ kSamplesBufferMaximumSize)%nat;
}.

Section Channel.
Context {St : Type} `{SampleChannel St}.

Inductive channel_event := Append (bytes : list Z) | Take (len : Z).

(** The bytes of each read, and the final state. *)
Fixpoint run_channel (es : list channel_event) (s : St) : outcome unit (list (list Z) * St) :=
  match es with
  | [] => mret ([], s)
  | Append bytes :: es => s ← append bytes s; run_channel es s
  | Take len :: es =>
      let '((n, bytes), s) := take_all len s in
      '(rs, s) ← run_channel es s;
      mret (bytes :: rs, s)
  end.

Definition appended_batches (es : list channel_event) : list (list Z) :=
  omap (λ e, match e with Append bytes => Some bytes | Take _ => None end) es.

(** Every read has room for the whole buffer. *)
Definition large_reads (es : list channel_event) : Prop :=
  Forall (λ e, match e with Take len => 204800 ≤ len < 2 ^ 31 | Append _ => True end) es.

Lemma channel_delivers es s :
  channel_ok s → large_reads es →
  ∃ rs s' accepted, run_channel es s = Ret (rs, s') ∧ channel_ok s' ∧
    accepted `sublist_of` appended_batches es ∧ contents s ++ concat accepted = concat rs ++ contents s'.
Proof.
  intros Hs Hes. revert s Hs. induction Hes as [|[bytes|len] es He _ IH]; intros s Hs; cbn [run_channel].
  - exists [], s, []. cbn. rewrite app_nil_r. by split_and!.
  - destruct (append_spec s bytes Hs) as (s1 & -> & Hs1 & Hc). cbn [mbind outcome_bind].
    destruct (IH s1 Hs1) as (rs & s' & acc & Hr & Hs' & Hsub & Heq).
    change (appended_batches (Append bytes :: es)) with (bytes :: appended_batches es).
    destruct Hc as [Hc|Hc]; rewrite Hc in Heq.
    + exists rs, s', (bytes :: acc). split_and!; [done|done|by apply sublist_skip|]. cbn [concat]. by rewrite app_assoc.
    + exists rs, s', acc. split_and!; [done|done|by apply sublist_cons|done].
  - destruct (take_all_spec s len Hs) as (s1 & -> & Hs1 & Hc); [lia|].
    destruct (IH s1 Hs1) as (rs & s' & acc & Hr & Hs' & Hsub & Heq). rewrite Hr. cbn [mbind outcome_bind].
    rewrite take_ge. 2: { pose proof (channel_bound s Hs). pose proof samples_buffer_size. lia. }
    exists (contents s :: rs), s', acc. split_and!; [done|done|done|]. cbn [concat]. rewrite <-app_assoc, <-Heq, Hc. done.
Qed.
End Channel.

#[export, refine] Instance selective_channel : SampleChannel SelectiveBuffer := {|
  contents := selective_sampling_buffer;
  append bytes s := SelectiveSamplingRecordProducedThreadSample (Z.of_nat (length bytes)) (Some bytes) s;
  take_all len s := SelectiveSamplingConsumeAndClearBuffer len true s;
  channel_ok s := (length (selective_sampling_buffer s) ≤ kSamplesBufferMaximumSize)%nat ∧
    (length (selective_sampling_buffer s) = kSamplesBufferMaximumSize → selective_sampling_buffer_saturated s = true);
|}.
Proof.
  - intros s bytes [H1 H2]. unfold SelectiveSamplingRecordProducedThreadSample. rewrite Nat2Z.id, firstn_all.
    case_decide; [exists s; auto|]. destruct (selective_sampling_buffer_saturated s) eqn:Es; [exists s; rewrite Es; auto|].
    case_decide; [eexists; split; [done|]; cbn; auto|]. rewrite decide_False by lia.
    eexists. split; [done|]. cbn [selective_sampling_buffer selective_sampling_buffer_saturated]. rewrite length_app.
    split; [split; [lia|]|by left]. intros Hl. by rewrite bool_decide_eq_true_2.
  - intros s len [H1 H2] Hlen. unfold SelectiveSamplingConsumeAndClearBuffer. rewrite decide_False by (intros [?|?]; [lia|done]).
    exists selective_init. split; [|split; [|done]].
    + pose proof samples_buffer_size. rewrite sgn_small by lia.
      assert (E : take (length (selective_sampling_buffer s) `min` Z.to_nat len) (selective_sampling_buffer s) =
        take (Z.to_nat len) (selective_sampling_buffer s)).
      { destruct (Nat.min_spec (length (selective_sampling_buffer s)) (Z.to_nat len)) as [[? ->]|[? ->]]; [|done].
        rewrite firstn_all, take_ge by lia. done. }
      rewrite E. do 3 f_equal. rewrite length_take. lia.
    + cbn. pose proof samples_buffer_size. lia.
  - by intros s [].
Defined.

#[export, refine] Instance allocation_channel : SampleChannel (list Z) := {|
  contents s := s;
  append bytes s := AllocationSamplingAppendToBuffer (Z.of_nat (length bytes)) (Some bytes) s;
  take_all len s := AllocationSamplingConsumeAndReplaceBuffer len true s;
  channel_ok s := (length s < kSamplesBufferMaximumSize)%nat;
|}.
Proof.
  - intros s bytes Hs. unfold AllocationSamplingAppendToBuffer. rewrite Nat2Z.id, firstn_all.
    case_decide; [exists s; auto|]. case_decide; [exists s; auto|]. rewrite decide_False by lia.
    eexists. split; [done|]. rewrite length_app. split; [lia|by left].
  - intros s len Hs Hlen. unfold AllocationSamplingConsumeAndReplaceBuffer. rewrite decide_False by (intros [?|?]; [lia|done]).
    exists []. split; [|split; [|done]].
    + pose proof samples_buffer_size. rewrite sgn_small by lia.
      assert (E : take (length s `min` Z.to_nat len) s = take (Z.to_nat len) s).
      { destruct (Nat.min_spec (length s) (Z.to_nat len)) as [[? ->]|[? ->]]; [|done].
        rewrite firstn_all, take_ge by lia. done. }
      rewrite E. do 3 f_equal. rewrite length_take. lia.
    + pose proof samples_buffer_size. simpl. lia.
  - intros s Hs. lia.
Defined.

(** ** Properties *)

(** The two slots behave as a queue of capacity two in every execution: each read returns
    what a read of the queue returns; the batches delivered and those still waiting are published
    ones, in order and none twice; and a batch published when the producer was told to produce is
    not dropped. *)
Theorem cpu_buffers_fifo es :
  read_sizes_ok es →
  let '(rs, s) := run_cpu es cpu_buffers_init in
  rs = (run_queue es []).1 ∧ queue_of s = (run_queue es []).2 ∧
  delivered rs ++ queue_of s `sublist_of` published es ∧
  (ThreadSamplingShouldProduceThreadSample s = true → ∀ bytes interval,
     queue_of (ThreadSamplingRecordProducedThreadSample (Some bytes) interval s) = queue_of s ++ [(bytes, interval)]).
Proof.
  intros Hes. destruct (run_cpu_refines es cpu_buffers_init ltac:(done) Hes) as (H1 & H2 & Hs).
  pose proof (run_queue_sublist es [] Hes ltac:(constructor)) as Hsub. change (queue_of cpu_buffers_init) with (@nil (list Z * Z)) in *.
  destruct (run_cpu es cpu_buffers_init) as [rs s] eqn:Er. cbn [fst snd] in *. rewrite H1, H2. split_and!; [done|done|exact Hsub|].
  rewrite <-H2. unfold ThreadSamplingShouldProduceThreadSample, ThreadSamplingRecordProducedThreadSample, queue_of.
  destruct s as [[[a|] ia] [[b|] ib]]; cbn; try done.
  intros _ bytes interval. by specialize (Hs eq_refl).
Qed.

(** The buffers of selected threads and of allocation samples deliver to a reader with room
    for 200 KiB exactly the batches they accepted since the read before, in order and whole, and
    stay within their bound; a read makes the selected-thread sampler produce again. *)
Theorem growing_buffers_deliver es (s : SelectiveBuffer) (a : list Z) :
  channel_ok s → channel_ok a → large_reads es →
  (∃ rs s' accepted, run_channel es s = Ret (rs, s') ∧ Z.of_nat (length (selective_sampling_buffer s')) ≤ 204800 ∧
     accepted `sublist_of` appended_batches es ∧
     selective_sampling_buffer s ++ concat accepted = concat rs ++ selective_sampling_buffer s') ∧
  (∃ rs a' accepted, run_channel es a = Ret (rs, a') ∧ Z.of_nat (length a') < 204800 ∧
     accepted `sublist_of` appended_batches es ∧ a ++ concat accepted = concat rs ++ a') ∧
  (∀ len, 0 < len → SelectiveSamplingShouldProduceThreadSample (SelectiveSamplingConsumeAndClearBuffer len true s).2 = true).
Proof.
  intros Hs Ha Hes. pose proof samples_buffer_size. split_and!.
  - destruct (channel_delivers es s Hs Hes) as (rs & s' & acc & H1 & [H2 _] & H3 & H4). exists rs, s', acc. split_and!; [done|lia|done|done].
  - destruct (channel_delivers es a Ha Hes) as (rs & a' & acc & H1 & H2 & H3 & H4). exists rs, a', acc. split_and!; [done|cbn in H2; lia|done|done].
  - intros len Hlen. unfold SelectiveSamplingConsumeAndClearBuffer. by rewrite decide_False by (intros [?|?]; [lia|done]).
Qed.

Lemma cpu_buffers_fifo_witness :
  delivered (run_cpu [Publish [1; 2] 10; Publish [3] 20; Publish [4] 30; Read 100; Read 100] cpu_buffers_init).1 = [([1; 2], 10); ([3], 20)] ∧
  (run_cpu [Publish [1; 2] 10; Publish [3] 20; Publish [4] 30; Read 100; Read 100] cpu_buffers_init).1 =
  (run_queue [Publish [1; 2] 10; Publish [3] 20; Publish [4] 30; Read 100; Read 100] []).1.
Proof.
  split; [reflexivity|].
  refine (proj1 (cpu_buffers_fifo [Publish [1; 2] 10; Publish [3] 20; Publish [4] 30; Read 100; Read 100] _)).
  unfold read_sizes_ok. repeat (apply Forall_cons; split; [first [discriminate|lia]|]). apply Forall_nil_2.
Defined.

Lemma growing_buffers_deliver_witness :
  ∃ rs s' accepted, run_channel [Append [1; 2]; Take 204800; Append [3]] selective_init = Ret (rs, s') ∧
    Z.of_nat (length (selective_sampling_buffer s')) ≤ 204800 ∧
    accepted `sublist_of` appended_batches [Append [1; 2]; Take 204800; Append [3]] ∧
    selective_sampling_buffer selective_init ++ concat accepted = concat rs ++ selective_sampling_buffer s'.
Proof.
  refine (proj1 (growing_buffers_deliver [Append [1; 2]; Take 204800; Append [3]] selective_init [] _ _ _)).
  - pose proof samples_buffer_size. cbn. lia.
  - pose proof samples_buffer_size. cbn. lia.
  - unfold large_reads. repeat (apply Forall_cons; split; [first [exact I|lia]|]). apply Forall_nil_2.
Defined.
