(* ===== verification/ClrSignatures.v ===== *)
(** * The types that metadata holds

    The parser of signatures accepts some byte strings that are no types, such as PINNED alone.
    The grammar here is that of ECMA-335, without the element types the parser refuses. *)

From S2P Require Import Prelude CorSig Signature.

(** ** The grammar *)

Definition simple_types : list Z :=
  [ELEMENT_TYPE_BOOLEAN; ELEMENT_TYPE_CHAR; ELEMENT_TYPE_I1; ELEMENT_TYPE_U1; ELEMENT_TYPE_I2; ELEMENT_TYPE_U2;
   ELEMENT_TYPE_I4; ELEMENT_TYPE_U4; ELEMENT_TYPE_I8; ELEMENT_TYPE_U8; ELEMENT_TYPE_R4; ELEMENT_TYPE_R8;
   ELEMENT_TYPE_STRING; ELEMENT_TYPE_I; ELEMENT_TYPE_U; ELEMENT_TYPE_OBJECT].

Inductive clr_type : list Z → Prop :=
| clr_simple b : b ∈ simple_types → clr_type [b]
| clr_token b bs n : b = ELEMENT_TYPE_CLASS ∨ b = ELEMENT_TYPE_VALUETYPE → number_sig bs n → clr_type (b :: bs)
| clr_var b bs n : b = ELEMENT_TYPE_VAR ∨ b = ELEMENT_TYPE_MVAR → number_sig bs n → clr_type (b :: bs)
| clr_szarray bs : clr_type bs → clr_type (ELEMENT_TYPE_SZARRAY :: bs)
| clr_generic b tok tk num n args :
    b = ELEMENT_TYPE_CLASS ∨ b = ELEMENT_TYPE_VALUETYPE → number_sig tok tk → number_sig num n →
    many clr_type (Z.to_nat n) args → clr_type (ELEMENT_TYPE_GENERICINST :: b :: tok ++ num ++ args).

(** A type, a pointer to one or to void, or a reference to either. *)
Definition clr_param (w : list Z) : Prop :=
  Forall (λ b, is_byte b) w ∧ ∃ r p t, w = r ++ p ++ t ∧ (r = [] ∨ r = [ELEMENT_TYPE_BYREF]) ∧
    (p = [] ∧ clr_type t ∨ p = [ELEMENT_TYPE_PTR] ∧ (clr_type t ∨ t = [ELEMENT_TYPE_VOID])).

(** The parser refuses pointers as results. *)
Definition clr_ret (w : list Z) : Prop :=
  w = [ELEMENT_TYPE_VOID] ∨
  Forall (λ b, is_byte b) w ∧ ∃ r t, w = r ++ t ∧ (r = [] ∨ r = [ELEMENT_TYPE_BYREF]) ∧ clr_type t.

Lemma clr_ret_param w : clr_ret w → w = [ELEMENT_TYPE_VOID] ∨ clr_param w.
Proof.
  intros [->|(Hb & r & t & -> & Hr & Ht)]; [by left|right]. split; [done|]. exists r, [], t. split_and!; [done..|by left].
Qed.

Lemma many_mono (P Q : list Z → Prop) (H : ∀ bs, P bs → Q bs) n bs : many P n bs → many Q n bs.
Proof. induction 1 as [|n bs bs' Hbs _ IH]; [apply many_nil|apply many_cons; [exact (H _ Hbs)|exact IH]]. Defined.

(** Phrases of bytes, each no longer than the whole. *)
Lemma many_parts (P : list Z → Prop) n bs k :
  many P n bs → Forall (λ b, is_byte b) bs → (length bs ≤ k)%nat →
  many (λ w, P w ∧ Forall (λ b, is_byte b) w ∧ (length w ≤ k)%nat) n bs.
Proof.
  induction 1 as [|n w ws Hw _ IH]; intros Hb Hk; [apply many_nil|]. apply Forall_app in Hb as [H1 H2]. rewrite length_app in Hk.
  apply many_cons; [split_and!; [done|done|lia]|apply IH; [done|lia]].
Qed.

(** The first byte. *)
Definition type_heads : list Z :=
  simple_types ++ [ELEMENT_TYPE_CLASS; ELEMENT_TYPE_VALUETYPE; ELEMENT_TYPE_VAR; ELEMENT_TYPE_MVAR; ELEMENT_TYPE_SZARRAY;
                   ELEMENT_TYPE_GENERICINST].

Lemma clr_type_head w : clr_type w → ∃ b rest, w = b :: rest ∧ b ∈ type_heads.
Proof. destruct 1; eexists _, _; (split; [reflexivity|]); unfold type_heads, simple_types in *; set_solver. Qed.

(** What the heads are not. *)
Lemma type_head_not b : b ∈ type_heads →
  b ≠ ELEMENT_TYPE_PTR ∧ b ≠ ELEMENT_TYPE_PINNED ∧ b ≠ ELEMENT_TYPE_VOID ∧ b ≠ ELEMENT_TYPE_BYREF ∧ ¬ is_cmod b.
Proof.
  unfold is_cmod. intros Hb. apply list_elem_of_lookup in Hb as [i Hi].
  repeat (destruct i as [|i]; [injection Hi as <-; split_and!; by intuition|]). done.
Qed.

Lemma clr_type_sig : ∀ w, clr_type w → type_sig w.
Proof.
  fix IH 2. intros w [b Hb|b bs n Hb Hn|b bs n Hb Hn|bs Hbs|b tok tk num n args Hb Htok Hnum Hargs].
  - apply sig_code. unfold simple_types in Hb. apply list_elem_of_lookup in Hb as [i Hi].
    repeat (destruct i as [|i]; [injection Hi as <-; unfold structured_element_types; by vm_compute; set_solver|]). done.
  - by eapply sig_token.
  - by eapply sig_var.
  - apply sig_szarray; [by apply IH|]. intros b Hh. destruct (clr_type_head _ Hbs) as (b' & rest & -> & Hb').
    injection Hh as <-. by apply type_head_not.
  - eapply sig_generic; [done..|]. exact (many_mono clr_type type_sig IH _ _ Hargs).
Qed.

(** ** Packed numbers and tokens *)

Lemma number_uncompressed bs n rest : Forall (λ b, is_byte b) bs → number_sig bs n →
  CorSigUncompressData_unchecked (bs ++ rest) = Ret (n, Z.of_nat (length bs)).
Proof.
  intros Hb Hn. pose proof (number_sig_nonempty _ _ Hn) as Hl. assert (0 < Z.of_nat (length bs)) as Hpos by lia.
  unfold CorSigUncompressData_unchecked, number_sig in *.
  destruct (CorSigUncompressData_bounds bs (Z.of_nat (length bs))) as [He|(m & size & Hs & _ & _ & H4)]; [done..|lia|congruence|].
  rewrite Hn in Hs. injection Hs as _ <-.
  pose proof (CorSigUncompressData_take bs (Z.of_nat (length bs)) n (Z.of_nat (length bs)) rest 0xff Hb Hpos (Z.le_refl _) Hn) as Ht.
  rewrite Nat2Z.id, firstn_all in Ht. apply Ht. lia.
Qed.

Lemma token_uncompressed bs n : Forall (λ b, is_byte b) bs → number_sig bs n →
  ∃ tk, ∀ rest, CorSigUncompressToken (bs ++ rest) = Ret (tk, Z.of_nat (length bs)).
Proof. intros Hb Hn. eexists. intros rest. unfold CorSigUncompressToken. by rewrite (number_uncompressed bs n rest Hb Hn). Qed.

(** Tests for other element types. *)
Ltac other_types := repeat (rewrite decide_False by first [discriminate | by intros [|]]).
