(* ===== verification/TypeNames.v ===== *)
(** * Names of functions and of the types of their parameters
    (continuous_profiler_clr_helpers.cpp, NamingHelper::GetFunctionName of continuous_profiler.cpp)

    The continuous profiler names a frame after its function: the name of the declaring type, the
    name of the function, its generic parameters and the types of its parameters, decoded from the
    signature of the function in metadata.  The metadata interface of the runtime is the record
    [IMetaDataImport2] of the queries the code makes; a query that fails is [None].

    The main results: a type in a signature is named by the rendering of its structure and the
    cursor ends right behind it; the parser of signatures agrees with the one of clr_helpers.cpp;
    the names of types are found for every well-founded metadata, and only for those. *)

From Stdlib Require Import String.
From S2P Require Import SamplesBuffer Prelude Utf CorSig Signature.

(** An ASCII literal. *)
Definition WStr (s : string) : list Z := (λ a, Z.of_nat (Ascii.nat_of_ascii a)) <$> String.list_ascii_of_string s.

Definition kGenericParamsMaxLen : nat := 20.
Definition kUnknown := WStr "Unknown".
Definition kParamsSeparator := WStr ", ".
Definition kGenericParamsOpeningBrace := WStr "[".
Definition kGenericParamsClosingBrace := WStr "]".
Definition kFunctionParamsOpeningBrace := WStr "(".
Definition kFunctionParamsClosingBrace := WStr ")".
Definition name_separator := WStr ".".

Definition mdTokenNil : Z := 0.
Definition mdtMethodDef : Z := 0x06000000.
Definition mdtMemberRef : Z := 0x0a000000.
Definition mdtModuleRef : Z := 0x1a000000.
Definition mdtMethodSpec : Z := 0x2b000000.

(** ** Metadata

    Names are what the runtime leaves in the caller's buffer, signatures are the bytes from the
    start of the signature to the end of the metadata they are in. *)
Record IMetaDataImport2 := {
  GetMemberRefProps : Z → option (Z * list Z * Z * (list Z * nat)); (* parent, name, its length, signature *)
  GetMemberProps : Z → option (Z * list Z * Z * (list Z * nat));
  GetMethodSpecProps : Z → option (Z * (list Z * nat));
  GetTypeDefProps : Z → option (list Z * Z);
  GetNestedClassProps : Z → option Z;
  GetTypeRefProps : Z → option (list Z * Z);
  GetTypeSpecFromToken : Z → option (list Z * nat);
  EnumGenericParams : Z → option (list Z);
  GetGenericParamProps : Z → option (list Z);
}.

Record TypeInfo := { TypeInfo_id : Z; TypeInfo_name : list Z }.
Definition no_type : TypeInfo := {| TypeInfo_id := 0; TypeInfo_name := [] |}.

Record FunctionInfo := {
  FunctionInfo_id : Z;
  FunctionInfo_name : list Z;
  FunctionInfo_type : TypeInfo;
  method_signature : list Z * nat;
}.
Definition no_function : FunctionInfo :=
  {| FunctionInfo_id := 0; FunctionInfo_name := []; FunctionInfo_type := no_type; method_signature := ([], 0%nat) |}.
Definition FunctionInfo_IsValid (f : FunctionInfo) : bool := bool_decide (FunctionInfo_id f ≠ 0).

Section Info.
Context (metadata_import : IMetaDataImport2).

(** [fuel] bounds the chain of enclosing types, generic types and members. *)
Fixpoint GetFunctionInfo (fuel : nat) (token : Z) : outcome unit FunctionInfo :=
  match fuel with
  | O => Fuel
  | S fuel =>
      let finish (parent_token : Z) name name_len signature :=
        if decide (name_len = 0) then mret no_function
        else
          type_info ← GetTypeInfo fuel parent_token;
          mret {| FunctionInfo_id := token; FunctionInfo_name := until_nul name; FunctionInfo_type := type_info;
                  method_signature := signature |} in
      let props p :=
        match p with
        | None => mret no_function
        | Some (parent_token, name, name_len, signature) => finish parent_token name name_len signature
        end in
      let token_type := TypeFromToken token in
      if decide (token_type = mdtMemberRef) then props (GetMemberRefProps metadata_import token)
      else if decide (token_type = mdtMethodDef) then props (GetMemberProps metadata_import token)
      else if decide (token_type = mdtMethodSpec) then
        match GetMethodSpecProps metadata_import token with
        | None => mret no_function
        | Some (parent_token, signature) =>
            generic_info ← GetFunctionInfo fuel parent_token;
            finish parent_token (FunctionInfo_name generic_info)
              (Z.of_nat (length (FunctionInfo_name generic_info)) + 1) signature
        end
      else mret no_function
  end
with GetTypeInfo (fuel : nat) (token : Z) : outcome unit TypeInfo :=
  match fuel with
  | O => Fuel
  | S fuel =>
      let finish (parentTypeInfo : option TypeInfo) (p : option (list Z * Z)) : outcome unit TypeInfo :=
        match p with
        | None => mret no_type
        | Some (type_name, type_name_len) =>
            if decide (type_name_len = 0) then mret no_type
            else
              mret {| TypeInfo_id := token;
                      TypeInfo_name :=
                        match parentTypeInfo with
                        | Some parent => TypeInfo_name parent ++ name_separator ++ until_nul type_name
                        | None => until_nul type_name
                        end |}
        end in
      let token_type := TypeFromToken token in
      if decide (token_type = mdtTypeDef) then
        let p := GetTypeDefProps metadata_import token in
        let parent_type_token := default mdTokenNil (GetNestedClassProps metadata_import token) in
        parentTypeInfo ←
          (if decide (parent_type_token ≠ mdTokenNil) then Some <$> GetTypeInfo fuel parent_type_token else mret None);
        finish parentTypeInfo p
      else if decide (token_type = mdtTypeRef) then finish None (GetTypeRefProps metadata_import token)
      else if decide (token_type = mdtTypeSpec) then
        match GetTypeSpecFromToken metadata_import token with
        | None => mret no_type
        | Some (signature, signature_length) =>
            if decide (signature_length < 3)%nat then mret no_type
            else
              s0 ← byte_at signature 0;
              if decide (Z.land s0 ELEMENT_TYPE_GENERICINST ≠ 0) then
                type_token ← match CorSigUncompressToken (drop 2 signature) with
                             | Err _ => mret (TokenFromRid 0 mdtTypeDef)
                             | r => fst <$> r
                             end;
                baseType ← GetTypeInfo fuel type_token;
                mret {| TypeInfo_id := TypeInfo_id baseType; TypeInfo_name := TypeInfo_name baseType |}
              else mret no_type (* type_name_len is 0 *)
        end
      else if decide (token_type = mdtMemberRef ∨ token_type = mdtMethodDef) then
        FunctionInfo_type <$> GetFunctionInfo fuel token
      else mret no_type (* for ModuleRef hr keeps its initial E_FAIL *)
  end.
End Info.

(** ** Types in signatures *)

(** The cursor moves behind what an unchecked function read; on an error it would move by
    (ULONG)-1, out of the memory. *)
Definition uncompress (f : list Z → outcome unit (Z * Z)) (pb : list Z) : C Z :=
  pb_cur ← get;
  match f (drop pb_cur pb) with
  | Ret (v, cb) => put (pb_cur + Z.to_nat cb)%nat;; mret v
  | _ => stuck
  end.

(** The types the switch names. *)
Definition simple_type_name (b : Z) : option (list Z) :=
  if decide (b = ELEMENT_TYPE_BOOLEAN) then Some (WStr "System.Boolean")
  else if decide (b = ELEMENT_TYPE_CHAR) then Some (WStr "System.Char")
  else if decide (b = ELEMENT_TYPE_I1) then Some (WStr "System.SByte")
  else if decide (b = ELEMENT_TYPE_U1) then Some (WStr "System.Byte")
  else if decide (b = ELEMENT_TYPE_U2) then Some (WStr "System.UInt16")
  else if decide (b = ELEMENT_TYPE_I2) then Some (WStr "System.Int16")
  else if decide (b = ELEMENT_TYPE_I4) then Some (WStr "System.Int32")
  else if decide (b = ELEMENT_TYPE_U4) then Some (WStr "System.UInt32")
  else if decide (b = ELEMENT_TYPE_I8) then Some (WStr "System.Int64")
  else if decide (b = ELEMENT_TYPE_U8) then Some (WStr "System.UInt64")
  else if decide (b = ELEMENT_TYPE_R4) then Some (WStr "System.Single")
  else if decide (b = ELEMENT_TYPE_R8) then Some (WStr "System.Double")
  else if decide (b = ELEMENT_TYPE_I) then Some (WStr "System.IntPtr")
  else if decide (b = ELEMENT_TYPE_U) then Some (WStr "System.UIntPtr")
  else if decide (b = ELEMENT_TYPE_STRING) then Some (WStr "System.String")
  else if decide (b = ELEMENT_TYPE_OBJECT) then Some (WStr "System.Object")
  else None.

Section Names.
Context (pb : list Z) (metadata_import : IMetaDataImport2) (type_fuel : nat).

(** [generic_parameters] is an array of kGenericParamsMaxLen tokens. *)
Definition ExtractParameterName (generic_parameters : list Z) : C (list Z) :=
  advance;;
  num ← uncompress CorSigUncompressData_unchecked pb;
  if decide (Z.of_nat kGenericParamsMaxLen ≤ num) then mret kUnknown
  else
    parameter ← lift_option (generic_parameters !! Z.to_nat num);
    match GetGenericParamProps metadata_import parameter with
    | None => mret kUnknown
    | Some param_type_name => mret (until_nul param_type_name)
    end.

(** [for (ULONG i = 0; i < num; i++)]: [n] iterations are left. *)
Fixpoint generic_arguments (argument : C (list Z)) (n : nat) (token_name : list Z) : C (list Z) :=
  match n with
  | O => mret token_name
  | S n =>
      name ← argument;
      let token_name := token_name ++ name in
      generic_arguments argument n (match n with O => token_name | S _ => token_name ++ kParamsSeparator end)
  end.

(** The switch on the element type; [self] is the recursive call. *)
Definition name_element_type (self : C (list Z)) (class_params method_params : list Z) : C (list Z) :=
  b ← peek pb;
  match simple_type_name b with
  | Some name => advance;; mret name
  | None =>
      if decide (b = ELEMENT_TYPE_CLASS ∨ b = ELEMENT_TYPE_VALUETYPE) then
        advance;;
        token ← uncompress CorSigUncompressToken pb;
        match GetTypeInfo metadata_import type_fuel token with
        | Ret info => mret (TypeInfo_name info)
        | Err e => throw e
        | Stuck => stuck
        | Fuel => out_of_fuel
        end
      else if decide (b = ELEMENT_TYPE_SZARRAY) then
        advance;;
        name ← self;
        mret (name ++ WStr "[]")
      else if decide (b = ELEMENT_TYPE_GENERICINST) then
        advance;;
        name ← self;
        num ← uncompress CorSigUncompressData_unchecked pb;
        name ← generic_arguments self (Z.to_nat num) (name ++ kGenericParamsOpeningBrace);
        mret (name ++ kGenericParamsClosingBrace)
      else if decide (b = ELEMENT_TYPE_MVAR) then ExtractParameterName method_params
      else if decide (b = ELEMENT_TYPE_VAR) then ExtractParameterName class_params
      else mret [] (* the cursor stays *)
  end.

(** [fuel] bounds the nesting of types. *)
Fixpoint GetSigTypeTokNameNew (fuel : nat) (class_params method_params : list Z) : C (list Z) :=
  match fuel with
  | O => out_of_fuel
  | S fuel =>
      b ← peek pb;
      ref_flag ← (if decide (b = ELEMENT_TYPE_BYREF) then advance;; mret true else mret false);
      b ← peek pb;
      pointer_flag ← (if decide (b = ELEMENT_TYPE_PTR) then advance;; mret true else mret false);
      token_name ← name_element_type (GetSigTypeTokNameNew fuel class_params method_params) class_params method_params;
      let token_name := if ref_flag : bool then token_name ++ WStr "&" else token_name in
      mret (if pointer_flag : bool then token_name ++ WStr "*" else token_name)
  end.

(** The cursor is put on the type, the name is what is wanted. *)
Definition GetTypeTokName (t : TypeSignature) (class_params method_params : list Z) : outcome unit (list Z) :=
  (GetSigTypeTokNameNew (S (length pb)) class_params method_params (offset t)).1.
End Names.

(** ** continuous_profiler::FunctionMethodSignature::TryParse *)

Section TryParse.
Context (pb : list Z) (len : nat).

Fixpoint profiler_params (fuel : nat) (fEncounteredSentinal : bool) (i param_count : Z) : M (list TypeSignature) unit :=
  if decide (i < param_count) then
    match fuel with
    | O => out_of_fuel
    | S fuel =>
        on_cursor (check_end len);;
        b ← on_cursor (peek pb);
        fEncounteredSentinal ←
          (if decide (b = ELEMENT_TYPE_SENTINEL) then
             if fEncounteredSentinal then throw tt else on_cursor advance;; mret true
           else mret fEncounteredSentinal);
        pbParam ← cursor;
        on_cursor (ParseParamOrLocal pb len);;
        pbCur ← cursor;
        on_object (λ params, params ++ [span_to pbParam pbCur]);;
        profiler_params fuel fEncounteredSentinal (i + 1) param_count
    end
  else mret tt.

Definition profiler_TryParse : M (list TypeSignature) unit :=
  elem_type ← on_cursor (ParseByte pb len);
  (if decide (Z.land elem_type IMAGE_CEE_CS_CALLCONV_GENERIC ≠ 0) then on_cursor (ParseNumber pb len);; mret tt
   else mret tt);;
  param_count ← on_cursor (ParseNumber pb len);
  on_cursor (ParseRetType pb len);;
  profiler_params (S len) false 0 param_count.
End TryParse.

(** ** NamingHelper::GetFunctionName *)

Definition unknown_list_of_arguments := WStr "(unknown)".
Definition unknown_function_name := WStr "Unknown(unknown)".
Definition unknown_native_function_name := WStr "Unknown_Native_Function(unknown)".

(** The array EnumGenericParams fills, and the number of parameters it holds. *)
Definition param_array (ps : list Z) : list Z := take kGenericParamsMaxLen ps ++ replicate (kGenericParamsMaxLen - length ps) 0.
Definition param_count (ps : list Z) : nat := Nat.min kGenericParamsMaxLen (length ps).

(** The loops that append separated names: names for indices [i], [i + 1], ..., [n] of them. *)
Fixpoint append_separated (name : nat → outcome unit (list Z)) (n i : nat) (result : list Z) : outcome unit (list Z) :=
  match n with
  | O => mret result
  | S n =>
      let result := if decide (i ≠ 0)%nat then result ++ kParamsSeparator else result in
      s ← name i;
      append_separated name n (S i) (result ++ s)
  end.

(** [GetModuleMetaData] is the query of the profiling interface; the bounds are those of the
    functions above. *)
Definition GetFunctionName (GetModuleMetaData : Z → option IMetaDataImport2) (type_fuel : nat) (f : FunctionIdentifier) :
    outcome unit (list Z) :=
  if decide (is_valid f = false) then mret unknown_function_name
  else if decide (function_token f = 0) then mret unknown_native_function_name
  else
    match GetModuleMetaData (module_id f) with
    | None => mret unknown_function_name
    | Some metadata_import =>
        function_info ← GetFunctionInfo metadata_import type_fuel (function_token f);
        if decide (FunctionInfo_IsValid function_info = false) then mret unknown_function_name
        else
          let result := TypeInfo_name (FunctionInfo_type function_info) ++ name_separator ++ FunctionInfo_name function_info in
          match EnumGenericParams metadata_import (TypeInfo_id (FunctionInfo_type function_info)) with
          | None => mret (result ++ unknown_list_of_arguments)
          | Some class_params =>
              match EnumGenericParams metadata_import (function_token f) with
              | None => mret (result ++ unknown_list_of_arguments)
              | Some function_params =>
                  let class_generic_params := param_array class_params in
                  let function_generic_params := param_array function_params in
                  let param_type_name i :=
                    parameter ← of_option (function_generic_params !! i);
                    mret (match GetGenericParamProps metadata_import parameter with
                          | None => kUnknown
                          | Some name => until_nul name
                          end) in
                  result ←
                    (if decide (0 < param_count function_params)%nat then
                       result ← append_separated param_type_name (param_count function_params) 0 (result ++ kGenericParamsOpeningBrace);
                       mret (result ++ kGenericParamsClosingBrace)
                     else mret result);
                  let '(pb, len) := method_signature function_info in
                  match profiler_TryParse pb len (0%nat, []) with
                  | (Ret _, (_, arguments)) =>
                      let argument_type_name i :=
                        argument ← of_option (arguments !! i);
                        GetTypeTokName pb metadata_import type_fuel argument class_generic_params function_generic_params in
                      result ← append_separated argument_type_name (length arguments) 0 (result ++ kFunctionParamsOpeningBrace);
                      mret (result ++ kFunctionParamsClosingBrace)
                  | (Err _, _) => mret (result ++ unknown_list_of_arguments)
                  | (Stuck, _) => Stuck
                  | (Fuel, _) => Fuel
                  end
              end
          end
    end.

(** ** The parser agrees with the one of clr_helpers.cpp *)

(** [m2] does to the parameters what [m1] does to the object. *)
Definition same_params {A} (m1 : M FunctionMethodSignature A) (m2 : M (list TypeSignature) A) : Prop :=
  ∀ c s, m2 (c, params s) = let '(r, (c', s')) := m1 (c, s) in (r, (c', params s')).

Lemma same_params_bind {A B} m1 m2 (f1 : A → M _ B) (f2 : A → M _ B) :
  same_params m1 m2 → (∀ a, same_params (f1 a) (f2 a)) → same_params (m1 ≫= f1) (m2 ≫= f2).
Proof.
  intros Hm Hf c s. unfold mbind, stM_bind. rewrite Hm. destruct (m1 (c, s)) as [[a|e| |] [c' s']]; try done. apply Hf.
Qed.

Lemma same_params_cursor {A} (m : C A) : same_params (on_cursor m) (on_cursor m).
Proof. intros c s. unfold on_cursor. by destruct (m c). Qed.

(** A change of the object that leaves the parameters alone needs no counterpart. *)
Lemma same_params_object {A} (g : FunctionMethodSignature → FunctionMethodSignature) (m1 : M _ A) m2 :
  (∀ s, params (g s) = params s) → same_params m1 m2 → same_params (on_object g;; m1) m2.
Proof. intros Hg Hm c s. rewrite <-(Hg s). apply (Hm c (g s)). Qed.

Lemma same_params_position {A} (f : nat → M _ A) m2 : (∀ c, same_params (f c) m2) → same_params (cursor ≫= f) m2.
Proof. intros Hf c s. apply (Hf c c s). Qed.

Lemma same_params_mret {A} (a : A) : same_params (mret a) (mret a).
Proof. done. Qed.
Lemma same_params_throw {A} : same_params (throw tt : M _ A) (throw tt).
Proof. done. Qed.

Create HintDb same_params.
#[export] Hint Resolve same_params_cursor same_params_mret same_params_throw : same_params.

Lemma profiler_params_same pb len fuel sent i n :
  same_params (TryParse_params pb len fuel sent i n) (profiler_params pb len fuel sent i n).
Proof.
  revert sent i. induction fuel as [|fuel IH]; intros sent i; cbn [TryParse_params profiler_params].
  - by case_decide.
  - case_decide; [|done]. apply same_params_bind; [auto with same_params|]. intros _.
    apply same_params_bind; [auto with same_params|]. intros b. apply same_params_bind.
    { case_decide; [|done]. destruct sent; [done|]. apply same_params_bind; auto with same_params. }
    intros sent'. apply same_params_bind; [done|]. intros p. apply same_params_bind; [auto with same_params|]. intros _.
    apply same_params_bind; [done|]. intros c'. apply same_params_bind; [done|]. intros _. apply IH.
Qed.

Lemma profiler_TryParse_same pb len :
  same_params (FunctionMethodSignature_TryParse pb len) (profiler_TryParse pb len).
Proof.
  unfold FunctionMethodSignature_TryParse, profiler_TryParse. apply same_params_bind; [auto with same_params|]. intros e.
  apply same_params_bind.
  { case_decide; [|done]. apply same_params_bind; [auto with same_params|]. intros g.
    by intros c s. }
  intros _. apply same_params_bind; [auto with same_params|]. intros n. apply same_params_object; [done|].
  apply same_params_position. intros p. apply same_params_bind; [auto with same_params|]. intros _.
  apply same_params_position. intros c'. apply same_params_object; [done|]. apply profiler_params_same.
Qed.

(** ** Rendering *)

(** The types a signature is built from, without the prefixes of a parameter. *)
Inductive type_tree :=
| TSimple (b : Z)
| TNamed (kind : Z) (tk : Z)
| TVar (kind : Z) (num : Z)
| TArray (t : type_tree)
| TGeneric (kind : Z) (tk : Z) (args : list type_tree).

Fixpoint encode_type (t : type_tree) : list Z :=
  match t with
  | TSimple b => [b]
  | TNamed kind tk => kind :: packed (token_number tk)
  | TVar kind num => kind :: packed num
  | TArray t => ELEMENT_TYPE_SZARRAY :: encode_type t
  | TGeneric kind tk args =>
      ELEMENT_TYPE_GENERICINST :: (kind :: packed (token_number tk)) ++ packed (Z.of_nat (length args)) ++
      concat (encode_type <$> args)
  end.

Fixpoint joined (names : list (list Z)) : list Z :=
  match names with
  | [] => []
  | [name] => name
  | name :: names => name ++ kParamsSeparator ++ joined names
  end.

Section Rendering.
Context (metadata_import : IMetaDataImport2) (type_fuel : nat) (class_params method_params : list Z).

Definition type_name (tk : Z) : list Z :=
  match GetTypeInfo metadata_import type_fuel tk with Ret info => TypeInfo_name info | _ => [] end.

(** The name of a generic parameter; those behind the first kGenericParamsMaxLen are unknown. *)
Definition generic_param_name (kind num : Z) : list Z :=
  match (if decide (kind = ELEMENT_TYPE_MVAR) then method_params else class_params) !! Z.to_nat num with
  | Some parameter => from_option until_nul kUnknown (GetGenericParamProps metadata_import parameter)
  | None => kUnknown
  end.

Fixpoint render_type (t : type_tree) : list Z :=
  match t with
  | TSimple b => default [] (simple_type_name b)
  | TNamed _ tk => type_name tk
  | TVar kind num => generic_param_name kind num
  | TArray t => render_type t ++ WStr "[]"
  | TGeneric _ tk args =>
      type_name tk ++ kGenericParamsOpeningBrace ++ joined (render_type <$> args) ++ kGenericParamsClosingBrace
  end.

Definition class_or_value (kind : Z) : Prop := kind = ELEMENT_TYPE_CLASS ∨ kind = ELEMENT_TYPE_VALUETYPE.
Definition token_ok (tk : Z) : Prop :=
  type_token tk ∧ ∃ info, GetTypeInfo metadata_import type_fuel tk = Ret info.

Inductive type_ok : type_tree → Prop :=
| simple_ok b name : simple_type_name b = Some name → type_ok (TSimple b)
| named_ok kind tk : class_or_value kind → token_ok tk → type_ok (TNamed kind tk)
| var_ok kind num : kind = ELEMENT_TYPE_VAR ∨ kind = ELEMENT_TYPE_MVAR → packable num → type_ok (TVar kind num)
| array_ok t : type_ok t → type_ok (TArray t)
| generic_ok kind tk args :
    class_or_value kind → token_ok tk → packable (Z.of_nat (length args)) → Forall type_ok args →
    type_ok (TGeneric kind tk args).

(** Induction with a hypothesis for the type arguments. *)
Lemma type_ok_ind' (P : type_tree → Prop) :
  (∀ b name, simple_type_name b = Some name → P (TSimple b)) →
  (∀ kind tk, class_or_value kind → token_ok tk → P (TNamed kind tk)) →
  (∀ kind num, kind = ELEMENT_TYPE_VAR ∨ kind = ELEMENT_TYPE_MVAR → packable num → P (TVar kind num)) →
  (∀ t, type_ok t → P t → P (TArray t)) →
  (∀ kind tk args, class_or_value kind → token_ok tk → packable (Z.of_nat (length args)) → Forall type_ok args →
     Forall P args → P (TGeneric kind tk args)) →
  ∀ t, type_ok t → P t.
Proof.
  intros H1 H2 H3 H4 H5. fix IH 2. intros t [b name Hb|kind tk Hk Ht|kind num Hk Hn|t' Ht|kind tk args Hk Ht Hn Ha].
  - by eapply H1.
  - by apply H2.
  - by apply H3.
  - apply H4; [done|]. by apply IH.
  - apply H5; try done. clear Hn. induction Ha as [|a args Ha Has IHa]; [apply Forall_nil_2|]. apply Forall_cons; split; [by apply IH|exact IHa].
Qed.

(** *** Reading a type *)

Context (pb : list Z).

(** The bytes [bs] are in memory at [c]. *)
Definition at_cursor (c : nat) (bs : list Z) : Prop := ∃ post, drop c pb = bs ++ post.

Lemma at_cursor_app c bs bs' : at_cursor c (bs ++ bs') → at_cursor c bs ∧ at_cursor (c + length bs) bs'.
Proof.
  intros [post H]. rewrite <-app_assoc in H. split; [by eexists|]. exists post.
  by rewrite <-drop_drop, H, drop_app_length.
Qed.

Lemma at_cursor_cons c b bs : at_cursor c (b :: bs) → peek pb c = (Ret b, c) ∧ at_cursor (S c) bs.
Proof.
  intros H. split.
  - destruct H as [post H]. unfold peek. run_by (done).
    replace (pb !! c) with (drop c pb !! 0%nat) by (by rewrite lookup_drop, Nat.add_0_r). by rewrite H.
  - apply (at_cursor_app c [b] bs) in H as [_ H]. by rewrite Nat.add_1_r in H.
Qed.

Lemma uncompress_run f c bs v :
  at_cursor c bs → (∀ post, f (bs ++ post) = Ret (v, Z.of_nat (length bs))) → uncompress f pb c = (Ret v, c + length bs)%nat.
Proof.
  intros [post H] Hf. unfold uncompress. run_by (done). rewrite H, Hf. run_by (done). by rewrite Nat2Z.id.
Qed.

Lemma uncompress_number c n : packable n → at_cursor c (packed n) → uncompress CorSigUncompressData_unchecked pb c = (Ret n, c + length (packed n))%nat.
Proof.
  intros Hn H. apply uncompress_run; [done|]. intros post. apply CorSigUncompressData_packed; [done|].
  pose proof (packed_length n). lia.
Qed.

Lemma uncompress_token c tk :
  type_token tk → at_cursor c (packed (token_number tk)) →
  uncompress CorSigUncompressToken pb c = (Ret tk, c + length (packed (token_number tk)))%nat.
Proof. intros Ht H. apply uncompress_run; [done|]. intros post. by apply CorSigUncompressToken_packed. Qed.

Abbreviation type_name_of fuel := (GetSigTypeTokNameNew pb metadata_import type_fuel fuel class_params method_params).

(** [named m t]: wherever [t] is, [m] names it and ends behind it. *)
Definition named (m : C (list Z)) (bs name : list Z) : Prop := ∀ c, at_cursor c bs → m c = (Ret name, c + length bs)%nat.

Lemma generic_arguments_run m args acc c :
  Forall (λ a, named m (encode_type a) (render_type a)) args → at_cursor c (concat (encode_type <$> args)) →
  generic_arguments m (length args) acc c =
    (Ret (acc ++ joined (render_type <$> args)), c + length (concat (encode_type <$> args)))%nat.
Proof.
  intros Ha. revert acc c. induction Ha as [|a args Ha Has IH]; intros acc c Hc; cbn [length generic_arguments].
  - by rewrite app_nil_r, Nat.add_0_r.
  - rewrite fmap_cons in Hc |- *. cbn [concat] in *. apply at_cursor_app in Hc as [Hc1 Hc2].
    run_by (by apply Ha). destruct args as [|a' args].
    + cbn. by rewrite app_nil_r.
    + cbn [length]. rewrite (IH (_ ++ kParamsSeparator) _ Hc2). rewrite !fmap_cons. cbn [joined].
      cbn [concat]. rewrite !length_app, !Nat.add_assoc, <-!app_assoc. done.
Qed.

(** Prefixes are taken off, one of each kind. *)
Lemma prefixes_run fuel r p b bs c name :
  b ≠ ELEMENT_TYPE_BYREF → b ≠ ELEMENT_TYPE_PTR →
  let prefix := (if r : bool then [ELEMENT_TYPE_BYREF] else []) ++ (if p : bool then [ELEMENT_TYPE_PTR] else []) in
  at_cursor c (prefix ++ b :: bs) →
  named (name_element_type pb metadata_import type_fuel (type_name_of fuel) class_params method_params) (b :: bs) name →
  type_name_of (S fuel) c =
    (Ret (name ++ (if r then WStr "&" else []) ++ (if p then WStr "*" else [])), c + length (prefix ++ b :: bs))%nat.
Proof.
  intros Hr Hp prefix Hc Hn. cbn [GetSigTypeTokNameNew].
  assert (Hnames : ∀ c', at_cursor c' (b :: bs) → peek pb c' = (Ret b, c')) by (by intros ? [? _]%at_cursor_cons).
  pose proof (at_cursor_app _ _ _ Hc) as [_ Hlast]. pose proof (Hn _ Hlast) as Hrun.
  unfold prefix in *. destruct r, p; cbn [app length] in *.
  - destruct (at_cursor_cons _ _ _ Hc) as [E1 [E2 H2]%at_cursor_cons]. run_by (done). run_by (done). run_by (done). run_by (done).
    replace (S (S c)) with (c + 2)%nat by lia. run_by (done). rewrite <-app_assoc. f_equal. lia.
  - destruct (at_cursor_cons _ _ _ Hc) as [E1 H1]. run_by (done). run_by (done). run_by (by apply Hnames).
    rewrite decide_False by done. run_by (done). replace (S c) with (c + 1)%nat by lia. run_by (done). rewrite app_nil_r. f_equal. lia.
  - destruct (at_cursor_cons _ _ _ Hc) as [E1 H1]. run_by (done). run_by (done). run_by (done). run_by (done).
    replace (S c) with (c + 1)%nat by lia. run_by (done). f_equal. lia.
  - rewrite Nat.add_0_r in *. run_by (by apply Hnames). rewrite decide_False by done. run_by (done).
    run_by (by apply Hnames). rewrite decide_False by done. run_by (done). run_by (done). by rewrite app_nil_r.
Qed.

(** Codes that are no types. *)
Definition no_types : list Z :=
  [ELEMENT_TYPE_BYREF; ELEMENT_TYPE_PTR; ELEMENT_TYPE_CMOD_OPT; ELEMENT_TYPE_CMOD_REQD; ELEMENT_TYPE_TYPEDBYREF;
   ELEMENT_TYPE_SENTINEL].

Lemma encode_head t : type_ok t → ∃ b bs, encode_type t = b :: bs ∧ b ∉ no_types.
Proof.
  intros [b name Hb|kind tk [-> | ->] Ht|kind num [-> | ->] Hn|t' Ht|kind tk args Hk Ht Hn Ha]; eexists _, _; (split; [done|]);
    unfold no_types; intros Hin; repeat (apply elem_of_cons in Hin as [Hin|Hin]; [try subst b; done|]); by apply elem_of_nil in Hin.
Qed.

Lemma no_types_prefix b : b ∉ no_types → b ≠ ELEMENT_TYPE_BYREF ∧ b ≠ ELEMENT_TYPE_PTR.
Proof. unfold no_types. rewrite !not_elem_of_cons. tauto. Qed.

Abbreviation element_name_of fuel :=
  (name_element_type pb metadata_import type_fuel (type_name_of fuel) class_params method_params).

Lemma type_name_run t fuel :
  type_ok t → (∀ fuel, (length (encode_type t) ≤ S fuel)%nat → named (element_name_of fuel) (encode_type t) (render_type t)) →
  (length (encode_type t) ≤ fuel)%nat → named (type_name_of fuel) (encode_type t) (render_type t).
Proof.
  intros Hok Hel Hf c Hc. destruct (encode_head t Hok) as (b & bs & E & [Hr Hp]%no_types_prefix). rewrite E in *.
  destruct fuel as [|fuel]; [simpl in Hf; lia|].
  rewrite (prefixes_run fuel false false b bs c (render_type t)) by (done || by apply Hel). cbn [app]. by rewrite app_nil_r.
Qed.

Lemma ExtractParameterName_run ps b num c name :
  packable num → at_cursor c (b :: packed num) → length ps = kGenericParamsMaxLen →
  name = match ps !! Z.to_nat num with
         | Some parameter => from_option until_nul kUnknown (GetGenericParamProps metadata_import parameter)
         | None => kUnknown
         end →
  ExtractParameterName pb metadata_import ps c = (Ret name, c + length (b :: packed num))%nat.
Proof.
  intros Hn Hc Hl ->. unfold ExtractParameterName. run_by (done). apply at_cursor_cons in Hc as [_ Hc].
  run_by (by apply uncompress_number). cbn [length]. rewrite Nat.add_succ_r. case_decide as Hbig.
  - by rewrite lookup_ge_None_2 by lia.
  - destruct (lookup_lt_is_Some_2 ps (Z.to_nat num)) as [parameter ->]; [lia|]. run_by (done).
    by destruct (GetGenericParamProps metadata_import parameter).
Qed.

Context (Hclass : length class_params = kGenericParamsMaxLen) (Hmethod : length method_params = kGenericParamsMaxLen).

Lemma token_name_run kind tk fuel :
  class_or_value kind → token_ok tk → named (element_name_of fuel) (encode_type (TNamed kind tk)) (type_name tk).
Proof.
  intros Hk [Ht [info Hi]] c Hc. unfold name_element_type. destruct (at_cursor_cons _ _ _ Hc) as [E H1]. run_by (done).
  replace (simple_type_name kind) with (@None (list Z)) by (by destruct Hk as [-> | ->]). rewrite decide_True by done.
  run_by (done). run_by (by apply uncompress_token). rewrite Hi. cbn. unfold type_name. rewrite Hi. f_equal. lia.
Qed.

Lemma concat_part {A} (x : list A) (l : list (list A)) : x ∈ l → (length x ≤ length (concat l))%nat.
Proof. induction 1; cbn [concat]; rewrite length_app; lia. Qed.

Lemma element_name_run t :
  type_ok t → ∀ fuel, (length (encode_type t) ≤ S fuel)%nat → named (element_name_of fuel) (encode_type t) (render_type t).
Proof using All.
  induction 1 as [b name Hb|kind tk Hk Ht|kind num Hk Hn|t Ht IH|kind tk args Hk Ht Hn Ha IH]
    using type_ok_ind'; intros fuel Hf c Hc; [|by apply token_name_run|..]; unfold name_element_type.
  - destruct (at_cursor_cons _ _ _ Hc) as [E _]. run_by (done). rewrite Hb. run_by (done). cbn. rewrite Hb. f_equal. lia.
  - destruct (at_cursor_cons _ _ _ Hc) as [E _]. run_by (done). destruct Hk as [-> | ->]; cbn [simple_type_name].
    + change (simple_type_name ELEMENT_TYPE_VAR) with (@None (list Z)). cbv iota.
      rewrite !decide_False by (done || by intros [?|?]). rewrite decide_True by done.
      by apply (ExtractParameterName_run _ ELEMENT_TYPE_VAR).
    + change (simple_type_name ELEMENT_TYPE_MVAR) with (@None (list Z)). cbv iota.
      rewrite !decide_False by (done || by intros [?|?]). rewrite decide_True by done.
      by apply (ExtractParameterName_run _ ELEMENT_TYPE_MVAR).
  - cbn [encode_type length] in *. destruct (at_cursor_cons _ _ _ Hc) as [E H1]. run_by (done).
    change (simple_type_name ELEMENT_TYPE_SZARRAY) with (@None (list Z)). cbv iota. rewrite decide_False by by intros [?|?].
    rewrite decide_True by done. run_by (done). run_by (apply (type_name_run t fuel Ht IH ltac:(lia) _ H1)).
    cbn. f_equal. lia.
  - cbn [encode_type] in Hc, Hf. destruct (at_cursor_cons _ _ _ Hc) as [E H1]. run_by (done).
    change (simple_type_name ELEMENT_TYPE_GENERICINST) with (@None (list Z)). cbv iota. rewrite decide_False by by intros [?|?].
    rewrite decide_False, decide_True by done. run_by (done).
    cbn [length] in Hf. rewrite !length_app in Hf. destruct (at_cursor_app _ _ _ H1) as [H2 [H3 H4]%at_cursor_app].
    run_by (apply (type_name_run (TNamed kind tk) fuel); [by apply named_ok|intros; by apply token_name_run|simpl in *; lia|exact H2]).
    run_by (by apply uncompress_number). rewrite Nat2Z.id.
    run_by (apply generic_arguments_run; [|exact H4]; apply Forall_forall; intros a Hin;
      pose proof (concat_part (encode_type a) (encode_type <$> args) (list_elem_of_fmap_2 _ _ _ Hin));
      apply type_name_run; [by apply (proj1 (Forall_forall _ _) Ha)|by apply (proj1 (Forall_forall _ _) IH)|lia]).
    cbn [render_type encode_type]. rewrite <-!app_assoc. cbn [length]. rewrite !length_app. unfold mret, stM_ret. f_equal. simpl. lia.
Qed.
End Rendering.

(** ** Parameters *)

(** Whether the parameter is by reference, whether it is a pointer, and its type. *)
Abbreviation parameter := (bool * bool * type_tree)%type.

Definition encode_param : parameter → list Z := λ '(r, p, t),
  ((if r : bool then [ELEMENT_TYPE_BYREF] else []) ++ (if p : bool then [ELEMENT_TYPE_PTR] else [])) ++ encode_type t.
Definition param_ok (M : IMetaDataImport2) (fuel : nat) (p : parameter) : Prop := type_ok M fuel p.2.
Definition render_param (M : IMetaDataImport2) (fuel : nat) (cps mps : list Z) : parameter → list Z := λ '(r, p, t),
  render_type M fuel cps mps t ++ (if r : bool then WStr "&" else []) ++ (if p : bool then WStr "*" else []).

Lemma at_cursor_length pb c bs : at_cursor pb c bs → (length bs ≤ length pb)%nat.
Proof. intros [post H]. apply (f_equal length) in H. rewrite length_drop, length_app in H. lia. Qed.

Lemma param_name_run M fuel cps mps prm pb c n :
  length cps = kGenericParamsMaxLen → length mps = kGenericParamsMaxLen → param_ok M fuel prm →
  at_cursor pb c (encode_param prm) →
  GetTypeTokName pb M fuel {| offset := c; length_ := n |} cps mps = Ret (render_param M fuel cps mps prm).
Proof.
  destruct prm as [[r p] t]. intros Hc Hm Hok Hat. unfold GetTypeTokName. cbn [offset].
  pose proof (at_cursor_length _ _ _ Hat) as Hl. destruct (encode_head _ _ t Hok) as (b & bs & E & [Hb1 Hb2]%no_types_prefix).
  cbn [encode_param] in Hat, Hl. pose proof (length_app ((if r then [ELEMENT_TYPE_BYREF] else []) ++ (if p then [ELEMENT_TYPE_PTR] else [])) (encode_type t)).
  assert (Hel : named pb (name_element_type pb M fuel (GetSigTypeTokNameNew pb M fuel (length pb) cps mps) cps mps)
    (encode_type t) (render_type M fuel cps mps t)) by (apply element_name_run; [done|done|done|lia]).
  rewrite E in Hat, Hel. rewrite (prefixes_run M fuel cps mps pb _ r p b bs c _ Hb1 Hb2 Hat Hel). done.
Qed.

(** *** The parser and the parameters *)

Lemma type_ok_sig M fuel t : type_ok M fuel t → type_sig (encode_type t).
Proof.
  assert (Hnum : ∀ n, packable n → number_sig (packed n) n).
  { intros n Hn. unfold number_sig. rewrite <-(app_nil_r (packed n)) at 1. by apply CorSigUncompressData_packed. }
  assert (Htok : ∀ tk, number_sig (packed (token_number tk)) (token_number tk)).
  { intros tk. apply Hnum. pose proof (token_number_range tk). lia. }
  induction 1 as [b name Hb|kind tk Hk Ht|kind num Hk Hn|t Ht IH|kind tk args Hk Ht Hn Ha IH] using type_ok_ind'.
  - apply sig_code. unfold structured_element_types. intros Hin.
    repeat (apply elem_of_cons in Hin as [->|Hin]; [done|]). by apply elem_of_nil in Hin.
  - by eapply sig_token.
  - eapply sig_var; [done|]. by apply Hnum.
  - apply sig_szarray; [done|]. destruct (encode_head _ _ t Ht) as (b & bs & E & Hb).
    intros b' Hb'. change (head (encode_type t) = Some b') in Hb'. rewrite E in Hb'. injection Hb' as <-. unfold no_types in Hb. rewrite !not_elem_of_cons in Hb. unfold is_cmod. tauto.
  - apply (sig_generic _ _ (token_number tk) _ (Z.of_nat (length args))); auto. rewrite Nat2Z.id. clear Hn Ha.
    induction IH as [|a args Ha _ IHa]; [apply many_nil|]. by apply many_cons.
Qed.

Lemma param_ok_sig M fuel prm :
  param_ok M fuel prm → param_sig (encode_param prm) ∧ head (encode_param prm) ≠ Some ELEMENT_TYPE_SENTINEL.
Proof.
  destruct prm as [[r p] t]. intros Hok. destruct (encode_head _ _ t Hok) as (b & bs & E & Hb). unfold no_types in Hb.
  rewrite !not_elem_of_cons in Hb. split.
  - exists (if r then [ELEMENT_TYPE_BYREF] else []), (if p then [ELEMENT_TYPE_PTR] else []), (encode_type t).
    split_and!; [by cbn; rewrite <-app_assoc|by destruct r; auto|by destruct p; auto|by eapply type_ok_sig|].
    intros b'. unfold is_cmod. cbn [encode_param]. rewrite E. destruct r, p; cbn; intros [= <-]; split_and!; try done; try tauto; by intros [?|?].
  - cbn [encode_param]. rewrite E. destruct r, p; cbn; try done. intros [= ->]. tauto.
Qed.

(** Where the parameters are, from [c] on. *)
Fixpoint layout (c : nat) (ps : list parameter) : list TypeSignature :=
  match ps with
  | [] => []
  | p :: ps => {| offset := c; length_ := length (encode_param p) |} :: layout (c + length (encode_param p)) ps
  end.

Lemma length_layout c ps : length (layout c ps) = length ps.
Proof. revert c. induction ps as [|p ps IH]; intros c; [done|]. cbn. by rewrite IH. Qed.

Lemma at_cursor_reads pb len c bs : at_cursor pb c bs → (c + length bs ≤ len)%nat → reads pb len c bs.
Proof.
  intros [post H] Hl. split; [done|]. intros i b Hi. rewrite <-lookup_drop, H. by apply lookup_app_l_Some.
Qed.

Lemma layout_spans M fuel pb len c ps :
  (len ≤ length pb)%nat → Forall (param_ok M fuel) ps → at_cursor pb c (concat (encode_param <$> ps)) →
  (c + length (concat (encode_param <$> ps)) ≤ len)%nat →
  param_spans pb len false c (layout c ps) (c + length (concat (encode_param <$> ps))).
Proof.
  intros Hpb Hok. revert c. induction Hok as [|p ps Hp Hok IH]; intros c Hc Hl.
  - rewrite Nat.add_0_r. apply spans_nil.
  - rewrite fmap_cons in *. cbn [concat layout] in *. rewrite length_app in *. apply at_cursor_app in Hc as [Hc1 Hc2].
    destruct (param_ok_sig M fuel p Hp) as [Hs Hh]. rewrite Nat.add_assoc. apply spans_param; [done| |done|].
    + apply at_cursor_reads; [done|lia].
    + apply IH; [done|lia].
Qed.

Lemma append_separated_run name names i result :
  (∀ j s, names !! j = Some s → name (i + j)%nat = Ret s) →
  append_separated name (length names) i result =
    Ret (result ++ match names with [] => [] | _ => (if decide (i ≠ 0)%nat then kParamsSeparator else []) ++ joined names end).
Proof.
  revert i result. induction names as [|s names IH]; intros i result Hn; [cbn; by rewrite app_nil_r|]. cbn [length append_separated].
  pose proof (Hn 0%nat s eq_refl) as H0. rewrite Nat.add_0_r in H0. rewrite H0. cbn [mbind outcome_bind].
  rewrite IH by (intros j s' Hj; specialize (Hn (S j) s' Hj); by rewrite Nat.add_succ_r in Hn). f_equal.
  rewrite (decide_True (P := (S i ≠ 0)%nat)) by done. case_decide; destruct names; cbn [joined]; by rewrite ?app_nil_r, <-?app_assoc, ?app_nil_r.
Qed.

Lemma append_separated_all name names result :
  (∀ j s, names !! j = Some s → name j = Ret s) → append_separated name (length names) 0 result = Ret (result ++ joined names).
Proof. intros Hn. rewrite append_separated_run by done. by destruct names. Qed.

Lemma length_param_array ps : length (param_array ps) = kGenericParamsMaxLen.
Proof. unfold param_array. rewrite length_app, length_take, length_replicate. lia. Qed.

(** ** Chains in metadata *)

(** The tokens looked up on the way to the name of [token]. *)
Definition leads_to (M : IMetaDataImport2) (token token' : Z) : Prop :=
  let t := TypeFromToken token in
  (t = mdtMemberRef ∧ ∃ name len sig, GetMemberRefProps M token = Some (token', name, len, sig)) ∨
  (t = mdtMethodDef ∧ ∃ name len sig, GetMemberProps M token = Some (token', name, len, sig)) ∨
  (t = mdtMethodSpec ∧ ∃ sig, GetMethodSpecProps M token = Some (token', sig)) ∨
  (t = mdtTypeDef ∧ GetNestedClassProps M token = Some token' ∧ token' ≠ mdTokenNil) ∨
  (t = mdtTypeSpec ∧ ∃ sig len, GetTypeSpecFromToken M token = Some (sig, len) ∧
     (CorSigUncompressToken (drop 2 sig) = Err tt ∧ token' = TokenFromRid 0 mdtTypeDef ∨
      ∃ cb, CorSigUncompressToken (drop 2 sig) = Ret (token', cb))).

Lemma CorSigUncompressToken_settles sig : CorSigUncompressToken sig ≠ Fuel.
Proof.
  unfold CorSigUncompressToken, CorSigUncompressData_unchecked, CorSigUncompressData, byte_at.
  destruct (sig !! 0%nat); [|done]. cbn. repeat (case_decide; try done);
    destruct (sig !! 1%nat), (sig !! 2%nat), (sig !! 3%nat); cbn; done.
Qed.

Section Chains.
Context (M : IMetaDataImport2) (rank : Z → nat) (Hrank : ∀ t t', leads_to M t t' → (rank t' < rank t)%nat).

Definition settled {A} (r1 r2 : outcome unit A) : Prop := r1 = r2 ∧ r1 ≠ Fuel.

Lemma settled_bind {A B} (r1 r2 : outcome unit A) (f1 f2 : A → outcome unit B) :
  settled r1 r2 → (∀ a, r1 = Ret a → settled (f1 a) (f2 a)) → settled (r1 ≫= f1) (r2 ≫= f2).
Proof. intros [<- Hr] Hf. destruct r1 as [a|e| |]; try done. by apply Hf. Qed.

Lemma settled_ret {A} (a : A) : settled (mret a) (mret a).
Proof. done. Qed.
Lemma settled_eq {A} (r : outcome unit A) : r ≠ Fuel → settled r r.
Proof. done. Qed.

(** From twice the rank on, the bound does not matter. *)
Lemma info_settled fuel1 :
  (∀ fuel2 t, (2 * rank t < fuel1)%nat → (2 * rank t < fuel2)%nat →
     settled (GetFunctionInfo M fuel1 t) (GetFunctionInfo M fuel2 t)) ∧
  (∀ fuel2 t, (2 * rank t + 1 < fuel1)%nat → (2 * rank t + 1 < fuel2)%nat →
     settled (GetTypeInfo M fuel1 t) (GetTypeInfo M fuel2 t)).
Proof using All.
  induction fuel1 as [|fuel1 [IHf IHt]]; [split; intros; lia|]. split.
  - intros [|fuel2] t H1 H2; [lia|]. cbn [GetFunctionInfo].
    assert (Hfinish : ∀ p name len sig, leads_to M t p → settled
      (if decide (len = 0) then mret no_function
       else type_info ← GetTypeInfo M fuel1 p;
            mret {| FunctionInfo_id := t; FunctionInfo_name := until_nul name; FunctionInfo_type := type_info; method_signature := sig |})
      (if decide (len = 0) then mret no_function
       else type_info ← GetTypeInfo M fuel2 p;
            mret {| FunctionInfo_id := t; FunctionInfo_name := until_nul name; FunctionInfo_type := type_info; method_signature := sig |})).
    { intros p name len sig Hp%Hrank. case_decide; [done|]. apply settled_bind; [apply IHt; lia|]. done. }
    case_decide as Hm.
    { destruct (GetMemberRefProps M t) as [[[[p name] len] sig]|] eqn:E; [|done]. apply Hfinish. left. eauto 6. }
    case_decide as Hd.
    { destruct (GetMemberProps M t) as [[[[p name] len] sig]|] eqn:E; [|done]. apply Hfinish. right; left. eauto 6. }
    case_decide as Hs; [|done].
    destruct (GetMethodSpecProps M t) as [[p sig]|] eqn:E; [|done].
    assert (Hp : leads_to M t p) by (right; right; left; eauto). pose proof (Hrank _ _ Hp).
    apply settled_bind; [apply IHf; lia|]. intros g _. by apply Hfinish.
  - intros [|fuel2] t H1 H2; [lia|]. cbn [GetTypeInfo].
    case_decide as Hd.
    { apply settled_bind.
      - case_decide as Hp; [|done]. destruct (GetNestedClassProps M t) as [p|] eqn:E; [|done]. cbn in Hp |- *.
        assert (leads_to M t p) as Hl%Hrank by (right; right; right; left; eauto).
        unfold fmap, outcome_fmap. apply settled_bind; [apply IHt; lia|]. done.
      - intros parent _. destruct (GetTypeDefProps M t) as [[name len]|]; [|done]. by case_decide. }
    case_decide as Hr.
    { destruct (GetTypeRefProps M t) as [[name len]|]; [|done]. by case_decide. }
    case_decide as Hs.
    { destruct (GetTypeSpecFromToken M t) as [[sig len]|] eqn:E; [|done]. case_decide; [done|].
      apply settled_bind; [apply settled_eq; by destruct sig|]. intros s0 _. case_decide; [|done].
      destruct (CorSigUncompressToken (drop 2 sig)) as [[p cb]|[]| |] eqn:Eu; cbn [mbind outcome_bind fmap outcome_fmap fst mret outcome_ret].
      - assert (leads_to M t p) as Hl%Hrank by (do 4 right; split; [done|]; eauto 8). apply settled_bind; [apply IHt; lia|]. done.
      - assert (leads_to M t (TokenFromRid 0 mdtTypeDef)) as Hl%Hrank by (do 4 right; split; [done|]; eauto 8).
        apply settled_bind; [apply IHt; lia|]. done.
      - done.
      - by apply CorSigUncompressToken_settles in Eu. }
    case_decide; [|done]. unfold fmap, outcome_fmap. apply settled_bind; [apply IHf; lia|]. done.
Qed.
End Chains.

(** ** Names of functions *)

Definition generic_names (M : IMetaDataImport2) (mps : list Z) : list (list Z) :=
  (λ p, from_option until_nul kUnknown (GetGenericParamProps M p)) <$> take kGenericParamsMaxLen mps.

Lemma method_params_parsed M fuel pb len conv counts ret ps type_args :
  Forall (λ b, is_byte b) pb → (len ≤ length pb)%nat → at_cursor pb 0 (conv :: counts ++ ret ++ concat (encode_param <$> ps)) →
  len = length (conv :: counts ++ ret ++ concat (encode_param <$> ps)) →
  counts_sig conv counts type_args (Z.of_nat (length ps)) → ret_sig ret → Forall (param_ok M fuel) ps →
  profiler_TryParse pb len (0%nat, []) = (Ret tt, (len, layout (S (length counts + length ret)) ps)).
Proof.
  intros Hb Hpb Hat Hlen Hc Hr Hok.
  set (s := {| numberOfTypeArguments := type_args; numberOfArguments := Z.of_nat (length ps);
               returnValue := {| offset := S (length counts); length_ := length ret |};
               params := layout (S (length counts + length ret)) ps |}).
  change (conv :: counts ++ ret ++ concat (encode_param <$> ps)) with ((conv :: counts) ++ ret ++ concat (encode_param <$> ps)) in Hat, Hlen.
  rewrite !length_app in Hlen. cbn [length] in Hlen. rewrite app_assoc in Hat.
  destruct (at_cursor_app _ _ _ _ Hat) as [Hat1 Hat2]. rewrite length_app in Hat2. cbn [length] in Hat2.
  assert (Hm : method_sig pb len s len).
  { exists conv, counts, ret. split_and!; [|done|done|done| |].
    - apply at_cursor_reads; [done|]. cbn [length]. rewrite length_app. lia.
    - cbn [params s]. rewrite Hlen at 2.
      replace (S (length counts) + (length ret + length (concat (encode_param <$> ps))))%nat
        with (S (length counts + length ret) + length (concat (encode_param <$> ps)))%nat by lia.
      apply (layout_spans M fuel); [done|done|done|lia].
    - cbn. by rewrite length_layout, Nat2Z.id. }
  apply FunctionMethodSignature_TryParse_run in Hm; [|done|done].
  pose proof (profiler_TryParse_same pb len 0%nat empty_signature) as Hsame. rewrite Hm in Hsame. exact Hsame.
Qed.

Lemma argument_names_run M fuel cps mps pb c ps j s :
  length cps = kGenericParamsMaxLen → length mps = kGenericParamsMaxLen → Forall (param_ok M fuel) ps →
  at_cursor pb c (concat (encode_param <$> ps)) → (render_param M fuel cps mps <$> ps) !! j = Some s →
  (argument ← of_option (E := unit) (layout c ps !! j); GetTypeTokName pb M fuel argument cps mps) = Ret s.
Proof.
  intros Hc Hm Hok. revert c j. induction Hok as [|p ps Hp Hok IH]; intros c j Hat Hj; [done|].
  rewrite fmap_cons in *. cbn [concat layout] in *. apply at_cursor_app in Hat as [H1 H2]. destruct j as [|j].
  - cbn in Hj |- *. injection Hj as <-. by apply param_name_run.
  - cbn [lookup list_lookup] in *. by apply IH.
Qed.

Lemma generic_names_run M mps j s :
  generic_names M mps !! j = Some s →
  (parameter ← of_option (E := unit) (param_array mps !! j);
   mret (match GetGenericParamProps M parameter with None => kUnknown | Some name => until_nul name end)) = Ret s.
Proof.
  unfold generic_names, param_array. rewrite list_lookup_fmap. intros H. apply fmap_Some in H as (p & Hp & ->).
  rewrite lookup_app_l by (by eapply lookup_lt_Some). rewrite Hp. cbn. by destruct (GetGenericParamProps M p).
Qed.

(** ** Properties *)

(** The name given to a parameter is the rendering of its type: the name of every class from
    metadata, the element type of an array followed by brackets, the type arguments between
    brackets, a generic parameter by its name, unknown from the twentieth on, then an ampersand if
    it is passed by reference and a star if it is a pointer, wherever the signature is in memory.
    VOID is no type of that grammar: a void pointer is named by the star alone. *)
Theorem GetTypeTokName_exact M fuel cps mps prm pb c n :
  length cps = kGenericParamsMaxLen → length mps = kGenericParamsMaxLen → param_ok M fuel prm →
  at_cursor pb c (encode_param prm) →
  GetTypeTokName pb M fuel {| offset := c; length_ := n |} cps mps = Ret (render_param M fuel cps mps prm) ∧
  GetTypeTokName [ELEMENT_TYPE_PTR; ELEMENT_TYPE_VOID] M fuel {| offset := 0; length_ := 2 |} cps mps = Ret (WStr "*").
Proof. intros. split; [by apply param_name_run|done]. Qed.

(** The parser of the profiler accepts the signatures the parser of clr_helpers.cpp accepts,
    reads the same bytes and finds the same parameters. *)
Theorem profiler_TryParse_agrees pb len :
  profiler_TryParse pb len (0%nat, []) =
  let '(r, (c', s)) := FunctionMethodSignature_TryParse pb len (0%nat, empty_signature) in (r, (c', params s)).
Proof. apply (profiler_TryParse_same pb len 0%nat empty_signature). Qed.

(** Over metadata in which following parents, enclosing types and the definitions of generic
    types descends, types and functions are looked up in as many steps as twice their rank, and
    more steps change nothing.  A type specification that is an instance of itself is looked up
    forever. *)
Theorem GetTypeInfo_terminates M rank tk k post len :
  (∀ t t', leads_to M t t' → (rank t' < rank t)%nat) →
  (∀ fuel t, (2 * rank t + 1 < fuel)%nat →
     GetTypeInfo M fuel t = GetTypeInfo M (2 * rank t + 2) t ∧ GetTypeInfo M fuel t ≠ Fuel) ∧
  (∀ fuel t, (2 * rank t < fuel)%nat →
     GetFunctionInfo M fuel t = GetFunctionInfo M (2 * rank t + 1) t ∧ GetFunctionInfo M fuel t ≠ Fuel) ∧
  (type_token tk → TypeFromToken tk = mdtTypeSpec → (3 ≤ len)%nat →
   ∀ M', GetTypeSpecFromToken M' tk = Some (ELEMENT_TYPE_GENERICINST :: k :: packed (token_number tk) ++ post, len) →
   ∀ fuel, GetTypeInfo M' fuel tk = Fuel).
Proof.
  intros Hrank. split_and!.
  - intros fuel t Hf. destruct (info_settled M rank Hrank fuel) as [_ H]. apply H; lia.
  - intros fuel t Hf. destruct (info_settled M rank Hrank fuel) as [H _]. apply H; lia.
  - intros Ht Hs Hl M' Hspec fuel. induction fuel as [|fuel IH]; [done|]. cbn [GetTypeInfo]. rewrite Hs.
    rewrite decide_False, decide_False, decide_True by done. rewrite Hspec, decide_False by lia.
    cbn [byte_at lookup list_lookup of_option mbind outcome_bind skipn]. rewrite decide_True by done.
    rewrite drop_0, CorSigUncompressToken_packed by done. cbn [fmap outcome_fmap mbind outcome_bind fst mret outcome_ret]. by rewrite IH.
Qed.

(** A function whose signature is built of the supported types is named by the name of its
    type and its own, the names of its generic parameters, at most twenty, in brackets if there are
    any, and the names of the types of all its parameters in parentheses. *)
Theorem GetFunctionName_exact md fuel f M info cps mps conv counts ret ps type_args :
  is_valid f = true → function_token f ≠ 0 → md (module_id f) = Some M →
  GetFunctionInfo M fuel (function_token f) = Ret info → FunctionInfo_id info ≠ 0 →
  EnumGenericParams M (TypeInfo_id (FunctionInfo_type info)) = Some cps → EnumGenericParams M (function_token f) = Some mps →
  Forall (λ b, is_byte b) (method_signature info).1 → ((method_signature info).2 ≤ length (method_signature info).1)%nat →
  at_cursor (method_signature info).1 0 (conv :: counts ++ ret ++ concat (encode_param <$> ps)) →
  (method_signature info).2 = length (conv :: counts ++ ret ++ concat (encode_param <$> ps)) →
  counts_sig conv counts type_args (Z.of_nat (length ps)) → ret_sig ret → Forall (param_ok M fuel) ps →
  GetFunctionName md fuel f =
    Ret (TypeInfo_name (FunctionInfo_type info) ++ WStr "." ++ FunctionInfo_name info ++
         (if decide (mps = []) then [] else WStr "[" ++ joined (generic_names M mps) ++ WStr "]") ++
         WStr "(" ++ joined (render_param M fuel (param_array cps) (param_array mps) <$> ps) ++ WStr ")").
Proof.
  intros Hv Ht Hmd Hinfo Hid Hcps Hmps Hb Hpb Hat Hlen Hc Hr Hok. unfold GetFunctionName.
  rewrite decide_False by congruence. rewrite decide_False, Hmd, Hinfo by done. cbn [mbind outcome_bind].
  unfold FunctionInfo_IsValid. rewrite bool_decide_true, decide_False by done. rewrite Hcps, Hmps.
  set (base := TypeInfo_name _ ++ name_separator ++ FunctionInfo_name info).
  set (generic := if decide (mps = []) then [] else WStr "[" ++ joined (generic_names M mps) ++ WStr "]").
  match goal with |- (?m ≫= _) = _ => assert (m = Ret (base ++ generic)) as -> end.
  { unfold generic, param_count. destruct mps as [|p mps]; [cbn; by rewrite app_nil_r|]. rewrite decide_True by (simpl; lia).
       rewrite decide_False by done.
       replace (Nat.min kGenericParamsMaxLen (length (p :: mps))) with (length (generic_names M (p :: mps)))
         by (unfold generic_names; by rewrite length_fmap, length_take).
       rewrite append_separated_all by (intros j s; apply generic_names_run). cbn [mbind outcome_bind].
       unfold mret, outcome_ret. by rewrite <-!app_assoc. }
  cbn [mbind outcome_bind]. destruct (method_signature info) as [pb len] eqn:Esig. cbn [fst snd] in *.
  rewrite (method_params_parsed M fuel pb len conv counts ret ps type_args) by done. rewrite length_layout.
  rewrite <-(length_fmap (render_param M fuel (param_array cps) (param_array mps)) ps).
  rewrite append_separated_all.
  2: { intros j s. apply argument_names_run; [apply length_param_array|apply length_param_array|done|].
       rewrite app_comm_cons, app_assoc in Hat. apply at_cursor_app in Hat as [_ Hat]. rewrite length_app in Hat. exact Hat. }
  cbn [mbind outcome_bind]. unfold mret, outcome_ret, base. by rewrite <-!app_assoc.
Qed.

(** ** Instances *)

(** Outer.Inner.Run<T>(ref List<int>, T) *)
Definition example_signature : list Z := [0x10; 1; 2; 1] ++ [0x10; 0x15; 0x12; 0x49; 1; 8] ++ [0x1e; 0].
Definition example_metadata : IMetaDataImport2 := {|
  GetMemberRefProps := λ _, None;
  GetMemberProps := λ t, if decide (t = 0x06000001) then Some (0x02000002, WStr "Run", 4, (example_signature, 12%nat)) else None;
  GetMethodSpecProps := λ _, None;
  GetTypeDefProps := λ t, if decide (t = 0x02000002) then Some (WStr "Inner", 6) else Some (WStr "Outer", 6);
  GetNestedClassProps := λ t, if decide (t = 0x02000002) then Some 0x02000003 else None;
  GetTypeRefProps := λ _, Some (WStr "List`1", 7);
  GetTypeSpecFromToken := λ _, None;
  EnumGenericParams := λ t, Some (if decide (t = 0x06000001) then [0x2a000001] else []);
  GetGenericParamProps := λ _, Some (WStr "T");
|}.
Definition example_params : list parameter :=
  [(true, false, TGeneric ELEMENT_TYPE_CLASS 0x01000012 [TSimple ELEMENT_TYPE_I4]); (false, false, TVar ELEMENT_TYPE_MVAR 0)].

Lemma example_params_ok : Forall (param_ok example_metadata 3) example_params.
Proof.
  apply Forall_cons. split; [|apply Forall_singleton].
  - apply generic_ok; [by left| |simpl; lia|].
    + split; [exists mdtTypeRef, 0x12; split_and!; [right; by left|lia|lia|done]|by eexists].
    + apply Forall_singleton. by eapply simple_ok.
  - apply var_ok; [by right|lia].
Qed.

Lemma GetTypeTokName_exact_witness :
  GetTypeTokName example_signature example_metadata 3 {| offset := 4; length_ := 6 |} (param_array []) (param_array [0x2a000001]) =
    Ret (WStr "List`1[System.Int32]&").
Proof.
  refine (proj1 (GetTypeTokName_exact example_metadata 3 (param_array []) (param_array [0x2a000001])
    (true, false, TGeneric ELEMENT_TYPE_CLASS 0x01000012 [TSimple ELEMENT_TYPE_I4]) example_signature 4 6 _ _ _ _)).
  - reflexivity.
  - reflexivity.
  - exact (proj1 (proj1 (Forall_cons _ _ _) example_params_ok)).
  - exists [0x1e; 0]. reflexivity.
Defined.

Lemma GetTypeInfo_terminates_witness :
  GetTypeInfo example_metadata 10 0x02000002 = GetTypeInfo example_metadata 4 0x02000002 ∧
  GetTypeInfo example_metadata 10 0x02000002 ≠ Fuel.
Proof.
  refine (proj1 (GetTypeInfo_terminates example_metadata
    (λ t, if decide (t = 0x06000001) then 2%nat else if decide (t = 0x02000002) then 1%nat else 0%nat) 0 0 [] 0%nat _) 10%nat 0x02000002 _).
  - intros t t' [(_ & ? & ? & ? & [=])|[(_ & ? & ? & ? & H)|[(_ & ? & [=])|[(_ & H & _)|(_ & ? & ? & [=] & _)]]]]; cbn in H.
    + destruct (decide (t = 0x06000001)) as [->|]; [|discriminate H]. injection H as <-. vm_compute. lia.
    + destruct (decide (t = 0x02000002)) as [->|]; [|discriminate H]. injection H as <-. vm_compute. lia.
  - vm_compute. lia.
Defined.

Lemma GetFunctionName_exact_witness :
  GetFunctionName (λ _, Some example_metadata) 3 {| function_token := 0x06000001; module_id := 7; is_valid := true; native_ip := 0 |} =
  Ret (WStr "Outer.Inner.Run[T](List`1[System.Int32]&, T)").
Proof.
  refine (GetFunctionName_exact (λ _, Some example_metadata) 3
    {| function_token := 0x06000001; module_id := 7; is_valid := true; native_ip := 0 |} example_metadata
    {| FunctionInfo_id := 0x06000001; FunctionInfo_name := WStr "Run";
       FunctionInfo_type := {| TypeInfo_id := 0x02000002; TypeInfo_name := WStr "Outer.Inner" |};
       method_signature := (example_signature, 12%nat) |} [] [0x2a000001] 0x10 [1; 2] [1] example_params 1 _ _ _ _ _ _ _ _ _ _ _ _ _ _).
  - reflexivity.
  - discriminate.
  - reflexivity.
  - vm_compute. reflexivity.
  - discriminate.
  - reflexivity.
  - reflexivity.
  - cbn. repeat (apply Forall_cons; split; [lia|]). apply Forall_nil_2.
  - apply le_n.
  - exists []. reflexivity.
  - reflexivity.
  - exists [1], [2]. repeat split.
  - left. reflexivity.
  - exact example_params_ok.
Defined.
