(* ===== verification/NameCache.v ===== *)
(** * The name cache (NameCache of continuous_profiler.h/.cpp)

    A least-recently-used cache: a list of nodes, most recent first, and a map from keys to list
    iterators.  A node is identified by a number; dereferencing an iterator whose node is not in
    the list is [Stuck].

    The main lemmas: while only keys that are not there are put, the cache is an LRU cache of its
    size ([Get_spec], [Put_spec]); in general it may keep nodes no key leads to, but what is found
    is always a value that was put for the key ([loose], below). *)

From S2P Require Import Prelude SamplesBuffer.

Lemma filter_everything {A} (P : A → Prop) `{∀ x, Decision (P x)} (l : list A) : (∀ x, x ∈ l → P x) → filter P l = l.
Proof.
  induction l as [|x l IH]; intros HP; [done|]. rewrite filter_cons_True by (apply HP; left).
  f_equal. apply IH. intros y Hy. apply HP. by right.
Qed.

(** Looking for the element of a list with a distinct feature, and leaving it out. *)
Lemma find_mid {A B} (f : A → B) (P : A → Prop) `{∀ y, Decision (P y)} (l1 l2 : list A) (x : A) :
  NoDup (f <$> l1 ++ x :: l2) → (∀ y, P y ↔ f y = f x) →
  list_find P (l1 ++ x :: l2) = Some (length l1, x) ∧ filter (λ y, ¬ P y) (l1 ++ x :: l2) = l1 ++ l2.
Proof.
  intros Hnd HP. rewrite fmap_app, fmap_cons in Hnd. apply NoDup_app in Hnd as (Hn1 & Hd & Hn2). apply NoDup_cons in Hn2 as [Hx2 Hn2].
  assert (H1 : ∀ y, y ∈ l1 → ¬ P y).
  { intros y Hy Hp%HP. apply (Hd (f y)); [by apply list_elem_of_fmap_2|]. rewrite Hp. by left. }
  assert (H2 : ∀ y, y ∈ l2 → ¬ P y).
  { intros y Hy Hp%HP. apply Hx2. rewrite <-Hp. by apply list_elem_of_fmap_2. }
  split.
  - apply list_find_Some. split_and!.
    + by apply list_lookup_middle.
    + by apply HP.
    + intros j y Hj Hlt. apply H1. rewrite lookup_app_l in Hj by done. by eapply list_elem_of_lookup_2.
  - rewrite filter_app, filter_cons_False by (intros Hc; by apply Hc, HP).
    f_equal; by apply filter_everything.
Qed.

Lemma NoDup_fmap_inj {A B} (f : A → B) (l : list A) x y : NoDup (f <$> l) → x ∈ l → y ∈ l → f x = f y → x = y.
Proof.
  intros Hnd Hx Hy Hf. apply list_elem_of_lookup in Hx as [i Hi]. apply list_elem_of_lookup in Hy as [j Hj].
  assert (i = j) as ->; [|congruence].
  apply (NoDup_lookup _ i j (f x) Hnd); rewrite list_lookup_fmap; [by rewrite Hi|]. rewrite Hj. by cbn; rewrite Hf.
Qed.

Section NameCache.
Context {TKey TValue : Type} `{Countable TKey}.

Record NameCache := {
  default_value_ : TValue;
  max_size_ : nat;
  list_ : list (nat * (TKey * TValue));
  map_ : gmap TKey nat;
  next_node : nat; (* the identity of the next node allocated *)
}.

Definition NameCache_init (maximum_size : nat) (default_value : TValue) : NameCache :=
  {| default_value_ := default_value; max_size_ := maximum_size; list_ := []; map_ := ∅; next_node := 0 |}.

Definition with_list (c : NameCache) (l : list (nat * (TKey * TValue))) (m : gmap TKey nat) (n : nat) : NameCache :=
  {| default_value_ := default_value_ c; max_size_ := max_size_ c; list_ := l; map_ := m; next_node := n |}.

Definition node_is (id : nat) (n : nat * (TKey * TValue)) : Prop := n.1 = id.
#[global] Instance node_is_dec id n : Decision (node_is id n) := decide (n.1 = id).

Definition Get (key : TKey) (c : NameCache) : outcome unit (TValue * NameCache) :=
  match map_ c !! key with
  | None => mret (default_value_ c, c)
  | Some id =>
      match list_find (node_is id) (list_ c) with
      | None => Stuck
      | Some (_, node) =>
          (* list_.splice(list_.begin(), list_, found->second) *)
          mret (node.2.2, with_list c (node :: filter (λ n, ¬ node_is id n) (list_ c)) (map_ c) (next_node c))
      end
  end.

Definition Put (key : TKey) (val : TValue) (c : NameCache) : TValue * NameCache :=
  let l := (next_node c, (key, val)) :: list_ c in
  let m := <[key := next_node c]> (map_ c) in
  if decide (max_size_ c < size m)%nat then
    match last l with
    | Some lru => (lru.2.2, with_list c (removelast l) (delete lru.2.1 m) (S (next_node c)))
    | None => (default_value_ c, with_list c l m (S (next_node c))) (* the list is not empty *)
    end
  else (default_value_ c, with_list c l m (S (next_node c))).

Definition Clear (c : NameCache) : NameCache := with_list c [] ∅ (next_node c).

(** ** The cache as an LRU list *)

(** The entries, most recent first. *)
Definition entries (c : NameCache) : list (TKey * TValue) := snd <$> list_ c.

Definition lru_get (key : TKey) (l : list (TKey * TValue)) : option (TValue * list (TKey * TValue)) :=
  '(_, e) ← list_find (λ e, e.1 = key) l;
  Some (e.2, e :: filter (λ e, e.1 ≠ key) l).

(** The entry dropped, if any, and the list. *)
Definition lru_put (capacity : nat) (key : TKey) (val : TValue) (l : list (TKey * TValue)) : option TValue * list (TKey * TValue) :=
  let l := (key, val) :: l in
  if decide (capacity < length l)%nat then (snd <$> last l, removelast l) else (None, l).

(** Nodes and keys are distinct, and the map leads from each key to its node. *)
Record cache_ok (c : NameCache) : Prop := {
  ok_nodes : NoDup (list_ c).*1;
  ok_fresh : ∀ id e, (id, e) ∈ list_ c → (id < next_node c)%nat;
  ok_keys : NoDup (entries c).*1;
  ok_map : ∀ k id, map_ c !! k = Some id ↔ ∃ v, (id, (k, v)) ∈ list_ c;
  ok_size : (length (list_ c) ≤ max_size_ c)%nat;
  ok_max : (0 < max_size_ c)%nat;
}.

Lemma cache_ok_init n d : (0 < n)%nat → cache_ok (NameCache_init n d).
Proof.
  intros Hn. split; simpl; try done; try lia; try constructor.
  - by intros id e ?%elem_of_nil.
  - by intros ?%lookup_empty_Some.
  - by intros (v & ?%elem_of_nil).
Qed.

Lemma key_unique c id1 id2 k v1 v2 :
  cache_ok c → (id1, (k, v1)) ∈ list_ c → (id2, (k, v2)) ∈ list_ c → id1 = id2 ∧ v1 = v2.
Proof.
  intros Hok H1 H2. pose proof (ok_keys c Hok) as Hnd. unfold entries in Hnd. rewrite <-list_fmap_compose in Hnd.
  pose proof (NoDup_fmap_inj _ _ _ _ Hnd H1 H2 eq_refl) as E. by injection E.
Qed.

Lemma size_map c : cache_ok c → size (map_ c) = length (list_ c).
Proof.
  intros Hok. rewrite <-size_dom. replace (length (list_ c)) with (length (entries c).*1) by (unfold entries; by rewrite !length_fmap).
  rewrite <-(size_list_to_set (C := gset TKey)) by apply (ok_keys c Hok). f_equal. apply set_eq. intros k.
  rewrite elem_of_dom, elem_of_list_to_set. unfold entries. rewrite <-list_fmap_compose, list_elem_of_fmap. split.
  - intros [id Hid]. apply (ok_map c Hok) in Hid as [v Hv]. by exists (id, (k, v)).
  - intros ([id [k' v]] & -> & Hin). exists id. apply (ok_map c Hok). by exists v.
Qed.

(** Moving a node to the front. *)
Lemma Get_spec key c :
  cache_ok c →
  (map_ c !! key = None ∧ lru_get key (entries c) = None ∧ Get key c = Ret (default_value_ c, c)) ∨
  ∃ v c', Get key c = Ret (v, c') ∧ (key, v) ∈ entries c ∧ cache_ok c' ∧ entries c' ≡ₚ entries c ∧
    lru_get key (entries c) = Some (v, entries c') ∧ default_value_ c' = default_value_ c ∧ max_size_ c' = max_size_ c.
Proof.
  intros Hok. unfold Get. destruct (map_ c !! key) as [id|] eqn:Em.
  2: { left. split_and!; [done| |done]. unfold lru_get. destruct (list_find _ _) as [[i e]|] eqn:Ef; [|done].
       apply list_find_Some in Ef as (Hi & <- & _). apply list_elem_of_lookup_2 in Hi. unfold entries in Hi.
       apply list_elem_of_fmap in Hi as ([id [k v]] & -> & Hin). simpl in Em.
       assert (map_ c !! k = Some id) by (apply (ok_map c Hok); by exists v). congruence. }
  right. apply (ok_map c Hok) in Em as [v Hin].
  apply list_elem_of_split in Hin as (l1 & l2 & Hl). pose proof (ok_nodes c Hok) as Hn. rewrite Hl in Hn.
  destruct (find_mid fst (node_is id) l1 l2 (id, (key, v)) Hn) as [Hfind Hfilter]; [by intros [? ?]|].
  rewrite Hl, Hfind, Hfilter. cbn [mbind outcome_bind fst snd].
  set (c' := with_list c ((id, (key, v)) :: l1 ++ l2) (map_ c) (next_node c)).
  assert (Hperm : list_ c' ≡ₚ list_ c) by (unfold c'; rewrite Hl; apply Permutation_middle).
  exists v, c'. split_and!; [done| | | | |done|done].
  - unfold entries. rewrite Hl. apply list_elem_of_fmap. exists (id, (key, v)). split; [done|]. set_solver +.
  - destruct Hok as [H1 H2 H3 H4 H5 H6]. split.
    + by rewrite Hperm.
    + intros i e. rewrite Hperm. apply H2.
    + unfold entries. rewrite Hperm. apply H3.
    + intros k i. change (map_ c') with (map_ c). rewrite (H4 k i). by setoid_rewrite Hperm.
    + by rewrite Hperm.
    + done.
  - unfold entries. by rewrite Hperm.
  - unfold lru_get. pose proof (ok_keys c Hok) as Hk. unfold c', entries in *. cbn [list_ with_list fmap list_fmap].
    rewrite Hl, fmap_app, fmap_cons in Hk |- *. rewrite fmap_app. cbn [snd] in *.
    destruct (find_mid fst (λ e, e.1 = key) (snd <$> l1) (snd <$> l2) (key, v) Hk) as [-> ->]; [done|]. done.
Qed.

(** Adding a key that is not there, without and with an eviction. *)
Lemma Put_spec key val c :
  cache_ok c → map_ c !! key = None →
  let '(v, c') := Put key val c in
  cache_ok c' ∧ default_value_ c' = default_value_ c ∧ max_size_ c' = max_size_ c ∧
  (default (default_value_ c) (lru_put (max_size_ c) key val (entries c)).1, entries c') =
    (v, (lru_put (max_size_ c) key val (entries c)).2) ∧
  ((entries c' = (key, val) :: entries c ∧ v = default_value_ c) ∨
   ∃ k, (key, val) :: entries c = entries c' ++ [(k, v)] ∧ (k, v) ∈ entries c).
Proof.
  intros Hok Hnone. destruct Hok as [H1 H2 H3 H4 H5 H6] eqn:E. clear E.
  pose proof (size_map c Hok) as Hsize. unfold Put, lru_put, entries.
  assert (Hs : size (<[key := next_node c]> (map_ c)) = S (length (list_ c))) by (rewrite map_size_insert_None by done; by rewrite Hsize).
  assert (Hkey : key ∉ (entries c).*1).
  { unfold entries. rewrite <-list_fmap_compose, list_elem_of_fmap. intros ([id [k v]] & Hk & Hin). cbn in Hk. subst k.
    assert (map_ c !! key = Some id) by (apply H4; by exists v). congruence. }
  set (l := (next_node c, (key, val)) :: list_ c).
  assert (Hl1 : NoDup l.*1).
  { apply NoDup_cons. split; [|done]. intros ([id e] & Hid & Hin)%list_elem_of_fmap. cbn in Hid. subst id.
    apply H2 in Hin. lia. }
  assert (Hl3 : NoDup (snd <$> l).*1) by (apply NoDup_cons; by split).
  assert (Hmap : ∀ k id, <[key := next_node c]> (map_ c) !! k = Some id ↔ ∃ v, (id, (k, v)) ∈ l).
  { intros k id. destruct (decide (key = k)) as [<-|Hne].
    - rewrite lookup_insert_eq. split; [intros [= <-]; exists val; by left|]. intros (v & [Hv|Hv]%elem_of_cons); [congruence|].
      assert (map_ c !! key = Some id) by (apply H4; by exists v). congruence.
    - rewrite lookup_insert_ne, H4 by done. split; intros [v Hv]; exists v; [by right|].
      apply elem_of_cons in Hv as [Hv|Hv]; [congruence|done]. }
  assert (Hfresh : ∀ id e, (id, e) ∈ l → (id < S (next_node c))%nat).
  { intros id e [Hv|Hv]%elem_of_cons; [by injection Hv as -> _; lia|]. apply H2 in Hv. lia. }
  cbn [length]. rewrite length_fmap. destruct (decide (max_size_ c < size (<[key:=next_node c]> (map_ c)))%nat) as [Hfull|Hfit].
  2: { rewrite decide_False by lia. cbn. split_and!; try done; [|by left]. split; try done; cbn; lia. }
  rewrite decide_True by lia.
  destruct (exists_last (l := list_ c)) as (front & [id [k v]] & Hlist); [intros Hnil; rewrite Hnil in *; simpl in *; lia|].
  assert (Hl : l = ((next_node c, (key, val)) :: front) ++ [(id, (k, v))]) by (unfold l; by rewrite Hlist).
  assert (Hle : (key, val) :: (snd <$> list_ c) = ((key, val) :: (snd <$> front)) ++ [(k, v)]) by (by rewrite Hlist, fmap_app).
  rewrite Hl, last_snoc, removelast_last, Hle, last_snoc, removelast_last.
  assert (Hin : (k, v) ∈ snd <$> list_ c) by (rewrite Hlist, fmap_app; set_solver +).
  cbn [fst snd fmap option_fmap option_map default]. split_and!; try done.
  2: { right. exists k. split; [done|exact Hin]. }
  split; cbn [list_ map_ max_size_ next_node with_list entries].
  - rewrite Hl, fmap_app in Hl1. apply NoDup_app in Hl1. apply Hl1.
  - intros i e Hi. apply (Hfresh i e). rewrite Hl. apply elem_of_app. by left.
  - unfold entries. cbn [list_ with_list]. rewrite Hl, !fmap_app in Hl3. apply NoDup_app in Hl3. apply Hl3.
  - intros k' i. rewrite lookup_delete_Some, Hmap, Hl. split.
    + intros (Hne & v' & [Hv|Hv]%elem_of_app); [by exists v'|]. apply list_elem_of_singleton in Hv. congruence.
    + intros [v' Hv']. split; [|exists v'; apply elem_of_app; by left].
      intros <-. rewrite Hl, !fmap_app in Hl3. apply NoDup_app in Hl3 as (_ & Hd & _). apply (Hd k).
      * apply list_elem_of_fmap. exists (k, v'). split; [done|]. apply list_elem_of_fmap. by exists (i, (k, v')).
      * cbn. set_solver +.
  - rewrite Hlist, length_app in H5. simpl in *. lia.
  - done.
Qed.
(** ** Any use

    A key may be put again while it is there: its old node stays in the list without a key. *)
Record loose (P : TKey → TValue → Prop) (c : NameCache) : Prop := {
  loose_nodes : NoDup (list_ c).*1;
  loose_fresh : ∀ id e, (id, e) ∈ list_ c → (id < next_node c)%nat;
  loose_map : ∀ k id, map_ c !! k = Some id → ∃ v, (id, (k, v)) ∈ list_ c;
  loose_values : ∀ id k v, (id, (k, v)) ∈ list_ c → P k v;
}.

Lemma loose_init P n d : loose P (NameCache_init n d).
Proof. split; cbn; [apply NoDup_nil_2|by intros ? ? ?%elem_of_nil|done|by intros ? ? ? ?%elem_of_nil]. Qed.

Lemma loose_clear P c : loose P c → loose P (Clear c).
Proof. intros _. split; cbn; [apply NoDup_nil_2|by intros ? ? ?%elem_of_nil|done|by intros ? ? ? ?%elem_of_nil]. Qed.

Lemma Get_loose P key c :
  loose P c →
  ∃ v c', Get key c = Ret (v, c') ∧ loose P c' ∧ (P key v ∨ v = default_value_ c) ∧ list_ c' ≡ₚ list_ c ∧
    map_ c' = map_ c ∧ default_value_ c' = default_value_ c ∧ max_size_ c' = max_size_ c.
Proof.
  intros Hok. unfold Get. destruct (map_ c !! key) as [id|] eqn:Em; [|exists (default_value_ c), c; split_and!; auto].
  destruct (loose_map P c Hok _ _ Em) as [v Hin]. pose proof (loose_values P c Hok _ _ _ Hin) as HP.
  apply list_elem_of_split in Hin as (l1 & l2 & Hl). pose proof (loose_nodes P c Hok) as Hn. rewrite Hl in Hn.
  destruct (find_mid fst (node_is id) l1 l2 (id, (key, v)) Hn) as [Hfind Hfilter]; [by intros [? ?]|].
  rewrite Hl, Hfind, Hfilter. set (c' := with_list c ((id, (key, v)) :: l1 ++ l2) (map_ c) (next_node c)).
  assert (Hperm : list_ c' ≡ₚ list_ c) by (unfold c'; rewrite Hl; apply Permutation_middle).
  exists v, c'. rewrite <-Hl. split_and!; try done; [|by left]. destruct Hok as [H1 H2 H3 H4]. split.
  - by rewrite Hperm.
  - intros i e. rewrite Hperm. apply H2.
  - intros k i Hi. destruct (H3 k i Hi) as [v' Hv']. exists v'. by rewrite Hperm.
  - intros i k v'. rewrite Hperm. apply H4.
Qed.

Lemma Put_loose P key val c : loose P c → P key val → loose P (Put key val c).2.
Proof.
  intros [H1 H2 H3 H4] HP.
  assert (Hadd : loose P (with_list c ((next_node c, (key, val)) :: list_ c) (<[key := next_node c]> (map_ c)) (S (next_node c)))).
  { split; cbn.
    - apply NoDup_cons. split; [|done]. intros ([id e] & Hid & Hin)%list_elem_of_fmap. cbn in Hid. subst id. apply H2 in Hin. lia.
    - intros id e [Hv|Hv]%elem_of_cons; [injection Hv as -> _; lia|]. apply H2 in Hv. lia.
    - intros k id. destruct (decide (key = k)) as [<-|Hne].
      + rewrite lookup_insert_eq. intros [= <-]. exists val. by left.
      + rewrite lookup_insert_ne by done. intros [v Hv]%H3. exists v. by right.
    - intros id k v [Hv|Hv]%elem_of_cons; [by injection Hv as -> -> ->|by eapply H4]. }
  unfold Put. case_decide; [|done]. destruct Hadd as [A1 A2 A3 A4]. cbn [with_list list_ map_ next_node] in *.
  destruct (exists_last (l := (next_node c, (key, val)) :: list_ c)) as (front & [id [k v]] & Hl); [done|]. rewrite Hl in *.
  rewrite last_snoc, removelast_last. split; cbn.
  - rewrite fmap_app in A1. apply NoDup_app in A1. apply A1.
  - intros i e Hi. apply (A2 i e). apply elem_of_app. by left.
  - intros k' i (Hne & [v' Hv]%A3)%lookup_delete_Some. exists v'. apply elem_of_app in Hv as [Hv|Hv]; [done|].
    apply list_elem_of_singleton in Hv. congruence.
  - intros i k' v' Hv. apply (A4 i). apply elem_of_app. by left.
Qed.
End NameCache.
Arguments NameCache : clear implicits.
Arguments NameCache TKey TValue {_ _}.
