(* ===== verification/NamingHelper.v ===== *)
(** * NamingHelper (continuous_profiler.h/.cpp): the names of frames

    [Lookup] keeps names in a cache of pointers to strings it owns; the heap of names is part of
    the state, so that deleting or reading a name that is not in it is [Stuck].
    [LookupManagedFunction] keeps the identity of functions in a second cache.

    The main results: looking names up returns the name of every frame, never reads or frees a
    name that was freed, keeps exactly the names of the most recent functions and misses exactly
    when a function is not among them; functions are identified as the runtime identifies them,
    but a function the runtime cannot identify leaves a node in the cache at every lookup. *)

From S2P Require Import SamplesBuffer Prelude NameCache TypeNames.

Section NamingHelper.
(** GetFunctionInfo2: the module and the token of a function. *)
Context (GetFunctionInfo2 : Z → option (Z * Z)).

Section Names.
(** The profiling interface and, if there is a stack walker, its resolver of symbols ([None]:
    not S_OK). *)
Context (GetModuleMetaData : Z → option IMetaDataImport2) (type_fuel : nat).
Context (stackWalker_ : option (Z → option (list Z))).

Definition IsNative (f : FunctionIdentifier) : bool :=
  bool_decide (is_valid f = true ∧ function_token f = 0 ∧ native_ip f ≠ 0).
Definition FunctionIdentifier_Managed (token mod_ : Z) (valid : bool) : FunctionIdentifier :=
  {| function_token := token; module_id := mod_; is_valid := valid; native_ip := 0 |}.
Definition ManagedInvalid : FunctionIdentifier := {| function_token := 0; module_id := 0; is_valid := false; native_ip := 0 |}.
Definition DefaultFunctionIdentifier : FunctionIdentifier :=
  {| function_token := 0; module_id := 0; is_valid := false; native_ip := 0 |}.

Record NamingHelper := {
  function_name_cache_ : NameCache FunctionIdentifier (option nat); (* None is nullptr *)
  function_identifier_cache_ : NameCache Z FunctionIdentifier;
  names : gmap nat (list Z); (* the strings allocated by Lookup *)
  next_name : nat;
}.

Definition kMaxFunctionNameCacheSize : nat := 5000.
Definition kVolatileFunctionIdentifierCacheSize : nat := 2000.

(** The sizes of the caches are arguments, for the instances below. *)
Definition NamingHelper_sized (name_cache_size identifier_cache_size : nat) : NamingHelper :=
  {| function_name_cache_ := NameCache_init name_cache_size None;
     function_identifier_cache_ := NameCache_init identifier_cache_size DefaultFunctionIdentifier;
     names := ∅; next_name := 0 |}.
Definition NamingHelper_init : NamingHelper :=
  NamingHelper_sized kMaxFunctionNameCacheSize kVolatileFunctionIdentifierCacheSize.

Definition ClearFunctionIdentifierCache (h : NamingHelper) : NamingHelper :=
  {| function_name_cache_ := function_name_cache_ h; function_identifier_cache_ := Clear (function_identifier_cache_ h);
     names := names h; next_name := next_name h |}.

Definition ResolveManagedFunctionIdentifier (func_id : Z) : FunctionIdentifier :=
  if decide (func_id = 0) then {| function_token := 0; module_id := 0; is_valid := true; native_ip := 0 |}
  else
    match GetFunctionInfo2 func_id with
    | None => ManagedInvalid
    | Some (module_id, function_token) => FunctionIdentifier_Managed function_token module_id true
    end.

Definition delete_name (p : option nat) (heap : gmap nat (list Z)) : outcome unit (gmap nat (list Z)) :=
  match p with
  | None => mret heap
  | Some p => match heap !! p with Some _ => mret (delete p heap) | None => Stuck end
  end.

Definition count_miss (stats : SamplingStatistics) : SamplingStatistics :=
  {| micros_suspended := micros_suspended stats; num_threads := num_threads stats; total_frames := total_frames stats;
     name_cache_misses := name_cache_misses stats + 1 |}.

(** The text a miss puts into the new string. *)
Definition resolve_name (f : FunctionIdentifier) : outcome unit (list Z) :=
  match stackWalker_ with
  | Some ResolveNativeSymbolName =>
      if IsNative f then
        match ResolveNativeSymbolName (native_ip f) with
        | Some name => mret name
        | None => mret unknown_native_function_name
        end
      else GetFunctionName GetModuleMetaData type_fuel f
  | None => GetFunctionName GetModuleMetaData type_fuel f
  end.

Definition Lookup (function_identifier : FunctionIdentifier) (h : NamingHelper) (stats : SamplingStatistics) :
    outcome unit (nat * NamingHelper * SamplingStatistics) :=
  '(answer, cache) ← Get function_identifier (function_name_cache_ h);
  match answer with
  | Some p =>
      mret (p, {| function_name_cache_ := cache; function_identifier_cache_ := function_identifier_cache_ h;
                  names := names h; next_name := next_name h |}, stats)
  | None =>
      let stats := count_miss stats in
      owned ← resolve_name function_identifier;
      let raw := next_name h in
      let heap := <[raw := owned]> (names h) in
      let '(evicted, cache) := Put function_identifier (Some raw) cache in
      heap ← delete_name evicted heap;
      mret (raw, {| function_name_cache_ := cache; function_identifier_cache_ := function_identifier_cache_ h;
                    names := heap; next_name := S raw |}, stats)
  end.

Definition LookupManagedFunction (functionId : Z) (h : NamingHelper) : outcome unit (FunctionIdentifier * NamingHelper) :=
  '(cachedIdentifier, cache) ← Get functionId (function_identifier_cache_ h);
  let with_cache cache :=
    {| function_name_cache_ := function_name_cache_ h; function_identifier_cache_ := cache;
       names := names h; next_name := next_name h |} in
  if is_valid cachedIdentifier then mret (cachedIdentifier, with_cache cache)
  else
    let resolvedIdentifier := ResolveManagedFunctionIdentifier functionId in
    mret (resolvedIdentifier, with_cache (Put functionId resolvedIdentifier cache).2).

(** ResolveFrames: every name is read as soon as it is looked up. *)
Fixpoint lookup_names (threadStack : list FunctionIdentifier) (h : NamingHelper) (stats : SamplingStatistics) :
    outcome unit (list (list Z) * NamingHelper * SamplingStatistics) :=
  match threadStack with
  | [] => mret ([], h, stats)
  | functionIdentifier :: threadStack =>
      '(p, h, stats) ← Lookup functionIdentifier h stats;
      name ← of_option (names h !! p);
      '(rest, h, stats) ← lookup_names threadStack h stats;
      mret (name :: rest, h, stats)
  end.

(** RecordManagedFrame for the frames of a stack. *)
Fixpoint lookup_functions (ids : list Z) (h : NamingHelper) : outcome unit (list FunctionIdentifier * NamingHelper) :=
  match ids with
  | [] => mret ([], h)
  | id :: ids =>
      '(f, h) ← LookupManagedFunction id h;
      '(rest, h) ← lookup_functions ids h;
      mret (f :: rest, h)
  end.

(** ** The specification *)

(** The functions most recently looked up, [n] at most. *)
Definition touch (n : nat) (f : FunctionIdentifier) (recent : list FunctionIdentifier) : list FunctionIdentifier :=
  take n (f :: filter (λ g, g ≠ f) recent).

Fixpoint misses (n : nat) (recent : list FunctionIdentifier) (fs : list FunctionIdentifier) : Z :=
  match fs with
  | [] => 0
  | f :: fs => (if decide (f ∈ recent) then 0 else 1) + misses n (touch n f recent) fs
  end.

Definition recent_after (n : nat) (recent fs : list FunctionIdentifier) : list FunctionIdentifier :=
  foldl (λ recent f, touch n f recent) recent fs.

Context (name_of : FunctionIdentifier → list Z).

(** The cache owns exactly the names in the heap, each under the function it is the name of. *)
Record names_ok (h : NamingHelper) : Prop := {
  names_cache : cache_ok (function_name_cache_ h);
  names_default : default_value_ (function_name_cache_ h) = None;
  names_owned : ∃ owned : list (FunctionIdentifier * nat),
    entries (function_name_cache_ h) = (λ e, (e.1, Some e.2)) <$> owned ∧ NoDup owned.*2 ∧
    (∀ f p, (f, p) ∈ owned → (p < next_name h)%nat) ∧
    names h = list_to_map ((λ e, (e.2, name_of e.1)) <$> owned);
}.

Definition recent (h : NamingHelper) : list FunctionIdentifier := (entries (function_name_cache_ h)).*1.
Definition capacity (h : NamingHelper) : nat := max_size_ (function_name_cache_ h).

Lemma lru_put_take n f v (l : list (FunctionIdentifier * option nat)) : (length l ≤ n)%nat → (lru_put n f v l).2 = take n ((f, v) :: l).
Proof.
  intros Hl. unfold lru_put. cbn [length]. case_decide; cbn [snd]; [|by rewrite take_ge by (simpl; lia)].
  rewrite removelast_firstn_len. f_equal. simpl. lia.
Qed.

Lemma length_entries (c : NameCache FunctionIdentifier (option nat)) : length (entries c) = length (list_ c).
Proof. unfold entries. by rewrite length_fmap. Qed.

(** The heap does not depend on the order of the entries. *)
Definition heap_of (owned : list (FunctionIdentifier * nat)) : gmap nat (list Z) :=
  list_to_map ((λ e, (e.2, name_of e.1)) <$> owned).

Lemma heap_keys (owned : list (FunctionIdentifier * nat)) : ((λ e, (e.2, name_of e.1)) <$> owned).*1 = owned.*2.
Proof. rewrite <-list_fmap_compose. done. Qed.

Lemma heap_of_perm o1 o2 : o1 ≡ₚ o2 → NoDup o1.*2 → heap_of o1 = heap_of o2.
Proof. intros Hp Hn. unfold heap_of. apply list_to_map_proper; [by rewrite heap_keys|by rewrite Hp]. Qed.

Lemma heap_of_lookup owned f p : NoDup owned.*2 → (f, p) ∈ owned → heap_of owned !! p = Some (name_of f).
Proof.
  intros Hn Hin. unfold heap_of. apply elem_of_list_to_map; [by rewrite heap_keys|].
  apply list_elem_of_fmap. by exists (f, p).
Qed.

Lemma heap_of_evict owned f p : NoDup (owned ++ [(f, p)]).*2 → delete p (heap_of (owned ++ [(f, p)])) = heap_of owned.
Proof.
  intros Hn. unfold heap_of. rewrite fmap_app in Hn. rewrite fmap_app. apply NoDup_app in Hn as (_ & Hd & _). cbn.
  assert (Hp : p ∉ ((λ e, (e.2, name_of e.1)) <$> owned).*1) by (rewrite heap_keys; intros Hin; apply (Hd p Hin); by left).
  rewrite list_to_map_snoc by done. rewrite delete_insert_id; [done|]. by apply not_elem_of_list_to_map.
Qed.

Lemma filter_keys f (l : list (FunctionIdentifier * option nat)) :
  (filter (λ e, e.1 ≠ f) l).*1 = filter (λ g, g ≠ f) l.*1.
Proof.
  induction l as [|e l IH]; [done|]. rewrite fmap_cons. destruct (decide (e.1 = f)) as [E|E].
  - rewrite !filter_cons_False by tauto. apply IH.
  - rewrite !filter_cons_True by done. by rewrite fmap_cons, IH.
Qed.

(** A hit moves the entry to the front. *)
Lemma Lookup_hit f h stats v cache :
  names_ok h → Get f (function_name_cache_ h) = Ret (v, cache) → (f, v) ∈ entries (function_name_cache_ h) →
  cache_ok cache → entries cache ≡ₚ entries (function_name_cache_ h) →
  lru_get f (entries (function_name_cache_ h)) = Some (v, entries cache) →
  default_value_ cache = default_value_ (function_name_cache_ h) → max_size_ cache = max_size_ (function_name_cache_ h) →
  ∃ p h', Lookup f h stats = Ret (p, h', stats) ∧ names h' !! p = Some (name_of f) ∧ names_ok h' ∧
    recent h' = touch (capacity h) f (recent h) ∧ f ∈ recent h ∧ capacity h' = capacity h.
Proof.
  intros [Hc Hd (owned & He & Hn & Hf & Hheap)] Hget Hin Hok Hperm Hlru Hdef Hmax.
  rewrite He in Hin. apply list_elem_of_fmap in Hin as ([f' p] & [= <- ->] & Hown).
  unfold Lookup. rewrite Hget. cbn [mbind outcome_bind].
  eexists p, _. split; [done|]. cbn [names]. split; [rewrite Hheap; by apply heap_of_lookup|]. split; [|split; [|split; [|done]]].
  - split; cbn [function_name_cache_ names next_name]; [done|by rewrite Hdef|].
    pose proof Hperm as Hperm'. rewrite He in Hperm'. apply Permutation_map_inv in Hperm' as (owned' & E & Ho).
    exists owned'. split_and!; [done|by rewrite <-Ho| |].
    + intros g q Hg. apply (Hf g). by rewrite Ho.
    + rewrite Hheap. by apply heap_of_perm.
  - unfold recent, touch, capacity. cbn [function_name_cache_]. unfold lru_get in Hlru.
    destruct (list_find _ _) as [[i e]|] eqn:Efind; [|done]. injection Hlru as Hv Hent.
    apply list_find_Some in Efind as (_ & Hkey & _). rewrite <-Hent, <-filter_keys, <-Hkey, <-fmap_cons, Hkey, Hent, take_ge; [done|].
    rewrite length_fmap, length_entries, <-Hmax. apply (ok_size cache Hok).
  - unfold recent. rewrite He, <-list_fmap_compose. apply list_elem_of_fmap. by exists (f, p).
Qed.

(** A miss adds the entry, at the cost of the oldest if the cache is full. *)
Lemma Lookup_miss f h stats :
  names_ok h → resolve_name f = Ret (name_of f) → Get f (function_name_cache_ h) = Ret (None, function_name_cache_ h) →
  map_ (function_name_cache_ h) !! f = None → f ∉ recent h →
  ∃ p h', Lookup f h stats = Ret (p, h', count_miss stats) ∧ names h' !! p = Some (name_of f) ∧ names_ok h' ∧
    recent h' = touch (capacity h) f (recent h) ∧ capacity h' = capacity h.
Proof.
  intros [Hc Hd (owned & He & Hn & Hf & Hheap)] Hres Hget Hnone Hnew. set (raw := next_name h).
  unfold Lookup. rewrite Hget. cbn [mbind outcome_bind]. rewrite Hres. cbn [mbind outcome_bind]. fold raw.
  pose proof (Put_spec f (Some raw) (function_name_cache_ h) Hc Hnone) as Hput.
  destruct (Put f (Some raw) (function_name_cache_ h)) as [v cache]. destruct Hput as (Hok & Hdef & Hmax & Hlru & Hcase).
  injection Hlru as _ Hent. rewrite lru_put_take in Hent by (rewrite length_entries; apply (ok_size _ Hc)).
  set (owned1 := (f, raw) :: owned).
  assert (Hn1 : NoDup owned1.*2).
  { apply NoDup_cons. split; [|done]. intros ([g q] & Hq & Hg)%list_elem_of_fmap. cbn in Hq. subst q. apply Hf in Hg. unfold raw in Hg. lia. }
  assert (Hf1 : ∀ g q, (g, q) ∈ owned1 → (q < S raw)%nat).
  { intros g q [Hq|Hq]%elem_of_cons; [injection Hq as -> ->; lia|]. apply Hf in Hq. unfold raw. lia. }
  assert (Hheap1 : <[raw := name_of f]> (names h) = heap_of owned1) by (rewrite Hheap; done).
  assert (He1 : (f, Some raw) :: entries (function_name_cache_ h) = (λ e, (e.1, Some e.2)) <$> owned1) by (by rewrite He).
  assert (Hrecent : (entries cache).*1 = touch (capacity h) f (recent h)).
  { rewrite Hent, fmap_take, fmap_cons. unfold touch, capacity, recent. do 2 f_equal. symmetry. apply filter_everything.
    intros g Hg ->. by apply Hnew. }
  rewrite Hheap1. destruct Hcase as [[E ->]|(k & E & Hin)].
  - rewrite Hd. cbn [delete_name mbind outcome_bind mret outcome_ret]. eexists raw, _. split; [done|]. cbn [names].
    split; [apply heap_of_lookup; [done|by left]|]. split; [|split; [done|done]].
    split; cbn [function_name_cache_ names next_name]; [done|by rewrite Hdef|]. exists owned1. by rewrite E, He1.
  - rewrite He1 in E.
    assert (∃ owned2 q, owned1 = owned2 ++ [(k, q)] ∧ v = Some q ∧ entries cache = (λ e, (e.1, Some e.2)) <$> owned2) as (owned2 & q & Ho & -> & E2).
    { destruct (exists_last (l := owned1)) as (owned2 & [k' q] & Ho); [done|]. exists owned2, q.
      rewrite Ho, fmap_app in E. cbn in E. apply app_inj_tail in E as [<- [= <- <-]]. by rewrite Ho. }
    assert (Hq : heap_of owned1 !! q = Some (name_of k)) by (apply heap_of_lookup; [done|rewrite Ho; apply elem_of_app; right; by left]).
    cbn [delete_name]. rewrite Hq. cbn [mbind outcome_bind mret outcome_ret]. rewrite Ho, heap_of_evict by (by rewrite <-Ho).
    rewrite Ho, fmap_app in Hn1. apply NoDup_app in Hn1 as (Hn2 & Hd2 & _).
    assert (Hin2 : (f, raw) ∈ owned2).
    { assert (Hr : (f, raw) ∈ owned2 ++ [(k, q)]) by (rewrite <-Ho; by left).
      apply elem_of_app in Hr as [Hr|Hr]; [done|]. apply list_elem_of_singleton in Hr as [= <- <-]. exfalso.
      rewrite He in Hin. apply list_elem_of_fmap in Hin as ([g p] & [= <- <-] & Hg). apply Hf in Hg. unfold raw in Hg. lia. }
    eexists raw, _. split; [done|]. cbn [names]. split; [by apply heap_of_lookup|]. split; [|split; [done|done]].
    split; cbn [function_name_cache_ names next_name]; [done|by rewrite Hdef|]. exists owned2. split_and!; [done|done| |done].
    intros g p Hg. apply (Hf1 g). rewrite Ho. apply elem_of_app. by left.
Qed.

Lemma Lookup_spec f h stats :
  names_ok h → resolve_name f = Ret (name_of f) →
  ∃ p h' stats', Lookup f h stats = Ret (p, h', stats') ∧ names h' !! p = Some (name_of f) ∧ names_ok h' ∧
    recent h' = touch (capacity h) f (recent h) ∧ capacity h' = capacity h ∧
    name_cache_misses stats' = name_cache_misses stats + (if decide (f ∈ recent h) then 0 else 1).
Proof.
  intros Hok Hres. destruct (Get_spec f _ (names_cache h Hok)) as [(Hnone & Hlru & Hget)|(v & c' & Hget & Hin & Hc' & Hp & Hlru & Hd & Hm)].
  - rewrite (names_default h Hok) in Hget.
    assert (Hnew : f ∉ recent h).
    { intros (e & -> & Hin)%list_elem_of_fmap. unfold lru_get in Hlru. destruct (list_find _ _) as [[i e']|] eqn:E; [done|].
      rewrite list_find_None in E. by apply (proj1 (Forall_forall _ _) E e). }
    destruct (Lookup_miss f h stats Hok Hres Hget Hnone Hnew) as (p & h' & H1 & H2 & H3 & H4 & H5).
    exists p, h', (count_miss stats). rewrite decide_False by done. by split_and!.
  - destruct (Lookup_hit f h stats v c' Hok Hget Hin Hc' Hp Hlru Hd Hm) as (p & h' & H1 & H2 & H3 & H4 & H5 & H6).
    exists p, h', stats. rewrite decide_True by done. split_and!; try done. lia.
Qed.

Lemma lookup_names_spec fs h stats :
  names_ok h → (∀ f, f ∈ fs → resolve_name f = Ret (name_of f)) →
  ∃ h' stats', lookup_names fs h stats = Ret (name_of <$> fs, h', stats') ∧ names_ok h' ∧
    recent h' = recent_after (capacity h) (recent h) fs ∧ capacity h' = capacity h ∧
    name_cache_misses stats' = name_cache_misses stats + misses (capacity h) (recent h) fs.
Proof.
  revert h stats. induction fs as [|f fs IH]; intros h stats Hok Hres.
  - exists h, stats. split_and!; try done. cbn. lia.
  - destruct (Lookup_spec f h stats Hok) as (p & h1 & stats1 & H1 & H2 & H3 & H4 & H5 & H6); [apply Hres; by left|].
    destruct (IH h1 stats1 H3) as (h2 & stats2 & G1 & G2 & G3 & G4 & G5); [intros g Hg; apply Hres; by right|].
    exists h2, stats2. cbn [lookup_names]. rewrite H1. cbn [mbind outcome_bind]. rewrite H2. cbn [of_option mbind outcome_bind].
    rewrite G1. split_and!; [done|done| |by rewrite G4|].
    + rewrite G3, H5, H4. done.
    + cbn [misses]. rewrite G5, H6, H5, H4. lia.
Qed.

(** The names in the heap are those of the recent functions, no more. *)
Lemma names_ok_size h : names_ok h → size (names h) = length (recent h) ∧ (length (recent h) ≤ capacity h)%nat.
Proof.
  intros [Hc _ (owned & He & Hn & _ & ->)]. unfold recent. rewrite He, <-list_fmap_compose, !length_fmap. split.
  - rewrite <-size_dom, dom_list_to_map. rewrite heap_keys. rewrite size_list_to_set by done. by rewrite length_fmap.
  - pose proof (ok_size _ Hc) as Hs. rewrite <-length_entries, He, length_fmap in Hs. exact Hs.
Qed.

Lemma names_ok_init n m : (0 < n)%nat → names_ok (NamingHelper_sized n m).
Proof. intros Hn. split; cbn; [by apply cache_ok_init|done|]. exists []. split_and!; [done|apply NoDup_nil_2|by intros ? ? ?%elem_of_nil|done]. Qed.

End Names.

(** *** The identities of functions *)

Definition identifies (id : Z) (f : FunctionIdentifier) : Prop := f = ResolveManagedFunctionIdentifier id.

Record identifiers_ok (h : NamingHelper) : Prop := {
  identifiers_cache : loose identifies (function_identifier_cache_ h);
  identifiers_default : default_value_ (function_identifier_cache_ h) = DefaultFunctionIdentifier;
}.

Lemma Put_default {TKey TValue} `{Countable TKey} k v (c : NameCache TKey TValue) : default_value_ (Put k v c).2 = default_value_ c.
Proof. unfold Put. case_decide; [destruct (last _)|]; done. Qed.

Lemma LookupManagedFunction_spec id h :
  identifiers_ok h →
  ∃ h', LookupManagedFunction id h = Ret (ResolveManagedFunctionIdentifier id, h') ∧ identifiers_ok h'.
Proof.
  intros [Hok Hd]. destruct (Get_loose identifies id _ Hok) as (v & c' & Hget & Hc' & Hv & _ & _ & Hd' & _).
  unfold LookupManagedFunction. rewrite Hget. cbn [mbind outcome_bind]. rewrite Hd in Hv, Hd'.
  destruct (is_valid v) eqn:Evalid.
  - eexists. destruct Hv as [->| ->]; [|done]. split; [done|]. split; [exact Hc'|exact Hd'].
  - eexists. split; [done|]. split; cbn [function_identifier_cache_]; [by apply Put_loose|by rewrite Put_default].
Qed.

Lemma lookup_functions_spec ids h :
  identifiers_ok h →
  ∃ h', lookup_functions ids h = Ret (ResolveManagedFunctionIdentifier <$> ids, h') ∧ identifiers_ok h'.
Proof.
  revert h. induction ids as [|id ids IH]; intros h Hok; [by exists h|].
  destruct (LookupManagedFunction_spec id h Hok) as (h1 & H1 & Hok1). destruct (IH h1 Hok1) as (h2 & H2 & Hok2).
  exists h2. cbn [lookup_functions]. rewrite H1. cbn [mbind outcome_bind]. by rewrite H2.
Qed.

Lemma identifiers_ok_init n m : identifiers_ok (NamingHelper_sized n m).
Proof. split; [apply loose_init|done]. Qed.

(** Every lookup of a function the runtime cannot identify adds a node. *)
Lemma failing_lookup id h :
  identifiers_ok h → is_valid (ResolveManagedFunctionIdentifier id) = false → (0 < max_size_ (function_identifier_cache_ h))%nat →
  dom (map_ (function_identifier_cache_ h)) ⊆ {[id]} →
  ∃ h', LookupManagedFunction id h = Ret (ResolveManagedFunctionIdentifier id, h') ∧ identifiers_ok h' ∧
    max_size_ (function_identifier_cache_ h') = max_size_ (function_identifier_cache_ h) ∧
    dom (map_ (function_identifier_cache_ h')) ⊆ {[id]} ∧
    length (list_ (function_identifier_cache_ h')) = S (length (list_ (function_identifier_cache_ h))).
Proof.
  intros [Hok Hd] Hbad Hmax Hdom. destruct (Get_loose identifies id _ Hok) as (v & c' & Hget & Hc' & Hv & Hp & Hm & Hd' & Hmax').
  unfold LookupManagedFunction. rewrite Hget. cbn [mbind outcome_bind]. rewrite Hd in Hv, Hd'.
  assert (is_valid v = false) as -> by (destruct Hv as [->| ->]; done).
  eexists. split; [done|]. cbn [function_identifier_cache_]. split_and!.
  - split; cbn [function_identifier_cache_]; [by apply Put_loose|by rewrite Put_default].
  - unfold Put. case_decide; [destruct (last _)|]; done.
  - assert (Hsize : dom (<[id := next_node c']> (map_ c')) ⊆ {[id]}) by (rewrite Hm; set_solver).
    unfold Put. case_decide; [destruct (last _)|]; cbn; [|done|done]. rewrite dom_delete. set_solver.
  - assert (Hsize : (size (<[id := next_node c']> (map_ c')) ≤ 1)%nat).
    { rewrite <-size_dom, <-(size_singleton (C := gset Z) id). apply subseteq_size. rewrite Hm. set_solver. }
    unfold Put. rewrite decide_False by (rewrite Hmax'; lia). cbn. by rewrite Hp.
Qed.

Lemma failing_lookups id k h :
  identifiers_ok h → is_valid (ResolveManagedFunctionIdentifier id) = false → (0 < max_size_ (function_identifier_cache_ h))%nat →
  dom (map_ (function_identifier_cache_ h)) ⊆ {[id]} →
  ∃ fs h', lookup_functions (replicate k id) h = Ret (fs, h') ∧ dom (map_ (function_identifier_cache_ h')) ⊆ {[id]} ∧
    length (list_ (function_identifier_cache_ h')) = (k + length (list_ (function_identifier_cache_ h)))%nat.
Proof.
  revert h. induction k as [|k IH]; intros h Hok Hbad Hmax Hdom; [by exists [], h|].
  destruct (failing_lookup id h Hok Hbad Hmax Hdom) as (h1 & H1 & Hok1 & Hm1 & Hd1 & Hl1).
  destruct (IH h1 Hok1 Hbad) as (fs & h2 & H2 & Hd2 & Hl2); [lia|done|].
  exists (ResolveManagedFunctionIdentifier id :: fs), h2. cbn [replicate lookup_functions]. rewrite H1. cbn [mbind outcome_bind].
  rewrite H2. split_and!; [done|done|lia].
Qed.
End NamingHelper.

(** ** Properties *)

(** C30: looking up the names of any frames, one after the other, returns the name of each, read
    while it is alive: no name is used or freed after it was freed.  The cache holds exactly the
    names of the functions most recently looked up, as many as its size, nothing else stays
    allocated, and the misses counted are the lookups of functions that were not among them. *)
Theorem names_looked_up md fuel walker name_of fs n m stats :
  (0 < n)%nat → (∀ f, f ∈ fs → resolve_name md fuel walker f = Ret (name_of f)) →
  ∃ h' stats', lookup_names md fuel walker fs (NamingHelper_sized n m) stats = Ret (name_of <$> fs, h', stats') ∧
    recent h' = recent_after n [] fs ∧ size (names h') = length (recent h') ∧ (length (recent h') ≤ n)%nat ∧
    name_cache_misses stats' = name_cache_misses stats + misses n [] fs.
Proof.
  intros Hn Hres. destruct (lookup_names_spec md fuel walker name_of fs (NamingHelper_sized n m) stats) as (h' & stats' & H1 & H2 & H3 & H4 & H5).
  - by apply names_ok_init.
  - done.
  - exists h', stats'. destruct (names_ok_size name_of h' H2) as [Hs Hl]. rewrite H4 in Hl. by split_and!.
Qed.

(** Functions are identified as the runtime identifies them, whatever is in the cache, and no
    dangling iterator is followed.  The cache does not stay within its size, though: every lookup
    of a function the runtime cannot identify adds a node, while its map has one key. *)
Theorem functions_looked_up GetFunctionInfo2 ids n m :
  (∃ h', lookup_functions GetFunctionInfo2 ids (NamingHelper_sized n m) = Ret (ResolveManagedFunctionIdentifier GetFunctionInfo2 <$> ids, h')) ∧
  (∀ id k, (0 < m)%nat → is_valid (ResolveManagedFunctionIdentifier GetFunctionInfo2 id) = false →
    ∃ fs h', lookup_functions GetFunctionInfo2 (replicate k id) (NamingHelper_sized n m) = Ret (fs, h') ∧
      (size (map_ (function_identifier_cache_ h')) ≤ 1)%nat ∧ length (list_ (function_identifier_cache_ h')) = k).
Proof.
  split.
  - destruct (lookup_functions_spec GetFunctionInfo2 ids (NamingHelper_sized n m)) as (h' & H & _); [apply identifiers_ok_init|]. by exists h'.
  - intros id k Hm Hbad.
    destruct (failing_lookups GetFunctionInfo2 id k (NamingHelper_sized n m)) as (fs & h' & H1 & H2 & H3); [apply identifiers_ok_init|done|done|done|].
    exists fs, h'. split_and!; [done| |rewrite H3; cbn; lia].
    rewrite <-size_dom, <-(size_singleton (C := gset Z) id). by apply subseteq_size.
Qed.

Definition native_frame (ip : Z) : FunctionIdentifier := {| function_token := 0; module_id := 0; is_valid := true; native_ip := ip |}.

(** Two native frames looked up in a cache of one name. *)
Lemma names_looked_up_witness :
  ∃ h' stats', lookup_names (λ _, None) 0 (Some (λ ip, Some [ip])) [native_frame 65; native_frame 66; native_frame 66] (NamingHelper_sized 1 1) example_stats =
    Ret ([[65]; [66]; [66]], h', stats') ∧
    recent h' = [native_frame 66] ∧ size (names h') = 1%nat ∧ name_cache_misses stats' = name_cache_misses example_stats + 2.
Proof.
  destruct (names_looked_up (λ _, None) 0 (Some (λ ip, Some [ip])) (λ f, [native_ip f])
    [native_frame 65; native_frame 66; native_frame 66] 1 1 example_stats) as (h' & stats' & H1 & H2 & H3 & _ & H5).
  - lia.
  - intros f Hf. repeat (apply elem_of_cons in Hf as [->|Hf]; [reflexivity|]). by apply elem_of_nil in Hf.
  - exists h', stats'. rewrite H2 in H3. split_and!; [exact H1|exact H2|exact H3|exact H5].
Defined.

Lemma functions_looked_up_witness :
  ∃ fs h', lookup_functions (λ _, None) (replicate 3 5) (NamingHelper_sized 1 1) = Ret (fs, h') ∧
    (size (map_ (function_identifier_cache_ h')) ≤ 1)%nat ∧ length (list_ (function_identifier_cache_ h')) = 3%nat.
Proof. refine (proj2 (functions_looked_up (λ _, None) [] 1 1) 5 3%nat _ _); [lia|reflexivity]. Defined.
