(* ===== verification/ResolvedNames.v ===== *)
(** * Every function has a name

    Over metadata that can be read ([names_readable]) the name of a function is determined whatever
    the function is: [resolve_name] returns, with a string of code units. *)

From S2P Require Import SamplesBuffer Prelude Utf CorSig Signature ClrSignatures TypeNames NamingHelper.

(** ** What is asked of the metadata *)

(** A signature is in memory as long as reported, and if the parser accepts it, its parameters are
    ECMA types. *)
Definition signature_readable (pb : list Z) (len : nat) : Prop :=
  Forall (λ b, is_byte b) pb ∧ (len ≤ length pb)%nat ∧
  ∀ s c, method_sig pb len s c → Forall (λ t, clr_param (take (length_ t) (drop (offset t) pb))) (params s).

(** The specification of a type holds what it should as long as it is reported. *)
Definition spec_readable (sig : list Z) : Prop := is_Some (sig !! 0%nat) ∧ CorSigUncompressToken (drop 2 sig) ≠ Stuck.

(** Following parents, enclosing types and the definitions of generic types descends: no type
    specification is an instance of itself. *)
Record names_readable (type_fuel : nat) (M : IMetaDataImport2) : Prop := {
  nr_rank : ∃ rank : Z → nat, (∀ t t', leads_to M t t' → (rank t' < rank t)%nat) ∧ ∀ t, (2 * rank t + 1 < type_fuel)%nat;
  nr_specs : ∀ token sig len, GetTypeSpecFromToken M token = Some (sig, len) → (3 ≤ len)%nat → spec_readable sig;
  nr_members : ∀ token parent name len pb n, GetMemberProps M token = Some (parent, name, len, (pb, n)) → units name ∧ signature_readable pb n;
  nr_refs : ∀ token parent name len pb n, GetMemberRefProps M token = Some (parent, name, len, (pb, n)) → units name ∧ signature_readable pb n;
  nr_method_specs : ∀ token parent pb n, GetMethodSpecProps M token = Some (parent, (pb, n)) → signature_readable pb n;
  nr_types : ∀ token name len, GetTypeDefProps M token = Some (name, len) → units name;
  nr_type_refs : ∀ token name len, GetTypeRefProps M token = Some (name, len) → units name;
  nr_generic : ∀ token name, GetGenericParamProps M token = Some name → units name;
}.

(** Of every module, and of the symbols of native code. *)
Definition metadata_readable (GetModuleMetaData : Z → option IMetaDataImport2) (type_fuel : nat)
    (stackWalker_ : option (Z → option (list Z))) : Prop :=
  (∀ m M, GetModuleMetaData m = Some M → names_readable type_fuel M) ∧
  ∀ ResolveNativeSymbolName ip name, stackWalker_ = Some ResolveNativeSymbolName → ResolveNativeSymbolName ip = Some name → units name.

(** ** Results with a property *)

Definition yields {A} (P : A → Prop) (r : outcome unit A) : Prop := ∃ a, r = Ret a ∧ P a.

Abbreviation all_units := (Forall (λ c, 0 ≤ c < 65536)).

Lemma yields_bind {A B} (P : A → Prop) (Q : B → Prop) (r : outcome unit A) (f : A → outcome unit B) :
  yields P r → (∀ a, P a → yields Q (f a)) → yields Q (r ≫= f).
Proof. intros (a & -> & Ha) Hf. by apply Hf. Qed.

Lemma yields_ret {A} (P : A → Prop) a : P a → yields P (mret a).
Proof. intros Ha. by exists a. Qed.

Lemma yields_fmap {A B} (P : A → Prop) (Q : B → Prop) (f : A → B) r : yields P r → (∀ a, P a → Q (f a)) → yields Q (f <$> r).
Proof. intros (a & -> & Ha) Hf. exists (f a). split; [done|by apply Hf]. Qed.

(** ** Strings of code units *)

Lemma units_app s t : units s → units t → units (s ++ t).
Proof. apply Forall_app_2. Qed.

Lemma units_WStr s : units (WStr s).
Proof.
  unfold WStr. apply Forall_fmap, Forall_true. intros a. cbn. pose proof (Ascii.nat_ascii_bounded a). lia.
Qed.

Lemma units_until_nul s : units s → units (until_nul s).
Proof. induction 1 as [|c s Hc _ IH]; cbn [until_nul]; [done|]. case_decide; [done|]. by apply Forall_cons. Qed.

Lemma units_nil : units [].
Proof. by apply Forall_nil. Qed.

Ltac solve_units := repeat first [assumption | apply units_app | apply units_WStr | apply units_until_nul | apply units_nil].

(** ** Types *)

Lemma simple_type_named b : b ∈ simple_types → ∃ name, simple_type_name b = Some name ∧ units name.
Proof.
  intros Hb. unfold simple_types in Hb. apply list_elem_of_lookup in Hb as [i Hi].
  repeat (destruct i as [|i]; [injection Hi as <-; eexists; split; [reflexivity|apply units_WStr]|]). done.
Qed.

Section Names.
Context (pb : list Z) (M : IMetaDataImport2) (type_fuel : nat) (cps mps : list Z).
Context (Hcps : length cps = kGenericParamsMaxLen) (Hmps : length mps = kGenericParamsMaxLen).
Context (Hgeneric : ∀ token name, GetGenericParamProps M token = Some name → units name).
Context (Htypes : ∀ t, yields (λ i, units (TypeInfo_name i)) (GetTypeInfo M type_fuel t)).

Abbreviation name_of fuel := (GetSigTypeTokNameNew pb M type_fuel fuel cps mps).

(** Wherever [w] is, [m] makes a name of it and ends behind it. *)
Definition names_bytes (m : C (list Z)) (w : list Z) : Prop :=
  ∀ c, at_cursor pb c w → ∃ name, m c = (Ret name, c + length w)%nat ∧ units name.

Lemma arguments_named m n args acc c :
  many (names_bytes m) n args → units acc → at_cursor pb c args →
  ∃ name, generic_arguments m n acc c = (Ret name, c + length args)%nat ∧ units name.
Proof.
  intros Hm. revert acc c. induction Hm as [|n w ws Hw _ IH]; intros acc c Ha Hc; cbn [generic_arguments].
  - exists acc. split; [|done]. unfold mret, stM_ret. f_equal. cbn. lia.
  - apply at_cursor_app in Hc as [H1 H2]. destruct (Hw c H1) as (name & E & Hn).
    destruct (IH (match n with O => acc ++ name | S _ => (acc ++ name) ++ kParamsSeparator end) (c + length w)%nat) as (name' & E' & Hn').
    + destruct n; solve_units.
    + done.
    + exists name'. split; [|done]. run_by (exact E). rewrite E', length_app. f_equal. lia.
Qed.

Lemma parameter_named ps b bs n c :
  length ps = kGenericParamsMaxLen → number_sig bs n → Forall (λ b, is_byte b) bs → at_cursor pb c (b :: bs) →
  ∃ name, ExtractParameterName pb M ps c = (Ret name, c + S (length bs))%nat ∧ units name.
Proof using All.
  clear Hcps Hmps. intros Hps Hn Hb Hc. apply at_cursor_cons in Hc as [_ Hc]. pose proof Hc as Hnum.
  apply (uncompress_run pb CorSigUncompressData_unchecked (S c) bs n) in Hnum; [|intros post; by apply number_uncompressed].
  unfold ExtractParameterName. run_by (done). run_by (exact Hnum). replace (S c + length bs)%nat with (c + S (length bs))%nat by lia.
  case_decide; [eexists; split; [done|apply units_WStr]|].
  assert (0 ≤ n) as Hpos.
  { pose proof (number_sig_nonempty _ _ Hn). unfold number_sig in Hn.
    destruct (CorSigUncompressData_bounds bs (Z.of_nat (length bs)) Hb) as [E|(n' & size & E & Hp & _)]; [lia|lia|congruence|].
    rewrite Hn in E. injection E as <- <-. lia. }
  destruct (lookup_lt_is_Some_2 ps (Z.to_nat n)) as [parameter Hp]; [lia|]. run_by (by rewrite Hp).
  destruct (GetGenericParamProps M parameter) as [name|] eqn:E; eexists; (split; [done|]); [|apply units_WStr].
  by eapply units_until_nul, Hgeneric.
Qed.

(** A type in place of the element type, given that parts of it are named. *)
Lemma element_named fuel w :
  clr_type w → Forall (λ b, is_byte b) w →
  (∀ w', clr_type w' → Forall (λ b, is_byte b) w' → (length w' < length w)%nat → names_bytes (name_of fuel) w') →
  names_bytes (name_element_type pb M type_fuel (name_of fuel) cps mps) w.
Proof using All.
  intros Hw Hb IH c Hc. unfold name_element_type.
  destruct Hw as [b Hs|b bs n Hk Hn|b bs n Hk Hn|bs Hbs|b tok tk num n args Hk Htok Hnum Hargs];
    pose proof (at_cursor_cons _ _ _ _ Hc) as [Hpeek Hc1]; run_by (exact Hpeek); apply Forall_cons in Hb as [_ Hb].
  - destruct (simple_type_named b Hs) as (name & -> & Hu). exists name. split; [|done]. run_by (done). unfold mret, stM_ret. f_equal. cbn. lia.
  - assert (simple_type_name b = None) as -> by (by destruct Hk as [->| ->]). rewrite decide_True by done. run_by (done).
    destruct (token_uncompressed bs n Hb Hn) as [tk Htk]. run_by (by apply (uncompress_run pb CorSigUncompressToken (S c) bs tk)). destruct (Htypes tk) as (i & -> & Hu). exists (TypeInfo_name i). split; [|done].
    unfold mret, stM_ret. f_equal. cbn. lia.
  - assert (simple_type_name b = None) as -> by (by destruct Hk as [->| ->]).
    destruct Hk as [->| ->]; other_types; rewrite decide_True by done; by eapply parameter_named.
  - change (simple_type_name ELEMENT_TYPE_SZARRAY) with (@None (list Z)). cbv iota. other_types. rewrite decide_True by done. run_by (done).
    destruct (IH bs Hbs Hb) with (c := S c) as (name & E & Hu); [cbn; lia|done|]. run_by (exact E). eexists.
    split; [unfold mret, stM_ret; f_equal; cbn; lia|solve_units].
  - assert (Hparts := Hb). apply Forall_cons in Hparts as [Hkb Hparts]. rewrite !Forall_app in Hparts. destruct Hparts as (Hb1 & Hb2 & Hb3).
    change (simple_type_name ELEMENT_TYPE_GENERICINST) with (@None (list Z)). cbv iota. other_types. rewrite decide_True by done. run_by (done).
    rewrite app_comm_cons in Hc1. destruct (at_cursor_app _ _ _ _ Hc1) as [H1 H23]. destruct (at_cursor_app _ _ _ _ H23) as [H2 H3].
    assert (Hopen : clr_type (b :: tok)) by (by eapply clr_token).
    destruct (IH (b :: tok) Hopen) with (c := S c) as (name & E & Hu); [by apply Forall_cons|cbn; rewrite !length_app; lia|done|].
    run_by (exact E). run_by (apply (uncompress_run pb CorSigUncompressData_unchecked _ num n); [exact H2|intros post; by apply number_uncompressed]).
    destruct (arguments_named (name_of fuel) (Z.to_nat n) args (name ++ kGenericParamsOpeningBrace) (S c + length (b :: tok) + length num)) as (all & E3 & Hall).
    + eapply many_mono; [|by apply (many_parts clr_type _ _ (length args))]. cbv beta. intros w' (Hw' & Hb' & Hl'). apply IH; [done..|].
      cbn. rewrite !length_app. pose proof (number_sig_nonempty _ _ Hnum). lia.
    + solve_units.
    + done.
    + run_by (exact E3). eexists. split; [unfold mret, stM_ret; f_equal; cbn; rewrite !length_app; lia|solve_units].
Qed.

Lemma head_at c t b rest : t = b :: rest → at_cursor pb c t → peek pb c = (Ret b, c).
Proof. by intros -> [? _]%at_cursor_cons. Qed.

(** A type without a prefix. *)
Lemma type_named n w : clr_type w → Forall (λ b, is_byte b) w → (length w ≤ n)%nat → names_bytes (name_of n) w.
Proof using All.
  revert w. induction n as [|n IH]; intros w Hw Hb Hl c Hc; destruct (clr_type_head w Hw) as (b & rest & E & Hh).
  { subst w. cbn in Hl. lia. }
  destruct (type_head_not b Hh) as (N1 & _ & _ & N2 & _). cbn [GetSigTypeTokNameNew].
  destruct (element_named n w Hw Hb) with (c := c) as (name & Er & Hu); [intros w' Hw' Hb' Hl'; apply IH; [done..|lia]|done|].
  exists name. split; [|done]. pose proof (head_at c w b rest E Hc) as Hp.
  run_by (exact Hp). rewrite decide_False by done. run_by (done). run_by (exact Hp). rewrite decide_False by done. run_by (done).
  run_by (exact Er). done.
Qed.

(** What a pointer points to. *)
Lemma pointed_named n t c :
  clr_type t ∨ t = [ELEMENT_TYPE_VOID] → Forall (λ b, is_byte b) t → (length t ≤ n)%nat → at_cursor pb c t →
  ∃ name c', name_element_type pb M type_fuel (name_of n) cps mps c = (Ret name, c') ∧ units name.
Proof using All.
  intros [Ht| ->] Hb Hl Hc.
  - destruct (element_named n t Ht Hb) with (c := c) as (name & E & Hu); [intros; apply type_named; [done..|lia]|done|by eauto].
  - exists [], c. split; [|apply units_nil]. unfold name_element_type. run_by (by eapply head_at). done.
Qed.

(** A parameter: the prefixes are taken off. *)
Lemma param_named n w c : clr_param w → (length w ≤ n)%nat → at_cursor pb c w →
  ∃ name c', name_of (S n) c = (Ret name, c') ∧ units name.
Proof using All.
  intros (Hb & r & p & t & -> & Hr & Hpt) Hl Hc. rewrite !Forall_app in Hb. destruct Hb as (_ & _ & Hb). rewrite !length_app in Hl.
  assert (Ht : clr_type t ∨ t = [ELEMENT_TYPE_VOID]) by tauto.
  assert (∃ b rest, t = b :: rest ∧ b ≠ ELEMENT_TYPE_BYREF ∧ b ≠ ELEMENT_TYPE_PTR) as (b & rest & E & N1 & N2).
  { destruct Ht as [Ht| ->]; [|by exists ELEMENT_TYPE_VOID, []]. destruct (clr_type_head t Ht) as (b & rest & E & Hh).
    exists b, rest. by destruct (type_head_not b Hh) as (? & _ & _ & ? & _). }
  apply at_cursor_app in Hc as [Hc1 Hc2]. apply at_cursor_app in Hc2 as [Hc2 Hc3].
  destruct (pointed_named n t (c + length r + length p)) as (name & c' & Er & Hu); [done|done|lia|done|].
  pose proof (head_at _ t b rest E Hc3) as Hp.
  assert (Hpb : p = [] ∨ p = [ELEMENT_TYPE_PTR]) by tauto. cbn [GetSigTypeTokNameNew].
  destruct Hr as [->| ->], Hpb as [->| ->]; cbn [length] in *; rewrite ?Nat.add_0_r, ?Nat.add_1_r in *.
  - eexists _, _. split; [run_by (exact Hp); rewrite decide_False by done; run_by (done); run_by (exact Hp); rewrite decide_False by done;
      run_by (done); run_by (exact Er); reflexivity|solve_units].
  - pose proof (at_cursor_cons _ _ _ _ Hc2) as [H2 _]. eexists _, _. split; [run_by (exact H2); rewrite decide_False by done; run_by (done);
      run_by (exact H2); rewrite decide_True by done; run_by (done); run_by (exact Er); reflexivity|solve_units].
  - pose proof (at_cursor_cons _ _ _ _ Hc1) as [H1 _]. eexists _, _. split; [run_by (exact H1); rewrite decide_True by done; run_by (done);
      run_by (exact Hp); rewrite decide_False by done; run_by (done); run_by (exact Er); reflexivity|solve_units].
  - pose proof (at_cursor_cons _ _ _ _ Hc1) as [H1 _]. pose proof (at_cursor_cons _ _ _ _ Hc2) as [H2 _].
    eexists _, _. split; [run_by (exact H1); rewrite decide_True by done; run_by (done);
      run_by (exact H2); rewrite decide_True by done; run_by (done); run_by (exact Er); reflexivity|solve_units].
Qed.
End Names.

(** ** Functions *)

Section Functions.
Context (type_fuel : nat) (M : IMetaDataImport2) (Hread : names_readable type_fuel M).

(** What is known of the information on a function. *)
Definition function_readable (f : FunctionInfo) : Prop :=
  units (FunctionInfo_name f) ∧ units (TypeInfo_name (FunctionInfo_type f)) ∧
  signature_readable (method_signature f).1 (method_signature f).2.

Lemma no_function_readable : function_readable no_function.
Proof.
  split_and!; [apply units_nil|apply units_nil|]. split_and!; [by apply Forall_nil|done|].
  intros s c (cc & counts & ret & [Hr _] & _). cbn in Hr. lia.
Qed.

Section Chains.
Context (rank : Z → nat) (Hrank : ∀ t t', leads_to M t t' → (rank t' < rank t)%nat).

Abbreviation named_type := (yields (λ i, units (TypeInfo_name i))).

Lemma no_type_named : named_type (mret no_type).
Proof. apply yields_ret, units_nil. Qed.

Lemma info_yields fuel :
  (∀ t, (2 * rank t < fuel)%nat → yields function_readable (GetFunctionInfo M fuel t)) ∧
  (∀ t, (2 * rank t + 1 < fuel)%nat → named_type (GetTypeInfo M fuel t)).
Proof using All.
  induction fuel as [|fuel [IHf IHt]]; [split; intros; lia|]. split.
  - intros t Hf. cbn [GetFunctionInfo].
    assert (Hfinish : ∀ p name len pb n, leads_to M t p → units name → signature_readable pb n → yields function_readable
      (if decide (len = 0) then mret no_function
       else type_info ← GetTypeInfo M fuel p;
            mret {| FunctionInfo_id := t; FunctionInfo_name := until_nul name; FunctionInfo_type := type_info; method_signature := (pb, n) |})).
    { intros p name len pb n Hp%Hrank Hu Hs. case_decide; [apply yields_ret, no_function_readable|].
      eapply yields_bind; [apply IHt; lia|]. intros i Hi. apply yields_ret. split_and!; [by apply units_until_nul|done|apply Hs..]. }
    case_decide as Hm.
    { destruct (GetMemberRefProps M t) as [[[[p name] len] [pb n]]|] eqn:E; [|apply yields_ret, no_function_readable].
      destruct (nr_refs _ _ Hread _ _ _ _ _ _ E). apply Hfinish; [left; eauto 6|done..]. }
    case_decide as Hd.
    { destruct (GetMemberProps M t) as [[[[p name] len] [pb n]]|] eqn:E; [|apply yields_ret, no_function_readable].
      destruct (nr_members _ _ Hread _ _ _ _ _ _ E). apply Hfinish; [right; left; eauto 6|done..]. }
    case_decide as Hs; [|apply yields_ret, no_function_readable].
    destruct (GetMethodSpecProps M t) as [[p [pb n]]|] eqn:E; [|apply yields_ret, no_function_readable].
    assert (Hp : leads_to M t p) by (right; right; left; eauto). pose proof (Hrank _ _ Hp).
    eapply yields_bind; [apply IHf; lia|]. intros g (Hg & _). apply Hfinish; [done|done|]. by eapply (nr_method_specs _ _ Hread).
  - intros t Hf. cbn [GetTypeInfo].
    case_decide as Hd.
    { eapply (yields_bind (λ p, ∀ i, p = Some i → units (TypeInfo_name i))).
      - case_decide as Hp; [|by apply yields_ret]. destruct (GetNestedClassProps M t) as [p|] eqn:E; [|done]. cbn in Hp |- *.
        assert (leads_to M t p) as Hl%Hrank by (right; right; right; left; eauto).
        eapply yields_fmap; [apply IHt; lia|]. by intros i Hi ? [= <-].
      - intros parent Hparent. destruct (GetTypeDefProps M t) as [[name len]|] eqn:E; [|apply no_type_named].
        case_decide; [apply no_type_named|]. apply yields_ret. cbn [TypeInfo_name]. apply (nr_types _ _ Hread) in E.
        destruct parent as [i|]; [|by apply units_until_nul]. pose proof (Hparent i eq_refl). solve_units. }
    case_decide as Hr.
    { destruct (GetTypeRefProps M t) as [[name len]|] eqn:E; [|apply no_type_named]. case_decide; [apply no_type_named|].
      apply yields_ret, units_until_nul. by eapply (nr_type_refs _ _ Hread). }
    case_decide as Hs.
    { destruct (GetTypeSpecFromToken M t) as [[sig len]|] eqn:E; [|apply no_type_named]. case_decide; [apply no_type_named|].
      destruct (nr_specs _ _ Hread _ _ _ E) as [[s0 Hs0] Htok]; [lia|]. unfold byte_at. rewrite Hs0. cbn [of_option mbind outcome_bind].
      case_decide; [|apply no_type_named].
      assert (Hbase : ∀ p, leads_to M t p → named_type
        (baseType ← GetTypeInfo M fuel p; mret {| TypeInfo_id := TypeInfo_id baseType; TypeInfo_name := TypeInfo_name baseType |})).
      { intros p Hl%Hrank. eapply yields_bind; [apply IHt; lia|]. intros i Hi. by apply yields_ret. }
      destruct (CorSigUncompressToken (drop 2 sig)) as [[p cb]|[]| |] eqn:Eu; cbn [mbind outcome_bind fmap outcome_fmap fst mret outcome_ret].
      - apply Hbase. do 4 right. split; [done|]. eauto 8.
      - apply Hbase. do 4 right. split; [done|]. eauto 8.
      - done.
      - by apply CorSigUncompressToken_settles in Eu. }
    case_decide; [|apply no_type_named]. eapply yields_fmap; [apply IHf; lia|]. by intros f (_ & ? & _).
Qed.
End Chains.

Lemma function_info_yields t : yields function_readable (GetFunctionInfo M type_fuel t).
Proof using All.
  destruct (nr_rank _ _ Hread) as (rank & Hrank & Hf). apply (info_yields rank Hrank). specialize (Hf t). lia.
Qed.

Lemma type_info_yields t : yields (λ i, units (TypeInfo_name i)) (GetTypeInfo M type_fuel t).
Proof using All. destruct (nr_rank _ _ Hread) as (rank & Hrank & Hf). by apply (info_yields rank Hrank). Qed.

Lemma separated_yields name n i result :
  (∀ j, (i ≤ j < i + n)%nat → yields all_units (name j)) → units result → yields all_units (append_separated name n i result).
Proof.
  revert i result. induction n as [|n IH]; intros i result Hn Hr; cbn [append_separated]; [by apply yields_ret|].
  eapply yields_bind; [apply Hn; lia|]. intros s Hs. apply IH; [intros; apply Hn; lia|]. case_decide; solve_units.
Qed.

(** A parameter where the parser found it. *)
Lemma argument_yields pb len s c t cps mps :
  signature_readable pb len → method_sig pb len s c → t ∈ params s →
  length cps = kGenericParamsMaxLen → length mps = kGenericParamsMaxLen →
  yields all_units (GetTypeTokName pb M type_fuel t cps mps).
Proof using All.
  intros (Hb & _ & Hp) Hs Ht Hcps Hmps. specialize (Hp s c Hs). pose proof (proj1 (Forall_forall _ _) Hp t Ht) as Hw.
  destruct (param_named pb M type_fuel cps mps Hcps Hmps (nr_generic _ _ Hread) type_info_yields (length pb) _ (offset t) Hw)
    as (name & c' & E & Hu).
  - rewrite length_take, length_drop. lia.
  - exists (drop (length_ t) (drop (offset t) pb)). by rewrite take_drop.
  - exists name. unfold GetTypeTokName. by rewrite E.
Qed.
End Functions.

(** The parser finds what the grammar describes. *)
Lemma profiler_parsed pb len :
  Forall (λ b, is_byte b) pb → (len ≤ length pb)%nat →
  (∃ s c, profiler_TryParse pb len (0%nat, []) = (Ret tt, (c, params s)) ∧ method_sig pb len s c) ∨
  ∃ st, profiler_TryParse pb len (0%nat, []) = (Err tt, st).
Proof.
  intros Hb Hl. pose proof (FunctionMethodSignature_TryParse_wp pb len Hb Hl) as Hp. unfold wp in Hp.
  pose proof (profiler_TryParse_same pb len 0%nat empty_signature) as Hsame. cbn [params empty_signature] in Hsame. rewrite Hsame.
  destruct (FunctionMethodSignature_TryParse pb len (0%nat, empty_signature)) as [[[]|[]| |] [c s]]; [|by eauto|done|done].
  left. by exists s, c.
Qed.

Section Resolved.
Context (GetModuleMetaData : Z → option IMetaDataImport2) (type_fuel : nat) (stackWalker_ : option (Z → option (list Z))).
Context (Hread : metadata_readable GetModuleMetaData type_fuel stackWalker_).

Lemma GetFunctionName_yields f : yields all_units (GetFunctionName GetModuleMetaData type_fuel f).
Proof using All.
  unfold GetFunctionName. case_decide; [apply yields_ret; solve_units|]. case_decide; [apply yields_ret; solve_units|].
  destruct (GetModuleMetaData (module_id f)) as [M|] eqn:EM; [|apply yields_ret; solve_units].
  pose proof (proj1 Hread _ _ EM) as HM. eapply yields_bind; [by apply function_info_yields|]. intros info (Hn & Ht & Hsig).
  case_decide; [apply yields_ret; solve_units|]. cbv zeta.
  assert (Hbase : units (TypeInfo_name (FunctionInfo_type info) ++ name_separator ++ FunctionInfo_name info)) by solve_units.
  set (base := TypeInfo_name _ ++ _) in *.
  destruct (EnumGenericParams M (TypeInfo_id (FunctionInfo_type info))) as [cps|]; [|apply yields_ret; solve_units].
  destruct (EnumGenericParams M (function_token f)) as [mps|]; [|apply yields_ret; solve_units].
  apply (yields_bind all_units).
  { case_decide; [|by apply yields_ret]. apply (yields_bind all_units); [|intros; apply yields_ret; solve_units].
    apply separated_yields; [|solve_units]. intros j Hj. destruct (lookup_lt_is_Some_2 (param_array mps) j) as [tk Htk].
    { rewrite length_param_array. unfold param_count in Hj. lia. }
    rewrite Htk. cbn [of_option mbind outcome_bind]. apply yields_ret.
    destruct (GetGenericParamProps M tk) as [name|] eqn:E; [|solve_units]. by eapply units_until_nul, (nr_generic _ _ HM). }
  intros result Hresult. destruct (method_signature info) as [pb len] eqn:Es. cbn [fst snd] in Hsig.
  destruct (profiler_parsed pb len) as [(s & c & Hp & Hs)|[st Hp]]; [apply Hsig..| |]; rewrite Hp; [|destruct st; apply yields_ret; solve_units].
  apply (yields_bind all_units); [|intros; apply yields_ret; solve_units]. apply separated_yields; [|solve_units].
  intros j Hj. destruct (lookup_lt_is_Some_2 (params s) j) as [t Et]; [lia|]. rewrite Et. cbn [of_option mbind outcome_bind].
  eapply argument_yields; [done|exact Hsig|done|by eapply list_elem_of_lookup_2|apply length_param_array..].
Qed.

Lemma resolve_name_yields f : yields all_units (resolve_name GetModuleMetaData type_fuel stackWalker_ f).
Proof using All.
  unfold resolve_name. pose proof (proj2 Hread) as Hnative. pose proof (GetFunctionName_yields f) as Hf.
  destruct stackWalker_ as [symbols|]; [|exact Hf]. destruct (IsNative f); [|exact Hf].
  destruct (symbols (native_ip f)) as [name|] eqn:E; apply yields_ret; [by eapply Hnative|solve_units].
Qed.

(** The name of a function. *)
Definition resolved_name (f : FunctionIdentifier) : list Z :=
  match resolve_name GetModuleMetaData type_fuel stackWalker_ f with Ret name => name | _ => [] end.

Lemma name_resolved f : resolve_name GetModuleMetaData type_fuel stackWalker_ f = Ret (resolved_name f).
Proof using All. unfold resolved_name. by destruct (resolve_name_yields f) as (name & -> & _). Qed.

Lemma resolved_units f : units (resolved_name f).
Proof using All. unfold resolved_name. by destruct (resolve_name_yields f) as (name & -> & Hu). Qed.
End Resolved.

(** ** Instance: Outer.Inner.Run<T>(ref List<int>, T) *)

Lemma example_signature_readable : signature_readable example_signature 12.
Proof.
  assert (Hb : Forall (λ b, is_byte b) example_signature) by (by vm_compute; repeat constructor).
  split_and!; [done|vm_compute; lia|]. intros s c Hs. apply FunctionMethodSignature_TryParse_run in Hs; [|done|vm_compute; lia].
  vm_compute in Hs. injection Hs as <- <-. cbn [params]. apply Forall_cons. split; [|apply Forall_singleton].
  - split; [by vm_compute; repeat constructor|]. exists [ELEMENT_TYPE_BYREF], [], [0x15; 0x12; 0x49; 1; 8]. split_and!; [done|by right|].
    left. split; [done|]. apply (clr_generic 0x12 [0x49] 0x49 [1] 1 [8]); [by left|done|done|].
    apply (many_cons 0 [8] []); [|apply many_nil]. apply clr_simple. by vm_compute; repeat constructor.
  - split; [by vm_compute; repeat constructor|]. exists [], [], [0x1e; 0]. split_and!; [done|by left|].
    left. split; [done|]. apply (clr_var 0x1e [0] 0); [by right|done].
Qed.

Definition example_rank (t : Z) : nat := if decide (t = 0x06000001) then 2%nat else if decide (t = 0x02000002) then 1%nat else 0%nat.

Lemma example_names_readable : names_readable 8 example_metadata.
Proof.
  split; cbn [GetTypeSpecFromToken GetMemberProps GetMemberRefProps GetMethodSpecProps GetTypeDefProps GetTypeRefProps GetGenericParamProps example_metadata].
  - exists example_rank. split; [|intros t; unfold example_rank; repeat case_decide; lia].
    intros t t' [(_ & ? & ? & ? & [=])|[(_ & ? & ? & ? & H)|[(_ & ? & [=])|[(_ & H & _)|(_ & ? & ? & [=] & _)]]]]; cbn in H.
    + destruct (decide (t = 0x06000001)) as [->|]; [|discriminate H]. injection H as <-. vm_compute. lia.
    + destruct (decide (t = 0x02000002)) as [->|]; [|discriminate H]. injection H as <-. vm_compute. lia.
  - done.
  - intros t parent name len pb n. case_decide; [|done]. intros [= _ <- _ <- <-]. split; [apply units_WStr|apply example_signature_readable].
  - done.
  - done.
  - intros t name len. case_decide; intros [= <- _]; apply units_WStr.
  - intros t name len [= <- _]. apply units_WStr.
  - intros t name [= <-]. apply units_WStr.
Qed.

Lemma example_readable : metadata_readable (λ _, Some example_metadata) 8 None.
Proof. split; [intros m M [= <-]; apply example_names_readable|done]. Qed.
