(* ===== verification/ThreadStacks.v ===== *)
(** * ThreadStacksBuffer (continuous_profiler.h/.cpp): the frames of the threads being captured

    A vector has frames and a capacity; what [reserve] gives an empty vector is decided by the
    allocator: at least what was asked for, or std::bad_alloc ([Err tt]).  The allocator may answer
    every call differently: [reserve k n] is its answer to the [k]-th request, for [n] frames, and
    [emplace k] whether the map can take a new entry.  Sizes are size_t.

    The main results: the storage never exceeds its budget, whatever the allocator and the captures
    do, the counter never underflows and a recorded frame never grows a vector; and a capture of up
    to 1024 threads starts with storage for every one of them, of an even share. *)

From S2P Require Import SamplesBuffer Prelude.

Definition MaximumFramesPerStack : Z := 512.
Definition MaximumFrameCapacity : Z := 32 * 1024.
Definition MaximumThreads : Z := 1024.
Definition kInitialStackFrameCapacity : Z := 80.

Record vector := { frames : list FunctionIdentifier; capacity : Z }.
Definition empty_vector : vector := {| frames := []; capacity := 0 |}.
Definition vsize (v : vector) : Z := Z.of_nat (length (frames v)).

Record ThreadStacksBuffer := {
  stacks_ : gmap Z vector;
  frameCapacity_ : Z;
  cachedThread_ : Z;
  cachedStack_ : option Z; (* the thread of the vector pointed to *)
  requests : nat; (* requests made to the allocator so far *)
}.

Definition ThreadStacksBuffer_init : ThreadStacksBuffer :=
  {| stacks_ := ∅; frameCapacity_ := 0; cachedThread_ := 0; cachedStack_ := None; requests := 0 |}.

Abbreviation T := (stM ThreadStacksBuffer unit).

Definition set_stack (thread : Z) (v : vector) : T unit := modify (λ b,
  {| stacks_ := <[thread := v]> (stacks_ b); frameCapacity_ := frameCapacity_ b; cachedThread_ := cachedThread_ b;
     cachedStack_ := cachedStack_ b; requests := requests b |}).
Definition erase_stack (thread : Z) : T unit := modify (λ b,
  {| stacks_ := delete thread (stacks_ b); frameCapacity_ := frameCapacity_ b; cachedThread_ := cachedThread_ b;
     cachedStack_ := cachedStack_ b; requests := requests b |}).
Definition set_capacity (f : Z → Z) : T unit := modify (λ b,
  {| stacks_ := stacks_ b; frameCapacity_ := u64 (f (frameCapacity_ b)); cachedThread_ := cachedThread_ b;
     cachedStack_ := cachedStack_ b; requests := requests b |}).
Definition set_cached (thread : Z) (stack : option Z) : T unit := modify (λ b,
  {| stacks_ := stacks_ b; frameCapacity_ := frameCapacity_ b; cachedThread_ := thread;
     cachedStack_ := stack; requests := requests b |}).
Definition stack_of (thread : Z) : T vector := b ← get; lift_option (stacks_ b !! thread).

(** [*cachedStack_]: a pointer to a vector that was erased is dangling. *)
Definition cached_stack : T (Z * vector) :=
  b ← get; t ← lift_option (cachedStack_ b); v ← lift_option (stacks_ b !! t); mret (t, v).

Section ThreadStacks.
Context (reserve : nat → Z → option Z) (emplace : nat → bool).

Definition request {A} (answer : nat → option A) : T A :=
  b ← get;
  modify (λ b, {| stacks_ := stacks_ b; frameCapacity_ := frameCapacity_ b; cachedThread_ := cachedThread_ b;
                  cachedStack_ := cachedStack_ b; requests := S (requests b) |});;
  match answer (requests b) with Some a => mret a | None => throw tt end.

(** The vector is that of the thread; whether there is room for a frame. *)
Definition TryReserveStackFrame (thread : Z) (maximumCapacity : Z) : T bool :=
  buffer ← stack_of thread;
  if decide (MaximumFramesPerStack ≤ vsize buffer) then mret false
  else if decide (vsize buffer < capacity buffer) then mret true
  else
    let boundedCapacity := Z.min MaximumFramesPerStack maximumCapacity in
    let nextCapacity := Z.min boundedCapacity (Z.max kInitialStackFrameCapacity (u64 (capacity buffer * 2))) in
    if decide (nextCapacity ≤ capacity buffer) then mret false
    else
      expanded ← request (λ k, reserve k nextCapacity);
      if decide (boundedCapacity < expanded) then mret false
      else set_stack thread {| frames := frames buffer; capacity := expanded |};; mret true.

(** The pointer returned: the thread of the vector. *)
Definition TryPrepareFrame (threadId : Z) : T (option Z) :=
  b ← get;
  found ←
    (if decide (cachedStack_ b = None ∨ cachedThread_ b ≠ threadId) then
       match stacks_ b !! threadId with
       | None => mret false
       | Some _ => set_cached threadId (Some threadId);; mret true
       end
     else mret true);
  if found : bool then
    '(t, buffer) ← cached_stack;
    if decide (vsize buffer < capacity buffer) then mret (Some t)
    else
      let previousCapacity := capacity buffer in
      b ← get;
      reserved ← TryReserveStackFrame t (u64 (previousCapacity + MaximumFrameCapacity - frameCapacity_ b));
      if reserved : bool then
        buffer ← stack_of t;
        set_capacity (λ c, c + (capacity buffer - previousCapacity));;
        mret (Some t)
      else mret None
  else mret None.

(** [buffer->push_back(f)]: with no room left the vector would grow, which is not accounted for. *)
Definition push_frame (t : Z) (f : FunctionIdentifier) : T unit :=
  buffer ← stack_of t;
  if decide (vsize buffer < capacity buffer) then
    set_stack t {| frames := frames buffer ++ [f]; capacity := capacity buffer |}
  else stuck.

(** The body of the frame processor of CaptureFunctionIdentifiersForThreads. *)
Definition process_frame (threadId : Z) (f : FunctionIdentifier) : T unit :=
  buffer ← TryPrepareFrame threadId;
  match buffer with None => mret tt | Some t => push_frame t f end.

Fixpoint for_each (threads : list Z) (body : Z → T unit) : T unit :=
  match threads with
  | [] => mret tt
  | thread :: threads => body thread;; for_each threads body
  end.

(** The loops over [stacks_] visit the threads in it at their start. *)
Definition for_each_stack (body : Z → T unit) : T unit := b ← get; for_each (map_to_list (stacks_ b)).*1 body.

(** An unordered_set: its elements in some order. *)
Definition evict (activeThreads : list Z) (thread : Z) : T unit :=
  v ← stack_of thread;
  if decide (capacity v = 0 ∨ thread ∉ activeThreads) then
    set_capacity (λ c, c - capacity v);; erase_stack thread
  else mret tt.

Definition reclaim (initialCapacity : Z) (thread : Z) : T unit :=
  v ← stack_of thread;
  if decide (initialCapacity < capacity v) then
    set_capacity (λ c, c - capacity v);; set_stack thread empty_vector
  else mret tt.

Definition admit_thread (initialCapacity : Z) (threadId : Z) : T unit :=
  b ← get;
  admitted ←
    match stacks_ b !! threadId with
    | Some _ => mret true
    | None =>
        if decide (MaximumThreads ≤ Z.of_nat (size (stacks_ b)) ∨ MaximumFrameCapacity ≤ frameCapacity_ b) then mret false
        else request (λ k, if emplace k then Some tt else None);; set_stack threadId empty_vector;; mret true
    end;
  if admitted : bool then
    buffer ← stack_of threadId;
    if decide (capacity buffer = 0) then
      b ← get;
      reserved ← TryReserveStackFrame threadId (Z.min initialCapacity (u64 (MaximumFrameCapacity - frameCapacity_ b)));
      if reserved : bool then
        buffer ← stack_of threadId; set_capacity (λ c, c + capacity buffer)
      else mret tt
    else mret tt
  else mret tt.

Definition thread_count (activeThreads : list Z) : Z := Z.min (Z.of_nat (length activeThreads)) MaximumThreads.
Definition initial_capacity (activeThreads : list Z) : Z :=
  if decide (thread_count activeThreads = 0) then kInitialStackFrameCapacity
  else Z.min kInitialStackFrameCapacity (MaximumFrameCapacity / thread_count activeThreads).

Definition PrepareForCapture (activeThreads : list Z) : T unit :=
  b ← get;
  set_cached (cachedThread_ b) None;;
  for_each_stack (evict activeThreads);;
  b ← get;
  let initialCapacity := initial_capacity activeThreads in
  let missingThreads := u64 (thread_count activeThreads - Z.of_nat (size (stacks_ b))) in
  (if decide (u64 (MaximumFrameCapacity - frameCapacity_ b) < u64 (missingThreads * initialCapacity))
   then for_each_stack (reclaim initialCapacity) else mret tt);;
  for_each activeThreads (admit_thread initialCapacity).

Definition Reset : T unit := for_each_stack (λ thread,
  v ← stack_of thread; set_stack thread {| frames := []; capacity := capacity v |}).

Definition ThreadStacks_Clear : T unit := modify (λ b,
  {| stacks_ := ∅; frameCapacity_ := 0; cachedThread_ := cachedThread_ b; cachedStack_ := None; requests := requests b |}).

(** An exception is caught by CaptureSamples. *)
Definition attempt (m : T unit) : T unit := λ b, match m b with (Err _, b') => (Ret tt, b') | r => r end.

(** What the sampling thread does with its buffer, in any order. *)
Inductive stacks_operation :=
| OnCapture (activeThreads : list Z)
| OnFrame (threadId : Z) (f : FunctionIdentifier)
| OnReset
| OnClear.

Definition run_operation (o : stacks_operation) : T unit :=
  match o with
  | OnCapture activeThreads => PrepareForCapture activeThreads
  | OnFrame threadId f => process_frame threadId f
  | OnReset => Reset
  | OnClear => ThreadStacks_Clear
  end.

Fixpoint run_operations (os : list stacks_operation) : T unit :=
  match os with [] => mret tt | o :: os => attempt (run_operation o);; run_operations os end.

(** ** The invariant *)

Definition total (m : gmap Z vector) : Z := map_fold (λ _ v acc, capacity v + acc) 0 m.

Definition vector_ok (v : vector) : Prop := 0 ≤ vsize v ≤ capacity v ∧ capacity v ≤ MaximumFramesPerStack.

Record stacks_ok (b : ThreadStacksBuffer) : Prop := {
  ok_total : frameCapacity_ b = total (stacks_ b);
  ok_budget : frameCapacity_ b ≤ MaximumFrameCapacity;
  ok_vectors : ∀ t v, stacks_ b !! t = Some v → vector_ok v;
  ok_threads : Z.of_nat (size (stacks_ b)) ≤ MaximumThreads;
  ok_cached : ∀ t, cachedStack_ b = Some t → t = cachedThread_ b ∧ is_Some (stacks_ b !! t);
}.

Lemma total_empty : total ∅ = 0.
Proof. apply map_fold_empty. Qed.

Lemma total_insert_new m t v : m !! t = None → total (<[t := v]> m) = capacity v + total m.
Proof. intros H. unfold total. apply (map_fold_insert_L (λ _ v acc, capacity v + acc)); [|done]. intros. lia. Qed.

Lemma total_delete m t v : m !! t = Some v → total m = capacity v + total (delete t m).
Proof.
  intros H. rewrite <-(insert_delete_id m t v H) at 1. apply total_insert_new. by rewrite lookup_delete_eq.
Qed.

Lemma total_insert m t v v' : m !! t = Some v → total (<[t := v']> m) = total m - capacity v + capacity v'.
Proof.
  intros H. rewrite (total_delete m t v H), <-insert_delete_eq, total_insert_new by (by rewrite lookup_delete_eq). lia.
Qed.

Lemma total_nonneg m : (∀ t v, m !! t = Some v → vector_ok v) → 0 ≤ total m.
Proof.
  induction m as [|t v m Hm IH] using map_ind; intros Hok; [by rewrite total_empty|].
  rewrite total_insert_new by done. destruct (Hok t v) as [H1 H2]; [by rewrite lookup_insert_eq|].
  assert (0 ≤ total m); [|lia]. apply IH. intros t' v' Ht'. apply (Hok t'). rewrite lookup_insert_ne; [done|congruence].
Qed.

Lemma total_member m t v : (∀ t v, m !! t = Some v → vector_ok v) → m !! t = Some v → 0 ≤ capacity v ≤ total m.
Proof.
  intros Hok H. destruct (Hok t v H) as [H1 H2]. rewrite (total_delete m t v H).
  assert (0 ≤ total (delete t m)); [|lia]. apply total_nonneg. intros t' v' [_ Ht']%lookup_delete_Some. by apply (Hok t').
Qed.

Context (Hreserve : ∀ k n c, reserve k n = Some c → n ≤ c).

Lemma vector_range b t v : stacks_ok b → stacks_ b !! t = Some v → 0 ≤ vsize v ≤ capacity v ∧ capacity v ≤ 512 ∧ capacity v ≤ frameCapacity_ b ≤ 32768.
Proof.
  intros Hok Hv. destruct (ok_vectors b Hok t v Hv) as [H1 H2]. unfold MaximumFramesPerStack in H2.
  pose proof (total_member _ t v (ok_vectors b Hok) Hv). rewrite (ok_total b Hok). pose proof (ok_budget b Hok) as Hb.
  rewrite (ok_total b Hok) in Hb. unfold MaximumFrameCapacity in Hb. lia.
Qed.

Lemma budget_range b : stacks_ok b → 0 ≤ frameCapacity_ b ≤ 32768.
Proof.
  intros Hok. pose proof (ok_budget b Hok). rewrite (ok_total b Hok) in *. pose proof (total_nonneg _ (ok_vectors b Hok)).
  unfold MaximumFrameCapacity in *. lia.
Qed.

(** Replacing the vector of a thread and accounting for its capacity. *)
Lemma stacks_ok_replace b b' t v v' :
  stacks_ok b → stacks_ b !! t = Some v → stacks_ b' = <[t := v']> (stacks_ b) → vector_ok v' →
  frameCapacity_ b' = frameCapacity_ b - capacity v + capacity v' → frameCapacity_ b' ≤ MaximumFrameCapacity →
  cachedThread_ b' = cachedThread_ b → cachedStack_ b' = cachedStack_ b → stacks_ok b'.
Proof.
  intros [H1 H2 H3 H4 H5] Hv Hs Hv' Hf Hm Hc1 Hc2. split.
  - rewrite Hf, Hs, (total_insert _ t v) by done. lia.
  - done.
  - intros t' w. rewrite Hs. intros [[<- <-]|[_ Hw]]%lookup_insert_Some; [done|]. by apply (H3 t').
  - rewrite Hs, map_size_insert_Some by done. done.
  - intros t'. rewrite Hc1, Hc2, Hs. intros [-> Ht]%H5. split; [done|]. by apply lookup_insert_is_Some'; right.
Qed.

(** What TryReserveStackFrame does to the vector: its capacity grows, if at all, within the limit,
    and is not yet accounted for. *)
Record reserved (b b' : ThreadStacksBuffer) (t : Z) (v : vector) (limit : Z) (r : bool) (c : Z) : Prop := {
  reserved_stacks : stacks_ b' = <[t := {| frames := frames v; capacity := c |}]> (stacks_ b);
  reserved_total : frameCapacity_ b' = frameCapacity_ b;
  reserved_cached : cachedThread_ b' = cachedThread_ b ∧ cachedStack_ b' = cachedStack_ b;
  reserved_true : r = true → vsize v < c ∧ (c = capacity v ∨ capacity v ≤ c ≤ Z.min MaximumFramesPerStack limit);
  reserved_false : r = false → c = capacity v;
}.

Lemma TryReserve_wp b t v limit (Q : bool → ThreadStacksBuffer → Prop) X :
  stacks_ b !! t = Some v → vector_ok v →
  (∀ b' r c, reserved b b' t v limit r c → Q r b') →
  (∀ b', reserved b b' t v limit false (capacity v) → X tt b') →
  wp (TryReserveStackFrame t limit) b Q X.
Proof.
  intros Hv [Hs Hc] HQ HX. unfold TryReserveStackFrame, MaximumFramesPerStack in *.
  assert (Hsame : ∀ b' r, stacks_ b' = stacks_ b → frameCapacity_ b' = frameCapacity_ b → cachedThread_ b' = cachedThread_ b →
    cachedStack_ b' = cachedStack_ b → (r = true → vsize v < capacity v) → reserved b b' t v limit r (capacity v)).
  { intros b' r H1 H2 H3 H4 H5. split; [|done|done|intros Hr; split; [by apply H5|by left]|done].
    rewrite H1. symmetry. apply insert_id. by destruct v. }
  wp_step (unfold stack_of; (run_by (done)); by rewrite Hv).
  case_decide as Hfull; [eapply wp_run; [done|]; by apply (HQ _ _ (capacity v)), Hsame|].
  case_decide as Hroom; [eapply wp_run; [done|]; by apply (HQ _ _ (capacity v)), Hsame|].
  case_decide as Hgrow; [eapply wp_run; [done|]; by apply (HQ _ _ (capacity v)), Hsame|].
  apply wp_bind. unfold request. wp_step (done). wp_step (done).
  destruct (reserve _ _) as [expanded|] eqn:E; [|cbn; by apply HX, Hsame]. apply Hreserve in E.
  eapply wp_run; [done|]. case_decide as Hbig; [eapply wp_run; [done|]; by apply (HQ _ _ (capacity v)), Hsame|].
  wp_step (done). eapply wp_run; [done|]. apply (HQ _ _ expanded). split; try done.
  intros _. unfold MaximumFramesPerStack. lia.
Qed.

(** ** The operations keep the invariant, also when the allocator fails *)

Abbreviation safe m := (∀ b, stacks_ok b → wp m b (λ _ b', stacks_ok b') (λ _ b', stacks_ok b')).

(** A growth that is not yet accounted for keeps the rest; once it is, the invariant holds. *)
Lemma reserved_ok b b' b'' t v limit r c :
  stacks_ok b → stacks_ b !! t = Some v → reserved b b' t v limit r c →
  capacity v ≤ limit → limit ≤ capacity v + MaximumFrameCapacity - frameCapacity_ b →
  stacks_ b'' = stacks_ b' → frameCapacity_ b'' = frameCapacity_ b + c - capacity v →
  cachedThread_ b'' = cachedThread_ b' → cachedStack_ b'' = cachedStack_ b' → stacks_ok b''.
Proof.
  intros Hok Hv [H1 H2 [H3 H4] H5 H6] Hl1 Hl2 Hs Hf Hc1 Hc2. pose proof (vector_range b t v Hok Hv) as Hr.
  pose proof (budget_range b Hok). unfold MaximumFrameCapacity, MaximumFramesPerStack in *.
  assert (capacity v ≤ c ≤ 512 ∧ frameCapacity_ b + c - capacity v ≤ 32768).
  { destruct r; [|rewrite H6 by done; lia]. destruct H5 as [_ [->|H5]]; [done|lia|lia]. }
  eapply (stacks_ok_replace b b'' t v); [done|done|by rewrite Hs, H1| |cbn; lia|unfold MaximumFrameCapacity; lia|congruence|congruence].
  unfold vector_ok, MaximumFramesPerStack, vsize in *. cbn. lia.
Qed.

Lemma reserved_same b b' t v limit : stacks_ok b → stacks_ b !! t = Some v → reserved b b' t v limit false (capacity v) → stacks_ok b'.
Proof.
  intros Hok Hv [H1 H2 [H3 H4] _ _]. pose proof (vector_range b t v Hok Hv). pose proof (ok_budget b Hok).
  eapply (stacks_ok_replace b b' t v); [done|done|done| |cbn; lia|lia|done|done].
  unfold vector_ok, MaximumFramesPerStack, vsize in *. cbn. lia.
Qed.

Lemma TryPrepare_wp b threadId X :
  stacks_ok b → (∀ b', stacks_ok b' → X tt b') →
  wp (TryPrepareFrame threadId) b (λ r b', stacks_ok b' ∧
    (r = None ∨ r = Some threadId ∧ ∃ v, stacks_ b' !! threadId = Some v ∧ vsize v < capacity v)) X.
Proof.
  intros Hok HX. unfold TryPrepareFrame. wp_step (done).
  assert (Hcached : ∀ b', stacks_ok b' → cachedThread_ b' = threadId → cachedStack_ b' = Some threadId →
    wp ('(t, buffer) ← cached_stack;
        if decide (vsize buffer < capacity buffer) then mret (Some t)
        else
          let previousCapacity := capacity buffer in
          b ← get;
          reserved ← TryReserveStackFrame t (u64 (previousCapacity + MaximumFrameCapacity - frameCapacity_ b));
          if reserved : bool then
            buffer ← stack_of t;
            set_capacity (λ c, c + (capacity buffer - previousCapacity));;
            mret (Some t)
          else mret None) b' (λ r b', stacks_ok b' ∧
    (r = None ∨ r = Some threadId ∧ ∃ v, stacks_ b' !! threadId = Some v ∧ vsize v < capacity v)) X).
  { intros b' Hok' Ht Hs. destruct (ok_cached b' Hok' _ Hs) as [_ [v Hv]].
    wp_step (unfold cached_stack; run_by done; rewrite Hs; run_by done; rewrite Hv; by run_by done).
    pose proof (vector_range b' _ v Hok' Hv). pose proof (budget_range b' Hok'). unfold MaximumFrameCapacity, MaximumFramesPerStack in *.
    case_decide; [eapply wp_run; [done|]; eauto 10|]. wp_step (done).
    assert (u64 (capacity v + 32 * 1024 - frameCapacity_ b') = capacity v + 32768 - frameCapacity_ b') as -> by (apply wrap_small; lia).
    apply wp_bind, (TryReserve_wp b' threadId v); [done|by apply (ok_vectors b' Hok' threadId)| |].
    - intros b1 [] c Hr; cbv beta iota.
      + wp_step (unfold stack_of; run_by done; by rewrite (reserved_stacks _ _ _ _ _ _ _ Hr), lookup_insert_eq).
        wp_step (done). eapply wp_run; [done|]. split.
        * eapply (reserved_ok b' b1); try done; [unfold MaximumFrameCapacity; lia..|]. cbn.
          rewrite (reserved_total _ _ _ _ _ _ _ Hr).
          destruct (reserved_true _ _ _ _ _ _ _ Hr) as [_ [->|Hc]]; [done|rewrite wrap_small; lia|].
          unfold MaximumFramesPerStack in Hc. rewrite wrap_small; lia.
        * right. split; [done|]. cbn. rewrite (reserved_stacks _ _ _ _ _ _ _ Hr), lookup_insert_eq. eexists. split; [done|].
          by apply (reserved_true _ _ _ _ _ _ _ Hr).
      + eapply wp_run; [done|]. split; [|by left]. rewrite (reserved_false _ _ _ _ _ _ _ Hr) in Hr by done. by eapply reserved_same.
    - intros b1 Hr. apply HX. by eapply reserved_same. }
  case_decide as Hc.
  - destruct (stacks_ b !! threadId) as [v|] eqn:Hv.
    + wp_step (by run_by (done)). apply Hcached; [|done|done]. destruct Hok. split; try done. cbn. intros t [= <-]. by split; [|rewrite Hv].
    + wp_step (done). eapply wp_run; [done|]. by split; [|left].
  - wp_step (done). assert (cachedThread_ b = threadId) as Ht by (destruct (decide (cachedThread_ b = threadId)); tauto).
    apply Hcached; [done|done|]. destruct (cachedStack_ b) as [t|] eqn:E; [|tauto].
    destruct (ok_cached b Hok t E) as [-> _]. by rewrite Ht.
Qed.

Lemma process_frame_safe threadId f : safe (process_frame threadId f).
Proof.
  intros b Hok. apply wp_bind. eapply wp_mono; [apply (TryPrepare_wp b threadId (λ _, stacks_ok)); [done|auto]| |auto]; cbv beta.
  intros r b1 [Hok1 [->|(-> & v & Hv & Hroom)]]; [by eapply wp_run|].
  unfold push_frame. wp_step (unfold stack_of; run_by done; by rewrite Hv). rewrite decide_True by done. eapply wp_run; [done|].
  pose proof (vector_range b1 _ v Hok1 Hv). pose proof (ok_budget b1 Hok1).
  eapply (stacks_ok_replace b1 _ threadId v); try done; [|cbn; lia].
  unfold vector_ok, vsize, MaximumFramesPerStack in *. cbn. rewrite length_app. cbn. lia.
Qed.

Lemma for_each_wp (I : list Z → ThreadStacksBuffer → Prop) X body ts b :
  (∀ t ts b, I (t :: ts) b → wp (body t) b (λ _, I ts) X) → I ts b → wp (for_each ts body) b (λ _, I []) X.
Proof.
  intros Hbody. revert b. induction ts as [|t ts IH]; intros b Hb; [by eapply wp_run|].
  cbn. apply wp_bind. eapply wp_mono; [by apply Hbody|auto|auto].
Qed.

(** A loop over the threads that updates the entry of each, or removes it. *)
Lemma for_each_update (P : ThreadStacksBuffer → Prop) (g : Z → vector → option vector) X body b :
  (∀ t v b', P b' → stacks_ b' !! t = Some v →
     wp (body t) b' (λ _ b'', P b'' ∧ stacks_ b'' = partial_alter (λ _, g t v) t (stacks_ b')) X) →
  P b → wp (for_each_stack body) b (λ _ b', P b' ∧ stacks_ b' = map_imap g (stacks_ b)) X.
Proof.
  intros Hbody HP. unfold for_each_stack. wp_step (done).
  set (J := λ ts b', P b' ∧ NoDup ts ∧ (∀ t, t ∈ ts → is_Some (stacks_ b !! t)) ∧
    ∀ t, stacks_ b' !! t = if decide (t ∈ ts) then stacks_ b !! t else stacks_ b !! t ≫= g t).
  apply (wp_mono _ _ (λ _, J []) _ X); [| |done].
  - apply (for_each_wp J).
    + intros t ts b' (HP' & Hnd & Hin & Hm). apply NoDup_cons in Hnd as [Ht Hnd]. destruct (Hin t ltac:(left)) as [v Hv].
      eapply wp_mono; [apply (Hbody t v b' HP'); by rewrite Hm, decide_True by left| |done].
      intros _ b'' [HP'' Hs]. split_and!; [done|done|intros t' Ht'; apply Hin; by right|].
      intros t'. rewrite Hs. destruct (decide (t' = t)) as [->|Hne].
      * by rewrite lookup_partial_alter_eq, decide_False, Hv.
      * rewrite lookup_partial_alter_ne, Hm by done. repeat case_decide; rewrite ?elem_of_cons in *; try done; naive_solver.
    + split_and!; [done|apply NoDup_fst_map_to_list|..].
      * intros t ([? v] & -> & Hv%elem_of_map_to_list)%list_elem_of_fmap. by exists v.
      * intros t. case_decide as Ht; [done|]. destruct (stacks_ b !! t) as [v|] eqn:Hv; [|done]. destruct Ht.
        apply list_elem_of_fmap. exists (t, v). by split; [|apply elem_of_map_to_list].
  - intros _ b' (HP' & _ & _ & Hm). split; [done|]. apply map_eq. intros t.
    rewrite Hm, map_lookup_imap, decide_False by apply not_elem_of_nil. done.
Qed.

(** ** PrepareForCapture, step by step *)

Definition kept (active : list Z) (m : gmap Z vector) : gmap Z vector :=
  map_imap (λ t v, if decide (capacity v = 0 ∨ t ∉ active) then None else Some v) m.

Definition reclaimed (initial : Z) (m : gmap Z vector) : gmap Z vector :=
  map_imap (λ _ v, Some (if decide (initial < capacity v) then empty_vector else v)) m.

Lemma evict_wp active b (X : unit → ThreadStacksBuffer → Prop) :
  stacks_ok b → cachedStack_ b = None →
  wp (for_each_stack (evict active)) b (λ _ b', (stacks_ok b' ∧ cachedStack_ b' = None) ∧ stacks_ b' = kept active (stacks_ b)) X.
Proof.
  intros Hok Hc. apply for_each_update; [|done]. intros t v b' [Hok' Hc'] Hv. unfold evict.
  wp_step (unfold stack_of; run_by done; by rewrite Hv). pose proof (vector_range b' t v Hok' Hv).
  case_decide.
  - wp_step (done). eapply wp_run; [done|]. split_and!; [|done|done].
    destruct Hok' as [H1 H2 H3 H4 H5]. split; cbn.
    + rewrite (total_delete _ t v Hv) in H1. rewrite wrap_small; lia.
    + rewrite wrap_small; lia.
    + intros t' w [_ Hw]%lookup_delete_Some. by apply (H3 t').
    + rewrite map_size_delete, Hv. lia.
    + by rewrite Hc'.
  - eapply wp_run; [done|]. split_and!; [done|done|]. symmetry. by apply partial_alter_id.
Qed.

Lemma reclaim_wp initial b X :
  stacks_ok b → cachedStack_ b = None →
  wp (for_each_stack (reclaim initial)) b (λ _ b', (stacks_ok b' ∧ cachedStack_ b' = None) ∧ stacks_ b' = reclaimed initial (stacks_ b)) X.
Proof.
  intros Hok Hc. apply for_each_update; [|done]. intros t v b' [Hok' Hc'] Hv. unfold reclaim.
  wp_step (unfold stack_of; run_by done; by rewrite Hv). pose proof (vector_range b' t v Hok' Hv).
  case_decide.
  - wp_step (done). eapply wp_run; [done|]. split_and!; [|done|done].
    eapply (stacks_ok_replace b' _ t v); try done; cbn; rewrite wrap_small by lia; [lia|]. unfold MaximumFrameCapacity. lia.
  - eapply wp_run; [done|]. split_and!; [done|done|]. symmetry. by apply partial_alter_id.
Qed.

Lemma Reset_safe : safe Reset.
Proof.
  intros b Hok. eapply wp_mono; [apply (for_each_update stacks_ok (λ _ v, Some {| frames := []; capacity := capacity v |}) (λ _, stacks_ok)); [|done]|by intros ? ? [? _]|done].
  intros t v b' Hok' Hv. wp_step (unfold stack_of; run_by done; by rewrite Hv).
  pose proof (vector_range b' t v Hok' Hv). pose proof (ok_budget b' Hok'). eapply wp_run; [done|]. split; [|done].
  eapply (stacks_ok_replace b' _ t v); try done; [|cbn; lia].
  unfold vector_ok, vsize, MaximumFramesPerStack in *. cbn. lia.
Qed.

Lemma stacks_ok_requests b n :
  stacks_ok b → stacks_ok {| stacks_ := stacks_ b; frameCapacity_ := frameCapacity_ b; cachedThread_ := cachedThread_ b;
                             cachedStack_ := cachedStack_ b; requests := n |}.
Proof. intros []. by split. Qed.

Lemma stacks_ok_emplace b b' t :
  stacks_ok b → stacks_ b !! t = None → Z.of_nat (size (stacks_ b)) < MaximumThreads → stacks_ b' = <[t := empty_vector]> (stacks_ b) →
  frameCapacity_ b' = frameCapacity_ b → cachedThread_ b' = cachedThread_ b → cachedStack_ b' = cachedStack_ b → stacks_ok b'.
Proof.
  intros [H1 H2 H3 H4 H5] Ht Hn Hs Hf Hc1 Hc2. split; rewrite ?Hs, ?Hf; [|done|..].
  - by rewrite total_insert_new.
  - intros t' v [[<- <-]|[_ Hv]]%lookup_insert_Some; [done|]. by apply (H3 t').
  - rewrite map_size_insert_None by done. lia.
  - intros t'. rewrite Hc1, Hc2. intros [-> Hv]%H5. split; [done|]. by apply lookup_insert_is_Some'; right.
Qed.

Lemma admit_reserve_safe initial t b v :
  0 ≤ initial → stacks_ok b → stacks_ b !! t = Some v →
  wp (buffer ← stack_of t;
      if decide (capacity buffer = 0) then
        b ← get;
        reserved ← TryReserveStackFrame t (Z.min initial (u64 (MaximumFrameCapacity - frameCapacity_ b)));
        if reserved : bool then
          buffer ← stack_of t; set_capacity (λ c, c + capacity buffer)
        else mret tt
      else mret tt) b (λ _, stacks_ok) (λ _, stacks_ok).
Proof.
  intros Hi Hok Hv. wp_step (unfold stack_of; run_by done; by rewrite Hv).
  pose proof (vector_range b t v Hok Hv). pose proof (budget_range b Hok).
  case_decide as Hz; [|by eapply wp_run]. wp_step (done).
  assert (u64 (MaximumFrameCapacity - frameCapacity_ b) = MaximumFrameCapacity - frameCapacity_ b) as ->
    by (apply wrap_small; unfold MaximumFrameCapacity; lia).
  apply wp_bind, (TryReserve_wp b t v); [done|by apply (ok_vectors b Hok t)| |].
  - intros b1 [] c Hr; cbv beta iota.
    + wp_step (unfold stack_of; run_by done; by rewrite (reserved_stacks _ _ _ _ _ _ _ Hr), lookup_insert_eq).
      eapply wp_run; [done|]. eapply (reserved_ok b b1); try done; [unfold MaximumFrameCapacity; lia..|]. cbn.
      rewrite (reserved_total _ _ _ _ _ _ _ Hr).
      destruct (reserved_true _ _ _ _ _ _ _ Hr) as [_ Hc]; [done|]. unfold MaximumFramesPerStack in Hc. rewrite wrap_small; lia.
    + eapply wp_run; [done|]. rewrite (reserved_false _ _ _ _ _ _ _ Hr) in Hr by done. by eapply reserved_same.
  - intros b1 Hr. by eapply reserved_same.
Qed.

Lemma admit_thread_safe initial t : 0 ≤ initial → safe (admit_thread initial t).
Proof.
  intros Hi b Hok. unfold admit_thread. wp_step (done). destruct (stacks_ b !! t) as [v|] eqn:Hv.
  - wp_step (done). by apply (admit_reserve_safe initial t b v).
  - case_decide as Hfull; [wp_step (done); by eapply wp_run|].
    apply wp_bind, wp_bind. unfold request. wp_step (done). wp_step (done).
    destruct (emplace _); [|cbn; by apply stacks_ok_requests]. eapply wp_run; [done|]. wp_step (done). eapply wp_run; [done|].
    apply (admit_reserve_safe initial t _ empty_vector); [done| |apply lookup_insert_eq].
    by eapply (stacks_ok_emplace b _ t); [|done|lia|..].
Qed.

Lemma kept_lookup active m t v : kept active m !! t = Some v ↔ m !! t = Some v ∧ capacity v ≠ 0 ∧ t ∈ active.
Proof.
  unfold kept. rewrite map_lookup_imap. destruct (m !! t) as [w|]; cbn; [|naive_solver]. case_decide as H; [naive_solver|].
  split; [intros [= ->]|intros ([= ->] & _)]; split_and?; [done|tauto| |done]. destruct (decide (t ∈ active)); tauto.
Qed.

Lemma initial_capacity_range active : 1 ≤ initial_capacity active ≤ 80.
Proof.
  unfold initial_capacity, thread_count, kInitialStackFrameCapacity, MaximumThreads, MaximumFrameCapacity.
  case_decide; [lia|]. assert (1 ≤ 32 * 1024 / Z.of_nat (length active) `min` 1024); [|lia].
  apply Z.div_le_lower_bound; lia.
Qed.

(** All the threads get their share. *)
Lemma initial_fits active :
  Z.of_nat (length active) ≤ MaximumThreads → initial_capacity active * Z.of_nat (length active) ≤ MaximumFrameCapacity.
Proof.
  unfold initial_capacity, thread_count, kInitialStackFrameCapacity, MaximumThreads, MaximumFrameCapacity. intros Hn.
  rewrite Z.min_l by lia. case_decide; [nia|].
  pose proof (Z.mul_div_le (32 * 1024) (Z.of_nat (length active)) ltac:(lia)). nia.
Qed.

Lemma PrepareForCapture_safe active : safe (PrepareForCapture active).
Proof.
  intros b Hok. unfold PrepareForCapture. wp_step (done). wp_step (done). apply wp_bind.
  eapply wp_mono; [apply (evict_wp active _ (λ _, stacks_ok)); [|done]| |done].
  { destruct Hok. by split. }
  intros _ b1 [[Hok1 Hc1] _]. wp_step (done). apply wp_bind.
  apply (wp_mono _ _ (λ _, stacks_ok) _ (λ _, stacks_ok)); [| |done].
  - case_decide; [|by eapply wp_run]. eapply wp_mono; [by apply (reclaim_wp _ _ (λ _, stacks_ok))|by intros _ ? [[? ?] _]|done].
  - intros _ b2 Hok2. pose proof (initial_capacity_range active).
    apply (for_each_wp (λ _, stacks_ok)); [|done]. intros. apply admit_thread_safe; [lia|done].
Qed.

Lemma Clear_ok b : stacks_ok {| stacks_ := ∅; frameCapacity_ := 0; cachedThread_ := cachedThread_ b; cachedStack_ := None; requests := requests b |}.
Proof. split; [done|done|by intros t v Hv; cbn in Hv; rewrite lookup_empty in Hv|done|done]. Qed.

Lemma ThreadStacks_Clear_safe : safe ThreadStacks_Clear.
Proof. intros b _. eapply wp_run; [done|]. apply Clear_ok. Qed.

Lemma run_operation_safe o : safe (run_operation o).
Proof.
  destruct o; [apply PrepareForCapture_safe|apply process_frame_safe|apply Reset_safe|apply ThreadStacks_Clear_safe].
Qed.

Lemma run_operations_ok os b : stacks_ok b → ∃ b', run_operations os b = (Ret tt, b') ∧ stacks_ok b'.
Proof.
  revert b. induction os as [|o os IH]; intros b Hok; [by exists b|]. cbn [run_operations].
  pose proof (run_operation_safe o b Hok) as H. unfold wp in H.
  destruct (run_operation o b) as [[[]|[]| |] b1] eqn:E; try done; destruct (IH b1 H) as (b' & Hrun & Hb');
    exists b'; (split; [|done]); (run_by (unfold attempt; by rewrite E)); done.
Qed.
End ThreadStacks.

(** C29: Whatever the threads captured, the frames delivered and the answers of the allocator (which
    may fail at any request, and give more than was asked for), the buffer never uses a stale
    pointer and a recorded frame never grows a vector; the capacity counted is the capacity of the
    vectors, at most 32768 frames in at most 1024 stacks of at most 512 frames. *)
Theorem storage_bounded reserve emplace os :
  (∀ k n c, reserve k n = Some c → n ≤ c) →
  ∃ b, run_operations reserve emplace os ThreadStacksBuffer_init = (Ret tt, b) ∧
    frameCapacity_ b = total (stacks_ b) ∧ 0 ≤ total (stacks_ b) ≤ 32768 ∧ Z.of_nat (size (stacks_ b)) ≤ 1024 ∧
    ∀ t v, stacks_ b !! t = Some v → Z.of_nat (length (frames v)) ≤ capacity v ≤ 512.
Proof.
  intros Hreserve. destruct (run_operations_ok reserve emplace Hreserve os ThreadStacksBuffer_init) as (b & Hrun & Hok).
  { apply (Clear_ok ThreadStacksBuffer_init). }
  exists b. split; [done|]. pose proof (budget_range b Hok). pose proof (ok_total b Hok) as Ht. rewrite <-Ht.
  pose proof (ok_threads b Hok). split_and!; [done|lia|lia|done|].
  intros t v Hv. destruct (vector_range b t v Hok Hv) as (? & ? & _). unfold vsize in *. lia.
Qed.

Lemma storage_bounded_witness :
  ∃ b, run_operations (λ k n, if decide (k = 1%nat) then None else Some (n + 3)) (λ _, true)
      [OnCapture [5; 6; 7]; OnFrame 6 (example_frame 10); OnCapture [6; 8]; OnFrame 8 (example_frame 10); OnReset; OnClear; OnCapture [9]]
      ThreadStacksBuffer_init = (Ret tt, b) ∧
    frameCapacity_ b = total (stacks_ b) ∧ 0 ≤ total (stacks_ b) ≤ 32768 ∧ Z.of_nat (size (stacks_ b)) ≤ 1024 ∧
    ∀ t v, stacks_ b !! t = Some v → Z.of_nat (length (frames v)) ≤ capacity v ≤ 512.
Proof. apply storage_bounded. intros k n c H. case_decide; [done|]. injection H as <-. lia. Defined.

(** ** A capture with an allocator that gives what is asked for *)

Definition storage (m : gmap Z vector) (t : Z) : Z := match m !! t with Some v => capacity v | None => 0 end.

Definition needy (m : gmap Z vector) (ts : list Z) : list Z := filter (λ t, storage m t = 0) ts.

Lemma storage_Some m t v : m !! t = Some v → storage m t = capacity v.
Proof. unfold storage. by intros ->. Qed.

Lemma storage_None m t : m !! t = None → storage m t = 0.
Proof. unfold storage. by intros ->. Qed.

Lemma needy_cons m t ts : needy m (t :: ts) = if decide (storage m t = 0) then t :: needy m ts else needy m ts.
Proof. done. Qed.

Lemma needy_ext m m' ts : (∀ t, t ∈ ts → storage m' t = storage m t) → needy m' ts = needy m ts.
Proof.
  induction ts as [|t ts IH]; intros H; [done|]. rewrite !needy_cons, (H t), IH by (try left; intros; apply H; by right). done.
Qed.

Lemma storage_other m t o t' : t' ≠ t → storage (partial_alter (λ _, o) t m) t' = storage m t'.
Proof. intros. unfold storage. by rewrite lookup_partial_alter_ne. Qed.

Definition among (m : gmap Z vector) (active : list Z) : Prop := ∀ t v, m !! t = Some v → t ∈ active.

Lemma among_nil m : among m [] → m = ∅.
Proof. intros H. apply map_empty. intros t. destruct (m !! t) eqn:E; [|done]. by apply H, not_elem_of_nil in E. Qed.

Lemma among_cons m t active : among m (t :: active) → among (delete t m) active.
Proof. intros H t' v [Hne [->|?]%H%elem_of_cons]%lookup_delete_Some; [congruence|done]. Qed.

Lemma needy_delete m t ts : t ∉ ts → needy (delete t m) ts = needy m ts.
Proof. intros Ht. apply needy_ext. intros t' Ht'. apply storage_other. congruence. Qed.

Lemma count_missing m active :
  NoDup active → among m active → (∀ t v, m !! t = Some v → capacity v ≠ 0) →
  (size m + length (needy m active) = length active)%nat.
Proof.
  revert m. induction active as [|t active IH]; intros m Hnd Hin Hcap; [by rewrite (among_nil m Hin)|].
  apply NoDup_cons in Hnd as [Ht Hnd]. specialize (IH (delete t m) Hnd (among_cons m t active Hin)).
  rewrite needy_delete in IH by done. rewrite needy_cons.
  destruct (m !! t) as [v|] eqn:Hv; [rewrite (storage_Some m t v Hv)|rewrite (storage_None m t Hv)].
  - rewrite map_size_delete, Hv in IH. rewrite decide_False by (by eapply Hcap). cbn [length].
    assert (size m ≠ 0%nat); [|rewrite <-IH; [lia|intros t' w [_ Hw]%lookup_delete_Some; by eapply Hcap]].
    intros Hs%map_size_empty_inv. by rewrite Hs in Hv.
  - rewrite delete_id in IH by done. rewrite decide_True by done. cbn [length]. rewrite <-(IH Hcap). lia.
Qed.

Lemma among_missing m active t :
  NoDup active → among m active → t ∈ active → m !! t = None → (size m < length active)%nat.
Proof.
  intros Hnd Hin Ht Hm. rewrite <-length_map_to_list, <-(length_fmap fst).
  apply (submseteq_length (t :: (map_to_list m).*1)), NoDup_submseteq.
  - apply NoDup_cons. split; [|apply NoDup_fst_map_to_list].
    intros ([? v] & -> & Hv%elem_of_map_to_list)%list_elem_of_fmap. cbn in Hm. by rewrite Hv in Hm.
  - intros t' [->|([? v] & -> & Hv%elem_of_map_to_list)%list_elem_of_fmap]%elem_of_cons; [done|by eapply Hin].
Qed.

Lemma total_bound m initial active :
  NoDup active → among m active → (∀ t v, m !! t = Some v → 0 ≤ capacity v ≤ initial) →
  total m + initial * Z.of_nat (length (needy m active)) ≤ initial * Z.of_nat (length active).
Proof.
  revert m. induction active as [|t active IH]; intros m Hnd Hin Hcap.
  - rewrite (among_nil m Hin). cbn. rewrite total_empty. lia.
  - apply NoDup_cons in Hnd as [Ht Hnd]. specialize (IH (delete t m) Hnd (among_cons m t active Hin)).
    rewrite needy_delete in IH by done. rewrite needy_cons.
    assert (IH' := IH (λ t' w Hw, Hcap t' w (proj2 (proj1 (lookup_delete_Some _ _ _ _) Hw)))). clear IH.
    destruct (m !! t) as [v|] eqn:Hv; [rewrite (storage_Some m t v Hv)|rewrite (storage_None m t Hv)].
    + rewrite (total_delete m t v Hv). specialize (Hcap t v Hv). case_decide; cbn [length]; lia.
    + rewrite delete_id in IH' by done. rewrite decide_True by done. cbn [length]. lia.
Qed.

Section Exact.
Context (reserve : nat → Z → option Z) (emplace : nat → bool).
Context (Hexact : ∀ k n, reserve k n = Some n) (Hemplace : ∀ k, emplace k = true).

Definition fresh_vector (initial : Z) : vector := {| frames := []; capacity := initial |}.

Lemma TryReserve_exact b t limit :
  stacks_ b !! t = Some empty_vector → 1 ≤ limit ≤ 80 →
  TryReserveStackFrame reserve t limit b = (Ret true,
    {| stacks_ := <[t := fresh_vector limit]> (stacks_ b); frameCapacity_ := frameCapacity_ b; cachedThread_ := cachedThread_ b;
       cachedStack_ := cachedStack_ b; requests := S (requests b) |}).
Proof.
  intros Ht Hl. unfold TryReserveStackFrame. run_by (unfold stack_of; run_by done; by rewrite Ht).
  unfold MaximumFramesPerStack, kInitialStackFrameCapacity. unfold vsize. cbn [frames capacity empty_vector length].
  change (Z.of_nat 0) with 0. change (u64 (0 * 2)) with 0. rewrite decide_False by lia. rewrite decide_False by lia. replace (Z.min (Z.min 512 limit) (Z.max 80 0)) with limit by lia.
  rewrite decide_False by lia. run_by (unfold request; run_by done; run_by done; by rewrite Hexact).
  rewrite decide_False by lia. by run_by done.
Qed.

(** A thread without storage gets exactly [initial] frames when the budget has them. *)
Lemma admit_needy initial t b :
  stacks_ok b → 1 ≤ initial ≤ 80 → storage (stacks_ b) t = 0 → frameCapacity_ b + initial ≤ MaximumFrameCapacity →
  (stacks_ b !! t = None → Z.of_nat (size (stacks_ b)) < MaximumThreads) →
  ∃ b', admit_thread reserve emplace initial t b = (Ret tt, b') ∧
    stacks_ b' = <[t := fresh_vector initial]> (stacks_ b) ∧ frameCapacity_ b' = frameCapacity_ b + initial.
Proof.
  intros Hok Hi Hs Hf Hn. pose proof (budget_range b Hok). unfold admit_thread. unfold MaximumFrameCapacity, MaximumThreads in *.
  destruct (stacks_ b !! t) as [[fs c]|] eqn:Hv.
  - rewrite (storage_Some _ _ _ Hv) in Hs. cbn in Hs. subst c. destruct (vector_range b t _ Hok Hv) as [Hv' _]. cbn in Hv'.
    assert (fs = []) as -> by (destruct fs; [done|unfold vsize in Hv'; cbn in Hv'; lia]).
    eexists. run_by done. rewrite Hv. run_by done. cbv iota. run_by (unfold stack_of; run_by done; by rewrite Hv). cbn [capacity]. rewrite decide_True by done. run_by done.
    rewrite (wrap_small 64), Z.min_l by lia. run_by (by apply TryReserve_exact). cbv iota. run_by (unfold stack_of; run_by done; cbn [stacks_]; by rewrite lookup_insert_eq).
    split; [done|]. cbn. split; [done|]. apply wrap_small. lia.
  - eexists. run_by done. rewrite Hv, decide_False by (specialize (Hn eq_refl); lia).
    run_by (run_by (unfold request; run_by done; run_by done; by rewrite Hemplace); by run_by done). cbv iota.
    run_by (unfold stack_of; run_by done; cbn [stacks_]; by rewrite lookup_insert_eq). cbn [capacity empty_vector]. rewrite decide_True by done. run_by done.
    rewrite (wrap_small 64), Z.min_l by (cbn; lia). run_by (by apply TryReserve_exact; [apply lookup_insert_eq|]). cbv iota. run_by (unfold stack_of; run_by done; cbn [stacks_]; by rewrite lookup_insert_eq).
    split; [done|]. cbn. rewrite insert_insert_eq. split; [done|]. apply wrap_small. lia.
Qed.

Lemma admit_stored initial t b v :
  stacks_ b !! t = Some v → capacity v ≠ 0 → admit_thread reserve emplace initial t b = (Ret tt, b).
Proof.
  intros Hv Hc. unfold admit_thread. run_by done. rewrite Hv. run_by done. cbv iota. run_by (unfold stack_of; run_by done; by rewrite Hv).
  by rewrite decide_False.
Qed.
Lemma exact_reserve k n c : reserve k n = Some c → n ≤ c.
Proof. rewrite Hexact. by intros [= ->]. Qed.

(** During the admission of the threads still to visit: the budget has storage for those without. *)
Record admitting (old : gmap Z vector) (active : list Z) (initial : Z) (ts : list Z) (b : ThreadStacksBuffer) : Prop := {
  admitting_ok : stacks_ok b;
  admitting_nodup : NoDup ts;
  admitting_sub : ∀ t, t ∈ ts → t ∈ active;
  admitting_among : among (stacks_ b) active;
  admitting_budget : frameCapacity_ b + initial * Z.of_nat (length (needy (stacks_ b) ts)) ≤ MaximumFrameCapacity;
  admitting_done : ∀ t, t ∈ active → t ∉ ts → storage (stacks_ b) t ≠ 0;
  admitting_from : ∀ t v, stacks_ b !! t = Some v → capacity v ≠ 0 → v = fresh_vector initial ∨ old !! t = Some v;
}.

Lemma admitting_step old active initial t ts b X :
  NoDup active → Z.of_nat (length active) ≤ MaximumThreads → 1 ≤ initial ≤ 80 → admitting old active initial (t :: ts) b →
  wp (admit_thread reserve emplace initial t) b (λ _, admitting old active initial ts) X.
Proof.
  intros Hact Hn Hi [Hok Hnd Hsub Ham Hb Hdone Hfrom]. apply NoDup_cons in Hnd as [Ht Hnd]. rewrite needy_cons in Hb.
  destruct (decide (storage (stacks_ b) t = 0)) as [Hs|Hs].
  - cbn [length] in Hb. destruct (admit_needy initial t b Hok Hi Hs) as (b' & Hrun & Hst & Hfc); [nia| |].
    { intros Hv. eapply Z.lt_le_trans; [|done]. apply inj_lt.
      assert (Hmiss : (size (stacks_ b) < length active)%nat); [|lia].
      assert (H := among_missing (stacks_ b) active t Hact Ham (Hsub t ltac:(left)) Hv). done. }
    eapply wp_run; [done|]. 
    assert (Hok' := admit_thread_safe reserve emplace exact_reserve initial t ltac:(lia) b Hok). unfold wp in Hok'. rewrite Hrun in Hok'.
    split; rewrite ?Hst; [done|done| | | | |].
    + intros t' Ht'. apply Hsub. by right.
    + intros t' v [[<- _]|[_ Hv]]%lookup_insert_Some; [apply Hsub; by left|by eapply Ham].
    + rewrite Hfc, (needy_ext (stacks_ b)); [lia|]. intros t' Ht'. apply storage_other. congruence.
    + intros t' Ht' Hn'. destruct (decide (t' = t)) as [->|Hne].
      * rewrite (storage_Some _ _ (fresh_vector initial)) by apply lookup_insert_eq. cbn. lia.
      * unfold storage. rewrite lookup_insert_ne by done. apply Hdone; [done|]. by apply not_elem_of_cons.
    + intros t' v [[<- <-]|[_ Hv]]%lookup_insert_Some Hc; [by left|by apply Hfrom].
  - unfold storage in Hs. destruct (stacks_ b !! t) as [v|] eqn:Hv; [|done]. eapply wp_run; [by eapply admit_stored|].
    split; [done|done|intros; apply Hsub; by right|done|done| |done].
    intros t' Ht' Hn'. destruct (decide (t' = t)) as [->|Hne]; [by rewrite (storage_Some _ _ v)|].
    apply Hdone; [done|]. by apply not_elem_of_cons.
Qed.

Lemma prepared active b :
  stacks_ok b → NoDup active → Z.of_nat (length active) ≤ MaximumThreads →
  wp (PrepareForCapture reserve emplace active) b (λ _, admitting (stacks_ b) active (initial_capacity active) []) (λ _ _, False).
Proof.
  intros Hok Hnd Hn. pose proof (initial_capacity_range active) as Hi. unfold PrepareForCapture. wp_step (done). wp_step (done). apply wp_bind.
  eapply wp_mono; [apply (evict_wp active _ (λ _ _, False)); [|done]| |done]. { destruct Hok. by split. }
  cbn [stacks_]. intros _ b1 [[Hok1 Hc1] Hk]. wp_step (done).
  assert (Hcap : ∀ t v, stacks_ b1 !! t = Some v → capacity v ≠ 0) by (rewrite Hk; by intros t v (_ & ? & _)%kept_lookup).
  assert (Ham : among (stacks_ b1) active) by (rewrite Hk; by intros t v (_ & _ & ?)%kept_lookup).
  pose proof (count_missing _ _ Hnd Ham Hcap) as Hcount. pose proof (budget_range b1 Hok1).
  assert (thread_count active = Z.of_nat (length active)) as -> by (unfold thread_count; lia).
  unfold MaximumThreads in *. rewrite (wrap_small 64 (MaximumFrameCapacity - _)) by (unfold MaximumFrameCapacity; lia).
  rewrite (wrap_small 64 (_ - Z.of_nat _)) by lia. rewrite (wrap_small 64 ((_ - _) * _)) by nia.
  apply wp_bind, (wp_mono _ _ (λ _, admitting (stacks_ b) active (initial_capacity active) active) _ (λ _ _, False)); [| |done].
  - case_decide as Hlow.
    + eapply wp_mono; [apply (reclaim_wp (initial_capacity active) _ (λ _ _, False)); done| |done].
      intros _ b2 [[Hok2 _] Hr].
      assert (Hrec : ∀ t v, stacks_ b2 !! t = Some v → t ∈ active ∧ 0 ≤ capacity v ≤ initial_capacity active ∧
        (capacity v ≠ 0 → stacks_ b !! t = Some v)).
      { rewrite Hr, Hk. intros t v. unfold reclaimed. rewrite map_lookup_imap.
        destruct (kept active _ !! t) as [w|] eqn:E; [|done]. cbn. apply kept_lookup in E as (Hv & H0 & Ht).
        pose proof (vector_range b t w Hok Hv). intros [= <-]. case_decide; split_and!; cbn; try done; lia. }
      assert (Ham2 : among (stacks_ b2) active) by (intros t v Hv; apply (Hrec t v Hv)).
      split; try done.
      * rewrite (ok_total b2 Hok2).
        pose proof (total_bound (stacks_ b2) (initial_capacity active) active Hnd Ham2 (λ t v Hv, proj1 (proj2 (Hrec t v Hv)))).
        pose proof (initial_fits active Hn). lia.
      * intros t v Hv H0. right. by apply (Hrec t v Hv).
    + eapply wp_run; [done|]. split; try done.
      * nia.
      * rewrite Hk. intros t v (Hv & _)%kept_lookup _. by right.
  - intros _ b2 Hadm. apply for_each_wp; [|done]. intros. by apply admitting_step.
Qed.
End Exact.

(** With an allocator that gives what is asked for, a capture of up to 1024 threads admits every
    one of them and no other: each has the storage it had, or new storage of an even share, from 32
    to 80 frames. *)
Theorem threads_admitted reserve emplace b active :
  (∀ k n, reserve k n = Some n) → (∀ k, emplace k = true) → stacks_ok b → NoDup active → Z.of_nat (length active) ≤ 1024 →
  ∃ b', PrepareForCapture reserve emplace active b = (Ret tt, b') ∧ stacks_ok b' ∧ 32 ≤ initial_capacity active ≤ 80 ∧
    (∀ t, t ∈ active ↔ is_Some (stacks_ b' !! t)) ∧
    ∀ t v, stacks_ b' !! t = Some v → v = fresh_vector (initial_capacity active) ∨ stacks_ b !! t = Some v ∧ 0 < capacity v.
Proof.
  intros Hexact Hemplace Hok Hnd Hn. pose proof (prepared reserve emplace Hexact Hemplace active b Hok Hnd Hn) as H. unfold wp in H.
  destruct (PrepareForCapture _ _ _ _) as [[[]|[]| |] b']; [|done..]. destruct H as [Hok' _ _ Ham _ Hdone Hfrom].
  assert (Hhas : ∀ t, t ∈ active → ∃ v, stacks_ b' !! t = Some v ∧ capacity v ≠ 0).
  { intros t Ht. specialize (Hdone t Ht (not_elem_of_nil t)). unfold storage in Hdone. destruct (stacks_ b' !! t) as [v|]; [by exists v|done]. }
  exists b'. split_and!; [done|done| |by apply initial_capacity_range| |].
  - unfold initial_capacity, thread_count, kInitialStackFrameCapacity, MaximumThreads, MaximumFrameCapacity. case_decide; [lia|].
    assert (32 ≤ 32 * 1024 / Z.of_nat (length active) `min` 1024); [|lia]. apply Z.div_le_lower_bound; lia.
  - intros t. split; [intros (v & Hv & _)%Hhas; by exists v|intros [v Hv]; by eapply Ham].
  - intros t v Hv. destruct (Hhas t (Ham t v Hv)) as (w & Hw & Hc). assert (w = v) as -> by congruence.
    destruct (Hfrom t v Hv Hc) as [|Hold]; [by left|]. right. split; [done|]. pose proof (vector_range b t v Hok Hold). lia.
Qed.

Lemma threads_admitted_witness :
  let b := {| stacks_ := {[6 := fresh_vector 100]}; frameCapacity_ := 100; cachedThread_ := 0; cachedStack_ := None; requests := 0 |} in
  ∃ b', PrepareForCapture (λ _ n, Some n) (λ _, true) [5; 6; 7] b = (Ret tt, b') ∧ stacks_ok b' ∧ 32 ≤ initial_capacity [5; 6; 7] ≤ 80 ∧
    (∀ t, t ∈ [5; 6; 7] ↔ is_Some (stacks_ b' !! t)) ∧
    ∀ t v, stacks_ b' !! t = Some v → v = fresh_vector (initial_capacity [5; 6; 7]) ∨ stacks_ b !! t = Some v ∧ 0 < capacity v.
Proof.
  intros b. apply threads_admitted; [done|done| |by vm_compute; repeat constructor; set_solver|by vm_compute].
  split; [done|done| |done|done]. intros t v Hv. cbn [b stacks_] in Hv. apply lookup_singleton_Some in Hv as [<- <-]. by vm_compute.
Defined.
