(* ===== verification/ShutdownAdmission.v ===== *)
(** * The shutdown gate (shutdown_admission.h/.cpp)

    Operations enter and leave through one atomic 64-bit word, its top bit closing the gate and the
    others counting the operations inside; the shutdown waits on a condition variable for the word to
    be drained.  Any number of threads take part, each at a [location] of its function; every action
    below is one atomic access of the word or one critical section of the mutex, so a run is an
    interleaving of actions.  The atomic read-modify-writes of one word are totally ordered, which is
    all the model uses of the memory order; the loads are only hints for the exchanges that follow.

    The main results: once a waiter has returned no operation is inside or will ever be; the counter
    never overflows into the closing bit; and from every reachable state with the gate closed, all
    the waiters can still return, whatever has happened before: no notification is lost. *)

From stdpp Require Import relations fin_map_dom.
From S2P Require Import Prelude.

Definition kShutdownAdmissionClosingBit : Z := u64 (Z.shiftl 1 63).
Definition kShutdownAdmissionCountMask : Z := u64 (Z.lnot kShutdownAdmissionClosingBit).

(** Where a participant is: entering (with the word it last read), inside, refused or gone; about to
    set the drained predicate or to notify; waiting. *)
Inductive location :=
| Entering (state : Z)
| Inside
| Refused
| Gone
| Draining
| Notifying
| Finished
| Testing
| Asleep
| Returned.

#[export] Instance location_eq_dec : EqDecision location.
Proof. solve_decision. Defined.

Record admissions := {
  shutdown_admission_gate : Z;
  shutdown_admissions_drained : bool;
  locations : gmap nat location;
}.

Definition admissions_init : admissions :=
  {| shutdown_admission_gate := 0; shutdown_admissions_drained := false; locations := ∅ |}.

Definition move (i : nat) (l : location) (gate : Z) (s : admissions) : admissions :=
  {| shutdown_admission_gate := gate; shutdown_admissions_drained := shutdown_admissions_drained s;
     locations := <[i := l]> (locations s) |}.

(** [TryEnterShutdownAdmission]: the load, then the iterations of the loop.  The exchange is weak, so
    it may fail also when the word is the expected one. *)
Definition TryEnter_load (i : nat) (s : admissions) : admissions :=
  move i (Entering (shutdown_admission_gate s)) (shutdown_admission_gate s) s.

Definition refuses (state : Z) : bool :=
  bool_decide (Z.land state kShutdownAdmissionClosingBit ≠ 0) ||
  bool_decide (Z.land state kShutdownAdmissionCountMask = kShutdownAdmissionCountMask).

Definition TryEnter_iteration (i : nat) (state : Z) (spurious : bool) (s : admissions) : admissions :=
  let gate := shutdown_admission_gate s in
  if refuses state then move i Refused gate s
  else if bool_decide (gate = state) && negb spurious then move i Inside (u64 (state + 1)) s
  else move i (Entering gate) gate s.

Definition LeaveShutdownAdmission (i : nat) (s : admissions) : admissions :=
  let previous := shutdown_admission_gate s in
  let last := bool_decide (Z.land previous kShutdownAdmissionCountMask = 1) &&
              bool_decide (Z.land previous kShutdownAdmissionClosingBit ≠ 0) in
  move i (if last : bool then Draining else Gone) (u64 (previous - 1)) s.

Definition CloseShutdownAdmissions (i : nat) (s : admissions) : admissions :=
  let previous := shutdown_admission_gate s in
  move i (if bool_decide (Z.land previous kShutdownAdmissionCountMask = 0) then Draining else Finished)
    (Z.lor previous kShutdownAdmissionClosingBit) s.

(** [shutdown_admissions_drained = true] under the mutex, then [notify_all]. *)
Definition set_drained (i : nat) (s : admissions) : admissions :=
  {| shutdown_admission_gate := shutdown_admission_gate s; shutdown_admissions_drained := true;
     locations := <[i := Notifying]> (locations s) |}.

Definition woken (l : location) : location := match l with Asleep => Testing | _ => l end.

Definition notify_all (i : nat) (s : admissions) : admissions :=
  {| shutdown_admission_gate := shutdown_admission_gate s; shutdown_admissions_drained := shutdown_admissions_drained s;
     locations := <[i := Finished]> (woken <$> locations s) |}.

(** [shutdown_cv.wait]: the predicate is tested and the thread put to sleep under the mutex. *)
Definition WaitForShutdownAdmissions_test (i : nat) (s : admissions) : admissions :=
  move i (if shutdown_admissions_drained s then Returned else Asleep) (shutdown_admission_gate s) s.

Inductive action :=
| Enter (i : nat) (* a new ShutdownAdmission *)
| Close (i : nat)
| Wait (i : nat)
| Advance (i : nat) (spurious : bool). (* the next atomic action of a participant *)

Definition fire (a : action) (s : admissions) : option admissions :=
  match a with
  | Enter i => match locations s !! i with None => Some (TryEnter_load i s) | Some _ => None end
  | Close i => match locations s !! i with None => Some (CloseShutdownAdmissions i s) | Some _ => None end
  | Wait i => match locations s !! i with None => Some (WaitForShutdownAdmissions_test i s) | Some _ => None end
  | Advance i spurious =>
      match locations s !! i with
      | Some (Entering state) => Some (TryEnter_iteration i state spurious s)
      | Some Inside => Some (LeaveShutdownAdmission i s) (* ~ShutdownAdmission *)
      | Some Draining => Some (set_drained i s)
      | Some Notifying => Some (notify_all i s)
      | Some Testing => Some (WaitForShutdownAdmissions_test i s)
      | Some Asleep => Some (move i Testing (shutdown_admission_gate s) s) (* a spurious wakeup *)
      | _ => None
      end
  end.

Definition step (s s' : admissions) : Prop := ∃ a, fire a s = Some s'.

(** An interleaving: actions one after the other. *)
Definition run_actions (l : list action) (s : admissions) : option admissions := foldl (λ o a, o ≫= fire a) (Some s) l.

Definition closes (a : action) : bool := match a with Close _ => true | _ => false end.

Definition is_inside (l : location) : nat := match l with Inside => 1 | _ => 0 end.

(** How many operations are inside. *)
Definition inside (m : gmap nat location) : nat := weigh is_inside m.

Definition closed (s : admissions) : bool := Z.testbit (shutdown_admission_gate s) 63.

(** ** The word *)

Definition word (c : bool) (n : nat) : Z := (if c then 2 ^ 63 else 0) + Z.of_nat n.

Lemma closing_bit : kShutdownAdmissionClosingBit = 2 ^ 63.
Proof. done. Qed.

Lemma count_mask : kShutdownAdmissionCountMask = Z.ones 63.
Proof. done. Qed.

Lemma word_lor c n : Z.of_nat n < 2 ^ 63 → word c n = Z.lor ((if c then 1 else 0) * 2 ^ 63) (Z.of_nat n).
Proof. intros. unfold word. rewrite lor_disjoint by lia. destruct c; lia. Qed.

Lemma word_mask c n : Z.of_nat n < 2 ^ 63 → Z.land (word c n) kShutdownAdmissionCountMask = Z.of_nat n.
Proof.
  intros. rewrite count_mask, Z.land_ones by lia. unfold word. destruct c.
  - rewrite <-(Z.mul_1_l (2 ^ 63)) at 1. rewrite Z.add_comm, Z_mod_plus_full. apply Z.mod_small. lia.
  - apply Z.mod_small. lia.
Qed.

Lemma word_bit c n : Z.of_nat n < 2 ^ 63 → Z.land (word c n) kShutdownAdmissionClosingBit = if c then 2 ^ 63 else 0.
Proof.
  intros. rewrite word_lor, Z.land_lor_distr_l by done.
  rewrite <-(Z.mod_small (Z.of_nat n) (2 ^ 63)), <-Z.land_ones, <-Z.land_assoc by lia.
  change (Z.land (Z.ones 63) kShutdownAdmissionClosingBit) with 0. rewrite Z.land_0_r, Z.lor_0_r. by destruct c.
Qed.

Lemma word_close c n : Z.of_nat n < 2 ^ 63 → Z.lor (word c n) kShutdownAdmissionClosingBit = word true n.
Proof.
  intros. rewrite !word_lor by done. rewrite (Z.lor_comm _ (Z.of_nat n)), <-Z.lor_assoc, (Z.lor_comm _ (Z.of_nat n)).
  f_equal. by destruct c.
Qed.

Lemma word_closed c n : Z.of_nat n < 2 ^ 63 → Z.testbit (word c n) 63 = c.
Proof.
  intros. rewrite word_lor, Z.lor_spec by done. replace (Z.testbit (Z.of_nat n) 63) with false; [by destruct c|].
  symmetry. rewrite <-(Z.mod_small (Z.of_nat n) (2 ^ 63)) by lia. rewrite <-Z.land_ones by lia. by rewrite Z.land_spec, Z.ones_spec_high, andb_false_r.
Qed.

Lemma word_succ c n : Z.of_nat n + 1 < 2 ^ 63 → u64 (word c n + 1) = word c (S n).
Proof. intros. unfold word. rewrite wrap_small; destruct c; lia. Qed.

Lemma word_pred c n : Z.of_nat (S n) < 2 ^ 63 → u64 (word c (S n) - 1) = word c n.
Proof. intros. unfold word. rewrite wrap_small; destruct c; lia. Qed.

(** ** Sums over the participants *)

Lemma inside_insert m i l : (inside (<[i := l]> m) + weight_at is_inside (m !! i) = inside m + is_inside l)%nat.
Proof. apply weigh_insert. Qed.

Lemma inside_woken m : inside (woken <$> m) = inside m.
Proof. apply weigh_fmap. by intros []. Qed.

Lemma inside_zero m i : inside m = 0%nat → m !! i ≠ Some Inside.
Proof. unfold inside. intros H Hi. rewrite (weigh_delete _ m i), Hi in H. by cbn in H. Qed.

Lemma no_inside m : (∀ i, m !! i ≠ Some Inside) → inside m = 0%nat.
Proof.
  intros H. induction m as [|i l m Hi IH] using map_ind; [done|].
  pose proof (inside_insert m i l) as E. rewrite Hi in E. cbn in E. rewrite IH in E.
  - assert (l ≠ Inside) by (intros ->; apply (H i), lookup_insert_eq). destruct l; cbn in *; try done; lia.
  - intros j Hj. apply (H j). rewrite lookup_insert_ne; [done|]. intros ->. by rewrite Hi in Hj.
Qed.

(** ** The invariant; [c]: the gate is closed *)

Record admissions_ok (c : bool) (s : admissions) : Prop := {
  ok_word : shutdown_admission_gate s = word c (inside (locations s));
  ok_count : Z.of_nat (inside (locations s)) < 2 ^ 63;
  ok_draining : ∀ i, locations s !! i = Some Draining → c = true ∧ inside (locations s) = 0%nat;
  ok_drained : shutdown_admissions_drained s = true → c = true ∧ inside (locations s) = 0%nat;
  ok_pending : c = true → inside (locations s) = 0%nat → shutdown_admissions_drained s = true ∨ ∃ i, locations s !! i = Some Draining;
  ok_asleep : ∀ j, shutdown_admissions_drained s = true → locations s !! j = Some Asleep → ∃ i, locations s !! i = Some Notifying;
  ok_returned : ∀ i, locations s !! i = Some Returned ∨ locations s !! i = Some Notifying → shutdown_admissions_drained s = true;
}.

(** Moving one participant, between locations that are not waited for, the number inside and the
    gate changing together. *)
Lemma move_ok c c' s i l g :
  admissions_ok c s → (c = true → c' = true) →
  g = word c' (inside (<[i := l]> (locations s))) → Z.of_nat (inside (<[i := l]> (locations s))) < 2 ^ 63 →
  locations s !! i ≠ Some Draining → locations s !! i ≠ Some Notifying → l ≠ Notifying →
  (l = Draining ∨ shutdown_admissions_drained s = true → c' = true ∧ inside (<[i := l]> (locations s)) = 0%nat) →
  (c' = true → inside (<[i := l]> (locations s)) = 0%nat → l = Draining ∨ c = true ∧ inside (locations s) = 0%nat) →
  (l = Asleep → shutdown_admissions_drained s = false) → (l = Returned → shutdown_admissions_drained s = true) →
  (∀ j, j ≠ i → locations s !! j = Some Draining → inside (<[i := l]> (locations s)) = 0%nat) →
  admissions_ok c' (move i l g s).
Proof.
  intros [H1 H2 H3 H4 H5 H6 H7] Hc Hg Hn Hi1 Hi2 Hl Hd Hp Ha Hr Hj. split; cbn; [done|done|..].
  - intros j [[<- ->]|[Hne Hl']]%lookup_insert_Some; [by apply Hd; left|].
    split; [apply Hc; by apply (H3 j)|]. by apply (Hj j).
  - intros Hd'. apply Hd. by right.
  - intros Hc' H0. destruct (Hp Hc' H0) as [->|[Hct Hin]]; [right; exists i; by apply lookup_insert_eq|].
    destruct (H5 Hct Hin) as [|[k Hk]]; [by left|]. right. exists k. rewrite lookup_insert_ne; [done|congruence].
  - intros j Hd' [[<- ->]|[Hne Hl']]%lookup_insert_Some; [rewrite Ha in Hd' by done; done|].
    destruct (H6 j Hd' Hl') as [k Hk]. exists k. rewrite lookup_insert_ne; [done|congruence].
  - intros j. rewrite !lookup_insert_Some. intros [[[<- ?]|[? ?]]|[[<- ?]|[? ?]]]; [by apply Hr|eapply H7; by left|done|eapply H7; by right].
Qed.

(** A move that changes neither the word nor the number inside. *)
Lemma move_quiet c s i l :
  admissions_ok c s → weight_at is_inside (locations s !! i) = 0%nat → locations s !! i ≠ Some Draining → locations s !! i ≠ Some Notifying →
  l ≠ Inside → l ≠ Draining → l ≠ Notifying → (l = Asleep → shutdown_admissions_drained s = false) →
  (l = Returned → shutdown_admissions_drained s = true) → admissions_ok c (move i l (shutdown_admission_gate s) s).
Proof.
  intros Hok H0 Hi1 Hi2 Hl1 Hl2 Hl3 Ha Hr. pose proof (inside_insert (locations s) i l) as Hins.
  assert (is_inside l = 0%nat) as Hl by (by destruct l).
  assert (inside (<[i := l]> (locations s)) = inside (locations s)) as E by lia.
  apply (move_ok c c); rewrite ?E; try done.
  - apply Hok.
  - apply Hok.
  - intros [|Hd]; [done|by apply Hok].
  - by right.
  - intros j _ Hj. by apply (ok_draining c s Hok j).
Qed.

Lemma TryEnter_iteration_ok c s i state spurious :
  admissions_ok c s → locations s !! i = Some (Entering state) → admissions_ok c (TryEnter_iteration i state spurious s).
Proof.
  intros Hok Hi. pose proof (ok_word c s Hok) as Hw. pose proof (ok_count c s Hok) as Hn. unfold TryEnter_iteration.
  destruct (refuses state) eqn:Href; [apply move_quiet; by rewrite ?Hi|].
  destruct (bool_decide _ && _) eqn:Hcas; [|apply move_quiet; by rewrite ?Hi].
  apply andb_prop in Hcas as [Hcas _]. apply bool_decide_eq_true in Hcas. subst state.
  unfold refuses in Href. apply orb_false_iff in Href as [Hr1 Hr2]. apply bool_decide_eq_false in Hr1, Hr2.
  rewrite Hw, word_bit in Hr1 by done. rewrite Hw, word_mask in Hr2 by done. destruct c; [by destruct Hr1|].
  change kShutdownAdmissionCountMask with (2 ^ 63 - 1) in Hr2.
  pose proof (inside_insert (locations s) i Inside) as E. rewrite Hi in E. cbn in E.
  apply (move_ok false false); rewrite ?Hi; try done; try lia.
  - rewrite Hw, word_succ by lia. f_equal. lia.
  - intros [|[? _]%(ok_drained _ _ Hok)]; done.
  - intros j _ [? _]%(ok_draining _ _ Hok). done.
Qed.

Lemma Leave_ok c s i : admissions_ok c s → locations s !! i = Some Inside → admissions_ok c (LeaveShutdownAdmission i s).
Proof.
  intros Hok Hi. pose proof (ok_word c s Hok) as Hw. pose proof (ok_count c s Hok) as Hn. unfold LeaveShutdownAdmission.
  rewrite Hw, word_mask, word_bit by done. replace (bool_decide ((if c then 2 ^ 63 else 0) ≠ 0)) with c by (by destruct c).
  set (l := if _ && _ then Draining else Gone).
  pose proof (inside_insert (locations s) i l) as E. rewrite Hi in E.
  assert (is_inside l = 0%nat) as El by (by unfold l; destruct (_ && _)). rewrite El in E. cbn in E.
  destruct (inside (locations s)) as [|n] eqn:En; [lia|]. assert (inside (<[i := l]> (locations s)) = n) as E' by lia.
  assert (Hlast : l = Draining ↔ c = true ∧ n = 0%nat).
  { unfold l. destruct (bool_decide (Z.of_nat (S n) = 1)) eqn:B1; cbn.
    - apply bool_decide_eq_true in B1. destruct c; split; try done; [|by intros [? _]]. intros _. split; [done|lia].
    - apply bool_decide_eq_false in B1. split; [done|]. intros [_ ->]. done. }
  apply (move_ok c c); rewrite ?Hi, ?E'; try done; try lia.
  - by apply word_pred.
  - by unfold l; destruct (_ && _).
  - intros [Hl|[_ Hd]%(ok_drained _ _ Hok)]; [by apply Hlast|lia].
  - intros Hc H0. left. by apply Hlast.
  - by unfold l; destruct (_ && _).
  - by unfold l; destruct (_ && _).
  - intros j _ [_ Hd]%(ok_draining _ _ Hok). lia.
Qed.

Lemma Close_ok c s i : admissions_ok c s → locations s !! i = None → admissions_ok true (CloseShutdownAdmissions i s).
Proof.
  intros Hok Hi. pose proof (ok_word c s Hok) as Hw. pose proof (ok_count c s Hok) as Hn. unfold CloseShutdownAdmissions.
  rewrite Hw, word_mask, word_close by done. set (l := if bool_decide (Z.of_nat (inside (locations s)) = 0) then Draining else Finished).
  pose proof (inside_insert (locations s) i l) as E. rewrite Hi in E.
  assert (is_inside l = 0%nat) as El by (by unfold l; case_bool_decide). rewrite El in E. cbn in E.
  assert (inside (<[i := l]> (locations s)) = inside (locations s)) as E' by lia.
  assert (Hl : l = Draining ↔ inside (locations s) = 0%nat) by (unfold l; case_bool_decide; split; intros; try done; lia).
  apply (move_ok c true); rewrite ?Hi, ?E'; try done.
  - by unfold l; case_bool_decide.
  - intros [?|[_ Hd]%(ok_drained _ _ Hok)]; split; try done. by apply Hl.
  - intros _ H0. left. by apply Hl.
  - by unfold l; case_bool_decide.
  - by unfold l; case_bool_decide.
  - intros j _ [_ Hd]%(ok_draining _ _ Hok). done.
Qed.

Lemma set_drained_ok c s i : admissions_ok c s → locations s !! i = Some Draining → admissions_ok c (set_drained i s).
Proof.
  intros Hok Hi. destruct (ok_draining _ _ Hok i Hi) as [-> H0].
  assert (inside (<[i := Notifying]> (locations s)) = 0%nat) as E.
  { pose proof (inside_insert (locations s) i Notifying) as E. rewrite Hi in E. cbn in E. lia. }
  destruct Hok as [H1 H2 H3 H4 H5 H6 H7]. split; cbn; rewrite ?E; rewrite ?H0 in *; try done; try (by left).
  intros j _ Hj. exists i. apply lookup_insert_eq.
Qed.

Lemma notify_all_ok c s i : admissions_ok c s → locations s !! i = Some Notifying → admissions_ok c (notify_all i s).
Proof.
  intros Hok Hi. pose proof (ok_returned _ _ Hok i (or_intror Hi)) as Hd. destruct (ok_drained _ _ Hok Hd) as [-> H0].
  assert (inside (<[i := Finished]> (woken <$> locations s)) = 0%nat) as E.
  { pose proof (inside_insert (woken <$> locations s) i Finished) as E. rewrite lookup_fmap, Hi, inside_woken in E. cbn in E. lia. }
  destruct Hok as [H1 H2 H3 H4 H5 H6 H7]. split; cbn; rewrite ?E; rewrite ?H0 in *; try done; try (by left).
  intros j _ [[<- ?]|[_ Hj]]%lookup_insert_Some; [done|]. rewrite lookup_fmap in Hj.
  destruct (locations s !! j) as [[]|]; done.
Qed.

Lemma fire_ok a c s s' : admissions_ok c s → fire a s = Some s' → admissions_ok (c || closes a) s'.
Proof.
  intros Hok Hf.
  destruct a as [i|i|i|i spurious]; cbn [closes]; rewrite ?orb_false_r, ?orb_true_r; cbn in Hf; destruct (locations s !! i) as [l|] eqn:Hi; simplify_eq.
  - apply move_quiet; by rewrite ?Hi.
  - by eapply Close_ok.
  - apply move_quiet; rewrite ?Hi; try done; by destruct (shutdown_admissions_drained s).
  - destruct l as [state| | | | | | | | | ]; simplify_eq.
    + by apply TryEnter_iteration_ok.
    + by apply Leave_ok.
    + by apply set_drained_ok.
    + by apply notify_all_ok.
    + apply move_quiet; rewrite ?Hi; try done; by destruct (shutdown_admissions_drained s).
    + by apply move_quiet; rewrite ?Hi.
Qed.

Lemma admissions_init_ok : admissions_ok false admissions_init.
Proof. split; cbn; try done; intros; naive_solver. Qed.

Lemma run_actions_none l : foldl (λ o a, o ≫= fire a) None l = None.
Proof. by induction l. Qed.

Lemma run_actions_cons a l s s' : run_actions (a :: l) s = Some s' → ∃ s1, fire a s = Some s1 ∧ run_actions l s1 = Some s'.
Proof.
  unfold run_actions. cbn [foldl mbind option_bind]. destruct (fire a s) as [s1|]; [by exists s1|]. by rewrite run_actions_none.
Qed.

Lemma run_actions_steps l s s' : run_actions l s = Some s' → rtc step s s'.
Proof.
  revert s. induction l as [|a l IH]; intros s; [by intros [= ->]|]. intros (s1 & H1 & H)%run_actions_cons.
  eapply rtc_l; [by exists a|]. by apply IH.
Qed.

(** The gate is closed once somebody has closed it. *)
Lemma run_actions_ok l c s s' : admissions_ok c s → run_actions l s = Some s' → admissions_ok (c || existsb closes l) s'.
Proof.
  revert c s. induction l as [|a l IH]; intros c s Hok; cbn [existsb]; [intros [= <-]; by rewrite orb_false_r|].
  intros (s1 & H1 & H)%run_actions_cons. rewrite orb_assoc. eapply IH; [by eapply fire_ok|done].
Qed.

Lemma steps_ok c s s' : admissions_ok c s → rtc step s s' → ∃ c', (c = true → c' = true) ∧ admissions_ok c' s'.
Proof.
  intros Hok Hs. revert c Hok. induction Hs as [s|s s1 s' [a Ha] _ IH]; intros c Hok; [by exists c|].
  destruct (IH _ (fire_ok a c s s1 Hok Ha)) as (c' & Hc' & Hok'). exists c'. split; [intros ->; by apply Hc'|done].
Qed.

Lemma ok_closed c s : admissions_ok c s → closed s = c.
Proof. intros Hok. unfold closed. rewrite (ok_word _ _ Hok). apply word_closed, Hok. Qed.

Lemma fire_drained a s s' : fire a s = Some s' → shutdown_admissions_drained s = true → shutdown_admissions_drained s' = true.
Proof.
  intros Hf Hd. destruct a as [i|i|i|i spurious]; cbn in Hf; destruct (locations s !! i) as [[]|]; simplify_eq; try done.
  unfold TryEnter_iteration. by destruct (refuses _); [|destruct (_ && _)].
Qed.

Lemma run_actions_drained l s s' :
  run_actions l s = Some s' → shutdown_admissions_drained s = true → shutdown_admissions_drained s' = true.
Proof.
  revert s. induction l as [|a l IH]; intros s; [by intros [= ->]|]. intros (s1 & H1 & H)%run_actions_cons Hd.
  eapply IH; [done|]. by eapply fire_drained.
Qed.

(** C22: In every interleaving of any number of operations, closers and waiters, and at every moment of
    it: the word is the number of operations inside, plus the closing bit once somebody has closed the
    gate, and the number never overflows into that bit; and once a call of WaitForShutdownAdmissions
    has returned, the gate has been closed and no operation is inside, then or ever after. *)
Theorem no_operation_after_wait actions s :
  run_actions actions admissions_init = Some s →
  shutdown_admission_gate s = (if existsb closes actions then 2 ^ 63 else 0) + Z.of_nat (inside (locations s)) ∧
  Z.of_nat (inside (locations s)) < 2 ^ 63 ∧
  ∀ i, locations s !! i = Some Returned → existsb closes actions = true ∧
    ∀ more s', run_actions more s = Some s' → shutdown_admission_gate s' = 2 ^ 63 ∧ ∀ j, locations s' !! j ≠ Some Inside.
Proof.
  intros Hs. pose proof (run_actions_ok _ _ _ _ admissions_init_ok Hs) as Hok. cbn [orb] in Hok.
  split_and!; [apply Hok|apply Hok|]. intros i Hi. pose proof (ok_returned _ _ Hok i (or_introl Hi)) as Hd.
  split; [by apply (ok_drained _ _ Hok)|]. intros more s' Hs'. pose proof (run_actions_ok _ _ _ _ Hok Hs') as Hok'.
  destruct (ok_drained _ _ Hok' (run_actions_drained _ _ _ Hs' Hd)) as [Hc H0].
  split; [rewrite (ok_word _ _ Hok'), Hc, H0; done|]. intros j. by apply inside_zero.
Qed.

(** ** Completion *)

(** The next action of a participant that is there, other than a spurious wakeup. *)
Definition own_step (s s' : admissions) : Prop :=
  ∃ i spurious, locations s !! i ≠ Some Asleep ∧ fire (Advance i spurious) s = Some s'.

Definition work (l : location) : nat :=
  match l with Entering state => if refuses state then 1 else 2 | Inside => 3 | Draining => 2 | Notifying => 1 | _ => 0 end.

Definition waits (l : location) : nat := match l with Testing => 1 | _ => 0 end.

Lemma refuses_closed s : admissions_ok true s → refuses (shutdown_admission_gate s) = true.
Proof.
  intros Hok. unfold refuses. rewrite (ok_word _ _ Hok), word_bit by apply Hok. done.
Qed.

Lemma own_step_decreases s s' :
  admissions_ok true s → own_step s s' →
  admissions_ok true s' ∧
  (weigh work (locations s') < weigh work (locations s) ∨
   weigh work (locations s') = weigh work (locations s) ∧ weigh waits (locations s') < weigh waits (locations s))%nat.
Proof.
  intros Hok (i & spurious & Hna & Hf). split.
  { exact (fire_ok _ true _ _ Hok Hf). }
  cbn in Hf. destruct (locations s !! i) as [l|] eqn:Hi; [|done].
  assert (Hmove : ∀ l' g, (work l' < work l ∨ work l' = work l ∧ waits l' < waits l)%nat → let m := locations (move i l' g s) in
    (weigh work m < weigh work (locations s) ∨ weigh work m = weigh work (locations s) ∧ weigh waits m < weigh waits (locations s))%nat).
  { intros l' g Hlt. cbn. pose proof (weigh_insert work (locations s) i l') as E1. pose proof (weigh_insert waits (locations s) i l') as E2.
    rewrite Hi in E1, E2. cbn [weight_at] in E1, E2. lia. }
  destruct l as [state| | | | | | | | | ]; simplify_eq.
  - pose proof (refuses_closed s Hok) as Hr. unfold TryEnter_iteration. cbn [work waits] in Hmove. destruct (refuses state) eqn:E.
    + apply Hmove. cbn. lia.
    + rewrite bool_decide_eq_false_2 by (intros <-; by rewrite Hr in E). apply Hmove. cbn. rewrite Hr. lia.
  - apply Hmove. destruct (_ && _); cbn; lia.
  - left. cbn. pose proof (weigh_insert work (locations s) i Notifying) as E. rewrite Hi in E. cbn in E. lia.
  - left. cbn. pose proof (weigh_insert work (woken <$> locations s) i Finished) as E.
    rewrite lookup_fmap, Hi, weigh_fmap in E by (by intros []). cbn in E. lia.
  - apply Hmove. destruct (shutdown_admissions_drained s); cbn; lia.
Qed.

Lemma own_steps_end s : admissions_ok true s → Acc (λ s2 s1, own_step s1 s2) s.
Proof.
  remember (weigh work (locations s)) as n eqn:En. remember (weigh waits (locations s)) as k eqn:Ek. revert k s En Ek.
  induction (lt_wf n) as [n _ IHn]. intros k. induction (lt_wf k) as [k _ IHk]. intros s -> -> Hok. constructor. intros s' Hs.
  destruct (own_step_decreases s s' Hok Hs) as [Hok' [Hlt|[Heq Hlt]]].
  - by eapply IHn.
  - by eapply IHk.
Qed.

(** C23: Once the gate is closed, and if no other participant comes, every schedule of the participants'
    own actions ends, failing exchanges included; and where it ends every operation has left, and every
    waiter has returned. No wakeup is lost: none of the actions is a spurious wakeup. *)
Theorem shutdown_completes s :
  rtc step admissions_init s → closed s = true →
  Acc (λ s2 s1, own_step s1 s2) s ∧
  ∀ s', rtc own_step s s' → (∀ s'', ¬ own_step s' s'') →
    ∀ i l, locations s' !! i = Some l → l ∈ [Refused; Gone; Finished; Returned].
Proof.
  intros Hs Hc. destruct (steps_ok _ _ _ admissions_init_ok Hs) as (c & _ & Hok). rewrite (ok_closed _ _ Hok) in Hc. subst c.
  split; [by apply own_steps_end|]. intros s' Hs' Hend.
  assert (admissions_ok true s') as Hok'.
  { clear -Hok Hs'. induction Hs' as [s|s s1 s' Ha _ IH]; [done|]. apply IH. by eapply own_step_decreases. }
  assert (Hrest : ∀ i l, locations s' !! i = Some l → l ≠ Asleep → l ∈ [Refused; Gone; Finished; Returned]).
  { intros i l Hi Hl. assert (fire (Advance i false) s' = None) as Hf.
    { destruct (fire (Advance i false) s') as [s''|] eqn:E; [|done]. destruct (Hend s''). exists i, false. rewrite Hi. split; [congruence|done]. }
    cbn in Hf. rewrite Hi in Hf. destruct l; try done; set_solver. }
  intros i l Hi. apply (Hrest i l Hi). intros ->.
  assert (H0 : inside (locations s') = 0%nat).
  { apply no_inside. intros j Hj. specialize (Hrest j _ Hj). set_solver. }
  destruct (ok_pending _ _ Hok' eq_refl H0) as [Hd|[j Hj]].
  - destruct (ok_asleep _ _ Hok' i Hd Hi) as [j Hj]. specialize (Hrest j _ Hj). set_solver.
  - specialize (Hrest j _ Hj). set_solver.
Qed.

(** Two operations: one inside when the gate closes, the other still entering, and a waiter asleep. *)
Definition example_actions : list action := [Enter 0; Enter 1; Advance 0 false; Close 2; Wait 3].

Definition example_closed : admissions := default admissions_init (run_actions example_actions admissions_init).

Definition example_rest : list action := (λ i, Advance i false) <$> [0; 0; 0; 1; 1; 3]%nat.

Definition example_over : admissions :=
  default admissions_init (run_actions example_rest example_closed).

(** While one is inside the word counts it; in the end all have left. *)
Lemma no_operation_after_wait_witness :
  shutdown_admission_gate example_closed = 2 ^ 63 + 1 ∧ inside (locations example_closed) = 1%nat ∧
  locations example_over !! 3%nat = Some Returned ∧ shutdown_admission_gate example_over = 2 ^ 63 ∧
  ∀ j, locations example_over !! j ≠ Some Inside.
Proof.
  destruct (no_operation_after_wait example_actions example_closed) as (H & _ & _); [by vm_compute|].
  assert (inside (locations example_closed) = 1%nat) as Hin by by vm_compute. rewrite Hin in H. split; [exact H|]. split; [done|].
  split; [by vm_compute|].
  destruct (no_operation_after_wait (example_actions ++ example_rest) example_over) as (_ & _ & Hr); [by vm_compute|].
  apply (Hr 3%nat ltac:(by vm_compute)) with (more := []). done.
Defined.

Lemma shutdown_completes_witness :
  Acc (λ s2 s1, own_step s1 s2) example_closed ∧
  ∀ s', rtc own_step example_closed s' → (∀ s'', ¬ own_step s' s'') →
    ∀ i l, locations s' !! i = Some l → l ∈ [Refused; Gone; Finished; Returned].
Proof. apply shutdown_completes; [apply (run_actions_steps example_actions); by vm_compute|by vm_compute]. Defined.
