(* ===== verification/SamplerLifecycle.v ===== *)
(** * The life cycle of the sampler (ContinuousProfiler of continuous_profiler.h/.cpp)

    The operations by which the runtime sampler service controls the sampler: the thread-sampling
    worker, the EventPipe session of allocation sampling, the published configuration and the
    shutdown.  What the runtime and the standard library answer to a call is the instance of
    [Runtime]: they may answer the k-th call differently each time, and fail.  [effects] records what
    the operations did outside, in order; [monitor] says which records are legal. *)

From S2P Require Import Prelude.

(** HRESULTs are signed. *)
Definition FAILED (hr : Z) : bool := bool_decide (hr < 0).

(** The answers to the [k]-th call. *)
Class Runtime := {
  (* std::thread and, once it runs, InitializeCurrentThread of the worker *)
  start_worker : nat → option Z;
  (* std::make_unique of the allocation sub-sampler *)
  make_sub_sampler : nat → bool;
  (* the IAllocationSamplingSessionProvider: an HRESULT and a session *)
  EventPipeStartSession : nat → Z * Z;
  EventPipeStopSession : nat → Z → Z;
  (* the provider, the stack walker with its guard, and the sampler *)
  make_sampler : nat → bool;
  reserve_selective_buffers : nat → bool;
  GetEventMask2 : nat → Z;
  SetEventMask2 : nat → Z;
}.

(** Every call succeeds. *)
Record runtime_good `{Runtime} : Prop := {
  good_worker : ∀ k, ∃ hr, start_worker k = Some hr ∧ FAILED hr = false;
  good_sub_sampler : ∀ k, make_sub_sampler k = true;
  good_session : ∀ k, FAILED (EventPipeStartSession k).1 = false ∧ (EventPipeStartSession k).2 ≠ 0;
  good_sampler : ∀ k, make_sampler k = true;
  good_buffers : ∀ k, reserve_selective_buffers k = true;
  good_events : ∀ k, FAILED (GetEventMask2 k) = false ∧ FAILED (SetEventMask2 k) = false;
}.

Inductive effect :=
| WorkerStarted
| WorkerJoined
| SessionStarted (hr session : Z)
| SessionStopped (session hr : Z)
| TargetPublished (target : Z)
| Staged (cpu selective : Z)
| EventsEnabled
| AdmissionsClosed (* CloseShutdownAdmissions, the token and the cleared profiler_info *)
| WalkerStopRequested
| AdmissionsDrained (* WaitForShutdownAdmissions *)
| WalkerStopped. (* the guard is joined *)

Record world := { effects : list effect; asked : nat }.

Definition world_init : world := {| effects := []; asked := 0 |}.

Record ThreadSamplingConfiguration := {
  cpuSamplingInterval : Z;
  selectiveSamplingInterval : Z;
  version : Z;
}.

Inductive AllocationSamplingSessionState := SessionNone | SessionActive | PermanentlyDisabled.

#[export] Instance session_state_eq_dec : EqDecision AllocationSamplingSessionState.
Proof. solve_decision. Defined.

Record ContinuousProfiler := {
  desired_thread_sampling_configuration_ : ThreadSamplingConfiguration;
  thread_sampling_thread_ : bool; (* there is a thread *)
  thread_sampling_worker_failed_ : bool;
  allocationSubSampler : option Z; (* its target per cycle *)
  allocation_sampling_session_state_ : AllocationSamplingSessionState;
  session_ : Z;
  shutdown_requested_ : bool;
  shutdown_completed_ : bool;
}.

Definition ContinuousProfiler_init : ContinuousProfiler :=
  {| desired_thread_sampling_configuration_ := {| cpuSamplingInterval := 0; selectiveSamplingInterval := 0; version := 0 |};
     thread_sampling_thread_ := false; thread_sampling_worker_failed_ := false; allocationSubSampler := None;
     allocation_sampling_session_state_ := SessionNone; session_ := 0; shutdown_requested_ := false; shutdown_completed_ := false |}.

Definition set_desired (c : ThreadSamplingConfiguration) (p : ContinuousProfiler) : ContinuousProfiler :=
  {| desired_thread_sampling_configuration_ := c;
     thread_sampling_thread_ := thread_sampling_thread_ p; thread_sampling_worker_failed_ := thread_sampling_worker_failed_ p;
     allocationSubSampler := allocationSubSampler p; allocation_sampling_session_state_ := allocation_sampling_session_state_ p;
     session_ := session_ p; shutdown_requested_ := shutdown_requested_ p; shutdown_completed_ := shutdown_completed_ p |}.
Definition set_thread (thread failed : bool) (p : ContinuousProfiler) : ContinuousProfiler :=
  {| desired_thread_sampling_configuration_ := desired_thread_sampling_configuration_ p;
     thread_sampling_thread_ := thread; thread_sampling_worker_failed_ := failed;
     allocationSubSampler := allocationSubSampler p; allocation_sampling_session_state_ := allocation_sampling_session_state_ p;
     session_ := session_ p; shutdown_requested_ := shutdown_requested_ p; shutdown_completed_ := shutdown_completed_ p |}.
Definition set_target (t : option Z) (p : ContinuousProfiler) : ContinuousProfiler :=
  {| desired_thread_sampling_configuration_ := desired_thread_sampling_configuration_ p;
     thread_sampling_thread_ := thread_sampling_thread_ p; thread_sampling_worker_failed_ := thread_sampling_worker_failed_ p;
     allocationSubSampler := t; allocation_sampling_session_state_ := allocation_sampling_session_state_ p;
     session_ := session_ p; shutdown_requested_ := shutdown_requested_ p; shutdown_completed_ := shutdown_completed_ p |}.
Definition set_session (s : AllocationSamplingSessionState) (h : Z) (p : ContinuousProfiler) : ContinuousProfiler :=
  {| desired_thread_sampling_configuration_ := desired_thread_sampling_configuration_ p;
     thread_sampling_thread_ := thread_sampling_thread_ p; thread_sampling_worker_failed_ := thread_sampling_worker_failed_ p;
     allocationSubSampler := allocationSubSampler p; allocation_sampling_session_state_ := s;
     session_ := h; shutdown_requested_ := shutdown_requested_ p; shutdown_completed_ := shutdown_completed_ p |}.
Definition set_shutdown (requested completed : bool) (p : ContinuousProfiler) : ContinuousProfiler :=
  {| desired_thread_sampling_configuration_ := desired_thread_sampling_configuration_ p;
     thread_sampling_thread_ := thread_sampling_thread_ p; thread_sampling_worker_failed_ := thread_sampling_worker_failed_ p;
     allocationSubSampler := allocationSubSampler p; allocation_sampling_session_state_ := allocation_sampling_session_state_ p;
     session_ := session_ p; shutdown_requested_ := requested; shutdown_completed_ := completed |}.

Abbreviation P := (stM (ContinuousProfiler * world) unit).

Definition profiler : P ContinuousProfiler := s ← get; mret s.1.
Definition update (f : ContinuousProfiler → ContinuousProfiler) : P unit := modify (λ s, (f s.1, s.2)).
Definition perform (e : effect) : P unit := modify (λ s, (s.1, {| effects := effects s.2 ++ [e]; asked := asked s.2 |})).
Definition ask {A} (answer : nat → A) : P A :=
  s ← get; modify (λ s, (s.1, {| effects := effects s.2; asked := S (asked s.2) |}));; mret (answer (asked s.2)).

Definition StageThreadSamplingConfiguration (cpu selective : Z) : P unit :=
  p ← profiler;
  update (set_desired {| cpuSamplingInterval := cpu; selectiveSamplingInterval := selective;
                         version := u64 (version (desired_thread_sampling_configuration_ p) + 1) |});;
  perform (Staged cpu selective).

(** AllocationSubSampler::SetTargetPerCycle, as far as the target is concerned. *)
Definition UpdateAllocationSamplingTarget (maxMemorySamplesPerMinute : Z) : P unit :=
  p ← profiler;
  match allocationSubSampler p with
  | None => mret tt
  | Some _ => update (set_target (Some maxMemorySamplesPerMinute));; perform (TargetPublished maxMemorySamplesPerMinute)
  end.

Definition MarkThreadSamplingWorkerFailed (p : ContinuousProfiler) : ContinuousProfiler := set_thread (thread_sampling_thread_ p) true p.

Section Lifecycle.
Context `{Runtime}.

Definition StartThreadSampling : P bool :=
  p ← profiler;
  if shutdown_requested_ p || thread_sampling_worker_failed_ p then mret false
  else if thread_sampling_thread_ p then mret true
  else
    result ← ask start_worker;
    match result with
    | None => mret false (* std::thread has thrown *)
    | Some result =>
        if FAILED result then mret false (* the worker has returned; it is joined and reset *)
        else update (set_thread true (thread_sampling_worker_failed_ p));; perform WorkerStarted;; mret true
    end.

Definition StartAllocationSamplingSession : P bool :=
  p ← profiler;
  if decide (allocation_sampling_session_state_ p = PermanentlyDisabled) then mret false
  else
    made ←
      match allocationSubSampler p with
      | Some _ => mret true
      | None => made ← ask make_sub_sampler; if made : bool then update (set_target (Some 0));; mret true else mret false
      end;
    if made : bool then
      if decide (allocation_sampling_session_state_ p = SessionActive) then mret true
      else
        '(hr, candidateSession) ← ask EventPipeStartSession;
        perform (SessionStarted hr candidateSession);;
        if FAILED hr || bool_decide (candidateSession = 0) then
          update (set_session PermanentlyDisabled candidateSession);; mret false
        else update (set_session SessionActive candidateSession);; mret true
    else mret false.

Definition StopAllocationSamplingSession : P bool :=
  UpdateAllocationSamplingTarget 0;;
  p ← profiler;
  match allocation_sampling_session_state_ p with
  | PermanentlyDisabled => mret false
  | SessionNone => mret true
  | SessionActive =>
      hr ← ask (λ k, EventPipeStopSession k (session_ p));
      perform (SessionStopped (session_ p) hr);;
      if FAILED hr then update (set_session PermanentlyDisabled (session_ p));; mret false
      else update (set_session SessionNone 0);; mret true
  end.

(** A call that finds the shutdown requested waits for its completion. *)
Definition ContinuousProfiler_Shutdown : P unit :=
  p ← profiler;
  if shutdown_requested_ p then mret tt
  else
    update (set_shutdown true (shutdown_completed_ p));; perform AdmissionsClosed;;
    UpdateAllocationSamplingTarget 0;;
    perform WalkerStopRequested;;
    StopAllocationSamplingSession;;
    p ← profiler;
    (if thread_sampling_thread_ p then perform WorkerJoined;; update (set_thread false (thread_sampling_worker_failed_ p)) else mret tt);;
    perform AdmissionsDrained;;
    perform WalkerStopped;;
    update (set_shutdown true true).
End Lifecycle.

(** ** What may be done when *)

Inductive session_view := Closed | Open (session : Z) | Dead.

Record view := {
  view_session : session_view;
  view_worker : bool;
  view_target : Z; (* 0: no allocation is sampled *)
  view_staged : Z * Z;
  view_events : bool;
  view_stage : nat; (* of the shutdown: 1 closed, 2 the walker told to stop, 3 drained, 4 over *)
}.

Definition view_init : view :=
  {| view_session := Closed; view_worker := false; view_target := 0; view_staged := (0, 0); view_events := false; view_stage := 0 |}.

Definition view_set_session (s : session_view) (v : view) : view :=
  {| view_session := s; view_worker := view_worker v; view_target := view_target v; view_staged := view_staged v;
     view_events := view_events v; view_stage := view_stage v |}.
Definition view_set_worker (b : bool) (v : view) : view :=
  {| view_session := view_session v; view_worker := b; view_target := view_target v; view_staged := view_staged v;
     view_events := view_events v; view_stage := view_stage v |}.
Definition view_set_target (t : Z) (v : view) : view :=
  {| view_session := view_session v; view_worker := view_worker v; view_target := t; view_staged := view_staged v;
     view_events := view_events v; view_stage := view_stage v |}.
Definition view_set_staged (c : Z * Z) (v : view) : view :=
  {| view_session := view_session v; view_worker := view_worker v; view_target := view_target v; view_staged := c;
     view_events := view_events v; view_stage := view_stage v |}.
Definition view_set_events (v : view) : view :=
  {| view_session := view_session v; view_worker := view_worker v; view_target := view_target v; view_staged := view_staged v;
     view_events := true; view_stage := view_stage v |}.
Definition view_set_stage (n : nat) (v : view) : view :=
  {| view_session := view_session v; view_worker := view_worker v; view_target := view_target v; view_staged := view_staged v;
     view_events := view_events v; view_stage := n |}.

Definition guarded (b : bool) (v : view) : option view := if b then Some v else None.

(** A session is started only when there is none, never after one could not be started or stopped, and
    stopped once; allocations are sampled only with a session, and it is stopped only when they are not;
    intervals are staged and allocations sampled only with the runtime's events enabled; during the shutdown
    nothing starts, and the walker, the admissions and the worker are stopped in order. *)
Definition observe (v : view) (e : effect) : option view :=
  match e with
  | WorkerStarted => guarded (negb (view_worker v) && bool_decide (view_stage v = 0%nat)) (view_set_worker true v)
  | WorkerJoined => guarded (view_worker v && bool_decide (view_stage v = 2%nat)) (view_set_worker false v)
  | SessionStarted hr h =>
      match view_session v with
      | Closed => guarded (bool_decide (view_stage v = 0%nat) && bool_decide (view_target v = 0))
          (view_set_session (if FAILED hr || bool_decide (h = 0) then Dead else Open h) v)
      | _ => None
      end
  | SessionStopped h hr =>
      match view_session v with
      | Open h' => guarded (bool_decide (h = h') && bool_decide (view_target v = 0))
          (view_set_session (if FAILED hr then Dead else Closed) v)
      | _ => None
      end
  | TargetPublished t =>
      guarded (bool_decide (t = 0) || match view_session v with Open _ => true | _ => false end && view_events v && bool_decide (view_stage v = 0%nat))
        (view_set_target t v)
  | Staged cpu selective =>
      guarded (bool_decide ((cpu, selective) = (0, 0)) || view_worker v && view_events v && bool_decide (view_stage v = 0%nat))
        (view_set_staged (cpu, selective) v)
  | EventsEnabled => Some (view_set_events v)
  | AdmissionsClosed => guarded (bool_decide (view_stage v = 0%nat)) (view_set_stage 1 v)
  | WalkerStopRequested => guarded (bool_decide (view_stage v = 1%nat)) (view_set_stage 2 v)
  | AdmissionsDrained =>
      guarded (bool_decide (view_stage v = 2%nat) && negb (view_worker v) && match view_session v with Open _ => false | _ => true end)
        (view_set_stage 3 v)
  | WalkerStopped => guarded (bool_decide (view_stage v = 3%nat)) (view_set_stage 4 v)
  end.

Definition monitor (l : list effect) : option view := foldl (λ o e, v ← o; observe v e) (Some view_init) l.

Lemma monitor_snoc l e : monitor (l ++ [e]) = (v ← monitor l; observe v e).
Proof. unfold monitor. by rewrite foldl_app. Qed.

(** ** The operations are legal *)

Definition session_seen (p : ContinuousProfiler) : session_view :=
  match allocation_sampling_session_state_ p with
  | SessionNone => Closed
  | SessionActive => Open (session_ p)
  | PermanentlyDisabled => Dead
  end.

(** What is seen of a sampler; [ev]: the runtime's events are enabled; [n]: the stage of the shutdown. *)
Definition view_of (ev : bool) (n : nat) (p : ContinuousProfiler) : view :=
  {| view_session := session_seen p; view_worker := thread_sampling_thread_ p; view_target := default 0 (allocationSubSampler p);
     view_staged := (cpuSamplingInterval (desired_thread_sampling_configuration_ p), selectiveSamplingInterval (desired_thread_sampling_configuration_ p));
     view_events := ev; view_stage := n |}.

Definition lives (ev : bool) (n : nat) (p : ContinuousProfiler) (w : world) : Prop := monitor (effects w) = Some (view_of ev n p).

Lemma profiler_run p w : profiler (p, w) = (Ret p, (p, w)).
Proof. done. Qed.

Lemma perform_run e p w : perform e (p, w) = (Ret tt, (p, {| effects := effects w ++ [e]; asked := asked w |})).
Proof. done. Qed.

Lemma ask_run {A} (answer : nat → A) p w : ask answer (p, w) = (Ret (answer (asked w)), (p, {| effects := effects w; asked := S (asked w) |})).
Proof. done. Qed.

(** [did l w w']: from [w] to [w'] exactly the effects [l] were performed. *)
Definition did (l : list effect) (w w' : world) : Prop := effects w' = effects w ++ l.

Lemma did_monitor l w w' v : did l w w' → monitor (effects w) = Some v → monitor (effects w') = foldl (λ o e, v ← o; observe v e) (Some v) l.
Proof. unfold did, monitor. intros -> Hv. by rewrite foldl_app, Hv. Qed.

Lemma Stage_run cpu sel p w :
  ∃ w', StageThreadSamplingConfiguration cpu sel (p, w) =
    (Ret tt, (set_desired {| cpuSamplingInterval := cpu; selectiveSamplingInterval := sel;
                             version := u64 (version (desired_thread_sampling_configuration_ p) + 1) |} p, w')) ∧ did [Staged cpu sel] w w'.
Proof. eexists. by split. Qed.

Lemma Stage_lives ev n cpu sel p w w' :
  lives ev n p w → did [Staged cpu sel] w w' → (cpu, sel) = (0, 0) ∨ thread_sampling_thread_ p = true ∧ ev = true ∧ n = 0%nat →
  ∀ k, lives ev n (set_desired {| cpuSamplingInterval := cpu; selectiveSamplingInterval := sel; version := k |} p) w'.
Proof.
  intros Hl Hd Hc k. unfold lives. rewrite (did_monitor _ _ _ _ Hd Hl). cbn. unfold guarded, view_of. cbn.
  destruct Hc as [[= -> ->]|(-> & -> & ->)]; [done|]. by rewrite orb_true_r.
Qed.

Lemma Update_run t p w :
  ∃ w', UpdateAllocationSamplingTarget t (p, w) = (Ret tt, (set_target (if allocationSubSampler p is Some _ then Some t else None) p, w')) ∧
    did (if allocationSubSampler p is Some _ then [TargetPublished t] else []) w w'.
Proof.
  unfold UpdateAllocationSamplingTarget. run_by done. destruct p as [d th f [s|] st h rq co]; cbn; eexists; (split; [done|]); [done|].
  unfold did. by rewrite app_nil_r.
Qed.

Lemma Update_lives ev n t p w w' :
  lives ev n p w → did (if allocationSubSampler p is Some _ then [TargetPublished t] else []) w w' →
  t = 0 ∨ allocation_sampling_session_state_ p = SessionActive ∧ ev = true ∧ n = 0%nat →
  lives ev n (set_target (if allocationSubSampler p is Some _ then Some t else None) p) w'.
Proof.
  intros Hl Hd Hc. unfold lives. rewrite (did_monitor _ _ _ _ Hd Hl). destruct (allocationSubSampler p) as [s|] eqn:E; cbn.
  - unfold guarded, view_of, session_seen. cbn. destruct Hc as [->|(-> & -> & ->)]; [done|]. by rewrite orb_true_r.
  - unfold view_of, session_seen. cbn. by rewrite E.
Qed.

(** What the operations on the worker, the session and the target leave alone. *)
Definition same_config (p p' : ContinuousProfiler) : Prop :=
  desired_thread_sampling_configuration_ p' = desired_thread_sampling_configuration_ p ∧
  shutdown_requested_ p' = shutdown_requested_ p ∧ shutdown_completed_ p' = shutdown_completed_ p.

Definition same_worker (p p' : ContinuousProfiler) : Prop :=
  thread_sampling_thread_ p' = thread_sampling_thread_ p ∧ thread_sampling_worker_failed_ p' = thread_sampling_worker_failed_ p.

Definition same_session (p p' : ContinuousProfiler) : Prop :=
  allocationSubSampler p' = allocationSubSampler p ∧
  allocation_sampling_session_state_ p' = allocation_sampling_session_state_ p ∧ session_ p' = session_ p.

(** Allocation sampling is closed: no callback samples. *)
Definition target_closed (p : ContinuousProfiler) : Prop := default 0 (allocationSubSampler p) = 0.

(** The conditions of the specifications below. *)
Ltac frame := first [assumption | done | by repeat split].

Section Lifecycle_specs.
Context `{Runtime}.

Lemma StartThreadSampling_wp ev n p w Q X :
  lives ev n p w → (shutdown_requested_ p = false → n = 0%nat) →
  (∀ b p' w', lives ev n p' w' → same_config p p' → same_session p p' → thread_sampling_worker_failed_ p' = thread_sampling_worker_failed_ p →
     (if b : bool then shutdown_requested_ p = false ∧ thread_sampling_worker_failed_ p = false ∧ thread_sampling_thread_ p' = true
      else p' = p ∧ (shutdown_requested_ p = true ∨ thread_sampling_worker_failed_ p = true ∨ ¬ runtime_good)) → Q b (p', w')) →
  wp StartThreadSampling (p, w) Q X.
Proof.
  intros Hl Hn HQ. unfold StartThreadSampling. wp_step (apply profiler_run).
  destruct (shutdown_requested_ p || thread_sampling_worker_failed_ p) eqn:E1.
  { eapply wp_run; [done|]. apply orb_prop in E1. apply HQ; try frame. split; [done|]. tauto. }
  apply orb_false_iff in E1 as [E1 E1'].
  destruct (thread_sampling_thread_ p) eqn:E2; [eapply wp_run; [done|]; apply HQ; frame|].
  wp_step (apply ask_run). destruct (start_worker _) as [hr|] eqn:Ew.
  2: { eapply wp_run; [done|]. apply HQ; try frame. split; [done|]. right. right. intros Hg. destruct (good_worker Hg (asked w)) as (? & ? & _). congruence. }
  destruct (FAILED hr) eqn:Ef.
  { eapply wp_run; [done|]. apply HQ; try frame. split; [done|]. right. right. intros Hg. destruct (good_worker Hg (asked w)) as (? & ? & ?). congruence. }
  wp_step (done). wp_step (done). eapply wp_run; [done|]. apply HQ; try frame.
  unfold lives. cbn. rewrite monitor_snoc, Hl. cbn. unfold guarded, view_of, session_seen. cbn. by rewrite Hn, E2.
Qed.

Lemma StartSession_wp ev n p w Q X :
  lives ev n p w → n = 0%nat → (allocation_sampling_session_state_ p = SessionActive ∨ target_closed p) →
  (∀ b p' w', lives ev n p' w' → same_config p p' → same_worker p p' → default 0 (allocationSubSampler p') = default 0 (allocationSubSampler p) →
     (if b : bool then allocation_sampling_session_state_ p' = SessionActive ∧ is_Some (allocationSubSampler p')
      else (allocation_sampling_session_state_ p' = PermanentlyDisabled ∨ p' = p) ∧
           (allocation_sampling_session_state_ p = PermanentlyDisabled ∨ ¬ runtime_good)) → Q b (p', w')) →
  wp StartAllocationSamplingSession (p, w) Q X.
Proof.
  intros Hl Hr Ht HQ. unfold StartAllocationSamplingSession. wp_step (apply profiler_run). case_decide as Hpd; [eapply wp_run; [done|]; apply HQ; try frame; split; by left|].
  set (p1 := set_target (Some (default 0 (allocationSubSampler p))) p).
  assert (Hrest : ∀ p' w', lives ev n p' w' → p' = p1 → wp
    (if decide (allocation_sampling_session_state_ p = SessionActive) then mret true
      else
        '(hr, candidateSession) ← ask EventPipeStartSession;
        perform (SessionStarted hr candidateSession);;
        if FAILED hr || bool_decide (candidateSession = 0) then
          update (set_session PermanentlyDisabled candidateSession);; mret false
        else update (set_session SessionActive candidateSession);; mret true) (p', w') Q X).
  { intros p' w' Hl' ->. case_decide as Ha; [eapply wp_run; [done|]; apply HQ; try frame; by split; [|by eexists]|].
    destruct Ht as [|Ht]; [done|]. wp_step (apply ask_run). destruct (EventPipeStartSession _) as [hr h] eqn:Es. wp_step (done).
    assert (Hsn : allocation_sampling_session_state_ p = SessionNone) by (by destruct (allocation_sampling_session_state_ p)).
    assert (Hm : monitor (effects w' ++ [SessionStarted hr h]) =
      Some (view_set_session (if FAILED hr || bool_decide (h = 0) then Dead else Open h) (view_of ev n p1))).
    { rewrite monitor_snoc, Hl'. cbn. unfold session_seen, p1. cbn. rewrite Hsn. cbn. unfold target_closed in Ht. rewrite Hr, Ht. done. }
    destruct (FAILED hr || bool_decide (h = 0)) eqn:Eb; (wp_step (done)); (eapply wp_run; [done|]); apply HQ; try frame.
    split; [by left|]. right. intros Hg. destruct (good_session Hg (asked w')) as [Hg1 Hg2]. rewrite Es in Hg1, Hg2. cbn in Hg1, Hg2.
    apply orb_prop in Eb as [Eb|Eb%bool_decide_eq_true]; congruence. }
  destruct (allocationSubSampler p) as [t|] eqn:E.
  - wp_step (done). apply Hrest; [done|]. unfold p1. cbn. destruct p; cbn in *. by subst.
  - destruct (make_sub_sampler (asked w)) eqn:Em.
    + eapply wp_run_bind; [run_by (apply ask_run); rewrite Em; by run_by (done)|]. apply Hrest; [|done].
      unfold lives. cbn. rewrite Hl. unfold view_of, session_seen. cbn. by rewrite E.
    + eapply wp_run_bind; [run_by (apply ask_run); by rewrite Em|]. eapply wp_run; [done|]. apply HQ; try frame; [by rewrite E|]. split; [by right|]. right.
      intros Hg. pose proof (good_sub_sampler Hg (asked w)). congruence.
Qed.

Lemma StopSession_wp ev n p w Q X :
  lives ev n p w →
  (∀ b p' w', lives ev n p' w' → same_config p p' → same_worker p p' → target_closed p' → allocation_sampling_session_state_ p' ≠ SessionActive → Q b (p', w')) →
  wp StopAllocationSamplingSession (p, w) Q X.
Proof.
  intros Hl HQ. unfold StopAllocationSamplingSession. destruct (Update_run 0 p w) as (w1 & Hrun & Hdid).
  pose proof (Update_lives ev n 0 p w w1 Hl Hdid (or_introl eq_refl)) as Hl1. wp_step (exact Hrun).
  set (p1 := set_target _ p) in *. assert (target_closed p1) as Ht by (unfold target_closed, p1; cbn; by destruct (allocationSubSampler p)).
  assert (same_config p p1) as Hsc by frame. assert (same_worker p p1) as Hsw by frame.
  clearbody p1. wp_step (apply profiler_run). destruct (allocation_sampling_session_state_ p1) eqn:E.
  - eapply wp_run; [done|]. apply HQ; try frame. by rewrite E.
  - wp_step (apply ask_run). wp_step (done). set (hr := EventPipeStopSession _ _).
    assert (Hm : monitor (effects w1 ++ [SessionStopped (session_ p1) hr]) = Some (view_set_session (if FAILED hr then Dead else Closed) (view_of ev n p1))).
    { rewrite monitor_snoc, Hl1. cbn. unfold session_seen. rewrite E. cbn. unfold target_closed in Ht. rewrite Ht. by rewrite bool_decide_eq_true_2. }
    destruct (FAILED hr); (wp_step (done)); (eapply wp_run; [done|]); apply HQ; frame.
  - eapply wp_run; [done|]. apply HQ; try frame. by rewrite E.
Qed.

Definition is_shut_down (p : ContinuousProfiler) : Prop :=
  shutdown_requested_ p = true ∧ shutdown_completed_ p = true ∧ thread_sampling_thread_ p = false ∧ target_closed p ∧
  allocation_sampling_session_state_ p ≠ SessionActive.

Lemma lives_perform ev n n' e p w :
  lives ev n p w → observe (view_of ev n p) e = Some (view_of ev n' p) →
  lives ev n' p {| effects := effects w ++ [e]; asked := asked w |}.
Proof. intros Hl He. unfold lives. cbn. by rewrite monitor_snoc, Hl. Qed.

Lemma Shutdown_wp ev p w Q X :
  lives ev (if shutdown_requested_ p then 4 else 0) p w → (shutdown_requested_ p = true → is_shut_down p) →
  (∀ p' w', lives ev 4 p' w' → is_shut_down p' → Q tt (p', w')) →
  wp ContinuousProfiler_Shutdown (p, w) Q X.
Proof.
  intros Hl Hdown HQ. unfold ContinuousProfiler_Shutdown. wp_step (apply profiler_run). destruct (shutdown_requested_ p) eqn:Hr.
  { eapply wp_run; [done|]. apply HQ; [done|auto]. }
  wp_step (done). wp_step (apply perform_run). apply (lives_perform ev 0 1 AdmissionsClosed) in Hl; [|done].
  destruct (Update_run 0 (set_shutdown true (shutdown_completed_ p) p) {| effects := effects w ++ [AdmissionsClosed]; asked := asked w |}) as (w1 & Hrun & Hdid).
  wp_step (exact Hrun). apply (Update_lives ev 1 0) in Hdid; [|done|by left]. set (p1 := set_target _ _) in *. assert (Hr1 : shutdown_requested_ p1 = true) by done.
  wp_step (apply perform_run). apply (lives_perform ev 1 2 WalkerStopRequested) in Hdid; [|done]. clearbody p1.
  apply wp_bind, (StopSession_wp ev 2); [done|]. intros b p2 w2 Hl2 (_ & Hr2 & _) _ Ht Hs. wp_step (apply profiler_run).
  apply wp_bind, (wp_mono _ _ (λ _ s, lives ev 2 s.1 s.2 ∧ shutdown_requested_ s.1 = true ∧ thread_sampling_thread_ s.1 = false ∧
    target_closed s.1 ∧ allocation_sampling_session_state_ s.1 ≠ SessionActive) _ X); [| |done].
  - destruct (thread_sampling_thread_ p2) eqn:Eth; [|eapply wp_run; [done|]; cbn; split_and!; [done|congruence|done|done|done]].
    wp_step (apply perform_run). eapply wp_run; [done|]. cbn. split_and!; [|congruence|done|done|done].
    unfold lives. cbn. rewrite monitor_snoc, Hl2. cbn. by rewrite Eth.
  - intros _ [p3 w3] (Hl3 & Hr3 & Hth & Ht3 & Hs3). cbn [fst snd] in *. wp_step (apply perform_run).
    apply (lives_perform ev 2 3 AdmissionsDrained) in Hl3; [|cbn; unfold session_seen; rewrite Hth; by destruct (allocation_sampling_session_state_ p3)].
    wp_step (apply perform_run). apply (lives_perform ev 3 4 WalkerStopped) in Hl3; [|done]. eapply wp_run; [done|].
    apply HQ; [exact Hl3|]. by repeat split.
Qed.
End Lifecycle_specs.
