(* ===== verification/RuntimeSampler.v ===== *)
(** * The runtime sampler service (runtime_sampler_configuration.h/.cpp, runtime_sampler_service.h/.cpp)

    Applying a configuration: the decision, the activation of the producers it needs, and the commit.
    A service has no sampler until it is first needed; using it before is [Stuck].  The calls that
    report the committed state (cor_profiler.cpp, interop.cpp) are in the last part.

    The main results, for every sequence of configurations, of failures of the worker and of
    shutdowns, and whatever the runtime answers: nothing is used before it exists, what runs and what
    the sampler was told is exactly what is committed, and the effects are in a legal order;
    a configuration that is not applied leaves the committed one and its producers as they were. *)

From S2P Require Import Prelude SamplerLifecycle.

Inductive RuntimeSamplerAuthority := AuthorityNone | Seed | ControlPlane | OtherAuthority (value : Z).

#[export] Instance authority_eq_dec : EqDecision RuntimeSamplerAuthority.
Proof. solve_decision. Defined.

Inductive RuntimeSamplerApplyResult :=
| Applied
| NoChange
| IgnoredSeedAlreadyCommitted
| IgnoredLowerAuthority
| RejectedInvalidArgument
| RejectedUnsupportedLayout
| RejectedInvalidConfiguration
| RejectedUnsupportedRuntime
| ActivationFailed
| ShuttingDown.

Record RuntimeSamplerConfiguration := {
  structureSize : Z;
  cpuSamplingIntervalMilliseconds : Z;
  selectiveThreadSamplingIntervalMilliseconds : Z;
  maxAllocationSamplesPerMinute : Z;
}.

Definition sizeof_RuntimeSamplerConfiguration : Z := 16.
Definition sizeof_RuntimeSamplerState : Z := 24.

Definition configuration_init : RuntimeSamplerConfiguration :=
  {| structureSize := sizeof_RuntimeSamplerConfiguration; cpuSamplingIntervalMilliseconds := 0;
     selectiveThreadSamplingIntervalMilliseconds := 0; maxAllocationSamplesPerMinute := 0 |}.

Definition IsValid (c : RuntimeSamplerConfiguration) : bool :=
  let cpu := cpuSamplingIntervalMilliseconds c in
  let selective := selectiveThreadSamplingIntervalMilliseconds c in
  if bool_decide (cpu ≠ 0) && bool_decide (selective ≠ 0) && (bool_decide (cpu ≤ selective) || bool_decide (cpu mod selective ≠ 0))
  then false else true.

Definition CpuEnabled (c : RuntimeSamplerConfiguration) : bool := bool_decide (cpuSamplingIntervalMilliseconds c ≠ 0).
Definition SelectiveEnabled (c : RuntimeSamplerConfiguration) : bool := bool_decide (selectiveThreadSamplingIntervalMilliseconds c ≠ 0).
Definition ThreadSamplingEnabled (c : RuntimeSamplerConfiguration) : bool := CpuEnabled c || SelectiveEnabled c.
Definition AllocationEnabled (c : RuntimeSamplerConfiguration) : bool := bool_decide (maxAllocationSamplesPerMinute c ≠ 0).
Definition AnyFeatureEnabled (c : RuntimeSamplerConfiguration) : bool := ThreadSamplingEnabled c || AllocationEnabled c.

(** [operator==] *)
Definition same_features (c c' : RuntimeSamplerConfiguration) : bool :=
  bool_decide (cpuSamplingIntervalMilliseconds c = cpuSamplingIntervalMilliseconds c') &&
  bool_decide (selectiveThreadSamplingIntervalMilliseconds c = selectiveThreadSamplingIntervalMilliseconds c') &&
  bool_decide (maxAllocationSamplesPerMinute c = maxAllocationSamplesPerMinute c').

Record RuntimeSamplerService := {
  sampler_ : option ContinuousProfiler;
  authority_ : RuntimeSamplerAuthority;
  committedConfiguration_ : RuntimeSamplerConfiguration;
  shutdownStarted_ : bool;
  activationFailed_ : bool;
  requiredClrEventsEnabled_ : bool;
  selectiveSamplingBuffersPrepared_ : bool;
  outside : world;
}.

Definition RuntimeSamplerService_init : RuntimeSamplerService :=
  {| sampler_ := None; authority_ := AuthorityNone; committedConfiguration_ := configuration_init; shutdownStarted_ := false;
     activationFailed_ := false; requiredClrEventsEnabled_ := false; selectiveSamplingBuffersPrepared_ := false; outside := world_init |}.

Definition RuntimeSamplerControllerState : Type := RuntimeSamplerAuthority * RuntimeSamplerConfiguration.
Definition controller (s : RuntimeSamplerService) : RuntimeSamplerControllerState := (authority_ s, committedConfiguration_ s).

Definition set_sampler (p : option ContinuousProfiler) (w : world) (s : RuntimeSamplerService) : RuntimeSamplerService :=
  {| sampler_ := p; authority_ := authority_ s; committedConfiguration_ := committedConfiguration_ s; shutdownStarted_ := shutdownStarted_ s;
     activationFailed_ := activationFailed_ s; requiredClrEventsEnabled_ := requiredClrEventsEnabled_ s;
     selectiveSamplingBuffersPrepared_ := selectiveSamplingBuffersPrepared_ s; outside := w |}.
Definition set_committed (a : RuntimeSamplerAuthority) (c : RuntimeSamplerConfiguration) (s : RuntimeSamplerService) : RuntimeSamplerService :=
  {| sampler_ := sampler_ s; authority_ := a; committedConfiguration_ := c; shutdownStarted_ := shutdownStarted_ s;
     activationFailed_ := activationFailed_ s; requiredClrEventsEnabled_ := requiredClrEventsEnabled_ s;
     selectiveSamplingBuffersPrepared_ := selectiveSamplingBuffersPrepared_ s; outside := outside s |}.
Definition set_flags (shutdown failed events buffers : bool) (s : RuntimeSamplerService) : RuntimeSamplerService :=
  {| sampler_ := sampler_ s; authority_ := authority_ s; committedConfiguration_ := committedConfiguration_ s; shutdownStarted_ := shutdown;
     activationFailed_ := failed; requiredClrEventsEnabled_ := events; selectiveSamplingBuffersPrepared_ := buffers; outside := outside s |}.

Abbreviation S := (stM RuntimeSamplerService unit).

(** [sampler_->f()]. *)
Definition on_sampler {A} (m : P A) : S A := λ s,
  match sampler_ s with
  | None => (Stuck, s)
  | Some p => let '(r, (p', w')) := m (p, outside s) in (r, set_sampler (Some p') w' s)
  end.

Definition outcome_of (result : RuntimeSamplerApplyResult) : S (RuntimeSamplerApplyResult * RuntimeSamplerControllerState) :=
  s ← get; mret (result, controller s).

Section Service.
Context `{Runtime}.

Definition ask_service {A} (answer : nat → A) : S A :=
  s ← get;
  modify (λ s, set_sampler (sampler_ s) {| effects := effects (outside s); asked := Datatypes.S (asked (outside s)) |} s);;
  mret (answer (asked (outside s))).

Definition EnsureSamplerCreated : S bool :=
  s ← get;
  match sampler_ s with
  | Some _ => mret true
  | None =>
      made ← ask_service make_sampler;
      if made : bool then modify (λ s, set_sampler (Some ContinuousProfiler_init) (outside s) s);; mret true else mret false
  end.

Definition EnsureRequiredClrEventsEnabled : S bool :=
  s ← get;
  if requiredClrEventsEnabled_ s then mret true
  else
    hr ← ask_service GetEventMask2;
    if FAILED hr then mret false
    else
      hr ← ask_service SetEventMask2;
      if FAILED hr then mret false
      else
        on_sampler (perform EventsEnabled);;
        modify (λ s, set_flags (shutdownStarted_ s) (activationFailed_ s) true (selectiveSamplingBuffersPrepared_ s) s);;
        mret true.

Definition EnsureSelectiveSamplingBuffersPrepared : S bool :=
  s ← get;
  if selectiveSamplingBuffersPrepared_ s then mret true
  else
    prepared ← ask_service reserve_selective_buffers;
    if prepared : bool then
      modify (λ s, set_flags (shutdownStarted_ s) (activationFailed_ s) (requiredClrEventsEnabled_ s) true s);; mret true
    else mret false.

Definition PublishCommittedConfiguration (previousConfiguration configuration : RuntimeSamplerConfiguration) : S unit :=
  let threadConfigurationChanged :=
    bool_decide (cpuSamplingIntervalMilliseconds previousConfiguration ≠ cpuSamplingIntervalMilliseconds configuration) ||
    bool_decide (selectiveThreadSamplingIntervalMilliseconds previousConfiguration ≠ selectiveThreadSamplingIntervalMilliseconds configuration) in
  (if threadConfigurationChanged : bool then
     on_sampler (StageThreadSamplingConfiguration (cpuSamplingIntervalMilliseconds configuration)
       (selectiveThreadSamplingIntervalMilliseconds configuration))
   else mret tt);;
  if AllocationEnabled configuration then on_sampler (UpdateAllocationSamplingTarget (maxAllocationSamplesPerMinute configuration)) else mret tt.

(** The lambda of ApplyConfiguration; a failed first activation is final. *)
Definition failActivation (hasCommittedProducer : bool) : S (RuntimeSamplerApplyResult * RuntimeSamplerControllerState) :=
  failedOutcome ← outcome_of ActivationFailed;
  if hasCommittedProducer then mret failedOutcome
  else
    modify (λ s, set_flags (shutdownStarted_ s) true (requiredClrEventsEnabled_ s) (selectiveSamplingBuffersPrepared_ s) s);;
    s ← get;
    match sampler_ s with
    | None => mret tt
    | Some _ => on_sampler ContinuousProfiler_Shutdown
    end;;
    mret failedOutcome.

(** The activation of the producers a configuration needs: [None] when they are ready. *)
Definition activate (configuration : RuntimeSamplerConfiguration) : S (option (RuntimeSamplerApplyResult * RuntimeSamplerControllerState)) :=
  s ← get;
  let committed := committedConfiguration_ s in
  let fail := (o ← failActivation (AnyFeatureEnabled committed); mret (Some o)) in
  sampler ← EnsureSamplerCreated;
  if negb sampler then fail
  else
    buffers ← (if SelectiveEnabled configuration then EnsureSelectiveSamplingBuffersPrepared else mret true);
    if negb buffers then fail
    else
      worker ← (if ThreadSamplingEnabled configuration then on_sampler StartThreadSampling else mret true);
      if negb worker then fail
      else
        events ← EnsureRequiredClrEventsEnabled;
        if negb events then fail
        else
          session ← (if AllocationEnabled configuration && negb (AllocationEnabled committed)
                     then on_sampler StartAllocationSamplingSession else mret true);
          if negb session then
            p ← on_sampler profiler;
            if decide (allocation_sampling_session_state_ p = PermanentlyDisabled) then
              o ← outcome_of ActivationFailed; mret (Some o)
            else fail
          else mret None.

Definition commit (source : RuntimeSamplerAuthority) (configuration : RuntimeSamplerConfiguration) :
    S (RuntimeSamplerApplyResult * RuntimeSamplerControllerState) :=
  s ← get;
  let previousConfiguration := committedConfiguration_ s in
  let hasSampler := bool_decide (is_Some (sampler_ s)) in
  (if hasSampler && negb (AllocationEnabled configuration) then on_sampler (UpdateAllocationSamplingTarget 0) else mret tt);;
  modify (set_committed source configuration);;
  (if hasSampler : bool then
     PublishCommittedConfiguration previousConfiguration configuration;;
     if negb (AllocationEnabled configuration) then (on_sampler StopAllocationSamplingSession;; mret tt) else mret tt
   else mret tt);;
  outcome_of Applied.

Definition ApplyConfiguration (source : RuntimeSamplerAuthority) (configuration : RuntimeSamplerConfiguration) :
    S (RuntimeSamplerApplyResult * RuntimeSamplerControllerState) :=
  s ← get;
  if shutdownStarted_ s then outcome_of ShuttingDown
  else if activationFailed_ s then outcome_of ActivationFailed
  else if decide (thread_sampling_worker_failed_ <$> sampler_ s = Some true) then
    failedOutcome ← outcome_of ActivationFailed;
    modify (λ s, set_flags (shutdownStarted_ s) true (requiredClrEventsEnabled_ s) (selectiveSamplingBuffersPrepared_ s) s);;
    on_sampler ContinuousProfiler_Shutdown;;
    mret failedOutcome
  else if decide (source ≠ Seed ∧ source ≠ ControlPlane) then outcome_of RejectedInvalidArgument
  else if negb (IsValid configuration) then outcome_of RejectedInvalidConfiguration
  else if decide (source = Seed ∧ authority_ s = Seed) then outcome_of IgnoredSeedAlreadyCommitted
  else if decide (source = Seed ∧ authority_ s = ControlPlane) then outcome_of IgnoredLowerAuthority
  else if same_features configuration (committedConfiguration_ s) then
    if decide (source = authority_ s) then outcome_of NoChange
    else modify (set_committed source (committedConfiguration_ s));; outcome_of Applied
  else
    failed ← (if AnyFeatureEnabled configuration then activate configuration else mret None);
    match failed with
    | Some o => mret o
    | None => commit source configuration
    end.

Definition Service_Shutdown : S unit :=
  modify (λ s, set_flags true (activationFailed_ s) (requiredClrEventsEnabled_ s) (selectiveSamplingBuffersPrepared_ s) s);;
  s ← get;
  match sampler_ s with
  | None => mret tt
  | Some _ => on_sampler ContinuousProfiler_Shutdown
  end.
End Service.

(** ** The invariant *)

(** The sampler [p] has what the configuration [conf] needs; it was told what is committed. *)
Record ready (s : RuntimeSamplerService) (p : ContinuousProfiler) (conf : RuntimeSamplerConfiguration) : Prop := {
  ready_lives : lives (requiredClrEventsEnabled_ s) 0 p (outside s);
  ready_alive : shutdown_requested_ p = false;
  ready_config :
    cpuSamplingInterval (desired_thread_sampling_configuration_ p) = cpuSamplingIntervalMilliseconds (committedConfiguration_ s) ∧
    selectiveSamplingInterval (desired_thread_sampling_configuration_ p) = selectiveThreadSamplingIntervalMilliseconds (committedConfiguration_ s);
  ready_threads : ThreadSamplingEnabled conf = true → thread_sampling_thread_ p = true ∧ requiredClrEventsEnabled_ s = true;
  ready_buffers : SelectiveEnabled conf = true → selectiveSamplingBuffersPrepared_ s = true;
  ready_session : AllocationEnabled conf = true →
    allocation_sampling_session_state_ p = SessionActive ∧ is_Some (allocationSubSampler p) ∧ requiredClrEventsEnabled_ s = true;
}.

(** The sampler does what is committed, and nothing else. *)
Record published (s : RuntimeSamplerService) (p : ContinuousProfiler) : Prop := {
  published_ready : ready s p (committedConfiguration_ s);
  published_target : AllocationEnabled (committedConfiguration_ s) = true → allocationSubSampler p = Some (maxAllocationSamplesPerMinute (committedConfiguration_ s));
  published_closed : AllocationEnabled (committedConfiguration_ s) = false → target_closed p ∧ allocation_sampling_session_state_ p ≠ SessionActive;
}.

Definition sampler_ok (s : RuntimeSamplerService) : Prop :=
  match sampler_ s with
  | None => AnyFeatureEnabled (committedConfiguration_ s) = false ∧ requiredClrEventsEnabled_ s = false ∧ monitor (effects (outside s)) = Some view_init
  | Some p =>
      if shutdown_requested_ p
      then lives (requiredClrEventsEnabled_ s) 4 p (outside s) ∧ is_shut_down p ∧ (shutdownStarted_ s = true ∨ activationFailed_ s = true)
      else published s p ∧ shutdownStarted_ s = false ∧ activationFailed_ s = false
  end.

Record service_ok (s : RuntimeSamplerService) : Prop := {
  ok_valid : IsValid (committedConfiguration_ s) = true;
  ok_authority : authority_ s = Seed ∨ authority_ s = ControlPlane ∨ authority_ s = AuthorityNone ∧ committedConfiguration_ s = configuration_init;
  ok_sampler : sampler_ok s;
}.

Lemma sampler_ok_lives s p :
  sampler_ok s → sampler_ s = Some p →
  lives (requiredClrEventsEnabled_ s) (if shutdown_requested_ p then 4 else 0) p (outside s) ∧ (shutdown_requested_ p = true → is_shut_down p).
Proof.
  unfold sampler_ok. intros Hok Hs. rewrite Hs in Hok. destruct (shutdown_requested_ p).
  - destruct Hok as (? & ? & _). by split.
  - split; [apply (published_ready _ _ (proj1 Hok))|done].
Qed.

Lemma service_init_ok : service_ok RuntimeSamplerService_init.
Proof. split; [done|right; right; done|by repeat split]. Qed.

Lemma on_sampler_wp {A} (m : P A) s p Q X :
  sampler_ s = Some p → wp m (p, outside s) (λ a pw, Q a (set_sampler (Some pw.1) pw.2 s)) (λ e pw, X e (set_sampler (Some pw.1) pw.2 s)) →
  wp (on_sampler m) s Q X.
Proof. unfold wp, on_sampler. intros ->. by destruct (m _) as [[] [p' w']]. Qed.

(** Nothing happens in the service but in the sampler and outside. *)
Definition same_service (s s' : RuntimeSamplerService) : Prop :=
  controller s' = controller s ∧ shutdownStarted_ s' = shutdownStarted_ s ∧ activationFailed_ s' = activationFailed_ s.

Section Service_specs.
Context `{Runtime}.

Lemma ask_service_run {A} (answer : nat → A) s :
  ∃ w, ask_service answer s = (Ret (answer (asked (outside s))), set_sampler (sampler_ s) w s) ∧ effects w = effects (outside s).
Proof. eexists. by split. Qed.

(** A step that performs no effect keeps what is known of the sampler. *)
Lemma published_quiet s s' p :
  published s p → effects (outside s') = effects (outside s) → committedConfiguration_ s' = committedConfiguration_ s →
  requiredClrEventsEnabled_ s' = requiredClrEventsEnabled_ s → (selectiveSamplingBuffersPrepared_ s = true → selectiveSamplingBuffersPrepared_ s' = true) →
  published s' p.
Proof.
  intros [[R1 R2 R3 R4 R5 R6] P2 P3] He Hc Hev Hb. split; rewrite ?Hc; [|done|done].
  split; rewrite ?Hc, ?Hev; [unfold lives; by rewrite He|done|done|done|auto|done].
Qed.

(** Allocation sampling was disabled for good, by a session that could not be started or stopped. *)
Definition disabled (s : RuntimeSamplerService) : Prop := ∃ p, sampler_ s = Some p ∧ allocation_sampling_session_state_ p = PermanentlyDisabled.

#[global] Instance disabled_dec s : Decision (disabled s).
Proof.
  unfold disabled. destruct (sampler_ s) as [p|]; [|right; by intros (? & ? & _)].
  destruct (decide (allocation_sampling_session_state_ p = PermanentlyDisabled)) as [Hp|Hp]; [left; by exists p|].
  right. by intros (? & [= <-] & ?).
Defined.

(** During an activation: the service is alive, and its sampler does what is committed. *)
Record candidate (s0 s : RuntimeSamplerService) (p : ContinuousProfiler) : Prop := {
  candidate_sampler : sampler_ s = Some p;
  candidate_published : published s p;
  candidate_same : same_service s0 s;
  candidate_worker : thread_sampling_worker_failed_ p = false;
  candidate_session : allocation_sampling_session_state_ p = PermanentlyDisabled → disabled s0;
}.

Lemma published_ok s0 s p :
  service_ok s0 → shutdownStarted_ s0 = false → activationFailed_ s0 = false → sampler_ s = Some p → published s p → same_service s0 s → service_ok s.
Proof.
  intros Hok F1 F2 Hs Hp (Hc & H1 & H2). unfold controller in Hc. injection Hc as Ha Hc. destruct Hok as [V A _].
  split; rewrite ?Hc, ?Ha; [done|done|]. unfold sampler_ok. rewrite Hs, (ready_alive _ _ _ (published_ready _ _ Hp)). by rewrite H1, H2.
Qed.

Lemma EnsureSamplerCreated_wp s Q X :
  service_ok s → shutdownStarted_ s = false → activationFailed_ s = false → thread_sampling_worker_failed_ <$> sampler_ s ≠ Some true →
  (∀ s' p, candidate s s' p → Q true s') →
  (∀ s', service_ok s' → same_service s s' → AnyFeatureEnabled (committedConfiguration_ s) = false → sampler_ s' = None → ¬ runtime_good → Q false s') →
  wp EnsureSamplerCreated s Q X.
Proof.
  intros Hok H1 H2 Hwf HQ1 HQ2. pose proof (ok_sampler _ Hok) as Hs. unfold sampler_ok in Hs. unfold EnsureSamplerCreated.
  wp_step (done). destruct (sampler_ s) as [p|] eqn:E.
  - eapply wp_run; [done|]. apply (HQ1 s p). split; [done| |by repeat split|destruct (thread_sampling_worker_failed_ p) eqn:Ew; [destruct Hwf; rewrite ?E; cbn; by rewrite Ew|done]|by exists p].
    destruct (shutdown_requested_ p); [|apply Hs]. destruct Hs as (_ & _ & [?|?]); congruence.
  - destruct Hs as (Hn & Hev & Hw). destruct (ask_service_run make_sampler s) as (w & Hrun & Hw'). wp_step (exact Hrun).
    destruct (make_sampler _) eqn:Em.
    + wp_step (done). eapply wp_run; [done|]. apply (HQ1 _ ContinuousProfiler_init). split; [done| |by repeat split|done|done].
      unfold AnyFeatureEnabled in Hn. apply orb_false_iff in Hn as [Hn1 Hn2]. pose proof Hn1 as Hn'. unfold ThreadSamplingEnabled in Hn'. apply orb_false_iff in Hn' as [Hc1 Hc2].
      split; cbn; [|congruence|by split]. split; cbn; [|done| |congruence|congruence|congruence].
      * unfold lives. rewrite Hw', Hw, Hev. done.
      * unfold CpuEnabled, SelectiveEnabled in *. apply bool_decide_eq_false in Hc1, Hc2. lia.
    + eapply wp_run; [done|]. apply HQ2; [|by repeat split|done|done|intros Hg; pose proof (good_sampler Hg (asked (outside s))); congruence]. destruct Hok as [V A _]. split; [done|done|].
      unfold sampler_ok. cbn. rewrite E. by rewrite Hw'.
Qed.

Lemma EnsureBuffers_wp s0 s p Q X :
  candidate s0 s p →
  (∀ b s', candidate s0 s' p → (if b : bool then selectiveSamplingBuffersPrepared_ s' = true else ¬ runtime_good) → Q b s') →
  wp EnsureSelectiveSamplingBuffersPrepared s Q X.
Proof.
  intros [Hs Hp Hc Hw Hd] HQ. unfold EnsureSelectiveSamplingBuffersPrepared. wp_step (done).
  destruct (selectiveSamplingBuffersPrepared_ s) eqn:E; [eapply wp_run; [done|]; by apply HQ|].
  destruct (ask_service_run reserve_selective_buffers s) as (w & Hrun & He). wp_step (exact Hrun).
  destruct (reserve_selective_buffers _) eqn:Eb.
  - wp_step (done). eapply wp_run; [done|]. apply HQ; [|done]. split; [done| |done|done|done]. by eapply published_quiet.
  - eapply wp_run; [done|]. apply HQ; [|intros Hg; pose proof (good_buffers Hg (asked (outside s))); congruence].
    split; [done| |done|done|done]. eapply published_quiet; try done.
Qed.

Lemma StartWorker_wp s0 s p Q X :
  candidate s0 s p →
  (∀ (b : bool) s' p', candidate s0 s' p' → (if b then thread_sampling_thread_ p' = true else ¬ runtime_good) →
     selectiveSamplingBuffersPrepared_ s' = selectiveSamplingBuffersPrepared_ s → Q b s') →
  wp (on_sampler StartThreadSampling) s Q X.
Proof.
  intros [Hs [[R1 R2 R3 R4 R5 R6] P2 P3] Hc Hw Hdis] HQ. apply (on_sampler_wp _ s p); [done|].
  eapply StartThreadSampling_wp; [done|done|]. intros b p' w' Hl (D1 & D2 & D3) (S1 & S2 & S3) Hf Hb. cbn.
  assert (b = true → thread_sampling_thread_ p' = true) as Hb1 by (by intros ->; destruct Hb as (_ & _ & ?)).
  apply (HQ b _ p'); [|destruct b; [auto|naive_solver congruence]|done]. split; [done| |done|congruence|by rewrite S2].
  split; cbn; [split; cbn|..]; rewrite ?D1, ?D2, ?S1, ?S2; try done.
  - intros Ht. destruct (R4 Ht) as [Ht1 Ht2]. split; [|done]. destruct b; [auto|by destruct Hb as [-> _]].
  - unfold target_closed. by rewrite S1.
Qed.
Lemma EnsureEvents_wp s0 s p Q X :
  candidate s0 s p →
  (∀ (b : bool) s', candidate s0 s' p → (if b then requiredClrEventsEnabled_ s' = true else ¬ runtime_good) →
     selectiveSamplingBuffersPrepared_ s' = selectiveSamplingBuffersPrepared_ s → Q b s') →
  wp EnsureRequiredClrEventsEnabled s Q X.
Proof.
  intros [Hs Hp Hc Hw Hd] HQ. unfold EnsureRequiredClrEventsEnabled. wp_step (done).
  destruct (requiredClrEventsEnabled_ s) eqn:E; [eapply wp_run; [done|]; by apply HQ|].
  destruct (ask_service_run GetEventMask2 s) as (w1 & Hrun1 & Hw1). wp_step (exact Hrun1).
  destruct (FAILED (GetEventMask2 _)) eqn:E1.
  { eapply wp_run; [done|]; apply HQ; [split; [done|by eapply published_quiet|done..]| |done].
    intros Hg. destruct (good_events Hg (asked (outside s))). congruence. }
 
  destruct (ask_service_run SetEventMask2 (set_sampler (sampler_ s) w1 s)) as (w2 & Hrun2 & Hw2). cbn in Hw2. wp_step (exact Hrun2).
  destruct (FAILED (SetEventMask2 _)) eqn:E2.
  { eapply wp_run; [done|]; apply HQ; [split; [done|eapply published_quiet; try done; cbn; congruence|done..]| |done].
    intros Hg. destruct (good_events Hg (asked w1)). cbn in E2. congruence. }
 
  apply wp_bind, (on_sampler_wp _ _ p); [done|]. eapply wp_run; [done|]. wp_step (done). eapply wp_run; [done|].
  apply HQ; [|done|done]. split; [done| |done|done|done]. destruct Hp as [[R1 R2 R3 R4 R5 R6] P2 P3].
  split; cbn; [split; cbn|done|done]; try done.
  - unfold lives. cbn. rewrite monitor_snoc, Hw2, Hw1, R1. done.
  - intros Ht. by destruct (R4 Ht).
  - intros Ht. by destruct (R6 Ht) as (? & ? & _).
Qed.

Abbreviation outcome := (RuntimeSamplerApplyResult * RuntimeSamplerControllerState)%type.

(** What a failed activation leaves: the committed state, and the producers if there were any. *)
Record failed_ok (s0 s : RuntimeSamplerService) (o : outcome) : Prop := {
  failed_service : service_ok s;
  failed_outcome : o = (ActivationFailed, controller s0);
  failed_controller : controller s = controller s0;
  failed_shutdown : shutdownStarted_ s = shutdownStarted_ s0;
  failed_live : AnyFeatureEnabled (committedConfiguration_ s0) = true → activationFailed_ s = activationFailed_ s0 ∧ ∃ p, sampler_ s = Some p ∧ published s p;
  failed_cause : disabled s0 ∨ ¬ runtime_good;
}.

Lemma Shutdown_service_wp s p Q X :
  sampler_ s = Some p → lives (requiredClrEventsEnabled_ s) (if shutdown_requested_ p then 4 else 0) p (outside s) → (shutdown_requested_ p = true → is_shut_down p) →
  IsValid (committedConfiguration_ s) = true → (authority_ s = Seed ∨ authority_ s = ControlPlane ∨ authority_ s = AuthorityNone ∧ committedConfiguration_ s = configuration_init) →
  shutdownStarted_ s = true ∨ activationFailed_ s = true →
  (∀ s' p', service_ok s' → same_service s s' → sampler_ s' = Some p' → is_shut_down p' → Q tt s') →
  wp (on_sampler ContinuousProfiler_Shutdown) s Q X.
Proof.
  intros Hs Hl Hd V A Hf HQ. apply (on_sampler_wp _ s p); [done|]. eapply Shutdown_wp; [done|done|]. intros p' w' Hl' Hd'. cbn.
  apply (HQ _ p'); [|by repeat split|done|done]. split; [done|done|]. unfold sampler_ok. cbn. by rewrite (proj1 Hd').
Qed.

Lemma failActivation_wp s0 s X :
  service_ok s0 → shutdownStarted_ s0 = false → activationFailed_ s0 = false → service_ok s → same_service s0 s →
  (AnyFeatureEnabled (committedConfiguration_ s0) = true → ∃ p, sampler_ s = Some p ∧ published s p) → disabled s0 ∨ ¬ runtime_good →
  wp (failActivation (AnyFeatureEnabled (committedConfiguration_ s0))) s (λ o s', failed_ok s0 s' o) X.
Proof.
  intros Hok0 H1 H2 Hok (Hc & Hc1 & Hc2) Hp Hcause. unfold failActivation. wp_step (done).
  destruct (AnyFeatureEnabled _) eqn:Ef.
  - eapply wp_run; [done|]. split; [done|by rewrite Hc|done|done|auto|done].
  - wp_step (done). wp_step (done). cbn [set_flags sampler_]. apply wp_bind.
    apply (wp_mono _ _ (λ _ s', service_ok s' ∧ controller s' = controller s0 ∧ shutdownStarted_ s' = false) _ X); [| |done].
    + destruct (sampler_ s) as [p|] eqn:E.
      * destruct (sampler_ok_lives s p (ok_sampler _ Hok) E) as [Hl Hd]. eapply (Shutdown_service_wp _ p); try done; [apply Hok|apply Hok|by right|].
        intros s' p' Hok' (Hc' & Hs' & _) _ _. split_and!; [done|rewrite Hc'; by rewrite <-Hc|rewrite Hs'; cbn; congruence].
      * eapply wp_run; [done|]. split_and!; [|by rewrite <-Hc|cbn; congruence]. destruct Hok as [V A Hs]. split; [done|done|]. unfold sampler_ok in *. cbn. by rewrite E in *.
    + intros _ s' (Hok' & Hc' & Hs'). eapply wp_run; [done|]. split; [done|cbn; by rewrite Hc|done|congruence|by rewrite Ef|done].
Qed.
(** The sampler is ready for [conf] in every respect but allocation sampling. *)
Record prepared_for (s : RuntimeSamplerService) (p : ContinuousProfiler) (conf : RuntimeSamplerConfiguration) : Prop := {
  prepared_threads : ThreadSamplingEnabled conf = true → thread_sampling_thread_ p = true;
  prepared_events : requiredClrEventsEnabled_ s = true;
  prepared_buffers : SelectiveEnabled conf = true → selectiveSamplingBuffersPrepared_ s = true;
}.

Lemma candidate_ready s0 s p conf :
  candidate s0 s p → prepared_for s p conf → (AllocationEnabled conf = true → AllocationEnabled (committedConfiguration_ s) = true) → ready s p conf.
Proof.
  intros [_ [[R1 R2 R3 R4 R5 R6] P2 P3] _ _ _] [C1 C2 C3] Ha. split; try done.
  - intros Ht. split; [auto|done].
  - intros Hal. by apply R6, Ha.
Qed.

(** Starting the session of a configuration that is the first to need one. *)
Lemma StartSession_service_wp s0 s p conf Q X :
  candidate s0 s p → prepared_for s p conf → AllocationEnabled (committedConfiguration_ s) = false →
  (∀ s' p', sampler_ s' = Some p' → same_service s0 s' → ready s' p' conf → Q true s') →
  (∀ s' p', sampler_ s' = Some p' → published s' p' → same_service s0 s' → disabled s0 ∨ ¬ runtime_good → Q false s') →
  wp (on_sampler StartAllocationSamplingSession) s Q X.
Proof.
  intros [Hs [[R1 R2 R3 R4 R5 R6] P2 P3] Hc _ Hdis] [C1 C2 C3] Ha HQ1 HQ2. destruct (P3 Ha) as [Ht Hn].
  apply (on_sampler_wp _ s p); [done|]. eapply StartSession_wp; [done|done|by right|].
  intros b p' w' Hl (D1 & D2 & D3) (W1 & W2) Hdef Hb. cbn. destruct b.
  - destruct Hb as [Hb1 Hb2]. apply (HQ1 _ p'); [done|done|]. split; cbn; rewrite ?D1, ?D2, ?W1; try done. intros Ht'. split; [auto|done].
  - destruct Hb as [Hb Hcause]. apply (HQ2 _ p'); [done| |done|destruct Hcause; auto]. split; cbn; [|congruence|intros _; split].
    + split; cbn; rewrite ?D1, ?D2, ?W1; try done; congruence.
    + unfold target_closed. by rewrite Hdef.
    + destruct Hb as [->| ->]; done.
Qed.

Lemma activate_wp s conf X :
  service_ok s → shutdownStarted_ s = false → activationFailed_ s = false → thread_sampling_worker_failed_ <$> sampler_ s ≠ Some true →
  wp (activate conf) s (λ r s', match r with
    | Some o => failed_ok s s' o
    | None => same_service s s' ∧ ∃ p, sampler_ s' = Some p ∧ ready s' p conf
    end) X.
Proof.
  intros Hok H1 H2 Hwf. unfold activate. wp_step (done).
  assert (Hstop : ∀ s' p, sampler_ s' = Some p → published s' p → same_service s s' → disabled s ∨ ¬ runtime_good →
    wp (o ← failActivation (AnyFeatureEnabled (committedConfiguration_ s)); mret (Some o)) s'
    (λ r s'', match r with Some o => failed_ok s s'' o | None => same_service s s'' ∧ ∃ p, sampler_ s'' = Some p ∧ ready s'' p conf end) X).
  { intros s' p Hs' Hp' Hsame Hcause. apply wp_bind. eapply wp_mono; [apply (failActivation_wp s s' X); try done|by intros o s'' ?; eapply wp_run|done].
    - by eapply published_ok.
    - intros _. by exists p. }
  assert (Hstop' : ∀ s' p, candidate s s' p → ¬ runtime_good → _) by (intros s' p [C1 C2 C3 _ _] Hbad; exact (Hstop s' p C1 C2 C3 (or_intror Hbad))).
  apply wp_bind, EnsureSamplerCreated_wp; [done|done|done|done| |].
  2: { intros s1 Hok1 Hc1 Hn Hs1 Hbad. apply wp_bind. eapply wp_mono; [apply (failActivation_wp s s1 X); try done; [by rewrite Hn|by right]|by intros o s'' ?; eapply wp_run|done]. }
  intros s1 p1 C1. apply wp_bind.
  apply (wp_mono _ _ (λ b s', candidate s s' p1 ∧ (if b : bool then SelectiveEnabled conf = true → selectiveSamplingBuffersPrepared_ s' = true else ¬ runtime_good)) _ X); [| |done].
  { destruct (SelectiveEnabled conf); [|by eapply wp_run]. eapply EnsureBuffers_wp; [done|]. intros [] s' Hs' Hb; by split. }
  intros [] s2 [C2 B2]; [|by eapply Hstop']. apply wp_bind.
  apply (wp_mono _ _ (λ b s', ∃ p', candidate s s' p' ∧ (SelectiveEnabled conf = true → selectiveSamplingBuffersPrepared_ s' = true) ∧
    if b : bool then ThreadSamplingEnabled conf = true → thread_sampling_thread_ p' = true else ¬ runtime_good) _ X); [| |done].
  { destruct (ThreadSamplingEnabled conf); [|eapply wp_run; [done|]; by exists p1]. eapply StartWorker_wp; [done|].
    intros [] s' p' Hs' Hb Hbuf; exists p'; by rewrite Hbuf. }
  intros [] s3 (p3 & C3 & B3 & T3); [|by eapply Hstop'].
  apply wp_bind. eapply EnsureEvents_wp; [done|]. intros [] s4 C4 E4 B4; [|by eapply Hstop']. rewrite <-B4 in B3.
  pose proof (candidate_same _ _ _ C4) as (Hctl & _). injection Hctl as _ Hcom. assert (prepared_for s4 p3 conf) as Hprep by done.
  apply wp_bind. destruct (AllocationEnabled conf && _) eqn:Ea.
  - apply andb_prop in Ea as [Ea1 Ea2%negb_true_iff]. rewrite <-Hcom in Ea2.
    eapply StartSession_service_wp; [done|done|done| |].
    + intros s5 p5 Hs5 Hc5 Hr5. eapply wp_run; [done|]. split; [done|by exists p5].
    + intros s5 p5 Hs5 Hp5 Hc5 Hcause. apply wp_bind, (on_sampler_wp _ _ p5); [done|]. eapply wp_run; [done|]. cbn.
      assert (set_sampler (Some p5) (outside s5) s5 = s5) as -> by (destruct s5; cbn in *; by subst).
      case_decide; [|by eapply Hstop]. wp_step (done). eapply wp_run; [done|].
      pose proof (published_ok _ _ _ Hok H1 H2 Hs5 Hp5 Hc5). destruct Hc5 as (Hc5 & Hst5 & Hf5). split; [done|by rewrite <-Hc5|done|done| |done].
      intros _. split; [done|by exists p5].
  - eapply wp_run; [done|]. eapply wp_run; [done|]. pose proof C4 as [Hs4 Hp4 Hc4 _ _]. split; [done|]. exists p3. split; [done|].
    eapply (candidate_ready s s4); [done|done|]. rewrite Hcom. intros Hal. rewrite Hal in Ea. by destruct (AllocationEnabled (committedConfiguration_ s)).
Qed.
Lemma on_sampler_run {A} (m : P A) s p a p' w' :
  sampler_ s = Some p → m (p, outside s) = (Ret a, (p', w')) → on_sampler m s = (Ret a, set_sampler (Some p') w' s).
Proof. unfold on_sampler. by intros -> ->. Qed.

Record committed_ok (s0 s : RuntimeSamplerService) (source : RuntimeSamplerAuthority) (conf : RuntimeSamplerConfiguration) (o : outcome) : Prop := {
  committed_service : service_ok s;
  committed_outcome : o = (Applied, (source, conf));
  committed_controller : controller s = (source, conf);
  committed_flags : shutdownStarted_ s = shutdownStarted_ s0 ∧ activationFailed_ s = activationFailed_ s0;
  committed_live : AnyFeatureEnabled conf = true → ∃ p, sampler_ s = Some p ∧ published s p;
}.

(** During a commit: everything but the controller and the sampler's target, intervals and session is as at its start. *)
Record committing (s0 s : RuntimeSamplerService) (p0 p : ContinuousProfiler) (c : RuntimeSamplerControllerState) : Prop := {
  committing_sampler : sampler_ s = Some p;
  committing_controller : controller s = c;
  committing_flags : shutdownStarted_ s = shutdownStarted_ s0 ∧ activationFailed_ s = activationFailed_ s0 ∧
    requiredClrEventsEnabled_ s = requiredClrEventsEnabled_ s0 ∧ selectiveSamplingBuffersPrepared_ s = selectiveSamplingBuffersPrepared_ s0;
  committing_lives : lives (requiredClrEventsEnabled_ s) 0 p (outside s);
  committing_alive : shutdown_requested_ p = false ∧ thread_sampling_thread_ p = thread_sampling_thread_ p0;
}.

Lemma committing_update s0 s p0 p c t X :
  committing s0 s p0 p c → t = 0 ∨ allocation_sampling_session_state_ p = SessionActive ∧ requiredClrEventsEnabled_ s = true →
  wp (on_sampler (UpdateAllocationSamplingTarget t)) s
    (λ _ s', committing s0 s' p0 (set_target (if allocationSubSampler p is Some _ then Some t else None) p) c) X.
Proof.
  intros [C1 C2 C3 C4 C5] Ht. destruct (Update_run t p (outside s)) as (w & Hrun & Hdid). eapply wp_run; [by eapply on_sampler_run|].
  split; cbn; [done|done|done| |done]. eapply Update_lives; [done|done|]. destruct Ht as [|[? ?]]; [by left|by right].
Qed.

(** The intervals are staged unless they are the staged ones. *)
Lemma committing_intervals s0 s p0 p c conf prev X :
  committing s0 s p0 p c →
  cpuSamplingInterval (desired_thread_sampling_configuration_ p) = cpuSamplingIntervalMilliseconds prev →
  selectiveSamplingInterval (desired_thread_sampling_configuration_ p) = selectiveThreadSamplingIntervalMilliseconds prev →
  (ThreadSamplingEnabled conf = true → thread_sampling_thread_ p = true ∧ requiredClrEventsEnabled_ s = true) →
  wp (if bool_decide (cpuSamplingIntervalMilliseconds prev ≠ cpuSamplingIntervalMilliseconds conf) ||
         bool_decide (selectiveThreadSamplingIntervalMilliseconds prev ≠ selectiveThreadSamplingIntervalMilliseconds conf)
      then on_sampler (StageThreadSamplingConfiguration (cpuSamplingIntervalMilliseconds conf) (selectiveThreadSamplingIntervalMilliseconds conf))
      else mret tt) s
    (λ _ s', ∃ d, committing s0 s' p0 (set_desired d p) c ∧ cpuSamplingInterval d = cpuSamplingIntervalMilliseconds conf ∧
       selectiveSamplingInterval d = selectiveThreadSamplingIntervalMilliseconds conf) X.
Proof.
  intros C H1 H2 Ht. pose proof C as [C1 C2 C3 C4 C5]. destruct (_ || _) eqn:Ec.
  - destruct (Stage_run (cpuSamplingIntervalMilliseconds conf) (selectiveThreadSamplingIntervalMilliseconds conf) p (outside s)) as (w & Hrun & Hdid).
    eapply wp_run; [by eapply on_sampler_run|]. eexists. split; [|split; [|]]; [split; cbn; [done|done|done| |done]|done|done].
    eapply Stage_lives; [done|done|].
    destruct (ThreadSamplingEnabled conf) eqn:Eth; [right; destruct (Ht eq_refl); by repeat split|left].
    unfold ThreadSamplingEnabled, CpuEnabled, SelectiveEnabled in Eth. apply orb_false_iff in Eth as [E1 E2].
    apply bool_decide_eq_false in E1, E2. f_equal; lia.
  - apply orb_false_iff in Ec as [E1 E2]. apply bool_decide_eq_false in E1, E2. eapply (wp_run _ _ tt s); [done|].
    exists (desired_thread_sampling_configuration_ p). split_and!; [by destruct p|rewrite H1; lia|rewrite H2; lia].
Qed.

Lemma committing_done s0 s p0 p source conf o :
  source = Seed ∨ source = ControlPlane → IsValid conf = true → committing s0 s p0 p (source, conf) → ready s0 p0 conf →
  cpuSamplingInterval (desired_thread_sampling_configuration_ p) = cpuSamplingIntervalMilliseconds conf →
  selectiveSamplingInterval (desired_thread_sampling_configuration_ p) = selectiveThreadSamplingIntervalMilliseconds conf →
  shutdownStarted_ s0 = false → activationFailed_ s0 = false →
  (if AllocationEnabled conf then allocation_sampling_session_state_ p = SessionActive ∧ allocationSubSampler p = Some (maxAllocationSamplesPerMinute conf)
   else target_closed p ∧ allocation_sampling_session_state_ p ≠ SessionActive) →
  o = (Applied, controller s) → committed_ok s0 s source conf o.
Proof.
  intros Hsrc V [C1 C2 (F1 & F2 & F3 & F4) C4 [C5 C6]] [R1 R2 R3 R4 R5 R6] Hd1 Hd2 Hst Hfl Ha ->.
  unfold controller in C2. injection C2 as Hau Hcom.
  assert (Hpub : published s p).
  { split; rewrite ?Hcom.
    - split; rewrite ?Hcom, ?F3, ?F4, ?C6; try done; [by rewrite <-F3|]. intros Hal. rewrite Hal in Ha. destruct Ha as [Ha1 Ha2].
      split; [done|]. split; [by rewrite Ha2|by apply R6].
    - intros Hal. rewrite Hal in Ha. apply Ha.
    - intros Hal. by rewrite Hal in Ha. }
  split; [|unfold controller; by rewrite Hau, Hcom|unfold controller; by rewrite Hau, Hcom|done|intros _; by exists p].
  split; rewrite ?Hau, ?Hcom; [done|tauto|]. unfold sampler_ok. rewrite C1, C5. by rewrite F1, F2.
Qed.

Lemma commit_sampler_wp s p source conf X :
  source = Seed ∨ source = ControlPlane → IsValid conf = true → shutdownStarted_ s = false → activationFailed_ s = false → sampler_ s = Some p → ready s p conf →
  wp (commit source conf) s (λ o s', committed_ok s s' source conf o) X.
Proof.
  intros Hsrc V Hst Hfl Hs R. pose proof R as [R1 R2 [R3 R3'] R4 R5 R6]. unfold commit. wp_step (done). rewrite Hs, bool_decide_eq_true_2 by done. cbn [andb].
  assert (C0 : committing s s p p (controller s)) by done.
  apply wp_bind, (wp_mono _ _ (λ _ s', ∃ t, committing s s' p (set_target t p) (controller s) ∧ (AllocationEnabled conf = true → t = allocationSubSampler p)) _ X); [| |done].
  { destruct (AllocationEnabled conf); cbn [negb].
    - eapply (wp_run _ _ tt s); [done|]. exists (allocationSubSampler p). by destruct p.
    - eapply wp_mono; [by eapply (committing_update s s p p _ 0 X); [|left]|intros [] s' Hs'; eexists; by split|done]. }
  intros _ s1 (t & C1 & Ht). wp_step (done). cbn iota. apply wp_bind. unfold PublishCommittedConfiguration. cbv zeta. apply wp_bind, wp_bind.
  assert (C1' : committing s (set_committed source conf s1) p (set_target t p) (source, conf)) by (by destruct C1).
  pose proof (committing_flags _ _ _ _ _ C1') as (_ & _ & Hev1 & _).
  eapply wp_mono; [eapply (committing_intervals s _ p (set_target t p)); [exact C1'|done|done|by rewrite Hev1]| |done].
  intros [] s2 (d & C2 & Hd1 & Hd2). set (p2 := set_desired d (set_target t p)) in *.
  destruct (AllocationEnabled conf) eqn:Ea; cbn [negb].
  - destruct (R6 eq_refl) as (Ha & [m Hm] & Hev).
    eapply wp_mono; [eapply (committing_update s s2 p p2 _ _ X); [done|right; split; [done|]]| |done].
    { by rewrite (proj1 (proj2 (proj2 (committing_flags _ _ _ _ _ C2)))). }
    intros [] s3 C3. wp_step (done). eapply wp_run; [done|]. eapply committing_done; try done. rewrite Ea. split; [done|]. cbn. by rewrite (Ht eq_refl), Hm.
  - eapply wp_run; [done|]. apply wp_bind, (on_sampler_wp _ s2 p2); [apply C2|]. eapply StopSession_wp; [apply C2|].
    intros b p3 w3 Hl3 (E1 & E2 & E3) (E4 & E5) Htc Hna. eapply wp_run; [done|]. eapply wp_run; [done|].
    apply (committing_done s _ p p3); try done; rewrite ?E1; [|done|done|by rewrite Ea].
    destruct C2 as [G1 G2 G3 G4 [G5 G6]]. split; [done|done|done|done|split; congruence].
Qed.
Lemma commit_dormant_wp s source conf X :
  source = Seed ∨ source = ControlPlane → IsValid conf = true → service_ok s → sampler_ s = None → AnyFeatureEnabled conf = false →
  wp (commit source conf) s (λ o s', committed_ok s s' source conf o) X.
Proof.
  intros Hsrc V Hok Hs Hn. unfold commit. wp_step (done). rewrite Hs, bool_decide_eq_false_2 by (by intros [? ?]). cbn [andb].
  wp_step (done). wp_step (done). cbn iota. wp_step (done). eapply wp_run; [done|].
  split; [|done|done|done|congruence]. split; [done|cbn; tauto|]. pose proof (ok_sampler _ Hok) as Hso. unfold sampler_ok in *. cbn.
  rewrite Hs in *. by destruct Hso as (_ & ? & ?).
Qed.

(** The service has neither been shut down nor failed. *)
Definition running (s : RuntimeSamplerService) : Prop := shutdownStarted_ s = false ∧ activationFailed_ s = false.

Definition worker_failed (s : RuntimeSamplerService) : Prop := thread_sampling_worker_failed_ <$> sampler_ s = Some true.

Lemma running_published s p : service_ok s → running s → sampler_ s = Some p → published s p.
Proof.
  intros Hok [F1 F2] Hs. pose proof (ok_sampler _ Hok) as Hso. unfold sampler_ok in Hso. rewrite Hs in Hso.
  destruct (shutdown_requested_ p); [|by destruct Hso]. destruct Hso as (_ & _ & [?|?]); congruence.
Qed.

Lemma ready_dormant s p conf : published s p → AnyFeatureEnabled conf = false → ready s p conf.
Proof.
  intros [[R1 R2 R3 R4 R5 R6] P2 P3] Hn. unfold AnyFeatureEnabled, ThreadSamplingEnabled in Hn.
  apply orb_false_iff in Hn as [[Hn1 Hn2]%orb_false_iff Hn3]. split; try done; [|congruence..].
  unfold ThreadSamplingEnabled. by rewrite Hn1, Hn2.
Qed.

(** Who may set the configuration: a seed only the first one. *)
Definition authorized (source authority : RuntimeSamplerAuthority) : Prop :=
  source = ControlPlane ∨ source = Seed ∧ authority = AuthorityNone.

Record apply_ok (s s' : RuntimeSamplerService) (source : RuntimeSamplerAuthority) (conf : RuntimeSamplerConfiguration) (o : outcome) : Prop := {
  apply_service : service_ok s';
  apply_reported : o.2 = controller s';
  apply_started : shutdownStarted_ s' = shutdownStarted_ s;
  apply_applied : o.1 = Applied → running s ∧ ¬ worker_failed s ∧ IsValid conf = true ∧ authorized source (authority_ s) ∧
    authority_ s' = source ∧ same_features conf (committedConfiguration_ s') = true ∧ running s';
  apply_committed : committedConfiguration_ s' = committedConfiguration_ s ∨ committedConfiguration_ s' = conf;
  apply_rejected : o.1 ≠ Applied → controller s' = controller s;
  apply_unchanged : o.1 = NoChange → source = authority_ s ∧ same_features conf (committedConfiguration_ s) = true;
  apply_survives : running s → ¬ worker_failed s → AnyFeatureEnabled (committedConfiguration_ s) = true → running s';
  apply_succeeds : running s → ¬ worker_failed s → ¬ disabled s → runtime_good → IsValid conf = true → authorized source (authority_ s) →
    o.1 = Applied ∨ o.1 = NoChange;
}.

Lemma same_features_spec c c' :
  same_features c c' = true ↔ cpuSamplingIntervalMilliseconds c = cpuSamplingIntervalMilliseconds c' ∧
    selectiveThreadSamplingIntervalMilliseconds c = selectiveThreadSamplingIntervalMilliseconds c' ∧
    maxAllocationSamplesPerMinute c = maxAllocationSamplesPerMinute c'.
Proof. unfold same_features. rewrite !andb_true_iff, !bool_decide_eq_true. tauto. Qed.

Lemma set_committed_same s source : service_ok s → source = Seed ∨ source = ControlPlane → service_ok (set_committed source (committedConfiguration_ s) s).
Proof.
  intros [V A Hs] Hsrc. split; [done|cbn; tauto|]. unfold sampler_ok in *. cbn. destruct (sampler_ s) as [p|]; [|done].
  destruct (shutdown_requested_ p); [done|]. by destruct Hs as [[[] ? ?] ?].
Qed.

(** An outcome that changes nothing. *)
Lemma apply_nothing s source conf r X :
  service_ok s → r ≠ Applied →
  (r = NoChange → source = authority_ s ∧ same_features conf (committedConfiguration_ s) = true) →
  (r = NoChange ∨ ¬ (running s ∧ ¬ worker_failed s ∧ IsValid conf = true ∧ authorized source (authority_ s))) →
  wp (outcome_of r) s (λ o s', apply_ok s s' source conf o) X.
Proof.
  intros Hok Hr Hn Hc. eapply wp_run; [done|]. split; cbn; try done. - by left.
  - intros H1 H2 _ _ H5 H6. right. destruct Hc as [|Hc]; [done|]. by destruct Hc.
Qed.

Lemma ApplyConfiguration_wp s source conf X :
  service_ok s → wp (ApplyConfiguration source conf) s (λ o s', apply_ok s s' source conf o) X.
Proof.
  intros Hok. unfold ApplyConfiguration. wp_step (done).
  destruct (shutdownStarted_ s) eqn:H1; [apply apply_nothing; try done; right; intros [[? _] _]; congruence|].
  destruct (activationFailed_ s) eqn:H2; [apply apply_nothing; try done; right; intros [[_ ?] _]; congruence|].
  case_decide as Hwf.
  { wp_step (done). wp_step (done). destruct (sampler_ s) as [p|] eqn:Hs; [|done].
    destruct (sampler_ok_lives s p (ok_sampler _ Hok) Hs) as [Hl Hd].
    apply wp_bind. eapply (Shutdown_service_wp _ p); try done; [apply Hok|apply Hok|by right|].
    intros s' p' Hok' (Hc & Hst & Hf) _ _. cbn in Hst, Hf. eapply wp_run; [done|].
    assert (worker_failed s) as Hw by (unfold worker_failed; by rewrite Hs). assert (committedConfiguration_ s' = committedConfiguration_ s) by (unfold controller in Hc; by injection Hc).
    split; cbn; try done; try (by left); try (by rewrite Hc). }
  case_decide as Hsrc.
  { apply apply_nothing; try done. right. intros (_ & _ & _ & [->|[-> _]]); tauto. }
  assert (source = Seed ∨ source = ControlPlane) as Hsrc' by (destruct (decide (source = Seed)), (decide (source = ControlPlane)); tauto).
  destruct (IsValid conf) eqn:V; cbn [negb]; [|apply apply_nothing; try done; right; intros (_ & _ & ? & _); congruence].
  case_decide as Hss; [apply apply_nothing; try done; right; intros (_ & _ & _ & [?|[_ ?]]); destruct Hss; congruence|].
  case_decide as Hsc; [apply apply_nothing; try done; right; intros (_ & _ & _ & [?|[_ ?]]); destruct Hsc; congruence|].
  assert (Hauth : authorized source (authority_ s)).
  { destruct Hsrc' as [->| ->]; [right|by left]. split; [done|]. destruct (ok_authority _ Hok) as [?|[?|[? _]]]; tauto. }
  destruct (same_features conf _) eqn:Hsame.
  - case_decide as Ha; [apply apply_nothing; try done; by left|]. wp_step (done). eapply wp_run; [done|].
    split; cbn; try done; try (by left). by apply set_committed_same.
  - apply wp_bind, (wp_mono _ _ (λ r s', match r with
      | Some o => failed_ok s s' o
      | None => running s' ∧ (sampler_ s' = None ∧ s' = s ∧ AnyFeatureEnabled conf = false ∨ ∃ p, sampler_ s' = Some p ∧ ready s' p conf)
      end) _ X); [| |done].
    + destruct (AnyFeatureEnabled conf) eqn:Ef.
      * eapply wp_mono; [by apply (activate_wp s conf X)| |done]. intros [o|] s'; [done|]. intros [(_ & F1 & F2) Hp]. split; [|by right].
        split; congruence.
      * eapply wp_run; [done|]. split; [done|]. destruct (sampler_ s) as [p|] eqn:Hs; [right|by left]. exists p. split; [done|].
        apply ready_dormant; [|done]. by eapply running_published.
    + intros [o|] s' Hr.
      * eapply wp_run; [done|]. destruct Hr as [F1 -> F3 F4 F5 F6]. unfold controller in F3. injection F3 as F3 F3'. split; cbn; try done.
        -- unfold controller. by rewrite F3, F3'.
        -- by left.
        -- intros _. unfold controller. by rewrite F3, F3'.
        -- intros _ _ Hany. destruct (F5 Hany) as [F5' _]. split; congruence.
        -- intros _ _ Hd Hg. by destruct F6.
      * destruct Hr as [[R1 R2] Hr].
        eapply (wp_mono _ _ (λ o s'', committed_ok s' s'' source conf o) _ X); [|  |done].
        -- destruct Hr as [(Hn & -> & Hf)|(p & Hp & Hr)]; [by apply commit_dormant_wp|by eapply commit_sampler_wp].
        -- intros o s'' [C1 -> C3 [C4 C5] C6]. unfold controller in C3. injection C3 as C3 C3'. split; cbn; try done.
           ++ unfold controller. by rewrite C3, C3'.
           ++ congruence.
           ++ intros _. rewrite C3'. split_and!; try done; [by apply same_features_spec|split; congruence].
           ++ rewrite C3'. by right.
           ++ intros _ _ _. split; congruence.
           ++ by left.
Qed.
End Service_specs.

(** ** The exported functions (CorProfiler, interop.cpp)

    A profiler may have no service, and there may be no profiler; [info12_]: the runtime has
    ICorProfilerInfo12.  A pointer argument is [None] when it is null; what it points to is returned. *)

Record RuntimeSamplerState := {
  state_structureSize : Z;
  state_authority : Z;
  state_committedConfiguration : RuntimeSamplerConfiguration;
}.

Inductive RuntimeSamplerStateQueryResult := Succeeded | InvalidArgument | UnsupportedLayout.

Definition authority_value (a : RuntimeSamplerAuthority) : Z :=
  match a with AuthorityNone => 0 | Seed => 1 | ControlPlane => 2 | OtherAuthority v => v end.

Definition EncodeRuntimeSamplerState (state : RuntimeSamplerControllerState) (encoded : option RuntimeSamplerState) :
    RuntimeSamplerStateQueryResult * option RuntimeSamplerState :=
  match encoded with
  | None => (InvalidArgument, None)
  | Some e =>
      if decide (state_structureSize e ≠ sizeof_RuntimeSamplerState) then (UnsupportedLayout, encoded)
      else (Succeeded, Some {| state_structureSize := sizeof_RuntimeSamplerState; state_authority := authority_value state.1;
                               state_committedConfiguration := state.2 |})
  end.

Definition controller_init : RuntimeSamplerControllerState := (AuthorityNone, configuration_init).

Record CorProfiler := { runtime_sampler_service_ : option RuntimeSamplerService; info12_ : bool }.

Abbreviation C := (stM CorProfiler unit).

Definition GetContinuousProfilerState (actualState : option RuntimeSamplerState) (cor : CorProfiler) :
    RuntimeSamplerStateQueryResult * option RuntimeSamplerState :=
  match runtime_sampler_service_ cor with
  | Some s => EncodeRuntimeSamplerState (controller s) actualState
  | None => EncodeRuntimeSamplerState controller_init actualState
  end.

Section Exported.
Context `{Runtime}.

Definition service_apply (authority : RuntimeSamplerAuthority) (configuration : RuntimeSamplerConfiguration) : C (RuntimeSamplerApplyResult * RuntimeSamplerControllerState) := λ cor,
  match runtime_sampler_service_ cor with
  | None => (Stuck, cor)
  | Some s => let '(r, s') := ApplyConfiguration authority configuration s in (r, {| runtime_sampler_service_ := Some s'; info12_ := info12_ cor |})
  end.

Definition CorProfiler_Apply (request : option RuntimeSamplerConfiguration) (authority : RuntimeSamplerAuthority) (actualState : option RuntimeSamplerState) :
    C (RuntimeSamplerApplyResult * option RuntimeSamplerState) :=
  match actualState with
  | None => mret (RejectedInvalidArgument, actualState)
  | Some actual =>
      if decide (state_structureSize actual ≠ sizeof_RuntimeSamplerState) then mret (RejectedUnsupportedLayout, actualState)
      else
        cor ← get;
        let reject result := mret (result, (GetContinuousProfilerState actualState cor).2) in
        match request with
        | None => reject RejectedInvalidArgument
        | Some request =>
            if decide (structureSize request ≠ sizeof_RuntimeSamplerConfiguration) then reject RejectedUnsupportedLayout
            else if decide (authority ≠ Seed ∧ authority ≠ ControlPlane) then reject RejectedInvalidArgument
            else if negb (IsValid request) then reject RejectedInvalidConfiguration
            else
              let unsupported := AllocationEnabled request && negb (info12_ cor) in
              if unsupported && bool_decide (authority ≠ Seed) then reject RejectedUnsupportedRuntime
              else
                let configuration :=
                  if unsupported : bool then
                    {| structureSize := structureSize request; cpuSamplingIntervalMilliseconds := cpuSamplingIntervalMilliseconds request;
                       selectiveThreadSamplingIntervalMilliseconds := selectiveThreadSamplingIntervalMilliseconds request;
                       maxAllocationSamplesPerMinute := 0 |}
                  else request in
                match runtime_sampler_service_ cor with
                | None => mret (ActivationFailed, (EncodeRuntimeSamplerState controller_init actualState).2)
                | Some _ =>
                    '(result, state) ← service_apply authority configuration;
                    mret (result, (EncodeRuntimeSamplerState state actualState).2)
                end
        end
  end.

(** The exported ApplyContinuousProfilerConfiguration; [None]: trace::profiler is null. *)
Definition ApplyContinuousProfilerConfiguration (request : option RuntimeSamplerConfiguration) (authority : RuntimeSamplerAuthority)
    (actualState : option RuntimeSamplerState) : stM (option CorProfiler) unit (RuntimeSamplerApplyResult * option RuntimeSamplerState) := λ profiler,
  match profiler with
  | None =>
      let '(stateResult, encoded) := EncodeRuntimeSamplerState controller_init actualState in
      (Ret (match stateResult with InvalidArgument => RejectedInvalidArgument | UnsupportedLayout => RejectedUnsupportedLayout | Succeeded => ShuttingDown end, encoded), profiler)
  | Some cor => let '(r, cor') := CorProfiler_Apply request authority actualState cor in (r, Some cor')
  end.

(** The startup path: a seed. *)
Definition ConfigureContinuousProfiler (threadSamplingEnabled : bool) (threadSamplingInterval : Z) (allocationSamplingEnabled : bool)
    (maxMemorySamplesPerMinute selectedThreadsSamplingInterval : Z) : C unit :=
  let request := {|
    structureSize := sizeof_RuntimeSamplerConfiguration;
    cpuSamplingIntervalMilliseconds := if threadSamplingEnabled then threadSamplingInterval else 0;
    selectiveThreadSamplingIntervalMilliseconds := selectedThreadsSamplingInterval;
    maxAllocationSamplesPerMinute := if allocationSamplingEnabled then maxMemorySamplesPerMinute else 0 |} in
  CorProfiler_Apply (Some request) Seed
    (Some {| state_structureSize := sizeof_RuntimeSamplerState; state_authority := 0; state_committedConfiguration :=
      {| structureSize := 0; cpuSamplingIntervalMilliseconds := 0; selectiveThreadSamplingIntervalMilliseconds := 0; maxAllocationSamplesPerMinute := 0 |} |});;
  mret tt.

Inductive exported_call :=
| ApplyCall (request : option RuntimeSamplerConfiguration) (authority : RuntimeSamplerAuthority) (actualState : option RuntimeSamplerState)
| ConfigureCall (threadSamplingEnabled : bool) (threadSamplingInterval : Z) (allocationSamplingEnabled : bool)
    (maxMemorySamplesPerMinute selectedThreadsSamplingInterval : Z).

Definition run_call (c : exported_call) : C unit :=
  match c with
  | ApplyCall request authority actualState => CorProfiler_Apply request authority actualState;; mret tt
  | ConfigureCall te ti ae m si => ConfigureContinuousProfiler te ti ae m si
  end.

Fixpoint run_calls (cs : list exported_call) : C unit :=
  match cs with [] => mret tt | c :: cs => run_call c;; run_calls cs end.

(** What the controller of a profiler commits: of the layout it knows, and no allocation sampling unless
    the runtime has it. *)
Record cor_ok (cor : CorProfiler) (s : RuntimeSamplerService) : Prop := {
  cor_service : runtime_sampler_service_ cor = Some s;
  cor_service_ok : service_ok s;
  cor_size : structureSize (committedConfiguration_ s) = sizeof_RuntimeSamplerConfiguration;
  cor_allocation : AllocationEnabled (committedConfiguration_ s) = true → info12_ cor = true;
}.

Definition reports (s : RuntimeSamplerService) : RuntimeSamplerState :=
  {| state_structureSize := sizeof_RuntimeSamplerState; state_authority := authority_value (authority_ s); state_committedConfiguration := committedConfiguration_ s |}.

(** What a call returns for its pointer to the state. *)
Definition reported (s : RuntimeSamplerService) (actualState : option RuntimeSamplerState) : option RuntimeSamplerState :=
  match actualState with
  | Some actual => if decide (state_structureSize actual = sizeof_RuntimeSamplerState) then Some (reports s) else Some actual
  | None => None
  end.

Definition known_layout (actualState : option RuntimeSamplerState) : Prop :=
  match actualState with Some actual => state_structureSize actual = sizeof_RuntimeSamplerState | None => False end.

Lemma reported_encode s actual : state_structureSize actual = sizeof_RuntimeSamplerState →
  (EncodeRuntimeSamplerState (controller s) (Some actual)).2 = reported s (Some actual).
Proof. intros Hl. cbn. rewrite decide_False by (by intros ?). by rewrite decide_True. Qed.

Lemma CorProfiler_Apply_wp cor s request authority actualState X :
  cor_ok cor s →
  wp (CorProfiler_Apply request authority actualState) cor
    (λ ro cor', ∃ s', cor_ok cor' s' ∧ info12_ cor' = info12_ cor ∧ ro.2 = reported s' actualState ∧
       (¬ known_layout actualState → s' = s) ∧
       (ro.1 = Applied → ∃ conf, request = Some conf ∧ authority_ s' = authority ∧
          cpuSamplingIntervalMilliseconds (committedConfiguration_ s') = cpuSamplingIntervalMilliseconds conf ∧
          selectiveThreadSamplingIntervalMilliseconds (committedConfiguration_ s') = selectiveThreadSamplingIntervalMilliseconds conf) ∧
       (ro.1 ≠ Applied → controller s' = controller s)) X.
Proof.
  intros [Hs Hok Hsize Halloc]. unfold CorProfiler_Apply. destruct actualState as [actual|]; [|eapply wp_run; [done|]; exists s; by split_and!].
  destruct (decide (state_structureSize actual ≠ sizeof_RuntimeSamplerState)) as [Hl|Hl].
  { eapply wp_run; [done|]. exists s. cbn. rewrite decide_False by done. by split_and!. }
  assert (state_structureSize actual = sizeof_RuntimeSamplerState) as Hl' by lia. wp_step (done). cbv zeta.
  assert (Hreject : ∀ r, r ≠ Applied → wp (mret (r, (GetContinuousProfilerState (Some actual) cor).2)) cor
    (λ ro cor', ∃ s', cor_ok cor' s' ∧ info12_ cor' = info12_ cor ∧ ro.2 = reported s' (Some actual) ∧
       (¬ known_layout (Some actual) → s' = s) ∧
       (ro.1 = Applied → ∃ conf, request = Some conf ∧ authority_ s' = authority ∧
          cpuSamplingIntervalMilliseconds (committedConfiguration_ s') = cpuSamplingIntervalMilliseconds conf ∧
          selectiveThreadSamplingIntervalMilliseconds (committedConfiguration_ s') = selectiveThreadSamplingIntervalMilliseconds conf) ∧
       (ro.1 ≠ Applied → controller s' = controller s)) X).
  { intros r Hr. eapply wp_run; [done|]. exists s. split_and!; [done|done| |done|done|done]. unfold GetContinuousProfilerState. rewrite Hs. by apply reported_encode. }
  destruct request as [request|]; [|by apply Hreject]. case_decide as Hsz; [by apply Hreject|]. case_decide; [by apply Hreject|].
  destruct (negb (IsValid request)); [by apply Hreject|].
  assert (Hgo : ∀ conf, structureSize conf = sizeof_RuntimeSamplerConfiguration → (AllocationEnabled conf = true → info12_ cor = true) →
    cpuSamplingIntervalMilliseconds conf = cpuSamplingIntervalMilliseconds request →
    selectiveThreadSamplingIntervalMilliseconds conf = selectiveThreadSamplingIntervalMilliseconds request →
    wp ('(result, state) ← service_apply authority conf; mret (result, (EncodeRuntimeSamplerState state (Some actual)).2)) cor
      (λ ro cor', ∃ s', cor_ok cor' s' ∧ info12_ cor' = info12_ cor ∧ ro.2 = reported s' (Some actual) ∧
         (¬ known_layout (Some actual) → s' = s) ∧
         (ro.1 = Applied → ∃ conf, Some request = Some conf ∧ authority_ s' = authority ∧
            cpuSamplingIntervalMilliseconds (committedConfiguration_ s') = cpuSamplingIntervalMilliseconds conf ∧
            selectiveThreadSamplingIntervalMilliseconds (committedConfiguration_ s') = selectiveThreadSamplingIntervalMilliseconds conf) ∧
         (ro.1 ≠ Applied → controller s' = controller s)) X).
  { intros conf Hsz' Hinfo Hcpu Hsel. pose proof (ApplyConfiguration_wp s authority conf (λ _ _, False) Hok) as Ha.
    apply wp_bind. unfold wp in Ha. unfold wp at 1, service_apply. rewrite Hs.
    destruct (ApplyConfiguration authority conf s) as [[[r st]|[]| |] s']; try done.
    destruct Ha as [A1 A2 A3 A4 A5 A6 _ _ _]. cbn in A2, A4, A6. subst st. eapply wp_run; [done|]. exists s'. cbn [fst snd].
    split_and!; [|done|by apply reported_encode|done| |done].
    - split; [done|done|by destruct A5 as [->| ->]|by destruct A5 as [->| ->]].
    - intros Hr. destruct (A4 Hr) as (_ & _ & _ & _ & Hau & (F1 & F2 & _)%same_features_spec & _). exists request. split_and!; congruence. }
  destruct (AllocationEnabled request && negb (info12_ cor)) eqn:Eu; cbn [andb]; [destruct (bool_decide (authority ≠ Seed)); [by apply Hreject|]|];
    rewrite Hs; apply Hgo; cbn; try done; try lia.
  intros Hc. rewrite Hc in Eu. by destruct (info12_ cor).
Qed.

Lemma run_calls_ok cs cor s : cor_ok cor s → ∃ cor' s', run_calls cs cor = (Ret tt, cor') ∧ cor_ok cor' s' ∧ info12_ cor' = info12_ cor.
Proof.
  revert cor s. induction cs as [|c cs IH]; intros cor s Hcor; [by exists cor, s|]. cbn [run_calls].
  assert (wp (run_call c) cor (λ _ cor', ∃ s', cor_ok cor' s' ∧ info12_ cor' = info12_ cor) (λ _ _, False)) as Hw.
  { destruct c; unfold run_call, ConfigureContinuousProfiler; cbv zeta; apply wp_bind; (eapply wp_mono; [by apply (CorProfiler_Apply_wp cor s _ _ _ (λ _ _, False))| |done]);
      intros ro cor' (s' & Hcor' & Hi & _); (eapply wp_run; [done|]); by exists s'. }
  unfold wp in Hw. destruct (run_call c cor) as [[[]| | |] cor1] eqn:E; try done. destruct Hw as (s1 & Hcor1 & Hi1).
  destruct (IH cor1 s1 Hcor1) as (cor' & s' & Hrun & Hcor' & Hi'). exists cor', s'. split_and!; [by run_by (exact E)|done|congruence].
Qed.
End Exported.

(** ** Runs of the service *)

Inductive service_event :=
| Apply (source : RuntimeSamplerAuthority) (configuration : RuntimeSamplerConfiguration)
| WorkerFails (* the worker has left on an exception *)
| ShutDown.

Section Runs.
Context `{Runtime}.

Definition worker_fails : S unit := modify (λ s,
  match sampler_ s with
  | Some p => if thread_sampling_thread_ p then set_sampler (Some (MarkThreadSamplingWorkerFailed p)) (outside s) s else s
  | None => s
  end).

Definition run_event (e : service_event) : S unit :=
  match e with
  | Apply source configuration => ApplyConfiguration source configuration;; mret tt
  | WorkerFails => worker_fails
  | ShutDown => Service_Shutdown
  end.

Fixpoint run_events (es : list service_event) : S unit :=
  match es with [] => mret tt | e :: es => run_event e;; run_events es end.

Lemma worker_fails_ok s : service_ok s → wp worker_fails s (λ _ s', service_ok s') (λ _ _, False).
Proof.
  intros [V A Hs]. eapply wp_run; [done|]. destruct (sampler_ s) as [p|] eqn:E; [|done].
  destruct (thread_sampling_thread_ p) eqn:Et; [|done]. split; [done|done|]. unfold sampler_ok in *. rewrite E in Hs. cbn.
  destruct (shutdown_requested_ p) eqn:Er.
  - destruct Hs as (_ & Hd & _). destruct Hd as (_ & _ & Hd & _). congruence.
  - destruct Hs as [[[R1 R2 R3 R4 R5 R6] P2 P3] Hf]. done.
Qed.

Lemma Service_Shutdown_ok s : service_ok s → wp Service_Shutdown s (λ _ s', service_ok s') (λ _ _, False).
Proof.
  intros Hok. unfold Service_Shutdown. wp_step (done). wp_step (done). cbn. destruct (sampler_ s) as [p|] eqn:E.
  - destruct (sampler_ok_lives s p (ok_sampler _ Hok) E) as [Hl Hd]. eapply (Shutdown_service_wp _ p); try done; [apply Hok|apply Hok|by left].
  - eapply wp_run; [done|]. destruct Hok as [V A Hs]. split; [done|done|]. unfold sampler_ok in *. cbn. by rewrite E in *.
Qed.

Lemma run_events_ok es s : service_ok s → ∃ s', run_events es s = (Ret tt, s') ∧ service_ok s'.
Proof.
  revert s. induction es as [|e es IH]; intros s Hok; [by exists s|].
  assert (wp (run_event e) s (λ _ s', service_ok s') (λ _ _, False)) as Hw.
  { destruct e as [source conf| |]; [|by apply worker_fails_ok|by apply Service_Shutdown_ok].
    apply wp_bind. eapply wp_mono; [by apply (ApplyConfiguration_wp s source conf (λ _ _, False))| |done].
    intros o s' Ha. eapply wp_run; [done|]. apply Ha. }
  unfold wp in Hw. destruct (run_event e s) as [[[]| | |] s1] eqn:E; try done. destruct (IH s1 Hw) as (s' & Hrun & Hok').
  exists s'. split; [|done]. cbn. by run_by (exact E).
Qed.
End Runs.

Lemma view_published s p n :
  published s p → let v := view_of (requiredClrEventsEnabled_ s) n p in let c := committedConfiguration_ s in
  view_staged v = (cpuSamplingIntervalMilliseconds c, selectiveThreadSamplingIntervalMilliseconds c) ∧
  view_target v = maxAllocationSamplesPerMinute c ∧
  (ThreadSamplingEnabled c = true → view_worker v = true ∧ view_events v = true) ∧
  (AllocationEnabled c = true ↔ ∃ h, view_session v = Open h).
Proof.
  intros [[R1 R2 [R3 R3'] R4 R5 R6] P2 P3]. cbn. unfold session_seen. split_and!; [by f_equal| |done|].
  - destruct (AllocationEnabled (committedConfiguration_ s)) eqn:Ea; [by rewrite P2|]. destruct (P3 eq_refl) as [Ht _].
    unfold AllocationEnabled in Ea. apply bool_decide_eq_false in Ea. unfold target_closed in Ht. lia.
  - split.
    + intros Ha. destruct (R6 Ha) as (-> & _). by eexists.
    + intros [h Hh]. destruct (AllocationEnabled (committedConfiguration_ s)) eqn:Ea; [done|]. destruct (P3 eq_refl) as [_ Hn].
      by destruct (allocation_sampling_session_state_ p).
Qed.

(** C11: For every sequence of configurations applied, failures of the worker and shutdowns, and whatever
    the runtime answers: nothing is used before it exists and the effects are legal (a session is started
    only when there is none and never after one could not be started or stopped, allocations are sampled
    only with a session, nothing starts during a shutdown, which stops everything in order). While the
    service runs, what is outside is what is committed; otherwise everything is stopped. *)
Theorem service_legal `{Runtime} es :
  ∃ s v, run_events es RuntimeSamplerService_init = (Ret tt, s) ∧ monitor (effects (outside s)) = Some v ∧
    (running s → let c := committedConfiguration_ s in
       view_staged v = (cpuSamplingIntervalMilliseconds c, selectiveThreadSamplingIntervalMilliseconds c) ∧
       view_target v = maxAllocationSamplesPerMinute c ∧
       (ThreadSamplingEnabled c = true → view_worker v = true ∧ view_events v = true) ∧
       (AllocationEnabled c = true ↔ ∃ h, view_session v = Open h)) ∧
    (¬ running s → view_worker v = false ∧ view_target v = 0 ∧ ∀ h, view_session v ≠ Open h).
Proof.
  destruct (run_events_ok es _ service_init_ok) as (s & Hrun & Hok). destruct (sampler_ s) as [p|] eqn:E.
  - destruct (sampler_ok_lives s p (ok_sampler _ Hok) E) as [Hl Hd]. exists s. eexists. split; [done|]. split; [exact Hl|]. split.
    + intros Hr. by apply view_published, (running_published s p).
    + intros Hr. pose proof (ok_sampler _ Hok) as Hso. unfold sampler_ok in Hso. rewrite E in Hso.
      destruct (shutdown_requested_ p); [|by destruct Hr, Hso]. destruct Hso as (_ & (_ & _ & Ht & Htc & Hs) & _).
      split_and!; [done|done|]. intros h. cbn. unfold session_seen. by destruct (allocation_sampling_session_state_ p).
  - pose proof (ok_sampler _ Hok) as Hso. unfold sampler_ok in Hso. rewrite E in Hso. destruct Hso as (Hn & Hev & Hm).
    exists s, view_init. split; [done|]. split; [done|]. split; [|done]. intros _. cbn.
    unfold AnyFeatureEnabled, ThreadSamplingEnabled in *. apply orb_false_iff in Hn as [[Hn1 Hn2]%orb_false_iff Hn3]. rewrite Hn1, Hn2, Hn3.
    unfold CpuEnabled, SelectiveEnabled, AllocationEnabled in *. apply bool_decide_eq_false in Hn1, Hn2, Hn3.
    split_and!; [f_equal; lia|lia|done|]. split; [done|by intros [? ?]].
Qed.

(** C12: Applying a configuration to a service in any reachable state returns, and reports what is then
    committed. It is applied only from someone authorized (the control plane, or the first seed), valid, and
    to a service that runs; then it is what is committed, and otherwise nothing of it is. Nothing authorized,
    valid and new is refused unless a call of the runtime fails or allocation sampling was disabled for good
    by an earlier failure; and a failure stops none of the producers that were committed. *)
Theorem apply_transaction `{Runtime} es s source conf :
  run_events es RuntimeSamplerService_init = (Ret tt, s) →
  ∃ r s', ApplyConfiguration source conf s = (Ret (r, controller s'), s') ∧
    (r = Applied → running s ∧ running s' ∧ ¬ worker_failed s ∧ IsValid conf = true ∧ authorized source (authority_ s) ∧
       authority_ s' = source ∧ same_features conf (committedConfiguration_ s') = true) ∧
    (r ≠ Applied → controller s' = controller s) ∧
    (r = NoChange → source = authority_ s ∧ same_features conf (committedConfiguration_ s) = true) ∧
    (running s → ¬ worker_failed s → IsValid conf = true → authorized source (authority_ s) → r ≠ Applied → r ≠ NoChange →
       disabled s ∨ ¬ runtime_good) ∧
    (running s → ¬ worker_failed s → AnyFeatureEnabled (committedConfiguration_ s) = true → running s').
Proof.
  intros Hrun. destruct (run_events_ok es _ service_init_ok) as (s0 & Hrun' & Hok). assert (s0 = s) as -> by congruence.
  pose proof (ApplyConfiguration_wp s source conf (λ _ _, False) Hok) as Ha. unfold wp in Ha.
  destruct (ApplyConfiguration source conf s) as [[[r st]| | |] s'] eqn:E; try done. destruct Ha as [A1 A2 A3 A4 _ A5 A6 A7 A8]. cbn in *. subst st.
  exists r, s'. split; [done|]. split_and!; [|done|done| |done].
  - intros Hr. destruct (A4 Hr) as (? & ? & ? & ? & ? & ? & ?). by split_and!.
  - intros H1 H2 H3 H4 H5 H6. destruct (decide (disabled s)) as [|Hd]; [by left|]. right.
    intros Hg. destruct (A8 H1 H2 Hd Hg H3 H4); done.
Qed.

(** Through the exported functions, in any sequence of calls and whatever the runtime answers: a call
    returns, and with a state of the known layout it reports exactly what is committed after it, whatever its
    result; with another layout, or none, it changes nothing. What is committed has the known layout, and
    allocation sampling only on a runtime that has it. *)
Theorem exported_calls_report `{Runtime} cs has_info12 request authority actualState :
  let cor0 := {| runtime_sampler_service_ := Some RuntimeSamplerService_init; info12_ := has_info12 |} in
  ∃ cor s r out cor' s',
    run_calls cs cor0 = (Ret tt, cor) ∧ runtime_sampler_service_ cor = Some s ∧
    ApplyContinuousProfilerConfiguration request authority actualState (Some cor) = (Ret (r, out), Some cor') ∧ runtime_sampler_service_ cor' = Some s' ∧
    out = reported s' actualState ∧ (¬ known_layout actualState → s' = s) ∧
    (r ≠ Applied → controller s' = controller s) ∧
    (r = Applied → ∃ conf, request = Some conf ∧ authority_ s' = authority ∧
       cpuSamplingIntervalMilliseconds (committedConfiguration_ s') = cpuSamplingIntervalMilliseconds conf ∧
       selectiveThreadSamplingIntervalMilliseconds (committedConfiguration_ s') = selectiveThreadSamplingIntervalMilliseconds conf) ∧
    structureSize (committedConfiguration_ s') = 16 ∧ (AllocationEnabled (committedConfiguration_ s') = true → has_info12 = true).
Proof.
  intros cor0. assert (cor_ok cor0 RuntimeSamplerService_init) as H0 by (split; [done|apply service_init_ok|done|done]).
  destruct (run_calls_ok cs cor0 _ H0) as (cor & s & Hrun & Hcor & Hi).
  pose proof (CorProfiler_Apply_wp cor s request authority actualState (λ _ _, False) Hcor) as Ha. unfold wp in Ha.
  destruct (CorProfiler_Apply request authority actualState cor) as [[[r out]| | |] cor'] eqn:E; try done.
  destruct Ha as (s' & Hcor' & Hi' & Hout & Hl & Happ & Hrej). cbn in Hout, Happ, Hrej. destruct Hcor' as [C1 C2 C3 C4].
  exists cor, s, r, out, cor', s'. split_and!; try done; [apply Hcor|cbn; by rewrite E|]. intros Ha. rewrite <-(C4 Ha). by rewrite Hi', Hi.
Qed.

(** A runtime that cannot stop a session. *)
Definition example_runtime : Runtime := {|
  start_worker := λ _, Some 0; make_sub_sampler := λ _, true; EventPipeStartSession := λ k, (0, Z.of_nat k + 1);
  EventPipeStopSession := λ _ _, -1; make_sampler := λ _, true; reserve_selective_buffers := λ _, true;
  GetEventMask2 := λ _, 0; SetEventMask2 := λ _, 0 |}.

Definition example_configuration (cpu selective allocation : Z) : RuntimeSamplerConfiguration :=
  {| structureSize := 16; cpuSamplingIntervalMilliseconds := cpu; selectiveThreadSamplingIntervalMilliseconds := selective;
     maxAllocationSamplesPerMinute := allocation |}.

Definition example_events : list service_event :=
  [Apply Seed (example_configuration 1000 0 0); Apply ControlPlane (example_configuration 1000 20 200); Apply ControlPlane (example_configuration 1000 20 0)].

(** The session could not be stopped, so that a configuration with allocation sampling is refused for good. *)
Lemma apply_transaction_witness :
  let s := (@run_events example_runtime example_events RuntimeSamplerService_init).2 in
  let source := ControlPlane in
  let conf := example_configuration 0 0 200 in
  ∃ r s', @ApplyConfiguration example_runtime source conf s = (Ret (r, controller s'), s') ∧
    (r = Applied → running s ∧ running s' ∧ ¬ worker_failed s ∧ IsValid conf = true ∧ authorized source (authority_ s) ∧
       authority_ s' = source ∧ same_features conf (committedConfiguration_ s') = true) ∧
    (r ≠ Applied → controller s' = controller s) ∧
    (r = NoChange → source = authority_ s ∧ same_features conf (committedConfiguration_ s) = true) ∧
    (running s → ¬ worker_failed s → IsValid conf = true → authorized source (authority_ s) → r ≠ Applied → r ≠ NoChange →
       disabled s ∨ ¬ @runtime_good example_runtime) ∧
    (running s → ¬ worker_failed s → AnyFeatureEnabled (committedConfiguration_ s) = true → running s').
Proof. intros s source conf. apply (@apply_transaction example_runtime example_events). by vm_compute. Defined.
