(* ===== verification/AllocationSubSampler.v ===== *)
(** * AllocationSubSampler (continuous_profiler.h/.cpp): which allocation events are sampled

    [ShouldSample] reads the system clock (in milliseconds), the steady clock (in nanoseconds) and
    rolls a die; all three are arguments.  A roll of a die with [n] sides is [roll n].  Counters
    are uint32_t; the clocks are 64-bit counts that do not overflow for centuries.  All members
    are read and written under [sampleLock], so the operations are atomic.

    The main results: in any sequence of changes of the target and events, no window of one cycle's
    length has more than twice the target of accepted events, nothing is accepted with a target of
    zero, in the first ten cycles accepted events are spaced; and after a quiet cycle every event
    is accepted until the target is reached. *)

From S2P Require Import Prelude.
From Stdlib Require Import Sorting.Sorted.

Definition kStartupAllocationPacedCycles : Z := 10.

Record AllocationSubSampler := {
  targetPerCycle : Z;
  secondsPerCycle : Z;
  seenThisCycle : Z;
  sampledThisCycle : Z;
  seenLastCycle : Z;
  startupCyclesRemaining : Z;
  startupNextSampleAllowedAt : Z; (* steady clock *)
  nextCycleStartMillis : Z; (* system clock *)
}.

Definition AllocationSubSampler_init (targetPerCycle_ secondsPerCycle_ now steadyNow : Z) : AllocationSubSampler := {|
  targetPerCycle := targetPerCycle_; secondsPerCycle := secondsPerCycle_;
  seenThisCycle := 0; sampledThisCycle := 0; seenLastCycle := 0;
  startupCyclesRemaining := kStartupAllocationPacedCycles;
  startupNextSampleAllowedAt := steadyNow;
  nextCycleStartMillis := now;
|}.

(** std::chrono::milliseconds(std::chrono::seconds(secondsPerCycle)) *)
Definition cycle_millis (s : AllocationSubSampler) : Z := secondsPerCycle s * 1000.

Definition set_target (target : Z) (s : AllocationSubSampler) : AllocationSubSampler := {|
  targetPerCycle := target; secondsPerCycle := secondsPerCycle s;
  seenThisCycle := seenThisCycle s; sampledThisCycle := sampledThisCycle s; seenLastCycle := seenLastCycle s;
  startupCyclesRemaining := startupCyclesRemaining s;
  startupNextSampleAllowedAt := startupNextSampleAllowedAt s;
  nextCycleStartMillis := nextCycleStartMillis s;
|}.

Definition SetTargetPerCycle (target now steadyNow : Z) (s : AllocationSubSampler) : AllocationSubSampler :=
  if decide (targetPerCycle s = target) then s
  else
    let s :=
      if decide (target ≠ 0) then {|
        targetPerCycle := targetPerCycle s; secondsPerCycle := secondsPerCycle s;
        seenThisCycle := 0; sampledThisCycle := 0; seenLastCycle := 0;
        startupCyclesRemaining := kStartupAllocationPacedCycles;
        startupNextSampleAllowedAt := steadyNow;
        nextCycleStartMillis := now + cycle_millis s |}
      else s in
    set_target target s.

Definition AdvanceCycle (now : Z) (s : AllocationSubSampler) : AllocationSubSampler := {|
  targetPerCycle := targetPerCycle s; secondsPerCycle := secondsPerCycle s;
  seenThisCycle := 0; sampledThisCycle := 0; seenLastCycle := seenThisCycle s;
  startupCyclesRemaining := if decide (0 < startupCyclesRemaining s) then startupCyclesRemaining s - 1 else startupCyclesRemaining s;
  startupNextSampleAllowedAt := startupNextSampleAllowedAt s;
  nextCycleStartMillis := now + cycle_millis s;
|}.

Definition see_event (s : AllocationSubSampler) : AllocationSubSampler := {|
  targetPerCycle := targetPerCycle s; secondsPerCycle := secondsPerCycle s;
  seenThisCycle := u32 (seenThisCycle s + 1); sampledThisCycle := sampledThisCycle s; seenLastCycle := seenLastCycle s;
  startupCyclesRemaining := startupCyclesRemaining s;
  startupNextSampleAllowedAt := startupNextSampleAllowedAt s;
  nextCycleStartMillis := nextCycleStartMillis s;
|}.

(** The spacing of accepted events, in nanoseconds: the division is of whole milliseconds. *)
Definition minimumSampleSpacing (s : AllocationSubSampler) : Z := cycle_millis s / targetPerCycle s * 1000000.

Definition accept_event (steadyNow : Z) (s : AllocationSubSampler) : AllocationSubSampler := {|
  targetPerCycle := targetPerCycle s; secondsPerCycle := secondsPerCycle s;
  seenThisCycle := seenThisCycle s; sampledThisCycle := u32 (sampledThisCycle s + 1); seenLastCycle := seenLastCycle s;
  startupCyclesRemaining := startupCyclesRemaining s;
  startupNextSampleAllowedAt :=
    if decide (0 < startupCyclesRemaining s) then steadyNow + minimumSampleSpacing s else startupNextSampleAllowedAt s;
  nextCycleStartMillis := nextCycleStartMillis s;
|}.

Definition ShouldSample (now steadyNow : Z) (roll : Z → Z) (s : AllocationSubSampler) : bool * AllocationSubSampler :=
  if decide (targetPerCycle s = 0) then (false, s)
  else
    let s := if decide (nextCycleStartMillis s < now) then AdvanceCycle now s else s in
    let s := see_event s in
    if decide (targetPerCycle s ≤ sampledThisCycle s) then (false, s)
    else if decide (0 < startupCyclesRemaining s ∧ steadyNow < startupNextSampleAllowedAt s) then (false, s)
    else if decide (roll (Z.max (seenLastCycle s) 1) ≤ targetPerCycle s) then (true, accept_event steadyNow s)
    else (false, s).

(** ** Executions *)

Record tick := { tick_now : Z; tick_steady : Z; tick_roll : Z → Z }.

Inductive sampler_event :=
| SetTarget (target now steadyNow : Z)
| Tick (t : tick).

Definition fire_tick (t : tick) (s : AllocationSubSampler) : bool * AllocationSubSampler :=
  ShouldSample (tick_now t) (tick_steady t) (tick_roll t) s.

(** The events with the sampler's decisions, and its state after them. *)
Fixpoint run_ticks (ts : list tick) (s : AllocationSubSampler) : list (tick * bool) * AllocationSubSampler :=
  match ts with
  | [] => ([], s)
  | t :: ts =>
      let '(sample, s) := fire_tick t s in
      let '(rest, s) := run_ticks ts s in
      ((t, sample) :: rest, s)
  end.

Fixpoint run_events (es : list sampler_event) (s : AllocationSubSampler) : AllocationSubSampler :=
  match es with
  | [] => s
  | SetTarget target now steadyNow :: es => run_events es (SetTargetPerCycle target now steadyNow s)
  | Tick t :: es => run_events es (fire_tick t s).2
  end.

Definition accepted (r : list (tick * bool)) : list tick := (filter (λ e, e.2 = true) r).*1.
Definition accepted_count (r : list (tick * bool)) : Z := Z.of_nat (length (accepted r)).

(** uniform_int_distribution(1, n) *)
Definition fair (t : tick) : Prop := ∀ n, 1 ≤ n → 1 ≤ tick_roll t n ≤ n.

(** Targets are uint32_t. *)
Definition targets_ok (es : list sampler_event) : Prop :=
  Forall (λ e, match e with SetTarget target _ _ => 0 ≤ target < 2 ^ 32 | Tick _ => True end) es.

(** ** The invariant *)

Record sampler_ok (s : AllocationSubSampler) : Prop := {
  ok_target : 0 ≤ targetPerCycle s < 2 ^ 32;
  ok_seconds : 0 ≤ secondsPerCycle s;
  ok_sampled : 0 ≤ sampledThisCycle s ∧ (targetPerCycle s ≠ 0 → sampledThisCycle s ≤ targetPerCycle s);
  ok_startup : 0 ≤ startupCyclesRemaining s ≤ kStartupAllocationPacedCycles;
}.

Lemma sampler_ok_init target seconds now steadyNow :
  0 ≤ target < 2 ^ 32 → 0 ≤ seconds → sampler_ok (AllocationSubSampler_init target seconds now steadyNow).
Proof. intros. split; cbn; unfold kStartupAllocationPacedCycles; lia. Qed.

Lemma SetTargetPerCycle_ok target now steadyNow s :
  0 ≤ target < 2 ^ 32 → sampler_ok s → sampler_ok (SetTargetPerCycle target now steadyNow s).
Proof.
  intros Ht [H1 H2 [H3 H4] H5]. unfold SetTargetPerCycle. case_decide; [done|].
  case_decide; split; cbn; unfold kStartupAllocationPacedCycles in *; lia.
Qed.

(** What one event does, by cases. *)
Inductive ticked (t : tick) (s s' : AllocationSubSampler) : bool → Prop :=
| ticked_closed : targetPerCycle s = 0 → s' = s → ticked t s s' false
| ticked_seen s1 :
    targetPerCycle s ≠ 0 → s1 = (if decide (nextCycleStartMillis s < tick_now t) then AdvanceCycle (tick_now t) s else s) →
    s' = see_event s1 →
    (targetPerCycle s ≤ sampledThisCycle s1 ∨ (0 < startupCyclesRemaining s1 ∧ tick_steady t < startupNextSampleAllowedAt s1) ∨
     targetPerCycle s < tick_roll t (Z.max (seenLastCycle s1) 1)) →
    ticked t s s' false
| ticked_accepted s1 :
    targetPerCycle s ≠ 0 → s1 = (if decide (nextCycleStartMillis s < tick_now t) then AdvanceCycle (tick_now t) s else s) →
    s' = accept_event (tick_steady t) (see_event s1) →
    sampledThisCycle s1 < targetPerCycle s → (0 < startupCyclesRemaining s1 → startupNextSampleAllowedAt s1 ≤ tick_steady t) →
    ticked t s s' true.

Lemma fire_tick_spec t s : ticked t s (fire_tick t s).2 (fire_tick t s).1.
Proof.
  unfold fire_tick, ShouldSample. case_decide as H0; [by constructor|].
  set (s1 := if decide (nextCycleStartMillis s < tick_now t) then AdvanceCycle (tick_now t) s else s).
  assert (Ht : targetPerCycle s1 = targetPerCycle s) by (unfold s1; case_decide; done).
  case_decide as H1; cbn in H1; [eapply ticked_seen; [done|reflexivity|done|fold s1; lia]|].
  case_decide as H2; cbn in H2; [eapply ticked_seen; [done|reflexivity|done|fold s1; lia]|].
  case_decide as H3; cbn in H3; cbn [fst snd].
  - eapply ticked_accepted; [done|reflexivity|done|fold s1; lia|fold s1; lia].
  - eapply ticked_seen; [done|reflexivity|done|fold s1; lia].
Qed.

Lemma fire_tick_ok t s :
  sampler_ok s → sampler_ok (fire_tick t s).2 ∧ targetPerCycle (fire_tick t s).2 = targetPerCycle s ∧
    secondsPerCycle (fire_tick t s).2 = secondsPerCycle s ∧ startupCyclesRemaining (fire_tick t s).2 ≤ startupCyclesRemaining s.
Proof.
  intros [H1 H2 [H3 H4] H5].
  destruct (fire_tick_spec t s) as [H6 ->|s1 H6 E -> H7|s1 H6 E -> H7 H8]; [by repeat split; try lia| |];
    (assert (E' : s1 = s ∨ s1 = AdvanceCycle (tick_now t) s) by (rewrite E; case_decide; auto);
     destruct E' as [->| ->]; clear E; cbn in *;
     (split; [split; cbn; repeat case_decide; rewrite ?wrap_small by lia; lia|]); repeat split; repeat case_decide; lia).
Qed.

Lemma run_ticks_ok ts s :
  sampler_ok s → sampler_ok (run_ticks ts s).2 ∧ targetPerCycle (run_ticks ts s).2 = targetPerCycle s ∧
    startupCyclesRemaining (run_ticks ts s).2 ≤ startupCyclesRemaining s.
Proof.
  revert s. induction ts as [|t ts IH]; intros s Hok; [by repeat split; try apply Hok|]. cbn [run_ticks].
  destruct (fire_tick_ok t s Hok) as (Hok1 & Ht & _ & Hs). destruct (fire_tick t s) as [sample s1]. cbn [fst snd] in *.
  destruct (IH s1 Hok1) as (H1 & H2 & H3). destruct (run_ticks ts s1) as [rest s2]. cbn [fst snd] in *. split; [done|]. lia.
Qed.

Lemma run_sampler_events_ok es s : targets_ok es → sampler_ok s → sampler_ok (run_events es s).
Proof.
  intros Hes. revert s. induction Hes as [|[target now steadyNow|t] es He Hes IH]; intros s Hok; [done| |]; cbn [run_events]; apply IH.
  - by apply SetTargetPerCycle_ok.
  - by apply fire_tick_ok.
Qed.

Lemma run_ticks_cons t ts s :
  run_ticks (t :: ts) s = ((t, (fire_tick t s).1) :: (run_ticks ts (fire_tick t s).2).1, (run_ticks ts (fire_tick t s).2).2).
Proof. cbn [run_ticks]. destruct (fire_tick t s) as [b s1]. cbn [fst snd]. by destruct (run_ticks ts s1). Qed.

Lemma accepted_cons t (b : bool) r : accepted ((t, b) :: r) = (if b then [t] else []) ++ accepted r.
Proof. unfold accepted. destruct b; [by rewrite filter_cons_True|by rewrite filter_cons_False]. Qed.

Lemma accepted_count_cons t (b : bool) r : accepted_count ((t, b) :: r) = (if b then 1 else 0) + accepted_count r.
Proof. unfold accepted_count. rewrite accepted_cons, length_app. destruct b; simpl; lia. Qed.

(** ** How many events are accepted *)

(** With a target of zero none is. *)
Lemma closed_accepts_none ts s : targetPerCycle s = 0 → accepted (run_ticks ts s).1 = [].
Proof.
  intros H. induction ts as [|t ts IH]; [done|]. rewrite run_ticks_cons.
  assert (fire_tick t s = (false, s)) as -> by (unfold fire_tick, ShouldSample; by rewrite decide_True).
  cbn [fst snd]. by rewrite accepted_cons.
Qed.

(** While no event ends the cycle, the rest of the target is accepted at most. *)
Lemma settled_bound c ts s :
  sampler_ok s → targetPerCycle s ≠ 0 → c ≤ nextCycleStartMillis s → Forall (λ t, tick_now t ≤ c) ts →
  accepted_count (run_ticks ts s).1 ≤ targetPerCycle s - sampledThisCycle s.
Proof.
  revert s. induction ts as [|t ts IH]; intros s Hok Ht Hc Hts.
  { change (accepted_count (run_ticks [] s).1) with 0. destruct (ok_sampled s Hok), (ok_target s Hok). lia. }
  apply Forall_cons in Hts as [Hnow Hts]. rewrite run_ticks_cons. cbn [fst]. rewrite accepted_count_cons.
  destruct (fire_tick_ok t s Hok) as (Hok' & Et & _ & _). destruct (ok_sampled s Hok) as [Hs1 Hs2]. pose proof (ok_target s Hok).
  destruct (fire_tick_spec t s) as [H6 E|s1 H6 E E' H7|s1 H6 E E' H7 H8]; [done| |];
    rewrite decide_False in E by lia; subst s1;
    (specialize (IH _ Hok'); rewrite E' in *; cbn in *; specialize (IH Ht Hc Hts); rewrite ?wrap_small in IH by lia; lia).
Qed.

Lemma window_bound a ts s :
  sampler_ok s → targetPerCycle s ≠ 0 → Forall (λ t, a ≤ tick_now t ≤ a + cycle_millis s) ts →
  accepted_count (run_ticks ts s).1 ≤ 2 * targetPerCycle s - sampledThisCycle s.
Proof.
  revert s. induction ts as [|t ts IH]; intros s Hok Ht Hts.
  { change (accepted_count (run_ticks [] s).1) with 0. destruct (ok_sampled s Hok), (ok_target s Hok). lia. }
  apply Forall_cons in Hts as [Hnow Hts]. rewrite run_ticks_cons. cbn [fst]. rewrite accepted_count_cons.
  destruct (fire_tick_ok t s Hok) as (Hok' & Et & Es & _). destruct (ok_sampled s Hok) as [Hs1 Hs2]. pose proof (ok_target s Hok).
  destruct (decide (nextCycleStartMillis s < tick_now t)) as [Hadv|Hadv].
  - assert (Hsettled := settled_bound (a + cycle_millis s) ts _ Hok'). rewrite Et in Hsettled.
    assert (Hts' : Forall (λ t, tick_now t ≤ a + cycle_millis s) ts) by (eapply Forall_impl; [exact Hts|]; cbn; lia).
    destruct (fire_tick_spec t s) as [H6 E|s1 H6 E E' H7|s1 H6 E E' H7 H8]; [done| |];
      rewrite decide_True in E by done; subst s1; rewrite E' in *; cbn in *; (specialize (Hsettled Ht ltac:(lia) Hts'));
      rewrite ?wrap_small in Hsettled by lia; lia.
  - specialize (IH _ Hok'). unfold cycle_millis in *. rewrite Et, Es in IH. specialize (IH Ht Hts).
    destruct (fire_tick_spec t s) as [H6 E|s1 H6 E E' H7|s1 H6 E E' H7 H8]; [done| |];
      rewrite decide_False in E by done; subst s1; rewrite E' in *; cbn in *; rewrite ?wrap_small in IH by lia; lia.
Qed.

(** ** Spacing *)

Definition spaced (s : AllocationSubSampler) (t1 t2 : tick) : Prop := tick_steady t1 + minimumSampleSpacing s ≤ tick_steady t2.

Lemma spacing_nonneg s : sampler_ok s → 0 ≤ minimumSampleSpacing s.
Proof.
  intros [H1 H2 _ _]. unfold minimumSampleSpacing, cycle_millis.
  destruct (decide (targetPerCycle s = 0)) as [->|]; [rewrite Zdiv_0_r; lia|].
  pose proof (Z.div_pos (secondsPerCycle s * 1000) (targetPerCycle s)). lia.
Qed.

Lemma startup_spaced x ts s :
  sampler_ok s → 0 < startupCyclesRemaining (run_ticks ts s).2 → x ≤ startupNextSampleAllowedAt s →
  Forall (λ t, x ≤ tick_steady t) (accepted (run_ticks ts s).1) ∧ StronglySorted (spaced s) (accepted (run_ticks ts s).1).
Proof.
  revert s x. induction ts as [|t ts IH]; intros s x Hok Hend Hx; [split; constructor|].
  rewrite run_ticks_cons in Hend |- *. cbn [fst snd] in *. rewrite accepted_cons.
  destruct (fire_tick_ok t s Hok) as (Hok' & Et & Es & _). destruct (run_ticks_ok ts _ Hok') as (_ & _ & Hle).
  assert (Hspaced : ∀ t1 t2, spaced (fire_tick t s).2 t1 t2 ↔ spaced s t1 t2)
    by (intros; unfold spaced, minimumSampleSpacing, cycle_millis; by rewrite Et, Es).
  assert (Hstrong : ∀ l, StronglySorted (spaced (fire_tick t s).2) l → StronglySorted (spaced s) l).
  { intros l Hl. induction Hl as [|t' l Hl IHl Hall]; constructor; [done|].
    eapply Forall_impl; [exact Hall|]. intros t''. by rewrite Hspaced. }
  pose proof (spacing_nonneg s Hok) as Hpos.
  destruct (fire_tick_spec t s) as [H6 E|s1 H6 E E' H7|s1 H6 E E' H7 H8].
  - destruct (IH _ x Hok' Hend) as [G1 G2]; [by rewrite E|]. split; [done|by apply Hstrong].
  - destruct (IH _ x Hok' Hend) as [G1 G2]; [rewrite E', E; by case_decide|]. split; [done|by apply Hstrong].
  - assert (Hst : startupCyclesRemaining (fire_tick t s).2 = startupCyclesRemaining s1) by (by rewrite E').
    assert (Hs1 : 0 < startupCyclesRemaining s1) by lia. specialize (H8 Hs1).
    assert (Hallowed : startupNextSampleAllowedAt s1 = startupNextSampleAllowedAt s) by (rewrite E; by case_decide).
    assert (Hspacing : minimumSampleSpacing (see_event s1) = minimumSampleSpacing s) by (rewrite E; by case_decide).
    destruct (IH _ (tick_steady t + minimumSampleSpacing s) Hok' Hend) as [G1 G2].
    { rewrite E'. cbn. rewrite decide_True by done. by rewrite Hspacing. }
    split.
    + apply Forall_cons. split; [lia|]. eapply Forall_impl; [exact G1|]. cbn. lia.
    + apply SSorted_cons; [by apply Hstrong|exact G1].
Qed.

(** ** A quiet cycle *)

Lemma quiet_cycle ts s :
  sampler_ok s → startupCyclesRemaining s = 0 → seenLastCycle s ≤ targetPerCycle s →
  Forall (λ t, fair t ∧ tick_now t ≤ nextCycleStartMillis s) ts →
  (run_ticks ts s).1.*2 = (λ i, bool_decide (i < targetPerCycle s - sampledThisCycle s)) <$> seqZ 0 (Z.of_nat (length ts)).
Proof.
  revert s. induction ts as [|t ts IH]; intros s Hok Hst Hlast Hts; [done|].
  apply Forall_cons in Hts as [[Hfair Hnow] Hts]. rewrite run_ticks_cons. cbn [fst fmap list_fmap length].
  rewrite seqZ_cons by lia. replace (Z.pred (Z.of_nat (S (length ts)))) with (Z.of_nat (length ts)) by lia. cbn [fmap list_fmap].
  destruct (fire_tick_ok t s Hok) as (Hok' & Et & _ & _). destruct (ok_sampled s Hok) as [Hs1 Hs2]. pose proof (ok_target s Hok).
  specialize (IH _ Hok'). rewrite Et in IH.
  assert (Hshift : seqZ 1 (Z.of_nat (length ts)) = (λ i, i + 1) <$> seqZ 0 (Z.of_nat (length ts))).
  { rewrite <-(fmap_add_seqZ 1 0). apply list_fmap_ext. intros. lia. }
  change (Z.succ 0) with 1.
  destruct (fire_tick_spec t s) as [H6 E|s1 H6 E E' H7|s1 H6 E E' H7 H8].
  - rewrite E in *. f_equal; [rewrite bool_decide_eq_false_2; [done|lia]|].
    rewrite IH, Hshift, <-list_fmap_compose by done. apply list_fmap_ext. intros i x Hi%list_elem_of_lookup_2%elem_of_seqZ. cbn.
    apply bool_decide_ext. lia.
  - rewrite decide_False in E by lia. subst s1.
    assert (Hfull : targetPerCycle s ≤ sampledThisCycle s) by (specialize (Hfair (Z.max (seenLastCycle s) 1)); lia).
    rewrite E' in *. cbn in IH. f_equal; [rewrite bool_decide_eq_false_2; [done|lia]|].
    rewrite IH, Hshift, <-list_fmap_compose by done. apply list_fmap_ext. intros i x Hi%list_elem_of_lookup_2%elem_of_seqZ. cbn.
    apply bool_decide_ext. lia.
  - rewrite decide_False in E by lia. subst s1. rewrite E' in *. cbn in IH. rewrite wrap_small in IH by lia.
    f_equal; [rewrite bool_decide_eq_true_2; [done|lia]|].
    rewrite IH, Hshift, <-list_fmap_compose by done. apply list_fmap_ext. intros i x Hi%list_elem_of_lookup_2%elem_of_seqZ. cbn.
    apply bool_decide_ext. lia.
Qed.

(** ** Properties *)

(** C31: In any state that targets set and events seen before have led to, and of the events from then
    on while the target is not changed (setting it starts a new cycle, and a new count): with a
    target of zero no event is accepted; of the events in any stretch of the
    length of a cycle no more than twice the target is accepted, whether the clock goes backwards
    within it or not and however the die falls; as long as the start-up cycles last, accepted
    events are at least a cycle divided by the target apart; and after the start-up cycles, when
    the last cycle saw no more events than the target, the events of a cycle are accepted without
    exception until the target is reached, and none after that. *)
Theorem allocation_rate_bounded es target seconds now steadyNow :
  targets_ok es → 0 ≤ target < 2 ^ 32 → 0 ≤ seconds →
  let s := run_events es (AllocationSubSampler_init target seconds now steadyNow) in
  (targetPerCycle s = 0 → ∀ ts, accepted (run_ticks ts s).1 = []) ∧
  (∀ a ts, Forall (λ t, a ≤ tick_now t ≤ a + cycle_millis s) ts →
    accepted_count (run_ticks ts s).1 ≤ 2 * targetPerCycle s) ∧
  (∀ ts, 0 < startupCyclesRemaining (run_ticks ts s).2 → StronglySorted (spaced s) (accepted (run_ticks ts s).1)) ∧
  (∀ ts, startupCyclesRemaining s = 0 → seenLastCycle s ≤ targetPerCycle s →
    Forall (λ t, fair t ∧ tick_now t ≤ nextCycleStartMillis s) ts →
    (run_ticks ts s).1.*2 = (λ i, bool_decide (i < targetPerCycle s - sampledThisCycle s)) <$> seqZ 0 (Z.of_nat (length ts))).
Proof.
  intros Hes Ht Hs s. assert (Hok : sampler_ok s) by (by apply run_sampler_events_ok, sampler_ok_init).
  split_and!.
  - intros H ts. by apply closed_accepts_none.
  - intros a ts Hts. destruct (decide (targetPerCycle s = 0)) as [H0|H0].
    + unfold accepted_count. rewrite closed_accepts_none by done. cbn. lia.
    + pose proof (window_bound a ts s Hok H0 Hts). destruct (ok_sampled s Hok). lia.
  - intros ts Hend. by apply (startup_spaced (startupNextSampleAllowedAt s) ts s).
  - intros ts. by apply quiet_cycle.
Qed.

(** A target of two for every minute: an event that ends a cycle comes [n] minutes and a bit
    after the start, at [ms] milliseconds within the new cycle. *)
Definition minute (n ms : Z) : tick :=
  {| tick_now := n * 60001 + ms; tick_steady := (n * 60001 + ms) * 1000000; tick_roll := λ n, n |}.
Definition warm_up : list sampler_event := SetTarget 2 0 0 :: (Tick ∘ (λ n, minute n 0) <$> seqZ 1 10).

Lemma allocation_rate_bounded_witness :
  let s := run_events warm_up (AllocationSubSampler_init 0 60 0 0) in
  let s0 := run_events [SetTarget 2 0 0] (AllocationSubSampler_init 0 60 0 0) in
  (* four events in the last and the next cycle, all within a minute: two and one accepted *)
  accepted_count (run_ticks [minute 10 59000; minute 10 59001; minute 11 0; minute 11 1] s).1 ≤ 4 ∧
  (* at the start, the third of three events within a minute comes half a minute after the first *)
  StronglySorted (spaced s0) (accepted (run_ticks [minute 0 1; minute 0 2; minute 0 30001] s0).1) ∧
  length (accepted (run_ticks [minute 0 1; minute 0 2; minute 0 30001] s0).1) = 2%nat ∧
  (* an event that ended the last cycle, then one more is accepted and one is not *)
  (run_ticks [minute 10 1; minute 10 2] s).1.*2 = [true; false] ∧
  accepted (run_ticks [minute 0 1] (run_events [] (AllocationSubSampler_init 0 60 0 0))).1 = [].
Proof.
  assert (Hw : targets_ok warm_up) by (unfold targets_ok, warm_up; repeat (apply Forall_cons; split; [done || lia|]); apply Forall_nil_2).
  destruct (allocation_rate_bounded warm_up 0 60 0 0 Hw ltac:(lia) ltac:(lia)) as (_ & H2 & _ & H4).
  destruct (allocation_rate_bounded [SetTarget 2 0 0] 0 60 0 0 ltac:(by repeat constructor) ltac:(lia) ltac:(lia)) as (_ & _ & H3 & _).
  destruct (allocation_rate_bounded [] 0 60 0 0 ltac:(by constructor) ltac:(lia) ltac:(lia)) as (H1 & _).
  split_and!.
  - apply (H2 659010). repeat (apply Forall_cons; split; [vm_compute; split; discriminate|]). apply Forall_nil_2.
  - apply H3. vm_compute. reflexivity.
  - vm_compute. reflexivity.
  - etransitivity; [apply H4; [vm_compute; reflexivity|vm_compute; discriminate|]|vm_compute; reflexivity].
    repeat (apply Forall_cons; split; [split; [intros n Hn; cbn; lia|vm_compute; discriminate]|]). apply Forall_nil_2.
  - apply H1. reflexivity.
Defined.
