(* ===== verification/StackFrames.v ===== *)
(** * Which frames the captured stacks hold (ThreadStacksBuffer of continuous_profiler.cpp)

    ThreadStacks.v is about the storage of captured stacks; this file is about their contents:
    preparing a capture leaves empty stacks empty, preparing a frame changes no stack and grants
    room whenever the stack's storage has some, and recording a frame appends it to the stack of
    its thread. *)

From S2P Require Import Prelude SamplesBuffer ThreadStacks.

Definition frames_at (b : ThreadStacksBuffer) (t : Z) : list FunctionIdentifier := default [] (frames <$> stacks_ b !! t).
Definition capacity_at (b : ThreadStacksBuffer) (t : Z) : Z := default 0 (capacity <$> stacks_ b !! t).

(** ** Invariants that hold whatever the outcome *)

(** [m] keeps [I], and what it returns satisfies [R]. *)
Definition keeps {S E A} (I : S → Prop) (m : stM S E A) (R : A → Prop) : Prop :=
  ∀ s, I s → I (m s).2 ∧ ∀ a, (m s).1 = Ret a → R a.

Section Keeps.
Context {S E : Type} (I : S → Prop).

Lemma keeps_ret {A} (a : A) (R : A → Prop) : R a → keeps (E := E) I (mret a) R.
Proof. intros Ha s Hs. split; [done|]. by intros a' [= <-]. Qed.

Lemma keeps_bind {A B} (m : stM S E A) (f : A → stM S E B) R Q :
  keeps I m R → (∀ a, R a → keeps I (f a) Q) → keeps I (m ≫= f) Q.
Proof.
  intros Hm Hf s Hs. destruct (Hm s Hs) as [H1 H2]. unfold mbind, stM_bind.
  destruct (m s) as [[a|e| |] s1]; cbn in *; [|done|done|done]. by apply Hf; [apply H2|].
Qed.

Lemma keeps_get : keeps (E := E) I get I.
Proof. intros s Hs. split; [done|]. by intros a [= <-]. Qed.

Lemma keeps_modify f : (∀ s, I s → I (f s)) → keeps (E := E) I (modify f) (λ _, True).
Proof. intros Hf s Hs. split; [by apply Hf|done]. Qed.

Lemma keeps_throw {A} e (R : A → Prop) : keeps (E := E) I (throw e) R.
Proof. intros s Hs. by split. Qed.

Lemma keeps_lift_option {A} (o : option A) (R : A → Prop) : (∀ a, o = Some a → R a) → keeps (E := E) I (lift_option o) R.
Proof. intros Ho s Hs. destruct o as [a|]; cbn; (split; [done|]); [intros a' [= <-]; by apply Ho|done]. Qed.

Lemma keeps_mono {A} (m : stM S E A) (R R' : A → Prop) : keeps I m R → (∀ a, R a → R' a) → keeps I m R'.
Proof. intros Hm HR s Hs. destruct (Hm s Hs) as [H1 H2]. split; [done|]. intros a Ha. by apply HR, H2. Qed.

Lemma wp_keeps {A} (m : stM S E A) s Q X R :
  wp m s Q X → keeps I m R → I s → wp m s (λ a s', Q a s' ∧ I s' ∧ R a) (λ e s', X e s' ∧ I s').
Proof.
  intros Hw Hk Hs. destruct (Hk s Hs) as [H1 H2]. unfold wp in *. destruct (m s) as [[a|e| |] s1]; cbn in *; auto.
Qed.
End Keeps.

(** ** Actions that throw nothing *)

Definition nothrow {S E A} (m : stM S E A) : Prop := ∀ s e, (m s).1 ≠ Err e.

Section Nothrow.
Context {S E : Type}.

Lemma nothrow_ret {A} (a : A) : nothrow (mret a : stM S E A).
Proof. done. Qed.
Lemma nothrow_get : nothrow (get : stM S E S).
Proof. done. Qed.
Lemma nothrow_modify f : nothrow (modify f : stM S E unit).
Proof. done. Qed.
Lemma nothrow_lift_option {A} (o : option A) : nothrow (lift_option o : stM S E A).
Proof. by destruct o. Qed.
Lemma nothrow_bind {A B} (m : stM S E A) (f : A → stM S E B) : nothrow m → (∀ a, nothrow (f a)) → nothrow (m ≫= f).
Proof.
  intros Hm Hf s e. specialize (Hm s). unfold mbind, stM_bind. destruct (m s) as [[a|e'| |] s1]; [apply Hf|by specialize (Hm e')|done|done].
Qed.

Lemma wp_nothrow {A} (m : stM S E A) s Q X : wp m s Q X → wp m s Q (λ e s', X e s' ∧ ¬ nothrow m).
Proof.
  unfold wp. destruct (m s) as [[a|e| |] s1] eqn:Em; [done| |done|done]. intros HX. split; [done|]. intros Hn. apply (Hn s e). by rewrite Em.
Qed.
End Nothrow.

(** [solve_nothrow]: the parts of an action, one after the other. *)
Ltac solve_nothrow :=
  repeat first [match goal with H : ∀ _, nothrow _ |- _ => apply H end | apply nothrow_ret | apply nothrow_get | apply nothrow_modify | apply nothrow_lift_option
               | apply nothrow_bind; [|intros ?] | case_decide | case_match].

(** ** The stacks, thread by thread *)

Section StackFrames.
Context (reserve : nat → Z → option Z) (emplace : nat → bool) (Hreserve : ∀ k n c, reserve k n = Some c → n ≤ c).
(** What is known of the frames and the capacity of a thread; it must not depend on growth. *)
Context (J : Z → list FunctionIdentifier → Z → Prop) (Hgrow : ∀ t fs c c', J t fs c → c ≤ c' → J t fs c').

Definition each (b : ThreadStacksBuffer) : Prop := ∀ t, J t (frames_at b t) (capacity_at b t).

Lemma each_stack b t v : each b → stacks_ b !! t = Some v → J t (frames v) (capacity v).
Proof. intros Hb Hv. specialize (Hb t). unfold frames_at, capacity_at in Hb. by rewrite Hv in Hb. Qed.

Lemma each_same b b' : stacks_ b' = stacks_ b → each b → each b'.
Proof. intros Hs Hb t. unfold frames_at, capacity_at. rewrite Hs. apply Hb. Qed.

Lemma keeps_stack_of t : keeps each (stack_of t) (λ v, J t (frames v) (capacity v)).
Proof.
  eapply keeps_bind; [apply keeps_get|]. intros b Hb. apply keeps_lift_option. intros v Hv. by eapply each_stack.
Qed.

Lemma keeps_set_stack t v : J t (frames v) (capacity v) → keeps each (set_stack t v) (λ _, True).
Proof.
  intros Hv. apply keeps_modify. intros b Hb t'. unfold frames_at, capacity_at. cbn.
  destruct (decide (t' = t)) as [->|Hne]; [by rewrite lookup_insert_eq|]. rewrite lookup_insert_ne by done. apply Hb.
Qed.

Lemma keeps_set_capacity f : keeps each (set_capacity f) (λ _, True).
Proof. apply keeps_modify. intros b. by apply each_same. Qed.
Lemma keeps_set_cached t s : keeps each (set_cached t s) (λ _, True).
Proof. apply keeps_modify. intros b. by apply each_same. Qed.

Lemma keeps_request {A} (answer : nat → option A) (R : A → Prop) :
  (∀ k a, answer k = Some a → R a) → keeps each (request answer) R.
Proof.
  intros HR. eapply keeps_bind; [apply keeps_get|]. intros b _.
  eapply keeps_bind; [apply keeps_modify; intros b'; by apply each_same|]. intros [] _.
  destruct (answer (requests b)) as [a|] eqn:E; [apply keeps_ret; eauto|apply keeps_throw].
Qed.

Lemma keeps_TryReserve t limit : keeps each (TryReserveStackFrame reserve t limit) (λ _, True).
Proof.
  eapply keeps_bind; [apply keeps_stack_of|]. intros v Hv. cbv zeta.
  repeat (case_decide; [by apply keeps_ret|]).
  eapply (keeps_bind _ _ _ (λ c, capacity v ≤ c)); [apply keeps_request; intros k c Hc%Hreserve; lia|]. intros c Hc.
  case_decide; [by apply keeps_ret|]. eapply keeps_bind; [by apply keeps_set_stack, (Hgrow _ _ (capacity v))|]. intros [] _. by apply keeps_ret.
Qed.

Lemma keeps_TryPrepare t : keeps each (TryPrepareFrame reserve t) (λ _, True).
Proof.
  eapply keeps_bind; [apply keeps_get|]. intros b _.
  eapply keeps_bind.
  { case_decide; [|by apply (keeps_ret _ _ (λ _, True))]. destruct (stacks_ b !! t); [|by apply keeps_ret].
    eapply keeps_bind; [apply keeps_set_cached|]. intros [] _. by apply keeps_ret. }
  intros [] _; [|by apply keeps_ret].
  eapply (keeps_bind _ _ _ (λ _, True)).
  { eapply keeps_bind; [apply keeps_get|]. intros b1 _. eapply (keeps_bind _ _ _ (λ _, True)); [by apply keeps_lift_option|]. intros t1 _.
    eapply (keeps_bind _ _ _ (λ _, True)); [by apply keeps_lift_option|]. intros v _. by apply keeps_ret. }
  intros [t1 v] _. case_decide; [by apply keeps_ret|].
  eapply keeps_bind; [apply keeps_get|]. intros b1 _. eapply keeps_bind; [apply keeps_TryReserve|]. intros [] _; [|by apply keeps_ret].
  eapply keeps_bind; [apply keeps_stack_of|]. intros v1 _. eapply keeps_bind; [apply keeps_set_capacity|]. intros [] _. by apply keeps_ret.
Qed.

(** *** Preparing a capture, when nothing is known of an empty stack *)

Context (Hempty : ∀ t c, J t [] c).

Lemma keeps_erase t : keeps each (erase_stack t) (λ _, True).
Proof.
  apply keeps_modify. intros b Hb t'. unfold frames_at, capacity_at. cbn.
  destruct (decide (t' = t)) as [->|Hne]; [by rewrite lookup_delete_eq|]. rewrite lookup_delete_ne by done. apply Hb.
Qed.

Lemma keeps_for_each ts body : (∀ t, keeps each (body t) (λ _, True)) → keeps each (for_each ts body) (λ _, True).
Proof.
  intros Hbody. induction ts as [|t ts IH]; [by apply keeps_ret|]. cbn. eapply keeps_bind; [apply Hbody|]. by intros [] _.
Qed.

Lemma keeps_for_each_stack body : (∀ t, keeps each (body t) (λ _, True)) → keeps each (for_each_stack body) (λ _, True).
Proof. intros Hbody. eapply keeps_bind; [apply keeps_get|]. intros b _. by apply keeps_for_each. Qed.

Lemma keeps_evict active t : keeps each (evict active t) (λ _, True).
Proof.
  eapply keeps_bind; [apply keeps_stack_of|]. intros v _. case_decide; [|by apply keeps_ret].
  eapply keeps_bind; [apply keeps_set_capacity|]. intros [] _. apply keeps_erase.
Qed.

Lemma keeps_reclaim initial t : keeps each (reclaim initial t) (λ _, True).
Proof.
  eapply keeps_bind; [apply keeps_stack_of|]. intros v _. case_decide; [|by apply keeps_ret].
  eapply keeps_bind; [apply keeps_set_capacity|]. intros [] _. by apply keeps_set_stack.
Qed.

Lemma keeps_admit initial t : keeps each (admit_thread reserve emplace initial t) (λ _, True).
Proof.
  eapply keeps_bind; [apply keeps_get|]. intros b _. eapply (keeps_bind _ _ _ (λ _, True)).
  { destruct (stacks_ b !! t); [by apply keeps_ret|]. case_decide; [by apply keeps_ret|].
    eapply (keeps_bind _ _ _ (λ _, True)); [by apply keeps_request|]. intros [] _.
    eapply keeps_bind; [by apply keeps_set_stack|]. intros [] _. by apply keeps_ret. }
  intros [] _; [|by apply keeps_ret]. eapply keeps_bind; [apply keeps_stack_of|]. intros v _. case_decide; [|by apply keeps_ret].
  eapply keeps_bind; [apply keeps_get|]. intros b1 _. eapply keeps_bind; [apply keeps_TryReserve|]. intros [] _; [|by apply keeps_ret].
  eapply keeps_bind; [apply keeps_stack_of|]. intros v1 _. apply keeps_set_capacity.
Qed.

Lemma keeps_Prepare active : keeps each (PrepareForCapture reserve emplace active) (λ _, True).
Proof.
  eapply keeps_bind; [apply keeps_get|]. intros b _. eapply keeps_bind; [apply keeps_set_cached|]. intros [] _.
  eapply keeps_bind; [apply keeps_for_each_stack; intros; apply keeps_evict|]. intros [] _.
  eapply keeps_bind; [apply keeps_get|]. intros b1 _. eapply (keeps_bind _ _ _ (λ _, True)).
  { case_decide; [|by apply keeps_ret]. apply keeps_for_each_stack. intros. apply keeps_reclaim. }
  intros [] _. apply keeps_for_each. intros. apply keeps_admit.
Qed.
End StackFrames.

(** ** Recording frames *)

Definition has_room (b : ThreadStacksBuffer) (t : Z) : Prop := Z.of_nat (length (frames_at b t)) < capacity_at b t.
#[export] Instance has_room_dec b t : Decision (has_room b t).
Proof. unfold has_room. apply _. Defined.

Lemma has_room_stack b t : has_room b t ↔ ∃ v, stacks_ b !! t = Some v ∧ vsize v < capacity v.
Proof.
  unfold has_room, frames_at, capacity_at, vsize. destruct (stacks_ b !! t) as [v|]; cbn.
  - split; [by exists v|]. by intros (w & [= <-] & ?).
  - split; [lia|]. by intros (? & ? & _).
Qed.

(** Nothing is recorded, storage may have grown. *)
Record grown (b b' : ThreadStacksBuffer) : Prop := {
  grown_ok : stacks_ok b';
  grown_frames : ∀ t, frames_at b' t = frames_at b t;
  grown_capacity : ∀ t, capacity_at b t ≤ capacity_at b' t;
}.

(** One frame of the thread is recorded. *)
Record recorded (t : Z) (f : FunctionIdentifier) (b b' : ThreadStacksBuffer) : Prop := {
  recorded_ok : stacks_ok b';
  recorded_frames : frames_at b' t = frames_at b t ++ [f];
  recorded_others : ∀ t', t' ≠ t → frames_at b' t' = frames_at b t';
  recorded_capacity : ∀ t', capacity_at b t' ≤ capacity_at b' t';
}.

Section Recording.
Context (reserve : nat → Z → option Z) (emplace : nat → bool) (Hreserve : ∀ k n c, reserve k n = Some c → n ≤ c).

Lemma stacks_same b b' t v :
  stacks_ok b → stacks_ b' = stacks_ b → frameCapacity_ b' = frameCapacity_ b → stacks_ b !! t = Some v →
  cachedThread_ b' = t → cachedStack_ b' = Some t → stacks_ok b'.
Proof.
  intros [H1 H2 H3 H4 H5] Hs Hf Hv Hc1 Hc2. split; rewrite ?Hs, ?Hf; [done|done|done|done|].
  rewrite Hc1, Hc2. intros t' [= <-]. by rewrite Hv.
Qed.

Lemma TryPrepare_nothrow t : (∀ k n, reserve k n = Some n) → nothrow (TryPrepareFrame reserve t).
Proof.
  intros Hex. assert (Hreq : ∀ n, nothrow (request (λ k, reserve k n))).
  { intros n. unfold request, modify. apply nothrow_bind; [apply nothrow_get|]. intros b. apply nothrow_bind; [done|]. intros _. by rewrite Hex. }
  unfold TryPrepareFrame, TryReserveStackFrame, cached_stack, stack_of, set_cached, set_capacity, set_stack.
  solve_nothrow.
Qed.

(** A stack with room is returned as it is. *)
Lemma TryPrepare_room b t :
  stacks_ok b → has_room b t →
  ∃ b', TryPrepareFrame reserve t b = (Ret (Some t), b') ∧ stacks_ok b' ∧ stacks_ b' = stacks_ b.
Proof.
  intros Hok (v & Hv & Hroom)%has_room_stack. unfold TryPrepareFrame.
  assert (Hrest : ∀ b', stacks_ b' = stacks_ b → cachedStack_ b' = Some t →
    ('(t, buffer) ← cached_stack;
     if decide (vsize buffer < capacity buffer) then mret (Some t)
     else
       let previousCapacity := capacity buffer in
       b ← get;
       reserved ← TryReserveStackFrame reserve t (u64 (previousCapacity + MaximumFrameCapacity - frameCapacity_ b));
       if reserved : bool then
         buffer ← stack_of t;
         set_capacity (λ c, c + (capacity buffer - previousCapacity));;
         mret (Some t)
       else mret None) b' = (Ret (Some t), b')).
  { intros b' Hs Hc. run_by (unfold cached_stack; run_by done; rewrite Hc; run_by done; rewrite Hs, Hv; by run_by done).
    cbv beta iota. by rewrite decide_True. }
  run_by done. case_decide as Hcached.
  - rewrite Hv. run_by (by run_by done). cbv iota. eexists. rewrite Hrest by done. split; [done|]. split; [|done]. by eapply stacks_same.
  - assert (Ht : cachedStack_ b = Some t).
    { destruct (cachedStack_ b) as [t'|] eqn:E; [|tauto]. destruct (ok_cached b Hok t' E) as [-> _].
      destruct (decide (cachedThread_ b = t)) as [->|]; tauto. }
    run_by done. cbv iota. exists b. by rewrite Hrest.
Qed.

Lemma TryPrepare_frames b t :
  stacks_ok b →
  wp (TryPrepareFrame reserve t) b
    (λ r b', grown b b' ∧ (r = None ∧ ¬ has_room b t ∨ r = Some t ∧ has_room b' t)) (λ _ b', grown b b').
Proof.
  intros Hok. destruct (decide (has_room b t)) as [Hroom|Hroom].
  - destruct (TryPrepare_room b t Hok Hroom) as (b' & Hrun & Hok' & Hs). eapply wp_run; [exact Hrun|].
    assert (∀ t, frames_at b' t = frames_at b t ∧ capacity_at b' t = capacity_at b t) as Hsame by (intros; unfold frames_at, capacity_at; by rewrite Hs).
    split; [split; [done|apply Hsame|intros t'; rewrite (proj2 (Hsame t')); lia]|]. right. split; [done|].
    unfold has_room. by rewrite (proj1 (Hsame t)), (proj2 (Hsame t)).
  - eapply wp_mono.
    + apply (wp_keeps (each (λ t fs c, fs = frames_at b t ∧ capacity_at b t ≤ c)) _ _ _ _ (λ _, True)
        (TryPrepare_wp reserve Hreserve b t (λ _, stacks_ok) Hok (λ _ H, H))).
      * apply keeps_TryPrepare; [done|]. intros t' fs c c' [-> Hc] Hle. split; [done|lia].
      * intros t'. split; [done|lia].
    + intros r b' ([Hok' Hr] & He & _). split; [split; [done|intros t'; apply (He t')|intros t'; apply (He t')]|].
      destruct Hr as [->|[-> Hv]]; [by left|]. right. split; [done|]. by apply has_room_stack.
    + intros [] b' [Hok' He]. split; [done|intros t'; apply (He t')|intros t'; apply (He t')].
Qed.

Lemma push_frames b t f :
  stacks_ok b → has_room b t → ∃ b', push_frame t f b = (Ret tt, b') ∧ recorded t f b b'.
Proof.
  intros Hok (v & Hv & Hroom)%has_room_stack. unfold push_frame. eexists. run_by (unfold stack_of; run_by done; by rewrite Hv).
  rewrite decide_True by done. split; [done|]. pose proof (vector_range b t v Hok Hv).
  split.
  - pose proof (ok_budget b Hok). eapply (stacks_ok_replace b _ t v); try done; [|cbn; lia].
    unfold vector_ok, vsize, MaximumFramesPerStack in *. cbn. rewrite length_app. cbn. lia.
  - unfold frames_at. cbn. by rewrite lookup_insert_eq, Hv.
  - intros t' Hne. unfold frames_at. cbn. by rewrite lookup_insert_ne.
  - intros t'. unfold capacity_at. cbn. destruct (decide (t' = t)) as [->|Hne]; [rewrite lookup_insert_eq, Hv; cbn; lia|].
    rewrite lookup_insert_ne by done. lia.
Qed.

(** ** Preparing a capture *)

Definition idle (b : ThreadStacksBuffer) : Prop := ∀ t, frames_at b t = [].

Lemma Prepare_idle active b :
  stacks_ok b → idle b →
  wp (PrepareForCapture reserve emplace active) b (λ _ b', stacks_ok b' ∧ idle b') (λ _ b', stacks_ok b' ∧ idle b').
Proof.
  intros Hok Hidle. eapply wp_mono.
  - apply (wp_keeps (each (λ _ fs _, fs = [])) _ _ _ _ (λ _, True) (PrepareForCapture_safe reserve emplace Hreserve active b Hok)); [|done].
    by apply keeps_Prepare.
  - intros [] b' (H & Hi & _). done.
  - intros [] b' (H & Hi). done.
Qed.

(** With an allocator that gives what it is asked for, no more than 1024 threads each have room for
    the first 32 frames, unless they have less storage from before. *)
Lemma Prepare_room active b :
  (∀ k n, reserve k n = Some n) → (∀ k, emplace k = true) → stacks_ok b → NoDup active → Z.of_nat (length active) ≤ 1024 →
  wp (PrepareForCapture reserve emplace active) b
    (λ _ b', ∀ t, t ∈ active → capacity_at b t = 0 ∨ 32 ≤ capacity_at b t → 32 ≤ capacity_at b' t) (λ _ _, False).
Proof.
  intros Hex Hem Hok Hnd Hn. eapply wp_mono; [by apply (prepared reserve emplace Hex Hem active b)| |done].
  intros [] b' [_ _ _ _ _ Hdone Hfrom] t Ht Hold. specialize (Hdone t Ht (not_elem_of_nil t)). unfold storage, capacity_at in *.
  destruct (stacks_ b' !! t) as [v|] eqn:Hv; [|done]. cbn. destruct (Hfrom t v Hv Hdone) as [->|Hv']; cbn.
  - unfold initial_capacity, thread_count, kInitialStackFrameCapacity, MaximumThreads, MaximumFrameCapacity. case_decide; [lia|].
    assert (32 ≤ 32 * 1024 / Z.of_nat (length active) `min` 1024); [|lia]. apply Z.div_le_lower_bound; lia.
  - rewrite Hv' in Hold. cbn in Hold. lia.
Qed.
End Recording.

(** ** Clearing *)

Lemma Clear_idle b : idle (ThreadStacks_Clear b).2.
Proof. intros t. unfold frames_at. cbn. by rewrite lookup_empty. Qed.

Lemma frames_set t' t v b : frames_at (set_stack t v b).2 t' = if decide (t' = t) then frames v else frames_at b t'.
Proof. unfold frames_at. cbn. case_decide as H; [by rewrite H, lookup_insert_eq|by rewrite lookup_insert_ne]. Qed.

(** Each pass of the loop of Reset empties a stack. *)
Lemma Reset_loop ts b :
  (∀ t, t ∈ ts → is_Some (stacks_ b !! t)) →
  ∃ b', for_each ts (λ t, v ← stack_of t; set_stack t {| frames := []; capacity := capacity v |}) b = (Ret tt, b') ∧
    ∀ t, frames_at b' t = if decide (t ∈ ts) then [] else frames_at b t.
Proof.
  revert b. induction ts as [|t ts IH]; intros b Hts; cbn [for_each].
  { exists b. split; [done|]. intros t. by rewrite decide_False by apply not_elem_of_nil. }
  destruct (Hts t) as [v Hv]; [by left|].
  destruct (IH (set_stack t {| frames := []; capacity := capacity v |} b).2) as (b' & Hrun & Hb').
  { intros t' Ht'. cbn. destruct (decide (t' = t)) as [->|Hne]; [rewrite lookup_insert_eq; by eexists|].
    rewrite lookup_insert_ne by done. apply Hts. by right. }
  exists b'. split.
  - run_by (run_by (unfold stack_of; run_by done; by rewrite Hv); done). exact Hrun.
  - intros t'. rewrite Hb', frames_set. repeat case_decide; set_solver.
Qed.

Lemma Reset_idle b : ∃ b', Reset b = (Ret tt, b') ∧ idle b'.
Proof.
  destruct (Reset_loop (map_to_list (stacks_ b)).*1 b) as (b' & Hrun & Hb').
  { intros t ([t' v] & -> & Hv%elem_of_map_to_list)%list_elem_of_fmap. by exists v. }
  exists b'. split; [exact Hrun|]. intros t. rewrite Hb'. case_decide as Ht; [done|]. unfold frames_at.
  destruct (stacks_ b !! t) as [v|] eqn:Hv; [|done]. destruct Ht. apply list_elem_of_fmap. exists (t, v).
  split; [done|by apply elem_of_map_to_list].
Qed.
