(* ===== verification/ProfilerState.v ===== *)
(** * The state of the continuous profiler (continuous_profiler.h/.cpp)

    The members of ContinuousProfiler and the static variables of continuous_profiler.cpp that the
    callbacks, the exported functions and the sampling worker share, as one record: [Profiler].
    An action [P A] changes the state and may throw.  The worker's own buffer of stacks, a local
    variable of its main function, is part of the record, because what it holds survives an
    exception that the worker catches.

    Each action below runs under the locks of the code (profiling_lock, thread_state_lock_,
    thread_span_context_lock, name_cache_lock, selective_sampling_lock and the locks of the
    buffers), so that the actions of different threads do not interleave within it. *)

From S2P Require Import Prelude Utf TypeNames SamplesBuffer SampleQueues NameCache NamingHelper ThreadStacks AllocationSubSampler.

Record Profiler := {
  allocationSubSampler : option AllocationSubSampler;
  helper : NamingHelper;
  stats_ : SamplingStatistics;
  managed_tid_to_state_ : gmap Z (option (list Z)); (* None is nullptr, else the name *)
  thread_span_context_map : gmap Z thread_span_context;
  selective_sampling_trace_map : gmap trace_context Z; (* deadlines, in milliseconds *)
  nextOutdatedEntriesScan_ : Z; (* milliseconds *)
  threadStacksBuffer : ThreadStacksBuffer;
  cpu_buffers : CpuBuffers;
  selective_buffer : SelectiveBuffer;
  allocation_buffer : list Z;
}.

Definition with_sampler (v : option AllocationSubSampler) (p : Profiler) : Profiler :=
  {| allocationSubSampler := v; helper := helper p; stats_ := stats_ p;
     managed_tid_to_state_ := managed_tid_to_state_ p; thread_span_context_map := thread_span_context_map p; selective_sampling_trace_map := selective_sampling_trace_map p;
     nextOutdatedEntriesScan_ := nextOutdatedEntriesScan_ p; threadStacksBuffer := threadStacksBuffer p; cpu_buffers := cpu_buffers p;
     selective_buffer := selective_buffer p; allocation_buffer := allocation_buffer p |}.
Definition with_helper (v : NamingHelper) (p : Profiler) : Profiler :=
  {| allocationSubSampler := allocationSubSampler p; helper := v; stats_ := stats_ p;
     managed_tid_to_state_ := managed_tid_to_state_ p; thread_span_context_map := thread_span_context_map p; selective_sampling_trace_map := selective_sampling_trace_map p;
     nextOutdatedEntriesScan_ := nextOutdatedEntriesScan_ p; threadStacksBuffer := threadStacksBuffer p; cpu_buffers := cpu_buffers p;
     selective_buffer := selective_buffer p; allocation_buffer := allocation_buffer p |}.
Definition with_stats (v : SamplingStatistics) (p : Profiler) : Profiler :=
  {| allocationSubSampler := allocationSubSampler p; helper := helper p; stats_ := v;
     managed_tid_to_state_ := managed_tid_to_state_ p; thread_span_context_map := thread_span_context_map p; selective_sampling_trace_map := selective_sampling_trace_map p;
     nextOutdatedEntriesScan_ := nextOutdatedEntriesScan_ p; threadStacksBuffer := threadStacksBuffer p; cpu_buffers := cpu_buffers p;
     selective_buffer := selective_buffer p; allocation_buffer := allocation_buffer p |}.
Definition with_thread_states (v : gmap Z (option (list Z))) (p : Profiler) : Profiler :=
  {| allocationSubSampler := allocationSubSampler p; helper := helper p; stats_ := stats_ p;
     managed_tid_to_state_ := v; thread_span_context_map := thread_span_context_map p; selective_sampling_trace_map := selective_sampling_trace_map p;
     nextOutdatedEntriesScan_ := nextOutdatedEntriesScan_ p; threadStacksBuffer := threadStacksBuffer p; cpu_buffers := cpu_buffers p;
     selective_buffer := selective_buffer p; allocation_buffer := allocation_buffer p |}.
Definition with_contexts (v : gmap Z thread_span_context) (p : Profiler) : Profiler :=
  {| allocationSubSampler := allocationSubSampler p; helper := helper p; stats_ := stats_ p;
     managed_tid_to_state_ := managed_tid_to_state_ p; thread_span_context_map := v; selective_sampling_trace_map := selective_sampling_trace_map p;
     nextOutdatedEntriesScan_ := nextOutdatedEntriesScan_ p; threadStacksBuffer := threadStacksBuffer p; cpu_buffers := cpu_buffers p;
     selective_buffer := selective_buffer p; allocation_buffer := allocation_buffer p |}.
Definition with_traces (v : gmap trace_context Z) (p : Profiler) : Profiler :=
  {| allocationSubSampler := allocationSubSampler p; helper := helper p; stats_ := stats_ p;
     managed_tid_to_state_ := managed_tid_to_state_ p; thread_span_context_map := thread_span_context_map p; selective_sampling_trace_map := v;
     nextOutdatedEntriesScan_ := nextOutdatedEntriesScan_ p; threadStacksBuffer := threadStacksBuffer p; cpu_buffers := cpu_buffers p;
     selective_buffer := selective_buffer p; allocation_buffer := allocation_buffer p |}.
Definition with_scan (v : Z) (p : Profiler) : Profiler :=
  {| allocationSubSampler := allocationSubSampler p; helper := helper p; stats_ := stats_ p;
     managed_tid_to_state_ := managed_tid_to_state_ p; thread_span_context_map := thread_span_context_map p; selective_sampling_trace_map := selective_sampling_trace_map p;
     nextOutdatedEntriesScan_ := v; threadStacksBuffer := threadStacksBuffer p; cpu_buffers := cpu_buffers p;
     selective_buffer := selective_buffer p; allocation_buffer := allocation_buffer p |}.
Definition with_stacks (v : ThreadStacksBuffer) (p : Profiler) : Profiler :=
  {| allocationSubSampler := allocationSubSampler p; helper := helper p; stats_ := stats_ p;
     managed_tid_to_state_ := managed_tid_to_state_ p; thread_span_context_map := thread_span_context_map p; selective_sampling_trace_map := selective_sampling_trace_map p;
     nextOutdatedEntriesScan_ := nextOutdatedEntriesScan_ p; threadStacksBuffer := v; cpu_buffers := cpu_buffers p;
     selective_buffer := selective_buffer p; allocation_buffer := allocation_buffer p |}.
Definition with_cpu_buffers (v : CpuBuffers) (p : Profiler) : Profiler :=
  {| allocationSubSampler := allocationSubSampler p; helper := helper p; stats_ := stats_ p;
     managed_tid_to_state_ := managed_tid_to_state_ p; thread_span_context_map := thread_span_context_map p; selective_sampling_trace_map := selective_sampling_trace_map p;
     nextOutdatedEntriesScan_ := nextOutdatedEntriesScan_ p; threadStacksBuffer := threadStacksBuffer p; cpu_buffers := v;
     selective_buffer := selective_buffer p; allocation_buffer := allocation_buffer p |}.
Definition with_selective_buffer (v : SelectiveBuffer) (p : Profiler) : Profiler :=
  {| allocationSubSampler := allocationSubSampler p; helper := helper p; stats_ := stats_ p;
     managed_tid_to_state_ := managed_tid_to_state_ p; thread_span_context_map := thread_span_context_map p; selective_sampling_trace_map := selective_sampling_trace_map p;
     nextOutdatedEntriesScan_ := nextOutdatedEntriesScan_ p; threadStacksBuffer := threadStacksBuffer p; cpu_buffers := cpu_buffers p;
     selective_buffer := v; allocation_buffer := allocation_buffer p |}.
Definition with_allocation_buffer (v : list Z) (p : Profiler) : Profiler :=
  {| allocationSubSampler := allocationSubSampler p; helper := helper p; stats_ := stats_ p;
     managed_tid_to_state_ := managed_tid_to_state_ p; thread_span_context_map := thread_span_context_map p; selective_sampling_trace_map := selective_sampling_trace_map p;
     nextOutdatedEntriesScan_ := nextOutdatedEntriesScan_ p; threadStacksBuffer := threadStacksBuffer p; cpu_buffers := cpu_buffers p;
     selective_buffer := selective_buffer p; allocation_buffer := v |}.

Abbreviation P := (stM Profiler unit).
Definition update (f : Profiler → Profiler) : P unit := modify f.

Definition lift {A} (o : outcome unit A) : P A := λ p, (o, p).

(** An action on the worker's stacks; what it did survives an exception. *)
Definition on_stacks {A} (m : stM ThreadStacksBuffer unit A) : P A := λ p,
  let '(r, b) := m (threadStacksBuffer p) in (r, with_stacks b p).

Definition no_statistics : SamplingStatistics :=
  {| micros_suspended := 0; num_threads := 0; total_frames := 0; name_cache_misses := 0 |}.
Definition count_frame (stats : SamplingStatistics) : SamplingStatistics :=
  {| micros_suspended := micros_suspended stats; num_threads := num_threads stats;
     total_frames := total_frames stats + 1; name_cache_misses := name_cache_misses stats |}.

Definition Profiler_sized (name_cache_size identifier_cache_size : nat) : Profiler := {|
  allocationSubSampler := None; helper := NamingHelper_sized name_cache_size identifier_cache_size; stats_ := no_statistics;
  managed_tid_to_state_ := ∅; thread_span_context_map := ∅; selective_sampling_trace_map := ∅; nextOutdatedEntriesScan_ := 0;
  threadStacksBuffer := ThreadStacksBuffer_init; cpu_buffers := cpu_buffers_init; selective_buffer := selective_init;
  allocation_buffer := [] |}.
Definition Profiler_init : Profiler := Profiler_sized kMaxFunctionNameCacheSize kVolatileFunctionIdentifierCacheSize.

Definition no_context : thread_span_context := {| trace_context_ := {| trace_id_high_ := 0; trace_id_low_ := 0 |}; span_id_ := 0 |}.

(** GetContext: the span context of a thread, or the default one. *)
Definition context_of (p : Profiler) (tid : Z) : thread_span_context := default no_context (thread_span_context_map p !! tid).
(** GetThreadState: the name of a thread, empty if it is not known. *)
Definition name_of_thread (p : Profiler) (tid : Z) : list Z := default [] (default None (managed_tid_to_state_ p !! tid)).

Section Frames.
(** GetFunctionInfo2; the metadata and the walker of NamingHelper. *)
Context (GetFunctionInfo2 : Z → option (Z * Z)).
Context (GetModuleMetaData : Z → option IMetaDataImport2) (type_fuel : nat) (stackWalker_ : option (Z → option (list Z))).

(** The function looked up is pushed to a vector of frames. *)
Definition RecordManagedFrame {A} (functionId : Z) (push_back : FunctionIdentifier → P A) : P A :=
  p ← get;
  update (with_stats (count_frame (stats_ p)));;
  '(f, h) ← lift (LookupManagedFunction GetFunctionInfo2 functionId (helper p));
  update (with_helper h);;
  push_back f.

Fixpoint ResolveFrames (threadStack : list FunctionIdentifier) (buffer : ThreadSamplesBuffer) : P ThreadSamplesBuffer :=
  match threadStack with
  | [] => mret buffer
  | functionIdentifier :: threadStack =>
      p ← get;
      '(name, h, stats) ← lift (Lookup GetModuleMetaData type_fuel stackWalker_ functionIdentifier (helper p) (stats_ p));
      update (with_helper h);; update (with_stats stats);;
      text ← lift (of_option (names h !! name));
      ResolveFrames threadStack (RecordFrame functionIdentifier text buffer)
  end.

Definition clear_identifiers : P unit := p ← get; update (with_helper (ClearFunctionIdentifierCache (helper p))).

(** ** The naming helper stays consistent *)

Context (name_of : FunctionIdentifier → list Z).

Record helper_ok (h : NamingHelper) : Prop := {
  helper_names : names_ok name_of h;
  helper_identifiers : identifiers_ok GetFunctionInfo2 h;
}.

(** Only the naming helper and the statistics have changed. *)
Definition kept (p p' : Profiler) : Prop := ∃ h s, p' = with_helper h (with_stats s p) ∧ helper_ok h.

Lemma kept_refl p : helper_ok (helper p) → kept p p.
Proof. intros H. exists (helper p), (stats_ p). split; [by destruct p|done]. Qed.

Lemma kept_trans p1 p2 p3 : kept p1 p2 → kept p2 p3 → kept p1 p3.
Proof. intros (h & s & -> & _) (h' & s' & -> & H). by exists h', s'. Qed.

Lemma kept_helper p p' : kept p p' → helper_ok (helper p').
Proof. by intros (h & s & -> & H). Qed.

Lemma LookupManagedFunction_ok id h :
  helper_ok h → ∃ h', LookupManagedFunction GetFunctionInfo2 id h = Ret (ResolveManagedFunctionIdentifier GetFunctionInfo2 id, h') ∧ helper_ok h'.
Proof.
  intros [Hn Hi]. destruct (LookupManagedFunction_spec GetFunctionInfo2 id h Hi) as (h' & H & Hi'). exists h'.
  split; [done|]. split; [|done]. destruct Hn as [H1 H2 H3]. unfold LookupManagedFunction in H.
  destruct (Get id (function_identifier_cache_ h)) as [[v c]| | |]; cbn [mbind outcome_bind] in H; [|done|done|done].
  destruct (is_valid v); [injection H as _ <-|injection H as <-]; by split.
Qed.

Lemma Lookup_ok f h stats :
  helper_ok h → resolve_name GetModuleMetaData type_fuel stackWalker_ f = Ret (name_of f) →
  ∃ name h' stats', Lookup GetModuleMetaData type_fuel stackWalker_ f h stats = Ret (name, h', stats') ∧
    names h' !! name = Some (name_of f) ∧ helper_ok h'.
Proof.
  intros [Hn Hi] Hres. destruct (Lookup_spec GetModuleMetaData type_fuel stackWalker_ name_of f h stats Hn Hres)
    as (name & h' & stats' & H & Hname & Hn' & _).
  exists name, h', stats'. split; [done|]. split; [done|]. split; [done|]. destruct Hi as [H1 H2]. unfold Lookup in H.
  destruct (Get f (function_name_cache_ h)) as [[[v|] c]| | |]; cbn [mbind outcome_bind] in H; [injection H as _ <- _; by split| |done|done|done].
  rewrite Hres in H. cbn [mbind outcome_bind] in H. destruct (Put _ _ _) as [evicted c'].
  destruct (delete_name _ _) as [heap| | |]; cbn [mbind outcome_bind] in H; [|done|done|done]. injection H as _ <- _. by split.
Qed.

Lemma wp_lift {A} (o : outcome unit A) (s : Profiler) a (Q : A → Profiler → Prop) X : o = Ret a → Q a s → wp (lift o) s Q X.
Proof. by intros ->. Qed.

Lemma RecordManagedFrame_wp {A} id (push_back : FunctionIdentifier → P A) p (Q : A → Profiler → Prop) X :
  helper_ok (helper p) →
  (∀ p', kept p p' → wp (push_back (ResolveManagedFunctionIdentifier GetFunctionInfo2 id)) p' Q X) →
  wp (RecordManagedFrame id push_back) p Q X.
Proof.
  intros Hh HQ. unfold RecordManagedFrame, update. destruct (LookupManagedFunction_ok id (helper p) Hh) as (h' & Hl & Hh').
  wp_step (done). wp_step (done). apply wp_bind. eapply wp_lift; [exact Hl|]. wp_step (done).
  apply HQ. exists h', (count_frame (stats_ p)). by split.
Qed.

Lemma ResolveFrames_wp fs buffer p X :
  helper_ok (helper p) → (∀ f, f ∈ fs → resolve_name GetModuleMetaData type_fuel stackWalker_ f = Ret (name_of f)) →
  wp (ResolveFrames fs buffer) p (λ b p', kept p p' ∧ b = perform_all (SamplesBuffer.ResolveFrames name_of fs) buffer) X.
Proof.
  revert buffer p. induction fs as [|f fs IH]; intros buffer p Hh Hres; cbn [ResolveFrames].
  { eapply wp_run; [done|]. split; [by apply kept_refl|done]. }
  destruct (Lookup_ok f (helper p) (stats_ p) Hh) as (name & h' & stats' & Hl & Hname & Hh'); [apply Hres; by left|]. unfold update.
  wp_step (done). apply wp_bind. eapply wp_lift; [exact Hl|]. wp_step (done). wp_step (done).
  apply wp_bind. eapply wp_lift; [by rewrite Hname|].
  eapply wp_mono; [apply IH; [done|intros g Hg; apply Hres; by right]| |by intros e s H].
  intros b p' [Hk ->]. split; [|done]. eapply kept_trans; [|exact Hk]. exists h', stats'. by split.
Qed.

Lemma clear_identifiers_wp p (Q : unit → Profiler → Prop) X :
  helper_ok (helper p) → (∀ p', kept p p' → Q tt p') → wp clear_identifiers p Q X.
Proof.
  intros [[H1 H2 H3] [H4 H5]] HQ. unfold clear_identifiers, update. wp_step (done). eapply wp_run; [done|]. apply HQ.
  eexists _, (stats_ p). split; [by destruct p|]. split; [by split|]. split; [by apply loose_clear|done].
Qed.
End Frames.

(** ** The invariant *)

Definition kSelectiveSamplingMaxTraces : Z := 50.

Record profiler_ok (info : Z → option (Z * Z)) (name_of : FunctionIdentifier → list Z) (p : Profiler) : Prop := {
  ok_sampler : ∀ s, allocationSubSampler p = Some s → sampler_ok s;
  ok_helper : helper_ok info name_of (helper p);
  ok_names : ∀ tid name, managed_tid_to_state_ p !! tid = Some (Some name) → units name;
  ok_contexts : ∀ tid c, thread_span_context_map p !! tid = Some c → context_range c;
  ok_traces : Z.of_nat (size (selective_sampling_trace_map p)) ≤ kSelectiveSamplingMaxTraces;
  ok_stacks : stacks_ok (threadStacksBuffer p);
  ok_cpu : slots_ok (cpu_buffers p);
  ok_selective : channel_ok (selective_buffer p);
  ok_allocation : Z.of_nat (length (allocation_buffer p)) < 204800;
}.

Section Invariant.
Context (info : Z → option (Z * Z)) (name_of : FunctionIdentifier → list Z).

Lemma kept_ok p p' : profiler_ok info name_of p → kept info name_of p p' → profiler_ok info name_of p'.
Proof. intros [] (h & s & -> & Hh). by split. Qed.

Lemma Profiler_sized_ok n m : (0 < n)%nat → profiler_ok info name_of (Profiler_sized n m).
Proof.
  intros Hn. split; cbn.
  - done.
  - split; [by apply names_ok_init|apply identifiers_ok_init].
  - intros tid name H. by rewrite lookup_empty in H.
  - intros tid c H. by rewrite lookup_empty in H.
  - rewrite map_size_empty. unfold kSelectiveSamplingMaxTraces. lia.
  - split; cbn; [by rewrite total_empty|unfold MaximumFrameCapacity; lia|intros t v H; by rewrite lookup_empty in H| |done].
    rewrite map_size_empty. unfold MaximumThreads. lia.
  - done.
  - split; [lia|]. pose proof samples_buffer_size. lia.
  - lia.
Qed.

Lemma name_of_thread_units p tid : profiler_ok info name_of p → units (name_of_thread p tid).
Proof.
  intros Hok. unfold name_of_thread.
  destruct (managed_tid_to_state_ p !! tid) as [[name|]|] eqn:E; cbn; [by apply (ok_names _ _ p Hok tid)|done|done].
Qed.

Lemma context_of_range p tid : profiler_ok info name_of p → context_range (context_of p tid).
Proof.
  intros Hok. unfold context_of. destruct (thread_span_context_map p !! tid) as [c|] eqn:E; cbn; [by apply (ok_contexts _ _ p Hok tid)|done].
Qed.
End Invariant.
