(* ===== verification/AllocationTick.v ===== *)
(** * Allocation samples (AllocationTick of continuous_profiler.cpp, and its callers)

    One AllocationTick event from its delivery to the buffer of allocation samples: the gates it
    has to pass, reading the event's payload, capturing the stack of the current thread, naming
    its frames and appending the sample.  What the event finds on its way is in a [tick_input]:
    the answers of the cancellation token, the locks, the clocks, the die and the runtime; each
    question has its own answer, so that anything may change in between.  The state is what the
    profiler keeps.  Exceptions are errors: OnAllocationTick catches them.

    The main results: an event of any length never makes the profiler read outside the payload
    and leaves its state consistent; a sample is appended exactly when all gates were passed, and
    the sample of an event the runtime wrote tells its size, type, thread, context and frames. *)

From S2P Require Import Prelude Utf TypeNames SamplesBuffer SampleQueues NameCache NamingHelper ResolvedNames ThreadStacks AllocationSubSampler ProfilerState.

(** ** Input *)

Record tick_input := {
  entry_cancelled : bool; entry_target : Z; (* read before any lock is taken *)
  lock_acquired : bool;
  recheck_cancelled : bool;
  event : tick; (* the clocks and the die of ShouldSample *)
  current_thread : option Z; (* GetCurrentThreadID *)
  sample_time : Z;
  snapshot_frames : list (Z * bool); (* the calls of HandleStackFrame, and whether they see the cancellation *)
  snapshot_result : Z; (* what DoStackSnapshot returns *)
  captured_cancelled : bool;
  resolved_cancelled : bool;
  admitted : bool; (* the admission for publishing *)
}.

Definition S_OK : Z := 0.
Definition S_FALSE : Z := 1.
Definition CORPROF_E_STACKSNAPSHOT_ABORTED : Z := s32 0x80131361.

Section AllocationTick.
(** The size of a pointer, GetFunctionInfo2, the metadata and walker of NamingHelper, and the
    allocator of ThreadStacks. *)
Context (EtwPointerSize : Z).
Context (GetFunctionInfo2 : Z → option (Z * Z)).
Context (GetModuleMetaData : Z → option IMetaDataImport2) (type_fuel : nat) (stackWalker_ : option (Z → option (list Z))).
Context (reserve : nat → Z → option Z).

(** ** The payload *)

Definition AllocationTickV4TypeNameStartByteIndex : Z := 4 + 4 + 2 + 8 + EtwPointerSize.
Definition AllocationTickV4SizeWithoutTypeName : Z := 4 + 4 + 2 + 8 + EtwPointerSize + 4 + EtwPointerSize + 8.

(** [n] bytes at [&data[off]] *)
Definition read_memory (data : list Z) (off n : Z) : outcome unit (list Z) :=
  if decide (0 ≤ off ∧ 0 ≤ n ∧ off + n ≤ Z.of_nat (length data)) then mret (slice (Z.to_nat off) (Z.to_nat n) data) else Stuck.

(** The code units in memory. *)
Fixpoint units_at (bs : list Z) : list Z :=
  match bs with b0 :: b1 :: bs => le_val [b0; b1] :: units_at bs | _ => [] end.

(** ** The stack of the current thread *)

(** The vector of frames is a store of ThreadStacks with one thread, 0. *)
Definition local_stack : ThreadStacksBuffer :=
  {| stacks_ := {[0 := empty_vector]}; frameCapacity_ := 0; cachedThread_ := 0; cachedStack_ := None; requests := 0 |}.
Definition stack_frames (b : ThreadStacksBuffer) : list FunctionIdentifier := default [] (frames <$> stacks_ b !! 0).

Definition on_stack {A} (m : stM ThreadStacksBuffer unit A) (b : ThreadStacksBuffer) : P (A * ThreadStacksBuffer) := λ p,
  match m b with
  | (Ret a, b) => (Ret (a, b), p)
  | (Err e, _) => (Err e, p)
  | (Stuck, _) => (Stuck, p)
  | (Fuel, _) => (Fuel, p)
  end.

Definition HandleStackFrame (func_id : Z) (cancelled : bool) (buffer : ThreadStacksBuffer) : P (Z * ThreadStacksBuffer) :=
  if cancelled then mret (S_FALSE, buffer)
  else
    '(room, buffer) ← on_stack (TryReserveStackFrame reserve 0 MaximumFramesPerStack) buffer;
    if negb room then mret (S_OK, buffer)
    else
      '(_, buffer) ← RecordManagedFrame GetFunctionInfo2 func_id (λ f, on_stack (push_frame 0 f) buffer);
      mret (S_OK, buffer).

(** The runtime calls back for one frame after the other until a callback does not return S_OK. *)
Fixpoint snapshot_callbacks (fs : list (Z * bool)) (buffer : ThreadStacksBuffer) : P ThreadStacksBuffer :=
  match fs with
  | [] => mret buffer
  | (func_id, cancelled) :: fs =>
      '(hr, buffer) ← HandleStackFrame func_id cancelled buffer;
      if decide (hr = S_OK) then snapshot_callbacks fs buffer else mret buffer
  end.

(** Whether the capture is used. *)
Definition FinalizeAllocationStackCapture (cancelled : bool) (captureResult : Z) : bool :=
  negb (bool_decide (captureResult = S_FALSE) || bool_decide (captureResult = CORPROF_E_STACKSNAPSHOT_ABORTED) || cancelled).

Definition CaptureAllocationStack (i : tick_input) : P (bool * list FunctionIdentifier) :=
  threadStack ← snapshot_callbacks (snapshot_frames i) local_stack;
  if FinalizeAllocationStackCapture (captured_cancelled i) (snapshot_result i)
  then mret (true, stack_frames threadStack) else mret (false, []).

(** ** The event *)

Definition GetCurrentSpanContext (tid : Z) : P thread_span_context := p ← get; mret (context_of p tid).

(** [managed_tid_to_state_[tid]] adds a null pointer for a thread it does not know. *)
Definition GetCurrentThreadState (tid : Z) : P (option (list Z)) :=
  p ← get;
  match managed_tid_to_state_ p !! tid with
  | Some state => mret state
  | None => update (with_thread_states (<[tid := None]> (managed_tid_to_state_ p)));; mret None
  end.

(** AllocationTick from the capture of the stack on. *)
Definition AllocationTick_capture (i : tick_input) (localBuf : ThreadSamplesBuffer) : P unit :=
  clear_identifiers;;
  '(captured, threadStack) ← CaptureAllocationStack i;
  if negb captured then mret tt
  else
  localBuf ← ResolveFrames GetModuleMetaData type_fuel stackWalker_ threadStack localBuf;
  if resolved_cancelled i then mret tt
  else
  let localBuf := EndSample localBuf in
  if IsOverflowed localBuf then mret tt
  else if negb (admitted i) then mret tt
  else
  p ← get;
  let localBytes := default [] (buffer_ localBuf) in
  buffer ← lift (AllocationSamplingAppendToBuffer (s32 (Z.of_nat (length localBytes))) (Some localBytes) (allocation_buffer p));
  update (with_allocation_buffer buffer).

Definition AllocationTick (i : tick_input) (dataLen : Z) (data : list Z) : P unit :=
  p ← get;
  match allocationSubSampler p with
  | None => mret tt
  | Some allocationSampler =>
      if decide (entry_cancelled i = true ∨ entry_target i = 0) then mret tt
      else if negb (lock_acquired i) then mret tt
      else if recheck_cancelled i then mret tt
      else
      let '(sample, allocationSampler) := fire_tick (event i) allocationSampler in
      update (with_sampler (Some allocationSampler));;
      if negb sample then mret tt
      else if decide (dataLen < AllocationTickV4SizeWithoutTypeName + 2 ∨ (dataLen - AllocationTickV4SizeWithoutTypeName) mod 2 ≠ 0) then mret tt
      else
      allocatedSize ← lift (read_memory data (dataLen - 8) 8);
      let typeNameCharLen := (dataLen - AllocationTickV4SizeWithoutTypeName) / 2 - 1 in
      match current_thread i with
      | None => mret tt
      | Some threadId =>
          update (with_stats no_statistics);;
          spanCtx ← GetCurrentSpanContext threadId;
          threadState ← GetCurrentThreadState threadId;
          let thread_name_ := default [] threadState in
          typeName ← lift (read_memory data AllocationTickV4TypeNameStartByteIndex (2 * typeNameCharLen));
          let localBuf := AllocationSample (sample_time i) (le_val allocatedSize) (units_at typeName) thread_name_ spanCtx
                            (ThreadSamplesBuffer_init (Some [])) in
          AllocationTick_capture i localBuf
      end
  end.

(** OnAllocationTick: the sampler, if there is one; everything thrown is caught. *)
Definition OnAllocationTick (cancelled : bool) (i : tick_input) (dataLength : Z) (data : list Z) (sampler_ : option Profiler) :
    outcome unit (option Profiler) :=
  match sampler_ with
  | None => mret None
  | Some p =>
      if cancelled then mret (Some p)
      else match AllocationTick i dataLength data p with
           | (Ret _, p) | (Err _, p) => mret (Some p)
           | (Stuck, _) => Stuck
           | (Fuel, _) => Fuel
           end
  end.

Definition EventPipeEventDelivered (callbackAdmission service cancelled : bool) (i : tick_input)
    (eventId eventVersion cbEventData : Z) (eventData : list Z) (sampler_ : option Profiler) : outcome unit (option Profiler) :=
  if decide (eventId = 10 ∧ eventVersion = 4) then
    if negb callbackAdmission then mret sampler_
    else if service then OnAllocationTick cancelled i cbEventData eventData sampler_
    else mret sampler_
  else mret sampler_.

(** ** Specification: capturing the stack *)

(** The allocator gives what it is asked for. *)
Definition exact_allocator : Prop := ∀ k n, reserve k n = Some n.

(** The functions the callbacks see, until one of them sees the cancellation. *)
Fixpoint seen_functions (fs : list (Z * bool)) : list Z :=
  match fs with (func_id, false) :: fs => func_id :: seen_functions fs | _ => [] end.
Definition captured_functions (i : tick_input) : list FunctionIdentifier :=
  ResolveManagedFunctionIdentifier GetFunctionInfo2 <$> seen_functions (snapshot_frames i).

Context (name_of : FunctionIdentifier → list Z).
Context (Hreserve : ∀ k n c, reserve k n = Some c → n ≤ c).

Abbreviation helper_ok := (helper_ok GetFunctionInfo2 name_of).
Abbreviation kept := (kept GetFunctionInfo2 name_of).
Abbreviation profiler_ok := (profiler_ok GetFunctionInfo2 name_of).

Lemma wp_on_stack {A} (m : stM ThreadStacksBuffer unit A) b p (Q : A * ThreadStacksBuffer → Profiler → Prop) X :
  wp m b (λ a b', Q (a, b') p) (λ e _, X e p) → wp (on_stack m b) p Q X.
Proof. unfold wp, on_stack. by destruct (m b) as [[a|e| |] b']. Qed.

Lemma wp_and {S E A} (m : stM S E A) s Q1 Q2 X1 X2 :
  wp m s Q1 X1 → wp m s Q2 X2 → wp m s (λ a s', Q1 a s' ∧ Q2 a s') (λ e s', X1 e s' ∧ X2 e s').
Proof. unfold wp. by destruct (m s) as [[a|e| |] s']. Qed.

(** The vector has room for a frame unless it is full or the allocator interferes. *)
Lemma TryReserve_local_exact b v :
  exact_allocator → stacks_ b !! 0 = Some v → vector_ok v →
  wp (TryReserveStackFrame reserve 0 MaximumFramesPerStack) b (λ r _, r = bool_decide (vsize v < 512)) (λ _ _, False).
Proof.
  intros Hex Hv [H1 H2]. unfold TryReserveStackFrame, stack_of, MaximumFramesPerStack in *.
  wp_step ((run_by (done)); by rewrite Hv).
  case_decide; [eapply wp_run; [done|]; rewrite bool_decide_eq_false_2; [done|lia]|].
  case_decide; [eapply wp_run; [done|]; rewrite bool_decide_eq_true_2; [done|lia]|].
  unfold kInitialStackFrameCapacity. rewrite (wrap_small 64) by lia. rewrite Z.min_id, decide_False by lia.
  apply wp_bind. unfold request. wp_step (done). wp_step (done). rewrite Hex. eapply wp_run; [done|].
  rewrite decide_False by lia. wp_step (done). eapply wp_run; [done|]. rewrite bool_decide_eq_true_2; [done|lia].
Qed.

Lemma take_take_app {A} n (l1 l2 : list A) : take n (take n l1 ++ l2) = take n (l1 ++ l2).
Proof.
  destruct (decide (length l1 ≤ n)%nat); [by rewrite (take_ge l1) by lia|].
  rewrite !take_app_le by (rewrite ?length_take; lia). by rewrite take_take, Nat.min_id.
Qed.

Definition stack_is (b : ThreadStacksBuffer) (fs : list FunctionIdentifier) : Prop :=
  ∃ v, stacks_ b !! 0 = Some v ∧ vector_ok v ∧ frames v = fs.

Lemma TryReserve_local b fs p (Q : bool * ThreadStacksBuffer → Profiler → Prop) X :
  stack_is b fs →
  (∀ r b' v, stacks_ b' !! 0 = Some v → vector_ok v → frames v = fs → (r = true → vsize v < ThreadStacks.capacity v) →
    (exact_allocator → r = bool_decide (Z.of_nat (length fs) < 512)) → Q (r, b') p) →
  (¬ exact_allocator → X tt p) →
  wp (on_stack (TryReserveStackFrame reserve 0 MaximumFramesPerStack) b) p Q X.
Proof.
  intros (v & Hv & Hok & <-) HQ HX. apply wp_on_stack.
  assert (Hex : wp (TryReserveStackFrame reserve 0 MaximumFramesPerStack) b
    (λ r _, exact_allocator → r = bool_decide (vsize v < 512)) (λ _ _, ¬ exact_allocator)).
  { unfold wp. destruct (TryReserveStackFrame _ _ _ b) as [[r|e| |] b'] eqn:E.
    - intros H. pose proof (TryReserve_local_exact b v H Hv Hok) as Hw. unfold wp in Hw. by rewrite E in Hw.
    - intros H. pose proof (TryReserve_local_exact b v H Hv Hok) as Hw. unfold wp in Hw. by rewrite E in Hw.
    - pose proof (TryReserve_wp reserve Hreserve b 0 v MaximumFramesPerStack (λ _ _, True) (λ _ _, True) Hv Hok) as Hw.
      unfold wp in Hw. rewrite E in Hw. by apply Hw.
    - pose proof (TryReserve_wp reserve Hreserve b 0 v MaximumFramesPerStack (λ _ _, True) (λ _ _, True) Hv Hok) as Hw.
      unfold wp in Hw. rewrite E in Hw. by apply Hw. }
  eapply wp_mono.
  - apply wp_and; [exact Hex|].
    apply (TryReserve_wp reserve Hreserve b 0 v MaximumFramesPerStack
      (λ r b', ∃ c, reserved b b' 0 v MaximumFramesPerStack r c) (λ _ _, True)); [done|done| |done].
    intros b' r c Hr. by exists c.
  - intros r b' [Hr (c & [Hs _ _ Ht Hf])]. destruct Hok as [H1 H2].
    apply (HQ r b' {| frames := frames v; ThreadStacks.capacity := c |}); [by rewrite Hs, lookup_insert_eq| |done| |done].
    + unfold vector_ok, MaximumFramesPerStack, vsize in *. cbn. destruct r; [destruct (Ht eq_refl); lia|]. rewrite Hf by done. lia.
    + intros ->. by apply Ht.
  - intros [] b' [Hx _]. by apply HX.
Qed.

Lemma stack_is_length b fs : stack_is b fs → (length fs ≤ 512)%nat.
Proof. intros (v & _ & [H1 H2] & <-). unfold vsize, MaximumFramesPerStack in *. lia. Qed.

Lemma push_local f b v p (Q : unit * ThreadStacksBuffer → Profiler → Prop) X :
  stacks_ b !! 0 = Some v → vector_ok v → vsize v < ThreadStacks.capacity v →
  (∀ b', stack_is b' (frames v ++ [f]) → Q (tt, b') p) → wp (on_stack (push_frame 0 f) b) p Q X.
Proof.
  intros Hv [Hv1 Hv2] Hroom HQ. apply wp_on_stack. unfold push_frame, stack_of. wp_step ((run_by (done)); by rewrite Hv).
  rewrite decide_True by done. eapply wp_run; [done|]. apply HQ.
  eexists. cbn. rewrite lookup_insert_eq. split; [done|]. split; [|done].
  unfold vector_ok, MaximumFramesPerStack, vsize in *. cbn. rewrite length_app. simpl. lia.
Qed.

Lemma HandleStackFrame_wp id (cancelled : bool) b fs p :
  stack_is b fs → helper_ok (helper p) →
  wp (HandleStackFrame id cancelled b) p (λ '(hr, b') p', kept p p' ∧
      if cancelled then hr = S_FALSE ∧ b' = b
      else hr = S_OK ∧ ∃ gs, stack_is b' (fs ++ gs) ∧ gs `sublist_of` [ResolveManagedFunctionIdentifier GetFunctionInfo2 id] ∧
        (exact_allocator → fs ++ gs = take 512 (fs ++ [ResolveManagedFunctionIdentifier GetFunctionInfo2 id])))
    (λ _ p', kept p p' ∧ ¬ exact_allocator).
Proof.
  intros Hb Hh. pose proof (stack_is_length b fs Hb) as Hlen. unfold HandleStackFrame. destruct cancelled.
  { eapply wp_run; [done|]. split; [by apply kept_refl|done]. }
  apply wp_bind. apply (TryReserve_local b fs); [done| |].
  - intros r b' v Hv Hok <- Hroom Hr. destruct r; cbn [negb].
    + apply wp_bind. apply (RecordManagedFrame_wp _ name_of); [done|]. intros p' Hk.
      apply (push_local _ b' v); [done|done|by apply Hroom|]. intros b'' Hb''.
      eapply wp_run; [done|]. split; [done|]. split; [done|]. eexists. split; [exact Hb''|]. split; [done|].
      intros Hex. specialize (Hr Hex). symmetry in Hr. apply bool_decide_eq_true in Hr. rewrite take_ge; [done|].
      rewrite length_app. simpl. lia.
    + eapply wp_run; [done|]. split; [by apply kept_refl|]. split; [done|]. exists []. rewrite app_nil_r.
      split; [by exists v|]. split; [apply sublist_nil_l|]. intros Hex. specialize (Hr Hex). symmetry in Hr.
      apply bool_decide_eq_false in Hr. rewrite take_app_length'; [done|lia].
  - intros Hex. split; [by apply kept_refl|done].
Qed.

Lemma snapshot_callbacks_wp calls b fs p :
  stack_is b fs → helper_ok (helper p) →
  wp (snapshot_callbacks calls b) p (λ b' p', kept p p' ∧ ∃ gs, stack_is b' (fs ++ gs) ∧
      gs `sublist_of` (ResolveManagedFunctionIdentifier GetFunctionInfo2 <$> seen_functions calls) ∧
      (exact_allocator → fs ++ gs = take 512 (fs ++ (ResolveManagedFunctionIdentifier GetFunctionInfo2 <$> seen_functions calls))))
    (λ _ p', kept p p' ∧ ¬ exact_allocator).
Proof.
  revert b fs p. induction calls as [|[id cancelled] calls IH]; intros b fs p Hb Hh; cbn [snapshot_callbacks].
  { eapply wp_run; [done|]. split; [by apply kept_refl|]. exists []. rewrite app_nil_r. split; [done|]. split; [done|].
    intros _. cbn. rewrite app_nil_r, take_ge; [done|]. by eapply stack_is_length. }
  apply wp_bind. eapply wp_mono; [by apply (HandleStackFrame_wp id cancelled b fs)| |auto].
  intros [hr b1] p1 [Hk Hr]. destruct cancelled.
  - destruct Hr as [-> ->]. rewrite decide_False by done. eapply wp_run; [done|]. split; [done|]. exists [].
    rewrite app_nil_r. split; [done|]. split; [done|]. intros _. cbn. rewrite app_nil_r, take_ge; [done|]. by eapply stack_is_length.
  - destruct Hr as (-> & gs & Hb1 & Hsub & Hex). rewrite decide_True by done.
    eapply wp_mono; [by apply (IH b1 (fs ++ gs) p1); [|apply (kept_helper _ _ _ _ Hk)]| |].
    + intros b2 p2 [Hk2 (gs2 & Hb2 & Hsub2 & Hex2)]. split; [by eapply kept_trans|]. exists (gs ++ gs2). rewrite app_assoc.
      split; [done|]. split; [by apply (sublist_app gs [_] gs2 _)|]. intros H. rewrite (Hex2 H), (Hex H).
      by rewrite take_take_app, <-app_assoc.
    + intros [] p2 [Hk2 Hx]. split; [by eapply kept_trans|done].
Qed.

(** ** Specification: the sample *)

(** What a payload says: the size and the name of the type; [None]: it is too short or odd. *)
Definition payload (data : list Z) : option (Z * list Z) :=
  let n := Z.of_nat (length data) in
  if decide (AllocationTickV4SizeWithoutTypeName + 2 ≤ n ∧ (n - AllocationTickV4SizeWithoutTypeName) mod 2 = 0) then
    Some (le_val (slice (Z.to_nat (n - 8)) 8 data),
          units_at (slice (Z.to_nat AllocationTickV4TypeNameStartByteIndex) (Z.to_nat (n - AllocationTickV4SizeWithoutTypeName - 2)) data))
  else None.

Definition tick_operations (i : tick_input) (size : Z) (type_name : list Z) (p : Profiler) (tid : Z) (fs : list FunctionIdentifier) : list operation :=
  OAllocationSample (sample_time i) size type_name (name_of_thread p tid) (context_of p tid) ::
  SamplesBuffer.ResolveFrames name_of fs ++ [OEndSample].

Definition sample_bytes (i : tick_input) (data : list Z) (p : Profiler) (fs : list FunctionIdentifier) : list Z :=
  match payload data, current_thread i with
  | Some (size, type_name), Some tid => format ∅ (tick_operations i size type_name p tid fs)
  | _, _ => []
  end.

(** The gates from the capture on, for a sample of these bytes. *)
Record published (i : tick_input) (buffer bytes : list Z) : Prop := {
  published_captured : FinalizeAllocationStackCapture (captured_cancelled i) (snapshot_result i) = true;
  published_running : resolved_cancelled i = false;
  published_fits : Z.of_nat (length bytes) ≤ 204800;
  published_admitted : admitted i = true;
  published_room : Z.of_nat (length buffer) + Z.of_nat (length bytes) < 204800;
}.

(** All the gates are passed, and the sample fits. *)
Record delivered (i : tick_input) (data : list Z) (p : Profiler) (bytes : list Z) : Prop := {
  delivered_running : entry_cancelled i = false ∧ recheck_cancelled i = false;
  delivered_target : entry_target i ≠ 0;
  delivered_lock : lock_acquired i = true;
  delivered_sampled : ∃ s, allocationSubSampler p = Some s ∧ (fire_tick (event i) s).1 = true;
  delivered_payload : is_Some (payload data);
  delivered_thread : is_Some (current_thread i);
  delivered_published : published i (allocation_buffer p) bytes;
}.

(** The frames of a sample: the captured functions, 512 at most, all of them when the allocator
    does not refuse any. *)
Record sampled_frames (i : tick_input) (fs : list FunctionIdentifier) : Prop := {
  sampled_sublist : fs `sublist_of` captured_functions i;
  sampled_length : (length fs ≤ 512)%nat;
  sampled_exact : exact_allocator → fs = take 512 (captured_functions i);
}.

Lemma append_whole bytes buffer :
  0 < Z.of_nat (length bytes) ≤ 204800 →
  AllocationSamplingAppendToBuffer (s32 (Z.of_nat (length bytes))) (Some bytes) buffer =
  Ret (if decide (Z.of_nat (length buffer) + Z.of_nat (length bytes) < 204800) then buffer ++ bytes else buffer).
Proof.
  intros Hl. pose proof samples_buffer_size. unfold AllocationSamplingAppendToBuffer. rewrite sgn_small by lia.
  rewrite decide_False, Nat2Z.id by lia. destruct (decide (_ < 204800)).
  - rewrite decide_False, decide_False, firstn_all by lia. done.
  - by rewrite decide_True by lia.
Qed.

Lemma CaptureAllocationStack_wp i p :
  helper_ok (helper p) →
  wp (CaptureAllocationStack i) p (λ '(captured, fs) p', kept p p' ∧
      captured = FinalizeAllocationStackCapture (captured_cancelled i) (snapshot_result i) ∧ (captured = true → sampled_frames i fs))
    (λ _ p', kept p p' ∧ ¬ exact_allocator).
Proof.
  intros Hh. unfold CaptureAllocationStack. apply wp_bind.
  assert (Hlocal : stack_is local_stack []) by (exists empty_vector; by repeat split).
  eapply wp_mono; [by apply (snapshot_callbacks_wp (snapshot_frames i) local_stack [])| |done].
  intros b p' [Hk (gs & Hb & Hsub & Hex)]. cbn [app] in *. destruct (FinalizeAllocationStackCapture _ _).
  - eapply wp_run; [done|]. split; [done|]. split; [done|]. intros _.
    assert (stack_frames b = gs) as -> by (destruct Hb as (v & Hv & _ & Hf); unfold stack_frames; by rewrite Hv).
    split; [done|by eapply stack_is_length|done].
  - eapply wp_run; [done|]. done.
Qed.

(** After the operations [os] and those of the frames, [go] says whether the buffer was extended. *)
Definition captured_sample (i : tick_input) (o : operation) (p p' : Profiler) : Prop :=
  ∃ fs, sampled_frames i fs ∧
    let bytes := format ∅ (o :: SamplesBuffer.ResolveFrames name_of fs ++ [OEndSample]) in
    (published i (allocation_buffer p) bytes ∧ allocation_buffer p' = allocation_buffer p ++ bytes) ∨
    (¬ published i (allocation_buffer p) bytes ∧ allocation_buffer p' = allocation_buffer p).

Lemma sampled_frames_exists i : ∃ fs, sampled_frames i fs.
Proof.
  exists (take 512 (captured_functions i)). split; [apply sublist_take|rewrite length_take; lia|done].
Qed.

Lemma not_captured i o p p' :
  allocation_buffer p' = allocation_buffer p → (∀ bytes, ¬ published i (allocation_buffer p) bytes) → captured_sample i o p p'.
Proof. intros Hb Hn. destruct (sampled_frames_exists i) as [fs Hfs]. exists fs. split; [done|]. right. by split. Qed.

(** Only the naming helper, the statistics and the buffer have changed. *)
Definition extended (p p' : Profiler) : Prop := ∃ p1 b, kept p p1 ∧ p' = with_allocation_buffer b p1.

Lemma extended_kept p p' : kept p p' → extended p p'.
Proof. intros Hk. exists p', (allocation_buffer p'). split; [done|by destruct p']. Qed.

Lemma kept_buffer p p' : kept p p' → allocation_buffer p' = allocation_buffer p.
Proof. by intros (h & s & -> & _). Qed.

Lemma capture_wp i o p (Hnames : ∀ f, f ∈ captured_functions i → resolve_name GetModuleMetaData type_fuel stackWalker_ f = Ret (name_of f)) :
  helper_ok (helper p) → blocks ∅ o ≠ [] → Forall (λ b, b ≠ []) (blocks ∅ o) →
  wp (AllocationTick_capture i (perform o (ThreadSamplesBuffer_init (Some [])))) p
    (λ _ p', extended p p' ∧ captured_sample i o p p') (λ _ p', kept p p' ∧ ¬ exact_allocator).
Proof.
  intros Hh Hne Hblocks. unfold AllocationTick_capture. apply wp_bind. eapply clear_identifiers_wp; [exact Hh|]. intros p0 Hk0.
  apply wp_bind. eapply wp_mono; [by apply (CaptureAllocationStack_wp i p0), (kept_helper _ _ _ _ Hk0)| |].
  2: { intros [] p' [Hk Hx]. split; [by eapply kept_trans|done]. }
  intros [captured fs] p1 (Hk1 & Hcap & Hfs). pose proof (kept_trans _ _ _ _ _ Hk0 Hk1) as Hk. destruct captured; cbn [negb].
  2: { eapply wp_run; [done|]. split; [by apply extended_kept|]. apply not_captured; [by apply kept_buffer|]. intros bytes [H _ _ _ _]. congruence. }
  specialize (Hfs eq_refl). apply wp_bind. eapply wp_mono; [apply (ResolveFrames_wp GetFunctionInfo2 _ _ _ name_of fs _ _ (λ _ _, False))| |done].
  { apply (kept_helper _ _ _ _ Hk1). }
  { intros f Hf. apply Hnames. eapply sublist_subseteq; [apply Hfs|done]. }
  intros b p2 [Hk2 ->]. pose proof (kept_trans _ _ _ _ _ Hk Hk2) as Hk3. set (os := o :: SamplesBuffer.ResolveFrames name_of fs ++ [OEndSample]).
  destruct (resolved_cancelled i) eqn:Er.
  { eapply wp_run; [done|]. split; [by apply extended_kept|]. apply not_captured; [by apply kept_buffer|]. intros bytes [_ H _ _ _]. congruence. }
  assert (Hos : EndSample (perform_all (SamplesBuffer.ResolveFrames name_of fs) (perform o (ThreadSamplesBuffer_init (Some [])))) =
    perform_all os (ThreadSamplesBuffer_init (Some []))).
  { unfold os, perform_all. cbn [foldl]. rewrite foldl_app. done. }
  rewrite Hos. destruct (performed os) as (bytes & Hb & _ & Hl & Hov & Hall).
  destruct (IsOverflowed _) eqn:Eo.
  { eapply wp_run; [done|]. split; [by apply extended_kept|]. exists fs. split; [done|]. right. split; [|by apply kept_buffer].
    intros [_ _ H _ _]. fold os in H. apply proj1 in Hov. specialize (Hov eq_refl). lia. }
  specialize (Hall eq_refl). subst bytes. destruct (admitted i) eqn:Ea; cbn [negb].
  2: { eapply wp_run; [done|]. split; [by apply extended_kept|]. apply not_captured; [by apply kept_buffer|]. intros bytes [_ _ _ H _]. congruence. }
  wp_step (done). rewrite Hb. change (default [] (Some (format ∅ os))) with (format ∅ os). apply wp_bind.
  assert (Hpos : (0 < length (format ∅ os))%nat).
  { unfold os. cbn [format]. rewrite length_app. destruct (blocks ∅ o) as [|[|x b] bs]; [done|by inversion Hblocks|]. simpl. lia. }
  eapply wp_lift; [apply append_whole; lia|]. eapply wp_run; [done|].
  split; [by eexists p2, _|]. exists fs. split; [done|]. cbn [allocation_buffer]. fold os.
  rewrite (kept_buffer _ _ Hk3). case_decide.
  - left. split; [by split|done].
  - right. split; [intros [_ _ _ _ H']; lia|done].
Qed.

(** ** Specification: the event *)

Definition tick_handled (i : tick_input) (data : list Z) (p p' : Profiler) : Prop :=
  ∃ fs, sampled_frames i fs ∧
    let bytes := sample_bytes i data p fs in
    (delivered i data p bytes ∧ allocation_buffer p' = allocation_buffer p ++ bytes) ∨
    (¬ delivered i data p bytes ∧ allocation_buffer p' = allocation_buffer p).

Lemma not_delivered i data p p' :
  allocation_buffer p' = allocation_buffer p → (∀ bytes, ¬ delivered i data p bytes) → tick_handled i data p p'.
Proof. intros Hb Hn. destruct (sampled_frames_exists i) as [fs Hfs]. exists fs. split; [done|]. right. by split. Qed.

Lemma extended_ok p p' : profiler_ok p → extended p p' → Z.of_nat (length (allocation_buffer p')) < 204800 → profiler_ok p'.
Proof. intros Hok (p1 & b & Hk & ->) Hb. pose proof (kept_ok _ _ _ _ Hok Hk) as Hok1. by destruct Hok1. Qed.

Lemma captured_length i o p p' :
  profiler_ok p → captured_sample i o p p' → Z.of_nat (length (allocation_buffer p')) < 204800.
Proof.
  intros Hok (fs & _ & [[[_ _ _ _ Hr] ->]|[_ ->]]); [|apply Hok]. rewrite length_app. lia.
Qed.

Lemma read_payload data off n :
  0 ≤ off → 0 ≤ n → off + n ≤ Z.of_nat (length data) → read_memory data off n = Ret (slice (Z.to_nat off) (Z.to_nat n) data).
Proof. intros. unfold read_memory. by rewrite decide_True. Qed.

Lemma GetCurrentThreadState_wp tid p (Q : option (list Z) → Profiler → Prop) X :
  profiler_ok p → (∀ q, profiler_ok q → allocation_buffer q = allocation_buffer p → Q (default None (managed_tid_to_state_ p !! tid)) q) →
  wp (GetCurrentThreadState tid) p Q X.
Proof.
  intros Hok HQ. unfold GetCurrentThreadState. wp_step (done).
  destruct (managed_tid_to_state_ p !! tid) as [state|] eqn:E; [eapply wp_run; [done|]; by apply HQ|].
  eapply wp_bind, wp_run; [done|]. eapply wp_run; [done|]. apply HQ; [|done]. destruct Hok as [H1 H2 H3 H4 H5 H6 H7 H8 H9]. split; try done.
  cbn. intros t name [[_ [=]]|[_ H]]%lookup_insert_Some. by eapply H3.
Qed.

Context (Hpointer : EtwPointerSize = 4 ∨ EtwPointerSize = 8).

(** From the name of the thread on. *)
Lemma captured_handled i data p q p' size type_name tid :
  entry_cancelled i = false → recheck_cancelled i = false → entry_target i ≠ 0 → lock_acquired i = true →
  (∃ s, allocationSubSampler p = Some s ∧ (fire_tick (event i) s).1 = true) →
  payload data = Some (size, type_name) → current_thread i = Some tid → allocation_buffer q = allocation_buffer p →
  captured_sample i (OAllocationSample (sample_time i) size type_name (name_of_thread p tid) (context_of p tid)) q p' →
  tick_handled i data p p'.
Proof.
  intros H1 H2 H3 H4 H5 Hp Ht Hb (fs & Hfs & Hc). exists fs. split; [done|]. unfold sample_bytes, tick_operations. rewrite Hp, Ht.
  rewrite Hb in Hc. destruct Hc as [[Hc ->]|[Hc ->]]; [left|right]; (split; [|done]).
  - by split.
  - by intros [].
Qed.

Lemma payload_None data :
  payload data = None ↔ Z.of_nat (length data) < AllocationTickV4SizeWithoutTypeName + 2 ∨
    (Z.of_nat (length data) - AllocationTickV4SizeWithoutTypeName) mod 2 ≠ 0.
Proof. unfold payload. case_decide; split; [done|lia|lia|done]. Qed.

Lemma payload_Some data :
  AllocationTickV4SizeWithoutTypeName + 2 ≤ Z.of_nat (length data) →
  (Z.of_nat (length data) - AllocationTickV4SizeWithoutTypeName) mod 2 = 0 →
  payload data = Some (le_val (slice (Z.to_nat (Z.of_nat (length data) - 8)) 8 data),
    units_at (slice (Z.to_nat AllocationTickV4TypeNameStartByteIndex)
                    (Z.to_nat (Z.of_nat (length data) - AllocationTickV4SizeWithoutTypeName - 2)) data)).
Proof. intros. unfold payload. by rewrite decide_True. Qed.

(** A gate that is not passed. *)
Lemma stopped i data p p' :
  profiler_ok p' → allocation_buffer p' = allocation_buffer p → (∀ bytes, ¬ delivered i data p bytes) →
  wp (mret tt : P unit) p' (λ _ p', profiler_ok p' ∧ tick_handled i data p p')
    (λ _ p', profiler_ok p' ∧ allocation_buffer p' = allocation_buffer p ∧ ¬ exact_allocator).
Proof. intros Hok Hb Hn. eapply wp_run; [done|]. split; [done|]. by apply not_delivered. Qed.

Ltac gate_closed :=
  apply stopped; [done|done|];
  let bytes := fresh in intros bytes [[? ?] ? ? (? & ? & ?) [? ?] [? ?] _]; simplify_eq;
  try match goal with H : (fire_tick ?t ?s).1 = true, E : fire_tick ?t ?s = _ |- _ => rewrite E in H; cbn in H end;
  intuition congruence.

Lemma AllocationTick_wp i data p :
  profiler_ok p → (∀ f, f ∈ captured_functions i → resolve_name GetModuleMetaData type_fuel stackWalker_ f = Ret (name_of f)) →
  wp (AllocationTick i (Z.of_nat (length data)) data) p
    (λ _ p', profiler_ok p' ∧ tick_handled i data p p')
    (λ _ p', profiler_ok p' ∧ allocation_buffer p' = allocation_buffer p ∧ ¬ exact_allocator).
Proof.
  intros Hok Hnames. unfold AllocationTick. wp_step (done). destruct (allocationSubSampler p) as [s|] eqn:Es; [|gate_closed].
  case_decide as Hentry; [gate_closed|]. destruct (lock_acquired i) eqn:El; cbn [negb]; [|gate_closed].
  destruct (recheck_cancelled i) eqn:Er; [gate_closed|].
  assert (Hs' := proj1 (fire_tick_ok (event i) s (ok_sampler _ _ p Hok s Es))).
  destruct (fire_tick (event i) s) as [sample s'] eqn:Ef. wp_step (done).
  match goal with |- wp _ ?q _ _ => set (p1 := q) end.
  assert (Hok1 : profiler_ok p1) by (destruct Hok; split; try done; cbn; by intros ? [= <-]).
  destruct sample; cbn [negb]; [|gate_closed].
  set (n := Z.of_nat (length data)). set (size := AllocationTickV4SizeWithoutTypeName).
  case_decide as Hsize; [apply payload_None in Hsize; gate_closed|]. pose proof (payload_Some data) as Hp. fold n size in Hp.
  specialize (Hp ltac:(lia) ltac:(lia)).
  assert (Hn : size = 30 + 2 * EtwPointerSize ∧ AllocationTickV4TypeNameStartByteIndex = 18 + EtwPointerSize).
  { unfold size, AllocationTickV4SizeWithoutTypeName, AllocationTickV4TypeNameStartByteIndex. lia. }
  assert (Hlen : 2 * ((n - size) / 2 - 1) = n - size - 2) by divmod.
  apply wp_bind. eapply wp_lift; [apply read_payload; lia|]. destruct (current_thread i) as [tid|] eqn:Et; [|gate_closed].
  wp_step (done). unfold GetCurrentSpanContext. apply wp_bind. wp_step (done). eapply wp_run; [done|].
  apply wp_bind. apply GetCurrentThreadState_wp; [by destruct Hok1|]. intros q Hq Hqb.
  apply wp_bind. rewrite Hlen. eapply wp_lift; [apply read_payload; lia|].
  match goal with |- wp (AllocationTick_capture i (AllocationSample ?t ?sz ?ty ?nm ?c ?b)) _ _ _ =>
    change (AllocationSample t sz ty nm c b) with (perform (OAllocationSample t sz ty nm c) b) end.
  eapply wp_mono; [apply (capture_wp i _ q Hnames); [apply Hq|done|]| |].
  - cbn [blocks]. repeat (apply Forall_cons; split; [done|]). apply Forall_nil_2.
  - intros [] p' [Hext Hc]. split; [eapply extended_ok; [exact Hq|done|by eapply captured_length]|].
    eapply captured_handled; [destruct (entry_cancelled i); tauto|done|tauto|done|by exists s; rewrite Ef|exact Hp|done|exact Hqb|exact Hc].
  - intros [] p' [Hk Hx]. split; [by eapply kept_ok|]. split; [|done]. by rewrite (kept_buffer _ _ Hk).
Qed.

(** *** The whole callback *)

Lemma EventPipeEventDelivered_handled callbackAdmission service cancelled i data p :
  profiler_ok p → (∀ f, f ∈ captured_functions i → resolve_name GetModuleMetaData type_fuel stackWalker_ f = Ret (name_of f)) →
  ∃ p', EventPipeEventDelivered callbackAdmission service cancelled i 10 4 (Z.of_nat (length data)) data (Some p) = Ret (Some p') ∧
    profiler_ok p' ∧
    if callbackAdmission && service && negb cancelled
    then tick_handled i data p p' ∨ (¬ exact_allocator ∧ allocation_buffer p' = allocation_buffer p)
    else p' = p.
Proof.
  intros Hok Hnames. unfold EventPipeEventDelivered, OnAllocationTick. rewrite decide_True by done.
  destruct callbackAdmission; [|by exists p]. destruct service; [|by exists p]. destruct cancelled; [by exists p|]. cbn [negb andb].
  pose proof (AllocationTick_wp i data p Hok Hnames) as Hw. unfold wp in Hw.
  destruct (AllocationTick i _ data p) as [[[]|[]| |] p']; [| |done|done].
  - destruct Hw as [Hok' Ht]. exists p'. auto.
  - destruct Hw as (Hok' & Hb & Hx). exists p'. auto.
Qed.

(** ** What the runtime writes *)

Record allocation_event := {
  AllocationAmount : Z; AllocationKind : Z; InstanceId : Z; AllocationAmount64 : Z; TypeId : Z;
  TypeName : list Z; HeapIndex : Z; Address : Z; AllocatedSize : Z;
}.

Definition pointer_bytes : nat := Z.to_nat EtwPointerSize.

(** The payload of version 4 of the event; the name is followed by a NUL. *)
Definition event_bytes (e : allocation_event) : list Z :=
  (le_bytes 4 (AllocationAmount e) ++ le_bytes 4 (AllocationKind e) ++ le_bytes 2 (InstanceId e) ++ le_bytes 8 (AllocationAmount64 e) ++
   le_bytes pointer_bytes (TypeId e)) ++ unit_bytes (TypeName e) ++
  (le_bytes 2 0 ++ le_bytes 4 (HeapIndex e) ++ le_bytes pointer_bytes (Address e)) ++ le_bytes 8 (AllocatedSize e).

Lemma unit_bytes_cons c s : unit_bytes (c :: s) = c mod 256 :: c / 256 mod 256 :: unit_bytes s.
Proof. done. Qed.

Lemma units_at_bytes s : units s → units_at (unit_bytes s) = s.
Proof.
  induction 1 as [|c s Hc _ IH]; [done|]. rewrite unit_bytes_cons. cbn [units_at]. rewrite IH. f_equal. cbn [le_val].
  rewrite (Z.mod_small (c / 256)) by divmod. divmod.
Qed.

Lemma slice_middle {A} (l1 l2 l3 : list A) i n : i = length l1 → n = length l2 → slice i n (l1 ++ l2 ++ l3) = l2.
Proof. intros -> ->. unfold slice. by rewrite drop_app_length, take_app_length. Qed.

Lemma slice_end {A} (l1 l2 : list A) i n : i = length l1 → n = length l2 → slice i n (l1 ++ l2) = l2.
Proof. intros -> ->. unfold slice. by rewrite drop_app_length, take_ge. Qed.

Lemma payload_event e : units (TypeName e) → payload (event_bytes e) = Some (u64 (AllocatedSize e), TypeName e).
Proof.
  intros Hu. unfold event_bytes.
  set (l1 := le_bytes 4 (AllocationAmount e) ++ _). set (l3 := le_bytes 2 0 ++ _).
  assert (Hl1 : length l1 = (18 + pointer_bytes)%nat) by (unfold l1; rewrite !length_app, !length_le_bytes; lia).
  assert (Hl3 : length l3 = (6 + pointer_bytes)%nat) by (unfold l3; rewrite !length_app, !length_le_bytes; lia).
  assert (Hn : Z.of_nat (length (l1 ++ unit_bytes (TypeName e) ++ l3 ++ le_bytes 8 (AllocatedSize e))) =
    AllocationTickV4SizeWithoutTypeName + 2 + 2 * Z.of_nat (length (TypeName e))).
  { rewrite !length_app, Hl1, Hl3, length_le_bytes, length_unit_bytes. unfold AllocationTickV4SizeWithoutTypeName, pointer_bytes. lia. }
  rewrite payload_Some by (rewrite Hn; divmod || lia). rewrite Hn. f_equal. f_equal.
  - rewrite !app_assoc, slice_end; [by rewrite le_val_bytes| |by rewrite length_le_bytes].
    rewrite !length_app, Hl1, Hl3, length_unit_bytes. unfold AllocationTickV4SizeWithoutTypeName, pointer_bytes. lia.
  - rewrite slice_middle; [by apply units_at_bytes| |].
    + rewrite Hl1. unfold AllocationTickV4TypeNameStartByteIndex, pointer_bytes. lia.
    + rewrite length_unit_bytes. lia.
Qed.

(** ** A reader of the sample *)

Definition read_allocation_sample (bs : list Z) : option (Z * Z * list Z * list Z * thread_span_context * list (list Z)) :=
  '(op, bs) ← read_be 1 bs;
  '(time, bs) ← read_be 8 bs;
  '(size, bs) ← read_be 8 bs;
  '(type_name, bs) ← read_string bs;
  '(thread_name, bs) ← read_string bs;
  '(c, bs) ← read_context bs;
  '(names, _, bs) ← read_frames (S (length bs)) ∅ bs;
  if decide (op = kAllocationSample ∧ bs = []) then Some (time, size, type_name, thread_name, c, names) else None.

Lemma read_tick_operations i size type_name p tid fs :
  profiler_ok p → (∀ f, units (name_of f)) → units type_name →
  read_allocation_sample (format ∅ (tick_operations i size type_name p tid fs)) =
  Some (u64 (sample_time i), u64 size, take kMaxStringLength type_name, take kMaxStringLength (name_of_thread p tid),
    context_of p tid, (λ f, take kMaxStringLength (name_of f)) <$> fs).
Proof.
  intros Hok Hu Hty.
  pose proof (name_of_thread_units _ _ p tid Hok) as Hname. pose proof (context_of_range _ _ p tid Hok) as Hctx.
  unfold tick_operations. cbn [format blocks next_codes]. rewrite format_app. destruct (format_frames name_of ∅ fs) as [Hf1 Hf2].
  rewrite Hf1, Hf2. cbn [format blocks concat]. rewrite !app_nil_r, <-!app_assoc. unfold read_allocation_sample.
  cbn [app]. rewrite read_byte_cons by done. cbn [mbind option_bind].
  rewrite <-(be_bytes_wrap 8 size). change (8 * Z.of_nat 8) with 64.
  rewrite read_be_bytes by (apply (wrap_range 64); lia). cbn [mbind option_bind].
  rewrite read_be_bytes by (apply (wrap_range 64); lia). cbn [mbind option_bind].
  rewrite read_string_bytes by done. cbn [mbind option_bind]. rewrite read_string_bytes by done. cbn [mbind option_bind].
  rewrite read_context_bytes by done. cbn [mbind option_bind].
  destruct (read_frames_bytes name_of Hu fs ∅ ∅ [] (S (length (frames_bytes name_of ∅ fs ++ be_bytes 2 0)))) as (names' & _ & Hr).
  - apply codes_agree_empty.
  - rewrite length_app. pose proof (frames_bytes_length name_of ∅ fs). lia.
  - rewrite app_nil_r in Hr. rewrite Hr. cbn [mbind option_bind]. by rewrite decide_True.
Qed.

End AllocationTick.

(** ** Properties *)

(** C20: whatever bytes an AllocationTick event consists of, and whatever functions are on the stack,
    cancellations, lock failures, dice, clocks and runtime answers it meets, over metadata that can
    be read (following parents, enclosing types and the definitions of generic types descends,
    signatures are in memory and of ECMA types) the callback returns, never reads outside the
    payload or a signature nor a name or node that is gone, and leaves the profiler's state
    consistent.  The buffer of allocation samples is extended by exactly one sample when all the
    gates are passed and it fits, and is unchanged otherwise; the sample's frames are captured
    functions in their order, 512 at most, and the first 512 of them unless the allocator fails or
    gives too much. *)
Theorem allocation_event_handled EtwPointerSize info md fuel walker reserve callbackAdmission service cancelled i data p :
  let name_of := resolved_name md fuel walker in
  EtwPointerSize = 4 ∨ EtwPointerSize = 8 → (∀ k n c, reserve k n = Some c → n ≤ c) → metadata_readable md fuel walker →
  profiler_ok info name_of p →
  ∃ p', EventPipeEventDelivered EtwPointerSize info md fuel walker reserve callbackAdmission service cancelled i 10 4
          (Z.of_nat (length data)) data (Some p) = Ret (Some p') ∧
    profiler_ok info name_of p' ∧
    if callbackAdmission && service && negb cancelled
    then tick_handled EtwPointerSize info reserve name_of i data p p' ∨
         (¬ exact_allocator reserve ∧ allocation_buffer p' = allocation_buffer p)
    else p' = p.
Proof. intros name_of H1 H2 Hread H3. apply EventPipeEventDelivered_handled; try done. intros f _. by apply name_resolved. Qed.

(** C21: the sample of an event the runtime wrote, when it passes the gates, is appended to the
    buffer, and a reader of the format recovers from it the size of the object, the type's name,
    the name and the span context of the thread, and the names of the first 512 functions of its
    stack, every name cut to 512 units. *)
Theorem allocation_sample_reported EtwPointerSize info md fuel walker reserve name_of i e p tid :
  EtwPointerSize = 4 ∨ EtwPointerSize = 8 → exact_allocator reserve → profiler_ok info name_of p →
  (∀ f, f ∈ captured_functions info i → resolve_name md fuel walker f = Ret (name_of f)) → (∀ f, units (name_of f)) →
  units (TypeName e) → current_thread i = Some tid →
  let data := event_bytes EtwPointerSize e in
  let bytes := sample_bytes EtwPointerSize name_of i data p (take 512 (captured_functions info i)) in
  delivered EtwPointerSize i data p bytes →
  (∃ p', EventPipeEventDelivered EtwPointerSize info md fuel walker reserve true true false i 10 4 (Z.of_nat (length data)) data (Some p) =
      Ret (Some p') ∧ allocation_buffer p' = allocation_buffer p ++ bytes) ∧
  read_allocation_sample bytes =
    Some (u64 (sample_time i), u64 (AllocatedSize e), take kMaxStringLength (TypeName e), take kMaxStringLength (name_of_thread p tid),
      context_of p tid, (λ f, take kMaxStringLength (name_of f)) <$> take 512 (captured_functions info i)).
Proof.
  intros HP Hex Hok Hnames Hu Hty Ht data bytes Hd. split.
  - destruct (EventPipeEventDelivered_handled EtwPointerSize info md fuel walker reserve name_of) with
      (callbackAdmission := true) (service := true) (cancelled := false) (i := i) (data := data) (p := p) as (p' & Hr & _ & Hh); try done.
    { intros k n c H. rewrite Hex in H. injection H as <-. done. }
    exists p'. split; [done|]. cbn [andb negb] in Hh. destruct Hh as [(fs & [_ _ Hfs] & Hcase)|[Hx _]]; [|done].
    rewrite (Hfs Hex) in Hcase. by destruct Hcase as [[_ H]|[H _]].
  - unfold bytes, sample_bytes, data. rewrite payload_event, Ht by done. rewrite (read_tick_operations info) by done.
    rewrite (wrap_wrap 64) by lia. done.
Qed.

(** An event of three units on a 64-bit runtime that resolves no functions, on the thread "ab". *)
Definition example_name (f : FunctionIdentifier) : list Z :=
  if decide (is_valid f = false) then unknown_function_name else unknown_native_function_name.
Definition example_profiler : Profiler :=
  with_sampler (Some (SetTargetPerCycle 100 0 0 (AllocationSubSampler_init 0 60 0 0)))
    (with_thread_states {[ 3 := Some [97; 98] ]}
      (with_contexts {[ 3 := {| trace_context_ := {| trace_id_high_ := 1; trace_id_low_ := 2 |}; span_id_ := 3 |} ]}
        (with_allocation_buffer [1; 2; 3] (Profiler_sized 10 10)))).
Definition example_input : tick_input := {|
  entry_cancelled := false; entry_target := 100; lock_acquired := true; recheck_cancelled := false; event := minute 0 5;
  current_thread := Some 3; sample_time := 77; snapshot_frames := [(5, false); (0, false); (5, false)]; snapshot_result := 0;
  captured_cancelled := false; resolved_cancelled := false; admitted := true |}.
Definition example_event : allocation_event := {|
  AllocationAmount := 1; AllocationKind := 0; InstanceId := 0; AllocationAmount64 := 1; TypeId := 9; TypeName := [70; 111; 111];
  HeapIndex := 0; Address := 4096; AllocatedSize := 24 |}.
Definition exactly (k : nat) (n : Z) : option Z := Some n.

Lemma example_name_units f : units (example_name f).
Proof. unfold example_name. case_decide; apply (bool_decide_unpack _); vm_compute; exact I. Qed.

Lemma example_profiler_ok info name_of : profiler_ok info name_of example_profiler.
Proof.
  destruct (Profiler_sized_ok info name_of 10 10 ltac:(lia)) as [H1 H2 H3 H4 H5 H6 H7 H8 H9]. split; try done; cbn.
  - intros s [= <-]. apply SetTargetPerCycle_ok; [lia|]. apply sampler_ok_init; lia.
  - intros tid name [_ [= <-]]%lookup_singleton_Some. repeat (apply Forall_cons; split; [lia|]). by apply Forall_nil_2.
  - intros tid c [_ <-]%lookup_singleton_Some. unfold context_range. cbn. lia.
Qed.

Lemma example_resolved f : f ∈ captured_functions (λ _, None) example_input → resolve_name (λ _, None) 0 None f = Ret (example_name f).
Proof. intros Hf. repeat (apply elem_of_cons in Hf as [->|Hf]; [reflexivity|]). by apply elem_of_nil in Hf. Qed.

Lemma allocation_event_handled_witness :
  (* a payload too short for a type name; every function is Outer.Inner.Run<T>(ref List<int>, T) *)
  let info (id : Z) : option (Z * Z) := Some (7, 0x06000001) in
  ∃ p', EventPipeEventDelivered 8 info (λ _, Some example_metadata) 8 None exactly true true false example_input 10 4 47 (replicate 47 0)
      (Some example_profiler) = Ret (Some p') ∧ allocation_buffer p' = [1; 2; 3].
Proof.
  intros info.
  destruct (allocation_event_handled 8 info (λ _, Some example_metadata) 8 None exactly true true false example_input (replicate 47 0) example_profiler)
    as (p' & Hr & _ & Hh).
  - lia.
  - intros k n c [= <-]. lia.
  - exact example_readable.
  - apply example_profiler_ok.
  - exists p'. split; [exact Hr|]. cbn [andb negb] in Hh. destruct Hh as [(fs & _ & [[[_ _ _ _ [x Hp] _ _] _]|[_ H]])|[_ H]]; [|exact H|exact H].
    exfalso. vm_compute in Hp. discriminate Hp.
Defined.

Lemma allocation_sample_reported_witness :
  let bytes := sample_bytes 8 example_name example_input (event_bytes 8 example_event) example_profiler
                 (take 512 (captured_functions (λ _, None) example_input)) in
  (∃ p', EventPipeEventDelivered 8 (λ _, None) (λ _, None) 0 None exactly true true false example_input 10 4 54 (event_bytes 8 example_event)
      (Some example_profiler) = Ret (Some p') ∧ allocation_buffer p' = [1; 2; 3] ++ bytes) ∧
  read_allocation_sample bytes = Some (77, 24, [70; 111; 111], [97; 98],
    {| trace_context_ := {| trace_id_high_ := 1; trace_id_low_ := 2 |}; span_id_ := 3 |},
    [unknown_function_name; unknown_native_function_name; unknown_function_name]).
Proof.
  refine (allocation_sample_reported 8 (λ _, None) (λ _, None) 0 None exactly example_name example_input example_event example_profiler 3
    _ _ (example_profiler_ok _ _) example_resolved example_name_units _ _ _).
  - lia.
  - intros k n. reflexivity.
  - repeat (apply Forall_cons; split; [cbn; lia|]). by apply Forall_nil_2.
  - reflexivity.
  - assert (Hl : Z.of_nat (length (sample_bytes 8 example_name example_input (event_bytes 8 example_event) example_profiler
      (take 512 (captured_functions (λ _, None) example_input)))) ≤ 1000) by (vm_compute; discriminate).
    split; [done|done|done| |by eexists|by eexists|].
    + eexists. split; [reflexivity|vm_compute; reflexivity].
    + split; [vm_compute; reflexivity|reflexivity|eapply Z.le_trans; [exact Hl|lia]|reflexivity|].
      eapply Z.le_lt_trans; [apply Zplus_le_compat_l; exact Hl|]. reflexivity.
Defined.
