(* ===== verification/SelectedTraces.v ===== *)
(** * Thread names, span contexts and the traces selected for frequent sampling (continuous_profiler.cpp)

    What application threads tell the profiler: the callbacks for threads, the exported functions
    that associate threads with spans, and the traces to be sampled frequently with the time at
    which each of them is given up.  Times of the steady clock are in nanoseconds, deadlines are
    kept in milliseconds.

    The main results: never more than 50 traces are selected, and a selected trace stays so for
    fifteen minutes, to the millisecond, unless it is stopped: the check before a cycle of frequent
    sampling gives up the traces that are due although it rarely looks at them. *)

From S2P Require Import Prelude SamplesBuffer SampleQueues ProfilerState.

Definition kSelectiveSamplingMaxAgeMinutes : Z := 15.
(** The maximum age in nanoseconds. *)
Definition max_age : Z := kSelectiveSamplingMaxAgeMinutes * 60 * 1000000000.
(** A duration in nanoseconds cast to milliseconds. *)
Definition to_millis (t : Z) : Z := t ÷ 1000000.

(** ** Threads *)

(** [managed_tid_to_state_[thread_id]] adds the entry that [erase] removes again. *)
Definition ThreadDestroyed (thread_id : Z) : P unit :=
  p ← get;
  update (with_thread_states (delete thread_id (managed_tid_to_state_ p)));;
  update (with_contexts (delete thread_id (thread_span_context_map p))).

(** The state of the thread is created if needed, and its name replaced by the code units at [name]. *)
Definition ThreadNameChanged (thread_id : Z) (name : list Z) : P unit :=
  p ← get;
  update (with_thread_states (<[thread_id := Some name]> (managed_tid_to_state_ p))).

(** ** Span contexts *)

Definition ThreadSpanContextMap_Put (tid : Z) (c : thread_span_context) : P unit :=
  p ← get; update (with_contexts (<[tid := c]> (thread_span_context_map p))).
Definition ThreadSpanContextMap_Remove (c : thread_span_context) : P unit :=
  p ← get; update (with_contexts (filter (λ e, e.2 ≠ c) (thread_span_context_map p))).

Definition span_context (traceIdHigh traceIdLow spanId : Z) : thread_span_context :=
  {| trace_context_ := {| trace_id_high_ := traceIdHigh; trace_id_low_ := traceIdLow |}; span_id_ := spanId |}.

Definition ContinuousProfilerSetNativeContext (admission profiler_info : bool) (GetCurrentThreadID : option Z)
    (traceIdHigh traceIdLow spanId : Z) : P unit :=
  if negb admission then mret tt
  else if negb profiler_info then mret tt
  else match GetCurrentThreadID with
       | None => mret tt
       | Some threadId => ThreadSpanContextMap_Put threadId (span_context traceIdHigh traceIdLow spanId)
       end.

Definition ContinuousProfilerNotifySpanStopped (traceIdHigh traceIdLow spanId : Z) : P unit :=
  ThreadSpanContextMap_Remove (span_context traceIdHigh traceIdLow spanId).

(** ** Selected traces *)

Definition TryAddSelectiveSamplingTrace (context : trace_context) (now : Z) : P bool :=
  p ← get;
  if decide (kSelectiveSamplingMaxTraces ≤ Z.of_nat (size (selective_sampling_trace_map p))) then mret false
  else
    let deadline := now + max_age in
    update (with_traces (<[context := to_millis deadline]> (selective_sampling_trace_map p)));;
    mret true.

Definition RemoveSelectiveSamplingTrace (context : trace_context) : P unit :=
  p ← get; update (with_traces (delete context (selective_sampling_trace_map p))).

(** The entries visited, the time of the next scan and the map so far. *)
Fixpoint scan_entries (now : Z) (entries : list (trace_context * Z)) (nextScan : Z) (m : gmap trace_context Z) : Z * gmap trace_context Z :=
  match entries with
  | [] => (nextScan, m)
  | (context, millis) :: entries =>
      let deadline := millis * 1000000 in
      if decide (deadline ≤ now) then scan_entries now entries nextScan (delete context m)
      else scan_entries now entries (if decide (deadline < nextScan) then deadline else nextScan) m
  end.

Definition HasActiveSelectiveSamplingEntries (now : Z) : P bool :=
  p ← get;
  (if decide (nextOutdatedEntriesScan_ p ≤ now) then
     let '(nextScan, m) := scan_entries now (map_to_list (selective_sampling_trace_map p)) (now + max_age) (selective_sampling_trace_map p) in
     update (with_traces m);; update (with_scan nextScan)
   else mret tt);;
  p ← get;
  mret (negb (bool_decide (selective_sampling_trace_map p = ∅))).

Definition TryPrepareSelectedThreadSampling (now : Z) : P bool :=
  p ← get;
  let shouldProduceThreadSample := SelectiveSamplingShouldProduceThreadSample (selective_buffer p) in
  hasActiveSelectiveSamplingEntries ← HasActiveSelectiveSamplingEntries now;
  mret (shouldProduceThreadSample && hasActiveSelectiveSamplingEntries).

Definition SelectiveSamplingStart (profiler_info : bool) (traceIdHigh traceIdLow now : Z) : P unit :=
  if negb profiler_info then mret tt
  else
    let context := {| trace_id_high_ := traceIdHigh; trace_id_low_ := traceIdLow |} in
    if trace_context_IsDefault context then mret tt
    else TryAddSelectiveSamplingTrace context now;; mret tt.

Definition SelectiveSamplingStop (profiler_info : bool) (traceIdHigh traceIdLow : Z) : P unit :=
  if negb profiler_info then mret tt
  else
    let context := {| trace_id_high_ := traceIdHigh; trace_id_low_ := traceIdLow |} in
    if trace_context_IsDefault context then mret tt
    else RemoveSelectiveSamplingTrace context.

(** ** The scan *)

(** Entries are given up exactly when they are due, and the next scan is no later than the first
    deadline of the rest. *)
Lemma scan_entries_spec now entries nextScan m :
  NoDup entries.*1 → (∀ c d, (c, d) ∈ entries → m !! c = Some d) →
  let '(nextScan', m') := scan_entries now entries nextScan m in
  (∀ c d, m' !! c = Some d ↔ m !! c = Some d ∧ ((c, d) ∈ entries → now < d * 1000000)) ∧ nextScan' ≤ nextScan ∧
  (∀ c d, (c, d) ∈ entries → now < d * 1000000 → nextScan' ≤ d * 1000000).
Proof.
  revert nextScan m. induction entries as [|[c0 d0] entries IH]; intros nextScan m Hn Hin; cbn [scan_entries].
  { split_and!; [|lia|by intros c d ?%elem_of_nil]. intros c d. split; [|by intros []]. intros H. split; [done|]. by intros ?%elem_of_nil. }
  apply NoDup_cons in Hn as [Hnew Hn].
  assert (Hother : ∀ c d, (c, d) ∈ entries → c ≠ c0) by (intros c d H ->; apply Hnew, list_elem_of_fmap; by exists (c0, d)).
  assert (Hm0 : m !! c0 = Some d0) by (apply Hin; by left).
  case_decide as Hdue.
  - specialize (IH nextScan (delete c0 m) Hn). destruct (scan_entries _ _ _ _) as [nextScan' m'].
    destruct IH as (H1 & H2 & H3).
    { intros c d H. rewrite lookup_delete_ne by (intros <-; by apply (Hother c0 d)). apply Hin. by right. }
    split_and!; [|done|].
    + intros c d. rewrite H1, lookup_delete_Some, elem_of_cons. split.
      * intros ([Hne Hm] & H). split; [done|]. intros [[= -> ->]|H']; [done|auto].
      * intros (Hm & H). split; [|auto]. split; [|done]. intros <-. rewrite Hm0 in Hm. injection Hm as <-. specialize (H (or_introl eq_refl)). lia.
    + intros c d [[= -> ->]|H]%elem_of_cons Hd; [lia|eauto].
  - set (next := if decide (d0 * 1000000 < nextScan) then d0 * 1000000 else nextScan).
    assert (Hnext : next ≤ nextScan ∧ next ≤ d0 * 1000000) by (unfold next; case_decide; lia).
    specialize (IH next m Hn). destruct (scan_entries _ _ _ _) as [nextScan' m'].
    destruct IH as (H1 & H2 & H3); [intros c d H; apply Hin; by right|]. split_and!; [|lia|].
    + intros c d. rewrite H1, elem_of_cons. split.
      * intros (Hm & H). split; [done|]. intros [[= -> ->]|H']; [lia|auto].
      * intros (Hm & H). split; [done|auto].
    + intros c d [[= -> ->]|H]%elem_of_cons Hd; [lia|eauto].
Qed.

(** ** Executions *)

Inductive trace_event :=
| StartTrace (context : trace_context) (now : Z)
| StopTrace (context : trace_context)
| CheckTraces (now : Z) (* before a cycle of frequent sampling *)
| EnableChecks (now : Z). (* frequent sampling is enabled: WaitForNextThreadSamplingCycle *)

#[export] Instance trace_event_eq_dec : EqDecision trace_event.
Proof. solve_decision. Defined.

Definition perform_trace_event (e : trace_event) : P bool :=
  match e with
  | StartTrace context now => TryAddSelectiveSamplingTrace context now
  | StopTrace context => RemoveSelectiveSamplingTrace context;; mret true
  | CheckTraces now => HasActiveSelectiveSamplingEntries now
  | EnableChecks now => update (with_scan now);; mret true
  end.
Definition trace_step (p : Profiler) (e : trace_event) : Profiler := (perform_trace_event e p).2.

Definition event_time (t : Z) (e : trace_event) : Z :=
  match e with StartTrace _ now | CheckTraces now | EnableChecks now => now | StopTrace _ => t end.
(** The clock does not go backwards; it starts at [t]. *)
Fixpoint ordered (t : Z) (es : list trace_event) : Prop :=
  match es with [] => True | e :: es => t ≤ event_time t e ∧ ordered (event_time t e) es end.
Definition last_time (t : Z) (es : list trace_event) : Z := foldl event_time t es.

(** No later than a millisecond after a deadline there is a scan at the next check. *)
Record traces_ok (t : Z) (p : Profiler) : Prop := {
  traces_size : Z.of_nat (size (selective_sampling_trace_map p)) ≤ kSelectiveSamplingMaxTraces;
  traces_next : nextOutdatedEntriesScan_ p ≤ t + max_age;
  traces_scan : ∀ c d, selective_sampling_trace_map p !! c = Some d →
    nextOutdatedEntriesScan_ p < d * 1000000 + 1000000 ∨ nextOutdatedEntriesScan_ p ≤ t;
}.

Lemma to_millis_range t : 0 ≤ t → to_millis t * 1000000 ≤ t < to_millis t * 1000000 + 1000000.
Proof. intros Ht. unfold to_millis. rewrite Z.quot_div_nonneg by lia. divmod. Qed.

Lemma traces_ok_later t t' p : traces_ok t p → t ≤ t' → traces_ok t' p.
Proof. intros [H1 H2 H3] Ht. split; [done|lia|]. intros c d H. destruct (H3 c d H); lia. Qed.

(** What a check leaves. *)
Lemma check_spec now p :
  ∃ p', HasActiveSelectiveSamplingEntries now p = (Ret (negb (bool_decide (selective_sampling_trace_map p' = ∅))), p') ∧
    (∃ m scan, p' = with_scan scan (with_traces m p)) ∧
    (∀ c d, selective_sampling_trace_map p' !! c = Some d ↔
      selective_sampling_trace_map p !! c = Some d ∧ (nextOutdatedEntriesScan_ p ≤ now → now < d * 1000000)) ∧
    (∀ t, traces_ok t p → t ≤ now → traces_ok now p' ∧
      ∀ c d, selective_sampling_trace_map p' !! c = Some d → now < d * 1000000 + 1000000).
Proof.
  unfold HasActiveSelectiveSamplingEntries. run_by done. case_decide as Hdue.
  - pose proof (scan_entries_spec now (map_to_list (selective_sampling_trace_map p)) (now + max_age) (selective_sampling_trace_map p)
      (NoDup_fst_map_to_list _)) as Hscan.
    destruct (scan_entries _ _ _ _) as [nextScan m]. destruct Hscan as (H1 & H2 & H3); [intros c d; apply elem_of_map_to_list|].
    eexists. split; [done|]. cbn. split; [by exists m, nextScan|].
    assert (Hm : ∀ c d, m !! c = Some d ↔ selective_sampling_trace_map p !! c = Some d ∧ now < d * 1000000).
    { intros c d. rewrite H1, elem_of_map_to_list. naive_solver. }
    split; [intros c d; rewrite Hm; naive_solver|]. intros t [Hs Hn Ht] Hle. split.
    + split; cbn; [|done|].
      * assert (Hsub : m ⊆ selective_sampling_trace_map p) by (apply map_subseteq_spec; intros c d; rewrite Hm; tauto).
        pose proof (map_subseteq_size _ _ Hsub). lia.
      * intros c d [Hc Hd]%Hm. left. specialize (H3 c d (proj2 (elem_of_map_to_list _ c d) Hc) Hd). lia.
    + intros c d [_ Hd]%Hm. lia.
  - eexists. split; [done|]. split; [exists (selective_sampling_trace_map p), (nextOutdatedEntriesScan_ p); by destruct p|].
    split; [intros c d; split; [by split|by intros []]|]. intros t Hok Hle. split; [by eapply traces_ok_later|].
    intros c d H. destruct (traces_scan t p Hok c d H); lia.
Qed.

(** What the events other than checks do. *)
Lemma step_start p c now :
  trace_step p (StartTrace c now) =
  if decide (kSelectiveSamplingMaxTraces ≤ Z.of_nat (size (selective_sampling_trace_map p))) then p
  else with_traces (<[c := to_millis (now + max_age)]> (selective_sampling_trace_map p)) p.
Proof. unfold trace_step. cbn [perform_trace_event]. unfold TryAddSelectiveSamplingTrace. run_by done. by case_decide. Qed.
Lemma step_stop p c : trace_step p (StopTrace c) = with_traces (delete c (selective_sampling_trace_map p)) p.
Proof. done. Qed.
Lemma step_enable p now : trace_step p (EnableChecks now) = with_scan now p.
Proof. done. Qed.

Lemma trace_step_ok t p e :
  0 ≤ t → traces_ok t p → t ≤ event_time t e → traces_ok (event_time t e) (trace_step p e).
Proof.
  intros H0 Hok Ht. destruct e as [c now|c|now|now]; cbn [event_time] in *.
  - rewrite step_start. case_decide as Hfull; [by eapply traces_ok_later|]. destruct Hok as [H1 H2 H3].
    pose proof (to_millis_range (now + max_age)) as Hm.
    assert (Hsize : Z.of_nat (size (<[c := to_millis (now + max_age)]> (selective_sampling_trace_map p))) ≤ kSelectiveSamplingMaxTraces).
    { destruct (selective_sampling_trace_map p !! c) as [d|] eqn:E;
        [by rewrite map_size_insert_Some by (by rewrite E)|rewrite map_size_insert_None by (by rewrite E); lia]. }
    specialize (Hm ltac:(unfold max_age, kSelectiveSamplingMaxAgeMinutes; lia)). set (deadline := to_millis (now + max_age)) in *.
    split; cbn [selective_sampling_trace_map nextOutdatedEntriesScan_ with_traces]; [done|lia|].
    intros c' d [[<- <-]|[_ H]]%lookup_insert_Some; [left; lia|]. destruct (H3 c' d H); lia.
  - rewrite step_stop. destruct Hok as [H1 H2 H3].
    split; cbn [selective_sampling_trace_map nextOutdatedEntriesScan_ with_traces]; [|done|].
    + pose proof (map_subseteq_size _ _ (delete_subseteq (selective_sampling_trace_map p) c)). lia.
    + intros c' d [_ H]%lookup_delete_Some. eauto.
  - unfold trace_step. cbn [perform_trace_event]. destruct (check_spec now p) as (p' & -> & _ & _ & H). by apply (H t).
  - rewrite step_enable. destruct Hok as [H1 H2 H3].
    split; cbn [selective_sampling_trace_map nextOutdatedEntriesScan_ with_scan]; [done| |intros c d _; right; lia].
    unfold max_age, kSelectiveSamplingMaxAgeMinutes. lia.
Qed.

Lemma trace_steps_ok t p es :
  0 ≤ t → traces_ok t p → ordered t es → t ≤ last_time t es ∧ traces_ok (last_time t es) (foldl trace_step p es).
Proof.
  revert t p. induction es as [|e es IH]; intros t p H0 Hok Hes; [done|]. destruct Hes as [He Hes]. cbn [foldl last_time].
  destruct (IH (event_time t e) (trace_step p e)) as [H1 H2]; [lia|by apply trace_step_ok|done|]. split; [|done].
  unfold last_time in *. cbn [foldl]. lia.
Qed.

(** The events do not start or stop the trace. *)
Definition leaves (c : trace_context) (e : trace_event) : Prop :=
  match e with StartTrace c' _ | StopTrace c' => c' ≠ c | _ => True end.

(** What an event does to a trace it leaves: only a check gives it up, when it is due. *)
Lemma trace_step_other c p e :
  leaves c e →
  selective_sampling_trace_map (trace_step p e) !! c = selective_sampling_trace_map p !! c ∨
  selective_sampling_trace_map (trace_step p e) !! c = None ∧ ∃ now d, e = CheckTraces now ∧ selective_sampling_trace_map p !! c = Some d ∧ d * 1000000 ≤ now.
Proof.
  intros Hl. destruct e as [c' now|c'|now|now]; cbn [leaves] in *.
  - left. rewrite step_start. case_decide; [done|]. cbn. by rewrite lookup_insert_ne.
  - left. rewrite step_stop. cbn. by rewrite lookup_delete_ne.
  - unfold trace_step. cbn [perform_trace_event]. destruct (check_spec now p) as (p' & -> & _ & H & _). cbn [snd].
    destruct (selective_sampling_trace_map p' !! c) as [d|] eqn:E; [left; symmetry; by apply H|].
    destruct (selective_sampling_trace_map p !! c) as [d|] eqn:E'; [|by left]. right. split; [done|]. exists now, d.
    split; [done|]. split; [done|]. destruct (decide (d * 1000000 ≤ now)) as [|Hd]; [done|].
    assert (Hc : selective_sampling_trace_map p' !! c = Some d) by (apply H; split; [done|lia]). congruence.
  - by left.
Qed.

(** A check after the deadline has given the trace up. *)
Lemma trace_checked t p c d now :
  traces_ok t p → t ≤ now → selective_sampling_trace_map p !! c = Some d → d * 1000000 + 1000000 ≤ now →
  selective_sampling_trace_map (trace_step p (CheckTraces now)) !! c = None.
Proof.
  intros Hok Ht Hc Hnow. unfold trace_step. cbn [perform_trace_event]. destruct (check_spec now p) as (p' & -> & _ & H & Hlate). cbn [snd].
  destruct (selective_sampling_trace_map p' !! c) as [d'|] eqn:E; [|done].
  destruct (Hlate t Hok Ht) as [_ Hd']. specialize (Hd' c d' E). apply H in E as [E _]. rewrite Hc in E. injection E as <-. lia.
Qed.

Lemma ordered_events_app t es1 es2 : ordered t (es1 ++ es2) ↔ ordered t es1 ∧ ordered (last_time t es1) es2.
Proof.
  revert t. induction es1 as [|e es1 IH]; intros t; [unfold last_time; cbn; tauto|]. cbn [app ordered]. rewrite IH. unfold last_time. cbn [foldl]. tauto.
Qed.

(** Not yet due: it stays. *)
Lemma trace_stays c d es p :
  Forall (leaves c) es → selective_sampling_trace_map p !! c = Some d →
  Forall (λ e, match e with CheckTraces now => now < d * 1000000 | _ => True end) es →
  selective_sampling_trace_map (foldl trace_step p es) !! c = Some d.
Proof.
  revert p. induction es as [|e es IH]; intros p Hl Hc Hd; [done|]. apply Forall_cons in Hl as [Hl1 Hl], Hd as [Hd1 Hd]. cbn [foldl].
  apply IH; [done| |done]. destruct (trace_step_other c p e Hl1) as [->|(_ & now & d' & -> & Hc' & Hdue)]; [done|].
  rewrite Hc in Hc'. injection Hc' as <-. lia.
Qed.

Lemma trace_gone c es p :
  Forall (leaves c) es → selective_sampling_trace_map p !! c = None → selective_sampling_trace_map (foldl trace_step p es) !! c = None.
Proof.
  revert p. induction es as [|e es IH]; intros p Hl Hc; [done|]. apply Forall_cons in Hl as [Hl1 Hl]. cbn [foldl].
  apply IH; [done|]. by destruct (trace_step_other c p e Hl1) as [->|[-> _]].
Qed.

(** Given up at the latest by a check after the deadline. *)
Lemma trace_given_up c d es t p now :
  0 ≤ t → traces_ok t p → ordered t es → Forall (leaves c) es → CheckTraces now ∈ es → d * 1000000 + 1000000 ≤ now →
  (selective_sampling_trace_map p !! c = None ∨ selective_sampling_trace_map p !! c = Some d) →
  selective_sampling_trace_map (foldl trace_step p es) !! c = None.
Proof.
  revert t p. induction es as [|e es IH]; intros t p H0 Hok Hes Hl Hin Hnow Hc; [by apply elem_of_nil in Hin|].
  destruct Hes as [He Hes]. apply Forall_cons in Hl as [Hl1 Hl]. cbn [foldl].
  assert (Hok' := trace_step_ok t p e H0 Hok He).
  destruct (decide (e = CheckTraces now)) as [->|Hne].
  - apply trace_gone; [done|]. destruct Hc as [Hc|Hc]; [|by eapply trace_checked].
    by destruct (trace_step_other c p (CheckTraces now) Hl1) as [->|[-> _]].
  - apply elem_of_cons in Hin as [<-|Hin]; [done|]. eapply (IH (event_time t e)); [lia|done|done|done|done|done|].
    destruct (trace_step_other c p e Hl1) as [->|[-> _]]; [done|by left].
Qed.

(** ** Property *)

(** C32: in every execution in which the clock does not go backwards there are at most 50 selected
    traces; a start is refused exactly when there are 50 already; and a trace that was accepted and
    is neither stopped nor started again is still selected as long as no check comes later than a
    millisecond before its fifteen minutes are over, and is given up by the first check that comes
    a millisecond after them, at whatever times checks come, traces start and stop and frequent
    sampling is enabled again.  A check reports whether any trace is left. *)
Theorem selected_traces_lifetime es1 c s es2 n m :
  ordered 0 (es1 ++ StartTrace c s :: es2) → Forall (leaves c) es2 →
  let p1 := foldl trace_step (Profiler_sized n m) es1 in
  Z.of_nat (size (selective_sampling_trace_map p1)) ≤ 50 ∧
  (perform_trace_event (StartTrace c s) p1).1 = Ret (bool_decide (Z.of_nat (size (selective_sampling_trace_map p1)) < 50)) ∧
  (perform_trace_event (CheckTraces s) p1).1 = Ret (negb (bool_decide (selective_sampling_trace_map (trace_step p1 (CheckTraces s)) = ∅))) ∧
  (Z.of_nat (size (selective_sampling_trace_map p1)) < 50 →
    let p2 := foldl trace_step p1 (StartTrace c s :: es2) in
    (Forall (λ e, match e with CheckTraces now => now + 1000000 ≤ s + max_age | _ => True end) es2 →
      is_Some (selective_sampling_trace_map p2 !! c)) ∧
    (∀ now, CheckTraces now ∈ es2 → s + max_age + 1000000 ≤ now → selective_sampling_trace_map p2 !! c = None)).
Proof.
  intros [Hes1 [Hs Hes2]]%ordered_events_app Hl p1. cbn [event_time] in *.
  assert (Hinit : traces_ok 0 (Profiler_sized n m)) by (split; cbn; [by rewrite map_size_empty|unfold max_age, kSelectiveSamplingMaxAgeMinutes; lia|done]).
  destruct (trace_steps_ok 0 _ es1 ltac:(lia) Hinit Hes1) as [Ht Hok]. fold p1 in Hok. set (t := last_time 0 es1) in *.
  pose proof (traces_size t p1 Hok) as Hsize. unfold kSelectiveSamplingMaxTraces in Hsize. split_and!.
  - done.
  - cbn [perform_trace_event]. unfold TryAddSelectiveSamplingTrace. run_by done. unfold kSelectiveSamplingMaxTraces.
    case_decide; [by rewrite bool_decide_eq_false_2 by lia|by rewrite bool_decide_eq_true_2 by lia].
  - unfold trace_step. cbn [perform_trace_event]. by destruct (check_spec s p1) as (p' & -> & _).
  - intros Hroom. pose proof (to_millis_range (s + max_age)) as Hd. cbn [foldl].
    assert (Hok' := trace_step_ok t p1 (StartTrace c s) Ht Hok Hs). cbn [event_time] in Hok'.
    specialize (Hd ltac:(unfold max_age, kSelectiveSamplingMaxAgeMinutes; lia)).
    assert (Hc : selective_sampling_trace_map (trace_step p1 (StartTrace c s)) !! c = Some (to_millis (s + max_age))).
    { rewrite step_start. unfold kSelectiveSamplingMaxTraces. rewrite decide_False by lia. cbn. by rewrite lookup_insert_eq. }
    split.
    + intros Hchecks. eexists. eapply trace_stays; [done|exact Hc|]. eapply Forall_impl; [exact Hchecks|].
      intros [| |now|]; [done|done|lia|done].
    + intros now Hin Hnow. eapply (trace_given_up c _ es2 s); [lia|exact Hok'|done|done|exact Hin| |right; exact Hc]. lia.
Qed.

Definition trace_1 : trace_context := {| trace_id_high_ := 1; trace_id_low_ := 1 |}.

(** A trace started after ten seconds, looked at after a minute and after sixteen minutes. *)
Lemma selected_traces_lifetime_witness :
  let start := [StartTrace trace_1 10000000000; CheckTraces 60000000000] in
  is_Some (selective_sampling_trace_map (foldl trace_step (Profiler_sized 1 1) start) !! trace_1) ∧
  selective_sampling_trace_map (foldl trace_step (Profiler_sized 1 1) (start ++ [CheckTraces 960000000000])) !! trace_1 = None.
Proof.
  split.
  - refine (proj1 (proj2 (proj2 (proj2 (selected_traces_lifetime [] trace_1 10000000000 [CheckTraces 60000000000] 1 1 _ _))) _) _).
    + cbn. lia.
    + repeat constructor.
    + reflexivity.
    + repeat constructor. unfold max_age, kSelectiveSamplingMaxAgeMinutes. lia.
  - refine (proj2 (proj2 (proj2 (proj2 (selected_traces_lifetime [] trace_1 10000000000 [CheckTraces 60000000000; CheckTraces 960000000000] 1 1 _ _))) _) 960000000000 _ _).
    + cbn. lia.
    + repeat constructor.
    + reflexivity.
    + apply elem_of_cons. right. by left.
    + unfold max_age, kSelectiveSamplingMaxAgeMinutes. lia.
Defined.
