(* ===== verification/SamplingCycle.v ===== *)
(** * One cycle of the sampling worker (CaptureSamples of continuous_profiler.cpp)

    A cycle samples all threads, or the threads whose span belongs to a selected trace: it decides
    whether there is anything to do, has the stacks captured, names their frames, writes a batch
    and publishes it.  What happens around it (the answers of the shutdown token and of the gate,
    the clocks, the threads of the runtime and the frames the stack walker delivers) is a
    [cycle_input].  The locks of the profiler are held throughout.

    The main results: a cycle never gets stuck and keeps the profiler consistent, whatever the
    walker delivers and the allocator refuses; a batch is published exactly when nothing stands
    against it; and a reader recovers from the batch of all threads, for every thread of which a
    frame was recorded, its name, its span context, whether its trace is selected, and the names of
    its frames: recorded ones in the order of the stack, the first 32 of them in any case when the
    allocator gives what it is asked for. *)

From S2P Require Import Prelude TypeNames SamplesBuffer SampleQueues NameCache NamingHelper ThreadStacks StackFrames AllocationSubSampler.
From S2P Require Import ProfilerState SelectedTraces.

Inductive SamplingType := Continuous | SelectedThreads.
#[export] Instance SamplingType_eq_dec : EqDecision SamplingType.
Proof. solve_decision. Defined.

Record CapturedFrame := {
  frame_functionId : Z;
  frame_instructionPointer : Z;
  frame_threadId : Z;
  frame_isUnmanagedFrame : bool;
}.

Definition S_OK : Z := 0.
Definition S_FALSE : Z := 1.
Definition E_FAIL : Z := s32 0x80004005.

Record cycle_input := {
  prepare_now : Z; (* steady clock, in nanoseconds *)
  locked_shutdown : bool;
  enumerated : list Z; (* EnumThreads *)
  capture_shutdown : bool;
  has_walker : bool;
  walked : list (CapturedFrame * bool * bool); (* the frames delivered, and what the token says before and after each *)
  walk_result : Z; (* of CaptureStacks *)
  walk_catches : bool; (* exceptions of the callback end in E_FAIL, or pass through *)
  walked_shutdown : bool;
  suspended_micros : Z;
  publish_shutdown : bool;
  batch_time : Z;
  sample_times : Z → Z; (* when the sample of a selected thread is written *)
  published_shutdown : bool;
  publish_admission : bool;
}.

Section Cycle.
(** The runtime and the metadata, the allocator of ThreadStacks, and the order in which a map of
    stacks is visited. *)
Context (GetFunctionInfo2 : Z → option (Z * Z)).
Context (GetModuleMetaData : Z → option IMetaDataImport2) (type_fuel : nat) (stackWalker_ : option (Z → option (list Z))).
Context (reserve : nat → Z → option Z) (emplace : nat → bool).
Context (visit : gmap Z vector → list (Z * vector)).

(** ** Capturing *)

Definition FunctionIdentifier_Native (ip : Z) : FunctionIdentifier :=
  {| function_token := 0; module_id := 0; is_valid := true; native_ip := ip |}.

Definition frameProcessor (frame : CapturedFrame) (before after : bool) : P Z :=
  if before then mret S_FALSE
  else
    buffer ← on_stacks (TryPrepareFrame reserve (frame_threadId frame));
    match buffer with
    | None => mret S_OK
    | Some t =>
        (if decide (frame_isUnmanagedFrame frame = true ∧ frame_functionId frame = 0 ∧ frame_instructionPointer frame ≠ 0) then
           p ← get;
           update (with_stats (count_frame (stats_ p)));;
           on_stacks (push_frame t (FunctionIdentifier_Native (frame_instructionPointer frame)))
         else RecordManagedFrame GetFunctionInfo2 (frame_functionId frame) (λ f, on_stacks (push_frame t f)));;
        mret (if after then S_FALSE else S_OK)
    end.

(** The walker delivers frames until the callback does not return S_OK. *)
Fixpoint walk_frames (fs : list (CapturedFrame * bool * bool)) : P unit :=
  match fs with
  | [] => mret tt
  | (frame, before, after) :: fs =>
      hr ← frameProcessor frame before after;
      if decide (hr = S_OK) then walk_frames fs else mret tt
  end.

(** What is caught is replaced by a result. *)
Definition catch {A} (a : A) (m : P A) : P A := λ p, match m p with (Err _, p') => (Ret a, p') | r => r end.

Definition CaptureStacks (i : cycle_input) : P Z :=
  let walk := walk_frames (walked i);; mret (walk_result i) in
  if walk_catches i then catch E_FAIL walk else walk.

Definition CaptureFunctionIdentifiersForThreads (i : cycle_input) (selectedThreads : list Z) : P bool :=
  clear_identifiers;;
  if capture_shutdown i then on_stacks ThreadStacks_Clear;; mret false
  else
    on_stacks (PrepareForCapture reserve emplace selectedThreads);;
    if has_walker i then
      captureResult ← CaptureStacks i;
      if decide (captureResult = S_FALSE ∨ walked_shutdown i = true) then on_stacks ThreadStacks_Clear;; mret false
      else mret true
    else mret true.

(** ** Writing a batch *)

Definition is_selected (p : Profiler) (c : thread_span_context) : bool :=
  bool_decide (is_Some (selective_sampling_trace_map p !! trace_context_ c)).

Abbreviation resolve := (ResolveFrames GetModuleMetaData type_fuel stackWalker_).

(** The samples of all threads. *)
Fixpoint write_samples (selectiveSamplingEnabled : bool) (threadStacks : list (Z * vector)) (writer : ThreadSamplesBuffer) : P ThreadSamplesBuffer :=
  match threadStacks with
  | [] => mret writer
  | (threadId, threadStack) :: threadStacks =>
      if decide (frames threadStack = []) then write_samples selectiveSamplingEnabled threadStacks writer
      else
        p ← get;
        let spanContext := context_of p threadId in
        let writer := StartSample (name_of_thread p threadId) spanContext writer in
        let writer := if selectiveSamplingEnabled then MarkSelectedForFrequentSampling (is_selected p spanContext) writer else writer in
        writer ← resolve (frames threadStack) writer;
        write_samples selectiveSamplingEnabled threadStacks (EndSample writer)
  end.

(** cur_cpu_writer_ is the argument, and gone afterwards. *)
Definition PublishBuffer (i : cycle_input) (samplingInterval : Z) (cur_cpu_writer_ : ThreadSamplesBuffer) : P unit :=
  p ← get;
  (if negb (publish_admission i) || published_shutdown i || IsOverflowed cur_cpu_writer_ then mret tt
   else update (with_cpu_buffers (ThreadSamplingRecordProducedThreadSample (buffer_ cur_cpu_writer_) samplingInterval (cpu_buffers p))));;
  update (with_stats no_statistics).

Definition ResolveSymbolsAndPublishBufferForAllThreads (i : cycle_input) (threadStacks : gmap Z vector)
    (selectiveSamplingEnabled : bool) (samplingInterval : Z) : P unit :=
  writer ← write_samples selectiveSamplingEnabled (visit threadStacks) (StartBatch (batch_time i) (ThreadSamplesBuffer_init (Some [])));
  let writer := EndBatch writer in
  p ← get;
  PublishBuffer i samplingInterval (WriteFinalStats (stats_ p) writer).

Fixpoint write_selected_samples (i : cycle_input) (threadStacks : list (Z * vector)) (localBuf : ThreadSamplesBuffer) : P ThreadSamplesBuffer :=
  match threadStacks with
  | [] => mret localBuf
  | (threadId, threadStack) :: threadStacks =>
      if decide (frames threadStack = []) then write_selected_samples i threadStacks localBuf
      else
        p ← get;
        let localBuf := StartSampleForSelectedThread (sample_times i threadId) (name_of_thread p threadId) (context_of p threadId) localBuf in
        localBuf ← resolve (frames threadStack) localBuf;
        write_selected_samples i threadStacks (EndSample localBuf)
  end.

Definition ResolveSymbolsAndPublishBufferForSelectedThreads (i : cycle_input) (threadStacks : gmap Z vector) : P unit :=
  localBuf ← write_selected_samples i (visit threadStacks) (StartSelectedThreadsBatch (ThreadSamplesBuffer_init (Some [])));
  let localBuf := EndSelectedThreadsBatch localBuf in
  if published_shutdown i || IsOverflowed localBuf then mret tt
  else if negb (publish_admission i) then mret tt
  else
    p ← get;
    let localBytes := default [] (buffer_ localBuf) in
    b ← lift (SelectiveSamplingRecordProducedThreadSample (s32 (Z.of_nat (length localBytes))) (Some localBytes) (selective_buffer p));
    update (with_selective_buffer b).

(** ** The cycle *)

(** The threads whose span belongs to a selected trace. *)
Definition selected_threads (p : Profiler) : list Z :=
  (filter (λ e, is_selected p e.2 = true) (map_to_list (thread_span_context_map p))).*1.

Definition set_micros (micros : Z) (stats : SamplingStatistics) : SamplingStatistics :=
  {| micros_suspended := micros; num_threads := num_threads stats; total_frames := total_frames stats;
     name_cache_misses := name_cache_misses stats |}.
Definition set_threads (n : Z) (stats : SamplingStatistics) : SamplingStatistics :=
  {| micros_suspended := micros_suspended stats; num_threads := n; total_frames := total_frames stats;
     name_cache_misses := name_cache_misses stats |}.

Definition nonEmptyCount (threadStacks : gmap Z vector) : Z :=
  Z.of_nat (length (filter (λ e, frames e.2 ≠ []) (visit threadStacks))).

(** What is left to do after the checks: the threads to capture, if any. *)
Definition threads_to_sample (i : cycle_input) (samplingType : SamplingType) (p : Profiler) : option (list Z) :=
  match samplingType with
  | SelectedThreads =>
      if decide (selective_sampling_trace_map p = ∅) then None
      else if decide (selected_threads p = []) then None
      else Some (selected_threads p)
  | Continuous =>
      if ThreadSamplingShouldProduceThreadSample (cpu_buffers p) then Some (remove_dups (enumerated i)) else None
  end.

Definition CaptureSamples (i : cycle_input) (samplingType : SamplingType) (selectiveSamplingEnabled : bool) (cpuSamplingInterval : Z) : P unit :=
  proceed ← (match samplingType with
             | SelectedThreads => TryPrepareSelectedThreadSampling (prepare_now i)
             | Continuous => mret true
             end);
  if negb proceed then mret tt
  else if locked_shutdown i then mret tt
  else
  p ← get;
  match threads_to_sample i samplingType p with
  | None => mret tt
  | Some threads =>
      update (with_stats no_statistics);;
      captured ← catch true (CaptureFunctionIdentifiersForThreads i threads);
      if negb captured then mret tt
      else
      p ← get;
      update (with_stats (set_micros (suspended_micros i) (stats_ p)));;
      p ← get;
      let threadStacks := stacks_ (threadStacksBuffer p) in
      if decide (nonEmptyCount threadStacks = 0) then mret tt
      else
      update (with_stats (set_threads (nonEmptyCount threadStacks) (stats_ p)));;
      if publish_shutdown i then on_stacks ThreadStacks_Clear
      else
      match samplingType with
      | Continuous => ResolveSymbolsAndPublishBufferForAllThreads i threadStacks selectiveSamplingEnabled cpuSamplingInterval
      | SelectedThreads => ResolveSymbolsAndPublishBufferForSelectedThreads i threadStacks
      end
  end.

(** ** Specification: the frames recorded *)

(** The function a frame stands for. *)
Definition frame_function (f : CapturedFrame) : FunctionIdentifier :=
  if decide (frame_isUnmanagedFrame f = true ∧ frame_functionId f = 0 ∧ frame_instructionPointer f ≠ 0)
  then FunctionIdentifier_Native (frame_instructionPointer f)
  else ResolveManagedFunctionIdentifier GetFunctionInfo2 (frame_functionId f).

(** The frames delivered until one is told of the shutdown, and those of a thread. *)
Fixpoint seen_frames (fs : list (CapturedFrame * bool * bool)) : list CapturedFrame :=
  match fs with (f, false, _) :: fs => f :: seen_frames fs | _ => [] end.
Definition functions_of (t : Z) (fs : list (CapturedFrame * bool * bool)) : list FunctionIdentifier :=
  frame_function <$> filter (λ f, frame_threadId f = t) (seen_frames fs).

Definition uncancelled (fs : list (CapturedFrame * bool * bool)) : Prop := Forall (λ e, e.1.2 = false ∧ e.2 = false) fs.

Context (name_of : FunctionIdentifier → list Z).
Context (Hreserve : ∀ k n c, reserve k n = Some c → n ≤ c).

Abbreviation helper_ok := (helper_ok GetFunctionInfo2 name_of).
Abbreviation profiler_ok := (profiler_ok GetFunctionInfo2 name_of).

(** Only the naming helper, the statistics and the captured stacks have changed. *)
Definition changed (p p' : Profiler) : Prop :=
  ∃ h s b, p' = with_helper h (with_stats s (with_stacks b p)) ∧ helper_ok h ∧ stacks_ok b.

Lemma changed_refl p : helper_ok (helper p) → stacks_ok (threadStacksBuffer p) → changed p p.
Proof. intros H1 H2. exists (helper p), (stats_ p), (threadStacksBuffer p). split; [by destruct p|done]. Qed.

Lemma changed_trans p1 p2 p3 : changed p1 p2 → changed p2 p3 → changed p1 p3.
Proof. intros (h & s & b & -> & _) (h' & s' & b' & -> & H). by exists h', s', b'. Qed.

Lemma changed_helper p p' : changed p p' → helper_ok (helper p').
Proof. by intros (h & s & b & -> & ? & ?). Qed.

Lemma changed_stacks p p' : changed p p' → stacks_ok (threadStacksBuffer p').
Proof. by intros (h & s & b & -> & ? & ?). Qed.

Lemma changed_ok p p' : profiler_ok p → changed p p' → profiler_ok p'.
Proof. intros [] (h & s & b & -> & ? & ?). by split. Qed.

Lemma kept_changed p p' : kept GetFunctionInfo2 name_of p p' → stacks_ok (threadStacksBuffer p) → changed p p' ∧ threadStacksBuffer p' = threadStacksBuffer p.
Proof. intros (h & s & -> & Hh) Hok. split; [|done]. exists h, s, (threadStacksBuffer p). split; [by destruct p|done]. Qed.

Lemma on_stacks_wp {A} (m : stM ThreadStacksBuffer unit A) p (Q : A → Profiler → Prop) (X : unit → Profiler → Prop) :
  wp m (threadStacksBuffer p) (λ a b, Q a (with_stacks b p)) (λ e b, X e (with_stacks b p)) → wp (on_stacks m) p Q X.
Proof. unfold wp, on_stacks. by destruct (m (threadStacksBuffer p)) as [[a|e| |] b]. Qed.

Lemma changed_with_stacks p b : helper_ok (helper p) → stacks_ok b → changed p (with_stacks b p).
Proof. intros Hh Hb. exists (helper p), (stats_ p), b. by destruct p. Qed.

(** The allocator gives what it is asked for. *)
Definition exact_reserve : Prop := ∀ k n, reserve k n = Some n.

(** One frame: it is recorded, or there was no room for it. *)
Definition frame_step (t : Z) (f : FunctionIdentifier) (b b' : ThreadStacksBuffer) : Prop :=
  recorded t f b b' ∨ grown b b' ∧ ¬ has_room b t.

Lemma grown_recorded t f b b1 b2 : grown b b1 → recorded t f b1 b2 → recorded t f b b2.
Proof.
  intros [_ Hf Hc] [H1 H2 H3 H4]. split; [done|by rewrite H2, Hf|intros t' Ht; by rewrite H3, Hf|].
  intros t'. specialize (Hc t'). specialize (H4 t'). lia.
Qed.

Lemma push_wp t f p (Q : unit → Profiler → Prop) X :
  stacks_ok (threadStacksBuffer p) → has_room (threadStacksBuffer p) t →
  (∀ b, recorded t f (threadStacksBuffer p) b → Q tt (with_stacks b p)) → wp (on_stacks (push_frame t f)) p Q X.
Proof.
  intros Hok Hroom HQ. apply on_stacks_wp. destruct (push_frames _ t f Hok Hroom) as (b & Hrun & Hb).
  eapply wp_run; [exact Hrun|]. by apply HQ.
Qed.

Lemma frameProcessor_wp f before after p :
  helper_ok (helper p) → stacks_ok (threadStacksBuffer p) →
  wp (frameProcessor f before after) p
    (λ hr p', changed p p' ∧
      if before then hr = S_FALSE ∧ p' = p
      else (hr = S_OK ∨ after = true) ∧
        frame_step (frame_threadId f) (frame_function f) (threadStacksBuffer p) (threadStacksBuffer p'))
    (λ _ p', changed p p' ∧ grown (threadStacksBuffer p) (threadStacksBuffer p') ∧ ¬ exact_reserve).
Proof.
  intros Hh Hok. unfold frameProcessor. destruct before; [eapply wp_run; [done|]; split; [by apply changed_refl|done]|].
  apply wp_bind, on_stacks_wp. eapply wp_mono; [by apply wp_nothrow, (TryPrepare_frames reserve Hreserve _ (frame_threadId f))| |].
  2: { intros [] b [Hg Hx]. split; [apply changed_with_stacks; [done|apply Hg]|]. split; [done|]. intros He. by apply Hx, TryPrepare_nothrow. }
  intros r b1 [Hg [[-> Hno]|[-> Hroom]]].
  { eapply wp_run; [done|]. split; [apply changed_with_stacks; [done|apply Hg]|]. split; [by left|]. right. done. }
  assert (Hdone : ∀ p', kept GetFunctionInfo2 name_of (with_stacks b1 p) p' → ∀ b2, recorded (frame_threadId f) (frame_function f) b1 b2 →
    wp (mret (if after then S_FALSE else S_OK) : P Z) (with_stacks b2 p')
      (λ hr p', changed p p' ∧ (hr = S_OK ∨ after = true) ∧
        frame_step (frame_threadId f) (frame_function f) (threadStacksBuffer p) (threadStacksBuffer p'))
      (λ _ p', changed p p' ∧ grown (threadStacksBuffer p) (threadStacksBuffer p') ∧ ¬ exact_reserve)).
  { intros p' (h & s & -> & Hh') b2 Hb2. eapply wp_run; [done|]. split; [exists h, s, b2; split; [by destruct p|split; [done|apply Hb2]]|].
    split; [destruct after; auto|]. left. by eapply grown_recorded. }
  apply wp_bind. unfold frame_function in *. destruct (decide (frame_isUnmanagedFrame f = true ∧ _)).
  - unfold update. wp_step (done). wp_step (done). apply push_wp; [apply Hg|done|]. intros b2 Hb2.
    apply (Hdone (with_stats (count_frame (stats_ (with_stacks b1 p))) (with_stacks b1 p))); [|done].
    exists (helper p), (count_frame (stats_ p)). split; [by destruct p|done].
  - apply (RecordManagedFrame_wp _ name_of); [done|]. intros p' Hk. destruct (kept_changed _ _ Hk (grown_ok _ _ Hg)) as [_ Hs].
    apply push_wp; rewrite ?Hs; [apply Hg|done|]. intros b2 Hb2. by apply Hdone.
Qed.

(** What a walk adds to the stack of a thread. *)
Record walk_step (fs : list (CapturedFrame * bool * bool)) (b b' : ThreadStacksBuffer) (complete : Prop) : Prop := {
  walk_frames_at : ∀ t, ∃ gs, frames_at b' t = frames_at b t ++ gs ∧ gs `sublist_of` functions_of t fs ∧
    (complete → uncancelled fs → take (Z.to_nat (capacity_at b t) - length (frames_at b t)) (functions_of t fs) `prefix_of` gs);
}.

Lemma functions_of_cons f after fs t :
  functions_of t ((f, false, after) :: fs) =
  if decide (frame_threadId f = t) then frame_function f :: functions_of t fs else functions_of t fs.
Proof. unfold functions_of. cbn [seen_frames]. rewrite filter_cons. by case_decide. Qed.

Lemma take_prefix_mono {A} n m (l k : list A) : (n ≤ m)%nat → take m l `prefix_of` k → take n l `prefix_of` k.
Proof. intros Hn Hp. etransitivity; [|exact Hp]. rewrite <-(take_drop n (take m l)), take_take, Nat.min_l by lia. by eexists. Qed.

Lemma walk_step_nil b complete : walk_step [] b b complete.
Proof. split. intros t. exists []. rewrite app_nil_r. split; [done|]. split; [done|]. intros _ _. unfold functions_of. cbn. by rewrite take_nil. Qed.

Lemma walk_step_stop fs b b' (complete : Prop) :
  (∀ t, frames_at b' t = frames_at b t) → (complete → ¬ uncancelled fs) → walk_step fs b b' complete.
Proof.
  intros H Hc. split. intros t. exists []. rewrite app_nil_r, H. split; [done|]. split; [apply sublist_nil_l|]. intros H1 H2. by destruct (Hc H1).
Qed.

(** One frame, then the rest. *)
Lemma walk_step_cons f after fs b b1 b2 (complete : Prop) :
  frame_step (frame_threadId f) (frame_function f) b b1 → walk_step fs b1 b2 complete →
  walk_step ((f, false, after) :: fs) b b2 complete.
Proof.
  intros Hf [Hw]. split. intros t. destruct (Hw t) as (gs & Hgs & Hsub & Hpre). rewrite functions_of_cons.
  assert (Hcap : capacity_at b t ≤ capacity_at b1 t) by (destruct Hf as [[_ _ _ H]|[[_ _ H] _]]; apply H).
  assert (Hun : uncancelled ((f, false, after) :: fs) → uncancelled fs) by (by intros [_ ?]%Forall_cons).
  destruct (decide (frame_threadId f = t)) as [<-|Hne].
  - destruct Hf as [[_ Hfr _ _]|[[_ Hfr _] Hno]].
    + exists (frame_function f :: gs). rewrite Hgs, Hfr, <-app_assoc. split; [done|]. split; [by apply sublist_skip|].
      intros Hc Hu. specialize (Hpre Hc (Hun Hu)). rewrite Hfr, length_app in Hpre. cbn [length] in Hpre.
      destruct (Z.to_nat (capacity_at b _) - _)%nat as [|n] eqn:En; cbn [take]; [apply prefix_nil|]. apply prefix_cons. eapply take_prefix_mono; [|exact Hpre]. lia.
    + exists gs. rewrite Hgs, Hfr. split; [done|]. split; [by apply sublist_cons|]. intros _ _.
      unfold has_room in Hno. replace (Z.to_nat (capacity_at b _) - _)%nat with 0%nat by lia. apply prefix_nil.
  - assert (Hfr : frames_at b1 t = frames_at b t) by (destruct Hf as [[_ _ H _]|[[_ H _] _]]; [by apply H|apply H]).
    exists gs. rewrite Hgs, Hfr in *. split; [done|]. split; [done|]. intros Hc Hu. eapply take_prefix_mono; [|by apply Hpre; [|apply Hun]]. lia.
Qed.

(** One frame, after which the walk is cancelled. *)
Lemma walk_step_cancelled f fs b b1 (complete : Prop) :
  frame_step (frame_threadId f) (frame_function f) b b1 → walk_step ((f, false, true) :: fs) b b1 complete.
Proof.
  intros Hf. destruct (walk_step_cons f true fs b b1 b1 False Hf) as [Hw].
  { by apply walk_step_stop. }
  split. intros t. destruct (Hw t) as (gs & H1 & H2 & _). exists gs. split; [done|]. split; [done|]. by intros _ [[_ Ha] _]%Forall_cons.
Qed.

Lemma walk_frames_wp fs p :
  helper_ok (helper p) → stacks_ok (threadStacksBuffer p) →
  let done_with _ p' := changed p p' ∧ walk_step fs (threadStacksBuffer p) (threadStacksBuffer p') exact_reserve in
  wp (walk_frames fs) p done_with (λ _ p', done_with tt p' ∧ ¬ exact_reserve).
Proof.
  revert p. induction fs as [|[[f before] after] fs IH]; intros p Hh Hok done_with; cbn [walk_frames].
  { eapply wp_run; [done|]. split; [by apply changed_refl|apply walk_step_nil]. }
  apply wp_bind. eapply wp_mono; [by apply (frameProcessor_wp f before after p)| |].
  - intros hr p1 [Hc Hr]. destruct before.
    { destruct Hr as [-> ->]. eapply wp_run; [done|]. split; [done|]. apply walk_step_stop; [done|]. by intros _ [[Hb _] _]%Forall_cons. }
    destruct Hr as [Hhr Hf]. case_decide as Hs.
    + eapply wp_mono; [apply (IH p1); [by eapply changed_helper|by eapply changed_stacks]| |].
      * intros [] p2 [Hc2 Hw]. split; [by eapply changed_trans|]. by eapply walk_step_cons.
      * intros [] p2 [[Hc2 Hw] Hx]. split; [|done]. split; [by eapply changed_trans|]. by eapply walk_step_cons.
    + eapply wp_run; [done|]. split; [done|]. destruct Hhr as [-> | ->]; [done|]. eapply walk_step_cancelled, Hf.
  - intros [] p1 (Hc & Hg & Hx). split; [|done]. split; [done|]. apply walk_step_stop; [apply Hg|done].
Qed.

(** ** Specification: a capture *)

(** What the stacks hold after a capture of [threads] that began with [b]. *)
Record captured_stacks (i : cycle_input) (threads : list Z) (b b' : ThreadStacksBuffer) : Prop := {
  captured_frames : ∀ t, frames_at b' t `sublist_of` functions_of t (walked i);
  captured_first : exact_reserve → (∀ k, emplace k = true) → has_walker i = true → uncancelled (walked i) →
    NoDup threads → Z.of_nat (length threads) ≤ 1024 →
    ∀ t, t ∈ threads → capacity_at b t = 0 ∨ 32 ≤ capacity_at b t → take 32 (functions_of t (walked i)) `prefix_of` frames_at b' t;
}.

Lemma wp_when {S E A} (m : stM S E A) s Q X (H : Prop) Q' X' :
  wp m s Q X → (H → wp m s Q' X') → wp m s (λ a s', Q a s' ∧ (H → Q' a s')) (λ e s', X e s' ∧ (H → X' e s')).
Proof. unfold wp. destruct (m s) as [[a|e| |] s1]; auto. Qed.

Lemma CaptureStacks_wp i p :
  helper_ok (helper p) → stacks_ok (threadStacksBuffer p) →
  let done_with _ p' := changed p p' ∧ walk_step (walked i) (threadStacksBuffer p) (threadStacksBuffer p') exact_reserve in
  wp (CaptureStacks i) p (λ hr p', done_with hr p' ∧ (hr = S_FALSE → walk_result i = S_FALSE)) (λ e p', done_with S_OK p' ∧ ¬ exact_reserve).
Proof.
  intros Hh Hok done_with. unfold CaptureStacks.
  assert (Hw : wp (walk_frames (walked i);; mret (walk_result i) : P Z) p
    (λ hr p', done_with hr p' ∧ hr = walk_result i) (λ e p', done_with S_OK p' ∧ ¬ exact_reserve)).
  { apply wp_bind. eapply wp_mono; [by apply walk_frames_wp| |done]. intros [] p' H. by eapply wp_run. }
  destruct (walk_catches i).
  - unfold wp, catch in *. destruct ((walk_frames _;; _) p) as [[hr|e| |] p']; [|split; [apply Hw|done]|done|done].
    destruct Hw as [Hw ->]. by split.
  - eapply wp_mono; [exact Hw| |done]. intros hr p' [Hp ->]. by split.
Qed.

Lemma captured_idle i threads b b' :
  idle b' →
  (exact_reserve → (∀ k, emplace k = true) → has_walker i = true → NoDup threads → Z.of_nat (length threads) ≤ 1024 → False) →
  captured_stacks i threads b b'.
Proof. intros Hi Hx. split; [intros t; rewrite Hi; apply sublist_nil_l|]. intros H1 H2 H3 _ H4 H5. by destruct Hx. Qed.

(** Frames walked after a preparation. *)
Lemma captured_walk i threads b b1 b2 :
  idle b1 → walk_step (walked i) b1 b2 exact_reserve →
  (exact_reserve → (∀ k, emplace k = true) → NoDup threads → Z.of_nat (length threads) ≤ 1024 →
    ∀ t, t ∈ threads → capacity_at b t = 0 ∨ 32 ≤ capacity_at b t → 32 ≤ capacity_at b1 t) →
  captured_stacks i threads b b2.
Proof.
  intros Hi [Hw] Hroom. split.
  - intros t. destruct (Hw t) as (gs & -> & Hs & _). by rewrite Hi.
  - intros He Hem _ Hu Hnd Hn t Ht Hc. destruct (Hw t) as (gs & -> & _ & Hp). specialize (Hp He Hu). rewrite Hi in *. cbn [length app] in *.
    specialize (Hroom He Hem Hnd Hn t Ht Hc). eapply take_prefix_mono; [|exact Hp]. lia.
Qed.

Definition cancelled_capture (i : cycle_input) : Prop :=
  capture_shutdown i = true ∨ has_walker i = true ∧ (walk_result i = S_FALSE ∨ walked_shutdown i = true).

Lemma CaptureFunctionIdentifiers_wp i threads p :
  helper_ok (helper p) → stacks_ok (threadStacksBuffer p) → idle (threadStacksBuffer p) →
  let captured p' := captured_stacks i threads (threadStacksBuffer p) (threadStacksBuffer p') in
  wp (CaptureFunctionIdentifiersForThreads i threads) p
    (λ r p', changed p p' ∧ (if r then captured p' else cancelled_capture i))
    (λ _ p', changed p p' ∧ captured p').
Proof.
  intros Hh Hok Hidle captured. unfold CaptureFunctionIdentifiersForThreads.
  apply wp_bind. apply (clear_identifiers_wp GetFunctionInfo2 name_of); [done|]. intros p1 Hk. destruct (kept_changed _ _ Hk Hok) as [Hc1 Hs1].
  assert (Hclear : ∀ p2, changed p p2 → cancelled_capture i →
    wp (on_stacks ThreadStacks_Clear;; mret false) p2 (λ r p', changed p p' ∧ (if r then captured p' else cancelled_capture i)) (λ _ p', changed p p' ∧ captured p')).
  { intros p2 Hc2 Hcan. wp_step (done). eapply wp_run; [done|]. split; [|done]. eapply changed_trans; [exact Hc2|].
    apply changed_with_stacks; [by eapply changed_helper|apply Clear_ok]. }
  destruct (capture_shutdown i) eqn:Ecs; [apply Hclear; [done|by left]|].
  apply wp_bind, on_stacks_wp. rewrite Hs1. eapply wp_mono.
  { eapply (wp_when _ _ _ _ (exact_reserve ∧ (∀ k, emplace k = true) ∧ NoDup threads ∧ Z.of_nat (length threads) ≤ 1024)).
    - by apply (Prepare_idle reserve emplace Hreserve).
    - intros (He & Hem & Hnd & Hn). by apply (Prepare_room reserve emplace). }
  2: { intros [] b [[Hb Hi] Hx]. split; [eapply changed_trans; [exact Hc1|]; apply changed_with_stacks; [by eapply changed_helper|done]|].
       apply captured_idle; [done|]. tauto. }
  intros [] b [[Hb Hi] Hroom]. set (p2 := with_stacks b p1).
  assert (Hc2 : changed p p2) by (eapply changed_trans; [exact Hc1|]; apply changed_with_stacks; [by eapply changed_helper|done]).
  assert (Hwalk : ∀ p', walk_step (walked i) b (threadStacksBuffer p') exact_reserve → captured p').
  { intros p' Hw. eapply captured_walk; [exact Hi|done|]. intros He Hem Hnd Hn. by apply Hroom. }
  destruct (has_walker i) eqn:Ew.
  - apply wp_bind. eapply wp_mono; [apply (CaptureStacks_wp i p2); [by eapply changed_helper|done]| |].
    + intros hr p3 [[Hc3 Hw] Hf]. assert (changed p p3) by by eapply changed_trans. case_decide as Hd.
      * apply Hclear; [done|]. right. tauto.
      * eapply wp_run; [done|]. split; [done|]. by apply Hwalk.
    + intros [] p3 [[Hc3 Hw] _]. split; [by eapply changed_trans|]. by apply Hwalk.
  - eapply wp_run; [done|]. split; [done|]. apply captured_idle; [done|]. congruence.
Qed.

(** ** Specification: a batch *)

(** The names of the frames can be determined. *)
Definition resolvable (fs : list FunctionIdentifier) : Prop :=
  ∀ f, f ∈ fs → resolve_name GetModuleMetaData type_fuel stackWalker_ f = Ret (name_of f).

(** What is reported of a thread. *)
Definition sample_of (p : Profiler) (e : Z * vector) : thread_sample :=
  {| ts_name := name_of_thread p e.1; ts_context := context_of p e.1;
     ts_selected := is_selected p (context_of p e.1); ts_frames := frames e.2 |}.

Lemma changed_sample p p' e : changed p p' → sample_of p' e = sample_of p e.
Proof. by intros (h & s & b & -> & _). Qed.

Lemma perform_all_app os1 os2 b : perform_all (os1 ++ os2) b = perform_all os2 (perform_all os1 b).
Proof. apply foldl_app. Qed.

Abbreviation no_throw := (λ (_ : unit) (_ : Profiler), False).

Lemma resolve_wp fs b p (Q : ThreadSamplesBuffer → Profiler → Prop) :
  helper_ok (helper p) → stacks_ok (threadStacksBuffer p) → resolvable fs →
  (∀ p', changed p p' → threadStacksBuffer p' = threadStacksBuffer p → Q (perform_all (SamplesBuffer.ResolveFrames name_of fs) b) p') →
  wp (resolve fs b) p Q no_throw.
Proof.
  intros Hh Hok Hres HQ. eapply wp_mono; [by apply (ResolveFrames_wp GetFunctionInfo2 _ _ _ name_of fs b p no_throw)| |done].
  intros b' p' [Hk ->]. destruct (kept_changed _ _ Hk Hok) as [Hc Hs]. by apply HQ.
Qed.

Lemma write_samples_wp marked l writer p :
  helper_ok (helper p) → stacks_ok (threadStacksBuffer p) → (∀ e, e ∈ l → resolvable (frames e.2)) →
  wp (write_samples marked l writer) p
    (λ b p', changed p p' ∧ threadStacksBuffer p' = threadStacksBuffer p ∧
      b = perform_all (concat (sample_operations name_of marked <$> (sample_of p <$> l))) writer) no_throw.
Proof.
  revert writer p. induction l as [|[t v] l IH]; intros writer p Hh Hok Hres; cbn [write_samples].
  { eapply wp_run; [done|]. split; [by apply changed_refl|done]. }
  rewrite !fmap_cons. cbn [concat]. rewrite perform_all_app. case_decide as Hf.
  { unfold sample_operations at 2. rewrite (decide_True (P := ts_frames _ = [])) by done. apply IH; [done|done|]. intros e He. apply Hres. by right. }
  unfold sample_operations at 2. rewrite (decide_False (P := ts_frames _ = [])) by done.
  wp_step (done). apply wp_bind. apply resolve_wp; [done|done|apply (Hres (t, v)); by left|]. intros p1 Hc1 Hs1.
  eapply wp_mono; [apply IH; [by eapply changed_helper|by eapply changed_stacks|intros e He; apply Hres; by right]| |done].
  intros b p2 (Hc2 & Hs2 & ->). split; [by eapply changed_trans|]. split; [by rewrite Hs2|].
  rewrite !perform_all_app. assert (E : sample_of p1 <$> l = sample_of p <$> l) by (apply list_fmap_ext; intros; by apply changed_sample).
  rewrite E. f_equal. by destruct marked.
Qed.

Lemma write_selected_samples_wp i l localBuf p :
  helper_ok (helper p) → stacks_ok (threadStacksBuffer p) → (∀ e, e ∈ l → resolvable (frames e.2)) →
  wp (write_selected_samples i l localBuf) p
    (λ b p', changed p p' ∧ threadStacksBuffer p' = threadStacksBuffer p ∧
      b = perform_all (concat (selected_sample_operations name_of <$> ((λ e, (sample_times i e.1, sample_of p e)) <$> l))) localBuf) no_throw.
Proof.
  revert localBuf p. induction l as [|[t v] l IH]; intros localBuf p Hh Hok Hres; cbn [write_selected_samples].
  { eapply wp_run; [done|]. split; [by apply changed_refl|done]. }
  rewrite !fmap_cons. cbn [concat]. rewrite perform_all_app. case_decide as Hf.
  { unfold selected_sample_operations at 2. rewrite (decide_True (P := ts_frames _ = [])) by done. apply IH; [done|done|]. intros e He. apply Hres. by right. }
  unfold selected_sample_operations at 2. rewrite (decide_False (P := ts_frames _ = [])) by done.
  wp_step (done). apply wp_bind. apply resolve_wp; [done|done|apply (Hres (t, v)); by left|]. intros p1 Hc1 Hs1.
  eapply wp_mono; [apply IH; [by eapply changed_helper|by eapply changed_stacks|intros e He; apply Hres; by right]| |done].
  intros b p2 (Hc2 & Hs2 & ->). split; [by eapply changed_trans|]. split; [by rewrite Hs2|].
  rewrite !perform_all_app. assert (E : ∀ e, sample_of p1 e = sample_of p e) by (intros; by apply changed_sample).
  f_equal. f_equal. f_equal. apply list_fmap_ext. intros _ e _. by rewrite E.
Qed.

(** The lookups of names leave the number of threads alone. *)
Definition threads_counted (n : Z) (p : Profiler) : Prop := num_threads (stats_ p) = n.

Lemma Lookup_num_threads f h stats name h' stats' :
  Lookup GetModuleMetaData type_fuel stackWalker_ f h stats = Ret (name, h', stats') → num_threads stats' = num_threads stats.
Proof.
  unfold Lookup. destruct (Get f (function_name_cache_ h)) as [[[v|] c]| | |]; cbn [mbind outcome_bind]; [by intros [= _ _ <-]| |done|done|done].
  destruct (resolve_name _ _ _ f) as [fresh| | |]; cbn [mbind outcome_bind]; [|done|done|done].
  destruct (Put _ _ _) as [evicted c']. destruct (delete_name _ _) as [heap| | |]; cbn [mbind outcome_bind]; [|done|done|done].
  by intros [= _ _ <-].
Qed.

Lemma keeps_lift_threads {A} n (o : outcome unit A) (R : A → Prop) : (∀ a, o = Ret a → R a) → keeps (threads_counted n) (lift o) R.
Proof. intros H p Hp. by split. Qed.

Lemma keeps_resolve n fs b : keeps (threads_counted n) (resolve fs b) (λ _, True).
Proof.
  revert b. induction fs as [|f fs IH]; intros b; cbn [ProfilerState.ResolveFrames]; [by apply keeps_ret|].
  eapply keeps_bind; [apply keeps_get|]. intros p Hp.
  eapply (keeps_bind _ _ _ (λ r : nat * NamingHelper * SamplingStatistics, num_threads r.2 = n)).
  { apply keeps_lift_threads. intros [[name h] stats] Hl%Lookup_num_threads. by rewrite <-Hp. }
  intros [[name h] stats] Hs. eapply keeps_bind; [by apply keeps_modify|]. intros _ _.
  eapply keeps_bind; [by apply keeps_modify|]. intros _ _.
  eapply (keeps_bind _ _ _ (λ _, True)); [by apply keeps_lift_threads|]. intros text _. apply IH.
Qed.

Lemma keeps_write_samples n marked l writer : keeps (threads_counted n) (write_samples marked l writer) (λ _, True).
Proof.
  revert writer. induction l as [|[t v] l IH]; intros writer; cbn [write_samples]; [by apply keeps_ret|]. case_decide; [apply IH|].
  eapply keeps_bind; [apply keeps_get|]. intros p _. eapply keeps_bind; [apply keeps_resolve|]. intros b _. apply IH.
Qed.

(** *** Publication *)

Definition fits (os : list operation) : Prop := Z.of_nat (length (format ∅ os)) ≤ 204800.
#[export] Instance fits_dec os : Decision (fits os).
Proof. unfold fits. apply _. Defined.

(** Nothing stands against the publication. *)
Definition publishable (i : cycle_input) : Prop := publish_admission i = true ∧ published_shutdown i = false.
#[export] Instance publishable_dec i : Decision (publishable i).
Proof. unfold publishable. apply _. Defined.

Lemma overflowed_fits os : IsOverflowed (perform_all os (ThreadSamplesBuffer_init (Some []))) = negb (bool_decide (fits os)).
Proof.
  destruct (performed os) as (bytes & _ & _ & _ & Ho & _). unfold fits. case_bool_decide as Hf; cbn.
  - destruct (IsOverflowed _); [|done]. destruct Ho as [Ho _]. specialize (Ho eq_refl). lia.
  - apply Ho. lia.
Qed.

Lemma fitting_bytes os : fits os → buffer_ (perform_all os (ThreadSamplesBuffer_init (Some []))) = Some (format ∅ os).
Proof.
  intros Hf. destruct (performed os) as (bytes & -> & _ & _ & _ & H). f_equal. apply H. rewrite overflowed_fits. by rewrite bool_decide_eq_true_2.
Qed.

(** The batch of all threads is handed to the reader, or dropped. *)
Definition cpu_published (i : cycle_input) (interval : Z) (os : list operation) (p p' : Profiler) : Prop :=
  ∃ p1, changed p p1 ∧ p' = with_cpu_buffers
    (if decide (publishable i ∧ fits os) then ThreadSamplingRecordProducedThreadSample (Some (format ∅ os)) interval (cpu_buffers p)
     else cpu_buffers p) p1.

Lemma PublishBuffer_spec i interval os p :
  helper_ok (helper p) → stacks_ok (threadStacksBuffer p) →
  ∃ p', PublishBuffer i interval (perform_all os (ThreadSamplesBuffer_init (Some []))) p = (Ret tt, p') ∧ cpu_published i interval os p p'.
Proof.
  intros Hh Hok. set (w := perform_all os _). set (c := negb (publish_admission i) || published_shutdown i || IsOverflowed w).
  set (q := if c then p else with_cpu_buffers (ThreadSamplingRecordProducedThreadSample (buffer_ w) interval (cpu_buffers p)) p).
  exists (with_stats no_statistics q). unfold PublishBuffer, update. split.
  { run_by done. fold c. unfold q. by destruct c. }
  exists (with_stats no_statistics p). split; [exists (helper p), no_statistics, (threadStacksBuffer p); by destruct p|].
  unfold q, c, w, publishable. rewrite overflowed_fits. case_decide as Hd.
  - destruct Hd as [[-> ->] Hf]. rewrite bool_decide_eq_true_2 by done. cbn [negb orb]. by rewrite fitting_bytes.
  - destruct (publish_admission i), (published_shutdown i); cbn [negb orb]; try by destruct p.
    rewrite bool_decide_eq_false_2 by tauto. by destruct p.
Qed.

Lemma wp_both {A} (m : P A) p Q (R : Profiler → Prop) T :
  wp m p Q no_throw → keeps R m T → R p → wp m p (λ a p', Q a p' ∧ R p') no_throw.
Proof. intros Hw Hk HR. eapply wp_mono; [by apply (wp_keeps R _ _ _ _ T Hw)| |].
  - by intros a p' (? & ? & _).
  - by intros a p' [[] _].
Qed.

Lemma all_threads_wp i stacks marked interval p :
  helper_ok (helper p) → stacks_ok (threadStacksBuffer p) → (∀ e, e ∈ visit stacks → resolvable (frames e.2)) →
  wp (ResolveSymbolsAndPublishBufferForAllThreads i stacks marked interval) p
    (λ _ p', ∃ stats, num_threads stats = num_threads (stats_ p) ∧
      cpu_published i interval (all_threads_operations name_of (batch_time i) marked (sample_of p <$> visit stacks) stats) p p') no_throw.
Proof.
  intros Hh Hok Hres. unfold ResolveSymbolsAndPublishBufferForAllThreads. apply wp_bind.
  eapply wp_mono.
  { eapply (wp_both _ _ _ (threads_counted (num_threads (stats_ p)))); [by apply write_samples_wp|apply keeps_write_samples|done]. }
  2: done.
  intros writer p1 [(Hc & Hs & ->) Hn]. wp_step (done).
  set (os := concat _). set (init := ThreadSamplesBuffer_init (Some [])).
  change (StartBatch (batch_time i) init) with (perform_all [OStartBatch (batch_time i)] init).
  change (WriteFinalStats (stats_ p1) (EndBatch ?w)) with (perform_all [OEndBatch; OWriteFinalStats (stats_ p1)] w).
  rewrite <-!perform_all_app.
  destruct (PublishBuffer_spec i interval (all_threads_operations name_of (batch_time i) marked (sample_of p <$> visit stacks) (stats_ p1)) p1)
    as (p2 & Hrun & p3 & Hc3 & ->); [by eapply changed_helper|by eapply changed_stacks|].
  eapply wp_run; [exact Hrun|]. exists (stats_ p1). split; [done|]. exists p3. split; [by eapply changed_trans|].
  by destruct Hc as (h & s & b & -> & _).
Qed.

(** The batch of selected threads is handed to the reader, or dropped. *)
Definition selective_published (i : cycle_input) (os : list operation) (p p' : Profiler) : Prop :=
  ∃ p1 b, changed p p1 ∧ p' = with_selective_buffer b p1 ∧
    (if decide (publishable i ∧ fits os) then append (format ∅ os) (selective_buffer p) = Ret b else b = selective_buffer p).

Lemma selected_threads_wp i stacks p :
  helper_ok (helper p) → stacks_ok (threadStacksBuffer p) → channel_ok (selective_buffer p) →
  (∀ e, e ∈ visit stacks → resolvable (frames e.2)) →
  wp (ResolveSymbolsAndPublishBufferForSelectedThreads i stacks) p
    (λ _ p', selective_published i (selected_threads_operations name_of ((λ e, (sample_times i e.1, sample_of p e)) <$> visit stacks)) p p') no_throw.
Proof.
  intros Hh Hok Hch Hres. unfold ResolveSymbolsAndPublishBufferForSelectedThreads. apply wp_bind.
  eapply wp_mono; [by apply write_selected_samples_wp| |done]. intros localBuf p1 (Hc & Hs & ->).
  set (timed := _ <$> visit stacks). set (init := ThreadSamplesBuffer_init (Some [])).
  change (StartSelectedThreadsBatch init) with (perform_all [OStartSelectedThreadsBatch] init). cbv zeta.
  change (EndSelectedThreadsBatch ?w) with (perform_all [OEndSelectedThreadsBatch] w). rewrite <-!perform_all_app.
  change ([OStartSelectedThreadsBatch] ++ _ ++ [OEndSelectedThreadsBatch]) with (selected_threads_operations name_of timed).
  set (os := selected_threads_operations name_of timed). rewrite overflowed_fits.
  assert (Hnone : ¬ (publishable i ∧ fits os) → wp (mret tt : P unit) p1 (λ _ p', selective_published i os p p') no_throw).
  { intros Hd. eapply wp_run; [done|]. exists p1, (selective_buffer p1). split; [done|]. split; [by destruct p1|].
    rewrite decide_False by done. by destruct Hc as (h & s & b & -> & _). }
  destruct (published_shutdown i) eqn:Es; [apply Hnone; unfold publishable; by intros [[_ ?] _]; congruence|]. cbn [orb].
  case_bool_decide as Hf; cbn [negb]; [|apply Hnone; tauto].
  destruct (publish_admission i) eqn:Ea; cbn [negb]; [|apply Hnone; unfold publishable; by intros [[? _] _]; congruence].
  wp_step (done). rewrite fitting_bytes by done. cbn [default].
  change (id (format ∅ os)) with (format ∅ os). rewrite sgn_small by (unfold fits in Hf; lia).
  assert (Hsel : selective_buffer p1 = selective_buffer p) by (by destruct Hc as (h & s & b & -> & _)). rewrite Hsel.
  destruct (append_spec (selective_buffer p) (format ∅ os) Hch) as (b & Hb & _). apply wp_bind. eapply wp_lift; [exact Hb|].
  unfold update. eapply wp_run; [done|]. exists p1, b. split; [done|]. split; [done|]. rewrite decide_True by (unfold publishable; auto). done.
Qed.

(** ** Specification: the cycle *)

(** The threads with frames. *)
Definition nonempty (b : ThreadStacksBuffer) : list (Z * vector) := filter (λ e, frames e.2 ≠ []) (visit (stacks_ b)).

Definition published (i : cycle_input) (samplingType : SamplingType) (marked : bool) (interval : Z) (p : Profiler) (b : ThreadStacksBuffer) (p' : Profiler) : Prop :=
  match samplingType with
  | Continuous => ∃ stats, num_threads stats = Z.of_nat (length (nonempty b)) ∧
      cpu_published i interval (all_threads_operations name_of (batch_time i) marked (sample_of p <$> visit (stacks_ b)) stats) p p'
  | SelectedThreads =>
      selective_published i (selected_threads_operations name_of ((λ e, (sample_times i e.1, sample_of p e)) <$> visit (stacks_ b))) p p'
  end.

Definition sampled (i : cycle_input) (samplingType : SamplingType) (marked : bool) (interval : Z) (threads : list Z) (p p' : Profiler) : Prop :=
  changed p p' ∧ cancelled_capture i ∨
  ∃ b, captured_stacks i threads (threadStacksBuffer p) b ∧
    if decide (publish_shutdown i = true ∨ nonempty b = []) then changed p p' else published i samplingType marked interval p b p'.

Lemma changed_published i ty marked interval p p1 b p' :
  changed p p1 → published i ty marked interval p1 b p' → published i ty marked interval p b p'.
Proof.
  intros Hc. assert (Es : ∀ e, sample_of p1 e = sample_of p e) by (intros; by apply changed_sample).
  assert (Eb : cpu_buffers p1 = cpu_buffers p ∧ selective_buffer p1 = selective_buffer p) by (by destruct Hc as (h & s & b' & -> & _)).
  destruct Eb as [Eb1 Eb2]. destruct ty; cbn [published].
  - intros (stats & Hn & p2 & Hc2 & ->). exists stats. split; [done|].
    assert (E : sample_of p1 <$> visit (stacks_ b) = sample_of p <$> visit (stacks_ b)) by (apply list_fmap_ext; intros; apply Es).
    rewrite E, Eb1. exists p2. split; [by eapply changed_trans|done].
  - intros (p2 & b2 & Hc2 & -> & H). exists p2, b2. split; [by eapply changed_trans|]. split; [done|].
    assert (E : ((λ e, (sample_times i e.1, sample_of p1 e)) <$> visit (stacks_ b)) = ((λ e, (sample_times i e.1, sample_of p e)) <$> visit (stacks_ b)))
      by (apply list_fmap_ext; intros _ e _; by rewrite Es).
    by rewrite E, Eb2 in H.
Qed.

Definition walked_functions (i : cycle_input) : list FunctionIdentifier := frame_function <$> (walked i).*1.*1.

Lemma functions_of_walked t i f : f ∈ functions_of t (walked i) → f ∈ walked_functions i.
Proof.
  unfold functions_of, walked_functions. intros (g & -> & [_ Hg]%list_elem_of_filter)%list_elem_of_fmap. apply list_elem_of_fmap_2.
  induction (walked i) as [|[[g' []] a] fs IH]; cbn [seen_frames] in Hg; [by apply elem_of_nil in Hg|by apply elem_of_nil in Hg|].
  apply elem_of_cons in Hg as [->|Hg]; [by left|]. right. by apply IH.
Qed.

Context (Hvisit : ∀ m, visit m ≡ₚ map_to_list m).

Lemma visited b e : e ∈ visit (stacks_ b) → frames e.2 = frames_at b e.1.
Proof. rewrite Hvisit. destruct e as [t v]. intros H%elem_of_map_to_list. unfold frames_at. cbn. by rewrite H. Qed.

Lemma captured_resolvable i threads b b' :
  captured_stacks i threads b b' → resolvable (walked_functions i) → ∀ e, e ∈ visit (stacks_ b') → resolvable (frames e.2).
Proof.
  intros [Hf _] Hres e He f Hin. rewrite (visited _ _ He) in Hin. apply Hres, (functions_of_walked e.1).
  eapply elem_of_submseteq; [exact Hin|]. by apply sublist_submseteq.
Qed.

(** What follows the checks. *)
Definition sample_threads (i : cycle_input) (samplingType : SamplingType) (marked : bool) (interval : Z) (threads : list Z) : P unit :=
  update (with_stats no_statistics);;
  captured ← catch true (CaptureFunctionIdentifiersForThreads i threads);
  if negb captured then mret tt
  else
  p ← get;
  update (with_stats (set_micros (suspended_micros i) (stats_ p)));;
  p ← get;
  let threadStacks := stacks_ (threadStacksBuffer p) in
  if decide (nonEmptyCount threadStacks = 0) then mret tt
  else
  update (with_stats (set_threads (nonEmptyCount threadStacks) (stats_ p)));;
  if publish_shutdown i then on_stacks ThreadStacks_Clear
  else
  match samplingType with
  | Continuous => ResolveSymbolsAndPublishBufferForAllThreads i threadStacks marked interval
  | SelectedThreads => ResolveSymbolsAndPublishBufferForSelectedThreads i threadStacks
  end.

Lemma changed_with_stats p p1 s : changed p p1 → changed p (with_stats s p1).
Proof. intros (h & s' & b & -> & H). by exists h, s, b. Qed.

Lemma sample_threads_wp i ty marked interval threads p :
  helper_ok (helper p) → stacks_ok (threadStacksBuffer p) → idle (threadStacksBuffer p) → channel_ok (selective_buffer p) →
  resolvable (walked_functions i) →
  wp (sample_threads i ty marked interval threads) p (λ _ p', sampled i ty marked interval threads p p') no_throw.
Proof.
  intros Hh Hok Hidle Hch Hres. unfold sample_threads, update. wp_step (done). set (p0 := with_stats _ p).
  assert (Hc0 : changed p p0) by by apply changed_with_stats, changed_refl.
  apply wp_bind. eapply (wp_mono _ _ (λ (r : bool) p', changed p p' ∧
    if r then captured_stacks i threads (threadStacksBuffer p) (threadStacksBuffer p') else cancelled_capture i) _ no_throw).
  { pose proof (CaptureFunctionIdentifiers_wp i threads p0 Hh Hok Hidle) as Hw. unfold wp, catch in *.
    destruct (CaptureFunctionIdentifiersForThreads i threads p0) as [[r|e| |] p1]; [..|done|done];
      destruct Hw as [Hc Hw]; (split; [exact (changed_trans _ _ _ Hc0 Hc)|exact Hw]). }
  2: done.
  intros [] p1 [Hc1 Hcap]; cbn [negb]; [|eapply wp_run; [done|]; by left].
  wp_step (done). wp_step (done). wp_step (done). set (b := threadStacksBuffer p1) in *.
  assert (Hres' : ∀ e, e ∈ visit (stacks_ b) → resolvable (frames e.2)) by by eapply captured_resolvable.
  assert (Hcount : nonEmptyCount (stacks_ b) = Z.of_nat (length (nonempty b))) by done.
  set (p2 := with_stats _ p1). assert (Hc2 : changed p p2) by by apply changed_with_stats.
  cbv zeta. change (threadStacksBuffer p2) with b. rewrite Hcount. case_decide as Hz.
  { eapply wp_run; [done|]. right. exists b. split; [done|]. rewrite decide_True; [done|]. right. apply length_zero_iff_nil. lia. }
  wp_step (done). set (p3 := with_stats _ p2). assert (Hc3 : changed p p3) by by apply changed_with_stats.
  assert (Hne : nonempty b ≠ []) by (intros E; rewrite E in Hz; done).
  destruct (publish_shutdown i) eqn:Eps.
  { eapply wp_run; [done|]. right. exists b. split; [done|]. rewrite decide_True by (by left). eapply changed_trans; [exact Hc3|].
    apply changed_with_stacks; [by eapply changed_helper|apply Clear_ok]. }
  assert (Hfin : ∀ p', published i ty marked interval p3 b p' → sampled i ty marked interval threads p p').
  { intros p' Hp. right. exists b. split; [done|]. rewrite decide_False by (intros [?|?]; congruence). by eapply changed_published. }
  destruct ty.
  - eapply wp_mono; [apply all_threads_wp; [by eapply changed_helper|by eapply changed_stacks|exact Hres']| |done].
    intros [] p' H. by apply Hfin.
  - eapply wp_mono; [apply selected_threads_wp; [by eapply changed_helper|by eapply changed_stacks| |exact Hres']| |done].
    + by destruct Hc3 as (h & s & b3 & -> & _).
    + intros [] p' H. by apply Hfin.
Qed.

(** The check of the selected traces. *)
Definition prepare (i : cycle_input) (samplingType : SamplingType) : P bool :=
  match samplingType with SelectedThreads => TryPrepareSelectedThreadSampling (prepare_now i) | Continuous => mret true end.

(** What a cycle has done: nothing after the checks, or what was described above. *)
Definition cycle_done (i : cycle_input) (samplingType : SamplingType) (marked : bool) (interval : Z) (p p' : Profiler) : Prop :=
  ∃ proceed p0, prepare i samplingType p = (Ret proceed, p0) ∧
    if decide (proceed = true ∧ locked_shutdown i = false ∧ threads_to_sample i samplingType p0 ≠ None)
    then ∃ threads, threads_to_sample i samplingType p0 = Some threads ∧ sampled i samplingType marked interval threads p0 p'
    else p' = p0.

Lemma prepare_ok i ty p :
  profiler_ok p → ∃ proceed p0, prepare i ty p = (Ret proceed, p0) ∧ profiler_ok p0 ∧
    threadStacksBuffer p0 = threadStacksBuffer p ∧ cpu_buffers p0 = cpu_buffers p.
Proof.
  intros Hok. destruct ty; [by exists true, p|]. unfold prepare, TryPrepareSelectedThreadSampling.
  destruct (check_spec (prepare_now i) p) as (p0 & Hrun & (m & scan & ->) & Hm & _). eexists _, _. split.
  { run_by done. run_by (exact Hrun). reflexivity. }
  split; [|done]. destruct Hok. split; try done. cbn in *.
  assert (Hsub : m ⊆ selective_sampling_trace_map p) by (apply map_subseteq_spec; intros c d; rewrite Hm; tauto).
  pose proof (map_subseteq_size _ _ Hsub). lia.
Qed.

Lemma sampled_ok i ty marked interval threads p p' :
  profiler_ok p → sampled i ty marked interval threads p p' → profiler_ok p'.
Proof.
  intros Hok [[Hc _]|(b & _ & Hs)]; [by eapply changed_ok|]. case_decide; [by eapply changed_ok|].
  destruct ty; cbn [published] in Hs.
  - destruct Hs as (stats & _ & p1 & Hc & ->). destruct (changed_ok _ _ Hok Hc). split; try done.
    pose proof (ProfilerState.ok_cpu _ _ _ Hok). cbn. case_decide; [by apply record_enqueues|done].
  - destruct Hs as (p1 & b1 & Hc & -> & Hb). destruct (changed_ok _ _ Hok Hc). split; try done.
    pose proof (ProfilerState.ok_selective _ _ _ Hok) as Hch. cbn. case_decide; [|by rewrite Hb].
    destruct (append_spec (selective_buffer p) (format ∅ (selected_threads_operations name_of
      ((λ e, (sample_times i e.1, sample_of p e)) <$> visit (stacks_ b)))) Hch) as (b2 & Hb2 & Hok2 & _). rewrite Hb in Hb2. by injection Hb2 as ->.
Qed.

Lemma CaptureSamples_spec i ty marked interval p :
  profiler_ok p → idle (threadStacksBuffer p) → resolvable (walked_functions i) →
  ∃ p', CaptureSamples i ty marked interval p = (Ret tt, p') ∧ profiler_ok p' ∧ cycle_done i ty marked interval p p'.
Proof.
  intros Hok Hidle Hres. destruct (prepare_ok i ty p Hok) as (proceed & p0 & Hrun & Hok0 & Hs0 & _).
  assert (Hnone : ¬ (proceed = true ∧ locked_shutdown i = false ∧ threads_to_sample i ty p0 ≠ None) → cycle_done i ty marked interval p p0).
  { intros Hd. exists proceed, p0. by rewrite decide_False. }
  enough (Hrest : ∃ p', CaptureSamples i ty marked interval p = (Ret tt, p') ∧ (p' = p0 ∨ profiler_ok p') ∧ cycle_done i ty marked interval p p').
  { destruct Hrest as (p' & H1 & [-> | H2] & H3); by eexists. }
  unfold CaptureSamples. fold (prepare i ty). destruct proceed; cbn [negb].
  2: { exists p0. split; [by run_by (exact Hrun)|]. split; [by left|]. apply Hnone. naive_solver. }
  destruct (locked_shutdown i) eqn:El.
  { exists p0. split; [by run_by (exact Hrun)|]. split; [by left|]. apply Hnone. naive_solver. }
  destruct (threads_to_sample i ty p0) as [threads|] eqn:Et.
  2: { exists p0. split; [run_by (exact Hrun); cbn [negb]; run_by done; by rewrite Et|]. split; [by left|]. apply Hnone. naive_solver. }
  pose proof (sample_threads_wp i ty marked interval threads p0 (ok_helper _ _ _ Hok0) (ok_stacks _ _ _ Hok0)) as Hw.
  rewrite Hs0 in Hw. specialize (Hw Hidle (ok_selective _ _ _ Hok0) Hres). unfold wp in Hw.
  destruct (sample_threads i ty marked interval threads p0) as [[[]|e| |] p'] eqn:Erun; [|done|done|done].
  exists p'. split; [|split].
  - run_by (exact Hrun). cbn [negb]. run_by done. rewrite Et. exact Erun.
  - right. by eapply sampled_ok.
  - exists true, p0. split; [done|]. rewrite decide_True by (by rewrite Et). by exists threads.
Qed.

Lemma reset_spec p : profiler_ok p → ∃ p', on_stacks Reset p = (Ret tt, p') ∧ profiler_ok p' ∧ idle (threadStacksBuffer p').
Proof.
  intros Hok. destruct (Reset_idle (threadStacksBuffer p)) as (b & Hrun & Hi). exists (with_stacks b p). unfold on_stacks. rewrite Hrun.
  split; [done|]. split; [|done]. pose proof (Reset_safe (threadStacksBuffer p) (ok_stacks _ _ _ Hok)) as Hs. unfold wp in Hs. rewrite Hrun in Hs.
  destruct Hok. by split.
Qed.

(** A cycle and the reset after it. *)
Lemma cycle_and_reset i ty marked interval p :
  profiler_ok p → idle (threadStacksBuffer p) → resolvable (walked_functions i) →
  ∃ p' p'', CaptureSamples i ty marked interval p = (Ret tt, p') ∧ on_stacks Reset p' = (Ret tt, p'') ∧
    profiler_ok p' ∧ cycle_done i ty marked interval p p' ∧ profiler_ok p'' ∧ idle (threadStacksBuffer p'').
Proof.
  intros Hok Hidle Hres. destruct (CaptureSamples_spec i ty marked interval p Hok Hidle Hres) as (p' & H1 & H2 & H3).
  destruct (reset_spec p' H2) as (p'' & H4 & H5 & H6). exists p', p''. auto 10.
Qed.

(** ** What a reader learns *)

(** Nothing stands against a cycle. *)
Record unobstructed (i : cycle_input) : Prop := {
  no_locked_shutdown : locked_shutdown i = false;
  no_capture_shutdown : capture_shutdown i = false;
  walker_present : has_walker i = true;
  walk_uncancelled : uncancelled (walked i);
  walk_completed : walk_result i ≠ S_FALSE;
  no_walked_shutdown : walked_shutdown i = false;
  no_publish_shutdown : publish_shutdown i = false;
  publication : publishable i;
}.

Lemma remove_dups_elements (l : list Z) t : t ∈ remove_dups l ↔ t ∈ l.
Proof. apply elem_of_remove_dups. Qed.

(** A reader can decode the bytes. *)
Definition decodable (bytes : list Z) : Prop := ∃ marked now reports stats, read_batch marked bytes = Some (now, reports, stats).

(** What the reader gets of a thread whose stack is [fs]. *)
Definition thread_report (p : Profiler) (marked : bool) (fs : list FunctionIdentifier) (t : Z) :=
  (take kMaxStringLength (name_of_thread p t), context_of p t,
   if marked then Some (is_selected p (context_of p t)) else None, (λ f, take kMaxStringLength (name_of f)) <$> fs).

Lemma enqueued bytes interval s :
  slots_ok s → ThreadSamplingShouldProduceThreadSample s = true →
  queue_of (ThreadSamplingRecordProducedThreadSample (Some bytes) interval s) = queue_of s ++ [(bytes, interval)].
Proof.
  intros Hs Hp. destruct (record_enqueues bytes interval s Hs) as [_ ->]. unfold enqueue. rewrite decide_True; [done|].
  unfold ThreadSamplingShouldProduceThreadSample, queue_of in *. destruct s as [[[a|] ia] [[b|] ib]]; cbn in *; try lia; done.
Qed.

Lemma NoDup_keys_filter {V} (K : Z * V → Prop) `{∀ e, Decision (K e)} (l : list (Z * V)) : NoDup l.*1 → NoDup (filter K l).*1.
Proof.
  induction l as [|e l IH]; [done|]. rewrite fmap_cons. intros [Hn Hl]%NoDup_cons. rewrite filter_cons. case_decide; [|by apply IH].
  rewrite fmap_cons. apply NoDup_cons. split; [|by apply IH]. intros (e' & He & [_ Hin]%list_elem_of_filter)%list_elem_of_fmap.
  apply Hn. rewrite He. by apply list_elem_of_fmap_2.
Qed.

(** The threads with frames, each once. *)
Lemma nonempty_threads b : NoDup (nonempty b).*1 ∧ ∀ t, t ∈ (nonempty b).*1 ↔ frames_at b t ≠ [].
Proof.
  unfold nonempty. assert (Hp : filter (λ e : Z * vector, frames e.2 ≠ []) (visit (stacks_ b)) ≡ₚ filter (λ e, frames e.2 ≠ []) (map_to_list (stacks_ b)))
    by by rewrite Hvisit.
  split.
  - rewrite Hp. apply NoDup_keys_filter, NoDup_fst_map_to_list.
  - intros t. rewrite list_elem_of_fmap. setoid_rewrite list_elem_of_filter. unfold frames_at. split.
    + intros ([t' v] & -> & Hf & Hv). rewrite Hvisit in Hv. apply elem_of_map_to_list in Hv. cbn. by rewrite Hv.
    + destruct (stacks_ b !! t) as [v|] eqn:Hv; cbn; [|done]. intros Hf. exists (t, v). split; [done|].
      split; [done|]. rewrite Hvisit. by apply elem_of_map_to_list.
Qed.

Lemma read_published p marked now b stats :
  profiler_ok p → (∀ f, units (name_of f)) →
  read_batch marked (format ∅ (all_threads_operations name_of now marked (sample_of p <$> visit (stacks_ b)) stats)) =
  Some (u64 now, (λ t, thread_report p marked (frames_at b t) t) <$> (nonempty b).*1, int_statistics stats).
Proof.
  intros Hok Hu. rewrite read_batch_format; [|done|].
  2: { apply Forall_fmap, Forall_true. intros e. split; [by eapply name_of_thread_units|by eapply context_of_range]. }
  assert (Hsame : ∀ e, e ∈ visit (stacks_ b) → reported name_of marked (sample_of p e) = thread_report p marked (frames_at b e.1) e.1).
  { intros e He. unfold reported, thread_report, sample_of. cbn. by rewrite (visited _ _ He). }
  assert (Hl : reported name_of marked <$> filter (λ t, ts_frames t ≠ []) (sample_of p <$> visit (stacks_ b)) =
    (λ t, thread_report p marked (frames_at b t) t) <$> (nonempty b).*1); [|by rewrite Hl].
  unfold nonempty. revert Hsame. induction (visit (stacks_ b)) as [|e l IH]; intros Hsame; [done|]. rewrite fmap_cons.
  assert (IH' := IH (λ e' He', Hsame e' (list_elem_of_further _ _ _ He'))). destruct (decide (frames e.2 = [])) as [He|He].
  - rewrite !filter_cons_False by (cbn; tauto). exact IH'.
  - rewrite !filter_cons_True by (cbn; tauto). rewrite !fmap_cons, IH', Hsame by by left. done.
Qed.

(** What a cycle adds to the queue can be decoded. *)
Lemma cycle_batches i ty marked interval p p' :
  profiler_ok p → (∀ f, units (name_of f)) → cycle_done i ty marked interval p p' →
  ∀ b, b ∈ queue_of (cpu_buffers p') → b ∈ queue_of (cpu_buffers p) ∨ decodable b.1.
Proof.
  intros Hok Hu (proceed & p0 & Hrun & Hdone) b Hb.
  destruct (prepare_ok i ty p Hok) as (proceed' & p0' & Hrun' & Hok0 & _ & Hcpu). rewrite Hrun in Hrun'. injection Hrun' as <- <-.
  rewrite <-Hcpu. case_decide; [|subst; by left].
  assert (Hsame : ∀ p1, changed p0 p1 → cpu_buffers p1 = cpu_buffers p0) by (by intros p1 (h & s & b' & -> & _)).
  destruct Hdone as (threads & _ & [[Hc _]|(b' & _ & Hs)]); [rewrite (Hsame _ Hc) in Hb; by left|].
  case_decide; [rewrite (Hsame _ Hs) in Hb; by left|]. destruct ty; cbn [published] in Hs.
  - destruct Hs as (stats & _ & p1 & Hc & ->). cbn [cpu_buffers with_cpu_buffers] in Hb. case_decide; [|by left].
    destruct (record_enqueues (format ∅ (all_threads_operations name_of (batch_time i) marked (sample_of p0 <$> visit (stacks_ b')) stats))
      interval (cpu_buffers p0) (ProfilerState.ok_cpu _ _ _ Hok0)) as [_ E]. rewrite E in Hb. unfold enqueue in Hb.
    case_decide; [|by left]. apply elem_of_app in Hb as [Hb| ->%list_elem_of_singleton]; [by left|]. right.
    eexists _, _, _, _. by apply read_published.
  - destruct Hs as (p1 & b1 & Hc & -> & _). rewrite <-(Hsame _ Hc). by left.
Qed.

Lemma cycle_unobstructed i marked interval p p' :
  unobstructed i → ThreadSamplingShouldProduceThreadSample (cpu_buffers p) = true → cycle_done i Continuous marked interval p p' →
  ∃ b, captured_stacks i (remove_dups (enumerated i)) (threadStacksBuffer p) b ∧
    if decide (nonempty b = []) then changed p p' else published i Continuous marked interval p b p'.
Proof.
  intros [] Hprod (proceed & p0 & Hprep & Hdone). injection Hprep as <- <-. unfold threads_to_sample in Hdone.
  rewrite Hprod, decide_True in Hdone by done. destruct Hdone as (threads & [= <-] & [[_ Hcan]|(b & Hcap & Hb)]).
  { unfold cancelled_capture in Hcan. intuition congruence. }
  exists b. split; [done|]. destruct (decide (nonempty b = [])) as [Hd|Hd]; [rewrite decide_True in Hb by tauto; done|].
  by rewrite decide_False in Hb by (intros [?|?]; congruence).
Qed.

(** ** Properties *)

(** Whatever threads the runtime enumerates, frames the walker delivers, clocks and
    cancellations a cycle meets, and whichever requests for storage are refused, a cycle of either
    type returns and leaves the profiler consistent, so that no read of a name, stack or node that
    is gone occurs; what it publishes is a batch of the captured stacks, which hold frames
    delivered for their thread in their order, and it publishes nothing unless the checks, the
    capture and the size allow it; and the reset after it empties every stack. *)
Theorem sampling_cycle_safe i samplingType marked interval p :
  profiler_ok p → idle (threadStacksBuffer p) → resolvable (walked_functions i) →
  ∃ p' p'', CaptureSamples i samplingType marked interval p = (Ret tt, p') ∧ on_stacks Reset p' = (Ret tt, p'') ∧
    profiler_ok p' ∧ cycle_done i samplingType marked interval p p' ∧
    profiler_ok p'' ∧ idle (threadStacksBuffer p'').
Proof.
  apply cycle_and_reset.
Qed.

(** C8: a cycle over all threads that nothing stands against ends with a batch from which a reader
    recovers its time and, for exactly the threads of which a frame was recorded, once each, the
    name, the span context, whether the trace is selected, and the names of the recorded frames;
    these are frames the walker delivered for the thread, in order, and for up to 1024 threads at
    least the first 32 of each enumerated thread.  The batch is put at the end of the reader's
    queue unless it is empty or larger than 200 KiB. *)
Theorem sampling_cycle_reported i marked interval p :
  profiler_ok p → idle (threadStacksBuffer p) → resolvable (walked_functions i) → (∀ f, units (name_of f)) →
  unobstructed i → ThreadSamplingShouldProduceThreadSample (cpu_buffers p) = true →
  exact_reserve → (∀ k, emplace k = true) →
  Z.of_nat (length (remove_dups (enumerated i))) ≤ 1024 →
  (∀ t, capacity_at (threadStacksBuffer p) t = 0 ∨ 32 ≤ capacity_at (threadStacksBuffer p) t) →
  ∃ p' threads recorded bytes stats,
    CaptureSamples i Continuous marked interval p = (Ret tt, p') ∧
    NoDup threads ∧ (∀ t, t ∈ threads ↔ recorded t ≠ []) ∧
    (∀ t, recorded t `sublist_of` functions_of t (walked i)) ∧
    (∀ t, t ∈ enumerated i → take 32 (functions_of t (walked i)) `prefix_of` recorded t) ∧
    read_batch marked bytes = Some (u64 (batch_time i), (λ t, thread_report p marked (recorded t) t) <$> threads, stats) ∧
    queue_of (cpu_buffers p') = queue_of (cpu_buffers p) ++
      (if decide (threads ≠ [] ∧ Z.of_nat (length bytes) ≤ 204800) then [(bytes, interval)] else []) ∧
    (threads ≠ [] → num_threads stats = s32 (Z.of_nat (length threads))).
Proof.
  intros Hok Hidle Hres Hu Hun Hprod Hex Hem Hn Hcap.
  destruct (CaptureSamples_spec i Continuous marked interval p Hok Hidle Hres) as (p' & Hrun & _ & Hdone).
  destruct (cycle_unobstructed _ _ _ _ _ Hun Hprod Hdone) as (b & [Hsub Hfirst] & Hb). destruct (nonempty_threads b) as [Hnd Hth].
  assert (Hf : ∀ t, t ∈ enumerated i → take 32 (functions_of t (walked i)) `prefix_of` frames_at b t).
  { intros t Ht. apply Hfirst; try done; [by destruct Hun..|apply NoDup_remove_dups|by apply elem_of_remove_dups]. }
  set (bytes stats := format ∅ (all_threads_operations name_of (batch_time i) marked (sample_of p <$> visit (stacks_ b)) stats)).
  assert (Hempty : (nonempty b).*1 = [] ↔ nonempty b = []) by (by destruct (nonempty b)).
  destruct (decide (nonempty b = [])) as [Hne|Hne].
  - destruct Hb as (h & s & b' & -> & _).
    eexists _, (nonempty b).*1, (frames_at b), (bytes no_statistics), _. repeat (split; [done|]).
    split; [by apply read_published|]. rewrite decide_False by tauto. rewrite app_nil_r. split; [done|]. tauto.
  - destruct Hb as (stats & Hst & p1 & Hc & ->). eexists _, (nonempty b).*1, (frames_at b), (bytes stats), _. repeat (split; [done|]). split; [by apply read_published|]. split.
    + cbn [cpu_buffers with_cpu_buffers]. pose proof (publication i Hun) as Hp. fold (bytes stats). case_decide as Hfit.
      * rewrite decide_True by (split; [tauto|apply Hfit]). apply enqueued; [apply (ProfilerState.ok_cpu _ _ _ Hok)|done].
      * rewrite decide_False; [by rewrite app_nil_r|]. intros [_ H]. by apply Hfit.
    + intros _. unfold int_statistics. cbn. by rewrite Hst, length_fmap.
Qed.

End Cycle.

(** *** An example: two threads of a runtime that resolves no functions *)

Definition unresolved_name (f : FunctionIdentifier) : list Z :=
  if decide (is_valid f = false) then unknown_function_name else unknown_native_function_name.

Lemma unresolved_name_units f : units (unresolved_name f).
Proof. unfold unresolved_name. case_decide; apply (bool_decide_unpack _); vm_compute; exact I. Qed.

Definition two_threads : Profiler :=
  with_thread_states {[ 3 := Some [97; 98] ]}
    (with_contexts {[ 5 := {| trace_context_ := {| trace_id_high_ := 1; trace_id_low_ := 2 |}; span_id_ := 3 |} ]}
      (with_traces {[ {| trace_id_high_ := 1; trace_id_low_ := 2 |} := 900000 ]} (Profiler_sized 10 10))).

Lemma two_threads_ok : profiler_ok (λ _, None) unresolved_name two_threads.
Proof.
  destruct (Profiler_sized_ok (λ _, None) unresolved_name 10 10 ltac:(lia)) as [H1 H2 H3 H4 H5 H6 H7 H8 H9]. split; try done; cbn.
  - intros tid name [_ [= <-]]%lookup_singleton_Some. repeat (apply Forall_cons; split; [lia|]). by apply Forall_nil_2.
  - intros tid c [_ <-]%lookup_singleton_Some. unfold context_range. cbn. lia.
Qed.

Lemma two_threads_idle : idle (threadStacksBuffer two_threads).
Proof. intros t. unfold frames_at. cbn. by rewrite lookup_empty. Qed.

Definition frame_of (thread id ip : Z) (unmanaged : bool) : CapturedFrame * bool * bool :=
  ({| frame_functionId := id; frame_instructionPointer := ip; frame_threadId := thread; frame_isUnmanagedFrame := unmanaged |}, false, false).
Definition two_stacks : cycle_input := {|
  prepare_now := 0; locked_shutdown := false; enumerated := [3; 5; 7]; capture_shutdown := false; has_walker := true;
  walked := [frame_of 3 10 0 false; frame_of 3 0 4096 true; frame_of 5 11 0 false]; walk_result := 0; walk_catches := true;
  walked_shutdown := false; suspended_micros := 12; publish_shutdown := false; batch_time := 1000; sample_times := λ _, 1000;
  published_shutdown := false; publish_admission := true |}.

Lemma two_stacks_resolvable : resolvable (λ _, None) 0 None unresolved_name (walked_functions (λ _, None) two_stacks).
Proof. intros f Hf. repeat (apply elem_of_cons in Hf as [->|Hf]; [reflexivity|]). by apply elem_of_nil in Hf. Qed.

Definition granted (k : nat) (n : Z) : option Z := Some n.
Definition refused (k : nat) (n : Z) : option Z := None.

(** Every request for storage is refused. *)
Lemma sampling_cycle_safe_witness :
  ∃ p' p'', CaptureSamples (λ _, None) (λ _, None) 0 None refused (λ _, true) map_to_list two_stacks Continuous true 100 two_threads = (Ret tt, p') ∧
    on_stacks Reset p' = (Ret tt, p'') ∧ idle (threadStacksBuffer p'').
Proof.
  destruct (sampling_cycle_safe (λ _, None) (λ _, None) 0 None refused (λ _, true) map_to_list unresolved_name
    ltac:(discriminate) ltac:(done) two_stacks Continuous true 100 two_threads two_threads_ok two_threads_idle two_stacks_resolvable)
    as (p' & p'' & H1 & H2 & _ & _ & _ & H3).
  exists p', p''. split; [exact H1|]. split; [exact H2|exact H3].
Defined.

Lemma sampling_cycle_reported_witness :
  ∃ p' (threads : list Z) bytes stats,
    CaptureSamples (λ _, None) (λ _, None) 0 None granted (λ _, true) map_to_list two_stacks Continuous true 100 two_threads = (Ret tt, p') ∧
    3 ∈ threads ∧ 5 ∈ threads ∧ 7 ∉ threads ∧
    ∃ reports, read_batch true bytes = Some (1000, reports, stats) ∧
      ([97; 98], no_context, Some false, [unknown_function_name; unknown_native_function_name]) ∈ reports.
Proof.
  destruct (sampling_cycle_reported (λ _, None) (λ _, None) 0 None granted (λ _, true) map_to_list unresolved_name
    ltac:(intros k n c [= <-]; lia) ltac:(done) two_stacks true 100 two_threads two_threads_ok two_threads_idle two_stacks_resolvable
    unresolved_name_units) as (p' & threads & recorded & bytes & stats & H1 & _ & H2 & H3 & H4 & H5 & _).
  - split; try reflexivity; [|discriminate|split; reflexivity]. repeat (apply Forall_cons; split; [split; reflexivity|]). apply Forall_nil_2.
  - reflexivity.
  - intros k n. reflexivity.
  - reflexivity.
  - vm_compute. discriminate.
  - intros t. left. unfold capacity_at. cbn. by rewrite lookup_empty.
  - assert (Hall : ∀ t, t ∈ [3; 5; 7] → (length (functions_of (λ _, None) t (walked two_stacks)) ≤ 32)%nat → recorded t = functions_of (λ _, None) t (walked two_stacks)).
    { intros t Ht Hl. specialize (H4 t Ht). rewrite take_ge in H4 by done. destruct H4 as [l Hl']. specialize (H3 t). rewrite Hl' in H3.
      apply sublist_length in H3. rewrite length_app in H3. destruct l; [by rewrite app_nil_r in Hl'|cbn in H3; lia]. }
    assert (E3 : recorded 3 = [frame_function (λ _, None) (frame_of 3 10 0 false).1.1; frame_function (λ _, None) (frame_of 3 0 4096 true).1.1])
      by (apply Hall; [by left|vm_compute; lia]).
    assert (E5 : recorded 5 ≠ []) by (rewrite Hall; [discriminate|by right; left|vm_compute; lia]).
    assert (E7 : recorded 7 = []) by (apply Hall; [by right; right; left|vm_compute; lia]).
    assert (E3' : recorded 3 ≠ []) by (by rewrite E3).
    exists p', threads, bytes, stats. split; [exact H1|]. split; [by apply H2|]. split; [by apply H2|]. split; [rewrite H2; tauto|].
    eexists. split; [exact H5|]. apply list_elem_of_fmap. exists 3. split; [|by apply H2]. rewrite E3. vm_compute. reflexivity.
Defined.
