(* ===== verification/SamplingWorker.v ===== *)
(** * The sampling worker's schedule (continuous_profiler.h/.cpp)

    Between two cycles the worker waits on a condition variable, for the interval of its
    configuration, for a new configuration, or for the shutdown; and it decides whether the next
    cycle samples all threads or the selected ones.  What it finds each time it holds the lock of
    the configuration is an [observation]: a wait consumes them one after the other, spurious
    wake-ups included.  Intervals and iterations are unsigned 32-bit numbers.

    The main results: a wait ends when the interval of the current configuration has passed
    without a change, or with the shutdown, and not otherwise; and under one configuration that
    samples both, every n-th cycle and no other samples all threads, where n selective intervals
    make one interval of all threads. *)

From S2P Require Import Prelude SamplerLifecycle SamplesBuffer SampleQueues NamingHelper ResolvedNames ThreadStacks StackFrames ProfilerState SelectedTraces SamplingCycle.

(** ** The configuration *)

Definition CpuEnabled (c : ThreadSamplingConfiguration) : bool := bool_decide (cpuSamplingInterval c ≠ 0).
Definition SelectiveEnabled (c : ThreadSamplingConfiguration) : bool := bool_decide (selectiveSamplingInterval c ≠ 0).
Definition IsEnabled (c : ThreadSamplingConfiguration) : bool := CpuEnabled c || SelectiveEnabled c.
Definition BothEnabled (c : ThreadSamplingConfiguration) : bool := CpuEnabled c && SelectiveEnabled c.
Definition SchedulingIntervalMilliseconds (c : ThreadSamplingConfiguration) : Z :=
  if SelectiveEnabled c then selectiveSamplingInterval c else cpuSamplingInterval c.

Definition GetNextSamplingType (c : ThreadSamplingConfiguration) (iteration : Z) : SamplingType :=
  if negb (SelectiveEnabled c) then Continuous
  else if negb (CpuEnabled c) then SelectedThreads
  else
    let ratio := cpuSamplingInterval c / selectiveSamplingInterval c in
    if decide (iteration ≠ ratio) then SelectedThreads else Continuous.

Definition ShouldTrackIterations (c : ThreadSamplingConfiguration) : bool := BothEnabled c.

(** ** Waiting *)

Record observation := {
  shutdown : bool;
  desired : ThreadSamplingConfiguration;
  clock : Z;
  timed_out : bool; (* the interval has passed *)
}.

Definition shouldWake (c : ThreadSamplingConfiguration) (o : observation) : bool :=
  shutdown o || bool_decide (version c ≠ version (desired o)).

(** The waits of a condition variable; [None]: still waiting when the observations end.  The first
    observation is that of the caller. *)
Fixpoint cv_wait (c : ThreadSamplingConfiguration) (os : list observation) : option (list observation) :=
  match os with
  | [] => None
  | o :: rest => if shouldWake c o then Some os else cv_wait c rest
  end.

(** Whether the wait was interrupted, and the observations left. *)
Fixpoint cv_wait_for (c : ThreadSamplingConfiguration) (o : observation) (os : list observation) : option (bool * list observation) :=
  if shouldWake c o then Some (true, o :: os)
  else match os with
       | [] => None
       | o' :: rest => if timed_out o' then Some (shouldWake c o', os) else cv_wait_for c o' rest
       end.

(** Whether a cycle is due, its configuration and the observations left. *)
Fixpoint WaitForNextThreadSamplingCycle (fuel : nat) (configuration : ThreadSamplingConfiguration) (os : list observation) :
    P (option (bool * ThreadSamplingConfiguration * list observation)) :=
  match fuel, os with
  | O, _ => λ p, (Fuel, p)
  | S _, [] => mret None
  | S fuel, o :: rest =>
      if shutdown o then mret (Some (false, configuration, os))
      else
        configuration ←
          (if decide (version configuration ≠ version (desired o)) then
             let selectiveSamplingWasEnabled := SelectiveEnabled configuration in
             let configuration := desired o in
             (if negb selectiveSamplingWasEnabled && SelectiveEnabled configuration then update (with_scan (clock o)) else mret tt);;
             mret configuration
           else mret configuration);
        if negb (IsEnabled configuration) then
          match cv_wait configuration os with
          | None => mret None
          | Some os => WaitForNextThreadSamplingCycle fuel configuration os
          end
        else
          match cv_wait_for configuration o rest with
          | None => mret None
          | Some (interrupted, os) =>
              if negb interrupted : bool then mret (Some (true, configuration, os))
              else WaitForNextThreadSamplingCycle fuel configuration os
          end
  end.

(** ** The loop *)

(** The type of the next cycle and the iteration after it. *)
Definition next_cycle (previousConfigurationVersion : Z) (configuration : ThreadSamplingConfiguration) (iteration : Z) : SamplingType * Z :=
  let iteration := if decide (version configuration ≠ previousConfigurationVersion) then 0 else iteration in
  let iteration := if ShouldTrackIterations configuration then u32 (iteration + 1) else 0 in
  let samplingType := GetNextSamplingType configuration iteration in
  (samplingType, if bool_decide (samplingType = Continuous) && ShouldTrackIterations configuration then 0 else iteration).

(** What happens in one pass of the loop. *)
Record round := {
  token_before : bool;
  observations : list observation;
  cycle : cycle_input;
  token_after : bool;
}.

Section Loop.
Context (GetFunctionInfo2 : Z → option (Z * Z)).
Context (GetModuleMetaData : Z → option TypeNames.IMetaDataImport2) (type_fuel : nat) (stackWalker_ : option (Z → option (list Z))).
Context (reserve : nat → Z → option Z) (emplace : nat → bool).
Context (visit : gmap Z vector → list (Z * vector)).

Abbreviation CaptureSamples := (CaptureSamples GetFunctionInfo2 GetModuleMetaData type_fuel stackWalker_ reserve emplace visit).

(** The types of the cycles. *)
Fixpoint SamplingThreadMainCore (rounds : list round) (configuration : ThreadSamplingConfiguration) (iteration : Z) : P (list SamplingType) :=
  match rounds with
  | [] => mret []
  | r :: rounds =>
      if token_before r then mret []
      else
        let previousConfigurationVersion := version configuration in
        waited ← WaitForNextThreadSamplingCycle (S (length (observations r))) configuration (observations r);
        match waited with
        | Some (true, configuration, _) =>
            let '(samplingType, iteration) := next_cycle previousConfigurationVersion configuration iteration in
            CaptureSamples (cycle r) samplingType (SelectiveEnabled configuration) (cpuSamplingInterval configuration);;
            if token_after r then mret [samplingType]
            else on_stacks Reset;; types ← SamplingThreadMainCore rounds configuration iteration; mret (samplingType :: types)
        | _ => mret []
        end
  end.
End Loop.

(** ** What a wait means *)

Abbreviation running os := (Forall (λ o, shutdown o = false) os).

Lemma not_woken c o : shouldWake c o = false → shutdown o = false.
Proof. unfold shouldWake. by intros [H _]%orb_false_iff. Qed.

Lemma cv_wait_some c os os' :
  cv_wait c os = Some os' → ∃ dropped o rest, os = dropped ++ os' ∧ os' = o :: rest ∧ running dropped ∧ shouldWake c o = true.
Proof.
  induction os as [|o os IH]; cbn [cv_wait]; [done|]. destruct (shouldWake c o) eqn:E; [intros [= <-]; by exists [], o, os|].
  intros (dropped & o' & rest & -> & -> & Hd & Hw)%IH. exists (o :: dropped), o', rest. repeat (split; [done|]). split; [|done].
  apply Forall_cons. split; [by eapply not_woken|done].
Qed.

Lemma cv_wait_none c os : cv_wait c os = None → running os.
Proof.
  induction os as [|o os IH]; cbn [cv_wait]; [intros; by apply Forall_nil_2|]. destruct (shouldWake c o) eqn:E; [done|].
  intros H. apply Forall_cons. split; [by eapply not_woken|by apply IH].
Qed.

Lemma cv_wait_for_some c o os interrupted os' :
  shouldWake c o = false → cv_wait_for c o os = Some (interrupted, os') →
  ∃ dropped o' rest, os = dropped ++ os' ∧ os' = o' :: rest ∧ running dropped ∧ interrupted = shouldWake c o' ∧
    (interrupted = false → timed_out o' = true).
Proof.
  revert o. induction os as [|o' os IH]; intros o Ho; cbn [cv_wait_for]; rewrite Ho; [done|]. destruct (timed_out o') eqn:Et.
  { intros [= <- <-]. by exists [], o', os. }
  destruct (shouldWake c o') eqn:Ew.
  - intros H. assert (E : Some (true, o' :: os) = Some (interrupted, os')) by (rewrite <-H; destruct os; cbn [cv_wait_for]; by rewrite Ew).
    injection E as <- <-. by exists [], o', os.
  - intros H. destruct (IH o' Ew H) as (dropped & o2 & rest & -> & -> & Hd & H1). exists (o' :: dropped), o2, rest.
    repeat (split; [done|]). split; [|done]. apply Forall_cons. split; [by eapply not_woken|done].
Qed.

Lemma cv_wait_for_none c o os : shouldWake c o = false → cv_wait_for c o os = None → running os.
Proof.
  revert o. induction os as [|o' os IH]; intros o Ho; cbn [cv_wait_for]; rewrite Ho; [intros; by apply Forall_nil_2|].
  destruct (timed_out o'); [done|]. destruct (shouldWake c o') eqn:Ew.
  - by destruct os; cbn [cv_wait_for]; rewrite Ew.
  - intros H. apply Forall_cons. split; [by eapply not_woken|by apply (IH o')].
Qed.

(** What a wait that found [os] returns: a cycle is due when the interval has passed, the
    configuration is enabled and is still the desired one; or the shutdown has been found; or the
    wait goes on. *)
Definition waited_ok (configuration : ThreadSamplingConfiguration) (os : list observation)
    (r : option (bool * ThreadSamplingConfiguration * list observation)) : Prop :=
  match r with
  | None => running os
  | Some (due, c, os') => ∃ dropped o rest, os = dropped ++ os' ∧ os' = o :: rest ∧ running dropped ∧
      if due : bool then shutdown o = false ∧ timed_out o = true ∧ IsEnabled c = true ∧ version c = version (desired o) ∧
        (c = configuration ∨ c ∈ desired <$> dropped)
      else shutdown o = true
  end.

Lemma waited_ok_later configuration c dropped os r :
  running dropped → c = configuration ∨ c ∈ desired <$> dropped → waited_ok c os r → waited_ok configuration (dropped ++ os) r.
Proof.
  intros Hd Hc. destruct r as [[[due c'] os2]|]; cbn.
  - intros (dropped2 & o & rest & -> & -> & Hd2 & H). exists (dropped ++ dropped2), o, rest. split; [by rewrite app_assoc|].
    split; [done|]. split; [by apply Forall_app|]. destruct due; [|done]. destruct H as (H1 & H2 & H3 & H4 & H5).
    repeat (split; [done|]). rewrite fmap_app, elem_of_app. destruct H5 as [->|H5]; [|tauto]. destruct Hc; tauto.
  - intros H. by apply Forall_app.
Qed.

(** The configuration after the first observation. *)
Definition refreshed (configuration : ThreadSamplingConfiguration) (o : observation) : ThreadSamplingConfiguration :=
  if decide (version configuration ≠ version (desired o)) then desired o else configuration.

Lemma refreshed_calm configuration o : shutdown o = false → shouldWake (refreshed configuration o) o = false.
Proof.
  intros Ho. unfold shouldWake, refreshed. rewrite Ho. cbn [orb]. apply bool_decide_eq_false_2. intros H. apply H. case_decide; [done|].
  destruct (decide (version configuration = version (desired o))); tauto.
Qed.

Lemma refreshed_from configuration o : refreshed configuration o = configuration ∨ refreshed configuration o ∈ desired <$> [o].
Proof. unfold refreshed. case_decide; [right; by left|by left]. Qed.

Lemma WaitForNext_spec fuel configuration os p :
  (length os < fuel)%nat →
  ∃ r p', WaitForNextThreadSamplingCycle fuel configuration os p = (Ret r, p') ∧ waited_ok configuration os r ∧
    ∃ scan, p' = with_scan scan p.
Proof.
  revert configuration os p. induction fuel as [|fuel IH]; intros configuration os p Hf; [lia|].
  assert (Hsame : ∃ scan, p = with_scan scan p) by (exists (nextOutdatedEntriesScan_ p); by destruct p).
  destruct os as [|o rest]; cbn [WaitForNextThreadSamplingCycle].
  { exists None, p. split; [done|]. split; [by apply Forall_nil_2|done]. }
  destruct (shutdown o) eqn:Eo.
  { eexists _, p. split; [done|]. split; [|done]. exists [], o, rest. repeat (split; [done|]). done. }
  set (c := refreshed configuration o). pose proof (refreshed_calm configuration o Eo) as Hcalm. fold c in Hcalm.
  match goal with |- context [(?m ≫= _) p] => assert (Hm : ∃ scan, m p = (Ret c, with_scan scan p)) end.
  { unfold c, refreshed. case_decide; [|by exists (nextOutdatedEntriesScan_ p); destruct p]. cbv zeta.
    destruct (negb _ && _); [by exists (clock o)|by exists (nextOutdatedEntriesScan_ p); destruct p]. }
  destruct Hm as (scan & Hm).
  assert (Hgo : ∀ dropped os', o :: rest = dropped ++ os' → dropped ≠ [] → running dropped → c = configuration ∨ c ∈ desired <$> dropped →
    ∃ r p', WaitForNextThreadSamplingCycle fuel c os' (with_scan scan p) = (Ret r, p') ∧ waited_ok configuration (o :: rest) r ∧
      ∃ scan, p' = with_scan scan p).
  { intros dropped os' Hos Hne Hd Hc. destruct (IH c os' (with_scan scan p)) as (r & p' & Hr & Hw & scan' & ->).
    - assert (length (o :: rest) = length dropped + length os')%nat by (by rewrite Hos, length_app). destruct dropped; [done|]. cbn in *. lia.
    - exists r. eexists. split; [exact Hr|]. split; [rewrite Hos; by eapply waited_ok_later|by exists scan']. }
  assert (Hin : ∀ dropped, c = configuration ∨ c ∈ desired <$> (o :: dropped)).
  { intros dropped. destruct (refreshed_from configuration o) as [H|H]; [by left|]. right. apply list_elem_of_fmap in H as (o' & H & ->%list_elem_of_singleton).
    unfold c. rewrite H. by left. }
  assert (Ho : running [o]) by by apply Forall_singleton.
  destruct (IsEnabled c) eqn:Een.
  - destruct (cv_wait_for c o rest) as [[interrupted os']|] eqn:Ew.
    + destruct (cv_wait_for_some _ _ _ _ _ Hcalm Ew) as (dropped & o' & rest' & -> & -> & Hd & Hi & Ht).
      assert (Hd' : running (o :: dropped)) by by apply Forall_cons.
      destruct interrupted.
      * destruct (Hgo (o :: dropped) (o' :: rest')) as (r & p' & Hr & H); [done|done|done|apply Hin|].
        exists r, p'. split; [|exact H]. run_by (exact Hm). rewrite Een. cbn [negb]. rewrite Ew. exact Hr.
      * exists (Some (true, c, o' :: rest')), (with_scan scan p). split; [run_by (exact Hm); rewrite Een; cbn [negb]; by rewrite Ew|].
        split; [|by exists scan]. exists (o :: dropped), o', rest'. repeat (split; [done|]). symmetry in Hi.
        split; [by eapply not_woken|]. split; [by apply Ht|]. split; [done|]. split; [|apply Hin].
        unfold shouldWake in Hi. apply orb_false_iff in Hi as [_ Hi]. apply bool_decide_eq_false in Hi.
        destruct (decide (version c = version (desired o'))); tauto.
    + exists None, (with_scan scan p). split; [run_by (exact Hm); rewrite Een; cbn [negb]; by rewrite Ew|].
      split; [|by exists scan]. apply Forall_cons. split; [done|]. by eapply cv_wait_for_none.
  - destruct (cv_wait c (o :: rest)) as [os'|] eqn:Ew.
    + destruct (cv_wait_some _ _ _ Ew) as (dropped & o' & rest' & Hos & -> & Hd & Hw).
      destruct dropped as [|o2 dropped]; [injection Hos as <- <-; congruence|]. injection Hos as <- ->.
      destruct (Hgo (o :: dropped) (o' :: rest')) as (r & p' & Hr & H); [done|done|done|apply Hin|].
      exists r, p'. split; [|exact H]. run_by (exact Hm). rewrite Een. cbn [negb]. rewrite Ew. exact Hr.
    + exists None, (with_scan scan p). split; [run_by (exact Hm); rewrite Een; cbn [negb]; by rewrite Ew|].
      split; [|by exists scan]. by eapply cv_wait_none.
Qed.

(** ** The schedule *)

(** The types of the cycles with the configurations [cs]. *)
Fixpoint schedule (previous iteration : Z) (cs : list ThreadSamplingConfiguration) : list SamplingType :=
  match cs with
  | [] => []
  | c :: cs => let '(samplingType, iteration) := next_cycle previous c iteration in samplingType :: schedule (version c) iteration cs
  end.

(** The configurations that RuntimeSamplerConfiguration::IsValid admits. *)
Record configuration_valid (c : ThreadSamplingConfiguration) : Prop := {
  valid_cpu : 0 ≤ cpuSamplingInterval c < 2 ^ 32;
  valid_selective : 0 ≤ selectiveSamplingInterval c < 2 ^ 32;
  valid_both : BothEnabled c = true →
    selectiveSamplingInterval c < cpuSamplingInterval c ∧ cpuSamplingInterval c mod selectiveSamplingInterval c = 0;
}.

Definition ratio (c : ThreadSamplingConfiguration) : Z := cpuSamplingInterval c / selectiveSamplingInterval c.

(** The type of the [k]-th cycle under a configuration. *)
Definition cycle_type (c : ThreadSamplingConfiguration) (k : Z) : SamplingType :=
  if BothEnabled c then if decide (k mod ratio c = 0) then Continuous else SelectedThreads
  else if SelectiveEnabled c then SelectedThreads else Continuous.

Lemma ratio_range c : configuration_valid c → BothEnabled c = true → 1 < ratio c < 2 ^ 32 ∧ ratio c * selectiveSamplingInterval c = cpuSamplingInterval c.
Proof.
  intros [H1 H2 H3] Hb. destruct (H3 Hb) as [Hlt Hm]. unfold BothEnabled, CpuEnabled, SelectiveEnabled in Hb.
  apply andb_prop in Hb as [Hc%bool_decide_eq_true Hs%bool_decide_eq_true].
  pose proof (Z.div_mod (cpuSamplingInterval c) (selectiveSamplingInterval c) Hs) as Hd. rewrite Hm in Hd. fold (ratio c) in Hd. nia.
Qed.

Lemma mod_succ k n : 1 < n → (k + 1) mod n = if decide (k mod n + 1 = n) then 0 else k mod n + 1.
Proof.
  intros Hn. pose proof (Z.mod_pos_bound k n ltac:(lia)). rewrite Z.add_mod, (Z.mod_small 1) by lia. case_decide as H1.
  - rewrite H1. apply Z.mod_same. lia.
  - apply Z.mod_small. lia.
Qed.

Lemma next_cycle_both v c k :
  configuration_valid c → BothEnabled c = true → version c = v →
  next_cycle v c (k mod ratio c) = (cycle_type c (k + 1), (k + 1) mod ratio c).
Proof.
  intros Hv Hb <-. destruct (ratio_range c Hv Hb) as [Hr _]. pose proof (Z.mod_pos_bound k (ratio c) ltac:(lia)).
  unfold next_cycle, cycle_type, ShouldTrackIterations. rewrite decide_False by tauto. rewrite Hb, (wrap_small 32), mod_succ by lia.
  unfold GetNextSamplingType. fold (ratio c). unfold BothEnabled in Hb. apply andb_prop in Hb as [-> ->]. cbn [negb].
  destruct (decide (k mod ratio c + 1 = ratio c)) as [Hk|Hk].
  - rewrite decide_False by tauto. done.
  - rewrite decide_True by done. rewrite (decide_False (P := _ + 1 = 0)) by lia. done.
Qed.

Lemma next_cycle_single v c iteration : BothEnabled c = false → next_cycle v c iteration = (cycle_type c 0, 0).
Proof.
  intros Hb. unfold next_cycle, cycle_type, ShouldTrackIterations, GetNextSamplingType. rewrite Hb. unfold BothEnabled in Hb.
  destruct (CpuEnabled c), (SelectiveEnabled c); cbn [negb andb] in *; try done; by rewrite andb_false_r.
Qed.

Lemma next_cycle_fresh v c iteration : version c ≠ v → next_cycle v c iteration = next_cycle (version c) c 0.
Proof. intros Hv. unfold next_cycle. by rewrite decide_True, decide_False by tauto. Qed.

(** The cycles from the one after the [k]-th under the configuration on. *)
Lemma schedule_replicate c n k :
  configuration_valid c →
  schedule (version c) (if BothEnabled c then k mod ratio c else 0) (replicate n c) = cycle_type c <$> seqZ (k + 1) (Z.of_nat n).
Proof.
  intros Hv. revert k. induction n as [|n IH]; intros k; [done|]. rewrite seqZ_cons by lia. cbn [replicate schedule].
  rewrite fmap_cons. replace (Z.pred (Z.of_nat (S n))) with (Z.of_nat n) by lia. specialize (IH (k + 1)).
  destruct (BothEnabled c) eqn:Eb.
  - rewrite next_cycle_both by done. f_equal. exact IH.
  - rewrite next_cycle_single by done. f_equal; [unfold cycle_type; by rewrite Eb|exact IH].
Qed.

Lemma schedule_app v iteration cs1 cs2 :
  ∃ v' iteration', schedule v iteration (cs1 ++ cs2) = schedule v iteration cs1 ++ schedule v' iteration' cs2 ∧
    v' = default v (last (version <$> cs1)) ∧ (cs1 = [] → iteration' = iteration).
Proof.
  revert v iteration. induction cs1 as [|c cs1 IH]; intros v iteration; [by exists v, iteration|].
  cbn [app schedule]. destruct (next_cycle v c iteration) as [ty it]. destruct (IH (version c) it) as (v' & it' & -> & -> & _).
  eexists _, it'. split; [done|]. split; [|done]. rewrite fmap_cons. destruct (version <$> cs1) as [|v2 vs] eqn:E; [done|].
  change (last (version c :: v2 :: vs)) with (last (v2 :: vs)). by destruct (last (v2 :: vs)) eqn:E2; [|apply last_None in E2].
Qed.

Lemma schedule_length v iteration cs : length (schedule v iteration cs) = length cs.
Proof. revert v iteration. induction cs as [|c cs IH]; intros v it; [done|]. cbn. destruct (next_cycle v c it). cbn. by rewrite IH. Qed.

(** ** Specification: which cycles there are

    Each time the worker looks at the state it shares, a wait ends if the shutdown has been
    requested, or if the interval has passed, the desired configuration is enabled and it is the one
    of the look before. *)

Fixpoint wait_from (o : observation) (os : list observation) : option (bool * ThreadSamplingConfiguration) :=
  if shutdown o then Some (false, desired o)
  else
    match os with
    | [] => None
    | o' :: os =>
        if decide (shutdown o' = false ∧ timed_out o' = true ∧ IsEnabled (desired o') = true ∧ version (desired o) = version (desired o'))
        then Some (true, desired o')
        else wait_from o' os
    end.

Definition wait_outcome (os : list observation) : option (bool * ThreadSamplingConfiguration) :=
  match os with [] => None | o :: os => wait_from o os end.

(** The configurations of the cycles: one for each pass whose wait ends with the interval, up to the
    first that finds the shutdown, before the wait, in it or behind the cycle. *)
Fixpoint due_cycles (rounds : list round) : list ThreadSamplingConfiguration :=
  match rounds with
  | [] => []
  | r :: rounds =>
      if token_before r then []
      else
        match wait_outcome (observations r) with
        | Some (true, c) => c :: (if token_after r then [] else due_cycles rounds)
        | _ => []
        end
  end.

(** The cycles numbered from the last change of the configuration on, starting with 1. *)
Fixpoint numbered (previous : option Z) (k : Z) (cs : list ThreadSamplingConfiguration) : list (ThreadSamplingConfiguration * Z) :=
  match cs with
  | [] => []
  | c :: cs =>
      let k := if decide (previous = Some (version c)) then k + 1 else 1 in
      (c, k) :: numbered (Some (version c)) k cs
  end.

(** The [k]-th cycle samples all threads if all threads are to be sampled and either the selected
    ones are not, or [k] of their intervals are a multiple of the interval of all threads. *)
Definition samples_all (c : ThreadSamplingConfiguration) (k : Z) : Prop :=
  cpuSamplingInterval c ≠ 0 ∧ (selectiveSamplingInterval c = 0 ∨ (k * selectiveSamplingInterval c) mod cpuSamplingInterval c = 0).
#[export] Instance samples_all_dec c k : Decision (samples_all c k).
Proof. unfold samples_all. apply _. Defined.

Definition kind_of_cycle (x : ThreadSamplingConfiguration * Z) : SamplingType :=
  if decide (samples_all x.1 x.2) then Continuous else SelectedThreads.

(** A version names one configuration. *)
Definition versions_unique (cs : list ThreadSamplingConfiguration) : Prop :=
  ∀ c c', c ∈ cs → c' ∈ cs → version c = version c' → c = c'.

Lemma cycle_type_kind c k : configuration_valid c → IsEnabled c = true → cycle_type c k = kind_of_cycle (c, k).
Proof.
  intros Hv Hen. unfold cycle_type, kind_of_cycle, samples_all. cbn [fst snd]. destruct (BothEnabled c) eqn:Hb.
  - destruct (ratio_range c Hv Hb) as [Hr Hm]. unfold BothEnabled, CpuEnabled, SelectiveEnabled in Hb.
    apply andb_prop in Hb as [Hc%bool_decide_eq_true Hs%bool_decide_eq_true].
    assert (Hk : k mod ratio c = 0 ↔ (k * selectiveSamplingInterval c) mod cpuSamplingInterval c = 0).
    { rewrite !Z.mod_divide by lia. rewrite <-Hm. symmetry. by apply Z.mul_divide_cancel_r. }
    case_decide as H1; case_decide as H2; try done; exfalso; tauto.
  - unfold IsEnabled, BothEnabled, CpuEnabled, SelectiveEnabled in *.
    destruct (decide (cpuSamplingInterval c = 0)) as [Hc|Hc], (decide (selectiveSamplingInterval c = 0)) as [Hs|Hs];
      rewrite ?(bool_decide_eq_false_2 (_ ≠ _)), ?(bool_decide_eq_true_2 (_ ≠ _)) in * by tauto; try done.
    + by rewrite decide_False by tauto.
    + by rewrite decide_True by tauto.
Qed.

(** *** The schedule follows the numbering *)

(** The counter the code keeps after the [k]-th cycle under [c]. *)
Definition counter (c : ThreadSamplingConfiguration) (k : Z) : Z := if BothEnabled c then k mod ratio c else 0.

Lemma next_cycle_kind v c k iteration :
  configuration_valid c → IsEnabled c = true → (version c = v → iteration = counter c k) →
  let k' := if decide (Some v = Some (version c)) then k + 1 else 1 in
  next_cycle v c iteration = (kind_of_cycle (c, k'), counter c k').
Proof.
  intros Hv Hen Hit k'. rewrite <-cycle_type_kind by done. unfold counter in *.
  assert (Hk : next_cycle v c iteration = next_cycle (version c) c (if BothEnabled c then (k' - 1) mod ratio c else 0)).
  { unfold k'. destruct (decide (Some v = Some (version c))) as [[= ->]|Hn].
    - rewrite Hit by done. by rewrite Z.add_simpl_r.
    - rewrite next_cycle_fresh by congruence. rewrite Z.sub_diag, Zmod_0_l. by destruct (BothEnabled c). }
  rewrite Hk. destruct (BothEnabled c) eqn:Eb.
  - rewrite next_cycle_both by done. by rewrite Z.sub_add.
  - rewrite next_cycle_single by done. unfold cycle_type. by rewrite Eb.
Qed.

Lemma schedule_numbered cs c0 k iteration :
  versions_unique (c0 :: cs) → Forall configuration_valid cs → Forall (λ c, IsEnabled c = true) cs → iteration = counter c0 k →
  schedule (version c0) iteration cs = kind_of_cycle <$> numbered (Some (version c0)) k cs.
Proof.
  revert c0 k iteration. induction cs as [|c cs IH]; intros c0 k iteration Hu Hv Hen Hit; [done|].
  apply Forall_cons in Hv as [Hv Hvs]. apply Forall_cons in Hen as [Hen Hens]. cbn [schedule numbered]. rewrite fmap_cons.
  rewrite (next_cycle_kind (version c0) c k iteration) by (done || (intros E; rewrite Hit; f_equal; apply Hu; [by left|right; by left|done])).
  f_equal. apply IH; [|done|done|done]. intros c1 c2 H1 H2. apply Hu; by right.
Qed.

(** *** A wait *)

(** The configuration in use is the one that was desired at the last look. *)
Lemma refreshed_desired c o : versions_unique [c; desired o] → refreshed c o = desired o.
Proof.
  intros Hu. unfold refreshed. case_decide as H; [done|]. apply Hu; [by left|right; by left|].
  destruct (decide (version c = version (desired o))); tauto.
Qed.

(** The wait of a worker that is not enabled changes nothing. *)
Lemma wait_from_asleep o os :
  shutdown o = false → IsEnabled (desired o) = false → versions_unique (desired <$> o :: os) →
  match cv_wait (desired o) os with
  | None => wait_from o os = None
  | Some os' => ∃ o' rest dropped, os' = o' :: rest ∧ os = dropped ++ os' ∧ wait_from o os = wait_from o' rest
  end.
Proof.
  revert o. induction os as [|o' os IH]; intros o Ho Hen Hu; cbn [cv_wait wait_from]; rewrite Ho; [done|].
  unfold shouldWake. destruct (shutdown o') eqn:Eo; cbn [orb].
  { exists o', os, []. split; [done|]. split; [done|]. rewrite decide_False by (by intros []). done. }
  destruct (decide (version (desired o) = version (desired o'))) as [Hv|Hv].
  - rewrite bool_decide_eq_false_2 by tauto. assert (Hd : desired o = desired o').
    { apply Hu; [by left|right; by left|done]. }
    rewrite decide_False by (rewrite <-Hd; intros (_ & _ & ? & _); congruence). rewrite Hd. rewrite Hd in Hen. cbv iota.
    specialize (IH o' Eo Hen). destruct (cv_wait (desired o') os) as [os'|].
    + destruct IH as (o2 & rest & dropped & -> & -> & E); [intros c1 c2 H1 H2; apply Hu; by right|].
      by exists o2, rest, (o' :: dropped).
    + apply IH. intros c1 c2 H1 H2. apply Hu; by right.
  - rewrite bool_decide_eq_true_2 by done. exists o', os, []. split; [done|]. split; [done|]. by rewrite decide_False by (by intros (_ & _ & _ & ?)).
Qed.

(** The timed wait of a worker that is. *)
Lemma wait_from_timed o os :
  shutdown o = false → IsEnabled (desired o) = true → versions_unique (desired <$> o :: os) →
  match cv_wait_for (desired o) o os with
  | None => wait_from o os = None
  | Some (true, os') => ∃ o' rest dropped, os' = o' :: rest ∧ os = dropped ++ os' ∧ wait_from o os = wait_from o' rest
  | Some (false, os') => wait_from o os = Some (true, desired o)
  end.
Proof.
  revert o. induction os as [|o' os IH]; intros o Ho Hen Hu; cbn [cv_wait_for wait_from]; unfold shouldWake at 1; rewrite Ho;
    rewrite (bool_decide_eq_false_2 (version (desired o) ≠ version (desired o))) by tauto; cbn [orb]; [done|].
  unfold shouldWake. destruct (decide (version (desired o) = version (desired o'))) as [Hv|Hv].
  - rewrite bool_decide_eq_false_2 by tauto. rewrite orb_false_r.
    assert (Hd : desired o = desired o') by (apply Hu; [by left|right; by left|done]).
    destruct (timed_out o') eqn:Et; destruct (shutdown o') eqn:Eo.
    + exists o', os, []. split; [done|]. split; [done|]. by rewrite decide_False by (by intros []).
    + rewrite decide_True by (rewrite <-Hd; done). by rewrite Hd.
    + rewrite decide_False by (by intros []).
      assert (Hc : cv_wait_for (desired o) o' os = Some (true, o' :: os)) by (destruct os; cbn [cv_wait_for]; unfold shouldWake; by rewrite Eo).
      rewrite Hc. by exists o', os, [].
    + rewrite decide_False by (by intros (_ & ? & _)). rewrite Hd in *. specialize (IH o' Eo Hen).
      destruct (cv_wait_for (desired o') o' os) as [[[] os']|]; [|apply IH; intros c1 c2 H1 H2; apply Hu; by right..].
      destruct IH as (o2 & rest & dropped & -> & -> & E); [intros c1 c2 H1 H2; apply Hu; by right|]. by exists o2, rest, (o' :: dropped).
  - rewrite bool_decide_eq_true_2 by done. rewrite orb_true_r, decide_False by (by intros (_ & _ & _ & ?)).
    destruct (timed_out o'); [by exists o', os, []|].
    assert (Hc : cv_wait_for (desired o) o' os = Some (true, o' :: os)).
    { destruct os; cbn [cv_wait_for]; unfold shouldWake; rewrite (bool_decide_eq_true_2 (version (desired o) ≠ _)) by done; by rewrite orb_true_r. }
    rewrite Hc. by exists o', os, [].
Qed.

(** What the wait returns: whether a cycle is due, and with which configuration. *)
Definition answered (configuration : ThreadSamplingConfiguration) (r : option (bool * ThreadSamplingConfiguration * list observation))
    (expected : option (bool * ThreadSamplingConfiguration)) : Prop :=
  match r with
  | None => expected = None
  | Some (true, c, _) => expected = Some (true, c)
  | Some (false, _, _) => ∃ c, expected = Some (false, c)
  end.

Lemma WaitForNext_outcome fuel configuration os p :
  (length os < fuel)%nat → versions_unique (configuration :: (desired <$> os)) →
  ∃ r scan, WaitForNextThreadSamplingCycle fuel configuration os p = (Ret r, with_scan scan p) ∧
    answered configuration r (wait_outcome os).
Proof.
  revert configuration os p. induction fuel as [|fuel IH]; intros configuration os p Hf Hu; [lia|].
  assert (Hsame : p = with_scan (nextOutdatedEntriesScan_ p) p) by (by destruct p).
  destruct os as [|o rest]; cbn [WaitForNextThreadSamplingCycle wait_outcome]; [by exists None, (nextOutdatedEntriesScan_ p); rewrite <-Hsame|].
  assert (Hu1 : versions_unique (desired <$> o :: rest)) by (intros c1 c2 H1 H2; apply Hu; by right).
  destruct (shutdown o) eqn:Eo.
  { eexists _, (nextOutdatedEntriesScan_ p). rewrite <-Hsame. split; [done|]. exists (desired o). destruct rest; cbn [wait_from]; by rewrite Eo. }
  assert (Hd : refreshed configuration o = desired o).
  { apply refreshed_desired. intros c1 c2 H1 H2. apply Hu; set_solver. }
  match goal with |- context [(?m ≫= _) p] => assert (Hm : ∃ scan, m p = (Ret (desired o), with_scan scan p)) end.
  { unfold refreshed in Hd. case_decide; [|exists (nextOutdatedEntriesScan_ p); rewrite Hd; by destruct p]. cbv zeta.
    destruct (negb _ && _); [by exists (clock o)|by exists (nextOutdatedEntriesScan_ p); destruct p]. }
  destruct Hm as (scan & Hm). erewrite stM_bind_Ret by exact Hm. cbv beta.
  assert (Hgo : ∀ o' rest' dropped, rest = dropped ++ o' :: rest' → ∃ r scan',
    WaitForNextThreadSamplingCycle fuel (desired o) (o' :: rest') (with_scan scan p) = (Ret r, with_scan scan' p) ∧
    answered configuration r (wait_from o' rest')).
  { intros o' rest' dropped ->. destruct (IH (desired o) (o' :: rest') (with_scan scan p)) as (r & scan' & Hr & Ha).
    - cbn in Hf. rewrite length_app in Hf. cbn in *. lia.
    - intros c1 c2 H1 H2. apply Hu1; rewrite fmap_cons, fmap_app; set_solver.
    - by exists r, scan'. }
  destruct (IsEnabled (desired o)) eqn:Een; cbn [negb].
  - pose proof (wait_from_timed o rest Eo Een Hu1) as Hw. destruct (cv_wait_for (desired o) o rest) as [[[] os']|]; cbn [negb].
    + destruct Hw as (o' & rest' & dropped & -> & Hrest & ->). by eapply Hgo.
    + by exists (Some (true, desired o, os')), scan.
    + by exists None, scan.
  - pose proof (wait_from_asleep o rest Eo Een Hu1) as Hw. cbn [cv_wait]. unfold shouldWake at 1.
    rewrite Eo, bool_decide_eq_false_2 by tauto. cbn [orb]. destruct (cv_wait (desired o) rest) as [os'|].
    + destruct Hw as (o' & rest' & dropped & -> & Hrest & ->). by eapply Hgo.
    + by exists None, scan.
Qed.

Lemma wait_from_seen o os c : wait_from o os = Some (true, c) → IsEnabled c = true ∧ c ∈ desired <$> os.
Proof.
  revert o. induction os as [|o' os IH]; intros o; cbn [wait_from]; destruct (shutdown o); [done..|]. case_decide as H.
  - intros [= <-]. destruct H as (_ & _ & H & _). split; [done|by left].
  - intros [H1 H2]%IH. split; [done|by right].
Qed.

Lemma wait_outcome_seen os c : wait_outcome os = Some (true, c) → c ∈ desired <$> os.
Proof. destruct os as [|o os]; [done|]. intros [_ H]%wait_from_seen. by right. Qed.

Lemma due_cycles_seen rounds :
  Forall (λ c, IsEnabled c = true ∧ c ∈ desired <$> concat (observations <$> rounds)) (due_cycles rounds).
Proof.
  induction rounds as [|r rounds IH]; cbn [due_cycles]; [by apply Forall_nil_2|]. destruct (token_before r); [by apply Forall_nil_2|].
  destruct (wait_outcome (observations r)) as [[[] c]|] eqn:E; [|by apply Forall_nil_2..]. cbn [fmap list_fmap concat]. apply Forall_cons. split.
  - rewrite fmap_app, elem_of_app. split; [|left; by apply wait_outcome_seen]. destruct (observations r) as [|o os]; [done|].
    by apply (wait_from_seen o os).
  - destruct (token_after r); [by apply Forall_nil_2|]. eapply Forall_impl; [exact IH|]. intros c' [H1 H2]. split; [done|].
    rewrite fmap_app, elem_of_app. by right.
Qed.

(** ** The loop *)

Section Worker.
Context (GetFunctionInfo2 : Z → option (Z * Z)).
Context (GetModuleMetaData : Z → option TypeNames.IMetaDataImport2) (type_fuel : nat) (stackWalker_ : option (Z → option (list Z))).
Context (reserve : nat → Z → option Z) (emplace : nat → bool) (visit : gmap Z vector → list (Z * vector)).
Context (name_of : FunctionIdentifier → list Z).
Context (Hreserve : ∀ k n c, reserve k n = Some c → n ≤ c) (Hvisit : ∀ m, visit m ≡ₚ map_to_list m).

Abbreviation SamplingThreadMainCore := (SamplingThreadMainCore GetFunctionInfo2 GetModuleMetaData type_fuel stackWalker_ reserve emplace visit).
Abbreviation profiler_ok := (profiler_ok GetFunctionInfo2 name_of).

Context (Hnames : ∀ f, resolve_name GetModuleMetaData type_fuel stackWalker_ f = Ret (name_of f)).

Lemma with_scan_ok scan p : profiler_ok p → profiler_ok (with_scan scan p).
Proof. intros []. by split. Qed.

(** The worker's cycles are the ones that are due, with the types of the schedule. *)
Lemma worker_spec rounds configuration iteration p :
  profiler_ok p → idle (threadStacksBuffer p) → versions_unique (configuration :: (desired <$> concat (observations <$> rounds))) →
  ∃ p', SamplingThreadMainCore rounds configuration iteration p =
    (Ret (schedule (version configuration) iteration (due_cycles rounds)), p') ∧ profiler_ok p'.
Proof using All.
  revert configuration iteration p. induction rounds as [|r rounds IH]; intros c it p Hok Hidle Hu; [by exists p|].
  cbn [SamplingWorker.SamplingThreadMainCore due_cycles]. destruct (token_before r); [by exists p|].
  assert (Hu1 : versions_unique (c :: (desired <$> observations r))).
  { intros c1 c2 H1 H2. apply Hu; rewrite fmap_cons; cbn [concat]; rewrite fmap_app; set_solver. }
  destruct (WaitForNext_outcome (S (length (observations r))) c (observations r) p) as (w & scan & Hrun & Hw); [lia|done|].
  pose proof (with_scan_ok scan p Hok) as Hok1. erewrite stM_bind_Ret by exact Hrun.
  destruct w as [[[[] c1] os]|]; cbn [answered] in Hw; [rewrite Hw|destruct Hw as [c1' ->]; by eexists|rewrite Hw; by eexists].
  assert (Hc1 : c1 ∈ desired <$> observations r) by by eapply wait_outcome_seen.
  cbn [schedule]. destruct (next_cycle (version c) c1 it) as [ty it1] eqn:En.
  destruct (cycle_and_reset GetFunctionInfo2 GetModuleMetaData type_fuel stackWalker_ reserve emplace visit name_of Hreserve Hvisit (cycle r) ty (SelectiveEnabled c1) (cpuSamplingInterval c1) (with_scan scan p)) as (p2 & p3 & Hcap & Hreset & Hok2 & _ & Hok3 & Hidle3); [done|done|by intros ? _|].
  destruct (token_after r); [exists p2; split; [by run_by (exact Hcap)|done]|].
  destruct (IH c1 it1 p3 Hok3 Hidle3) as (p4 & Hrest & Hok4).
  { intros c2 c3 H2 H3. apply Hu; rewrite fmap_cons; cbn [concat]; rewrite fmap_app; set_solver. }
  exists p4. split; [|done]. run_by (exact Hcap). run_by (exact Hreset). by run_by (exact Hrest).
Qed.
End Worker.

Lemma cv_wait_for_calm c o mid o' :
  Forall (λ o, shouldWake c o = false) (o :: mid ++ [o']) → Forall (λ o, timed_out o = false) mid → timed_out o' = true →
  cv_wait_for c o (mid ++ [o']) = Some (false, [o']).
Proof.
  revert o. induction mid as [|o1 mid IH]; intros o [Ho Hos]%Forall_cons Ht Ho'; cbn [app cv_wait_for]; rewrite Ho.
  - assert (Hw : shouldWake c o' = false) by apply (Forall_inv Hos). by rewrite Ho', Hw.
  - apply Forall_cons in Ht as [-> Ht]. by apply IH.
Qed.

(** ** Properties *)

(** A wait for the next cycle, whatever it finds at each wake-up, spurious ones included,
    returns that a cycle is due only when the interval has passed, no shutdown has been requested
    and the configuration it returns enables a sampler and has the version desired then; it gives
    up exactly when it finds the shutdown; and when an interval passes undisturbed under an enabled
    configuration, a cycle is due. *)
Theorem waiting_for_cycle configuration os p :
  ∃ r p', WaitForNextThreadSamplingCycle (S (length os)) configuration os p = (Ret r, p') ∧
    waited_ok configuration os r ∧ (∃ scan, p' = with_scan scan p) ∧
    ∀ o mid o', os = o :: mid ++ [o'] →
      running os → Forall (λ o1, version (desired o1) = version (desired o)) os →
      IsEnabled (refreshed configuration o) = true →
      Forall (λ o, timed_out o = false) mid → timed_out o' = true →
      r = Some (true, refreshed configuration o, [o']).
Proof.
  destruct (WaitForNext_spec (S (length os)) configuration os p) as (r & p' & Hrun & Hw & Hs); [lia|].
  exists r, p'. split; [exact Hrun|]. split; [exact Hw|]. split; [exact Hs|].
  intros o mid o' -> Hr Hv Hen Ht Ho'. cbn [WaitForNextThreadSamplingCycle length] in Hrun.
  apply Forall_cons in Hr as [Ho Hr]. rewrite Ho in Hrun. set (c := refreshed configuration o) in *.
  assert (Hver : version c = version (desired o)).
  { unfold c, refreshed. case_decide as Hd; [done|]. destruct (decide (version configuration = version (desired o))); tauto. }
  match type of Hrun with (?m ≫= _) p = _ => assert (Hm : ∃ scan, m p = (Ret c, with_scan scan p)) end.
  { unfold c, refreshed. case_decide; [|by exists (nextOutdatedEntriesScan_ p); destruct p]. cbv zeta.
    destruct (negb _ && _); [by exists (clock o)|by exists (nextOutdatedEntriesScan_ p); destruct p]. }
  destruct Hm as (scan & Hm). erewrite stM_bind_Ret in Hrun by exact Hm. cbv beta in Hrun. rewrite Hen in Hrun. cbn [negb] in Hrun.
  rewrite cv_wait_for_calm in Hrun; [|..|done|done].
  - cbn [negb] in Hrun. by injection Hrun as <- _.
  - apply Forall_cons in Hv as [_ Hv]. apply Forall_cons. unfold shouldWake. rewrite Ho, Hver, bool_decide_eq_false_2 by tauto. split; [done|].
    apply Forall_forall. intros o1 H1. rewrite Forall_forall in Hr, Hv. rewrite (Hr o1 H1), (Hv o1 H1), bool_decide_eq_false_2 by tauto. done.
Qed.

(** From the first cycle under a configuration that was admitted on, the cycles sample all
    threads, or the selected ones, as it enables only one; with both enabled, every [ratio]-th
    cycle and no other samples all threads, and [ratio] intervals of the selected threads are
    exactly one interval of all threads; whatever was configured before. *)
Theorem cycle_schedule previous iteration cs c n :
  configuration_valid c → version c ≠ default previous (last (version <$> cs)) ∨ cs = [] ∧ iteration = 0 →
  drop (length cs) (schedule previous iteration (cs ++ replicate n c)) = cycle_type c <$> seqZ 1 (Z.of_nat n) ∧
  (BothEnabled c = true → ratio c * selectiveSamplingInterval c = cpuSamplingInterval c).
Proof.
  intros Hc Hv. split; [|intros Hb; by apply ratio_range].
  destruct (schedule_app previous iteration cs (replicate n c)) as (v & it & -> & -> & Hit).
  rewrite drop_app_length' by (by rewrite schedule_length).
  pose proof (schedule_replicate c n 0 Hc) as Hs. rewrite Zmod_0_l in Hs. change (0 + 1) with 1 in Hs. rewrite <-Hs.
  assert (E : (if BothEnabled c then 0 else 0) = 0) by (by destruct (BothEnabled c)). rewrite E.
  destruct n as [|n]; [done|]. cbn [replicate schedule].
  destruct (decide (version c = default previous (last (version <$> cs)))) as [Hsame|Hdiff].
  - destruct Hv as [Hv|[-> ->]]; [done|]. rewrite (Hit eq_refl). cbn in Hsame |- *. by rewrite <-Hsame.
  - by rewrite next_cycle_fresh.
Qed.

(** C33: the worker's cycles.  Whatever its waits, its cycles and the runtime meet, over metadata
    that can be read (following parents, enclosing types and the definitions of generic types
    descends, signatures are in memory and of ECMA types) and under configurations that were
    admitted, the worker never gets stuck and throws nothing, and leaves the profiler consistent.
    There is one cycle for each wait in which the interval of an enabled configuration passes
    without a change and without the shutdown, and no other.  Numbered from the last change of the
    configuration, the [k]-th cycle samples all threads if only these are enabled, or if the k-th
    multiple of the interval of the selected threads is one of the interval of all threads; it
    samples the selected ones otherwise. *)
Theorem sampling_worker_runs info md fuel walker reserve emplace visit rounds configuration p :
  let name_of := resolved_name md fuel walker in
  let seen := configuration :: (desired <$> concat (observations <$> rounds)) in
  (∀ k n c, reserve k n = Some c → n ≤ c) → (∀ m, visit m ≡ₚ map_to_list m) → metadata_readable md fuel walker →
  profiler_ok info name_of p → idle (threadStacksBuffer p) → versions_unique seen → Forall configuration_valid seen →
  ∃ p', SamplingThreadMainCore info md fuel walker reserve emplace visit rounds configuration 0 p =
      (Ret (kind_of_cycle <$> numbered None 0 (due_cycles rounds)), p') ∧
    profiler_ok info name_of p'.
Proof.
  intros name_of seen H1 H2 Hread Hp Hidle Hu Hv.
  destruct (worker_spec info md fuel walker reserve emplace visit name_of H1 H2 (name_resolved _ _ _ Hread) rounds configuration 0 p)
    as (p' & Hrun & Hp'); [done..|].
  exists p'. split; [|done]. rewrite Hrun. do 2 f_equal. pose proof (due_cycles_seen rounds) as Hseen.
  assert (Hin : ∀ c, c ∈ due_cycles rounds → c ∈ seen).
  { intros c Hc. right. by apply (proj1 (Forall_forall _ _) Hseen c Hc). }
  rewrite (schedule_numbered _ _ 0).
  - f_equal. destruct (due_cycles rounds) as [|c cs]; [done|]. cbn [numbered]. by case_decide.
  - intros c1 c2 [->|Hc1]%elem_of_cons [->|Hc2]%elem_of_cons; try done; apply Hu; auto; by left.
  - apply Forall_forall. intros c Hc. by apply (proj1 (Forall_forall _ _) Hv), Hin.
  - eapply Forall_impl; [exact Hseen|]. by intros c [? _].
  - unfold counter. by destruct (BothEnabled configuration); [rewrite Zmod_0_l|].
Qed.

(** All threads every 40 ms, selected ones every 20 ms. *)
Definition both_samplers (v : Z) : ThreadSamplingConfiguration :=
  {| cpuSamplingInterval := 40; selectiveSamplingInterval := 20; version := v |}.

Lemma cycle_schedule_witness :
  drop 1 (schedule 0 5 ([both_samplers 7] ++ replicate 5 (both_samplers 8))) =
  [SelectedThreads; Continuous; SelectedThreads; Continuous; SelectedThreads].
Proof.
  refine (proj1 (cycle_schedule 0 5 [both_samplers 7] (both_samplers 8) 5 _ _)).
  - split; cbn [both_samplers cpuSamplingInterval selectiveSamplingInterval]; [lia|lia|intros _; split; reflexivity].
  - left. discriminate.
Defined.

(** Three passes of the loop: two cycles of a configuration that samples both, and the first of the
    next one, which comes in the middle of a wait. *)
Definition seen (v : Z) (t : bool) : observation := {| shutdown := false; desired := both_samplers v; clock := 5; timed_out := t |}.
Definition example_round (os : list observation) : round :=
  {| token_before := false; observations := os; cycle := two_stacks; token_after := false |}.
Definition example_rounds : list round :=
  [example_round [seen 7 false; seen 7 false; seen 7 true]; example_round [seen 7 false; seen 7 true];
   example_round [seen 7 false; seen 8 true; seen 8 false; seen 8 true]].

Lemma both_samplers_valid v : configuration_valid (both_samplers v).
Proof. split; cbn [both_samplers cpuSamplingInterval selectiveSamplingInterval]; [lia|lia|intros _; split; reflexivity]. Qed.

Lemma sampling_worker_runs_witness :
  (kind_of_cycle <$> numbered None 0 (due_cycles example_rounds)) = [SelectedThreads; Continuous; SelectedThreads] ∧
  ∃ p', SamplingThreadMainCore (λ _, None) (λ _, Some TypeNames.example_metadata) 8 None refused (λ _, true) map_to_list example_rounds (both_samplers 7) 0
      (Profiler_sized 10 10) = (Ret [SelectedThreads; Continuous; SelectedThreads], p').
Proof.
  split; [vm_compute; reflexivity|].
  destruct (sampling_worker_runs (λ _, None) (λ _, Some TypeNames.example_metadata) 8 None refused (λ _, true) map_to_list example_rounds
    (both_samplers 7) (Profiler_sized 10 10) ltac:(discriminate) ltac:(done) example_readable) as (p' & H1 & _).
  - apply Profiler_sized_ok. lia.
  - intros t. unfold frames_at. cbn. by rewrite lookup_empty.
  - intros c c' H1 H2 Hv. cbn in H1, H2. rewrite !elem_of_cons in H1, H2.
    assert (Hb : ∀ x, x = both_samplers 7 ∨ x = both_samplers 7 ∨ x = both_samplers 7 ∨ x = both_samplers 7 ∨ x = both_samplers 7 ∨
       x = both_samplers 7 ∨ x = both_samplers 7 ∨ x = both_samplers 8 ∨ x = both_samplers 8 ∨ x = both_samplers 8 ∨ x ∈ ([] : list ThreadSamplingConfiguration) →
       x = both_samplers (version x)).
    { intros x Hx. repeat (destruct Hx as [->|Hx]; [done|]). by apply elem_of_nil in Hx. }
    rewrite (Hb c H1), (Hb c' H2). by rewrite Hv.
  - repeat (apply Forall_cons; split; [apply both_samplers_valid|]). by apply Forall_nil_2.
  - exists p'. exact H1.
Defined.
