(* ===== verification/ProfilerEvents.v ===== *)
(** * Everything that happens to the profiler (continuous_profiler.cpp, runtime_sampler_service.cpp)

    The callbacks of the runtime, the exported functions and the cycles of the sampling worker act
    on one [Profiler].  Each holds its locks throughout, so that what happens is a sequence of
    events, in any order.

    The main result: from the initial state on, no sequence of events gets stuck or ends in an
    exception, every invariant of the components holds after it, and every batch of all threads
    that the reader is given can be decoded. *)

From S2P Require Import Prelude TypeNames SamplesBuffer SampleQueues NameCache NamingHelper ResolvedNames ThreadStacks StackFrames AllocationSubSampler.
From S2P Require Import ProfilerState AllocationTick SelectedTraces SamplingCycle.

(** ** Events *)

Inductive profiler_event :=
| OnThreadDestroyed (thread_id : Z)
| OnThreadNameChanged (thread_id : Z) (name : list Z)
| SetNativeContext (admission profiler_info : bool) (thread : option Z) (traceIdHigh traceIdLow spanId : Z)
| SpanStopped (traceIdHigh traceIdLow spanId : Z)
| StartSelecting (profiler_info : bool) (traceIdHigh traceIdLow now : Z)
| StopSelecting (profiler_info : bool) (traceIdHigh traceIdLow : Z)
| UpdateTarget (target now steadyNow : Z)
| CreateSubSampler (now steadyNow : Z)
| OnEventPipeEvent (admission service cancelled : bool) (i : tick_input) (eventId eventVersion : Z) (data : list Z)
| OnCycle (i : cycle_input) (samplingType : SamplingType) (selective : bool) (interval : Z)
| ReadThreadSamples (len : Z) (buf interval : bool)
| ReadSelectedSamples (len : Z) (buf : bool)
| ReadAllocationSamples (len : Z) (buf : bool).

(** ContinuousProfiler::UpdateAllocationSamplingTarget *)
Definition UpdateAllocationSamplingTarget (target now steadyNow : Z) : P unit :=
  p ← get;
  match allocationSubSampler p with
  | None => mret tt
  | Some s => update (with_sampler (Some (SetTargetPerCycle target now steadyNow s)))
  end.

Section Events.
Context (EtwPointerSize : Z).
Context (GetFunctionInfo2 : Z → option (Z * Z)).
Context (GetModuleMetaData : Z → option IMetaDataImport2) (type_fuel : nat) (stackWalker_ : option (Z → option (list Z))).
Context (reserve : nat → Z → option Z) (emplace : nat → bool) (visit : gmap Z vector → list (Z * vector)).

(** What the event gives the reader of all threads. *)
Definition perform_event (e : profiler_event) : P (list (list Z)) :=
  match e with
  | OnThreadDestroyed t => ThreadDestroyed t;; mret []
  | OnThreadNameChanged t name => ThreadNameChanged t name;; mret []
  | SetNativeContext admission info t high low span => ContinuousProfilerSetNativeContext admission info t high low span;; mret []
  | SpanStopped high low span => ContinuousProfilerNotifySpanStopped high low span;; mret []
  | StartSelecting info high low now => SelectiveSamplingStart info high low now;; mret []
  | StopSelecting info high low => SelectiveSamplingStop info high low;; mret []
  | UpdateTarget target now steadyNow => UpdateAllocationSamplingTarget target now steadyNow;; mret []
  | CreateSubSampler now steadyNow => update (with_sampler (Some (AllocationSubSampler_init 0 60 now steadyNow)));; mret []
  | OnEventPipeEvent admission service cancelled i eventId eventVersion data =>
      p ← get;
      sampler ← lift (EventPipeEventDelivered EtwPointerSize GetFunctionInfo2 GetModuleMetaData type_fuel stackWalker_ reserve
                        admission service cancelled i eventId eventVersion (Z.of_nat (length data)) data (Some p));
      update (λ p, default p sampler);; mret []
  | OnCycle i samplingType selective interval =>
      CaptureSamples GetFunctionInfo2 GetModuleMetaData type_fuel stackWalker_ reserve emplace visit i samplingType selective interval;;
      on_stacks Reset;; mret []
  | ReadThreadSamples len buf interval =>
      p ← get;
      let '(r, s) := ThreadSamplingConsumeOneThreadSample len buf interval (cpu_buffers p) in
      update (with_cpu_buffers s);; mret (if decide (0 < read_result r) then [read_bytes r] else [])
  | ReadSelectedSamples len buf =>
      p ← get; update (with_selective_buffer (SelectiveSamplingConsumeAndClearBuffer len buf (selective_buffer p)).2);; mret []
  | ReadAllocationSamples len buf =>
      p ← get; update (with_allocation_buffer (AllocationSamplingConsumeAndReplaceBuffer len buf (allocation_buffer p)).2);; mret []
  end.

Fixpoint perform_events (es : list profiler_event) : P (list (list Z)) :=
  match es with
  | [] => mret []
  | e :: es => batches ← perform_event e; rest ← perform_events es; mret (batches ++ rest)
  end.

Context (name_of : FunctionIdentifier → list Z).

(** The arguments have the widths of their types. *)
Definition event_ok (e : profiler_event) : Prop :=
  match e with
  | OnThreadNameChanged _ name => units name
  | SetNativeContext _ _ _ high low span => 0 ≤ high < 2 ^ 64 ∧ 0 ≤ low < 2 ^ 64 ∧ 0 ≤ span < 2 ^ 64
  | UpdateTarget target _ _ => 0 ≤ target < 2 ^ 32
  | _ => True
  end.

(** ** What an allocation event leaves alone *)

Definition same_stacks_and_batches (p0 p : Profiler) : Prop := threadStacksBuffer p = threadStacksBuffer p0 ∧ cpu_buffers p = cpu_buffers p0.

Section Keeps.
Context (p0 : Profiler).
Abbreviation keeps m := (keeps (same_stacks_and_batches p0) m (λ _, True)).

Lemma keeps_seq {A B} (m : P A) (f : A → P B) : keeps m → (∀ a, keeps (f a)) → keeps (m ≫= f).
Proof. intros Hm Hf. eapply keeps_bind; [exact Hm|]. intros a _. apply Hf. Qed.
Lemma keeps_done {A} (a : A) : keeps (mret a : P A).
Proof. by apply keeps_ret. Qed.
Lemma keeps_read : keeps (get : P Profiler).
Proof. intros p Hp. by split. Qed.
Lemma keeps_lifted {A} (o : outcome unit A) : keeps (lift o).
Proof. intros p Hp. by split. Qed.
Lemma keeps_on_stack {A} (m : stM ThreadStacksBuffer unit A) b : keeps (on_stack m b).
Proof. intros p Hp. unfold on_stack. by destruct (m b) as [[]]. Qed.
Lemma keeps_update f : (∀ p, same_stacks_and_batches p0 p → same_stacks_and_batches p0 (f p)) → keeps (update f).
Proof. apply keeps_modify. Qed.

Ltac solve_keeps :=
  repeat first [apply keeps_done | apply keeps_read | apply keeps_lifted | apply keeps_on_stack | apply keeps_update; by intros ? [? ?]
               | apply keeps_seq; [|intros ?] | case_decide | case_match | progress cbv zeta].

Lemma keeps_snapshot calls b : keeps (snapshot_callbacks GetFunctionInfo2 reserve calls b).
Proof.
  revert b. induction calls as [|[id c] calls IH]; intros b; cbn [snapshot_callbacks]; [apply keeps_done|].
  apply keeps_seq; [|intros [hr b']; case_decide; [apply IH|apply keeps_done]].
  unfold HandleStackFrame, RecordManagedFrame. solve_keeps.
Qed.

Lemma keeps_ResolveFrames fs b : keeps (ProfilerState.ResolveFrames GetModuleMetaData type_fuel stackWalker_ fs b).
Proof. revert b. induction fs as [|f fs IH]; intros b; cbn [ProfilerState.ResolveFrames]; solve_keeps. apply IH. Qed.

Lemma keeps_AllocationTick i n data :
  keeps (AllocationTick EtwPointerSize GetFunctionInfo2 GetModuleMetaData type_fuel stackWalker_ reserve i n data).
Proof.
  unfold AllocationTick, AllocationTick_capture, CaptureAllocationStack, clear_identifiers, GetCurrentSpanContext, GetCurrentThreadState.
  solve_keeps; first [apply keeps_snapshot | apply keeps_ResolveFrames].
Qed.
End Keeps.

Lemma delivered_same admission service cancelled i id v data p p' :
  EventPipeEventDelivered EtwPointerSize GetFunctionInfo2 GetModuleMetaData type_fuel stackWalker_ reserve admission service cancelled i id v
    (Z.of_nat (length data)) data (Some p) = Ret (Some p') → same_stacks_and_batches p p'.
Proof.
  unfold EventPipeEventDelivered, OnAllocationTick.
  assert (Hp : same_stacks_and_batches p p) by done.
  case_decide; [|by intros [= <-]]. destruct admission; cbn [negb]; [|by intros [= <-]]. destruct service; [|by intros [= <-]].
  destruct cancelled; [by intros [= <-]|]. destruct (keeps_AllocationTick p i (Z.of_nat (length data)) data p Hp) as [Hk _].
  destruct (AllocationTick _ _ _ _ _ _ i _ data p) as [[]]; intros [=]; by subst.
Qed.

(** ** The invariant *)

Context (Hpointer : EtwPointerSize = 4 ∨ EtwPointerSize = 8).
Context (Hreserve : ∀ k n c, reserve k n = Some c → n ≤ c) (Hvisit : ∀ m, visit m ≡ₚ map_to_list m).
Context (Hunits : ∀ f, units (name_of f)) (Hnames : ∀ f, resolve_name GetModuleMetaData type_fuel stackWalker_ f = Ret (name_of f)).

Abbreviation profiler_ok := (profiler_ok GetFunctionInfo2 name_of).

Record system_ok (p : Profiler) : Prop := {
  system_profiler : profiler_ok p;
  system_idle : idle (threadStacksBuffer p);
  system_batches : ∀ b, b ∈ queue_of (cpu_buffers p) → decodable b.1;
}.

(** An event that leaves the captured stacks and the batches alone. *)
Lemma system_ok_same p p' : system_ok p → profiler_ok p' → same_stacks_and_batches p p' → system_ok p'.
Proof. intros [] Hp [H1 H2]. split; [done|by rewrite H1|by rewrite H2]. Qed.

Definition handled (e : profiler_event) (p : Profiler) : Prop :=
  ∃ batches p', perform_event e p = (Ret batches, p') ∧ system_ok p' ∧ Forall decodable batches.

(** An action that leaves the captured stacks and the batches alone. *)
Definition harmless (m : P unit) (p : Profiler) : Prop :=
  ∃ p', m p = (Ret tt, p') ∧ profiler_ok p' ∧ same_stacks_and_batches p p'.

Lemma handled_harmless e m p : perform_event e p = (m;; mret [] : P (list (list Z))) p → system_ok p → harmless m p → handled e p.
Proof.
  intros He Hs (p' & Hr & Hp & Hsame). exists [], p'. rewrite He. split; [by run_by (exact Hr)|].
  split; [by eapply system_ok_same|by apply Forall_nil_2].
Qed.

Lemma harmless_nothing p : profiler_ok p → harmless (mret tt) p.
Proof. intros Hp. by exists p. Qed.

Lemma harmless_update f p : profiler_ok (f p) → same_stacks_and_batches p (f p) → harmless (update f) p.
Proof. intros Hp Hs. by exists (f p). Qed.

Lemma contexts_ok p m : profiler_ok p → (∀ t c, m !! t = Some c → context_range c) → profiler_ok (with_contexts m p).
Proof. intros [] Hm. by split. Qed.

Lemma traces_size_ok p m : profiler_ok p → Z.of_nat (size m) ≤ kSelectiveSamplingMaxTraces → profiler_ok (with_traces m p).
Proof. intros [] Hm. by split. Qed.

Lemma states_ok p m : profiler_ok p → (∀ t name, m !! t = Some (Some name) → units name) → profiler_ok (with_thread_states m p).
Proof. intros [] Hm. by split. Qed.

Lemma sampler_changed_ok p s : profiler_ok p → sampler_ok s → profiler_ok (with_sampler (Some s) p).
Proof. intros [] Hs. split; try done. by intros s' [= <-]. Qed.

Lemma ThreadDestroyed_harmless t p : profiler_ok p → harmless (ThreadDestroyed t) p.
Proof.
  intros Hp. eexists. split; [by unfold ThreadDestroyed|]. split; [|done]. apply contexts_ok; [apply states_ok; [done|]|].
  - intros t' name [_ H]%lookup_delete_Some. by eapply ok_names.
  - intros t' c [_ H]%lookup_delete_Some. by eapply ok_contexts.
Qed.

Lemma ThreadNameChanged_harmless t name p : units name → profiler_ok p → harmless (ThreadNameChanged t name) p.
Proof.
  intros Hn Hp. eexists. split; [by unfold ThreadNameChanged|]. split; [|done]. apply states_ok; [done|].
  intros t' name' [[_ [= <-]]|[_ H]]%lookup_insert_Some; [done|by eapply ok_names].
Qed.

Lemma SetNativeContext_harmless admission info t high low span p :
  context_range (span_context high low span) → profiler_ok p → harmless (ContinuousProfilerSetNativeContext admission info t high low span) p.
Proof.
  intros He Hp. unfold ContinuousProfilerSetNativeContext. destruct admission; cbn [negb]; [|by apply harmless_nothing].
  destruct info; cbn [negb]; [|by apply harmless_nothing]. destruct t as [t|]; [|by apply harmless_nothing].
  eexists. split; [by unfold ThreadSpanContextMap_Put|]. split; [|done]. apply contexts_ok; [done|].
  intros t' c [[_ <-]|[_ H]]%lookup_insert_Some; [done|by eapply ok_contexts].
Qed.

Lemma SpanStopped_harmless high low span p : profiler_ok p → harmless (ContinuousProfilerNotifySpanStopped high low span) p.
Proof.
  intros Hp. eexists. split; [by unfold ContinuousProfilerNotifySpanStopped, ThreadSpanContextMap_Remove|]. split; [|done].
  apply contexts_ok; [done|]. intros t' c [H _]%map_lookup_filter_Some. by eapply ok_contexts.
Qed.

Lemma SelectiveSamplingStart_harmless info high low now p : profiler_ok p → harmless (SelectiveSamplingStart info high low now) p.
Proof.
  intros Hp. unfold SelectiveSamplingStart. destruct info; cbn [negb]; [|by apply harmless_nothing]. cbv zeta.
  destruct (trace_context_IsDefault _); [by apply harmless_nothing|]. unfold TryAddSelectiveSamplingTrace.
  destruct (decide (kSelectiveSamplingMaxTraces ≤ Z.of_nat (size (selective_sampling_trace_map p)))) as [Hfull|Hroom].
  - exists p. split; [|done]. by run_by (run_by done; by rewrite decide_True).
  - eexists. split; [run_by (run_by done; rewrite decide_False by done; cbv zeta; by run_by done); done|]. split; [|done].
    apply traces_size_ok; [done|]. set (c := {| trace_id_high_ := high; trace_id_low_ := low |}). set (m := selective_sampling_trace_map p) in *.
    destruct (m !! c) as [d|] eqn:E; [rewrite (map_size_insert_Some _ _ _) by (by rewrite E)|rewrite map_size_insert_None by done];
      unfold kSelectiveSamplingMaxTraces in *; lia.
Qed.

Lemma SelectiveSamplingStop_harmless info high low p : profiler_ok p → harmless (SelectiveSamplingStop info high low) p.
Proof.
  intros Hp. unfold SelectiveSamplingStop. destruct info; cbn [negb]; [|by apply harmless_nothing]. cbv zeta.
  destruct (trace_context_IsDefault _); [by apply harmless_nothing|]. eexists. split; [by unfold RemoveSelectiveSamplingTrace|]. split; [|done].
  apply traces_size_ok; [done|]. pose proof (ok_traces _ _ p Hp).
  pose proof (map_subseteq_size _ _ (delete_subseteq (selective_sampling_trace_map p) {| trace_id_high_ := high; trace_id_low_ := low |})). lia.
Qed.

Lemma UpdateTarget_harmless target now steadyNow p :
  0 ≤ target < 2 ^ 32 → profiler_ok p → harmless (UpdateAllocationSamplingTarget target now steadyNow) p.
Proof.
  intros Ht Hp. unfold harmless, UpdateAllocationSamplingTarget. erewrite stM_bind_Ret by done. cbv beta.
  destruct (allocationSubSampler p) as [s|] eqn:Es; [|by exists p].
  eexists. split; [done|]. split; [|done]. apply sampler_changed_ok; [done|]. apply SetTargetPerCycle_ok; [done|]. by apply (ok_sampler _ _ p Hp).
Qed.

Lemma EventPipeEvent_handled admission service cancelled i id v data p :
  event_ok (OnEventPipeEvent admission service cancelled i id v data) → system_ok p →
  handled (OnEventPipeEvent admission service cancelled i id v data) p.
Proof.
  intros He Hs. pose proof (system_profiler p Hs) as Hp.
  assert (∃ p', EventPipeEventDelivered EtwPointerSize GetFunctionInfo2 GetModuleMetaData type_fuel stackWalker_ reserve admission service cancelled
    i id v (Z.of_nat (length data)) data (Some p) = Ret (Some p') ∧ profiler_ok p') as (p' & Hr & Hp').
  { destruct (decide (id = 10 ∧ v = 4)) as [[-> ->]|Hd].
    - destruct (EventPipeEventDelivered_handled EtwPointerSize GetFunctionInfo2 GetModuleMetaData type_fuel stackWalker_ reserve name_of)
        with (callbackAdmission := admission) (service := service) (cancelled := cancelled) (i := i) (data := data) (p := p)
        as (p' & Hr & Hp' & _); [done..|]. by exists p'.
    - exists p. split; [|done]. unfold EventPipeEventDelivered. by rewrite decide_False. }
  exists [], p'. split; [|split; [|by apply Forall_nil_2]].
  - unfold perform_event. run_by done. by run_by (unfold lift; by rewrite Hr).
  - eapply system_ok_same; [done|done|]. by eapply delivered_same.
Qed.

Lemma Cycle_handled i ty selective interval p :
  event_ok (OnCycle i ty selective interval) → system_ok p → handled (OnCycle i ty selective interval) p.
Proof.
  intros He [Hp Hidle Hb].
  destruct (cycle_and_reset GetFunctionInfo2 GetModuleMetaData type_fuel stackWalker_ reserve emplace visit name_of Hreserve Hvisit
    i ty selective interval p Hp Hidle (λ f _, Hnames f)) as (p1 & p2 & Hr1 & Hr2 & Hp1 & Hdone & Hp2 & Hidle2).
  exists [], p2. split; [|split; [|by apply Forall_nil_2]].
  - unfold perform_event. run_by (exact Hr1). by run_by (exact Hr2).
  - split; [done|done|]. assert (Hsame : cpu_buffers p2 = cpu_buffers p1).
    { revert Hr2. unfold on_stacks. destruct (Reset (threadStacksBuffer p1)) as [r b]. by intros [= _ <-]. }
    rewrite Hsame. intros b Hin.
    destruct (cycle_batches GetFunctionInfo2 GetModuleMetaData type_fuel reserve emplace visit name_of Hvisit i ty selective interval p p1 Hp Hunits Hdone b Hin) as [H|H]; [by apply Hb|done].
Qed.

(** A read returns a batch of the queue, or nothing, and adds nothing to the queue. *)
Lemma consume_batches len buf interval s :
  slots_ok s →
  let '(r, s') := ThreadSamplingConsumeOneThreadSample len buf interval s in
  slots_ok s' ∧ (∀ b, b ∈ queue_of s' → b ∈ queue_of s) ∧ (0 < read_result r → ∃ i, (read_bytes r, i) ∈ queue_of s).
Proof.
  intros Hs. unfold ThreadSamplingConsumeOneThreadSample. case_decide; [cbn; split; [done|split; [done|lia]]|].
  unfold slots_ok, queue_of in *. destruct s as [[[a|] ia] [[b|] ib]]; cbn in Hs |- *.
  - rewrite decide_True by done. cbn. destruct (decide (len < Z.of_nat (length a))); cbn; (split; [done|split; [by right|]]); [lia|].
    intros _. exists ia. by left.
  - rewrite decide_True by done. cbn. destruct (decide (len < Z.of_nat (length a))); cbn; (split; [done|split; [by right|]]); [lia|].
    intros _. exists ia. by left.
  - by specialize (Hs eq_refl).
  - rewrite decide_False by tauto. cbn. split; [done|]. split; [done|lia].
Qed.

Lemma ReadThreadSamples_handled len buf interval p : system_ok p → handled (ReadThreadSamples len buf interval) p.
Proof.
  intros [Hp Hidle Hb]. pose proof (consume_batches len buf interval (cpu_buffers p) (ok_cpu _ _ p Hp)) as Hc. unfold handled, perform_event.
  erewrite stM_bind_Ret by done. cbv beta.
  destruct (ThreadSamplingConsumeOneThreadSample len buf interval (cpu_buffers p)) as [r s]. destruct Hc as (H1 & H2 & H3).
  eexists _, _. split; [by run_by done|]. split.
  - split; [by destruct Hp; split|done|]. intros b Hin. by apply Hb, H2.
  - case_decide; [|by apply Forall_nil_2]. apply Forall_singleton. destruct (H3 ltac:(done)) as [i Hi]. by apply (Hb _ Hi).
Qed.

Lemma ReadSelected_harmless len buf p :
  profiler_ok p → harmless (p ← get; update (with_selective_buffer (SelectiveSamplingConsumeAndClearBuffer len buf (selective_buffer p)).2)) p.
Proof.
  intros Hp. eexists. split; [by run_by done|]. split; [|done]. pose proof (ok_selective _ _ p Hp).
  assert (channel_ok (SelectiveSamplingConsumeAndClearBuffer len buf (selective_buffer p)).2).
  { unfold SelectiveSamplingConsumeAndClearBuffer. case_decide; [done|]. pose proof samples_buffer_size. cbn. split; lia. }
  destruct Hp. by split.
Qed.

Lemma ReadAllocations_harmless len buf p :
  profiler_ok p → harmless (p ← get; update (with_allocation_buffer (AllocationSamplingConsumeAndReplaceBuffer len buf (allocation_buffer p)).2)) p.
Proof.
  intros Hp. eexists. split; [by run_by done|]. split; [|done]. pose proof (ok_allocation _ _ p Hp).
  assert (Z.of_nat (length (AllocationSamplingConsumeAndReplaceBuffer len buf (allocation_buffer p)).2) < 204800).
  { unfold AllocationSamplingConsumeAndReplaceBuffer. case_decide; cbn; lia. }
  destruct Hp. by split.
Qed.

Lemma event_handled e p : event_ok e → system_ok p → handled e p.
Proof.
  intros He Hs. pose proof (system_profiler p Hs) as Hp. destruct e; try (by apply EventPipeEvent_handled || by apply Cycle_handled);
    try (eapply handled_harmless; [reflexivity|done|]).
  - by apply ThreadDestroyed_harmless.
  - by apply ThreadNameChanged_harmless.
  - by apply SetNativeContext_harmless.
  - by apply SpanStopped_harmless.
  - by apply SelectiveSamplingStart_harmless.
  - by apply SelectiveSamplingStop_harmless.
  - by apply UpdateTarget_harmless.
  - apply harmless_update; [|done]. apply sampler_changed_ok; [done|]. apply sampler_ok_init; lia.
  - by apply ReadThreadSamples_handled.
  - by apply ReadSelected_harmless.
  - by apply ReadAllocations_harmless.
Qed.

Lemma events_handled es p :
  Forall event_ok es → system_ok p →
  ∃ batches p', perform_events es p = (Ret batches, p') ∧ system_ok p' ∧ Forall decodable batches.
Proof.
  intros He. revert p. induction He as [|e es He _ IH]; intros p Hs; [by exists [], p|].
  destruct (event_handled e p He Hs) as (b1 & p1 & Hr1 & Hs1 & Hd1). destruct (IH p1 Hs1) as (b2 & p2 & Hr2 & Hs2 & Hd2).
  exists (b1 ++ b2), p2. split; [cbn [perform_events]; run_by (exact Hr1); by run_by (exact Hr2)|]. split; [done|by apply Forall_app].
Qed.

Lemma system_ok_init n m : (0 < n)%nat → system_ok (Profiler_sized n m).
Proof.
  intros Hn. split; [by apply Profiler_sized_ok| |].
  - intros t. unfold frames_at. cbn. by rewrite lookup_empty.
  - intros b Hb. by apply elem_of_nil in Hb.
Qed.
End Events.

(** ** Properties *)

(** C5: from the initial state, every sequence of callbacks, exported calls, allocation events,
    cycles and reads, in whatever order and with whatever arguments of their types, functions on the
    stacks, answers of the runtime, cancellations and refused storage, runs to its end without
    getting stuck or ending in an exception, if the metadata of every module can be read: following
    parents, enclosing types and the definitions of generic types descends (no type specification
    is an instance of itself), signatures are in memory and those the parser accepts have parameters
    of ECMA types, and names are of code units.  No name is used after it was evicted, no stack or
    node that is gone, nothing outside a payload or a signature, and every lookup finds the name of
    its function.  Afterwards there are at most 50 selected traces, and the captured stacks and the
    three buffers are within their bounds; and every batch of all threads the reader was given is
    whole, so that it can be decoded. *)
Theorem profiler_never_stuck EtwPointerSize info md fuel walker reserve emplace visit n m es :
  EtwPointerSize = 4 ∨ EtwPointerSize = 8 → (∀ k n c, reserve k n = Some c → n ≤ c) → (∀ m, visit m ≡ₚ map_to_list m) →
  metadata_readable md fuel walker → (0 < n)%nat → Forall event_ok es →
  ∃ batches p, perform_events EtwPointerSize info md fuel walker reserve emplace visit es (Profiler_sized n m) = (Ret batches, p) ∧
    Forall decodable batches ∧ profiler_ok info (resolved_name md fuel walker) p ∧
    Z.of_nat (size (selective_sampling_trace_map p)) ≤ 50 ∧ Z.of_nat (size (stacks_ (threadStacksBuffer p))) ≤ 1024 ∧
    Z.of_nat (length (selective_sampling_buffer (selective_buffer p))) ≤ 204800 ∧ Z.of_nat (length (allocation_buffer p)) < 204800.
Proof.
  intros H1 H2 H3 Hread Hn He. set (name_of := resolved_name md fuel walker).
  destruct (events_handled EtwPointerSize info md fuel walker reserve emplace visit name_of H1 H2 H3 (resolved_units _ _ _ Hread)
    (name_resolved _ _ _ Hread) es (Profiler_sized n m) He (system_ok_init info name_of n m Hn)) as (batches & p & Hr & [Hp _ _] & Hd).
  exists batches, p. split; [exact Hr|]. split; [done|]. split; [done|]. split; [apply (ok_traces _ _ p Hp)|].
  pose proof (ThreadStacks.ok_threads _ (ok_stacks _ _ p Hp)). pose proof samples_buffer_size. destruct (ok_selective _ _ p Hp) as [Hsel _].
  split; [done|]. split; [lia|]. apply (ok_allocation _ _ p Hp).
Qed.

(** Two threads, an allocation, a cycle, and reads. *)
Definition example_session : list profiler_event :=
  [OnThreadNameChanged 3 [97; 98]; SetNativeContext true true (Some 5) 1 2 3; StartSelecting true 1 2 0; CreateSubSampler 0 0; UpdateTarget 100 0 0;
   OnEventPipeEvent true true false example_input 10 4 (event_bytes 8 example_event); OnCycle two_stacks Continuous true 100;
   ReadThreadSamples 204800 true true; ReadSelectedSamples 204800 true; ReadAllocationSamples 204800 true; OnThreadDestroyed 3].

Lemma example_session_ok : Forall event_ok example_session.
Proof.
  repeat (apply Forall_cons; split;
    [first [exact I | cbn [event_ok]; lia
           | repeat (apply Forall_cons; split; [lia|]); by apply Forall_nil_2]|]).
  by apply Forall_nil_2.
Qed.

(** Every function is Outer.Inner.Run<T>(ref List<int>, T). *)
Definition example_info (id : Z) : option (Z * Z) := Some (7, 0x06000001).

Lemma profiler_never_stuck_witness :
  ∃ batches p, perform_events 8 example_info (λ _, Some example_metadata) 8 None granted (λ _, true) map_to_list example_session (Profiler_sized 10 10) =
      (Ret batches, p) ∧
    Forall decodable batches ∧ length batches = 1%nat.
Proof.
  destruct (profiler_never_stuck 8 example_info (λ _, Some example_metadata) 8 None granted (λ _, true) map_to_list 10 10 example_session
    ltac:(lia) ltac:(intros k n c [= <-]; lia) ltac:(done) example_readable ltac:(lia) example_session_ok) as (batches & p & H1 & H2 & _).
  exists batches, p. split; [exact H1|]. split; [exact H2|].
  apply (f_equal fst) in H1. revert H1. vm_compute. by intros [= <-].
Defined.
