(* ===== verification/StackWalkChecks.v ===== *)
(** * The checks of a stack walk probe (stack_walk_guard.h/.cpp)

    What the worker of the stack walk guard does for a probe: it tries, call by call, the locks the
    walk of a suspended thread will need, and for a probe of frame 0 reports that frame.  The checks
    are a tree ([probe]) of the calls they make, of the stages they announce and of the places where
    they look whether they have been abandoned.  Every call can have any answer; [None] is a fault or
    an exception, under the handler around the call.

    The main results: checks that pass report the managed frame with its context untouched, or a
    native frame with the context unwound from it; checks that are abandoned make at most one more
    call that can block; and they end within 13 steps. *)

From stdpp Require Import relations.
From S2P Require Import Prelude SamplingCycle.

Definition CORPROF_E_STACKSNAPSHOT_ABORTED : Z := s32 0x80131361.

Inductive ProbeResult :=
| Success
| Failed
| ResultStopping
| HeapOrStlLockTimeout
| CanaryDssTimeout
| RtlLookupTimeout
| ClrIpMapTimeout
| LoaderLockTimeout
| RtlUnwindTimeout.

Inductive State := Starting | Idle | Scheduled | Running | Stopping.

Inductive ProbeKind := KindNone | CanaryDss | RtlFrame0.

Inductive ProbeStage :=
| StageNone
| StageHeapOrStlGate
| StageCanaryDss
| StageRtlLookup
| StageClrIpMap
| StageLoaderLock
| StageRtlUnwind.

#[export] Instance ProbeResult_eq_dec : EqDecision ProbeResult.
Proof. solve_decision. Defined.
#[export] Instance State_eq_dec : EqDecision State.
Proof. solve_decision. Defined.
#[export] Instance ProbeKind_eq_dec : EqDecision ProbeKind.
Proof. solve_decision. Defined.

(** The registers of a thread; the program reads and writes two of them by name. *)
Record CONTEXT := { Rip : Z; Rsp : Z; registers : list Z }.

Definition CONTEXT_zero : CONTEXT := {| Rip := 0; Rsp := 0; registers := [] |}.
Definition CapturedFrame_zero : CapturedFrame :=
  {| frame_functionId := 0; frame_instructionPointer := 0; frame_threadId := 0; frame_isUnmanagedFrame := false |}.

(** [ctx_inout] and [frame_out] are addresses in the storage of the sampling thread; 0 is null. *)
Record ProbeRequest := {
  kind : ProbeKind;
  canary : Z;
  ctx_inout : Z;
  frame_out : Z;
  staged_ctx : CONTEXT;
  staged_frame : CapturedFrame;
}.

Definition ProbeRequest_init : ProbeRequest :=
  {| kind := KindNone; canary := 0; ctx_inout := 0; frame_out := 0; staged_ctx := CONTEXT_zero; staged_frame := CapturedFrame_zero |}.

Definition with_ctx (c : CONTEXT) (r : ProbeRequest) : ProbeRequest :=
  {| kind := kind r; canary := canary r; ctx_inout := ctx_inout r; frame_out := frame_out r; staged_ctx := c; staged_frame := staged_frame r |}.
Definition with_frame (functionId ip : Z) (unmanaged : bool) (r : ProbeRequest) : ProbeRequest :=
  {| kind := kind r; canary := canary r; ctx_inout := ctx_inout r; frame_out := frame_out r; staged_ctx := staged_ctx r;
     staged_frame := {| frame_functionId := functionId; frame_instructionPointer := ip;
                        frame_threadId := frame_threadId (staged_frame r); frame_isUnmanagedFrame := unmanaged |} |}.

Definition TimeoutResultForStage (stage : ProbeStage) : ProbeResult :=
  match stage with
  | StageHeapOrStlGate => HeapOrStlLockTimeout
  | StageCanaryDss => CanaryDssTimeout
  | StageRtlLookup => RtlLookupTimeout
  | StageClrIpMap => ClrIpMapTimeout
  | StageLoaderLock => LoaderLockTimeout
  | StageRtlUnwind => RtlUnwindTimeout
  | StageNone => Failed
  end.

(** ** The checks *)

(** A RUNTIME_FUNCTION: where it is and where the function begins in its image. *)
Record RUNTIME_FUNCTION := { rtFunc : Z; BeginAddress : Z }.

(** A call answers [None] when it faults, or throws, under the handler around it. *)
Inductive probe :=
| Checked (ok : bool) (req : ProbeRequest)
| SetStage (stage : ProbeStage) (k : probe)
| Abandoned (k : bool → probe)
| DoStackSnapshot (thread : Z) (k : option (Z * bool) → probe) (* the HRESULT, and whether the callback was called *)
| RtlLookupFunctionEntry (ip : Z) (k : option (Z * option RUNTIME_FUNCTION) → probe) (* the image and its entry *)
| GetFunctionFromIP (ip : Z) (k : option (Z * Z) → probe)
| GetModuleFileNameW (imageBase : Z) (k : option (Z * list Z) → probe)
| IsSystemModuleFromPath (imageBase : Z) (modulePath : list Z) (k : option bool → probe)
| ReadStack (address : Z) (k : option Z → probe)
| RtlVirtualUnwind (imageBase ip : Z) (f : RUNTIME_FUNCTION) (ctx : CONTEXT) (k : option CONTEXT → probe).

Definition RunCanaryChecks (req : ProbeRequest) : probe :=
  if decide (canary req = 0) then Checked true req
  else
    SetStage StageCanaryDss (DoStackSnapshot (canary req) (λ answer,
      match answer with
      | None => Checked false req
      | Some (hr, fired) =>
          if decide (fired = false ∨ hr ≠ CORPROF_E_STACKSNAPSHOT_ABORTED) then Checked false req
          else Abandoned (λ abandoned, Checked (negb abandoned) req)
      end)).

(** Step 4 and what follows it: unwinding a native frame. *)
Definition unwound (frame0Rip : Z) (req : ProbeRequest) (ctx : CONTEXT) : probe :=
  if decide (Rip ctx = frame0Rip) then Checked false (with_ctx ctx req)
  else Abandoned (λ abandoned, Checked (negb abandoned) (with_ctx ctx req)).

Definition unwind_frame (frame0Rip imageBase : Z) (rtFunc : option RUNTIME_FUNCTION) (req : ProbeRequest) : probe :=
  SetStage StageRtlUnwind
    match rtFunc with
    | None =>
        if decide (Rsp (staged_ctx req) = 0) then Checked false req
        else ReadStack (Rsp (staged_ctx req)) (λ answer,
          match answer with
          | None => Checked false req
          | Some rip => unwound frame0Rip req {| Rip := rip; Rsp := u64 (Rsp (staged_ctx req) + 8); registers := registers (staged_ctx req) |}
          end)
    | Some f => RtlVirtualUnwind imageBase frame0Rip f (staged_ctx req) (λ answer,
        match answer with None => Checked false req | Some ctx => unwound frame0Rip req ctx end)
    end.

(** Step 3a: where the frame is shown to be, from the answer of the classification. *)
Definition function_entry (imageBase : Z) (rtFunc : option RUNTIME_FUNCTION) (rip : Z) : Z :=
  match rtFunc with Some f => u64 (imageBase + BeginAddress f) | None => rip end.

Definition native_frame_ip (imageBase : Z) (rtFunc : option RUNTIME_FUNCTION) (rip : Z) (classified : option bool) : Z :=
  match classified with
  | Some isSystemModule => if isSystemModule : bool then function_entry imageBase rtFunc rip else imageBase
  | None => if decide (imageBase ≠ 0) then function_entry imageBase rtFunc rip else rip
  end.

Definition native_frame0 (frame0Rip imageBase : Z) (rtFunc : option RUNTIME_FUNCTION) (req : ProbeRequest) : probe :=
  let req := with_frame 0 frame0Rip true req in
  let compose classified :=
    unwind_frame frame0Rip imageBase rtFunc
      (with_frame 0 (native_frame_ip imageBase rtFunc (Rip (staged_ctx req)) classified) true req) in
  SetStage StageLoaderLock
    (if decide (imageBase ≠ 0) then
       GetModuleFileNameW imageBase (λ answer,
         Abandoned (λ abandoned,
           if abandoned then Checked false req
           else
             match answer with
             | Some (pathLen, modulePath) =>
                 if decide (pathLen ≠ 0) then IsSystemModuleFromPath imageBase modulePath compose else compose None
             | None => compose None
             end))
     else compose None).

Definition RunRtlFrame0Checks (req : ProbeRequest) : probe :=
  if decide (ctx_inout req = 0 ∨ frame_out req = 0) then Checked false req
  else
    let frame0Rip := Rip (staged_ctx req) in
    if decide (frame0Rip = 0) then Checked false req
    else
      SetStage StageRtlLookup (RtlLookupFunctionEntry frame0Rip (λ answer,
        match answer with
        | None => Checked false req
        | Some (imageBase, rtFunc) =>
            Abandoned (λ abandoned,
              if abandoned then Checked false req
              else
                SetStage StageClrIpMap (GetFunctionFromIP frame0Rip (λ answer,
                  match answer with
                  | None => Checked false req
                  | Some (fnHr, managedFuncId) =>
                      Abandoned (λ abandoned,
                        if abandoned then Checked false req
                        else if decide (0 ≤ fnHr ∧ managedFuncId ≠ 0) then
                          Abandoned (λ abandoned, Checked (negb abandoned) (with_frame managedFuncId frame0Rip false req))
                        else native_frame0 frame0Rip imageBase rtFunc req)
                  end)))
        end)).

Definition RunChecks (req : ProbeRequest) : probe :=
  match kind req with
  | CanaryDss => RunCanaryChecks req
  | RtlFrame0 => RunRtlFrame0Checks req
  | KindNone => Checked false req
  end.

(** ** Their steps *)

(** What the worker's next call answers, if it is in one. *)
Inductive answer :=
| NoCall
| Initialized (hr : option Z) (* None: it threw *)
| Allocated (ok : bool)
| Snapshot (a : option (Z * bool))
| Looked (a : option (Z * option RUNTIME_FUNCTION))
| Mapped (a : option (Z * Z))
| ModulePath (a : option (Z * list Z))
| Classified (a : option bool)
| StackRead (a : option Z)
| Unwound (a : option CONTEXT).

(** The next step of the checks; [abandoned] is what they see where they look. *)
Definition probe_step (abandoned : bool) (p : probe) (a : answer) : option probe :=
  match p, a with
  | SetStage _ k, NoCall => Some k
  | Abandoned k, NoCall => Some (k abandoned)
  | DoStackSnapshot _ k, Snapshot a => Some (k a)
  | RtlLookupFunctionEntry _ k, Looked a => Some (k a)
  | GetFunctionFromIP _ k, Mapped a => Some (k a)
  | GetModuleFileNameW _ k, ModulePath a => Some (k a)
  | IsSystemModuleFromPath _ _ k, Classified a => Some (k a)
  | ReadStack _ k, StackRead a => Some (k a)
  | RtlVirtualUnwind _ _ _ _ k, Unwound a => Some (k a)
  | _, _ => None
  end.
(** ** What the checks do *)

(** A step of checks that are not abandoned, and what checks that pass stage. *)
Definition quiet (p p' : probe) : Prop := ∃ a, probe_step false p a = Some p'.

Definition passes (req staged : ProbeRequest) : Prop := rtc quiet (RunChecks req) (Checked true staged).

(** Once they are abandoned, the checks make at most [n] more calls that take a lock of the loader
    or of the runtime or that read the memory of the thread.  IsSystemModuleFromPath is none. *)
Fixpoint at_most (n : nat) (p : probe) : Prop :=
  match p with
  | Checked _ _ => True
  | SetStage _ k => at_most n k
  | Abandoned k => at_most n (k true)
  | IsSystemModuleFromPath _ _ k => ∀ a, at_most n (k a)
  | DoStackSnapshot _ k => match n with O => False | S n => ∀ a, at_most n (k a) end
  | RtlLookupFunctionEntry _ k => match n with O => False | S n => ∀ a, at_most n (k a) end
  | GetFunctionFromIP _ k => match n with O => False | S n => ∀ a, at_most n (k a) end
  | GetModuleFileNameW _ k => match n with O => False | S n => ∀ a, at_most n (k a) end
  | ReadStack _ k => match n with O => False | S n => ∀ a, at_most n (k a) end
  | RtlVirtualUnwind _ _ _ _ k => match n with O => False | S n => ∀ a, at_most n (k a) end
  end.

(** A number of steps in which the checks end. *)
Inductive ends_within : nat → probe → Prop :=
| ends_checked n ok req : ends_within n (Checked ok req)
| ends_step n p : (∀ b a p', probe_step b p a = Some p' → ends_within n p') → ends_within (S n) p.

(** The postcondition of checks, by the calls they make. *)
Fixpoint always (Q : bool → ProbeRequest → Prop) (p : probe) : Prop :=
  match p with
  | Checked ok req => Q ok req
  | SetStage _ k => always Q k
  | Abandoned k => always Q (k false)
  | DoStackSnapshot _ k => ∀ a, always Q (k a)
  | RtlLookupFunctionEntry _ k => ∀ a, always Q (k a)
  | GetFunctionFromIP _ k => ∀ a, always Q (k a)
  | GetModuleFileNameW _ k => ∀ a, always Q (k a)
  | IsSystemModuleFromPath _ _ k => ∀ a, always Q (k a)
  | ReadStack _ k => ∀ a, always Q (k a)
  | RtlVirtualUnwind _ _ _ _ k => ∀ a, always Q (k a)
  end.

Lemma probe_step_always Q p a p' : always Q p → probe_step false p a = Some p' → always Q p'.
Proof. destruct p, a; cbn; intros; simplify_eq; auto. Qed.

Lemma quiet_always Q p ok req : always Q p → rtc quiet p (Checked ok req) → Q ok req.
Proof.
  intros Hp Hs. remember (Checked ok req) as p' eqn:E. induction Hs as [|p p1 p' [a Ha] _ IH]; subst; [done|].
  apply IH; [|done]. by eapply probe_step_always.
Qed.

(** The same for what can be said of every node. *)
Fixpoint everywhere (P : probe → Prop) (p : probe) : Prop :=
  P p ∧
  match p with
  | Checked _ _ => True
  | SetStage _ k => everywhere P k
  | Abandoned k => everywhere P (k false)
  | DoStackSnapshot _ k => ∀ a, everywhere P (k a)
  | RtlLookupFunctionEntry _ k => ∀ a, everywhere P (k a)
  | GetFunctionFromIP _ k => ∀ a, everywhere P (k a)
  | GetModuleFileNameW _ k => ∀ a, everywhere P (k a)
  | IsSystemModuleFromPath _ _ k => ∀ a, everywhere P (k a)
  | ReadStack _ k => ∀ a, everywhere P (k a)
  | RtlVirtualUnwind _ _ _ _ k => ∀ a, everywhere P (k a)
  end.

Lemma everywhere_now P p : everywhere P p → P p.
Proof. by destruct p; intros [? _]. Qed.

Lemma everywhere_quiet P p p' : everywhere P p → rtc quiet p p' → P p'.
Proof.
  intros Hp Hs. induction Hs as [p|p p1 p' [a Ha] _ IH]; [by apply everywhere_now|]. apply IH.
  destruct p, a; cbn in Ha; simplify_eq; destruct Hp; auto.
Qed.

(** Going through the branches of the checks of a request. *)
Ltac walk_checks :=
  repeat first
    [ progress intros
    | progress cbn [at_most always everywhere negb]
    | split
    | exact I
    | case_decide
    | match goal with
      | |- context [match ?x with Some _ => _ | None => _ end] => is_var x; destruct x
      | |- context [match ?x with (_, _) => _ end] => is_var x; destruct x
      end ].

Lemma checks_everywhere req : everywhere (at_most 1) (RunChecks req).
Proof.
  unfold RunChecks, RunCanaryChecks, RunRtlFrame0Checks, native_frame0, unwind_frame, unwound.
  destruct (kind req); walk_checks; try done.
Qed.

Lemma at_most_le p n : at_most n p → at_most (S n) p.
Proof.
  revert n. induction p as [| |k IH|t k IH|i k IH|i k IH|i k IH|i m k IH|i k IH|i j f c k IH]; intros [|n]; cbn; intros; try tauto; eauto; naive_solver.
Qed.

Lemma at_most_step n p a p' : at_most n p → probe_step true p a = Some p' → at_most n p'.
Proof. destruct n as [|n], p, a; cbn; intros; simplify_eq; try done; auto using at_most_le. Qed.

Lemma everywhere_step P p a p' : everywhere P p → probe_step false p a = Some p' → everywhere P p'.
Proof. destruct p, a; cbn; intros [_ H] ?; simplify_eq; auto. Qed.

(** The frame a probe of frame 0 reports: its managed function, with the context untouched; or a
    native frame, with the context unwound from it. *)
Definition managed_frame0 (req staged : ProbeRequest) : Prop :=
  staged_ctx staged = staged_ctx req ∧
  ∃ f, f ≠ 0 ∧ staged_frame staged = {| frame_functionId := f; frame_instructionPointer := Rip (staged_ctx req);
                                        frame_threadId := frame_threadId (staged_frame req); frame_isUnmanagedFrame := false |}.

Definition native_frame0_reported (req staged : ProbeRequest) : Prop :=
  Rip (staged_ctx staged) ≠ Rip (staged_ctx req) ∧
  ∃ imageBase rtFunc classified,
    staged_frame staged =
      {| frame_functionId := 0;
         frame_instructionPointer := native_frame_ip imageBase rtFunc (Rip (staged_ctx req)) classified;
         frame_threadId := frame_threadId (staged_frame req); frame_isUnmanagedFrame := true |}.

Definition frame0_reported (req staged : ProbeRequest) : Prop :=
  ctx_inout req ≠ 0 ∧ frame_out req ≠ 0 ∧ Rip (staged_ctx req) ≠ 0 ∧ (managed_frame0 req staged ∨ native_frame0_reported req staged).

Definition same_request (req staged : ProbeRequest) : Prop :=
  kind staged = kind req ∧ canary staged = canary req ∧ ctx_inout staged = ctx_inout req ∧ frame_out staged = frame_out req.

Lemma always_mono (Q Q' : bool → ProbeRequest → Prop) p : (∀ ok r, Q ok r → Q' ok r) → always Q p → always Q' p.
Proof. intros HQ. induction p; cbn; auto. Qed.

Lemma unwind_always frame0Rip imageBase f req :
  always (λ ok staged, ok = true → ∃ c, Rip c ≠ frame0Rip ∧ staged = with_ctx c req) (unwind_frame frame0Rip imageBase f req).
Proof. unfold unwind_frame, unwound. destruct f; walk_checks; try done; eauto. Qed.

Lemma native_always frame0Rip imageBase f req :
  always (λ ok staged, ok = true → ∃ c classified, Rip c ≠ frame0Rip ∧
      staged = with_ctx c (with_frame 0 (native_frame_ip imageBase f (Rip (staged_ctx req)) classified) true req))
    (native_frame0 frame0Rip imageBase f req).
Proof.
  assert (Hc : ∀ classified, let req' := with_frame 0 frame0Rip true req in
    always (λ ok staged, ok = true → ∃ c classified, Rip c ≠ frame0Rip ∧
        staged = with_ctx c (with_frame 0 (native_frame_ip imageBase f (Rip (staged_ctx req)) classified) true req))
      (unwind_frame frame0Rip imageBase f (with_frame 0 (native_frame_ip imageBase f (Rip (staged_ctx req')) classified) true req'))).
  { intros classified req'. eapply always_mono; [|apply unwind_always]. intros ok r H Hok. destruct (H Hok) as (c & Hne & ->). by exists c, classified. }
  unfold native_frame0. cbn [always]. case_decide; [|apply Hc]. intros [[n m]|]; cbn [always]; [|apply Hc].
  case_decide; [|apply Hc]. cbn [always]. intros classified. apply Hc.
Qed.

Lemma rtl_always req :
  always (λ ok staged, ok = true → same_request req staged ∧ frame0_reported req staged) (RunRtlFrame0Checks req).
Proof.
  unfold RunRtlFrame0Checks. case_decide as Hp; [done|]. case_decide as Hr; [done|].
  assert (ctx_inout req ≠ 0 ∧ frame_out req ≠ 0) as [Hp1 Hp2] by tauto.
  intros [[imageBase f]|]; [|done]. intros [[fnHr managedFuncId]|]; [|done]. cbn. case_decide as Hm.
  - intros _. split; [done|]. split; [done|]. split; [done|]. split; [done|]. left. split; [done|]. exists managedFuncId. by destruct Hm.
  - eapply always_mono; [|apply native_always]. intros ok staged H Hok. destruct (H Hok) as (c & classified & Hne & ->).
    split; [done|]. split; [done|]. split; [done|]. split; [done|]. right. split; [done|]. by exists imageBase, f, classified.
Qed.

Lemma passes_same req staged : passes req staged → same_request req staged.
Proof.
  intros H. refine (quiet_always (λ ok staged, ok = true → same_request req staged) _ _ _ _ H eq_refl). unfold RunChecks.
  destruct (kind req); [done| |eapply always_mono; [|apply rtl_always]; naive_solver].
  unfold RunCanaryChecks. walk_checks; done.
Qed.

Lemma passes_frame0 req staged : passes req staged → kind req = RtlFrame0 → frame0_reported req staged.
Proof.
  intros H Hk. refine (quiet_always (λ ok staged, ok = true → frame0_reported req staged) _ _ _ _ H eq_refl). unfold RunChecks.
  rewrite Hk. eapply always_mono; [|apply rtl_always]. naive_solver.
Qed.

Lemma ends_le n m p : ends_within n p → (n ≤ m)%nat → ends_within m p.
Proof.
  intros H. revert m. induction H as [n ok req|n p _ IH]; intros m Hm; [constructor|]. destruct m as [|m]; [lia|].
  constructor. intros b a p' Ha. apply (IH b a p' Ha). lia.
Qed.

Ltac checks_end_in tac :=
  repeat first
    [ progress cbv beta zeta
    | tac
    | apply ends_checked
    | case_decide
    | match goal with |- ends_within _ (match ?x with _ => _ end) => destruct x end
    | apply ends_step; intros ? [] ? ?; cbn [probe_step] in *; simplify_eq ].

Lemma unwind_ends frame0Rip imageBase f req : ends_within 3 (unwind_frame frame0Rip imageBase f req).
Proof. unfold unwind_frame, unwound. checks_end_in fail. Qed.

Lemma checks_end req : ends_within 13 (RunChecks req).
Proof.
  unfold RunChecks, RunCanaryChecks, RunRtlFrame0Checks, native_frame0. destruct (kind req).
  all: checks_end_in ltac:(idtac; match goal with |- ends_within _ (unwind_frame _ _ _ _) => eapply ends_le; [apply unwind_ends|lia] end).
Qed.
