(* ===== verification/StackWalkGuard.v ===== *)
(** * The guard of the stack walks (stack_walk_guard.h/.cpp)

    Before the sampling thread walks the stack of a thread it has suspended, a worker of its own
    tries the locks the walk will need: a probe.  If the suspended thread holds one of them it is
    the worker that blocks; the sampling thread gives up after a timeout and abandons the probe.
    The two and the shutdown meet under one mutex and one condition variable.

    A run is an interleaving of actions: each is a critical section of the mutex, a notification, or
    what lies between two of them, such as one step of the checks of [StackWalkChecks]; every call
    can take any time.  The waits are modelled with sleeping and waking, so that a notification can
    be lost; [StackWalkProgress] shows that none is.  That locking a mutex fails, for which the outer
    handler of WorkerLoop is there, is not modelled.

    The main results: whatever the interleaving, the worker writes through the pointers it was lent
    only while their owner waits for this very probe; a verdict of success is about the probe it was
    asked for, of which every check has passed; and an abandoned probe makes at most one more call. *)
From stdpp Require Import relations.
From S2P Require Import Prelude SamplingCycle StackWalkChecks.

(** ** The guard, its worker and its callers *)

(** Where the worker is: behind each constructor, what it does next. *)
Inductive worker_at :=
| WStart (* tests for a shutdown *)
| WInitialize (* InitializeCurrentThread *)
| WReady (hr : Z) (* publishes that it is ready, or that it failed *)
| WNotify (last : bool) (* notify_all, and whether that is all *)
| WWait (asleep : bool) (* waits for a request *)
| WGate (req : ProbeRequest) (* announces the gate *)
| WAllocating (req : ProbeRequest) (* std::vector *)
| WGated (req : ProbeRequest) (threw : bool)
| WProbe (req : ProbeRequest) (p : probe) (* in RunChecks, for the request it took *)
| WPublish (req : ProbeRequest) (ok : bool) (staged : ProbeRequest)
| WDone.

(** Where the sampling thread is.  It lends its storage, a context and a frame, for a capture
    ([loan]); [before] is what it held when the probe was scheduled, [last] how the last probe of
    the capture ended. *)
Record loan := { loan_ctx : Z; loan_frame : Z }.

Record round := { round_req : ProbeRequest; round_before : option (CONTEXT * CapturedFrame); round_result : ProbeResult }.

Inductive caller_at :=
| CIdle
| CHolding (l : loan) (last : option round)
| CScheduling (l : loan) (req : ProbeRequest) (asleep : bool)
| CScheduled (l : loan) (req : ProbeRequest) (before : option (CONTEXT * CapturedFrame))
| CAwaiting (l : loan) (req : ProbeRequest) (before : option (CONTEXT * CapturedFrame)) (asleep : bool).

(** A call of WaitForInitialization. *)
Inductive init_at := IWaiting (asleep : bool) | IReturned (ready : bool).

#[export] Instance init_at_eq_dec : EqDecision init_at.
Proof. solve_decision. Defined.

Record guard := {
  state_ : State;
  req_ : ProbeRequest;
  abandon_ : bool;
  result_ : ProbeResult;
  active_stage_ : ProbeStage;
}.

(** [stop_notifying]: RequestShutdown has left the mutex and is about to notify.  [contexts] and
    [frames] are the objects of the sampling thread that exist; [faulted]: the worker wrote to one
    that does not. *)
Record guarded := {
  the_guard : guard;
  worker : worker_at;
  caller : caller_at;
  inits : gmap nat init_at;
  stop_notifying : bool;
  contexts : gmap Z CONTEXT;
  frames_out : gmap Z CapturedFrame;
  faulted : bool;
}.

Definition guarded_init : guarded :=
  {| the_guard := {| state_ := Starting; req_ := ProbeRequest_init; abandon_ := false; result_ := Failed; active_stage_ := StageNone |};
     worker := WStart; caller := CIdle; inits := ∅; stop_notifying := false; contexts := ∅; frames_out := ∅; faulted := false |}.

Definition with_state (st : State) (g : guard) : guard :=
  {| state_ := st; req_ := req_ g; abandon_ := abandon_ g; result_ := result_ g; active_stage_ := active_stage_ g |}.
Definition with_stage (stage : ProbeStage) (g : guard) : guard :=
  {| state_ := state_ g; req_ := req_ g; abandon_ := abandon_ g; result_ := result_ g; active_stage_ := stage |}.
Definition with_result (r : ProbeResult) (g : guard) : guard :=
  {| state_ := state_ g; req_ := req_ g; abandon_ := abandon_ g; result_ := r; active_stage_ := active_stage_ g |}.
Definition abandon (g : guard) : guard :=
  {| state_ := state_ g; req_ := req_ g; abandon_ := true; result_ := result_ g; active_stage_ := active_stage_ g |}.

Definition set_guard (f : guard → guard) (w : guarded) : guarded :=
  {| the_guard := f (the_guard w); worker := worker w; caller := caller w; inits := inits w; stop_notifying := stop_notifying w;
     contexts := contexts w; frames_out := frames_out w; faulted := faulted w |}.
Definition set_worker (l : worker_at) (w : guarded) : guarded :=
  {| the_guard := the_guard w; worker := l; caller := caller w; inits := inits w; stop_notifying := stop_notifying w;
     contexts := contexts w; frames_out := frames_out w; faulted := faulted w |}.
Definition set_caller (l : caller_at) (w : guarded) : guarded :=
  {| the_guard := the_guard w; worker := worker w; caller := l; inits := inits w; stop_notifying := stop_notifying w;
     contexts := contexts w; frames_out := frames_out w; faulted := faulted w |}.
Definition set_inits (m : gmap nat init_at) (w : guarded) : guarded :=
  {| the_guard := the_guard w; worker := worker w; caller := caller w; inits := m; stop_notifying := stop_notifying w;
     contexts := contexts w; frames_out := frames_out w; faulted := faulted w |}.
Definition set_stopping (b : bool) (w : guarded) : guarded :=
  {| the_guard := the_guard w; worker := worker w; caller := caller w; inits := inits w; stop_notifying := b;
     contexts := contexts w; frames_out := frames_out w; faulted := faulted w |}.
Definition set_storage (cs : gmap Z CONTEXT) (fs : gmap Z CapturedFrame) (fault : bool) (w : guarded) : guarded :=
  {| the_guard := the_guard w; worker := worker w; caller := caller w; inits := inits w; stop_notifying := stop_notifying w;
     contexts := cs; frames_out := fs; faulted := fault |}.

Abbreviation st w := (state_ (the_guard w)).

(** ** The condition variable *)

Definition awake_worker (l : worker_at) : worker_at := match l with WWait _ => WWait false | _ => l end.
Definition awake_caller (l : caller_at) : caller_at :=
  match l with
  | CScheduling l req _ => CScheduling l req false
  | CAwaiting l req before _ => CAwaiting l req before false
  | _ => l
  end.
Definition awake_init (l : init_at) : init_at := match l with IWaiting _ => IWaiting false | _ => l end.

Definition notify_all (w : guarded) : guarded :=
  set_worker (awake_worker (worker w)) (set_caller (awake_caller (caller w)) (set_inits (awake_init <$> inits w) w)).

(** Who is woken by [notify_one]: the choice is not the program's, but one that sleeps, if one does. *)
Inductive wakes := WakesWorker | WakesInit (i : nat) | WakesNobody.

Definition notify_one (who : wakes) (w : guarded) : option guarded :=
  match who with
  | WakesWorker => match worker w with WWait true => Some (set_worker (WWait false) w) | _ => None end
  | WakesInit i =>
      match inits w !! i with Some (IWaiting true) => Some (set_inits (<[i := IWaiting false]> (inits w)) w) | _ => None end
  | WakesNobody =>
      match worker w with
      | WWait true => None
      | _ => if decide (map_Forall (λ _ l, l ≠ IWaiting true) (inits w)) then Some w else None
      end
  end.

(** ** The worker *)
(** What a step of the checks does to the guard. *)
Definition announce (p : probe) (g : guard) : guard := match p with SetStage stage _ => with_stage stage g | _ => g end.

Definition is_initialized (hr : Z) : bool := bool_decide (0 ≤ hr).

Definition publish_ready (hr : Z) (w : guarded) : guarded :=
  if decide (st w = Stopping) then set_worker WDone w
  else if is_initialized hr then set_worker (WNotify false) (set_guard (with_state Idle) w)
  else set_worker (WNotify true) (set_guard (λ g, with_state Stopping (with_result Failed g)) w).

(** [*req.ctx_inout = req.staged_ctx; *req.frame_out = req.staged_frame] *)
Definition commit (staged : ProbeRequest) (w : guarded) : guarded :=
  match contexts w !! ctx_inout staged, frames_out w !! frame_out staged with
  | Some _, Some _ =>
      set_storage (<[ctx_inout staged := staged_ctx staged]> (contexts w)) (<[frame_out staged := staged_frame staged]> (frames_out w)) (faulted w) w
  | _, _ => set_storage (contexts w) (frames_out w) true w
  end.

Definition publish (ok : bool) (staged : ProbeRequest) (w : guarded) : guarded :=
  if decide (st w = Stopping) then set_worker WDone w
  else
    let success := ok && negb (abandon_ (the_guard w)) in
    let w :=
      if decide (success = true ∧ kind staged = RtlFrame0 ∧ ctx_inout staged ≠ 0 ∧ frame_out staged ≠ 0) then commit staged w else w in
    set_worker (WNotify false)
      (set_guard (λ g, with_stage StageNone (with_state Idle (with_result (if success then Success else Failed) g))) w).

Definition gate_failed (w : guarded) : guarded :=
  if decide (st w = Stopping) then set_worker WDone w
  else set_worker (WNotify false) (set_guard (λ g, with_stage StageNone (with_state Idle (with_result Failed g))) w).

(** [WorkerLoopCore], a step at a time. *)
Definition WorkerLoop (a : answer) (w : guarded) : option guarded :=
  match worker w, a with
  | WStart, NoCall => Some (set_worker (if decide (st w = Stopping) then WDone else WInitialize) w)
  | WInitialize, Initialized hr => Some (set_worker (WReady (default E_FAIL hr)) w)
  | WReady hr, NoCall => Some (publish_ready hr w)
  | WNotify last, NoCall => Some (set_worker (if last then WDone else WWait false) (notify_all w))
  | WWait false, NoCall =>
      Some match st w with
           | Stopping => set_worker WDone w
           | Scheduled => set_worker (WGate (req_ (the_guard w))) (set_guard (with_state Running) w)
           | _ => set_worker (WWait true) w
           end
  | WGate req, NoCall => Some (set_worker (WAllocating req) (set_guard (with_stage StageHeapOrStlGate) w))
  | WAllocating req, Allocated ok => Some (set_worker (WGated req (negb ok)) w)
  | WGated req true, NoCall => Some (gate_failed w)
  | WGated req false, NoCall =>
      Some (set_worker (if abandon_ (the_guard w) then WPublish req false req else WProbe req (RunChecks req)) w)
  | WProbe req (Checked ok staged), NoCall => Some (set_worker (WPublish req ok staged) w)
  | WProbe req p, a =>
      match probe_step (abandon_ (the_guard w)) p a with
      | Some p' => Some (set_worker (WProbe req p') (set_guard (announce p) w))
      | None => None
      end
  | WPublish _ ok staged, NoCall => Some (publish ok staged w)
  | _, _ => None
  end.

(** ** The sampling thread *)

(** What the storage of a loan holds. *)
Definition storage (l : loan) (w : guarded) : option (CONTEXT * CapturedFrame) :=
  match contexts w !! loan_ctx l, frames_out w !! loan_frame l with Some c, Some f => Some (c, f) | _, _ => None end.

Definition latch (l : loan) (req : ProbeRequest) (w : guarded) : guarded :=
  set_caller (CScheduled l req (storage l w))
    (set_guard (λ _, {| state_ := Scheduled; req_ := req; abandon_ := false; result_ := Failed; active_stage_ := StageNone |}) w).

Definition can_schedule (w : guarded) : bool := bool_decide (st w = Idle ∨ st w = Stopping).

(** [Schedule], from where its wait ends; [ready] is what [wait_for] returned. *)
Definition Schedule_end (l : loan) (req : ProbeRequest) (ready : bool) (who : wakes) (w : guarded) : option guarded :=
  if decide (ready = false ∨ st w = Stopping) then Some (set_caller (CHolding l None) w) else notify_one who (latch l req w).

Definition end_round (l : loan) (req : ProbeRequest) (before : option (CONTEXT * CapturedFrame)) (r : ProbeResult) (w : guarded) : guarded :=
  set_caller (CHolding l (Some {| round_req := req; round_before := before; round_result := r |})) w.

(** [AwaitProbeResult], from where its wait ends. *)
Definition AwaitProbeResult_end (l : loan) (req : ProbeRequest) (before : option (CONTEXT * CapturedFrame)) (done : bool) (w : guarded) : guarded :=
  if decide (st w = Stopping) then end_round l req before ResultStopping (set_guard abandon w)
  else if done then end_round l req before (result_ (the_guard w)) w
  else
    let timeoutResult := TimeoutResultForStage (active_stage_ (the_guard w)) in
    end_round l req before timeoutResult (set_guard (λ g, with_result timeoutResult (abandon g)) w).

Definition dss_request (thread : Z) : ProbeRequest :=
  {| kind := CanaryDss; canary := thread; ctx_inout := 0; frame_out := 0; staged_ctx := CONTEXT_zero; staged_frame := CapturedFrame_zero |}.

(** [ScheduleRtlFrame0Probe] before it calls [Schedule]: nothing for a null pointer, and [Stuck] for
    a dangling one. *)
Definition rtl_request (ctx frame : Z) (m : gmap Z CONTEXT) : outcome unit ProbeRequest :=
  if decide (ctx = 0 ∨ frame = 0) then Err tt
  else
    match m !! ctx with
    | Some c => Ret {| kind := RtlFrame0; canary := 0; ctx_inout := ctx; frame_out := frame; staged_ctx := c; staged_frame := CapturedFrame_zero |}
    | None => Stuck
    end.

(** ** Runs *)

Inductive guard_action :=
| Worker (a : answer)
| WorkerWakes (* spuriously *)
| Begin (l : loan) (ctx : CONTEXT) (* a capture with its storage, the context being that of its thread *)
| End
| ScheduleRtlFrame0Probe
| ScheduleDssProbe (thread : Z)
| AwaitProbeResult
| CallerTests (who : wakes) (* its predicate, under the mutex *)
| CallerTimesOut (who : wakes)
| CallerWakes
| RequestShutdown
| ShutdownNotifies
| WaitForInitialization (i : nat)
| InitTests (i : nat)
| InitWakes (i : nat).

Definition caller_tests (timeout : bool) (who : wakes) (w : guarded) : option guarded :=
  match caller w with
  | CScheduling l req asleep =>
      if timeout then Schedule_end l req (can_schedule w) who w
      else if asleep then None
      else if can_schedule w then Schedule_end l req true who w
      else Some (set_caller (CScheduling l req true) w)
  | CAwaiting l req before asleep =>
      if timeout then Some (AwaitProbeResult_end l req before (can_schedule w) w)
      else if asleep then None
      else if can_schedule w then Some (AwaitProbeResult_end l req before true w)
      else Some (set_caller (CAwaiting l req before true) w)
  | _ => None
  end.

Definition init_tests (i : nat) (w : guarded) : option guarded :=
  match inits w !! i with
  | Some (IWaiting false) =>
      Some (set_inits (<[i := if decide (st w = Starting) then IWaiting true else IReturned (bool_decide (st w = Idle))]> (inits w)) w)
  | _ => None
  end.

(** [RequestShutdown], until it notifies. *)
Definition request_shutdown (w : guarded) : guarded :=
  if decide (st w = Stopping) then w else set_stopping true (set_guard (λ g, with_state Stopping (abandon g)) w).

Definition guard_fire (a : guard_action) (w : guarded) : option guarded :=
  match a with
  | Worker a => WorkerLoop a w
  | WorkerWakes => match worker w with WWait true => Some (set_worker (WWait false) w) | _ => None end
  | Begin l ctx =>
      match caller w with
      | CIdle =>
          if decide (loan_ctx l = 0 ∨ loan_frame l = 0) then None
          else Some (set_caller (CHolding l None) (set_storage {[loan_ctx l := ctx]} {[loan_frame l := CapturedFrame_zero]} (faulted w) w))
      | _ => None
      end
  | End => match caller w with CHolding _ _ => Some (set_caller CIdle (set_storage ∅ ∅ (faulted w) w)) | _ => None end
  | ScheduleRtlFrame0Probe =>
      match caller w with
      | CHolding l _ =>
          match rtl_request (loan_ctx l) (loan_frame l) (contexts w) with
          | Ret req => Some (set_caller (CScheduling l req false) w)
          | Err _ => Some (set_caller (CHolding l None) w)
          | _ => Some (set_storage (contexts w) (frames_out w) true w)
          end
      | _ => None
      end
  | ScheduleDssProbe thread =>
      match caller w with CHolding l _ => Some (set_caller (CScheduling l (dss_request thread) false) w) | _ => None end
  | AwaitProbeResult =>
      match caller w with CScheduled l req before => Some (set_caller (CAwaiting l req before false) w) | _ => None end
  | CallerTests who => caller_tests false who w
  | CallerTimesOut who => caller_tests true who w
  | CallerWakes => match caller w with CScheduling _ _ true | CAwaiting _ _ _ true => Some (set_caller (awake_caller (caller w)) w) | _ => None end
  | RequestShutdown => Some (request_shutdown w)
  | ShutdownNotifies => if stop_notifying w then Some (set_stopping false (notify_all w)) else None
  | WaitForInitialization i => match inits w !! i with None => Some (set_inits (<[i := IWaiting false]> (inits w)) w) | Some _ => None end
  | InitTests i => init_tests i w
  | InitWakes i =>
      match inits w !! i with Some (IWaiting true) => Some (set_inits (<[i := IWaiting false]> (inits w)) w) | _ => None end
  end.

Definition guard_step (w w' : guarded) : Prop := ∃ a, guard_fire a w = Some w'.
(** ** The protocol *)

Definition loan_of (c : caller_at) : option loan :=
  match c with CIdle => None | CHolding l _ | CScheduling l _ _ | CScheduled l _ _ | CAwaiting l _ _ _ => Some l end.

Definition round_of (c : caller_at) : option (loan * ProbeRequest * option (CONTEXT * CapturedFrame)) :=
  match c with CScheduled l req before | CAwaiting l req before _ => Some (l, req, before) | _ => None end.

Definition probing (l : worker_at) : option ProbeRequest :=
  match l with WGate req | WAllocating req | WGated req _ | WProbe req _ | WPublish req _ _ => Some req | _ => None end.

Definition request_of (l : loan) (req : ProbeRequest) : Prop :=
  kind req = RtlFrame0 → ctx_inout req = loan_ctx l ∧ frame_out req = loan_frame l.

(** The storage holds what checks that passed have staged, if they stage anything. *)
Definition committed (l : loan) (req : ProbeRequest) (before : option (CONTEXT * CapturedFrame)) (w : guarded) : Prop :=
  ∃ staged, passes req staged ∧
    storage l w = if decide (kind req = RtlFrame0) then Some (staged_ctx staged, staged_frame staged) else before.

Definition verdict (l : loan) (req : ProbeRequest) (before : option (CONTEXT * CapturedFrame)) (r : ProbeResult) (w : guarded) : Prop :=
  match r with
  | Success => committed l req before w
  | ResultStopping => storage l w = before ∨ committed l req before w
  | _ => storage l w = before
  end.

Record guarded_ok (w : guarded) : Prop := {
  ok_faulted : faulted w = false;
  ok_worker :
    match worker w with
    | WStart | WInitialize | WReady _ => st w = Starting ∨ st w = Stopping
    | WNotify true | WDone => st w = Stopping
    | WNotify false | WWait _ => st w = Idle ∨ st w = Scheduled ∨ st w = Stopping
    | _ => st w = Running ∨ st w = Stopping
    end;
  ok_request : st w = Running → probing (worker w) = Some (req_ (the_guard w));
  ok_probe : ∀ req p, worker w = WProbe req p →
    at_most 1 p ∧ (∃ n, ends_within n p ∧ (n ≤ 13)%nat) ∧ (abandon_ (the_guard w) = false → rtc quiet (RunChecks req) p);
  ok_passed : ∀ req staged, worker w = WPublish req true staged → abandon_ (the_guard w) = false → passes req staged;
  ok_loan : ∀ l, loan_of (caller w) = Some l → loan_ctx l ≠ 0 ∧ loan_frame l ≠ 0 ∧ is_Some (storage l w);
  ok_scheduling : ∀ l req asleep, caller w = CScheduling l req asleep → request_of l req;
  ok_round : ∀ l req before, round_of (caller w) = Some (l, req, before) →
    request_of l req ∧
    match st w with
    | Starting => False
    | Scheduled | Running => req_ (the_guard w) = req ∧ abandon_ (the_guard w) = false ∧ storage l w = before
    | Idle => verdict l req before (result_ (the_guard w)) w ∧ result_ (the_guard w) ≠ ResultStopping
    | Stopping => verdict l req before ResultStopping w
    end;
  ok_abandoned : round_of (caller w) = None → st w = Scheduled ∨ st w = Running → abandon_ (the_guard w) = true;
  ok_last : ∀ l r, caller w = CHolding l (Some r) → verdict l (round_req r) (round_before r) (round_result r) w;
}.

Lemma guarded_init_ok : guarded_ok guarded_init.
Proof. split; cbn; try done; naive_solver. Qed.

Lemma awake_round c : round_of (awake_caller c) = round_of c.
Proof. by destruct c. Qed.

Lemma awake_loan c : loan_of (awake_caller c) = loan_of c.
Proof. by destruct c. Qed.

Lemma guarded_notify_all_ok w : guarded_ok w → guarded_ok (notify_all w).
Proof.
  intros [H1 H2 H3 H4 H5 H6 H7 H8 H9 H10]. destruct w as [[s rq ab rs sg] wk cl ins sn cs fs ft]; cbn in *.
  split; cbn; rewrite ?awake_round, ?awake_loan; try done.
  - by destruct wk.
  - by destruct wk.
  - intros req p. by destruct wk; intros ?; simplify_eq/=; apply H4.
  - intros req p. by destruct wk; intros ?; simplify_eq/=; apply H5.
  - intros l req asleep. destruct cl; cbn; intros; simplify_eq/=; eauto.
  - intros l r. destruct cl; cbn; intros; simplify_eq/=; eauto.
Qed.

(** The worker moves between places where it has no checks to answer for. *)
Lemma set_worker_ok l w :
  guarded_ok w →
  match l with
  | WStart | WInitialize | WReady _ => st w = Starting ∨ st w = Stopping
  | WNotify true | WDone => st w = Stopping
  | WNotify false | WWait _ => st w = Idle ∨ st w = Scheduled ∨ st w = Stopping
  | WGate _ | WAllocating _ | WGated _ _ => (st w = Running ∨ st w = Stopping) ∧ probing l = probing (worker w)
  | WProbe _ _ | WPublish _ true _ => False
  | WPublish _ false _ => (st w = Running ∨ st w = Stopping) ∧ probing l = probing (worker w)
  end → guarded_ok (set_worker l w).
Proof.
  intros [H1 H2 H3 H4 H5 H6 H7 H8 H9 H10] Hl. split; cbn; try done.
  - destruct l as [| | |[]| | | |? []| |? []|]; tauto.
  - intros Hst. specialize (H3 Hst). rewrite Hst in Hl. destruct l as [| | |[]| | | |? []| |? []|]; cbn in *; try (by destruct Hl as [_ ->]); naive_solver.
  - intros req p ->. done.
  - intros req staged ->. done.
Qed.

Lemma quiet_guard_ok f w :
  (∀ g, state_ (f g) = state_ g) → (∀ g, req_ (f g) = req_ g) → (∀ g, abandon_ (f g) = abandon_ g) → (∀ g, result_ (f g) = result_ g) →
  guarded_ok w → guarded_ok (set_guard f w).
Proof.
  intros E1 E2 E3 E4 [H1 H2 H3 H4 H5 H6 H7 H8 H9 H10]. split; cbn; rewrite ?E1, ?E2, ?E3, ?E4; done.
Qed.

(** The worker publishes a state that no probe is in. *)
Lemma publish_state_ok f (last : bool) w :
  guarded_ok w → state_ (f (the_guard w)) = (if last then Stopping else Idle) →
  (∀ l req before, round_of (caller w) = Some (l, req, before) →
     if last then verdict l req before ResultStopping w
     else verdict l req before (result_ (f (the_guard w))) w ∧ result_ (f (the_guard w)) ≠ ResultStopping) →
  guarded_ok (set_worker (WNotify last) (set_guard f w)).
Proof.
  intros [H1 H2 H3 H4 H5 H6 H7 H8 H9 H10] Hs Hr. split; cbn; rewrite ?Hs; try done.
  - destruct last; [done|]. by left.
  - by destruct last.
  - intros l req before E. destruct (H8 _ _ _ E) as [Hreq _]. split; [done|]. specialize (Hr _ _ _ E). by destruct last.
  - by destruct last; intros _ [].
Qed.

(** Nothing has been committed for a round that is under way. *)
Lemma round_pending w l req before :
  guarded_ok w → st w = Scheduled ∨ st w = Running → round_of (caller w) = Some (l, req, before) →
  req_ (the_guard w) = req ∧ abandon_ (the_guard w) = false ∧ storage l w = before.
Proof. intros Hok Hst Hr. destruct (ok_round w Hok _ _ _ Hr) as [_ H]. by destruct Hst as [E|E]; rewrite E in H. Qed.

Lemma publish_ready_ok hr w : guarded_ok w → worker w = WReady hr → guarded_ok (publish_ready hr w).
Proof.
  intros Hok Hw. pose proof (ok_worker w Hok) as Hst. rewrite Hw in Hst. unfold publish_ready.
  destruct (decide (st w = Stopping)) as [Hs|Hs]; [by apply set_worker_ok|].
  assert (Hnone : ∀ l req before, round_of (caller w) ≠ Some (l, req, before)).
  { intros l req before Hr. destruct (ok_round w Hok _ _ _ Hr) as [_ H]. destruct Hst as [E|E]; by rewrite E in H. }
  destruct (is_initialized hr); apply publish_state_ok; try done; intros l req before Hr; by destruct (Hnone _ _ _ Hr).
Qed.

Lemma gate_failed_ok req w : guarded_ok w → worker w = WGated req true → guarded_ok (gate_failed w).
Proof.
  intros Hok Hw. pose proof (ok_worker w Hok) as Hst. rewrite Hw in Hst. unfold gate_failed.
  destruct (decide (st w = Stopping)) as [Hs|Hs]; [by apply set_worker_ok|]. apply publish_state_ok; [done|done|].
  intros l req' before Hr. destruct (round_pending w l req' before Hok) as (_ & _ & H); [tauto|done|done].
Qed.

(** What is committed is what the round that is waited for has staged. *)
Lemma commit_ok ok staged req w :
  guarded_ok w → worker w = WPublish req ok staged → st w ≠ Stopping → ok && negb (abandon_ (the_guard w)) = true →
  ∃ l before, round_of (caller w) = Some (l, req, before) ∧ passes req staged ∧ request_of l req ∧ is_Some (storage l w) ∧
    storage l w = before ∧ loan_ctx l ≠ 0 ∧ loan_frame l ≠ 0.
Proof.
  intros Hok Hw Hs [-> Ha%negb_true_iff]%andb_prop. pose proof (ok_worker w Hok) as Hst. rewrite Hw in Hst.
  assert (Hrun : st w = Running) by tauto. pose proof (ok_request w Hok Hrun) as Hreq. rewrite Hw in Hreq. cbn in Hreq. simplify_eq.
  destruct (round_of (caller w)) as [[[l req] before]|] eqn:Hr.
  - destruct (ok_round w Hok _ _ _ Hr) as [Hof _]. destruct (round_pending w l req before Hok) as (E & _ & Hb); [tauto|done|].
    exists l, before. rewrite E in *. assert (loan_of (caller w) = Some l) as Hl by (destruct (caller w); by simplify_eq/=).
    destruct (ok_loan w Hok l Hl) as (? & ? & ?). split; [done|]. split; [by eapply ok_passed|done].
  - rewrite (ok_abandoned w Hok Hr) in Ha by tauto. done.
Qed.

Lemma storage_insert l c f w :
  is_Some (storage l w) →
  storage l (set_storage (<[loan_ctx l := c]> (contexts w)) (<[loan_frame l := f]> (frames_out w)) (faulted w) w) = Some (c, f).
Proof. intros _. unfold storage. cbn. by rewrite !lookup_insert_eq. Qed.

Lemma loan_round w l req before : round_of (caller w) = Some (l, req, before) → loan_of (caller w) = Some l.
Proof. destruct (caller w); intros; by simplify_eq/=. Qed.

(** Other storage than that of the round does not exist. *)
Lemma set_storage_ok l req before cs fs w :
  guarded_ok w → round_of (caller w) = Some (l, req, before) → st w = Running →
  is_Some (storage l (set_storage cs fs (faulted w) w)) →
  ∀ f, state_ (f (the_guard w)) = Idle → result_ (f (the_guard w)) ≠ ResultStopping →
  verdict l req before (result_ (f (the_guard w))) (set_storage cs fs (faulted w) w) →
  guarded_ok (set_worker (WNotify false) (set_guard f (set_storage cs fs (faulted w) w))).
Proof.
  intros [H1 H2 H3 H4 H5 H6 H7 H8 H9 H10] Hr Hrun Hst f Hf Hres Hv. pose proof (loan_round _ _ _ _ Hr) as Hl.
  split; cbn; rewrite ?Hf; try done.
  - by left.
  - intros l' Hl'. rewrite Hl in Hl'. simplify_eq. by destruct (H6 l' Hl) as (? & ? & _).
  - intros l' req' before' Hr'. rewrite Hr in Hr'. simplify_eq. by destruct (H8 _ _ _ Hr) as [? _].
  - by intros _ [].
  - intros l' r E. rewrite E in Hr. done.
Qed.

Lemma publish_ok req ok staged w : guarded_ok w → worker w = WPublish req ok staged → guarded_ok (publish ok staged w).
Proof.
  intros Hok Hw. pose proof (ok_worker w Hok) as Hst. rewrite Hw in Hst. unfold publish.
  destruct (decide (st w = Stopping)) as [Hs|Hs]; [by apply set_worker_ok|]. assert (Hrun : st w = Running) by tauto. cbv zeta.
  destruct (ok && negb (abandon_ (the_guard w))) eqn:Hsucc.
  - destruct (commit_ok ok staged req w Hok Hw Hs Hsucc) as (l & before & Hr & Hp & Hof & Hsome & Hb & Hl1 & Hl2).
    destruct (passes_same _ _ Hp) as (Ek & _ & Ec & Ef). rewrite Ek, Ec, Ef. destruct (decide (kind req = RtlFrame0)) as [Hk|Hk].
    + destruct (Hof Hk) as [-> ->]. rewrite decide_True by done. unfold commit. rewrite Ec, Ef. destruct (Hof Hk) as [-> ->].
      destruct Hsome as [[c f] Hsome]. unfold storage in Hsome. destruct (contexts w !! loan_ctx l) eqn:E1; [|done].
      destruct (frames_out w !! loan_frame l) eqn:E2; [|done]. eapply set_storage_ok; try done.
      * rewrite storage_insert; [done|]. unfold storage. by rewrite E1, E2.
      * exists staged. split; [done|]. rewrite storage_insert, decide_True; [done|done|]. unfold storage. by rewrite E1, E2.
    + rewrite decide_False by tauto. apply publish_state_ok; [done|done|]. intros l' req' before' Hr'. rewrite Hr in Hr'. simplify_eq.
      split; [|done]. exists staged. split; [done|]. by rewrite decide_False.
  - rewrite decide_False by (by intros [? _]). apply publish_state_ok; [done|done|].
    intros l req' before Hr. destruct (round_pending w l req' before Hok) as (_ & _ & H); [tauto|done|done].
Qed.

(** A step of the checks. *)
Lemma probe_step_ok req p a p' w :
  guarded_ok w → worker w = WProbe req p → probe_step (abandon_ (the_guard w)) p a = Some p' →
  guarded_ok (set_worker (WProbe req p') (set_guard (announce p) w)).
Proof.
  intros Hok Hw Hp. destruct (ok_probe w Hok _ _ Hw) as (Ha & (n & Hn & Hn13) & Hq).
  assert (Hok' : guarded_ok (set_guard (announce p) w)) by (apply quiet_guard_ok; by destruct p).
  pose proof (ok_worker w Hok) as Hst. rewrite Hw in Hst.
  assert (Hann : ∀ (A : Type) (f : guard → A), (∀ stage g, f (with_stage stage g) = f g) → f (announce p (the_guard w)) = f (the_guard w)).
  { intros A f Hf. destruct p; cbn; auto. }
  destruct Hok' as [H1 H2 H3 H4 H5 H6 H7 H8 H9 H10]. split; cbn in *; try done.
  - by rewrite (Hann _ state_).
  - intros E. specialize (H3 E). rewrite Hw in H3. done.
  - intros ? ? [= <- <-]. rewrite (Hann _ abandon_) by done. split; [|split].
    + destruct (abandon_ (the_guard w)); [by eapply at_most_step|].
      apply (everywhere_quiet (at_most 1) (RunChecks req)); [apply checks_everywhere|].
      eapply rtc_r; [by apply Hq|]. by exists a.
    + inversion Hn as [|n' ? Hstep]; subst; [by destruct a|]. exists n'. split; [by eapply Hstep|lia].
    + intros E. rewrite E in Hp. eapply rtc_r; [by apply Hq|]. by exists a.
Qed.

Lemma checked_ok req ok staged w :
  guarded_ok w → worker w = WProbe req (Checked ok staged) → guarded_ok (set_worker (WPublish req ok staged) w).
Proof.
  intros Hok Hw. destruct (ok_probe w Hok _ _ Hw) as (_ & _ & Hq). pose proof (ok_worker w Hok) as Hst. rewrite Hw in Hst.
  destruct Hok as [H1 H2 H3 H4 H5 H6 H7 H8 H9 H10]. split; cbn; try done.
  - intros E. specialize (H3 E). by rewrite Hw in H3.
  - intros ? ? [= <- -> <-]. done.
Qed.

Lemma start_checks_ok req w :
  guarded_ok w → worker w = WGated req false →
  guarded_ok (set_worker (if abandon_ (the_guard w) then WPublish req false req else WProbe req (RunChecks req)) w).
Proof.
  intros Hok Hw. pose proof (ok_worker w Hok) as Hst. rewrite Hw in Hst. destruct (abandon_ (the_guard w)).
  - apply set_worker_ok; [done|]. by rewrite Hw.
  - destruct Hok as [H1 H2 H3 H4 H5 H6 H7 H8 H9 H10]. split; cbn; try done.
    + intros E. specialize (H3 E). by rewrite Hw in H3.
    + intros ? ? [= <- <-]. split; [apply everywhere_now, checks_everywhere|]. split; [|done]. exists 13%nat. split; [apply checks_end|done].
Qed.

Lemma take_request_ok w :
  guarded_ok w → worker w = WWait false → st w = Scheduled → guarded_ok (set_worker (WGate (req_ (the_guard w))) (set_guard (with_state Running) w)).
Proof.
  intros [H1 H2 H3 H4 H5 H6 H7 H8 H9 H10] Hw Hs. split; cbn; try done.
  - by left.
  - intros l req before Hr. specialize (H8 _ _ _ Hr). by rewrite Hs in H8.
  - intros Hr _. apply H9; [done|by left].
Qed.

Lemma WorkerLoop_ok a w w' : guarded_ok w → WorkerLoop a w = Some w' → guarded_ok w'.
Proof.
  intros Hok Hf. pose proof (ok_worker w Hok) as Hst. unfold WorkerLoop in Hf.
  destruct (worker w) as [| |hr|last|[]|req|req|req []|req p|req ok staged|] eqn:Hw; try (by destruct a; simplify_eq).
  - destruct a; simplify_eq. apply set_worker_ok; [done|]. case_decide; tauto.
  - destruct a; simplify_eq. by apply set_worker_ok.
  - destruct a; simplify_eq. by apply publish_ready_ok.
  - destruct a; simplify_eq. apply set_worker_ok; [by apply guarded_notify_all_ok|]. by destruct last.
  - destruct a; simplify_eq. destruct (st w) eqn:Hs; try (by apply set_worker_ok; rewrite ?Hs; naive_solver). by apply take_request_ok.
  - destruct a; simplify_eq. apply (set_worker_ok _ (set_guard _ w)); [by apply quiet_guard_ok|]. cbn. by rewrite Hw.
  - destruct a; simplify_eq. apply set_worker_ok; [done|]. by rewrite Hw.
  - destruct a; simplify_eq. by eapply gate_failed_ok.
  - destruct a; simplify_eq. by apply start_checks_ok.
  - assert (Hstep : match probe_step (abandon_ (the_guard w)) p a with
              | Some p' => Some (set_worker (WProbe req p') (set_guard (announce p) w)) | None => None end = Some w' → guarded_ok w').
    { destruct (probe_step _ p a) as [p'|] eqn:Hp; [|done]. intros ?. simplify_eq. by eapply probe_step_ok. }
    destruct p; try by apply Hstep. destruct a; simplify_eq. by apply checked_ok.
  - destruct a; simplify_eq. by eapply publish_ok.
Qed.

(** ** The calls *)

Lemma set_caller_quiet c w :
  guarded_ok w → round_of c = round_of (caller w) → loan_of c = loan_of (caller w) →
  (∀ l req asleep, c = CScheduling l req asleep → request_of l req) → (∀ l r, c ≠ CHolding l (Some r)) →
  guarded_ok (set_caller c w).
Proof.
  intros [H1 H2 H3 H4 H5 H6 H7 H8 H9 H10] E1 E2 Hs Hh. split; cbn; rewrite ?E1, ?E2; try done.
  intros l r ->. by destruct (Hh l r).
Qed.

Lemma Schedule_end_ok l req asleep ready who w w' :
  guarded_ok w → caller w = CScheduling l req asleep → (ready = true → st w = Idle ∨ st w = Stopping) →
  Schedule_end l req ready who w = Some w' → guarded_ok w'.
Proof.
  intros Hok Hc Hready. unfold Schedule_end. case_decide as Hd; intros Hf; simplify_eq.
  { apply set_caller_quiet; rewrite ?Hc; done. }
  assert (st w = Idle) as Hs by (destruct ready; tauto).
  assert (Hl : guarded_ok (latch l req w)).
  { pose proof (ok_worker w Hok) as Hst. rewrite Hs in Hst. destruct Hok as [H1 H2 H3 H4 H5 H6 H7 H8 H9 H10]. split; cbn; try done.
    - destruct (worker w) as [| | |[]| | | | | | |]; naive_solver.
    - intros req' p Hw. rewrite Hw in Hst. naive_solver.
    - intros req' staged Hw. rewrite Hw in Hst. naive_solver.
    - intros l' [= <-]. apply H6. by rewrite Hc.
    - intros ? ? ? [= <- <- <-]. split; [by eapply H7|done]. }
  unfold notify_one in Hf. destruct who as [|i|].
  - destruct (worker _) as [| | |[]|[]| | | | | |] eqn:Hw; simplify_eq. apply set_worker_ok; [done|]. cbn. tauto.
  - destruct (inits _ !! i) as [[[]|]|]; simplify_eq. by destruct Hl.
  - by destruct (worker _) as [| | |[]|[]| | | | | |]; try case_decide; simplify_eq.
Qed.

Lemma timeout_result stage : TimeoutResultForStage stage ≠ Success ∧ TimeoutResultForStage stage ≠ ResultStopping.
Proof. by destruct stage. Qed.

Lemma verdict_timeout l req before stage w : verdict l req before (TimeoutResultForStage stage) w ↔ storage l w = before.
Proof. by destruct stage. Qed.

(** A round ends: what it leaves is abandoned, or published. *)
Lemma end_round_ok f l req before r w :
  guarded_ok w → round_of (caller w) = Some (l, req, before) → (∀ g, state_ (f g) = state_ g) → (∀ g, req_ (f g) = req_ g) →
  (∀ g, abandon_ (f g) = abandon_ g ∨ abandon_ (f g) = true) → (st w = Scheduled ∨ st w = Running → abandon_ (f (the_guard w)) = true) →
  verdict l req before r w → guarded_ok (end_round l req before r (set_guard f w)).
Proof.
  intros [H1 H2 H3 H4 H5 H6 H7 H8 H9 H10] Hr E1 E2 Ha Hab Hv. split; cbn; rewrite ?E1, ?E2; try done.
  - intros req' p Hw. destruct (H4 _ _ Hw) as (? & ? & Hq). split; [done|]. split; [done|]. intros E. apply Hq.
    destruct (Ha (the_guard w)) as [E'|E']; congruence.
  - intros req' staged Hw E. eapply H5; [done|]. destruct (Ha (the_guard w)) as [E'|E']; congruence.
  - intros l' [= <-]. apply H6. by eapply loan_round.
  - intros ? ? E. by simplify_eq.
Qed.

Lemma AwaitProbeResult_end_ok l req before asleep done w :
  guarded_ok w → caller w = CAwaiting l req before asleep → (done = false → st w ≠ Idle) → (done = true → st w = Idle ∨ st w = Stopping) →
  guarded_ok (AwaitProbeResult_end l req before done w).
Proof.
  intros Hok Hc Hnd Hd. assert (Hr : round_of (caller w) = Some (l, req, before)) by (by rewrite Hc).
  destruct (ok_round w Hok _ _ _ Hr) as [_ Hv]. unfold AwaitProbeResult_end. case_decide as Hs.
  - rewrite Hs in Hv. apply end_round_ok; auto.
  - destruct done.
    + assert (st w = Idle) as E by (destruct Hd; tauto). rewrite E in Hv.
      assert (guarded_ok (end_round l req before (result_ (the_guard w)) (set_guard id w))) as H.
      { apply end_round_ok; auto; [rewrite E; naive_solver|by destruct Hv]. }
      by destruct w as [[] ? ? ? ? ? ? ?].
    + cbv zeta. apply (end_round_ok (λ g, with_result _ (abandon g))); auto. apply verdict_timeout.
      destruct (st w) eqn:E; try done; [by destruct Hnd|by destruct Hv as (_ & _ & ?)..].
Qed.

Lemma can_schedule_spec w : can_schedule w = true ↔ st w = Idle ∨ st w = Stopping.
Proof. unfold can_schedule. apply bool_decide_eq_true. Qed.

Lemma caller_tests_ok timeout who w w' : guarded_ok w → caller_tests timeout who w = Some w' → guarded_ok w'.
Proof.
  intros Hok. unfold caller_tests. pose proof (can_schedule_spec w) as Hcs.
  destruct (caller w) as [|l last|l req asleep|l req before|l req before asleep] eqn:Hc; try done.
  - intros Hf. destruct timeout; [|destruct asleep; [done|]].
    + eapply Schedule_end_ok; [done|done| |done]. apply Hcs.
    + destruct (can_schedule w); [eapply Schedule_end_ok; [done|done| |done]; by apply Hcs|]. simplify_eq.
      apply set_caller_quiet; rewrite ?Hc; try done. intros ? ? ? [= <- <- _]. by eapply ok_scheduling.
  - intros Hf. destruct timeout; [|destruct asleep; [done|]].
    + simplify_eq. eapply AwaitProbeResult_end_ok; [done|done| |apply Hcs].
      intros Hd Hi. assert (can_schedule w = true) by (apply Hcs; tauto). congruence.
    + destruct (can_schedule w); simplify_eq; [eapply AwaitProbeResult_end_ok; [done|done|done|]; intros; by apply Hcs|].
      apply set_caller_quiet; rewrite ?Hc; done.
Qed.

Lemma set_inits_ok m w : guarded_ok w → guarded_ok (set_inits m w).
Proof. by intros [H1 H2 H3 H4 H5 H6 H7 H8 H9 H10]; split. Qed.

Lemma set_stopping_ok b w : guarded_ok w → guarded_ok (set_stopping b w).
Proof. by intros [H1 H2 H3 H4 H5 H6 H7 H8 H9 H10]; split. Qed.

Lemma Begin_ok l ctx w :
  guarded_ok w → caller w = CIdle → loan_ctx l ≠ 0 → loan_frame l ≠ 0 →
  guarded_ok (set_caller (CHolding l None) (set_storage {[loan_ctx l := ctx]} {[loan_frame l := CapturedFrame_zero]} (faulted w) w)).
Proof.
  intros [H1 H2 H3 H4 H5 H6 H7 H8 H9 H10] Hc Hl1 Hl2. rewrite Hc in *. split; cbn; try done.
  intros ? [= <-]. unfold storage. cbn. by rewrite !lookup_singleton_eq.
Qed.

Lemma End_ok l last w : guarded_ok w → caller w = CHolding l last → guarded_ok (set_caller CIdle (set_storage ∅ ∅ (faulted w) w)).
Proof. intros [H1 H2 H3 H4 H5 H6 H7 H8 H9 H10] Hc. rewrite Hc in *. by split. Qed.

Lemma rtl_request_ok l last w :
  guarded_ok w → caller w = CHolding l last →
  ∃ req, rtl_request (loan_ctx l) (loan_frame l) (contexts w) = Ret req ∧ request_of l req ∧ ∃ f, storage l w = Some (staged_ctx req, f).
Proof.
  intros Hok Hc. destruct (ok_loan w Hok l) as (Hl1 & Hl2 & [s Hs]); [by rewrite Hc|]. unfold storage in *. unfold rtl_request.
  rewrite decide_False by tauto. destruct (contexts w !! loan_ctx l) as [c|]; [|done]. eexists. split; [done|]. split; [done|].
  destruct (frames_out w !! loan_frame l) as [f|]; [|done]. by exists f.
Qed.

Lemma RequestShutdown_ok w : guarded_ok w → guarded_ok (set_guard (λ g, with_state Stopping (abandon g)) w).
Proof.
  intros [H1 H2 H3 H4 H5 H6 H7 H8 H9 H10]. split; cbn; try done.
  - destruct (worker w) as [| | |[]| | | | | | |]; tauto.
  - intros req p Hw. by destruct (H4 _ _ Hw) as (? & ? & _).
  - intros l req before Hr. destruct (H8 _ _ _ Hr) as [? Hv]. split; [done|]. change (verdict l req before ResultStopping w).
    destruct (st w); try done; [|left; tauto..]. destruct (result_ (the_guard w)); cbn in Hv; try (left; tauto). right. tauto.
Qed.

Lemma guard_fire_ok a w w' : guarded_ok w → guard_fire a w = Some w' → guarded_ok w'.
Proof.
  intros Hok. destruct a as [a| |l ctx| | |thread| |who|who| | | |i|i|i]; cbn.
  - by apply WorkerLoop_ok.
  - pose proof (ok_worker w Hok) as Hst. destruct (worker w) as [| | | |[]| | | | | |]; intros; simplify_eq. by apply set_worker_ok.
  - destruct (caller w) eqn:Hc; try done. case_decide; intros; simplify_eq. apply Begin_ok; [done|done|tauto..].
  - destruct (caller w) eqn:Hc; intros; simplify_eq. by eapply End_ok.
  - destruct (caller w) eqn:Hc; try done. destruct (rtl_request_ok _ _ _ Hok Hc) as (req & -> & Hreq & _). intros; simplify_eq.
    apply set_caller_quiet; rewrite ?Hc; try done. by intros ? ? ? [= <- <- _].
  - destruct (caller w) eqn:Hc; intros; simplify_eq. apply set_caller_quiet; rewrite ?Hc; try done. by intros ? ? ? [= <- <- _].
  - destruct (caller w) eqn:Hc; intros; simplify_eq. by apply set_caller_quiet; rewrite ?Hc.
  - by apply caller_tests_ok.
  - by apply caller_tests_ok.
  - intros Hf. assert (w' = set_caller (awake_caller (caller w)) w ∧ (∀ l r, caller w ≠ CHolding l r)) as [-> Hn].
    { destruct (caller w) as [| |? ? []| |? ? ? []]; by simplify_eq. }
    apply set_caller_quiet; [done|apply awake_round|apply awake_loan| |].
    + intros l req asleep E. destruct (caller w) eqn:Hc; cbn in E; simplify_eq. by eapply ok_scheduling.
    + intros l r E. destruct (caller w) eqn:Hc; cbn in E; by simplify_eq.
  - unfold request_shutdown. case_decide; intros; simplify_eq; [done|]. by apply set_stopping_ok, RequestShutdown_ok.
  - destruct (stop_notifying w); intros; simplify_eq. by apply set_stopping_ok, guarded_notify_all_ok.
  - destruct (inits w !! i); intros; simplify_eq. by apply set_inits_ok.
  - unfold init_tests. destruct (inits w !! i) as [[[]|]|]; intros; simplify_eq. by apply set_inits_ok.
  - destruct (inits w !! i) as [[[]|]|]; intros; simplify_eq. by apply set_inits_ok.
Qed.

Lemma guard_steps_ok w : rtc guard_step guarded_init w → guarded_ok w.
Proof.
  intros Hs. revert w Hs. apply rtc_ind_r; [apply guarded_init_ok|].
  intros w1 w2 _ [a Ha] Hok. by eapply guard_fire_ok.
Qed.

(** ** Safety *)

(** What a step of the worker does to the storage. *)
Lemma WorkerLoop_storage a w w' :
  guarded_ok w → WorkerLoop a w = Some w' →
  contexts w' = contexts w ∧ frames_out w' = frames_out w ∨
  ∃ l req before staged, round_of (caller w) = Some (l, req, before) ∧ kind req = RtlFrame0 ∧ passes req staged ∧
    storage l w = before ∧ storage l w' = Some (staged_ctx staged, staged_frame staged).
Proof.
  intros Hok Hf. unfold WorkerLoop in Hf.
  destruct (worker w) as [| |hr|last|[]|req|req|req []|req p|req ok staged|] eqn:Hw; try (by destruct a; simplify_eq; left).
  - destruct a; simplify_eq. left. unfold publish_ready. by repeat case_match.
  - destruct a; simplify_eq. left. by destruct (st w).
  - destruct a; simplify_eq. left. unfold gate_failed. by case_decide.
  - left. destruct p; repeat case_match; by simplify_eq.
  - destruct a; simplify_eq. unfold publish. destruct (decide (st w = Stopping)) as [Hs|Hs]; [by left|].
    case_decide as Hd; [|by left]. destruct Hd as (Hsucc & Hk & _). right.
    destruct (commit_ok ok staged req w Hok Hw Hs Hsucc) as (l & before & Hr & Hp & Hof & Hsome & Hb & _).
    destruct (passes_same _ _ Hp) as (Ek & _ & Ec & Ef). rewrite Ek in Hk. destruct (Hof Hk) as [El Er].
    exists l, req, before, staged. split; [done|]. split; [done|]. split; [done|]. split; [done|]. unfold commit. rewrite Ec, Ef, El, Er.
    pose proof (storage_insert l (staged_ctx staged) (staged_frame staged) w Hsome) as Hi. destruct Hsome as [? Hsome].
    unfold storage in Hsome. by destruct (contexts w !! loan_ctx l), (frames_out w !! loan_frame l).
Qed.

(** C25: Whatever the interleaving of captures, probes, timeouts and shutdowns, the worker never writes to
    storage that does not exist any more; it changes storage only while the sampling thread is in the round of
    the very probe the storage was lent for, and then to what checks of this request have staged; and a probe
    makes, from when it is abandoned, at most one more call that can block on a lock or read the thread. *)
Theorem guard_storage_safe w a w' :
  rtc guard_step guarded_init w → guard_fire (Worker a) w = Some w' →
  faulted w' = false ∧
  (contexts w' = contexts w ∧ frames_out w' = frames_out w ∨
   ∃ l req before staged, round_of (caller w) = Some (l, req, before) ∧ kind req = RtlFrame0 ∧ passes req staged ∧
     storage l w = before ∧ storage l w' = Some (staged_ctx staged, staged_frame staged)) ∧
  ∀ req p, worker w' = WProbe req p → at_most 1 p.
Proof.
  intros Hs%guard_steps_ok Hf. pose proof (guard_fire_ok (Worker a) w w' Hs Hf) as Hok'. split; [apply Hok'|].
  split; [by eapply WorkerLoop_storage|]. intros req p Hp. by destruct (ok_probe _ Hok' _ _ Hp).
Qed.

(** A verdict of success is about the probe that was scheduled: all its checks passed without having
    been abandoned, and for a probe of frame 0 the storage holds what they staged, the managed frame with the
    context untouched or a native frame with the context unwound from it. After any other verdict but that of
    a shutdown the storage is as it was. *)
Theorem guard_verdict w l r :
  rtc guard_step guarded_init w → caller w = CHolding l (Some r) →
  (round_result r = Success → ∃ staged, passes (round_req r) staged ∧
     if decide (kind (round_req r) = RtlFrame0)
     then storage l w = Some (staged_ctx staged, staged_frame staged) ∧ frame0_reported (round_req r) staged
     else storage l w = round_before r) ∧
  (round_result r ≠ Success → round_result r ≠ ResultStopping → storage l w = round_before r).
Proof.
  intros Hs%guard_steps_ok Hc. pose proof (ok_last w Hs l r Hc) as Hv. split.
  - intros E. rewrite E in Hv. destruct Hv as (staged & Hp & Hst). exists staged. split; [done|].
    destruct (decide _) as [Hk|Hk]; [|done]. split; [done|]. by apply passes_frame0.
  - intros. by destruct (round_result r).
Qed.
(** ** Examples *)

Definition run_guard (l : list guard_action) (w : guarded) : option guarded := foldl (λ o a, o ≫= guard_fire a) (Some w) l.

Lemma run_guard_steps l w w' : run_guard l w = Some w' → rtc guard_step w w'.
Proof.
  unfold run_guard. revert w. induction l as [|a l IH]; intros w; cbn; [by intros [= ->]|].
  destruct (guard_fire a w) as [w1|] eqn:E; cbn.
  - intros H. eapply rtc_l; [by exists a|]. by apply IH.
  - intros H. exfalso. clear -H. induction l; [done|]. by apply IHl.
Qed.

Definition worker_starts : list guard_action := [Worker NoCall; Worker (Initialized (Some 0)); Worker NoCall; Worker NoCall; Worker NoCall].

Definition example_loan : loan := {| loan_ctx := 16; loan_frame := 32 |}.
Definition example_context : CONTEXT := {| Rip := 0x7ff0; Rsp := 0x1000; registers := [1; 2] |}.
Definition example_unwound : CONTEXT := {| Rip := 0x5510; Rsp := 0x1040; registers := [1; 3] |}.

(** A probe of a native frame, up to where its checks have passed. *)
Definition native_probe : list guard_action :=
  worker_starts ++
  [Begin example_loan example_context; ScheduleRtlFrame0Probe; CallerTests WakesWorker; Worker NoCall; Worker NoCall;
   Worker (Allocated true); Worker NoCall; AwaitProbeResult; CallerTests WakesNobody;
   Worker NoCall; Worker (Looked (Some (0x7000, Some {| rtFunc := 1; BeginAddress := 0xf00 |}))); Worker NoCall;
   Worker NoCall; Worker (Mapped (Some (E_FAIL, 0))); Worker NoCall;
   Worker NoCall; Worker (ModulePath (Some (7, [67; 58; 92]))); Worker NoCall; Worker (Classified (Some true));
   Worker NoCall; Worker (Unwound (Some example_unwound)); Worker NoCall; Worker NoCall].

Definition native_success : list guard_action := native_probe ++ [Worker NoCall; Worker NoCall; CallerTests WakesNobody].

Definition after (l : list guard_action) : guarded := default guarded_init (run_guard l guarded_init).

Lemma after_reachable l : bool_decide (is_Some (run_guard l guarded_init)) = true → rtc guard_step guarded_init (after l).
Proof. intros H%bool_decide_eq_true. destruct H as [w H]. apply (run_guard_steps l). unfold after. by rewrite H. Qed.

Definition last_round (w : guarded) : option round := match caller w with CHolding _ last => last | _ => None end.

Definition example_round : round :=
  default {| round_req := ProbeRequest_init; round_before := None; round_result := Failed |} (last_round (after native_success)).

Example native_success_reported :
  storage example_loan (after native_success) =
  Some (example_unwound, {| frame_functionId := 0; frame_instructionPointer := 0x7f00; frame_threadId := 0; frame_isUnmanagedFrame := true |}).
Proof. by vm_compute. Qed.

(** The header says that after any verdict other than Success the context and the frame are not
    written.  A shutdown between the publication and the return of AwaitProbeResult makes the verdict
    Stopping when they are. *)
Lemma stopping_may_have_written :
  ∃ w, rtc guard_step guarded_init w ∧ round_result <$> last_round w = Some ResultStopping ∧
    storage example_loan w ≠ (last_round w ≫= round_before).
Proof.
  exists (after (native_probe ++ [Worker NoCall; RequestShutdown; ShutdownNotifies; CallerTests WakesNobody])).
  split; [apply after_reachable; by vm_compute|]. split; by vm_compute.
Qed.

Lemma guard_storage_safe_witness :
  let w := after native_probe in
  let w' := default guarded_init (guard_fire (Worker NoCall) w) in
  faulted w' = false ∧
  (contexts w' = contexts w ∧ frames_out w' = frames_out w ∨
   ∃ l req before staged, round_of (caller w) = Some (l, req, before) ∧ kind req = RtlFrame0 ∧ passes req staged ∧
     storage l w = before ∧ storage l w' = Some (staged_ctx staged, staged_frame staged)) ∧
  ∀ req p, worker w' = WProbe req p → at_most 1 p.
Proof. apply (guard_storage_safe (after native_probe) NoCall); [apply after_reachable; by vm_compute|by vm_compute]. Defined.

Lemma guard_verdict_witness :
  round_result example_round = Success ∧
  (round_result example_round = Success → ∃ staged, passes (round_req example_round) staged ∧
     if decide (kind (round_req example_round) = RtlFrame0)
     then storage example_loan (after native_success) = Some (staged_ctx staged, staged_frame staged) ∧ frame0_reported (round_req example_round) staged
     else storage example_loan (after native_success) = round_before example_round) ∧
  (round_result example_round ≠ Success → round_result example_round ≠ ResultStopping →
     storage example_loan (after native_success) = round_before example_round).
Proof. split; [by vm_compute|]. apply guard_verdict; [apply after_reachable; by vm_compute|by vm_compute]. Defined.
