(* ===== verification/StackWalkProgress.v ===== *)
(** * Progress of the stack walk guard (stack_walk_guard.cpp)

    The waits of [StackWalkGuard] on its condition variable: no notification is lost, and what the
    worker, the sampling thread and the shutdown do by themselves always ends with nobody waiting. *)

From stdpp Require Import relations.
From S2P Require Import Prelude SamplingCycle StackWalkChecks StackWalkGuard.

(** ** No wakeup is lost *)

(** A notification is still to come. *)
Definition pending (w : guarded) : Prop := stop_notifying w = true ∨ ∃ last, worker w = WNotify last.

Definition waiting (c : caller_at) : bool := match c with CScheduling _ _ _ | CAwaiting _ _ _ _ => true | _ => false end.
Definition sleeping (c : caller_at) : bool := match c with CScheduling _ _ asleep | CAwaiting _ _ _ asleep => asleep | _ => false end.

Record wakeups_ok (w : guarded) : Prop := {
  wk_stop : stop_notifying w = true → st w = Stopping;
  wk_worker : worker w = WWait true → st w = Idle ∨ st w = Stopping ∧ stop_notifying w = true;
  wk_caller : sleeping (caller w) = true → can_schedule w = true → pending w;
  wk_init : ∀ i, inits w !! i = Some (IWaiting true) → st w = Starting ∨ pending w;
}.

Lemma wakeups_init : wakeups_ok guarded_init.
Proof. by split. Qed.

Lemma awake_inits (m : gmap nat init_at) i : (awake_init <$> m) !! i ≠ Some (IWaiting true).
Proof. rewrite lookup_fmap. by destruct (m !! i) as [[]|]. Qed.

Lemma awake_sleeping c : sleeping (awake_caller c) = false.
Proof. by destruct c. Qed.

(** After a notification nobody sleeps. *)
Lemma notified_ok w f :
  (stop_notifying (f (notify_all w)) = true → st (f (notify_all w)) = Stopping) →
  worker (f (notify_all w)) ≠ WWait true → caller (f (notify_all w)) = caller (notify_all w) → inits (f (notify_all w)) = inits (notify_all w) →
  wakeups_ok (f (notify_all w)).
Proof.
  intros H1 H2 H3 H4. split; [done|done|..].
  - rewrite H3. cbn. by rewrite awake_sleeping.
  - intros i. rewrite H4. cbn. intros H. by destruct (awake_inits _ _ H).
Qed.

(** The state changes to one that is to be notified, or that no sleeper waits for. *)
Lemma state_wakeups w f l :
  wakeups_ok w → worker w ≠ WWait true →
  (state_ (f (the_guard w)) = st w ∨ (∃ last, l = WNotify last) ∨ state_ (f (the_guard w)) = Running ∧ st w ≠ Starting) →
  (stop_notifying w = true → state_ (f (the_guard w)) = Stopping) → l ≠ WWait true → (∀ last, worker w ≠ WNotify last) →
  wakeups_ok (set_worker l (set_guard f w)).
Proof.
  intros [H1 H2 H3 H4] Hw Hs Hstop Hl Hn. assert (Hp : pending w → pending (set_worker l (set_guard f w))).
  { intros [?|[last E]]; [by left|]. by destruct (Hn last). }
  split; cbn; [done|done|..].
  - intros Ha Hc. destruct Hs as [E|[[last ->]|[E _]]]; [|right; by exists last|].
    + apply Hp, H3; [done|]. unfold can_schedule in *. cbn in Hc. by rewrite E in Hc.
    + unfold can_schedule in Hc. cbn in Hc. by rewrite E in Hc.
  - intros i Hi. destruct Hs as [E|[[last ->]|[E Hne]]]; [|right; right; by exists last|]; destruct (H4 i Hi); rewrite ?E; auto; done.
Qed.

Lemma guard_same w : set_guard id w = w.
Proof. by destruct w. Qed.

Lemma worker_wakeups w l :
  wakeups_ok w → worker w ≠ WWait true → l ≠ WWait true → (∀ last, worker w ≠ WNotify last) → wakeups_ok (set_worker l w).
Proof.
  intros Hok Hw Hl Hn. rewrite <-(guard_same w) at 1. apply (state_wakeups w id); [done|done|by left|apply Hok|done|done].
Qed.

Lemma WorkerLoop_wakeups a w w' : guarded_ok w → wakeups_ok w → WorkerLoop a w = Some w' → wakeups_ok w'.
Proof.
  intros Hok Hwk Hf. pose proof (ok_worker w Hok) as Hst. pose proof (wk_stop w Hwk) as Hstop. unfold WorkerLoop in Hf.
  destruct (worker w) as [| |hr|last|[]|req|req|req []|req p|req ok staged|] eqn:Hw; try (by destruct a; simplify_eq).
  - destruct a; simplify_eq. apply worker_wakeups; rewrite ?Hw; try done. by case_decide.
  - destruct a; simplify_eq. by apply worker_wakeups; rewrite ?Hw.
  - destruct a; simplify_eq. unfold publish_ready. case_decide; [by apply worker_wakeups; rewrite ?Hw|].
    destruct (is_initialized hr); apply state_wakeups; rewrite ?Hw; try done; eauto; cbn; tauto.
  - destruct a; simplify_eq. apply notified_ok; try done; by destruct last.
  - destruct a; simplify_eq. destruct (st w) eqn:Hs; try (exfalso; naive_solver).
    + assert (Hp : pending w → pending (set_worker (WWait true) w)) by (intros [?|[? E]]; [by left|congruence]).
      destruct Hwk as [H1 H2 H3 H4]. split; cbn; [done|by left|by intros; apply Hp, H3|]. intros i Hi. destruct (H4 i Hi); auto.
    + apply state_wakeups; rewrite ?Hw, ?Hs; try done; [by right; right|]. by intros ?%Hstop.
    + by apply worker_wakeups; rewrite ?Hw.
  - destruct a; simplify_eq. apply state_wakeups; rewrite ?Hw; try done. by left.
  - destruct a; simplify_eq. by apply worker_wakeups; rewrite ?Hw.
  - destruct a; simplify_eq. unfold gate_failed. case_decide; [by apply worker_wakeups; rewrite ?Hw|].
    apply state_wakeups; rewrite ?Hw; try done; eauto; cbn; tauto.
  - destruct a; simplify_eq. apply worker_wakeups; rewrite ?Hw; try done. by destruct (abandon_ _).
  - assert (Hstep : match probe_step (abandon_ (the_guard w)) p a with
              | Some p' => Some (set_worker (WProbe req p') (set_guard (announce p) w)) | None => None end = Some w' → wakeups_ok w').
    { destruct (probe_step _ p a) as [p'|]; [|done]. intros ?. simplify_eq. apply state_wakeups; rewrite ?Hw; try done.
      - left. by destruct p.
      - intros ?%Hstop. by destruct p. }
    destruct p; try by apply Hstep. destruct a; simplify_eq. by apply worker_wakeups; rewrite ?Hw.
  - destruct a; simplify_eq. unfold publish. case_decide as Hs; [by apply worker_wakeups; rewrite ?Hw|].
    assert (∀ w2, wakeups_ok w2 → the_guard w2 = the_guard w → worker w2 = worker w → stop_notifying w2 = stop_notifying w →
      ∀ f, state_ (f (the_guard w)) = Idle → wakeups_ok (set_worker (WNotify false) (set_guard f w2))) as Hc.
    { intros w2 Hwk2 E1 E2 E3 f Hf. apply state_wakeups; rewrite ?E1, ?E2, ?E3, ?Hw; try done; eauto. intros ?%Hstop. tauto. }
    case_decide; [|by apply Hc]. unfold commit. by repeat case_match; apply Hc; try done; destruct Hwk.
Qed.

(** A caller that does not sleep, or only if nothing is there for it. *)
Lemma caller_wakeups w c :
  wakeups_ok w → (sleeping c = true → can_schedule w = false) → wakeups_ok (set_caller c w).
Proof.
  intros [H1 H2 H3 H4] Hc. split; cbn; try done. intros Ha Hcs. exfalso. specialize (Hc Ha). unfold can_schedule in *. cbn in *. congruence.
Qed.

Lemma inits_wakeups w i l : wakeups_ok w → (l = IWaiting true → st w = Starting) → wakeups_ok (set_inits (<[i := l]> (inits w)) w).
Proof. intros [H1 H2 H3 H4] Hl. split; cbn; try done. intros j [[-> E]|[_ Hj]]%lookup_insert_Some; [left; by apply Hl|by apply (H4 j)]. Qed.

(** What an abandonment changes is not waited for. *)
Lemma quiet_wakeups f w : (∀ g, state_ (f g) = state_ g) → wakeups_ok w → wakeups_ok (set_guard f w).
Proof.
  intros E [H1 H2 H3 H4]. assert (can_schedule (set_guard f w) = can_schedule w) as Ec by (unfold can_schedule; cbn; by rewrite E).
  split; rewrite ?Ec; cbn; rewrite ?E; done.
Qed.

Lemma Schedule_end_wakeups l req asleep ready who w w' :
  wakeups_ok w → caller w = CScheduling l req asleep → (ready = true → st w = Idle ∨ st w = Stopping) →
  Schedule_end l req ready who w = Some w' → wakeups_ok w'.
Proof.
  intros Hwk Hc Hready. unfold Schedule_end. case_decide as Hd; intros Hf; simplify_eq; [by apply caller_wakeups|].
  assert (st w = Idle) as Hs by (destruct ready; tauto). destruct Hwk as [H1 H2 H3 H4].
  assert (Hstop : stop_notifying w ≠ true) by (intros E; rewrite (H1 E) in Hs; done).
  assert (Hlatch : worker w ≠ WWait true → wakeups_ok (latch l req w)).
  { intros Hw. split; cbn; try done. intros i Hi. right. destruct (H4 i Hi) as [E|E]; [by rewrite E in Hs|done]. }
  unfold notify_one in Hf. destruct who as [|i|].
  - destruct (worker (latch l req w)) as [| | |[]|[]| | | | | |] eqn:Hw; simplify_eq. split; cbn; try done. intros i Hi. right.
    cbn in Hw. destruct (H4 i Hi) as [E|[E|[last E]]]; [by rewrite E in Hs|done|by rewrite E in Hw].
  - cbn in Hf. destruct (inits w !! i) as [[[]|]|] eqn:Hi; simplify_eq. apply (inits_wakeups (latch l req w)); [|done]. apply Hlatch.
    intros Hw. destruct (H4 i Hi) as [E|[E|[last E]]]; [by rewrite E in Hs|done|congruence].
  - destruct (worker (latch l req w)) as [| | |[]|[]| | | | | |] eqn:Hw; try case_decide; simplify_eq; apply Hlatch; cbn in Hw; by rewrite Hw.
Qed.

Lemma AwaitProbeResult_end_wakeups l req before b w : wakeups_ok w → wakeups_ok (AwaitProbeResult_end l req before b w).
Proof.
  intros Hwk. unfold AwaitProbeResult_end, end_round. case_decide; [by apply caller_wakeups; [apply quiet_wakeups|]|].
  destruct b; [by apply caller_wakeups|]. by apply caller_wakeups; [apply (quiet_wakeups (λ g, with_result _ (abandon g)))|].
Qed.

Lemma caller_tests_wakeups timeout who w w' : wakeups_ok w → caller_tests timeout who w = Some w' → wakeups_ok w'.
Proof.
  intros Hwk. unfold caller_tests. pose proof (can_schedule_spec w) as Hcs.
  destruct (caller w) as [|l last|l req asleep|l req before|l req before asleep] eqn:Hc; try done; intros Hf.
  - destruct timeout; [eapply Schedule_end_wakeups; [done..| |done]; apply Hcs|]. destruct asleep; [done|].
    destruct (can_schedule w) eqn:Ec; [eapply Schedule_end_wakeups; [done..| |done]; by apply Hcs|]. simplify_eq. by apply caller_wakeups.
  - destruct timeout; [simplify_eq; by apply AwaitProbeResult_end_wakeups|]. destruct asleep; [done|].
    destruct (can_schedule w) eqn:Ec; simplify_eq; [by apply AwaitProbeResult_end_wakeups|by apply caller_wakeups].
Qed.

Lemma storage_wakeups cs fs b w : wakeups_ok w → wakeups_ok (set_storage cs fs b w).
Proof. by intros [H1 H2 H3 H4]; split. Qed.

Lemma guard_fire_wakeups a w w' : guarded_ok w → wakeups_ok w → guard_fire a w = Some w' → wakeups_ok w'.
Proof.
  intros Hok Hwk. destruct a as [a| |l ctx| | |thread| |who|who| | | |i|i|i]; cbn.
  - by apply WorkerLoop_wakeups.
  - destruct (worker w) as [| | | |[]| | | | | |] eqn:Hw; intros; simplify_eq. destruct Hwk as [H1 H2 H3 H4].
    assert (pending w → pending (set_worker (WWait false) w)) as Hp by (intros [?|[? E]]; [by left|congruence]).
    split; cbn; [done|done|by intros; apply Hp, H3|]. intros i Hi. destruct (H4 i Hi); auto.
  - destruct (caller w); try done. case_decide; intros; simplify_eq. by apply caller_wakeups; [apply storage_wakeups|].
  - destruct (caller w); intros; simplify_eq. by apply caller_wakeups; [apply storage_wakeups|].
  - destruct (caller w) as [|l last| | |]; try done.
    destruct (rtl_request _ _ _); intros; simplify_eq; [by apply caller_wakeups..|by apply storage_wakeups|by apply storage_wakeups].
  - destruct (caller w); intros; simplify_eq. by apply caller_wakeups.
  - destruct (caller w); intros; simplify_eq. by apply caller_wakeups.
  - by apply caller_tests_wakeups.
  - by apply caller_tests_wakeups.
  - destruct (caller w) as [| |? ? []| |? ? ? []]; intros; simplify_eq; by apply caller_wakeups.
  - unfold request_shutdown. destruct (decide (st w = Stopping)) as [Hs|Hs]; intros; simplify_eq; [done|]. split; cbn; [done|by right|by intros; left|by intros; right; left].
  - destruct (stop_notifying w); intros; simplify_eq. apply (notified_ok w (set_stopping false)); try done. cbn. by destruct (worker w).
  - destruct (inits w !! i); intros; simplify_eq. by apply inits_wakeups.
  - unfold init_tests. destruct (inits w !! i) as [[[]|]|]; intros; simplify_eq. apply inits_wakeups; [done|]. by case_decide.
  - destruct (inits w !! i) as [[[]|]|]; intros; simplify_eq. by apply inits_wakeups.
Qed.

Lemma guard_steps_wakeups w : rtc guard_step guarded_init w → guarded_ok w ∧ wakeups_ok w.
Proof.
  revert w. apply rtc_ind_r; [by split; [apply guarded_init_ok|apply wakeups_init]|]. intros w1 w2 _ [a Ha] [Hok Hwk].
  split; [by eapply guard_fire_ok|by eapply guard_fire_wakeups].
Qed.

(** ** Progress *)

(** What the threads do by themselves: no timeout, no spurious wakeup and no new call. *)
Definition by_itself (a : guard_action) : bool :=
  match a with Worker _ | ShutdownNotifies | CallerTests _ | InitTests _ => true | _ => false end.

Definition guard_progress (w w' : guarded) : Prop := ∃ a, by_itself a = true ∧ guard_fire a w = Some w'.

(** How far each of them is from its next wait, in steps. *)
Definition worker_rank (l : worker_at) (n : nat) : Prop :=
  match l with
  | WStart => n = 7
  | WInitialize => n = 6
  | WReady _ => n = 5
  | WNotify _ => n = 3
  | WWait _ | WDone => n = 0
  | WGate _ => n = 21
  | WAllocating _ => n = 20
  | WGated _ _ => n = 19
  | WProbe _ p => ∃ k, ends_within k p ∧ k ≤ 13 ∧ n = 5 + k
  | WPublish _ _ _ => n = 4
  end%nat.

Definition caller_rank (c : caller_at) : nat := match c with CScheduling _ _ _ => 40 | CAwaiting _ _ _ _ => 1 | _ => 0 end.
Definition state_rank (s : State) : nat := match s with Scheduled => 30 | _ => 0 end.
Definition stop_rank (b : bool) : nat := if b then 1 else 0.

Definition guard_rank (w : guarded) (m : nat) : Prop :=
  ∃ n, worker_rank (worker w) n ∧ m = (n + caller_rank (caller w) + state_rank (st w) + stop_rank (stop_notifying w))%nat.

Definition init_awake (l : init_at) : nat := match l with IWaiting false => 1 | _ => 0 end.
Definition awake (w : guarded) : nat :=
  ((match worker w with WWait false => 1 | _ => 0 end) + (if waiting (caller w) && negb (sleeping (caller w)) then 1 else 0) +
   weigh init_awake (inits w))%nat.

Lemma guard_rank_exists w : guarded_ok w → ∃ m, guard_rank w m.
Proof.
  intros Hok. unfold guard_rank. destruct (worker w) as [| | | | | | | |req p| |] eqn:Hw; cbn; try (by eexists _, _).
  destruct (ok_probe w Hok _ _ Hw) as (_ & (k & Hk & Hle) & _). eexists _, (5 + k)%nat. eauto.
Qed.

Definition gets_closer (w : guarded) (m : nat) (w' : guarded) : Prop :=
  ∃ m', guard_rank w' m' ∧ (m' < m ∨ m' = m ∧ awake w' < awake w)%nat.

(** The worker alone moves, or publishes, to a place of a lower rank. *)
Lemma worker_closer w m n n' l w' :
  worker_rank (worker w) n → m = (n + caller_rank (caller w) + state_rank (st w) + stop_rank (stop_notifying w))%nat →
  worker w' = l → worker_rank l n' → caller_rank (caller w') = caller_rank (caller w) → stop_notifying w' = stop_notifying w →
  (n' + state_rank (st w') < n + state_rank (st w))%nat → gets_closer w m w'.
Proof. intros Hn -> <- Hn' Ec Es Hlt. eexists. split; [by exists n'|]. left. rewrite Ec, Es. lia. Qed.

Lemma commit_quiet staged w :
  the_guard (commit staged w) = the_guard w ∧ worker (commit staged w) = worker w ∧ caller (commit staged w) = caller w ∧
  stop_notifying (commit staged w) = stop_notifying w.
Proof. unfold commit. by repeat case_match. Qed.

Lemma awake_caller_rank c : caller_rank (awake_caller c) = caller_rank c.
Proof. by destruct c. Qed.

Lemma WorkerLoop_closer a w w' m : guarded_ok w → guard_rank w m → WorkerLoop a w = Some w' → gets_closer w m w'.
Proof.
  intros Hok (n & Hn & Hm) Hf. pose proof (ok_worker w Hok) as Hst. pose proof Hn as Hn0. unfold WorkerLoop in Hf.
  destruct (worker w) as [| |hr|last|[]|req|req|req threw|req p|req ok staged|] eqn:Hw; cbn in Hn0; try (by destruct a; simplify_eq).
  - destruct a; simplify_eq. case_decide.
    + by eapply (worker_closer w _ 7 0); rewrite ?Hw; cbn; try lia.
    + by eapply (worker_closer w _ 7 6); rewrite ?Hw; cbn; try lia.
  - destruct a; simplify_eq. by eapply (worker_closer w _ 6 5); rewrite ?Hw; cbn; try lia.
  - destruct a; simplify_eq. unfold publish_ready. repeat case_match.
    + by eapply (worker_closer w _ 5 0); rewrite ?Hw; cbn; try lia.
    + by eapply (worker_closer w _ 5 3); rewrite ?Hw; cbn; try lia.
    + by eapply (worker_closer w _ 5 3); rewrite ?Hw; cbn; try lia.
  - destruct a; simplify_eq.
    eapply (worker_closer w _ 3 0); rewrite ?Hw; cbn; rewrite ?awake_caller_rank; try done; [by destruct last|lia].
  - destruct a; simplify_eq.
    assert (Hsleep : ∀ l, worker_rank l 0 → l ≠ WWait false →
      gets_closer w (0 + caller_rank (caller w) + state_rank (st w) + stop_rank (stop_notifying w)) (set_worker l w)).
    { intros l Hl Hne. eexists. split; [by exists 0%nat|]. right. split; [done|]. unfold awake. cbn. rewrite Hw. destruct l as [| | | |[]| | | | | |]; try done; lia. }
    destruct (st w) eqn:Hs; try by apply Hsleep. eapply (worker_closer w _ 0 21); rewrite ?Hw, ?Hs; cbn; try done; lia.
  - destruct a; simplify_eq. by eapply (worker_closer w _ 21 20); rewrite ?Hw; cbn; try lia.
  - destruct a; simplify_eq. by eapply (worker_closer w _ 20 19); rewrite ?Hw; cbn; try lia.
  - subst n. destruct threw, a; simplify_eq.
    + unfold gate_failed. case_decide; [by eapply (worker_closer w _ 19 0); rewrite ?Hw; cbn; try lia|].
      by eapply (worker_closer w _ 19 3); rewrite ?Hw; cbn; try lia.
    + destruct (abandon_ (the_guard w)); [by eapply (worker_closer w _ 19 4); rewrite ?Hw; cbn; try lia|].
      eapply (worker_closer w _ 19 18); rewrite ?Hw; cbn; try done; [|lia]. exists 13%nat. split; [apply checks_end|done].
  - destruct Hn0 as (k & Hk & Hle & ->).
    assert (Hstep : match probe_step (abandon_ (the_guard w)) p a with
              | Some p' => Some (set_worker (WProbe req p') (set_guard (announce p) w)) | None => None end = Some w' → gets_closer w m w').
    { destruct (probe_step _ p a) as [p'|] eqn:Hp; [|done]. intros ?. simplify_eq.
      assert (state_ (announce p (the_guard w)) = st w) as E by (by destruct p).
      inversion Hk as [|k' ? Hends]; subst; [by destruct a|].
      eapply (worker_closer w _ (5 + S k') (5 + k')); rewrite ?Hw; cbn; rewrite ?E; try done; [|lia].
      exists k'. split; [by eapply Hends|]. split; [lia|done]. }
    destruct p; try by apply Hstep. destruct a; simplify_eq. eapply (worker_closer w _ (5 + k) 4); rewrite ?Hw; cbn; try done; lia.
  - destruct a; simplify_eq. unfold publish. case_decide as Hs; [by eapply (worker_closer w _ 4 0); rewrite ?Hw; cbn; try lia|].
    destruct (commit_quiet staged w) as (E1 & E2 & E3 & E4).
    case_decide; eapply (worker_closer w _ 4 3); rewrite ?Hw; cbn; rewrite ?E3; try done; lia.
Qed.

Lemma notify_one_quiet who w w' :
  notify_one who w = Some w' →
  caller w' = caller w ∧ the_guard w' = the_guard w ∧ stop_notifying w' = stop_notifying w ∧
  (worker w' = worker w ∨ worker w = WWait true ∧ worker w' = WWait false).
Proof.
  destruct who; cbn.
  - destruct (worker w) as [| | | |[]| | | | | |]; intros; simplify_eq. naive_solver.
  - destruct (inits w !! i) as [[[]|]|]; intros; simplify_eq. cbn. auto.
  - intros Hf. assert (w' = w) as -> by (destruct (worker w) as [| | | |[]| | | | | |]; try case_decide; by simplify_eq). auto.
Qed.

Lemma Schedule_end_closer l req ready who w w' m :
  caller w = CScheduling l req false → guard_rank w m → Schedule_end l req ready who w = Some w' → gets_closer w m w'.
Proof.
  intros Hc (n & Hn & ->) Hf. unfold Schedule_end in Hf. case_decide; simplify_eq.
  { eexists. split; [by exists n|]. left. cbn. rewrite Hc. cbn. lia. }
  destruct (notify_one_quiet _ _ _ Hf) as (E1 & E2 & E3 & Hw). cbn in E1, E3, Hw.
  assert (worker_rank (worker w') n) as Hn' by (destruct Hw as [->|[E ->]]; [done|by rewrite E in Hn]).
  eexists. split; [by exists n|]. left. rewrite E1, E2, E3, Hc. cbn. lia.
Qed.

Lemma sleep_closer w m c :
  guard_rank w m → waiting (caller w) && negb (sleeping (caller w)) = true → waiting c && negb (sleeping c) = false →
  caller_rank c = caller_rank (caller w) → gets_closer w m (set_caller c w).
Proof.
  intros (n & Hn & ->) H1 H2 E. eexists. split; [by exists n|]. right. unfold awake. cbn. rewrite E, H1, H2. lia.
Qed.

Lemma caller_tests_closer who w w' m : guard_rank w m → caller_tests false who w = Some w' → gets_closer w m w'.
Proof.
  intros Hr. unfold caller_tests.
  destruct (caller w) as [|l last|l req asleep|l req before|l req before asleep] eqn:Hc; try done; destruct asleep; try done; intros Hf.
  - destruct (can_schedule w); [by eapply Schedule_end_closer|]. simplify_eq. apply sleep_closer; by rewrite ?Hc.
  - destruct (can_schedule w); simplify_eq; [|apply sleep_closer; by rewrite ?Hc].
    destruct Hr as (n & Hn & ->). unfold AwaitProbeResult_end. rewrite Hc. case_decide; (eexists; split; [by exists n|left; cbn; lia]).
Qed.

Lemma guard_progress_closer w w' m : guarded_ok w → guard_rank w m → guard_progress w w' → gets_closer w m w'.
Proof.
  intros Hok Hr (a & Ha & Hf). destruct a as [a| |l ctx| | |thread| |who|who| | | |i|i|i]; try done; cbn in Hf.
  - by eapply WorkerLoop_closer.
  - by eapply caller_tests_closer.
  - destruct (stop_notifying w) eqn:Es; simplify_eq. destruct Hr as (n & Hn & ->).
    eexists. split; [exists n; split; [cbn; by destruct (worker w)|reflexivity]|]. left. cbn. rewrite awake_caller_rank, Es. cbn. lia.
  - unfold init_tests in Hf. destruct (inits w !! i) as [[[]|]|] eqn:Hi; simplify_eq. destruct Hr as (n & Hn & ->).
    eexists. split; [by exists n|]. right. split; [done|]. unfold awake. cbn.
    set (l := if decide _ then _ else _). pose proof (weigh_insert init_awake (inits w) i l) as E. rewrite Hi in E. cbn in E.
    assert (init_awake l = 0%nat) by (unfold l; by case_decide). lia.
Qed.

Lemma guard_progress_ends w : guarded_ok w → Acc (λ s2 s1, guard_progress s1 s2) w.
Proof.
  intros Hok. destruct (guard_rank_exists w Hok) as [m Hm]. remember (awake w) as k eqn:Ek. revert k w Hok Hm Ek.
  induction (lt_wf m) as [m _ IHm]. intros k. induction (lt_wf k) as [k _ IHk]. intros w Hok Hm ->. constructor. intros w' Hp.
  assert (Hok' : guarded_ok w') by (destruct Hp as (a & _ & Hf); by eapply guard_fire_ok).
  destruct (guard_progress_closer _ _ _ Hok Hm Hp) as (m' & Hm' & [Hlt|[-> Hlt]]); [by eapply (IHm m')|by eapply (IHk (awake w'))].
Qed.

(** Where nothing is left to do. *)
Lemma worker_can w : match worker w with WWait true | WDone => True | _ => ∃ a w', WorkerLoop a w = Some w' end.
Proof.
  unfold WorkerLoop. destruct (worker w) as [| |hr|last|[]|req|req|req threw|req p|req ok staged|]; try done;
    try (eexists NoCall, _; done).
  - by eexists (Initialized None), _.
  - by eexists (Allocated true), _.
  - destruct threw; by eexists NoCall, _.
  - destruct p; [by eexists NoCall, _..|by eexists (Snapshot None), _|by eexists (Looked None), _|by eexists (Mapped None), _|
      by eexists (ModulePath None), _|by eexists (Classified None), _|by eexists (StackRead None), _|by eexists (Unwound None), _].
Qed.

Lemma someone_notified f w : wakeups_ok w → st w = Idle → ∃ who w', notify_one who (set_guard f w) = Some w'.
Proof.
  intros [H1 H2 H3 H4] Hs. destruct (decide (map_Forall (λ _ l, l ≠ IWaiting true) (inits w))) as [Hf|Hf].
  - destruct (worker w) as [| | | |[]| | | | | |] eqn:Hw; try (eexists WakesNobody, _; cbn; by rewrite Hw, decide_True).
    eexists WakesWorker, _. cbn. by rewrite Hw.
  - apply map_not_Forall in Hf as (i & l & Hi & Hl); [|apply _]. apply dec_stable in Hl. subst l. eexists (WakesInit i), _. cbn. by rewrite Hi.
Qed.

Lemma caller_can timeout w :
  wakeups_ok w → waiting (caller w) = true → timeout = true ∨ sleeping (caller w) = false →
  ∃ who w', caller_tests timeout who w = Some w' ∧ (timeout = true ∨ can_schedule w = true → waiting (caller w') = false).
Proof.
  intros Hwk Hwait Ht. unfold caller_tests. pose proof (can_schedule_spec w) as Hcs.
  assert (Hend : ∀ l req ready, (ready = true → can_schedule w = true) → ∃ who w', Schedule_end l req ready who w = Some w' ∧ waiting (caller w') = false).
  { intros l req ready Hr. unfold Schedule_end. case_decide as Hd; [by exists WakesNobody; eexists|].
    assert (st w = Idle) as Hs by (destruct ready; [destruct (proj1 Hcs (Hr eq_refl))|]; tauto).
    destruct (someone_notified id w Hwk Hs) as (who & w1 & Hn). destruct who as [|i|]; cbn in Hn.
    - destruct (worker w) as [| | | |[]| | | | | |] eqn:Hw; simplify_eq. exists WakesWorker. cbn. rewrite Hw. by eexists.
    - destruct (inits w !! i) as [[[]|]|] eqn:Hi; simplify_eq. exists (WakesInit i). cbn. rewrite Hi. by eexists.
    - exists WakesNobody. cbn. destruct (worker w) as [| | | |[]| | | | | |]; try done; case_decide; try done; by eexists. }
  destruct (caller w) as [|l last|l req asleep|l req before|l req before asleep] eqn:Hc; try done.
  - destruct timeout.
    + destruct (Hend l req (can_schedule w) id) as (who & w' & E & Hw'). exists who, w'. by rewrite E.
    + destruct Ht as [?|Ha]; [done|]. cbn in Ha. subst asleep. destruct (can_schedule w) eqn:Ec.
      * destruct (Hend l req true (λ _, eq_refl)) as (who & w' & E & Hw'). exists who, w'. by rewrite E.
      * eexists WakesNobody, _. split; [done|]. by intros [|].
  - assert (∀ b, waiting (caller (AwaitProbeResult_end l req before b w)) = false) as Ha.
    { intros b. unfold AwaitProbeResult_end. by case_decide; [|destruct b]. }
    destruct timeout; [by eexists WakesNobody, _|]. destruct Ht as [?|Hs]; [done|]. cbn in Hs. subst asleep.
    destruct (can_schedule w) eqn:Ec; eexists WakesNobody, _; (split; [done|]); [done|]. by intros [|].
Qed.

Lemma caller_tests_Stopping timeout who w w' : caller_tests timeout who w = Some w' → st w = Stopping → st w' = Stopping.
Proof.
  intros Hf Hs. unfold caller_tests, Schedule_end, AwaitProbeResult_end in Hf. destruct (caller w); try done.
  - rewrite !(decide_True (P := _ ∨ st w = Stopping)) in Hf by tauto. by repeat case_match; simplify_eq.
  - rewrite !decide_True in Hf by done. by repeat case_match; simplify_eq.
Qed.

Lemma Stopping_stays a w w' : guarded_ok w → guard_fire a w = Some w' → st w = Stopping → st w' = Stopping.
Proof.
  intros Hok Hf Hs. destruct a as [a| |l ctx| | |thread| |who|who| | | |i|i|i]; cbn in Hf.
  - unfold WorkerLoop in Hf. rewrite Hs in Hf. pose proof (ok_worker w Hok) as Hst.
    destruct (worker w) as [| |hr|last|[]|req|req|req []|req p|req ok staged|] eqn:Hw; try (by destruct a; simplify_eq);
      destruct a; simplify_eq; unfold publish_ready, gate_failed, publish; try (by rewrite decide_True).
    all: destruct p; cbn in Hf; simplify_eq; done.
  - by destruct (worker w) as [| | | |[]| | | | | |]; simplify_eq.
  - destruct (caller w); try done. case_decide; by simplify_eq.
  - destruct (caller w); by simplify_eq.
  - destruct (caller w); try done. destruct (rtl_request _ _ _); by simplify_eq.
  - destruct (caller w); by simplify_eq.
  - destruct (caller w); by simplify_eq.
  - by eapply caller_tests_Stopping.
  - by eapply caller_tests_Stopping.
  - destruct (caller w) as [| |? ? []| |? ? ? []]; by simplify_eq.
  - unfold request_shutdown in Hf. rewrite decide_True in Hf by done. by simplify_eq.
  - destruct (stop_notifying w); by simplify_eq.
  - destruct (inits w !! i); by simplify_eq.
  - unfold init_tests in Hf. destruct (inits w !! i) as [[[]|]|]; by simplify_eq.
  - destruct (inits w !! i) as [[[]|]|]; by simplify_eq.
Qed.

Lemma quiescent w :
  guarded_ok w → wakeups_ok w → (∀ w'', ¬ guard_progress w w'') →
  (st w = Idle ∧ worker w = WWait true ∨ st w = Stopping ∧ worker w = WDone) ∧ waiting (caller w) = false ∧
  ∀ i l, inits w !! i = Some l → ∃ b, l = IReturned b.
Proof.
  intros Hok Hwk Hend.
  assert (Hstop : stop_notifying w = false).
  { destruct (stop_notifying w) eqn:E; [|done]. destruct (Hend (set_stopping false (notify_all w))). exists ShutdownNotifies. cbn. by rewrite E. }
  assert (Hw : worker w = WWait true ∨ worker w = WDone).
  { pose proof (worker_can w) as Hc.
    destruct (worker w) as [| | | |[]| | | | | |] eqn:E; try tauto; destruct Hc as (a & w' & Hf); destruct (Hend w'); by exists (Worker a). }
  assert (Hst : st w = Idle ∧ worker w = WWait true ∨ st w = Stopping ∧ worker w = WDone).
  { destruct Hw as [Hw|Hw].
    - left. destruct (wk_worker w Hwk Hw) as [?|[_ E]]; [done|congruence].
    - right. pose proof (ok_worker w Hok) as H. by rewrite Hw in H. }
  assert (Hnp : ¬ pending w) by (intros [E|[last E]]; [congruence|destruct Hw; congruence]).
  split; [done|]. split.
  - destruct (waiting (caller w)) eqn:Hwait; [|done]. destruct (sleeping (caller w)) eqn:Hsl.
    + destruct Hnp. apply (wk_caller w Hwk Hsl). apply can_schedule_spec. tauto.
    + destruct (caller_can false w Hwk Hwait) as (who & w' & Hf & _); [by right|]. destruct (Hend w'). by exists (CallerTests who).
  - intros i l Hi. destruct l as [[]|b]; [| |by exists b].
    + exfalso. destruct (wk_init w Hwk i Hi) as [E|E]; [|done]. rewrite E in Hst. naive_solver.
    + exfalso. eapply Hend. exists (InitTests i). split; [done|]. cbn. unfold init_tests. by rewrite Hi.
Qed.

(** C26: Nothing waits forever, and no wakeup is lost: from every reachable state what the threads do by
    themselves ends, without timeouts and spurious wakeups, provided that every call of a probe returns; and
    where it ends the worker is idle or, after a shutdown, gone, no call of Schedule or AwaitProbeResult is
    waiting, and every call of WaitForInitialization has returned. A timeout ends such a wait at any time,
    whatever the worker does. *)
Theorem guard_settles w :
  rtc guard_step guarded_init w →
  Acc (λ s2 s1, guard_progress s1 s2) w ∧
  (∀ w', rtc guard_progress w w' → (∀ w'', ¬ guard_progress w' w'') →
     (st w' = Idle ∧ worker w' = WWait true ∨ st w' = Stopping ∧ worker w' = WDone) ∧ (st w = Stopping → worker w' = WDone) ∧
     waiting (caller w') = false ∧ ∀ i l, inits w' !! i = Some l → ∃ b, l = IReturned b) ∧
  (waiting (caller w) = true → ∃ who w', guard_fire (CallerTimesOut who) w = Some w' ∧ waiting (caller w') = false).
Proof.
  intros Hs. destruct (guard_steps_wakeups w Hs) as [Hok Hwk]. split; [by apply guard_progress_ends|]. split.
  - intros w' Hp Hend. assert (Hs' : rtc guard_step guarded_init w' ∧ (st w = Stopping → st w' = Stopping)).
    { clear Hend Hwk. induction Hp as [|w w1 w' (a & _ & Hf) _ IH]; [done|].
      destruct IH as [IH1 IH2]; [eapply rtc_r; [done|]; by exists a|by eapply guard_fire_ok|]. split; [done|]. intros Hst. by eapply IH2, Stopping_stays. }
    destruct Hs' as [Hs' Hstay]. destruct (guard_steps_wakeups w' Hs') as [Hok' Hwk']. destruct (quiescent w' Hok' Hwk' Hend) as (H1 & H2 & H3).
    split; [done|]. split; [|done]. intros Hst. specialize (Hstay Hst). rewrite Hstay in H1. by destruct H1 as [[? _]|[_ ?]].
  - intros Hwait. destruct (caller_can true w Hwk Hwait) as (who & w' & Hf & Hw'); [by left|]. exists who, w'. auto.
Qed.
(** The sampling thread waits, and the worker is blocked in its first call when a shutdown comes. *)
Definition blocked : guarded := after (take 15 native_probe ++ [RequestShutdown]).

Lemma guard_settles_witness :
  waiting (caller blocked) = true ∧
  Acc (λ s2 s1, guard_progress s1 s2) blocked ∧
  (∀ w', rtc guard_progress blocked w' → (∀ w'', ¬ guard_progress w' w'') →
     (st w' = Idle ∧ worker w' = WWait true ∨ st w' = Stopping ∧ worker w' = WDone) ∧ (st blocked = Stopping → worker w' = WDone) ∧
     waiting (caller w') = false ∧ ∀ i l, inits w' !! i = Some l → ∃ b, l = IReturned b) ∧
  (waiting (caller blocked) = true → ∃ who w', guard_fire (CallerTimesOut who) blocked = Some w' ∧ waiting (caller w') = false).
Proof. split; [by vm_compute|]. apply guard_settles, after_reachable. by vm_compute. Defined.
