(* ===== verification/StackCapture.v ===== *)
(** * Capturing stacks (stack_capturer.cpp, clr_runtime_capture.cpp, netfx_runtime_capture.cpp,
    safe_native_walk_service.cpp, suspension_guards.cpp, thread_suspend.cpp, stack_walker_impl.h)

    What the sampling thread does to have the stacks of threads walked: on .NET it suspends the
    runtime as a whole, on .NET Framework the thread and a canary; where the runtime cannot walk a
    stack from its top, the native frames are walked here first, up to one from which it can.

    The answers of the runtime, of Windows and of the stack walk guard are an instance of
    [CapturePlatform]; they may differ from call to call.  [onFrame] is the consumer's callback,
    which has a state of its own and may throw.  [history] records what is done outside, in order,
    and [monitor] says which records are legal.  Guards that resume in their destructors are
    [ThreadGuard] and [RuntimeGuard]; what is thrown is a [ProbeResult] or an exception of the
    standard library.

    What is shown of it is in [StackCaptureSafe] (legal records, nothing left suspended) and
    [StackCaptureRuns] (frames delivered and results); [CaptureCycle] makes the sampling cycle the
    consumer. *)

From S2P Require Import Prelude SamplerLifecycle SamplingCycle StackWalkChecks.

Definition E_INVALIDARG : Z := s32 0x80070057.
Definition SUCCEEDED (hr : Z) : bool := bool_decide (0 ≤ hr).

Inductive exn := ProbeThrown (r : ProbeResult) | StdException.

Inductive capture_event :=
| RuntimeSuspended
| RuntimeResumed
| HandleOpened
| HandleClosed
| ThreadSuspended (osThreadId : Z)
| ThreadResumed (osThreadId : Z)
| Frame0Probed (r : ProbeResult)
| DssProbed (r : ProbeResult)
| NativeCall (* of the unwinder, the loader or the map of functions *)
| Snapshot (thread : Z) (seed : option CONTEXT)
| FrameDelivered (f : CapturedFrame) (hr : option Z) (* None: the callback threw *)
| Capturing (thread : Z)
| Captured (thread hr : Z)
| StopLoaded (stopping : bool). (* the flag that asks the capturer to stop *)

(** The answers to the [k]-th query. *)
Class CapturePlatform := {
  load_stopping : nat → bool;
  (* ICorProfilerInfo *)
  info_SuspendRuntime : nat → Z;
  info_GetThreadInfo : nat → Z → Z * Z;
  info_GetFunctionFromIP : nat → Z → Z * Z;
  snapshot_frames : nat → Z → option CONTEXT → list (Z * Z); (* functions and instruction pointers *)
  snapshot_result : nat → Z → option CONTEXT → bool → Z; (* given whether the callback has stopped it *)
  snapshot_catches : nat → bool; (* whether it returns when the callback throws *)
  (* Windows *)
  OpenThread : nat → Z → bool;
  SuspendThread : nat → Z → bool;
  GetThreadContext : nat → Z → option CONTEXT;
  rtl_lookup : nat → Z → option (Z * option RUNTIME_FUNCTION);
  rtl_unwind : nat → Z → Z → RUNTIME_FUNCTION → CONTEXT → option CONTEXT;
  read_stack : nat → Z → option Z;
  IsSystemModule : nat → Z → option bool;
  (* the stack walk guard: what was scheduled, and the verdict with what the storage holds then *)
  schedule_frame0 : nat → bool;
  await_frame0 : nat → CONTEXT → ProbeResult * (CONTEXT * CapturedFrame);
  schedule_dss : nat → bool;
  await_dss : nat → ProbeResult;
  (* the canary of .NET Framework: its thread and OS thread *)
  SnapshotCanary : nat → Z * Z;
}.

Record capturing (X : Type) := {
  client : X;
  client_frame : CapturedFrame;
  cancellationRequested : bool;
  history : list capture_event;
  queries : nat;
}.
Arguments client {X}.
Arguments client_frame {X}.
Arguments cancellationRequested {X}.
Arguments history {X}.
Arguments queries {X}.

(** The callback of a consumer returns or throws in its consistent states, and stays in them. *)
Definition consistent {X : Type} (J : X → Prop) (onFrame : CapturedFrame → X → outcome unit Z * X) : Prop :=
  ∀ f x, J x → match (onFrame f x).1 with Ret _ | Err _ => J (onFrame f x).2 | _ => False end.

Section StackCapture.
Context `{CapturePlatform} {X : Type} (onFrame : CapturedFrame → X → outcome unit Z * X).

Abbreviation C := (stM (capturing X) exn).

Definition ask_platform {A} (answer : nat → A) : C A :=
  s ← get;
  put {| client := client s; client_frame := client_frame s; cancellationRequested := cancellationRequested s;
         history := history s; queries := S (queries s) |};;
  mret (answer (queries s)).

Definition record (e : capture_event) : C unit :=
  modify (λ s, {| client := client s; client_frame := client_frame s; cancellationRequested := cancellationRequested s;
                  history := history s ++ [e]; queries := queries s |}).

Definition set_client_frame (f : CapturedFrame → CapturedFrame) : C unit :=
  modify (λ s, {| client := client s; client_frame := f (client_frame s); cancellationRequested := cancellationRequested s;
                  history := history s; queries := queries s |}).

(** Scopes with a destructor, and handlers. *)
Definition finally {A} (m : C A) (destroy : C unit) : C A := λ s,
  match m s with
  | (Ret a, s') => (destroy;; mret a) s'
  | (Err e, s') => (destroy;; throw e) s'
  | r => r
  end.

Definition catching {A} (handle : exn → C A) (m : C A) : C A := λ s,
  match m s with (Err e, s') => handle e s' | r => r end.

Definition attempt {A} (m : C A) : C (option A) := catching (λ _, mret None) (a ← m; mret (Some a)).

(** ** The callback *)

(** [StackSnapshotCallbackContext::InvokeCallback]: what the consumer does is recorded. *)
Definition InvokeCallback : C Z := λ s,
  let '(r, x) := onFrame (client_frame s) (client s) in
  let hr := match r with Ret hr => Some hr | _ => None end in
  let s' := {| client := x; client_frame := client_frame s;
               cancellationRequested := cancellationRequested s || bool_decide (hr = Some S_FALSE);
               history := history s ++ [FrameDelivered (client_frame s) hr]; queries := queries s |} in
  match r with
  | Ret hr => (Ret hr, s')
  | Err _ => (Err StdException, s')
  | Stuck => (Stuck, s')
  | Fuel => (Fuel, s')
  end.

Definition StackSnapshotCallbackDefault (funcId ip : Z) : C Z :=
  set_client_frame (λ f, {| frame_functionId := funcId; frame_instructionPointer := ip; frame_threadId := frame_threadId f;
                            frame_isUnmanagedFrame := bool_decide (funcId = 0 ∧ ip ≠ 0) |});;
  InvokeCallback.

(** The runtime delivers frames until the callback does not return S_OK; whether it did not. *)
Fixpoint deliver_snapshot (fs : list (Z * Z)) : C bool :=
  match fs with
  | [] => mret false
  | (funcId, ip) :: fs =>
      hr ← StackSnapshotCallbackDefault funcId ip;
      if decide (hr = S_OK) then deliver_snapshot fs else mret true
  end.

Definition DoStackSnapshot (thread : Z) (seed : option CONTEXT) : C Z :=
  record (Snapshot thread seed);;
  fs ← ask_platform (λ k, snapshot_frames k thread seed);
  catches ← ask_platform snapshot_catches;
  aborted ← (if catches : bool then catching (λ _, mret true) (deliver_snapshot fs) else deliver_snapshot fs);
  ask_platform (λ k, snapshot_result k thread seed aborted).

Definition set_threadId (thread : Z) (f : CapturedFrame) : CapturedFrame :=
  {| frame_functionId := frame_functionId f; frame_instructionPointer := frame_instructionPointer f;
     frame_threadId := thread; frame_isUnmanagedFrame := frame_isUnmanagedFrame f |}.

Definition DoStackSnapshotUnseeded (thread : Z) : C Z :=
  set_client_frame (set_threadId thread);;
  DoStackSnapshot thread None.

(** ** The suspensions *)

Definition ThreadGuard {A} (osThreadId : Z) (scope : bool → C A) : C A :=
  opened ← ask_platform (λ k, OpenThread k osThreadId);
  if opened : bool then
    record HandleOpened;;
    suspended ← ask_platform (λ k, SuspendThread k osThreadId);
    if suspended : bool then
      record (ThreadSuspended osThreadId);;
      finally (scope true) (record (ThreadResumed osThreadId);; record HandleClosed)
    else
      record HandleClosed;;
      scope false
  else scope false.

(** ** Walking native frames *)

Definition IssueSeededDss (thread : Z) (seedCtx : CONTEXT) : C Z :=
  hr ← DoStackSnapshot thread (Some seedCtx);
  mret (if decide (hr = CORPROF_E_STACKSNAPSHOT_ABORTED) then S_OK else hr).

Record NativeWalkResult := { walk_hr : Z; walk_seed : option CONTEXT; nativeFrameCount : nat }.

Definition kMaxDepth : nat := 512.

(** What follows the loop; [hr] as the loop leaves it. *)
Definition walk_ends (hr : Z) (seed : option CONTEXT) (frameCount : nat) : NativeWalkResult :=
  {| walk_hr := match seed with None => if decide (0 < frameCount)%nat then S_OK else hr | Some _ => hr end;
     walk_seed := seed; nativeFrameCount := frameCount |}.

(** The handler around the loop. *)
Definition walk_faults (frameCount : nat) : NativeWalkResult := walk_ends (if decide (0 < frameCount)%nat then S_OK else E_FAIL) None frameCount.

Definition walk_frame_ip (imageBase : Z) (f : option RUNTIME_FUNCTION) (rip : Z) (sys : option bool) : Z :=
  if decide (imageBase ≠ 0) then (if decide (sys = Some false) then imageBase else function_entry imageBase f rip) else rip.

Definition native_frame (ip : Z) (f : CapturedFrame) : CapturedFrame :=
  {| frame_functionId := 0; frame_instructionPointer := ip; frame_threadId := frame_threadId f; frame_isUnmanagedFrame := true |}.

(** One unwinding; nothing where the loop is left, and [None] for a fault. *)
Definition unwind_native (imageBase : Z) (f : option RUNTIME_FUNCTION) (ctx : CONTEXT) : C (option (option CONTEXT)) :=
  record NativeCall;;
  match f with
  | None =>
      if decide (Rsp ctx = 0) then mret (Some None)
      else
        rip ← ask_platform (λ k, read_stack k (Rsp ctx));
        mret ((λ rip, Some {| Rip := rip; Rsp := u64 (Rsp ctx + 8); registers := registers ctx |}) <$> rip)
  | Some f =>
      ctx' ← ask_platform (λ k, rtl_unwind k imageBase (Rip ctx) f ctx);
      mret (Some <$> ctx')
  end.

Fixpoint walk_native (fuel : nat) (threadCtx : CONTEXT) (frameCount : nat) : C NativeWalkResult :=
  match fuel with
  | O => mret (walk_ends E_FAIL None frameCount)
  | S fuel =>
      if decide (Rip threadCtx = 0) then mret (walk_ends E_FAIL None frameCount)
      else
        record NativeCall;;
        '(fnHr, managedFuncId) ← ask_platform (λ k, info_GetFunctionFromIP k (Rip threadCtx));
        if decide (0 ≤ fnHr ∧ managedFuncId ≠ 0) then mret (walk_ends S_OK (Some threadCtx) frameCount)
        else
          record NativeCall;;
          looked ← ask_platform (λ k, rtl_lookup k (Rip threadCtx));
          match looked with
          | None => mret (walk_faults frameCount)
          | Some (imageBase, f) =>
              sys ← (if decide (imageBase ≠ 0) then ask_platform (λ k, IsSystemModule k imageBase) else mret None);
              set_client_frame (native_frame (walk_frame_ip imageBase f (Rip threadCtx) sys));;
              cbResult ← attempt InvokeCallback;
              match cbResult with
              | None => mret (walk_faults frameCount)
              | Some cbResult =>
                  if decide (cbResult ≠ S_OK) then mret (walk_ends (if decide (cbResult = S_FALSE) then S_OK else cbResult) None frameCount)
                  else
                    unwound ← unwind_native imageBase f threadCtx;
                    match unwound with
                    | None => mret (walk_faults (S frameCount))
                    | Some None => mret (walk_ends E_FAIL None (S frameCount))
                    | Some (Some ctx') =>
                        if decide (Rip ctx' = Rip threadCtx) then mret (walk_ends E_FAIL None (S frameCount))
                        else walk_native fuel ctx' (S frameCount)
                    end
              end
          end
  end.

Definition WalkNativeUntilManaged (initialCtx : CONTEXT) : C NativeWalkResult := walk_native kMaxDepth initialCtx 0.

Definition ContinueFromProbedFrame0 (thread : Z) (ctx : CONTEXT) (frame0 : CapturedFrame) : C Z :=
  if negb (frame_isUnmanagedFrame frame0) then
    set_client_frame (set_threadId thread);;
    IssueSeededDss thread ctx
  else
    set_client_frame (λ _, set_threadId thread frame0);;
    cbHr ← InvokeCallback;
    if decide (cbHr = S_FALSE) then mret S_OK
    else if FAILED cbHr then mret cbHr
    else
      walkResult ← WalkNativeUntilManaged ctx;
      if FAILED (walk_hr walkResult) && bool_decide (nativeFrameCount walkResult = 0%nat) then mret (walk_hr walkResult)
      else match walk_seed walkResult with Some seedCtx => IssueSeededDss thread seedCtx | None => mret (walk_hr walkResult) end.

(** ** The probes, as the sampling thread makes them *)

Definition probe_frame0 (ctx : CONTEXT) : C (CONTEXT * CapturedFrame) :=
  scheduled ← ask_platform schedule_frame0;
  if scheduled : bool then
    '(result, outputs) ← ask_platform (λ k, await_frame0 k ctx);
    record (Frame0Probed result);;
    if decide (result = Success) then mret outputs else throw (ProbeThrown result)
  else throw (ProbeThrown Failed).

Definition probe_dss : C unit :=
  scheduled ← ask_platform schedule_dss;
  if scheduled : bool then
    result ← ask_platform await_dss;
    record (DssProbed result);;
    if decide (result = Success) then mret tt else throw (ProbeThrown result)
  else throw (ProbeThrown Failed).

Definition require (b : bool) : C unit := if b then mret tt else throw (ProbeThrown Failed).

Definition GetContext (osThreadId : Z) : C CONTEXT :=
  ctx ← ask_platform (λ k, GetThreadContext k osThreadId);
  match ctx with Some ctx => mret ctx | None => throw (ProbeThrown Failed) end.

Definition catch_probe {A} (a : A) (m : C A) : C A :=
  catching (λ e, match e with ProbeThrown _ => mret a | StdException => throw StdException end) m.

(** ** The two runtimes *)

(** [IRuntimeCapture] *)
Record RuntimeCapture := {
  SuspendRuntime : C Z;
  ResumeRuntime : C unit;
  CaptureStack : Z → C Z;
}.

(** [native]: on 64-bit Windows. *)
Definition Clr_CaptureStack (native : bool) (thread : Z) : C Z :=
  hr ← DoStackSnapshotUnseeded thread;
  if SUCCEEDED hr then mret hr
  else if native then
    '(osHr, osThreadId) ← ask_platform (λ k, info_GetThreadInfo k thread);
    if decide (osHr < 0 ∨ osThreadId = 0) then mret hr
    else
      catch_probe hr
        (ThreadGuard osThreadId (λ acquired,
           require acquired;;
           ctx ← GetContext osThreadId;
           '(ctx, frame0) ← probe_frame0 ctx;
           ContinueFromProbedFrame0 thread ctx frame0))
  else mret hr.

Definition Clr_SuspendRuntime : C Z :=
  hr ← ask_platform info_SuspendRuntime;
  (if SUCCEEDED hr then record RuntimeSuspended else mret tt);;
  mret hr.

(** A failure is only logged. *)
Definition Clr_ResumeRuntime : C unit := record RuntimeResumed.

Definition ClrRuntimeCapture (native : bool) : RuntimeCapture := {|
  SuspendRuntime := Clr_SuspendRuntime;
  ResumeRuntime := Clr_ResumeRuntime;
  CaptureStack := Clr_CaptureStack native;
|}.

(** [native]: on 64-bit Windows, rather than 32-bit. *)
Definition NetFx_CaptureStack (native : bool) (thread : Z) : C Z :=
  '(canaryId, canaryOsId) ← ask_platform SnapshotCanary;
  if decide (canaryId = 0 ∨ canaryOsId = 0) then mret E_FAIL
  else if decide (canaryId = thread) then mret S_FALSE
  else
    '(hr, osThreadId) ← ask_platform (λ k, info_GetThreadInfo k thread);
    if decide (hr < 0 ∨ osThreadId = 0) then mret (if FAILED hr then hr else E_FAIL)
    else
      catch_probe E_FAIL
        (ThreadGuard osThreadId (λ acquired,
           require acquired;;
           ThreadGuard canaryOsId (λ acquired,
             require acquired;;
             if native then
               ctx ← GetContext osThreadId;
               '(ctx, frame0) ← probe_frame0 ctx;
               probe_dss;;
               ContinueFromProbedFrame0 thread ctx frame0
             else
               probe_dss;;
               DoStackSnapshotUnseeded thread))).

Definition NetFxRuntimeCapture (native : bool) : RuntimeCapture := {|
  SuspendRuntime := mret S_OK;
  ResumeRuntime := mret tt;
  CaptureStack := NetFx_CaptureStack native;
|}.

(** ** The batch *)

Definition RuntimeGuard {A} (runtime : RuntimeCapture) (scope : bool → C A) : C A :=
  hr ← SuspendRuntime runtime;
  if SUCCEEDED hr then finally (scope true) (ResumeRuntime runtime) else scope false.

(** [stopping_.load] *)
Definition load_stop : C bool :=
  stopping ← ask_platform load_stopping;
  record (StopLoaded stopping);;
  mret stopping.

Definition stopped : C bool :=
  stopping ← load_stop;
  if stopping : bool then mret true else s ← get; mret (cancellationRequested s).

Fixpoint capture_threads (runtime : RuntimeCapture) (threads : list Z) (captureResult : Z) : C Z :=
  match threads with
  | [] => mret (if SUCCEEDED captureResult then S_OK else captureResult)
  | thread :: threads =>
      stopping ← load_stop;
      if stopping : bool then mret S_FALSE
      else
        record (Capturing thread);;
        frameHr ← CaptureStack runtime thread;
        record (Captured thread frameHr);;
        stop ← stopped;
        if stop : bool then mret S_FALSE
        else capture_threads runtime threads (if FAILED frameHr && SUCCEEDED captureResult then frameHr else captureResult)
  end.

(** [StackCaptureImpl::CaptureStacks]; the set of threads in the order in which it is visited. *)
Definition StackCaptureImpl_CaptureStacks (runtime : RuntimeCapture) (threads : list Z) (clientData : bool) : C Z :=
  stopping ← load_stop;
  if stopping : bool then mret S_FALSE
  else if decide (threads = []) then mret S_OK
  else if negb clientData then mret E_INVALIDARG
  else
    catching (λ e, match e with StdException => mret E_FAIL | ProbeThrown r => throw (ProbeThrown r) end)
      (RuntimeGuard runtime (λ active,
         if negb active then mret E_FAIL
         else
           stopping ← load_stop;
           if stopping : bool then mret S_FALSE else capture_threads runtime threads S_OK)).

(** [StackWalkerImpl::CaptureStacks]: [capturer] is what the factory made, if anything. *)
Definition StackWalkerImpl_CaptureStacks (capturer : option RuntimeCapture) (threads : list Z) (request : bool) : C Z :=
  match capturer with
  | None => mret E_FAIL
  | Some runtime => if negb request then mret E_INVALIDARG else StackCaptureImpl_CaptureStacks runtime threads true
  end.

(** The factory, by runtime and platform. *)
Definition CreateStackCapturer (netfx windows x64 : bool) : option RuntimeCapture :=
  if netfx then (if windows then Some (NetFxRuntimeCapture x64) else None) else Some (ClrRuntimeCapture (windows && x64)).

(** ** Which records are legal *)

Record monitor := {
  runtime_suspended : bool;
  handles : nat;
  suspended_threads : list Z; (* the last one first *)
  frame0_probed : bool; (* the probes succeeded under the suspensions that last *)
  dss_probed : bool;
  captured_thread : option Z;
  stop_seen : bool; (* the callback has asked to stop *)
  results : list (Z * Z); (* of the threads captured so far *)
}.

Definition monitor_init : monitor :=
  {| runtime_suspended := false; handles := 0; suspended_threads := []; frame0_probed := false; dss_probed := false;
     captured_thread := None; stop_seen := false; results := [] |}.

Definition monitor_step (m : monitor) (e : capture_event) : option monitor :=
  match e with
  | RuntimeSuspended =>
      if decide (runtime_suspended m = false ∧ suspended_threads m = []) then
        Some {| runtime_suspended := true; handles := handles m; suspended_threads := []; frame0_probed := false; dss_probed := false;
                captured_thread := captured_thread m; stop_seen := stop_seen m; results := results m |}
      else None
  | RuntimeResumed =>
      if decide (runtime_suspended m = true ∧ suspended_threads m = []) then
        Some {| runtime_suspended := false; handles := handles m; suspended_threads := []; frame0_probed := false; dss_probed := false;
                captured_thread := captured_thread m; stop_seen := stop_seen m; results := results m |}
      else None
  | HandleOpened =>
      Some {| runtime_suspended := runtime_suspended m; handles := S (handles m); suspended_threads := suspended_threads m;
              frame0_probed := frame0_probed m; dss_probed := dss_probed m; captured_thread := captured_thread m; stop_seen := stop_seen m; results := results m |}
  | HandleClosed =>
      if decide (length (suspended_threads m) < handles m)%nat then
        Some {| runtime_suspended := runtime_suspended m; handles := pred (handles m); suspended_threads := suspended_threads m;
                frame0_probed := frame0_probed m; dss_probed := dss_probed m; captured_thread := captured_thread m; stop_seen := stop_seen m; results := results m |}
      else None
  | ThreadSuspended t =>
      if decide (length (suspended_threads m) < handles m)%nat then
        Some {| runtime_suspended := runtime_suspended m; handles := handles m; suspended_threads := t :: suspended_threads m;
                frame0_probed := false; dss_probed := false; captured_thread := captured_thread m; stop_seen := stop_seen m; results := results m |}
      else None
  | ThreadResumed t =>
      match suspended_threads m with
      | t' :: ts =>
          if decide (t = t') then
            Some {| runtime_suspended := runtime_suspended m; handles := handles m; suspended_threads := ts;
                    frame0_probed := false; dss_probed := false; captured_thread := captured_thread m; stop_seen := stop_seen m; results := results m |}
          else None
      | [] => None
      end
  | Frame0Probed r =>
      if decide (suspended_threads m ≠ []) then
        Some {| runtime_suspended := runtime_suspended m; handles := handles m; suspended_threads := suspended_threads m;
                frame0_probed := bool_decide (r = Success); dss_probed := dss_probed m; captured_thread := captured_thread m; stop_seen := stop_seen m; results := results m |}
      else None
  | DssProbed r =>
      if decide (length (suspended_threads m) = 2%nat) then
        Some {| runtime_suspended := runtime_suspended m; handles := handles m; suspended_threads := suspended_threads m;
                frame0_probed := frame0_probed m; dss_probed := bool_decide (r = Success); captured_thread := captured_thread m; stop_seen := stop_seen m; results := results m |}
      else None
  | NativeCall => if frame0_probed m then Some m else None
  | Snapshot t seed =>
      if decide (captured_thread m = Some t ∧ (runtime_suspended m = true ∨ dss_probed m = true) ∧ (seed = None ∨ frame0_probed m = true)) then Some m
      else None
  | FrameDelivered f hr =>
      if decide (captured_thread m = Some (frame_threadId f) ∧ (runtime_suspended m = true ∨ dss_probed m = true)) then
        Some {| runtime_suspended := runtime_suspended m; handles := handles m; suspended_threads := suspended_threads m;
                frame0_probed := frame0_probed m; dss_probed := dss_probed m; captured_thread := captured_thread m;
                stop_seen := stop_seen m || bool_decide (hr = Some S_FALSE);
                results := results m |}
      else None
  | Capturing t =>
      if decide (captured_thread m = None ∧ stop_seen m = false) then
        Some {| runtime_suspended := runtime_suspended m; handles := handles m; suspended_threads := suspended_threads m;
                frame0_probed := frame0_probed m; dss_probed := dss_probed m; captured_thread := Some t; stop_seen := stop_seen m; results := results m |}
      else None
  | Captured t hr =>
      if decide (captured_thread m = Some t) then
        Some {| runtime_suspended := runtime_suspended m; handles := handles m; suspended_threads := suspended_threads m;
                frame0_probed := frame0_probed m; dss_probed := dss_probed m; captured_thread := None; stop_seen := stop_seen m;
                results := results m ++ [(t, hr)] |}
      else None
  | StopLoaded _ => Some m
  end.

Definition monitored (h : list capture_event) : option monitor := foldl (λ o e, o ≫= λ m, monitor_step m e) (Some monitor_init) h.

(** ** From the entry point *)

Definition capture_init (x : X) : capturing X :=
  {| client := x; client_frame := {| frame_functionId := 0; frame_instructionPointer := 0; frame_threadId := 0; frame_isUnmanagedFrame := false |};
     cancellationRequested := false; history := []; queries := 0 |}.
End StackCapture.

(** ** An example: 64-bit Windows, a thread the runtime walks and one whose frames are native *)

#[local] Instance example_platform : CapturePlatform := {|
  load_stopping _ := false;
  info_SuspendRuntime _ := S_OK;
  info_GetThreadInfo _ t := (S_OK, 100 + t);
  info_GetFunctionFromIP _ ip := if decide (1000 ≤ ip) then (S_OK, 9) else (E_FAIL, 0);
  snapshot_frames _ t seed := match seed with Some ctx => [(9, Rip ctx)] | None => if decide (t = 8) then [] else [(5, 500); (6, 600)] end;
  snapshot_result _ t seed aborted :=
    if aborted then CORPROF_E_STACKSNAPSHOT_ABORTED else if decide (t = 8 ∧ seed = None) then E_FAIL else S_OK;
  snapshot_catches _ := false;
  OpenThread _ _ := true;
  SuspendThread _ _ := true;
  GetThreadContext _ _ := Some {| Rip := 42; Rsp := 8; registers := registers CONTEXT_zero |};
  rtl_lookup _ _ := Some (0, None);
  rtl_unwind _ _ _ _ _ := None;
  read_stack _ rsp := Some (if decide (rsp = 8) then 77 else 1000);
  IsSystemModule _ _ := None;
  schedule_frame0 _ := true;
  await_frame0 _ _ := (Success, ({| Rip := 77; Rsp := 16; registers := registers CONTEXT_zero |},
    {| frame_functionId := 0; frame_instructionPointer := 42; frame_threadId := 0; frame_isUnmanagedFrame := true |}));
  schedule_dss _ := true;
  await_dss _ := Success;
  SnapshotCanary _ := (3, 103);
|}.

(** A consumer that collects the frames, and throws on one it cannot take. *)
Definition example_onFrame (refused : Z) (f : CapturedFrame) (x : list (Z * Z)) : outcome unit Z * list (Z * Z) :=
  if decide (frame_instructionPointer f = refused) then (Err tt, x) else (Ret S_OK, x ++ [(frame_threadId f, frame_instructionPointer f)]).

Example example_capture :
  let '(r, s) := StackWalkerImpl_CaptureStacks
    (CreateStackCapturer (example_onFrame 0) false true true) [7; 8] true (capture_init []) in
  r = Ret S_OK ∧ client s = [(7, 500); (7, 600); (8, 42); (8, 77); (8, 1000)].
Proof. by vm_compute. Qed.

Example example_capture_netfx :
  let '(r, s) := StackWalkerImpl_CaptureStacks
    (CreateStackCapturer (example_onFrame 0) true true true) [3; 8] true (capture_init []) in
  r = Ret S_OK ∧ client s = [(8, 42); (8, 77); (8, 1000)].
Proof. by vm_compute. Qed.

Example example_capture_throws :
  let '(r, s) := StackWalkerImpl_CaptureStacks
    (CreateStackCapturer (example_onFrame 600) false true true) [7; 8] true (capture_init []) in
  r = Ret E_FAIL ∧ client s = [(7, 500)] ∧ last (history s) = Some RuntimeResumed.
Proof. by vm_compute. Qed.

(** A failure of the callback after a first native frame is reported as S_OK. *)
Definition example_failing (refused : Z) (f : CapturedFrame) (x : nat) : outcome unit Z * nat :=
  (Ret (if decide (frame_instructionPointer f = refused) then E_FAIL else S_OK), S x).

Example example_failure_lost :
  let walk ip := (WalkNativeUntilManaged (example_failing ip) {| Rip := 42; Rsp := 8; registers := registers CONTEXT_zero |}
    (capture_init 0%nat)).1 in
  (∃ r, walk 42 = Ret r ∧ walk_hr r = E_FAIL) ∧ ∃ r, walk 77 = Ret r ∧ walk_hr r = S_OK ∧ walk_seed r = None.
Proof. split; eexists; (split; [by vm_compute|]); by vm_compute. Qed.
