(* ===== verification/CaptureInvariants.v ===== *)
(** * What operations of a capture leave unchanged

    A small logic for the operations of [StackCapture], whatever the platform answers: [leaves]
    states where an operation leaves the record, whether it returns or throws; [closed] properties
    hold after every operation; and an exception of the standard library that leaves the capture of
    a thread is one of the consumer's callback, on the frame delivered last ([blames]). *)

From S2P Require Import Prelude SamplerLifecycle SamplingCycle StackWalkChecks StackCapture.

Section Invariants.
Context `{CapturePlatform} {X : Type} (onFrame : CapturedFrame → X → outcome unit Z * X).
Context (J : X → Prop) (onFrame_returns : consistent J onFrame).

Abbreviation C := (stM (capturing X) exn).
Abbreviation RuntimeCapture := (RuntimeCapture (X := X)).
Abbreviation InvokeCallback := (InvokeCallback onFrame).
Abbreviation StackSnapshotCallbackDefault := (StackSnapshotCallbackDefault onFrame).
Abbreviation deliver_snapshot := (deliver_snapshot onFrame).
Abbreviation DoStackSnapshot := (DoStackSnapshot onFrame).
Abbreviation DoStackSnapshotUnseeded := (DoStackSnapshotUnseeded onFrame).
Abbreviation IssueSeededDss := (IssueSeededDss onFrame).
Abbreviation walk_native := (walk_native onFrame).
Abbreviation WalkNativeUntilManaged := (WalkNativeUntilManaged onFrame).
Abbreviation ContinueFromProbedFrame0 := (ContinueFromProbedFrame0 onFrame).
Abbreviation Clr_CaptureStack := (Clr_CaptureStack onFrame).
Abbreviation ClrRuntimeCapture := (ClrRuntimeCapture onFrame).
Abbreviation NetFx_CaptureStack := (NetFx_CaptureStack onFrame).
Abbreviation NetFxRuntimeCapture := (NetFxRuntimeCapture onFrame).
Abbreviation CreateStackCapturer := (CreateStackCapturer onFrame).

(** ** Where operations leave the record *)

(** Operations that leave the record in a given state, whether they return or throw; what is thrown
    satisfies [T]. *)
Definition leaves {A} (T : exn → Prop) (P Q : capturing X → Prop) (c : C A) : Prop :=
  ∀ s, P s → wp c s (λ _, Q) (λ e s', T e ∧ Q s').

(** What the callback can throw. *)
Definition throws : Prop := ∃ f x, J x ∧ (onFrame f x).1 = Err tt.
Definition std (e : exn) : Prop := e = StdException ∧ throws.

Definition with_queries (k : nat) (s : capturing X) : capturing X :=
  {| client := client s; client_frame := client_frame s; cancellationRequested := cancellationRequested s; history := history s; queries := k |}.

Lemma wp_ask {A} (f : nat → A) s (Q : A → capturing X → Prop) E : (∀ k, Q (f (queries s)) (with_queries k s)) → wp (ask_platform f) s Q E.
Proof. intros HQ. apply HQ. Qed.

(** Queries are not recorded. *)
Definition recorded (P : capturing X → Prop) : Prop :=
  ∀ s k, P s → P {| client := client s; client_frame := client_frame s; cancellationRequested := cancellationRequested s;
                    history := history s; queries := k |}.

Lemma leaves_ret {A} T (P Q : capturing X → Prop) (a : A) : (∀ s, P s → Q s) → leaves T P Q (mret a).
Proof. intros HPQ s Hs. by apply HPQ. Qed.

Lemma leaves_bind {A B} T (P Q R : capturing X → Prop) (c : C A) (f : A → C B) :
  leaves T P Q c → (∀ s, Q s → R s) → (∀ a, leaves T Q R (f a)) → leaves T P R (c ≫= f).
Proof.
  intros Hc HQR Hf s Hs. apply wp_bind. eapply wp_mono; [by apply Hc| |].
  - intros a s' Hs'. by apply Hf.
  - intros e s' [? ?]. by split; [|apply HQR].
Qed.

(** The usual case: one place throughout. *)
Lemma leaves_seq {A B} T (P : capturing X → Prop) (c : C A) (f : A → C B) : leaves T P P c → (∀ a, leaves T P P (f a)) → leaves T P P (c ≫= f).
Proof. intros Hc Hf. by eapply leaves_bind. Qed.

Lemma leaves_ask {A B} T (P Q : capturing X → Prop) (f : nat → A) (g : A → C B) :
  recorded P → (∀ a, leaves T P Q (g a)) → leaves T P Q (ask_platform f ≫= g).
Proof. intros HP Hg s Hs. apply wp_bind. apply (Hg _ _ (HP _ _ Hs)). Qed.

Lemma leaves_asked {A} T (P : capturing X → Prop) (f : nat → A) : recorded P → leaves T P P (ask_platform f).
Proof. intros HP s Hs. apply (HP _ _ Hs). Qed.

Lemma leaves_throw {A} T (P Q : capturing X → Prop) e : T e → (∀ s, P s → Q s) → leaves T P Q (throw e : C A).
Proof. intros HT HPQ s Hs. split; [done|by apply HPQ]. Qed.

Lemma leaves_mono {A} (T T' : exn → Prop) (P P' Q Q' : capturing X → Prop) (c : C A) :
  leaves T P Q c → (∀ e, T e → T' e) → (∀ s, P' s → P s) → (∀ s, Q s → Q' s) → leaves T' P' Q' c.
Proof. intros Hc HT HP HQ s Hs. eapply wp_mono; [by apply Hc, HP|by auto|]. intros e s' [? ?]. auto. Qed.

Lemma leaves_catching {A} T (P Q : capturing X → Prop) (h : exn → C A) (c : C A) (T' : exn → Prop) :
  leaves T' P Q c → (∀ e, T' e → leaves T Q Q (h e)) → leaves T P Q (catching h c).
Proof.
  intros Hc Hh s Hs. specialize (Hc s Hs). unfold wp, catching in *. destruct (c s) as [[a|e| |] s']; try done.
  destruct Hc as [HT HQ]. by apply Hh.
Qed.

Lemma leaves_finally {A} T (P Q R : capturing X → Prop) (c : C A) (d : C unit) :
  leaves T P Q c → leaves (λ _, False) Q R d → leaves T P R (finally c d).
Proof.
  intros Hc Hd s Hs. specialize (Hc s Hs). unfold finally, wp in Hc |- *. destruct (c s) as [[a|e| |] s1]; try done.
  - specialize (Hd s1 Hc). unfold wp, mbind, stM_bind in *. destruct (d s1) as [[[]|e| |] s2]; try done. by destruct Hd.
  - destruct Hc as [HT HQ]. specialize (Hd s1 HQ). unfold wp, mbind, stM_bind in *. destruct (d s1) as [[[]|e'| |] s2]; try done. by destruct Hd.
Qed.

(** ** What no operation can break *)

(** What is recorded while a thread is captured, other than frames. *)
Definition inner (e : capture_event) : Prop :=
  match e with FrameDelivered _ _ | Capturing _ | Captured _ _ | StopLoaded _ | RuntimeSuspended => False | _ => True end.

(** A property of what was delivered and of the consumer. *)
Record closed (I : capturing X → Prop) : Prop := {
  closed_consistent : ∀ s, I s → J (client s);
  closed_queried : recorded I;
  closed_set : ∀ f s, I s → I (set_client_frame f s).2;
  closed_record : ∀ e s, inner e → I s → I (record e s).2;
  closed_callback : ∀ s, I s → I (InvokeCallback s).2;
}.

Section Stable.
Context (I : capturing X → Prop) (HI : closed I).

Abbreviation stable := (leaves (λ _, True) I I).

Lemma set_stable f : stable (set_client_frame f).
Proof. intros s. apply (closed_set _ HI). Qed.

Lemma record_stable e : inner e → stable (record e).
Proof. intros He s. by apply (closed_record _ HI). Qed.

Lemma ask_stable {A B} (f : nat → A) (g : A → C B) : (∀ a, stable (g a)) → stable (ask_platform f ≫= g).
Proof. apply leaves_ask, HI. Qed.

Lemma asked_stable {A} (f : nat → A) : stable (ask_platform f).
Proof. apply leaves_asked, HI. Qed.

Lemma ret_stable {A} (a : A) : stable (mret a).
Proof. by apply leaves_ret. Qed.

Lemma throw_stable {A} e : stable (throw e : C A).
Proof. by apply leaves_throw. Qed.

Lemma finally_stable {A} (c : C A) (d : C unit) : stable c → leaves (λ _, False) I I d → stable (finally c d).
Proof. apply leaves_finally. Qed.

Lemma catching_stable {A} (h : exn → C A) (c : C A) : stable c → (∀ e, stable (h e)) → stable (catching h c).
Proof. intros Hc Hh. by eapply leaves_catching. Qed.

Lemma callback_stable : stable InvokeCallback.
Proof.
  intros s Hs. pose proof (closed_callback _ HI s Hs) as Hc. revert Hc. unfold wp, InvokeCallback.
  pose proof (onFrame_returns (client_frame s) (client s) (closed_consistent _ HI s Hs)) as Hr. by destruct (onFrame _ _) as [[]].
Qed.

Lemma guard_stable {A} os (scope : bool → C A) : (∀ b, stable (scope b)) → stable (ThreadGuard os scope).
Proof.
  intros Hs. unfold ThreadGuard. apply ask_stable. intros []; [|done]. apply leaves_seq; [by apply record_stable|]. intros _.
  apply ask_stable. intros []; (apply leaves_seq; [by apply record_stable|]); intros _; [|done]. apply finally_stable; [done|].
  apply leaves_seq; [|intros _]; intros s Hs'; by apply (closed_record _ HI).
Qed.

Lemma require_stable b : stable (require b).
Proof. destruct b; [apply ret_stable|apply throw_stable]. Qed.

Lemma get_stable : stable get.
Proof. by intros s. Qed.

#[local] Hint Resolve get_stable require_stable set_stable asked_stable ret_stable throw_stable callback_stable : stable.
#[local] Hint Extern 1 (leaves _ I I (record _)) => apply record_stable; constructor : stable.

(** One operation after the other. *)
Ltac stable :=
  repeat first
    [ solve [auto with stable]
    | apply guard_stable; intros
    | apply ask_stable; intros
    | apply leaves_seq; [|intros]
    | apply catching_stable; [|intros]
    | case_decide
    | match goal with |- context [match ?x with _ => _ end] => destruct x end ].

Lemma deliver_stable fs : stable (deliver_snapshot fs).
Proof. induction fs as [|[f ip] fs IH]; cbn; [auto with stable|]. unfold StackSnapshotCallbackDefault. stable. Qed.
#[local] Hint Resolve deliver_stable : stable.

Lemma snapshot_stable t seed : stable (DoStackSnapshot t seed).
Proof. unfold DoStackSnapshot. stable. Qed.
#[local] Hint Resolve snapshot_stable : stable.

Lemma walk_stable fuel ctx n : stable (walk_native fuel ctx n).
Proof. revert ctx n. induction fuel as [|fuel IH]; intros ctx n; cbn; unfold attempt, unwind_native; stable. Qed.
#[local] Hint Resolve walk_stable : stable.

Lemma continue_stable t ctx frame0 : stable (ContinueFromProbedFrame0 t ctx frame0).
Proof. unfold ContinueFromProbedFrame0, IssueSeededDss, WalkNativeUntilManaged. stable. Qed.
#[local] Hint Resolve continue_stable : stable.

Lemma probe_frame0_stable ctx : stable (probe_frame0 ctx).
Proof. unfold probe_frame0. stable. Qed.

Lemma probe_dss_stable : stable probe_dss.
Proof. unfold probe_dss. stable. Qed.
#[local] Hint Resolve probe_frame0_stable probe_dss_stable : stable.

Lemma GetContext_stable os : stable (GetContext os).
Proof. unfold GetContext. stable. Qed.
#[local] Hint Resolve GetContext_stable : stable.

Lemma Clr_stable native t : stable (Clr_CaptureStack native t).
Proof. unfold Clr_CaptureStack, DoStackSnapshotUnseeded, catch_probe. stable. Qed.

Lemma NetFx_stable native t : stable (NetFx_CaptureStack native t).
Proof. unfold NetFx_CaptureStack, DoStackSnapshotUnseeded, catch_probe. stable. Qed.

Lemma load_stop_stable :
  (∀ e s, (∀ f hr, e ≠ FrameDelivered f hr) → I s → I (record e s).2) → stable load_stop.
Proof. intros Hmarks s Hs. apply (Hmarks (StopLoaded _)); [done|]. by apply (closed_queried _ HI). Qed.

Lemma CaptureStacks_stable netfx windows x64 threads request :
  (∀ e s, (∀ f hr, e ≠ FrameDelivered f hr) → I s → I (record e s).2) →
  stable (StackWalkerImpl_CaptureStacks (CreateStackCapturer netfx windows x64) threads request).
Proof.
  intros Hmarks. pose proof (load_stop_stable Hmarks) as Hload.
  assert (Hrec : ∀ e, (∀ f hr, e ≠ FrameDelivered f hr) → stable (record e)) by (intros e He s; by apply Hmarks).
  pose proof (Hrec RuntimeSuspended ltac:(done)) as Hsuspended.
  unfold StackWalkerImpl_CaptureStacks. destruct (CreateStackCapturer _ _ _) as [runtime|] eqn:E; [|auto with stable].
  assert (Hr : stable (SuspendRuntime runtime) ∧ leaves (λ _, False) I I (ResumeRuntime runtime) ∧ ∀ t, stable (CaptureStack runtime t)).
  { destruct netfx, windows; simplify_eq/=; (split; [stable|split; [|intros; (apply Clr_stable || apply NetFx_stable)]]);
      intros s Hs; by try apply (closed_record _ HI). }
  destruct Hr as (Hs & Hr & Hc), request; cbn [negb]; [|auto with stable]. unfold StackCaptureImpl_CaptureStacks, RuntimeGuard. cbn [negb].
  assert (Ht : ∀ threads hr, stable (capture_threads runtime threads hr)).
  { intros ts. induction ts as [|t ts IH]; intros hr; cbn; [auto with stable|]. unfold stopped.
    apply leaves_seq; [done|]. intros []; [auto with stable|]. apply leaves_seq; [by apply Hrec|]. intros _.
    apply leaves_seq; [done|]. intros hr1. apply leaves_seq; [by apply Hrec|]. intros _. unfold stopped.
    apply leaves_seq; [|intros []; [auto with stable|done]]. apply leaves_seq; [done|]. intros stopping. stable. }
  apply leaves_seq; [done|]. intros []; [auto with stable|]. case_decide; [auto with stable|].
  apply catching_stable; [|intros []; auto with stable]. apply leaves_seq; [done|]. intros hr.
  destruct (SUCCEEDED hr); [|auto with stable]. apply finally_stable; [|done]. apply leaves_seq; [done|]. intros []; auto with stable.
Qed.
End Stable.

(** ** Whose exceptions escape *)

Definition delivered_event (e : capture_event) : option (CapturedFrame * option Z) :=
  match e with FrameDelivered f hr => Some (f, hr) | _ => None end.
Definition delivered (h : list capture_event) : list (CapturedFrame * option Z) := omap delivered_event h.

Lemma delivered_app h h' : delivered (h ++ h') = delivered h ++ delivered h'.
Proof. apply omap_app. Qed.

(** The callback threw on the frame delivered last. *)
Definition escaped (s : capturing X) : Prop := ∃ f, last (delivered (history s)) = Some (f, None).
Definition unless_escaped {A} (r : outcome exn A * capturing X) : Prop :=
  match r with (Err StdException, s) => escaped s | _ => True end.
Definition blames {A} (c : C A) : Prop := ∀ s, unless_escaped (c s).

Lemma blames_bind {A B} (c : C A) (f : A → C B) : blames c → (∀ a, blames (f a)) → blames (c ≫= f).
Proof. intros Hc Hf s. specialize (Hc s). unfold mbind, stM_bind. destruct (c s) as [[a|e| |] s']; try done. apply Hf. Qed.

Lemma blames_ret {A} (a : A) : blames (mret a).
Proof. done. Qed.

Lemma blames_probe {A} r : blames (throw (ProbeThrown r) : C A).
Proof. done. Qed.

Lemma blames_ask {A} (f : nat → A) : blames (ask_platform f).
Proof. done. Qed.

Lemma blames_record e : blames (record e).
Proof. done. Qed.

Lemma blames_set f : blames (set_client_frame f).
Proof. done. Qed.

Lemma blames_callback : blames InvokeCallback.
Proof.
  intros s. unfold InvokeCallback. destruct (onFrame _ _) as [[hr|e| |] x]; try done. exists (client_frame s).
  cbn [history]. rewrite delivered_app. apply last_snoc.
Qed.

(** A handler that throws again what is not its own. *)
Lemma blames_catching {A} (h : exn → C A) (c : C A) :
  blames c → (∀ r, blames (h (ProbeThrown r))) → (∀ s, escaped s → unless_escaped (h StdException s)) → blames (catching h c).
Proof. intros Hc Hp Hs s. specialize (Hc s). unfold catching. destruct (c s) as [[a|[r|]| |] s']; try done; [apply Hp|by apply Hs]. Qed.

Lemma blames_finally {A} (c : C A) (d : C unit) :
  blames c → (∀ s, ∃ s', d s = (Ret tt, s') ∧ delivered (history s') = delivered (history s)) → blames (finally c d).
Proof.
  intros Hc Hd s. specialize (Hc s). unfold finally. destruct (c s) as [[a|e| |] s1]; try done;
    destruct (Hd s1) as (s2 & E & Ed); unfold mbind, stM_bind; rewrite E; [done|]. destruct e; [done|]. unfold unless_escaped, throw, escaped. by rewrite Ed.
Qed.

Lemma blames_guard {A} os (scope : bool → C A) : (∀ b, blames (scope b)) → blames (ThreadGuard os scope).
Proof.
  intros Hs. unfold ThreadGuard. apply blames_bind; [apply blames_ask|]. intros []; [|done]. apply blames_bind; [apply blames_record|].
  intros _. apply blames_bind; [apply blames_ask|]. intros []; (apply blames_bind; [apply blames_record|]); intros _; [|done].
  apply blames_finally; [done|]. intros s. eexists. split; [done|]. cbn. by rewrite !delivered_app, !app_nil_r.
Qed.

Lemma blames_require b : blames (require b).
Proof. by destruct b. Qed.

#[local] Hint Resolve blames_ret blames_probe blames_ask blames_record blames_set blames_callback blames_require : blames.

Ltac blames :=
  repeat first
    [ solve [auto with blames]
    | apply blames_guard; intros
    | apply blames_bind; [|intros]
    | apply blames_catching; [|intros|by intros]
    | case_decide
    | match goal with |- context [match ?x with _ => _ end] => destruct x end ].

Lemma blames_deliver fs : blames (deliver_snapshot fs).
Proof. induction fs as [|[f ip] fs IH]; cbn; [auto with blames|]. unfold StackSnapshotCallbackDefault. blames. Qed.
#[local] Hint Resolve blames_deliver : blames.

Lemma blames_snapshot t seed : blames (DoStackSnapshot t seed).
Proof. unfold DoStackSnapshot. blames. Qed.
#[local] Hint Resolve blames_snapshot : blames.

Lemma blames_walk fuel ctx n : blames (walk_native fuel ctx n).
Proof. revert ctx n. induction fuel as [|fuel IH]; intros ctx n; cbn; unfold attempt, unwind_native; blames. Qed.
#[local] Hint Resolve blames_walk : blames.

Lemma blames_continue t ctx frame0 : blames (ContinueFromProbedFrame0 t ctx frame0).
Proof. unfold ContinueFromProbedFrame0, IssueSeededDss, WalkNativeUntilManaged. blames. Qed.
#[local] Hint Resolve blames_continue : blames.

Lemma Clr_blames native t : blames (Clr_CaptureStack native t).
Proof. unfold Clr_CaptureStack, DoStackSnapshotUnseeded, catch_probe, probe_frame0, GetContext. blames. Qed.

Lemma NetFx_blames native t : blames (NetFx_CaptureStack native t).
Proof. unfold NetFx_CaptureStack, DoStackSnapshotUnseeded, catch_probe, probe_frame0, probe_dss, GetContext. blames. Qed.
End Invariants.
