(* ===== verification/StackCaptureSafe.v ===== *)
(** * Captures are safe (stack_capturer.cpp, clr_runtime_capture.cpp, netfx_runtime_capture.cpp,
    safe_native_walk_service.cpp, suspension_guards.cpp, thread_suspend.cpp)

    Whatever the platform answers and whether the consumer's callback returns or throws, the record
    of a capture is legal ([monitored]) and leaves nothing suspended and no handle open.  Each
    operation is shown to leave the record in a known place ([leaves], [place]); what the batch
    asks of a runtime is the class [WalkableRuntime], of which both runtimes are instances. *)

From S2P Require Import Prelude SamplerLifecycle SamplingCycle StackWalkChecks StackCapture CaptureInvariants.

Section CaptureSafe.
Context `{CapturePlatform} {X : Type} (onFrame : CapturedFrame → X → outcome unit Z * X).
Context (J : X → Prop) (onFrame_returns : consistent J onFrame).

Abbreviation C := (stM (capturing X) exn).
Abbreviation RuntimeCapture := (RuntimeCapture (X := X)).
Abbreviation InvokeCallback := (InvokeCallback onFrame).
Abbreviation StackSnapshotCallbackDefault := (StackSnapshotCallbackDefault onFrame).
Abbreviation deliver_snapshot := (deliver_snapshot onFrame).
Abbreviation DoStackSnapshot := (DoStackSnapshot onFrame).
Abbreviation DoStackSnapshotUnseeded := (DoStackSnapshotUnseeded onFrame).
Abbreviation IssueSeededDss := (IssueSeededDss onFrame).
Abbreviation walk_native := (walk_native onFrame).
Abbreviation WalkNativeUntilManaged := (WalkNativeUntilManaged onFrame).
Abbreviation ContinueFromProbedFrame0 := (ContinueFromProbedFrame0 onFrame).
Abbreviation Clr_CaptureStack := (Clr_CaptureStack onFrame).
Abbreviation ClrRuntimeCapture := (ClrRuntimeCapture onFrame).
Abbreviation NetFx_CaptureStack := (NetFx_CaptureStack onFrame).
Abbreviation NetFxRuntimeCapture := (NetFxRuntimeCapture onFrame).
Abbreviation CreateStackCapturer := (CreateStackCapturer onFrame).
Abbreviation std := (std onFrame J).
Abbreviation throws := (throws onFrame J).
Abbreviation blames := (blames (X := X)).
Abbreviation closed := (closed onFrame J).

(** ** What the operations do to the record *)

Lemma monitored_app h e m : monitored h = Some m → monitored (h ++ [e]) = monitor_step m e.
Proof. unfold monitored. intros E. by rewrite foldl_app, E. Qed.

(** Where a capture is: the runtime suspended or not, the handles and threads held, the probes that
    succeeded, the thread being captured and the results so far. *)
Definition place (rt : bool) (n : nat) (ts : list Z) (fp dp : bool) (cap : option Z) (rs : list (Z * Z)) (s : capturing X) : Prop :=
  J (client s) ∧ monitored (history s) =
  Some {| runtime_suspended := rt; handles := n; suspended_threads := ts; frame0_probed := fp; dss_probed := dp;
          captured_thread := cap; stop_seen := cancellationRequested s; results := rs |}.

(** The same, whatever the probes have said. *)
Definition held (rt : bool) (n : nat) (ts : list Z) (cap : option Z) (rs : list (Z * Z)) (s : capturing X) : Prop :=
  ∃ fp dp, place rt n ts fp dp cap rs s.

Lemma place_recorded rt n ts fp dp cap rs : recorded (place rt n ts fp dp cap rs).
Proof. by intros s k Hs. Qed.

Lemma held_recorded rt n ts cap rs : recorded (held rt n ts cap rs).
Proof. intros s k (fp & dp & Hs). by exists fp, dp. Qed.

Lemma leaves_record T e rt n ts fp dp cap rs rt' n' ts' fp' dp' cap' rs' :
  (∀ b, monitor_step {| runtime_suspended := rt; handles := n; suspended_threads := ts; frame0_probed := fp; dss_probed := dp;
                        captured_thread := cap; stop_seen := b; results := rs |} e =
        Some {| runtime_suspended := rt'; handles := n'; suspended_threads := ts'; frame0_probed := fp'; dss_probed := dp';
                captured_thread := cap'; stop_seen := b; results := rs' |}) →
  leaves T (place rt n ts fp dp cap rs) (place rt' n' ts' fp' dp' cap' rs') (record e).
Proof. intros He s [HJ Hs]. split; [done|]. cbn. by rewrite (monitored_app _ _ _ Hs), He. Qed.

(** ** Delivering frames of one thread *)

Section Delivering.
Context (rt : bool) (n : nat) (ts : list Z) (fp dp : bool) (t : Z) (rs : list (Z * Z)).
Hypothesis (deliverable : rt = true ∨ dp = true).

Abbreviation here := (place rt n ts fp dp (Some t) rs).
Definition stamped (s : capturing X) : Prop := here s ∧ frame_threadId (client_frame s) = t.

Lemma stamped_recorded : recorded stamped.
Proof. by intros s k [Hs Ht]. Qed.

Lemma set_client_frame_stamped T f : (∀ c, frame_threadId (f c) = frame_threadId c) → leaves T stamped stamped (set_client_frame f).
Proof. intros Hf s [Hs Ht]. split; [done|]. cbn. by rewrite Hf. Qed.

Lemma set_client_frame_here T f : (∀ c, frame_threadId (f c) = t) → leaves T here stamped (set_client_frame f).
Proof. intros Hf s Hs. split; [done|]. apply Hf. Qed.

Lemma InvokeCallback_stamped : leaves std stamped stamped InvokeCallback.
Proof.
  intros s [[HJ Hs] Ht]. unfold wp, InvokeCallback. pose proof (onFrame_returns (client_frame s) (client s) HJ) as Hr.
  destruct (onFrame (client_frame s) (client s)) as [r x] eqn:Ef. cbn in Hr.
  assert (Hm : ∀ hr, monitored (history s ++ [FrameDelivered (client_frame s) hr]) =
    Some {| runtime_suspended := rt; handles := n; suspended_threads := ts; frame0_probed := fp; dss_probed := dp; captured_thread := Some t;
            stop_seen := cancellationRequested s || bool_decide (hr = Some S_FALSE); results := rs |}).
  { intros hr. rewrite (monitored_app _ _ _ Hs). cbn. by rewrite decide_True by (by rewrite Ht). }
  destruct r as [hr|[]| |]; try done; [split; [split; [done|apply Hm]|done]|].
  split; [split; [done|]|split; [split; [done|apply Hm]|done]]. exists (client_frame s), (client s). by rewrite Ef.
Qed.

Lemma stamped_callback funcId ip : leaves std stamped stamped (StackSnapshotCallbackDefault funcId ip).
Proof. apply leaves_seq; [by apply set_client_frame_stamped|]. intros _. apply InvokeCallback_stamped. Qed.

Lemma deliver_stamped fs : leaves std stamped stamped (deliver_snapshot fs).
Proof.
  induction fs as [|[f ip] fs IH]; [by apply leaves_ret|]. apply leaves_seq; [apply stamped_callback|]. intros hr.
  case_decide; [done|by apply leaves_ret].
Qed.

Lemma record_stamped T e :
  (∀ b, let m := {| runtime_suspended := rt; handles := n; suspended_threads := ts; frame0_probed := fp; dss_probed := dp;
                    captured_thread := Some t; stop_seen := b; results := rs |} in monitor_step m e = Some m) →
  leaves T stamped stamped (record e).
Proof. intros He s [[HJ Hs] Ht]. split; [|done]. split; [done|]. cbn. by rewrite (monitored_app _ _ _ Hs), He. Qed.

Lemma snapshot_stamped seed : seed = None ∨ fp = true → leaves std stamped stamped (DoStackSnapshot t seed).
Proof.
  intros Hseed. unfold DoStackSnapshot. apply leaves_seq.
  { apply record_stamped. intros b. cbn. rewrite decide_True; [done|]. auto. }
  intros _. apply leaves_ask; [apply stamped_recorded|]. intros fs. apply leaves_ask; [apply stamped_recorded|]. intros catches.
  apply leaves_seq; [|intros; apply leaves_asked, stamped_recorded]. destruct catches; [|apply deliver_stamped].
  eapply leaves_catching; [apply deliver_stamped|]. intros. by apply leaves_ret.
Qed.

Lemma leaves_here {A} (c : C A) f :
  (∀ c, frame_threadId (f c) = t) → leaves std stamped stamped c → leaves std here here (set_client_frame f;; c).
Proof.
  intros Hf Hc. eapply leaves_bind; [by apply set_client_frame_here|by intros s [? _]|]. intros _.
  eapply leaves_mono; [exact Hc|done|done|by intros s [? _]].
Qed.

Lemma DoStackSnapshotUnseeded_here : leaves std here here (DoStackSnapshotUnseeded t).
Proof.
  apply leaves_here; [done|]. apply snapshot_stamped. by left.
Qed.

Hypothesis (probed : fp = true).

Lemma NativeCall_stamped T : leaves T stamped stamped (record NativeCall).
Proof. apply record_stamped. intros b. cbn. by rewrite probed. Qed.

Lemma IssueSeededDss_stamped ctx : leaves std stamped stamped (IssueSeededDss t ctx).
Proof. apply leaves_seq; [apply snapshot_stamped; by right|]. intros. by apply leaves_ret. Qed.

Lemma unwind_native_stamped T imageBase f ctx : leaves T stamped stamped (unwind_native imageBase f ctx).
Proof.
  apply leaves_seq; [apply NativeCall_stamped|]. intros _. destruct f as [f|]; [|case_decide; [by apply leaves_ret|]];
    (apply leaves_ask; [apply stamped_recorded|intros; by apply leaves_ret]).
Qed.

Lemma walk_native_stamped fuel ctx frameCount : leaves std stamped stamped (walk_native fuel ctx frameCount).
Proof.
  revert ctx frameCount. induction fuel as [|fuel IH]; intros ctx frameCount; [by apply leaves_ret|]. cbn.
  case_decide; [by apply leaves_ret|]. apply leaves_seq; [apply NativeCall_stamped|]. intros _.
  apply leaves_ask; [apply stamped_recorded|]. intros [fnHr f]. case_decide; [by apply leaves_ret|].
  apply leaves_seq; [apply NativeCall_stamped|]. intros _. apply leaves_ask; [apply stamped_recorded|].
  intros [[imageBase rf]|]; [|by apply leaves_ret].
  apply leaves_seq; [case_decide; [apply leaves_asked, stamped_recorded|by apply leaves_ret]|]. intros sys.
  apply leaves_seq; [by apply set_client_frame_stamped|]. intros _. apply leaves_seq.
  { eapply leaves_catching; [|intros; by apply leaves_ret]. apply leaves_seq; [apply InvokeCallback_stamped|intros; by apply leaves_ret]. }
  intros [cb|]; [|by apply leaves_ret]. case_decide; [by apply leaves_ret|]. apply leaves_seq; [apply unwind_native_stamped|].
  intros [[ctx'|]|]; try by apply leaves_ret. case_decide; [by apply leaves_ret|]. apply IH.
Qed.

Lemma ContinueFromProbedFrame0_here ctx frame0 : leaves std here here (ContinueFromProbedFrame0 t ctx frame0).
Proof.
  unfold ContinueFromProbedFrame0. destruct (frame_isUnmanagedFrame frame0); (apply leaves_here; [done|]).
  - apply leaves_seq; [apply InvokeCallback_stamped|]. intros cb. case_decide; [by apply leaves_ret|]. destruct (FAILED cb); [by apply leaves_ret|].
    apply leaves_seq; [apply walk_native_stamped|]. intros r. destruct (_ && _); [by apply leaves_ret|].
    destruct (walk_seed r); [apply IssueSeededDss_stamped|by apply leaves_ret].
  - apply IssueSeededDss_stamped.
Qed.
End Delivering.

(** ** The suspensions *)

Lemma held_place rt n ts fp dp cap rs s : place rt n ts fp dp cap rs s → held rt n ts cap rs s.
Proof. by exists fp, dp. Qed.

Lemma leaves_held {A} T rt n ts cap rs (Q : capturing X → Prop) (c : C A) :
  (∀ fp dp, leaves T (place rt n ts fp dp cap rs) Q c) → leaves T (held rt n ts cap rs) Q c.
Proof. intros Hc s (fp & dp & Hs). by apply (Hc fp dp). Qed.

Lemma leaves_recorded e rt n ts fp dp cap rs rt' n' ts' fp' dp' cap' rs' {A} T (Q : capturing X → Prop) (c : C A) :
  (∀ b, monitor_step {| runtime_suspended := rt; handles := n; suspended_threads := ts; frame0_probed := fp; dss_probed := dp;
                        captured_thread := cap; stop_seen := b; results := rs |} e =
        Some {| runtime_suspended := rt'; handles := n'; suspended_threads := ts'; frame0_probed := fp'; dss_probed := dp';
                captured_thread := cap'; stop_seen := b; results := rs' |}) →
  leaves T (place rt' n' ts' fp' dp' cap' rs') Q c → leaves T (place rt n ts fp dp cap rs) Q (record e;; c).
Proof. intros He Hc s [HJ Hs]. apply wp_bind. apply Hc. split; [done|]. cbn. by rewrite (monitored_app _ _ _ Hs), He. Qed.

Lemma leaves_record_held T e rt n ts fp dp cap rs rt' n' ts' fp' dp' cap' rs' :
  (∀ b, monitor_step {| runtime_suspended := rt; handles := n; suspended_threads := ts; frame0_probed := fp; dss_probed := dp;
                        captured_thread := cap; stop_seen := b; results := rs |} e =
        Some {| runtime_suspended := rt'; handles := n'; suspended_threads := ts'; frame0_probed := fp'; dss_probed := dp';
                captured_thread := cap'; stop_seen := b; results := rs' |}) →
  leaves T (place rt n ts fp dp cap rs) (held rt' n' ts' cap' rs') (record e).
Proof. intros He. eapply leaves_mono; [by apply (leaves_record T), He|done|done|apply held_place]. Qed.

(** An event that is legal where it is recorded. *)
Ltac legal := intros; cbn; rewrite ?decide_True by first [done|cbn; lia]; reflexivity.

Lemma ThreadGuard_leaves {A} T rt n ts fp dp cap rs os (scope : bool → C A) :
  (length ts ≤ n)%nat →
  leaves T (place rt (S n) (os :: ts) false false cap rs) (held rt (S n) (os :: ts) cap rs) (scope true) →
  leaves T (place rt n ts fp dp cap rs) (held rt n ts cap rs) (scope false) →
  leaves T (place rt n ts fp dp cap rs) (held rt n ts cap rs) (ThreadGuard os scope).
Proof.
  intros Hlen Ht Hf. unfold ThreadGuard. apply leaves_ask; [apply place_recorded|]. intros []; [|done].
  eapply leaves_recorded; [legal|]. apply leaves_ask; [apply place_recorded|]. intros [].
  - eapply leaves_recorded; [legal|]. eapply leaves_finally; [exact Ht|].
    apply leaves_held. intros fp' dp'. eapply leaves_recorded; [legal|].
    eapply leaves_record_held; legal.
  - eapply leaves_recorded; [legal|]. exact Hf.
Qed.

(** A probe, and what follows it if it succeeds. *)
Lemma leaves_then {A B} T (P Q R : capturing X → Prop) (c : C A) (g : A → C B) :
  (∀ s, P s → wp c s (λ _, Q) (λ e s', T e ∧ R s')) → (∀ a, leaves T Q R (g a)) → leaves T P R (c ≫= g).
Proof. intros Hc Hg s Hs. apply wp_bind. eapply wp_mono; [by apply Hc|intros a s' Hs'; by apply Hg|done]. Qed.

Lemma wp_queried {A B} T (P Q R : capturing X → Prop) (f : nat → A) (g : A → C B) :
  recorded P → (∀ a s, P s → wp (g a) s (λ _, Q) (λ e s', T e ∧ R s')) → ∀ s, P s → wp (ask_platform f ≫= g) s (λ _, Q) (λ e s', T e ∧ R s').
Proof. intros HP Hg s Hs. apply wp_bind. apply (Hg _ _ (HP _ _ Hs)). Qed.

Lemma wp_ask_any {A} (f : nat → A) (P : capturing X → Prop) s (Q : A → capturing X → Prop) E :
  recorded P → P s → (∀ a s', P s' → Q a s') → wp (ask_platform f) s Q E.
Proof. intros HP Hs HQ. apply HQ. apply (HP _ _ Hs). Qed.

Lemma probe_frame0_spec (T : exn → Prop) rt n ts fp dp cap rs ctx s :
  ts ≠ [] → (∀ r, T (ProbeThrown r)) → place rt n ts fp dp cap rs s →
  wp (probe_frame0 ctx) s (λ _, place rt n ts true dp cap rs) (λ e s', T e ∧ held rt n ts cap rs s').
Proof.
  intros Hts HT Hs. eapply wp_queried; [apply place_recorded| |done]. clear s Hs. intros [] s Hs; [|split; [done|by eapply held_place]].
  eapply wp_queried; [apply place_recorded| |done]. clear s Hs. intros [r o] s Hs. apply wp_bind.
  eapply wp_mono; [apply (leaves_record (λ _, False) (Frame0Probed r) rt n ts fp dp cap rs rt n ts (bool_decide (r = Success)) dp cap rs); [|done]| |by intros ? ? []].
  { intros b. cbn. by rewrite decide_True. }
  intros ? s' Hs'. case_decide as Hr; [by rewrite bool_decide_true in Hs'|]. split; [done|by eapply held_place].
Qed.

Lemma probe_dss_spec (T : exn → Prop) rt n ts fp dp cap rs s :
  length ts = 2%nat → (∀ r, T (ProbeThrown r)) → place rt n ts fp dp cap rs s →
  wp probe_dss s (λ _, place rt n ts fp true cap rs) (λ e s', T e ∧ held rt n ts cap rs s').
Proof.
  intros Hts HT Hs. eapply wp_queried; [apply place_recorded| |done]. clear s Hs. intros [] s Hs; [|split; [done|by eapply held_place]].
  eapply wp_queried; [apply place_recorded| |done]. clear s Hs. intros r s Hs. apply wp_bind.
  eapply wp_mono; [apply (leaves_record (λ _, False) (DssProbed r) rt n ts fp dp cap rs rt n ts fp (bool_decide (r = Success)) cap rs); [|done]| |by intros ? ? []].
  { intros b. cbn. by rewrite decide_True. }
  intros ? s' Hs'. case_decide as Hr; [by rewrite bool_decide_true in Hs'|]. split; [done|by eapply held_place].
Qed.

Lemma leaves_to_held {A} T rt n ts fp dp cap rs (c : C A) :
  leaves T (place rt n ts fp dp cap rs) (place rt n ts fp dp cap rs) c → leaves T (place rt n ts fp dp cap rs) (held rt n ts cap rs) c.
Proof. intros Hc. eapply leaves_mono; [exact Hc|done|done|apply held_place]. Qed.

(** Where a probe may be thrown. *)
Definition any (e : exn) : Prop := e = StdException → throws.

Lemma catch_probe_leaves {A} (P Q : capturing X → Prop) (a : A) (c : C A) : leaves any P Q c → leaves std P Q (catch_probe a c).
Proof.
  intros Hc. eapply leaves_catching; [exact Hc|]. intros [r|] Ha; [by apply leaves_ret|]. apply leaves_throw; [|done]. split; [done|by apply Ha].
Qed.

Lemma GetContext_spec rt n ts fp dp cap rs os s :
  place rt n ts fp dp cap rs s →
  wp (GetContext os) s (λ _, place rt n ts fp dp cap rs) (λ e s', any e ∧ held rt n ts cap rs s').
Proof.
  intros Hs. eapply wp_queried; [apply place_recorded| |done]. clear s Hs. intros [ctx|] s Hs; [done|]. split; [done|by eapply held_place].
Qed.

Lemma not_acquired {A} rt n ts fp dp cap rs (g : unit → C A) :
  leaves any (place rt n ts fp dp cap rs) (held rt n ts cap rs) (require false ≫= g).
Proof. intros s Hs. split; [done|by eapply held_place]. Qed.

Lemma acquired {A} T P Q (g : unit → C A) : leaves T P Q (g tt) → leaves T P Q (require true ≫= g).
Proof. done. Qed.

(** From the context of the suspended thread to its walk. *)
Lemma continue_leaves rt n ts fp dp t rs ctx frame0 :
  rt = true ∨ dp = true → fp = true →
  leaves any (place rt n ts fp dp (Some t) rs) (held rt n ts (Some t) rs) (ContinueFromProbedFrame0 t ctx frame0).
Proof. intros Hd Hp. eapply leaves_mono; [by apply ContinueFromProbedFrame0_here|by intros e [_ ?] ?|done|apply held_place]. Qed.

Lemma Clr_CaptureStack_leaves native t rs :
  leaves std (held true 0 [] (Some t) rs) (held true 0 [] (Some t) rs) (Clr_CaptureStack native t).
Proof.
  apply leaves_held. intros fp dp. unfold Clr_CaptureStack.
  eapply leaves_bind; [apply DoStackSnapshotUnseeded_here; by left|apply held_place|]. intros hr. destruct (SUCCEEDED hr); [apply leaves_ret, held_place|].
  destruct native; [|apply leaves_ret, held_place]. apply leaves_ask; [apply place_recorded|]. intros [osHr os].
  case_decide; [apply leaves_ret, held_place|]. apply catch_probe_leaves, ThreadGuard_leaves; [done|apply acquired|apply not_acquired].
  eapply (leaves_then any); [apply GetContext_spec|]. intros ctx.
  eapply (leaves_then any); [by intros s Hs; eapply probe_frame0_spec|]. intros [ctx' frame0]. apply continue_leaves; [by left|done].
Qed.

Lemma NetFx_CaptureStack_leaves native t rs :
  leaves std (held false 0 [] (Some t) rs) (held false 0 [] (Some t) rs) (NetFx_CaptureStack native t).
Proof.
  apply leaves_held. intros fp dp. unfold NetFx_CaptureStack. apply leaves_ask; [apply place_recorded|]. intros [canaryId canaryOs].
  case_decide; [apply leaves_ret, held_place|]. case_decide; [apply leaves_ret, held_place|].
  apply leaves_ask; [apply place_recorded|]. intros [hr os]. case_decide; [apply leaves_ret, held_place|].
  apply catch_probe_leaves, ThreadGuard_leaves; [done|apply acquired|apply not_acquired].
  apply ThreadGuard_leaves; [done|apply acquired|apply not_acquired]. destruct native.
  - eapply (leaves_then any); [apply GetContext_spec|]. intros ctx.
    eapply (leaves_then any); [by intros s Hs; eapply probe_frame0_spec|]. intros [ctx' frame0].
    eapply (leaves_then any); [by intros s Hs; eapply probe_dss_spec|]. intros _. apply continue_leaves; [by right|done].
  - eapply (leaves_then any); [by intros s Hs; eapply probe_dss_spec|]. intros _.
    eapply leaves_mono; [apply DoStackSnapshotUnseeded_here; by right|by intros e [_ ?] ?|done|apply held_place].
Qed.

(** ** What the batch asks of a runtime *)

Class WalkableRuntime (runtime : RuntimeCapture) := {
  runtime_is_suspended : bool; (* while it captures *)
  SuspendRuntime_law : ∀ s, place false 0 [] false false None [] s →
    wp (SuspendRuntime runtime) s
      (λ hr s', cancellationRequested s' = cancellationRequested s ∧
         place (runtime_is_suspended && SUCCEEDED hr) 0 [] false false None [] s' ∧
         history s' = history s ++ (if runtime_is_suspended && SUCCEEDED hr then [RuntimeSuspended] else []) ∧
         (runtime_is_suspended = false → SUCCEEDED hr = true)) (λ _ _, False);
  ResumeRuntime_law : ∀ cap rs s, held runtime_is_suspended 0 [] cap rs s →
    wp (ResumeRuntime runtime) s
      (λ _ s', cancellationRequested s' = cancellationRequested s ∧ held false 0 [] cap rs s' ∧
         history s' = history s ++ (if runtime_is_suspended then [RuntimeResumed] else [])) (λ _ _, False);
  CaptureStack_law : ∀ t rs,
    leaves std (held runtime_is_suspended 0 [] (Some t) rs) (held runtime_is_suspended 0 [] (Some t) rs) (CaptureStack runtime t);
  CaptureStack_stable : ∀ t I, closed I → leaves (λ _, True) I I (CaptureStack runtime t);
  CaptureStack_blames : ∀ t, blames (CaptureStack runtime t);
}.

#[export] Instance ClrRuntimeCapture_walkable native : WalkableRuntime (ClrRuntimeCapture native).
Proof using onFrame_returns.
  refine {| runtime_is_suspended := true |}.
  - intros s Hs. apply wp_bind, wp_ask. intros k. destruct (SUCCEEDED (info_SuspendRuntime _)) eqn:E; cbn [andb]; (split; [done|]).
    + rewrite E. destruct Hs as [HJ Hs]. split; [|by split]. split; [done|]. cbn. by rewrite (monitored_app _ _ _ Hs).
    + rewrite E. split; [done|]. split; [symmetry; apply app_nil_r|done].
  - intros cap rs s (fp & dp & HJ & Hs). split; [done|]. split; [|done]. exists false, false. split; [done|]. cbn. by rewrite (monitored_app _ _ _ Hs).
  - intros t rs. apply Clr_CaptureStack_leaves.
  - intros t I HI. by apply (Clr_stable onFrame J).
  - intros t. apply Clr_blames.
Defined.

#[export] Instance NetFxRuntimeCapture_walkable native : WalkableRuntime (NetFxRuntimeCapture native).
Proof using onFrame_returns.
  refine {| runtime_is_suspended := false |}.
  - intros s Hs. split; [done|]. split; [done|]. split; [symmetry; apply app_nil_r|done].
  - intros cap rs s Hs. split; [done|]. split; [done|]. symmetry. apply app_nil_r.
  - intros t rs. apply NetFx_CaptureStack_leaves.
  - intros t I HI. by apply (NetFx_stable onFrame J).
  - intros t. apply NetFx_blames.
Defined.

(** ** The batch *)

Definition first_failure (hrs : list Z) : Z := default S_OK (head (filter (λ hr, hr < 0) hrs)).

(** Where a batch stands with the flag that asks it to stop: it must be looked at before the runtime
    is suspended and after, and after every thread. *)
Inductive stop_check := CheckDue | CheckedClear | InThread | StopFound.

Definition check_step (c : stop_check) (e : capture_event) : option stop_check :=
  match e, c with
  | StopLoaded stopping, (CheckDue | CheckedClear) => Some (if stopping : bool then StopFound else CheckedClear)
  | StopLoaded _, _ => None
  | RuntimeSuspended, CheckedClear => Some CheckDue
  | RuntimeSuspended, _ => None
  | Capturing _, CheckedClear => Some InThread
  | Capturing _, _ => None
  | Captured _ _, InThread => Some CheckDue
  | Captured _ _, _ => None
  | _, _ => Some c
  end.

Definition stop_checks (h : list capture_event) : option stop_check := foldl (λ o e, o ≫= λ c, check_step c e) (Some CheckDue) h.

Definition ever_suspended (h : list capture_event) : bool := existsb (λ e, match e with RuntimeSuspended => true | _ => false end) h.

Lemma ever_suspended_app h e : ever_suspended h = true → ever_suspended (h ++ [e]) = true.
Proof. unfold ever_suspended. rewrite existsb_app. by intros ->. Qed.

(** What the record [h] of a batch, with the results [rs], says of its result [hr]; [suspends]: the
    runtime has to be suspended. *)
Definition batch_report (suspends : bool) (threads : list Z) (h : list capture_event) (m : monitor) (hr : Z) : Prop :=
  match stop_checks h with
  | Some StopFound => hr = S_FALSE ∧ captured_thread m = None ∧ (results m).*1 `prefix_of` threads
  | Some InThread => hr = E_FAIL ∧
      ∃ t f, captured_thread m = Some t ∧ (results m).*1 ++ [t] `prefix_of` threads ∧ last (delivered h) = Some (f, None)
  | Some CheckedClear => captured_thread m = None ∧
      if stop_seen m then hr = S_FALSE ∧ (results m).*1 `prefix_of` threads
      else if suspends && bool_decide (threads ≠ []) && negb (ever_suspended h) then hr = E_FAIL ∧ results m = []
      else (results m).*1 = threads ∧ hr = first_failure (results m).*2
  | _ => False
  end.

Lemma FAILED_spec hr : FAILED hr = negb (SUCCEEDED hr).
Proof. unfold FAILED, SUCCEEDED. repeat case_bool_decide; lia. Qed.

Lemma first_failure_app hrs hr : first_failure (hrs ++ [hr]) = if SUCCEEDED (first_failure hrs) then (if FAILED hr then hr else S_OK) else first_failure hrs.
Proof.
  unfold first_failure. rewrite filter_app. destruct (filter _ hrs) as [|x l] eqn:E; cbn.
  - unfold FAILED, filter, list_filter. case_decide; case_bool_decide; done.
  - assert (x < 0) as Hx. { assert (x ∈ filter (λ hr, hr < 0) hrs) as H' by (rewrite E; apply list_elem_of_here). apply list_elem_of_filter in H'. tauto. }
    unfold SUCCEEDED. by rewrite bool_decide_false by lia.
Qed.

Lemma first_failure_ok hrs : SUCCEEDED (first_failure hrs) = true → first_failure hrs = S_OK.
Proof.
  unfold first_failure, SUCCEEDED. destruct (filter _ hrs) as [|x l] eqn:E; [done|]. cbn. intros ?%bool_decide_eq_true.
  assert (x ∈ filter (λ hr, hr < 0) hrs) as H' by (rewrite E; apply list_elem_of_here). apply list_elem_of_filter in H'. lia.
Qed.

Lemma stop_checks_app h e c : stop_checks h = Some c → stop_checks (h ++ [e]) = check_step c e.
Proof. unfold stop_checks. intros E. by rewrite foldl_app, E. Qed.

(** Everything but the marks of the batch leaves the check where it is. *)
Lemma checked_closed (P : list capture_event → Prop) c :
  (∀ h e, P h → P (h ++ [e])) → closed (λ s, J (client s) ∧ P (history s) ∧ stop_checks (history s) = Some c ∧ c = InThread).
Proof using onFrame_returns.
  intros HP. split; [by intros s []|by intros s k|done|..].
  - intros e s He (HJ & Hh & Hc & ->). split; [done|]. split; [by apply HP|]. split; [|done]. cbn. rewrite (stop_checks_app _ _ _ Hc). by destruct e.
  - intros s (HJ & Hh & Hc & ->). unfold StackCapture.InvokeCallback.
    pose proof (onFrame_returns (client_frame s) (client s) HJ) as Hr. destruct (onFrame (client_frame s) (client s)) as [[hr|[]| |] x] eqn:Ef; try done;
      (split; [done|]; split; [by apply HP|]; split; [|done]); refine (eq_trans (stop_checks_app _ _ _ Hc) _); done.
Qed.

Section Batch.
Context (runtime : RuntimeCapture) `{!WalkableRuntime runtime}.

Abbreviation suspends := (runtime_is_suspended (runtime := runtime)).

(** In the batch: where the check is, and that the runtime has been suspended. *)
Definition batch_at (c : stop_check) (cap : option Z) (rs : list (Z * Z)) (s : capturing X) : Prop :=
  held suspends 0 [] cap rs s ∧ stop_checks (history s) = Some c ∧ (suspends = true → ever_suspended (history s) = true).

Lemma load_stop_spec c cap rs s :
  c = CheckDue ∨ c = CheckedClear → batch_at c cap rs s →
  wp load_stop s (λ b s', batch_at (if b then StopFound else CheckedClear) cap rs s' ∧ cancellationRequested s' = cancellationRequested s) (λ _ _, False).
Proof.
  intros Hc ((fp & dp & HJ & Hs) & Hk & Hsus). apply wp_bind, wp_ask. intros k. split; [|done].
  split; [exists fp, dp; split; [done|]; cbn; by rewrite (monitored_app _ _ _ Hs)|]. split; cbn.
  - rewrite (stop_checks_app _ _ _ Hk). by destruct Hc as [->| ->].
  - intros E. by apply ever_suspended_app, Hsus.
Qed.

Lemma Capturing_spec t rs s :
  batch_at CheckedClear None rs s → cancellationRequested s = false → wp (record (Capturing t)) s (λ _, batch_at InThread (Some t) rs) (λ _ _, False).
Proof.
  intros ((fp & dp & HJ & Hs) & Hk & Hsus) Hc. split; [exists fp, dp; split; [done|]; cbn; by rewrite (monitored_app _ _ _ Hs), Hc|].
  split; cbn; [by rewrite (stop_checks_app _ _ _ Hk)|]. intros E. by apply ever_suspended_app, Hsus.
Qed.

Lemma Captured_spec t hr rs s :
  batch_at InThread (Some t) rs s → wp (record (Captured t hr)) s (λ _, batch_at CheckDue None (rs ++ [(t, hr)])) (λ _ _, False).
Proof.
  intros ((fp & dp & HJ & Hs) & Hk & Hsus). split.
  - exists fp, dp. split; [done|]. cbn. rewrite (monitored_app _ _ _ Hs). cbn. by rewrite decide_True.
  - split; cbn; [by rewrite (stop_checks_app _ _ _ Hk)|]. intros E. by apply ever_suspended_app, Hsus.
Qed.

(** The capture of one thread; what leaves it by an exception is the callback's. *)
Lemma CaptureStack_spec t rs s :
  batch_at InThread (Some t) rs s →
  wp (CaptureStack runtime t) s (λ _, batch_at InThread (Some t) rs) (λ e s', std e ∧ batch_at InThread (Some t) rs s' ∧ escaped s').
Proof using onFrame_returns.
  intros (Hh & Hk & Hsus). pose proof (CaptureStack_law t rs s Hh) as H1. pose proof (CaptureStack_blames t s) as H2.
  assert (HP : ∀ h e, (suspends = true → ever_suspended h = true) → suspends = true → ever_suspended (h ++ [e]) = true).
  { intros h e Hs E. by apply ever_suspended_app, Hs. }
  pose proof (CaptureStack_stable t _ (checked_closed (λ h, suspends = true → ever_suspended h = true) InThread HP) s) as H3. destruct Hh as (fp & dp & HJ & Hs).
  specialize (H3 (conj HJ (conj Hsus (conj Hk eq_refl)))). unfold wp in *. destruct (CaptureStack runtime t s) as [[hr|e| |] s']; try done.
  - by destruct H3 as (_ & ? & ? & _).
  - destruct H1 as [[-> Hth] Hh], H3 as [_ (_ & ? & ? & _)]. by repeat split.
Qed.

(** How the loop over the threads ends. *)
Definition loop_ended (threads : list Z) (hr : Z) (s : capturing X) : Prop := ∃ rs,
  hr = S_FALSE ∧ rs.*1 `prefix_of` threads ∧ (batch_at StopFound None rs s ∨ batch_at CheckedClear None rs s ∧ cancellationRequested s = true) ∨
  batch_at CheckedClear None rs s ∧ cancellationRequested s = false ∧ rs.*1 = threads ∧ hr = first_failure rs.*2.
Definition loop_left (threads : list Z) (e : exn) (s : capturing X) : Prop :=
  std e ∧ ∃ t rs, batch_at InThread (Some t) rs s ∧ rs.*1 ++ [t] `prefix_of` threads ∧ escaped s.

Lemma stopped_spec rs s :
  batch_at CheckDue None rs s →
  wp stopped s (λ b s', if b : bool then batch_at StopFound None rs s' ∨ batch_at CheckedClear None rs s' ∧ cancellationRequested s' = true
                        else batch_at CheckedClear None rs s' ∧ cancellationRequested s' = false) (λ _ _, False).
Proof.
  intros Hs. apply wp_bind. eapply wp_mono; [apply (load_stop_spec CheckDue); [by left|done]| |done].
  intros [] s' [Hs' _]; cbn; [by left|]. unfold wp, mbind, stM_bind, get, mret, stM_ret. destruct (cancellationRequested s') eqn:E; [right|]; by split.
Qed.

Lemma capture_threads_spec threads rs s :
  batch_at CheckedClear None rs s → cancellationRequested s = false →
  wp (capture_threads runtime threads (first_failure rs.*2)) s (loop_ended (rs.*1 ++ threads)) (loop_left (rs.*1 ++ threads)).
Proof using onFrame_returns.
  revert rs s. induction threads as [|t threads IH]; intros rs s Hs Hc; cbn [capture_threads].
  { exists rs. right. rewrite app_nil_r. split_and!; [done..|]. destruct (SUCCEEDED (first_failure rs.*2)) eqn:E; [|done]. by rewrite first_failure_ok. }
  apply wp_bind. eapply wp_mono; [apply (load_stop_spec CheckedClear); [by right|done]| |done]. intros stopping s0 [Hs0 Hc0].
  destruct stopping; [exists rs; left; split_and!; [done|by apply prefix_app_r|by left]|].
  apply wp_bind. eapply wp_mono; [apply (Capturing_spec t rs); [done|congruence]| |done]. intros [] s1 Hs1.
  apply wp_bind. eapply wp_mono; [apply CaptureStack_spec, Hs1| |].
  2: { intros e s' (? & ? & ?). split; [done|]. exists t, rs. split_and!; [done| |done]. apply prefix_app. by apply prefix_cons, prefix_nil. }
  intros frameHr s2 Hs2. apply wp_bind. eapply wp_mono; [apply (Captured_spec t frameHr rs), Hs2| |done].
  intros [] s3 Hs3. apply wp_bind. eapply wp_mono; [apply (stopped_spec _ _ Hs3)| |done].
  assert (Hmid : rs.*1 ++ t :: threads = (rs ++ [(t, frameHr)]).*1 ++ threads) by by rewrite fmap_app, <-app_assoc.
  intros stop s4 Hstop. destruct stop.
  { exists (rs ++ [(t, frameHr)]). left. split; [done|]. split; [rewrite Hmid; by apply prefix_app_r|done]. }
  destruct Hstop as [Hs4 Hc4].
  assert (Hff : (if FAILED frameHr && SUCCEEDED (first_failure rs.*2) then frameHr else first_failure rs.*2) = first_failure (rs ++ [(t, frameHr)]).*2).
  { rewrite fmap_app. cbn. rewrite first_failure_app. destruct (SUCCEEDED (first_failure rs.*2)) eqn:E; [|by rewrite andb_false_r].
    rewrite andb_true_r. destruct (FAILED frameHr); [done|]. by apply first_failure_ok. }
  rewrite Hff, Hmid. by apply IH.
Qed.
End Batch.

Section Impl.
Context (runtime : RuntimeCapture) `{!WalkableRuntime runtime}.

Abbreviation suspends := (runtime_is_suspended (runtime := runtime)).

(** How a batch ends: with nothing suspended, and with a result that its record accounts for. *)
Definition batch_ended (threads : list Z) (hr : Z) (s : capturing X) : Prop :=
  ∃ m, monitored (history s) = Some m ∧ runtime_suspended m = false ∧ suspended_threads m = [] ∧ handles m = 0%nat ∧
    batch_report suspends threads (history s) m hr.

Lemma batch_ended_place threads hr fp dp cap rs s :
  place false 0 [] fp dp cap rs s →
  batch_report suspends threads (history s)
    {| runtime_suspended := false; handles := 0; suspended_threads := []; frame0_probed := fp; dss_probed := dp;
       captured_thread := cap; stop_seen := cancellationRequested s; results := rs |} hr →
  batch_ended threads hr s.
Proof. intros [_ Hs] Hr. eexists. by split. Qed.

(** The destructor of the guard of the runtime. *)
Lemma finally_result {A} (c : C A) s (Q : A → capturing X → Prop) (E : exn → capturing X → Prop) (Q' : A → capturing X → Prop) (E' : exn → capturing X → Prop) d :
  wp c s Q E → (∀ a s', Q a s' → wp d s' (λ _, Q' a) (λ _ _, False)) → (∀ e s', E e s' → wp d s' (λ _, E' e) (λ _ _, False)) →
  wp (finally c d) s Q' E'.
Proof.
  intros Hc Hq He. unfold finally, wp in Hc |- *. destruct (c s) as [[a|e| |] s1]; try done.
  - specialize (Hq a s1 Hc). unfold wp, mbind, stM_bind in *. by destruct (d s1) as [[[]|e| |] s2].
  - specialize (He e s1 Hc). unfold wp, mbind, stM_bind in *. by destruct (d s1) as [[[]|e'| |] s2].
Qed.

(** The loop, and the runtime resumed after it. *)
Lemma resume_spec c cap rs s :
  batch_at runtime c cap rs s →
  wp (ResumeRuntime runtime) s
    (λ _ s', cancellationRequested s' = cancellationRequested s ∧ held false 0 [] cap rs s' ∧ stop_checks (history s') = Some c ∧
       delivered (history s') = delivered (history s) ∧ (suspends = true → ever_suspended (history s') = true)) (λ _ _, False).
Proof.
  intros (Hs & Hk & Hsus). eapply wp_mono; [by apply ResumeRuntime_law| |done]. intros _ s' (Hc & Hh & E).
  split_and!; [done|done|..]; rewrite E; destruct suspends; rewrite ?app_nil_r; try done.
  - by rewrite (stop_checks_app _ _ _ Hk).
  - rewrite delivered_app. apply app_nil_r.
  - intros _. by apply ever_suspended_app, Hsus.
Qed.

Lemma ended_spec threads hr s : loop_ended runtime threads hr s → wp (ResumeRuntime runtime) s (λ _, batch_ended threads hr) (λ _ _, False).
Proof.
  intros (rs & [(-> & Hp & [Hs|[Hs Hc]])|(Hs & Hc & Hp & ->)]); (eapply wp_mono; [apply (resume_spec _ _ _ _ Hs)| |done]);
    intros _ s' (Hc' & (fp & dp & Hs') & Hk & _ & Hsus); (eapply batch_ended_place; [done|]); unfold batch_report; rewrite Hk; cbn; [done|..];
    rewrite Hc', Hc; [done|]. split; [done|]. destruct suspends; [|done]. rewrite Hsus by done. by rewrite andb_false_r.
Qed.

Lemma left_spec threads e s :
  loop_left runtime threads e s → wp (ResumeRuntime runtime) s (λ _ s', e = StdException ∧ batch_ended threads E_FAIL s') (λ _ _, False).
Proof.
  intros ((-> & _) & t & rs & Hs & Hp & f & Hf). eapply wp_mono; [apply (resume_spec _ _ _ _ Hs)| |done].
  intros _ s' (Hc' & (fp & dp & Hs') & Hk & Hd & _). split; [done|]. eapply batch_ended_place; [done|]. unfold batch_report. rewrite Hk.
  split; [done|]. exists t, f. cbn. by rewrite Hd.
Qed.

Lemma load_stop_place rt n ts fp dp cap rs s :
  place rt n ts fp dp cap rs s →
  wp load_stop s (λ b s', place rt n ts fp dp cap rs s' ∧ history s' = history s ++ [StopLoaded b] ∧
    cancellationRequested s' = cancellationRequested s) (λ _ _, False).
Proof.
  intros [HJ Hs]. apply wp_bind, wp_ask. intros k. split; [|done]. split; [done|]. cbn. by rewrite (monitored_app _ _ _ Hs).
Qed.

(** Nothing has been begun. *)
Lemma nothing_begun threads hr h s :
  place false 0 [] false false None [] s → cancellationRequested s = false → history s = [StopLoaded h] →
  (if h then hr = S_FALSE else if suspends && bool_decide (threads ≠ []) then hr = E_FAIL else threads = [] ∧ hr = S_OK) →
  batch_ended threads hr s.
Proof.
  intros Hs Hc Hh Hr. eapply batch_ended_place; [done|]. rewrite Hh, Hc. unfold batch_report. cbn. destruct h; cbn.
  - split_and!; [done|done|]. apply prefix_nil.
  - split; [done|]. rewrite andb_true_r. destruct (suspends && bool_decide (threads ≠ [])); [done|]. by destruct Hr as [-> ->].
Qed.

Lemma StackCaptureImpl_spec threads s :
  place false 0 [] false false None [] s → cancellationRequested s = false → history s = [] →
  wp (StackCaptureImpl_CaptureStacks runtime threads true) s (batch_ended threads) (λ _ _, False).
Proof using onFrame_returns.
  intros Hs Hc Hh. unfold StackCaptureImpl_CaptureStacks. apply wp_bind. eapply wp_mono; [by apply load_stop_place| |done].
  intros b s0 (Hs0 & Hh0 & Hc0). rewrite Hh in Hh0. rewrite Hc in Hc0. cbn in Hh0. clear Hs Hc Hh.
  destruct b; [by eapply nothing_begun|]. case_decide as Ht.
  { eapply nothing_begun; [done..|]. cbn. rewrite bool_decide_eq_false_2 by tauto. by rewrite andb_false_r. }
  cbn [negb].
  assert (Hcatch : ∀ (c : C Z) s, wp c s (batch_ended threads) (λ e s', e = StdException ∧ batch_ended threads E_FAIL s') →
    wp (catching (λ e, match e with StdException => mret E_FAIL | ProbeThrown r => throw (ProbeThrown r) end) c) s (batch_ended threads) (λ _ _, False)).
  { intros c s1 Hw. unfold wp, catching in *. destruct (c s1) as [[a|e| |] s2]; try done. by destruct Hw as [-> Hw]. }
  apply Hcatch. unfold RuntimeGuard. apply wp_bind. eapply wp_mono; [by apply SuspendRuntime_law| |done].
  intros hr s1 (Hc1 & Hs1 & Hh1 & Hsucc). rewrite Hc0 in Hc1. rewrite Hh0 in Hh1. destruct (SUCCEEDED hr).
  2: { rewrite andb_false_r in Hs1, Hh1. destruct suspends eqn:E; [|exfalso; by specialize (Hsucc ltac:(first [exact eq_refl|exact E]))].
       eapply nothing_begun; [done..|]. cbn. by rewrite E, bool_decide_eq_true_2. }
  rewrite andb_true_r in Hs1, Hh1. cbn [negb]. apply (finally_result _ _ (loop_ended runtime threads) (loop_left runtime threads)); [|apply ended_spec|apply left_spec].
  assert (Hat : batch_at runtime (if suspends then CheckDue else CheckedClear) None [] s1).
  { split; [by eapply held_place|]. rewrite Hh1. by destruct suspends. }
  apply wp_bind. eapply wp_mono; [eapply load_stop_spec; [|exact Hat]; destruct suspends; auto| |done].
  intros b s2 [Hs2 Hc2]. rewrite Hc1 in Hc2. destruct b.
  - exists []. left. split_and!; [done|apply prefix_nil|by left].
  - by apply (capture_threads_spec runtime threads []).
Qed.
End Impl.

(** ** From the entry point *)

Lemma capture_init_place x : J x → place false 0 [] false false None [] (capture_init x).
Proof. done. Qed.

Lemma CreateStackCapturer_walkable netfx windows x64 runtime :
  CreateStackCapturer netfx windows x64 = Some runtime → ∃ W : WalkableRuntime runtime, runtime_is_suspended (runtime := runtime) = negb netfx.
Proof using onFrame_returns.
  destruct netfx, windows; intros; simplify_eq/=; first [exists (NetFxRuntimeCapture_walkable _); done|exists (ClrRuntimeCapture_walkable _); done].
Qed.

Lemma CaptureStacks_spec netfx windows x64 threads request x :
  J x →
  wp (StackWalkerImpl_CaptureStacks (CreateStackCapturer netfx windows x64) threads request) (capture_init x)
    (λ hr s, match CreateStackCapturer netfx windows x64 with
             | None => hr = E_FAIL ∧ history s = []
             | Some _ =>
                 if request then
                   ∃ m, monitored (history s) = Some m ∧ runtime_suspended m = false ∧ suspended_threads m = [] ∧ handles m = 0%nat ∧
                     batch_report (negb netfx) threads (history s) m hr
                 else hr = E_INVALIDARG ∧ history s = []
             end) (λ _ _, False).
Proof using onFrame_returns.
  intros HJ. unfold StackWalkerImpl_CaptureStacks. destruct (CreateStackCapturer netfx windows x64) as [runtime|] eqn:E; [|done].
  destruct (CreateStackCapturer_walkable _ _ _ _ E) as [W <-]. destruct request; [|done].
  by apply (StackCaptureImpl_spec runtime threads); [apply capture_init_place|..].
Qed.
End CaptureSafe.

(** C24: whatever the runtime, Windows and the stack walk guard answer, and whether the consumer's
    callback returns or throws, a batch of stacks returns a result, and what it did outside is
    legal: threads are suspended through open handles and resumed in the opposite order, stacks are
    walked only under the suspension of the runtime or after a canary probe that succeeded with
    both threads suspended, native frames and seeds only after a frame 0 probe that succeeded under
    suspensions that still last, frames are delivered under the thread being captured, no thread is
    begun once the consumer has asked to stop; and at the end nothing is suspended and no handle is
    open. *)
Theorem stack_capture_safe `{CapturePlatform} {X : Type} (onFrame : CapturedFrame → X → outcome unit Z * X)
    (J : X → Prop) (HJ : consistent J onFrame) netfx windows x64 threads request x :
  J x →
  ∃ hr s m, StackWalkerImpl_CaptureStacks (CreateStackCapturer onFrame netfx windows x64) threads request (capture_init x) = (Ret hr, s) ∧
    monitored (history s) = Some m ∧ runtime_suspended m = false ∧ suspended_threads m = [] ∧ handles m = 0%nat.
Proof.
  intros Hx. pose proof (CaptureStacks_spec onFrame J HJ netfx windows x64 threads request x Hx) as Hw. unfold wp in Hw.
  destruct (StackWalkerImpl_CaptureStacks _ _ _ _) as [[hr|e| |] s]; try done. exists hr, s.
  destruct (CreateStackCapturer _ _ _ _) as [runtime|], request.
  1: destruct Hw as (m & ? & ? & ? & ? & _); by exists m.
  all: destruct Hw as [_ Hh]; exists monitor_init; by rewrite Hh.
Qed.

#[local] Existing Instance example_platform.

Lemma stack_capture_safe_witness :
  consistent (λ x, True) (example_onFrame 600) ∧
  ∃ hr s m, StackWalkerImpl_CaptureStacks (CreateStackCapturer (example_onFrame 600) false true true) [7; 8] true (capture_init []) = (Ret hr, s) ∧
    monitored (history s) = Some m ∧ runtime_suspended m = false ∧ suspended_threads m = [] ∧ handles m = 0%nat.
Proof.
  assert (consistent (λ x, True) (example_onFrame 600)) as HJ by (intros f x _; unfold example_onFrame; by case_decide).
  split; [exact HJ|]. by apply (stack_capture_safe (example_onFrame 600) _ HJ).
Defined.
