(* ===== verification/StackCaptureRuns.v ===== *)
(** * What captures deliver (stack_capturer.cpp, clr_runtime_capture.cpp, netfx_runtime_capture.cpp,
    safe_native_walk_service.cpp)

    What the consumer is handed and what the result says: the state of the consumer is what its
    callback makes of the frames delivered, in every capture; the result reports how the batch went; when nothing fails all frames of all threads
    are delivered in order; and the walk over native frames is bounded. *)

From S2P Require Import Prelude SamplerLifecycle SamplingCycle StackWalkChecks StackCapture CaptureInvariants StackCaptureSafe.

Section CaptureRuns.
Context `{CapturePlatform} {X : Type} (onFrame : CapturedFrame → X → outcome unit Z * X).
Context (J : X → Prop) (onFrame_returns : consistent J onFrame).

Abbreviation C := (stM (capturing X) exn).
Abbreviation RuntimeCapture := (RuntimeCapture (X := X)).
Abbreviation InvokeCallback := (InvokeCallback onFrame).
Abbreviation StackSnapshotCallbackDefault := (StackSnapshotCallbackDefault onFrame).
Abbreviation deliver_snapshot := (deliver_snapshot onFrame).
Abbreviation DoStackSnapshot := (DoStackSnapshot onFrame).
Abbreviation DoStackSnapshotUnseeded := (DoStackSnapshotUnseeded onFrame).
Abbreviation IssueSeededDss := (IssueSeededDss onFrame).
Abbreviation walk_native := (walk_native onFrame).
Abbreviation WalkNativeUntilManaged := (WalkNativeUntilManaged onFrame).
Abbreviation ContinueFromProbedFrame0 := (ContinueFromProbedFrame0 onFrame).
Abbreviation Clr_CaptureStack := (Clr_CaptureStack onFrame).
Abbreviation ClrRuntimeCapture := (ClrRuntimeCapture onFrame).
Abbreviation NetFx_CaptureStack := (NetFx_CaptureStack onFrame).
Abbreviation NetFxRuntimeCapture := (NetFxRuntimeCapture onFrame).
Abbreviation CreateStackCapturer := (CreateStackCapturer onFrame).
Abbreviation closed := (closed onFrame J).

(** ** The consumer *)

Definition callback_result (r : outcome unit Z) : option Z := match r with Ret hr => Some hr | _ => None end.

(** What the callbacks, with the recorded frames and results, make of the consumer. *)
Definition consume (fs : list (CapturedFrame * option Z)) (x : X) : option X :=
  foldl (λ o e, x ← o; let '(r, x') := onFrame e.1 x in if decide (callback_result r = e.2) then Some x' else None) (Some x) fs.

Definition follows (x : X) (s : capturing X) : Prop := J (client s) ∧ consume (delivered (history s)) x = Some (client s).

Lemma follows_record x e s : (∀ f hr, e ≠ FrameDelivered f hr) → follows x s → follows x (record e s).2.
Proof.
  intros He [HJ Hs]. split; [done|]. cbn. rewrite delivered_app.
  assert (delivered [e] = []) as -> by (destruct e; first [done|by edestruct He]). by rewrite app_nil_r.
Qed.

Lemma follows_closed x : closed (follows x).
Proof.
  split; [by intros s []|by intros s k|done|..]; unfold follows.
  - intros e s He. apply follows_record. by destruct e.
  - intros s [HJ Hs]. unfold InvokeCallback. pose proof (onFrame_returns (client_frame s) (client s) HJ) as Hr. destruct (onFrame (client_frame s) (client s)) as [r x'] eqn:Ef.
    enough (consume (delivered (history s ++ [FrameDelivered (client_frame s) (callback_result r)])) x = Some x') by (by destruct r as [| | |]).
    unfold consume in *. rewrite delivered_app, foldl_app, Hs. cbn. rewrite Ef. by rewrite decide_True.
Qed.

Lemma capture_follows netfx windows x64 threads request x :
  J x →
  follows x (StackWalkerImpl_CaptureStacks (CreateStackCapturer netfx windows x64) threads request (capture_init x)).2.
Proof.
  intros HJ. pose proof (CaptureStacks_stable onFrame J onFrame_returns _ (follows_closed x) netfx windows x64 threads request
    (follows_record x) (capture_init x) (conj HJ eq_refl)) as Hf.
  unfold wp in Hf. destruct (StackWalkerImpl_CaptureStacks _ _ _ _) as [[hr|e| |] s]; tauto.
Qed.

(** ** When nothing fails *)

Section Complete.
Context (stack : Z → list (Z * Z)).
Hypothesis (running : ∀ k, load_stopping k = false).
Hypothesis (suspends : ∀ k, info_SuspendRuntime k = S_OK).
Hypothesis (walks : ∀ k t, snapshot_frames k t None = stack t).
Hypothesis (walked : ∀ k t, snapshot_result k t None false = S_OK).
Hypothesis (accepted : ∀ f x, J x → (onFrame f x).1 = Ret S_OK).

Definition stack_frame (t : Z) (f : Z * Z) : CapturedFrame :=
  {| frame_functionId := f.1; frame_instructionPointer := f.2; frame_threadId := t;
     frame_isUnmanagedFrame := bool_decide (f.1 = 0 ∧ f.2 ≠ 0) |}.

Definition thread_events (t : Z) : list capture_event :=
  [StopLoaded false; Capturing t; Snapshot t None] ++ ((λ f, FrameDelivered (stack_frame t f) (Some S_OK)) <$> stack t) ++
  [Captured t S_OK; StopLoaded false].

Definition begin_events : list capture_event := [StopLoaded false; RuntimeSuspended; StopLoaded false].

(** The batch goes on, with [h] recorded. *)
Definition going (h : list capture_event) (s : capturing X) : Prop := J (client s) ∧ history s = h ∧ cancellationRequested s = false.

Lemma going_recorded h : recorded (going h).
Proof. by intros s k []. Qed.

Lemma deliver_all t fs h s :
  going h s → frame_threadId (client_frame s) = t →
  wp (deliver_snapshot fs) s (λ b, λ s', b = false ∧ going (h ++ ((λ f, FrameDelivered (stack_frame t f) (Some S_OK)) <$> fs)) s') (λ _ _, False).
Proof.
  revert h s. induction fs as [|[f ip] fs IH]; intros h s (HJ & Hh & Hc) Ht; cbn [deliver_snapshot].
  { split; [done|]. cbn. by rewrite app_nil_r. }
  apply wp_bind, wp_bind. unfold wp, set_client_frame, modify, InvokeCallback at 1. cbn -[wp].
  match goal with |- context [onFrame ?g ?x] =>
    pose proof (accepted g x HJ) as Ha; pose proof (onFrame_returns g x HJ) as Hr; destruct (onFrame g x) as [r x'] eqn:Ef end.
  cbn in Ha, Hr. subst r. rewrite decide_True by done. rewrite (cons_middle _ h), app_assoc. apply IH; [|done].
  split; [done|]. split; cbn; [by rewrite Hh, Ht|by rewrite Hc].
Qed.

Lemma wp_recorded e h s : going h s → wp (record e) s (λ _, going (h ++ [e])) (λ _ _, False).
Proof. intros (HJ & <- & Hc). by split. Qed.

Definition snapshot_events (t : Z) : list capture_event :=
  Snapshot t None :: ((λ f, FrameDelivered (stack_frame t f) (Some S_OK)) <$> stack t).

Lemma snapshot_all t h s :
  going h s → wp (DoStackSnapshotUnseeded t) s (λ hr s', hr = S_OK ∧ going (h ++ snapshot_events t) s') (λ _ _, False).
Proof.
  intros (HJ & <- & Hc). unfold DoStackSnapshotUnseeded, DoStackSnapshot, snapshot_events. rewrite cons_middle, app_assoc.
  apply wp_bind, wp_bind, wp_bind, wp_ask. intros k. apply wp_bind, wp_ask. intros k'. apply wp_bind. cbv beta. rewrite walks.
  match goal with |- wp (if ?b then _ else _) ?s _ _ => set (catches := b); set (s' := s) end.
  assert (Hw : wp (if catches then catching (λ _, mret true) (deliver_snapshot (stack t)) else deliver_snapshot (stack t)) s'
    (λ b s', b = false ∧ going ((history s ++ [Snapshot t None]) ++ ((λ f, FrameDelivered (stack_frame t f) (Some S_OK)) <$> stack t)) s') (λ _ _, False)).
  { pose proof (deliver_all t (stack t) (history s ++ [Snapshot t None]) s' (conj HJ (conj eq_refl Hc)) eq_refl) as Hd.
    destruct catches; [|done]. unfold wp, catching in *. by destruct (deliver_snapshot _ _) as [[]]. }
  eapply wp_mono; [exact Hw|intros b s'' [-> Hg]; split; [apply walked|done]|done].
Qed.

Lemma Clr_all native t h s :
  going h s → wp (Clr_CaptureStack native t) s (λ hr s', hr = S_OK ∧ going (h ++ snapshot_events t) s') (λ _ _, False).
Proof. intros Hs. apply wp_bind. eapply wp_mono; [apply (snapshot_all t h s Hs)|by intros hr s' [-> Hs']|done]. Qed.

Lemma load_goes_on h s : going h s → wp load_stop s (λ b s', b = false ∧ going (h ++ [StopLoaded false]) s') (λ _ _, False).
Proof. intros (HJ & <- & Hc). apply wp_bind, wp_ask. intros k. rewrite running. by repeat split. Qed.

Lemma goes_on h s : going h s → wp stopped s (λ b s', b = false ∧ going (h ++ [StopLoaded false]) s') (λ _ _, False).
Proof.
  intros Hs. apply wp_bind. eapply wp_mono; [by apply load_goes_on| |done]. intros b s' [-> Hs'].
  unfold wp, mbind, stM_bind, get, mret, stM_ret. split; [apply Hs'|done].
Qed.

Lemma threads_all native threads h s :
  going h s →
  wp (capture_threads (ClrRuntimeCapture native) threads S_OK) s (λ hr s', hr = S_OK ∧ going (h ++ concat (thread_events <$> threads)) s') (λ _ _, False).
Proof.
  revert h s. induction threads as [|t threads IH]; intros h s Hs; cbn [capture_threads].
  { split; [done|]. cbn. by rewrite app_nil_r. }
  apply wp_bind. eapply wp_mono; [apply (load_goes_on _ _ Hs)| |done]. intros b0 s0 [-> Hs0].
  apply wp_bind. eapply wp_mono; [apply (wp_recorded _ _ _ Hs0)| |done]. intros [] s1 Hs1.
  apply wp_bind. eapply wp_mono; [apply (Clr_all native t _ _ Hs1)| |done]. intros hr s2 [-> Hs2].
  apply wp_bind. eapply wp_mono; [apply (wp_recorded _ _ _ Hs2)| |done]. intros [] s3 Hs3.
  apply wp_bind. eapply wp_mono; [apply (goes_on _ _ Hs3)| |done]. intros b s4 [-> Hs4].
  eapply wp_mono; [apply (IH _ _ Hs4)| |done]. intros hr s' [-> Hg]. split; [done|].
  refine (eq_rect _ (λ h, going h s') Hg _ _). cbn [fmap list_fmap concat]. unfold thread_events, snapshot_events. by list_simplifier.
Qed.

Lemma batch_all native threads x :
  J x → threads ≠ [] →
  wp (StackCaptureImpl_CaptureStacks (ClrRuntimeCapture native) threads true) (capture_init x)
    (λ hr s', hr = S_OK ∧ going (begin_events ++ concat (thread_events <$> threads) ++ [RuntimeResumed]) s') (λ _ _, False).
Proof.
  intros HJ Ht. apply wp_bind. eapply wp_mono; [by apply (load_goes_on [])| |done]. intros b0 s0 [-> Hs0]. rewrite decide_False by done. cbn [negb].
  assert (Hc : ∀ (c : C Z) h s Q, wp c s Q (λ _ _, False) → wp (catching h c) s Q (λ _ _, False)).
  { intros c h s Q Hw. unfold wp, catching in *. by destruct (c s) as [[]]. }
  apply Hc. apply wp_bind, wp_bind, wp_ask. intros k'. rewrite suspends. apply wp_bind.
  eapply wp_mono; [apply (wp_recorded RuntimeSuspended _ (with_queries k' s0) (going_recorded _ _ k' Hs0))| |done]. intros [] s1 Hs1.
  change (wp (finally (stopping ← load_stop; if stopping : bool then mret S_FALSE else capture_threads (ClrRuntimeCapture native) threads S_OK)
    (record RuntimeResumed)) s1 (λ hr s', hr = S_OK ∧ going (begin_events ++ concat (thread_events <$> threads) ++ [RuntimeResumed]) s') (λ _ _, False)).
  apply (finally_result _ _ (λ hr s', hr = S_OK ∧ going (begin_events ++ concat (thread_events <$> threads)) s') (λ _ _, False)); [| |done].
  - apply wp_bind. eapply wp_mono; [apply (load_goes_on _ _ Hs1)| |done]. intros b1 s2 [-> Hs2]. by apply (threads_all _ _ begin_events).
  - intros hr s' [-> Hg]. eapply wp_mono; [apply (wp_recorded _ _ _ Hg)| |done]. intros [] s2 Hs2. by rewrite app_assoc.
Qed.

Definition all_frames (threads : list Z) : list CapturedFrame := t ← threads; stack_frame t <$> stack t.

Lemma delivered_thread t : delivered (thread_events t) = (λ f, (f, Some S_OK)) <$> (stack_frame t <$> stack t).
Proof.
  unfold thread_events. rewrite !delivered_app. change (delivered [Captured t S_OK; StopLoaded false]) with (@nil (CapturedFrame * option Z)).
  rewrite app_nil_r. change (delivered [StopLoaded false; Capturing t; Snapshot t None]) with (@nil (CapturedFrame * option Z)). cbn [app]. unfold delivered.
  by induction (stack t) as [|f fs IH]; [|cbn; rewrite <-IH].
Qed.

Lemma delivered_events threads : delivered (concat (thread_events <$> threads)) = (λ f, (f, Some S_OK)) <$> all_frames threads.
Proof.
  induction threads as [|t threads IH]; [done|].
  change (concat (thread_events <$> t :: threads)) with (thread_events t ++ concat (thread_events <$> threads)).
  rewrite delivered_app, IH, delivered_thread. unfold all_frames. by rewrite bind_cons, fmap_app.
Qed.

Lemma consume_accepted fs x : J x → consume ((λ f, (f, Some S_OK)) <$> fs) x = Some (foldl (λ x f, (onFrame f x).2) x fs).
Proof.
  unfold consume. revert x. induction fs as [|f fs IH]; intros x HJ; [done|]. cbn. pose proof (accepted f x HJ) as Ha.
  pose proof (onFrame_returns f x HJ) as Hr. destruct (onFrame f x) as [r x']. cbn in Ha, Hr. subst r. by apply IH.
Qed.
End Complete.

(** ** The walk over native frames *)

(** From [n] frames taken in [s], with [fuel] more at most. *)
Record walk_outcome (n fuel : nat) (s : capturing X) (r : NativeWalkResult) (s' : capturing X) : Prop := {
  walk_count : (n ≤ nativeFrameCount r ≤ n + fuel)%nat;
  walk_delivered : ∃ fs, delivered (history s') = delivered (history s) ++ fs ∧
    (nativeFrameCount r - n ≤ length fs ≤ nativeFrameCount r - n + 1)%nat ∧ (length fs ≤ fuel)%nat ∧
    Forall (λ e, e.2 = Some S_OK) (take (nativeFrameCount r - n) fs) ∧
    Forall (λ e, e.2 ≠ Some S_OK) (drop (nativeFrameCount r - n) fs);
  walk_reports : walk_hr r = S_OK ∨ nativeFrameCount r = 0%nat;
  walk_seeds : ∀ ctx, walk_seed r = Some ctx → walk_hr r = S_OK ∧ ∃ k hr f, info_GetFunctionFromIP k (Rip ctx) = (hr, f) ∧ 0 ≤ hr ∧ f ≠ 0;
}.

Lemma walk_ends_outcome n fuel hr seed (m : nat) s s' fs :
  delivered (history s') = delivered (history s) ++ fs → (length fs ≤ fuel)%nat → (length fs = m ∨ length fs = S m)%nat →
  Forall (λ e, e.2 = Some S_OK) (take m fs) → Forall (λ e, e.2 ≠ Some S_OK) (drop m fs) →
  (∀ ctx, seed = Some ctx → hr = S_OK ∧ ∃ k hr f, info_GetFunctionFromIP k (Rip ctx) = (hr, f) ∧ 0 ≤ hr ∧ f ≠ 0) →
  walk_outcome n fuel s (walk_ends hr seed (n + m)) s'.
Proof.
  intros Hd Hfuel Hl Ht Hf Hs. split; cbn.
  - lia.
  - exists fs. replace (n + m - n)%nat with m by lia. split; [done|]. split; [lia|done].
  - destruct seed as [ctx|]; [left; by destruct (Hs ctx)|]. case_decide; [by left|right; lia].
  - intros ctx ->. by apply Hs.
Qed.

Lemma walk_outcome_cons n fuel s s1 r s' f :
  delivered (history s1) = delivered (history s) ++ [(f, Some S_OK)] → walk_outcome (S n) fuel s1 r s' → walk_outcome n (S fuel) s r s'.
Proof.
  intros Hd [Hc (fs & H1 & H2 & H3 & H4 & H5) Hr Hs]. split; [lia| |done..].
  exists ((f, Some S_OK) :: fs). replace (nativeFrameCount r - n)%nat with (S (nativeFrameCount r - S n)) by lia. cbn.
  split; [by rewrite H1, Hd, <-app_assoc|]. split; [lia|]. split; [lia|]. split; [by constructor|done].
Qed.

Lemma walk_outcome_ends n fuel s s' hr :
  delivered (history s') = delivered (history s) → walk_outcome n fuel s (walk_ends hr None n) s'.
Proof.
  intros Hd. rewrite <-(Nat.add_0_r n) at 2. eapply (walk_ends_outcome _ _ _ _ 0 _ _ []); cbn; [by rewrite app_nil_r|lia|by left|done..].
Qed.

Lemma walk_outcome_seed n fuel s s' ctx k hr f :
  delivered (history s') = delivered (history s) → info_GetFunctionFromIP k (Rip ctx) = (hr, f) → 0 ≤ hr → f ≠ 0 →
  walk_outcome n fuel s (walk_ends S_OK (Some ctx) n) s'.
Proof.
  intros Hd Hf H1 H2. rewrite <-(Nat.add_0_r n) at 2.
  eapply (walk_ends_outcome _ _ _ _ 0 _ _ []); cbn; [by rewrite app_nil_r|lia|by left|done..|].
  intros ctx' [= <-]. split; [done|]. by exists k, hr, f.
Qed.

Lemma walk_outcome_refused n fuel s s' hr f o :
  delivered (history s') = delivered (history s) ++ [(f, o)] → o ≠ Some S_OK → walk_outcome n (S fuel) s (walk_ends hr None n) s'.
Proof.
  intros Hd Ho. rewrite <-(Nat.add_0_r n) at 2. eapply (walk_ends_outcome _ _ _ _ 0 _ _ [_]); cbn; [done|lia|by right|done|by constructor|done].
Qed.

(** Operations that deliver nothing and throw nothing. *)
Definition unheard (s s' : capturing X) : Prop := client s' = client s ∧ delivered (history s') = delivered (history s).
Definition silent {A} (c : C A) : Prop := ∀ s, wp c s (λ _, unheard s) (λ _ _, False).

Lemma silent_bind {A B} (c : C A) (g : A → C B) s (Q : B → capturing X → Prop) :
  silent c → (∀ a s', unheard s s' → wp (g a) s' Q (λ _ _, False)) → wp (c ≫= g) s Q (λ _ _, False).
Proof. intros Hc Hg. apply wp_bind. eapply wp_mono; [apply Hc|exact Hg|done]. Qed.

Lemma unheard_trans s1 s2 s3 : unheard s1 s2 → unheard s2 s3 → unheard s1 s3.
Proof. intros [H1 H2] [H3 H4]. split; congruence. Qed.

Lemma ask_silent {A} (f : nat → A) : silent (ask_platform f).
Proof. by intros s. Qed.

Lemma ret_silent {A} (a : A) : silent (mret a).
Proof. by intros s. Qed.

Lemma set_silent f : silent (set_client_frame f).
Proof. by intros s. Qed.

Lemma record_silent : silent (record NativeCall).
Proof. intros s. split; [done|]. cbn. by rewrite delivered_app, app_nil_r. Qed.

Lemma unwind_silent imageBase f ctx : silent (unwind_native imageBase f ctx).
Proof.
  intros s. unfold unwind_native. apply silent_bind; [apply record_silent|]. intros _ s1 H1.
  destruct f; [|case_decide; [done|]]; (apply silent_bind; [apply ask_silent|]; intros ? ? H2; by apply (unheard_trans _ _ _ H1)).
Qed.

Lemma callback_delivers s :
  J (client s) →
  wp (attempt InvokeCallback) s (λ cb s', J (client s') ∧ ∃ f, delivered (history s') = delivered (history s) ++ [(f, cb)]) (λ _ _, False).
Proof.
  intros HJ. unfold wp, attempt, catching, mbind, stM_bind, InvokeCallback. pose proof (onFrame_returns (client_frame s) (client s) HJ) as Hr.
  destruct (onFrame _ _) as [[hr|[]| |] x]; try done; (split; [done|]); exists (client_frame s); cbn; by rewrite delivered_app.
Qed.

Lemma walk_native_outcome fuel ctx n s : J (client s) → wp (walk_native fuel ctx n) s (walk_outcome n fuel s) (λ _ _, False).
Proof.
  revert ctx n s. induction fuel as [|fuel IH]; intros ctx n s HJ; cbn [walk_native]; [by apply walk_outcome_ends|].
  case_decide; [by apply walk_outcome_ends|]. apply silent_bind; [apply record_silent|]. intros _ s1 H1.
  apply wp_bind, wp_ask. intros k. destruct (info_GetFunctionFromIP (queries s1) (Rip ctx)) as [fnHr f] eqn:Ef. case_decide as Hm.
  { eapply walk_outcome_seed; [apply H1|exact Ef| |]; tauto. }
  assert (Hq : unheard s (with_queries k s1)) by exact H1. revert Hq. generalize (with_queries k s1). intros s2 H2.
  apply silent_bind; [apply record_silent|]. intros _ s3 H3. apply silent_bind; [apply ask_silent|]. intros [[imageBase rf]|] s4 H4.
  2: { apply walk_outcome_ends. eapply unheard_trans; [eapply unheard_trans|]; done. }
  apply silent_bind; [case_decide; [apply ask_silent|apply ret_silent]|]. intros sys s5 H5.
  apply silent_bind; [apply set_silent|]. intros _ s6 H6.
  assert (Hs : unheard s s6) by (do 4 (eapply unheard_trans; [|done]); done). clear H1 H2 H3 H4 H5 H6.
  destruct Hs as [Hcl Hde]. rewrite <-Hcl in HJ.
  apply wp_bind. eapply wp_mono; [by apply callback_delivers| |done].
  intros cb s7 [HJ7 [g H7]]. rewrite Hde in H7.
  destruct cb as [cb|]; [|by eapply walk_outcome_refused]. case_decide as Hcb; [eapply walk_outcome_refused; [done|congruence]|].
  subst cb. apply silent_bind; [apply unwind_silent|]. intros unwound s8 [Hcl8 H8].
  assert (Hnext : ∀ r s', walk_outcome (S n) fuel s8 r s' → walk_outcome n (S fuel) s r s').
  { intros r s'. eapply walk_outcome_cons. by rewrite H8. }
  destruct unwound as [[ctx'|]|]; try (by apply Hnext, walk_outcome_ends). case_decide; [by apply Hnext, walk_outcome_ends|].
  eapply wp_mono; [apply IH; by rewrite Hcl8|exact Hnext|done].
Qed.
End CaptureRuns.

(** C27: What the result of a batch says, where there is a capturer and a request.  The flag that asks
    to stop is looked at before the runtime is suspended, after that, and after every thread (the
    record says so: [stop_checks]).  When it is found set the result is S_FALSE, nothing else is
    captured, and the threads captured are the first ones; the same when the consumer's callback has
    asked to stop and threw nothing.  When an exception leaves the capture of a thread the result is
    E_FAIL, and it is the one that the callback threw on the frame delivered last.  When the runtime
    has to be suspended (on .NET) and was not, the result is E_FAIL, and nothing is captured.
    Otherwise all threads have been captured in their order, and the result is the first failure
    among theirs, or S_OK.  The state of the consumer is what its callback makes of the frames
    delivered. *)
Theorem stack_capture_reports `{CapturePlatform} {X : Type} (onFrame : CapturedFrame → X → outcome unit Z * X)
    (J : X → Prop) (HJ : consistent J onFrame) netfx windows x64 runtime threads x :
  J x → CreateStackCapturer onFrame netfx windows x64 = Some runtime →
  ∃ hr s m, StackWalkerImpl_CaptureStacks (Some runtime) threads true (capture_init x) = (Ret hr, s) ∧
    monitored (history s) = Some m ∧ consume onFrame (delivered (history s)) x = Some (client s) ∧
    batch_report (negb netfx) threads (history s) m hr.
Proof.
  intros Hx E. pose proof (CaptureStacks_spec onFrame J HJ netfx windows x64 threads true x Hx) as Hw.
  pose proof (capture_follows onFrame J HJ netfx windows x64 threads true x Hx) as Hf. rewrite E in *. unfold wp in Hw.
  destruct (StackWalkerImpl_CaptureStacks _ _ _ _) as [[hr|e| |] s]; try done. destruct Hw as (m & Hm & _ & _ & _ & Hr).
  destruct Hf. by exists hr, s, m.
Qed.

(** On .NET, when nothing fails and nobody stops it, a batch suspends the runtime once, captures
    the threads in order, delivers every frame the runtime finds of each, under that thread and in
    the order of its stack, resumes the runtime and returns S_OK. *)
Theorem stack_capture_complete `{CapturePlatform} {X : Type} (onFrame : CapturedFrame → X → outcome unit Z * X)
    (J : X → Prop) (HJ : consistent J onFrame) (stack : Z → list (Z * Z)) windows x64 threads x :
  (∀ k, load_stopping k = false) → (∀ k, info_SuspendRuntime k = S_OK) → (∀ k t, snapshot_frames k t None = stack t) →
  (∀ k t, snapshot_result k t None false = S_OK) → (∀ f x, J x → (onFrame f x).1 = Ret S_OK) → J x → threads ≠ [] →
  ∃ s, StackWalkerImpl_CaptureStacks (CreateStackCapturer onFrame false windows x64) threads true (capture_init x) = (Ret S_OK, s) ∧
    history s = begin_events ++ concat (thread_events stack <$> threads) ++ [RuntimeResumed] ∧
    client s = foldl (λ x f, (onFrame f x).2) x (all_frames stack threads).
Proof.
  intros H1 H2 H3 H4 H5 Hx Ht. pose proof (batch_all onFrame J HJ stack H1 H2 H3 H4 H5 (windows && x64) threads x Hx Ht) as Hw.
  pose proof (capture_follows onFrame J HJ false windows x64 threads true x Hx) as Hf. unfold wp in Hw. cbn in Hf |- *.
  destruct (StackCaptureImpl_CaptureStacks _ _ _ _) as [[hr|e| |] s]; try done. destruct Hw as [-> (_ & Hh & _)]. exists s.
  split; [done|]. split; [done|]. destruct Hf as [_ Hf]. cbn in Hf.
  rewrite Hh, !delivered_app, delivered_events, (app_nil_r _ : _ ++ delivered [RuntimeResumed] = _) in Hf.
  rewrite (app_nil_l _ : delivered begin_events ++ _ = _), (consume_accepted onFrame J HJ H5 _ x Hx) in Hf. by injection Hf.
Qed.

(** The walk over the native frames of a thread always ends and throws nothing, even if the
    callback does: it delivers at most 512 frames, each but the last accepted by the callback; its
    count is that of the accepted ones, and as soon as there is one its result is S_OK (a failure of
    the callback included); a seed is where the runtime knows a function. *)
Theorem WalkNativeUntilManaged_outcome `{CapturePlatform} {X : Type} (onFrame : CapturedFrame → X → outcome unit Z * X)
    (J : X → Prop) (HJ : consistent J onFrame) ctx s :
  J (client s) →
  ∃ r s', WalkNativeUntilManaged onFrame ctx s = (Ret r, s') ∧ walk_outcome 0 kMaxDepth s r s'.
Proof.
  intros Hs. pose proof (walk_native_outcome onFrame J HJ kMaxDepth ctx 0 s Hs) as Hw. unfold wp in Hw. unfold WalkNativeUntilManaged.
  destruct (walk_native _ _ _ _ _) as [[r|e| |] s']; try done. by exists r, s'.
Qed.

(** ** Examples *)

#[local] Existing Instance example_platform.

(** The callback throws on the second frame: the first thread is not finished, and the rest not begun. *)
Lemma stack_capture_reports_witness :
  consistent (λ x, True) (example_onFrame 600) ∧
  ∃ hr s m, StackWalkerImpl_CaptureStacks (Some (ClrRuntimeCapture (example_onFrame 600) true)) [7; 8] true (capture_init []) = (Ret hr, s) ∧
    monitored (history s) = Some m ∧ consume (example_onFrame 600) (delivered (history s)) [] = Some (client s) ∧
    batch_report true [7; 8] (history s) m hr ∧ stop_checks (history s) = Some InThread.
Proof.
  assert (consistent (λ x, True) (example_onFrame 600)) as HJ by (intros f x _; unfold example_onFrame; by case_decide).
  split; [exact HJ|].
  destruct (stack_capture_reports (example_onFrame 600) _ HJ false true true (ClrRuntimeCapture (example_onFrame 600) true) [7; 8] [] I eq_refl)
    as (hr & s & m & H1 & H2 & H3 & H4).
  exists hr, s, m. do 4 (split; [done|]). clear H2 H3 H4. vm_compute in H1. injection H1 as _ <-. by vm_compute.
Defined.

Definition example_accepting (f : CapturedFrame) (x : list Z) : outcome unit Z * list Z := (Ret S_OK, x ++ [frame_instructionPointer f]).

Definition example_stack (t : Z) : list (Z * Z) := if decide (t = 8) then [] else [(5, 500); (6, 600)].

(** The runtime walks every thread. *)
Definition walking_platform : CapturePlatform := {|
  load_stopping _ := false;
  info_SuspendRuntime _ := S_OK;
  info_GetThreadInfo _ t := (S_OK, 100 + t);
  info_GetFunctionFromIP _ ip := (E_FAIL, 0);
  snapshot_frames _ t seed := example_stack t;
  snapshot_result _ t seed aborted := if aborted then CORPROF_E_STACKSNAPSHOT_ABORTED else S_OK;
  snapshot_catches _ := false;
  OpenThread _ _ := false;
  SuspendThread _ _ := false;
  GetThreadContext _ _ := None;
  rtl_lookup _ _ := None;
  rtl_unwind _ _ _ _ _ := None;
  read_stack _ _ := None;
  IsSystemModule _ _ := None;
  schedule_frame0 _ := false;
  await_frame0 _ ctx := (Failed, (ctx, CapturedFrame_zero));
  schedule_dss _ := false;
  await_dss _ := Failed;
  SnapshotCanary _ := (0, 0);
|}.

Lemma stack_capture_complete_witness :
  consistent (λ x, True) example_accepting ∧
  ∃ s, @StackWalkerImpl_CaptureStacks walking_platform _ (@CreateStackCapturer walking_platform _ example_accepting false false true) [7; 8; 9] true (capture_init []) = (Ret S_OK, s) ∧
    history s = begin_events ++ concat (thread_events example_stack <$> [7; 8; 9]) ++ [RuntimeResumed] ∧
    client s = foldl (λ x f, (example_accepting f x).2) [] (all_frames example_stack [7; 8; 9]).
Proof.
  assert (consistent (λ x, True) example_accepting) as HJ by done. split; [exact HJ|].
  refine (@stack_capture_complete walking_platform (list Z) example_accepting (λ _, True) HJ example_stack false true [7; 8; 9] [] _ _ _ _ _ _ _);
    first [discriminate|exact I|intros; reflexivity].
Defined.

Lemma WalkNativeUntilManaged_outcome_witness :
  consistent (λ x, True) (example_failing 77) ∧
  ∃ r s', WalkNativeUntilManaged (example_failing 77) {| Rip := 42; Rsp := 8; registers := [] |} (capture_init 0%nat) = (Ret r, s') ∧
    walk_outcome 0 kMaxDepth (capture_init 0%nat) r s'.
Proof.
  assert (consistent (λ x, True) (example_failing 77)) as HJ by done. split; [exact HJ|].
  by apply (WalkNativeUntilManaged_outcome (example_failing 77) _ HJ).
Defined.
