(* ===== verification/CaptureCycle.v ===== *)
(** * The sampling cycle over the capture of stacks

    [SamplingCycle] takes the frames the walker delivers, and the result, as an input of the cycle;
    [StackCapture] models the walker for any consumer.  Here the consumer is the callback of the
    cycle, [frameProcessor], and every run of the walker is shown to be one of the inputs of the
    cycle: the frames delivered up to the one that stopped the walk. *)

From S2P Require Import Prelude TypeNames SamplesBuffer SampleQueues NameCache NamingHelper ThreadStacks StackFrames AllocationSubSampler.
From S2P Require Import ProfilerState SelectedTraces SamplingCycle StackWalkChecks StackCapture CaptureInvariants StackCaptureSafe StackCaptureRuns.

Section CaptureCycle.
Context (GetFunctionInfo2 : Z → option (Z * Z)) (reserve : nat → Z → option Z) (name_of : FunctionIdentifier → list Z).
Context (Hreserve : ∀ k n c, reserve k n = Some c → n ≤ c).

(** What the shutdown token says to its k-th query; a shutdown is not taken back. *)
Context (token : nat → bool) (sticky : ∀ k, token k = true → token (S k) = true).

(** The callback that the cycle hands to the walker ([onFrame] of the request). *)
Definition cycle_callback (f : CapturedFrame) (x : Profiler * nat) : outcome unit Z * (Profiler * nat) :=
  let '(r, p) := frameProcessor GetFunctionInfo2 reserve f (token x.2) (token (S x.2)) x.1 in (r, (p, S (S x.2))).

Definition ready (x : Profiler * nat) : Prop :=
  helper_ok GetFunctionInfo2 name_of (helper x.1) ∧ stacks_ok (threadStacksBuffer x.1).

Lemma cycle_callback_spec f x :
  ready x →
  let '(r, x') := cycle_callback f x in
  ready x' ∧ x'.2 = S (S x.2) ∧
  match r with
  | Ret hr => (frameProcessor GetFunctionInfo2 reserve f (token x.2) (token (S x.2)) x.1 = (Ret hr, x'.1)) ∧
              if token x.2 then hr = S_FALSE ∧ x'.1 = x.1 else hr = S_OK ∨ token (S x.2) = true
  | Err _ => ¬ exact_reserve reserve
  | _ => False
  end.
Proof.
  intros [Hh Hs]. pose proof (frameProcessor_wp GetFunctionInfo2 reserve name_of Hreserve f (token x.2) (token (S x.2)) x.1 Hh Hs) as Hw.
  unfold cycle_callback, wp in *. destruct (frameProcessor _ _ _ _ _ _) as [[hr|e| |] p]; try done.
  - destruct Hw as [Hc Hr]. split; [split; [by eapply changed_helper|by eapply changed_stacks]|]. split; [done|]. split; [done|]. cbn.
    destruct (token x.2); tauto.
  - destruct Hw as (Hc & _ & Hx). split; [split; [by eapply changed_helper|by eapply changed_stacks]|done].
Qed.

Lemma cycle_callback_consistent : consistent ready cycle_callback.
Proof.
  intros f x Hx. pose proof (cycle_callback_spec f x Hx) as Hs. destruct (cycle_callback f x) as [[hr|e| |] x']; cbn; tauto.
Qed.

(** ** From what was delivered to an input of the cycle *)

Abbreviation walk := (walk_frames GetFunctionInfo2 reserve).

(** The callback accepts every frame. *)
Fixpoint accept_frames (fs : list (CapturedFrame * bool * bool)) (p : Profiler) : option Profiler :=
  match fs with
  | [] => Some p
  | (f, before, after) :: fs =>
      match frameProcessor GetFunctionInfo2 reserve f before after p with
      | (Ret hr, p') => if decide (hr = S_OK) then accept_frames fs p' else None
      | _ => None
      end
  end.

Lemma accept_frames_app fs fs' p : accept_frames (fs ++ fs') p = accept_frames fs p ≫= accept_frames fs'.
Proof.
  revert p. induction fs as [|[[f b] a] fs IH]; intros p; [done|]. cbn. destruct (frameProcessor _ _ _ _ _ _) as [[hr|e| |] p']; try done.
  by case_decide.
Qed.

Lemma walk_accepted fs fs' p p' : accept_frames fs p = Some p' → walk (fs ++ fs') p = walk fs' p'.
Proof.
  revert p. induction fs as [|[[f b] a] fs IH]; intros p E; cbn in *; [by simplify_eq|]. unfold mbind, stM_bind.
  destruct (frameProcessor _ _ _ _ _ _) as [[hr|e| |] p1]; try done. case_decide; [by apply IH|done].
Qed.

(** The answers of the token around a frame. *)
Definition from_token (e : CapturedFrame * bool * bool) : Prop := ∃ k, e.1.2 = token k ∧ e.2 = token (S k).

(** The frames delivered so far feed the cycle: all of them were accepted, or those up to the one
    at which the shutdown was seen account for all that has happened. *)
Definition feeds (p : Profiler) (s : capturing (Profiler * nat)) (fs : list (CapturedFrame * bool * bool)) : Prop :=
  Forall from_token fs ∧
  (accept_frames fs p = Some (client s).1 ∧ fs.*1.*1 = (delivered (history s)).*1 ∨
   walk fs p = (Ret tt, (client s).1) ∧ fs.*1.*1 `prefix_of` (delivered (history s)).*1 ∧ token (client s).2 = true).

Context (Hexact : exact_reserve reserve).

Lemma feeds_callback `{CapturePlatform} p s fs :
  ready (client s) → feeds p s fs → ∃ fs', feeds p (InvokeCallback cycle_callback s).2 fs'.
Proof.
  intros Hs [Ht Hf]. pose proof (cycle_callback_spec (client_frame s) (client s) Hs) as Hr. unfold InvokeCallback.
  destruct (cycle_callback (client_frame s) (client s)) as [[hr|e| |] x'] eqn:Ec; try tauto.
  destruct Hr as (Hx & Hk & Hrun & Htok). cbn. destruct Hf as [[Ha Hd]|(Hw & Hd & Hstop)].
  - set (e := (client_frame s, token (client s).2, token (S (client s).2))).
    assert (He : Forall from_token (fs ++ [e])) by (apply Forall_app; split; [done|]; apply Forall_singleton; by eexists).
    exists (fs ++ [e]). split; [done|].
    assert (Hd' : (fs ++ [e]).*1.*1 = (delivered (history s ++ [FrameDelivered (client_frame s) (Some hr)])).*1)
      by (by rewrite delivered_app, !fmap_app, Hd).
    destruct (decide (hr = S_OK)) as [->|Hhr]; [left|right]; cbn [client history].
    + split; [|done]. rewrite accept_frames_app, Ha. cbn. by rewrite Hrun, decide_True.
    + split; [|split; [by rewrite Hd'|]].
      * rewrite (walk_accepted _ _ _ _ Ha). cbn. rewrite (stM_bind_Ret _ _ _ _ _ Hrun). by rewrite decide_False.
      * rewrite Hk. destruct (token (client s).2) eqn:E; [by apply sticky, sticky|]. destruct Htok as [|Htok]; [done|]. by apply sticky.
  - exists fs. split; [done|]. right. cbn [client history]. rewrite Hstop in Htok. destruct Htok as [_ ->].
    split; [done|]. split; [rewrite delivered_app, fmap_app; by apply prefix_app_r|]. rewrite Hk. by apply sticky, sticky.
Qed.

Lemma feeds_record `{CapturePlatform} p e s :
  (∀ f hr, e ≠ FrameDelivered f hr) → ready (client s) ∧ (∃ fs, feeds p s fs) →
  ready (client (record e s).2) ∧ ∃ fs, feeds p (record e s).2 fs.
Proof.
  intros He [Hr (fs & Ht & Hf)]. split; [done|]. exists fs. split; [done|].
  assert (delivered (history (record e s).2) = delivered (history s)) as -> ; [|done].
  cbn. rewrite delivered_app. assert (delivered [e] = []) as -> by (destruct e; first [done|by edestruct He]). by rewrite app_nil_r.
Qed.

Lemma feeds_closed `{CapturePlatform} p : closed cycle_callback ready (λ s, ready (client s) ∧ ∃ fs, feeds p s fs).
Proof.
  split.
  - by intros s [].
  - by intros s k.
  - done.
  - intros e s He. apply feeds_record. by destruct e.
  - intros s [Hr (fs & Hf)]. split; [|by eapply feeds_callback].
    pose proof (cycle_callback_consistent (client_frame s) (client s) Hr) as Hc. unfold InvokeCallback.
    by destruct (cycle_callback _ _) as [[hr|e| |] x'].
Qed.
End CaptureCycle.

(** ** The cycle's view of a capture *)

(** With the callback of the sampling cycle as the consumer, and an allocator that gives what it is
    asked for, every capture is one of the captures the cycle is modelled with: its result and the
    state it leaves the profiler in are those of [CaptureStacks] on the frames delivered, all of
    them, or, where the shutdown was seen, those up to the frame that saw it. *)
Lemma capture_as_input `{CapturePlatform} GetFunctionInfo2 reserve name_of token netfx windows x64 runtime threads p :
  (∀ k n c, reserve k n = Some c → n ≤ c) → (∀ k, token k = true → token (S k) = true) → exact_reserve reserve →
  helper_ok GetFunctionInfo2 name_of (helper p) → stacks_ok (threadStacksBuffer p) →
  CreateStackCapturer (cycle_callback GetFunctionInfo2 reserve token) netfx windows x64 = Some runtime →
  ∃ hr s fs, StackWalkerImpl_CaptureStacks (Some runtime) threads true (capture_init (p, 0%nat)) = (Ret hr, s) ∧
    Forall (from_token token) fs ∧ fs.*1.*1 `prefix_of` (delivered (history s)).*1 ∧
    (fs.*1.*1 = (delivered (history s)).*1 ∨ token (client s).2 = true) ∧
    ∀ i, walked i = fs → walk_result i = hr → CaptureStacks GetFunctionInfo2 reserve i p = (Ret hr, (client s).1).
Proof.
  intros Hres Hst Hex Hh Hs E. set (J := ready GetFunctionInfo2 name_of).
  assert (HJ : consistent J (cycle_callback GetFunctionInfo2 reserve token)) by by apply cycle_callback_consistent.
  assert (Hp : J (p, 0%nat)) by by split.
  pose proof (CaptureStacks_spec _ J HJ netfx windows x64 threads true _ Hp) as Hw.
  pose proof (CaptureStacks_stable _ J HJ _ (feeds_closed GetFunctionInfo2 reserve name_of Hres token Hst Hex p)
    netfx windows x64 threads true (feeds_record GetFunctionInfo2 reserve name_of token p) (capture_init (p, 0%nat))) as Hf.
  rewrite E in *. unfold wp in *. destruct (StackWalkerImpl_CaptureStacks _ _ _ _) as [[hr|e| |] s]; try done.
  destruct Hf as (_ & fs & Ht & Hf). { split; [done|]. exists []. split; [done|]. by left. }
  exists hr, s, fs. split; [done|]. split; [done|].
  assert (Hwalk : walk_frames GetFunctionInfo2 reserve fs p = (Ret tt, (client s).1)).
  { destruct Hf as [[Ha _]|[Hw' _]]; [|done]. rewrite <-(app_nil_r fs). by rewrite (walk_accepted _ _ _ _ _ _ Ha). }
  split; [destruct Hf as [[_ ->]|(_ & Hd & _)]; done|]. split; [destruct Hf as [[_ ?]|(_ & _ & ?)]; [by left|by right]|].
  intros i Hi Hr. assert (Hrun : (walk_frames GetFunctionInfo2 reserve (walked i);; mret (walk_result i) : stM Profiler unit Z) p = (Ret hr, (client s).1)).
  { rewrite Hi, Hr. by rewrite (stM_bind_Ret _ _ _ _ _ Hwalk). }
  unfold CaptureStacks, catch. destruct (walk_catches i); by rewrite Hrun.
Qed.

(** ** When nothing fails *)

(** Frames delivered with no shutdown in sight. *)
Definition unstopped (fs : list CapturedFrame) : list (CapturedFrame * bool * bool) := (λ f, (f, false, false)) <$> fs.

Lemma seen_unstopped fs : seen_frames (unstopped fs) = fs.
Proof. induction fs as [|f fs IH]; [done|]. change (f :: seen_frames (unstopped fs) = f :: fs). by rewrite IH. Qed.

Lemma uncancelled_unstopped fs : uncancelled (unstopped fs).
Proof. apply Forall_fmap, Forall_true. done. Qed.

Lemma from_token_unstopped token fs : (∀ k, token k = false) → Forall (from_token token) fs → fs = unstopped fs.*1.*1.
Proof.
  intros Htok. induction 1 as [|[[f b] a] fs (k & Hb & Ha) Hfs IH]; [done|]. cbn in *. rewrite IH at 1. by rewrite Hb, Ha, !Htok.
Qed.

Lemma all_frames_other stack threads t : t ∉ threads → filter (λ f, frame_threadId f = t) (all_frames stack threads) = [].
Proof.
  intros Ht. unfold all_frames. induction threads as [|t' threads IH]; [done|]. apply not_elem_of_cons in Ht as [Hne Ht].
  rewrite bind_cons, filter_app, IH, app_nil_r by done. induction (stack t') as [|f fs IHf]; [done|]. rewrite fmap_cons, filter_cons_False; [done|]. cbn. congruence.
Qed.

Lemma all_frames_of stack threads t :
  NoDup threads → t ∈ threads → filter (λ f, frame_threadId f = t) (all_frames stack threads) = stack_frame t <$> stack t.
Proof.
  assert (Hall : filter (λ f, frame_threadId f = t) (stack_frame t <$> stack t) = stack_frame t <$> stack t).
  { induction (stack t) as [|f fs IH]; [done|]. rewrite fmap_cons, filter_cons_True by done. by f_equal. }
  induction 1 as [|t' threads Hn Hnd IH]; [by intros ?%elem_of_nil|]. unfold all_frames. rewrite bind_cons, filter_app. fold (all_frames stack threads).
  intros [<-|Ht]%elem_of_cons; [by rewrite Hall, all_frames_other, app_nil_r|]. rewrite IH by done.
  enough (filter (λ f, frame_threadId f = t) (stack_frame t' <$> stack t') = []) as -> by done.
  assert (t' ≠ t) as Hne by congruence. induction (stack t') as [|f fs IHf]; [done|]. by rewrite fmap_cons, filter_cons_False.
Qed.

(** C28: on .NET, when nothing fails, nobody stops the capture and the allocator gives what it is
    asked for, what the cycle records of each captured thread are the functions of its stack as the
    runtime walks it: the capture ends well, and leaves the profiler as [CaptureStacks] of the cycle
    does on exactly these frames. *)
Theorem cycle_records_stacks `{CapturePlatform} GetFunctionInfo2 reserve name_of token stack windows x64 threads p :
  (∀ k n c, reserve k n = Some c → n ≤ c) → (∀ k, token k = false) → exact_reserve reserve →
  helper_ok GetFunctionInfo2 name_of (helper p) → stacks_ok (threadStacksBuffer p) →
  (∀ k, load_stopping k = false) → (∀ k, info_SuspendRuntime k = S_OK) → (∀ k t, snapshot_frames k t None = stack t) →
  (∀ k t, snapshot_result k t None false = S_OK) → threads ≠ [] → NoDup threads →
  ∃ s fs, StackWalkerImpl_CaptureStacks (CreateStackCapturer (cycle_callback GetFunctionInfo2 reserve token) false windows x64) threads true
      (capture_init (p, 0%nat)) = (Ret S_OK, s) ∧
    uncancelled fs ∧
    (∀ t, t ∈ threads → functions_of GetFunctionInfo2 t fs = frame_function GetFunctionInfo2 <$> (stack_frame t <$> stack t)) ∧
    ∀ i, walked i = fs → walk_result i = S_OK → CaptureStacks GetFunctionInfo2 reserve i p = (Ret S_OK, (client s).1).
Proof.
  intros Hres Htok Hex Hh Hs H1 H2 H3 H4 Ht Hnd.
  assert (Hst : ∀ k, token k = true → token (S k) = true) by (intros k Hk; by rewrite Htok in Hk).
  set (J := ready GetFunctionInfo2 name_of). set (f := cycle_callback GetFunctionInfo2 reserve token).
  assert (HJ : consistent J f) by by apply cycle_callback_consistent.
  assert (Hp : J (p, 0%nat)) by by split.
  assert (Hacc : ∀ g x, J x → (f g x).1 = Ret S_OK).
  { intros g x Hx. pose proof (cycle_callback_spec GetFunctionInfo2 reserve name_of Hres token g x Hx) as Hc.
    unfold f. destruct (cycle_callback _ _ _ g x) as [[hr|e| |] x']; try tauto. cbn. destruct Hc as (_ & _ & _ & Hc).
    rewrite !Htok in Hc. by destruct Hc as [->|]. }
  destruct (stack_capture_complete f J HJ stack windows x64 threads _ H1 H2 H3 H4 Hacc Hp Ht) as (s & Hrun & Hh' & Hcl).
  destruct (capture_as_input GetFunctionInfo2 reserve name_of token false windows x64 _ threads p Hres Hst Hex Hh Hs eq_refl)
    as (hr & s' & fs & Hrun' & Hft & _ & Hall & Hcyc).
  pose proof (eq_trans (eq_sym Hrun) Hrun') as Heq. injection Heq as <- <-. exists s, fs. split; [done|].
  assert (Hfs : fs = unstopped (all_frames stack threads)).
  { rewrite (from_token_unstopped token fs Htok Hft). f_equal. destruct Hall as [->|Hk]; [|by rewrite Htok in Hk].
    rewrite Hh', !delivered_app, delivered_events. rewrite !fmap_app, <-list_fmap_compose, list_fmap_id. apply app_nil_r. }
  split; [rewrite Hfs; apply uncancelled_unstopped|]. split; [|done].
  intros t Hin. unfold functions_of. by rewrite Hfs, seen_unstopped, all_frames_of.
Qed.

(** ** Examples *)

Lemma two_threads_ready : helper_ok (λ _, None) unresolved_name (helper two_threads) ∧ stacks_ok (threadStacksBuffer two_threads).
Proof. split; [apply (ok_helper _ _ _ two_threads_ok)|apply (ok_stacks _ _ _ two_threads_ok)]. Qed.

Lemma granted_exact : exact_reserve granted.
Proof. done. Qed.

Lemma granted_enough k n c : granted k n = Some c → n ≤ c.
Proof. intros [= <-]. lia. Qed.

Definition example_callback (token : nat → bool) := cycle_callback (λ _, None) granted token.

Lemma cycle_records_stacks_witness :
  ∃ s fs, @StackWalkerImpl_CaptureStacks walking_platform _
      (@CreateStackCapturer walking_platform _ (example_callback (λ _, false)) false true true) [7; 8; 9] true (capture_init (two_threads, 0%nat)) = (Ret S_OK, s) ∧
    functions_of (λ _, None) 9 fs = frame_function (λ _, None) <$> (stack_frame 9 <$> example_stack 9).
Proof.
  destruct two_threads_ready as [Hh Hs].
  destruct (@cycle_records_stacks walking_platform (λ _, None) granted unresolved_name (λ _, false) example_stack true true [7; 8; 9] two_threads
    granted_enough ltac:(reflexivity) granted_exact Hh Hs) as (s & fs & H1 & _ & H2 & _).
  1, 2, 3, 4: intros; reflexivity.
  - discriminate.
  - apply (bool_decide_unpack _). vm_compute. exact I.
  - exists s, fs. split; [exact H1|]. apply H2. right. right. left.
Defined.
