(* ===== verification/CanaryThreads.v ===== *)
(** * The canary thread of .NET Framework (netfx_runtime_capture.h/.cpp)

    On .NET Framework a stack is walked only after a probe of a canary thread, which the managed
    part starts and names.  The runtime tells of threads being assigned to OS threads, named and
    destroyed, in any order; from this the native part elects the canary.

    The main result: after any such notifications there is a canary exactly when a live thread bears
    the name (or has borne it when it was elected), it is such a thread, and its OS thread is one
    that was assigned to it. *)

From stdpp Require Import sorting.
From S2P Require Import Prelude TypeNames.

Definition canaryNamePrefix : list Z := WStr "OpenTelemetry Profiler Canary Thread".

Definition IsCanaryThreadName (threadName : list Z) : bool := bool_decide (canaryNamePrefix `prefix_of` threadName).

Record CanarySnapshot := { managedId : Z; osId : Z }.

Definition CanarySnapshot_none : CanarySnapshot := {| managedId := 0; osId := 0 |}.
Definition IsValid (c : CanarySnapshot) : bool := bool_decide (managedId c ≠ 0 ∧ osId c ≠ 0).

Record CanaryThreads := {
  activeThreads_ : gmap Z Z; (* OS threads by thread *)
  threadNames_ : gmap Z (list Z);
  canary_ : CanarySnapshot;
}.

Definition CanaryThreads_init : CanaryThreads := {| activeThreads_ := ∅; threadNames_ := ∅; canary_ := CanarySnapshot_none |}.

(** A map of the standard library is visited in the order of its keys. *)
Definition by_key {A} (a b : Z * A) : Prop := a.1 ≤ b.1.
#[export] Instance by_key_dec {A} : RelDecision (@by_key A) := λ a b, decide (a.1 ≤ b.1).

Definition in_order {A} (m : gmap Z A) : list (Z * A) := merge_sort by_key (map_to_list m).

Fixpoint elect (active : gmap Z Z) (names : list (Z * list Z)) : CanarySnapshot :=
  match names with
  | [] => CanarySnapshot_none
  | (tid, name) :: names =>
      if negb (IsCanaryThreadName name) then elect active names
      else match active !! tid with None => elect active names | Some os => {| managedId := tid; osId := os |} end
  end.

Definition ReelectCanaryLocked (s : CanaryThreads) : CanaryThreads :=
  {| activeThreads_ := activeThreads_ s; threadNames_ := threadNames_ s; canary_ := elect (activeThreads_ s) (in_order (threadNames_ s)) |}.

Definition OnThreadDestroyed (threadId : Z) (s : CanaryThreads) : CanaryThreads :=
  let s := {| activeThreads_ := delete threadId (activeThreads_ s); threadNames_ := delete threadId (threadNames_ s); canary_ := canary_ s |} in
  if decide (managedId (canary_ s) ≠ threadId) then s else ReelectCanaryLocked s.

Definition with_canary (c : CanarySnapshot) (s : CanaryThreads) : CanaryThreads :=
  {| activeThreads_ := activeThreads_ s; threadNames_ := threadNames_ s; canary_ := c |}.

(** The name, or nothing where the pointer is null. *)
Definition OnThreadNameChanged (threadId : Z) (name : option (list Z)) (s : CanaryThreads) : CanaryThreads :=
  match name with
  | None | Some [] => s
  | Some threadName =>
      let s := {| activeThreads_ := activeThreads_ s; threadNames_ := <[threadId := threadName]> (threadNames_ s); canary_ := canary_ s |} in
      if IsValid (canary_ s) || negb (IsCanaryThreadName threadName) then s
      else match activeThreads_ s !! threadId with
           | None => s
           | Some os => with_canary {| managedId := threadId; osId := os |} s
           end
  end.

Definition OnThreadAssignedToOSThread (managedThreadId osThreadId : Z) (s : CanaryThreads) : CanaryThreads :=
  let s := {| activeThreads_ := <[managedThreadId := osThreadId]> (activeThreads_ s); threadNames_ := threadNames_ s; canary_ := canary_ s |} in
  if IsValid (canary_ s) then s
  else match threadNames_ s !! managedThreadId with
       | None => s
       | Some name =>
           if negb (IsCanaryThreadName name) then s else with_canary {| managedId := managedThreadId; osId := osThreadId |} s
       end.

(** ** The notifications of the runtime *)

Inductive thread_event :=
| Destroyed (threadId : Z)
| NameChanged (threadId : Z) (name : option (list Z))
| AssignedToOSThread (threadId osThreadId : Z).

Definition notify (s : CanaryThreads) (e : thread_event) : CanaryThreads :=
  match e with
  | Destroyed t => OnThreadDestroyed t s
  | NameChanged t name => OnThreadNameChanged t name s
  | AssignedToOSThread t os => OnThreadAssignedToOSThread t os s
  end.

Definition after (es : list thread_event) : CanaryThreads := foldl notify CanaryThreads_init es.

(** Threads and OS threads are not 0. *)
Definition event_ok (e : thread_event) : Prop :=
  match e with AssignedToOSThread t os => t ≠ 0 ∧ os ≠ 0 | _ => True end.

(** ** Specification: what was said of a thread since it was last destroyed, the last first *)

Definition os_threads_step (t : Z) (oss : list Z) (e : thread_event) : list Z :=
  match e with
  | Destroyed t' => if decide (t = t') then [] else oss
  | AssignedToOSThread t' os => if decide (t = t') then os :: oss else oss
  | NameChanged _ _ => oss
  end.

Definition names_step (t : Z) (names : list (list Z)) (e : thread_event) : list (list Z) :=
  match e with
  | Destroyed t' => if decide (t = t') then [] else names
  | NameChanged t' (Some ((_ :: _) as name)) => if decide (t = t') then name :: names else names
  | _ => names
  end.

Definition os_threads (es : list thread_event) (t : Z) : list Z := foldl (os_threads_step t) [] es.
Definition names (es : list thread_event) (t : Z) : list (list Z) := foldl (names_step t) [] es.

(** A thread that is live and bears the name. *)
Definition canary_candidate (es : list thread_event) (t : Z) : Prop :=
  os_threads es t ≠ [] ∧ ∃ name, head (names es t) = Some name ∧ IsCanaryThreadName name = true.

(** What the canary is, given what was said. *)
Record elected (es : list thread_event) (c : CanarySnapshot) : Prop := {
  elected_valid : IsValid c = true →
    osId c ∈ os_threads es (managedId c) ∧ ∃ name, name ∈ names es (managedId c) ∧ IsCanaryThreadName name = true;
  elected_none : IsValid c = false → c = CanarySnapshot_none ∧ ∀ t, ¬ canary_candidate es t;
}.

(** ** The election *)

Lemma elem_of_in_order {A} (m : gmap Z A) t (a : A) : (t, a) ∈ in_order m ↔ m !! t = Some a.
Proof. unfold in_order. by rewrite merge_sort_Permutation, elem_of_map_to_list. Qed.

Lemma elect_spec active ns :
  let c := elect active ns in
  (c = CanarySnapshot_none ∧ ∀ t name, (t, name) ∈ ns → IsCanaryThreadName name = true → active !! t = None) ∨
  (active !! managedId c = Some (osId c) ∧ ∃ name, (managedId c, name) ∈ ns ∧ IsCanaryThreadName name = true).
Proof.
  induction ns as [|[t name] ns IH]; cbn; [left; split; [done|by intros ? ? ?%elem_of_nil]|].
  assert (Hcons : (IsCanaryThreadName name = true → active !! t = None) →
    (let c := elect active ns in
     (c = CanarySnapshot_none ∧ ∀ t' n, (t', n) ∈ (t, name) :: ns → IsCanaryThreadName n = true → active !! t' = None) ∨
     (active !! managedId c = Some (osId c) ∧ ∃ n, (managedId c, n) ∈ (t, name) :: ns ∧ IsCanaryThreadName n = true))).
  { intros Hn. destruct IH as [[Hc IH]|[Ha (n & Hin & Hn')]]; [left|right].
    - split; [done|]. intros t' n [[= -> ->]|Hin]%elem_of_cons Hcn; [auto|by eapply IH].
    - split; [done|]. exists n. by split; [right|]. }
  destruct (IsCanaryThreadName name) eqn:E; cbn [negb]; [|by apply Hcons].
  destruct (active !! t) as [os|] eqn:Et; [|by apply Hcons]. right. cbn. split; [done|]. exists name. by split; [left|].
Qed.

Lemma after_app es e : after (es ++ [e]) = notify (after es) e.
Proof. unfold after. by rewrite foldl_app. Qed.

Lemma os_threads_app es e t : os_threads (es ++ [e]) t = os_threads_step t (os_threads es t) e.
Proof. unfold os_threads. by rewrite foldl_app. Qed.

Lemma names_app es e t : names (es ++ [e]) t = names_step t (names es t) e.
Proof. unfold names. by rewrite foldl_app. Qed.

(** What the maps hold. *)
Record known (es : list thread_event) (s : CanaryThreads) : Prop := {
  known_active : ∀ t, activeThreads_ s !! t = head (os_threads es t);
  known_names : ∀ t, threadNames_ s !! t = head (names es t);
  known_nonzero : ∀ t os, os ∈ os_threads es t → t ≠ 0 ∧ os ≠ 0;
}.

Lemma known_step es s e : event_ok e → known es s → known (es ++ [e]) (notify s e).
Proof.
  intros He [Ha Hn Hz]. split; intros t.
  - rewrite os_threads_app. destruct e as [t'|t' [[|c name]|]|t' os]; cbn.
    + unfold OnThreadDestroyed. destruct (decide _); cbn; case_decide; subst; by rewrite ?lookup_delete_eq, ?lookup_delete_ne by done.
    + done.
    + repeat case_match; done.
    + done.
    + unfold OnThreadAssignedToOSThread. repeat case_match; cbn; case_decide; subst; by rewrite ?lookup_insert_eq, ?lookup_insert_ne by done.
  - rewrite names_app. destruct e as [t'|t' [[|c name]|]|t' os]; cbn.
    + unfold OnThreadDestroyed. destruct (decide _); cbn; case_decide; subst; by rewrite ?lookup_delete_eq, ?lookup_delete_ne by done.
    + done.
    + repeat case_match; cbn; case_decide; subst; by rewrite ?lookup_insert_eq, ?lookup_insert_ne by done.
    + done.
    + unfold OnThreadAssignedToOSThread. repeat case_match; done.
  - intros os. rewrite os_threads_app. destruct e as [t'|t' n|t' os']; cbn; [|by apply Hz|]; (case_decide; [subst|by apply Hz]).
    + by intros ?%elem_of_nil.
    + intros [->|?]%elem_of_cons; [done|by apply Hz].
Qed.

Lemma elem_of_head {A} (l : list A) a : head l = Some a → a ∈ l.
Proof. destruct l; [done|]. intros [= ->]. by left. Qed.

(** A thread of which both are known. *)
Lemma elected_thread es s t os name :
  known es s → activeThreads_ s !! t = Some os → threadNames_ s !! t = Some name → IsCanaryThreadName name = true →
  elected es {| managedId := t; osId := os |}.
Proof.
  intros [Ha Hn Hz] Hos Hname Hc. rewrite Ha in Hos. rewrite Hn in Hname. apply elem_of_head in Hos, Hname. split; cbn.
  - intros _. eauto.
  - intros Hv. destruct (Hz t os Hos). exfalso. apply bool_decide_eq_false in Hv. by apply Hv.
Qed.

Lemma reelected es s : known es s → elected es (canary_ (ReelectCanaryLocked s)).
Proof.
  intros Hs. destruct Hs as [Ha Hn Hz] eqn:E. destruct (elect_spec (activeThreads_ s) (in_order (threadNames_ s))) as [[Hc He]|[He (name & Hin & Hname)]]; cbn.
  - rewrite Hc. split; [done|]. intros _. split; [done|]. intros t [Hos (name & Hh & Hname)]. apply Hos.
    assert (activeThreads_ s !! t = None) as Hnone by (eapply He; [|exact Hname]; apply elem_of_in_order; by rewrite Hn).
    rewrite Ha in Hnone. by destruct (os_threads es t).
  - apply elem_of_in_order in Hin. destruct (elect _ _) as [t os]. by eapply elected_thread.
Qed.

(** The canary stays where nothing is forgotten of it. *)
Lemma elected_kept es es' c :
  IsValid c = true → elected es c → (∀ os, os ∈ os_threads es (managedId c) → os ∈ os_threads es' (managedId c)) →
  (∀ n, n ∈ names es (managedId c) → n ∈ names es' (managedId c)) → elected es' c.
Proof.
  intros Hv [He _] Hos Hn. destruct (He Hv) as [H1 (n & H2 & H3)]. split; [|by rewrite Hv]. intros _.
  split; [by apply Hos|]. exists n. by split; [apply Hn|].
Qed.

Lemma elected_nobody es es' c :
  IsValid c = false → elected es c → (∀ t, canary_candidate es' t → canary_candidate es t) → elected es' c.
Proof.
  intros Hv [_ He] Hc. destruct (He Hv) as [-> Hno]. split; [done|]. intros _. split; [done|]. intros t Ht. by apply (Hno t), Hc.
Qed.

Lemma elected_step es s e : event_ok e → known es s → elected es (canary_ s) → elected (es ++ [e]) (canary_ (notify s e)).
Proof.
  intros He Hk Hs. pose proof (known_step es s e He Hk) as Hk'. destruct e as [t|t name|t os].
  - cbn. unfold OnThreadDestroyed. cbn [canary_].
    set (s' := {| activeThreads_ := delete t (activeThreads_ s); threadNames_ := delete t (threadNames_ s); canary_ := canary_ s |}).
    case_decide as Hd.
    + cbn. destruct (IsValid (canary_ s)) eqn:Hv.
      * eapply elected_kept; [done..|intros os; rewrite os_threads_app|intros n; rewrite names_app]; cbn; by rewrite decide_False.
      * eapply elected_nobody; [done..|]. intros t'. unfold canary_candidate. rewrite os_threads_app, names_app. cbn. case_decide; [by intros []|done].
    + apply reelected. cbn in Hk'. unfold OnThreadDestroyed in Hk'. cbn in Hk'. rewrite decide_False in Hk' by auto. destruct Hk'. by split.
  - destruct name as [[|ch name]|].
    1, 3: cbn; destruct (IsValid (canary_ s)) eqn:Hv; [eapply elected_kept|eapply elected_nobody]; try done;
      intros ?; rewrite ?os_threads_app, ?names_app; unfold canary_candidate; rewrite ?os_threads_app, ?names_app; done.
    cbn [notify OnThreadNameChanged] in *. cbn [canary_] in *. destruct (IsValid (canary_ s)) eqn:Hv; cbn [orb] in *.
    { eapply elected_kept; [done..|by intros os; rewrite os_threads_app|intros n; rewrite names_app; cbn]. case_decide; [by right|done]. }
    destruct (IsCanaryThreadName (ch :: name)) eqn:Hc; cbn [negb] in *.
    + cbn in Hk' |- *. destruct (activeThreads_ s !! t) as [os|] eqn:Et.
      * eapply elected_thread; [exact Hk'|done| |exact Hc]. cbn. by rewrite lookup_insert_eq.
      * eapply elected_nobody; [done..|]. intros t'. unfold canary_candidate. rewrite os_threads_app, names_app. cbn.
        case_decide; [subst|done]. rewrite (known_active _ _ Hk) in Et. intros [Hos _]. by destruct (os_threads es t).
    + eapply elected_nobody; [done..|]. intros t'. unfold canary_candidate. rewrite os_threads_app, names_app. cbn.
      case_decide; [subst|done]. intros (_ & n & [= <-] & Hn). congruence.
  - cbn [notify] in *. unfold OnThreadAssignedToOSThread in *. cbn [canary_] in *. destruct (IsValid (canary_ s)) eqn:Hv.
    { eapply elected_kept; [done..|intros os'; rewrite os_threads_app; cbn|by intros n; rewrite names_app]. case_decide; [by right|done]. }
    cbn in Hk' |- *. destruct (threadNames_ s !! t) as [name|] eqn:Et; [destruct (IsCanaryThreadName name) eqn:Hc|]; cbn [negb] in *.
    + eapply elected_thread; [exact Hk'| |exact Et|exact Hc]. cbn. by rewrite lookup_insert_eq.
    + eapply elected_nobody; [done..|]. intros t'. unfold canary_candidate. rewrite os_threads_app, names_app. cbn.
      case_decide; [subst|done]. rewrite <-(known_names _ _ Hk), Et. intros (_ & n & [= <-] & Hn). congruence.
    + eapply elected_nobody; [done..|]. intros t'. unfold canary_candidate. rewrite os_threads_app, names_app. cbn.
      case_decide; [subst|done]. rewrite <-(known_names _ _ Hk), Et. by intros (_ & n & ? & _).
Qed.

Lemma after_spec es : Forall event_ok es → known es (after es) ∧ elected es (canary_ (after es)).
Proof.
  induction es as [|e es IH] using rev_ind; intros He.
  - split; [split; intros; try by destruct (elem_of_nil (A := Z) os)|split; [done|]]; [done..|]. intros _. split; [done|]. intros t [H _]. done.
  - apply Forall_app in He as [Hes [He _]%Forall_cons]. destruct (IH Hes) as [Hk Hs]. rewrite after_app.
    split; [by apply known_step|by apply elected_step].
Qed.

(** C34: After any notifications, of threads and OS threads that are not 0, a canary is a thread that
    was assigned to an OS thread and named as a canary since it was last destroyed, its OS thread
    one of those it was assigned to, and it is the last of them if it was assigned once; and where
    there is no canary, no thread is live and bears the name of a canary. *)
Theorem canary_is_elected es :
  Forall event_ok es →
  let c := canary_ (after es) in
  (IsValid c = true → osId c ∈ os_threads es (managedId c) ∧ ∃ name, name ∈ names es (managedId c) ∧ IsCanaryThreadName name = true) ∧
  (IsValid c = false → ∀ t, ¬ canary_candidate es t).
Proof.
  intros He c. destruct (after_spec es He) as [_ [H1 H2]]. split; [exact H1|]. intros Hv. by apply H2.
Qed.

Definition example_events : list thread_event :=
  [NameChanged 5 (Some (canaryNamePrefix ++ [32; 49])); AssignedToOSThread 7 70; AssignedToOSThread 5 50;
   NameChanged 7 (Some canaryNamePrefix); Destroyed 5; AssignedToOSThread 7 71].

Example canary_reelected : canary_ (after example_events) = {| managedId := 7; osId := 70 |}.
Proof. by vm_compute. Qed.

Lemma canary_is_elected_witness :
  Forall event_ok example_events ∧ IsValid (canary_ (after example_events)) = true ∧
  osId (canary_ (after example_events)) ∈ os_threads example_events (managedId (canary_ (after example_events))).
Proof.
  assert (Forall event_ok example_events) as He by (repeat constructor; done). split; [exact He|].
  assert (IsValid (canary_ (after example_events)) = true) as Hv by (by vm_compute). split; [exact Hv|].
  by apply (canary_is_elected example_events He).
Defined.
