(* ===== verification/CallTargetTokens.v ===== *)
(** * The tokens an instrumented module needs (calltarget_tokens.cpp, tracer_tokens.cpp, clr_helpers.cpp)

    Rewriting a method refers to types and members of the core library and of the managed
    profiler.  The classes CallTargetTokens and TracerTokens define these references in the
    module's metadata on first use and keep their tokens; only the derived class is ever created,
    so the virtual functions are its.  This file holds the state, the metadata interface, the
    tokens that every operation needs, and the new signature of the method's locals. *)

From S2P Require Import Prelude ILOpcodes ILList ILRewriterWrapper CorSig Signature.

(** ** The metadata of the module *)

(** What [IMetaDataAssemblyEmit::DefineAssemblyRef] is given. *)
Record assembly_ref := {
  ar_public_key : list Z;
  ar_name : string;
  ar_version : Z * Z * Z * Z;
  ar_locale : string;
  ar_hash : list Z;
  ar_flags : Z;
}.

(** The interfaces of the CLR on the metadata of the module, a state of its own.  A call returns
    the HRESULT and what it writes to its out parameter.  [ResolveType] finds the definition of a
    referenced type in the loaded modules; it returns the module and the definition.
    [GetTypeInfo] is the name of a type, [None] if the information is not valid. *)
Class Metadata (MD : Type) := {
  DefineAssemblyRef : assembly_ref → MD → Z * Z * MD;
  DefineTypeRefByName : Z → string → MD → Z * Z * MD;
  DefineMemberRef : Z → string → list Z → MD → Z * Z * MD;
  DefineMethodSpec : Z → list Z → MD → Z * Z * MD;
  GetTokenFromSig : list Z → MD → Z * Z * MD;
  GetTokenFromTypeSpec : list Z → MD → Z * Z * MD;
  GetSigFromToken : Z → MD → Z * list Z * MD;
  GetTypeSpecFromToken : Z → MD → Z * list Z * MD;
  ResolveType : Z → MD → Z * (Z * Z) * MD;
  GetCustomAttributeByName : Z → Z → string → MD → Z * list Z * MD;
  GetModuleFromScope : MD → Z * Z * MD;
  EnumAssemblyRefs : MD → list Z;
  GetReferencedAssemblyMetadata : Z → MD → string * (Z * Z * Z * Z);
  FindTypeRef : Z → string → MD → Z * Z * MD;
  GetTypeInfo : Z → MD → option string;
}.

(** [trace::AssemblyReference]; an empty key is [PublicKey()]. *)
Record AssemblyReference := {
  AssemblyReference_name : string;
  AssemblyReference_version : Z * Z * Z * Z;
  AssemblyReference_locale : string;
  AssemblyReference_public_key : option (list Z);
}.

(** ** The state *)

Inductive TokenSlot :=
| corLibAssemblyRef | objectTypeRef | typeRef | runtimeTypeHandleRef | getTypeFromHandleToken | runtimeMethodHandleRef
| callTargetStateTypeGetDefault | callTargetReturnVoidTypeGetDefault | getDefaultMemberRef
| profilerAssemblyRef | callTargetTypeRef | callTargetStateTypeRef | callTargetReturnVoidTypeRef
| callTargetReturnTypeRef | callTargetRefStructTypeRef | exTypeRef
| createRefStructMemberRef | beginArrayMemberRef | beginMethodFastPathRefs (i : nat)
| endVoidMemberRef | endVoidRuntimeAsyncMemberRef
| ensureRuntimeAsyncNonGenericMemberRef | ensureRuntimeAsyncGenericMemberRef
| logExceptionRef | bubbleUpExceptionTypeRef | bubbleUpExceptionFunctionRef.

#[export] Instance TokenSlot_eq_dec : EqDecision TokenSlot.
Proof. solve_decision. Defined.

Definition mdTokenNil : Z := 0.
Definition mdTypeRefNil : Z := mdtTypeRef.
Definition mdTypeSpecNil : Z := mdtTypeSpec.
Definition mdMemberRefNil : Z := 0x0a000000.
Definition mdAssemblyRefNil : Z := 0x23000000.
Definition mdMethodSpecNil : Z := 0x2b000000.

Definition slot_nil (s : TokenSlot) : Z :=
  match s with
  | corLibAssemblyRef | profilerAssemblyRef => mdAssemblyRefNil
  | objectTypeRef | typeRef | runtimeTypeHandleRef | runtimeMethodHandleRef | callTargetTypeRef
  | callTargetStateTypeRef | callTargetReturnVoidTypeRef | callTargetReturnTypeRef
  | callTargetRefStructTypeRef | exTypeRef | bubbleUpExceptionTypeRef => mdTypeRefNil
  | getTypeFromHandleToken => mdTokenNil
  | _ => mdMemberRefNil
  end.

(** The members of a new TracerTokens. *)
Definition TracerTokens_new : TokenSlot → Z := slot_nil.

(** The state of a rewriting: the rewriter, the members of TracerTokens, the references to
    integration types that ModuleMetadata keeps, the metadata. *)
Record context (MD : Type) := {
  c_il : ILRewriter;
  c_tokens : TokenSlot → Z;
  c_integration_types : gmap string Z;
  c_md : MD;
}.
Arguments c_il {MD} c.
Arguments c_tokens {MD} c.
Arguments c_integration_types {MD} c.
Arguments c_md {MD} c.
Arguments Build_context {MD} c_il c_tokens c_integration_types c_md.

Abbreviation T MD := (stM (context MD) HRESULT).

Definition signatureBufferSize : nat := 500.
Definition FASTPATH_COUNT : nat := 9.

(** Constant members of the classes, always true. *)
Definition enable_by_ref_instrumentation : bool := true.
Definition enable_calltarget_state_by_ref : bool := true.

Section Lifting.
Context {MD : Type}.

Definition on_il {A} (m : stM ILRewriter HRESULT A) : T MD A := λ s,
  let '(r, il) := m (c_il s) in (r, Build_context il (c_tokens s) (c_integration_types s) (c_md s)).

(** A call to the metadata: its HRESULT and its result. *)
Definition on_md {A} (f : MD → Z * A * MD) : T MD (Z * A) := λ s,
  let '(r, md) := f (c_md s) in (Ret r, Build_context (c_il s) (c_tokens s) (c_integration_types s) md).

Definition token (slot : TokenSlot) : T MD Z := λ s, (Ret (c_tokens s slot), s).
Definition set_token (slot : TokenSlot) (tk : Z) : T MD unit := λ s,
  (Ret tt, Build_context (c_il s) (λ x, if decide (x = slot) then tk else c_tokens s x) (c_integration_types s) (c_md s)).

(** The function returned the failure instead of its result. *)
Definition attempt {A} (m : T MD A) : T MD (HRESULT + A) := λ s,
  match m s with
  | (Ret a, s') => (Ret (inr a), s')
  | (Err e, s') => (Ret (inl e), s')
  | (Stuck, s') => (Stuck, s')
  | (Fuel, s') => (Fuel, s')
  end.

(** [if (FAILED(hr)) return hr;] after a call that wrote the token. *)
Definition checked {A} (m : T MD (Z * A)) : T MD A :=
  '(hr, a) ← m;
  if decide (hr < 0) then throw (HR hr) else mret a.

(** [if (slot == nil) { new = nil; hr = define(&new); if (FAILED(hr)) return hr; slot = new; }] *)
Definition ensure (slot : TokenSlot) (define : T MD (Z * Z)) : T MD unit :=
  tk ← token slot;
  if decide (tk = slot_nil slot) then new ← checked define; set_token slot new else mret tt.

(** [if (slot == nil) { hr = define(&slot); if (FAILED(hr)) return hr; }] *)
Definition ensure_in_place (slot : TokenSlot) (define : T MD (Z * Z)) : T MD unit :=
  tk ← token slot;
  if decide (tk = slot_nil slot) then
    '(hr, new) ← define;
    set_token slot new;;
    if decide (hr < 0) then throw (HR hr) else mret tt
  else mret tt.

(** ** Signatures in a buffer on the stack

    [buffer[offset++] = ...] and [memcpy(&buffer[offset], ...); offset += size], in order. *)

Fixpoint put_all (buffer : list Z) (offset : nat) (pieces : list (list Z)) : option (list Z * nat) :=
  match pieces with
  | [] => Some (buffer, offset)
  | piece :: pieces =>
      match upd_range offset piece buffer with
      | Some buffer => put_all buffer (offset + length piece) pieces
      | None => None
      end
  end.

(** The first [n] bytes behind a pointer to the buffer. *)
Definition read_buffer (n : nat) (buffer : list Z) : option (list Z) :=
  if decide (n ≤ length buffer)%nat then Some (take n buffer) else None.

(** [CorSigCompressToken(tk, &buffer)]: the bytes it wrote. *)
Definition compress_token (tk : Z) : T MD (list Z) := lift_option (CorSigCompressToken tk).
Definition compress_slot (slot : TokenSlot) : T MD (list Z) := tk ← token slot; compress_token tk.

(** [uninit] is what the buffer holds before it is written. *)
Definition signature_n (uninit : list Z) (pieces : list (list Z)) (signatureLength : nat) : T MD (list Z) :=
  '(buffer, _) ← lift_option (put_all uninit 0 pieces);
  lift_option (read_buffer signatureLength buffer).

Definition signature_of (uninit : list Z) (pieces : list (list Z)) : T MD (list Z) :=
  '(buffer, offset) ← lift_option (put_all uninit 0 pieces);
  lift_option (read_buffer offset buffer).

(** [GetElementTypeAndFlags], on the bytes of the type. *)
Definition element_type_and_flags (sig : list Z) : T MD (Z * Z) := λ s,
  match fst (GetElementTypeAndFlags sig 0%nat) with
  | Ret r => (Ret r, s)
  | Fuel => (Fuel, s)
  | _ => (Stuck, s)
  end.
End Lifting.

(** ** Queries about types (clr_helpers.cpp) *)

Section Queries.
Context {MD : Type} `{!Metadata MD}.

Definition primitive_name (b : Z) : option string :=
  if decide (b = ELEMENT_TYPE_BOOLEAN) then Some "System.Boolean"
  else if decide (b = ELEMENT_TYPE_CHAR) then Some "System.Char"
  else if decide (b = ELEMENT_TYPE_I1) then Some "System.SByte"
  else if decide (b = ELEMENT_TYPE_U1) then Some "System.Byte"
  else if decide (b = ELEMENT_TYPE_U2) then Some "System.UInt16"
  else if decide (b = ELEMENT_TYPE_I2) then Some "System.Int16"
  else if decide (b = ELEMENT_TYPE_I4) then Some "System.Int32"
  else if decide (b = ELEMENT_TYPE_U4) then Some "System.UInt32"
  else if decide (b = ELEMENT_TYPE_I8) then Some "System.Int64"
  else if decide (b = ELEMENT_TYPE_U8) then Some "System.UInt64"
  else if decide (b = ELEMENT_TYPE_R4) then Some "System.Single"
  else if decide (b = ELEMENT_TYPE_R8) then Some "System.Double"
  else if decide (b = ELEMENT_TYPE_I) then Some "System.IntPtr"
  else if decide (b = ELEMENT_TYPE_U) then Some "System.UIntPtr"
  else if decide (b = ELEMENT_TYPE_STRING) then Some "System.String"
  else if decide (b = ELEMENT_TYPE_OBJECT) then Some "System.Object"
  else None.

(** [pbCur++] when the byte there is one of [skipped]. *)
Definition skip_byte (sig : list Z) (pbCur : nat) (skipped : list Z) : T MD nat :=
  b ← lift_option (sig !! pbCur);
  mret (if decide (b ∈ skipped) then S pbCur else pbCur).

Definition GetTypeTok (sig : list Z) (corLibRef : Z) : T MD Z :=
  pbCur ← skip_byte sig 0 [ELEMENT_TYPE_PTR; ELEMENT_TYPE_PINNED];
  pbCur ← skip_byte sig pbCur [ELEMENT_TYPE_BYREF];
  b ← lift_option (sig !! pbCur);
  match primitive_name b with
  | Some name => '(_, tk) ← on_md (DefineTypeRefByName corLibRef name); mret tk
  | None =>
      if decide (b = ELEMENT_TYPE_CLASS ∨ b = ELEMENT_TYPE_VALUETYPE) then
        match CorSigUncompressToken (drop (S pbCur) sig) with
        | Ret (tk, _) => mret tk
        | _ => stuck
        end
      else if decide (b ∈ [ELEMENT_TYPE_GENERICINST; ELEMENT_TYPE_SZARRAY; ELEMENT_TYPE_MVAR; ELEMENT_TYPE_VAR]) then
        '(_, tk) ← on_md (GetTokenFromTypeSpec (drop pbCur sig)); mret tk
      else mret mdTokenNil
  end.

Definition IsByRefLikeAttribute : string := "System.Runtime.CompilerServices.IsByRefLikeAttribute".

(** The HRESULT and the flag, [false] where the code leaves the caller's initial value. *)
Definition IsByRefLike (module typeDefToken : Z) : T MD (Z * bool) :=
  '(hr, data) ← on_md (GetCustomAttributeByName module typeDefToken IsByRefLikeAttribute);
  mret (if decide (hr < 0) then (hr, false) else (hr, bool_decide (0 < length data)%nat)).

(** The module the rewritten method is in. *)
Definition this_module : Z := 0.

Definition IsTypeTokenByRefLike (tk : Z) : T MD (Z * bool) :=
  if decide (TypeFromToken tk = mdtTypeSpec) then mret (0, false)
  else if decide (TypeFromToken tk = mdtTypeRef) then
    '(hr, (module, typeDef)) ← on_md (ResolveType tk);
    if decide (hr < 0) then mret (0, false) else IsByRefLike module typeDef
  else IsByRefLike this_module tk.

Definition IsTypeByRefLike (sig : list Z) (corLibAssemblyRef : Z) : T MD (Z * bool) :=
  tk ← GetTypeTok sig corLibAssemblyRef;
  if decide (TypeFromToken tk = mdtTypeSpec) then
    match fst (GenericTypeProps_TryParse sig (length sig) 0%nat) with
    | Ret props =>
        if decide (OpenTypeToken props ≠ mdTokenNil) then IsTypeTokenByRefLike (OpenTypeToken props)
        else mret (0, false)
    | Err _ => mret (0, false)
    | Stuck => stuck
    | Fuel => out_of_fuel
    end
  else IsTypeTokenByRefLike tk.

(** [SUCCEEDED(IsTypeByRefLike(...)) && isByRefLike] *)
Definition is_by_ref_like (sig : list Z) : T MD bool :=
  corLib ← token corLibAssemblyRef;
  '(hr, isByRefLike) ← IsTypeByRefLike sig corLib;
  mret (bool_decide (0 ≤ hr) && isByRefLike).
End Queries.

(** ** The tokens every operation needs *)

Section Ensure.
Context {MD : Type} `{!Metadata MD}.
Context (signature_uninit : list Z).
Context (corAssemblyProperty : assembly_ref) (assemblyReference : AssemblyReference).
Context (call_target_bubble_up_exception_available call_target_bubble_up_exception_function_available : bool).

Definition GetTypeFromHandle_signature : T MD (list Z) :=
  runtimeTypeHandle ← compress_slot runtimeTypeHandleRef;
  type ← compress_slot typeRef;
  signature_of signature_uninit
    [[IMAGE_CEE_CS_CALLCONV_DEFAULT]; [0x01]; [ELEMENT_TYPE_CLASS]; type; [ELEMENT_TYPE_VALUETYPE]; runtimeTypeHandle].

Definition define_type (scope : TokenSlot) (name : string) : T MD (Z * Z) :=
  scope ← token scope; on_md (DefineTypeRefByName scope name).
Definition define_member (type : TokenSlot) (name : string) (signature : T MD (list Z)) : T MD (Z * Z) :=
  signature ← signature; type ← token type; on_md (DefineMemberRef type name signature).

(** A successful call that leaves the assembly reference nil ends the function with its HRESULT. *)
Definition ensure_corLibAssemblyRef : T MD bool :=
  tk ← token corLibAssemblyRef;
  if decide (tk = mdAssemblyRefNil) then
    new ← checked (on_md (DefineAssemblyRef corAssemblyProperty));
    if decide (new = mdAssemblyRefNil) then mret false
    else set_token corLibAssemblyRef new;; mret true
  else mret true.

Definition EnsureCorLibTokens : T MD unit :=
  defined ← ensure_corLibAssemblyRef;
  if negb defined then mret tt
  else
    ensure objectTypeRef (define_type corLibAssemblyRef "System.Object");;
    ensure exTypeRef (define_type corLibAssemblyRef "System.Exception");;
    ensure typeRef (define_type corLibAssemblyRef "System.Type");;
    ensure runtimeTypeHandleRef (define_type corLibAssemblyRef "System.RuntimeTypeHandle");;
    ensure getTypeFromHandleToken (define_member typeRef "GetTypeFromHandle" GetTypeFromHandle_signature);;
    ensure runtimeMethodHandleRef (define_type corLibAssemblyRef "System.RuntimeMethodHandle").

Definition profiler_assembly_ref : assembly_ref := {|
  ar_public_key := match AssemblyReference_public_key assemblyReference with Some key => take 8 key | None => [] end;
  ar_name := AssemblyReference_name assemblyReference;
  ar_version := AssemblyReference_version assemblyReference;
  ar_locale := if decide (AssemblyReference_locale assemblyReference = "neutral") then ""
               else AssemblyReference_locale assemblyReference;
  ar_hash := [];
  ar_flags := 0;
|}.

Definition managed_profiler_calltarget_type : string := "OpenTelemetry.AutoInstrumentation.CallTarget.CallTargetInvoker".
Definition managed_profiler_calltarget_statetype : string := "OpenTelemetry.AutoInstrumentation.CallTarget.CallTargetState".
Definition managed_profiler_calltarget_returntype : string := "OpenTelemetry.AutoInstrumentation.CallTarget.CallTargetReturn".
Definition managed_profiler_calltarget_returntype_generics : string := "OpenTelemetry.AutoInstrumentation.CallTarget.CallTargetReturn`1".
Definition managed_profiler_calltarget_refstruct : string := "OpenTelemetry.AutoInstrumentation.CallTarget.CallTargetRefStruct".
Definition calltarget_bubble_up_exception_type_name : string := "OpenTelemetry.AutoInstrumentation.CallTarget.CallTargetBubbleUpException".

Definition GetDefault_signature (type : TokenSlot) : T MD (list Z) :=
  type ← compress_slot type;
  signature_n signature_uninit [[IMAGE_CEE_CS_CALLCONV_DEFAULT]; [0x00]; [ELEMENT_TYPE_VALUETYPE]; type] (3 + length type).

(** [CallTargetTokens::EnsureBaseCalltargetTokens] *)
Definition EnsureBaseCalltargetTokens_base : T MD unit :=
  EnsureCorLibTokens;;
  ensure profilerAssemblyRef (on_md (DefineAssemblyRef profiler_assembly_ref));;
  ensure callTargetTypeRef (define_type profilerAssemblyRef managed_profiler_calltarget_type);;
  ensure callTargetStateTypeRef (define_type profilerAssemblyRef managed_profiler_calltarget_statetype);;
  ensure callTargetStateTypeGetDefault
    (define_member callTargetStateTypeRef "GetDefault" (GetDefault_signature callTargetStateTypeRef));;
  ensure callTargetRefStructTypeRef (define_type profilerAssemblyRef managed_profiler_calltarget_refstruct).

(** [sigBuilder += CorSigCompress...(..., sigBuilder)] over an array of 32 bytes. *)
Definition small_signature (pieces : list (list Z)) : T MD (list Z) := signature_of (take 32 signature_uninit) pieces.

Definition IsCallTargetBubbleUpException_signature : T MD (list Z) :=
  ex ← compress_slot exTypeRef;
  small_signature [[IMAGE_CEE_CS_CALLCONV_DEFAULT]; [1]; [ELEMENT_TYPE_BOOLEAN]; [ELEMENT_TYPE_CLASS]; ex].

Definition CreateRefStruct_signature : T MD (list Z) :=
  refStruct ← compress_slot callTargetRefStructTypeRef;
  runtimeTypeHandle ← compress_slot runtimeTypeHandleRef;
  small_signature [[IMAGE_CEE_CS_CALLCONV_DEFAULT]; [2]; [ELEMENT_TYPE_VALUETYPE]; refStruct; [ELEMENT_TYPE_PTR];
                   [ELEMENT_TYPE_VOID]; [ELEMENT_TYPE_VALUETYPE]; runtimeTypeHandle].

(** The references to the bubble-up exception; no failure to define them is reported. *)
Definition ensure_bubble_up : T MD unit :=
  tk ← token bubbleUpExceptionTypeRef;
  if decide (call_target_bubble_up_exception_available = true ∧ tk = mdTypeRefNil) then
    '(typeHr, new) ← define_type profilerAssemblyRef calltarget_bubble_up_exception_type_name;
    set_token bubbleUpExceptionTypeRef new;;
    if decide (typeHr < 0) then set_token bubbleUpExceptionTypeRef mdTypeRefNil
    else
      fn ← token bubbleUpExceptionFunctionRef;
      if decide (call_target_bubble_up_exception_function_available = true ∧ fn = mdMemberRefNil) then
        '(memberHr, new) ← define_member bubbleUpExceptionTypeRef "IsCallTargetBubbleUpException"
                             IsCallTargetBubbleUpException_signature;
        set_token bubbleUpExceptionFunctionRef (if decide (memberHr < 0) then mdMemberRefNil else new)
      else mret tt
  else mret tt.

(** [TracerTokens::EnsureBaseCalltargetTokens] *)
Definition EnsureBaseCalltargetTokens : T MD unit :=
  EnsureBaseCalltargetTokens_base;;
  ensure_bubble_up;;
  callTarget ← token callTargetTypeRef;
  if decide (callTarget ≠ mdTypeRefNil) then
    ensure_in_place createRefStructMemberRef
      (define_member callTargetTypeRef "CreateRefStruct" CreateRefStruct_signature)
  else mret tt.
End Ensure.

(** ** Types, members and the signature of the locals *)

(** [TypeInfo], the members that the rewriting reads. *)
Inductive TypeInfo := Build_TypeInfo {
  TypeInfo_id : Z;
  TypeInfo_type_spec : Z;
  TypeInfo_extend_from : option TypeInfo;
  TypeInfo_valueType : bool;
  TypeInfo_isGeneric : bool;
  TypeInfo_parent_type : option TypeInfo;
}.

(** The loop over [parent_type], from a parent. *)
Fixpoint hasGenericParentType (parentType : TypeInfo) : bool :=
  TypeInfo_isGeneric parentType ||
  match TypeInfo_parent_type parentType with Some p => hasGenericParentType p | None => false end.

(** The loop over [extend_from]: the first type that is not generic. *)
Fixpoint nonGenericType (cType : TypeInfo) : option TypeInfo :=
  if TypeInfo_isGeneric cType then
    match TypeInfo_extend_from cType with Some c => nonGenericType c | None => None end
  else Some cType.

(** What [ModifyLocalSig] writes to its out parameters. *)
Record LocalsInfo := {
  callTargetStateIndex : Z;
  exceptionIndex : Z;
  callTargetReturnIndex : Z;
  returnValueIndex : Z;
  callTargetStateToken : Z;
  exceptionToken : Z;
  callTargetReturnToken : Z;
  additionalLocalIndices : list Z;
}.

Definition ULONG_MAX : Z := 0xFFFFFFFF.
Definition IMAGE_CEE_CS_CALLCONV_LOCAL_SIG : Z := 0x07.
Definition IMAGE_CEE_CS_CALLCONV_GENERICINST : Z := 0x0a.

(** The number an HRESULT is. *)
Definition hresult (e : HRESULT) : Z :=
  match e with
  | E_OUTOFMEMORY => -0x7FF8FFF2
  | E_FAIL => -0x7FFFBFFB
  | COR_E_INVALIDPROGRAM => -0x7FECEAC6
  | COR_E_INVALIDOPERATION => -0x7FECEAF7
  | COR_E_INDEXOUTOFRANGE => -0x7FECEAF8
  | HR hr => hr
  end.

Section Tokens.
Context {MD : Type} `{!Metadata MD}.
Context (signature_uninit : list Z).
Context (corAssemblyProperty : assembly_ref) (assemblyReference : AssemblyReference).
Context (bubble_up_type bubble_up_function : bool).

Abbreviation EnsureBaseCalltargetTokens :=
  (EnsureBaseCalltargetTokens signature_uninit corAssemblyProperty assemblyReference bubble_up_type bubble_up_function).

(** A function that returns a nil token when it fails. *)
Definition or_nil (nil : Z) (m : T MD Z) : T MD Z :=
  r ← attempt m;
  match r with inl _ => mret nil | inr tk => mret tk end.

(** A signature whose length was computed beforehand, tested twice: against the buffer before
    the writes and against the writes after them. *)
Definition signature_checked (pieces : list (list Z)) (signatureLength : nat) : T MD (list Z) :=
  if decide (signatureBufferSize < signatureLength)%nat then throw E_FAIL
  else
    '(buffer, offset) ← lift_option (put_all signature_uninit 0 pieces);
    if decide (offset ≠ signatureLength) then throw E_FAIL
    else lift_option (read_buffer signatureLength buffer).

Definition GetTargetVoidReturnTypeRef : T MD Z :=
  or_nil mdTypeRefNil (
    EnsureBaseCalltargetTokens;;
    ensure callTargetReturnVoidTypeRef (define_type profilerAssemblyRef managed_profiler_calltarget_returntype);;
    token callTargetReturnVoidTypeRef).

Definition GetCallTargetReturnVoidDefaultMemberRef : T MD Z :=
  or_nil mdMemberRefNil (
    EnsureBaseCalltargetTokens;;
    ensure callTargetReturnVoidTypeGetDefault
      (define_member callTargetReturnVoidTypeRef "GetDefault" (GetDefault_signature signature_uninit callTargetReturnVoidTypeRef));;
    token callTargetReturnVoidTypeGetDefault).

Definition GetCallTargetReturnValueDefaultMemberRef (callTargetReturnTypeSpec : Z) : T MD Z :=
  or_nil mdMemberRefNil (
    EnsureBaseCalltargetTokens;;
    tk ← token callTargetReturnTypeRef;
    if decide (tk = mdTypeRefNil) then mret mdMemberRefNil
    else
      type ← compress_slot callTargetReturnTypeRef;
      signature ← signature_n signature_uninit
        [[IMAGE_CEE_CS_CALLCONV_DEFAULT]; [0x00]; [ELEMENT_TYPE_GENERICINST]; [ELEMENT_TYPE_VALUETYPE]; type;
         [0x01]; [ELEMENT_TYPE_VAR]; [0x00]] (7 + length type);
      checked (on_md (DefineMemberRef callTargetReturnTypeSpec "GetDefault" signature))).

(** When the reference to the generic method cannot be defined, the HRESULT is returned as the
    token. *)
Definition GetCallTargetDefaultValueMethodSpec (methodArgument : list Z) : T MD Z :=
  or_nil mdMethodSpecNil (
    EnsureBaseCalltargetTokens;;
    defined ← attempt (ensure getDefaultMemberRef
      (define_member callTargetTypeRef "GetDefaultValue"
        (signature_n signature_uninit
           [[IMAGE_CEE_CS_CALLCONV_GENERIC]; [0x01]; [0x00]; [ELEMENT_TYPE_MVAR]; [0x00]] 5)));
    match defined with
    | inl e => mret (u32 (hresult e))
    | inr _ =>
        signature ← signature_checked [[IMAGE_CEE_CS_CALLCONV_GENERICINST]; [0x01]; methodArgument] (2 + length methodArgument);
        getDefault ← token getDefaultMemberRef;
        checked (on_md (DefineMethodSpec getDefault signature))
    end).

Definition GetTargetReturnValueTypeRef (returnArgument : list Z) : T MD Z :=
  or_nil mdTypeSpecNil (
    EnsureBaseCalltargetTokens;;
    ensure callTargetReturnTypeRef (define_type profilerAssemblyRef managed_profiler_calltarget_returntype_generics);;
    type ← compress_slot callTargetReturnTypeRef;
    signature ← signature_checked
      [[ELEMENT_TYPE_GENERICINST]; [ELEMENT_TYPE_VALUETYPE]; type; [0x01]; returnArgument]
      (3 + length type + length returnArgument);
    checked (on_md (GetTokenFromTypeSpec signature))).

(** The token, and whether it is the token of a value type. *)
Definition GetCurrentTypeRef (currentType : TypeInfo) : T MD (Z * bool) :=
  let isValueType := TypeInfo_valueType currentType in
  objectRef ← token objectTypeRef;
  if decide (TypeInfo_type_spec currentType ≠ mdTypeSpecNil) then mret (TypeInfo_type_spec currentType, isValueType)
  else if match TypeInfo_parent_type currentType with Some p => hasGenericParentType p | None => false end then
    mret (if TypeInfo_valueType currentType then mdTokenNil else objectRef, isValueType)
  else
    match nonGenericType currentType with
    | None => mret (objectRef, isValueType)
    | Some cType => mret (TypeInfo_id cType, TypeInfo_valueType cType)
    end.

(** *** The additional locals of TracerTokens *)

Fixpoint count_ref_structs (methodTypeArguments : list (list Z)) : T MD Z :=
  match methodTypeArguments with
  | [] => mret 0
  | typeArgument :: rest =>
      b ← is_by_ref_like typeArgument;
      n ← count_ref_structs rest;
      mret (if (b : bool) then 1 + n else n)
  end.

Definition GetAdditionalLocalsCount (methodTypeArguments : list (list Z)) : T MD Z :=
  refStructCount ← (if enable_by_ref_instrumentation then count_ref_structs methodTypeArguments else mret 0);
  mret (2 + refStructCount).

(** A buffer, the offset of the next byte and the announced size. *)
Record SigBuffer := { signatureBuffer : list Z; signatureOffset : nat; signatureSize : Z }.

Definition put (pieces : list (list Z)) (b : SigBuffer) : T MD SigBuffer :=
  '(buffer, offset) ← lift_option (put_all (signatureBuffer b) (signatureOffset b) pieces);
  mret {| signatureBuffer := buffer; signatureOffset := offset; signatureSize := signatureSize b |}.
Definition announce (n : nat) (b : SigBuffer) : SigBuffer :=
  {| signatureBuffer := signatureBuffer b; signatureOffset := signatureOffset b;
     signatureSize := u32 (signatureSize b + Z.of_nat n) |}.
Definition too_large (b : SigBuffer) : Prop := Z.of_nat signatureBufferSize < signatureSize b.
#[export] Instance too_large_dec b : Decision (too_large b).
Proof. unfold too_large. apply _. Defined.

(** The loop over the arguments; it returns when the next local does not fit. *)
Fixpoint add_ref_structs (refStruct : list Z) (methodTypeArguments : list (list Z)) (b : SigBuffer) : T MD SigBuffer :=
  match methodTypeArguments with
  | [] => mret b
  | argument :: rest =>
      isByRefLike ← is_by_ref_like argument;
      if (isByRefLike : bool) then
        let b := announce (1 + length refStruct) b in
        if decide (too_large b) then mret b
        else b ← put [[ELEMENT_TYPE_VALUETYPE]; refStruct] b; add_ref_structs refStruct rest b
      else add_ref_structs refStruct rest b
  end.

Definition AddAdditionalLocals (methodTypeArguments : list (list Z)) (b : SigBuffer) : T MD SigBuffer :=
  ex ← compress_slot exTypeRef;
  let b := announce (2 * (1 + length ex)) b in
  if decide (too_large b) then mret b
  else
    b ← put [[ELEMENT_TYPE_CLASS]; ex; [ELEMENT_TYPE_CLASS]; ex] b;
    if enable_by_ref_instrumentation then
      refStruct ← compress_slot callTargetRefStructTypeRef;
      add_ref_structs refStruct methodTypeArguments b
    else mret b.

(** *** [ModifyLocalSig] *)

(** [originalSignature] and the test that it has not been rewritten yet: its last local is not
    the state. *)
Definition original_locals : T MD (list Z) :=
  localVarSig ← on_il (r ← get; mret (m_tkLocalVarSig r));
  if decide (localVarSig = mdTokenNil) then mret []
  else
    originalSignature ← checked (on_md (GetSigFromToken localVarSig));
    temp ← compress_slot callTargetStateTypeRef;
    let size := length originalSignature in
    if decide (length temp < size)%nat then
      last ← lift_option (originalSignature !! (size - length temp - 1)%nat);
      if decide (last = ELEMENT_TYPE_VALUETYPE ∧ drop (size - length temp) originalSignature = temp) then throw E_FAIL
      else mret originalSignature
    else mret originalSignature.

(** The number of the original locals and the size of its encoding. *)
Definition original_count (originalSignature : list Z) : T MD (Z * nat) :=
  match CorSigUncompressData_unchecked (drop 1 originalSignature) with
  | Ret (n, size) => mret (n, Z.to_nat size)
  | _ => stuck
  end.

(** The number of all locals, and the size of the encoding of the number of the original ones. *)
Definition new_count (originalSignature : list Z) (newLocals : Z) : T MD (Z * nat) :=
  if decide (length originalSignature = 0)%nat then mret (u32 newLocals, 0%nat)
  else '(n, len) ← original_count originalSignature; mret (u32 (newLocals + n), len).

(** The size of the new signature without the additional locals. *)
Definition new_size (originalSignature : list Z) (size : nat) (newLocalsBuffer : list Z) (oldLocalsLen : nat) : Z :=
  if decide (length originalSignature = 0)%nat then u32 (Z.of_nat size + 2)
  else u32 (Z.of_nat size + Z.of_nat (length newLocalsBuffer) - Z.of_nat oldLocalsLen).

(** The types of the original locals. *)
Definition put_original (originalSignature : list Z) (oldLocalsLen : nat) (b : SigBuffer) : T MD SigBuffer :=
  if decide (0 < length originalSignature)%nat then
    if decide (1 + oldLocalsLen ≤ length originalSignature)%nat
    then put [drop (1 + oldLocalsLen) originalSignature] b else stuck
  else mret b.

(** The type of the local for the result and the one for its wrapper. *)
Definition return_locals (methodReturnValue : list Z) : T MD (option (list Z) * list Z * Z) :=
  '(_, retTypeFlags) ← element_type_and_flags methodReturnValue;
  if decide (retTypeFlags ≠ TypeFlagVoid) then
    callTargetReturn ← GetTargetReturnValueTypeRef methodReturnValue;
    '(hr, callTargetReturnSignature) ← on_md (GetTypeSpecFromToken callTargetReturn);
    if decide (hr < 0) then throw E_FAIL
    else mret (Some methodReturnValue, callTargetReturnSignature, callTargetReturn)
  else
    callTargetReturn ← GetTargetVoidReturnTypeRef;
    bytes ← compress_token callTargetReturn;
    mret (None, ELEMENT_TYPE_VALUETYPE :: bytes, callTargetReturn).

(** The indices: the new locals are the last ones. *)
Definition local_indices (newLocalsCount additionalLocalsCount : Z) (hasReturn : bool) (additionalIndices : nat)
    (state exception callTargetReturn : Z) : LocalsInfo :=
  let indexStart := u32 (3 + additionalLocalsCount) in {|
    callTargetStateIndex := u32 (newLocalsCount - 1);
    exceptionIndex := u32 (newLocalsCount - indexStart);
    callTargetReturnIndex := u32 (newLocalsCount - (indexStart - 1));
    returnValueIndex := if hasReturn then u32 (newLocalsCount - (indexStart + 1)) else ULONG_MAX;
    callTargetStateToken := state;
    exceptionToken := exception;
    callTargetReturnToken := callTargetReturn;
    additionalLocalIndices :=
      (λ i, u32 (newLocalsCount - (indexStart - 2 - Z.of_nat i))) <$> seq 0 additionalIndices;
  |}.

(** The number of all locals and the bytes of the new signature; [newLocals] of them are new. *)
Definition build_signature (originalSignature : list Z) (returnSignature : option (list Z))
    (callTargetReturnSignature ex state : list Z) (newLocals : Z) (methodTypeArguments : list (list Z)) : T MD (Z * list Z) :=
  let size := (length originalSignature + (length (default [] returnSignature) + (1 + length ex) +
               length callTargetReturnSignature + (1 + length state)))%nat in
  '(newLocalsCount, oldLocalsLen) ← new_count originalSignature newLocals;
  newLocalsBuffer ← lift_option (CorSigCompressData newLocalsCount);
  let newSignatureSize := new_size originalSignature size newLocalsBuffer oldLocalsLen in
  let b := {| signatureBuffer := signature_uninit; signatureOffset := 0; signatureSize := newSignatureSize |} in
  if decide (too_large b) then throw E_FAIL
  else
    b ← put [[IMAGE_CEE_CS_CALLCONV_LOCAL_SIG]; newLocalsBuffer] b;
    b ← put_original originalSignature oldLocalsLen b;
    b ← put [default [] returnSignature; [ELEMENT_TYPE_CLASS]; ex; callTargetReturnSignature] b;
    b ← AddAdditionalLocals methodTypeArguments b;
    if decide (too_large b) then throw E_FAIL
    else
      b ← put [[ELEMENT_TYPE_VALUETYPE]; state] b;
      if decide (Z.of_nat (signatureOffset b) ≠ signatureSize b) then throw E_FAIL
      else
        newSignature ← lift_option (read_buffer (Z.to_nat (signatureSize b)) (signatureBuffer b));
        mret (newLocalsCount, newSignature).

Definition ModifyLocalSig (methodReturnValue : list Z) (methodTypeArguments : list (list Z))
    (additionalIndices : nat) : T MD LocalsInfo :=
  EnsureBaseCalltargetTokens;;
  originalSignature ← original_locals;
  additionalLocalsCount ← GetAdditionalLocalsCount methodTypeArguments;
  state ← compress_slot callTargetStateTypeRef;
  ex ← compress_slot exTypeRef;
  '(returnSignature, callTargetReturnSignature, callTargetReturn) ← return_locals methodReturnValue;
  let newLocals := 3 + additionalLocalsCount + (match returnSignature with Some _ => 1 | None => 0 end) in
  '(newLocalsCount, newSignature) ← build_signature originalSignature returnSignature callTargetReturnSignature
                                      ex state newLocals methodTypeArguments;
  newLocalVarSig ← checked (on_md (GetTokenFromSig newSignature));
  on_il (SetTkLocalVarSig newLocalVarSig);;
  stateToken ← token callTargetStateTypeRef;
  exToken ← token exTypeRef;
  mret (local_indices newLocalsCount additionalLocalsCount (bool_decide (is_Some returnSignature))
          additionalIndices stateToken exToken callTargetReturn).

(** *** Initialising the locals *)

(** The locals of the result, of its wrapper and of the exception get their defaults; the first
    instruction of this. *)
Definition initialize_locals (this : ILRewriterWrapper) (methodReturnType : list Z) (info : LocalsInfo) : T MD Z :=
  firstInstruction ←
    (if decide (returnValueIndex info ≠ ULONG_MAX) then
       defaultValueMethodSpec ← GetCallTargetDefaultValueMethodSpec methodReturnType;
       if decide (defaultValueMethodSpec = mdMethodSpecNil) then throw E_FAIL
       else
         firstInstruction ← on_il (CallMember this defaultValueMethodSpec false);
         on_il (StLocal this (returnValueIndex info));;
         getDefault ← GetCallTargetReturnValueDefaultMemberRef (callTargetReturnToken info);
         on_il (CallMember this getDefault false);;
         on_il (StLocal this (callTargetReturnIndex info));;
         mret firstInstruction
     else
       getDefault ← GetCallTargetReturnVoidDefaultMemberRef;
       firstInstruction ← on_il (CallMember this getDefault false);
       on_il (StLocal this (callTargetReturnIndex info));;
       mret firstInstruction);
  on_il (LoadNull this);;
  on_il (StLocal this (exceptionIndex info));;
  mret firstInstruction.

Definition ModifyLocalSigAndInitialize (this : ILRewriterWrapper) (methodReturnType : list Z)
    (methodTypeArguments : list (list Z)) (additionalIndices : nat) : T MD (LocalsInfo * Z) :=
  info ← ModifyLocalSig methodReturnType methodTypeArguments additionalIndices;
  firstInstruction ← initialize_locals this methodReturnType info;
  mret (info, firstInstruction).

(** The HRESULT and the instruction; the nil token returned for a failure is an HRESULT of
    success. *)
Definition WriteCallTargetReturnGetReturnValue (this : ILRewriterWrapper) (callTargetReturnTypeSpec : Z) :
    T MD (Z * option Z) :=
  ensured ← attempt EnsureBaseCalltargetTokens;
  match ensured with
  | inl _ => mret (mdMemberRefNil, None)
  | inr _ =>
      signature ← signature_n signature_uninit
        [[Z.lor IMAGE_CEE_CS_CALLCONV_DEFAULT IMAGE_CEE_CS_CALLCONV_HASTHIS]; [0x00]; [ELEMENT_TYPE_VAR]; [0x00]] 4;
      '(hr, getReturnValue) ← on_md (DefineMemberRef callTargetReturnTypeSpec "GetReturnValue" signature);
      if decide (hr < 0) then mret (mdMemberRefNil, None)
      else
        instruction ← on_il (CallMember this getReturnValue false);
        mret (0, Some instruction)
  end.
End Tokens.
