(* ===== verification/TracerTokens.v ===== *)
(** * The calls into the managed profiler (tracer_tokens.cpp)

    Each operation defines, on first use, the member of CallTargetInvoker it calls, instantiates
    it for the integration, the instrumented type and the types of the arguments, and emits the
    call. *)

From S2P Require Import Prelude ILOpcodes ILList ILRewriterWrapper CorSig Signature SignatureBuilder CallTargetTokens.

Section TracerTokens.
Context {MD : Type} `{!Metadata MD}.
Context (signature_uninit : list Z).
Context (corAssemblyProperty : assembly_ref) (assemblyReference : AssemblyReference).
Context (bubble_up_type bubble_up_function : bool).

Abbreviation EnsureBaseCalltargetTokens :=
  (EnsureBaseCalltargetTokens signature_uninit corAssemblyProperty assemblyReference bubble_up_type bubble_up_function).
Abbreviation GetTargetReturnValueTypeRef :=
  (GetTargetReturnValueTypeRef signature_uninit corAssemblyProperty assemblyReference bubble_up_type bubble_up_function).
Abbreviation signature_n := (signature_n signature_uninit).
Abbreviation signature_of := (signature_of signature_uninit).
Abbreviation signature_checked := (signature_checked signature_uninit).

Definition lift_outcome {A} (m : outcome unit A) : T MD A :=
  match m with Ret a => mret a | Fuel => out_of_fuel | _ => stuck end.

(** The type of the instance, [System.Object] where there is no token for it: its element type
    and its token. *)
Definition current_type (currentType : TypeInfo) : T MD (Z * Z) :=
  '(currentTypeRef, isValueType) ← GetCurrentTypeRef currentType;
  if decide (currentTypeRef = mdTokenNil) then
    objectRef ← token objectTypeRef;
    mret (ELEMENT_TYPE_CLASS, objectRef)
  else mret (if (isValueType : bool) then ELEMENT_TYPE_VALUETYPE else ELEMENT_TYPE_CLASS, currentTypeRef).

(** The call of a method specification. *)
Definition call_spec (this : ILRewriterWrapper) (method : Z) (signature : list Z) : T MD Z :=
  methodSpec ← checked (on_md (DefineMethodSpec method signature));
  on_il (CallMember this methodSpec false).

Section Operations.
Context (this : ILRewriterWrapper) (integrationTypeRef : Z) (currentType : TypeInfo).

(** [GENERICINST 2 CLASS integration CLASS|VALUETYPE type] *)
Definition two_types_signature : T MD (list Z) :=
  integrationType ← compress_token integrationTypeRef;
  '(elementType, currentTypeRef) ← current_type currentType;
  type ← compress_token currentTypeRef;
  signature_n [[IMAGE_CEE_CS_CALLCONV_GENERICINST]; [0x02]; [ELEMENT_TYPE_CLASS]; integrationType; [elementType]; type]
    (4 + length integrationType + length type).

(** *** BeginMethod *)

Definition BeginMethod_array_signature : T MD (list Z) :=
  state ← compress_slot callTargetStateTypeRef;
  signature_n [[IMAGE_CEE_CS_CALLCONV_GENERIC]; [0x02]; [0x02]; [ELEMENT_TYPE_VALUETYPE]; state;
               [ELEMENT_TYPE_MVAR]; [0x01]; [ELEMENT_TYPE_SZARRAY]; [ELEMENT_TYPE_OBJECT]] (8 + length state).

Definition WriteBeginMethodWithArgumentsArray : T MD Z :=
  EnsureBaseCalltargetTokens;;
  ensure_in_place beginArrayMemberRef (define_member callTargetTypeRef "BeginMethod" BeginMethod_array_signature);;
  signature ← two_types_signature;
  method ← token beginArrayMemberRef;
  call_spec this method signature.

(** The signature of BeginMethod with [n] arguments.  Its length counts three bytes for each
    argument also when only two are written. *)
Definition BeginMethod_signature (n : nat) (ignoreByRefInstrumentation : bool) : T MD (list Z) :=
  state ← compress_slot callTargetStateTypeRef;
  let signatureLength :=
    if enable_by_ref_instrumentation then (6 + n * 3 + length state)%nat else (6 + n * 2 + length state)%nat in
  signature_n
    ([[IMAGE_CEE_CS_CALLCONV_GENERIC]; [0x02 + Z.of_nat n]; [0x01 + Z.of_nat n]; [ELEMENT_TYPE_VALUETYPE]; state;
      [ELEMENT_TYPE_MVAR]; [0x01]] ++
     concat ((λ i, (if negb ignoreByRefInstrumentation && enable_by_ref_instrumentation then [[ELEMENT_TYPE_BYREF]] else []) ++
                   [[ELEMENT_TYPE_MVAR]; [0x01 + (Z.of_nat i + 1)]]) <$> seq 0 n)) signatureLength.

Definition BeginMethod_fast (n : nat) (ignoreByRefInstrumentation : bool) : T MD Z :=
  tk ← token (beginMethodFastPathRefs n);
  if decide (ignoreByRefInstrumentation = true ∨ tk = mdMemberRefNil) then
    method ← checked (define_member callTargetTypeRef "BeginMethod" (BeginMethod_signature n ignoreByRefInstrumentation));
    if ignoreByRefInstrumentation then mret method
    else set_token (beginMethodFastPathRefs n) method;; mret method
  else mret tk.

(** The generic argument for an argument of the method. *)
Definition argument_signature (argument : list Z) : T MD (list Z) :=
  '(_, argTypeFlags) ← element_type_and_flags argument;
  isByRefLike ← is_by_ref_like argument;
  if decide (enable_by_ref_instrumentation = true ∧ isByRefLike = true) then
    refStruct ← compress_slot callTargetRefStructTypeRef;
    mret (ELEMENT_TYPE_VALUETYPE :: refStruct)
  else if decide (enable_by_ref_instrumentation = true ∧ Z.land argTypeFlags TypeFlagByRef ≠ 0) then
    b ← lift_option (argument !! 0%nat);
    mret (if decide (b = ELEMENT_TYPE_BYREF) then drop 1 argument else argument)
  else mret argument.

Fixpoint arguments_signatures (methodArguments : list (list Z)) : T MD (list (list Z)) :=
  match methodArguments with
  | [] => mret []
  | a :: rest => s ← argument_signature a; ss ← arguments_signatures rest; mret (s :: ss)
  end.

Definition WriteBeginMethod (methodArguments : list (list Z)) (ignoreByRefInstrumentation : bool) : T MD Z :=
  EnsureBaseCalltargetTokens;;
  let numArguments := length methodArguments in
  if decide (FASTPATH_COUNT ≤ numArguments)%nat then WriteBeginMethodWithArgumentsArray
  else
    beginMethodFastPathRef ← BeginMethod_fast numArguments ignoreByRefInstrumentation;
    integrationType ← compress_token integrationTypeRef;
    '(elementType, currentTypeRef) ← current_type currentType;
    type ← compress_token currentTypeRef;
    arguments ← arguments_signatures methodArguments;
    signature ← signature_checked
      ([[IMAGE_CEE_CS_CALLCONV_GENERICINST]; [0x02 + Z.of_nat numArguments]; [ELEMENT_TYPE_CLASS]; integrationType;
        [elementType]; type] ++ arguments)
      (4 + length integrationType + length type + length (concat arguments));
    call_spec this beginMethodFastPathRef signature.

(** *** EnsureRuntimeAsyncCallbacksSupported *)

Definition EnsureRuntimeAsync_signature (hasReturnValue : bool) : T MD (list Z) :=
  lift_outcome (
    blob ← PushCompressedData (PushRawByte [] IMAGE_CEE_CS_CALLCONV_GENERIC) (if hasReturnValue then 4 else 3);
    blob ← PushCompressedData blob 0;
    mret (PushRawByte blob ELEMENT_TYPE_VOID)).

Definition WriteEnsureRuntimeAsyncCallbacksSupported (returnArgument : option (list Z))
    (declaredRuntimeAsyncReturn : list Z) : T MD Z :=
  EnsureBaseCalltargetTokens;;
  let hasReturnValue := bool_decide (is_Some returnArgument) in
  let memberRef := if hasReturnValue then ensureRuntimeAsyncGenericMemberRef else ensureRuntimeAsyncNonGenericMemberRef in
  ensure_in_place memberRef
    (define_member callTargetTypeRef "EnsureRuntimeAsyncCallbacksSupported" (EnsureRuntimeAsync_signature hasReturnValue));;
  '(elementType, currentTypeRef) ← current_type currentType;
  signature ← lift_outcome (
    blob ← PushCompressedData (PushRawByte [] IMAGE_CEE_CS_CALLCONV_GENERICINST) (if hasReturnValue then 4 else 3);
    blob ← PushToken (PushRawByte blob ELEMENT_TYPE_CLASS) integrationTypeRef;
    blob ← PushToken (PushRawByte blob elementType) currentTypeRef;
    mret (PushRawBytes (PushRawBytes blob (default [] returnArgument)) declaredRuntimeAsyncReturn));
  method ← token memberRef;
  call_spec this method signature.

(** *** EndMethod *)

Definition state_by_ref : list (list Z) := if enable_calltarget_state_by_ref then [[ELEMENT_TYPE_BYREF]] else [].

Definition EndMethod_void_signature (isRuntimeAsync : bool) : T MD (list Z) :=
  ret ← compress_slot callTargetReturnVoidTypeRef;
  ex ← compress_slot exTypeRef;
  state ← compress_slot callTargetStateTypeRef;
  signature_n
    ([[IMAGE_CEE_CS_CALLCONV_GENERIC]; [if isRuntimeAsync then 0x03 else 0x02]; [0x03]; [ELEMENT_TYPE_VALUETYPE]; ret;
      [ELEMENT_TYPE_MVAR]; [0x01]; [ELEMENT_TYPE_CLASS]; ex] ++ state_by_ref ++ [[ELEMENT_TYPE_VALUETYPE]; state])
    (8 + length ret + length ex + length state + (if enable_calltarget_state_by_ref then 1 else 0)).

Definition EndMethod_name (isRuntimeAsync : bool) : string :=
  if isRuntimeAsync then "EndMethodRuntimeAsync" else "EndMethod".

(** [GENERICINST n CLASS integration CLASS|VALUETYPE type], then the types of the results. *)
Definition EndMethod_spec_signature (n : Z) (results : list (list Z)) : T MD (list Z) :=
  integrationType ← compress_token integrationTypeRef;
  '(elementType, currentTypeRef) ← current_type currentType;
  type ← compress_token currentTypeRef;
  let blob := PushRawByte (PushRawByte (PushRawByte [] IMAGE_CEE_CS_CALLCONV_GENERICINST) n) ELEMENT_TYPE_CLASS in
  let blob := PushRawByte (PushRawBytes blob integrationType) elementType in
  mret (foldl PushRawBytes (PushRawBytes blob type) results).

Definition WriteEndVoidReturnMemberRef (declaredRuntimeAsyncReturn : option (list Z)) : T MD Z :=
  EnsureBaseCalltargetTokens;;
  let isRuntimeAsync := bool_decide (is_Some declaredRuntimeAsyncReturn) in
  let slot := if isRuntimeAsync then endVoidRuntimeAsyncMemberRef else endVoidMemberRef in
  ensure_in_place slot
    (define_member callTargetTypeRef (EndMethod_name isRuntimeAsync) (EndMethod_void_signature isRuntimeAsync));;
  signature ← EndMethod_spec_signature (if isRuntimeAsync then 0x03 else 0x02) (option_list declaredRuntimeAsyncReturn);
  method ← token slot;
  call_spec this method signature.

Definition EndMethod_return_signature (isRuntimeAsync : bool) : T MD (list Z) :=
  ret ← compress_slot callTargetReturnTypeRef;
  ex ← compress_slot exTypeRef;
  state ← compress_slot callTargetStateTypeRef;
  signature_n
    ([[IMAGE_CEE_CS_CALLCONV_GENERIC]; [if isRuntimeAsync then 0x04 else 0x03]; [0x04];
      [ELEMENT_TYPE_GENERICINST]; [ELEMENT_TYPE_VALUETYPE]; ret; [0x01]; [ELEMENT_TYPE_MVAR]; [0x02];
      [ELEMENT_TYPE_MVAR]; [0x01]; [ELEMENT_TYPE_MVAR]; [0x02]; [ELEMENT_TYPE_CLASS]; ex] ++ state_by_ref ++
     [[ELEMENT_TYPE_VALUETYPE]; state])
    (14 + length ret + length ex + length state + (if enable_calltarget_state_by_ref then 1 else 0)).

(** The member reference is defined at every call. *)
Definition WriteEndReturnMemberRef (returnArgument : list Z) (declaredRuntimeAsyncReturn : option (list Z)) : T MD Z :=
  EnsureBaseCalltargetTokens;;
  GetTargetReturnValueTypeRef returnArgument;;
  let isRuntimeAsync := bool_decide (is_Some declaredRuntimeAsyncReturn) in
  endMethodMemberRef ← checked
    (define_member callTargetTypeRef (EndMethod_name isRuntimeAsync) (EndMethod_return_signature isRuntimeAsync));
  signature ← EndMethod_spec_signature (if isRuntimeAsync then 0x04 else 0x03)
                (returnArgument :: option_list declaredRuntimeAsyncReturn);
  call_spec this endMethodMemberRef signature.

(** *** LogException *)

Definition LogException_signature : T MD (list Z) :=
  ex ← compress_slot exTypeRef;
  signature_n [[IMAGE_CEE_CS_CALLCONV_GENERIC]; [0x02]; [0x01]; [ELEMENT_TYPE_VOID]; [ELEMENT_TYPE_CLASS]; ex] (5 + length ex).

Definition WriteLogException : T MD Z :=
  EnsureBaseCalltargetTokens;;
  ensure_in_place logExceptionRef (define_member callTargetTypeRef "LogException" LogException_signature);;
  signature ← two_types_signature;
  method ← token logExceptionRef;
  call_spec this method signature.
End Operations.

(** *** CreateRefStruct *)

Definition WriteRefStructCall (this : ILRewriterWrapper) (refStructTypeRef refStructIndex : Z) : T MD unit :=
  EnsureBaseCalltargetTokens;;
  createRefStruct ← token createRefStructMemberRef;
  if decide (createRefStruct = mdMemberRefNil) then throw E_FAIL
  else
    on_il (CreateInstr this CEE_CONV_U);;
    on_il (LoadToken this refStructTypeRef);;
    on_il (CallMember this createRefStruct false);;
    on_il (StLocal this refStructIndex);;
    on_il (LoadLocalAddress this refStructIndex);;
    mret tt.
End TracerTokens.
