(* ===== verification/MethodRewriter.v ===== *)
(** * Rewriting a method (tracer_method_rewriter.cpp)

    [Rewrite] surrounds the body of a method by calls into the managed profiler: BeginMethod
    before it, EndMethod in a finally handler behind it, LogException where one of these fails.
    With it the parts of runtime_async.cpp, cor_profiler.cpp and metadata_builder.cpp it uses. *)

From stdpp Require Import pretty.
From S2P Require Import Prelude ILOpcodes ILList ILImport ILExport ILRewriterWrapper CorSig Signature.
From S2P Require Import CallTargetTokens TracerTokens.

(** ** Data *)

Definition S_FALSE : HRESULT := HR 1.

(** [FunctionMethodSignature], with the bytes of its parts. *)
Record FunctionSignature := {
  CallingConvention : Z;
  NumberOfArguments : Z;
  GetReturnValue : list Z;
  GetMethodArguments : list (list Z);
}.

Record FunctionInfo := {
  FunctionInfo_id : Z;
  FunctionInfo_type : TypeInfo;
  FunctionInfo_signature : FunctionSignature;
  method_impl_flags : Z;
}.

Record TypeReference := {
  TypeReference_assembly : AssemblyReference;
  TypeReference_name : string;
  min_version : Z * Z * Z * Z;
  max_version : Z * Z * Z * Z;
}.

(** [Version::str] and [TypeReference::get_cache_key] *)
Definition Version_str (v : Z * Z * Z * Z) : string :=
  let '(major, minor, build, revision) := v in
  pretty major +:+ "." +:+ pretty minor +:+ "." +:+ pretty build +:+ "." +:+ pretty revision.
Definition get_cache_key (t : TypeReference) : string :=
  "[" +:+ AssemblyReference_name (TypeReference_assembly t) +:+ "]" +:+ TypeReference_name t +:+ "_vMin_" +:+
  Version_str (min_version t) +:+ "_vMax_" +:+ Version_str (max_version t).

(** [IntegrationDefinition], the members that the rewriting reads. *)
Record IntegrationDefinition := {
  target_assembly_name : string;
  integration_type : TypeReference;
}.

(** The members of CorProfiler that the rewriting reads. *)
Record CorProfiler := {
  call_target_bubble_up_exception_available : bool;
  call_target_bubble_up_exception_function_available : bool;
  call_target_runtime_async_methods_available : bool;
  managed_profiler_loaded_domain_neutral : bool;
  managed_profiler_loaded_app_domains : list Z;
  bytecode_instrumentation_assembly : AssemblyReference;
}.

(** [ModuleMetadata], the members that the rewriting reads; [module_valid] is the validity of
    [GetModuleInfo] for the module. *)
Record ModuleMetadata := {
  app_domain_id : Z;
  assemblyName : string;
  corAssemblyProperty : assembly_ref;
  module_valid : bool;
}.

Definition tracemethodintegration_assemblyname : string := "#TraceMethodFeature".
Definition miAsync : Z := 0x2000.
Definition IsMiAsync (methodImplFlags : Z) : bool := bool_decide (Z.land methodImplFlags miAsync ≠ 0).
Definition COR_ILEXCEPTION_CLAUSE_NONE : Z := 0.
Definition COR_ILEXCEPTION_CLAUSE_FINALLY : Z := 2.

(** ** The effective result of a runtime-async method (runtime_async.cpp) *)

Definition IsTaskLike (name : string) (isGenericInst isValueTypeShape : bool) : bool :=
  bool_decide (name = match isGenericInst, isValueTypeShape with
    | true, true => "System.Threading.Tasks.ValueTask`1"
    | true, false => "System.Threading.Tasks.Task`1"
    | false, true => "System.Threading.Tasks.ValueTask"
    | false, false => "System.Threading.Tasks.Task"
    end).

(** The open type, whether the declared type is an instance, whether it is a value type, and the
    bytes of the argument.  [Err tt] is [false]. *)
Definition ParseTaskLikeReturnShape (declared : list Z) : stM nat unit (Z * bool * bool * list Z) :=
  let pbEnd := length declared in
  elementType ← ParseByte declared pbEnd;
  if decide (elementType = ELEMENT_TYPE_GENERICINST) then
    genericElementType ← ParseByte declared pbEnd;
    if decide (genericElementType ≠ ELEMENT_TYPE_CLASS ∧ genericElementType ≠ ELEMENT_TYPE_VALUETYPE) then throw tt
    else
      '(tokenType, tokenIndex) ← ParseTypeDefOrRefEncoded declared pbEnd;
      genericArgumentCount ← ParseNumber declared pbEnd;
      if decide (genericArgumentCount ≠ 1) then throw tt
      else
        typeArgStart ← get;
        ParseType declared pbEnd (S pbEnd);;
        current ← get;
        if decide (current ≠ pbEnd) then throw tt
        else mret (TokenFromRid tokenIndex (CorSigDecodeTokenType tokenType), true,
                   bool_decide (genericElementType = ELEMENT_TYPE_VALUETYPE),
                   slice typeArgStart (current - typeArgStart) declared)
  else if decide (elementType = ELEMENT_TYPE_CLASS ∨ elementType = ELEMENT_TYPE_VALUETYPE) then
    '(tokenType, tokenIndex) ← ParseTypeDefOrRefEncoded declared pbEnd;
    current ← get;
    if decide (current ≠ pbEnd) then throw tt
    else mret (TokenFromRid tokenIndex (CorSigDecodeTokenType tokenType), false,
               bool_decide (elementType = ELEMENT_TYPE_VALUETYPE), [])
  else throw tt.

Definition kVoidReturnSignature : list Z := [ELEMENT_TYPE_VOID].

(** The instructions of the rewriting whose addresses the clauses need. *)
Record callback_catch := { cc_filter : Z; cc_first : Z; cc_leave : Z }.

Section Rewriting.
Context {MD : Type} `{!Metadata MD}.
Context (signature_uninit : list Z).
Context (m_corProfiler : CorProfiler) (module_metadata : ModuleMetadata).

(** [None] is [false]. *)
Definition TryGetRuntimeAsyncEffectiveReturnType (declared : list Z) : T MD (option (list Z)) :=
  match fst (ParseTaskLikeReturnShape declared 0%nat) with
  | Ret (openTypeToken, isGenericInst, isValueTypeShape, typeArg) =>
      s ← get;
      mret (match GetTypeInfo openTypeToken (c_md s) with
            | Some name =>
                if IsTaskLike name isGenericInst isValueTypeShape
                then Some (if isGenericInst then typeArg else kVoidReturnSignature) else None
            | None => None
            end)
  | Err _ => mret None
  | Stuck => stuck
  | Fuel => out_of_fuel
  end.

(** ** The reference to the integration type (cor_profiler.cpp, metadata_builder.cpp) *)

Definition reference_of (a : AssemblyReference) : assembly_ref := profiler_assembly_ref a.

(** A failure is logged only. *)
Definition EmitAssemblyRef (a : AssemblyReference) : T MD unit := on_md (DefineAssemblyRef (reference_of a));; mret tt.

Definition FindAssemblyRef (assembly_name : string) (version : Z * Z * Z * Z) : T MD Z :=
  s ← get;
  mret (default mdAssemblyRefNil (list_find (λ r,
          GetReferencedAssemblyMetadata r (c_md s) = (assembly_name, version)) (EnumAssemblyRefs (c_md s)) ≫= λ '(_, r), Some r)).

Definition TryGetIntegrationTypeRef (key : string) : T MD (option Z) := s ← get; mret (c_integration_types s !! key).
Definition SetIntegrationTypeRef (key : string) (tk : Z) : T MD unit :=
  modify (λ s, Build_context (c_il s) (c_tokens s) (<[key := tk]> (c_integration_types s)) (c_md s)).

Definition RECORD_NOT_FOUND : Z := 0x80131130 - 2 ^ 32.

Definition FindIntegrationTypeRef (module : Z) (t : TypeReference) : T MD Z :=
  known ← TryGetIntegrationTypeRef (get_cache_key t);
  match known with
  | Some tk => mret tk
  | None =>
      let a := TypeReference_assembly t in
      type_ref ←
        (if decide (assemblyName module_metadata = AssemblyReference_name a) then
           checked (on_md (DefineTypeRefByName module (TypeReference_name t)))
         else
           assembly_ref ← FindAssemblyRef (AssemblyReference_name a) (AssemblyReference_version a);
           if decide (assembly_ref = mdAssemblyRefNil) then throw E_FAIL
           else
             '(hr, found) ← on_md (FindTypeRef assembly_ref (TypeReference_name t));
             if decide (hr = RECORD_NOT_FOUND) then checked (on_md (DefineTypeRefByName assembly_ref (TypeReference_name t)))
             else if decide (hr < 0) then throw (HR hr) else mret found);
      SetIntegrationTypeRef (get_cache_key t) type_ref;;
      mret type_ref
  end.

(** [Err] is [false]. *)
Definition GetIntegrationTypeRef (integration_definition : IntegrationDefinition) : T MD Z :=
  let t := integration_type integration_definition in
  known ← TryGetIntegrationTypeRef (get_cache_key t);
  match known with
  | Some tk => mret tk
  | None =>
      if negb (module_valid module_metadata) then throw S_FALSE
      else
        module ← checked (on_md GetModuleFromScope);
        EmitAssemblyRef (TypeReference_assembly t);;
        FindIntegrationTypeRef module t
  end.

Definition ProfilerAssemblyIsLoadedIntoAppDomain (app_domain : Z) : bool :=
  managed_profiler_loaded_domain_neutral m_corProfiler ||
  bool_decide (app_domain ∈ managed_profiler_loaded_app_domains m_corProfiler).

(** ** The pieces of the new body *)

Abbreviation tokens_args f :=
  (f signature_uninit (corAssemblyProperty module_metadata) (bytecode_instrumentation_assembly m_corProfiler)
     (call_target_bubble_up_exception_available m_corProfiler)
     (call_target_bubble_up_exception_function_available m_corProfiler)).

Section Pieces.
Context (this : ILRewriterWrapper) (caller : FunctionInfo) (isStatic : bool).

(** The instance on the stack, null where there is none; its first instruction. *)
Definition load_instance : T MD Z :=
  let type := FunctionInfo_type caller in
  if isStatic then
    if TypeInfo_valueType type then throw S_FALSE else on_il (LoadNull this)
  else
    '(callerTypeToken, _) ← GetCurrentTypeRef type;
    if decide (callerTypeToken = mdTokenNil) then on_il (LoadNull this)
    else
      first ← on_il (LoadArgument this 0);
      (if TypeInfo_valueType type then
         if decide (TypeInfo_type_spec type ≠ mdTypeSpecNil) then on_il (LoadObj this (TypeInfo_type_spec type));; mret tt
         else if negb (TypeInfo_isGeneric type) then on_il (LoadObj this (TypeInfo_id type));; mret tt
         else throw S_FALSE
       else mret tt);;
      mret first.

Definition argument_index (i : Z) : Z := i + (if isStatic then 0 else 1).

(** One argument of the fast path; the result counts the by-ref-like ones. *)
Definition load_argument_fast (methodArguments : list (list Z)) (refStructIndexes : list Z) (i : nat)
    (structRefCount : nat) : T MD nat :=
  argument ← lift_option (methodArguments !! i);
  '(_, argTypeFlags) ← element_type_and_flags argument;
  if enable_by_ref_instrumentation then
    (if decide (Z.land argTypeFlags TypeFlagByRef ≠ 0) then on_il (LoadArgument this (argument_index (Z.of_nat i)))
     else on_il (LoadArgumentRef this (argument_index (Z.of_nat i))));;
    isByRefLike ← is_by_ref_like argument;
    if (isByRefLike : bool) then
      corLib ← token corLibAssemblyRef;
      argumentToken ← GetTypeTok argument corLib;
      index ← lift_option (refStructIndexes !! structRefCount);
      tokens_args WriteRefStructCall this argumentToken index;;
      mret (S structRefCount)
    else mret structRefCount
  else
    on_il (LoadArgument this (argument_index (Z.of_nat i)));;
    if decide (Z.land argTypeFlags TypeFlagByRef ≠ 0) then throw S_FALSE else mret structRefCount.

Fixpoint load_arguments_fast (methodArguments : list (list Z)) (refStructIndexes : list Z) (indices : list nat)
    (structRefCount : nat) : T MD unit :=
  match indices with
  | [] => mret tt
  | i :: indices =>
      structRefCount ← load_argument_fast methodArguments refStructIndexes i structRefCount;
      load_arguments_fast methodArguments refStructIndexes indices structRefCount
  end.

(** One argument of the slow path, stored into the array. *)
Definition load_argument_slow (methodArguments : list (list Z)) (i : nat) : T MD unit :=
  on_il (BeginLoadValueIntoArray this (Z.of_nat i));;
  on_il (LoadArgument this (argument_index (Z.of_nat i)));;
  argument ← lift_option (methodArguments !! i);
  '(_, argTypeFlags) ← element_type_and_flags argument;
  if decide (Z.land argTypeFlags TypeFlagByRef ≠ 0 ∨ Z.land argTypeFlags TypeFlagPinnedType ≠ 0) then throw S_FALSE
  else
    (if decide (Z.land argTypeFlags TypeFlagBoxedType ≠ 0) then
       corLib ← token corLibAssemblyRef;
       tok ← GetTypeTok argument corLib;
       if decide (tok = mdTokenNil) then throw S_FALSE else on_il (Box this tok);; mret tt
     else mret tt);;
    on_il (EndLoadValueIntoArray this);; mret tt.

Fixpoint load_arguments_slow (methodArguments : list (list Z)) (indices : list nat) : T MD unit :=
  match indices with
  | [] => mret tt
  | i :: indices => load_argument_slow methodArguments i;; load_arguments_slow methodArguments indices
  end.

Definition load_arguments (methodArguments : list (list Z)) (numArgs : Z) (refStructIndexes : list Z) : T MD unit :=
  let indices := seq 0 (Z.to_nat numArgs) in
  if decide (numArgs < Z.of_nat FASTPATH_COUNT) then load_arguments_fast methodArguments refStructIndexes indices 0
  else
    objectRef ← token objectTypeRef;
    on_il (CreateArray this objectRef numArgs);;
    load_arguments_slow methodArguments indices.

(** The handles of the method and of its type, instead of the arguments; the types of both. *)
Definition load_handles : T MD (list (list Z)) :=
  on_il (LoadToken this (FunctionInfo_id caller));;
  methodHandle ← compress_slot runtimeMethodHandleRef;
  on_il (LoadToken this (TypeInfo_id (FunctionInfo_type caller)));;
  typeHandle ← compress_slot runtimeTypeHandleRef;
  mret [ELEMENT_TYPE_VALUETYPE :: methodHandle; ELEMENT_TYPE_VALUETYPE :: typeHandle].

(** The address of the first instruction of the filter. *)
Definition CreateFilterForException (exceptionTypeRef bubbleUpExceptionTypeRef containsCallTargetBubbleUpException
    exceptionValueIndex : Z) : T MD Z :=
  filter ← on_il (CreateInstr this CEE_ISINST);
  on_il (write_instr filter (set_Arg32 exceptionTypeRef));;
  on_il (CreateInstr this CEE_DUP);;
  isException ← on_il (CreateInstr this CEE_BRTRUE_S);
  on_il (CreateInstr this CEE_POP);;
  on_il (LoadInt32 this 0);;
  endNotException ← on_il (CreateInstr this CEE_BR_S);
  storeException ← on_il (StLocal this exceptionValueIndex);
  on_il (write_instr isException (set_pTarget storeException));;
  on_il (LoadLocal this exceptionValueIndex);;
  (if decide (call_target_bubble_up_exception_function_available m_corProfiler = true ∧
              containsCallTargetBubbleUpException ≠ mdMemberRefNil) then
     on_il (CallMember this containsCallTargetBubbleUpException false)
   else
     testBubbleUp ← on_il (CreateInstr this CEE_ISINST);
     on_il (write_instr testBubbleUp (set_Arg32 bubbleUpExceptionTypeRef));;
     on_il (LoadNull this);;
     on_il (CreateInstr this CEE_CGT_UN));;
  on_il (LoadInt32 this 0);;
  on_il (CreateInstr this CEE_CEQ);;
  on_il (LoadInt32 this 0);;
  on_il (CreateInstr this CEE_CGT_UN);;
  endFilter ← on_il (CreateInstr this CEE_ENDFILTER);
  on_il (write_instr endNotException (set_pTarget endFilter));;
  mret filter.

(** The filter, if there is one, and the handler of a failed call; [bubbleup] is the type of the
    bubble-up exception when the first of the two was written.  The result of WriteLogException is
    ignored. *)
Definition write_catch (bubbleup integrationTypeRef methodExceptionIndex : Z) : T MD callback_catch :=
  '(filter, first) ←
    (if decide (call_target_bubble_up_exception_available m_corProfiler = true ∧ bubbleup ≠ mdTypeRefNil) then
       ex ← token exTypeRef;
       bubbleUpType ← token bubbleUpExceptionTypeRef;
       fn ← token bubbleUpExceptionFunctionRef;
       filter ← CreateFilterForException ex bubbleUpType fn methodExceptionIndex;
       first ← on_il (Pop this);
       on_il (LoadLocal this methodExceptionIndex);;
       mret (filter, first)
     else mret (nullptr, nullptr));
  logged ← attempt (tokens_args WriteLogException this integrationTypeRef (FunctionInfo_type caller));
  leave ← on_il (CreateInstr this CEE_LEAVE_S);
  mret {| cc_filter := filter;
          cc_first := if decide (first = nullptr) then match logged with inr call => call | inl _ => nullptr end else first;
          cc_leave := leave |}.
End Pieces.

(** [EHClause c{}] with the members set; the token occupies the low half of the union. *)
Definition callback_clause (tryBegin : Z) (c : callback_catch) (exceptionTypeRef : Z) : EHClause :=
  if decide (cc_filter c ≠ nullptr) then
    {| m_Flags := COR_ILEXCEPTION_CLAUSE_FILTER; m_pTryBegin := tryBegin; m_pTryEnd := cc_filter c;
       m_pHandlerBegin := cc_first c; m_pHandlerEnd := cc_leave c; m_Class := cc_filter c |}
  else
    {| m_Flags := COR_ILEXCEPTION_CLAUSE_NONE; m_pTryBegin := tryBegin; m_pTryEnd := cc_first c;
       m_pHandlerBegin := cc_first c; m_pHandlerEnd := cc_leave c; m_Class := u32 exceptionTypeRef |}.

(** ** Returns become leaves *)

Definition replace_return (methodReturnInstr endFinallyInstr returnValueIndex : Z) (isVoid : bool)
    (pInstr : Z) (_ : unit) : stM ILRewriter HRESULT unit :=
  i ← read_instr pInstr;
  if decide (m_opcode i = CEE_RET ∧ pInstr ≠ methodReturnInstr) then
    if isVoid then
      write_instr pInstr (set_opcode CEE_LEAVE_S);;
      endFinally ← read_instr endFinallyInstr;
      write_instr pInstr (set_pTarget (m_pNext endFinally))
    else
      write_instr pInstr (set_opcode CEE_STLOC);;
      write_instr pInstr (set_Arg16 (s16 returnValueIndex));;
      i ← read_instr pInstr;
      if decide (m_Arg16 i < 0) then throw S_FALSE
      else
        leaveInstr ← NewILInstr;
        write_instr leaveInstr (set_opcode CEE_LEAVE_S);;
        endFinally ← read_instr endFinallyInstr;
        write_instr leaveInstr (set_pTarget (m_pNext endFinally));;
        InsertAfter pInstr leaveInstr
  else mret tt.

(** The loop visits the instructions it inserts too, at most one for each that was there. *)
Definition replace_returns (methodReturnInstr endFinallyInstr returnValueIndex : Z) (isVoid : bool) :
    stM ILRewriter HRESULT unit :=
  head ← read_instr m_IL;
  r ← get;
  il_for (2 * size (il_store r)) (m_pNext head) tt
    (replace_return methodReturnInstr endFinallyInstr returnValueIndex isVoid).

(** The clauses of the method and four more. *)
Definition add_clauses (added : list EHClause) : stM ILRewriter HRESULT unit :=
  r ← get;
  old ← lift_option (let old := default [] (m_pEH r) in
          if decide (m_nEH r ≤ Z.of_nat (length old)) then Some (take (Z.to_nat (m_nEH r)) old) else None);
  SetEHClause (Some (old ++ added)) (u32 (m_nEH r + Z.of_nat (length added))).

(** ** [Rewrite] *)

(** [if (FAILED(hr)) return S_FALSE;] *)
Definition or_skip {A} (m : T MD A) : T MD A :=
  r ← attempt m;
  match r with inl _ => throw S_FALSE | inr a => mret a end.

(** The effective result of the method: that of a runtime-async method is unwrapped. *)
Definition effective_return (isRuntimeAsync : bool) (declared : list Z) : T MD (list Z) :=
  if isRuntimeAsync then
    if negb (call_target_runtime_async_methods_available m_corProfiler) then throw S_FALSE
    else
      effective ← TryGetRuntimeAsyncEffectiveReturnType declared;
      match effective with Some effective => mret effective | None => throw S_FALSE end
  else mret declared.

(** What the guards before the rewriting compute: the type reference of the integration, the
    effective result, whether the method returns nothing, is static, is runtime-async, and whether
    it is the target of an integration rather than a traced method. *)
Record rewrite_inputs := {
  integration_type_ref : Z;
  retFuncArg : list Z;
  isVoid : bool;
  isStatic : bool;
  isRuntimeAsync : bool;
  is_integration_method : bool;
}.

Definition rewrite_guards (caller : FunctionInfo) (definition : IntegrationDefinition) : T MD rewrite_inputs :=
  let signature := FunctionInfo_signature caller in
  let isRuntimeAsync := IsMiAsync (method_impl_flags caller) in
  retFuncArg ← effective_return isRuntimeAsync (GetReturnValue signature);
  '(_, retTypeFlags) ← element_type_and_flags retFuncArg;
  let isStatic := bool_decide (Z.land (CallingConvention signature) IMAGE_CEE_CS_CALLCONV_HASTHIS = 0) in
  if isRuntimeAsync && negb isStatic && TypeInfo_valueType (FunctionInfo_type caller) then throw S_FALSE
  else
    integration_type_ref ← or_skip (GetIntegrationTypeRef definition);
    if negb (ProfilerAssemblyIsLoadedIntoAppDomain (app_domain_id module_metadata)) then throw S_FALSE
    else mret {|
      integration_type_ref := integration_type_ref;
      retFuncArg := retFuncArg;
      isVoid := bool_decide (0 < Z.land retTypeFlags TypeFlagVoid);
      isStatic := isStatic;
      isRuntimeAsync := isRuntimeAsync;
      is_integration_method := bool_decide (target_assembly_name definition ≠ tracemethodintegration_assemblyname);
    |}.

Section Body.
Context (caller : FunctionInfo) (inputs : rewrite_inputs).

(** The type that the end callback is told, if it differs from the effective one. *)
Definition declaredRuntimeAsyncReturn : option (list Z) :=
  if isRuntimeAsync inputs then Some (GetReturnValue (FunctionInfo_signature caller)) else None.

(** The call of BeginMethod with its catch; the address of the leave behind the call, the type of
    the bubble-up exception. *)
Definition write_begin (this : ILRewriterWrapper) (locals : LocalsInfo) : T MD (Z * Z * callback_catch) :=
  beginMethodExceptionIndex ← lift_option (additionalLocalIndices locals !! 0%nat);
  let refStructIndexes := drop 2 (additionalLocalIndices locals) in
  let signature := FunctionInfo_signature caller in
  (if isRuntimeAsync inputs then
     or_skip (tokens_args WriteEnsureRuntimeAsyncCallbacksSupported this (integration_type_ref inputs)
       (FunctionInfo_type caller) (if isVoid inputs then None else Some (retFuncArg inputs)) (GetReturnValue signature));;
     mret tt
   else mret tt);;
  load_instance this caller (isStatic inputs);;
  methodArguments ←
    (if is_integration_method inputs then
       load_arguments this (isStatic inputs) (GetMethodArguments signature) (NumberOfArguments signature) refStructIndexes;;
       mret (GetMethodArguments signature)
     else load_handles this caller);
  or_skip (tokens_args WriteBeginMethod this (integration_type_ref inputs) (FunctionInfo_type caller) methodArguments
             (negb (is_integration_method inputs)));;
  on_il (StLocal this (callTargetStateIndex locals));;
  leave ← on_il (CreateInstr this CEE_LEAVE_S);
  bubbleup ← token bubbleUpExceptionTypeRef;
  catch_ ← write_catch this caller bubbleup (integration_type_ref inputs) beginMethodExceptionIndex;
  mret (leave, bubbleup, catch_).

(** The return at the end of the method. *)
Definition write_return : stM ILRewriter HRESULT Z :=
  methodReturnInstr ← NewILInstr;
  write_instr methodReturnInstr (set_opcode CEE_RET);;
  il ← read_instr m_IL;
  InsertAfter (m_pPrev il) methodReturnInstr;;
  mret methodReturnInstr.

(** The call of EndMethod with its catch; the addresses of the first instruction and of the
    leave. *)
Definition write_end (this : ILRewriterWrapper) (locals : LocalsInfo) (bubbleup : Z) : T MD (Z * Z * callback_catch) :=
  endMethodTryStartInstr ← load_instance this caller (isStatic inputs);
  (if negb (isVoid inputs) then on_il (LoadLocal this (returnValueIndex locals));; mret tt else mret tt);;
  on_il (LoadLocal this (exceptionIndex locals));;
  (if enable_calltarget_state_by_ref then on_il (LoadLocalAddress this (callTargetStateIndex locals))
   else on_il (LoadLocal this (callTargetStateIndex locals)));;
  or_skip (if isVoid inputs then
      tokens_args WriteEndVoidReturnMemberRef this (integration_type_ref inputs) (FunctionInfo_type caller)
        declaredRuntimeAsyncReturn
    else
      tokens_args WriteEndReturnMemberRef this (integration_type_ref inputs) (FunctionInfo_type caller)
        (retFuncArg inputs) declaredRuntimeAsyncReturn);;
  on_il (StLocal this (callTargetReturnIndex locals));;
  (if negb (isVoid inputs) then
     on_il (LoadLocalAddress this (callTargetReturnIndex locals));;
     tokens_args WriteCallTargetReturnGetReturnValue this (callTargetReturnToken locals);;
     on_il (StLocal this (returnValueIndex locals));; mret tt
   else mret tt);;
  endMethodExceptionIndex ← lift_option (additionalLocalIndices locals !! 1%nat);
  leave ← on_il (CreateInstr this CEE_LEAVE_S);
  catch_ ← write_catch this caller bubbleup (integration_type_ref inputs) endMethodExceptionIndex;
  mret (endMethodTryStartInstr, leave, catch_).

Definition set_target (p target : Z) : T MD unit := on_il (write_instr p (set_pTarget target)).

(** The imported method, rewritten; the result is what is to be exported. *)
Definition rewrite_body : T MD unit :=
  let arguments := GetMethodArguments (FunctionInfo_signature caller) in
  il ← on_il (read_instr m_IL);
  let this := SetILPosition (m_pNext il) ILRewriterWrapper_new in
  additionalLocalsCount ← GetAdditionalLocalsCount arguments;
  '(locals, firstInstruction) ← or_skip (tokens_args ModifyLocalSigAndInitialize this (retFuncArg inputs) arguments
                                          (Z.to_nat additionalLocalsCount));
  '(beginLeave, bubbleup, beginCatch) ← write_begin this locals;
  exToken ← token exTypeRef;
  let beginMethodExClause := callback_clause firstInstruction beginCatch exToken in
  let beginOriginalMethodInstr := GetCurrentILInstr this in
  set_target beginLeave beginOriginalMethodInstr;;
  set_target (cc_leave beginCatch) beginOriginalMethodInstr;;
  methodReturnInstr ← on_il write_return;
  let this := SetILPosition methodReturnInstr this in
  startExceptionCatch ← on_il (StLocal this (exceptionIndex locals));
  rethrowInstr ← on_il (Rethrow this);
  '(endMethodTryStartInstr, endLeave, endCatch) ← write_end this locals bubbleup;
  exToken ← token exTypeRef;
  let endMethodExClause := callback_clause endMethodTryStartInstr endCatch exToken in
  endFinallyInstr ← on_il (EndFinally this);
  set_target endLeave endFinallyInstr;;
  set_target (cc_leave endCatch) endFinallyInstr;;
  (if negb (isVoid inputs) then on_il (LoadLocal this (returnValueIndex locals));; mret tt else mret tt);;
  on_il (replace_returns methodReturnInstr endFinallyInstr (returnValueIndex locals) (isVoid inputs));;
  exToken ← token exTypeRef;
  rethrow ← on_il (read_instr rethrowInstr);
  let exClause := {| m_Flags := COR_ILEXCEPTION_CLAUSE_NONE; m_pTryBegin := firstInstruction;
    m_pTryEnd := startExceptionCatch; m_pHandlerBegin := startExceptionCatch; m_pHandlerEnd := rethrowInstr;
    m_Class := u32 exToken |} in
  let finallyClause := {| m_Flags := COR_ILEXCEPTION_CLAUSE_FINALLY; m_pTryBegin := firstInstruction;
    m_pTryEnd := m_pNext rethrow; m_pHandlerBegin := m_pNext rethrow; m_pHandlerEnd := endFinallyInstr;
    m_Class := nullptr |} in
  on_il (add_clauses [beginMethodExClause; endMethodExClause; exClause; finallyClause]).
End Body.

(** [GetILFunctionBody] gives its HRESULT and the body; the rewriter is a local of the function,
    [tkUninit] its uninitialised member.  [Ret] is S_OK. *)
Definition Rewrite (nothrow_new : Z → bool) (EHClause_uninit : EHClause) (env : clr_env) (tkUninit : Z)
    (ILFunctionBody : Z * COR_ILMETHOD_DECODER) (caller : FunctionInfo)
    (integration_definition : option IntegrationDefinition) : T MD unit :=
  match integration_definition with
  | None => throw S_FALSE
  | Some definition =>
      inputs ← rewrite_guards caller definition;
      modify (λ s, Build_context (ILRewriter_new true tkUninit) (c_tokens s) (c_integration_types s) (c_md s));;
      (if decide (ILFunctionBody.1 < 0) then throw S_FALSE
       else or_skip (on_il (Import nothrow_new EHClause_uninit ILFunctionBody.2)));;
      rewrite_body caller inputs;;
      or_skip (on_il (Export env))
  end.
End Rewriting.
