(* ===== verification/Emission.v ===== *)
(** * Emitting runs of instructions

    The content of a rewriter as a list of addresses and instructions, and what sequences of the
    wrapper's operations do to it: the new instructions stand before the cursor, in the order of
    the operations, at consecutive addresses. *)

From S2P Require Import Prelude ILOpcodes ILList ILEncoding ILImport ILExport ILRewriterWrapper.

(** ** The content of a rewriter *)

Abbreviation prog := (list (Z * (Z * Z))).

Record program (r : ILRewriter) (P : prog) : Prop := {
  pr_list : il_list r P.*1;
  pr_items : Forall (λ x, item r x.1 x.2) P;
}.

(** [number f code]: the instructions at the addresses [f], [f + 1], ... *)
Definition number (f : Z) (code : list (Z * Z)) : prog := imap (λ k it, (f + Z.of_nat k, it)) code.

(** Where a cursor before [B] stands. *)
Definition first_of (B : prog) : Z := default m_IL (head B.*1).

Lemma number_app f c1 c2 : number f (c1 ++ c2) = number f c1 ++ number (f + Z.of_nat (length c1)) c2.
Proof.
  unfold number. rewrite imap_app. f_equal. apply imap_ext. intros k it _. f_equal. lia.
Qed.

Lemma number_fst f c : (number f c).*1 = (λ k, f + Z.of_nat k) <$> seq 0 (length c).
Proof.
  unfold number. apply list_eq. intros k. rewrite !list_lookup_fmap, list_lookup_imap.
  destruct (c !! k) as [it|] eqn:E; simpl.
  - apply lookup_lt_Some in E. by rewrite lookup_seq_lt by done.
  - apply lookup_ge_None in E. by rewrite lookup_seq_ge by done.
Qed.

Lemma number_lookup f c k it : c !! k = Some it → number f c !! k = Some (f + Z.of_nat k, it).
Proof. intros H. unfold number. by rewrite list_lookup_imap, H. Qed.

Lemma length_number f c : length (number f c) = length c.
Proof. apply length_imap. Qed.

Lemma number_insert f c k it : number f (<[k := it]> c) = <[k := (f + Z.of_nat k, it)]> (number f c).
Proof.
  apply list_eq. intros j. unfold number. rewrite list_lookup_imap. destruct (decide (j = k)) as [->|Hjk].
  - destruct (decide (k < length c)%nat).
    + rewrite !list_lookup_insert_eq by (rewrite ?length_imap; done). done.
    + rewrite !list_insert_ge by (rewrite ?length_imap; lia). by rewrite list_lookup_imap.
  - rewrite !list_lookup_insert_ne by done. by rewrite list_lookup_imap.
Qed.

Lemma program_fresh r P f n : program r P → f = il_fresh r → f + n ∉ P.*1 ∨ n < 0.
Proof.
  intros [Hl _] ->. destruct (decide (n < 0)); [by right|left]. intros Hin.
  assert (is_Some (il_store r !! (il_fresh r + n))) as [i Hi] by (eapply il_list_store; [done|by right]).
  destruct Hl as (_ & _ & Hd). assert (il_fresh r + n ∈ dom (il_store r)) as Hdom by (apply elem_of_dom; eauto).
  apply Hd in Hdom. lia.
Qed.

(** Writing to an instruction of the program. *)
Lemma program_write r P k p f op arg op' arg' :
  program r P → P !! k = Some (p, (op, arg)) → keeps_links f →
  (∀ i, m_opcode i = op → m_Arg i = arg → data_of (f i) = (op', m_offset i, arg')) →
  ∃ r', write_instr p f r = (Ret tt, r') ∧ program r' (<[k := (p, (op', arg'))]> P) ∧
        il_fresh r' = il_fresh r ∧ frame r' = frame r ∧ m_nInstrs r' = m_nInstrs r.
Proof.
  intros [Hl Hit] Hk Hf Hdata.
  destruct (Forall_lookup_1 _ _ _ _ Hit Hk) as [off Hd]. destruct (data_Some _ _ _ Hd) as (i & Hi & [= Ho Hoff Ha]).
  eexists. split; [by apply write_instr_run|]. split; [|done]. split.
  - rewrite list_fmap_insert. cbn [fst]. rewrite list_insert_id by (by rewrite list_lookup_fmap, Hk).
    by eapply il_list_write.
  - apply Forall_lookup. intros j x Hj. destruct (decide (j = k)) as [->|Hne].
    + rewrite list_lookup_insert_eq in Hj by (by eapply lookup_lt_Some). injection Hj as <-.
      exists (m_offset i). rewrite (data_write r p f i) by done. rewrite decide_True by done. by rewrite Hdata.
    + rewrite list_lookup_insert_ne in Hj by done. destruct (Forall_lookup_1 _ _ _ _ Hit Hj) as [o Ho'].
      exists o. rewrite (data_write r p f i) by done. rewrite decide_False; [done|]. intros Hx.
      apply Hne. destruct Hl as (Hnd & _). apply NoDup_cons in Hnd as [_ Hnd].
      eapply (NoDup_lookup _ _ _ p Hnd); [rewrite list_lookup_fmap, Hj; simpl; by rewrite Hx|].
      by rewrite list_lookup_fmap, Hk.
Qed.

(** A new instruction of the program. *)
Lemma program_inserted r r' A B w it :
  program r (A ++ B) → inserted r r' A.*1 B.*1 w it.1 it.2 → program r' (A ++ (w, it) :: B).
Proof.
  intros [Hl Hit] [_ _ Hl' Hnew Hold _ _ _]. split.
  - by rewrite fmap_app, fmap_cons.
  - apply Forall_app in Hit as [HA HB].
    assert (Hkeep : ∀ x, x ∈ A ++ B → item r x.1 x.2 → item r' x.1 x.2).
    { intros x Hx [off Hd]. exists off. rewrite Hold; [done|]. rewrite <-fmap_app. by apply list_elem_of_fmap_2. }
    apply Forall_app. split; [|constructor; [by exists 0; destruct it|]].
    + apply Forall_forall. intros x Hx. apply Hkeep; [set_solver|]. by apply (proj1 (Forall_forall _ _) HA).
    + apply Forall_forall. intros x Hx. apply Hkeep; [set_solver|]. by apply (proj1 (Forall_forall _ _) HB).
Qed.

(** ** Single operations *)

(** [m] links the instruction [it] in before the instruction at [pos]. *)
Definition emission (pos : Z) (m : M Z) (it : Z * Z) : Prop := ∀ r l1 l2,
  il_list r (l1 ++ l2) → pos = default m_IL (head l2) → emits r l1 l2 m it.1 it.2.

(** The forms of the instructions that name an argument or local, and of a constant. *)
Definition indexed_code (op0 op_s op_l index : Z) : Z * Z :=
  if decide (index ≤ 3) then (op0 + index, 0)
  else if decide (index ≤ 255) then (op_s, u8 index) else (op_l, u16 index).
Definition address_code (op_s op_l index : Z) : Z * Z :=
  if decide (index ≤ 255) then (op_s, u8 index) else (op_l, u16 index).
Definition int32_code (v : Z) : Z * Z :=
  if decide (0 ≤ v ∧ v ≤ 8) then (CEE_LDC_I4_0 + v, 0)
  else if decide (-128 ≤ v ∧ v ≤ 127) then (CEE_LDC_I4_S, u8 v) else (CEE_LDC_I4, u32 v).

Definition ldarg_code : Z → Z * Z := indexed_code CEE_LDARG_0 CEE_LDARG_S CEE_LDARG.
Definition stloc_code : Z → Z * Z := indexed_code CEE_STLOC_0 CEE_STLOC_S CEE_STLOC.
Definition ldloc_code : Z → Z * Z := indexed_code CEE_LDLOC_0 CEE_LDLOC_S CEE_LDLOC.
Definition ldarga_code : Z → Z * Z := address_code CEE_LDARGA_S CEE_LDARGA.
Definition ldloca_code : Z → Z * Z := address_code CEE_LDLOCA_S CEE_LDLOCA.

Lemma emission_emit this pos f op arg :
  pos = m_ILInstr this → keeps_links f → 0 ≤ op ≤ CEE_SWITCH_ARG → data_of (f ILInstr_zero) = (op, 0, arg) →
  emission pos (emit this f) (op, arg).
Proof. intros -> Hf Hop Hd r l1 l2 Hl Hpos. by eapply emit_emits. Qed.

Lemma emission_opcode this op : 0 ≤ op ≤ CEE_SWITCH_ARG → emission (m_ILInstr this) (emit this (set_opcode op)) (op, 0).
Proof. intros. apply emission_emit; [done|auto with il|done..]. Qed.

Lemma emission_arg32 this op v :
  0 ≤ op ≤ CEE_SWITCH_ARG → emission (m_ILInstr this) (emit this (set_Arg32 v ∘ set_opcode op)) (op, u32 v).
Proof. intros. apply emission_emit; [done|by apply keeps_links_compose; apply keeps_links_set_low || apply keeps_links_set_opcode|done|by apply data_of_set_low]. Qed.

Lemma emission_indexed this op0 op_s op_l index :
  0 ≤ op0 → op0 + 3 < op_s → op_s < op_l ≤ CEE_SWITCH_ARG → 0 ≤ index →
  emission (m_ILInstr this) (emit_indexed this [op0; op0 + 1; op0 + 2; op0 + 3] op_s op_l index)
    (indexed_code op0 op_s op_l index).
Proof.
  intros H0 Hs Hll Hi r l1 l2 Hl Hpos. unfold emit_indexed, indexed_code. destruct (decide (index ≤ 3)) as [H1|H1].
  - assert (zlookup [op0; op0 + 1; op0 + 2; op0 + 3] index = Some (op0 + index)) as ->.
    { assert (index = 0 ∨ index = 1 ∨ index = 2 ∨ index = 3) as Hc by lia.
      destruct Hc as [->|[->|[->| ->]]]; [by rewrite Z.add_0_r|done..]. }
    cbn [fst snd]. apply (emit_with r l1 l2 Hl this Hpos (λ p, _) (set_opcode (op0 + index))); [|auto with il|lia|done].
    run_by (done). apply set_one.
  - destruct (decide (index ≤ 255)) as [H2|H2]; cbn [fst snd].
    + apply (emit_with r l1 l2 Hl this Hpos (λ p, _) (set_Arg8 (u8 index) ∘ set_opcode op_s));
        [apply set_two|by apply keeps_links_compose; auto with il|lia|etrans; [by apply data_of_set_low|by rewrite wrap_wrap]].
    + apply (emit_with r l1 l2 Hl this Hpos (λ p, _) (set_Arg16 index ∘ set_opcode op_l));
        [apply set_two|by apply keeps_links_compose; auto with il|lia|by apply data_of_set_low].
Qed.

Lemma emission_address this op_s op_l index :
  0 ≤ op_s < op_l → op_l ≤ CEE_SWITCH_ARG → 0 ≤ index →
  emission (m_ILInstr this) (emit_address this op_s op_l index)
    (address_code op_s op_l index).
Proof.
  intros Hs Hll Hi r l1 l2 Hl Hpos. unfold emit_address, address_code.
  destruct (decide (index ≤ 255)) as [H2|H2]; cbn [fst snd].
  - apply (emit_with r l1 l2 Hl this Hpos (λ p, _) (set_Arg8 (u8 index) ∘ set_opcode op_s));
      [apply set_two|by apply keeps_links_compose; auto with il|lia|etrans; [by apply data_of_set_low|by rewrite wrap_wrap]].
  - apply (emit_with r l1 l2 Hl this Hpos (λ p, _) (set_Arg16 index ∘ set_opcode op_l));
      [apply set_two|by apply keeps_links_compose; auto with il|lia|by apply data_of_set_low].
Qed.

Lemma emission_int32 this v : emission (m_ILInstr this) (LoadInt32 this v) (int32_code v).
Proof.
  intros r l1 l2 Hl Hpos. unfold LoadInt32, int32_code. destruct (decide (0 ≤ v ∧ v ≤ 8)) as [H1|H1].
  - assert (zlookup LoadInt32_opcodes v = Some (CEE_LDC_I4_0 + v)) as ->.
    { assert (v = 0 ∨ v = 1 ∨ v = 2 ∨ v = 3 ∨ v = 4 ∨ v = 5 ∨ v = 6 ∨ v = 7 ∨ v = 8) as Hc by lia.
      by destruct Hc as [->|[->|[->|[->|[->|[->|[->|[->| ->]]]]]]]]. }
    cbn [fst snd]. apply (emit_with r l1 l2 Hl this Hpos (λ p, _) (set_opcode (CEE_LDC_I4_0 + v)));
      [|auto with il|unfold CEE_SWITCH_ARG, CEE_LDC_I4_0; cbn [fst]; lia|done].
    run_by (done). apply set_one.
  - destruct (decide (-128 ≤ v ∧ v ≤ 127)) as [H2|H2]; cbn [fst snd].
    + apply (emit_with r l1 l2 Hl this Hpos (λ p, _) (set_Arg8 (s8 v) ∘ set_opcode CEE_LDC_I4_S));
        [apply set_two|by apply keeps_links_compose; auto with il|done|etrans; [by apply data_of_set_low|by rewrite wrap_sgn]].
    + apply (emit_with r l1 l2 Hl this Hpos (λ p, _) (set_Arg32 v ∘ set_opcode CEE_LDC_I4));
        [apply set_two|by apply keeps_links_compose; auto with il|done|by apply data_of_set_low].
Qed.

(** The operations of the wrapper. *)
Section Operations.
Context (this : ILRewriterWrapper).

Lemma emission_StLocal index : 0 ≤ index → emission (m_ILInstr this) (StLocal this index) (stloc_code index).
Proof. intros. by apply emission_indexed. Qed.
Lemma emission_LoadLocal index : 0 ≤ index → emission (m_ILInstr this) (LoadLocal this index) (ldloc_code index).
Proof. intros. by apply emission_indexed. Qed.
Lemma emission_LoadArgument index : 0 ≤ index → emission (m_ILInstr this) (LoadArgument this index) (ldarg_code index).
Proof. intros. by apply emission_indexed. Qed.
Lemma emission_LoadLocalAddress index : 0 ≤ index → emission (m_ILInstr this) (LoadLocalAddress this index) (ldloca_code index).
Proof. intros. by apply emission_address. Qed.
Lemma emission_LoadArgumentRef index : 0 ≤ index → emission (m_ILInstr this) (LoadArgumentRef this index) (ldarga_code index).
Proof. intros. by apply emission_address. Qed.
End Operations.

Create HintDb emission.
#[export] Hint Resolve emission_opcode emission_arg32 emission_int32 emission_StLocal emission_LoadLocal
  emission_LoadArgument emission_LoadLocalAddress emission_LoadArgumentRef : emission.

(** ** Runs of operations

    [emitted r0 A B code r]: since [r0], whose content was [A ++ B], the instructions [code] have
    been emitted between [A] and [B]. *)
Record emitted_run (r0 : ILRewriter) (A B : prog) (code : list (Z * Z)) (r : ILRewriter) : Prop := {
  em_program : program r (A ++ number (il_fresh r0) code ++ B);
  em_fresh : il_fresh r = il_fresh r0 + Z.of_nat (length code);
  em_frame : frame r = frame r0;
  em_nInstrs : m_nInstrs r = u32 (m_nInstrs r0 + Z.of_nat (length code));
}.

Lemma emitted_nil r A B : program r (A ++ B) → 0 ≤ m_nInstrs r < 2 ^ 32 → emitted_run r A B [] r.
Proof. intros HP Hn. split; [done|simpl; lia|done|]. rewrite Z.add_0_r. by rewrite wrap_small. Qed.

Lemma emitted_trans r0 r1 r2 A B c1 c2 :
  emitted_run r0 A B c1 r1 → emitted_run r1 (A ++ number (il_fresh r0) c1) B c2 r2 → emitted_run r0 A B (c1 ++ c2) r2.
Proof.
  intros [P1 F1 Fr1 N1] [P2 F2 Fr2 N2]. split.
  - rewrite number_app, <-F1. rewrite <-!app_assoc in *. done.
  - rewrite F2, F1, length_app. lia.
  - congruence.
  - rewrite N2, N1, wrap_add_l, length_app. f_equal. lia.
Qed.

Section Step.
Context (r0 : ILRewriter) (A B : prog) (code : list (Z * Z)) (r : ILRewriter).
Context (Hem : emitted_run r0 A B code r).

Lemma emitted_step m it :
  emission (first_of B) m it →
  ∃ r', m r = (Ret (il_fresh r0 + Z.of_nat (length code)), r') ∧ emitted_run r0 A B (code ++ [it]) r'.
Proof.
  intros Hm. destruct Hem as [HP Hf Hfr Hn]. rewrite app_assoc in HP. pose proof (pr_list _ _ HP) as Hl. rewrite fmap_app in Hl.
  destruct (Hm r _ _ Hl eq_refl) as (r' & Hr & Hin). pose proof Hin as [_ Hf' _ _ _ Hframe Hni _].
  exists r'. split; [by rewrite <-Hf|]. split.
  - assert (number (il_fresh r0) (code ++ [it]) = number (il_fresh r0) code ++ [(il_fresh r, it)]) as ->.
    { rewrite number_app. f_equal. unfold number. cbn. rewrite Hf. do 2 f_equal. lia. }
    pose proof (program_inserted _ _ _ _ _ it HP Hin) as HP'. by rewrite <-!app_assoc in *.
  - rewrite Hf', Hf, length_app. cbn. lia.
  - congruence.
  - rewrite Hni, Hn, wrap_add_l, length_app. f_equal. cbn. lia.
Qed.

(** Writing to an instruction of the run. *)
Lemma emitted_write k f op arg op' arg' :
  code !! k = Some (op, arg) → keeps_links f →
  (∀ i, m_opcode i = op → m_Arg i = arg → data_of (f i) = (op', m_offset i, arg')) →
  ∃ r', write_instr (il_fresh r0 + Z.of_nat k) f r = (Ret tt, r') ∧ emitted_run r0 A B (<[k := (op', arg')]> code) r'.
Proof.
  intros Hk Hf Hdata. destruct Hem as [HP Hfs Hfr Hn]. set (w := il_fresh r0 + Z.of_nat k) in *.
  assert (Hlen : (k < length (number (il_fresh r0) code))%nat) by (rewrite length_number; by eapply lookup_lt_Some).
  assert (Hpos : (A ++ number (il_fresh r0) code ++ B) !! (length A + k)%nat = Some (w, (op, arg))).
  { rewrite lookup_app_r by lia. replace (length A + k - length A)%nat with k by lia.
    rewrite lookup_app_l by done. by apply number_lookup. }
  destruct (program_write _ _ _ _ _ _ _ _ _ HP Hpos Hf Hdata) as (r' & Hr & HP' & Hf' & Hfr' & Hn').
  exists r'. split; [done|]. split; rewrite ?length_insert; try congruence.
  rewrite number_insert. by rewrite insert_app_r, insert_app_l in HP' by done.
Qed.
End Step.
