(* ===== verification/CallTargetTokensSafe.v ===== *)
(** * The operations on tokens stay inside their buffers

    No operation of CallTargetTokens that only defines tokens writes outside its buffer or reads
    outside a signature, whatever the metadata answers, and none touches the method body. *)

From S2P Require Import Prelude ILOpcodes ILList ILRewriterWrapper CorSig Signature CallTargetTokens.

(** ** Writing a signature into a buffer *)

Lemma put_all_run buffer off pieces :
  (off + length (concat pieces) ≤ length buffer)%nat →
  ∃ buffer', put_all buffer off pieces = Some (buffer', (off + length (concat pieces))%nat) ∧
             wrote off (concat pieces) buffer buffer'.
Proof.
  revert buffer off. induction pieces as [|p ps IH]; intros buffer off Hlen; simpl in *.
  - exists buffer. rewrite Nat.add_0_r. split; [done|apply wrote_nil].
  - rewrite length_app in Hlen. destruct (upd_range_wrote off p buffer) as (b1 & -> & Hw1); [lia|].
    destruct (IH b1 (off + length p)%nat) as (b2 & -> & Hw2); [rewrite (wrote_length _ _ _ _ Hw1); lia|].
    exists b2. split; [by rewrite length_app, Nat.add_assoc|by eapply wrote_app].
Qed.

(** What is read back: the pieces, then what the buffer held. *)
Lemma put_all_read uninit pieces n :
  (length (concat pieces) ≤ n ≤ length uninit)%nat →
  ∃ buffer, put_all uninit 0 pieces = Some (buffer, length (concat pieces)) ∧ length buffer = length uninit ∧
    read_buffer n buffer = Some (concat pieces ++ slice (length (concat pieces)) (n - length (concat pieces)) uninit).
Proof.
  intros Hn. destruct (put_all_run uninit 0 pieces) as (b & Hp & [Hl Hi Ho]); [lia|]. exists b. split_and!; [done|done|].
  unfold read_buffer. rewrite decide_True by lia. f_equal.
  replace n with (length (concat pieces) + (n - length (concat pieces)))%nat at 1 by lia.
  change (take ?k b) with (slice 0 k b). rewrite slice_app, Hi, Ho by lia. done.
Qed.

Lemma put_all_exact uninit pieces n :
  length (concat pieces) = n → (n ≤ length uninit)%nat →
  ∃ buffer, put_all uninit 0 pieces = Some (buffer, n) ∧ read_buffer n buffer = Some (concat pieces).
Proof.
  intros <- Hn. destruct (put_all_read uninit pieces (length (concat pieces))) as (b & Hp & _ & Hr); [lia|].
  exists b. split; [done|]. by rewrite Hr, Nat.sub_diag, slice_0, app_nil_r.
Qed.

(** The encoding of a token. *)
Definition token_code (tk : Z) : list Z := packed (token_number tk).

Lemma token_code_length tk : (1 ≤ length (token_code tk) ≤ 4)%nat.
Proof. apply packed_length. Qed.

(** ** Operations that leave the method body alone *)

(** The extent of an operation: the metadata, or the tokens that were nil too. *)
Inductive extent := OnlyMetadata | NilTokens.

Section Within.
Context {MD : Type}.

Definition set_md (md : MD) (s : context MD) : context MD :=
  Build_context (c_il s) (c_tokens s) (c_integration_types s) md.

(** Only the metadata may have changed. *)
Record same_tokens (s s' : context MD) : Prop := {
  sa_il : c_il s' = c_il s;
  sa_tokens : c_tokens s' = c_tokens s;
}.

(** The rewriter is the same, and so is every token that was defined. *)
Record settled (s s' : context MD) : Prop := {
  st_il : c_il s' = c_il s;
  st_tokens : ∀ slot, c_tokens s slot ≠ slot_nil slot → c_tokens s' slot = c_tokens s slot;
}.

(** What an operation may change. *)
Definition changes (e : extent) : context MD → context MD → Prop :=
  match e with OnlyMetadata => same_tokens | NilTokens => settled end.

#[local] Instance changes_preorder e : PreOrder (changes e).
Proof.
  destruct e; split.
  - by split.
  - intros s1 s2 s3 [E1 T1] [E2 T2]. split; congruence.
  - by split.
  - intros s1 s2 s3 [E1 T1] [E2 T2]. split; [congruence|].
    intros slot Hs. rewrite T2; [by apply T1|]. by rewrite T1.
Qed.

#[export] Instance same_tokens_preorder : PreOrder same_tokens := changes_preorder OnlyMetadata.
#[export] Instance settled_preorder : PreOrder settled := changes_preorder NilTokens.

Lemma changes_md e s md : changes e s (set_md md s).
Proof. by destruct e. Qed.

Section Extent.
Context (R : extent).

(** [within R m Q]: [m] is safe, changes the state within [R] and returns what satisfies [Q]. *)
Definition within {A} (m : T MD A) (Q : A → Prop) : Prop := ∀ s,
  wp m s (λ a s', changes R s s' ∧ Q a) (λ _ s', changes R s s').

Lemma within_mono {A} (m : T MD A) (Q Q' : A → Prop) : within m Q → (∀ a, Q a → Q' a) → within m Q'.
Proof. intros Hm HQ s. eapply wp_mono; [apply Hm| |done]. intros a s' [H1 H2]. eauto. Qed.

Lemma within_ret {A} (a : A) (Q : A → Prop) : Q a → within (mret a : T MD A) Q.
Proof. intros HQ s. eapply wp_run; [done|]. by split; [reflexivity|]. Qed.

Lemma wp_within {A B} (m : T MD A) (f : A → T MD B) (Q : A → Prop) s P X :
  within m Q → (∀ e s', changes R s s' → X e s') →
  (∀ a s', changes R s s' → Q a → wp (f a) s' P X) → wp (m ≫= f) s P X.
Proof.
  intros Hm HX Hf. apply wp_bind. eapply wp_mono; [apply Hm|..]; [intros a s' [H1 H2]; by apply Hf|by apply HX].
Qed.

Lemma within_bind {A B} (m : T MD A) (f : A → T MD B) (Q : A → Prop) (P : B → Prop) :
  within m Q → (∀ a, Q a → within (f a) P) → within (m ≫= f) P.
Proof.
  intros Hm Hf s. eapply wp_within; [exact Hm|by intros|]. intros a s' Hs HQ.
  eapply wp_mono; [by apply Hf|..]; [intros b s2 [Hs2 HR]; split; [by etrans|done]|intros e s2 Hs2; by etrans].
Qed.

Lemma within_throw {A} e (Q : A → Prop) : within (throw e : T MD A) Q.
Proof. intros s. unfold wp. cbn. reflexivity. Qed.

Lemma within_token slot : within (token slot : T MD Z) (λ _, True).
Proof. intros s. unfold wp. cbn. split; [reflexivity|done]. Qed.

Lemma on_md_run {A} (f : MD → Z * A * MD) s : on_md f s = (Ret (f (c_md s)).1, set_md (f (c_md s)).2 s).
Proof. unfold on_md. by destruct (f (c_md s)). Qed.

Lemma within_on_md {A} (f : MD → Z * A * MD) (Q : A → Prop) :
  (∀ md, Q (f md).1.2) → within (on_md f) (λ r, Q r.2).
Proof. intros HQ s. eapply wp_run; [apply on_md_run|]. split; [apply changes_md|apply HQ]. Qed.

Lemma within_attempt {A} (m : T MD A) (Q : A → Prop) :
  within m Q → within (attempt m) (λ r, match r with inl _ => True | inr a => Q a end).
Proof. intros Hm s. specialize (Hm s). unfold wp, attempt in *. destruct (m s) as [[a|e| |] s']; tauto. Qed.

Lemma within_attempt_any {A} (m : T MD A) : within m (λ _, True) → within (attempt m) (λ _, True).
Proof. intros Hm. by eapply within_mono; [apply within_attempt|]. Qed.

Lemma within_compress_token tk : within (compress_token tk : T MD _) (λ bs, bs = token_code tk).
Proof. unfold compress_token. rewrite CorSigCompressToken_packed. by apply within_ret. Qed.

Lemma within_compress_slot slot : within (compress_slot slot : T MD _) (λ bs, ∃ tk, bs = token_code tk).
Proof. eapply within_bind; [apply within_token|]. intros tk _. eapply within_mono; [apply within_compress_token|intros ? ->; eauto]. Qed.

Lemma within_lift {A} (a : A) (Q : A → Prop) : Q a → within (lift_option (Some a) : T MD A) Q.
Proof. by apply within_ret. Qed.

Lemma within_signature_n uninit pieces n :
  (length (concat pieces) ≤ n ≤ length uninit)%nat →
  within (signature_n uninit pieces n : T MD _) (λ sig, sig = concat pieces ++ slice (length (concat pieces)) (n - length (concat pieces)) uninit).
Proof.
  intros Hn. destruct (put_all_read uninit pieces n Hn) as (b & Hp & _ & Hr). unfold signature_n. rewrite Hp.
  eapply within_bind; [apply (within_lift (b, length (concat pieces)) (eq (b, length (concat pieces)))), eq_refl|].
  intros ? <-. cbv beta iota. rewrite Hr. by apply within_lift.
Qed.

Lemma within_signature_of uninit pieces :
  (length (concat pieces) ≤ length uninit)%nat → within (signature_of uninit pieces : T MD _) (λ sig, sig = concat pieces).
Proof.
  intros Hn. destruct (put_all_exact uninit pieces _ eq_refl Hn) as (b & Hp & Hr). unfold signature_of. rewrite Hp.
  eapply within_bind; [apply (within_lift (b, length (concat pieces)) (eq (b, length (concat pieces)))), eq_refl|].
  intros ? <-. cbv beta iota. rewrite Hr. by apply within_lift.
Qed.

Lemma within_checked {A} (m : T MD (Z * A)) (Q : A → Prop) : within m (λ r, Q r.2) → within (checked m) Q.
Proof.
  intros Hm. eapply within_bind; [exact Hm|]. intros [hr a] HQ. case_decide; [apply within_throw|by apply within_ret].
Qed.

Lemma within_or_nil nil (m : T MD Z) : within m (λ _, True) → within (or_nil nil m) (λ _, True).
Proof.
  intros Hm. eapply within_bind; [by apply within_attempt|]. intros [e|tk] _; by apply within_ret.
Qed.
End Extent.

Lemma same_settled s s' : same_tokens s s' → settled s s'.
Proof. intros [E T]. split; [done|]. by rewrite T. Qed.

Lemma within_same {A} (m : T MD A) Q : within OnlyMetadata m Q → within NilTokens m Q.
Proof.
  intros Hm s. eapply wp_mono; [apply Hm|..]; [intros a s' [H1 H2]|intros e s' H1]; cbn in *; destruct_and?; split_and?; eauto using same_settled.
Qed.

Lemma settled_set_token (s : context MD) slot tk : c_tokens s slot = slot_nil slot → settled s (set_token slot tk s).2.
Proof. intros Hn. split; [done|]. intros x Hx. cbn. case_decide; [by subst|done]. Qed.

Lemma token_set (s : context MD) slot tk : c_tokens (set_token slot tk s).2 slot = tk.
Proof. cbn. by rewrite decide_True. Qed.

(** Setting a slot that was nil in the beginning. *)
Lemma wp_set_token s0 s slot tk (Q : unit → context MD → Prop) X :
  settled s0 s → c_tokens s0 slot = slot_nil slot → (∀ s', settled s0 s' → c_tokens s' slot = tk → Q tt s') →
  wp (set_token slot tk) s Q X.
Proof.
  intros [Hi Ht] Hn HQ. eapply wp_run; [done|]. apply HQ; [|apply token_set].
  split; [done|]. intros x Hx. cbn. case_decide; [by subst|by apply Ht].
Qed.

(** After [ensure] the slot is not nil, if the calls that define it give no nil token. *)
Lemma wp_ensure slot (define : T MD (Z * Z)) s :
  within OnlyMetadata define (λ r, 0 ≤ r.1 → r.2 ≠ slot_nil slot) →
  wp (ensure slot define) s (λ _ s', settled s s' ∧ c_tokens s' slot ≠ slot_nil slot) (λ _ s', settled s s').
Proof.
  intros Hd. unfold ensure. eapply wp_run_bind; [done|]. cbn. case_decide as Hn; [|by eapply wp_run; [|split; [reflexivity|]]].
  unfold checked. apply wp_bind, wp_bind. eapply wp_mono; [apply Hd|..]; [|by intros e s' ?; apply same_settled].
  intros [hr new] s' [Hs Hnew]. case_decide; [by apply same_settled|].
  eapply wp_run; [done|]. eapply wp_set_token; [by apply same_settled|done|]. cbn in Hnew. intros s2 Hs2 ->. split; [done|apply Hnew; lia].
Qed.

Lemma within_ensure slot (define : T MD (Z * Z)) :
  within OnlyMetadata define (λ _, True) → within NilTokens (ensure slot define) (λ _, True).
Proof.
  intros Hd s. unfold ensure. eapply wp_run_bind; [done|]. cbn. case_decide as Hn; [|by eapply wp_run; [|split; [reflexivity|]]].
  unfold checked. apply wp_bind, wp_bind. eapply wp_mono; [apply Hd|..]; [|by intros e s' ?; apply same_settled].
  intros [hr new] s' [Hs _]. case_decide; [by apply same_settled|].
  eapply wp_run; [done|]. by eapply wp_set_token; [apply same_settled|..].
Qed.

Lemma within_ensure_in_place slot (define : T MD (Z * Z)) :
  within OnlyMetadata define (λ _, True) → within NilTokens (ensure_in_place slot define) (λ _, True).
Proof.
  intros Hd s. unfold ensure_in_place. eapply wp_run_bind; [done|]. cbn. case_decide as Hn; [|by eapply wp_run; [|split; [reflexivity|]]].
  apply wp_bind. eapply wp_mono; [apply Hd|..]; [|by intros e s' ?; apply same_settled].
  intros [hr new] s' [Hs _]. apply wp_bind. eapply wp_set_token; [by apply same_settled|done|]. intros s2 Hs2 _.
  case_decide; [done|by eapply wp_run].
Qed.
End Within.

(** *** Tokens that are there *)

Definition defined {MD} (s : context MD) (slot : TokenSlot) : Prop := c_tokens s slot ≠ slot_nil slot.

Lemma defined_settled {MD} (s s' : context MD) slot :
  settled s s' → defined s slot → defined s' slot ∧ c_tokens s' slot = c_tokens s slot.
Proof. unfold defined. intros [_ Ht] Hd. rewrite (Ht _ Hd). done. Qed.

(** The tokens of the types of the new locals, and of those the calls name. *)
Definition base_slots : list TokenSlot :=
  [objectTypeRef; exTypeRef; callTargetTypeRef; callTargetStateTypeRef; callTargetRefStructTypeRef].
Definition base_defined {MD} (s : context MD) : Prop := Forall (defined s) base_slots.

Lemma carry {MD} (s s' : context MD) l : settled s s' → Forall (defined s) l → Forall (defined s') l.
Proof. intros Hs Hl. eapply Forall_impl; [exact Hl|]. intros slot Hd. by eapply defined_settled. Qed.

(** [quiet]: what all the operations below do. *)
Abbreviation quiet m := (within NilTokens m (λ _, True)).
Abbreviation steady m := (within OnlyMetadata m (λ _, True)).

Create HintDb quiet.
#[export] Hint Resolve within_throw within_token within_compress_slot within_compress_token : quiet.

(** A goal [quiet m] or [steady m] by the structure of [m]. *)
Ltac quiet_step :=
  lazymatch goal with
  | |- within _ (mbind _ (compress_slot _)) _ => eapply within_bind; [apply within_compress_slot|intros ? ?]
  | |- within _ (mbind _ (compress_token _)) _ => eapply within_bind; [apply within_compress_token|intros ? ?]
  | |- within ?R (mbind _ _) _ => apply (within_bind R _ _ (λ _, True)); [|intros ? _]
  | |- within _ (mret _) _ => by apply within_ret
  | |- within _ (throw _) _ => apply within_throw
  | |- within _ (attempt _) _ => apply within_attempt_any
  | |- within ?R (checked _) _ => apply (within_checked R _ (λ _, True))
  | |- within _ (ensure _ _) _ => apply within_ensure
  | |- within _ (ensure_in_place _ _) _ => apply within_ensure_in_place
  | |- within _ (or_nil _ _) _ => apply within_or_nil
  | |- within ?R (on_md _) _ => by apply (within_on_md R _ (λ _, True))
  | |- within _ (token _) _ => apply within_token
  | |- within _ (if decide _ then _ else _) _ => case_decide
  | |- within _ (match ?x with _ => _ end) _ => destruct x
  | |- within NilTokens _ _ => first [solve [eauto with quiet] | apply within_same; solve [eauto with quiet]]
  | |- within _ _ _ => solve [eauto with quiet]
  end.

(** The tokens compressed so far, and the length of what is written. *)
Ltac token_lengths :=
  cbv beta in *;
  repeat match goal with
  | H : ∃ tk, _ = token_code tk |- _ => destruct H as [? ->]
  | H : _ = token_code _ |- _ => subst
  end;
  repeat match goal with
  | |- context [token_code ?tk] => lazymatch goal with _ : (1 ≤ length (token_code tk) ≤ 4)%nat |- _ => fail | _ => pose proof (token_code_length tk) end
  end.
Ltac sig_lia := token_lengths; simpl; rewrite ?length_app; simpl; rewrite ?length_app; simpl; lia.

Section Base.
Context {MD : Type} `{!Metadata MD}.
Context (signature_uninit : list Z) (Hun : length signature_uninit = signatureBufferSize).
Context (corAssemblyProperty : assembly_ref) (assemblyReference : AssemblyReference).
Context (bubble_up_type bubble_up_function : bool).

Lemma quiet_define_type slot name : steady (define_type slot name).
Proof. unfold define_type. repeat quiet_step. Qed.

Lemma quiet_define_member slot name (sig : T MD (list Z)) : steady sig → steady (define_member slot name sig).
Proof. intros Hs. unfold define_member. apply (within_bind OnlyMetadata _ _ (λ _, True)); [exact Hs|]. intros. repeat quiet_step. Qed.
Hint Resolve quiet_define_type quiet_define_member : quiet.

Lemma quiet_sig_n pieces n : (length (concat pieces) ≤ n ≤ 500)%nat → steady (signature_n signature_uninit pieces n : T MD _).
Proof. intros. eapply within_mono; [apply within_signature_n; rewrite Hun; unfold signatureBufferSize; lia|done]. Qed.

Lemma quiet_sig_of uninit pieces : (length (concat pieces) ≤ length uninit)%nat → steady (signature_of uninit pieces : T MD _).
Proof. intros. by eapply within_mono; [apply within_signature_of|]. Qed.

Lemma quiet_GetTypeFromHandle : steady (GetTypeFromHandle_signature signature_uninit : T MD _).
Proof.
  unfold GetTypeFromHandle_signature. do 2 (eapply within_bind; [apply within_compress_slot|intros ? ?]).
  apply quiet_sig_of. rewrite Hun. unfold signatureBufferSize. sig_lia.
Qed.

Lemma quiet_GetDefault slot : steady (GetDefault_signature signature_uninit slot : T MD _).
Proof.
  unfold GetDefault_signature. eapply within_bind; [apply within_compress_slot|intros ? ?].
  apply quiet_sig_n. sig_lia.
Qed.
Hint Resolve quiet_GetTypeFromHandle quiet_GetDefault : quiet.

Lemma length_small : length (take 32 signature_uninit) = 32%nat.
Proof. rewrite length_take, Hun. done. Qed.

Lemma quiet_bubble_up_signature : steady (IsCallTargetBubbleUpException_signature signature_uninit : T MD _).
Proof.
  unfold IsCallTargetBubbleUpException_signature, small_signature. eapply within_bind; [apply within_compress_slot|intros ? ?].
  apply quiet_sig_of. rewrite length_small. sig_lia.
Qed.

Lemma quiet_CreateRefStruct : steady (CreateRefStruct_signature signature_uninit : T MD _).
Proof.
  unfold CreateRefStruct_signature, small_signature. do 2 (eapply within_bind; [apply within_compress_slot|intros ? ?]).
  apply quiet_sig_of. rewrite length_small. sig_lia.
Qed.
Hint Resolve quiet_bubble_up_signature quiet_CreateRefStruct : quiet.

Lemma quiet_corLibAssemblyRef : quiet (ensure_corLibAssemblyRef corAssemblyProperty).
Proof.
  intros s. unfold ensure_corLibAssemblyRef. eapply wp_run_bind; [done|]. case_decide as Hn; [|by eapply wp_run].
  eapply (wp_within OnlyMetadata _ _ (λ _, True)); [by apply (within_checked _ _ (λ _, True)), (within_on_md _ _ (λ _, True))| |].
  - intros. by apply same_settled.
  - intros new s' Hs _. case_decide; [by eapply wp_run; [|split; [apply same_settled|]]|].
    apply wp_bind. eapply wp_set_token; [by apply same_settled|done|]. intros. by eapply wp_run.
Qed.
Hint Resolve quiet_corLibAssemblyRef : quiet.

Lemma quiet_EnsureCorLibTokens : quiet (EnsureCorLibTokens signature_uninit corAssemblyProperty).
Proof. unfold EnsureCorLibTokens. repeat quiet_step. Qed.

Lemma quiet_ensure_bubble_up :
  quiet (ensure_bubble_up signature_uninit bubble_up_type bubble_up_function).
Proof.
  intros s. unfold ensure_bubble_up. eapply wp_run_bind; [done|]. case_decide as Hn; [destruct Hn as [_ Hn]|by eapply wp_run].
  eapply (wp_within OnlyMetadata); [apply quiet_define_type|intros; by apply same_settled|].
  intros [typeHr new] s1 Hs1 _. apply wp_bind. eapply wp_set_token; [by apply same_settled|done|]. intros s2 Hs2 _.
  case_decide; [by eapply wp_set_token|]. eapply wp_run_bind; [done|].
  case_decide as Hf; [destruct Hf as [_ Hf]|by eapply wp_run].
  eapply (wp_within OnlyMetadata); [apply quiet_define_member, quiet_bubble_up_signature| |].
  - intros e s3 Hs3. etrans; [exact Hs2|by apply same_settled].
  - intros [memberHr fn] s3 Hs3 _. eapply (wp_set_token s2); [by apply same_settled|done|].
    intros s4 Hs4 _. split; [by etrans|done].
Qed.
Hint Resolve quiet_EnsureCorLibTokens quiet_ensure_bubble_up : quiet.

Lemma quiet_EnsureBase_base : quiet (EnsureBaseCalltargetTokens_base signature_uninit corAssemblyProperty assemblyReference).
Proof. unfold EnsureBaseCalltargetTokens_base. repeat quiet_step. Qed.
Hint Resolve quiet_EnsureBase_base : quiet.

Lemma quiet_EnsureBase :
  quiet (EnsureBaseCalltargetTokens signature_uninit corAssemblyProperty assemblyReference bubble_up_type bubble_up_function).
Proof. unfold EnsureBaseCalltargetTokens. repeat quiet_step. Qed.
End Base.

(** ** Queries about types *)

(** A position behind the optional bytes that GetTypeTok skips. *)
Definition skip_pos (sig : list Z) (pbCur : nat) (skipped : list Z) : option nat :=
  b ← sig !! pbCur; Some (if decide (b ∈ skipped) then S pbCur else pbCur).
Definition type_position (sig : list Z) : option nat :=
  p ← skip_pos sig 0 [ELEMENT_TYPE_PTR; ELEMENT_TYPE_PINNED]; skip_pos sig p [ELEMENT_TYPE_BYREF].

Definition returns {E A} (o : outcome E A) : Prop := match o with Ret _ => True | _ => False end.
Definition ends {E A} (o : outcome E A) : Prop := match o with Ret _ | Err _ => True | _ => False end.

(** The readers of the type's signature stay inside it, as they do on the types that the parser of
    method signatures accepts. *)
Record readable (sig : list Z) : Prop := {
  rd_flags : returns (GetElementTypeAndFlags sig 0%nat).1;
  rd_token : match type_position sig ≫= λ p, b ← sig !! p; Some (p, b) with
             | Some (p, b) => b = ELEMENT_TYPE_CLASS ∨ b = ELEMENT_TYPE_VALUETYPE →
                              returns (CorSigUncompressToken (drop (S p) sig))
             | None => False
             end;
  rd_generic : ends (GenericTypeProps_TryParse sig (length sig) 0%nat).1;
}.

Definition type_flags (sig : list Z) : Z :=
  match (GetElementTypeAndFlags sig 0%nat).1 with Ret (_, flags) => flags | _ => 0 end.

Section TypeQueries.
Context {MD : Type} `{!Metadata MD}.

Lemma element_type_and_flags_run sig (s : context MD) :
  readable sig → ∃ e, element_type_and_flags sig s = (Ret (e, type_flags sig), s).
Proof.
  intros [Hf _ _]. unfold element_type_and_flags, type_flags, returns in *.
  destruct (GetElementTypeAndFlags sig 0%nat).1 as [[e f]| | |]; [by exists e|done..].
Qed.

Lemma within_element_type_and_flags R sig :
  readable sig → within R (element_type_and_flags sig : T MD _) (λ r, r.2 = type_flags sig).
Proof.
  intros Hr s. destruct (element_type_and_flags_run sig s Hr) as [e He]. eapply wp_run; [exact He|].
  split; [apply changes_preorder|done].
Qed.

Lemma steady_skip sig p skipped q : skip_pos sig p skipped = Some q → within OnlyMetadata (skip_byte sig p skipped : T MD _) (λ r, r = q).
Proof.
  unfold skip_pos, skip_byte. intros Hs. destruct (sig !! p) as [b|]; [|done]. simplify_eq/=.
  eapply within_bind; [by apply (within_lift _ b (eq b))|]. intros ? <-. by apply within_ret.
Qed.

Lemma steady_GetTypeTok sig corLib : readable sig → steady (GetTypeTok sig corLib : T MD _).
Proof.
  intros [_ Ht _]. unfold GetTypeTok, type_position in *.
  destruct (skip_pos sig 0 _) as [p1|] eqn:E1; [|done]. cbn in Ht.
  destruct (skip_pos sig p1 _) as [p2|] eqn:E2; [|done]. cbn in Ht. destruct (sig !! p2) as [b|] eqn:Eb; [|done]. cbn in Ht.
  eapply within_bind; [by apply steady_skip|]. intros ? ->. eapply within_bind; [by apply steady_skip|]. intros ? ->.
  rewrite Eb. eapply within_bind; [by apply (within_lift _ b (eq b))|]. intros ? <-.
  destruct (primitive_name b); [repeat quiet_step|]. case_decide as Hb.
  - specialize (Ht Hb). destruct (CorSigUncompressToken (drop (S p2) sig)) as [[tk n]| | |]; first [done|by apply within_ret].
  - repeat quiet_step.
Qed.

Lemma steady_IsByRefLike module tk : steady (IsByRefLike module tk : T MD _).
Proof. unfold IsByRefLike. repeat quiet_step. Qed.
Hint Resolve steady_GetTypeTok steady_IsByRefLike : quiet.

Lemma steady_IsTypeTokenByRefLike tk : steady (IsTypeTokenByRefLike tk : T MD _).
Proof. unfold IsTypeTokenByRefLike. repeat quiet_step. Qed.
Hint Resolve steady_IsTypeTokenByRefLike : quiet.

Lemma steady_IsTypeByRefLike sig corLib : readable sig → steady (IsTypeByRefLike sig corLib : T MD _).
Proof.
  intros Hr. pose proof (rd_generic _ Hr) as Hg. unfold IsTypeByRefLike. unfold ends in Hg.
  apply (within_bind OnlyMetadata _ _ (λ _, True)); [by apply steady_GetTypeTok|]. intros tk _. case_decide; [|repeat quiet_step].
  destruct (GenericTypeProps_TryParse sig (length sig) 0%nat).1 as [props| | |]; first [done|repeat quiet_step].
Qed.

Lemma steady_is_by_ref_like sig : readable sig → steady (is_by_ref_like sig : T MD _).
Proof.
  intros Hr. unfold is_by_ref_like. apply (within_bind OnlyMetadata _ _ (λ _, True)); [apply within_token|]. intros corLib _.
  apply (within_bind OnlyMetadata _ _ (λ _, True)); [by apply steady_IsTypeByRefLike|]. intros [hr b] _. by apply within_ret.
Qed.
End TypeQueries.
