(* ===== verification/LocalSignature.v ===== *)
(** * The new signature of the locals (calltarget_tokens.cpp, tracer_tokens.cpp)

    [ModifyLocalSig] appends the locals of the instrumentation to those of the method.  The
    result: the signature it builds in its buffer of 500 bytes is the old one with the new types
    appended and the count raised, nothing is written outside the buffer, and every index it
    returns is that of the local meant for it. *)

From S2P Require Import Prelude ILOpcodes ILList ILRewriterWrapper CorSig Signature.
From S2P Require Import CallTargetTokens CallTargetTokensSafe.

(** ** What the metadata promises *)

(** A signature of locals: the calling convention, the count, the types.  A method has fewer than
    2^16 locals, a blob is shorter than 2^29. *)
Definition local_signature (sig : list Z) (count : Z) (types : list Z) : Prop :=
  ∃ h, sig = h :: packed count ++ types ∧ 0 ≤ count < 2 ^ 16 ∧ Z.of_nat (length sig) < 2 ^ 29.

(** A reference that was defined is not nil, the signature of a method's locals is one. *)
Record metadata_ok (MD : Type) `{!Metadata MD} : Prop := {
  mk_assembly : ∀ a md, 0 ≤ (DefineAssemblyRef a md).1.1 → (DefineAssemblyRef a md).1.2 ≠ mdAssemblyRefNil;
  mk_type : ∀ scope name md,
    0 ≤ (DefineTypeRefByName scope name md).1.1 → (DefineTypeRefByName scope name md).1.2 ≠ mdTypeRefNil;
  mk_locals : ∀ tk md, 0 ≤ (GetSigFromToken tk md).1.1 → ∃ n types, local_signature (GetSigFromToken tk md).1.2 n types;
  mk_type_spec : ∀ sig md, 0 ≤ (GetTokenFromTypeSpec sig md).1.1 →
    let '(_, tk, md') := GetTokenFromTypeSpec sig md in
    0 ≤ (GetTypeSpecFromToken tk md').1.1 → (GetTypeSpecFromToken tk md').1.2 = sig;
  mk_no_type_spec : ∀ md, (GetTypeSpecFromToken mdTypeSpecNil md).1.1 < 0;
}.

Section Additional.
Context {MD : Type} `{!Metadata MD} (by_ref_like : list Z → bool).

(** ** The buffer *)

(** What has been written so far. *)
Record holds (b : SigBuffer) (w : list Z) : Prop := {
  ho_length : length (signatureBuffer b) = signatureBufferSize;
  ho_offset : signatureOffset b = length w;
  ho_bytes : take (length w) (signatureBuffer b) = w;
}.

Lemma put_run b w pieces (s : context MD) :
  holds b w → (length (w ++ concat pieces) ≤ signatureBufferSize)%nat →
  ∃ b', put pieces b s = (Ret b', s) ∧ holds b' (w ++ concat pieces) ∧ signatureSize b' = signatureSize b.
Proof.
  intros [Hl Ho Hb] Hlen. rewrite length_app in Hlen.
  destruct (put_all_run (signatureBuffer b) (length w) pieces) as (buf & Hp & [Hwl Hwi Hwo]); [lia|].
  eexists. split; [|split; [split|]].
  - unfold put. rewrite Ho, Hp. done.
  - cbn. lia.
  - cbn. by rewrite length_app.
  - cbn. rewrite length_app. change (take ?k buf) with (slice 0 k buf). rewrite slice_app, Nat.add_0_l, Hwi. f_equal.
    rewrite Hwo by lia. exact Hb.
  - done.
Qed.

(** The bytes after the calling convention, before the state, and the room they leave for it. *)
Definition fits (room : nat) (b : SigBuffer) (w : list Z) : Prop :=
  holds b w ∧ ¬ too_large b ∧ signatureSize b = Z.of_nat (length w + room).

Lemma fits_put room b w pieces s B (k : SigBuffer → T MD B) P X :
  holds b w → ¬ too_large b → signatureSize b = Z.of_nat (length (w ++ concat pieces) + room) →
  (∀ b', fits room b' (w ++ concat pieces) → wp (k b') s P X) → wp (put pieces b ≫= k) s P X.
Proof.
  intros Hb Ht Hs Hk. unfold too_large in *.
  destruct (put_run b w pieces s Hb) as (b' & Hp & Hb' & Hs'); [unfold signatureBufferSize in *; lia|].
  eapply wp_run_bind; [exact Hp|]. apply Hk. split_and!; [done|unfold too_large; by rewrite Hs'|by rewrite Hs'].
Qed.

(** ** The additional locals *)

(** The metadata says the same of a type each time it is asked. *)
Definition answers (by_ref_like : list Z → bool) (args : list (list Z)) : Prop :=
  ∀ a, a ∈ args → readable a ∧ ∀ s : context MD, (is_by_ref_like a s).1 = Ret (by_ref_like a).

Lemma answers_cons a args : answers by_ref_like (a :: args) → answers by_ref_like [a] ∧ answers by_ref_like args.
Proof. intros H. split; intros x Hx; apply H; set_solver. Qed.

Lemma wp_is_by_ref_like {B} a s (k : bool → T MD B) P X :
  answers by_ref_like [a] → (∀ s', same_tokens s s' → wp (k (by_ref_like a)) s' P X) → wp (is_by_ref_like a ≫= k) s P X.
Proof.
  intros Ha Hk. destruct (Ha a) as [Hr Hq]; [set_solver|]. apply wp_bind.
  pose proof (steady_is_by_ref_like a Hr s) as Hs. specialize (Hq s). unfold wp in *.
  destruct (is_by_ref_like a s) as [[b|e| |] s']; simplify_eq/=. by apply Hk, Hs.
Qed.

Lemma within_is_by_ref_like a : answers by_ref_like [a] → within OnlyMetadata (is_by_ref_like a : T MD _) (λ b, b = by_ref_like a).
Proof.
  intros Ha s. destruct (Ha a) as [Hr Hq]; [set_solver|]. pose proof (steady_is_by_ref_like a Hr s) as Hs. specialize (Hq s).
  unfold wp in *. destruct (is_by_ref_like a s) as [[b|e| |] s']; simplify_eq/=. by split; [apply Hs|].
Qed.

Lemma answers_elem a args : answers by_ref_like args → a ∈ args → answers by_ref_like [a].
Proof. intros H Ha x Hx. apply list_elem_of_singleton in Hx as ->. by apply H. Qed.

Definition ref_structs (args : list (list Z)) : nat := length (filter (λ a, by_ref_like a = true) args).

Lemma ref_structs_cons a args : ref_structs (a :: args) = if by_ref_like a then S (ref_structs args) else ref_structs args.
Proof. unfold ref_structs. rewrite filter_cons. by destruct (by_ref_like a). Qed.

Lemma ref_structs_app l1 l2 : ref_structs (l1 ++ l2) = (ref_structs l1 + ref_structs l2)%nat.
Proof. unfold ref_structs. by rewrite filter_app, length_app. Qed.

Lemma within_count args : answers by_ref_like args →
  within OnlyMetadata (count_ref_structs args : T MD _) (λ n, n = Z.of_nat (ref_structs args)).
Proof.
  induction args as [|a args IH]; intros Ha; [by apply within_ret|]. apply answers_cons in Ha as [Ha Hargs].
  intros s. cbn [count_ref_structs]. apply wp_is_by_ref_like; [done|]. intros s1 Hs1.
  eapply (wp_within OnlyMetadata); [by apply IH|intros; cbn in *; etrans; done|]. intros n s2 Hs2 ->.
  eapply wp_run; [done|]. split; [etrans; done|]. rewrite ref_structs_cons. destruct (by_ref_like a); lia.
Qed.

Definition ref_struct_locals (refStruct : list Z) (n : nat) : list (list Z) := replicate n (ELEMENT_TYPE_VALUETYPE :: refStruct).

(** Either everything announced is written, or the announced size exceeds the buffer. *)
Definition added (room : nat) (w : list Z) (b : SigBuffer) : Prop := too_large b ∨ fits room b w.

Lemma within_add_ref_structs refStruct room args b w :
  answers by_ref_like args → (length refStruct ≤ 4)%nat → fits room b w →
  within OnlyMetadata (add_ref_structs refStruct args b : T MD _)
    (added room (w ++ concat (ref_struct_locals refStruct (ref_structs args)))).
Proof.
  intros Ha Hr. revert b w. induction args as [|a args IH]; intros b w Hb.
  { apply within_ret. right. cbn. by rewrite app_nil_r. }
  apply answers_cons in Ha as [Ha Hargs]. intros s. cbn [add_ref_structs]. apply wp_is_by_ref_like; [done|]. intros s1 Hs1.
  rewrite ref_structs_cons. destruct (by_ref_like a).
  2:{ eapply wp_mono; [by apply IH|..]; [intros b' s2 [Hs2 Hb']; split; [cbn in *; etrans; done|done]|intros; cbn in *; etrans; done]. }
  destruct Hb as (Hh & Ht & Hsize). unfold too_large, signatureBufferSize in Ht.
  assert (Hann : signatureSize (announce (1 + length refStruct) b) = Z.of_nat (length w + (1 + length refStruct) + room)).
  { cbn. rewrite Hsize. rewrite wrap_small by (change (2 ^ 32) with 4294967296; lia). lia. }
  case_decide as Hlarge; [eapply wp_run; [done|]; split; [done|by left]|].
  eapply (fits_put room); [destruct Hh; by split|done| |].
  { rewrite Hann. f_equal. rewrite length_app. cbn [concat app length]. rewrite app_nil_r. lia. }
  intros b2 Hb2. eapply wp_mono; [apply (IH Hargs b2 _ Hb2)|..].
  - intros b' s2 [Hs2 Hb']. split; [cbn in *; etrans; done|]. cbn [ref_struct_locals replicate concat] in *.
    rewrite app_assoc. cbn [concat app] in Hb'. by rewrite app_nil_r in Hb'.
  - intros; cbn in *; etrans; done.
Qed.

(** The exceptions of the two calls and the wrappers of by-ref-like arguments. *)
Definition additional_locals (ex refStruct : list Z) (refStructs : nat) : list (list Z) :=
  [ELEMENT_TYPE_CLASS :: ex; ELEMENT_TYPE_CLASS :: ex] ++ ref_struct_locals refStruct refStructs.

Definition code_of (s : context MD) (slot : TokenSlot) : list Z := token_code (c_tokens s slot).

Lemma compress_slot_run slot s : compress_slot slot s = (Ret (code_of s slot), s).
Proof. unfold compress_slot, compress_token. run_by done. by rewrite CorSigCompressToken_packed. Qed.

Lemma wp_AddAdditionalLocals room args b w s :
  answers by_ref_like args → fits room b w →
  wp (AddAdditionalLocals args b) s (λ b' s', same_tokens s s' ∧
      added room (w ++ concat (additional_locals (code_of s exTypeRef) (code_of s callTargetRefStructTypeRef) (ref_structs args))) b')
    (λ _ s', same_tokens s s').
Proof.
  intros Ha (Hh & Ht & Hsize). unfold AddAdditionalLocals. wp_step (apply compress_slot_run).
  set (ex := code_of s exTypeRef). assert (1 ≤ length ex ≤ 4)%nat as Hex by apply token_code_length.
  unfold too_large, signatureBufferSize in Ht.
  assert (Hann : signatureSize (announce (2 * (1 + length ex)) b) = Z.of_nat (length w + 2 * (1 + length ex) + room)).
  { cbn [announce signatureSize]. rewrite Hsize. rewrite wrap_small by (change (2 ^ 32) with 4294967296; lia). lia. }
  case_decide as Hlarge; [eapply wp_run; [done|]; split; [done|by left]|].
  eapply (fits_put room); [destruct Hh; by split|done| |].
  { rewrite Hann. f_equal. rewrite length_app. cbn [concat]. rewrite !length_app. cbn [length]. lia. }
  intros b2 Hb2. unfold enable_by_ref_instrumentation. wp_step (apply compress_slot_run).
  eapply wp_mono; [apply (within_add_ref_structs _ room args b2 _ Ha (proj2 (token_code_length _)) Hb2)|..|done].
  intros b3 s3 [Hs3 Hb3]. split; [done|]. cbn [additional_locals app concat] in *. rewrite !app_nil_r in Hb3.
  by do 2 (rewrite <-?app_assoc in Hb3; cbn [app] in Hb3).
Qed.

(** ** The indices *)

(** The types of the new locals, in order. *)
Definition new_locals (s' : context MD) (returnType : option (list Z)) (wrapper : list Z) (refStructs : nat) : list (list Z) :=
  option_list returnType ++ [ELEMENT_TYPE_CLASS :: code_of s' exTypeRef; wrapper] ++
  additional_locals (code_of s' exTypeRef) (code_of s' callTargetRefStructTypeRef) refStructs ++
  [ELEMENT_TYPE_VALUETYPE :: code_of s' callTargetStateTypeRef].

(** The local at [index], the new ones following [n] others, has the type. *)
Definition local_at (n : Z) (locals : list (list Z)) (type : list Z) (index : Z) : Prop :=
  n ≤ index ∧ locals !! Z.to_nat (index - n) = Some type.

Lemma local_at_app n pre type post : local_at n (pre ++ type :: post) type (n + Z.of_nat (length pre)).
Proof. split; [lia|]. replace (Z.to_nat _) with (length pre) by lia. by rewrite list_lookup_middle. Qed.

(** Each index is that of the local meant for it. *)
Record indices_right (n : Z) (locals : list (list Z)) (returnType : option (list Z)) (wrapper : list Z)
    (s' : context MD) (refStructs : nat) (info : LocalsInfo) : Prop := {
  ir_state : local_at n locals (ELEMENT_TYPE_VALUETYPE :: token_code (callTargetStateToken info)) (callTargetStateIndex info);
  ir_exception : local_at n locals (ELEMENT_TYPE_CLASS :: token_code (exceptionToken info)) (exceptionIndex info);
  ir_wrapper : local_at n locals wrapper (callTargetReturnIndex info);
  ir_return : match returnType with
              | Some type => local_at n locals type (returnValueIndex info)
              | None => returnValueIndex info = ULONG_MAX
              end;
  ir_additional : Forall2 (local_at n locals)
    (additional_locals (code_of s' exTypeRef) (code_of s' callTargetRefStructTypeRef) refStructs)
    (additionalLocalIndices info);
}.

Lemma additional_length ex refStruct k : length (additional_locals ex refStruct k) = (2 + k)%nat.
Proof. unfold additional_locals, ref_struct_locals. rewrite length_app, length_replicate. done. Qed.

Lemma indices_are_right s' n returnType wrapper refStructs tk :
  0 ≤ n < 2 ^ 16 → Z.of_nat refStructs < 2 ^ 16 →
  indices_right n (new_locals s' returnType wrapper refStructs) returnType wrapper s' refStructs
    (local_indices (n + Z.of_nat (length (new_locals s' returnType wrapper refStructs))) (2 + Z.of_nat refStructs)
       (bool_decide (is_Some returnType)) (2 + refStructs) (c_tokens s' callTargetStateTypeRef) (c_tokens s' exTypeRef) tk).
Proof.
  intros Hn Hr. set (ls := new_locals s' returnType wrapper refStructs).
  set (ex := code_of s' exTypeRef). set (rs := code_of s' callTargetRefStructTypeRef).
  set (pre := option_list returnType). set (add := additional_locals ex rs refStructs).
  assert (Hadd : length add = (2 + refStructs)%nat) by apply additional_length.
  assert (Hls : ls = pre ++ (ELEMENT_TYPE_CLASS :: ex) :: wrapper :: add ++ [ELEMENT_TYPE_VALUETYPE :: code_of s' callTargetStateTypeRef]) by done.
  assert (Hlen : length ls = (length pre + (5 + refStructs))%nat).
  { rewrite Hls, length_app. cbn [length]. rewrite length_app, Hadd. cbn [length]. lia. }
  assert (Hpre : (length pre ≤ 1)%nat) by (unfold pre; destruct returnType; cbn; lia).
  assert (Hw : u32 (3 + (2 + Z.of_nat refStructs)) = 5 + Z.of_nat refStructs) by (rewrite wrap_small by lia; lia).
  assert (Hsmall : ∀ k, 0 ≤ k < 2 ^ 20 → u32 k = k) by (intros; apply wrap_small; lia).
  unfold local_indices. rewrite Hw. split; cbn [callTargetStateToken callTargetStateIndex exceptionToken exceptionIndex
    callTargetReturnIndex returnValueIndex additionalLocalIndices].
  - rewrite Hsmall by lia. assert (Hs : ls = (pre ++ (ELEMENT_TYPE_CLASS :: ex) :: wrapper :: add) ++ [ELEMENT_TYPE_VALUETYPE :: code_of s' callTargetStateTypeRef])
      by (by rewrite Hls, <-app_assoc).
    replace (n + Z.of_nat (length ls) - 1) with (n + Z.of_nat (length (pre ++ (ELEMENT_TYPE_CLASS :: ex) :: wrapper :: add))).
    { rewrite Hs at 1. apply local_at_app. }
    rewrite length_app. cbn [length]. lia.
  - rewrite Hsmall by lia. replace (_ - _) with (n + Z.of_nat (length pre)) by lia. rewrite Hls. apply local_at_app.
  - rewrite Hsmall by lia. rewrite Hls. change (?x :: ?y :: ?l) with ([x] ++ y :: l). rewrite app_assoc.
    replace (_ - _) with (n + Z.of_nat (length (pre ++ [ELEMENT_TYPE_CLASS :: ex]))); [apply local_at_app|].
    rewrite <-app_assoc. cbn [app]. rewrite <-Hls, length_app. cbn [length]. lia.
  - unfold pre in *. destruct returnType as [type|]; [|done]. rewrite bool_decide_true by done.
    assert (Hlen' : length ls = (6 + refStructs)%nat) by (rewrite Hlen; done). rewrite Hsmall by lia. replace (_ - _) with (n + Z.of_nat (length (A := list Z) [])) by (cbn [length]; lia).
    rewrite Hls. apply (local_at_app n []).
  - apply Forall2_same_length_lookup_2; [by rewrite length_fmap, length_seq|].
    intros i type index Htype Hidx. apply list_lookup_fmap_Some in Hidx as (j & -> & Hj). apply lookup_seq in Hj as [-> Hj].
    rewrite Nat.add_0_l. rewrite Hsmall by lia. split; [lia|].
    replace (Z.to_nat _) with (length pre + (2 + i))%nat by lia. rewrite Hls, lookup_app_r by lia.
    replace (length pre + (2 + i) - length pre)%nat with (S (S i)) by lia.
    change (_ !! _) with ((add ++ [ELEMENT_TYPE_VALUETYPE :: code_of s' callTargetStateTypeRef]) !! i). rewrite lookup_app_l by lia. exact Htype.
Qed.
End Additional.

Section Layout.
Context {MD : Type} `{!Metadata MD} (Hmd : metadata_ok MD).
Context (signature_uninit : list Z) (Hun : length signature_uninit = signatureBufferSize).
Context (corAssemblyProperty : assembly_ref) (assemblyReference : AssemblyReference).
Context (bubble_up_type bubble_up_function : bool).

Context (by_ref_like : list Z → bool).

Abbreviation ref_structs := (ref_structs by_ref_like).
Abbreviation Ensure :=
  (EnsureBaseCalltargetTokens signature_uninit corAssemblyProperty assemblyReference bubble_up_type bubble_up_function).

#[local] Hint Resolve quiet_define_type quiet_define_member quiet_GetTypeFromHandle quiet_GetDefault
  quiet_bubble_up_signature quiet_CreateRefStruct quiet_ensure_bubble_up quiet_EnsureBase : quiet.

(** ** The tokens are there *)

Lemma wp_ensure_bind slot (define : T MD (Z * Z)) {B} (k : T MD B) s P X :
  within OnlyMetadata define (λ r, 0 ≤ r.1 → r.2 ≠ slot_nil slot) →
  (∀ e s', settled s s' → X e s') →
  (∀ s', settled s s' → defined s' slot → wp k s' P X) → wp (ensure slot define;; k) s P X.
Proof.
  intros Hd HX Hk. apply wp_bind. eapply wp_mono; [by apply wp_ensure|..]; [|by apply HX].
  intros _ s' [Hs Hn]. by apply Hk.
Qed.

Lemma within_on_md_full {A} R (f : MD → Z * A * MD) (Q : Z * A → Prop) : (∀ md, Q (f md).1) → within R (on_md f) Q.
Proof. intros HQ s. eapply wp_run; [apply on_md_run|]. split; [apply changes_md|apply HQ]. Qed.

Lemma define_type_nonnil slot name slot' : slot_nil slot' = mdTypeRefNil →
  within OnlyMetadata (define_type slot name : T MD _) (λ r, 0 ≤ r.1 → r.2 ≠ slot_nil slot').
Proof.
  intros ->. eapply within_bind; [apply within_token|]. intros scope _. apply within_on_md_full. intros md. apply mk_type, Hmd.
Qed.

Lemma wp_after_quiet {A B} (m : T MD A) (k : A → T MD B) s P X :
  quiet m → (∀ e s', settled s s' → X e s') → (∀ a s', settled s s' → wp (k a) s' P X) → wp (m ≫= k) s P X.
Proof. intros Hm HX Hk. eapply (wp_within NilTokens); [exact Hm|by apply HX|]. intros. by apply Hk. Qed.

Lemma wp_quiet_end {A} (m : T MD A) s (P : A → context MD → Prop) X :
  quiet m → (∀ e s', settled s s' → X e s') → (∀ s', settled s s' → ∀ a, P a s') → wp m s P X.
Proof. intros Hm HX Hk. eapply wp_mono; [apply Hm|..]; [intros a s' [Hs _]; by apply Hk|apply HX]. Qed.

(** Everything reached so far is settled since the start. *)
Ltac settle := repeat first
  [eassumption | apply same_settled; eassumption | etrans; [eassumption|] | etrans; [apply same_settled; eassumption|]].

Lemma wp_EnsureCorLib s :
  wp (EnsureCorLibTokens signature_uninit corAssemblyProperty) s
    (λ _ s', settled s s' ∧ defined s' objectTypeRef ∧ defined s' exTypeRef) (λ _ s', settled s s').
Proof.
  unfold EnsureCorLibTokens. apply wp_bind.
  assert (Hc : wp (ensure_corLibAssemblyRef corAssemblyProperty) s (λ b s', settled s s' ∧ b = true) (λ _ s', settled s s')).
  { unfold ensure_corLibAssemblyRef. eapply wp_run_bind; [done|]. case_decide as Hn; [|by eapply wp_run].
    unfold checked. apply wp_bind, wp_bind. eapply wp_run; [apply on_md_run|].
    pose proof (mk_assembly _ Hmd corAssemblyProperty (c_md s)) as Hlaw.
    assert (Hs : settled s (set_md (DefineAssemblyRef corAssemblyProperty (c_md s)).2 s)) by done.
    destruct (DefineAssemblyRef corAssemblyProperty (c_md s)) as [[hr tk] md]. simpl in *.
    case_decide; [done|]. eapply wp_run; [done|]. rewrite decide_False by (apply Hlaw; lia).
    apply wp_bind. eapply (wp_set_token s); [done..|]. intros s' Hs' _. by eapply wp_run. }
  eapply wp_mono; [exact Hc|..|done]. intros ? s0 [Hs0 ->]. simpl negb. cbv iota.
  eapply wp_ensure_bind; [by apply define_type_nonnil|intros; settle|]. intros s1 Hs1 Ho.
  eapply wp_ensure_bind; [by apply define_type_nonnil|intros; settle|]. intros s2 Hs2 Hx.
  eapply wp_quiet_end; [repeat quiet_step|intros; settle|].
  intros s3 Hs3 _. split; [settle|]. split; [|by eapply defined_settled].
  eapply defined_settled; [|exact Ho]. settle.
Qed.

(** The reference to the type of the bubble-up exception can be defined. *)
Definition bubble_up_definable : Prop :=
  ∀ scope md, 0 ≤ (DefineTypeRefByName scope calltarget_bubble_up_exception_type_name md).1.1.

(** The type of the bubble-up exception, where there is one. *)
Definition bubble_up_defined (s : context MD) : Prop :=
  bubble_up_type = true → bubble_up_definable → defined s bubbleUpExceptionTypeRef.

Lemma bubble_up_settled s s' : settled s s' → bubble_up_defined s → bubble_up_defined s'.
Proof. intros Hs Hb ? ?. eapply defined_settled; [exact Hs|]. by apply Hb. Qed.

Lemma wp_ensure_bubble_up s :
  wp (ensure_bubble_up signature_uninit bubble_up_type bubble_up_function) s
    (λ _ s', settled s s' ∧ bubble_up_defined s') (λ _ s', settled s s').
Proof.
  unfold ensure_bubble_up, bubble_up_defined, bubble_up_definable. eapply wp_run_bind; [done|].
  case_decide as Hc; [|eapply wp_run; [done|]; split; [done|]; intros Hb _ Hn; by apply Hc].
  destruct Hc as [Hb Hn]. unfold define_type. apply wp_bind. eapply wp_run_bind; [done|]. eapply wp_run; [apply on_md_run|].
  pose proof (mk_type _ Hmd (c_tokens s profilerAssemblyRef) calltarget_bubble_up_exception_type_name (c_md s)) as Hlaw.
  destruct (DefineTypeRefByName _ _ (c_md s)) as [[hr new] md] eqn:Hget. cbn [fst snd] in *.
  assert (Hs1 : settled s (set_md md s)) by done. apply wp_bind. eapply (wp_set_token s); [done..|]. intros s2 Hs2 Ht2.
  case_decide as Hhr.
  { eapply (wp_set_token s); [done..|]. intros s3 Hs3 _. split; [done|]. intros _ Hall.
    specialize (Hall (c_tokens s profilerAssemblyRef) (c_md s)). rewrite Hget in Hall. cbn in Hall. lia. }
  assert (Hd : defined s2 bubbleUpExceptionTypeRef) by (unfold defined; rewrite Ht2; apply Hlaw; lia).
  eapply wp_run_bind; [done|]. case_decide as Hf; [destruct Hf as [_ Hf]|by eapply wp_run].
  eapply (wp_within OnlyMetadata); [apply quiet_define_member, quiet_bubble_up_signature; done| |].
  - intros e s3 Hs3. etrans; [exact Hs2|by apply same_settled].
  - intros [memberHr fn] s3 Hs3 _. eapply (wp_set_token s2); [by apply same_settled|done|].
    intros s4 Hs4 _. split; [by etrans|]. intros _ _. by eapply defined_settled.
Qed.

Lemma wp_EnsureBase s :
  wp Ensure s (λ _ s', settled s s' ∧ base_defined s' ∧ bubble_up_defined s') (λ _ s', settled s s').
Proof.
  unfold CallTargetTokens.EnsureBaseCalltargetTokens, EnsureBaseCalltargetTokens_base. apply wp_bind, wp_bind.
  eapply wp_mono; [apply wp_EnsureCorLib|..|done]. intros _ s0 (Hs0 & Ho & Hx).
  eapply wp_after_quiet; [repeat quiet_step|intros; settle|]. intros _ s1 Hs1.
  eapply wp_ensure_bind; [by apply define_type_nonnil|intros; settle|]. intros s2 Hs2 Hc.
  eapply wp_ensure_bind; [by apply define_type_nonnil|intros; settle|]. intros s3 Hs3 Ht.
  eapply wp_after_quiet; [repeat quiet_step|intros; settle|]. intros _ s4 Hs4.
  eapply wp_mono; [by apply wp_ensure, define_type_nonnil|..]; [|intros; settle]. intros _ s5 [Hs5 Hr].
  assert (Hbase : base_defined s5).
  { assert (settled s3 s5) as H35 by settle. assert (settled s2 s5) as H25 by settle. assert (settled s0 s5) as H05 by settle.
    repeat constructor; [eapply defined_settled, Ho|eapply defined_settled, Hx|eapply defined_settled, Hc|
      eapply defined_settled, Ht|exact Hr]; done. }
  apply wp_bind. eapply wp_mono; [apply wp_ensure_bubble_up|..]; [|intros; settle]. intros _ s6 [Hs6 Hb6].
  eapply wp_quiet_end; [repeat quiet_step|intros; settle|]. intros s7 Hs7 _. split; [settle|].
  split; [eapply (carry s5); [settle|done]|by eapply bubble_up_settled].
Qed.

(** ** The local for the result and its wrapper *)

Lemma wp_or_nil nil (m : T MD Z) s (Q : Z → context MD → Prop) (X : HRESULT → context MD → Prop) :
  wp m s Q X → (∀ e s', X e s' → Q nil s') → wp (or_nil nil m) s Q (λ _ _, False).
Proof.
  intros Hm HX. unfold or_nil. apply wp_bind. unfold wp, attempt in *. destruct (m s) as [[tk|e| |] s']; try done. by eapply HX.
Qed.

Lemma wp_signature_checked {B} pieces n s (k : list Z → T MD B) P X :
  length (concat pieces) = n → (∀ e, X e s) →
  ((n ≤ signatureBufferSize)%nat → wp (k (concat pieces)) s P X) → wp (signature_checked signature_uninit pieces n ≫= k) s P X.
Proof.
  intros Hn HX Hk. unfold signature_checked. apply wp_bind. case_decide; [by apply HX|].
  destruct (put_all_exact signature_uninit pieces n Hn) as (buf & -> & Hr); [lia|]. wp_step done. cbn [fst snd].
  rewrite decide_False by (by intros []). rewrite Hr. eapply wp_run; [done|]. apply Hk. lia.
Qed.

(** [CallTargetReturn<ret>] *)
Definition wrapper_type (callTargetReturnType ret : list Z) : list Z :=
  [ELEMENT_TYPE_GENERICINST; ELEMENT_TYPE_VALUETYPE] ++ callTargetReturnType ++ 0x01 :: ret.

Abbreviation ReturnValueTypeRef :=
  (GetTargetReturnValueTypeRef signature_uninit corAssemblyProperty assemblyReference bubble_up_type bubble_up_function).

Lemma wp_GetTargetReturnValueTypeRef ret s :
  wp (ReturnValueTypeRef ret) s (λ tk s', settled s s' ∧ (tk = mdTypeSpecNil ∨
       ∃ sig md hr, sig = wrapper_type (code_of s' callTargetReturnTypeRef) ret ∧ (length sig ≤ signatureBufferSize)%nat ∧
         GetTokenFromTypeSpec sig md = (hr, tk, c_md s') ∧ 0 ≤ hr))
    (λ _ _, False).
Proof.
  unfold GetTargetReturnValueTypeRef. eapply (wp_or_nil _ _ _ _ (λ _ s', settled s s')).
  2: by intros e s' Hs'; split; [|left].
  eapply wp_after_quiet; [repeat quiet_step|done|]. intros _ s1 Hs1.
  eapply wp_after_quiet; [repeat quiet_step|intros; settle|]. intros _ s2 Hs2.
  assert (Hs : settled s s2) by settle. wp_step (apply compress_slot_run).
  set (code := code_of s2 callTargetReturnTypeRef). apply wp_signature_checked; [|done|].
  { cbn. rewrite !length_app. cbn. rewrite length_app. cbn. lia. }
  intros Hlen. unfold checked. eapply wp_run_bind; [apply on_md_run|].
  assert (Hsig : concat [[ELEMENT_TYPE_GENERICINST]; [ELEMENT_TYPE_VALUETYPE]; code; [0x01]; ret] = wrapper_type code ret)
    by (unfold wrapper_type; cbn; by rewrite app_nil_r).
  assert (Hl2 : (length (wrapper_type code ret) ≤ signatureBufferSize)%nat).
  { unfold wrapper_type. rewrite !length_app. cbn. lia. }
  rewrite Hsig. destruct (GetTokenFromTypeSpec _ (c_md s2)) as [[hr tk] md] eqn:Hget. cbn [fst snd].
  assert (Hs3 : settled s (set_md md s2)) by (etrans; [exact Hs|by split]).
  case_decide; [done|]. eapply wp_run; [done|]. split; [done|]. right. eexists _, (c_md s2), hr.
  split_and!; [reflexivity|done|exact Hget|lia].
Qed.

(** What [return_locals] gives: the type of the local for the result, that of its wrapper. *)
Definition return_types (ret : list Z) (s' : context MD) (r : option (list Z) * list Z * Z) : Prop :=
  let '(returnType, wrapper, tk) := r in
  if decide (type_flags ret = TypeFlagVoid) then returnType = None ∧ wrapper = ELEMENT_TYPE_VALUETYPE :: token_code tk
  else returnType = Some ret ∧ wrapper = wrapper_type (code_of s' callTargetReturnTypeRef) ret ∧
       (length wrapper ≤ signatureBufferSize)%nat.

Lemma wp_return_locals ret s :
  readable ret →
  wp (return_locals signature_uninit corAssemblyProperty assemblyReference bubble_up_type bubble_up_function ret) s
    (λ r s', settled s s' ∧ return_types ret s' r) (λ _ s', settled s s').
Proof.
  intros Hr. unfold return_locals, return_types. destruct (element_type_and_flags_run ret s Hr) as [e He].
  eapply wp_run_bind; [exact He|]. cbn [fst snd].
  destruct (decide (type_flags ret = TypeFlagVoid)) as [Hv|Hv]; [rewrite decide_False by tauto|rewrite decide_True by done]; cycle 1.
  - apply wp_bind. eapply wp_mono; [apply wp_GetTargetReturnValueTypeRef|..|done]. intros tk s1 [Hs1 Htk].
    eapply wp_run_bind; [apply on_md_run|]. cbv beta.
    destruct (GetTypeSpecFromToken tk (c_md s1)) as [[hr sig] md] eqn:Hget. cbn [fst snd].
    assert (Hs2 : settled s (set_md md s1)) by (etrans; [exact Hs1|by split]).
    case_decide as Hhr; [done|]. eapply wp_run; [done|]. split; [done|]. split; [done|].
    destruct Htk as [->|(sig' & md' & hr' & -> & Hlen & Hdef & Hok)].
    + pose proof (mk_no_type_spec _ Hmd (c_md s1)). rewrite Hget in *. cbn in *. lia.
    + pose proof (mk_type_spec _ Hmd (wrapper_type (code_of s1 callTargetReturnTypeRef) ret) md') as Hlaw.
      rewrite Hdef in Hlaw. cbn in Hlaw. rewrite Hget in Hlaw. cbn in Hlaw. rewrite Hlaw by lia. done.
  - eapply wp_after_quiet; [unfold GetTargetVoidReturnTypeRef; repeat quiet_step|done|]. intros tk s1 Hs1.
    unfold compress_token. rewrite CorSigCompressToken_packed. wp_step done. by eapply wp_run.
Qed.

(** ** The signature before *)

Definition original (il : ILRewriter) (sig : list Z) : Prop :=
  if decide (m_tkLocalVarSig il = mdTokenNil) then sig = []
  else ∃ md, 0 ≤ (GetSigFromToken (m_tkLocalVarSig il) md).1.1 ∧ sig = (GetSigFromToken (m_tkLocalVarSig il) md).1.2.

Lemma wp_original_locals s :
  wp original_locals s (λ sig s', same_tokens s s' ∧ original (c_il s) sig) (λ _ s', same_tokens s s').
Proof.
  unfold original_locals, original. wp_step (unfold on_il; run_by done; reflexivity). case_decide; [by eapply wp_run|].
  unfold checked. apply wp_bind, wp_bind. eapply wp_run; [apply on_md_run|]. cbn [c_md].
  destruct (GetSigFromToken _ (c_md s)) as [[hr sig] md] eqn:Hget. cbn [fst snd].
  assert (Hor : ∃ md, 0 ≤ hr → 0 ≤ (GetSigFromToken (m_tkLocalVarSig (c_il s)) md).1.1 ∧ sig = (GetSigFromToken (m_tkLocalVarSig (c_il s)) md).1.2)
    by (exists (c_md s); rewrite Hget; done).
  destruct Hor as [md0 Hor]. case_decide; [done|]. eapply wp_run; [done|]. wp_step (apply compress_slot_run).
  case_decide; [|eapply wp_run; [done|]; split; [done|]; exists md0; apply Hor; lia].
  match goal with |- context [sig !! ?i] => destruct (lookup_lt_is_Some_2 sig i) as [b Hb]; [lia|] end.
  rewrite Hb. wp_step done. case_decide; [done|]. eapply wp_run; [done|]. split; [done|]. exists md0; apply Hor; lia.
Qed.

(** The original locals: their number and types. *)
Definition original_types (il : ILRewriter) (n : Z) (types : list Z) : Prop :=
  if decide (m_tkLocalVarSig il = mdTokenNil) then n = 0 ∧ types = []
  else ∃ md, 0 ≤ (GetSigFromToken (m_tkLocalVarSig il) md).1.1 ∧
             local_signature (GetSigFromToken (m_tkLocalVarSig il) md).1.2 n types.

(** What the signature's bytes say. *)
Definition split_signature (il : ILRewriter) (sig : list Z) (n : Z) (types : list Z) : Prop :=
  if decide (m_tkLocalVarSig il = mdTokenNil) then sig = [] ∧ n = 0 ∧ types = [] else local_signature sig n types.

Lemma original_split il sig :
  original il sig → ∃ n types, original_types il n types ∧ split_signature il sig n types.
Proof.
  unfold original, original_types, split_signature. case_decide; [intros ->; by exists 0, []|].
  intros (md & Hok & ->). destruct (mk_locals _ Hmd _ _ Hok) as (n & types & Hsig). by exists n, types; split; [exists md|].
Qed.

Section Split.
Context (il : ILRewriter) (sig : list Z) (n : Z) (types : list Z) (Hsplit : split_signature il sig n types).

Lemma split_count : 0 ≤ n < 2 ^ 16.
Proof. unfold split_signature in Hsplit. case_decide; [lia|]. by destruct Hsplit as (h & _ & ? & _). Qed.

Definition old_count_size : nat := if decide (m_tkLocalVarSig il = mdTokenNil) then 0%nat else length (packed n).

Lemma new_count_run k (s : context MD) :
  0 ≤ k < 2 ^ 17 → new_count sig k s = (Ret (n + k, old_count_size), s).
Proof.
  intros Hk. unfold new_count, split_signature, old_count_size in *. case_decide.
  - destruct Hsplit as (-> & -> & ->). rewrite decide_True by done. by rewrite wrap_small by lia.
  - destruct Hsplit as (h & -> & Hn & _). rewrite decide_False by done. unfold original_count. 
    unfold CorSigUncompressData_unchecked. rewrite skipn_cons, drop_0. pose proof (packed_length n).
    rewrite CorSigUncompressData_packed by lia. unfold mbind, stM_bind, mret, stM_ret.
    rewrite wrap_small by lia. do 3 f_equal; lia.
Qed.

Lemma put_original_fits room b w s B (k : SigBuffer → T MD B) P X :
  holds b w → ¬ too_large b → signatureSize b = Z.of_nat (length w + length types + room) →
  (∀ b', fits room b' (w ++ types) → wp (k b') s P X) → wp (put_original sig old_count_size b ≫= k) s P X.
Proof.
  intros Hb Ht Hs Hk. unfold put_original, split_signature, old_count_size in *. case_decide.
  - destruct Hsplit as (-> & -> & ->). rewrite decide_False by (cbn; lia). wp_step done. apply Hk.
    rewrite app_nil_r. split_and!; [done..|]. rewrite Hs. cbn. f_equal. lia.
  - destruct Hsplit as (h & -> & Hn & _). cbn [length]. rewrite decide_True by lia.
    rewrite decide_True by (rewrite length_app; lia). change (1 + ?m)%nat with (S m). cbn [drop].
    rewrite drop_app_length. eapply (fits_put room); [done..| |].
    + rewrite Hs. cbn [concat]. rewrite app_nil_r, length_app. done.
    + intros b'. cbn [concat]. rewrite app_nil_r. apply Hk.
Qed.

(** The size announced for the header and the locals whose size is known beforehand. *)
Lemma new_size_exact k known :
  (m_tkLocalVarSig il = mdTokenNil → k < 128) → 0 ≤ k < 2 ^ 17 → Z.of_nat known < 4096 →
  new_size sig (length sig + known) (packed (n + k)) old_count_size =
  Z.of_nat (length (IMAGE_CEE_CS_CALLCONV_LOCAL_SIG :: packed (n + k)) + length types + known).
Proof.
  intros Hnil Hk Hknown. unfold new_size, split_signature, old_count_size in *. case_decide.
  - destruct Hsplit as (-> & -> & ->). rewrite decide_True by done. cbn [length]. unfold packed. rewrite decide_True by (specialize (Hnil H); lia).
    cbn [length]. rewrite wrap_small by lia. lia.
  - destruct Hsplit as (h & -> & Hn & Hlen). rewrite decide_False by done. cbn [length] in *. rewrite length_app in *.
    pose proof (packed_length n). pose proof (packed_length (n + k)). rewrite wrap_small by lia. lia.
Qed.
End Split.

(** ** The new signature *)

Abbreviation Modify :=
  (ModifyLocalSig signature_uninit corAssemblyProperty assemblyReference bubble_up_type bubble_up_function).

(** The new signature of a method whose locals were [n] with the bytes [types]. *)
Definition extended (n : Z) (types : list Z) (locals : list (list Z)) : list Z :=
  IMAGE_CEE_CS_CALLCONV_LOCAL_SIG :: packed (n + Z.of_nat (length locals)) ++ types ++ concat locals.

Record new_layout (ret : list Z) (args : list (list Z)) (s s' : context MD) (info : LocalsInfo)
    (n : Z) (types : list Z) (returnType : option (list Z)) (wrapper : list Z) : Prop := {
  nl_original : original_types (c_il s) n types;
  nl_return : return_types ret s' (returnType, wrapper, callTargetReturnToken info);
  nl_signature : ∃ md hr, 0 ≤ hr ∧
    GetTokenFromSig (extended n types (new_locals s' returnType wrapper (ref_structs args))) md =
    (hr, m_tkLocalVarSig (c_il s'), c_md s');
  nl_room : (length (extended n types (new_locals s' returnType wrapper (ref_structs args))) ≤ signatureBufferSize)%nat;
  nl_indices : indices_right n (new_locals s' returnType wrapper (ref_structs args)) returnType wrapper s' (ref_structs args) info;
  nl_tokens : base_defined s' ∧ ∀ slot, defined s slot → c_tokens s' slot = c_tokens s slot;
  nl_bubble_up : bubble_up_defined s';
  nl_il : c_il s' = upd_m_fGenerateTinyHeader (λ _, false) (upd_m_tkLocalVarSig (λ _, m_tkLocalVarSig (c_il s')) (c_il s));
}.

Lemma return_lengths ret (s' : context MD) r wrapper tk :
  return_types ret s' (r, wrapper, tk) → (length (default [] r) ≤ 500 ∧ length wrapper ≤ 500)%nat.
Proof.
  unfold return_types, signatureBufferSize. case_decide.
  - intros [-> ->]. cbn. pose proof (token_code_length tk). lia.
  - intros (-> & -> & Hl). split; [|done]. unfold wrapper_type in Hl. rewrite !length_app in Hl. simpl in *. lia.
Qed.

(** The number of the new locals, as the code counts it and as they are. *)
Lemma new_locals_length (s' : context MD) r wrapper k :
  length (new_locals s' r wrapper k) = (5 + k + (match r with Some _ => 1 | None => 0 end))%nat.
Proof. unfold new_locals. rewrite !length_app, additional_length. destruct r; cbn; lia. Qed.

Lemma concat_new_locals (s' : context MD) r wrapper k :
  concat (new_locals s' r wrapper k) =
  (concat [default [] r; [ELEMENT_TYPE_CLASS]; code_of s' exTypeRef; wrapper] ++
   concat (additional_locals (code_of s' exTypeRef) (code_of s' callTargetRefStructTypeRef) k)) ++
  concat [[ELEMENT_TYPE_VALUETYPE]; code_of s' callTargetStateTypeRef].
Proof.
  unfold new_locals. rewrite !concat_app. cbn [concat]. rewrite !app_nil_r.
  assert (Hr : concat (option_list r) = default [] r) by (destruct r; [apply app_nil_r|done]).
  rewrite Hr. by do 3 (rewrite <-?app_assoc; cbn [app]).
Qed.

Lemma code_settled (s s' : context MD) slot : settled s s' → defined s slot → code_of s' slot = code_of s slot.
Proof. intros Hs Hd. unfold code_of. by destruct (defined_settled _ _ _ Hs Hd) as [_ ->]. Qed.

Lemma concat_header (h : Z) l : concat [[h]; l] = h :: l.
Proof. cbn. by rewrite app_nil_r. Qed.

Section Build.
Context (il : ILRewriter) (sig : list Z) (n : Z) (types : list Z) (Hsplit : split_signature il sig n types).

Lemma wp_build_signature ret r wrapper tk args s :
  return_types ret s (r, wrapper, tk) → answers by_ref_like args → Z.of_nat (length args) < 2 ^ 16 - 8 →
  (m_tkLocalVarSig il = mdTokenNil → (ref_structs args < 122)%nat) →
  let locals := new_locals s r wrapper (ref_structs args) in
  wp (build_signature signature_uninit sig r wrapper (code_of s exTypeRef) (code_of s callTargetStateTypeRef)
        (Z.of_nat (length locals)) args) s
    (λ '(count, bytes) s', same_tokens s s' ∧ count = n + Z.of_nat (length locals) ∧
       bytes = extended n types locals ∧ (length bytes ≤ signatureBufferSize)%nat)
    (λ _ s', same_tokens s s').
Proof.
  intros Hret Hargs Hlen Hnil locals. set (k := Z.of_nat (length locals)).
  assert (Hrefs : (ref_structs args ≤ length args)%nat) by apply length_filter.
  assert (Hk : k = 5 + Z.of_nat (ref_structs args) + (match r with Some _ => 1 | None => 0 end)).
  { unfold k, locals. rewrite new_locals_length. destruct r; lia. }
  destruct (return_lengths _ _ _ _ _ Hret) as [Hr Hw].
  pose proof (split_count _ _ _ _ Hsplit) as Hn.
  set (ex := code_of s exTypeRef). set (state := code_of s callTargetStateTypeRef).
  assert (1 ≤ length ex ≤ 4)%nat as Hex by apply token_code_length.
  assert (1 ≤ length state ≤ 4)%nat as Hstate by apply token_code_length.
  unfold build_signature. eapply wp_run_bind; [apply (new_count_run _ _ _ _ Hsplit); destruct r; lia|]. cbv beta iota.
  rewrite CorSigCompressData_packed by (destruct r; lia). wp_step done.
  rewrite (new_size_exact _ _ _ _ Hsplit) by (try destruct r; lia).
  set (room := (1 + length state)%nat). case_decide as Hlarge; [done|].
  eapply (fits_put (length types + (length (default [] r) + (1 + length ex) + length wrapper + room)) _ []);
    [by split|exact Hlarge| |].
  { cbn [signatureSize concat app length]. rewrite app_nil_r. f_equal. lia. }
  cbn [app]. rewrite concat_header. intros b1 (Hb1 & Ht1 & Hs1).
  eapply (put_original_fits _ _ _ _ Hsplit (length (default [] r) + (1 + length ex) + length wrapper + room)); [done..|lia|].
  intros b2 (Hb2 & Ht2 & Hs2). eapply (fits_put room); [done..| |].
  { rewrite Hs2. f_equal. rewrite (length_app _ (concat _)). cbn [concat]. rewrite app_nil_r, !length_app. cbn [length]. lia. }
  intros b3 Hb3. apply wp_bind. eapply wp_mono; [by apply wp_AddAdditionalLocals|..|done].
  intros b4 s4 [Hs4 [Ht4|(Hb4 & Ht4 & Hsize4)]]; [by rewrite decide_True|]. rewrite decide_False by done.
  unfold too_large in Ht4. edestruct (put_run b4 _ [[ELEMENT_TYPE_VALUETYPE]; state] s4 Hb4) as (b5 & Hput & Hb5 & Hsize5).
  { rewrite (length_app _ (concat _)), concat_header. cbn [length]. unfold room in *. lia. }
  eapply wp_run_bind; [exact Hput|]. destruct Hb5 as [Hlen5 Hoff5 Hbytes5].
  assert (Hfin : signatureSize b5 = Z.of_nat (signatureOffset b5)).
  { rewrite Hsize5, Hoff5, Hsize4. f_equal. rewrite concat_header, (length_app _ (_ :: _)). done. }
  rewrite decide_False by (rewrite Hfin; tauto). rewrite Hfin, Nat2Z.id, Hoff5. unfold read_buffer.
  match type of Hbytes5 with _ = ?bytes => set (w := bytes) in * end. assert (Hw5 : (length w ≤ signatureBufferSize)%nat) by lia.
  rewrite decide_True by (rewrite Hlen5; exact Hw5). rewrite Hbytes5. wp_step done. eapply wp_run; [done|].
  assert (Hext : w = extended n types locals).
  { unfold w, extended, locals. rewrite concat_new_locals. by do 3 (rewrite <-?app_assoc; cbn [app]). }
  rewrite <-Hext. done.
Qed.
End Build.

Theorem modify_layout ret args s :
  readable ret → answers by_ref_like args → Z.of_nat (length args) < 2 ^ 16 - 8 →
  (m_tkLocalVarSig (c_il s) = mdTokenNil → (ref_structs args < 122)%nat) →
  wp (Modify ret args (2 + ref_structs args)) s
    (λ info s', ∃ n types returnType wrapper, new_layout ret args s s' info n types returnType wrapper)
    (λ _ s', settled s s').
Proof.
  intros Hret Hargs Hlen Hnil. unfold ModifyLocalSig. apply wp_bind.
  eapply wp_mono; [apply wp_EnsureBase|..|done]. intros _ s1 (Hs1 & Hbase & Hbubble).
  apply wp_bind. eapply wp_mono; [apply wp_original_locals|..]; [|intros; settle].
  intros sig s2 [Hs2 Horig]. destruct (original_split _ _ Horig) as (n & types & Hnt & Hsplit).
  apply wp_bind. unfold GetAdditionalLocalsCount, enable_by_ref_instrumentation.
  eapply (wp_within OnlyMetadata); [by apply within_count|intros; settle|].
  intros count s3 Hs3 ->. eapply wp_run; [done|]. do 2 (wp_step (apply compress_slot_run)).
  apply wp_bind. eapply wp_mono; [by apply wp_return_locals|..]; [|intros; settle].
  intros [[returnType wrapper] tk] s4 [Hs4 Hret4].
  assert (Hs13 : settled s1 s3) by settle. assert (Hs14 : settled s1 s4) by (etrans; [exact Hs13|exact Hs4]).
  assert (Hdef : ∀ slot, slot ∈ base_slots → defined s1 slot) by (by apply Forall_forall).
  assert (Hcode : ∀ slot, slot ∈ base_slots → code_of s3 slot = code_of s4 slot).
  { intros slot Hslot. rewrite (code_settled s1 s4), (code_settled s1 s3); auto. }
  rewrite !Hcode by (unfold base_slots; set_solver). set (locals := new_locals s4 returnType wrapper (ref_structs args)).
  replace (3 + _ + _) with (Z.of_nat (length locals)).
  2: { unfold locals. rewrite new_locals_length. destruct returnType; lia. }
  rewrite (st_il _ _ Hs1) in *. apply wp_bind. eapply wp_mono; [by eapply wp_build_signature|..]; [|intros; settle].
  intros [count bytes] s5 (Hs5 & -> & -> & Hroom). unfold checked. apply wp_bind, wp_bind. eapply wp_run; [apply on_md_run|].
  destruct (GetTokenFromSig _ (c_md s5)) as [[hr new] md] eqn:Hget. cbn [fst snd].
  assert (Hs6 : settled s (set_md md s5)) by (trans s5; [settle|by split]). case_decide; [done|]. eapply wp_run; [done|].
  pose proof (sa_tokens _ _ Hs5) as Htok. pose proof (st_il _ _ Hs6) as Hil. cbn [c_il set_md] in Hil.
  eapply wp_run; [reflexivity|]. exists n, types, returnType, wrapper. cbn [c_tokens set_md].
  rewrite Htok. unfold on_il. cbn [c_il set_md SetTkLocalVarSig]. split.
  - exact Hnt.
  - exact Hret4.
  - exists (c_md s5), hr. split; [lia|exact Hget].
  - exact Hroom.
  - match goal with |- indices_right _ _ _ _ ?s' _ _ =>
      refine (indices_are_right s' n returnType wrapper (ref_structs args) tk _ _); [by eapply split_count|] end.
    pose proof (length_filter (λ a, by_ref_like a = true) args) as Hf. unfold LocalSignature.ref_structs. lia.
  - split; [by eapply (carry s1 s4)|]. intros slot Hslot. rewrite <-(st_tokens _ _ Hs6 _ Hslot). cbn. by rewrite Htok.
  - assert (Hb4 : bubble_up_defined s4) by (by eapply bubble_up_settled). intros H1 H2. specialize (Hb4 H1 H2).
    exact Hb4.
  - cbn. by rewrite Hil.
Qed.
End Layout.
