(* ===== verification/TracerCode.v ===== *)
(** * What the calls into the managed profiler emit

    A logic for the operations that emit code: [writes m Q] says that [m] is safe, that it links a
    run of new instructions in before the cursor and changes nothing else of the method body, and
    what these instructions are.  With it the code of every operation of TracerTokens. *)

From S2P Require Import Prelude ILOpcodes ILList ILEncoding ILImport ILExport ILRewriterWrapper CorSig Signature SignatureBuilder.
From S2P Require Import Emission CallTargetTokens CallTargetTokensSafe LocalSignature TracerTokens MethodRewriter.

Abbreviation code := (list (Z * Z)).

(** ** The logic *)

Lemma on_il_bind {MD A C} (m : stM ILRewriter HRESULT A) (k : A → stM ILRewriter HRESULT C) (s : context MD) :
  on_il (m ≫= k) s = (on_il m ≫= λ a, on_il (k a)) s.
Proof.
  unfold on_il, mbind, stM_bind. destruct (m (c_il s)) as [[a|e| |] r]; cbn; try done; by destruct (k a r).
Qed.

Section Writes.
Context {MD : Type}.

(** The tokens that are defined from the beginning, and their values. *)
Context (slots : list TokenSlot) (tk : TokenSlot → Z).

Definition knows (s : context MD) : Prop := ∀ slot, slot ∈ slots → defined s slot ∧ c_tokens s slot = tk slot.

Lemma knows_settled s s' : settled s s' → knows s → knows s'.
Proof. intros Hs Hk slot Hslot. destruct (Hk slot Hslot) as [Hd <-]. by eapply defined_settled. Qed.

(** What follows the cursor. *)
Context (B : prog).

Record wrote_code (P : prog) (s s' : context MD) (c : code) : Prop := {
  wc_run : emitted_run (c_il s) P B c (c_il s');
  wc_tokens : ∀ slot, defined s slot → c_tokens s' slot = c_tokens s slot;
  wc_knows : knows s';
}.

(** The value and the code, from the address of the first new instruction. *)
Definition writes {A} (m : T MD A) (Q : Z → A → code → Prop) : Prop := ∀ P s,
  knows s → program (c_il s) (P ++ B) → 0 ≤ m_nInstrs (c_il s) < 2 ^ 32 →
  wp m s (λ a s', ∃ c, wrote_code P s s' c ∧ Q (il_fresh (c_il s)) a c) (λ _ s', frame (c_il s') = frame (c_il s)).

Lemma writes_mono {A} (m : T MD A) (Q Q' : Z → A → code → Prop) :
  writes m Q → (∀ f a c, Q f a c → Q' f a c) → writes m Q'.
Proof. intros Hm HQ P s Hk HP Hn. eapply wp_mono; [by apply (Hm P)|..|done]. intros a s' (c & Hc & Ha). eauto. Qed.

Lemma writes_settled {A} (m : T MD A) (Q : A → Prop) :
  within NilTokens m Q → writes m (λ _ a c, c = [] ∧ Q a).
Proof.
  intros Hm P s Hk HP Hn. eapply wp_mono; [apply Hm|..].
  - intros a s' [Hs Ha]. pose proof Hs as [Hil Ht]. exists []. split; [|done].
    split; [rewrite Hil; by apply emitted_nil|exact Ht|by eapply knows_settled].
  - intros e s' [Hil _]. by rewrite Hil.
Qed.

Lemma writes_ret {A} (a : A) (Q : Z → A → code → Prop) : (∀ f, Q f a []) → writes (mret a) Q.
Proof.
  intros HQ. eapply writes_mono; [apply (writes_settled _ (eq a)); by apply within_ret|]. intros f a' c [-> <-]. apply HQ.
Qed.

Lemma writes_throw {A} e (Q : Z → A → code → Prop) : writes (throw e) Q.
Proof. intros P s _ _ _. by unfold wp; cbn. Qed.

Lemma writes_bind {A C} (m : T MD A) (k : A → T MD C) (Q : Z → A → code → Prop) (R : Z → C → code → Prop) :
  writes m Q →
  (∀ f a c, Q f a c → writes (k a) (λ f' b c', f' = f + Z.of_nat (length c) → R f b (c ++ c'))) →
  writes (m ≫= k) R.
Proof.
  intros Hm Hk P s Hs HP Hn. apply wp_bind. eapply wp_mono; [by apply (Hm P)|..|done].
  intros a s1 (c1 & [Hr1 Ht1 Hk1] & Ha). pose proof Hr1 as [HP1 Hf1 Hfr1 Hn1]. rewrite app_assoc in HP1.
  eapply wp_mono; [apply (Hk _ _ _ Ha (P ++ number (il_fresh (c_il s)) c1)); [done|done|]|..].
  - rewrite Hn1. apply wrap_range. lia.
  - intros b s2 (c2 & [Hr2 Ht2 Hk2] & Hb). exists (c1 ++ c2). split; [|by apply Hb].
    split; [by eapply emitted_trans| |done]. intros slot Hd. rewrite Ht2; [by apply Ht1|]. unfold defined. by rewrite Ht1.
  - intros e s2 ->. exact Hfr1.
Qed.

Lemma writes_throw_bind {A C} e (k : A → T MD C) R : writes (throw e ≫= k) R.
Proof. intros P s _ _ _. by unfold wp; cbn. Qed.

(** An operation that changes no code comes first. *)
Lemma writes_after {A C} (m : T MD A) (k : A → T MD C) (Q : A → Prop) (R : Z → C → code → Prop) :
  within NilTokens m Q → (∀ a, Q a → writes (k a) R) → writes (m ≫= k) R.
Proof.
  intros Hm Hk. eapply writes_bind; [by apply writes_settled|]. intros f a c [-> Ha].
  eapply writes_mono; [by apply Hk|]. intros f' b c' HR ->. cbn in HR. by rewrite Z.add_0_r in HR.
Qed.

(** An operation whose failures come before its first instruction. *)
Definition clean {A} (m : T MD A) (Q : Z → A → code → Prop) : Prop := ∀ P s,
  knows s → program (c_il s) (P ++ B) → 0 ≤ m_nInstrs (c_il s) < 2 ^ 32 →
  wp m s (λ a s', ∃ c, wrote_code P s s' c ∧ Q (il_fresh (c_il s)) a c) (λ _ s', settled s s').

Lemma clean_writes {A} (m : T MD A) (Q : Z → A → code → Prop) : clean m Q → writes m Q.
Proof.
  intros Hm P s Hk HP Hn. eapply wp_mono; [by apply (Hm P)|done|]. intros e s' [Hil _]. by rewrite Hil.
Qed.

Lemma clean_mono {A} (m : T MD A) (Q Q' : Z → A → code → Prop) :
  clean m Q → (∀ f a c, Q f a c → Q' f a c) → clean m Q'.
Proof. intros Hm HQ P s Hk HP Hn. eapply wp_mono; [by apply (Hm P)|..|done]. intros a s' (c & Hc & Ha). eauto. Qed.

Lemma clean_after {A C} (m : T MD A) (k : A → T MD C) (Q : A → Prop) (R : Z → C → code → Prop) :
  within NilTokens m Q → (∀ a, Q a → clean (k a) R) → clean (m ≫= k) R.
Proof.
  intros Hm Hk P s Hs HP Hn. eapply (wp_within NilTokens); [exact Hm|done|]. intros a s1 Hs1 Ha.
  pose proof Hs1 as [Hil Ht]. rewrite <-Hil in HP, Hn.
  eapply wp_mono; [by apply (Hk a Ha P); [eapply knows_settled|..]|..]; [|intros e s2 Hs2; by etrans].
  intros b s2 (c & [Hr Ht2 Hk2] & Hb). exists c. rewrite Hil in Hr, Hb. split; [|done]. split; [done| |done].
  intros slot Hd. rewrite Ht2; [by apply Ht|]. unfold defined. by rewrite Ht.
Qed.

Lemma clean_quiet {A C} (m : T MD A) (k : A → T MD C) (R : Z → C → code → Prop) :
  quiet m → (∀ a, clean (k a) R) → clean (m ≫= k) R.
Proof. intros Hm Hk. eapply clean_after; [exact Hm|]. intros a _. apply Hk. Qed.

Lemma writes_attempt {A} (m : T MD A) (Q : Z → A → code → Prop) :
  clean m Q → writes (attempt m) (λ f r c, match r with inl _ => c = [] | inr a => Q f a c end).
Proof.
  intros Hm P s Hk HP Hn. specialize (Hm P s Hk HP Hn). unfold wp, attempt in *.
  destruct (m s) as [[a|e| |] s']; [done| |done..]. exists []. split; [|done]. pose proof Hm as [Hil Ht].
  split; [rewrite Hil; by apply emitted_nil|exact Ht|by eapply knows_settled].
Qed.

Lemma writes_ext {A} (m m' : T MD A) Q : (∀ s, m s = m' s) → writes m' Q → writes m Q.
Proof. intros He Hm P s Hk HP Hn. unfold wp. rewrite He. by apply (Hm P). Qed.

Lemma writes_assoc {A C D} (m : T MD A) (k : A → T MD C) (h : C → T MD D) R :
  writes (m ≫= λ a, k a ≫= h) R → writes ((m ≫= k) ≫= h) R.
Proof. apply writes_ext. intros s. unfold mbind, stM_bind. by destruct (m s) as [[]]. Qed.

Lemma writes_ret_bind {A C} (a : A) (k : A → T MD C) R : writes (k a) R → writes (mret a ≫= k) R.
Proof. by apply writes_ext. Qed.

Lemma writes_or_skip {A} (m : T MD A) Q : writes m Q → writes (or_skip m) Q.
Proof.
  intros Hm P s Hk HP Hn. specialize (Hm P s Hk HP Hn). unfold or_skip, wp, attempt, mbind, stM_bind in *.
  by destruct (m s) as [[a|e| |] s'].
Qed.

Lemma writes_on_il_bind {A C D} (m : stM ILRewriter HRESULT A) (k : A → stM ILRewriter HRESULT C) (h : C → T MD D) R :
  writes (on_il m ≫= λ a, on_il (k a) ≫= h) R → writes (on_il (m ≫= k) ≫= h) R.
Proof.
  apply writes_ext. intros s. unfold mbind at 1, stM_bind at 1. rewrite on_il_bind. unfold mbind, stM_bind.
  by destruct (on_il m s) as [[]].
Qed.

Lemma writes_on_il_ret {C D} (x : C) (h : C → T MD D) R : writes (h x) R → writes (on_il (mret x) ≫= h) R.
Proof. apply writes_ext. intros s. unfold on_il, mbind, stM_bind. cbn. by destruct s. Qed.

(** The value of a token that is known. *)
Lemma writes_token {C} slot (k : Z → T MD C) (R : Z → C → code → Prop) :
  slot ∈ slots → writes (k (tk slot)) R → writes (token slot ≫= k) R.
Proof.
  intros Hslot Hk P s Hs HP Hn. eapply wp_run_bind; [done|]. destruct (Hs slot Hslot) as [_ ->]. by apply Hk.
Qed.

(** One instruction. *)
Lemma clean_emission (m : stM ILRewriter HRESULT Z) it :
  emission (first_of B) m it → clean (on_il m) (λ f a c, a = f ∧ c = [it]).
Proof.
  intros Hm P s Hk HP Hn. destruct (emitted_step _ _ _ _ _ (emitted_nil _ _ _ HP Hn) m it Hm) as (r' & Hr & Hem).
  cbn [length app] in *. rewrite Z.add_0_r in Hr. unfold wp, on_il. rewrite Hr.
  eexists. split; [|done]. split; [exact Hem|done|exact Hk].
Qed.
End Writes.

(** One instruction and what follows it. *)
Lemma writes_emit_then {MD C} slots tk B m it (k : Z → T MD C) (R : Z → C → code → Prop) :
  emission (first_of B) m it → (∀ f, writes slots tk B (k f) (λ f' b c, f' = f + 1 → R f b (it :: c))) →
  writes slots tk B (on_il m ≫= k) R.
Proof.
  intros Hm Hk. eapply writes_bind; [by apply clean_writes, clean_emission|]. intros f a c [-> ->]. apply Hk.
Qed.

(** The lemma on the operation of the wrapper, for a wrapper at the cursor. *)
Ltac emission :=
  match goal with H : m_ILInstr ?this = first_of ?B |- _ => rewrite <-H end;
  first [by apply emission_opcode | by apply emission_arg32 | by apply emission_int32
    | by apply emission_StLocal | by apply emission_LoadLocal | by apply emission_LoadArgument
    | by apply emission_LoadLocalAddress | by apply emission_LoadArgumentRef].
Ltac emit := eapply writes_emit_then; [emission|intros ?].

(** ** Accumulated code *)

Section Accumulate.
Context {MD : Type} (slots : list TokenSlot) (tk : TokenSlot → Z) (B P : prog) (s0 : context MD) (c : code) (s : context MD).
Context (Hw : wrote_code slots tk B P s0 s c).

Lemma wp_writes {A C} (m : T MD A) (k : A → T MD C) Q R X :
  writes slots tk B m Q → (∀ e s', frame (c_il s') = frame (c_il s0) → X e s') →
  (∀ a s' c', wrote_code slots tk B P s0 s' (c ++ c') → Q (il_fresh (c_il s0) + Z.of_nat (length c)) a c' → wp (k a) s' R X) →
  wp (m ≫= k) s R X.
Proof.
  intros Hm HX Hk. destruct Hw as [Hr Ht Hkn]. pose proof Hr as [HP Hf Hfr Hn]. rewrite app_assoc in HP. apply wp_bind.
  eapply wp_mono; [apply (Hm _ s Hkn HP); rewrite Hn; apply wrap_range; lia|..].
  - intros a s' (c' & [Hr' Ht' Hkn'] & Ha). rewrite Hf in Ha. eapply Hk; [|exact Ha]. split; [by eapply emitted_trans| |done].
    intros slot Hd. rewrite Ht'; [by apply Ht|]. unfold defined. by rewrite Ht.
  - intros e s' He. apply HX. congruence.
Qed.

Lemma wp_patch n g op arg op' arg' {C} (k : unit → T MD C) R X :
  c !! n = Some (op, arg) → keeps_links g →
  (∀ i, m_opcode i = op → m_Arg i = arg → data_of (g i) = (op', m_offset i, arg')) →
  (∀ s', wrote_code slots tk B P s0 s' (<[n := (op', arg')]> c) → wp (k tt) s' R X) →
  wp (on_il (write_instr (il_fresh (c_il s0) + Z.of_nat n) g) ≫= k) s R X.
Proof.
  intros Hn Hg Hd Hk. destruct Hw as [Hr Ht Hkn]. destruct (emitted_write _ _ _ _ _ Hr n g op arg op' arg' Hn Hg Hd) as (r' & Hrun & Hem).
  eapply wp_run_bind; [unfold on_il; rewrite Hrun; reflexivity|]. by apply Hk.
Qed.
End Accumulate.

Lemma wrote_nothing {MD} slots tk B P (s : context MD) :
  knows slots tk s → program (c_il s) (P ++ B) → 0 ≤ m_nInstrs (c_il s) < 2 ^ 32 → wrote_code slots tk B P s s [].
Proof. intros Hk HP Hn. by split; [apply emitted_nil| |]. Qed.

Lemma wp_assoc {MD A C D} (m : T MD A) (k : A → T MD C) (h : C → T MD D) s Q X :
  wp (m ≫= λ a, k a ≫= h) s Q X → wp ((m ≫= k) ≫= h) s Q X.
Proof. unfold wp, mbind, stM_bind. by destruct (m s) as [[]]. Qed.

(** Filling in an operand that is still zero. *)
Lemma data_set_Arg32 op v i : m_opcode i = op → m_Arg i = 0 → data_of (set_Arg32 v i) = (op, m_offset i, u32 v).
Proof. intros <- Ha. unfold data_of. rewrite <-(set_low_zero 32 v i Ha) by lia. done. Qed.

Lemma data_set_pTarget op arg p i : m_opcode i = op → m_Arg i = arg → data_of (set_pTarget p i) = (op, m_offset i, p).
Proof. by intros <- _. Qed.

(** ** The calls *)

(** One call instruction or none. *)
Definition optional_call (c : code) : Prop := c = [] ∨ ∃ m, c = [(CEE_CALL, m)].

(** One call instruction, whose address is returned. *)
Definition is_call (f a : Z) (c : code) : Prop := a = f ∧ ∃ m, c = [(CEE_CALL, m)].

Section Calls.
Context {MD : Type} `{!Metadata MD}.
Context (signature_uninit : list Z) (Hun : length signature_uninit = signatureBufferSize).
Context (corAssemblyProperty : assembly_ref) (assemblyReference : AssemblyReference).
Context (bubble_up_type bubble_up_function : bool).
Context (slots : list TokenSlot) (tk : TokenSlot → Z) (B : prog) (this : ILRewriterWrapper) (Hthis : m_ILInstr this = first_of B).

Abbreviation op f := (f signature_uninit corAssemblyProperty assemblyReference bubble_up_type bubble_up_function).

#[local] Hint Resolve quiet_define_type quiet_define_member quiet_EnsureBase : quiet.

Lemma clean_call m : clean slots tk B (on_il (CallMember this m false) : T MD Z) (λ f a c, a = f ∧ c = [(CEE_CALL, u32 m)]).
Proof. apply clean_emission. rewrite <-Hthis. by apply emission_arg32. Qed.

Lemma clean_call_spec m sig : clean slots tk B (call_spec this m sig) is_call.
Proof.
  unfold call_spec. apply clean_quiet; [repeat quiet_step|]. intros spec.
  eapply clean_mono; [apply clean_call|]. intros f a c [-> ->]. split; eauto.
Qed.

Lemma quiet_current_type t : quiet (current_type t : T MD _).
Proof. unfold current_type, GetCurrentTypeRef. repeat quiet_step. Qed.
Hint Resolve quiet_current_type : quiet.

Lemma quiet_sig pieces n : (length (concat pieces) ≤ n ≤ 500)%nat → quiet (signature_n signature_uninit pieces n : T MD _).
Proof. intros. apply within_same. by apply quiet_sig_n. Qed.

Lemma quiet_two_types integration t : quiet (two_types_signature signature_uninit integration t : T MD _).
Proof.
  unfold two_types_signature. quiet_step. quiet_step; [apply quiet_current_type|]. destruct a0. quiet_step.
  apply quiet_sig. sig_lia.
Qed.
Hint Resolve quiet_two_types : quiet.

Lemma clean_WriteLogException integration t : clean slots tk B (op WriteLogException this integration t) is_call.
Proof.
  unfold WriteLogException. apply clean_quiet; [by apply quiet_EnsureBase|intros _].
  apply clean_quiet; [|intros _].
  { apply within_ensure_in_place, quiet_define_member. unfold LogException_signature. quiet_step.
    apply quiet_sig_n; [done|]. sig_lia. }
  apply clean_quiet; [apply quiet_two_types|intros sig]. apply clean_quiet; [repeat quiet_step|intros m].
  apply clean_call_spec.
Qed.

(** *** BeginMethod *)

Lemma quiet_BeginMethod_array : quiet (define_member callTargetTypeRef "BeginMethod" (BeginMethod_array_signature signature_uninit) : T MD _).
Proof.
  apply within_same, quiet_define_member. unfold BeginMethod_array_signature. quiet_step. apply quiet_sig_n; [done|]. sig_lia.
Qed.

Lemma clean_WriteBeginMethodWithArgumentsArray integration t :
  clean slots tk B (op WriteBeginMethodWithArgumentsArray this integration t) is_call.
Proof.
  unfold WriteBeginMethodWithArgumentsArray. apply clean_quiet; [by apply quiet_EnsureBase|intros _].
  apply clean_quiet; [|intros _].
  { apply within_ensure_in_place, quiet_define_member. unfold BeginMethod_array_signature. quiet_step.
    apply quiet_sig_n; [done|]. sig_lia. }
  apply clean_quiet; [apply quiet_two_types|intros sig]. apply clean_quiet; [repeat quiet_step|intros m].
  apply clean_call_spec.
Qed.

(** The bytes written for the signature of BeginMethod. *)
Lemma BeginMethod_pieces_length (b : bool) l :
  length (concat (concat ((λ i, (if b then [[ELEMENT_TYPE_BYREF]] else []) ++ [[ELEMENT_TYPE_MVAR]; [0x01 + (Z.of_nat i + 1)]]) <$> l))) =
  ((if b then 3 else 2) * length l)%nat.
Proof.
  induction l as [|i l IH]; [by destruct b|]. rewrite fmap_cons. cbn [concat length].
  rewrite concat_app, length_app, IH. destruct b; cbn; lia.
Qed.

Lemma steady_BeginMethod_signature n ignore :
  (n < FASTPATH_COUNT)%nat → steady (BeginMethod_signature signature_uninit n ignore : T MD _).
Proof.
  intros Hn. unfold FASTPATH_COUNT in Hn. unfold BeginMethod_signature. quiet_step. apply quiet_sig_n; [done|].
  rewrite concat_app, length_app. rewrite BeginMethod_pieces_length, length_seq. token_lengths.
  cbn [concat]. rewrite !length_app. cbn [length]. destruct (negb ignore); cbn; lia.
Qed.

Lemma quiet_BeginMethod_fast n ignore :
  (n < FASTPATH_COUNT)%nat → quiet (BeginMethod_fast signature_uninit n ignore : T MD _).
Proof.
  intros Hn s. unfold BeginMethod_fast. eapply wp_run_bind; [done|]. case_decide as Hc; [|by eapply wp_run].
  eapply (wp_within OnlyMetadata _ _ (λ _, True)).
  - apply (within_checked _ _ (λ _, True)), quiet_define_member. by apply steady_BeginMethod_signature.
  - intros. by apply same_settled.
  - intros m s1 Hs1 _. destruct ignore; [by eapply wp_run; [|split; [apply same_settled|]]|].
    destruct Hc as [|Hnil]; [done|]. apply wp_bind.
    eapply (wp_set_token s); [by apply same_settled|done|]. intros s2 Hs2 _. by eapply wp_run.
Qed.

Lemma within_nonempty R (sig : list Z) : readable sig → within R (lift_option (sig !! 0%nat) : T MD _) (λ _, True).
Proof. intros [_ Ht _]. destruct sig as [|b sig]; [done|]. by apply within_ret. Qed.

Lemma quiet_argument_signature a : readable a → quiet (argument_signature a : T MD _).
Proof.
  intros Ha. unfold argument_signature. eapply within_bind; [by apply within_element_type_and_flags|]. intros [e f] _.
  apply (within_bind NilTokens _ _ (λ _, True)); [by apply within_same, steady_is_by_ref_like|]. intros b _.
  repeat case_decide; [repeat quiet_step| |by apply within_ret].
  apply (within_bind NilTokens _ _ (λ _, True)); [by apply within_nonempty|]. intros. by apply within_ret.
Qed.

Lemma quiet_arguments_signatures args : Forall readable args → quiet (arguments_signatures args : T MD _).
Proof.
  induction 1 as [|a args Ha _ IH]; [by apply within_ret|]. cbn [arguments_signatures].
  apply (within_bind NilTokens _ _ (λ _, True)); [by apply quiet_argument_signature|]. intros.
  apply (within_bind NilTokens _ _ (λ _, True)); [exact IH|]. intros. by apply within_ret.
Qed.

Lemma quiet_signature_checked pieces n : n = length (concat pieces) → quiet (signature_checked signature_uninit pieces n : T MD _).
Proof.
  intros -> s. unfold signature_checked. case_decide; [done|].
  destruct (put_all_exact signature_uninit pieces _ eq_refl) as (buf & -> & Hr); [lia|]. wp_step done. cbn [fst snd].
  rewrite decide_False by tauto. rewrite Hr. by eapply wp_run.
Qed.

Lemma clean_WriteBeginMethod integration t args ignore :
  Forall readable args → clean slots tk B (op WriteBeginMethod this integration t args ignore) is_call.
Proof.
  intros Ha. unfold WriteBeginMethod. apply clean_quiet; [by apply quiet_EnsureBase|intros _].
  case_decide; [apply clean_WriteBeginMethodWithArgumentsArray|].
  apply clean_quiet; [apply quiet_BeginMethod_fast; lia|intros m]. eapply clean_after; [apply within_compress_token|]. intros it ->.
  apply clean_quiet; [apply quiet_current_type|intros [e c]]. eapply clean_after; [apply within_compress_token|]. intros ct ->.
  apply clean_quiet; [by apply quiet_arguments_signatures|intros sigs].
  apply clean_quiet; [|intros sig; apply clean_call_spec]. apply quiet_signature_checked.
  rewrite concat_app, length_app. cbn [concat]. rewrite !length_app. cbn [length]. lia.
Qed.

(** *** EnsureRuntimeAsyncCallbacksSupported and EndMethod *)

Lemma quiet_lift_outcome {A} (o : outcome unit A) : returns o → quiet (lift_outcome o : T MD _).
Proof. unfold returns. destruct o; [|done..]. intros _. by apply within_ret. Qed.

Lemma clean_WriteEnsureRuntimeAsync integration t ret declared :
  clean slots tk B (op WriteEnsureRuntimeAsyncCallbacksSupported this integration t ret declared) is_call.
Proof.
  unfold WriteEnsureRuntimeAsyncCallbacksSupported. apply clean_quiet; [by apply quiet_EnsureBase|intros _].
  apply clean_quiet; [|intros _].
  { apply within_ensure_in_place, quiet_define_member. apply (within_mono OnlyMetadata _ (λ _, True)); [|done].
    unfold EnsureRuntimeAsync_signature. destruct (bool_decide _); by apply within_ret. }
  apply clean_quiet; [apply quiet_current_type|intros [e c]]. apply clean_quiet; [|intros sig].
  { apply quiet_lift_outcome. destruct (bool_decide _); unfold PushToken; rewrite !CorSigCompressToken_packed; done. }
  apply clean_quiet; [repeat quiet_step|intros m]. apply clean_call_spec.
Qed.

Lemma quiet_EndMethod_spec integration t n results : quiet (EndMethod_spec_signature integration t n results : T MD _).
Proof.
  unfold EndMethod_spec_signature. quiet_step. quiet_step; [apply quiet_current_type|]. destruct a0. repeat quiet_step.
Qed.

Lemma steady_EndMethod_void b : steady (EndMethod_void_signature signature_uninit b : T MD _).
Proof.
  unfold EndMethod_void_signature. do 3 quiet_step. apply quiet_sig_n; [done|].
  unfold state_by_ref, enable_calltarget_state_by_ref. token_lengths; cbn [app concat length];
    repeat (rewrite length_app; cbn [length]); lia.
Qed.

Lemma steady_EndMethod_return b : steady (EndMethod_return_signature signature_uninit b : T MD _).
Proof.
  unfold EndMethod_return_signature. do 3 quiet_step. apply quiet_sig_n; [done|].
  unfold state_by_ref, enable_calltarget_state_by_ref. token_lengths; cbn [app concat length];
    repeat (rewrite length_app; cbn [length]); lia.
Qed.

Lemma clean_WriteEndVoid integration t declared :
  clean slots tk B (op WriteEndVoidReturnMemberRef this integration t declared) is_call.
Proof.
  unfold WriteEndVoidReturnMemberRef. apply clean_quiet; [by apply quiet_EnsureBase|intros _].
  apply clean_quiet; [apply within_ensure_in_place, quiet_define_member, steady_EndMethod_void|intros _].
  apply clean_quiet; [apply quiet_EndMethod_spec|intros sig]. apply clean_quiet; [repeat quiet_step|intros m].
  apply clean_call_spec.
Qed.

Lemma quiet_ReturnValueTypeRef ret : quiet (op GetTargetReturnValueTypeRef ret : T MD _).
Proof.
  unfold GetTargetReturnValueTypeRef. apply within_or_nil.
  apply (within_bind NilTokens _ _ (λ _, True)); [by apply quiet_EnsureBase|intros _ _].
  apply (within_bind NilTokens _ _ (λ _, True)); [repeat quiet_step|intros _ _]. quiet_step.
  apply (within_bind NilTokens _ _ (λ _, True)); [|intros; repeat quiet_step].
  apply quiet_signature_checked. cbn [concat]. rewrite !length_app. cbn [length]. lia.
Qed.

Lemma clean_WriteEndReturn integration t ret declared :
  clean slots tk B (op WriteEndReturnMemberRef this integration t ret declared) is_call.
Proof.
  unfold WriteEndReturnMemberRef. apply clean_quiet; [by apply quiet_EnsureBase|intros _].
  apply clean_quiet; [apply quiet_ReturnValueTypeRef|intros _].
  apply clean_quiet; [apply (within_checked _ _ (λ _, True)), within_same, quiet_define_member, steady_EndMethod_return|intros m].
  apply clean_quiet; [apply quiet_EndMethod_spec|intros sig]. apply clean_call_spec.
Qed.

(** *** CreateRefStruct *)

(** A by-ref-like argument on the stack becomes the address of its wrapper. *)
Definition ref_struct_code (refStructIndex type call : Z) : code :=
  [(CEE_CONV_U, 0); (CEE_LDTOKEN, type); (CEE_CALL, call); stloc_code refStructIndex; ldloca_code refStructIndex].

Lemma writes_WriteRefStructCall type index :
  0 ≤ index → writes slots tk B (op WriteRefStructCall this type index)
    (λ _ _ c, ∃ call, c = ref_struct_code index (u32 type) call).
Proof.
  intros Hi. unfold WriteRefStructCall.
  eapply writes_after; [by apply quiet_EnsureBase|]. intros _ _.
  eapply writes_after; [apply within_token|]. intros call _. case_decide; [apply writes_throw|].
  emit.
  emit.
  emit.
  emit.
  emit.
  apply writes_ret. intros. by exists (u32 call).
Qed.

(** *** The defaults of the locals, the result in its wrapper *)

Lemma quiet_GetCallTargetReturnVoidDefault : quiet (op GetCallTargetReturnVoidDefaultMemberRef : T MD _).
Proof.
  unfold GetCallTargetReturnVoidDefaultMemberRef. apply within_or_nil.
  apply (within_bind NilTokens _ _ (λ _, True)); [by apply quiet_EnsureBase|intros _ _].
  apply (within_bind NilTokens _ _ (λ _, True)); [|intros; repeat quiet_step].
  apply within_ensure, quiet_define_member, quiet_GetDefault. done.
Qed.

Lemma quiet_GetCallTargetReturnValueDefault spec : quiet (op GetCallTargetReturnValueDefaultMemberRef spec : T MD _).
Proof.
  unfold GetCallTargetReturnValueDefaultMemberRef. apply within_or_nil.
  apply (within_bind NilTokens _ _ (λ _, True)); [by apply quiet_EnsureBase|intros _ _].
  apply (within_bind NilTokens _ _ (λ _, True)); [repeat quiet_step|intros t _]. case_decide; [repeat quiet_step|]. quiet_step.
  apply (within_bind NilTokens _ _ (λ _, True)); [apply quiet_sig; sig_lia|intros; repeat quiet_step].
Qed.

Lemma quiet_GetCallTargetDefaultValue ret : quiet (op GetCallTargetDefaultValueMethodSpec ret : T MD _).
Proof.
  unfold GetCallTargetDefaultValueMethodSpec. apply within_or_nil.
  apply (within_bind NilTokens _ _ (λ _, True)); [by apply quiet_EnsureBase|intros _ _].
  apply (within_bind NilTokens _ _ (λ _, True)).
  - apply within_attempt_any, within_ensure, quiet_define_member. apply quiet_sig_n; [done|]. cbn. lia.
  - intros [e|] _; [by apply within_ret|].
    apply (within_bind NilTokens _ _ (λ _, True)); [|intros; repeat quiet_step].
    apply quiet_signature_checked. cbn [concat]. rewrite !length_app. cbn [length]. lia.
Qed.

(** Without the reference to GetReturnValue nothing is emitted, and no failure reported. *)
Lemma writes_GetReturnValue spec :
  writes slots tk B (op WriteCallTargetReturnGetReturnValue this spec) (λ _ _ c, optional_call c).
Proof.
  unfold WriteCallTargetReturnGetReturnValue. eapply writes_after; [by apply within_attempt_any, quiet_EnsureBase|].
  intros [e|] _; [apply writes_ret; by left|].
  eapply writes_after; [apply quiet_sig; cbn; lia|]. intros sig _.
  eapply writes_after; [by apply (within_on_md _ _ (λ _, True))|]. intros [hr m] _. case_decide; [apply writes_ret; by left|].
  emit. apply writes_ret. intros. right. eauto.
Qed.

Definition initialize_code (returnIndex : option Z) (wrapperIndex exceptionIndex : Z) (c : code) : Prop := ∃ m1 m2,
  c = (match returnIndex with Some i => [(CEE_CALL, m1); stloc_code i] | None => [] end) ++
      [(CEE_CALL, m2); stloc_code wrapperIndex; (CEE_LDNULL, 0); stloc_code exceptionIndex].

(** The index of the local for the result, if there is one. *)
Definition return_index (info : LocalsInfo) : option Z :=
  if decide (returnValueIndex info ≠ ULONG_MAX) then Some (returnValueIndex info) else None.

Lemma writes_initialize_locals ret info :
  0 ≤ returnValueIndex info → 0 ≤ callTargetReturnIndex info → 0 ≤ exceptionIndex info →
  writes slots tk B (op initialize_locals this ret info)
    (λ f a c, a = f ∧ initialize_code (return_index info) (callTargetReturnIndex info) (exceptionIndex info) c).
Proof.
  intros Hr Hw He. unfold initialize_locals, initialize_code, return_index. case_decide.
  - apply writes_assoc. eapply writes_after; [apply quiet_GetCallTargetDefaultValue|]. intros m1 _.
    case_decide; [apply writes_throw_bind|].
    apply writes_assoc. emit.
    apply writes_assoc. emit.
    apply writes_assoc. eapply writes_after; [apply quiet_GetCallTargetReturnValueDefault|]. intros m2 _.
    apply writes_assoc. emit.
    apply writes_assoc. emit. apply writes_ret_bind.
    emit.
    emit.
    apply writes_ret. intros. split; [done|]. eauto.
  - apply writes_assoc. eapply writes_after; [apply quiet_GetCallTargetReturnVoidDefault|]. intros m2 _.
    apply writes_assoc. emit.
    apply writes_assoc. emit. apply writes_ret_bind.
    emit.
    emit.
    apply writes_ret. intros. split; [done|]. exists 0. eauto.
Qed.
End Calls.
