(* ===== verification/MethodPieces.v ===== *)
(** * The pieces of a rewritten method (tracer_method_rewriter.cpp)

    The code that each piece of [Rewrite] emits: the instance, the arguments on the two paths, the
    handles of a traced method, the filter and the handler of a failed callback, the calls of
    BeginMethod and EndMethod with what surrounds them. *)

From S2P Require Import Prelude ILOpcodes ILList ILEncoding ILImport ILExport ILRewriterWrapper CorSig Signature.
From S2P Require Import Emission CallTargetTokens CallTargetTokensSafe LocalSignature TracerTokens TracerCode MethodRewriter.

(** A type of the metadata is readable. *)
Lemma readable_valuetype t : readable (ELEMENT_TYPE_VALUETYPE :: token_code t).
Proof.
  pose proof (token_number_range t). pose proof (packed_length (token_number t)) as Hl. split.
  - unfold token_code. by vm_compute.
  - cbn. intros _. unfold CorSigUncompressToken, CorSigUncompressData_unchecked, token_code. rewrite drop_0.
    rewrite <-(app_nil_r (packed _)), CorSigUncompressData_packed by lia. done.
  - done.
Qed.

Section Pieces.
Context {MD : Type} `{!Metadata MD}.
Context (signature_uninit : list Z) (Hun : length signature_uninit = signatureBufferSize).
Context (m_corProfiler : CorProfiler) (module_metadata : ModuleMetadata).
Context (slots : list TokenSlot) (tk : TokenSlot → Z) (B : prog) (this : ILRewriterWrapper) (Hthis : m_ILInstr this = first_of B).
Context (caller : FunctionInfo) (isStatic : bool).
Context (by_ref_like : list Z → bool).

Abbreviation writes m Q := (writes slots tk B m Q).

(** *** The instance *)

Definition instance_code (c : code) : Prop :=
  c = [(CEE_LDNULL, 0)] ∨ (isStatic = false ∧ (c = [ldarg_code 0] ∨ ∃ t, c = [ldarg_code 0; (CEE_LDOBJ, t)])).

Lemma quiet_GetCurrentTypeRef t : quiet (GetCurrentTypeRef t : T MD _).
Proof. unfold GetCurrentTypeRef. repeat quiet_step. Qed.

Lemma writes_load_instance : writes (load_instance this caller isStatic : T MD Z) (λ f a c, a = f ∧ instance_code c).
Proof.
  unfold load_instance, instance_code. destruct isStatic eqn:Hst.
  - destruct (TypeInfo_valueType _); [apply writes_throw|].
    eapply writes_mono; [apply clean_writes, clean_emission; rewrite <-Hthis; by apply emission_opcode|].
    intros f a c [-> ->]. eauto.
  - eapply writes_after; [apply quiet_GetCurrentTypeRef|]. intros [t b] _. case_decide.
    { eapply writes_mono; [apply clean_writes, clean_emission; rewrite <-Hthis; by apply emission_opcode|].
      intros f a c [-> ->]. eauto. }
    emit. destruct (TypeInfo_valueType _); [|apply writes_ret_bind, writes_ret; eauto].
    case_decide; [|destruct (negb _); [|apply writes_throw]].
    all: apply writes_assoc; emit; apply writes_ret_bind, writes_ret; eauto 6.
Qed.

(** *** The arguments *)

Abbreviation argument_index i := (argument_index isStatic i).

(** The argument itself if it is a reference already, else its address. *)
Definition load_code (argument : list Z) (i : Z) : Z * Z :=
  if decide (Z.land (type_flags argument) TypeFlagByRef ≠ 0) then ldarg_code (argument_index i)
  else ldarga_code (argument_index i).

(** The arguments from the [i]th on; each by-ref-like one takes the next of the locals [refs]. *)
Fixpoint fast_code (args : list (list Z)) (i : Z) (refs : list Z) (c : code) : Prop :=
  match args with
  | [] => c = []
  | a :: args =>
      if by_ref_like a then
        ∃ index refs' t call c', refs = index :: refs' ∧
          c = load_code a i :: ref_struct_code index t call ++ c' ∧ fast_code args (i + 1) refs' c'
      else ∃ c', c = load_code a i :: c' ∧ fast_code args (i + 1) refs c'
  end.

(** The arguments stored into the array on the stack, boxed where they are value types. *)
Fixpoint slow_code (args : list (list Z)) (i : Z) (c : code) : Prop :=
  match args with
  | [] => c = []
  | a :: args => ∃ box c', slow_code args (i + 1) c' ∧
      c = [(CEE_DUP, 0); int32_code i; ldarg_code (argument_index i)] ++ box ++ (CEE_STELEM_REF, 0) :: c' ∧
      if decide (Z.land (type_flags a) TypeFlagBoxedType ≠ 0) then ∃ t, box = [(CEE_BOX, t)] else box = []
  end.

Definition arguments_code (args : list (list Z)) (refs : list Z) (c : code) : Prop :=
  if decide (length args < FASTPATH_COUNT)%nat then fast_code args 0 refs c
  else ∃ t c', c = int32_code (Z.of_nat (length args)) :: (CEE_NEWARR, t) :: c' ∧ slow_code args 0 c'.

Section Arguments.
Context (args : list (list Z)) (refs : list Z).
Context (Hargs : answers (MD := MD) by_ref_like args) (Hrefs : length refs = ref_structs by_ref_like args) (Hpos : Forall (λ r, 0 ≤ r) refs).

Lemma argument_index_nonneg i : 0 ≤ i → 0 ≤ argument_index i.
Proof. unfold MethodRewriter.argument_index. destruct isStatic; lia. Qed.
Hint Resolve argument_index_nonneg : emission.

Lemma args_readable a : a ∈ args → readable a.
Proof. intros Ha. by apply Hargs. Qed.

Lemma writes_load_argument_fast pre a rest :
  args = pre ++ a :: rest →
  writes (load_argument_fast signature_uninit m_corProfiler module_metadata this isStatic args refs (length pre) (ref_structs by_ref_like pre) : T MD nat)
    (λ _ n c, n = ref_structs by_ref_like (pre ++ [a]) ∧
       ∀ c', fast_code rest (Z.of_nat (length pre) + 1) (drop n refs) c' →
             fast_code (a :: rest) (Z.of_nat (length pre)) (drop (ref_structs by_ref_like pre) refs) (c ++ c')).
Proof.
  intros Heq. assert (Ha : a ∈ args) by (rewrite Heq; set_solver).
  unfold load_argument_fast. rewrite Heq at 1. rewrite list_lookup_middle by done. apply writes_ret_bind.
  eapply writes_after; [by apply within_element_type_and_flags, args_readable|]. intros [e f]. cbn [snd]. intros ->.
  unfold enable_by_ref_instrumentation.
  assert (Hload : ∀ (k : Z → T MD nat) R, (∀ p, writes (k p) (λ f' b c, f' = f' → R b (load_code a (Z.of_nat (length pre)) :: c))) →
    writes ((if decide (Z.land (type_flags a) TypeFlagByRef ≠ 0) then on_il (LoadArgument this (argument_index (Z.of_nat (length pre))))
             else on_il (LoadArgumentRef this (argument_index (Z.of_nat (length pre))))) ≫= k)
      (λ _ b c, R b c)).
  { intros k R Hk. pose proof (argument_index_nonneg (Z.of_nat (length pre)) ltac:(lia)). unfold load_code in Hk.
    destruct (decide (Z.land (type_flags a) TypeFlagByRef ≠ 0));
      (emit; eapply writes_mono; [apply Hk|]; cbn; eauto). }
  apply Hload. intros _. eapply writes_after; [by apply within_same, (within_is_by_ref_like by_ref_like), (answers_elem _ _ args)|].
  intros b ->. assert (Hn : ref_structs by_ref_like (pre ++ [a]) =
    (if by_ref_like a then S (ref_structs by_ref_like pre) else ref_structs by_ref_like pre)).
  { rewrite ref_structs_app, ref_structs_cons. change (ref_structs by_ref_like []) with 0%nat. destruct (by_ref_like a); lia. }
  assert (Hle : (ref_structs by_ref_like (pre ++ [a]) ≤ length refs)%nat).
  { rewrite Hrefs, Heq, !ref_structs_app, !ref_structs_cons. change (ref_structs by_ref_like []) with 0%nat. destruct (by_ref_like a); lia. }
  destruct (by_ref_like a) eqn:Hb.
  - eapply writes_after; [apply within_token|]. intros corLib _.
    eapply writes_after; [by apply within_same, steady_GetTypeTok, args_readable|]. intros t _.
    destruct (lookup_lt_is_Some_2 refs (ref_structs by_ref_like pre)) as [r Hr]; [lia|]. rewrite Hr. apply writes_ret_bind.
    eapply writes_bind; [apply writes_WriteRefStructCall; [done..|]; by eapply (Forall_lookup_1 _ _ _ _ Hpos)|].
    intros f [] c [call ->]. apply writes_ret. intros f' _ _. split; [done|]. intros c' Hc'. cbn [fast_code]. rewrite Hb, Hn in *.
    exists r, (drop (S (ref_structs by_ref_like pre)) refs), (u32 t), call, c'. split; [by apply drop_S|]. by rewrite app_nil_r.
  - apply writes_ret. intros f' _. split; [done|]. intros c' Hc'. cbn [fast_code]. rewrite Hb, Hn in *. exists c'. done.
Qed.

Lemma writes_load_arguments_fast rest : ∀ pre, args = pre ++ rest →
  writes (load_arguments_fast signature_uninit m_corProfiler module_metadata this isStatic args refs
            (seq (length pre) (length rest)) (ref_structs by_ref_like pre) : T MD unit)
    (λ _ _ c, fast_code rest (Z.of_nat (length pre)) (drop (ref_structs by_ref_like pre) refs) c).
Proof.
  induction rest as [|a rest IH]; intros pre Heq; [by apply writes_ret|]. cbn [length seq load_arguments_fast].
  eapply writes_bind; [by apply (writes_load_argument_fast pre a rest)|]. intros f n c [-> Hc].
  eapply writes_mono.
  - replace (S (length pre)) with (length (pre ++ [a])) by (rewrite length_app; cbn; lia).
    apply IH. by rewrite <-app_assoc.
  - cbn beta. intros f' [] c' Hc' _. apply Hc. rewrite length_app in Hc'. cbn [length] in Hc'.
    by replace (Z.of_nat (length pre) + 1) with (Z.of_nat (length pre + 1)) by lia.
Qed.

Lemma writes_load_argument_slow pre a rest :
  args = pre ++ a :: rest →
  writes (load_argument_slow this isStatic args (length pre) : T MD unit)
    (λ _ _ c, ∀ c', slow_code rest (Z.of_nat (length pre) + 1) c' → slow_code (a :: rest) (Z.of_nat (length pre)) (c ++ c')).
Proof.
  intros Heq. assert (Ha : a ∈ args) by (rewrite Heq; set_solver).
  pose proof (argument_index_nonneg (Z.of_nat (length pre)) ltac:(lia)) as Hidx.
  unfold load_argument_slow, BeginLoadValueIntoArray, Duplicate. apply writes_on_il_bind. emit.
  apply writes_on_il_bind. emit. apply writes_on_il_ret. emit.
  rewrite Heq, list_lookup_middle by done. apply writes_ret_bind.
  eapply writes_after; [by apply within_element_type_and_flags, args_readable|]. intros [e fl]. cbn [snd]. intros ->.
  case_decide; [apply writes_throw|]. cbn [slow_code]. case_decide as Hbox.
  - apply writes_assoc. eapply writes_after; [apply within_token|]. intros corLib _.
    apply writes_assoc. eapply writes_after; [by apply within_same, steady_GetTypeTok, args_readable|]. intros t _.
    case_decide; [apply writes_throw|]. apply writes_assoc. emit. apply writes_ret_bind. emit.
    apply writes_ret. intros. exists [(CEE_BOX, u32 t)], c'. eauto.
  - apply writes_ret_bind. emit. apply writes_ret. intros. exists [], c'. eauto.
Qed.

Lemma writes_load_arguments_slow rest : ∀ pre, args = pre ++ rest →
  writes (load_arguments_slow this isStatic args (seq (length pre) (length rest)) : T MD unit)
    (λ _ _ c, slow_code rest (Z.of_nat (length pre)) c).
Proof.
  induction rest as [|a rest IH]; intros pre Heq; [by apply writes_ret|]. cbn [length seq load_arguments_slow].
  eapply writes_bind; [by apply (writes_load_argument_slow pre a rest)|]. intros f [] c Hc.
  eapply writes_mono.
  - replace (S (length pre)) with (length (pre ++ [a])) by (rewrite length_app; cbn; lia).
    apply IH. by rewrite <-app_assoc.
  - cbn beta. intros f' [] c' Hc' _. apply Hc. rewrite length_app in Hc'. cbn [length] in Hc'.
    by replace (Z.of_nat (length pre) + 1) with (Z.of_nat (length pre + 1)) by lia.
Qed.

Lemma writes_load_arguments :
  writes (load_arguments signature_uninit m_corProfiler module_metadata this isStatic args (Z.of_nat (length args)) refs : T MD unit)
    (λ _ _ c, arguments_code args refs c).
Proof.
  unfold load_arguments, arguments_code. rewrite Nat2Z.id.
  destruct (decide (length args < FASTPATH_COUNT)%nat); [rewrite decide_True by lia|rewrite decide_False by lia].
  - apply (writes_load_arguments_fast args []). done.
  - eapply writes_after; [apply within_token|]. intros objectRef _. unfold CreateArray.
    apply writes_on_il_bind. emit. apply writes_on_il_bind. emit. apply writes_on_il_ret.
    eapply writes_mono; [by apply (writes_load_arguments_slow args [])|]. cbn beta. intros f' [] c Hc _ _. eauto.
Qed.
End Arguments.

(** *** The handles of a traced method *)

Definition handles_code (c : code) : Prop := ∃ m t, c = [(CEE_LDTOKEN, m); (CEE_LDTOKEN, t)].

Lemma writes_load_handles : writes (load_handles this caller : T MD _) (λ _ types c, handles_code c ∧ Forall readable types).
Proof.
  unfold load_handles, handles_code. emit. eapply writes_after; [apply within_compress_slot|]. intros m [tm ->].
  emit. eapply writes_after; [apply within_compress_slot|]. intros t [tt' ->]. apply writes_ret. intros.
  split; [eauto|]. repeat constructor; apply readable_valuetype.
Qed.

(** *** The filter *)

(** Whether the exception on the stack contains a bubble-up exception: the function of the
    profiler tells if there is one, else its type. *)
Definition bubble_up_test (bubbleUp fn : Z) : code :=
  if decide (call_target_bubble_up_exception_function_available m_corProfiler = true ∧ fn ≠ mdMemberRefNil)
  then [(CEE_CALL, u32 fn)]
  else [(CEE_ISINST, u32 bubbleUp); (CEE_LDNULL, 0); (CEE_CGT_UN, 0)].

(** The filter, its first instruction at the address [f]. *)
Definition filter_code (f exception bubbleUp fn index : Z) : code :=
  let test := bubble_up_test bubbleUp fn in
  [(CEE_ISINST, u32 exception); (CEE_DUP, 0); (CEE_BRTRUE_S, f + 6); (CEE_POP, 0); int32_code 0;
   (CEE_BR_S, f + Z.of_nat (12 + length test)); stloc_code index; ldloc_code index] ++ test ++
  [int32_code 0; (CEE_CEQ, 0); int32_code 0; (CEE_CGT_UN, 0); (CEE_ENDFILTER, 0)].

Ltac step := eapply wp_writes;
  [eassumption|apply clean_writes, clean_emission; emission|done|intros ? ? ? ? [-> ->]; cbn [app length] in *].
Ltac patch k := eapply wp_patch with (n := k);
  [eassumption|reflexivity|first [apply keeps_links_set_low | apply keeps_links_set_Arg]
  |by intros; first [apply data_set_Arg32 | eapply data_set_pTarget]|cbn [insert list_insert]; intros ? ?].

Lemma writes_CreateFilter exception bubbleUp fn index :
  0 ≤ index → writes (CreateFilterForException m_corProfiler this exception bubbleUp fn index : T MD Z)
    (λ f a c, a = f ∧ c = filter_code f exception bubbleUp fn index).
Proof.
  intros Hi P s Hk HP Hn. pose proof (wrote_nothing _ _ _ _ _ Hk HP Hn) as H0. unfold CreateFilterForException.
  step. patch 0%nat. do 6 step. patch 2%nat. step. unfold filter_code, bubble_up_test.
  case_decide.
  - step. do 5 step. patch 5%nat.
    eapply wp_run; [done|]. eexists. split; [eassumption|]. split; [lia|done].
  - apply wp_assoc. step. apply wp_assoc. patch 8%nat. apply wp_assoc. do 7 step. patch 5%nat.
    eapply wp_run; [done|]. eexists. split; [eassumption|]. split; [lia|done].
Qed.

(** *** The handler of a failed callback *)

(** The filter and the handler, which stores the exception in the local [index], logs it if it can
    and leaves to [target]. *)
Definition catch_code (index target f : Z) (cc : callback_catch) (c : code) : Prop := ∃ fn log,
  let filter := filter_code f (tk exTypeRef) (tk bubbleUpExceptionTypeRef) fn index in
  c = filter ++ [(CEE_POP, 0); ldloc_code index] ++ log ++ [(CEE_LEAVE_S, target)] ∧ optional_call log ∧
  cc = {| cc_filter := f; cc_first := f + Z.of_nat (length filter); cc_leave := f + Z.of_nat (length c - 1) |}.

Context (Hbubble : call_target_bubble_up_exception_available m_corProfiler = true).
Context (Hslots : exTypeRef ∈ slots ∧ bubbleUpExceptionTypeRef ∈ slots) (Htk : tk bubbleUpExceptionTypeRef ≠ mdTypeRefNil).

Lemma writes_write_catch integration index :
  0 ≤ index → writes (write_catch signature_uninit m_corProfiler module_metadata this caller (tk bubbleUpExceptionTypeRef) integration index : T MD _)
    (λ f cc c, 0 < f → catch_code index 0 f cc c).
Proof.
  intros Hi. unfold write_catch. rewrite decide_True by done. apply writes_assoc, writes_token; [apply Hslots|].
  apply writes_assoc, writes_token; [apply Hslots|]. apply writes_assoc. eapply writes_after; [apply within_token|]. intros fn _.
  apply writes_assoc. eapply writes_bind; [by apply writes_CreateFilter|]. intros f ? filter [-> Hfilter].
  apply writes_assoc. emit. apply writes_assoc. emit. apply writes_ret_bind.
  eapply writes_bind; [by apply writes_attempt, clean_WriteLogException|]. intros fl logged log Hlog.
  emit. apply writes_ret. intros. subst.
  rewrite decide_False by (unfold nullptr; lia). exists fn, log. cbv zeta. split; [done|]. split.
  - destruct logged; [by left|]. destruct Hlog as [_ [m ->]]. right. eauto.
  - f_equal. rewrite !length_app. cbn [length]. rewrite length_app. cbn [length]. lia.
Qed.
End Pieces.

(** ** The callbacks *)

Section Callbacks.
Context {MD : Type} `{!Metadata MD}.
Context (signature_uninit : list Z) (Hun : length signature_uninit = signatureBufferSize).
Context (m_corProfiler : CorProfiler) (module_metadata : ModuleMetadata).
Context (slots : list TokenSlot) (tk : TokenSlot → Z) (B : prog) (this : ILRewriterWrapper) (Hthis : m_ILInstr this = first_of B).
Context (caller : FunctionInfo) (inputs : rewrite_inputs) (by_ref_like : list Z → bool).
Context (Hbubble : call_target_bubble_up_exception_available m_corProfiler = true).
Context (Hslots : exTypeRef ∈ slots ∧ bubbleUpExceptionTypeRef ∈ slots) (Htk : tk bubbleUpExceptionTypeRef ≠ mdTypeRefNil).
Context (locals : LocalsInfo) (beginException endException : Z) (refs : list Z).
Context (Hadditional : additionalLocalIndices locals = beginException :: endException :: refs).
Context (Hpos : Forall (λ i, 0 ≤ i) (additionalLocalIndices locals)) (Hstate : 0 ≤ callTargetStateIndex locals)
  (Hwrapper : 0 ≤ callTargetReturnIndex locals) (Hexception : 0 ≤ exceptionIndex locals) (Hreturn : 0 ≤ returnValueIndex locals).
Let args := GetMethodArguments (FunctionInfo_signature caller).
Context (Hargs : answers (MD := MD) by_ref_like args) (Hrefs : length refs = ref_structs by_ref_like args)
  (Hcount : NumberOfArguments (FunctionInfo_signature caller) = Z.of_nat (length args)).

Abbreviation writes m Q := (writes slots tk B m Q).
Abbreviation catch_code := (catch_code m_corProfiler tk).

Lemma indices_nonneg : 0 ≤ beginException ∧ 0 ≤ endException ∧ Forall (λ i, 0 ≤ i) refs.
Proof. rewrite Hadditional in Hpos. apply Forall_cons in Hpos as [? [? ?]%Forall_cons]. done. Qed.

(** What the callback at the beginning is given: the instance, then the arguments or the handles. *)
Definition begin_arguments (c : code) : Prop := ∃ instance arguments,
  c = instance ++ arguments ∧ instance_code (isStatic inputs) instance ∧
  if is_integration_method inputs then arguments_code (isStatic inputs) by_ref_like args refs arguments
  else handles_code arguments.

(** The call of BeginMethod; the instruction [leave] goes on behind the handler, to [target], and the
    handler to [catchTarget]. *)
Definition begin_code (target catchTarget f leave : Z) (cc : callback_catch) (c : code) : Prop := ∃ guard arguments m catch_,
  c = guard ++ arguments ++ [(CEE_CALL, m); stloc_code (callTargetStateIndex locals); (CEE_LEAVE_S, target)] ++ catch_ ∧
  optional_call guard ∧ (isRuntimeAsync inputs = false → guard = []) ∧ begin_arguments arguments ∧
  leave = f + Z.of_nat (length (guard ++ arguments) + 2) ∧ catch_code beginException catchTarget (leave + 1) cc catch_.

Lemma writes_write_begin :
  writes (write_begin signature_uninit m_corProfiler module_metadata caller inputs this locals : T MD _)
    (λ f '(leave, bubbleup, cc) c, 0 < f → bubbleup = tk bubbleUpExceptionTypeRef ∧ begin_code 0 0 f leave cc c).
Proof.
  destruct indices_nonneg as (Hbegin & _ & Hrefs_pos). unfold write_begin. rewrite Hadditional. apply writes_ret_bind.
  cbn [drop]. change (drop 0 refs) with refs.
  eapply (writes_bind _ _ _ _ _ (λ _ _ c, optional_call c ∧ (isRuntimeAsync inputs = false → c = []))).
  { destruct (isRuntimeAsync inputs).
    - eapply writes_bind; [by apply writes_or_skip, clean_writes, clean_WriteEnsureRuntimeAsync|].
      intros f a c [-> [m ->]]. apply writes_ret. intros. split; [right; eauto|done].
    - apply writes_ret. intros. split; [by left|done]. }
  intros f [] guard [Hguard Hguard_async]. eapply writes_bind; [by apply writes_load_instance|].
  intros f1 a1 instance [-> Hinstance].
  eapply (writes_bind _ _ _ _ _ (λ _ types c, Forall readable types ∧
            if is_integration_method inputs then arguments_code (isStatic inputs) by_ref_like args refs c else handles_code c)).
  { destruct (is_integration_method inputs).
    - rewrite Hcount. eapply writes_bind; [by apply writes_load_arguments|]. intros f2 [] c Hc. apply writes_ret.
      intros. rewrite app_nil_r. split; [|done]. apply Forall_forall. intros a Ha. by apply Hargs.
    - eapply writes_mono; [by apply writes_load_handles|]. intros f2 types c [H1 H2]. done. }
  intros f2 types arguments [Htypes Harguments].
  eapply writes_bind; [by apply writes_or_skip, clean_writes, clean_WriteBeginMethod|]. intros f3 a3 c3 [-> [m ->]].
  emit. emit. apply writes_token; [apply Hslots|]. eapply writes_bind; [by apply writes_write_catch|].
  intros fc cc catch_ Hcatch. apply writes_ret. intros. subst. split; [done|]. rewrite app_nil_r in *.
  exists guard, (instance ++ arguments), m, catch_. split_and!; try done.
  - by rewrite <-app_assoc.
  - by exists instance, arguments.
  - rewrite !length_app. cbn [length]. lia.
  - apply Hcatch. lia.
Qed.

(** The call of EndMethod, its result unwrapped into the local; [leave] goes on to [target]. *)
Definition end_code (target catchTarget f leave : Z) (cc : callback_catch) (c : code) : Prop := ∃ instance m get catch_,
  c = instance ++ (if isVoid inputs then [] else [ldloc_code (returnValueIndex locals)]) ++
      [ldloc_code (exceptionIndex locals); ldloca_code (callTargetStateIndex locals); (CEE_CALL, m);
       stloc_code (callTargetReturnIndex locals)] ++
      (if isVoid inputs then [] else ldloca_code (callTargetReturnIndex locals) :: get ++ [stloc_code (returnValueIndex locals)]) ++
      (CEE_LEAVE_S, target) :: catch_ ∧
  instance_code (isStatic inputs) instance ∧ optional_call get ∧
  leave = f + Z.of_nat (length c - length catch_ - 1) ∧ catch_code endException catchTarget (leave + 1) cc catch_.

Lemma writes_write_end :
  writes (write_end signature_uninit m_corProfiler module_metadata caller inputs this locals (tk bubbleUpExceptionTypeRef) : T MD _)
    (λ f '(start, leave, cc) c, 0 < f → start = f ∧ end_code 0 0 f leave cc c).
Proof.
  destruct indices_nonneg as (_ & Hend & _). unfold write_end, enable_calltarget_state_by_ref.
  eapply writes_bind; [by apply writes_load_instance|]. intros f a1 instance [-> Hinstance].
  eapply (writes_bind _ _ _ _ _ (λ _ _ c, c = if isVoid inputs then [] else [ldloc_code (returnValueIndex locals)])).
  { destruct (isVoid inputs); [by apply writes_ret|]. cbn [negb]. emit. by apply writes_ret. }
  intros f1 [] c1 ->. emit. emit.
  eapply (writes_bind _ _ _ _ _ (λ _ _ c, ∃ m, c = [(CEE_CALL, m)])).
  { apply writes_or_skip. destruct (isVoid inputs).
    - eapply writes_mono; [by apply clean_writes, clean_WriteEndVoid|]. by intros ? ? ? [_ ?].
    - eapply writes_mono; [by apply clean_writes, clean_WriteEndReturn|]. by intros ? ? ? [_ ?]. }
  intros fm a2 c2 [m ->]. emit.
  eapply (writes_bind _ _ _ _ _ (λ _ _ c, ∃ get, optional_call get ∧
    c = if isVoid inputs then [] else ldloca_code (callTargetReturnIndex locals) :: get ++ [stloc_code (returnValueIndex locals)])).
  { destruct (isVoid inputs); [apply writes_ret; exists []; split; [by left|done]|]. cbn [negb]. emit.
    eapply writes_bind; [by apply writes_GetReturnValue|]. intros fg ag get Hget. emit. apply writes_ret. intros. eauto. }
  intros fw a3 c3 (get & Hget & ->). rewrite Hadditional. apply writes_ret_bind. emit.
  eapply writes_bind; [by apply writes_write_catch|]. intros fc cc catch_ Hcatch. apply writes_ret.
  intros. subst. split; [done|]. rewrite app_nil_r in *.
  exists instance, m, get, catch_. cbn [app]. split_and!; try done.
  - rewrite !length_app. cbn [length]. rewrite ?length_app. cbn [length]. lia.
  - apply Hcatch. lia.
Qed.
End Callbacks.

(** ** Filling in the targets *)

Section Targets.
Context (m_corProfiler : CorProfiler) (tk : TokenSlot → Z) (caller : FunctionInfo) (inputs : rewrite_inputs).
Context (by_ref_like : list Z → bool) (locals : LocalsInfo).

Abbreviation catch_code := (catch_code m_corProfiler tk).

Lemma catch_target index target f cc c :
  catch_code index 0 f cc c → ∃ k, cc_leave cc = f + Z.of_nat k ∧ c !! k = Some (CEE_LEAVE_S, 0) ∧
    catch_code index target f cc (<[k := (CEE_LEAVE_S, target)]> c).
Proof.
  intros (fn & log & -> & Hlog & ->). set (filter := filter_code _ _ _ _ _ _).
  set (front := filter ++ [(CEE_POP, 0); ldloc_code index] ++ log).
  assert (Hc : ∀ t, filter ++ [(CEE_POP, 0); ldloc_code index] ++ log ++ [(CEE_LEAVE_S, t)] = front ++ [(CEE_LEAVE_S, t)])
    by (intros; unfold front; by rewrite <-!app_assoc).
  rewrite !Hc. exists (length front). rewrite length_app, Nat.add_sub. split; [done|]. split; [by rewrite list_lookup_middle|].
  rewrite insert_app_r_alt, Nat.sub_diag by done. exists fn, log. cbv zeta. fold filter. rewrite Hc.
  split_and!; [done..|]. f_equal. rewrite length_app. cbn [insert list_insert length]. lia.
Qed.

(** A callback with its handler: both leave to the same place. *)
Lemma guarded_target (front : code) index target f cc catch_ :
  catch_code index 0 (f + Z.of_nat (length front) + 1) cc catch_ →
  let c := front ++ (CEE_LEAVE_S, 0) :: catch_ in
  ∃ k catch', cc_leave cc = f + Z.of_nat k ∧ k ≠ length front ∧
    c !! length front = Some (CEE_LEAVE_S, 0) ∧ c !! k = Some (CEE_LEAVE_S, 0) ∧
    <[k := (CEE_LEAVE_S, target)]> (<[length front := (CEE_LEAVE_S, target)]> c) = front ++ (CEE_LEAVE_S, target) :: catch' ∧
    length catch' = length catch_ ∧ catch_code index target (f + Z.of_nat (length front) + 1) cc catch'.
Proof.
  intros Hc c. destruct (catch_target _ target _ _ _ Hc) as (k & Hk & Hlook & Hcatch).
  exists (length front + S k)%nat, (<[k := (CEE_LEAVE_S, target)]> catch_). unfold c.
  split; [lia|]. split; [lia|]. split; [by apply list_lookup_middle|].
  split; [rewrite lookup_app_r by lia; by replace (length front + S k - length front)%nat with (S k) by lia|].
  split; [|split; [by rewrite length_insert|done]].
  rewrite insert_app_r_alt, Nat.sub_diag by done. rewrite insert_app_r_alt by lia.
  by replace (length front + S k - length front)%nat with (S k) by lia.
Qed.

Lemma begin_target beginException refs target f leave cc c :
  let begin_code := begin_code m_corProfiler tk caller inputs by_ref_like locals beginException refs in
  begin_code 0 0 f leave cc c → ∃ k1 k2, leave = f + Z.of_nat k1 ∧ cc_leave cc = f + Z.of_nat k2 ∧ k2 ≠ k1 ∧
    c !! k1 = Some (CEE_LEAVE_S, 0) ∧ c !! k2 = Some (CEE_LEAVE_S, 0) ∧
    begin_code target target f leave cc (<[k2 := (CEE_LEAVE_S, target)]> (<[k1 := (CEE_LEAVE_S, target)]> c)).
Proof.
  intros begin_code (guard & args' & m & ct & -> & Hg & Hga & Ha & -> & Hc).
  set (front := guard ++ args' ++ [(CEE_CALL, m); stloc_code (callTargetStateIndex locals)]).
  assert (Heq : ∀ t l, guard ++ args' ++ [(CEE_CALL, m); stloc_code (callTargetStateIndex locals); (CEE_LEAVE_S, t)] ++ l =
    front ++ (CEE_LEAVE_S, t) :: l) by (intros; unfold front; by rewrite <-!app_assoc).
  assert (Hn : (length (guard ++ args') + 2)%nat = length front) by (unfold front; rewrite !length_app; cbn [length]; lia).
  rewrite Hn in *. destruct (guarded_target front _ target _ _ _ Hc) as (k & ct' & Hk & Hne & H1 & H2 & H3 & Hlen & Hct').
  rewrite Heq. exists (length front), k. rewrite H3. split_and!; try done.
  exists guard, args', m, ct'. rewrite Heq, Hn. done.
Qed.

Lemma end_target endException target f leave cc c :
  let end_code := end_code m_corProfiler tk inputs locals endException in
  end_code 0 0 f leave cc c → ∃ k1 k2, leave = f + Z.of_nat k1 ∧ cc_leave cc = f + Z.of_nat k2 ∧ k2 ≠ k1 ∧
    c !! k1 = Some (CEE_LEAVE_S, 0) ∧ c !! k2 = Some (CEE_LEAVE_S, 0) ∧
    end_code target target f leave cc (<[k2 := (CEE_LEAVE_S, target)]> (<[k1 := (CEE_LEAVE_S, target)]> c)).
Proof.
  intros end_code (instance & m & get & ct & Hcode & Hi & Hget & -> & Hc). unfold end_code, MethodPieces.end_code. rewrite !app_assoc in Hcode.
  match type of Hcode with _ = ?l ++ _ :: _ => set (front := l) in * end.
  assert (Heq : (length c - length ct - 1)%nat = length front) by (rewrite Hcode, length_app; cbn [length]; lia).
  rewrite Heq in *. destruct (guarded_target front _ target _ _ _ Hc) as (k & ct' & Hk & Hne & H1 & H2 & H3 & Hlen & Hct').
  rewrite Hcode. exists (length front), k. rewrite H3. split_and!; try done.
  exists instance, m, get, ct'. rewrite !app_assoc. fold front. split_and!; try done.
  rewrite length_app. cbn [length]. f_equal. lia.
Qed.
End Targets.
