(* ===== verification/MethodCode.v ===== *)
(** * The pieces of a rewritten method are code that can be exported

    Every instruction that a piece of [Rewrite] emits has an opcode of the table, none is a
    return, its branches go where the piece says, and each piece is short. *)

From S2P Require Import Prelude ILOpcodes ILList ILEncoding ILImport ILExport ILRewriterWrapper CorSig Signature.
From S2P Require Import Emission CallTargetTokens CallTargetTokensSafe LocalSignature TracerTokens TracerCode MethodRewriter MethodPieces.

(** ** Well-formed code *)

(** The code branches to [targets] only, and returns nowhere. *)
Definition well_formed (targets : Z → Prop) (c : code) : Prop :=
  Forall (λ it, valid_op it.1 ∧ it.1 ≠ CEE_RET ∧ (is_branch it.1 = true → targets it.2)) c.

(** Numbered, it holds no return. *)
Lemma well_formed_returns P f c ret : well_formed P c → Forall (λ x, x.2.1 = CEE_RET → x.1 = ret) (number f c).
Proof.
  intros Hc. apply Forall_forall. intros [q it] Hx. apply elem_of_lookup_imap in Hx as (k & it' & [= -> ->] & Hk).
  destruct (Forall_lookup_1 _ _ _ _ Hc Hk) as (_ & Hne & _). done.
Qed.

(** Code without branches. *)
Definition straight (c : code) : Prop := well_formed (λ _, False) c.

Lemma well_formed_mono (P Q : Z → Prop) c : (∀ p, P p → Q p) → well_formed P c → well_formed Q c.
Proof. intros H Hc. eapply Forall_impl; [exact Hc|]. intros it (? & ? & ?). eauto. Qed.

Lemma straight_well_formed P c : straight c → well_formed P c.
Proof. by apply well_formed_mono. Qed.

Lemma well_formed_app P c1 c2 : well_formed P (c1 ++ c2) ↔ well_formed P c1 ∧ well_formed P c2.
Proof. apply Forall_app. Qed.

Lemma well_formed_cons P it c :
  well_formed P (it :: c) ↔ (valid_op it.1 ∧ it.1 ≠ CEE_RET ∧ (is_branch it.1 = true → P it.2)) ∧ well_formed P c.
Proof. unfold well_formed. by rewrite Forall_cons. Qed.

(** One instruction whose opcode is a constant. *)
Definition plain_op (op : Z) : bool := bool_decide (valid_op op) && negb (op =? CEE_RET) && negb (is_branch op).

Lemma plain_item P op arg c : plain_op op = true → well_formed P c → well_formed P ((op, arg) :: c).
Proof.
  unfold plain_op. rewrite !andb_true_iff, !negb_true_iff. intros [[Hv%bool_decide_eq_true Hr] Hb] Hc.
  apply well_formed_cons. split; [|done]. cbn [fst snd]. split; [done|]. split; [lia|congruence].
Qed.

Lemma branch_item P op p c : valid_op op → op ≠ CEE_RET → P p → well_formed P c → well_formed P ((op, p) :: c).
Proof. intros. apply well_formed_cons. by split. Qed.

Lemma well_formed_nil P : well_formed P [].
Proof. constructor. Qed.

Lemma indexed_plain op0 op_s op_l index P c :
  plain_op op0 = true → plain_op (op0 + 1) = true → plain_op (op0 + 2) = true → plain_op (op0 + 3) = true →
  plain_op op_s = true → plain_op op_l = true → 0 ≤ index → well_formed P c →
  well_formed P (indexed_code op0 op_s op_l index :: c).
Proof.
  intros H0 H1 H2 H3 Hs Hl Hi Hc. unfold indexed_code. case_decide as Hd.
  - apply plain_item; [|done]. assert (index = 0 ∨ index = 1 ∨ index = 2 ∨ index = 3) as [->|[->|[->| ->]]] by lia;
      rewrite ?Z.add_0_r; done.
  - case_decide; by apply plain_item.
Qed.

Lemma address_plain op_s op_l index P c :
  plain_op op_s = true → plain_op op_l = true → well_formed P c → well_formed P (address_code op_s op_l index :: c).
Proof. intros. unfold address_code. case_decide; by apply plain_item. Qed.

Section Forms.
Context (P : Z → Prop).

Lemma ldarg_plain i c : 0 ≤ i → well_formed P c → well_formed P (ldarg_code i :: c).
Proof. intros. by apply indexed_plain. Qed.
Lemma ldloc_plain i c : 0 ≤ i → well_formed P c → well_formed P (ldloc_code i :: c).
Proof. intros. by apply indexed_plain. Qed.
Lemma stloc_plain i c : 0 ≤ i → well_formed P c → well_formed P (stloc_code i :: c).
Proof. intros. by apply indexed_plain. Qed.
Lemma ldarga_plain i c : well_formed P c → well_formed P (ldarga_code i :: c).
Proof. intros. by apply address_plain. Qed.
Lemma ldloca_plain i c : well_formed P c → well_formed P (ldloca_code i :: c).
Proof. intros. by apply address_plain. Qed.

Lemma int32_plain v c : well_formed P c → well_formed P (int32_code v :: c).
Proof.
  intros Hc. unfold int32_code. repeat case_decide; [|by apply plain_item..]. apply plain_item; [|done].
  assert (v = 0 ∨ v = 1 ∨ v = 2 ∨ v = 3 ∨ v = 4 ∨ v = 5 ∨ v = 6 ∨ v = 7 ∨ v = 8) as Hv by lia.
  by destruct Hv as [->|[->|[->|[->|[->|[->|[->|[->| ->]]]]]]]].
Qed.
End Forms.

Create HintDb code.
#[export] Hint Resolve well_formed_nil ldarg_plain ldloc_plain stloc_plain ldarga_plain ldloca_plain int32_plain : code.
#[export] Hint Extern 2 (well_formed _ ((_, _) :: _)) => apply plain_item; [reflexivity|] : code.
#[export] Hint Extern 3 (_ ≤ _) => lia : code.
#[export] Hint Extern 1 (well_formed _ (_ ++ _)) => apply well_formed_app; split : code.

Lemma optional_call_straight P c : optional_call c → well_formed P c.
Proof. intros [->|[m ->]]; auto with code. Qed.

Lemma initialize_straight P r w e c :
  (∀ i, r = Some i → 0 ≤ i) → 0 ≤ w → 0 ≤ e → initialize_code r w e c → well_formed P c ∧ (length c ≤ 6)%nat.
Proof.
  intros Hr Hw He (m1 & m2 & ->). split; [|destruct r; cbn; lia].
  destruct r; auto 20 with code.
Qed.

(** ** The pieces *)

Section Pieces.
Context (m_corProfiler : CorProfiler) (tk : TokenSlot → Z) (isStatic : bool) (by_ref_like : list Z → bool).

Lemma instance_straight P c : instance_code isStatic c → well_formed P c ∧ (1 ≤ length c ≤ 2)%nat.
Proof.
  intros [->|[_ [->|[t ->]]]]; cbn [length]; (split; [|lia]); auto with code.
Qed.

Lemma argument_index_pos i : 0 ≤ i → 0 ≤ argument_index isStatic i.
Proof. unfold argument_index. destruct isStatic; lia. Qed.
Hint Resolve argument_index_pos : code.

Lemma load_straight P a i c : 0 ≤ i → well_formed P c → well_formed P (load_code isStatic a i :: c).
Proof. intros. unfold load_code. case_decide; auto with code. Qed.

Lemma fast_straight P args : ∀ i refs c,
  0 ≤ i → Forall (λ r, 0 ≤ r) refs → fast_code isStatic by_ref_like args i refs c →
  well_formed P c ∧ (length c ≤ 6 * length args)%nat.
Proof.
  induction args as [|a args IH]; intros i refs c Hi Hr; cbn [fast_code]; [intros ->; cbn; auto with code|].
  destruct (by_ref_like a).
  - intros (index & refs' & t & call & c' & -> & -> & Hc). apply Forall_cons in Hr as [Hx Hr].
    destruct (IH (i + 1) _ _ ltac:(lia) Hr Hc) as [Hw Hl]. split; [|unfold ref_struct_code; cbn [app length]; lia].
    apply load_straight; [done|]. unfold ref_struct_code. auto 10 with code.
  - intros (c' & -> & Hc). destruct (IH (i + 1) _ _ ltac:(lia) Hr Hc) as [Hw Hl]. split; [by apply load_straight|cbn [length]; lia].
Qed.

Lemma slow_straight P args : ∀ i c,
  0 ≤ i → slow_code isStatic args i c → well_formed P c ∧ (length c ≤ 5 * length args)%nat.
Proof.
  induction args as [|a args IH]; intros i c Hi; cbn [slow_code]; [intros ->; cbn; auto with code|].
  intros (box & c' & Hc & -> & Hbox). destruct (IH (i + 1) _ ltac:(lia) Hc) as [Hw Hl].
  assert (well_formed P box ∧ (length box ≤ 1)%nat) as [Hb Hbl].
  { case_decide; [destruct Hbox as [t ->]|subst]; cbn [length]; auto with code. }
  split; [|rewrite !length_app; cbn [length]; lia]. auto 10 with code.
Qed.

Lemma arguments_straight P args refs c :
  Forall (λ r, 0 ≤ r) refs → arguments_code isStatic by_ref_like args refs c →
  well_formed P c ∧ (length c ≤ 6 * length args + 2)%nat.
Proof.
  intros Hr. unfold arguments_code. case_decide.
  - intros Hc. destruct (fast_straight P args 0 refs c) as [Hw Hl]; [lia|done..|]. split; [done|lia].
  - intros (t & c' & -> & Hc). destruct (slow_straight P args 0 c') as [Hw Hl]; [lia|done|].
    cbn [length]. split; [auto with code|lia].
Qed.

(** The branches of the filter stay inside it. *)
Lemma filter_well_formed f exception bubbleUp fn index :
  0 ≤ index →
  let c := filter_code m_corProfiler f exception bubbleUp fn index in
  well_formed (λ p, f ≤ p < f + Z.of_nat (length c)) c ∧ (length c ≤ 16)%nat.
Proof.
  intros Hi c. unfold c, filter_code, bubble_up_test.
  case_decide; cbn [app length]; (split; [|lia]);
    repeat first [apply plain_item; [reflexivity|] | apply int32_plain | apply stloc_plain; [done|] | apply ldloc_plain; [done|]
      | apply branch_item; [by left; vm_compute|done|lia|] | apply well_formed_nil].
Qed.

(** The handler goes on to [target]. *)
Lemma catch_well_formed index target f cc c :
  0 ≤ index → catch_code m_corProfiler tk index target f cc c →
  well_formed (λ p, p = target ∨ f ≤ p < f + Z.of_nat (length c)) c ∧ (length c ≤ 20)%nat ∧
  cc_filter cc = f ∧ f < cc_first cc < f + Z.of_nat (length c) ∧ f < cc_leave cc < f + Z.of_nat (length c).
Proof.
  intros Hi (fn & log & -> & Hlog & ->). cbn [cc_filter cc_first cc_leave].
  destruct (filter_well_formed f (tk exTypeRef) (tk bubbleUpExceptionTypeRef) fn index Hi) as [Hw Hl].
  set (filter := filter_code _ _ _ _ _ _) in *. assert (0 < length filter)%nat as Hpos by (unfold filter, filter_code; cbn [app length]; lia).
  assert (Hll : (length log ≤ 1)%nat) by (destruct Hlog as [->|[m ->]]; cbn; lia).
  rewrite !length_app. cbn [app length]. rewrite ?length_app. cbn [length]. split_and!; [|lia..].
  apply well_formed_app. split; [eapply well_formed_mono; [|exact Hw]; cbn; lia|]. cbn [app].
  apply plain_item; [reflexivity|]. apply ldloc_plain; [done|]. apply well_formed_app. split; [by apply optional_call_straight|].
  apply branch_item; [by left; vm_compute|done|by left|apply well_formed_nil].
Qed.
End Pieces.

Section Callbacks.
Context (m_corProfiler : CorProfiler) (tk : TokenSlot → Z) (caller : FunctionInfo) (inputs : rewrite_inputs).
Context (by_ref_like : list Z → bool) (locals : LocalsInfo).
Context (Hstate : 0 ≤ callTargetStateIndex locals) (Hwrapper : 0 ≤ callTargetReturnIndex locals)
  (Hexception : 0 ≤ exceptionIndex locals) (Hreturn : 0 ≤ returnValueIndex locals).

(** A callback with its handler is well-formed code, and its exception clause names
    instructions in it. *)
Definition callback_placed (f leave : Z) (cc : callback_catch) (c : code) : Prop :=
  f < leave < f + Z.of_nat (length c) ∧ cc_filter cc = leave + 1 ∧ leave < cc_first cc < f + Z.of_nat (length c) ∧
  leave < cc_leave cc < f + Z.of_nat (length c) ∧ leave + 1 < f + Z.of_nat (length c).

Lemma guarded_well_formed (P : Z → Prop) index target f cc front catch_ :
  0 ≤ index → well_formed P front → (0 < length front)%nat →
  catch_code m_corProfiler tk index target (f + Z.of_nat (length front) + 1) cc catch_ →
  (P target) → (∀ p, f ≤ p < f + Z.of_nat (length (front ++ (CEE_LEAVE_S, target) :: catch_)) → P p) →
  well_formed P (front ++ (CEE_LEAVE_S, target) :: catch_) ∧ (length catch_ ≤ 20)%nat ∧
  callback_placed f (f + Z.of_nat (length front)) cc (front ++ (CEE_LEAVE_S, target) :: catch_).
Proof.
  intros Hi Hfront Hlen Hc Ht Hin. destruct (catch_well_formed _ _ _ _ _ _ _ Hi Hc) as (Hw & Hl & Hf & Hfirst & Hleave).
  rewrite length_app in *. cbn [length] in *. split_and!; [|done|].
  - apply well_formed_app. split; [done|]. apply branch_item; [by left; vm_compute|done|done|].
    eapply well_formed_mono; [|exact Hw]. cbn. intros p [->|Hp]; [done|]. apply Hin. lia.
  - unfold callback_placed. rewrite length_app. cbn [length]. lia.
Qed.

Lemma begin_well_formed (P : Z → Prop) beginException refs target f leave cc c :
  0 ≤ beginException → Forall (λ r, 0 ≤ r) refs →
  begin_code m_corProfiler tk caller inputs by_ref_like locals beginException refs target target f leave cc c →
  P target → (∀ p, f ≤ p < f + Z.of_nat (length c) → P p) →
  well_formed P c ∧ (length c ≤ 6 * length (GetMethodArguments (FunctionInfo_signature caller)) + 30)%nat ∧
  callback_placed f leave cc c.
Proof.
  intros Hi Hrefs (guard & arguments & m & catch_ & -> & Hg & _ & (instance & arguments' & -> & Hinst & Hargs) & -> & Hc) Ht Hin.
  set (args := GetMethodArguments _) in *.
  destruct (instance_straight (isStatic inputs) P instance Hinst) as [Hwi Hli].
  assert (well_formed P arguments' ∧ (length arguments' ≤ 6 * length args + 2)%nat) as [Hwa Hla].
  { destruct (is_integration_method inputs); [by eapply arguments_straight|]. destruct Hargs as (m1 & t1 & ->).
    cbn [length]. split; [auto with code|lia]. }
  assert (Hlg : (length guard ≤ 1)%nat) by (destruct Hg as [->|[m' ->]]; cbn; lia).
  set (front := guard ++ (instance ++ arguments') ++ [(CEE_CALL, m); stloc_code (callTargetStateIndex locals)]).
  assert (Heq : guard ++ (instance ++ arguments') ++ [(CEE_CALL, m); stloc_code (callTargetStateIndex locals); (CEE_LEAVE_S, target)] ++ catch_ =
    front ++ (CEE_LEAVE_S, target) :: catch_) by (unfold front; by rewrite <-!app_assoc).
  assert (Hn : (length (guard ++ instance ++ arguments') + 2)%nat = length front) by (unfold front; rewrite !length_app; cbn [length]; lia).
  assert (Hwf : well_formed P front) by (unfold front; pose proof (optional_call_straight P guard Hg); auto 10 with code).
  rewrite Heq, Hn in *. destruct (guarded_well_formed P beginException target f cc front catch_) as (H1 & H2 & H3); [done..|lia|done|done|done|].
  split_and!; [done| |done]. rewrite length_app. cbn [length]. rewrite <-Hn, !length_app. lia.
Qed.

Lemma end_well_formed (P : Z → Prop) endException target f leave cc c :
  0 ≤ endException → end_code m_corProfiler tk inputs locals endException target target f leave cc c →
  P target → (∀ p, f ≤ p < f + Z.of_nat (length c) → P p) →
  well_formed P c ∧ (length c ≤ 40)%nat ∧ callback_placed f leave cc c.
Proof.
  intros Hi (instance & m & get & catch_ & Hcode & Hinst & Hget & -> & Hc) Ht Hin.
  destruct (instance_straight (isStatic inputs) P instance Hinst) as [Hwi Hli]. rewrite !app_assoc in Hcode.
  match type of Hcode with _ = ?l ++ _ :: _ => set (front := l) in * end.
  assert (Hn : (length c - length catch_ - 1)%nat = length front) by (rewrite Hcode, length_app; cbn [length]; lia).
  assert (Hlg : (length get ≤ 1)%nat) by (destruct Hget as [->|[m' ->]]; cbn; lia).
  assert (well_formed P front ∧ (0 < length front ≤ 11)%nat) as [Hwf Hlf].
  { unfold front. split; [|rewrite !length_app; destruct (isVoid inputs); cbn [length]; rewrite ?length_app; cbn [length]; lia].
    pose proof (optional_call_straight P get Hget). destruct (isVoid inputs); auto 20 with code. }
  rewrite Hn in *. destruct (guarded_well_formed P endException target f cc front catch_) as (H1 & H2 & H3); [done..|lia|done|done|by rewrite <-Hcode|].
  rewrite <-Hcode in H1, H3. split_and!; [done| |done]. rewrite Hcode, length_app. cbn [length]. lia.
Qed.
End Callbacks.
