(* ===== verification/Returns.v ===== *)
(** * Returns become leaves (tracer_method_rewriter.cpp)

    The loop of [Rewrite] over the instructions: every return of the method but the new one at the
    end stores the result into its local and leaves the protected region. *)

From S2P Require Import Prelude ILOpcodes ILList ILEncoding ILImport ILExport ILRewriterWrapper.
From S2P Require Import Emission CallTargetTokens MethodRewriter.

(** [set_Arg16] on the operand [arg]. *)
Definition low16 (arg v : Z) : Z := arg - u16 arg + u16 v.

Lemma low16_s16 arg v : low16 arg (s16 v) = low16 arg v.
Proof. unfold low16. by rewrite wrap_sgn. Qed.

Lemma s16_low16 arg v : s16 (low16 arg v) = s16 v.
Proof. apply sgn_eq_iff; [done|]. by apply wrap_set_low. Qed.

(** The program after the loop; [fresh] is the address of the next new instruction. *)
Fixpoint replaced (ret target index : Z) (isVoid : bool) (fresh : Z) (B : prog) : prog :=
  match B with
  | [] => []
  | (p, (op, arg)) :: B =>
      if decide (op = CEE_RET ∧ p ≠ ret) then
        if isVoid then (p, (CEE_LEAVE_S, target)) :: replaced ret target index isVoid fresh B
        else (p, (CEE_STLOC, low16 arg index)) :: (fresh, (CEE_LEAVE_S, target)) ::
             replaced ret target index isVoid (fresh + 1) B
      else (p, (op, arg)) :: replaced ret target index isVoid fresh B
  end.

(** The number of the new instructions. *)
Definition returns (ret : Z) (B : prog) : nat := length (filter (λ x, x.2.1 = CEE_RET ∧ x.1 ≠ ret) B).

Section Loop.
Context (ret endFinally target index : Z) (isVoid : bool).

Abbreviation replaced := (replaced ret target index isVoid).
Abbreviation body := (replace_return ret endFinally index isVoid).

(** The target is the instruction behind the endfinally. *)
Definition behind (P : prog) : Prop := ∃ P1 it P2,
  P = P1 ++ (endFinally, it) :: P2 ∧ it.1 ≠ CEE_RET ∧ target = first_of P2.

Lemma program_node r P1 x P2 : program r (P1 ++ x :: P2) →
  ∃ i, il_store r !! x.1 = Some i ∧ (m_opcode i, m_Arg i) = x.2 ∧ m_pNext i = first_of P2.
Proof.
  intros [Hl Hit]. apply Forall_app in Hit as [_ [Hx _]%Forall_cons]. destruct Hx as [off Hd].
  destruct (data_Some _ _ _ Hd) as (i & Hi & [= Ho _ Ha]). exists i. split; [done|]. split; [by rewrite Ho, Ha; destruct x.2|].
  rewrite fmap_app, fmap_cons in Hl. destruct Hl as (_ & Hc & _). apply chain_app in Hc as [_ Hc].
  apply chain_nxt_start in Hc. apply nxt_Some in Hc as (i' & Hi' & Hn). assert (i' = i) as -> by congruence. exact Hn.
Qed.

Lemma behind_next r P : program r P → behind P → ∃ i, il_store r !! endFinally = Some i ∧ m_pNext i = target.
Proof.
  intros HP (P1 & it & P2 & -> & _ & ->). destruct (program_node _ _ _ _ HP) as (i & Hi & _ & Hn). by exists i.
Qed.

(** What a replacement at a return leaves of it. *)
Lemma behind_change A p arg B it C :
  behind (A ++ (p, (CEE_RET, arg)) :: B) → behind (A ++ (p, it) :: C ++ B).
Proof.
  intros (P1 & ite & P2 & Heq & Hite & Ht). apply app_eq_inv in Heq as [(k & -> & Hk)|(k & -> & Hk)].
  - destruct k as [|x k]; simplify_eq/=. exists P1, ite, (k ++ (p, it) :: C ++ B). split_and!; [by rewrite <-app_assoc|done|].
    by destruct k.
  - destruct k as [|x k]; simplify_eq/=. exists (A ++ (p, it) :: C ++ k), ite, P2. split_and!; [|done..].
    by rewrite <-!app_assoc, <-app_comm_cons, <-!app_assoc.
Qed.

(** The members that the loop changes: the counter and the next address. *)
Record same_but (n : nat) (r r' : ILRewriter) : Prop := {
  sb_fresh : il_fresh r' = il_fresh r + Z.of_nat n;
  sb_frame : frame r' = frame r;
  sb_nInstrs : m_nInstrs r' = u32 (m_nInstrs r + Z.of_nat n);
}.

Lemma same_but_trans n1 n2 r1 r2 r3 : same_but n1 r1 r2 → same_but n2 r2 r3 → same_but (n1 + n2) r1 r3.
Proof. intros [] []. split; [lia|congruence|]. rewrite sb_nInstrs1, sb_nInstrs0, wrap_add_l. f_equal. lia. Qed.

Lemma same_but_refl r : 0 ≤ m_nInstrs r < 2 ^ 32 → same_but 0 r r.
Proof. intros. split; [lia|done|]. by rewrite Z.add_0_r, wrap_small. Qed.

(** One instruction that stays. *)
Lemma body_keeps b r A x B :
  program r (A ++ x :: B) → ¬ (x.2.1 = CEE_RET ∧ x.1 ≠ ret) → replace_return ret endFinally index b x.1 tt r = (Ret tt, r).
Proof.
  intros HP Hx. destruct (program_node _ _ _ _ HP) as (i & Hi & Hd & _). unfold replace_return.
  run_by (by apply read_instr_run). assert (m_opcode i = x.2.1) as -> by (by rewrite <-Hd). by rewrite decide_False.
Qed.

Lemma program_set r A p f op arg op' arg' B :
  program r (A ++ (p, (op, arg)) :: B) → 0 ≤ m_nInstrs r < 2 ^ 32 → keeps_links f →
  (∀ i, m_opcode i = op → m_Arg i = arg → data_of (f i) = (op', m_offset i, arg')) →
  ∃ r', write_instr p f r = (Ret tt, r') ∧ program r' (A ++ (p, (op', arg')) :: B) ∧ same_but 0 r r'.
Proof.
  intros HP Hn Hf Hdata. destruct (program_write r _ (length A) p f op arg op' arg' HP) as (r' & Hr & HP' & Hf' & Hfr & Hn');
    [by rewrite list_lookup_middle|done..|].
  exists r'. split; [done|]. rewrite insert_app_r_alt, Nat.sub_diag in HP' by done. split; [exact HP'|].
  destruct (same_but_refl r Hn) as [F1 F2 F3]. split; congruence.
Qed.

Lemma same_but_bound n r r' : same_but n r r' → 0 ≤ m_nInstrs r' < 2 ^ 32.
Proof. intros [_ _ ->]. apply wrap_range. lia. Qed.

Section Return.
Context (r : ILRewriter) (A : prog) (p arg : Z) (B : prog).
Context (HP : program r (A ++ (p, (CEE_RET, arg)) :: B)) (Hn : 0 ≤ m_nInstrs r < 2 ^ 32) (Hp : p ≠ ret).
Context (Hb : behind (A ++ (p, (CEE_RET, arg)) :: B)).

Lemma return_opcode : ∃ i, read_instr p r = (Ret i, r) ∧ m_opcode i = CEE_RET.
Proof.
  destruct (program_node _ _ _ _ HP) as (i & Hi & [= Hop _] & _). exists i. split; [by apply read_instr_run|done].
Qed.

(** A return of a method without a result. *)
Lemma body_leaves :
  ∃ r', replace_return ret endFinally index true p tt r = (Ret tt, r') ∧ program r' (A ++ (p, (CEE_LEAVE_S, target)) :: B) ∧ same_but 0 r r'.
Proof.
  destruct return_opcode as (i & Hi & Hop).
  destruct (program_set _ _ _ (set_opcode CEE_LEAVE_S) _ _ CEE_LEAVE_S arg _ HP Hn) as (r1 & Hw1 & HP1 & Hs1);
    [auto with il|by intros ? _ <-|].
  destruct (behind_next _ _ HP1 (behind_change _ _ _ _ _ [] Hb)) as (e & He & Hen).
  destruct (program_set _ _ _ (set_pTarget target) _ _ CEE_LEAVE_S target _ HP1 (same_but_bound _ _ _ Hs1)) as (r2 & Hw2 & HP2 & Hs2);
    [auto with il|by intros ? <- _|].
  exists r2. split; [|split; [done|by eapply (same_but_trans 0 0)]].
  unfold replace_return. run_by (exact Hi). rewrite Hop, decide_True by done.
  run_by (exact Hw1). run_by (by apply read_instr_run). by rewrite Hen.
Qed.

(** A return of a method with a result: the index of its local has to fit 15 bits. *)
Lemma wp_body_stores (Q : unit → ILRewriter → Prop) (X : HRESULT → ILRewriter → Prop) :
  (∀ r', program r' (A ++ (p, (CEE_STLOC, low16 arg index)) :: (il_fresh r, (CEE_LEAVE_S, target)) :: B) →
         same_but 1 r r' → 0 ≤ s16 index → Q tt r') →
  (∀ r', frame r' = frame r → X S_FALSE r') → wp (replace_return ret endFinally index false p tt) r Q X.
Proof.
  intros HQ HX. destruct return_opcode as (i & Hi & Hop).
  destruct (program_set _ _ _ (set_opcode CEE_STLOC) _ _ CEE_STLOC arg _ HP Hn) as (r1 & Hw1 & HP1 & Hs1);
    [auto with il|by intros ? _ <-|].
  destruct (program_set _ _ _ (set_Arg16 (s16 index)) _ _ CEE_STLOC (low16 arg (s16 index)) _ HP1 (same_but_bound _ _ _ Hs1))
    as (r2 & Hw2 & HP2 & Hs2); [apply keeps_links_set_low|by intros ? <- <-|].
  pose proof (same_but_trans 0 0 _ _ _ Hs1 Hs2) as Hs02. rewrite low16_s16 in HP2.
  destruct (program_node _ _ _ _ HP2) as (i2 & Hi2 & [= _ Ha2] & _).
  unfold replace_return. eapply wp_run_bind; [exact Hi|]. rewrite Hop, decide_True by done.
  eapply wp_run_bind; [exact Hw1|]. eapply wp_run_bind; [exact Hw2|]. wp_step (by apply read_instr_run).
  unfold m_Arg16. rewrite Ha2, s16_low16. case_decide; [apply HX, Hs02|].
  destruct (behind_next _ _ HP2 (behind_change _ _ _ _ _ [] Hb)) as (e & He & Hen).
  pose proof (pr_list _ _ HP2) as Hl2. rewrite fmap_app, fmap_cons, cons_middle, app_assoc in Hl2.
  destruct (insert_new r2 _ _ Hl2 (set_pTarget target ∘ set_opcode CEE_LEAVE_S) CEE_LEAVE_S target) as (r3 & _ & Hr3 & Hin);
    [auto with il|done|done|].
  set (w := il_fresh r2) in *. destruct (il_list_after_new r2 _ Hl2) as [_ Hfr].
  assert (Hef : endFinally ≠ w).
  { intros ->. apply Hfr. right. destruct Hb as (P1 & it & P2 & HP12 & _). apply (f_equal (fmap fst)) in HP12.
    rewrite !fmap_app, !fmap_cons in HP12. cbn [fst] in HP12.
    assert (w ∈ A.*1 ++ p :: B.*1) as Hw by (rewrite HP12; set_solver). set_solver. }
  wp_step (apply NewILInstr_run). wp_step (apply write_instr_run, lookup_insert_eq).
  wp_step (apply read_instr_run; cbn; by rewrite !lookup_insert_ne by done). rewrite Hen.
  wp_step (apply write_instr_run; cbn; apply lookup_insert_eq). rewrite upd_il_store_twice.
  rewrite last_snoc in Hr3. cbn [default] in Hr3. eapply wp_run; [exact Hr3|].
  pose proof (program_inserted r2 r3 (A ++ [(p, (CEE_STLOC, low16 arg index))]) B w (CEE_LEAVE_S, target)) as HP3.
  rewrite <-!app_assoc, fmap_app in HP3. specialize (HP3 HP2 Hin). destruct Hs02 as [F1 F2 F3].
  assert (Hw : il_fresh r2 = il_fresh r) by lia. unfold w in HP3. rewrite Hw in HP3. apply HQ; [exact HP3| |lia].
  destruct Hin as [_ G1 _ _ _ G2 G3 _]. split; [lia|congruence|]. rewrite G3, F3, wrap_add_l. f_equal. lia.
Qed.
End Return.

Lemma replaced_app fresh B1 B2 :
  replaced fresh (B1 ++ B2) = replaced fresh B1 ++ replaced (fresh + Z.of_nat (if isVoid then 0 else returns ret B1)) B2.
Proof.
  revert fresh. induction B1 as [|[p [op arg]] B1 IH]; intros fresh.
  { cbn. destruct isVoid; by rewrite Z.add_0_r. }
  cbn [app Returns.replaced]. unfold returns. rewrite filter_cons. cbn [fst snd]. case_decide.
  - destruct isVoid; rewrite IH; [done|]. cbn [app length]. do 4 f_equal. unfold returns. lia.
  - rewrite IH. done.
Qed.

(** Going on to the next instruction. *)
Lemma wp_il_for_step b fuel A p it B r (Q : unit → ILRewriter → Prop) X :
  program r (A ++ (p, it) :: B) →
  let body := replace_return ret endFinally index b in
  wp (body p tt) r (λ _ r', ∃ C it', program r' (A ++ (p, it') :: C ++ B) ∧ wp (il_for fuel (first_of (C ++ B)) tt body) r' Q X) X →
  wp (il_for (S fuel) p tt body) r Q X.
Proof.
  intros HP body Hbody. cbn [il_for]. rewrite decide_False.
  - apply wp_bind. eapply wp_mono; [exact Hbody|..|done]. intros [] r' (C & it' & HP' & Hk).
    destruct (program_node _ _ _ _ HP') as (i & Hi & _ & Hnext). wp_step (by apply read_instr_run). by rewrite Hnext.
  - eapply il_list_no_IL; [apply HP|]. rewrite fmap_app, fmap_cons. set_solver.
Qed.

Lemma wp_replace_returns_from B : ∀ A fuel r,
  program r (A ++ B) → 0 ≤ m_nInstrs r < 2 ^ 32 → behind (A ++ B) → (2 * length B ≤ fuel)%nat →
  wp (il_for fuel (first_of B) tt body) r
    (λ _ r', program r' (A ++ replaced (il_fresh r) B) ∧ same_but (if isVoid then 0 else returns ret B) r r' ∧
             (isVoid = true ∨ returns ret B = 0%nat ∨ 0 ≤ s16 index))
    (λ e r', e = S_FALSE ∧ frame r' = frame r).
Proof.
  induction B as [|[p [op arg]] B IH]; intros A fuel r HP Hn Hb Hfuel.
  { cbn. destruct fuel; (eapply wp_run; [done|]); (split_and!; [done| |by eauto]); destruct isVoid; by apply same_but_refl. }
  cbn [length] in Hfuel. destruct fuel as [|fuel]; [lia|]. change (first_of _) with p.
  eapply wp_il_for_step; [exact HP|]. unfold returns. rewrite filter_cons. cbn [fst snd Returns.replaced].
  assert (Hgo : ∀ C it r', program r' (A ++ (p, it) :: C ++ B) → 0 ≤ m_nInstrs r' < 2 ^ 32 → behind (A ++ (p, it) :: C ++ B) →
    ∀ fuel', (2 * length B ≤ fuel')%nat → wp (il_for fuel' (first_of B) tt body) r'
      (λ _ r2, program r2 (A ++ (p, it) :: C ++ replaced (il_fresh r') B) ∧ same_but (if isVoid then 0 else returns ret B) r' r2 ∧
             (isVoid = true ∨ returns ret B = 0%nat ∨ 0 ≤ s16 index))
      (λ e r2, e = S_FALSE ∧ frame r2 = frame r')).
  { intros C it r' HP' Hn' Hb' fuel' Hfuel'. specialize (IH (A ++ (p, it) :: C) fuel' r').
    rewrite <-!app_assoc in IH. by apply IH. }
  case_decide as Hret.
  - destruct Hret as [-> Hp]. destruct isVoid.
    + destruct (body_leaves r A p arg B HP Hn Hp Hb) as (r' & Hr & HP' & Hs). eapply wp_run; [exact Hr|].
      exists [], (CEE_LEAVE_S, target). split; [exact HP'|]. pose proof Hs as [F1 F2 F3].
      eapply wp_mono; [apply (Hgo [] (CEE_LEAVE_S, target) r' HP')|..]; [by eapply same_but_bound|by apply (behind_change _ _ _ _ _ [] Hb)|lia| |].
      * intros _ r2 (HP2 & Hs2 & Hi). rewrite F1, Z.add_0_r in HP2. split_and!; [exact HP2|by eapply (same_but_trans 0 0)|eauto].
      * intros e r2 [-> ->]. done.
    + apply (wp_body_stores r A p arg B HP Hn Hp Hb); [|done]. intros r' HP' Hs Hi.
      exists [(il_fresh r, (CEE_LEAVE_S, target))], (CEE_STLOC, low16 arg index). split; [exact HP'|].
      destruct fuel as [|fuel]; [lia|]. change (first_of _) with (il_fresh r).
      rewrite cons_middle, app_assoc in HP'. eapply wp_il_for_step; [exact HP'|].
      eapply wp_run; [by apply (body_keeps _ r' _ (il_fresh r, _) B HP'); intros []|].
      exists [], (CEE_LEAVE_S, target). split; [exact HP'|]. pose proof Hs as [F1 F2 F3]. rewrite <-app_assoc in HP'.
      eapply wp_mono; [apply (Hgo [(il_fresh r, _)] _ r' HP')|..]; [by eapply same_but_bound|by apply (behind_change _ _ _ _ _ [_] Hb)|lia| |].
      * intros _ r2 (HP2 & Hs2 & _). rewrite F1 in HP2. split_and!; [exact HP2| |eauto].
        change (S ?n) with (1 + n)%nat. by eapply (same_but_trans 1).
      * intros e r2 [-> ->]. done.
  - eapply wp_run; [by apply (body_keeps _ r A (p, (op, arg)) B)|]. exists [], (op, arg). split; [exact HP|].
    eapply wp_mono; [apply (Hgo [] (op, arg) r HP Hn Hb)|..]; [lia| |done]. done.
Qed.

Lemma wp_replace_returns P r :
  program r P → 0 ≤ m_nInstrs r < 2 ^ 32 → behind P →
  wp (replace_returns ret endFinally index isVoid) r
    (λ _ r', program r' (replaced (il_fresh r) P) ∧ same_but (if isVoid then 0 else returns ret P) r r' ∧
             (isVoid = true ∨ returns ret P = 0%nat ∨ 0 ≤ s16 index))
    (λ e r', e = S_FALSE ∧ frame r' = frame r).
Proof.
  intros HP Hn Hb. pose proof (pr_list _ _ HP) as Hl. destruct (il_list_start _ _ Hl) as (i & Hi & Hnext).
  unfold replace_returns. wp_step (by apply read_instr_run). rewrite Hnext. wp_step done.
  apply (wp_replace_returns_from P []); [done..|]. pose proof (il_list_size _ _ Hl) as Hs. rewrite length_fmap in Hs. lia.
Qed.

(** Instructions that are no returns stay. *)
Lemma replaced_stays fresh B : Forall (λ x, x.2.1 = CEE_RET → x.1 = ret) B → replaced fresh B = B ∧ returns ret B = 0%nat.
Proof.
  induction 1 as [|[p [op arg]] B Hx _ [IH IH']]; [done|]. cbn [Returns.replaced]. cbn [fst snd] in Hx. unfold returns.
  rewrite filter_cons. cbn [fst snd]. rewrite !decide_False by tauto. by rewrite IH.
Qed.

Lemma length_replaced fresh B :
  length (replaced fresh B) = (length B + (if isVoid then 0 else returns ret B))%nat.
Proof.
  revert fresh. induction B as [|[p [op arg]] B IH]; intros fresh; [by destruct isVoid|].
  cbn [Returns.replaced length]. unfold returns. rewrite filter_cons. cbn [fst snd]. case_decide.
  - destruct isVoid; cbn [length]; rewrite IH; [done|]. unfold returns. lia.
  - cbn [length]. rewrite IH. destruct isVoid; unfold returns; lia.
Qed.

Lemma returns_app B1 B2 : returns ret (B1 ++ B2) = (returns ret B1 + returns ret B2)%nat.
Proof. unfold returns. by rewrite filter_app, length_app. Qed.
End Loop.

(** The return behind the method. *)
Lemma write_return_run r P :
  program r P →
  ∃ r', write_return r = (Ret (il_fresh r), r') ∧ program r' (P ++ [(il_fresh r, (CEE_RET, 0))]) ∧ same_but 1 r r'.
Proof.
  intros HP. pose proof (pr_list _ _ HP) as Hl. rewrite <-(app_nil_r P), fmap_app in Hl.
  destruct (insert_new r _ _ Hl (set_opcode CEE_RET) CEE_RET 0) as (r' & _ & Hr & Hin); [auto with il|done|done|].
  exists r'. set (w := il_fresh r) in *. destruct (il_list_after_new r _ Hl) as [Hl1 Hfr].
  assert (Hl2 : il_list (upd_il_store (insert w (set_opcode CEE_RET ILInstr_zero)) (after_new r)) (P.*1 ++ ([] : prog).*1)).
  { eapply il_list_write; [auto with il| |exact Hl1]. cbn. apply lookup_insert_eq. }
  destruct (il_list_start _ _ Hl2) as (i & Hi & _).
  assert (Hprev : m_pPrev i = default m_IL (last P.*1)).
  { destruct Hl2 as (_ & Hc & _). pose proof (chain_prv_end _ _ _ _ Hc) as He. unfold prv in He. rewrite Hi in He. rewrite app_nil_r in He. by injection He. }
  split; [|split].
  - unfold write_return. run_by (apply NewILInstr_run). run_by (apply write_instr_run, lookup_insert_eq).
    run_by (apply read_instr_run; exact Hi). rewrite Hprev. run_by (exact Hr). done.
  - apply (program_inserted r r' P [] w (CEE_RET, 0)); [by rewrite app_nil_r|exact Hin].
  - destruct Hin as [_ G1 _ _ _ G2 G3 _]. split; [lia|done|exact G3].
Qed.
