(* ===== verification/RewrittenMethod.v ===== *)
(** * The rewritten method (tracer_method_rewriter.cpp)

    The result of [Rewrite]: what the new body consists of, where every branch and every exception
    clause points, and that it is exported. *)

From S2P Require Import Prelude ILOpcodes ILList ILEncoding ILImport ILExport ILRewriterWrapper CorSig Signature.
From S2P Require Import Emission CallTargetTokens CallTargetTokensSafe LocalSignature TracerTokens TracerCode MethodRewriter.
From S2P Require Import MethodPieces MethodCode Returns.

(** ** The new body *)

(** The code of the callbacks, and the instructions of theirs that clauses name. *)
Record parts := {
  p_init : code;
  p_begin : code;
  begin_leave : Z;
  begin_catch : callback_catch;
  p_end : code;
  end_leave : Z;
  end_catch : callback_catch;
}.

Section Structure.
Context (inputs : rewrite_inputs) (locals : LocalsInfo) (f : Z) (p : parts).

(** Initialisation and BeginMethod come before the method, EndMethod behind it; new instructions
    are numbered in the order of their creation, so the return stands between the two. *)
Definition prologue : code := p_init p ++ p_begin p.
Definition begin_at : Z := f + Z.of_nat (length (p_init p)).
Definition return_at : Z := f + Z.of_nat (length prologue).
Definition epilogue_at : Z := return_at + 1.
Definition end_at : Z := epilogue_at + 2.
Definition end_finally_at : Z := end_at + Z.of_nat (length (p_end p)).
Definition epilogue : code :=
  [stloc_code (exceptionIndex locals); (CEE_RETHROW, 0)] ++ p_end p ++
  (CEE_ENDFINALLY, 0) :: (if isVoid inputs then [] else [ldloc_code (returnValueIndex locals)]).

(** Where the method's own returns go on: behind the finally handler. *)
Definition leave_target : Z := if isVoid inputs then return_at else end_finally_at + 1.

Definition method_body (B : prog) : prog :=
  replaced return_at leave_target (returnValueIndex locals) (isVoid inputs)
    (epilogue_at + Z.of_nat (length epilogue)) B.
Definition rewritten_program (B : prog) : prog :=
  number f prologue ++ method_body B ++ number epilogue_at epilogue ++ [(return_at, (CEE_RET, 0))].

(** A handler behind a filter. *)
Definition filter_clause (tryBegin : Z) (cc : callback_catch) : EHClause :=
  {| m_Flags := COR_ILEXCEPTION_CLAUSE_FILTER; m_pTryBegin := tryBegin; m_pTryEnd := cc_filter cc;
     m_pHandlerBegin := cc_first cc; m_pHandlerEnd := cc_leave cc; m_Class := cc_filter cc |}.

(** The two callbacks, each with its handler; the whole method with the handler that keeps the
    exception; all of it with the finally handler. *)
Definition new_clauses (exception : Z) : list EHClause :=
  [ filter_clause f (begin_catch p);
    filter_clause end_at (end_catch p);
    {| m_Flags := COR_ILEXCEPTION_CLAUSE_NONE; m_pTryBegin := f; m_pTryEnd := epilogue_at;
       m_pHandlerBegin := epilogue_at; m_pHandlerEnd := epilogue_at + 1; m_Class := u32 exception |};
    {| m_Flags := COR_ILEXCEPTION_CLAUSE_FINALLY; m_pTryBegin := f; m_pTryEnd := end_at;
       m_pHandlerBegin := end_at; m_pHandlerEnd := end_finally_at; m_Class := nullptr |} ].
End Structure.

(** The parts are the code of the callbacks: the first goes on at the method's first instruction,
    the second at the end of the finally handler. *)
Record parts_ok (m_corProfiler : CorProfiler) (tk : TokenSlot → Z) (caller : FunctionInfo) (inputs : rewrite_inputs)
    (by_ref_like : list Z → bool) (locals : LocalsInfo) (f : Z) (B : prog) (p : parts) : Prop := {
  po_init : initialize_code (return_index locals) (callTargetReturnIndex locals) (exceptionIndex locals) (p_init p);
  po_begin : begin_code m_corProfiler tk caller inputs by_ref_like locals (default 0 (additionalLocalIndices locals !! 0%nat))
    (drop 2 (additionalLocalIndices locals)) (first_of B) (first_of B) (begin_at f p) (begin_leave p) (begin_catch p) (p_begin p);
  po_end : end_code m_corProfiler tk inputs locals (default 0 (additionalLocalIndices locals !! 1%nat))
    (end_finally_at f p) (end_finally_at f p) (end_at f p) (end_leave p) (end_catch p) (p_end p);
}.

(** ** The indices of the locals *)

Section Indices.
Context {MD : Type} `{!Metadata MD} (bubble_up_type : bool) (by_ref_like : list Z → bool).
Context (ret : list Z) (args : list (list Z)) (s s' : context MD) (info : LocalsInfo).
Context (n : Z) (types : list Z) (returnType : option (list Z)) (wrapper : list Z).
Context (Hlayout : new_layout bubble_up_type by_ref_like ret args s s' info n types returnType wrapper).

(** The indices are those of locals, the local for the result is there if there is a result. *)
Record indices_ok : Prop := {
  io_state : 0 ≤ callTargetStateIndex info;
  io_wrapper : 0 ≤ callTargetReturnIndex info;
  io_exception : 0 ≤ exceptionIndex info;
  io_additional : Forall (λ i, 0 ≤ i) (additionalLocalIndices info);
  io_refs : ∃ b e refs, additionalLocalIndices info = b :: e :: refs ∧ length refs = ref_structs by_ref_like args;
  io_return : 0 ≤ returnValueIndex info;
}.

Lemma original_count_nonneg : 0 ≤ n.
Proof.
  pose proof (nl_original _ _ _ _ _ _ _ _ _ _ _ Hlayout) as Ho. unfold original_types in Ho. case_decide; [lia|].
  destruct Ho as (md & _ & h & _ & Hn & _). lia.
Qed.

Lemma layout_indices : indices_ok.
Proof.
  pose proof original_count_nonneg as Hn. destruct (nl_indices _ _ _ _ _ _ _ _ _ _ _ Hlayout) as [[H1 _] [H2 _] [H3 _] H4 H5].
  split; [lia..|eapply Forall2_Forall_r; [exact H5|]; apply Forall_true; intros ? ? [? _]; lia| |].
  - pose proof (Forall2_length _ _ _ H5) as Hl. rewrite additional_length in Hl.
    destruct (additionalLocalIndices info) as [|b [|e refs]]; cbn in Hl; [lia|lia|]. exists b, e, refs. split; [done|lia].
  - destruct returnType; [destruct H4; lia|by rewrite H4].
Qed.
End Indices.

(** ** Safety of a failure *)

Lemma wp_or_skip {MD A} (m : T MD A) s Q (X : HRESULT → context MD → Prop) :
  wp m s Q (λ _ s', X S_FALSE s') → wp (or_skip m) s Q X.
Proof. unfold or_skip, wp, attempt, mbind, stM_bind. by destruct (m s) as [[]]. Qed.

Lemma frame_body r r' : frame r' = frame r → il_body r' = il_body r.
Proof. by intros [= ]. Qed.

Lemma program_fresh_pos r P : program r P → 0 < il_fresh r.
Proof.
  intros HP. pose proof (pr_list _ _ HP) as Hl. destruct (il_list_start _ _ Hl) as (i & Hi & _). destruct Hl as (_ & _ & Hd).
  assert (m_IL ∈ dom (il_store r)) as Hdom by (apply elem_of_dom; eauto). apply Hd in Hdom. lia.
Qed.

(** The returns that become leaves are those of the method. *)
Lemma replaced_middle ret target index b fresh f1 c1 B f2 c2 :
  well_formed (λ _, True) c1 → well_formed (λ _, True) c2 →
  let P := number f1 c1 ++ B ++ number f2 c2 ++ [(ret, (CEE_RET, 0))] in
  replaced ret target index b fresh P = number f1 c1 ++ replaced ret target index b fresh B ++ number f2 c2 ++ [(ret, (CEE_RET, 0))] ∧
  returns ret P = returns ret B.
Proof.
  intros H1 H2 P. destruct (replaced_stays ret target index b fresh _ (well_formed_returns _ f1 _ ret H1)) as [R1 N1].
  assert (Htail : Forall (λ x, x.2.1 = CEE_RET → x.1 = ret) (number f2 c2 ++ [(ret, (CEE_RET, 0))])).
  { apply Forall_app. split; [by eapply well_formed_returns|by constructor]. }
  unfold P. rewrite !replaced_app, R1, N1, !returns_app, N1. split.
  - f_equal. replace (fresh + Z.of_nat (if b then 0 else 0)) with fresh by (destruct b; lia). f_equal.
    rewrite <-replaced_app. by apply replaced_stays.
  - destruct (replaced_stays ret target index b fresh _ Htail) as [_ N2]. rewrite returns_app in N2. lia.
Qed.

(** The tokens that every operation finds defined. *)
Definition known_slots : list TokenSlot := bubbleUpExceptionTypeRef :: base_slots.

Lemma known_exceptions : exTypeRef ∈ known_slots ∧ bubbleUpExceptionTypeRef ∈ known_slots.
Proof. unfold known_slots, base_slots. set_solver. Qed.

Section Rewriting.
Context {MD : Type} `{!Metadata MD} (Hmd : metadata_ok MD) (Hdef : bubble_up_definable (MD := MD)).
Context (signature_uninit : list Z) (Hun : length signature_uninit = signatureBufferSize).
Context (m_corProfiler : CorProfiler) (module_metadata : ModuleMetadata).
Context (Hbubble : call_target_bubble_up_exception_available m_corProfiler = true).
Context (caller : FunctionInfo) (inputs : rewrite_inputs) (by_ref_like : list Z → bool).

Let args := GetMethodArguments (FunctionInfo_signature caller).
Let ret := retFuncArg inputs.

Context (Hret : readable ret) (Hargs : answers (MD := MD) by_ref_like args).
Context (Hcount : NumberOfArguments (FunctionInfo_signature caller) = Z.of_nat (length args)) (Hmany : Z.of_nat (length args) < 2 ^ 16 - 8).

Abbreviation layout := (new_layout (call_target_bubble_up_exception_available m_corProfiler) by_ref_like ret args).
Abbreviation unchanged s := (λ (_ : HRESULT) s', il_body (c_il s') = il_body (c_il s)).

Lemma layout_knows s s1 info n types returnType wrapper :
  layout s s1 info n types returnType wrapper → knows known_slots (c_tokens s1) s1.
Proof.
  intros Hl slot Hslot. split; [|done]. apply elem_of_cons in Hslot as [->|Hslot].
  - by apply (nl_bubble_up _ _ _ _ _ _ _ _ _ _ _ Hl).
  - destruct (nl_tokens _ _ _ _ _ _ _ _ _ _ _ Hl) as [Hb _]. by apply (proj1 (Forall_forall _ _) Hb).
Qed.

(** The locals and their initialisation. *)
Definition initialized (B : prog) (s : context MD) (r : LocalsInfo * Z) (s2 : context MD) : Prop := ∃ s1 n types returnType wrapper init,
  layout s s1 r.1 n types returnType wrapper ∧ wrote_code known_slots (c_tokens s1) B [] s1 s2 init ∧
  r.2 = il_fresh (c_il s) ∧ initialize_code (return_index r.1) (callTargetReturnIndex r.1) (exceptionIndex r.1) init.

Lemma wp_initialized B s this :
  program (c_il s) B → 0 ≤ m_nInstrs (c_il s) < 2 ^ 32 → m_ILInstr this = first_of B →
  (m_tkLocalVarSig (c_il s) = mdTokenNil → (ref_structs by_ref_like args < 122)%nat) →
  wp (or_skip (ModifyLocalSigAndInitialize signature_uninit (corAssemblyProperty module_metadata)
        (bytecode_instrumentation_assembly m_corProfiler) (call_target_bubble_up_exception_available m_corProfiler)
        (call_target_bubble_up_exception_function_available m_corProfiler) this ret args (2 + ref_structs by_ref_like args))) s
    (initialized B s) (unchanged s).
Proof.
  intros HP Hn Hthis Hnil. apply wp_or_skip. unfold ModifyLocalSigAndInitialize. apply wp_bind.
  eapply wp_mono; [by apply modify_layout|..].
  2:{ intros e s' [-> _]. done. }
  intros info s1 (n & types & returnType & wrapper & Hl). pose proof (nl_il _ _ _ _ _ _ _ _ _ _ _ Hl) as Hil.
  pose proof (layout_indices _ _ _ _ _ _ _ _ _ _ _ Hl) as [Hst Hwr Hex Had _ Hre].
  assert (HP1 : program (c_il s1) ([] ++ B)) by (rewrite Hil; destruct HP; by split).
  assert (Hn1 : 0 ≤ m_nInstrs (c_il s1) < 2 ^ 32) by (by rewrite Hil).
  pose proof (wrote_nothing _ _ _ _ _ (layout_knows _ _ _ _ _ _ _ Hl) HP1 Hn1) as Hw0.
  eapply wp_writes; [exact Hw0|by apply writes_initialize_locals| |].
  { intros e s' Hf. apply frame_body in Hf. rewrite Hf, Hil. done. }
  intros first s2 init Hw [-> Hinit]. eapply wp_run; [done|]. exists s1, n, types, returnType, wrapper, init.
  cbn [app fst snd length] in *. split_and!; [done|done| |done]. rewrite Hil. cbn. lia.
Qed.

(** Filling in the targets of a callback's leaves. *)
Lemma wp_targets {A} tk B P s0 s pre c post k1 k2 target (k : T MD A) R X :
  wrote_code known_slots tk B P s0 s (pre ++ c ++ post) →
  c !! k1 = Some (CEE_LEAVE_S, 0) → c !! k2 = Some (CEE_LEAVE_S, 0) → k2 ≠ k1 →
  (∀ s', wrote_code known_slots tk B P s0 s' (pre ++ <[k2 := (CEE_LEAVE_S, target)]> (<[k1 := (CEE_LEAVE_S, target)]> c) ++ post) →
         wp k s' R X) →
  let at_ n := il_fresh (c_il s0) + Z.of_nat (length pre) + Z.of_nat n in
  wp (set_target (at_ k1) target;; set_target (at_ k2) target;; k) s R X.
Proof.
  intros Hw H1 H2 Hne Hk at_. unfold set_target.
  assert (Hat : ∀ n, at_ n = il_fresh (c_il s0) + Z.of_nat (length pre + n)) by (intros; unfold at_; lia).
  assert (Hlt : ∀ n it, c !! n = Some it → (n < length c)%nat) by (intros; by eapply lookup_lt_Some).
  assert (Hset : ∀ (c' : code) n it, (n < length c')%nat → <[(length pre + n)%nat := it]> (pre ++ c' ++ post) = pre ++ <[n := it]> c' ++ post).
  { intros c' n it Hlen. rewrite insert_app_r_alt by lia. replace (length pre + n - length pre)%nat with n by lia. by rewrite insert_app_l. }
  assert (Hget : ∀ (c' : code) n, (n < length c')%nat → (pre ++ c' ++ post) !! (length pre + n)%nat = c' !! n).
  { intros c' n Hlen. rewrite lookup_app_r by lia. replace (length pre + n - length pre)%nat with n by lia. by apply lookup_app_l. }
  rewrite !Hat. eapply wp_patch; [exact Hw|rewrite Hget; eauto|apply keeps_links_set_Arg|by intros; eapply data_set_pTarget|].
  intros s' Hw'. rewrite Hset in Hw' by eauto.
  eapply wp_patch; [exact Hw'|rewrite Hget, list_lookup_insert_ne by (rewrite ?length_insert; eauto); exact H2
    |apply keeps_links_set_Arg|by intros; eapply data_set_pTarget|].
  intros s2 Hw2. rewrite Hset in Hw2 by (rewrite length_insert; eauto). by apply Hk.
Qed.

Section Parts.
Context (tk : TokenSlot → Z) (Htk : tk bubbleUpExceptionTypeRef ≠ mdTypeRefNil).
Context (locals : LocalsInfo) (Hlocals : indices_ok by_ref_like args locals).

Abbreviation begin_code_of :=
  (begin_code m_corProfiler tk caller inputs by_ref_like locals (default 0 (additionalLocalIndices locals !! 0%nat))
     (drop 2 (additionalLocalIndices locals))).
Abbreviation end_code_of := (end_code m_corProfiler tk inputs locals (default 0 (additionalLocalIndices locals !! 1%nat))).

Lemma token_known {C} slot (k : Z → T MD C) s P X :
  knows known_slots tk s → slot ∈ known_slots → wp (k (tk slot)) s P X → wp (token slot ≫= k) s P X.
Proof. intros Hk Hslot Hw. eapply wp_run_bind; [done|]. by destruct (Hk _ Hslot) as [_ ->]. Qed.

(** BeginMethod, up to the filled-in targets. *)
Lemma wp_begin_part {A} B s1 s2 init (k : Z → Z → callback_catch → Z → T MD A) P X :
  let this := SetILPosition (first_of B) ILRewriterWrapper_new in
  wrote_code known_slots tk B [] s1 s2 init → 0 < il_fresh (c_il s1) →
  (∀ e s', frame (c_il s') = frame (c_il s1) → X e s') →
  (∀ s3 leave catch_ begin_, wrote_code known_slots tk B [] s1 s3 (init ++ begin_) →
     begin_code_of (first_of B) (first_of B) (il_fresh (c_il s1) + Z.of_nat (length init)) leave catch_ begin_ →
     wp (k leave (tk bubbleUpExceptionTypeRef) catch_ (tk exTypeRef)) s3 P X) →
  wp ('(leave, bubbleup, catch_) ← write_begin signature_uninit m_corProfiler module_metadata caller inputs this locals;
      exToken ← token exTypeRef;
      set_target leave (first_of B);;
      set_target (cc_leave catch_) (first_of B);;
      k leave bubbleup catch_ exToken) s2 P X.
Proof.
  intros this Hw Hf HX Hk. destruct Hlocals as [Hst Hwr Hex Had (b & e & refs & Hrefs & Hlen) Hre].
  eapply wp_writes; [exact Hw|eapply writes_write_begin; first [exact Hrefs|done|exact known_exceptions]|exact HX|].
  intros [[leave bubbleup] catch_] s3 c Hw3 Hc. destruct Hc as [-> Hc]; [lia|].
  destruct (begin_target _ _ _ _ _ _ _ _ (first_of B) _ _ _ _ Hc) as (k1 & k2 & -> & Hl & Hne & H1 & H2 & Hbegin).
  apply token_known; [apply Hw3|apply known_exceptions|]. rewrite Hl.
  eapply (wp_targets _ _ _ _ _ init c []); [by rewrite app_nil_r|exact H1|exact H2|exact Hne|].
  intros s4 Hw4. rewrite app_nil_r in Hw4. apply Hk with (1 := Hw4). rewrite Hrefs. exact Hbegin.
Qed.

(** EndMethod, up to the instruction before the return. *)
Lemma wp_end_part {A} B P0 s4 this (k : Z → Z → Z → Z → callback_catch → Z → Z → T MD A) P X :
  m_ILInstr this = first_of B → wrote_code known_slots tk B P0 s4 s4 [] → 0 < il_fresh (c_il s4) →
  (∀ e s', frame (c_il s') = frame (c_il s4) → X e s') →
  (∀ s5 leave catch_ end_, let at_ := il_fresh (c_il s4) + 2 in let endFinally := at_ + Z.of_nat (length end_) in
     wrote_code known_slots tk B P0 s4 s5
       ([stloc_code (exceptionIndex locals); (CEE_RETHROW, 0)] ++ end_ ++
        (CEE_ENDFINALLY, 0) :: (if isVoid inputs then [] else [ldloc_code (returnValueIndex locals)])) →
     end_code_of endFinally endFinally at_ leave catch_ end_ →
     wp (k (il_fresh (c_il s4)) (il_fresh (c_il s4) + 1) at_ leave catch_ (tk exTypeRef) endFinally) s5 P X) →
  wp (startExceptionCatch ← on_il (StLocal this (exceptionIndex locals));
      rethrowInstr ← on_il (Rethrow this);
      '(start, leave, catch_) ← write_end signature_uninit m_corProfiler module_metadata caller inputs this locals (tk bubbleUpExceptionTypeRef);
      exToken ← token exTypeRef;
      endFinallyInstr ← on_il (EndFinally this);
      set_target leave endFinallyInstr;;
      set_target (cc_leave catch_) endFinallyInstr;;
      (if negb (isVoid inputs) then on_il (LoadLocal this (returnValueIndex locals));; mret tt else mret tt);;
      k startExceptionCatch rethrowInstr start leave catch_ exToken endFinallyInstr) s4 P X.
Proof.
  intros Hthis Hw Hf HX Hk. destruct Hlocals as [Hst Hwr Hex Had (b & e & refs & Hrefs & Hlen) Hre].
  eapply wp_writes; [exact Hw|apply clean_writes, clean_emission; emission|exact HX|]. intros ? s1 ? Hw1 [-> ->]. cbn [app length] in *.
  eapply wp_writes; [exact Hw1|apply clean_writes, clean_emission; emission|exact HX|]. intros ? s2 ? Hw2 [-> ->]. cbn [app length] in *.
  eapply wp_writes; [exact Hw2|eapply writes_write_end; first [exact Hrefs|done|exact known_exceptions]|exact HX|].
  intros [[start leave] catch_] s3 c Hw3 Hc. destruct Hc as [-> Hc]; [cbn [length]; lia|].
  apply token_known; [apply Hw3|apply known_exceptions|].
  eapply wp_writes; [exact Hw3|apply clean_writes, clean_emission; emission|exact HX|]. intros ? s6 ? Hw6 [-> ->].
  rewrite <-app_assoc in Hw6.
  match goal with |- context [set_target leave ?t] => set (endFinally := t) end.
  destruct (end_target _ _ _ _ _ endFinally _ _ _ _ Hc) as (k1 & k2 & -> & Hl & Hne & H1 & H2 & Hend).
  rewrite Hl. eapply wp_targets; [exact Hw6|exact H1|exact H2|exact Hne|]. intros s7 Hw7. clear Hw6 Hw3 Hw2 Hw1.
  set (c' := <[k2 := _]> (<[k1 := _]> c)) in *.
  assert (Hlc : length c' = length c) by (unfold c'; by rewrite !length_insert).
  assert (Hef : endFinally = il_fresh (c_il s4) + 2 + Z.of_nat (length c')).
  { unfold endFinally. rewrite Hlc, length_app. cbn [length]. lia. }
  replace (il_fresh (c_il s4) + Z.of_nat 0) with (il_fresh (c_il s4)) by lia.
  replace (il_fresh (c_il s4) + Z.of_nat 1) with (il_fresh (c_il s4) + 1) by lia.
  cbn [length] in *. replace (il_fresh (c_il s4) + Z.of_nat 2) with (il_fresh (c_il s4) + 2) in * by lia.
  rewrite Hef in *. destruct (isVoid inputs) eqn:Hv; cbn [negb].
  - wp_step done. apply (Hk s7); [exact Hw7|]. rewrite Hrefs. exact Hend.
  - apply wp_assoc. eapply wp_writes; [exact Hw7|apply clean_writes, clean_emission; emission|exact HX|].
    intros ? s8 ? Hw8 [-> ->]. wp_step done. apply (Hk s8); [|rewrite Hrefs; exact Hend].
    rewrite <-!app_assoc in Hw8. exact Hw8.
Qed.
End Parts.

(** ** The whole method *)

(** What [rewrite_body] did to the method [B]. *)
Record instrumented (B : prog) (s s' : context MD) (sig : Z) (tk : TokenSlot → Z) (locals : LocalsInfo) (p : parts) : Prop := {
  in_parts : parts_ok m_corProfiler tk caller inputs by_ref_like locals (il_fresh (c_il s)) B p;
  in_program : program (c_il s') (rewritten_program inputs locals (il_fresh (c_il s)) p B);
  in_clauses : m_pEH (c_il s') = Some (eh_clauses (c_il s) ++ new_clauses (il_fresh (c_il s)) p (tk exTypeRef));
  in_nEH : m_nEH (c_il s') = u32 (m_nEH (c_il s) + 4);
  in_nInstrs : m_nInstrs (c_il s') =
    u32 (m_nInstrs (c_il s) + Z.of_nat (length (rewritten_program inputs locals (il_fresh (c_il s)) p B) - length B));
  in_header : (m_tkLocalVarSig (c_il s'), m_flags (c_il s'), m_fGenerateTinyHeader (c_il s'), il_body (c_il s')) =
    (sig, m_flags (c_il s), false, il_body (c_il s));
  in_index : isVoid inputs = true ∨ returns (return_at (il_fresh (c_il s)) p) B = 0%nat ∨ 0 ≤ s16 (returnValueIndex locals);
}.

Lemma layout_same s s0 s1 info n types returnType wrapper :
  same_tokens s s0 → layout s0 s1 info n types returnType wrapper → layout s s1 info n types returnType wrapper.
Proof.
  intros [Hil Ht] [H1 H2 H3 H4 H5 H6 H7 H8]. rewrite Hil in *. split; [done..| |done|done].
  unfold defined in *. by rewrite <-Ht.
Qed.

Lemma wp_on_il {A} (m : stM ILRewriter HRESULT A) (s : context MD) (Q : A → context MD → Prop) (X : HRESULT → context MD → Prop) :
  let with_il r := Build_context r (c_tokens s) (c_integration_types s) (c_md s) in
  wp m (c_il s) (λ a r, Q a (with_il r)) (λ e r, X e (with_il r)) → wp (on_il m) s Q X.
Proof. unfold wp, on_il. by destruct (m (c_il s)) as [[]]. Qed.

Lemma read_run (s : context MD) q i : il_store (c_il s) !! q = Some i → on_il (read_instr q) s = (Ret i, s).
Proof. intros Hi. unfold on_il. rewrite (read_instr_run _ _ _ Hi). by destruct s. Qed.

Lemma callback_is_filter tryBegin f leave cc c ex :
  0 < f → callback_placed f leave cc c → callback_clause tryBegin cc ex = filter_clause tryBegin cc.
Proof. intros Hf (H1 & H2 & _). unfold callback_clause, filter_clause. rewrite decide_True by (unfold nullptr; lia). done. Qed.

Lemma add_clauses_run r added :
  m_nEH r = Z.of_nat (length (eh_clauses r)) →
  ∃ r', add_clauses added r = (Ret tt, r') ∧ m_pEH r' = Some (eh_clauses r ++ added) ∧
    m_nEH r' = u32 (m_nEH r + Z.of_nat (length added)) ∧ (∀ P, program r P → program r' P) ∧
    (m_nInstrs r', m_tkLocalVarSig r', m_flags r', m_fGenerateTinyHeader r', il_body r') =
    (m_nInstrs r, m_tkLocalVarSig r, m_flags r, m_fGenerateTinyHeader r, il_body r).
Proof.
  intros Hn. eexists. split.
  - unfold add_clauses. run_by done. fold (eh_clauses r). cbv zeta. rewrite decide_True by lia.
    rewrite Hn, Nat2Z.id, firstn_all. run_by done. rewrite <-Hn. done.
  - split; [done|]. split; [done|]. split; [|done]. intros P [H1 H2]. by split.
Qed.

Section Finish.
Context (B : prog) (s : context MD) (tk : TokenSlot → Z) (locals : LocalsInfo) (p : parts).
Context (Hlocals : indices_ok by_ref_like args locals) (Hfresh : 0 < il_fresh (c_il s)).

Let f := il_fresh (c_il s).
Context (Hparts : parts_ok m_corProfiler tk caller inputs by_ref_like locals f B p).

Lemma additional_nonneg : 0 ≤ default 0 (additionalLocalIndices locals !! 0%nat) ∧ 0 ≤ default 0 (additionalLocalIndices locals !! 1%nat) ∧
  Forall (λ r, 0 ≤ r) (drop 2 (additionalLocalIndices locals)).
Proof.
  destruct Hlocals as [_ _ _ Had (b & e & refs & Hrefs & _) _]. rewrite Hrefs in *.
  apply Forall_cons in Had as [? [? ?]%Forall_cons]. done.
Qed.

(** Both halves of the new code: where they branch to, how long they are, where the clauses'
    instructions are. *)
Lemma begin_part_ok (Q : Z → Prop) :
  Q (first_of B) → (∀ q, begin_at f p ≤ q < return_at f p → Q q) →
  well_formed Q (prologue p) ∧ (length (prologue p) ≤ 6 * length args + 36)%nat ∧
  callback_placed (begin_at f p) (begin_leave p) (begin_catch p) (p_begin p).
Proof.
  intros HQ Hin. destruct Hlocals as [Hst Hwr Hex _ _ Hre]. destruct additional_nonneg as (Hb & _ & Hr).
  assert (Hri : ∀ i, return_index locals = Some i → 0 ≤ i) by (unfold return_index; intros i; case_decide; congruence).
  destruct (initialize_straight Q _ _ _ _ Hri Hwr Hex (po_init _ _ _ _ _ _ _ _ _ Hparts)) as [Hwi Hli].
  destruct (begin_well_formed _ _ _ _ _ _ Hst Q _ _ _ _ _ _ _ Hb Hr (po_begin _ _ _ _ _ _ _ _ _ Hparts) HQ) as (Hwb & Hlb & Hpb).
  { intros q Hq. apply Hin. unfold return_at, begin_at, prologue in *. rewrite length_app. lia. }
  fold args in Hlb. unfold prologue. rewrite length_app. split_and!; [by apply well_formed_app|lia|done].
Qed.

Lemma end_part_ok (Q : Z → Prop) :
  (∀ q, end_at f p ≤ q ≤ end_finally_at f p → Q q) →
  well_formed Q (epilogue inputs locals p) ∧ (length (epilogue inputs locals p) ≤ 44)%nat ∧
  callback_placed (end_at f p) (end_leave p) (end_catch p) (p_end p).
Proof.
  intros Hin. destruct Hlocals as [Hst Hwr Hex _ _ Hre]. destruct additional_nonneg as (_ & He & _).
  destruct (end_well_formed _ _ _ _ Hwr Hex Hre Q _ _ _ _ _ _ He (po_end _ _ _ _ _ _ _ _ _ Hparts)) as (Hwe & Hle & Hpe).
  { apply Hin. unfold end_finally_at. lia. }
  { intros q Hq. apply Hin. unfold end_finally_at. lia. }
  unfold epilogue. split_and!; [|rewrite !length_app; cbn [length]; destruct (isVoid inputs); cbn [length]; lia|done].
  assert (well_formed Q (if isVoid inputs then [] else [ldloc_code (returnValueIndex locals)])) by (destruct (isVoid inputs); auto with code).
  cbn [app]. auto 10 with code.
Qed.

Abbreviation whole := (number f (prologue p) ++ B ++ number (epilogue_at f p) (epilogue inputs locals p) ++ [(return_at f p, (CEE_RET, 0))]).

Lemma true_code : well_formed (λ _, True) (prologue p) ∧ well_formed (λ _, True) (epilogue inputs locals p).
Proof. by split; [apply begin_part_ok|apply end_part_ok]. Qed.

Lemma behind_whole : behind (end_finally_at f p) (leave_target inputs f p) whole.
Proof.
  set (head := [stloc_code (exceptionIndex locals); (CEE_RETHROW, 0)] ++ p_end p).
  set (tail := if isVoid inputs then [] else [ldloc_code (returnValueIndex locals)]).
  exists (number f (prologue p) ++ B ++ number (epilogue_at f p) head), (CEE_ENDFINALLY, 0),
    (number (end_finally_at f p + 1) tail ++ [(return_at f p, (CEE_RET, 0))]).
  assert (Hat : epilogue_at f p + Z.of_nat (length head) = end_finally_at f p).
  { unfold head, end_finally_at, end_at. rewrite length_app. cbn [length]. lia. }
  split_and!; [|done|].
  - assert (Hepi : epilogue inputs locals p = head ++ [(CEE_ENDFINALLY, 0)] ++ tail).
    { unfold epilogue, head. by rewrite <-app_assoc. }
    rewrite Hepi, !number_app, Hat. cbn [length]. rewrite <-!app_assoc. do 3 f_equal.
    change (number ?a [?x]) with [(a + Z.of_nat 0, x)]. cbn [app]. do 2 f_equal. lia.
  - unfold leave_target, tail. destruct (isVoid inputs); [done|]. cbn. lia.
Qed.

Lemma rethrow_next r :
  program r (rewritten_program inputs locals f p B) → ∃ i, il_store r !! (epilogue_at f p + 1) = Some i ∧ m_pNext i = end_at f p.
Proof.
  intros HP. unfold rewritten_program, epilogue in HP.
  set (rest := p_end p ++ (CEE_ENDFINALLY, 0) :: (if isVoid inputs then [] else [ldloc_code (returnValueIndex locals)])) in *.
  rewrite number_app in HP. change (number (epilogue_at f p) [?x; ?y]) with [(epilogue_at f p + Z.of_nat 0, x); (epilogue_at f p + Z.of_nat 1, y)] in HP.
  cbn [length app] in HP.
  set (front := number f (prologue p) ++ method_body inputs locals f p B) in *.
  match type of HP with program _ (?a ++ ?b ++ ?x :: ?y :: ?l) =>
    replace (a ++ b ++ x :: y :: l) with ((a ++ b ++ [x]) ++ y :: l) in HP by (by rewrite <-!app_assoc) end.
  destruct (program_node _ _ _ _ HP) as (i & Hi & _ & Hn). exists i. split; [exact Hi|]. rewrite Hn. unfold end_at.
  assert (Hrest : ∃ it l, rest = it :: l) by (unfold rest; destruct (p_end p); eauto). destruct Hrest as (it & l & ->).
  cbn. lia.
Qed.

Lemma wp_finish sig s5 :
  knows known_slots tk s5 → program (c_il s5) whole →
  il_fresh (c_il s5) = epilogue_at f p + Z.of_nat (length (epilogue inputs locals p)) →
  m_nInstrs (c_il s5) = u32 (m_nInstrs (c_il s) + Z.of_nat (length whole - length B)) →
  m_nEH (c_il s) = Z.of_nat (length (eh_clauses (c_il s))) →
  (m_nEH (c_il s5), m_pEH (c_il s5), m_tkLocalVarSig (c_il s5), m_flags (c_il s5), m_fGenerateTinyHeader (c_il s5), il_body (c_il s5)) =
  (m_nEH (c_il s), m_pEH (c_il s), sig, m_flags (c_il s), false, il_body (c_il s)) →
  wp (on_il (replace_returns (return_at f p) (end_finally_at f p) (returnValueIndex locals) (isVoid inputs));;
      exToken ← token exTypeRef;
      rethrow ← on_il (read_instr (epilogue_at f p + 1));
      on_il (add_clauses [callback_clause f (begin_catch p) (tk exTypeRef); callback_clause (end_at f p) (end_catch p) (tk exTypeRef);
        {| m_Flags := COR_ILEXCEPTION_CLAUSE_NONE; m_pTryBegin := f; m_pTryEnd := epilogue_at f p;
           m_pHandlerBegin := epilogue_at f p; m_pHandlerEnd := epilogue_at f p + 1; m_Class := u32 exToken |};
        {| m_Flags := COR_ILEXCEPTION_CLAUSE_FINALLY; m_pTryBegin := f; m_pTryEnd := m_pNext rethrow;
           m_pHandlerBegin := m_pNext rethrow; m_pHandlerEnd := end_finally_at f p; m_Class := nullptr |} ])) s5
    (λ _ s', instrumented B s s' sig tk locals p) (unchanged s).
Proof.
  intros Hk HP Hfr Hn HnEH [= Hf1 Hf2 Hfsig Hf3 Hf4 Hf5]. destruct true_code as [Hw1 Hw2].
  apply wp_bind, wp_on_il. eapply wp_mono; [apply (wp_replace_returns _ _ (leave_target inputs f p)); [exact HP|rewrite Hn; by apply wrap_range|exact behind_whole]|..].
  2:{ intros e r [-> Hfe]. apply frame_body in Hfe. cbn. congruence. }
  intros _ r (HPr & [Sf Sfr Sn] & Hidx). set (s6 := Build_context r _ _ _).
  destruct (replaced_middle (return_at f p) (leave_target inputs f p) (returnValueIndex locals) (isVoid inputs)
    (il_fresh (c_il s5)) f (prologue p) B (epilogue_at f p) (epilogue inputs locals p) Hw1 Hw2) as [Hrep Hret'].
  rewrite Hrep in HPr. rewrite Hret' in Hidx, Sn.
  assert (HPr' : program (c_il s6) (rewritten_program inputs locals f p B)).
  { unfold rewritten_program, method_body. rewrite <-Hfr. exact HPr. }
  eapply token_known; [exact Hk|exact (proj1 known_exceptions)|].
  destruct (rethrow_next _ HPr') as (i & Hi & Hnext). eapply wp_run_bind; [by apply read_run|].
  apply wp_on_il. unfold frame in Sfr. injection Sfr as _ Gsig G1 G2 G3 G4 _ _ G5.
  assert (Heh : eh_clauses r = eh_clauses (c_il s)) by (unfold eh_clauses; congruence).
  destruct (add_clauses_run r [callback_clause f (begin_catch p) (tk exTypeRef); callback_clause (end_at f p) (end_catch p) (tk exTypeRef);
        {| m_Flags := COR_ILEXCEPTION_CLAUSE_NONE; m_pTryBegin := f; m_pTryEnd := epilogue_at f p;
           m_pHandlerBegin := epilogue_at f p; m_pHandlerEnd := epilogue_at f p + 1; m_Class := u32 (tk exTypeRef) |};
        {| m_Flags := COR_ILEXCEPTION_CLAUSE_FINALLY; m_pTryBegin := f; m_pTryEnd := m_pNext i;
           m_pHandlerBegin := m_pNext i; m_pHandlerEnd := end_finally_at f p; m_Class := nullptr |} ]) as (r' & Hrun & Hp & Hc & HPall & [= N1 Nsig N2 N3 N4]).
  { rewrite Heh. congruence. }
  eapply wp_run; [exact Hrun|]. rewrite Hnext, Heh in Hp. 
  destruct (begin_part_ok (λ _, True) I (λ _ _, I)) as (_ & _ & Hpb). destruct (end_part_ok (λ _, True) (λ _ _, I)) as (_ & _ & Hpe).
  assert (0 < begin_at f p ∧ 0 < end_at f p) as [Hb0 He0] by (unfold begin_at, end_at, epilogue_at, return_at, f; lia).
  rewrite (callback_is_filter _ _ _ _ _ _ Hb0 Hpb), (callback_is_filter _ _ _ _ _ _ He0 Hpe) in Hp.
  split; cbn [c_il].
  - exact Hparts.
  - apply HPall, HPr'.
  - exact Hp.
  - rewrite Hc. cbn [length]. change (Z.of_nat 4) with 4. congruence.
  - rewrite N1, Sn, Hn, wrap_add_l. f_equal. unfold rewritten_program, method_body. fold f. rewrite !length_app, length_replaced. cbn [length]. lia.
  - congruence.
  - exact Hidx.
Qed.
End Finish.

(** The locals of the new method, and what became of its body. *)
Definition method_rewritten (B : prog) (s s' : context MD) : Prop := ∃ locals s1 n types returnType wrapper p,
  layout s s1 locals n types returnType wrapper ∧ indices_ok by_ref_like args locals ∧
  instrumented B s s' (m_tkLocalVarSig (c_il s1)) (c_tokens s1) locals p.

Lemma method_rewritten_same B s s0 s' : same_tokens s s0 → method_rewritten B s0 s' → method_rewritten B s s'.
Proof.
  intros Hs (locals & s1 & n & types & returnType & wrapper & p & Hl & Hidx & [H1 H2 H3 H4 H5 H6 H7]).
  exists locals, s1, n, types, returnType, wrapper, p. split; [by eapply layout_same|]. destruct Hs as [Hil _].
  rewrite Hil in *. split; [done|]. by split.
Qed.

Lemma wp_rewrite_body B s :
  program (c_il s) B → 0 ≤ m_nInstrs (c_il s) < 2 ^ 32 → m_nEH (c_il s) = Z.of_nat (length (eh_clauses (c_il s))) →
  (m_tkLocalVarSig (c_il s) = mdTokenNil → (ref_structs by_ref_like args < 122)%nat) →
  wp (rewrite_body signature_uninit m_corProfiler module_metadata caller inputs) s (λ _ s', method_rewritten B s s') (unchanged s).
Proof.
  intros HP Hn HnEH Hnil. pose proof (program_fresh_pos _ _ HP) as Hf. unfold rewrite_body.
  destruct (il_list_start _ _ (pr_list _ _ HP)) as (i & Hi & Hnext). change (default m_IL (head B.*1)) with (first_of B) in Hnext.
  eapply wp_run_bind; [by apply read_run|]. cbv zeta. rewrite Hnext.
  eapply (wp_within OnlyMetadata _ _ (λ n, n = 2 + Z.of_nat (ref_structs by_ref_like args))).
  { unfold GetAdditionalLocalsCount, enable_by_ref_instrumentation. eapply within_bind; [by apply within_count|].
    intros k ->. by apply within_ret. }
  { intros e s0 [-> _]. done. }
  intros count s0 Hs0 ->. replace (Z.to_nat _) with (2 + ref_structs by_ref_like args)%nat by lia.
  destruct Hs0 as [Hil0 Ht0]. rewrite <-Hil0 in HP, Hn, HnEH, Hnil, Hf.
  apply (wp_mono _ _ (λ _ s', method_rewritten B s0 s') _ (unchanged s0)); [|intros _ s'; by apply method_rewritten_same|by rewrite Hil0].
  clear i Hi Hnext Hil0 Ht0 s. rename s0 into s.
  apply wp_bind. eapply wp_mono; [eapply (wp_initialized B s); done|..|done].
  intros [locals first] s2 (s1 & n & types & returnType & wrapper & init & Hl & Hw & Hfirst & Hinit). cbn [fst snd] in *.
  pose proof (layout_indices _ _ _ _ _ _ _ _ _ _ _ Hl) as Hidx. pose proof (nl_il _ _ _ _ _ _ _ _ _ _ _ Hl) as Hil1.
  assert (Htk : c_tokens s1 bubbleUpExceptionTypeRef ≠ mdTypeRefNil).
  { apply (nl_bubble_up _ _ _ _ _ _ _ _ _ _ _ Hl); done. }
  assert (Hf1 : il_fresh (c_il s1) = il_fresh (c_il s)) by (by rewrite Hil1).
  assert (HX : ∀ s' : context MD, frame (c_il s') = frame (c_il s1) → il_body (c_il s') = il_body (c_il s)).
  { intros s' Hfr. apply frame_body in Hfr. rewrite Hfr, Hil1. done. }
  eapply (wp_begin_part (c_tokens s1) Htk locals Hidx B s1 s2 init); [exact Hw|lia|by intros; apply HX|].
  intros s3 leave catch_ begin_ Hw3 Hbegin. pose proof (wc_run _ _ _ _ _ _ _ Hw3) as [HP3 Hf3 Hfr3 Hn3]. cbn [app] in HP3.
  destruct (write_return_run _ _ HP3) as (il4 & Hrun4 & HP4 & [Sf4 Sfr4 Sn4]).
  eapply wp_run_bind; [unfold on_il; rewrite Hrun4; reflexivity|]. set (s4 := Build_context il4 _ _ _).
  rewrite <-app_assoc in HP4.
  assert (Hfr4 : frame il4 = frame (c_il s1)) by congruence.
  assert (Hw4 : wrote_code known_slots (c_tokens s1) [(il_fresh (c_il s3), (CEE_RET, 0))] (number (il_fresh (c_il s1)) (init ++ begin_) ++ B) s4 s4 []).
  { apply wrote_nothing; [intros slot Hslot; by apply (wc_knows _ _ _ _ _ _ _ Hw3)|by rewrite <-app_assoc|].
    cbn [c_il s4]. rewrite Sn4. apply wrap_range. lia. }
  eapply (wp_end_part (c_tokens s1) Htk locals Hidx); [|exact Hw4|cbn [c_il s4]; lia|intros e s' Hfr; apply HX; cbn [c_il s4] in Hfr; congruence|].
  { reflexivity. }
  intros s5 eleave ecatch end_ at_ endFinally Hw5 Hend. pose proof (wc_run _ _ _ _ _ _ _ Hw5) as [HP5 Hf5 Hfr5 Hn5].
  set (p := {| p_init := init; p_begin := begin_; begin_leave := leave; begin_catch := catch_;
               p_end := end_; end_leave := eleave; end_catch := ecatch |}).
  set (f := il_fresh (c_il s)) in *.
  assert (Hret_at : il_fresh (c_il s3) = return_at f p) by (unfold return_at, prologue, p; cbn; lia).
  assert (Hepi_at : il_fresh (c_il s4) = epilogue_at f p) by (unfold epilogue_at; cbn [c_il s4]; lia).
  assert (Hend_at : at_ = end_at f p) by (unfold at_, end_at; lia).
  assert (Hfin_at : endFinally = end_finally_at f p) by (unfold endFinally, end_finally_at; rewrite Hend_at; done).
  rewrite Hret_at, Hepi_at, Hend_at, Hfin_at. rewrite Hfin_at, Hend_at in Hend.
  assert (Hparts : parts_ok m_corProfiler (c_tokens s1) caller inputs by_ref_like locals f B p).
  { split; [exact Hinit| |exact Hend]. unfold begin_at, p. cbn [p_init p_begin begin_leave begin_catch]. rewrite <-Hf1. exact Hbegin. }
  rewrite Hfirst. eapply wp_mono; [eapply (wp_finish B s (c_tokens s1) locals p Hidx Hf Hparts (m_tkLocalVarSig (c_il s1)) s5)|..|done].
  - apply Hw5.
  - fold f. rewrite <-Hepi_at, <-Hret_at. rewrite <-app_assoc, Hf1 in HP5. exact HP5.
  - fold f. rewrite Hf5, Hepi_at. done.
  - rewrite Hn5. cbn [c_il s4]. rewrite Sn4, Hn3, Hil1. cbn [m_nInstrs upd_m_fGenerateTinyHeader upd_m_tkLocalVarSig]. rewrite wrap_add_l, <-Z.add_assoc, wrap_add_l. f_equal.
    rewrite (length_app (number _ _)), (length_app B), (length_app (number _ _)), !length_number. unfold prologue, epilogue, p.
    cbn [p_init p_begin p_end length]. lia.
  - exact HnEH.
  - assert (Hfr : frame (c_il s5) = frame (c_il s1)) by (etrans; [exact Hfr5|exact Hfr4]).
    pose proof (f_equal frame Hil1) as Hfr1. unfold frame in Hfr, Hfr1. injection Hfr as _ -> -> -> -> -> _ _ ->.
    injection Hfr1 as _ -> -> -> -> _ _ ->. done.
  - intros u s6 Hins. by exists locals, s1, n, types, returnType, wrapper, p.
Qed.
End Rewriting.
