(* ===== verification/ClrTypes.v ===== *)
(** * Reading the types that metadata holds

    On the types of [ClrSignatures] the readers of TypeSignature and the query for runtime-async
    results stay inside. *)

From S2P Require Import Prelude ILList CorSig Signature ClrSignatures CallTargetTokens CallTargetTokensSafe MethodRewriter.

(** ** The readers stay inside *)

Lemma returns_wp {S E A} (m : stM S E A) s : wp m s (λ _ _, True) (λ _ _, False) → returns (m s).1.
Proof. unfold wp. by destruct (m s) as [[]]. Qed.

Lemma ends_wp {S E A} (m : stM S E A) s : wp m s (λ _ _, True) (λ _ _, True) → ends (m s).1.
Proof. unfold wp. by destruct (m s) as [[]]. Qed.

Lemma peek_at pb c b : pb !! c = Some b → peek pb c = (Ret b, c).
Proof. intros H. unfold peek. run_by done. by rewrite H. Qed.

(** The second byte of an instance. *)
Lemma clr_type_second t : clr_type t → head t = Some ELEMENT_TYPE_GENERICINST → ∃ b rest, t = ELEMENT_TYPE_GENERICINST :: b :: rest.
Proof.
  destruct 1 as [b Hb|b bs n [->| ->] Hn|b bs n [->| ->] Hn|bs Hbs|b tok tk num n args Hb Htok Hnum Hargs]; intros H; try done; [|by eauto].
  injection H as ->. by vm_compute in Hb; set_solver.
Qed.

(** The last part of [GetElementTypeAndFlags], at the element type. *)
Lemma wp_element_type pb c t flags (Q : Z * Z → Prop) :
  drop c pb = t → (∃ b rest, t = b :: rest ∧ (b = ELEMENT_TYPE_GENERICINST → is_Some (rest !! 0%nat))) →
  (∀ e, Q (e, flags) ∧ Q (e, Z.lor flags TypeFlagBoxedType)) →
  wp (elementType ← peek pb;
      if decide (elementType ∈ boxed_element_types) then mret (elementType, Z.lor flags TypeFlagBoxedType)
      else if decide (elementType = ELEMENT_TYPE_GENERICINST) then
        advance;; b ← peek pb;
        mret (elementType, if decide (b = ELEMENT_TYPE_VALUETYPE) then Z.lor flags TypeFlagBoxedType else flags)
      else mret (elementType, flags)) c (λ r _, Q r) (λ _ _, False).
Proof.
  intros Hd (b & rest & -> & Hs) HQ.
  assert (Hpb : ∀ i, pb !! (c + i)%nat = (b :: rest) !! i) by (intros i; by rewrite <-Hd, lookup_drop).
  wp_step (apply peek_at; rewrite <-(Nat.add_0_r c); apply (Hpb 0%nat)).
  case_decide; [eapply wp_run; [done|]; apply HQ|]. case_decide as Hg; [|eapply wp_run; [done|]; apply HQ].
  destruct (Hs Hg) as [b' Hb']. wp_step done. wp_step (apply peek_at; rewrite <-Nat.add_1_r, Hpb; exact Hb').
  eapply wp_run; [done|]. case_decide; apply HQ.
Qed.

Lemma clr_type_element t : clr_type t → ∃ b rest, t = b :: rest ∧ (b = ELEMENT_TYPE_GENERICINST → is_Some (rest !! 0%nat)).
Proof.
  intros Ht. destruct (clr_type_head _ Ht) as (b & rest & -> & _). exists b, rest. split; [done|]. intros ->.
  destruct (clr_type_second _ Ht eq_refl) as (b' & rest' & [= ->]). by exists b'.
Qed.

Ltac peeks := wp_step (by apply peek_at).

(** A type behind an optional BYREF. *)
Lemma wp_flags_type r t (w := r ++ t) :
  (r = [] ∨ r = [ELEMENT_TYPE_BYREF]) → clr_type t →
  wp (GetElementTypeAndFlags w) 0%nat (λ x _, Z.land x.2 TypeFlagVoid = 0) (λ _ _, False).
Proof.
  intros Hr Ht. pose proof (clr_type_element _ Ht) as He. destruct (clr_type_head _ Ht) as (b & rest & -> & Hb).
  destruct (type_head_not b Hb) as (N1 & N2 & N3 & N4 & _). unfold GetElementTypeAndFlags. destruct Hr as [->| ->].
  - peeks. rewrite decide_False by done. wp_step done. peeks. rewrite decide_False by done. wp_step done.
    peeks. rewrite !decide_False by done. wp_step done. by eapply wp_element_type.
  - peeks. rewrite decide_False by done. wp_step done. peeks. rewrite decide_False by done. wp_step done.
    peeks. rewrite decide_True by done. wp_step done.
    by apply (wp_element_type w 1 (b :: rest) _ (λ x, Z.land x.2 TypeFlagVoid = 0)).
Qed.

(** A pointer behind an optional BYREF. *)
Lemma wp_flags_pointer r t (w := r ++ ELEMENT_TYPE_PTR :: t) :
  (r = [] ∨ r = [ELEMENT_TYPE_BYREF]) → clr_type t ∨ t = [ELEMENT_TYPE_VOID] →
  wp (GetElementTypeAndFlags w) 0%nat (λ _ _, True) (λ _ _, False).
Proof.
  intros Hr Ht. unfold GetElementTypeAndFlags. destruct Hr as [->| ->].
  - peeks. rewrite decide_True by done. wp_step done.
    assert (∃ b rest, t = b :: rest ∧ b ≠ ELEMENT_TYPE_PINNED ∧ b ≠ ELEMENT_TYPE_BYREF ∧ (b = ELEMENT_TYPE_GENERICINST → is_Some (rest !! 0%nat)))
      as (b & rest & -> & N1 & N2 & He).
    { destruct Ht as [Ht| ->]; [|by exists ELEMENT_TYPE_VOID, []]. pose proof (clr_type_element _ Ht) as (b' & rest' & Heq & He).
      destruct (clr_type_head _ Ht) as (b & rest & -> & Hb). injection Heq as -> ->.
      destruct (type_head_not _ Hb) as (? & ? & ? & ? & _). by exists b', rest'. }
    peeks. rewrite decide_False by done. wp_step done. peeks.
    rewrite (decide_False (P := b = ELEMENT_TYPE_BYREF)) by done. wp_step done.
    apply (wp_element_type w 1 (b :: rest) _ (λ _, True)); [done|eauto|done].
  - peeks. rewrite decide_False by done. wp_step done. peeks. rewrite decide_False by done. wp_step done.
    peeks. rewrite decide_True by done. wp_step done.
    apply (wp_element_type w 1 (ELEMENT_TYPE_PTR :: t) _ (λ _, True)); [done|by exists ELEMENT_TYPE_PTR, t|done].
Qed.

(** The token behind the head of a class or a value type. *)
Lemma clr_token_returns b rest : clr_type (b :: rest) → Forall (λ b, is_byte b) rest →
  b = ELEMENT_TYPE_CLASS ∨ b = ELEMENT_TYPE_VALUETYPE → returns (CorSigUncompressToken rest).
Proof.
  intros Ht Hb Hc. remember (b :: rest) as w eqn:Hw.
  destruct Ht as [b' Hin|b' bs n Hb' Hn|b' bs n Hb' Hn|bs Hbs|b' tok tk num n args Hb' Htok Hnum Hargs]; simplify_eq.
  - exfalso. destruct Hc as [->| ->]; by vm_compute in Hin; set_solver.
  - rewrite <-(app_nil_r rest). by destruct (token_uncompressed rest n Hb Hn) as [tk ->].
  - by destruct Hb' as [->| ->], Hc.
  - by destruct Hc.
  - by destruct Hc.
Qed.

Section Generic.
Context (w : list Z) (Hw : Forall (λ b, is_byte b) w).

Lemma skip_byref_none fuel b off c : b ≠ ELEMENT_TYPE_BYREF → skip_byref w (length w) fuel b off c = (Ret (b, off), c).
Proof. intros Hb. destruct fuel; cbn [skip_byref]; by rewrite decide_False. Qed.

Lemma many_spans n args c : many clr_type n args → reads w (length w) c args →
  ∃ ps, type_spans w (length w) c ps (c + length args) ∧ length ps = n.
Proof.
  intros Hm. revert c. induction Hm as [|n bs bs' Hbs _ IH]; intros c R.
  { exists []. cbn. rewrite Nat.add_0_r. by split; [constructor|]. }
  apply reads_app_inv in R as [R R']; [|done]. destruct (IH _ R') as (ps & Hps & Hl).
  destruct (clr_type_head _ Hbs) as (b & rest & -> & Hb). rewrite length_app, Nat.add_assoc.
  exists ((c, length (b :: rest), b) :: ps). split; [|by cbn; rewrite Hl].
  constructor; [by apply clr_type_sig|done|by apply type_head_not|done].
Qed.

(** From the element type on, which is not BYREF. *)
Definition TryParse_rest (specElementType offset : Z) : C GenericTypeProps :=
  if decide (specElementType = ELEMENT_TYPE_VAR ∨ specElementType = ELEMENT_TYPE_MVAR) then
    genericParamPosition ← ParseNumber w (length w);
    mret {| SpecElementType := specElementType; OpenTypeToken := 0; GenericElementType := 0; ParamsCount := 0;
            IndexOfFirstParam := offset; ParamPosition := genericParamPosition; ParamsSignature := [] |}
  else if decide (specElementType ≠ ELEMENT_TYPE_GENERICINST) then throw tt
  else
    let offset := u32 (offset + 1) in
    elementType ← ParseByte w (length w);
    '(elementType, offset) ← skip_byref w (length w) (length w) elementType offset;
    if decide (elementType ≠ ELEMENT_TYPE_CLASS ∧ elementType ≠ ELEMENT_TYPE_VALUETYPE) then throw tt
    else
      let offset := u32 (offset + 1) in
      pbCur ← get;
      match CorSigUncompressToken (drop pbCur w) with
      | Stuck => stuck
      | Fuel => out_of_fuel
      | Err _ => throw tt
      | Ret (openGenericToken, tokenSigLength) =>
          let offset := u32 (offset + tokenSigLength) in
          Prelude.put (pbCur + Z.to_nat tokenSigLength)%nat;;
          paramCount ← ParseNumber w (length w);
          let offset := u32 (offset + 1) in
          signatures ← parse_params w (length w) (S (length w)) 0 paramCount [];
          mret {| SpecElementType := specElementType; OpenTypeToken := openGenericToken;
                  GenericElementType := elementType; ParamsCount := paramCount;
                  IndexOfFirstParam := offset; ParamPosition := 0; ParamsSignature := signatures |}
      end.

Lemma TryParse_split s : GenericTypeProps_TryParse w (length w) s =
  (b ← ParseByte w (length w); '(b, offset) ← skip_byref w (length w) (length w) b 0; TryParse_rest b offset) s.
Proof. done. Qed.

Lemma wp_TryParse_rest pre t b rest off :
  w = pre ++ t → t = b :: rest → clr_type t → wp (TryParse_rest b off) (S (length pre)) (λ _ _, True) (λ _ _, True).
Proof.
  intros Hpre Hb Ht. assert (R : reads w (length w) (length pre) t).
  { split; [rewrite Hpre, length_app; lia|]. intros i x Hi. rewrite Hpre, lookup_app_r by lia.
    by replace (length pre + i - length pre)%nat with i by lia. }
  unfold TryParse_rest. case_decide.
  { apply wp_bind. eapply wp_mono; [by apply ParseNumber_wp|by intros; eapply wp_run|done]. }
  case_decide as Hg; [done|]. assert (b = ELEMENT_TYPE_GENERICINST) as -> by (destruct (decide (b = ELEMENT_TYPE_GENERICINST)); tauto).
  destruct Ht as [b' Hin|b' bs n Hb' Hn|b' bs n Hb' Hn|bs Hbs|b' tok tk num n args Hb' Htok Hnum Hargs];
    [injection Hb as -> _; by vm_compute in Hin; set_solver|by destruct Hb' as [->| ->]|by destruct Hb' as [->| ->]|done|].
  clear Hb. apply (reads_app_inv _ _ (le_n _) _ [_]) in R as [_ R]. cbn [length] in R. rewrite Nat.add_1_r in R.
  wp_step (eapply ParseByte_run; [done|exact R]).
  apply (reads_app_inv _ _ (le_n _) _ [_]) in R as [_ R]. cbn [length] in R. rewrite Nat.add_1_r in R.
  wp_step (apply skip_byref_none; by destruct Hb' as [->| ->]). cbv beta iota. rewrite decide_False by tauto. wp_step done.
  apply reads_app_inv in R as [R1 R]; [|done]. apply reads_app_inv in R as [R2 R3]; [|done].
  assert (Hdrop : drop (S (S (length pre))) w = tok ++ num ++ args).
  { rewrite Hpre, drop_app_ge by lia. replace (S (S (length pre)) - length pre)%nat with 2%nat by lia. done. }
  assert (Hbt : Forall (λ b, is_byte b) tok).
  { rewrite Hpre in Hw. apply Forall_app in Hw as [_ Hw']. do 2 apply Forall_cons in Hw' as [_ Hw']. by apply Forall_app in Hw' as [? _]. }
  destruct (token_uncompressed tok tk Hbt Htok) as [token Htoken]. rewrite Hdrop, Htoken. wp_step done.
  rewrite Nat2Z.id. 
  wp_step (by eapply ParseNumber_run). destruct (many_spans _ _ _ Hargs R3) as (ps & Hps & Hlen).
  wp_step (eapply parse_params_run; [done|done|exact Hps|by rewrite Z.sub_0_r|lia]). by eapply wp_run.
Qed.
End Generic.

(** The three readers, on a type behind an optional BYREF and on a pointer behind one. *)
Lemma generic_ends w r b rest : Forall (λ b, is_byte b) w → w = r ++ b :: rest → (r = [] ∨ r = [ELEMENT_TYPE_BYREF]) →
  b ≠ ELEMENT_TYPE_BYREF → (clr_type (b :: rest) ∨ b = ELEMENT_TYPE_PTR) → ends (GenericTypeProps_TryParse w (length w) 0%nat).1.
Proof.
  intros Hw Heq Hr Hb Ht. apply ends_wp.
  assert (Hrest : ∀ off, wp (TryParse_rest w b off) (S (length r)) (λ _ _, True) (λ _ _, True)).
  { intros off. destruct Ht as [Ht| ->]; [by eapply wp_TryParse_rest|]. done. }
  unfold wp in *. rewrite TryParse_split.
  destruct Hr as [->| ->]; cbn [app length] in *; rewrite Heq in *.
  - erewrite stM_bind_Ret; [|done]. cbv beta. erewrite stM_bind_Ret; [|by apply skip_byref_none]. apply Hrest.
  - erewrite stM_bind_Ret; [|done]. cbv beta. erewrite stM_bind_Ret.
    2: { cbn [length skip_byref]. rewrite decide_True by done. erewrite stM_bind_Ret; [|done]. cbv beta. by rewrite decide_False. }
    apply Hrest.
Qed.

Lemma skip_pos_at sig p l b q : sig !! p = Some b → (b ∈ l → q = S p) → (b ∉ l → q = p) → skip_pos sig p l = Some q.
Proof. intros Hp H1 H2. unfold skip_pos. rewrite Hp. cbn. f_equal. case_decide; symmetry; auto. Qed.

Lemma type_position_at sig b q b' q' :
  sig !! 0%nat = Some b → (b = ELEMENT_TYPE_PTR ∨ b = ELEMENT_TYPE_PINNED → q = 1%nat) →
  (b ≠ ELEMENT_TYPE_PTR → b ≠ ELEMENT_TYPE_PINNED → q = 0%nat) → sig !! q = Some b' →
  (b' = ELEMENT_TYPE_BYREF → q' = S q) → (b' ≠ ELEMENT_TYPE_BYREF → q' = q) → type_position sig = Some q'.
Proof.
  intros H0 H1 H2 Hq H3 H4. unfold type_position. rewrite (skip_pos_at sig 0 _ b q); [|done|set_solver|set_solver].
  apply (skip_pos_at sig q _ b'); [done|set_solver|set_solver].
Qed.

(** The token behind a class or a value type at a position. *)
Lemma token_there w pre t : Forall (λ b, is_byte b) w → w = pre ++ t → (clr_type t ∨ t = [ELEMENT_TYPE_VOID]) → 
  type_position w = Some (length pre) →
  match type_position w ≫= λ p, b ← w !! p; Some (p, b) with
  | Some (p, b) => b = ELEMENT_TYPE_CLASS ∨ b = ELEMENT_TYPE_VALUETYPE → returns (CorSigUncompressToken (drop (S p) w))
  | None => False
  end.
Proof.
  intros Hw Heq Ht ->. assert (∃ b rest, t = b :: rest) as (b & rest & ->) by (destruct Ht as [Ht| ->]; [apply clr_type_head in Ht as (? & ? & ? & _)|]; eauto).
  assert (Hlast : w !! length pre = Some b) by (by rewrite Heq, list_lookup_middle). cbn. rewrite Hlast. cbn.
  intros Hc. destruct Ht as [Ht|Ht]; [|injection Ht as -> _; by destruct Hc].
  assert (Hd : drop (S (length pre)) w = rest).
  { rewrite Heq, drop_app_ge by lia. by replace (S (length pre) - length pre)%nat with 1%nat by lia. }
  rewrite Hd. eapply clr_token_returns; [exact Ht| |exact Hc].
  rewrite Heq in Hw. apply Forall_app in Hw as [_ Hw']. by apply Forall_cons in Hw' as [_ ?].
Qed.

Lemma readable_type w r t : Forall (λ b, is_byte b) w → w = r ++ t → (r = [] ∨ r = [ELEMENT_TYPE_BYREF]) → clr_type t → readable w.
Proof.
  intros Hw Heq Hr Ht. pose proof (clr_type_head _ Ht) as (b & rest & Htb & Hb). destruct (type_head_not _ Hb) as (N1 & N2 & N3 & N4 & _).
  split.
  - apply returns_wp. rewrite Heq. eapply wp_mono; [by apply wp_flags_type|done..].
  - apply (token_there w r t); [done..|by left|]. rewrite Heq, Htb. destruct Hr as [->| ->]; cbn [app length].
    + by apply (type_position_at _ b 0 b 0); try done; intros [].
    + by apply (type_position_at _ ELEMENT_TYPE_BYREF 0 ELEMENT_TYPE_BYREF 1); try done; intros [].
  - eapply (generic_ends w r b rest); [done|by rewrite <-Htb|done..|left; by rewrite <-Htb].
Qed.

Lemma clr_readable w : clr_param w → readable w.
Proof.
  intros (Hw & r & p & t & Heq & Hr & [[-> Ht]|[-> Ht]]); [by eapply readable_type|]. split.
  - apply returns_wp. rewrite Heq. by apply wp_flags_pointer.
  - destruct Hr as [->| ->]; cbn [app] in *.
    + apply (token_there w [ELEMENT_TYPE_PTR] t); [done..|]. rewrite Heq.
      assert (∃ b rest, t = b :: rest ∧ b ≠ ELEMENT_TYPE_BYREF) as (b & rest & -> & Hb).
      { destruct Ht as [Ht| ->]; [|by eexists _, _]. destruct (clr_type_head _ Ht) as (b & rest & -> & Hb). exists b, rest. by split; [|apply type_head_not]. }
      by apply (type_position_at _ ELEMENT_TYPE_PTR 1 b 1); try done; intros [].
    + rewrite (type_position_at w ELEMENT_TYPE_BYREF 0 ELEMENT_TYPE_BYREF 1); rewrite ?Heq; try done; [|by intros []]. cbn. by intros [].
  - eapply (generic_ends w r ELEMENT_TYPE_PTR t); [done..|by right].
Qed.

Lemma void_readable : readable [ELEMENT_TYPE_VOID].
Proof. split; [done| |done]. by intros []. Qed.

Lemma clr_ret_readable w : clr_ret w → readable w.
Proof. intros [->|Hw]%clr_ret_param; [apply void_readable|by apply clr_readable]. Qed.

(** A result is void exactly if its flags are, and if they say so. *)
Lemma clr_ret_void w : clr_ret w →
  (w = [ELEMENT_TYPE_VOID] ∧ type_flags w = TypeFlagVoid) ∨
  (w ≠ [ELEMENT_TYPE_VOID] ∧ type_flags w ≠ TypeFlagVoid ∧ Z.land (type_flags w) TypeFlagVoid = 0).
Proof.
  intros [->|(_ & r & t & -> & Hr & Ht)]; [by left|right]. pose proof (wp_flags_type r t Hr Ht) as Hf.
  assert (Hland : Z.land (type_flags (r ++ t)) TypeFlagVoid = 0).
  { unfold type_flags, wp in *. by destruct (GetElementTypeAndFlags (r ++ t) 0%nat) as [[[e f]|e| |] c]. }
  destruct (clr_type_head _ Ht) as (b & rest & -> & Hb). destruct (type_head_not _ Hb) as (_ & _ & N3 & _).
  split_and!; [|intros Hv; by rewrite Hv in Hland|done].
  destruct Hr as [->| ->]; cbn; intros [= ]; done.
Qed.

(** ** The effective result of a runtime-async method *)

Lemma slice_between (pre bs post : list Z) : slice (length pre) (length bs) (pre ++ bs ++ post) = bs.
Proof. unfold slice. by rewrite drop_app_length, take_app_length. Qed.

Lemma wp_ParseTaskLike w : clr_ret w →
  wp (ParseTaskLikeReturnShape w) 0%nat
    (λ '(_, isGenericInst, _, typeArg) _, isGenericInst = true → clr_ret typeArg) (λ _ _, True).
Proof.
  intros [->|(Hw & r & t & -> & [->| ->] & Ht)]; [done| |].
  2: { assert (R : reads ([ELEMENT_TYPE_BYREF] ++ t) (S (length t)) 0 (ELEMENT_TYPE_BYREF :: t)) by (by split).
       unfold ParseTaskLikeReturnShape. wp_step (by eapply ParseByte_run). done. }
  cbn [app] in *. assert (R : reads t (length t) 0 t) by (by split). unfold ParseTaskLikeReturnShape. pose proof (le_n (length t)) as He.
  destruct Ht as [b Hin|b bs n Hb Hn|b bs n Hb Hn|bs Hbs|b tok tk num n args Hb Htok Hnum Hargs].
  - wp_step (by eapply ParseByte_run). rewrite decide_False by (intros ->; by vm_compute in Hin; set_solver).
    rewrite decide_False by (intros [->| ->]; by vm_compute in Hin; set_solver). done.
  - wp_step (by eapply ParseByte_run). rewrite decide_False by (by destruct Hb as [->| ->]). rewrite decide_True by done.
    apply (reads_app_inv _ _ He _ [_]) in R as [_ R]. wp_step (eapply ParseTypeDefOrRef_run; [done..|exact Hn|exact R]).
    cbv beta iota. wp_step done. case_decide; [done|]. by eapply wp_run.
  - wp_step (by eapply ParseByte_run). rewrite decide_False by (by destruct Hb as [->| ->]). 
    rewrite decide_False by (by destruct Hb as [->| ->]; intros []). done.
  - wp_step (by eapply ParseByte_run). done.
  - wp_step (by eapply ParseByte_run). rewrite decide_True by done.
    apply (reads_app_inv _ _ He _ [_]) in R as [_ R]. wp_step (by eapply ParseByte_run). rewrite decide_False by tauto.
    apply (reads_app_inv _ _ He _ [_]) in R as [_ R]. apply (reads_app_inv _ _ He) in R as [R1 R]. apply (reads_app_inv _ _ He) in R as [R2 R3].
    wp_step (eapply ParseTypeDefOrRef_run; [done..|exact Htok|exact R1]). cbv beta iota.
    wp_step (eapply ParseNumber_run; [done..|exact Hnum|exact R2]). case_decide as H1; [done|].
    assert (n = 1) as -> by lia. inversion Hargs as [|? arg ? Harg Hrest]; subst. inversion Hrest; subst. rewrite app_nil_r in *.
    wp_step done. wp_step (eapply ParseType_run; [done..|by apply clr_type_sig|exact R3|cbn; rewrite !length_app; lia]).
    wp_step done. case_decide; [done|]. eapply wp_run; [done|]. intros _. right.
    set (pre := ELEMENT_TYPE_GENERICINST :: b :: tok ++ num).
    assert (Hsplit : ELEMENT_TYPE_GENERICINST :: b :: tok ++ num ++ arg = pre ++ arg) by (unfold pre; cbn; by rewrite <-app_assoc).
    assert (Hslice : slice (2 + length tok + length num) (2 + length tok + length num + length arg - (2 + length tok + length num))
      (ELEMENT_TYPE_GENERICINST :: b :: tok ++ num ++ arg) = arg).
    { transitivity (slice (length pre) (length arg) (pre ++ arg ++ [])); [|apply slice_between]. rewrite app_nil_r, Hsplit.
      assert (Hl : length pre = (2 + length tok + length num)%nat) by (unfold pre; cbn [length]; rewrite length_app; lia).
      rewrite Hl. f_equal. lia. }
    rewrite Hslice. rewrite Hsplit in Hw. apply Forall_app in Hw as [_ Hw]. split; [done|]. exists [], arg. by split_and!; [|left|].
Qed.

Lemma effective_clr {MD} `{!Metadata MD} (m_corProfiler : CorProfiler) isRuntimeAsync w (s : context MD) :
  clr_ret w → wp (effective_return m_corProfiler isRuntimeAsync w) s (λ ret s', s' = s ∧ clr_ret ret) (λ e s', e = S_FALSE ∧ s' = s).
Proof.
  intros Hw. unfold effective_return. destruct isRuntimeAsync; [|by eapply wp_run].
  destruct (call_target_runtime_async_methods_available m_corProfiler); [|done]. cbn [negb].
  pose proof (wp_ParseTaskLike w Hw) as Hp. unfold TryGetRuntimeAsyncEffectiveReturnType. unfold wp in Hp.
  destruct (ParseTaskLikeReturnShape w 0%nat) as [[[[[tk g] v] arg]|e| |] c]; try done; cbn [fst].
  apply wp_bind. wp_step done. eapply wp_run; [done|]. destruct (GetTypeInfo tk (c_md s)); [|done].
  destruct (IsTaskLike _ g v); [|done]. eapply wp_run; [done|]. split; [done|]. destruct g; [by apply Hp|by left].
Qed.
