(* ===== verification/SilentFailures.v ===== *)
(** * A failure hands nothing to the CLR (tracer_method_rewriter.cpp, il_rewriter.cpp)

    Whatever the metadata answers and whatever the signatures hold: an operation of the rewriting
    that fails leaves the method with the body it had.  Only the last step of an export hands a
    body over. *)

From S2P Require Import Prelude ILOpcodes ILList ILImport ILExport ILRewriterWrapper CorSig Signature.
From S2P Require Import CallTargetTokens TracerTokens MethodRewriter.

(** ** Importing and exporting *)

(** No outcome of [m] hands a body to the CLR; no failure of [m] does. *)
Definition silent {A} (m : stM ILRewriter HRESULT A) : Prop := ∀ r, il_body (m r).2 = il_body r.
Definition silent_failure {A} (m : stM ILRewriter HRESULT A) : Prop := ∀ r,
  match m r with (Ret _, _) => True | (_, r') => il_body r' = il_body r end.

Lemma silent_seq {A B} (m : stM ILRewriter HRESULT A) (f : A → stM ILRewriter HRESULT B) :
  silent m → (∀ a, silent (f a)) → silent (m ≫= f).
Proof.
  intros Hm Hf r. unfold mbind, stM_bind. specialize (Hm r). destruct (m r) as [[a|e| |] r1]; try exact Hm.
  cbn in Hm. by rewrite <-Hm, (Hf a r1).
Qed.

Lemma silent_first {A B} (m : stM ILRewriter HRESULT A) (f : A → stM ILRewriter HRESULT B) :
  silent m → (∀ a, silent_failure (f a)) → silent_failure (m ≫= f).
Proof.
  intros Hm Hf r. unfold mbind, stM_bind. specialize (Hm r). destruct (m r) as [[a|e| |] r1]; try exact Hm.
  cbn in Hm. specialize (Hf a r1). by destruct (f a r1) as [[]]; rewrite <-?Hm.
Qed.

Lemma silent_all {A} (m : stM ILRewriter HRESULT A) : silent m → silent_failure m.
Proof. intros Hm r. specialize (Hm r). by destruct (m r) as [[]]. Qed.

Lemma silent_read p : silent (read_instr p).
Proof. intros r. unfold read_instr. by destruct (il_store r !! p). Qed.

Lemma silent_write p f : silent (write_instr p f).
Proof. intros r. unfold write_instr. by destruct (il_store r !! p). Qed.

Lemma silent_lift {A} (o : option A) : silent (lift_option o).
Proof. by destruct o. Qed.

Lemma silent_il_for {A} fuel p (acc : A) body : (∀ p acc, silent (body p acc)) → silent (il_for fuel p acc body).
Proof.
  intros Hb. revert p acc. induction fuel as [|fuel IH]; intros p acc; cbn [il_for]; case_decide; try done.
  apply silent_seq; [apply Hb|]. intros acc'. apply silent_seq; [apply silent_read|]. intros i. apply IH.
Qed.

Lemma silent_for_each {A} (acc : A) body : (∀ p acc, silent (body p acc)) → silent (il_for_each acc body).
Proof.
  intros Hb. unfold il_for_each. apply silent_seq; [apply silent_read|]. intros i. apply silent_seq; [done|].
  intros r. by apply silent_il_for.
Qed.

Create HintDb silent.
#[export] Hint Resolve silent_read silent_write silent_lift : silent.

Ltac silent_steps :=
  repeat first
    [ done
    | solve [eauto with silent]
    | apply silent_for_each; intros ? ?
    | match goal with |- silent (let _ := _ in _) => cbv zeta end
    | apply silent_seq; [|intros ?]
    | case_decide
    | match goal with |- silent (match ?x with _ => _ end) => destruct x end ].

Lemma silent_write_out offset bs : silent (write_out offset bs).
Proof. unfold write_out. silent_steps. Qed.

Lemma silent_read_le n pIL offset : silent (read_le n pIL offset).
Proof. unfold read_le. silent_steps. Qed.

Lemma silent_NewILInstr : silent NewILInstr.
Proof. unfold NewILInstr. silent_steps. Qed.

Lemma silent_InsertBefore p q : silent (InsertBefore p q).
Proof. unfold InsertBefore, AdjustState. silent_steps. Qed.

Lemma silent_set_offset_entry o p : silent (set_offset_entry o p).
Proof. unfold set_offset_entry. silent_steps. Qed.

Lemma silent_GetInstrFromOffset o : silent (GetInstrFromOffset o).
Proof. unfold GetInstrFromOffset. silent_steps. Qed.

Lemma silent_write_clause i f : silent (write_clause i f).
Proof. unfold write_clause. silent_steps. Qed.
#[export] Hint Resolve silent_write_out silent_read_le silent_NewILInstr silent_InsertBefore silent_set_offset_entry
  silent_GetInstrFromOffset silent_write_clause : silent.

Section SilentImport.
Context (nothrow_new : Z → bool) (EHClause_uninit : EHClause).

Lemma silent_switch fuel pIL base nTargets iTarget offset : silent (ImportIL_switch fuel pIL base nTargets iTarget offset).
Proof.
  revert iTarget offset. induction fuel as [|fuel IH]; intros; cbn [ImportIL_switch]; [by case_decide|].
  silent_steps.
Qed.

Lemma silent_step fuel pIL startOffset fBranch : silent (ImportIL_step fuel pIL startOffset fBranch).
Proof.
  pose proof silent_switch. unfold ImportIL_step, ImportIL_opcode, ImportIL_operand. silent_steps.
Qed.

Lemma silent_ImportIL pIL : silent (ImportIL nothrow_new pIL).
Proof.
  assert (Hloop : ∀ fuel offset fBranch, silent (ImportIL_loop fuel pIL offset fBranch)).
  { pose proof silent_step. intros fuel. induction fuel as [|fuel IH]; intros; cbn [ImportIL_loop]; silent_steps. }
  unfold ImportIL, ImportIL_resolve_one. silent_steps.
Qed.

Lemma silent_ImportEH pILEH : silent (ImportEH nothrow_new EHClause_uninit pILEH).
Proof.
  assert (Hloop : ∀ ehs i, silent (ImportEH_loop i ehs)).
  { intros ehs. induction ehs as [|eh ehs IH]; intros i; cbn [ImportEH_loop]; [done|]. unfold ImportEH_clause. silent_steps. }
  unfold ImportEH. silent_steps.
Qed.

Lemma silent_Import d : silent (Import nothrow_new EHClause_uninit d).
Proof. pose proof silent_ImportIL. pose proof silent_ImportEH. unfold Import. silent_steps. Qed.
End SilentImport.

Section SilentExport.
Context (env : clr_env).

Lemma silent_again fuel maxSize : silent (Export_again fuel maxSize).
Proof.
  induction fuel as [|fuel IH]; cbn [Export_again]; [done|].
  unfold Export_emit, Export_opcode, Export_operand, Export_branch, Export_widen. silent_steps.
Qed.

Lemma silent_body tiny codeSize : silent (if (tiny : bool) then Export_tiny env codeSize else Export_fat env codeSize).
Proof.
  assert (Hcl : ∀ l pos b, silent (Export_clauses l pos b)).
  { intros l. induction l as [|i l IH]; intros pos b; cbn [Export_clauses]; [done|]. unfold Export_clause. silent_steps. }
  unfold Export_tiny, Export_fat, copy_code, AllocateILMemory. silent_steps.
Qed.

(** The body is handed over last. *)
Lemma silent_Export : silent_failure (Export env).
Proof.
  unfold Export. apply silent_first; [done|]. intros r. destruct (env_nothrow_new _ _); [|by apply silent_all; silent_steps].
  apply silent_first; [done|]. intros _. apply silent_first; [apply silent_again|]. intros n. apply silent_first; [done|].
  intros r'. apply silent_first; [apply silent_body|]. intros b r2. unfold SetILFunctionBody. by case_decide.
Qed.
End SilentExport.

(** ** The operations on tokens and the rewriting *)

Section Mute.
Context {MD : Type}.

(** The same of an operation that has the tokens and the metadata too. *)
Definition mute {A} (m : T MD A) : Prop := ∀ s, il_body (c_il (m s).2) = il_body (c_il s).

Lemma mute_bind {A B} (m : T MD A) (f : A → T MD B) : mute m → (∀ a, mute (f a)) → mute (m ≫= f).
Proof.
  intros Hm Hf s. unfold mbind, stM_bind. specialize (Hm s). destruct (m s) as [[a|e| |] s1]; try exact Hm.
  cbn in Hm. by rewrite <-Hm, (Hf a s1).
Qed.

Lemma mute_on_il {A} (m : stM ILRewriter HRESULT A) : silent m → mute (on_il m).
Proof. intros Hm s. unfold on_il. specialize (Hm (c_il s)). by destruct (m (c_il s)). Qed.

Lemma mute_on_md {A} (f : MD → Z * A * MD) : mute (on_md f).
Proof. intros s. unfold on_md. by destruct (f (c_md s)). Qed.

Lemma mute_attempt {A} (m : T MD A) : mute m → mute (attempt m).
Proof. intros Hm s. unfold attempt. specialize (Hm s). by destruct (m s) as [[]]. Qed.

Lemma mute_lift {A} (o : option A) : mute (lift_option o).
Proof. by destruct o. Qed.

Lemma mute_element_type sig : mute (element_type_and_flags sig).
Proof. intros s. unfold element_type_and_flags. by destruct (GetElementTypeAndFlags sig 0%nat).1. Qed.
End Mute.

Create HintDb mute.
#[export] Hint Resolve mute_on_md mute_lift mute_element_type : mute.

Ltac silent_unfold :=
  match goal with |- silent ?m => let rec go t := lazymatch t with ?f _ => go f | _ => unfold t end in go m end.

(** Takes an operation apart, unfolding what it calls. *)
Ltac mute_steps :=
  repeat first
    [ done
    | solve [eauto with mute]
    | apply mute_on_il; solve [repeat first [progress silent_steps | silent_unfold]]
    | apply mute_attempt
    | match goal with |- mute (let _ := _ in _) => cbv zeta end
    | apply mute_bind; [|intros ?]
    | case_decide
    | match goal with |- mute (match ?x with _ => _ end) => destruct x end
    | match goal with |- mute ?m => let rec go t := lazymatch t with ?f _ => go f | _ => unfold t end in go m end ].

Section Silence.
Context {MD : Type} `{!Metadata MD}.

Lemma mute_is_by_ref_like sig : mute (MD := MD) (is_by_ref_like sig).
Proof. mute_steps. Qed.

Lemma mute_GetTypeTok sig corLib : mute (MD := MD) (GetTypeTok sig corLib).
Proof. mute_steps. Qed.
#[local] Hint Resolve mute_is_by_ref_like mute_GetTypeTok : mute.

Lemma mute_count types : mute (MD := MD) (count_ref_structs types).
Proof. induction types as [|t types IH]; cbn [count_ref_structs]; mute_steps. Qed.

Lemma mute_put pieces b : mute (MD := MD) (put pieces b).
Proof. mute_steps. Qed.
#[local] Hint Resolve mute_count mute_put : mute.

Lemma mute_add_ref_structs refStruct types b : mute (MD := MD) (add_ref_structs refStruct types b).
Proof. revert b. induction types as [|t types IH]; intros b; cbn [add_ref_structs]; mute_steps. Qed.
#[local] Hint Resolve mute_add_ref_structs : mute.

Section Tokens.
Context (signature_uninit : list Z) (corAssemblyProperty : assembly_ref) (assemblyReference : AssemblyReference).
Context (bubble_up_type bubble_up_function : bool).

Abbreviation tokens f := (f signature_uninit corAssemblyProperty assemblyReference bubble_up_type bubble_up_function).

Lemma mute_EnsureCorLib : mute (MD := MD) (EnsureCorLibTokens signature_uninit corAssemblyProperty).
Proof. mute_steps. Qed.
#[local] Hint Resolve mute_EnsureCorLib : mute.

Lemma mute_EnsureBase : mute (MD := MD) (tokens EnsureBaseCalltargetTokens).
Proof. mute_steps. Qed.
#[local] Hint Resolve mute_EnsureBase : mute.

Lemma mute_GetCurrentTypeRef currentType : mute (MD := MD) (GetCurrentTypeRef currentType).
Proof. mute_steps. Qed.

Lemma mute_GetTargetReturnValueTypeRef ret : mute (MD := MD) (tokens GetTargetReturnValueTypeRef ret).
Proof. mute_steps. Qed.

Lemma mute_GetTargetVoidReturnTypeRef : mute (MD := MD) (tokens GetTargetVoidReturnTypeRef).
Proof. mute_steps. Qed.
#[local] Hint Resolve mute_GetCurrentTypeRef mute_GetTargetReturnValueTypeRef mute_GetTargetVoidReturnTypeRef : mute.

Lemma mute_modify ret types n : mute (MD := MD) (tokens ModifyLocalSig ret types n).
Proof. mute_steps. Qed.
#[local] Hint Resolve mute_modify : mute.

Lemma mute_ModifyLocalSigAndInitialize this ret types n :
  mute (MD := MD) (tokens ModifyLocalSigAndInitialize this ret types n).
Proof. mute_steps. Qed.

Lemma mute_WriteCallTargetReturnGetReturnValue this tk : mute (MD := MD) (tokens WriteCallTargetReturnGetReturnValue this tk).
Proof. mute_steps. Qed.

Lemma mute_arguments_signatures args : mute (MD := MD) (arguments_signatures args).
Proof. induction args as [|a args IH]; cbn [arguments_signatures]; mute_steps. Qed.
#[local] Hint Resolve mute_arguments_signatures : mute.

Section Operations.
Context (this : ILRewriterWrapper) (integrationTypeRef : Z) (currentType : TypeInfo).

Abbreviation call f := (tokens f this integrationTypeRef currentType).

Lemma mute_WriteBeginMethod args ignore : mute (MD := MD) (call WriteBeginMethod args ignore).
Proof. mute_steps. Qed.

Lemma mute_WriteEnsure ret declared : mute (MD := MD) (call WriteEnsureRuntimeAsyncCallbacksSupported ret declared).
Proof. mute_steps. Qed.

Lemma mute_WriteEndVoid declared : mute (MD := MD) (call WriteEndVoidReturnMemberRef declared).
Proof. mute_steps. Qed.

Lemma mute_WriteEnd ret declared : mute (MD := MD) (call WriteEndReturnMemberRef ret declared).
Proof. mute_steps. Qed.

Lemma mute_WriteLogException : mute (MD := MD) (call WriteLogException).
Proof. mute_steps. Qed.
End Operations.

Lemma mute_WriteRefStructCall this tk i : mute (MD := MD) (tokens WriteRefStructCall this tk i).
Proof. mute_steps. Qed.
End Tokens.
#[local] Hint Resolve mute_GetCurrentTypeRef mute_ModifyLocalSigAndInitialize mute_WriteCallTargetReturnGetReturnValue
  mute_WriteBeginMethod mute_WriteEnsure mute_WriteEndVoid mute_WriteEnd mute_WriteLogException mute_WriteRefStructCall : mute.

Section Rewriter.
Context (signature_uninit : list Z) (m_corProfiler : CorProfiler) (module_metadata : ModuleMetadata).

Section Pieces.
Context (this : ILRewriterWrapper) (caller : FunctionInfo) (isStatic : bool).

Lemma mute_load_instance : mute (MD := MD) (load_instance this caller isStatic).
Proof. mute_steps. Qed.

Lemma mute_load_arguments_fast args refs indices n :
  mute (MD := MD) (load_arguments_fast signature_uninit m_corProfiler module_metadata this isStatic args refs indices n).
Proof. revert n. induction indices as [|i indices IH]; intros n; cbn [load_arguments_fast]; mute_steps. Qed.

Lemma mute_load_arguments_slow args indices : mute (MD := MD) (load_arguments_slow this isStatic args indices).
Proof. induction indices as [|i indices IH]; cbn [load_arguments_slow]; mute_steps. Qed.
#[local] Hint Resolve mute_load_arguments_fast mute_load_arguments_slow : mute.

Lemma mute_load_arguments args n refs :
  mute (MD := MD) (load_arguments signature_uninit m_corProfiler module_metadata this isStatic args n refs).
Proof. mute_steps. Qed.

Lemma mute_write_catch bubbleup tk i : mute (MD := MD) (write_catch signature_uninit m_corProfiler module_metadata this caller bubbleup tk i).
Proof. mute_steps. Qed.
End Pieces.
#[local] Hint Resolve mute_load_instance mute_load_arguments mute_write_catch : mute.

Lemma silent_replace_returns r f i b : silent (replace_returns r f i b).
Proof.
  unfold replace_returns. apply silent_seq; [apply silent_read|]. intros head. apply silent_seq; [done|]. intros il.
  apply silent_il_for. intros p []. unfold replace_return, InsertAfter, AdjustState. silent_steps.
Qed.

Section Body.
Context (caller : FunctionInfo) (inputs : rewrite_inputs).

Lemma mute_write_begin this locals : mute (MD := MD) (write_begin signature_uninit m_corProfiler module_metadata caller inputs this locals).
Proof. mute_steps. Qed.

Lemma mute_write_end this locals bubbleup :
  mute (MD := MD) (write_end signature_uninit m_corProfiler module_metadata caller inputs this locals bubbleup).
Proof. mute_steps. Qed.
#[local] Hint Resolve mute_write_begin mute_write_end : mute.
#[local] Hint Resolve silent_replace_returns : silent.

Lemma mute_rewrite_body : mute (MD := MD) (rewrite_body signature_uninit m_corProfiler module_metadata caller inputs).
Proof. mute_steps. Qed.

Lemma mute_GetIntegrationTypeRef definition : mute (MD := MD) (GetIntegrationTypeRef module_metadata definition).
Proof. mute_steps. Qed.
#[local] Hint Resolve mute_GetIntegrationTypeRef : mute.

Lemma mute_guards definition : mute (MD := MD) (rewrite_guards m_corProfiler module_metadata caller definition).
Proof. mute_steps. Qed.
End Body.

(** A run that does not return leaves the CLR without a body. *)
Definition withheld {A} (m : T MD A) (s : context MD) : Prop :=
  match m s with (Ret _, _) => True | (_, s') => il_body (c_il s') = None end.

Lemma withheld_bind {A B} (m : T MD A) (f : A → T MD B) s :
  mute m → il_body (c_il s) = None → (∀ a s', il_body (c_il s') = None → withheld (f a) s') → withheld (m ≫= f) s.
Proof.
  intros Hm Hs Hf. unfold withheld, mbind, stM_bind. specialize (Hm s). rewrite Hs in Hm. destruct (m s) as [[a|e| |] s1]; try exact Hm.
  by apply Hf.
Qed.

Lemma withheld_skip {A} (m : T MD A) s : withheld m s → withheld (or_skip m) s.
Proof. unfold withheld, or_skip, attempt, mbind, stM_bind. by destruct (m s) as [[]]. Qed.

Lemma withheld_il {A} (m : stM ILRewriter HRESULT A) s : silent_failure m → il_body (c_il s) = None → withheld (on_il m) s.
Proof.
  intros Hm Hs. unfold withheld, on_il. specialize (Hm (c_il s)). rewrite Hs in Hm. by destruct (m (c_il s)) as [[]].
Qed.

Lemma withheld_rewrite nothrow_new EHClause_uninit env tkUninit ILFunctionBody caller definition s :
  il_body (c_il s) = None →
  withheld (Rewrite signature_uninit m_corProfiler module_metadata nothrow_new EHClause_uninit env tkUninit ILFunctionBody
    caller definition) s.
Proof.
  intros Hs. unfold Rewrite. destruct definition as [definition|]; [|done].
  apply withheld_bind; [apply mute_guards|done|]. intros inputs s1 Hs1. unfold withheld at 1, mbind at 1, stM_bind at 1. cbn -[Import Export].
  match goal with |- context [match ?m ?s with _ => _ end] => change (withheld m s) end.
  apply withheld_bind; [|done|].
  { case_decide; [done|]. pose proof (silent_Import nothrow_new EHClause_uninit ILFunctionBody.2) as Hi. unfold or_skip. mute_steps. }
  intros _ s2 Hs2. apply withheld_bind; [apply mute_rewrite_body|done|]. intros _ s3 Hs3.
  apply withheld_skip, withheld_il; [apply silent_Export|done].
Qed.
End Rewriter.
End Silence.
