(* ===== verification/RewriteExport.v ===== *)
(** * The rewritten method is exported (tracer_method_rewriter.cpp, il_rewriter.cpp)

    What [Import] builds can be rewritten, and what the rewriting makes of it can be exported:
    every branch and every exception clause names an instruction of the new method.  A rewriting
    that fails at any point hands the CLR nothing. *)

From S2P Require Import Prelude ILOpcodes ILList ILEncoding ILImport ILExport ILRewriterWrapper ILRewriterSpec CorSig Signature.
From S2P Require Import Emission CallTargetTokens CallTargetTokensSafe LocalSignature TracerTokens TracerCode MethodRewriter.
From S2P Require Import MethodPieces MethodCode Returns RewrittenMethod ClrSignatures ClrTypes SilentFailures.

(** ** Programs that can be exported *)

(** Every opcode is in the table, every branch goes to one of [targets]. *)
Definition branches_to (targets : Z → Prop) (P : prog) : Prop :=
  Forall (λ x, valid_op x.2.1 ∧ (is_branch x.2.1 = true → targets x.2.2)) P.

Lemma branches_app targets P1 P2 : branches_to targets (P1 ++ P2) ↔ branches_to targets P1 ∧ branches_to targets P2.
Proof. apply Forall_app. Qed.

Lemma branches_mono (Q Q' : Z → Prop) P : (∀ p, Q p → Q' p) → branches_to Q P → branches_to Q' P.
Proof. intros H HP. eapply Forall_impl; [exact HP|]. intros x []. eauto. Qed.

Lemma branches_number targets f c : well_formed targets c → branches_to targets (number f c).
Proof.
  intros Hc. apply Forall_forall. intros [q it] Hx. apply elem_of_lookup_imap in Hx as (k & it' & [= -> ->] & Hk).
  by destruct (Forall_lookup_1 _ _ _ _ Hc Hk) as (? & _ & ?).
Qed.

Lemma branches_replaced targets ret target index isVoid fresh B :
  targets target → branches_to targets B → branches_to targets (replaced ret target index isVoid fresh B).
Proof.
  intros Ht. revert fresh. induction B as [|[p [op arg]] B IH]; intros fresh; [done|]. intros [Hx HB]%Forall_cons.
  cbn [replaced]. assert (Hleave : valid_op CEE_LEAVE_S) by (by left; vm_compute).
  case_decide; [|by apply Forall_cons; split; [|apply IH]].
  destruct isVoid; [by apply Forall_cons; split; [|apply IH]|].
  apply Forall_cons. split; [by split; [left; vm_compute|]|]. by apply Forall_cons; split; [|apply IH].
Qed.

Lemma replaced_positions ret target index isVoid fresh B p : p ∈ B.*1 → p ∈ (replaced ret target index isVoid fresh B).*1.
Proof.
  revert fresh. induction B as [|[q [op arg]] B IH]; intros fresh; [done|]. rewrite fmap_cons, elem_of_cons. cbn [fst replaced].
  intros [->|Hp]; case_decide; try destruct isVoid; cbn; rewrite ?elem_of_cons; auto.
Qed.

Lemma number_positions f c p : f ≤ p < f + Z.of_nat (length c) → p ∈ (number f c).*1.
Proof.
  intros Hp. rewrite number_fst. apply list_elem_of_fmap. exists (Z.to_nat (p - f)). split; [lia|]. apply elem_of_seq. lia.
Qed.

Lemma program_laid r P : program r P → laid P.*1 r P.*2 0.
Proof.
  intros [Hl Hit]. split; [done|by rewrite !length_fmap|]. intros j p it Hp Hi.
  rewrite list_lookup_fmap in Hp. rewrite list_lookup_fmap in Hi.
  destruct (P !! j) as [x|] eqn:Hx; [|done]. injection Hp as <-. injection Hi as <-.
  destruct (Forall_lookup_1 _ _ _ _ Hit Hx) as [off Hoff]. exists off. split; [exact Hoff|lia].
Qed.

Lemma branches_exportable P l : l = P.*1 → branches_to (λ p, p ∈ m_IL :: l) P → exportable l P.*2.
Proof. intros _ HP. by apply Forall_fmap. Qed.

(** What [Import] builds. *)
Section Imported.
Context (d : COR_ILMETHOD_DECODER) (r : ILRewriter) (l : list Z) (its : list (Z * Z)) (Him : method_imported d r l its).

Definition imported_prog : prog := zip l (contents l r).

Lemma imported_positions : imported_prog.*1 = l.
Proof. apply fst_zip. unfold contents. by rewrite length_fmap. Qed.

Lemma imported_items : imported_prog.*2 = contents l r.
Proof. apply snd_zip. unfold contents. by rewrite length_fmap. Qed.

Lemma imported_program : program r imported_prog.
Proof.
  pose proof (mi_list _ _ _ _ Him) as Hl. split; [by rewrite imported_positions|].
  destruct (laid_contents l r Hl) as [_ Hlen Hit]. apply Forall_lookup. intros j [p it] Hj.
  apply lookup_zip_Some in Hj as [Hp Hi]. destruct (Hit _ _ _ Hp Hi) as (off & Hd & _). by exists off.
Qed.

Lemma imported_branches : branches_to (λ p, p ∈ m_IL :: l) imported_prog.
Proof.
  pose proof (imported_exportable _ _ _ _ Him) as He. rewrite <-imported_items in He. by apply Forall_fmap in He.
Qed.

Lemma imported_length : length imported_prog = length its.
Proof.
  destruct (imported_lengths _ _ _ _ Him) as [H1 H2]. unfold imported_prog. rewrite length_zip. lia.
Qed.
End Imported.

Lemma clause_wf_mono l l' c : (∀ p, p ∈ m_IL :: l → p ∈ m_IL :: l') → clause_wf l c → clause_wf l' c.
Proof. intros H (? & ? & ? & ? & ?). split_and!; auto. Qed.

(** ** The rewritten method can be exported *)

Lemma epilogue_length inputs locals p :
  length (epilogue inputs locals p) = (length (p_end p) + if isVoid inputs then 3 else 4)%nat.
Proof. unfold epilogue. rewrite !length_app. cbn [length]. destruct (isVoid inputs); cbn [length]; lia. Qed.

Section Exportable.
Context {MD : Type} (signature_uninit : list Z) (Hun : length signature_uninit = signatureBufferSize).
Context (m_corProfiler : CorProfiler) (caller : FunctionInfo) (inputs : rewrite_inputs) (by_ref_like : list Z → bool).
Context (B : prog) (s s' : context MD) (sig : Z) (tk : TokenSlot → Z) (locals : LocalsInfo) (p : parts).

Let args := GetMethodArguments (FunctionInfo_signature caller).
Let f := il_fresh (c_il s).

Context (Hlocals : indices_ok by_ref_like args locals).
Context (Hin : instrumented m_corProfiler caller inputs by_ref_like B s s' sig tk locals p).

Abbreviation P := (rewritten_program inputs locals f p B).
Abbreviation inside := (λ q, q ∈ m_IL :: P.*1).

Lemma inside_prologue q : f ≤ q < return_at f p → inside q.
Proof.
  intros Hq. right. unfold rewritten_program. rewrite fmap_app, elem_of_app. left. apply number_positions.
  unfold return_at in Hq. exact Hq.
Qed.

Lemma inside_method q : q ∈ m_IL :: B.*1 → inside q.
Proof.
  intros [->|Hq]%elem_of_cons; [left|right]. unfold rewritten_program. rewrite !fmap_app, !elem_of_app. right. left.
  by apply replaced_positions.
Qed.

Lemma inside_epilogue q : epilogue_at f p ≤ q < epilogue_at f p + Z.of_nat (length (epilogue inputs locals p)) → inside q.
Proof.
  intros Hq. right. unfold rewritten_program. rewrite !fmap_app, !elem_of_app. right. right. left. by apply number_positions.
Qed.

Lemma inside_return : inside (return_at f p).
Proof. right. unfold rewritten_program. rewrite !fmap_app, !elem_of_app. right. right. right. cbn. left. Qed.

(** The end of the finally handler, and everything between the handlers of the epilogue. *)
Lemma inside_end q : epilogue_at f p ≤ q ≤ end_finally_at f p → inside q.
Proof.
  intros Hq. apply inside_epilogue. rewrite epilogue_length. unfold end_finally_at, end_at in Hq. destruct (isVoid inputs); lia.
Qed.

Lemma inside_leave_target : inside (leave_target inputs f p).
Proof.
  unfold leave_target. destruct (isVoid inputs) eqn:Hv; [apply inside_return|]. apply inside_epilogue.
  rewrite epilogue_length, Hv. unfold end_finally_at, end_at. lia.
Qed.

Lemma inside_first : inside (first_of B).
Proof. apply inside_method. unfold first_of. destruct B as [|[q it] B']; [left|right; left]. Qed.

Lemma rewritten_branches : branches_to (λ q, q ∈ m_IL :: B.*1) B → branches_to inside P.
Proof.
  intros HB. pose proof (in_parts _ _ _ _ _ _ _ _ _ _ _ Hin) as Hp.
  destruct (begin_part_ok signature_uninit Hun m_corProfiler caller inputs by_ref_like B s tk locals p Hlocals Hp inside) as (Hb & _).
  { apply inside_first. }
  { intros q Hq. apply inside_prologue. unfold begin_at in Hq. fold f in Hq. lia. }
  destruct (end_part_ok signature_uninit Hun m_corProfiler caller inputs by_ref_like B s tk locals p Hlocals Hp inside) as (He & _).
  { intros q Hq. apply inside_end. fold f in Hq. unfold end_at in Hq. lia. }
  unfold rewritten_program at 2. rewrite !branches_app. split_and!.
  - by apply branches_number.
  - unfold method_body. apply branches_replaced; [apply inside_leave_target|]. eapply branches_mono; [|exact HB]. apply inside_method.
  - by apply branches_number.
  - apply Forall_singleton. split; [by left; vm_compute|done].
Qed.

(** Every new clause names instructions of the new method. *)
Lemma new_clauses_ok : Forall (clause_wf P.*1) (new_clauses f p (tk exTypeRef)).
Proof.
  pose proof (in_parts _ _ _ _ _ _ _ _ _ _ _ Hin) as Hp.
  destruct (begin_part_ok signature_uninit Hun m_corProfiler caller inputs by_ref_like B s tk locals p Hlocals Hp (λ _, True)) as (_ & _ & Hb);
    [done..|].
  destruct (end_part_ok signature_uninit Hun m_corProfiler caller inputs by_ref_like B s tk locals p Hlocals Hp (λ _, True)) as (_ & _ & He);
    [done|].
  fold f in Hb, He. destruct Hb as (Hb1 & Hb2 & Hb3 & Hb4 & Hb5). destruct He as (He1 & He2 & He3 & He4 & He5).
  assert (Hbr : begin_at f p + Z.of_nat (length (p_begin p)) = return_at f p).
  { unfold begin_at, return_at, prologue. rewrite length_app. lia. }
  assert (Hbf : f ≤ begin_at f p) by (unfold begin_at; lia).
  assert (Hef : end_at f p + Z.of_nat (length (p_end p)) = end_finally_at f p) by done.
  assert (Hat : end_at f p = epilogue_at f p + 2) by done.
  assert (Hstart : inside f) by (apply inside_prologue; lia).
  assert (Hfilter : ∀ q cc, inside q → inside (cc_filter cc) → inside (cc_first cc) → inside (cc_leave cc) → clause_wf P.*1 (filter_clause q cc)).
  { intros q cc ? ? ? ?. by split_and!. }
  assert (Hpro : ∀ q, begin_at f p < q < return_at f p → inside q) by (intros; apply inside_prologue; lia).
  apply Forall_cons. split; [apply Hfilter; [done|apply Hpro; lia..]|].
  apply Forall_cons. split; [apply Hfilter; apply inside_end; lia|].
  apply Forall_cons. split; [split_and!; cbn; [done|apply inside_end; lia..|done]|].
  apply Forall_singleton. split_and!; cbn; [done|apply inside_end; lia..|done].
Qed.

Lemma rewritten_length :
  (length B ≤ length P)%nat ∧ (length P ≤ 6 * length args + 81 + 2 * length B)%nat.
Proof.
  pose proof (in_parts _ _ _ _ _ _ _ _ _ _ _ Hin) as Hp.
  destruct (begin_part_ok signature_uninit Hun m_corProfiler caller inputs by_ref_like B s tk locals p Hlocals Hp (λ _, True)) as (_ & Hb & _);
    [done..|].
  destruct (end_part_ok signature_uninit Hun m_corProfiler caller inputs by_ref_like B s tk locals p Hlocals Hp (λ _, True)) as (_ & He & _);
    [done|].
  assert (Hr : (returns (return_at f p) B ≤ length B)%nat) by apply length_filter.
  unfold rewritten_program, method_body. fold args in Hb. rewrite !length_app, !length_number, length_replaced. cbn [length].
  destruct (isVoid inputs); lia.
Qed.
End Exportable.

(** The counters of an imported method are exact. *)
Lemma imported_counts (d : COR_ILMETHOD_DECODER) (r : ILRewriter) (l : list Z) (its : list (Z * Z)) :
  method_imported d r l its → Z.of_nat (length its) < 2 ^ 27 → Z.of_nat (length (dec_EH d)) < 2 ^ 24 →
  m_nInstrs r = Z.of_nat (length (imported_prog r l)) ∧ m_nEH r = Z.of_nat (length (eh_clauses r)) ∧ m_nEH r < 2 ^ 24.
Proof.
  intros Him Hsize Heh. rewrite (imported_length _ _ _ _ Him), (mi_nInstrs _ _ _ _ Him), (mi_nEH _ _ _ _ Him), wrap_small by lia.
  split_and!; [done|unfold eh_clauses; by rewrite (Forall2_length _ _ _ (mi_eh _ _ _ _ Him))|done].
Qed.

Section Composition.
Context {MD : Type} (signature_uninit : list Z) (Hun : length signature_uninit = signatureBufferSize).
Context (m_corProfiler : CorProfiler) (caller : FunctionInfo) (inputs : rewrite_inputs) (by_ref_like : list Z → bool).
Context (d : COR_ILMETHOD_DECODER) (s : context MD) (l : list Z) (its : list (Z * Z)) (Him : method_imported d (c_il s) l its).
Context (Hsize : Z.of_nat (length its) < 2 ^ 27) (Heh : Z.of_nat (length (dec_EH d)) < 2 ^ 24).
Context (Hmany : Z.of_nat (length (GetMethodArguments (FunctionInfo_signature caller))) < 2 ^ 16 - 8).

Abbreviation B := (imported_prog (c_il s) l).

Lemma rewritten_rewritable s' sig tk locals p :
  indices_ok by_ref_like (GetMethodArguments (FunctionInfo_signature caller)) locals →
  instrumented m_corProfiler caller inputs by_ref_like B s s' sig tk locals p →
  let P := rewritten_program inputs locals (il_fresh (c_il s)) p B in
  rewritable (c_il s') P.*1 P.*2.
Proof.
  intros Hlocals Hin P. destruct (imported_counts _ _ _ _ Him Hsize Heh) as (Hn & HnEH & Hlt).
  assert (HlB : Z.of_nat (length B) < 2 ^ 27) by (by rewrite (imported_length _ _ _ _ Him)).
  destruct (rewritten_length signature_uninit Hun _ _ _ _ _ _ _ _ _ _ _ Hlocals Hin) as [Hl1 Hl2]. fold P in Hl1, Hl2.
  pose proof Hin as [_ HP Hc HcEH HcI _ _]. fold P in HP, HcI.
  assert (Hcount : m_nInstrs (c_il s') = Z.of_nat (length P)).
  { rewrite HcI, Hn, wrap_small; lia. }
  assert (Hcl : eh_clauses (c_il s') = eh_clauses (c_il s) ++ new_clauses (il_fresh (c_il s)) p (tk exTypeRef)).
  { unfold eh_clauses at 1. by rewrite Hc. }
  assert (Hclauses : m_nEH (c_il s') = m_nEH (c_il s) + 4) by (rewrite HcEH, wrap_small; lia).
  split.
  - by apply program_laid.
  - eapply branches_exportable; [done|]. eapply rewritten_branches; [exact Hun|exact Hlocals|exact Hin|].
    rewrite imported_positions. by eapply imported_branches.
  - rewrite length_fmap, Hcount. lia.
  - rewrite Hcount, Hclauses. lia.
  - rewrite Hcl, length_app, Hclauses, HnEH. cbn [length new_clauses]. lia.
  - rewrite Hcl. apply Forall_app. split.
    + eapply Forall_impl; [by eapply imported_clauses|]. intros c. apply clause_wf_mono. intros q Hq.
      apply inside_method. by rewrite imported_positions.
    + by eapply new_clauses_ok.
Qed.
End Composition.

(** ** One way out *)

(** No instruction is a return. *)
Definition no_return (P : prog) : Prop := Forall (λ x, x.2.1 ≠ CEE_RET) P.

Lemma no_return_number f c targets : well_formed targets c → no_return (number f c).
Proof.
  intros Hc. apply Forall_forall. intros [q it] Hx. apply elem_of_lookup_imap in Hx as (k & it' & [= -> ->] & Hk).
  by destruct (Forall_lookup_1 _ _ _ _ Hc Hk) as (_ & ? & _).
Qed.

(** What becomes of a method's instructions: a return is a jump to [target], right behind the store
    of the result if there is one; every other instruction stays as it is, where it is. *)
Inductive left_by (isVoid : bool) (index target : Z) : prog → prog → Prop :=
  | left_nil : left_by isVoid index target [] []
  | left_kept p op arg B B' : op ≠ CEE_RET → left_by isVoid index target B B' →
      left_by isVoid index target ((p, (op, arg)) :: B) ((p, (op, arg)) :: B')
  | left_void p arg B B' : isVoid = true → left_by isVoid index target B B' →
      left_by isVoid index target ((p, (CEE_RET, arg)) :: B) ((p, (CEE_LEAVE_S, target)) :: B')
  | left_value p arg arg' new B B' : isVoid = false → u16 arg' = u16 index → left_by isVoid index target B B' →
      left_by isVoid index target ((p, (CEE_RET, arg)) :: B) ((p, (CEE_STLOC, arg')) :: (new, (CEE_LEAVE_S, target)) :: B').

Lemma left_by_no_return isVoid index target B B' : left_by isVoid index target B B' → no_return B'.
Proof. induction 1; repeat (apply Forall_cons; split; [done|]); try done. by apply Forall_nil. Qed.

Lemma replaced_left ret target index isVoid fresh B : ret ∉ B.*1 →
  left_by isVoid index target B (replaced ret target index isVoid fresh B).
Proof.
  revert fresh. induction B as [|[p [op arg]] B IH]; intros fresh Hret; [constructor|].
  rewrite fmap_cons, not_elem_of_cons in Hret. destruct Hret as [Hp Hret]. cbn [fst] in Hp. cbn [replaced].
  destruct (decide (op = CEE_RET)) as [->|Hop]; [rewrite decide_True by done|rewrite decide_False by tauto; by constructor; auto].
  destruct isVoid; constructor; auto. unfold low16. by apply wrap_set_low.
Qed.

(** The instructions of a list lie below the next address. *)
Lemma program_below r P p : program r P → p ∈ P.*1 → p < il_fresh r.
Proof.
  intros HP Hp. pose proof (program_node r) as Hnode. apply list_elem_of_fmap in Hp as (x & -> & Hx).
  apply list_elem_of_split in Hx as (P1 & P2 & ->). destruct (Hnode _ _ _ HP) as (i & Hi & _).
  destruct (pr_list _ _ HP) as (_ & _ & Hdom). apply Hdom, elem_of_dom. by exists i.
Qed.

(** The rewritten method [P] has one way out: it is the new code in front, the method [B] with its
    returns turned into jumps, a handler that keeps the exception, the finally handler, and behind
    its [endfinally] the load of the result, if there is one, and the only return.  The jumps go
    right behind the [endfinally], out of the region that the finally handler protects: all that
    is in front of it. *)
Definition one_exit (isVoid : bool) (index : Z) (B P : prog) (added : list EHClause) : Prop :=
  ∃ front body keeps handler endFinally tail ret exception token,
    P = front ++ body ++ keeps ++ handler ++ [(endFinally, (CEE_ENDFINALLY, 0))] ++ tail ++ [(ret, (CEE_RET, 0))] ∧
    no_return (front ++ body ++ keeps ++ handler ++ tail) ∧ NoDup P.*1 ∧
    left_by isVoid index (first_of (tail ++ [(ret, (CEE_RET, 0))])) B body ∧
    keeps.*2 = [stloc_code exception; (CEE_RETHROW, 0)] ∧ handler ≠ [] ∧
    tail.*2 = (if isVoid then [] else [ldloc_code index]) ∧
    length added = 4%nat ∧
    drop 2 added =
      [ {| m_Flags := COR_ILEXCEPTION_CLAUSE_NONE; m_pTryBegin := first_of P; m_pTryEnd := first_of keeps;
           m_pHandlerBegin := first_of keeps; m_pHandlerEnd := default nullptr (last keeps.*1); m_Class := token |};
        {| m_Flags := COR_ILEXCEPTION_CLAUSE_FINALLY; m_pTryBegin := first_of P; m_pTryEnd := first_of handler;
           m_pHandlerBegin := first_of handler; m_pHandlerEnd := endFinally; m_Class := nullptr |} ].

Section Exits.
Context {MD : Type} (signature_uninit : list Z) (Hun : length signature_uninit = signatureBufferSize).
Context (m_corProfiler : CorProfiler) (caller : FunctionInfo) (inputs : rewrite_inputs) (by_ref_like : list Z → bool).
Context (B : prog) (s s' : context MD) (sig : Z) (tk : TokenSlot → Z) (locals : LocalsInfo) (p : parts).
Context (HB : program (c_il s) B) (Hlocals : indices_ok by_ref_like (GetMethodArguments (FunctionInfo_signature caller)) locals).
Context (Hin : instrumented m_corProfiler caller inputs by_ref_like B s s' sig tk locals p).

Abbreviation f := (il_fresh (c_il s)).
Abbreviation q := (return_at f p).

Lemma first_of_number a c P : c ≠ [] → first_of (number a c ++ P) = a.
Proof. destruct c; [done|]. intros _. unfold first_of, number. cbn. lia. Qed.

Lemma no_return_app P1 P2 : no_return (P1 ++ P2) ↔ no_return P1 ∧ no_return P2.
Proof. apply Forall_app. Qed.

(** The code behind the method, cut at the two ends of the finally handler. *)
Lemma epilogue_parts :
  number (epilogue_at f p) (epilogue inputs locals p) =
  number (epilogue_at f p) [stloc_code (exceptionIndex locals); (CEE_RETHROW, 0)] ++ number (end_at f p) (p_end p) ++
  [(end_finally_at f p, (CEE_ENDFINALLY, 0))] ++
  number (end_finally_at f p + 1) (if isVoid inputs then [] else [ldloc_code (returnValueIndex locals)]).
Proof.
  assert (Hone : ∀ a x c, number a (x :: c) = (a, x) :: number (a + 1) c).
  { intros a x c. change (x :: c) with ([x] ++ c). rewrite number_app. unfold number. cbn. by rewrite Z.add_0_r. }
  unfold epilogue. rewrite number_app, number_app, (Hone _ (CEE_ENDFINALLY, 0)). unfold end_finally_at, end_at. by cbn [length].
Qed.

Lemma rewritten_one_exit :
  one_exit (isVoid inputs) (returnValueIndex locals) B (rewritten_program inputs locals f p B) (new_clauses f p (tk exTypeRef)).
Proof.
  pose proof (in_parts _ _ _ _ _ _ _ _ _ _ _ Hin) as Hp.
  destruct (begin_part_ok signature_uninit Hun m_corProfiler caller inputs by_ref_like B s tk locals p Hlocals Hp (λ _, True)) as (Hb & _ & Hbp); [done..|].
  destruct (end_part_ok signature_uninit Hun m_corProfiler caller inputs by_ref_like B s tk locals p Hlocals Hp (λ _, True)) as (He & _ & Hep); [done|].
  assert (Hq : q ∉ B.*1) by (intros Hq; apply (program_below _ _ _ HB) in Hq; unfold return_at in Hq; lia).
  pose proof (no_return_number (epilogue_at f p) _ _ He) as Hepi. rewrite epilogue_parts, !no_return_app in Hepi.
  destruct Hepi as (N1 & N2 & _ & N3).
  set (target := leave_target inputs f p).
  pose proof (replaced_left q target (returnValueIndex locals) (isVoid inputs)
    (epilogue_at f p + Z.of_nat (length (epilogue inputs locals p))) B Hq) as Hbody.
  assert (Hfront : prologue p ≠ []).
  { unfold callback_placed in Hbp. intros E%(f_equal length). unfold prologue in E. rewrite length_app in E. cbn in E. lia. }
  assert (Hhandler : p_end p ≠ []) by (unfold callback_placed in Hep; intros E%(f_equal length); cbn in E; lia).
  exists (number f (prologue p)), (method_body inputs locals f p B),
    (number (epilogue_at f p) [stloc_code (exceptionIndex locals); (CEE_RETHROW, 0)]), (number (end_at f p) (p_end p)),
    (end_finally_at f p), (number (end_finally_at f p + 1) (if isVoid inputs then [] else [ldloc_code (returnValueIndex locals)])),
    q, (exceptionIndex locals), (u32 (tk exTypeRef)).
  split; [|split; [|split; [|split; [|split; [|split; [|split; [|split]]]]]]].
  - unfold rewritten_program. rewrite epilogue_parts, <-!app_assoc. done.
  - rewrite !no_return_app. split_and!; [by eapply no_return_number|by eapply left_by_no_return|done..].
  - destruct (pr_list _ _ (in_program _ _ _ _ _ _ _ _ _ _ _ Hin)) as ([_ Hnd]%NoDup_cons & _). exact Hnd.
  - replace (first_of _) with target; [exact Hbody|]. unfold target, leave_target. destruct (isVoid inputs); [done|by rewrite first_of_number].
  - done.
  - intros E%(f_equal length). rewrite length_number in E. by apply length_zero_iff_nil in E.
  - by destruct (isVoid inputs).
  - done.
  - unfold new_clauses. cbn [drop]. unfold rewritten_program. rewrite first_of_number by done.
    rewrite <-(app_nil_r (number (end_at f p) _)), first_of_number by done.
    unfold first_of, number. cbn [imap fmap list_fmap head default last fst]. do 3 f_equal; cbn; lia.
Qed.
End Exits.

(** ** [Rewrite] *)

Section Whole.
Context {MD : Type} `{!Metadata MD} (Hmd : metadata_ok MD) (Hdef : bubble_up_definable (MD := MD)).
Context (signature_uninit : list Z) (Hun : length signature_uninit = signatureBufferSize).
Context (m_corProfiler : CorProfiler) (module_metadata : ModuleMetadata).
Context (Hbubble : call_target_bubble_up_exception_available m_corProfiler = true).
Context (caller : FunctionInfo) (by_ref_like : list Z → bool).

Let args := GetMethodArguments (FunctionInfo_signature caller).

Context (Hret : clr_ret (GetReturnValue (FunctionInfo_signature caller))) (Hargs : answers (MD := MD) by_ref_like args).
Context (Hcount : NumberOfArguments (FunctionInfo_signature caller) = Z.of_nat (length args)) (Hmany : Z.of_nat (length args) < 2 ^ 16 - 8).

(** What the guards make of the method. *)
Record inputs_ok (definition : IntegrationDefinition) (inputs : rewrite_inputs) : Prop := {
  gu_return : clr_ret (retFuncArg inputs);
  gu_declared : isRuntimeAsync inputs = false → retFuncArg inputs = GetReturnValue (FunctionInfo_signature caller);
  gu_void : isVoid inputs = true ↔ retFuncArg inputs = [ELEMENT_TYPE_VOID];
  gu_static : isStatic inputs = true ↔ Z.land (CallingConvention (FunctionInfo_signature caller)) IMAGE_CEE_CS_CALLCONV_HASTHIS = 0;
  gu_async : isRuntimeAsync inputs = IsMiAsync (method_impl_flags caller);
  gu_boxed : isRuntimeAsync inputs = true → isStatic inputs = true ∨ TypeInfo_valueType (FunctionInfo_type caller) = false;
  gu_integration : is_integration_method inputs = true ↔ target_assembly_name definition ≠ tracemethodintegration_assemblyname;
  gu_loaded : ProfilerAssemblyIsLoadedIntoAppDomain m_corProfiler (app_domain_id module_metadata) = true;
}.

Lemma steady_modify (f : context MD → context MD) :
  (∀ s, same_tokens s (f s)) → within OnlyMetadata (modify f : T MD unit) (λ _, True).
Proof. intros Hf s. eapply wp_run; [done|]. by split; [apply Hf|]. Qed.

Lemma steady_get : within OnlyMetadata (get : T MD (context MD)) (λ _, True).
Proof. intros s. eapply wp_run; [done|]. split; [reflexivity|done]. Qed.

Lemma steady_GetIntegrationTypeRef definition :
  within OnlyMetadata (GetIntegrationTypeRef module_metadata definition : T MD Z) (λ _, True).
Proof.
  unfold GetIntegrationTypeRef, FindIntegrationTypeRef, TryGetIntegrationTypeRef, SetIntegrationTypeRef, EmitAssemblyRef, FindAssemblyRef.
  repeat first [apply steady_get | apply steady_modify; done | quiet_step | case_decide | case_match].
Qed.

(** The result of a method that is not runtime-async is the declared one. *)
Lemma wp_effective isRuntimeAsync (s : context MD) :
  wp (effective_return m_corProfiler isRuntimeAsync (GetReturnValue (FunctionInfo_signature caller))) s
    (λ ret s', s' = s ∧ clr_ret ret ∧ (isRuntimeAsync = false → ret = GetReturnValue (FunctionInfo_signature caller)))
    (λ e s', e = S_FALSE ∧ s' = s).
Proof.
  destruct isRuntimeAsync; [|by eapply wp_run]. eapply wp_mono; [by apply effective_clr|..]; [|done].
  by intros ret s' [-> ?].
Qed.

Lemma wp_guards definition s :
  wp (rewrite_guards m_corProfiler module_metadata caller definition) s
    (λ inputs s', same_tokens s s' ∧ inputs_ok definition inputs) (λ e s', e = S_FALSE ∧ same_tokens s s').
Proof.
  unfold rewrite_guards. apply wp_bind. eapply wp_mono; [apply wp_effective|..]; [|by intros e s' [-> ->]].
  intros ret s1 (-> & Hclr & Hdecl). destruct (element_type_and_flags_run ret s) as [e He]; [by apply clr_ret_readable|].
  eapply wp_run_bind; [exact He|]. cbn [fst snd]. case_match eqn:Hboxed; [by split|].
  apply wp_bind. apply wp_or_skip. eapply wp_mono; [apply steady_GetIntegrationTypeRef|..]; [|by intros ? s' ?].
  intros tk s1 [Hs1 _]. case_match eqn:Hloaded; [by split|]. eapply wp_run; [done|]. split; [done|]. split; cbn.
  - done.
  - done.
  - rewrite bool_decide_eq_true. destruct (clr_ret_void ret Hclr) as [[-> ->]|(Hne & _ & ->)]; [by split|]. split; [lia|done].
  - by rewrite bool_decide_eq_true.
  - done.
  - intros Ha. rewrite Ha in Hboxed. destruct (bool_decide _); [by left|right]. by destruct (TypeInfo_valueType _).
  - by rewrite bool_decide_eq_true.
  - by destruct (ProfilerAssemblyIsLoadedIntoAppDomain _ _).
Qed.

Context (nothrow_new : Z → bool) (EHClause_uninit : EHClause) (env : clr_env) (Henv : env_ok env) (tkUninit : Z).
Context (d : COR_ILMETHOD_DECODER) (Hd : decoder_ok d) (Hcode : dec_CodeSize d < 2 ^ 27) (Heh : Z.of_nat (length (dec_EH d)) < 2 ^ 24).
Context (Hnil : dec_LocalVarSigTok d = mdTokenNil → (ref_structs by_ref_like args < 122)%nat).

(** The whole of a successful run: [s1] holds the imported method with the instructions [l], [s2]
    the signature of its new locals too, [s3] the rewritten method, [s'] is the end. *)
Record rewrite_done (definition : IntegrationDefinition) (s s' : context MD) (inputs : rewrite_inputs) (s1 s2 s3 : context MD)
    (l : list Z) (its : list (Z * Z)) (locals : LocalsInfo) (p : parts) : Prop := {
  rd_inputs : inputs_ok definition inputs;
  rd_tokens : c_tokens s1 = c_tokens s;
  rd_imported : method_imported d (c_il s1) l its;
  rd_locals : ∃ n types returnType wrapper,
    new_layout (call_target_bubble_up_exception_available m_corProfiler) by_ref_like (retFuncArg inputs) args s1 s2 locals n types returnType wrapper;
  rd_rewritten : instrumented m_corProfiler caller inputs by_ref_like (imported_prog (c_il s1) l) s1 s3
    (m_tkLocalVarSig (c_il s2)) (c_tokens s2) locals p;
  rd_exported : let P := rewritten_program inputs locals (il_fresh (c_il s1)) p (imported_prog (c_il s1) l) in
    ∃ raws', exported (c_il s3) P.*1 P.*2 (c_il s') raws';
}.

(** Export after the rewriting. *)
Lemma wp_export_rewritten P s (Q : unit → context MD → Prop) :
  rewritable (c_il s) P.*1 P.*2 → il_body (c_il s) = None →
  (∀ s' raws', exported (c_il s) P.*1 P.*2 (c_il s') raws' → Q tt s') →
  wp (or_skip (on_il (Export env))) s Q (λ _ s', il_body (c_il s') = None).
Proof.
  intros Hrw Hnone HQ. apply wp_or_skip, wp_on_il. pose proof (Export_wp env _ _ _ Henv Hrw) as He.
  pose proof (silent_Export env (c_il s)) as Hs. unfold wp in *. destruct (Export env (c_il s)) as [[[]|e| |] r]; try done.
  - destruct He as [raws' He]. by eapply HQ.
  - cbn. by rewrite Hs.
Qed.

Lemma wp_import_method (ILFunctionBody : COR_ILMETHOD_DECODER) s (Q : unit → context MD → Prop) :
  ILFunctionBody = d → c_il s = ILRewriter_new true tkUninit →
  (∀ s' l its, method_imported d (c_il s') l its → il_body (c_il s') = None → c_tokens s' = c_tokens s → Q tt s') →
  wp (or_skip (on_il (Import nothrow_new EHClause_uninit ILFunctionBody))) s Q (λ _ s', il_body (c_il s') = None).
Proof.
  intros -> Hnew HQ. apply wp_or_skip, wp_on_il. rewrite Hnew.
  pose proof (Import_wp nothrow_new EHClause_uninit d Hd true tkUninit) as Hi.
  pose proof (silent_Import nothrow_new EHClause_uninit d (ILRewriter_new true tkUninit)) as Hs.
  unfold wp in *. destruct (Import _ _ _ _) as [[[]|e| |] r]; try done.
  destruct Hi as (l & its & Him). by eapply HQ.
Qed.

Lemma wp_Rewrite ILFunctionBody definition s :
  ILFunctionBody.2 = d → il_body (c_il s) = None →
  wp (Rewrite signature_uninit m_corProfiler module_metadata nothrow_new EHClause_uninit env tkUninit ILFunctionBody caller definition) s
    (λ _ s', ∃ definition' inputs s1 s2 s3 l its locals p, definition = Some definition' ∧
               rewrite_done definition' s s' inputs s1 s2 s3 l its locals p)
    (λ _ s', il_body (c_il s') = None).
Proof.
  intros Hbody Hnone. unfold Rewrite. destruct definition as [definition|]; [|done].
  apply wp_bind. eapply wp_mono; [apply wp_guards|..]; [|by intros e s1 [_ [-> _]]].
  intros inputs s0 [[Hil0 Htok0] Hin]. eapply wp_run_bind; [done|]. set (s0' := Build_context _ _ _ _).
  case_decide; [done|]. apply wp_bind. eapply (wp_import_method _ s0'); [done..|].
  intros s1 l its Him Hnone1 Htok1. pose proof (imported_counts d (c_il s1) l its Him) as Hcounts.
  pose proof (length_code_size its (mi_valid _ _ _ _ Him)) as Hlen. rewrite (mi_size _ _ _ _ Him) in Hlen.
  destruct Hcounts as (Hn & HnEH & _); [lia..|].
  apply wp_bind. eapply wp_mono; [eapply (wp_rewrite_body Hmd Hdef signature_uninit Hun m_corProfiler module_metadata Hbubble
    caller inputs by_ref_like) with (B := imported_prog (c_il s1) l)|..].
  all: try done.
  - apply clr_ret_readable, Hin.
  - by eapply imported_program.
  - rewrite Hn. rewrite (imported_length d (c_il s1) l its Him). lia.
  - by rewrite (mi_tk _ _ _ _ Him).
  - intros [] s3 (locals & s2 & n & types & returnType & wrapper & p & Hlayout & Hidx & Hins).
    pose proof (in_header _ _ _ _ _ _ _ _ _ _ _ Hins) as [= _ _ _ Hb].
    eapply wp_export_rewritten; [eapply (rewritten_rewritable signature_uninit Hun _ _ _ _ d s1 l its Him)|by rewrite Hb|].
    all: try done; try lia.
    intros s' raws' Hexp. exists definition, inputs, s1, s2, s3, l, its, locals, p. split; [done|].
    split; [done|by rewrite Htok1|done|by exists n, types, returnType, wrapper|done|by exists raws'].
  - intros e s'. by rewrite Hnone1.
Qed.
End Whole.
