(* ===== verification/RewriterProperties.v ===== *)
(** * What the rewriting of a method guarantees

    The correctness properties of [ModifyLocalSig] and of [Rewrite], each with an instance: a
    method [int M(string, S)], S a by-ref-like struct, whose two returns become leaves. *)

From S2P Require Import Prelude ILOpcodes ILList ILEncoding ILImport ILExport ILRewriterWrapper ILRewriterSpec CorSig Signature.
From S2P Require Import Emission CallTargetTokens CallTargetTokensSafe LocalSignature TracerTokens TracerCode MethodRewriter.
From S2P Require Import MethodPieces MethodCode Returns RewrittenMethod ClrSignatures ClrTypes SilentFailures RewriteExport.

(** ** Metadata for the instances

    Tables that only grow; the struct 0x02000005 is by-ref-like, nothing outside the module is. *)

Record sample_metadata := { md_next : positive; md_blobs : gmap Z (list Z) }.

Definition define_row (table : Z) (blob : list Z) (m : sample_metadata) : Z * Z * sample_metadata :=
  let tk := table + Z.pos (md_next m) in
  (0, tk, {| md_next := Pos.succ (md_next m); md_blobs := <[tk := blob]> (md_blobs m) |}).

#[export] Instance sample_Metadata : Metadata sample_metadata := {
  DefineAssemblyRef _ := define_row 0x23000000 [];
  DefineTypeRefByName _ name m := (0, 0x01000001 + Z.of_nat (String.length name), m);
  DefineMemberRef _ _ := define_row 0x0a000000;
  DefineMethodSpec _ := define_row 0x2b000000;
  GetTokenFromSig := define_row 0x11000000;
  GetTokenFromTypeSpec := define_row 0x1b000000;
  GetSigFromToken _ m := (0, [0x07; 0x01; 0x08], m);
  GetTypeSpecFromToken tk m := if decide (tk = mdTypeSpecNil) then (-1, [], m) else (0, default [] (md_blobs m !! tk), m);
  ResolveType _ m := (-1, (0, 0), m);
  GetCustomAttributeByName _ tk _ m := if decide (tk = 0x02000005) then (0, [1; 0; 0; 0], m) else (1, [], m);
  GetModuleFromScope m := (0, 1, m);
  EnumAssemblyRefs _ := [0x23000001];
  GetReferencedAssemblyMetadata _ _ := ("OpenTelemetry.AutoInstrumentation", (1, 0, 0, 0));
  FindTypeRef _ _ m := (0, 0x01000055, m);
  GetTypeInfo _ _ := None;
}.

Lemma sample_metadata_ok : metadata_ok sample_metadata.
Proof.
  split.
  - intros a md _. cbn. unfold mdAssemblyRefNil. lia.
  - intros scope name md _. cbn. unfold mdTypeRefNil, mdtTypeRef. lia.
  - intros tk md _. exists 1, [0x08]. exists 0x07. by vm_compute.
  - intros sig md _. cbn. case_decide; [by intros|]. intros _. cbn. by rewrite lookup_insert_eq.
  - intros md. cbn. by rewrite decide_True.
Defined.

Lemma sample_bubble_up_definable : bubble_up_definable (MD := sample_metadata).
Proof. by intros scope name md. Defined.

Definition sample_by_ref_like (sig : list Z) : bool := bool_decide (sig = [ELEMENT_TYPE_VALUETYPE; 0x14]).
Definition sample_args : list (list Z) := [[ELEMENT_TYPE_STRING]; [ELEMENT_TYPE_VALUETYPE; 0x14]].

Lemma sample_readable : clr_ret [ELEMENT_TYPE_I4] ∧ Forall clr_param sample_args.
Proof.
  assert (Hp : ∀ t, Forall (λ b, is_byte b) t → clr_type t → clr_param t).
  { intros t Hb Ht. split; [done|]. exists [], [], t. by split_and!; [|left|left]. }
  split.
  - right. split; [by vm_compute; repeat constructor|]. exists [], [ELEMENT_TYPE_I4]. split_and!; [done|by left|]. apply clr_simple. by vm_compute; repeat constructor.
  - apply Forall_cons. split; [|apply Forall_singleton]; apply Hp; try (by vm_compute; repeat constructor).
    apply (clr_token _ _ 0x14); [by right|done].
Defined.

Lemma sample_answers : answers (MD := sample_metadata) sample_by_ref_like sample_args.
Proof.
  intros a Ha. split; [apply clr_readable; by apply (proj1 (Forall_forall _ _) (proj2 sample_readable))|].
  unfold sample_args in Ha. rewrite !elem_of_cons in Ha. intros s. by destruct Ha as [->|[->|[]%elem_of_nil]].
Defined.

Definition sample_type : TypeInfo := Build_TypeInfo 0x02000002 mdTypeSpecNil None false false None.

(** [static int M(string, S)] *)
Definition sample_caller : FunctionInfo := {|
  FunctionInfo_id := 0x06000001;
  FunctionInfo_type := sample_type;
  FunctionInfo_signature := {| CallingConvention := 0x00; NumberOfArguments := 2;
                               GetReturnValue := [ELEMENT_TYPE_I4]; GetMethodArguments := sample_args |};
  method_impl_flags := 0;
|}.

Definition sample_assembly : AssemblyReference := {|
  AssemblyReference_name := "OpenTelemetry.AutoInstrumentation"; AssemblyReference_version := (1, 0, 0, 0);
  AssemblyReference_locale := "neutral"; AssemblyReference_public_key := None;
|}.

Definition sample_profiler : CorProfiler := {|
  call_target_bubble_up_exception_available := true;
  call_target_bubble_up_exception_function_available := true;
  call_target_runtime_async_methods_available := true;
  managed_profiler_loaded_domain_neutral := true;
  managed_profiler_loaded_app_domains := [];
  bytecode_instrumentation_assembly := sample_assembly;
|}.

Definition sample_module : ModuleMetadata := {|
  app_domain_id := 1; assemblyName := "Application"; corAssemblyProperty := profiler_assembly_ref sample_assembly; module_valid := true;
|}.

Definition sample_integration : IntegrationDefinition := {|
  target_assembly_name := "Application";
  integration_type := {| TypeReference_assembly := sample_assembly; TypeReference_name := "Integration";
                         min_version := (0, 0, 0, 0); max_version := (9, 9, 9, 9) |};
|}.

(** [ldarg.0; brfalse.s +2; ldc.i4.1; ret; ldc.i4.0; ret] *)
Definition sample_body : COR_ILMETHOD_DECODER := {|
  dec_LocalVarSigTok := 0x11000001; dec_MaxStack := 8; dec_Flags := 0x13; dec_CodeSize := 7;
  dec_Code := [0x02; 0x2C; 0x02; 0x17; 0x2A; 0x16; 0x2A]; dec_EH := [];
|}.

Lemma sample_body_ok : decoder_ok sample_body.
Proof.
  split; cbn [sample_body dec_CodeSize dec_Code dec_MaxStack dec_LocalVarSigTok dec_EH length]; [lia|simpl; lia| |lia|lia|by apply Forall_nil|simpl; lia].
  repeat (apply Forall_cons; split; [lia|]). apply Forall_nil_2.
Defined.

(** The buffers hold garbage. *)
Definition sample_uninit : list Z := replicate signatureBufferSize 0xCC.

Definition sample_start : context sample_metadata :=
  Build_context (ILRewriter_new true 0) TracerTokens_new ∅ {| md_next := 1; md_blobs := ∅ |}.

Definition sample_rewrite : T sample_metadata unit :=
  Rewrite sample_uninit sample_profiler sample_module (λ _, true) sample_clause sample_env 0 (0, sample_body) sample_caller
    (Some sample_integration).

Definition sample_il : ILRewriter := (Import (λ _, true) sample_clause sample_body (ILRewriter_new true 0)).2.

Definition sample_inputs : rewrite_inputs := {|
  integration_type_ref := 0x01000055; retFuncArg := [ELEMENT_TYPE_I4]; isVoid := false; isStatic := true;
  isRuntimeAsync := false; is_integration_method := true;
|}.

Lemma sample_body_returns : (Import (λ _, true) sample_clause sample_body (ILRewriter_new true 0)).1 = Ret tt.
Proof. vm_compute. reflexivity. Qed.

Lemma sample_body_count : m_nInstrs sample_il = 6.
Proof. vm_compute. reflexivity. Qed.

Lemma import_run nothrow_new EHClause_uninit d fc tk r n :
  decoder_ok d → Import nothrow_new EHClause_uninit d (ILRewriter_new fc tk) = (Ret tt, r) → m_nInstrs r = Z.of_nat n →
  ∃ l its, method_imported d r l its ∧ length its = n.
Proof.
  intros Hd Hret Hn. pose proof (Import_wp nothrow_new EHClause_uninit d Hd fc tk) as Hi. unfold wp in Hi.
  rewrite Hret in Hi. destruct Hi as (l & its & Him). exists l, its. split; [done|].
  rewrite (mi_nInstrs _ _ _ _ Him) in Hn. pose proof (length_code_size its (mi_valid _ _ _ _ Him)) as Hs.
  rewrite (mi_size _ _ _ _ Him) in Hs. pose proof (do_size _ Hd). rewrite wrap_small in Hn by lia. lia.
Qed.

Lemma sample_is_imported : ∃ l its, method_imported sample_body sample_il l its ∧ length its = 6%nat.
Proof.
  apply (import_run (λ _, true) sample_clause sample_body true 0 sample_il 6 sample_body_ok); [|exact sample_body_count].
  unfold sample_il. rewrite <-sample_body_returns. apply surjective_pairing.
Qed.

(** The run returns and hands a body over. *)
Lemma sample_rewrite_returns : (sample_rewrite sample_start).1 = Ret tt ∧
  is_Some (il_body (c_il (sample_rewrite sample_start).2)).
Proof. vm_compute. split; [done|by eexists]. Defined.

(** ** The properties *)

(** The metadata says the same of each of these types whenever it is asked. *)
Definition consistent (MD : Type) `{!Metadata MD} (by_ref_like : list Z → bool) (args : list (list Z)) : Prop :=
  ∀ a (s : context MD), a ∈ args → (is_by_ref_like a s).1 = Ret (by_ref_like a).

Lemma clr_answers {MD : Type} `{!Metadata MD} by_ref_like args :
  Forall clr_param args → consistent MD by_ref_like args → answers (MD := MD) by_ref_like args.
Proof.
  intros Hp Hc a Ha. split; [apply clr_readable; by apply (proj1 (Forall_forall _ _) Hp)|]. intros s. by apply Hc.
Qed.

Lemma sample_consistent : consistent sample_metadata sample_by_ref_like sample_args.
Proof. intros a s Ha. by apply sample_answers. Defined.

(** C7: The new signature of a method's locals is well formed and says what the rest of the rewriting
    relies on, for a method that has a signature of locals or fewer than 122 by-ref-like
    parameters: [ModifyLocalSig] returns or fails, never writing outside its buffer of 500 bytes nor
    reading outside a signature; when it returns, the signature it registered is the old one with
    the count raised and the types of the result, of its wrapper, of the exceptions, of the by-ref
    arguments and of the state appended, and every index it hands out is that of the local with the
    type meant for it; of the rewriter only the token of the signature has changed.  When it fails,
    the rewriter and the tokens that were defined are as they were.  Without the condition the size
    announced for the signature is one too small ([overflow_by_one_byte] below). *)
Theorem ModifyLocalSig_layout {MD : Type} `{!Metadata MD} (signature_uninit : list Z) (corAssemblyProperty : assembly_ref)
    (assemblyReference : AssemblyReference) (bubble_up_type bubble_up_function : bool) (by_ref_like : list Z → bool)
    (ret : list Z) (args : list (list Z)) (s : context MD) :
  metadata_ok MD → length signature_uninit = signatureBufferSize →
  clr_ret ret → Forall clr_param args → consistent MD by_ref_like args → Z.of_nat (length args) < 2 ^ 16 - 8 →
  (m_tkLocalVarSig (c_il s) = mdTokenNil → (ref_structs by_ref_like args < 122)%nat) →
  wp (ModifyLocalSig signature_uninit corAssemblyProperty assemblyReference bubble_up_type bubble_up_function ret args
        (2 + ref_structs by_ref_like args)) s
    (λ info s', ∃ n types returnType wrapper, new_layout bubble_up_type by_ref_like ret args s s' info n types returnType wrapper)
    (λ _ s', c_il s' = c_il s ∧ ∀ slot, c_tokens s slot ≠ slot_nil slot → c_tokens s' slot = c_tokens s slot).
Proof.
  intros Hmd Hun Hret Hargs Hc Hlen Hnil. eapply wp_mono; [apply modify_layout; try done|done|].
  - by apply clr_ret_readable.
  - by apply clr_answers.
  - by intros e s' [? ?].
Qed.

Lemma ModifyLocalSig_layout_witness :
  let s := Build_context (upd_m_tkLocalVarSig (λ _, 0x11000001) (ILRewriter_new true 0)) TracerTokens_new ∅ (c_md sample_start) in
  wp (ModifyLocalSig sample_uninit (profiler_assembly_ref sample_assembly) sample_assembly true true [ELEMENT_TYPE_I4] sample_args 3) s
    (λ info s', ∃ n types returnType wrapper, new_layout true sample_by_ref_like [ELEMENT_TYPE_I4] sample_args s s' info n types returnType wrapper)
    (λ _ s', c_il s' = c_il s ∧ ∀ slot, c_tokens s slot ≠ slot_nil slot → c_tokens s' slot = c_tokens s slot).
Proof.
  apply (ModifyLocalSig_layout sample_uninit (profiler_assembly_ref sample_assembly) sample_assembly true true sample_by_ref_like
    [ELEMENT_TYPE_I4] sample_args).
  - exact sample_metadata_ok.
  - done.
  - apply sample_readable.
  - apply sample_readable.
  - exact sample_consistent.
  - done.
  - intros Hnil. cbn in Hnil. done.
Defined.

(** C3: The rewriting of a method.  For every method body that decodes and every signature of ECMA
    types, where the type of the bubble-up exception is available and can be defined, and the method
    has a signature of locals or fewer than 122 by-ref-like parameters, [Rewrite] returns or fails,
    whatever else the metadata refuses, without an access outside any buffer, signature or list.
    When it returns: the method was imported; the new body is the initialisation of the locals and
    the call of BeginMethod, the method with every return turned into a leave, the call of EndMethod
    in a finally handler, and one return; the exception table is the old one and the four new
    clauses, and every branch and clause names an instruction of the new list; that list, with its
    short branches widened where needed, is what the CLR was given.  When it fails, the CLR was
    given nothing.  Both conditions are needed: [no_filter_null_handler] and
    [overflow_by_one_byte] below show what happens outside them. *)
Theorem Rewrite_instruments {MD : Type} `{!Metadata MD} (signature_uninit : list Z) (m_corProfiler : CorProfiler)
    (module_metadata : ModuleMetadata) (caller : FunctionInfo) (by_ref_like : list Z → bool) (nothrow_new : Z → bool)
    (EHClause_uninit : EHClause) (env : clr_env) (tkUninit : Z) (ILFunctionBody : Z * COR_ILMETHOD_DECODER)
    (definition : option IntegrationDefinition) (s : context MD) :
  let args := GetMethodArguments (FunctionInfo_signature caller) in
  metadata_ok MD → bubble_up_definable (MD := MD) → length signature_uninit = signatureBufferSize →
  call_target_bubble_up_exception_available m_corProfiler = true →
  clr_ret (GetReturnValue (FunctionInfo_signature caller)) → Forall clr_param args → consistent MD by_ref_like args →
  NumberOfArguments (FunctionInfo_signature caller) = Z.of_nat (length args) → Z.of_nat (length args) < 2 ^ 16 - 8 →
  (dec_LocalVarSigTok ILFunctionBody.2 = mdTokenNil → (ref_structs by_ref_like args < 122)%nat) →
  env_ok env → decoder_ok ILFunctionBody.2 → dec_CodeSize ILFunctionBody.2 < 2 ^ 27 →
  Z.of_nat (length (dec_EH ILFunctionBody.2)) < 2 ^ 24 → il_body (c_il s) = None →
  wp (Rewrite signature_uninit m_corProfiler module_metadata nothrow_new EHClause_uninit env tkUninit ILFunctionBody caller definition) s
    (λ _ s', ∃ definition' inputs s1 s2 s3 l its locals p, definition = Some definition' ∧
       rewrite_done m_corProfiler module_metadata caller by_ref_like ILFunctionBody.2 definition' s s' inputs s1 s2 s3 l its locals p)
    (λ _ s', il_body (c_il s') = None).
Proof. intros. apply wp_Rewrite; try done. by apply clr_answers. Qed.

Lemma Rewrite_instruments_witness :
  wp sample_rewrite sample_start
    (λ _ s', ∃ definition' inputs s1 s2 s3 l its locals p, Some sample_integration = Some definition' ∧
       rewrite_done sample_profiler sample_module sample_caller sample_by_ref_like sample_body definition' sample_start s' inputs s1 s2 s3 l its locals p)
    (λ _ s', il_body (c_il s') = None) ∧
  (sample_rewrite sample_start).1 = Ret tt.
Proof.
  split; [|exact (proj1 sample_rewrite_returns)].
  apply (Rewrite_instruments sample_uninit sample_profiler sample_module sample_caller sample_by_ref_like (λ _, true) sample_clause
    sample_env 0 (0, sample_body) (Some sample_integration) sample_start); try done.
  - exact sample_metadata_ok.
  - apply sample_readable.
  - apply sample_readable.
  - exact sample_consistent.
  - exact sample_env_ok.
  - exact sample_body_ok.
Defined.

(** C16: The rewritten method has one way out.  Its only return is the last instruction; in front of
    it is, for a method with a result, the load of the local registered for the result, and in
    front of that the [endfinally] of the finally handler.  Every return of the original method has
    become a [leave] to the instruction right behind that [endfinally], directly behind the store
    into the local of the result if there is one; all its other instructions are there, unchanged
    and in their order, with new code only in front of the first and behind the last.  The original
    exception clauses are kept in front of four new ones; the last of these has the finally handler
    protect everything in front of it, so that every return runs it.  The bubble-up exception is
    available and its type definable, and a method without a signature of locals has fewer than 122
    by-ref-like parameters. *)
Theorem rewrite_body_one_exit {MD : Type} `{!Metadata MD} (signature_uninit : list Z) (m_corProfiler : CorProfiler)
    (module_metadata : ModuleMetadata) (caller : FunctionInfo) (inputs : rewrite_inputs) (by_ref_like : list Z → bool)
    (B : prog) (s : context MD) :
  let args := GetMethodArguments (FunctionInfo_signature caller) in
  metadata_ok MD → bubble_up_definable (MD := MD) → length signature_uninit = signatureBufferSize →
  call_target_bubble_up_exception_available m_corProfiler = true →
  clr_ret (retFuncArg inputs) → Forall clr_param args → consistent MD by_ref_like args →
  NumberOfArguments (FunctionInfo_signature caller) = Z.of_nat (length args) → Z.of_nat (length args) < 2 ^ 16 - 8 →
  program (c_il s) B → 0 ≤ m_nInstrs (c_il s) < 2 ^ 32 → m_nEH (c_il s) = Z.of_nat (length (eh_clauses (c_il s))) →
  (m_tkLocalVarSig (c_il s) = mdTokenNil → (ref_structs by_ref_like args < 122)%nat) →
  wp (rewrite_body signature_uninit m_corProfiler module_metadata caller inputs) s
    (λ _ s', ∃ info s1 n types returnType wrapper P added,
       new_layout true by_ref_like (retFuncArg inputs) args s s1 info n types returnType wrapper ∧
       m_tkLocalVarSig (c_il s') = m_tkLocalVarSig (c_il s1) ∧
       program (c_il s') P ∧ one_exit (isVoid inputs) (returnValueIndex info) B P added ∧
       m_pEH (c_il s') = Some (eh_clauses (c_il s) ++ added) ∧ m_nEH (c_il s') = u32 (m_nEH (c_il s) + 4))
    (λ _ s', il_body (c_il s') = il_body (c_il s)).
Proof.
  intros args Hmd Hdef Hun Hbubble Hret Hargs Hc Hcount Hmany HB Hn HnEH Hnil.
  eapply wp_mono; [eapply (wp_rewrite_body Hmd Hdef signature_uninit Hun m_corProfiler module_metadata Hbubble caller inputs by_ref_like) with (B := B)|..]; try done.
  - by apply clr_ret_readable.
  - by apply clr_answers.
  - intros [] s' (info & s1 & n & types & returnType & wrapper & p & Hl & Hidx & Hins). rewrite Hbubble in Hl.
    pose proof (rewritten_one_exit signature_uninit Hun _ _ _ _ _ _ _ _ _ _ _ HB Hidx Hins) as Hone.
    pose proof Hins as [_ Hprog Hcl HnEH' _ [= Hsig _ _ _] _].
    exists info, s1, n, types, returnType, wrapper. eexists _, _. by split_and!.
Qed.

Lemma rewrite_body_one_exit_witness :
  let s := Build_context sample_il TracerTokens_new ∅ (c_md sample_start) in
  ∃ B, length B = 6%nat ∧
  wp (rewrite_body sample_uninit sample_profiler sample_module sample_caller sample_inputs) s
    (λ _ s', ∃ info s1 n types returnType wrapper P added,
       new_layout true sample_by_ref_like (retFuncArg sample_inputs) sample_args s s1 info n types returnType wrapper ∧
       m_tkLocalVarSig (c_il s') = m_tkLocalVarSig (c_il s1) ∧
       program (c_il s') P ∧ one_exit (isVoid sample_inputs) (returnValueIndex info) B P added ∧
       m_pEH (c_il s') = Some (eh_clauses (c_il s) ++ added) ∧ m_nEH (c_il s') = u32 (m_nEH (c_il s) + 4))
    (λ _ s', il_body (c_il s') = il_body (c_il s)).
Proof.
  intros s. destruct sample_is_imported as (l & its & Him & Hlen). exists (imported_prog sample_il l).
  split; [by rewrite (imported_length _ _ _ _ Him)|].
  refine (rewrite_body_one_exit sample_uninit sample_profiler sample_module sample_caller sample_inputs sample_by_ref_like
    (imported_prog sample_il l) s sample_metadata_ok sample_bubble_up_definable eq_refl eq_refl (proj1 sample_readable)
    (proj2 sample_readable) sample_consistent eq_refl eq_refl (imported_program _ _ _ _ Him) _ _ _); cbn [s c_il].
  - rewrite sample_body_count. lia.
  - rewrite (mi_nEH _ _ _ _ Him). unfold eh_clauses. by rewrite (Forall2_length _ _ _ (mi_eh _ _ _ _ Him)).
  - rewrite (mi_tk _ _ _ _ Him). intros Hnil. cbn in Hnil. done.
Defined.

(** C18: A rewriting that does not return hands nothing to the CLR, whatever the metadata answers,
    whatever the signatures hold and at whichever step it stops; only the last step of the export
    hands a body over. *)
Theorem Rewrite_failure_hands_nothing_over {MD : Type} `{!Metadata MD} (signature_uninit : list Z) (m_corProfiler : CorProfiler)
    (module_metadata : ModuleMetadata) (caller : FunctionInfo) (nothrow_new : Z → bool) (EHClause_uninit : EHClause)
    (env : clr_env) (tkUninit : Z) (ILFunctionBody : Z * COR_ILMETHOD_DECODER) (definition : option IntegrationDefinition)
    (s : context MD) :
  il_body (c_il s) = None →
  let '(result, s') := Rewrite signature_uninit m_corProfiler module_metadata nothrow_new EHClause_uninit env tkUninit
                         ILFunctionBody caller definition s in
  result = Ret tt ∨ il_body (c_il s') = None.
Proof.
  intros Hs. pose proof (withheld_rewrite signature_uninit m_corProfiler module_metadata nothrow_new EHClause_uninit env tkUninit
    ILFunctionBody caller definition s Hs) as Hw.
  unfold withheld in Hw. destruct (Rewrite _ _ _ _ _ _ _ _ _ _ s) as [[[]|e| |] s']; [by left|by right..].
Qed.

(** The CLR refuses the memory for the body. *)
Lemma Rewrite_failure_hands_nothing_over_witness :
  let env := {| env_nothrow_new := λ _, false; env_heap := env_heap sample_env; env_il_alloc := λ _, None; env_SetILFunctionBody := λ _, 0 |} in
  let run := Rewrite sample_uninit sample_profiler sample_module (λ _, true) sample_clause env 0 (0, sample_body) sample_caller
               (Some sample_integration) sample_start in
  run.1 = Err S_FALSE ∧ (run.1 = Ret tt ∨ il_body (c_il run.2) = None).
Proof.
  intros env run. split; [by vm_compute|].
  pose proof (Rewrite_failure_hands_nothing_over sample_uninit sample_profiler sample_module sample_caller (λ _, true) sample_clause env 0
    (0, sample_body) (Some sample_integration) sample_start eq_refl) as H.
  unfold run. destruct (Rewrite _ _ _ _ _ _ _ _ _ _ _) as [r s'] eqn:Hr. exact H.
Defined.

(** ** Outside the conditions *)

(** Without a signature of locals the count of the new ones is announced with one byte; from 128
    locals on it takes two.  With 162 by-ref-like parameters the announced size is exactly that of
    the buffer and one byte is written behind it; with 161 the sizes differ and the rewriting fails;
    with 121 the count has one byte. *)
Definition many_by_ref_like (n : nat) : outcome HRESULT LocalsInfo :=
  (ModifyLocalSig sample_uninit (profiler_assembly_ref sample_assembly) sample_assembly true true [ELEMENT_TYPE_VOID]
     (replicate n [ELEMENT_TYPE_VALUETYPE; 0x14]) (2 + n)
     (Build_context (ILRewriter_new true 0) TracerTokens_new ∅ (c_md sample_start))).1.

Example overflow_by_one_byte :
  many_by_ref_like 162 = Stuck ∧ many_by_ref_like 161 = Err E_FAIL ∧ ∃ info, many_by_ref_like 121 = Ret info.
Proof. split; [by vm_compute|]. split; [by vm_compute|]. vm_compute. by eexists. Qed.

(** Metadata that cannot name the method that logs an exception: without a filter the handler then
    has no first instruction, and the export follows the null pointer of its clause. *)
Section Refused.
Definition refused_metadata : Metadata sample_metadata := {|
  DefineAssemblyRef := DefineAssemblyRef; DefineTypeRefByName := DefineTypeRefByName;
  DefineMemberRef type name sig md := if decide (name = "LogException") then (-1, 0, md) else DefineMemberRef type name sig md;
  DefineMethodSpec := DefineMethodSpec; GetTokenFromSig := GetTokenFromSig; GetTokenFromTypeSpec := GetTokenFromTypeSpec;
  GetSigFromToken := GetSigFromToken; GetTypeSpecFromToken := GetTypeSpecFromToken; ResolveType := ResolveType;
  GetCustomAttributeByName := GetCustomAttributeByName; GetModuleFromScope := GetModuleFromScope;
  EnumAssemblyRefs := EnumAssemblyRefs; GetReferencedAssemblyMetadata := GetReferencedAssemblyMetadata;
  FindTypeRef := FindTypeRef; GetTypeInfo := GetTypeInfo;
|}.

Definition refused_rewrite (available : bool) : outcome HRESULT unit :=
  (Rewrite (Metadata0 := refused_metadata) sample_uninit
     {| call_target_bubble_up_exception_available := available;
        call_target_bubble_up_exception_function_available := available;
        call_target_runtime_async_methods_available := true;
        managed_profiler_loaded_domain_neutral := true; managed_profiler_loaded_app_domains := [];
        bytecode_instrumentation_assembly := sample_assembly |}
     sample_module (λ _, true) sample_clause sample_env 0 (0, sample_body) sample_caller (Some sample_integration) sample_start).1.

Example no_filter_null_handler : refused_rewrite true = Ret tt ∧ refused_rewrite false = Stuck.
Proof. vm_compute. done. Qed.
End Refused.
