(* ===== verification/RejitQueue.v ===== *)
(** * Requesting ReJIT: calls, locks and the worker
    (rejit_work_offloader.cpp, rejit_handler.cpp, rejit_preprocessor.cpp, cor_profiler.cpp, Synchronized.hpp)

    Integrations are registered and modules are loaded by any number of threads.  Whichever comes
    second finds the other and hands the pair to the worker of RejitWorkOffloader, through a queue;
    the caller may wait for the worker.  Two mutexes are held meanwhile, definitions_ids and
    module_ids, always taken in this order.  A thread is at a [place] of its call, every step is one
    access to what the threads share, so that a run is an interleaving; what the worker does with an
    item is [RejitSelection].

    The main results: every item is processed exactly once, in order, before Shutdown has returned;
    every loaded module has been paired with every registered integration; no promise is set
    twice; and every call returns in every schedule, whether or not the waits with a timeout are
    cut short. *)

From stdpp Require Import relations.
From S2P Require Import Prelude.

Section Rejit.
(** Integration definitions: the queue only hands them on. *)
Context {D : Type}.

(** ** The work offloader *)

Inductive work :=
| RequestRejitForLoadedModules (modules : list Z) (definitions : list D)
| RequestRejit (modulesVector modulesMethodDef : list Z).

(** [func]: what is to be run, and the promise to be resolved behind it, named after the call that
    made it.  A terminating item has none. *)
Record RejitWorkItem := {
  terminating : bool;
  func : option (work * option nat);
}.

Definition CreateTerminatingWorkItem : RejitWorkItem := {| terminating := true; func := None |}.
Definition RejitWorkItem_new (f : work * option nat) : RejitWorkItem := {| terminating := false; func := Some f |}.

(** The thread of [EnqueueThreadLoop]: at the pop, running an item, at its end. *)
Inductive worker_at :=
| Popping
| Running (f : work * option nat)
| Exited.

(** [enqueued] and [executed] are histories; [promises] are the ones that are set, with what. *)
Record offloader := {
  m_offloader_queue : list RejitWorkItem;
  m_offloader_queue_thread : worker_at;
  promises : gmap nat Z;
  enqueued : list work;
  executed : list work;
}.

Definition Enqueue (item : RejitWorkItem) (o : offloader) : offloader :=
  {| m_offloader_queue := m_offloader_queue o ++ [item]; m_offloader_queue_thread := m_offloader_queue_thread o;
     promises := promises o;
     enqueued := enqueued o ++ match func item with Some f => [f.1] | None => [] end; executed := executed o |}.

Definition set_value (promise : nat) (value : Z) (o : offloader) : offloader :=
  {| m_offloader_queue := m_offloader_queue o; m_offloader_queue_thread := m_offloader_queue_thread o;
     promises := <[promise := value]> (promises o); enqueued := enqueued o; executed := executed o |}.

(** One iteration of the loop in two steps: the pop, which waits for an item, and the run.  [count]
    is the number of requests that the run makes. *)
Definition EnqueueThreadLoop (count : Z) (o : offloader) : option offloader :=
  match m_offloader_queue_thread o with
  | Popping =>
      match m_offloader_queue o with
      | [] => None
      | item :: q =>
          let at_ := if terminating item then Exited else match func item with Some f => Running f | None => Popping end in
          Some {| m_offloader_queue := q; m_offloader_queue_thread := at_; promises := promises o;
                  enqueued := enqueued o; executed := executed o |}
      end
  | Running (w, promise) =>
      let o' := {| m_offloader_queue := m_offloader_queue o; m_offloader_queue_thread := Popping;
                   promises := promises o; enqueued := enqueued o; executed := executed o ++ [w] |} in
      Some match promise with Some p => set_value p count o' | None => o' end
  | Exited => None
  end.

(** ** The handler *)

(** [EnqueueForRejit], [EnqueueRequestRejitForLoadedModules]; [shutdown] is [IsShutdownRequested]. *)
Definition EnqueueForRejit (shutdown : bool) (modulesVector modulesMethodDef : list Z) (promise : option nat)
    (o : offloader) : offloader :=
  if shutdown || bool_decide (length modulesVector = 0%nat) || bool_decide (length modulesMethodDef = 0%nat) then
    match promise with Some p => set_value p 0 o | None => o end
  else Enqueue (RejitWorkItem_new (RequestRejit modulesVector modulesMethodDef, promise)) o.

Definition EnqueueRequestRejitForLoadedModules (shutdown : bool) (modules : list Z) (definitions : list D)
    (promise : option nat) (o : offloader) : offloader :=
  if shutdown || bool_decide (length modules = 0%nat) || bool_decide (length definitions = 0%nat) then
    match promise with Some p => set_value p 0 o | None => o end
  else Enqueue (RejitWorkItem_new (RequestRejitForLoadedModules modules definitions, promise)) o.

(** ** The profiler *)

(** [rejit_handler]: whether the pointer is set; [m_shutdown] is a member of what it points to. *)
Record profiler := {
  is_attached_ : bool;
  rejit_handler : bool;
  m_shutdown : bool;
  definitions_ids : list (list Z);
  integration_definitions_ : list D;
  module_ids : list Z;
}.

Definition set_attached (b : bool) (p : profiler) : profiler :=
  {| is_attached_ := b; rejit_handler := rejit_handler p; m_shutdown := m_shutdown p;
     definitions_ids := definitions_ids p; integration_definitions_ := integration_definitions_ p; module_ids := module_ids p |}.
Definition emplace (id : list Z) (p : profiler) : profiler :=
  {| is_attached_ := is_attached_ p; rejit_handler := rejit_handler p; m_shutdown := m_shutdown p;
     definitions_ids := definitions_ids p ++ [id]; integration_definitions_ := integration_definitions_ p; module_ids := module_ids p |}.
Definition add_definitions (ds : list D) (p : profiler) : profiler :=
  {| is_attached_ := is_attached_ p; rejit_handler := rejit_handler p; m_shutdown := m_shutdown p;
     definitions_ids := definitions_ids p; integration_definitions_ := integration_definitions_ p ++ ds; module_ids := module_ids p |}.
Definition set_modules (ms : list Z) (p : profiler) : profiler :=
  {| is_attached_ := is_attached_ p; rejit_handler := rejit_handler p; m_shutdown := m_shutdown p;
     definitions_ids := definitions_ids p; integration_definitions_ := integration_definitions_ p; module_ids := ms |}.
Definition drop_handler (p : profiler) : profiler :=
  {| is_attached_ := is_attached_ p; rejit_handler := false; m_shutdown := true;
     definitions_ids := definitions_ids p; integration_definitions_ := integration_definitions_ p; module_ids := module_ids p |}.

(** The calls, with what they read outside.  [inliners]: the methods that the answers of the
    runtime to [AddNGenInlinerModule] name, one list for each [EnqueueForRejit] it makes.
    [analysed]: [TryRejitModule] gets as far as adding the module. *)
Inductive call :=
| InternalAddInstrumentation (id : list Z) (definitions : list D)
| RegisterCallTargetDefinitions (id : list Z) (definitions : list D)
| InitializeTraceMethods (id : list Z) (definitions : list D)
| ModuleLoadFinished (module_id : Z) (inliners : list (list (Z * Z))) (analysed : bool)
| ModuleUnloadStarted (module_id : Z)
| JITCachedFunctionSearchStarted (inliners : list (list (Z * Z)))
| Shutdown.

(** Where a call is: at its start; in Shutdown behind the store to is_attached_; holding
    definitions_ids, at the check of the id; at the lock of module_ids; holding it; at the next
    batch of inliners; waiting for its promise; joining the worker; at its end. *)
Inductive place :=
| Entering
| Detached
| Checking
| Locking
| Locked
| Inlining (batches : list (list (Z * Z)))
| Waiting
| Joining
| Returned.

Definition takes_definitions (c : call) : bool :=
  match c with
  | InternalAddInstrumentation _ _ | RegisterCallTargetDefinitions _ _ | InitializeTraceMethods _ _ | Shutdown => true
  | _ => false
  end.

Definition holds_definitions (t : call * place) : bool :=
  takes_definitions t.1 && match t.2 with Entering | Detached | Returned => false | _ => true end.

Definition holds_modules (t : call * place) : bool :=
  match t.2 with
  | Locked | Inlining _ | Joining => true
  | Waiting => match t.1 with RegisterCallTargetDefinitions _ _ => false | _ => true end
  | _ => false
  end.

(** The id that a call checks. *)
Definition call_id (c : call) : option (list Z) :=
  match c with
  | InternalAddInstrumentation id _ | RegisterCallTargetDefinitions id _ | InitializeTraceMethods id _ => Some id
  | _ => None
  end.

(** [wait_for(100ms)] rather than [get]. *)
Definition waits_with_timeout (c : call) : bool :=
  match c with InternalAddInstrumentation _ _ | ModuleLoadFinished _ _ _ => true | _ => false end.

(** What is done behind the wait. *)
Definition after_wait (c : call) (p : profiler) : profiler :=
  match c with
  | InternalAddInstrumentation _ ds | InitializeTraceMethods _ ds => add_definitions ds p
  | _ => p
  end.

(** The code behind the lock of module_ids; [i] names the promise. *)
Definition locked (i : nat) (c : call) (o : offloader) (p : profiler) : place * offloader * profiler :=
  let loaded ms ds := EnqueueRequestRejitForLoadedModules (m_shutdown p) ms ds (Some i) o in
  match c with
  | InternalAddInstrumentation id ds =>
      let p := emplace id p in
      if bool_decide (length ds = 0%nat) then (Returned, o, p)
      else if rejit_handler p then (Waiting, loaded (module_ids p) ds, p)
      else (Returned, o, add_definitions ds p)
  | RegisterCallTargetDefinitions id ds =>
      let p := add_definitions ds (emplace id p) in
      if bool_decide (length ds = 0%nat) then (Returned, o, p) else (Waiting, loaded (module_ids p) ds, p)
  | InitializeTraceMethods id ds =>
      if rejit_handler p then (Waiting, loaded (module_ids p) ds, p) else (Returned, o, add_definitions ds p)
  | ModuleLoadFinished _ inliners _ =>
      if is_attached_ p && rejit_handler p then (Inlining inliners, o, p) else (Returned, o, p)
  | ModuleUnloadStarted module_id =>
      (Returned, o, if is_attached_ p then set_modules (filter (λ m, m ≠ module_id) (module_ids p)) p else p)
  | JITCachedFunctionSearchStarted inliners =>
      if rejit_handler p then (Inlining inliners, o, p) else (Returned, o, p)
  | Shutdown => if rejit_handler p then (Joining, Enqueue CreateTerminatingWorkItem o, p) else (Returned, o, p)
  end.

(** The code behind the inliners: [TryRejitModule] from the test of the name of the assembly on. *)
Definition inlined (i : nat) (c : call) (o : offloader) (p : profiler) : place * offloader * profiler :=
  match c with
  | ModuleLoadFinished module_id _ true =>
      let p := set_modules (module_ids p ++ [module_id]) p in
      if bool_decide (length (integration_definitions_ p) = 0%nat) then (Returned, o, p)
      else (Waiting, EnqueueRequestRejitForLoadedModules (m_shutdown p) [module_id] (integration_definitions_ p) (Some i) o, p)
  | _ => (Returned, o, p)
  end.

(** The next step of call [i]; [timeout]: its wait is cut short.  The locks are taken and released
    by [fire]. *)
Definition advance (i : nat) (c : call) (l : place) (timeout : bool) (o : offloader) (p : profiler) :
    option (place * offloader * profiler) :=
  match l with
  | Entering =>
      match c with
      | Shutdown => Some (Detached, o, set_attached false p)
      | _ =>
          if takes_definitions c then Some (Checking, o, p)
          else Some (if is_attached_ p then Locking else Returned, o, p)
      end
  | Detached => Some (Checking, o, p)
  | Checking =>
      match call_id c with
      | Some id =>
          Some (if bool_decide (id ∈ definitions_ids p) || negb (rejit_handler p) then Returned else Locking, o, p)
      | None => Some (Locking, o, p)
      end
  | Locking => Some (Locked, o, p)
  | Locked => Some (locked i c o p)
  | Inlining (methods :: batches) =>
      Some (Inlining batches, EnqueueForRejit (m_shutdown p) (fst <$> methods) (snd <$> methods) None o, p)
  | Inlining [] => Some (inlined i c o p)
  | Waiting =>
      if bool_decide (is_Some (promises o !! i)) || waits_with_timeout c && timeout
      then Some (Returned, o, after_wait c p) else None
  | Joining => match m_offloader_queue_thread o with Exited => Some (Returned, o, drop_handler p) | _ => None end
  | Returned => None
  end.

(** ** The program *)

Record rejit_state := {
  the_offloader : offloader;
  the_profiler : profiler;
  definitions_owner : option nat;
  modules_owner : option nat;
  calls : gmap nat (call * place);
}.

Definition offloader_init : offloader :=
  {| m_offloader_queue := []; m_offloader_queue_thread := Popping; promises := ∅; enqueued := []; executed := [] |}.
Definition profiler_init : profiler :=
  {| is_attached_ := true; rejit_handler := true; m_shutdown := false; definitions_ids := [];
     integration_definitions_ := []; module_ids := [] |}.
Definition rejit_init : rejit_state :=
  {| the_offloader := offloader_init; the_profiler := profiler_init; definitions_owner := None; modules_owner := None; calls := ∅ |}.

(** A mutex when a call that holds it or not goes on to hold it or not; [None]: it has to wait. *)
Definition lock_step (i : nat) (before after : bool) (owner : option nat) : option (option nat) :=
  match before, after with
  | false, true => match owner with None => Some (Some i) | Some _ => None end
  | true, false => Some None
  | _, _ => Some owner
  end.

Inductive action :=
| Call (i : nat) (c : call)
| Advance (i : nat) (timeout : bool)
| Worker (count : Z).

Definition fire (a : action) (s : rejit_state) : option rejit_state :=
  match a with
  | Call i c =>
      match calls s !! i with
      | None => Some {| the_offloader := the_offloader s; the_profiler := the_profiler s;
                        definitions_owner := definitions_owner s; modules_owner := modules_owner s;
                        calls := <[i := (c, Entering)]> (calls s) |}
      | Some _ => None
      end
  | Advance i timeout =>
      '(c, l) ← calls s !! i;
      '(l', o, p) ← advance i c l timeout (the_offloader s) (the_profiler s);
      d ← lock_step i (holds_definitions (c, l)) (holds_definitions (c, l')) (definitions_owner s);
      m ← lock_step i (holds_modules (c, l)) (holds_modules (c, l')) (modules_owner s);
      Some {| the_offloader := o; the_profiler := p; definitions_owner := d; modules_owner := m;
              calls := <[i := (c, l')]> (calls s) |}
  | Worker count =>
      o ← EnqueueThreadLoop count (the_offloader s);
      Some {| the_offloader := o; the_profiler := the_profiler s; definitions_owner := definitions_owner s;
              modules_owner := modules_owner s; calls := calls s |}
  end.

Definition step (s s' : rejit_state) : Prop := ∃ a, fire a s = Some s'.

(** The state that a list of actions leads to. *)
Fixpoint run (acts : list action) (s : rejit_state) : option rejit_state :=
  match acts with
  | [] => Some s
  | a :: acts => fire a s ≫= run acts
  end.

Lemma run_steps acts s s' : run acts s = Some s' → rtc step s s'.
Proof.
  revert s. induction acts as [|a acts IH]; intros s; cbn; [intros [= ->]; done|]. intros (s1 & Hs1 & H)%bind_Some.
  eapply rtc_l; [by exists a|by apply IH].
Qed.

(** ** The queue *)

(** What is still to be done, the running item first. *)
Definition pending (o : offloader) : list (work * option nat) :=
  match m_offloader_queue_thread o with Running f => [f] | _ => [] end ++ omap func (m_offloader_queue o).

(** The promises that are set or will be. *)
Definition awaited (o : offloader) : list nat := omap snd (pending o).
Definition known (o : offloader) (p : nat) : Prop := is_Some (promises o !! p) ∨ p ∈ awaited o.

(** The worker has ended or is told to. *)
Definition stopping (o : offloader) : Prop :=
  m_offloader_queue_thread o = Exited ∨ ∃ item, item ∈ m_offloader_queue o ∧ terminating item = true.

Record offloader_ok (o : offloader) : Prop := {
  ok_history : enqueued o = executed o ++ (pending o).*1;
  ok_unset : ∀ p, p ∈ awaited o → promises o !! p = None;
  ok_once : NoDup (awaited o);
  ok_last : ∀ q1 item q2, m_offloader_queue o = q1 ++ item :: q2 → terminating item = true → func item = None ∧ q2 = [];
  ok_ended : m_offloader_queue_thread o = Exited → m_offloader_queue o = [];
}.

Lemma pending_Enqueue item o : pending (Enqueue item o) = pending o ++ match func item with Some f => [f] | None => [] end.
Proof. unfold pending, Enqueue. cbn. rewrite omap_app, <-app_assoc. cbn. by destruct (func item). Qed.

Lemma awaited_Enqueue f o : awaited (Enqueue (RejitWorkItem_new f) o) = awaited o ++ option_list f.2.
Proof. unfold awaited. rewrite pending_Enqueue. cbn. rewrite omap_app. cbn. by destruct f.2. Qed.

Lemma not_stopping_last o item :
  ¬ stopping o → ∀ q1 it q2, m_offloader_queue o ++ [item] = q1 ++ it :: q2 → terminating it = true → it = item ∧ q2 = [].
Proof.
  intros Hs q1 it q2 H Ht. destruct q2 as [|x q2 _] using rev_ind.
  - by apply app_inj_tail in H as [_ ->].
  - rewrite app_comm_cons, app_assoc in H. apply app_inj_tail in H as [H _]. destruct Hs. right. exists it.
    split; [rewrite H; apply elem_of_app; right; by left|done].
Qed.

Lemma Enqueue_ok f o :
  offloader_ok o → ¬ stopping o → (∀ p, f.2 = Some p → ¬ known o p) → offloader_ok (Enqueue (RejitWorkItem_new f) o).
Proof.
  intros [H1 H2 H3 H4 H5] Hs Hp. split.
  - rewrite pending_Enqueue. cbn. rewrite H1, fmap_app, app_assoc. done.
  - intros p. rewrite awaited_Enqueue. intros [Hin|Hin]%elem_of_app; [by apply H2|]. cbn. destruct f.2 as [q|] eqn:E; [|by apply elem_of_nil in Hin].
    apply list_elem_of_singleton in Hin as ->. apply eq_None_not_Some. intros Hq. by apply (Hp q); [|left].
  - rewrite awaited_Enqueue. apply NoDup_app. split_and!; [done| |destruct f.2; [apply NoDup_singleton|apply NoDup_nil_2]].
    intros p Hin Hin'. destruct f.2 as [q|] eqn:E; [|by apply elem_of_nil in Hin']. apply list_elem_of_singleton in Hin' as ->.
    by apply (Hp q); [|right].
  - intros q1 it q2 H Ht. by destruct (not_stopping_last o _ Hs q1 it q2 H Ht) as [-> _].
  - intros H. destruct Hs. by left.
Qed.

Lemma Enqueue_terminating_ok o : offloader_ok o → ¬ stopping o → offloader_ok (Enqueue CreateTerminatingWorkItem o).
Proof.
  intros [H1 H2 H3 H4 H5] Hs. assert (E : pending (Enqueue CreateTerminatingWorkItem o) = pending o).
  { rewrite pending_Enqueue. cbn. by rewrite app_nil_r. }
  split; unfold awaited; rewrite ?E; try done.
  - cbn. by rewrite app_nil_r.
  - intros q1 it q2 H Ht. by destruct (not_stopping_last o _ Hs q1 it q2 H Ht) as [-> ->].
  - intros H. destruct Hs. by left.
Qed.

Lemma set_value_ok p n o : offloader_ok o → p ∉ awaited o → offloader_ok (set_value p n o).
Proof.
  intros [H1 H2 H3 H4 H5] Hp. split; try done. intros q Hq. cbn. rewrite lookup_insert_ne; [by apply H2|]. by intros <-.
Qed.

(** What the worker changes: nothing becomes known that was not, nothing is forgotten. *)
Record worked (o o' : offloader) : Prop := {
  worked_ok : offloader_ok o';
  worked_known : ∀ p, known o' p ↔ known o p;
  worked_stopping : stopping o' ↔ stopping o;
  worked_enqueued : enqueued o' = enqueued o;
  worked_ended : m_offloader_queue_thread o = Exited → m_offloader_queue_thread o' = Exited;
}.

Lemma EnqueueThreadLoop_worked n o o' : offloader_ok o → EnqueueThreadLoop n o = Some o' → worked o o'.
Proof.
  intros [H1 H2 H3 H4 H5] E. unfold EnqueueThreadLoop in E. destruct (m_offloader_queue_thread o) as [|[w promise]|] eqn:Ew; [| |done].
  - destruct (m_offloader_queue o) as [|item q] eqn:Eq; [done|]. injection E as <-.
    set (o' := {| m_offloader_queue := q |}). assert (Hpend : pending o' = pending o).
    { unfold pending. cbn. rewrite Ew, Eq. destruct (terminating item) eqn:Et.
      - destruct (H4 [] item q eq_refl Et) as [Hf ->]. cbn. by rewrite Hf.
      - cbn. by destruct (func item). }
    assert (Haw : awaited o' = awaited o) by (unfold awaited; by rewrite Hpend).
    split; [split|..]; unfold known; rewrite ?Haw, ?Hpend; try done.
    + intros q1 it q2 Hq. change (q = q1 ++ it :: q2) in Hq. apply (H4 (item :: q1)). by rewrite Hq.
    + cbn. destruct (terminating item) eqn:Et; [|by destruct (func item)]. by destruct (H4 [] item q eq_refl Et).
    + unfold stopping. cbn. rewrite Ew, Eq. destruct (terminating item) eqn:Et.
      * split; [intros _; right; exists item; by split; [left|]|by left].
      * split.
        -- intros [Hr|(it & Hin & Ht)]; [by destruct (func item)|]. right. exists it. by split; [right|].
        -- intros [?|(it & [->|Hin]%elem_of_cons & Ht)]; [done|by rewrite Et in Ht|]. right. by exists it.
    + by rewrite Ew.
  - assert (Hpend : pending o = (w, promise) :: omap func (m_offloader_queue o)) by (unfold pending; by rewrite Ew).
    assert (Haw : awaited o = option_list promise ++ omap snd (omap func (m_offloader_queue o))).
    { unfold awaited. rewrite Hpend. cbn. by destruct promise. }
    rewrite Haw in H2, H3. rewrite Hpend in H1.
    set (o1 := {| m_offloader_queue_thread := Popping |}) in E.
    assert (Hst : stopping o1 ↔ stopping o) by (unfold stopping; cbn; rewrite Ew; naive_solver).
    assert (Ho1 : offloader_ok o1).
    { split; try done; unfold awaited, pending; cbn.
      - by rewrite H1, <-app_assoc.
      - intros p Hp. apply H2, elem_of_app. by right.
      - by apply NoDup_app in H3 as (_ & _ & ?). }
    injection E as <-. destruct promise as [p|]; cbn in *.
    + apply NoDup_cons in H3 as [Hp H3]. split; try done.
      { by apply set_value_ok. }
      2: { by rewrite Ew. }
      intros q. unfold known.
      change (awaited (set_value p n o1)) with (awaited o1). unfold awaited at 1, pending. cbn. rewrite Haw. cbn.
      rewrite lookup_insert_is_Some, elem_of_cons. destruct (decide (p = q)) as [<-|]; [by split; [right; left|left; left]|].
      naive_solver.
    + split; try done; [|by rewrite Ew]. intros q. unfold known, awaited at 1, pending. cbn. by rewrite Haw.
Qed.

(** ** The locks *)

Definition owned (holds : call * place → bool) (m : gmap nat (call * place)) (owner : option nat) : Prop :=
  ∀ i, owner = Some i ↔ ∃ t, m !! i = Some t ∧ holds t = true.

Lemma lock_step_owned holds m owner i t t' owner' :
  owned holds m owner → m !! i = Some t → lock_step i (holds t) (holds t') owner = Some owner' →
  owned holds (<[i := t']> m) owner'.
Proof.
  intros Ho Hi Hl j. destruct (decide (j = i)) as [->|Hj].
  - rewrite lookup_insert_eq. specialize (Ho i). unfold lock_step in Hl. rewrite Hi in Ho.
    destruct (holds t) eqn:E, (holds t') eqn:E'; simplify_eq.
    + rewrite Ho. split; [by exists t'|by exists t].
    + split; [done|]. intros (? & [= <-] & ?). congruence.
    + destruct owner; simplify_eq. split; [by exists t'|done].
    + rewrite Ho. split; intros (? & [= <-] & ?); congruence.
  - rewrite lookup_insert_ne by done. rewrite <-(Ho j). unfold lock_step in Hl. pose proof (Ho i) as Hoi. rewrite Hi in Hoi.
    destruct (holds t) eqn:E, (holds t') eqn:E'; simplify_eq; try done.
    + assert (owner = Some i) as -> by (apply Hoi; eauto). split; [done|]. congruence.
    + destruct owner; simplify_eq. split; [congruence|done].
Qed.

(** Two calls do not hold a lock at once. *)
Lemma owned_one holds m owner i j t t' :
  owned holds m owner → m !! i = Some t → m !! j = Some t' → holds t = true → holds t' = true → i = j.
Proof.
  intros Ho Hi Hj Ht Ht'. assert (owner = Some i) as -> by (apply Ho; eauto). assert (Some i = Some j) as [=] by (apply Ho; eauto). done.
Qed.

(** ** The invariant *)

Definition covers (m : Z) (d : D) (w : work) : Prop :=
  match w with RequestRejitForLoadedModules ms ds => m ∈ ms ∧ d ∈ ds | RequestRejit _ _ => False end.

(** The pair has been handed to the worker. *)
Definition covered (o : offloader) (m : Z) (d : D) : Prop := ∃ w, w ∈ enqueued o ∧ covers m d w.

(** Where [after_wait] is still to come. *)
Definition promised_definitions (c : call) : list D :=
  match c with InternalAddInstrumentation _ ds | InitializeTraceMethods _ ds => ds | _ => [] end.

(** Behind a check of rejit_handler, under a lock that Shutdown takes. *)
Definition checked (t : call * place) : bool :=
  match t.2 with
  | Locking | Locked => match call_id t.1 with Some _ => true | None => false end
  | Inlining _ => true
  | _ => false
  end.

Definition at_end (l : place) : Prop := l = Waiting ∨ l = Returned.

Record rejit_ok (s : rejit_state) : Prop := {
  ok_definitions : owned holds_definitions (calls s) (definitions_owner s);
  ok_modules : owned holds_modules (calls s) (modules_owner s);
  ok_offloader : offloader_ok (the_offloader s);
  ok_promises : ∀ p, known (the_offloader s) p → ∃ c l, calls s !! p = Some (c, l) ∧ at_end l;
  ok_waiting : ∀ i c, calls s !! i = Some (c, Waiting) → known (the_offloader s) i;
  ok_stopping : stopping (the_offloader s) → rejit_handler (the_profiler s) = false ∨ ∃ i c, calls s !! i = Some (c, Joining);
  ok_joining : ∀ i c, calls s !! i = Some (c, Joining) → c = Shutdown ∧ stopping (the_offloader s) ∧ rejit_handler (the_profiler s) = true;
  ok_handler : rejit_handler (the_profiler s) = false → m_offloader_queue_thread (the_offloader s) = Exited;
  ok_shutdown : m_shutdown (the_profiler s) = negb (rejit_handler (the_profiler s));
  ok_checked : ∀ i t, calls s !! i = Some t → checked t = true → rejit_handler (the_profiler s) = true;
  ok_covered : ∀ m d, m ∈ module_ids (the_profiler s) → d ∈ integration_definitions_ (the_profiler s) → covered (the_offloader s) m d;
  ok_promised : ∀ i c m d, calls s !! i = Some (c, Waiting) → m ∈ module_ids (the_profiler s) → d ∈ promised_definitions c →
    covered (the_offloader s) m d;
}.

Lemma rejit_init_ok : rejit_ok rejit_init.
Proof.
  split; cbn; try done.
  - intros i. split; [done|]. by intros (? & ? & ?).
  - intros i. split; [done|]. by intros (? & ? & ?).
  - split; try done; [apply NoDup_nil_2|]. intros [] ? ?; done.
  - intros p [[? H]|H]; [done|by apply elem_of_nil in H].
  - intros [|(? & H & _)]; [done|by apply elem_of_nil in H].
  - intros m d H. by apply elem_of_nil in H.
Qed.

Lemma Call_ok s i c :
  rejit_ok s → calls s !! i = None →
  rejit_ok {| the_offloader := the_offloader s; the_profiler := the_profiler s; definitions_owner := definitions_owner s;
              modules_owner := modules_owner s; calls := <[i := (c, Entering)]> (calls s) |}.
Proof.
  intros [H1 H2 H3 H4 H5 H6 H7 H8 H9 H10 H11 H12] Hi.
  assert (Hown : ∀ holds owner, owned holds (calls s) owner → holds (c, Entering) = false → owned holds (<[i := (c, Entering)]> (calls s)) owner).
  { intros holds owner Ho Hh j. rewrite (Ho j). destruct (decide (j = i)) as [->|]; [|by rewrite lookup_insert_ne].
    rewrite lookup_insert_eq. split; [intros (t & E & _)|intros (t & [= <-] & ?)]; congruence. }
  split; cbn; try done.
  - apply Hown; [done|]. unfold holds_definitions. cbn. by rewrite andb_false_r.
  - by apply Hown.
  - intros p Hp. destruct (H4 p Hp) as (c' & l & E & Hl). exists c', l. rewrite lookup_insert_ne by congruence. done.
  - intros j c' [[<- ?]|[_ ?]]%lookup_insert_Some; [done|by eapply H5].
  - intros [?|(j & c' & Hj)]%H6; [by left|]. right. exists j, c'. rewrite lookup_insert_ne by congruence. done.
  - intros j c' [[<- ?]|[_ ?]]%lookup_insert_Some; [done|by apply (H7 j)].
  - intros j t [[<- <-]|[_ ?]]%lookup_insert_Some; [done|by apply (H10 j)].
  - intros j c' m d [[<- ?]|[_ ?]]%lookup_insert_Some; [done|by apply (H12 j)].
Qed.

Lemma covered_mono o o' m d : (∀ w, w ∈ enqueued o → w ∈ enqueued o') → covered o m d → covered o' m d.
Proof. intros H (w & Hw & ?). exists w. by split; [apply H|]. Qed.

Lemma Worker_ok s n o : rejit_ok s → EnqueueThreadLoop n (the_offloader s) = Some o →
  rejit_ok {| the_offloader := o; the_profiler := the_profiler s; definitions_owner := definitions_owner s;
              modules_owner := modules_owner s; calls := calls s |}.
Proof.
  intros [H1 H2 H3 H4 H5 H6 H7 H8 H9 H10 H11 H12] E. destruct (EnqueueThreadLoop_worked _ _ _ H3 E) as [W1 W2 W3 W4 W5].
  split; cbn; try done.
  - intros p Hp. by apply H4, W2.
  - intros i c Hi. by eapply W2, H5.
  - intros Hs. by apply H6, W3.
  - intros i c Hi. destruct (H7 i c Hi) as (? & ? & ?). split_and!; try done. by apply W3.
  - intros Hh. by apply W5, H8.
  - intros m d Hm Hd. eapply covered_mono, H11; try done. by rewrite W4.
  - intros i c m d Hi Hm Hd. eapply covered_mono, (H12 i c); try done. by rewrite W4.
Qed.

(** ** The step of a call *)

(** What a step of call [i] from [l] to [l'] keeps of the offloader and of the profiler. *)
Record stepped (i : nat) (c : call) (l l' : place) (o o' : offloader) (p p' : profiler) : Prop := {
  st_offloader : offloader_ok o';
  st_known : ∀ q, known o' q → known o q ∨ q = i ∧ l' = Waiting;
  st_keeps : ∀ q, known o q → known o' q;
  st_end : at_end l → at_end l';
  st_waiting : l' = Waiting → known o' i;
  st_stops : stopping o' → stopping o ∨ l' = Joining;
  st_stopping : stopping o → stopping o';
  st_thread : m_offloader_queue_thread o' = m_offloader_queue_thread o;
  st_enter : l' = Joining → c = Shutdown ∧ stopping o';
  st_handler : rejit_handler p' = rejit_handler p ∧ l ≠ Joining ∨
    l = Joining ∧ l' = Returned ∧ rejit_handler p' = false ∧ m_offloader_queue_thread o = Exited;
  st_shutdown : m_shutdown p' = negb (rejit_handler p');
  st_checked : checked (c, l') = true ∨ l' = Joining → rejit_handler p' = true;
  st_enqueued : ∀ w, w ∈ enqueued o → w ∈ enqueued o';
  st_modules : module_ids p' ⊆ module_ids p ∨ holds_modules (c, l) = true;
  st_covered : ∀ m d, m ∈ module_ids p' → d ∈ integration_definitions_ p' → covered o' m d;
  st_promised : ∀ m d, l' = Waiting → m ∈ module_ids p' → d ∈ promised_definitions c → covered o' m d;
}.

Lemma stepped_ok s i c l l' o' p' d' m' :
  rejit_ok s → calls s !! i = Some (c, l) →
  lock_step i (holds_definitions (c, l)) (holds_definitions (c, l')) (definitions_owner s) = Some d' →
  lock_step i (holds_modules (c, l)) (holds_modules (c, l')) (modules_owner s) = Some m' →
  stepped i c l l' (the_offloader s) o' (the_profiler s) p' →
  rejit_ok {| the_offloader := o'; the_profiler := p'; definitions_owner := d'; modules_owner := m'; calls := <[i := (c, l')]> (calls s) |}.
Proof.
  intros Hok Hi Hd Hm [S1 S2 S3 S4 S5 S6 S7 S8 S9 S10 S11 S12 S13 S14 S15 S16].
  destruct Hok as [H1 H2 H3 H4 H5 H6 H7 H8 H9 H10 H11 H12]. split; cbn; try done.
  - by eapply lock_step_owned.
  - by eapply lock_step_owned.
  - intros q Hq. destruct (decide (q = i)) as [->|Hne].
    + exists c, l'. rewrite lookup_insert_eq. split; [done|]. destruct (S2 i Hq) as [Hk|[_ ->]]; [|by left].
      destruct (H4 i Hk) as (c0 & l0 & E & Hl). apply S4. congruence.
    + rewrite lookup_insert_ne by done. destruct (S2 q Hq) as [Hk|[-> _]]; [|done]. by apply H4.
  - intros j c' [[<- [= <- ->]]|[_ ?]]%lookup_insert_Some; [by apply S5|]. by eapply S3, H5.
  - intros Hs. destruct S10 as [[-> Hl]|(_ & _ & -> & _)]; [|by left]. destruct (S6 Hs) as [Hs'| ->].
    + destruct (H6 Hs') as [?|(j & c' & Hj)]; [by left|]. right. exists j, c'.
      rewrite lookup_insert_ne by (intros <-; by simplify_eq). done.
    + right. exists i, c. by rewrite lookup_insert_eq.
  - intros j c' [[<- [= <- ->]]|[Hne Hj]]%lookup_insert_Some.
    + destruct (S9 eq_refl) as [-> ?]. split_and!; try done. apply S12. by right.
    + destruct (H7 j c' Hj) as (-> & Hst & Hh). split_and!; [done|by apply S7|]. destruct S10 as [[-> _]|(-> & _)]; [done|].
      destruct Hne. eapply (owned_one holds_modules); eauto.
  - intros Hh. rewrite S8. destruct S10 as [[E _]|(_ & _ & _ & E)]; [|done]. apply H8. by rewrite <-E.
  - intros j t [[<- <-]|[Hne Hj]]%lookup_insert_Some Ht; [apply S12; by left|].
    destruct S10 as [[-> _]|(-> & -> & _)]; [by apply (H10 j t)|]. destruct Hne.
    destruct (H7 i c Hi) as (-> & _ & _). destruct t as [c' []]; try done.
    1, 2: eapply (owned_one holds_definitions); [done..|]; unfold checked in Ht; cbn in Ht; by destruct c'.
    by eapply (owned_one holds_modules).
  - intros j c' m d [[<- [= <- ->]]|[Hne Hj]]%lookup_insert_Some Hin Hind; [by apply S16|].
    destruct S14 as [Hsub|Hl]; [eapply covered_mono, (H12 j c'); eauto|]. destruct Hne.
    eapply (owned_one holds_modules); eauto. by destruct c'; cbn in Hind |- *; try (by apply elem_of_nil in Hind).
Qed.

(** What an enqueuing does: the promise becomes known, whether an item is made or not. *)
Record sent (promise : option nat) (o o' : offloader) : Prop := {
  sent_ok : offloader_ok o';
  sent_known : ∀ q, known o' q ↔ known o q ∨ promise = Some q;
  sent_stopping : stopping o' ↔ stopping o;
  sent_thread : m_offloader_queue_thread o' = m_offloader_queue_thread o;
  sent_enqueued : ∀ w, w ∈ enqueued o → w ∈ enqueued o';
}.

Lemma set_value_sent p n o : offloader_ok o → ¬ known o p → sent (Some p) o (set_value p n o).
Proof.
  intros Ho Hp. split; try done.
  - apply set_value_ok; [done|]. intros ?. apply Hp. by right.
  - intros q. unfold known. cbn. rewrite lookup_insert_is_Some. change (awaited (set_value p n o)) with (awaited o).
    destruct (decide (p = q)) as [<-|]; naive_solver.
Qed.

Lemma Enqueue_sent f o :
  offloader_ok o → ¬ stopping o → (∀ p, f.2 = Some p → ¬ known o p) → sent f.2 o (Enqueue (RejitWorkItem_new f) o).
Proof.
  intros Ho Hs Hp. split; try done.
  - by apply Enqueue_ok.
  - intros q. unfold known. rewrite awaited_Enqueue, elem_of_app. destruct f.2 as [p|]; cbn; rewrite ?list_elem_of_singleton, ?elem_of_nil; naive_solver.
  - unfold stopping. cbn. setoid_rewrite elem_of_app. setoid_rewrite list_elem_of_singleton. naive_solver.
  - intros w Hw. apply elem_of_app. by left.
Qed.

Lemma nothing_sent promise o :
  offloader_ok o → (∀ p, promise = Some p → ¬ known o p) →
  sent promise o match promise with Some p => set_value p 0 o | None => o end.
Proof. intros Ho Hp. destruct promise as [p|]; [apply set_value_sent; auto|]. split; try done. naive_solver. Qed.

Lemma EnqueueForRejit_sent shutdown ms methods promise o :
  offloader_ok o → ¬ stopping o → (∀ p, promise = Some p → ¬ known o p) → sent promise o (EnqueueForRejit shutdown ms methods promise o).
Proof.
  intros Ho Hs Hp. unfold EnqueueForRejit. destruct (_ || _ || _); [by apply nothing_sent|].
  by apply (Enqueue_sent (RequestRejit ms methods, promise)).
Qed.

Lemma EnqueueRequest_sent shutdown ms ds promise o :
  offloader_ok o → ¬ stopping o → (∀ p, promise = Some p → ¬ known o p) →
  sent promise o (EnqueueRequestRejitForLoadedModules shutdown ms ds promise o).
Proof.
  intros Ho Hs Hp. unfold EnqueueRequestRejitForLoadedModules. destruct (_ || _ || _); [by apply nothing_sent|].
  by apply (Enqueue_sent (RequestRejitForLoadedModules ms ds, promise)).
Qed.

Lemma EnqueueRequest_covered ms ds promise o m d :
  m ∈ ms → d ∈ ds → covered (EnqueueRequestRejitForLoadedModules false ms ds promise o) m d.
Proof.
  intros Hm Hd. unfold EnqueueRequestRejitForLoadedModules. destruct ms as [|m0 ms]; [by apply elem_of_nil in Hm|].
  destruct ds as [|d0 ds]; [by apply elem_of_nil in Hd|]. cbn. exists (RequestRejitForLoadedModules (m0 :: ms) (d0 :: ds)).
  split; [apply elem_of_app; right; by left|done].
Qed.

(** A call that holds module_ids while the handler is there is not behind the worker's end. *)
Lemma not_stopping s i c l :
  rejit_ok s → calls s !! i = Some (c, l) → holds_modules (c, l) = true → l ≠ Joining →
  rejit_handler (the_profiler s) = true → ¬ stopping (the_offloader s).
Proof.
  intros Hok Hi Hl Hj Hh Hs. destruct (ok_stopping s Hok Hs) as [E|(j & c' & E)]; [congruence|].
  assert (i = j) as -> by (eapply (owned_one holds_modules); [apply Hok|done..]). congruence.
Qed.

Lemma not_known s i c l : rejit_ok s → calls s !! i = Some (c, l) → ¬ at_end l → ¬ known (the_offloader s) i.
Proof. intros Hok Hi Hl Hk. destruct (ok_promises s Hok i Hk) as (? & ? & ? & ?). naive_solver. Qed.

(** Steps that leave the offloader alone. *)
Lemma quiet_stepped s i c l l' p' :
  rejit_ok s → l ≠ Joining → l' ≠ Waiting → l' ≠ Joining → (at_end l → at_end l') →
  rejit_handler p' = rejit_handler (the_profiler s) → m_shutdown p' = m_shutdown (the_profiler s) →
  (checked (c, l') = true → rejit_handler p' = true) →
  (module_ids p' ⊆ module_ids (the_profiler s) ∨ holds_modules (c, l) = true) →
  (∀ m d, m ∈ module_ids p' → d ∈ integration_definitions_ p' → covered (the_offloader s) m d) →
  stepped i c l l' (the_offloader s) (the_offloader s) (the_profiler s) p'.
Proof.
  intros Hok Hl Hl1 Hl2 Hend Hh Hs Hc Hm Hcov. split; try done.
  - apply Hok.
  - by left.
  - by left.
  - by left.
  - rewrite Hs, Hh. apply Hok.
  - intros [?|?]; [by apply Hc|done].
Qed.

(** Steps that hand work to the worker, and go on to wait for it or not. *)
Lemma sent_stepped s i c l l' o' p' :
  rejit_ok s → sent match l' with Waiting => Some i | _ => None end (the_offloader s) o' →
  l ≠ Joining → l' ≠ Joining → ¬ at_end l →
  rejit_handler p' = rejit_handler (the_profiler s) → m_shutdown p' = m_shutdown (the_profiler s) →
  (checked (c, l') = true → rejit_handler p' = true) → holds_modules (c, l) = true →
  (∀ m d, m ∈ module_ids p' → d ∈ integration_definitions_ p' → covered o' m d) →
  (∀ m d, l' = Waiting → m ∈ module_ids p' → d ∈ promised_definitions c → covered o' m d) →
  stepped i c l l' (the_offloader s) o' (the_profiler s) p'.
Proof.
  intros Hok [P1 P2 P3 P4 P5] Hl Hl' Hend Hh Hs Hc Hm Hcov Hprom. split; try done.
  - intros q Hq. apply P2 in Hq as [?|E]; [by left|right]. by destruct l'; simplify_eq.
  - intros q Hq. apply P2. by left.
  - intros ->. apply P2. by right.
  - intros Hq. left. by apply P3.
  - apply P3.
  - by left.
  - rewrite Hs, Hh. apply Hok.
  - intros [?|?]; [by apply Hc|done].
  - by right.
Qed.

Lemma locked_stepped s i c l' o' p' :
  rejit_ok s → calls s !! i = Some (c, Locked) → locked i c (the_offloader s) (the_profiler s) = (l', o', p') →
  stepped i c Locked l' (the_offloader s) o' (the_profiler s) p'.
Proof.
  intros Hok Hi E. pose proof (ok_checked s Hok i _ Hi) as Hh. cbn in Hh. pose proof (ok_covered s Hok) as Hcov.
  assert (Hns : rejit_handler (the_profiler s) = true → ¬ stopping (the_offloader s)) by by eapply not_stopping.
  assert (Hnk : ¬ known (the_offloader s) i) by (eapply not_known; [done..|]; by intros [?|?]).
  assert (Hend : ¬ at_end Locked) by by intros [?|?].
  assert (Hsd : rejit_handler (the_profiler s) = true → m_shutdown (the_profiler s) = false) by (intros E1; rewrite (ok_shutdown s Hok), E1; done).
  assert (Hnew : ∀ shutdown ms ds, rejit_handler (the_profiler s) = true →
    sent (Some i) (the_offloader s) (EnqueueRequestRejitForLoadedModules shutdown ms ds (Some i) (the_offloader s))).
  { intros. apply EnqueueRequest_sent; [apply Hok|auto|by intros ? [= <-]]. }
  destruct c as [id ds|id ds|id ds|m inl an|m|inl|]; cbn in E.
  - specialize (Hh eq_refl). rewrite Hh in E. case_bool_decide; simplify_eq.
    + apply quiet_stepped; try done. by right.
    + apply sent_stepped; try done; [by apply Hnew|..].
      * intros m d Hm Hd. eapply covered_mono, (Hcov m d); try done. by apply (Hnew _ _ _ Hh).
      * intros m d _ Hm Hd. cbn. rewrite (Hsd Hh). by apply EnqueueRequest_covered.
  - specialize (Hh eq_refl). cbn in Hsd. case_bool_decide as Hds; simplify_eq.
    + apply quiet_stepped; try done; [by right|]. intros m d Hm Hd. apply (Hcov m d Hm). cbn in Hd.
      apply nil_length_inv in Hds as ->. by rewrite app_nil_r in Hd.
    + apply sent_stepped; try done; [by apply Hnew|..|by intros ? ? _ _ ?%elem_of_nil].
      intros m d Hm Hd. cbn in Hm, Hd |- *. apply elem_of_app in Hd as [Hd|Hd].
      * eapply covered_mono, (Hcov m d); try done. by apply (Hnew _ _ _ Hh).
      * rewrite (Hsd Hh). by apply EnqueueRequest_covered.
  - specialize (Hh eq_refl). rewrite Hh in E. simplify_eq. apply sent_stepped; try done; [by apply Hnew|..].
    + intros m d Hm Hd. eapply covered_mono, (Hcov m d); try done. by apply (Hnew _ _ _ Hh).
    + intros m d _ Hm Hd. rewrite (Hsd Hh). by apply EnqueueRequest_covered.
  - destruct (is_attached_ _ && _) eqn:Ea; simplify_eq; apply quiet_stepped; try done; try (by right); try (by intros []).
    intros _. by apply andb_prop in Ea as [_ ?].
  - simplify_eq. destruct (is_attached_ _); apply quiet_stepped; try done; try (by right).
    intros m' d Hm Hd. cbn in Hm. apply list_elem_of_filter in Hm as [_ Hm]. by apply Hcov.
  - destruct (rejit_handler _) eqn:Ea; simplify_eq; apply quiet_stepped; try done; try (by right); by intros [].
  - destruct (rejit_handler _) eqn:Ea; simplify_eq; [|apply quiet_stepped; try done; by right].
    specialize (Hns eq_refl). assert (Hst : stopping (Enqueue CreateTerminatingWorkItem (the_offloader s))).
    { right. exists CreateTerminatingWorkItem. split; [apply elem_of_app; right; by left|done]. }
    assert (Hknown : ∀ q, known (Enqueue CreateTerminatingWorkItem (the_offloader s)) q ↔ known (the_offloader s) q).
    { intros q. unfold known, awaited. rewrite pending_Enqueue. cbn. by rewrite app_nil_r. }
    split; try done.
    + apply Enqueue_terminating_ok; [apply Hok|done].
    + intros q Hq. left. by apply Hknown.
    + intros q. apply Hknown.
    + by right.
    + by left.
    + apply Hok.
    + cbn. intros w. by rewrite app_nil_r.
    + by right.
    + intros m d Hm Hd. eapply covered_mono, (Hcov m d); try done. cbn. intros w. by rewrite app_nil_r.
Qed.

Ltac quiet := apply quiet_stepped; try done; try (by intros [?|?]); try (by left).

Lemma advance_stepped s i c l timeout l' o' p' :
  rejit_ok s → calls s !! i = Some (c, l) → advance i c l timeout (the_offloader s) (the_profiler s) = Some (l', o', p') →
  stepped i c l l' (the_offloader s) o' (the_profiler s) p'.
Proof.
  intros Hok Hi E. pose proof (ok_checked s Hok i _ Hi) as Hh. pose proof (ok_covered s Hok) as Hcov.
  destruct l as [| | | | |[|methods batches]| | |]; cbn in E.
  - destruct c; cbn in E; simplify_eq; quiet; by destruct (is_attached_ _).
  - simplify_eq. quiet.
  - destruct (call_id c) as [id|] eqn:Ec; simplify_eq.
    + destruct (_ || _) eqn:Eb; quiet.
      intros _. apply orb_false_iff in Eb as [_ Eb]. by apply negb_false_iff in Eb.
    + quiet. unfold checked. cbn. by rewrite Ec.
  - simplify_eq. quiet.
  - simplify_eq. by apply locked_stepped.
  - specialize (Hh eq_refl). assert (Hend : ¬ at_end (Inlining [])) by by intros [?|?].
    destruct c as [| | |m inl []| | |]; cbn in E; try case_bool_decide as Hds; simplify_eq; try solve [quiet].
    + apply quiet_stepped; try done; [by right|]. intros m' d _ Hd. cbn in Hd. apply nil_length_inv in Hds. rewrite Hds in Hd. by apply elem_of_nil in Hd.
    + assert (sent (Some i) (the_offloader s) (EnqueueRequestRejitForLoadedModules (m_shutdown (the_profiler s)) [m]
        (integration_definitions_ (the_profiler s)) (Some i) (the_offloader s))) as Hs.
      { apply EnqueueRequest_sent; [apply Hok|by eapply not_stopping|intros ? [= <-]; by eapply not_known]. }
      apply sent_stepped; try done; [|by intros ? ? _ _ ?%elem_of_nil].
      intros m' d [Hm| ->%list_elem_of_singleton]%elem_of_app Hd.
      * eapply covered_mono, (Hcov m' d); try done. by apply Hs.
      * cbn. rewrite (ok_shutdown s Hok), Hh. apply EnqueueRequest_covered; [by left|done].
  - specialize (Hh eq_refl). simplify_eq.
    assert (sent None (the_offloader s) (EnqueueForRejit (m_shutdown (the_profiler s)) methods.*1 methods.*2 None (the_offloader s))) as Hs.
    { apply EnqueueForRejit_sent; [apply Hok|by eapply not_stopping|done]. }
    apply sent_stepped; try done; [by intros [?|?]|].
    intros m' d Hm Hd. eapply covered_mono, (Hcov m' d); try done. by apply Hs.
  - destruct (_ || _); simplify_eq. assert (Hsame : module_ids (after_wait c (the_profiler s)) = module_ids (the_profiler s)) by by destruct c.
    apply quiet_stepped; try done; [by right|by destruct c|by destruct c|by left; rewrite Hsame|].
    rewrite Hsame. intros m d Hm Hd. assert (d ∈ integration_definitions_ (the_profiler s) ∨ d ∈ promised_definitions c) as [?|?].
    { destruct c; cbn in Hd |- *; try (by left); by apply elem_of_app. }
    + by apply Hcov.
    + by apply (ok_promised s Hok i c).
  - destruct (m_offloader_queue_thread (the_offloader s)) eqn:Ew; simplify_eq. destruct (ok_joining s Hok i c Hi) as (-> & Hs & Hh').
    split; try done; try (by left); try (by right).
    + apply Hok.
    + by intros [|].
  - done.
Qed.

Lemma rejit_fire_ok a s s' : rejit_ok s → fire a s = Some s' → rejit_ok s'.
Proof.
  intros Hok E. destruct a as [i c|i timeout|n]; cbn in E.
  - destruct (calls s !! i) eqn:Hi; simplify_eq. by apply Call_ok.
  - apply bind_Some in E as ([c l] & Hi & E). apply bind_Some in E as ([[l' o'] p'] & Ea & E).
    apply bind_Some in E as (d & Hd & E). apply bind_Some in E as (m & Hm & [= <-]). eapply stepped_ok; try done. by eapply advance_stepped.
  - apply bind_Some in E as (o & Ho & [= <-]). by eapply Worker_ok.
Qed.

Lemma reachable_ok s s' : rejit_ok s → rtc step s s' → rejit_ok s'.
Proof. intros Hok Hs. induction Hs as [|s s1 s' [a Ha] _ IH]; [done|]. eapply IH, rejit_fire_ok; done. Qed.

(** ** Behind the shutdown *)

Lemma locked_no_handler i c o p l' o' p' :
  rejit_handler p = false → call_id c = None → locked i c o p = (l', o', p') → o' = o ∧ rejit_handler p' = false.
Proof.
  intros Hh Hc E. destruct c; cbn in E, Hc; rewrite ?Hh, ?andb_false_r in E; simplify_eq; try done.
  by destruct (is_attached_ p).
Qed.

Lemma fire_no_handler a s s' :
  rejit_ok s → rejit_handler (the_profiler s) = false → fire a s = Some s' →
  rejit_handler (the_profiler s') = false ∧ enqueued (the_offloader s') = enqueued (the_offloader s).
Proof.
  intros Hok Hh E. destruct a as [i c|i timeout|n]; cbn in E.
  - destruct (calls s !! i); by simplify_eq.
  - apply bind_Some in E as ([c l] & Hi & E). apply bind_Some in E as ([[l' o'] p'] & Ea & E).
    apply bind_Some in E as (d & _ & E). apply bind_Some in E as (m & _ & [= <-]). cbn.
    pose proof (ok_checked s Hok i _ Hi) as Hc. rewrite Hh in Hc. destruct l as [| | | | |batches| | |]; cbn in Ea, Hc; try (by specialize (Hc eq_refl)).
    + destruct c; cbn in Ea; by simplify_eq.
    + by simplify_eq.
    + by destruct (call_id c); simplify_eq.
    + by simplify_eq.
    + injection Ea as Ea. destruct (call_id c) eqn:Ec; [by specialize (Hc eq_refl)|]. by destruct (locked_no_handler _ _ _ _ _ _ _ Hh Ec Ea) as [-> ?].
    + destruct (_ || _); simplify_eq. by destruct c.
    + destruct (m_offloader_queue_thread _); by simplify_eq.
    + done.
  - apply bind_Some in E as (o & Ho & [= <-]). split; [done|].
    by destruct (EnqueueThreadLoop_worked _ _ _ (ok_offloader s Hok) Ho).
Qed.

Lemma no_handler_stays s s' :
  rejit_ok s → rejit_handler (the_profiler s) = false → rtc step s s' →
  rejit_handler (the_profiler s') = false ∧ enqueued (the_offloader s') = enqueued (the_offloader s).
Proof.
  intros Hok Hh Hs. induction Hs as [|s s1 s' [a Ha] _ IH]; [done|].
  destruct (fire_no_handler _ _ _ Hok Hh Ha) as [Hh1 <-]. by apply IH; [eapply rejit_fire_ok|].
Qed.

Lemma ended_executed s :
  rejit_ok s → rejit_handler (the_profiler s) = false → executed (the_offloader s) = enqueued (the_offloader s).
Proof.
  intros Hok Hh. pose proof (ok_handler s Hok Hh) as E. pose proof (ok_offloader s Hok) as [H1 _ _ _ H5]. rewrite H1.
  unfold pending. rewrite E, (H5 E). cbn. by rewrite app_nil_r.
Qed.

(** C6: Every loaded module is paired with every registered integration, whichever came first, in all
    interleavings of registrations, loads, unloads, callbacks, the worker and any number of
    shutdowns.  The worker runs every item it is given once, in order; no promise is set twice; and
    when a Shutdown has dropped the handler, everything that was ever handed over has been run and
    nothing is handed over any more. *)
Theorem rejit_requests_processed s :
  rtc step rejit_init s →
  enqueued (the_offloader s) = executed (the_offloader s) ++ (pending (the_offloader s)).*1 ∧
  NoDup (awaited (the_offloader s)) ∧ (∀ p, p ∈ awaited (the_offloader s) → promises (the_offloader s) !! p = None) ∧
  (∀ m d, m ∈ module_ids (the_profiler s) → d ∈ integration_definitions_ (the_profiler s) → covered (the_offloader s) m d) ∧
  (rejit_handler (the_profiler s) = false → ∀ s', rtc step s s' →
     enqueued (the_offloader s') = enqueued (the_offloader s) ∧ executed (the_offloader s') = enqueued (the_offloader s') ∧
     ∀ m d, m ∈ module_ids (the_profiler s') → d ∈ integration_definitions_ (the_profiler s') →
       ∃ w, w ∈ executed (the_offloader s') ∧ covers m d w).
Proof.
  intros Hs. pose proof (reachable_ok _ _ rejit_init_ok Hs) as Hok. pose proof (ok_offloader s Hok) as [H1 H2 H3 _ _].
  split_and!; [done|done|done|apply Hok|]. intros Hh s' Hs'. destruct (no_handler_stays _ _ Hok Hh Hs') as [Hh' E].
  pose proof (reachable_ok _ _ Hok Hs') as Hok'. pose proof (ended_executed s' Hok' Hh') as E'. split_and!; [done|done|].
  intros m d Hm Hd. rewrite E'. by apply (ok_covered s' Hok').
Qed.

(** ** Progress *)

(** The steps of the calls that have been made and of the worker; with [prompt_step] no wait is cut
    short. *)
Definition own_step (s s' : rejit_state) : Prop :=
  (∃ i timeout, fire (Advance i timeout) s = Some s') ∨ ∃ n, fire (Worker n) s = Some s'.
Definition prompt_step (s s' : rejit_state) : Prop :=
  (∃ i, fire (Advance i false) s = Some s') ∨ ∃ n, fire (Worker n) s = Some s'.

Definition batches_left (c : call) : nat :=
  match c with ModuleLoadFinished _ inliners _ | JITCachedFunctionSearchStarted inliners => length inliners | _ => 0 end.

(** A bound on what a call can still do; what it enqueues counts for three. *)
Definition rank (t : call * place) : nat :=
  match t.2 with
  | Returned => 0
  | Waiting | Joining => 1
  | Inlining batches => 4 + 3 * length batches
  | Locked => 5 + 3 * batches_left t.1
  | Locking => 6 + 3 * batches_left t.1
  | Checking => 7 + 3 * batches_left t.1
  | Detached => 8 + 3 * batches_left t.1
  | Entering => 9 + 3 * batches_left t.1
  end.

Definition backlog (o : offloader) : nat :=
  2 * length (m_offloader_queue o) + match m_offloader_queue_thread o with Running _ => 1 | _ => 0 end.

Definition remaining (s : rejit_state) : nat := weigh rank (calls s) + backlog (the_offloader s).

Lemma EnqueueForRejit_backlog shutdown ms methods promise o :
  (backlog (EnqueueForRejit shutdown ms methods promise o) ≤ 2 + backlog o)%nat.
Proof.
  unfold EnqueueForRejit. destruct (_ || _ || _); [destruct promise; cbn; lia|]. unfold backlog. cbn. rewrite length_app. cbn. lia.
Qed.

Lemma EnqueueRequest_backlog shutdown ms ds promise o :
  (backlog (EnqueueRequestRejitForLoadedModules shutdown ms ds promise o) ≤ 2 + backlog o)%nat.
Proof.
  unfold EnqueueRequestRejitForLoadedModules. destruct (_ || _ || _); [destruct promise; cbn; lia|].
  unfold backlog. cbn. rewrite length_app. cbn. lia.
Qed.

Lemma Enqueue_backlog item o : backlog (Enqueue item o) = (2 + backlog o)%nat.
Proof. unfold backlog. cbn. rewrite length_app. cbn. lia. Qed.

Ltac bound_backlog :=
  try match goal with
  | |- context [backlog (EnqueueRequestRejitForLoadedModules ?sd ?ms ?ds ?pr ?o)] =>
      pose proof (EnqueueRequest_backlog sd ms ds pr o)
  | |- context [backlog (EnqueueForRejit ?sd ?ms ?ds ?pr ?o)] => pose proof (EnqueueForRejit_backlog sd ms ds pr o)
  end.

Lemma advance_decreases i c l timeout o p l' o' p' :
  advance i c l timeout o p = Some (l', o', p') → (rank (c, l') + backlog o' < rank (c, l) + backlog o)%nat.
Proof.
  intros E. destruct l as [| | | | |[|methods batches]| | |]; cbn in E.
  - destruct c; cbn in E; simplify_eq; cbn; try (destruct (is_attached_ _); cbn); lia.
  - simplify_eq. cbn. lia.
  - destruct (call_id c); simplify_eq; [destruct (_ || _)|]; cbn; lia.
  - simplify_eq. cbn. lia.
  - destruct c; cbn in E; repeat case_bool_decide; try destruct (rejit_handler p); try destruct (is_attached_ p); cbn in E;
      simplify_eq; rewrite ?Enqueue_backlog; cbn [rank fst snd batches_left]; bound_backlog; lia.
  - destruct c as [| | |m inl []| | |]; cbn in E; repeat case_bool_decide; simplify_eq; cbn [rank fst snd length];
      bound_backlog; lia.
  - simplify_eq. cbn [rank fst snd length]. bound_backlog. lia.
  - destruct (_ || _); simplify_eq. cbn. lia.
  - destruct (m_offloader_queue_thread o); simplify_eq. cbn. lia.
  - done.
Qed.

Lemma rejit_step_decreases s s' : own_step s s' → (remaining s' < remaining s)%nat.
Proof.
  unfold remaining. intros [(i & timeout & E)|(n & E)]; cbn in E.
  - apply bind_Some in E as ([c l] & Hi & E). apply bind_Some in E as ([[l' o'] p'] & Ea & E).
    apply bind_Some in E as (d & _ & E). apply bind_Some in E as (m & _ & [= <-]). cbn [calls the_offloader].
    pose proof (advance_decreases _ _ _ _ _ _ _ _ _ Ea). pose proof (weigh_insert rank (calls s) i (c, l')) as W.
    rewrite Hi in W. cbn [weight_at] in W. lia.
  - apply bind_Some in E as (o & E & [= <-]). cbn. unfold EnqueueThreadLoop in E. unfold backlog.
    destruct (m_offloader_queue_thread (the_offloader s)) as [|[w promise]|]; [| |done].
    + destruct (m_offloader_queue (the_offloader s)) as [|item q]; [done|]. injection E as <-. cbn.
      destruct (terminating item), (func item); cbn; lia.
    + injection E as <-. destruct promise; cbn; lia.
Qed.

Lemma lock_step_ready i before after owner :
  before = true ∨ after = false ∨ owner = None → ∃ owner', lock_step i before after owner = Some owner'.
Proof. intros [-> |[-> | ->]]; destruct before || destruct after; try destruct after; try destruct before; by eexists. Qed.

(** A call whose next step waits for nothing but locks takes it if they are free. *)
Lemma can_advance s i c l l' o' p' :
  calls s !! i = Some (c, l) → advance i c l false (the_offloader s) (the_profiler s) = Some (l', o', p') →
  holds_definitions (c, l) = true ∨ holds_definitions (c, l') = false ∨ definitions_owner s = None →
  holds_modules (c, l) = true ∨ holds_modules (c, l') = false ∨ modules_owner s = None →
  ∃ s', prompt_step s s'.
Proof.
  intros Hi Ha Hd Hm. destruct (lock_step_ready i _ _ _ Hd) as [d Ed]. destruct (lock_step_ready i _ _ _ Hm) as [m Em].
  eexists. left. exists i. cbn. rewrite Hi. cbn. rewrite Ha. cbn. rewrite Ed. cbn. by rewrite Em.
Qed.

Lemma quiet_ended s :
  rejit_ok s → (∀ s', ¬ prompt_step s s') → ∀ i c l, calls s !! i = Some (c, l) → l = Returned.
Proof.
  intros Hok Hend. set (o := the_offloader s).
  assert (Hw : m_offloader_queue_thread o = Exited ∨ m_offloader_queue_thread o = Popping ∧ m_offloader_queue o = []).
  { destruct (EnqueueThreadLoop 0 o) as [o1|] eqn:E.
    - destruct (Hend {| the_offloader := o1; the_profiler := the_profiler s; definitions_owner := definitions_owner s;
                        modules_owner := modules_owner s; calls := calls s |}). right. exists 0. cbn. fold o. by rewrite E.
    - unfold EnqueueThreadLoop in E. destruct (m_offloader_queue_thread o) as [|[]|]; [|done|by left].
      destruct (m_offloader_queue o); [by right|done]. }
  assert (Hno : ∀ i c l l' o' p', calls s !! i = Some (c, l) → advance i c l false o (the_profiler s) = Some (l', o', p') →
    holds_definitions (c, l) = true ∨ holds_definitions (c, l') = false ∨ definitions_owner s = None →
    holds_modules (c, l) = true ∨ holds_modules (c, l') = false ∨ modules_owner s = None → False).
  { intros i c l l' o' p' Hi Ha Hd Hm. by destruct (can_advance s i c l l' o' p' Hi Ha Hd Hm) as [s' ?%Hend]. }
  assert (Hkeeps : ∀ c l l', l ≠ Entering → l ≠ Detached → l ≠ Returned → holds_definitions (c, l) = true ∨ holds_definitions (c, l') = false).
  { intros c l l' ? ? ?. destruct (takes_definitions c) eqn:Ec; unfold holds_definitions; cbn; rewrite Ec; [left; by destruct l|by right]. }
  (* nobody waits for the worker *)
  assert (Hwait : ∀ i c, calls s !! i ≠ Some (c, Waiting)).
  { intros i c Hi. assert (is_Some (promises o !! i)) as [n En].
    { destruct (ok_waiting s Hok i c Hi) as [?|Hin]; [done|]. fold o in Hin. unfold awaited, pending in Hin.
      destruct Hw as [E|[E Eq]]; [pose proof (ok_ended _ (ok_offloader s Hok) E) as Eq; fold o in Eq|];
        rewrite E, Eq in Hin; by apply elem_of_nil in Hin. }
    eapply (Hno i c Waiting Returned o (after_wait c (the_profiler s)) Hi).
    - cbn. rewrite bool_decide_eq_true_2; [done|by eexists].
    - destruct (Hkeeps c Waiting Returned) as [?|?]; auto.
    - by right; left. }
  assert (Hjoin : ∀ i c, calls s !! i ≠ Some (c, Joining)).
  { intros i c Hi. destruct (ok_joining s Hok i c Hi) as (-> & Hs & _). fold o in Hs.
    assert (m_offloader_queue_thread o = Exited) as E.
    { destruct Hs as [?|(it & Hin & _)]; [done|]. destruct Hw as [?|[_ Eq]]; [done|]. rewrite Eq in Hin. by apply elem_of_nil in Hin. }
    eapply (Hno i Shutdown Joining Returned o (drop_handler (the_profiler s)) Hi); [cbn; by rewrite E|by left|by left]. }
  (* nobody holds module_ids *)
  assert (Hlocked : ∀ i c l, calls s !! i = Some (c, l) → holds_modules (c, l) = false).
  { intros i c l Hi. destruct l as [| | | | |[|ms bs]| | |]; try done; [..|by destruct (Hwait i c)|by destruct (Hjoin i c)]; exfalso.
    - destruct (locked i c o (the_profiler s)) as [[l' o'] p'] eqn:E.
      eapply (Hno i c Locked l' o' p' Hi); [cbn; by rewrite E| |by left].
      destruct (Hkeeps c Locked l') as [?|?]; auto.
    - destruct (inlined i c o (the_profiler s)) as [[l' o'] p'] eqn:E.
      eapply (Hno i c (Inlining []) l' o' p' Hi); [cbn; by rewrite E| |by left].
      destruct (Hkeeps c (Inlining []) l') as [?|?]; auto.
    - eapply (Hno i c (Inlining (ms :: bs)) _ _ _ Hi); [done| |by left]. destruct (Hkeeps c (Inlining (ms :: bs)) (Inlining bs)) as [?|?]; auto. }
  assert (Hm : modules_owner s = None).
  { destruct (modules_owner s) as [i|] eqn:E; [|done]. apply (ok_modules s Hok) in E as ([c l] & Hi & Hh). by rewrite (Hlocked i c l Hi) in Hh. }
  (* nobody holds definitions_ids *)
  assert (Hplace : ∀ i c l, calls s !! i = Some (c, l) → l = Entering ∨ l = Detached ∨ l = Returned).
  { intros i c l Hi. pose proof (Hlocked i c l Hi) as Hh. destruct l; auto; try done; exfalso.
    - destruct (advance i c Checking false o (the_profiler s)) as [[[l' o'] p']|] eqn:E; [|cbn in E; by destruct (call_id c)].
      eapply (Hno i c Checking l' o' p' Hi E); [|by right; right]. destruct (Hkeeps c Checking l') as [?|?]; auto.
    - eapply (Hno i c Locking Locked o _ Hi); [done| |by right; right]. destruct (Hkeeps c Locking Locked) as [?|?]; auto.
    - by destruct (Hwait i c). }
  assert (Hd : definitions_owner s = None).
  { destruct (definitions_owner s) as [i|] eqn:E; [|done]. apply (ok_definitions s Hok) in E as ([c l] & Hi & Hh).
    unfold holds_definitions in Hh. apply andb_prop in Hh as [_ Hh]. by destruct (Hplace i c l Hi) as [-> |[-> | ->]]. }
  intros i c l Hi. destruct (Hplace i c l Hi) as [-> |[-> | ->]]; [exfalso..|done].
  - destruct (advance i c Entering false o (the_profiler s)) as [[[l' o'] p']|] eqn:E.
    + by eapply (Hno i c Entering l' o' p' Hi E); right; right.
    + cbn in E. destruct c; done.
  - by eapply (Hno i c Detached _ _ _ Hi); [|right; right..].
Qed.

Lemma own_steps_reachable s s' : rtc prompt_step s s' → rtc step s s'.
Proof.
  intros Hs. induction Hs as [|s s1 s' [(i & Ha)|(n & Ha)] _ IH]; [done|..]; (eapply rtc_l; [by eexists|done]).
Qed.

(** C10: From every state that can be reached, every schedule of the calls made so far and of the worker
    ends, after at most as many steps as [remaining] says; and where it ends every call has
    returned, also when no wait was cut short by its timeout.  The two mutexes, the waits under them
    and the join of the worker never block each other. *)
Theorem rejit_calls_return s :
  rtc step rejit_init s →
  (∀ n s', nsteps own_step n s s' → (n ≤ remaining s)%nat) ∧
  ∀ s', rtc prompt_step s s' → (∀ s'', ¬ prompt_step s' s'') → ∀ i c l, calls s' !! i = Some (c, l) → l = Returned.
Proof.
  intros Hs. pose proof (reachable_ok _ _ rejit_init_ok Hs) as Hok. split.
  - clear Hs Hok. intros n. revert s. induction n as [|n IH]; intros s s' Hn; [lia|]. inversion Hn as [|? ? s1 ? H1 H2]; subst.
    apply rejit_step_decreases in H1. apply IH in H2. lia.
  - intros s' Hs' Hend. eapply quiet_ended; [|done]. eapply reachable_ok; [done|by apply own_steps_reachable].
Qed.
End Rejit.

(** ** Instances: a module that is loaded before and one that is loaded while an integration is
    registered, and a shutdown that waits for both *)

Definition example_actions : list (action (D := Z)) :=
  [Call 0 (ModuleLoadFinished 7 [[(9, 3)]] true); Advance 0 false; Advance 0 false; Advance 0 false; Advance 0 false;
   Advance 0 false;
   Call 1 (RegisterCallTargetDefinitions [65] [5; 6]); Advance 1 false; Advance 1 false;
   Call 2 (ModuleLoadFinished 8 [] true); Advance 1 false; Advance 2 false; Advance 1 false;
   Call 3 Shutdown; Advance 2 false; Advance 2 false; Advance 2 false;
   Worker 1; Advance 2 true; Worker 1; Worker 0; Worker 2].

Definition example_state : rejit_state := default rejit_init (run example_actions rejit_init).

(** The wait of the registration is over, the shutdown joins the worker. *)
Definition example_shutdown_actions : list (action (D := Z)) :=
  [Worker 0; Worker 0; Advance 1 false; Advance 3 false; Advance 3 false; Advance 3 false; Advance 3 false;
   Advance 3 false; Worker 0; Advance 3 false].
Definition example_shutdown : rejit_state := default rejit_init (run example_shutdown_actions example_state).

Lemma example_reached : rtc step rejit_init example_state.
Proof. apply (run_steps example_actions). by vm_compute. Qed.

Lemma example_shutdown_reached : rtc step rejit_init example_shutdown.
Proof. etransitivity; [apply example_reached|]. apply (run_steps example_shutdown_actions). by vm_compute. Qed.

Lemma rejit_requests_processed_witness :
  rtc step rejit_init example_shutdown ∧ rejit_handler (the_profiler example_shutdown) = false ∧
  executed (the_offloader example_shutdown) =
    [RequestRejit [9] [3]; RequestRejitForLoadedModules [7] [5; 6]; RequestRejitForLoadedModules [8] [5; 6]] ∧
  ∃ w, w ∈ executed (the_offloader example_shutdown) ∧ covers 8 6 w.
Proof.
  split; [exact example_shutdown_reached|]. split; [by vm_compute|]. split; [by vm_compute|].
  destruct (rejit_requests_processed example_shutdown example_shutdown_reached) as (_ & _ & _ & _ & H).
  destruct (H ltac:(by vm_compute) example_shutdown ltac:(done)) as (_ & _ & Hc).
  apply Hc; vm_compute; [right; left|right; left].
Defined.

Lemma rejit_calls_return_witness :
  rtc step rejit_init example_state ∧ remaining example_state = 12%nat ∧
  (∃ s', rtc prompt_step example_state s') ∧
  ∀ n s', nsteps own_step n example_state s' → (n ≤ 12)%nat.
Proof.
  split; [exact example_reached|]. split; [by vm_compute|]. split; [by exists example_state|].
  destruct (rejit_calls_return example_state example_reached) as [H _].
  assert (E : remaining example_state = 12%nat) by by vm_compute. rewrite E in H. exact H.
Defined.
