(* ===== verification/ClrHelpers.v ===== *)
(** * Queries on metadata (clr_helpers.cpp and .h, integration.h, util.cpp)

    What the preprocessor of ReJIT requests asks of a module: its functions and types, with the
    chain of base types, the names of the types of a method's parameters, its references, and the
    definitions of types by name.  The interfaces of the runtime on one module are the record
    [metadata]; a query that fails is [None], an enumeration is the list of the batches it
    delivers. *)

From stdpp Require Import pretty.
From S2P Require Import Prelude Utf CorSig Signature TypeNames.

(** ** The interfaces *)

(** Names are what the runtime leaves in the caller's buffer, with the length that it reports. *)
Record metadata := {
  GetMemberRefProps : Z → option (Z * list Z * Z * (list Z * nat)); (* parent, name, its length, signature *)
  GetMemberProps : Z → option (Z * list Z * Z * (list Z * nat) * Z); (* and the implementation flags *)
  GetMethodSpecProps : Z → option (Z * (list Z * nat));
  GetTypeDefProps : Z → option (list Z * Z * Z); (* name, its length, base type *)
  GetNestedClassProps : Z → option Z;
  GetTypeRefProps : Z → option (Z * list Z * Z); (* scope, name, its length *)
  GetTypeSpecFromToken : Z → option (list Z * nat);
  FindTypeDefByName_query : list Z → Z → option Z; (* name, enclosing type *)
  EnumTypeDefs : list (list Z);
  EnumInterfaceImpls : Z → list (list Z);
  GetInterfaceImplProps : Z → option (Z * Z); (* class, interface *)
  EnumMethods : Z → list (list Z);
  EnumMethodsWithName : Z → list Z → list (list Z);
  GetAssemblyFromScope : option Z;
  GetAssemblyProps : Z → option (list Z * Z * (Z * Z * Z * Z)); (* name, its length, version *)
  EnumAssemblyRefs : list (list Z);
  GetAssemblyRefProps : Z → option (list Z * Z * (Z * Z * Z * Z));
}.

(** ** Versions (integration.h): the revision takes no part in the order *)

Abbreviation Version := (Z * Z * Z * Z)%type.

Definition Version_lt (this other : Version) : bool :=
  let '(major, minor, build, revision) := this in
  let '(major', minor', build', revision') := other in
  bool_decide (major < major') ||
  bool_decide (major = major' ∧ minor < minor') ||
  bool_decide (major = major' ∧ minor = minor' ∧ build < build').
Definition Version_gt (this other : Version) : bool := Version_lt other this.
Definition Version_le (this other : Version) : bool := negb (Version_gt this other).
Definition Version_ge (this other : Version) : bool := negb (Version_lt this other).

(** ** Enumerations *)

Definition kEnumeratorMax : nat := 256.

(** An enumerator is identified by [enumerator_]; [ptr] is its position, kept here since no two
    iterators of one enumerator are in use at once. *)
Record EnumeratorIterator := {
  enumerator_ : nat;
  batches : list (list Z);
  ptr : nat;
  status_ : Z;
  arr_ : list Z;
  idx_ : nat;
  sz_ : Z;
}.

Definition S_OK : Z := 0.
Definition S_FALSE : Z := 1.

(** [Enumerator::Next]: a batch, or S_FALSE behind the last one. *)
Definition Next (batches : list (list Z)) (ptr : nat) : Z * list Z :=
  match batches !! ptr with Some items => (S_OK, items) | None => (S_FALSE, []) end.

(** The call of Next in the constructor and in the increment. *)
Definition load (e : nat) (batches : list (list Z)) (ptr : nat) : EnumeratorIterator :=
  let '(hr, items) := Next batches ptr in
  {| enumerator_ := e; batches := batches; ptr := S ptr;
     status_ := if decide (hr = S_OK ∧ length items = 0%nat) then S_FALSE else hr;
     arr_ := items; idx_ := 0; sz_ := Z.of_nat (length items) |}.

Definition begin (e : nat) (batches : list (list Z)) : EnumeratorIterator := load e batches 0.
Definition end_ (e : nat) (batches : list (list Z)) : EnumeratorIterator :=
  {| enumerator_ := e; batches := batches; ptr := 0; status_ := S_FALSE; arr_ := []; idx_ := 0; sz_ := 0 |}.

(** [operator!=], [operator*], [operator++] *)
Definition differs (i j : EnumeratorIterator) : bool :=
  bool_decide (enumerator_ i ≠ enumerator_ j) ||
  negb (Bool.eqb (bool_decide (status_ i = S_OK)) (bool_decide (status_ j = S_OK))).
Definition current (i : EnumeratorIterator) : option Z := arr_ i !! idx_ i.
Definition increment (i : EnumeratorIterator) : EnumeratorIterator :=
  if decide (Z.of_nat (idx_ i) < u32 (sz_ i - 1)) then
    {| enumerator_ := enumerator_ i; batches := batches i; ptr := ptr i; status_ := status_ i; arr_ := arr_ i;
       idx_ := S (idx_ i); sz_ := sz_ i |}
  else load (enumerator_ i) (batches i) (ptr i).

(** [for (; it != end; it = ++it)] with a body that only looks at the element: the elements in
    their order.  The loops of the program that do so recurse over this list. *)
Fixpoint enumerate (fuel : nat) (i stop : EnumeratorIterator) : outcome unit (list Z) :=
  if differs i stop then
    match fuel with
    | O => Fuel
    | S fuel =>
        x ← of_option (current i);
        xs ← enumerate fuel (increment i) stop;
        mret (x :: xs)
    end
  else mret [].

Definition elements (batches : list (list Z)) : outcome unit (list Z) :=
  enumerate (S (length (concat batches))) (begin 0 batches) (end_ 0 batches).

(** ** Functions and types *)

Inductive TypeInfo := Build_TypeInfo {
  TypeInfo_id : Z;
  TypeInfo_name : list Z;
  type_spec : Z;
  token_type : Z;
  extend_from : option TypeInfo;
  valueType : bool;
  isGeneric : bool;
  parent_type : option TypeInfo;
  scopeToken : Z;
}.

Definition no_type : TypeInfo := {|
  TypeInfo_id := 0; TypeInfo_name := []; type_spec := 0; token_type := 0; extend_from := None; valueType := false;
  isGeneric := false; parent_type := None; scopeToken := 0;
|}.

Record FunctionInfo := {
  FunctionInfo_id : Z;
  FunctionInfo_name : list Z;
  FunctionInfo_type : TypeInfo;
  method_signature : list Z * nat;
  method_impl_flags : Z;
}.
Definition no_function : FunctionInfo := {|
  FunctionInfo_id := 0; FunctionInfo_name := []; FunctionInfo_type := no_type; method_signature := ([], 0%nat);
  method_impl_flags := 0;
|}.
Definition FunctionInfo_IsValid (f : FunctionInfo) : bool := bool_decide (FunctionInfo_id f ≠ 0).

Definition mdTypeSpecNil : Z := mdtTypeSpec.

(** [WSTRING::rfind], the last position of a code unit. *)
Fixpoint rfind (c : Z) (s : list Z) : option nat :=
  match s with
  | [] => None
  | x :: s => match rfind c s with Some i => Some (S i) | None => if decide (x = c) then Some 0%nat else None end
  end.

(** A grave accent with one or two digits behind it, at the end. *)
Definition generic_name (name : list Z) : bool :=
  match rfind 96 name with
  | Some generic_token_index =>
      let idxFromRight := (length name - generic_token_index - 1)%nat in
      bool_decide (idxFromRight = 1%nat ∨ idxFromRight = 2%nat)
  | None => false
  end.

Section Info.
Context (metadata_import : metadata).

(** [fuel] bounds the chain of enclosing types, base types, generic types and members.  The loop
    over the specifications of generic instances is [GetTypeInfo_from]: [token] is what it looks
    at, [outer_type_spec] and [processed] are its variables. *)
Fixpoint GetFunctionInfo (fuel : nat) (token : Z) : outcome unit FunctionInfo :=
  match fuel with
  | O => Fuel
  | S fuel =>
      let finish parent_token name name_len signature flags :=
        if decide (name_len = 0) then mret no_function
        else
          type_info ← GetTypeInfo_from fuel parent_token mdTypeSpecNil [];
          mret {| FunctionInfo_id := token; FunctionInfo_name := until_nul name; FunctionInfo_type := type_info;
                  method_signature := signature; method_impl_flags := flags |} in
      let token_type := TypeFromToken token in
      if decide (token_type = mdtMemberRef) then
        match GetMemberRefProps metadata_import token with
        | None => mret no_function
        | Some (parent_token, name, name_len, signature) => finish parent_token name name_len signature 0
        end
      else if decide (token_type = mdtMethodDef) then
        match GetMemberProps metadata_import token with
        | None => mret no_function
        | Some (parent_token, name, name_len, signature, flags) => finish parent_token name name_len signature flags
        end
      else if decide (token_type = mdtMethodSpec) then
        match GetMethodSpecProps metadata_import token with
        | None => mret no_function
        | Some (parent_token, signature) =>
            generic_info ← GetFunctionInfo fuel parent_token;
            finish parent_token (FunctionInfo_name generic_info)
              (Z.of_nat (length (FunctionInfo_name generic_info)) + 1) signature (method_impl_flags generic_info)
        end
      else mret no_function
  end
with GetTypeInfo_from (fuel : nat) (token outer_type_spec : Z) (processed : list Z) : outcome unit TypeInfo :=
  match fuel with
  | O => Fuel
  | S fuel =>
      let finish extendsInfo type_valueType parentTypeInfo parent_token type_name type_name_len :=
        if decide (type_name_len = 0) then mret no_type
        else
          mret {| TypeInfo_id := token; TypeInfo_name := until_nul type_name; type_spec := outer_type_spec;
                  token_type := if decide (outer_type_spec ≠ mdTypeSpecNil) then mdtTypeSpec else TypeFromToken token;
                  extend_from := extendsInfo; valueType := type_valueType; isGeneric := generic_name (until_nul type_name);
                  parent_type := parentTypeInfo; scopeToken := parent_token |} in
      let token_type := TypeFromToken token in
      if decide (token = mdTokenNil) then mret no_type
      else if decide (token_type = mdtTypeDef) then
        let p := GetTypeDefProps metadata_import token in
        let parent_type_token := default mdTokenNil (GetNestedClassProps metadata_import token) in
        parentTypeInfo ←
          (if decide (parent_type_token ≠ mdTokenNil)
           then Some <$> GetTypeInfo_from fuel parent_type_token mdTypeSpecNil [] else mret None);
        let type_extends := match p with Some (_, _, type_extends) => type_extends | None => mdTokenNil end in
        extendsInfo ←
          (if decide (type_extends ≠ mdTokenNil)
           then Some <$> GetTypeInfo_from fuel type_extends mdTypeSpecNil [] else mret None);
        let type_valueType :=
          match extendsInfo with
          | Some e => bool_decide (TypeInfo_name e = WStr "System.ValueType" ∨ TypeInfo_name e = WStr "System.Enum")
          | None => false
          end in
        match p with
        | None => mret no_type
        | Some (type_name, type_name_len, _) => finish extendsInfo type_valueType parentTypeInfo mdTokenNil type_name type_name_len
        end
      else if decide (token_type = mdtTypeRef) then
        match GetTypeRefProps metadata_import token with
        | None => mret no_type
        | Some (parent_token, type_name, type_name_len) => finish None false None parent_token type_name type_name_len
        end
      else if decide (token_type = mdtTypeSpec) then
        match GetTypeSpecFromToken metadata_import token with
        | None => mret no_type
        | Some (signature, signature_length) =>
            if decide (signature_length < 3)%nat then mret no_type
            else
              s0 ← byte_at signature 0;
              if decide (Z.land s0 ELEMENT_TYPE_GENERICINST ≠ 0) then
                if decide (token ∈ processed) then mret no_type
                else
                  type_token ← match CorSigUncompressToken (drop 2 signature) with
                               | Err _ => mret (TokenFromRid 0 mdtTypeDef)
                               | r => fst <$> r
                               end;
                  GetTypeInfo_from fuel type_token
                    (if decide (outer_type_spec = mdTypeSpecNil) then token else outer_type_spec) (token :: processed)
              else mret no_type (* type_name_len is 0 *)
        end
      else if decide (token_type = mdtMemberRef ∨ token_type = mdtMethodDef) then
        FunctionInfo_type <$> GetFunctionInfo fuel token
      else mret no_type (* hr is an error or type_name_len is 0 *)
  end.

Definition GetTypeInfo (fuel : nat) (token : Z) : outcome unit TypeInfo := GetTypeInfo_from fuel token mdTypeSpecNil [].

(** ** Names of types in signatures *)

Section Names.
Context (pb : list Z) (type_fuel : nat).

(** [for (ULONG i = 0; i < num; i++)]: [n] iterations are left. *)
Fixpoint type_arguments (argument : C (list Z)) (n : nat) (tokenName : list Z) : C (list Z) :=
  match n with
  | O => mret tokenName
  | S n =>
      name ← argument;
      let tokenName := tokenName ++ name in
      type_arguments argument n (match n with O => tokenName | S _ => tokenName ++ WStr "," end)
  end.

Definition lift_outcome {A} (r : outcome unit A) : C A :=
  match r with Ret a => mret a | Err e => throw e | Stuck => stuck | Fuel => out_of_fuel end.

(** The switch on the element type; [self] is the recursive call. *)
Definition element_type_name (self : C (list Z)) : C (list Z) :=
  b ← peek pb;
  match simple_type_name b with
  | Some name => advance;; mret name
  | None =>
      if decide (b = ELEMENT_TYPE_CLASS ∨ b = ELEMENT_TYPE_VALUETYPE) then
        advance;;
        token ← uncompress CorSigUncompressToken pb;
        type_info ← lift_outcome (GetTypeInfo type_fuel token);
        mret (TypeInfo_name type_info)
      else if decide (b = ELEMENT_TYPE_SZARRAY) then
        advance;;
        name ← self;
        mret (name ++ WStr "[]")
      else if decide (b = ELEMENT_TYPE_GENERICINST) then
        advance;;
        name ← self;
        num ← uncompress CorSigUncompressData_unchecked pb;
        name ← type_arguments self (Z.to_nat num) (name ++ WStr "[");
        mret (name ++ WStr "]")
      else if decide (b = ELEMENT_TYPE_MVAR) then
        advance;;
        num ← uncompress CorSigUncompressData_unchecked pb;
        mret (WStr "!!" ++ WStr (pretty num))
      else if decide (b = ELEMENT_TYPE_VAR) then
        advance;;
        num ← uncompress CorSigUncompressData_unchecked pb;
        mret (WStr "!" ++ WStr (pretty num))
      else mret [] (* the cursor stays *)
  end.

(** [fuel] bounds the nesting of types. *)
Fixpoint GetSigTypeTokName (fuel : nat) : C (list Z) :=
  match fuel with
  | O => out_of_fuel
  | S fuel =>
      b ← peek pb;
      ref_flag ← (if decide (b = ELEMENT_TYPE_BYREF) then advance;; mret true else mret false);
      b ← peek pb;
      pointer_flag ← (if decide (b = ELEMENT_TYPE_PTR) then advance;; mret true else mret false);
      tokenName ← element_type_name (GetSigTypeTokName fuel);
      let tokenName := if ref_flag : bool then tokenName ++ WStr "&" else tokenName in
      mret (if pointer_flag : bool then tokenName ++ WStr "*" else tokenName)
  end.

Definition GetTypeTokName (t : TypeSignature) : outcome unit (list Z) := (GetSigTypeTokName (S (length pb)) (offset t)).1.
End Names.

(** ** Assemblies *)

Record AssemblyMetadata := { AssemblyMetadata_name : list Z; AssemblyMetadata_version : Version }.
Definition no_assembly : AssemblyMetadata := {| AssemblyMetadata_name := []; AssemblyMetadata_version := (0, 0, 0, 0) |}.

Definition assembly_metadata (p : option (list Z * Z * Version)) : AssemblyMetadata :=
  match p with
  | None => no_assembly
  | Some (name, name_len, version) =>
      if decide (name_len = 0) then no_assembly
      else {| AssemblyMetadata_name := until_nul name; AssemblyMetadata_version := version |}
  end.

Definition GetAssemblyImportMetadata : AssemblyMetadata :=
  match GetAssemblyFromScope metadata_import with
  | None => no_assembly
  | Some current => assembly_metadata (GetAssemblyProps metadata_import current)
  end.

Definition GetReferencedAssemblyMetadata (assembly_ref : Z) : AssemblyMetadata :=
  assembly_metadata (GetAssemblyRefProps metadata_import assembly_ref).
End Info.

(** ** Types by name *)

(** [Split], from the part that begins at the last delimiter. *)
Fixpoint Split_from (part s : list Z) (delim : Z) : list (list Z) :=
  match s with
  | [] => [part]
  | c :: s => if decide (c = delim) then part :: Split_from [] s delim else Split_from (part ++ [c]) s delim
  end.
Definition Split (s : list Z) (delim : Z) : list (list Z) := Split_from [] s delim.

(** The loop over the parts of the name; 43 is the plus sign. *)
Fixpoint find_nested (metadata_import : metadata) (nameParts : list (list Z)) (parentTypeDef : Z) : option Z :=
  match nameParts with
  | [] => Some parentTypeDef
  | namePart :: nameParts =>
      match FindTypeDefByName_query metadata_import namePart parentTypeDef with
      | None => None
      | Some parentTypeDef => find_nested metadata_import nameParts parentTypeDef
      end
  end.

Definition mdTypeDefNil : Z := mdtTypeDef.

Definition FindTypeDefByName (metadata_import : metadata) (instrumentationTargetMethodTypeName : list Z) : option Z :=
  find_nested metadata_import (Split instrumentationTargetMethodTypeName 43) mdTypeDefNil.

(** ** Modules *)

(** [GetModuleInfo2], [GetAssemblyInfo] and [GetAppDomainInfo] of the profiling interface. *)
Record module_queries := {
  GetModuleInfo2 : Z → option (Z * Z * Z); (* length of the path, assembly, flags *)
  GetAssemblyInfo_query : Z → option (list Z * Z * Z); (* name, its length, application domain *)
  GetAppDomainInfo : Z → option Z; (* length of the name *)
}.

Record ModuleInfo := {
  ModuleInfo_id : Z;
  assembly_name : list Z;
  ModuleInfo_app_domain_id : Z;
  flags : Z;
}.
Definition no_module : ModuleInfo := {| ModuleInfo_id := 0; assembly_name := []; ModuleInfo_app_domain_id := 0; flags := 0 |}.

(** The name and the application domain of [AssemblyInfo]. *)
Definition GetAssemblyInfo (info : module_queries) (assembly_id : Z) : list Z * Z :=
  match GetAssemblyInfo_query info assembly_id with
  | None => ([], 0)
  | Some (name, name_len, app_domain_id) =>
      if decide (name_len = 0) then ([], 0)
      else
        match GetAppDomainInfo info app_domain_id with
        | None => ([], 0)
        | Some app_domain_name_len => if decide (app_domain_name_len = 0) then ([], 0) else (until_nul name, app_domain_id)
        end
  end.

Definition GetModuleInfo (info : module_queries) (module_id : Z) : ModuleInfo :=
  match GetModuleInfo2 info module_id with
  | None => no_module
  | Some (module_path_len, assembly_id, module_flags) =>
      if decide (module_path_len = 0) then no_module
      else
        let '(name, app_domain_id) := GetAssemblyInfo info assembly_id in
        {| ModuleInfo_id := module_id; assembly_name := name; ModuleInfo_app_domain_id := app_domain_id; flags := module_flags |}
  end.

(** ** Enumerations deliver their batches *)

(** What [EnumX] promises: a batch that is reported with S_OK has elements, as many as asked for at
    most. *)
Definition batches_ok (b : list (list Z)) : Prop := Forall (λ items, items ≠ [] ∧ (length items ≤ kEnumeratorMax)%nat) b.

(** The iterator is before the elements [l]. *)
Definition before (e : nat) (b : list (list Z)) (i : EnumeratorIterator) (l : list Z) : Prop :=
  enumerator_ i = e ∧ batches i = b ∧
  match l with
  | [] => status_ i ≠ S_OK
  | _ => status_ i = S_OK ∧ (idx_ i < length (arr_ i) ≤ kEnumeratorMax)%nat ∧ sz_ i = Z.of_nat (length (arr_ i)) ∧
         drop (idx_ i) (arr_ i) ++ concat (drop (ptr i) b) = l
  end.

Lemma load_before e b p : batches_ok b → before e b (load e b p) (concat (drop p b)).
Proof.
  intros Hb. unfold load, Next. destruct (b !! p) as [items|] eqn:E.
  - destruct (proj1 (Forall_lookup _ _) Hb p items E) as [Hi Hl]. rewrite (drop_S _ _ _ E). cbn [concat].
    destruct items as [|x items]; [done|]. rewrite decide_False by (intros [_ ?]; done). split_and!; [done|done|]. cbn in *. split_and!; (done || lia).
  - rewrite drop_ge by (by apply lookup_ge_None). cbn. rewrite decide_False by (by intros [? _]). done.
Qed.

Lemma begin_before e b : batches_ok b → before e b (begin e b) (concat b).
Proof. apply (load_before e b 0). Qed.

Lemma current_before e b i x l : before e b i (x :: l) → current i = Some x.
Proof.
  intros (_ & _ & _ & Hi & _ & E). unfold current. destruct (arr_ i !! idx_ i) as [y|] eqn:Ey.
  - rewrite (drop_S _ _ _ Ey) in E. by injection E as -> _.
  - apply lookup_ge_None in Ey. lia.
Qed.

Lemma increment_before e b i x l : batches_ok b → before e b i (x :: l) → before e b (increment i) l.
Proof.
  intros Hb Hi. pose proof (current_before _ _ _ _ _ Hi) as Hx. destruct Hi as (He & Eb & Hs & Hlt & Hsz & E).
  unfold current in Hx. rewrite (drop_S _ _ _ Hx) in E. injection E as E. unfold increment, kEnumeratorMax in *.
  rewrite Hsz, wrap_small by lia. case_decide as Hd.
  - split_and!; try done. destruct l as [|y l]; [|unfold kEnumeratorMax; cbn; split_and!; try done; lia].
    apply app_nil in E as [E _]. apply (f_equal length) in E. rewrite length_drop in E. cbn in E. lia.
  - rewrite drop_ge in E by lia. cbn in E. rewrite <-E, He, Eb. by apply load_before.
Qed.

Lemma differs_end e b i l b' : before e b i l → differs i (end_ e b') = bool_decide (l ≠ []).
Proof.
  intros (He & _ & H). unfold differs. cbn. rewrite He, bool_decide_eq_false_2 by (by intros []).
  rewrite (bool_decide_eq_false_2 (S_FALSE = S_OK)) by done.
  destruct l; [by rewrite bool_decide_eq_false_2|]. destruct H as [-> _]. done.
Qed.

Lemma differs_other e b i l j : before e b i l → enumerator_ j ≠ e → differs i j = true.
Proof. intros (He & _) Hj. unfold differs. by rewrite bool_decide_eq_true_2 by congruence. Qed.

Lemma enumerate_before e b i l fuel :
  batches_ok b → before e b i l → (length l < fuel)%nat → enumerate fuel i (end_ e b) = Ret l.
Proof.
  intros Hb. revert i l. induction fuel as [|fuel IH]; intros i l Hi Hl; [lia|]. cbn [enumerate].
  rewrite (differs_end _ _ _ _ _ Hi). destruct l as [|x l]; [done|]. rewrite bool_decide_eq_true_2 by done.
  rewrite (current_before _ _ _ _ _ Hi). cbn [of_option mbind outcome_bind].
  rewrite (IH _ l); [done| |simpl in Hl; lia]. by eapply increment_before.
Qed.

Lemma elements_batches b : batches_ok b → elements b = Ret (concat b).
Proof. intros Hb. apply (enumerate_before 0 b); [done|by apply begin_before|lia]. Qed.

(** ** Splitting *)

Definition join (delim : Z) : list (list Z) → list Z :=
  fix join parts := match parts with [] => [] | [p] => p | p :: parts => p ++ delim :: join parts end.

Lemma Split_from_spec part s delim :
  delim ∉ part → Forall (λ p, delim ∉ p) (Split_from part s delim) ∧ join delim (Split_from part s delim) = part ++ s.
Proof.
  revert part. induction s as [|c s IH]; intros part Hp; cbn [Split_from].
  - split; [by apply Forall_singleton|]. by rewrite app_nil_r.
  - case_decide as Hc.
    + destruct (IH [] (not_elem_of_nil _)) as [H1 H2]. split; [by apply Forall_cons|]. cbn in H2. rewrite <-H2 at 2. subst c.
      by destruct (Split_from [] s delim) eqn:E; [destruct s; cbn in E; [|case_decide]|].
    + destruct (IH (part ++ [c])) as [H1 H2]; [rewrite elem_of_app, list_elem_of_singleton; intros [?|?]; [done|by subst c]|].
      split; [done|]. by rewrite H2, <-app_assoc.
Qed.

Lemma Split_from_plain part p delim : delim ∉ p → Split_from part p delim = [part ++ p].
Proof.
  revert part. induction p as [|c p IH]; intros part Hp; cbn [Split_from]; [by rewrite app_nil_r|].
  apply not_elem_of_cons in Hp as [Hc Hp]. rewrite decide_False by congruence. by rewrite IH, <-app_assoc.
Qed.

Lemma Split_from_delim part p s delim : delim ∉ p → Split_from part (p ++ delim :: s) delim = (part ++ p) :: Split_from [] s delim.
Proof.
  revert part. induction p as [|c p IH]; intros part Hp; cbn [Split_from app].
  - by rewrite decide_True, app_nil_r.
  - apply not_elem_of_cons in Hp as [Hc Hp]. rewrite decide_False by congruence. by rewrite IH, <-app_assoc.
Qed.

(** Splitting undoes joining. *)
Lemma Split_join delim parts : parts ≠ [] → Forall (λ p, delim ∉ p) parts → Split (join delim parts) delim = parts.
Proof.
  intros Hne Hp. induction Hp as [|p parts Hp Hps IH]; [done|]. unfold Split in *. destruct parts as [|q parts].
  - cbn. by rewrite Split_from_plain.
  - cbn [join]. rewrite Split_from_delim by done. f_equal. by apply IH.
Qed.

Lemma Split_parts delim s : Forall (λ p, delim ∉ p) (Split s delim) ∧ join delim (Split s delim) = s.
Proof. apply (Split_from_spec [] s delim), not_elem_of_nil. Qed.

(** ** Versions *)

Lemma Version_le_iff v w :
  Version_le v w = true ↔
  let '(a, b, c, _) := v in let '(a', b', c', _) := w in a < a' ∨ a = a' ∧ (b < b' ∨ b = b' ∧ c ≤ c').
Proof.
  destruct v as [[[a b] c] d], w as [[[a' b'] c'] d']. unfold Version_le, Version_gt, Version_lt.
  rewrite negb_true_iff, !orb_false_iff, !bool_decide_eq_false. lia.
Qed.

Lemma Version_ge_le v w : Version_ge v w = Version_le w v.
Proof. done. Qed.

Lemma Version_lt_le v w : Version_lt v w = negb (Version_le w v).
Proof. unfold Version_le, Version_gt. by rewrite negb_involutive. Qed.

(** ** Types and functions are looked up in bounded time *)

(** The tokens looked up on the way. *)
Definition leads_to (M : metadata) (token token' : Z) : Prop :=
  let t := TypeFromToken token in
  (t = mdtMemberRef ∧ ∃ name len sig, GetMemberRefProps M token = Some (token', name, len, sig)) ∨
  (t = mdtMethodDef ∧ ∃ name len sig flags, GetMemberProps M token = Some (token', name, len, sig, flags)) ∨
  (t = mdtMethodSpec ∧ ∃ sig, GetMethodSpecProps M token = Some (token', sig)) ∨
  (t = mdtTypeDef ∧ GetNestedClassProps M token = Some token' ∧ token' ≠ mdTokenNil) ∨
  (t = mdtTypeDef ∧ ∃ name len, GetTypeDefProps M token = Some (name, len, token') ∧ token' ≠ mdTokenNil) ∨
  (t = mdtTypeSpec ∧ ∃ sig len, GetTypeSpecFromToken M token = Some (sig, len) ∧
     (CorSigUncompressToken (drop 2 sig) = Err tt ∧ token' = TokenFromRid 0 mdtTypeDef ∨
      ∃ cb, CorSigUncompressToken (drop 2 sig) = Ret (token', cb))).

(** The signatures of type specifications are as long as reported, and what they name is inside. *)
Definition specs_readable (M : metadata) : Prop := ∀ token sig len,
  GetTypeSpecFromToken M token = Some (sig, len) → (3 ≤ len)%nat →
  is_Some (sig !! 0%nat) ∧ CorSigUncompressToken (drop 2 sig) ≠ Stuck.

Section Chains.
Context (M : metadata) (rank : Z → nat).
Context (Hrank : ∀ t t', leads_to M t t' → (rank t' < rank t)%nat) (Hspecs : specs_readable M).

Definition returns {A} (r : outcome unit A) : Prop := ∃ a, r = Ret a.

Lemma returns_bind {A B} (r : outcome unit A) (f : A → outcome unit B) :
  returns r → (∀ a, returns (f a)) → returns (r ≫= f).
Proof. intros [a ->] Hf. apply Hf. Qed.

Lemma returns_ret {A} (a : A) : returns (mret a).
Proof. by exists a. Qed.

Lemma returns_fmap {A B} (f : A → B) (r : outcome unit A) : returns r → returns (f <$> r).
Proof. intros [a ->]. by eexists. Qed.

Lemma info_returns fuel :
  (∀ t, (2 * rank t < fuel)%nat → returns (GetFunctionInfo M fuel t)) ∧
  (∀ t outer processed, (2 * rank t + 1 < fuel)%nat → returns (GetTypeInfo_from M fuel t outer processed)).
Proof using All.
  induction fuel as [|fuel [IHf IHt]]; [split; intros; lia|]. split.
  - intros t Hf. cbn [GetFunctionInfo].
    assert (Hfinish : ∀ p name len sig flags, leads_to M t p → returns
      (if decide (len = 0) then mret no_function
       else type_info ← GetTypeInfo_from M fuel p mdTypeSpecNil [];
            mret {| FunctionInfo_id := t; FunctionInfo_name := until_nul name; FunctionInfo_type := type_info;
                    method_signature := sig; method_impl_flags := flags |})).
    { intros p name len sig flags Hp%Hrank. case_decide; [apply returns_ret|].
      apply returns_bind; [apply IHt; lia|intros; apply returns_ret]. }
    case_decide as Hm.
    { destruct (GetMemberRefProps M t) as [[[[p name] len] sig]|] eqn:E; [|apply returns_ret]. apply Hfinish. left. eauto 6. }
    case_decide as Hd.
    { destruct (GetMemberProps M t) as [[[[[p name] len] sig] flags]|] eqn:E; [|apply returns_ret]. apply Hfinish. right; left. eauto 8. }
    case_decide as Hs; [|apply returns_ret].
    destruct (GetMethodSpecProps M t) as [[p sig]|] eqn:E; [|apply returns_ret].
    assert (Hp : leads_to M t p) by (do 2 right; left; eauto). pose proof (Hrank _ _ Hp).
    apply returns_bind; [apply IHf; lia|]. intros g. by apply Hfinish.
  - intros t outer processed Hf. cbn [GetTypeInfo_from]. case_decide; [apply returns_ret|].
    case_decide as Hd.
    { apply returns_bind.
      - case_decide as Hp; [|apply returns_ret]. destruct (GetNestedClassProps M t) as [p|] eqn:E; [|done]. cbn in Hp |- *.
        assert (leads_to M t p) as Hl%Hrank by (do 3 right; left; eauto). apply returns_fmap, IHt. lia.
      - intros parent. apply returns_bind.
        + case_decide as Hp; [|apply returns_ret]. destruct (GetTypeDefProps M t) as [[[name len] p]|] eqn:E; [|done].
          assert (leads_to M t p) as Hl%Hrank by (do 4 right; left; eauto 6). apply returns_fmap, IHt. lia.
        + intros e. destruct (GetTypeDefProps M t) as [[[name len] p]|]; [|apply returns_ret]. case_decide; apply returns_ret. }
    case_decide as Hr.
    { destruct (GetTypeRefProps M t) as [[[scope name] len]|]; [|apply returns_ret]. case_decide; apply returns_ret. }
    case_decide as Hs.
    { destruct (GetTypeSpecFromToken M t) as [[sig len]|] eqn:E; [|apply returns_ret]. case_decide; [apply returns_ret|].
      destruct (Hspecs t sig len E) as [[s0 Hs0] Hu]; [lia|]. unfold byte_at. rewrite Hs0. cbn [of_option mbind outcome_bind].
      case_decide; [|apply returns_ret]. case_decide; [apply returns_ret|].
      destruct (CorSigUncompressToken (drop 2 sig)) as [[p cb]|[]| |] eqn:Eu; cbn [mbind outcome_bind fmap outcome_fmap fst mret outcome_ret].
      - assert (leads_to M t p) as Hl%Hrank by (do 5 right; split; [done|]; eauto 8). apply IHt. lia.
      - assert (leads_to M t (TokenFromRid 0 mdtTypeDef)) as Hl%Hrank by (do 5 right; split; [done|]; eauto 8). apply IHt. lia.
      - done.
      - by apply CorSigUncompressToken_settles in Eu. }
    case_decide; [|apply returns_ret]. apply returns_fmap, IHf. lia.
Qed.

(** Over metadata in which following parents, enclosing types, base types and the definitions of
    generic types descends, functions and types are looked up. *)
Lemma GetFunctionInfo_returns fuel t : (2 * rank t < fuel)%nat → returns (GetFunctionInfo M fuel t).
Proof using All. apply info_returns. Qed.

Lemma GetTypeInfo_returns fuel t : (2 * rank t + 1 < fuel)%nat → returns (GetTypeInfo M fuel t).
Proof using All. apply info_returns. Qed.
End Chains.
