(* ===== verification/ClrNames.v ===== *)
(** * The types of parameters have names (clr_helpers.cpp)

    On the types of [ClrSignatures] [GetTypeTokName] returns, and reads nothing behind the type. *)

From stdpp Require Import pretty.
From S2P Require Import Prelude CorSig Signature ClrSignatures TypeNames ClrHelpers.

Lemma simple_type_name_some b : b ∈ simple_types → is_Some (simple_type_name b).
Proof.
  intros Hb. unfold simple_types in Hb. apply list_elem_of_lookup in Hb as [i Hi].
  repeat (destruct i as [|i]; [injection Hi as <-; by eexists|]). done.
Qed.

Section Names.
Context (md : metadata) (pb : list Z) (type_fuel : nat) (Hinfo : ∀ t, returns (GetTypeInfo md type_fuel t)).

Abbreviation name_of := (GetSigTypeTokName md pb type_fuel).

(** Wherever [w] is, [m] returns, behind it. *)
Definition passes (m : C (list Z)) (w : list Z) : Prop := ∀ c, at_cursor pb c w → ∃ name, m c = (Ret name, c + length w)%nat.

Lemma passes_arguments m n args acc c :
  many (passes m) n args → at_cursor pb c args → ∃ name, type_arguments m n acc c = (Ret name, c + length args)%nat.
Proof.
  intros Hm. revert acc c. induction Hm as [|n w ws Hw _ IH]; intros acc c Hc; cbn [type_arguments].
  - exists acc. unfold mret, stM_ret. f_equal. cbn. lia.
  - apply at_cursor_app in Hc as [H1 H2]. destruct (Hw c H1) as (name & E).
    destruct (IH (match n with O => acc ++ name | S _ => (acc ++ name) ++ WStr "," end) _ H2) as (name' & E').
    exists name'. run_by (exact E). rewrite E', length_app. f_equal. lia.
Qed.

Lemma passes_number b bs n prefix c :
  number_sig bs n → Forall (λ b, is_byte b) bs → at_cursor pb c (b :: bs) →
  ∃ name, (advance;; num ← uncompress CorSigUncompressData_unchecked pb; mret (WStr prefix ++ WStr (pretty num))) c = (Ret name, c + S (length bs))%nat.
Proof.
  intros Hn Hb Hc. apply at_cursor_cons in Hc as [_ Hc]. eexists. run_by (done).
  run_by (apply (uncompress_run pb CorSigUncompressData_unchecked (S c) bs n); [done|intros post; by apply number_uncompressed]).
  unfold mret, stM_ret. f_equal. lia.
Qed.

Lemma passes_element fuel w :
  clr_type w → Forall (λ b, is_byte b) w →
  (∀ w', clr_type w' → Forall (λ b, is_byte b) w' → (length w' < length w)%nat → passes (name_of fuel) w') →
  passes (element_type_name md pb type_fuel (name_of fuel)) w.
Proof using All.
  intros Hw Hb IH c Hc. unfold element_type_name.
  destruct Hw as [b Hs|b bs n Hk Hn|b bs n Hk Hn|bs Hbs|b tok tk num n args Hk Htok Hnum Hargs];
    pose proof (at_cursor_cons _ _ _ _ Hc) as [Hpeek Hc1]; run_by (exact Hpeek); apply Forall_cons in Hb as [_ Hb].
  - destruct (simple_type_name_some b Hs) as (name & ->). exists name. run_by (done). unfold mret, stM_ret. f_equal. cbn. lia.
  - assert (simple_type_name b = None) as -> by (by destruct Hk as [->| ->]). rewrite decide_True by done. run_by (done).
    destruct (token_uncompressed bs n Hb Hn) as [tk Htk]. run_by (by apply (uncompress_run pb CorSigUncompressToken (S c) bs tk)). destruct (Hinfo tk) as (i & ->). exists (TypeInfo_name i). run_by (done). unfold mret, stM_ret. f_equal. cbn. lia.
  - assert (simple_type_name b = None) as -> by (by destruct Hk as [->| ->]).
    destruct Hk as [->| ->]; other_types; rewrite decide_True by done; by eapply passes_number.
  - change (simple_type_name ELEMENT_TYPE_SZARRAY) with (@None (list Z)). cbv iota. other_types. rewrite decide_True by done. run_by (done).
    destruct (IH bs Hbs Hb) with (c := S c) as (name & E); [cbn; lia|done|]. run_by (exact E). eexists.
    unfold mret, stM_ret. f_equal. cbn. lia.
  - assert (Hparts := Hb). apply Forall_cons in Hparts as [Hkb Hparts]. rewrite !Forall_app in Hparts. destruct Hparts as (Hb1 & Hb2 & Hb3).
    change (simple_type_name ELEMENT_TYPE_GENERICINST) with (@None (list Z)). cbv iota. other_types. rewrite decide_True by done. run_by (done).
    rewrite app_comm_cons in Hc1. destruct (at_cursor_app _ _ _ _ Hc1) as [H1 H23]. destruct (at_cursor_app _ _ _ _ H23) as [H2 H3].
    destruct (IH (b :: tok) ltac:(by eapply clr_token)) with (c := S c) as (name & E); [by apply Forall_cons|cbn; rewrite !length_app; lia|done|].
    run_by (exact E). run_by (apply (uncompress_run pb CorSigUncompressData_unchecked _ num n); [exact H2|intros post; by apply number_uncompressed]).
    destruct (passes_arguments (name_of fuel) (Z.to_nat n) args (name ++ WStr "[") (S c + length (b :: tok) + length num)) as (all & E3); [|done|].
    + eapply many_mono; [|by apply (many_parts clr_type _ _ (length args))]. cbv beta. intros w' (Hw' & Hb' & Hl'). apply IH; [done..|].
      cbn. rewrite !length_app. pose proof (number_sig_nonempty _ _ Hnum). lia.
    + run_by (exact E3). eexists. unfold mret, stM_ret. f_equal. cbn. rewrite !length_app. lia.
Qed.

Lemma type_head_at c t b rest : t = b :: rest → at_cursor pb c t → peek pb c = (Ret b, c).
Proof. by intros -> [? _]%at_cursor_cons. Qed.

Lemma passes_type n w : clr_type w → Forall (λ b, is_byte b) w → (length w ≤ n)%nat → passes (name_of n) w.
Proof using All.
  revert w. induction n as [|n IH]; intros w Hw Hb Hl c Hc; destruct (clr_type_head w Hw) as (b & rest & E & Hh).
  { subst w. cbn in Hl. lia. }
  destruct (type_head_not b Hh) as (N1 & _ & _ & N2 & _). cbn [GetSigTypeTokName].
  destruct (passes_element n w Hw Hb) with (c := c) as (name & Er); [intros w' Hw' Hb' Hl'; apply IH; [done..|lia]|done|].
  exists name. pose proof (type_head_at c w b rest E Hc) as Hp.
  run_by (exact Hp). rewrite decide_False by done. run_by (done). run_by (exact Hp). rewrite decide_False by done. run_by (done).
  run_by (exact Er). done.
Qed.

Lemma pointed_returns n t c :
  clr_type t ∨ t = [ELEMENT_TYPE_VOID] → Forall (λ b, is_byte b) t → (length t ≤ n)%nat → at_cursor pb c t →
  ∃ name c', element_type_name md pb type_fuel (name_of n) c = (Ret name, c').
Proof using All.
  intros [Ht| ->] Hb Hl Hc.
  - destruct (passes_element n t Ht Hb) with (c := c) as (name & E); [intros; apply passes_type; [done..|lia]|done|by eauto].
  - exists [], c. unfold element_type_name. run_by (by eapply type_head_at). done.
Qed.

(** A parameter has a name wherever it is. *)
Lemma GetTypeTokName_returns t :
  clr_param (take (length_ t) (drop (offset t) pb)) → returns (GetTypeTokName md pb type_fuel t).
Proof using All.
  set (w := take _ _). intros (Hb & r & p & ty & Ew & Hr & Hpt). unfold GetTypeTokName. set (c := offset t).
  assert (Hc : at_cursor pb c w) by (exists (drop (length_ t) (drop c pb)); unfold w, c; symmetry; apply take_drop).
  assert (Hl : (length w ≤ length pb)%nat) by (unfold w; rewrite length_take, length_drop; lia).
  rewrite Ew in *. rewrite !Forall_app in Hb. destruct Hb as (_ & _ & Hb). rewrite !length_app in Hl.
  assert (Ht : clr_type ty ∨ ty = [ELEMENT_TYPE_VOID]) by tauto.
  assert (∃ b rest, ty = b :: rest ∧ b ≠ ELEMENT_TYPE_BYREF ∧ b ≠ ELEMENT_TYPE_PTR) as (b & rest & E & N1 & N2).
  { destruct Ht as [Ht| ->]; [|by exists ELEMENT_TYPE_VOID, []]. destruct (clr_type_head ty Ht) as (b & rest & E & Hh).
    exists b, rest. by destruct (type_head_not b Hh) as (? & _ & _ & ? & _). }
  apply at_cursor_app in Hc as [Hc1 Hc2]. apply at_cursor_app in Hc2 as [Hc2 Hc3].
  destruct (pointed_returns (length pb) ty (c + length r + length p)) as (name & c' & Er); [done|done|lia|done|].
  pose proof (type_head_at _ ty b rest E Hc3) as Hp. assert (Hpb : p = [] ∨ p = [ELEMENT_TYPE_PTR]) by tauto. cbn [GetSigTypeTokName].
  assert (∃ s, name_of (S (length pb)) c = (Ret s, c')) as (s & Hs).
  { cbn [GetSigTypeTokName]. destruct Hr as [->| ->], Hpb as [->| ->]; cbn [length] in *; rewrite ?Nat.add_0_r, ?Nat.add_1_r in *.
    - eexists. run_by (exact Hp). rewrite decide_False by done. run_by (done). run_by (exact Hp). rewrite decide_False by done.
      run_by (done). run_by (exact Er). done.
    - pose proof (at_cursor_cons _ _ _ _ Hc2) as [H2 _]. eexists. run_by (exact H2). rewrite decide_False by done. run_by (done).
      run_by (exact H2). rewrite decide_True by done. run_by (done). run_by (exact Er). done.
    - pose proof (at_cursor_cons _ _ _ _ Hc1) as [H1 _]. eexists. run_by (exact H1). rewrite decide_True by done. run_by (done).
      run_by (exact Hp). rewrite decide_False by done. run_by (done). run_by (exact Er). done.
    - pose proof (at_cursor_cons _ _ _ _ Hc1) as [H1 _]. pose proof (at_cursor_cons _ _ _ _ Hc2) as [H2 _].
      eexists. run_by (exact H1). rewrite decide_True by done. run_by (done).
      run_by (exact H2). rewrite decide_True by done. run_by (done). run_by (exact Er). done. }
  exists s. cbn [GetSigTypeTokName] in Hs. by rewrite Hs.
Qed.
End Names.
