(* ===== verification/Integrations.v ===== *)
(** * Integration definitions (tracer_integration_definition.h and .cpp, integration.h and .cpp,
    cor_profiler.cpp)

    A definition says which methods to instrument: those of a name and signature in a type of an
    assembly, in its derived types or in its implementations.  Definitions come from the managed
    side as arrays of structures, or are parsed from the configuration of traced methods.

    The main results: the configuration is parsed into exactly the methods it lists, type by type,
    what is not a type with a list of methods in brackets being skipped; and of an array exactly the valid
    elements are taken over. *)

From S2P Require Import Prelude Utf TypeNames ClrHelpers.

(** ** References *)

(** [GetNameFromAssemblyReferenceString]: up to the first comma, then up to the last space; 44 and
    32 are their codes. *)
Fixpoint find_char (c : Z) (s : list Z) : option nat :=
  match s with
  | [] => None
  | x :: s => if decide (x = c) then Some 0%nat else S <$> find_char c s
  end.

Definition GetNameFromAssemblyReferenceString (wstr : list Z) : list Z :=
  let name := match find_char 44 wstr with Some pos => take pos wstr | None => wstr end in
  match rfind 32 name with Some pos => take pos name | None => name end.

(** The name of the assembly; its version, culture and key are not used here. *)
Record TypeReference := {
  TypeReference_assembly : list Z;
  TypeReference_name : list Z;
  min_version : Version;
  max_version : Version;
}.

Definition TypeReference_new (assembly_name type_name : list Z) (min max : Version) : TypeReference := {|
  TypeReference_assembly := GetNameFromAssemblyReferenceString assembly_name; TypeReference_name := type_name;
  min_version := min; max_version := max;
|}.

Record MethodReference := {
  MethodReference_type : TypeReference;
  method_name : list Z;
  signature_types : list (list Z);
}.

(** ** Definitions *)

Record IntegrationDefinition := {
  target_method : MethodReference;
  integration_type : TypeReference;
  is_derived : bool;
  is_interface : bool;
  is_exact_signature_match : bool;
  categories : Z;
  enabled_categories : Z;
}.

Definition IntegrationDefinition_new (target_method : MethodReference) (integration_type : TypeReference)
    (isDerived isInterface is_exact_signature_match : bool) (categories enabledCategories : Z) : IntegrationDefinition := {|
  target_method := target_method; integration_type := integration_type; is_derived := isDerived; is_interface := isInterface;
  is_exact_signature_match := is_exact_signature_match; categories := categories;
  enabled_categories := Z.land categories enabledCategories;
|}.

(** The default arguments of the constructor. *)
Definition default_categories : Z := 1.
Definition all_categories : Z := u32 (-1).

Definition GetEnabled (d : IntegrationDefinition) : bool := bool_decide (enabled_categories d ≠ 0).

Definition Update (other d : IntegrationDefinition) : IntegrationDefinition := {|
  target_method := target_method d; integration_type := integration_type d; is_derived := is_derived d;
  is_interface := is_interface d; is_exact_signature_match := is_exact_signature_match d; categories := categories d;
  enabled_categories := enabled_categories other;
|}.

Definition tracemethodintegration_assemblyname : list Z := WStr "#TraceMethodFeature".
Definition tracemethodintegration_wildcardmethodname : list Z := WStr "*".
Definition tracemethodintegration_wildcard_ignored_methods : list (list Z) :=
  [WStr ".ctor"; WStr ".cctor"; WStr "Equals"; WStr "Finalize"; WStr "GetHashCode"; WStr "ToString"].
Definition tracemethodintegration_setterprefix : list Z := WStr "set_".
Definition tracemethodintegration_getterprefix : list Z := WStr "get_".

Definition USHRT_MAX : Z := 65535.

(** ** The configuration of traced methods *)

(** [find_first_of] from a position; 91 and 93 are the brackets, 59 the semicolon, 44 the comma. *)
Definition find_first_of (c : Z) (s : list Z) (from : nat) : option nat := (λ i, (from + i)%nat) <$> find_char c (drop from s).

(** The names between the brackets, and where the first bracket is. *)
Definition bracketed (trace_method_type : list Z) : option (nat * list Z) :=
  match find_first_of 91 trace_method_type 0 with
  | None => None
  | Some firstOpenBracket =>
      match find_first_of 93 trace_method_type (firstOpenBracket + 1) with
      | None => None
      | Some firstCloseBracket =>
          if match find_first_of 91 trace_method_type (firstOpenBracket + 1) with
             | None => true
             | Some secondOpenBracket => bool_decide (firstCloseBracket < secondOpenBracket)%nat
             end
          then Some (firstOpenBracket, take (firstCloseBracket - firstOpenBracket - 1) (drop (firstOpenBracket + 1) trace_method_type))
          else None
      end
  end.

Definition trace_definition (integration_type : TypeReference) (type_name method_definition : list Z) : IntegrationDefinition :=
  IntegrationDefinition_new
    {| MethodReference_type := TypeReference_new tracemethodintegration_assemblyname type_name (0, 0, 0, 0)
                                 (USHRT_MAX, USHRT_MAX, USHRT_MAX, USHRT_MAX);
       method_name := method_definition; signature_types := [] |}
    integration_type false false false default_categories all_categories.

(** The body of the loop over the types. *)
Definition trace_method_type_definitions (integration_type : TypeReference) (trace_method_type : list Z) : list IntegrationDefinition :=
  match bracketed trace_method_type with
  | None => []
  | Some (firstOpenBracket, method_definitions) =>
      if decide (method_definitions = []) then []
      else trace_definition integration_type (take firstOpenBracket trace_method_type) <$> Split method_definitions 44
  end.

Definition GetIntegrationsFromTraceMethodsConfiguration (integration_type : TypeReference) (configuration_string : list Z) :
    list IntegrationDefinition :=
  concat (trace_method_type_definitions integration_type <$> Split configuration_string 59).

(** ** Arrays of definitions *)

(** [CallTargetDefinition] and [CallTargetDefinition2]; a string is [None] if the pointer is null.
    The first has no kind and no categories. *)
Record CallTargetDefinition := {
  targetAssembly : option (list Z);
  targetType : option (list Z);
  targetMethod : option (list Z);
  signatureTypes : option (list (option (list Z)));
  signatureTypesLength : nat;
  targetMinimum : Z * Z * Z;
  targetMaximum : Z * Z * Z;
  integrationAssembly : option (list Z);
  integrationType : option (list Z);
  kind : Z;
  definition_categories : Z;
}.

Definition KindDefault : Z := 0.
Definition KindDerived : Z := 1.
Definition KindInterface : Z := 2.

(** The signature types that are not null. *)
Definition read_signature_types (current : CallTargetDefinition) : outcome unit (list (list Z)) :=
  match signatureTypesLength current with
  | O => mret []
  | n =>
      types ← of_option (signatureTypes current);
      if decide (n ≤ length types)%nat then mret (omap id (take n types)) else Stuck
  end.

(** A definition from an element; a null string is read. *)
Definition read_definition (current : CallTargetDefinition) (isDerived isInterface : bool) (categories enabledCategories : Z) :
    outcome unit IntegrationDefinition :=
  targetAssembly ← of_option (targetAssembly current);
  targetType ← of_option (targetType current);
  targetMethod ← of_option (targetMethod current);
  integrationAssembly ← of_option (integrationAssembly current);
  integrationType ← of_option (integrationType current);
  signatureTypes ← read_signature_types current;
  let '(a, b, c) := targetMinimum current in
  let '(a', b', c') := targetMaximum current in
  mret (IntegrationDefinition_new
    {| MethodReference_type := TypeReference_new targetAssembly targetType (a, b, c, 0) (a', b', c', 0);
       method_name := targetMethod; signature_types := signatureTypes |}
    (TypeReference_new integrationAssembly integrationType (0, 0, 0, 0) (0, 0, 0, 0))
    isDerived isInterface true categories enabledCategories).

(** The loop of [InternalAddInstrumentation]. *)
Fixpoint InternalAddInstrumentation_definitions (items : list CallTargetDefinition) (isDerived isInterface : bool) :
    outcome unit (list IntegrationDefinition) :=
  match items with
  | [] => mret []
  | current :: items =>
      integration ← read_definition current isDerived isInterface default_categories all_categories;
      integrations ← InternalAddInstrumentation_definitions items isDerived isInterface;
      mret (integration :: integrations)
  end.

(** The check of [RegisterCallTargetDefinitions]. *)
Definition valid_definition (current : CallTargetDefinition) : bool :=
  bool_decide (is_Some (targetAssembly current)) && bool_decide (is_Some (targetType current)) &&
  bool_decide (is_Some (targetMethod current)) && bool_decide (is_Some (integrationAssembly current)) &&
  bool_decide (is_Some (integrationType current)) &&
  negb (bool_decide (0 < signatureTypesLength current)%nat && bool_decide (signatureTypes current = None)) &&
  bool_decide (definition_categories current ≠ 0) && bool_decide (kind current ∈ [KindDefault; KindDerived; KindInterface]).

Fixpoint RegisterCallTargetDefinitions_definitions (items : list CallTargetDefinition) (enabledCategories : Z) :
    outcome unit (list IntegrationDefinition) :=
  match items with
  | [] => mret []
  | current :: items =>
      if valid_definition current then
        integration ← read_definition current (bool_decide (kind current = KindDerived))
                        (bool_decide (kind current = KindInterface)) (definition_categories current) enabledCategories;
        integrations ← RegisterCallTargetDefinitions_definitions items enabledCategories;
        mret (integration :: integrations)
      else RegisterCallTargetDefinitions_definitions items enabledCategories
  end.

(** ** Searching *)

Lemma find_char_app c s t : c ∉ s → find_char c (s ++ c :: t) = Some (length s).
Proof.
  induction s as [|x s IH]; cbn; [by rewrite decide_True|]. intros [Hx Hs]%not_elem_of_cons.
  rewrite decide_False by congruence. by rewrite IH.
Qed.

Lemma find_char_None c s : find_char c s = None ↔ c ∉ s.
Proof.
  induction s as [|x s IH]; cbn; [split; [intros _; apply not_elem_of_nil|done]|]. rewrite not_elem_of_cons. case_decide.
  - split; [done|]. intros [? _]. congruence.
  - destruct (find_char c s); cbn; split; try done; [intros [_ ?%IH]; done|]. intros _. split; [congruence|by apply IH].
Qed.

Lemma find_char_Some c s i : find_char c s = Some i → ∃ s1 s2, s = s1 ++ c :: s2 ∧ c ∉ s1 ∧ i = length s1.
Proof.
  revert i. induction s as [|x s IH]; intros i; cbn; [done|]. case_decide as Hx.
  - intros [= <-]. exists [], s. subst x. split_and!; try done. apply not_elem_of_nil.
  - intros H. apply fmap_Some in H as (j & Hj & ->). destruct (IH j Hj) as (s1 & s2 & -> & Hs & ->). exists (x :: s1), s2.
    split_and!; try done. apply not_elem_of_cons. by split.
Qed.

(** ** The form of an entry *)

(** A type, an opening bracket, a list of methods without brackets, a closing bracket, anything. *)
Definition entry (p ty ms rest : list Z) : Prop := p = ty ++ 91 :: ms ++ 93 :: rest ∧ 91 ∉ ty ∧ 91 ∉ ms ∧ 93 ∉ ms.

Lemma drop_entry (ty t : list Z) c : drop (length ty + 1) (ty ++ c :: t) = t.
Proof. rewrite <-drop_drop, drop_app_length. done. Qed.

Lemma entry_bracketed p ty ms rest : entry p ty ms rest → bracketed p = Some (length ty, ms).
Proof.
  intros (-> & Hty & Hms1 & Hms2). unfold bracketed, find_first_of. rewrite drop_0, find_char_app by done.
  cbn [fmap option_fmap option_map]. rewrite Nat.add_0_l, drop_entry, find_char_app by done. cbn [fmap option_fmap option_map].
  assert (Hsecond : match (λ i, (length ty + 1 + i)%nat) <$> find_char 91 (ms ++ 93 :: rest) with
    | Some second => bool_decide (length ty + 1 + length ms < second)%nat | None => true end = true).
  { destruct (find_char 91 (ms ++ 93 :: rest)) as [i|] eqn:E; [|done]. cbn. apply bool_decide_eq_true_2.
    apply find_char_Some in E as (s1 & s2 & E & Hs1 & ->). destruct (decide (length ms < length s1)%nat); [lia|exfalso].
    assert (s1 `prefix_of` ms) as [k Hk].
    { exists (drop (length s1) ms). apply (f_equal (take (length s1))) in E. rewrite take_app_length, take_app_le in E by lia.
      rewrite <-E at 1. by rewrite take_drop. }
    subst ms. rewrite <-app_assoc in E. apply app_inv_head in E. destruct k as [|x k]; cbn in E; [by injection E as [=]|].
    injection E as -> E. apply Hms1, elem_of_app. right. by left. }
  rewrite Hsecond. f_equal. f_equal. replace (length ty + 1 + length ms - length ty - 1)%nat with (length ms) by lia.
  by rewrite take_app_length.
Qed.

Lemma bracketed_entry p n ms : bracketed p = Some (n, ms) → ∃ ty rest, entry p ty ms rest ∧ n = length ty.
Proof.
  unfold bracketed, find_first_of. rewrite drop_0. intros H.
  destruct (find_char 91 p) as [i|] eqn:E1; [|done]. cbn [fmap option_fmap option_map] in H. rewrite Nat.add_0_l in H.
  apply find_char_Some in E1 as (ty & t & -> & Hty & ->). rewrite drop_entry in H.
  destruct (find_char 93 t) as [i|] eqn:E2; [|done]. cbn [fmap option_fmap option_map] in H.
  apply find_char_Some in E2 as (ms' & rest & -> & Hms & ->).
  destruct (match _ with Some _ => _ | None => _ end) eqn:E3; [|done]. injection H as <- <-.
  replace (length ty + 1 + length ms' - length ty - 1)%nat with (length ms') by lia. rewrite take_app_length.
  exists ty, rest. split; [|done]. split_and!; try done. intros Hin.
  destruct (find_char 91 (ms' ++ 93 :: rest)) as [j|] eqn:E4.
  - cbn [fmap option_fmap option_map] in E3. apply bool_decide_eq_true in E3. apply list_elem_of_split in Hin as (l1 & l2 & ->).
    apply find_char_Some in E4 as (s1 & s2 & E4 & Hs1 & ->).
    assert (length l1 < length s1)%nat as Hlt by (rewrite length_app in E3; lia).
    apply (f_equal (lookup (length l1))) in E4. rewrite lookup_app_l in E4 by (rewrite length_app; cbn; lia).
    rewrite list_lookup_middle in E4 by done. rewrite lookup_app_l in E4 by done. symmetry in E4. by apply list_elem_of_lookup_2 in E4.
  - apply find_char_None in E4. apply E4, elem_of_app. by left.
Qed.

Lemma type_definitions_entry it p ty ms rest :
  entry p ty ms rest → ms ≠ [] → trace_method_type_definitions it p = trace_definition it ty <$> Split ms 44.
Proof.
  intros He Hms. unfold trace_method_type_definitions. rewrite (entry_bracketed _ _ _ _ He), decide_False by done.
  destruct He as (-> & _). by rewrite take_app_length.
Qed.

Lemma type_definitions_elem it p d :
  d ∈ trace_method_type_definitions it p ↔ ∃ ty ms rest m, entry p ty ms rest ∧ ms ≠ [] ∧ m ∈ Split ms 44 ∧ d = trace_definition it ty m.
Proof.
  split.
  - intros Hd. unfold trace_method_type_definitions in Hd. destruct (bracketed p) as [[n ms]|] eqn:E; [|by apply elem_of_nil in Hd].
    case_decide; [by apply elem_of_nil in Hd|]. apply list_elem_of_fmap in Hd as (m & -> & Hm).
    destruct (bracketed_entry _ _ _ E) as (ty & rest & He & ->). exists ty, ms, rest, m. split_and!; try done. f_equal.
    destruct He as (-> & _). by rewrite take_app_length.
  - intros (ty & ms & rest & m & He & Hms & Hm & ->). rewrite (type_definitions_entry _ _ _ _ _ He Hms). by apply list_elem_of_fmap_2.
Qed.

(** ** Printing a configuration *)

Definition print_entry : list Z * list (list Z) → list Z := λ '(ty, ms), ty ++ 91 :: join 44 ms ++ [93].
Definition print_configuration (l : list (list Z * list (list Z))) : list Z := join 59 (print_entry <$> l).

(** The names have none of the separators behind them, and there is a method. *)
Definition printable : list Z * list (list Z) → Prop := λ '(ty, ms),
  59 ∉ ty ∧ 91 ∉ ty ∧ ms ≠ [] ∧ join 44 ms ≠ [] ∧ Forall (λ m, 44 ∉ m ∧ 59 ∉ m ∧ 91 ∉ m ∧ 93 ∉ m) ms.

Lemma not_in_join c delim ms : c ≠ delim → Forall (λ m, c ∉ m) ms → c ∉ join delim ms.
Proof.
  intros Hc Hms. induction Hms as [|m ms Hm Hms IH]; [apply not_elem_of_nil|]. destruct ms as [|m' ms]; [done|].
  cbn [join] in *. rewrite not_elem_of_app, not_elem_of_cons. done.
Qed.

Definition listed (it : TypeReference) : list Z * list (list Z) → list IntegrationDefinition := λ '(ty, ms),
  trace_definition it ty <$> ms.

(** C40: The configuration of traced methods is parsed into the methods that its entries list: an entry
    is between semicolons and is a type, an opening bracket, the methods separated by commas, and a
    closing bracket, the first of each; every other part is skipped.  A configuration that is
    printed from a list of types and methods is parsed into that list, in order. *)
Theorem trace_methods_parsed it :
  (∀ s d, d ∈ GetIntegrationsFromTraceMethodsConfiguration it s ↔
     ∃ p ty ms rest m, p ∈ Split s 59 ∧ entry p ty ms rest ∧ ms ≠ [] ∧ m ∈ Split ms 44 ∧ d = trace_definition it ty m) ∧
  (∀ l : list (list Z * list (list Z)), l ≠ [] → Forall printable l →
     GetIntegrationsFromTraceMethodsConfiguration it (print_configuration l) =
     concat (listed it <$> l)).
Proof.
  split.
  - intros s d. unfold GetIntegrationsFromTraceMethodsConfiguration. rewrite list_elem_of_In, in_concat. split.
    + intros (ds & Hds & Hd). apply list_elem_of_In, list_elem_of_fmap in Hds as (p & -> & Hp).
      apply list_elem_of_In, type_definitions_elem in Hd as (ty & ms & rest & m & He & Hms & Hm & Hd). eauto 10.
    + intros (p & ty & ms & rest & m & Hp & He & Hms & Hm & ->). exists (trace_method_type_definitions it p). split.
      * apply list_elem_of_In. by apply list_elem_of_fmap_2.
      * apply list_elem_of_In, type_definitions_elem. eauto 10.
  - intros l Hne Hl. unfold GetIntegrationsFromTraceMethodsConfiguration, print_configuration. rewrite Split_join.
    + f_equal. rewrite <-list_fmap_compose. apply list_fmap_ext. intros i [ty ms] Hi.
      destruct (proj1 (Forall_lookup _ _) Hl _ _ Hi) as (_ & Hty & Hms & Hj & Hm). cbn.
      rewrite (type_definitions_entry it _ ty (join 44 ms) []).
      * rewrite Split_join; [done|done|]. eapply Forall_impl; [exact Hm|]. intros ?; cbn; tauto.
      * split_and!; try done; apply not_in_join; try done; (eapply Forall_impl; [exact Hm|]); intros ?; cbn; tauto.
      * done.
    + by destruct l.
    + apply Forall_fmap. eapply Forall_impl; [exact Hl|]. intros [ty ms] (Hty & _ & _ & _ & Hm). cbn.
      rewrite not_elem_of_app, not_elem_of_cons, not_elem_of_app, list_elem_of_singleton. split_and!; try done.
      apply not_in_join; [done|]. eapply Forall_impl; [exact Hm|]. intros ?; cbn; tauto.
Qed.

(** ** What is taken over from an array *)

(** The strings are there and the array of types is as long as it is said to be. *)
Definition complete (c : CallTargetDefinition) : Prop :=
  is_Some (targetAssembly c) ∧ is_Some (targetType c) ∧ is_Some (targetMethod c) ∧ is_Some (integrationAssembly c) ∧
  is_Some (integrationType c) ∧
  (signatureTypesLength c = 0%nat ∨ ∃ types, signatureTypes c = Some types ∧ (signatureTypesLength c ≤ length types)%nat).

(** The definition that such an element stands for. *)
Definition definition_of (c : CallTargetDefinition) (isDerived isInterface : bool) (categories enabledCategories : Z) : IntegrationDefinition :=
  let '(a, b, v) := targetMinimum c in
  let '(a', b', v') := targetMaximum c in
  IntegrationDefinition_new
    {| MethodReference_type := TypeReference_new (default [] (targetAssembly c)) (default [] (targetType c)) (a, b, v, 0) (a', b', v', 0);
       method_name := default [] (targetMethod c);
       signature_types := omap id (take (signatureTypesLength c) (default [] (signatureTypes c))) |}
    (TypeReference_new (default [] (integrationAssembly c)) (default [] (integrationType c)) (0, 0, 0, 0) (0, 0, 0, 0))
    isDerived isInterface true categories enabledCategories.

Lemma read_definition_complete c d i k e : complete c → read_definition c d i k e = Ret (definition_of c d i k e).
Proof.
  intros ([x1 E1] & [x2 E2] & [x3 E3] & [x4 E4] & [x5 E5] & Hs). unfold read_definition, definition_of.
  rewrite E1, E2, E3, E4, E5. cbn [of_option mbind outcome_bind default].
  assert (read_signature_types c = Ret (omap id (take (signatureTypesLength c) (default [] (signatureTypes c))))) as ->.
  { unfold read_signature_types. destruct Hs as [->|(types & -> & Hl)]; [done|]. destruct (signatureTypesLength c) as [|n]; [done|].
    cbn [of_option mbind outcome_bind]. by rewrite decide_True. }
  cbn [mbind outcome_bind]. by destruct (targetMinimum c) as [[??]?], (targetMaximum c) as [[??]?].
Qed.

(** Of the elements of an array those are taken over, in order, that name everything, are of a
    known kind and have a category; nothing is read behind a null pointer. *)
Theorem definitions_registered items enabledCategories :
  Forall (λ c, ∀ types, signatureTypes c = Some types → (signatureTypesLength c ≤ length types)%nat) items →
  RegisterCallTargetDefinitions_definitions items enabledCategories =
    Ret ((λ c, definition_of c (bool_decide (kind c = KindDerived)) (bool_decide (kind c = KindInterface))
                 (definition_categories c) enabledCategories) <$> filter (λ c, valid_definition c = true) items).
Proof.
  induction 1 as [|c items Hc _ IH]; [done|]. cbn [RegisterCallTargetDefinitions_definitions]. rewrite filter_cons.
  destruct (valid_definition c) eqn:Ev; [|by rewrite decide_False].
  rewrite decide_True by done. rewrite read_definition_complete.
  - cbn [mbind outcome_bind]. by rewrite IH.
  - unfold valid_definition in Ev. rewrite !andb_true_iff, !bool_decide_eq_true, negb_true_iff, andb_false_iff, !bool_decide_eq_false in Ev.
    destruct Ev as [[[[[[[H1 H2] H3] H4] H5] H6] H7] H8]. split_and!; try done.
    destruct (signatureTypesLength c) eqn:E; [by left|right]. destruct (signatureTypes c) as [types|] eqn:Et; [|destruct H6; [lia|done]].
    exists types. split; [done|]. by apply Hc.
Qed.

(** ** Instances: two types, one traced as a whole; a part that is no entry is skipped *)

Definition example_integration : TypeReference :=
  TypeReference_new (WStr "Lib, Version=1.0.0.0") (WStr "Integration") (0, 0, 0, 0) (0, 0, 0, 0).

Lemma trace_methods_parsed_witness :
  printable (WStr "A.B", [WStr "Run"; WStr "Stop"]) ∧
  GetIntegrationsFromTraceMethodsConfiguration example_integration (print_configuration [(WStr "A.B", [WStr "Run"; WStr "Stop"]); (WStr "C", [WStr "*"])]) =
    [trace_definition example_integration (WStr "A.B") (WStr "Run"); trace_definition example_integration (WStr "A.B") (WStr "Stop");
     trace_definition example_integration (WStr "C") (WStr "*")] ∧
  print_configuration [(WStr "A.B", [WStr "Run"; WStr "Stop"]); (WStr "C", [WStr "*"])] = WStr "A.B[Run,Stop];C[*]".
Proof.
  assert (H1 : printable (WStr "A.B", [WStr "Run"; WStr "Stop"])).
  { assert (H : ∀ c l, bool_decide (c ∈ l) = false → c ∉ (l : list Z)) by (intros c l; apply bool_decide_eq_false).
    split_and!; [apply H; vm_compute; reflexivity..|done|done|].
    apply Forall_cons; split; [|apply Forall_singleton]; split_and!; apply H; vm_compute; reflexivity. }
  split; [exact H1|]. split; [|reflexivity].
  refine (proj2 (trace_methods_parsed example_integration) [(WStr "A.B", [WStr "Run"; WStr "Stop"]); (WStr "C", [WStr "*"])] _ _); [done|].
  apply Forall_cons; split; [exact H1|]. apply Forall_singleton.
  assert (H : ∀ c l, bool_decide (c ∈ l) = false → c ∉ (l : list Z)) by (intros c l; apply bool_decide_eq_false).
  split_and!; [apply H; vm_compute; reflexivity..|done|done|].
  apply Forall_singleton. split_and!; apply H; vm_compute; reflexivity.
Defined.

Lemma skipped_part :
  GetIntegrationsFromTraceMethodsConfiguration example_integration (WStr "A;B[];C[Run;D[[X]];E[Go]") =
  [trace_definition example_integration (WStr "E") (WStr "Go")].
Proof. reflexivity. Qed.
