(* ===== verification/RejitModules.v ===== *)
(** * Modules and methods to be rewritten (rejit_handler.cpp, rejit_preprocessor.cpp,
    tracer_rejit_preprocessor.cpp, tracer_handler_module_method.cpp, function_control_wrapper.cpp)

    The preprocessor keeps a record of every module with methods to be rewritten, and of the methods
    with what their rewriting needs.  When the runtime compiles such a method again it asks the
    handler, which passes the method's body through the rewriters and hands the last version to the
    runtime.  The runtime's answers on images with inlined copies of a method are an argument.

    The main results: a method, once recorded, keeps its integration, later definitions only
    deciding whether it is enabled; the rewriters are asked in the order of their priorities, each
    sees the body that the one before it set, and the runtime is given a body once, if any of them
    has set one and none has failed. *)

From stdpp Require Import sorting.
From S2P Require Import Prelude ClrHelpers Integrations.

(** ** Methods *)

(** [TracerRejitHandlerModuleMethod]; the pointers to the function and to the rewriter may be
    null. *)
Record RejitHandlerModuleMethod := {
  m_methodDef : Z;
  m_functionInfo : option FunctionInfo;
  m_integrationDefinition : IntegrationDefinition;
  m_methodRewriter : bool;
}.

Record ModuleMetadata := {
  assemblyName : list Z;
  app_domain_id : Z;
}.

Record RejitHandlerModule := {
  m_moduleId : Z;
  m_metadata : option ModuleMetadata;
  m_methods : gmap Z RejitHandlerModuleMethod;
  m_ngenProcessedInlinerModules : list Z;
}.

Definition RejitHandlerModule_new (moduleId : Z) : RejitHandlerModule :=
  {| m_moduleId := moduleId; m_metadata := None; m_methods := ∅; m_ngenProcessedInlinerModules := [] |}.

Definition SetModuleMetadata (md : ModuleMetadata) (m : RejitHandlerModule) : RejitHandlerModule :=
  {| m_moduleId := m_moduleId m; m_metadata := Some md; m_methods := m_methods m;
     m_ngenProcessedInlinerModules := m_ngenProcessedInlinerModules m |}.

Definition ContainsMethod (methodDef : Z) (m : RejitHandlerModule) : bool := bool_decide (is_Some (m_methods m !! methodDef)).

(** [TryGetMethod]; [None] is [false]. *)
Definition TryGetMethod (methodDef : Z) (m : RejitHandlerModule) : option RejitHandlerModuleMethod := m_methods m !! methodDef.

Definition CreateMethodIfNotExists (methodDef : Z) (creator : Z → RejitHandlerModuleMethod)
    (updater : RejitHandlerModuleMethod → RejitHandlerModuleMethod) (m : RejitHandlerModule) : bool * RejitHandlerModule :=
  let set method := {| m_moduleId := m_moduleId m; m_metadata := m_metadata m; m_methods := <[methodDef := method]> (m_methods m);
                       m_ngenProcessedInlinerModules := m_ngenProcessedInlinerModules m |} in
  match m_methods m !! methodDef with
  | Some method => (false, set (updater method))
  | None => (true, set (updater (creator methodDef)))
  end.

(** [TracerRejitPreprocessor::CreateMethod] and [UpdateMethod]. *)
Definition CreateMethod (functionInfo : FunctionInfo) (definition : IntegrationDefinition) (methodDef : Z) : RejitHandlerModuleMethod :=
  {| m_methodDef := methodDef; m_functionInfo := Some functionInfo; m_integrationDefinition := definition; m_methodRewriter := true |}.
Definition UpdateMethod (definition : IntegrationDefinition) (method : RejitHandlerModuleMethod) : RejitHandlerModuleMethod :=
  {| m_methodDef := m_methodDef method; m_functionInfo := m_functionInfo method;
     m_integrationDefinition := Update definition (m_integrationDefinition method); m_methodRewriter := m_methodRewriter method |}.

(** ** The preprocessor

    [shutdown] is [IsShutdownRequested] of the handler.  A pointer to a module is its id. *)
Record RejitPreprocessor := {
  m_modules : gmap Z RejitHandlerModule;
  m_ngenInlinersModules : list Z;
}.

Definition RejitPreprocessor_new : RejitPreprocessor := {| m_modules := ∅; m_ngenInlinersModules := [] |}.

Definition with_module (moduleId : Z) (m : RejitHandlerModule) (p : RejitPreprocessor) : RejitPreprocessor :=
  {| m_modules := <[moduleId := m]> (m_modules p); m_ngenInlinersModules := m_ngenInlinersModules p |}.

Definition Preprocessor_Shutdown (p : RejitPreprocessor) : RejitPreprocessor := RejitPreprocessor_new.

(** The module, or [None] for the null pointer. *)
Definition GetOrAddModule (shutdown : bool) (moduleId : Z) (p : RejitPreprocessor) : option RejitHandlerModule * RejitPreprocessor :=
  if shutdown then (None, p)
  else
    match m_modules p !! moduleId with
    | Some m => (Some m, p)
    | None => let m := RejitHandlerModule_new moduleId in (Some m, with_module moduleId m p)
    end.

Definition HasModuleAndMethod (shutdown : bool) (moduleId methodDef : Z) (p : RejitPreprocessor) : bool :=
  if shutdown then false
  else match m_modules p !! moduleId with Some m => ContainsMethod methodDef m | None => false end.

Definition RemoveModule (shutdown : bool) (moduleId : Z) (p : RejitPreprocessor) : RejitPreprocessor :=
  if shutdown then p
  else {| m_modules := delete moduleId (m_modules p); m_ngenInlinersModules := filter (λ m, m ≠ moduleId) (m_ngenInlinersModules p) |}.

(** ** Inlined copies in native images *)

Definition E_INVALIDARG : Z := sgn 32 0x80070057.
Definition CORPROF_E_DATAINCOMPLETE : Z := sgn 32 0x80131351.

Section Inliners.
(** [EnumNgenModuleMethodsInliningThisMethod] for an image, a module and a method: its HRESULT,
    the methods that inline, whether the data are incomplete.  [None]: the handler has no
    interface.  And the order in which a hash map is visited. *)
Context (EnumInliners : option (Z → Z → Z → Z * list (Z * Z) * bool)).
Context (visit : ∀ A, gmap Z A → list (Z * A)).

(** The result, and the methods to be requested, if there are any. *)
Definition method_RequestRejitForInlinersInModule (moduleId currentModuleId : Z) (method : RejitHandlerModuleMethod) :
    bool * list (list (Z * Z)) :=
  match EnumInliners with
  | None => (false, [])
  | Some f =>
      let '(hr, methods, incompleteData) := f moduleId currentModuleId (m_methodDef method) in
      if decide (0 ≤ hr) then (negb incompleteData, if decide (methods = []) then [] else [methods])
      else if decide (hr = E_INVALIDARG) then (true, [])
      else (bool_decide (hr ≠ CORPROF_E_DATAINCOMPLETE), [])
  end.

(** The loop over the methods, which stops at the first failure. *)
Fixpoint methods_RequestRejitForInliners (moduleId currentModuleId : Z) (methods : list (Z * RejitHandlerModuleMethod)) :
    bool * list (list (Z * Z)) :=
  match methods with
  | [] => (true, [])
  | (_, method) :: methods =>
      let '(success, requests) := method_RequestRejitForInlinersInModule moduleId currentModuleId method in
      if success then
        let '(success, requests') := methods_RequestRejitForInliners moduleId currentModuleId methods in
        (success, requests ++ requests')
      else (false, requests)
  end.

Definition module_RequestRejitForInlinersInModule (moduleId : Z) (m : RejitHandlerModule) : RejitHandlerModule * list (list (Z * Z)) :=
  if bool_decide (moduleId ∈ m_ngenProcessedInlinerModules m) then (m, [])
  else
    let '(success, requests) := methods_RequestRejitForInliners moduleId (m_moduleId m) (visit _ (m_methods m)) in
    (if success then
       {| m_moduleId := m_moduleId m; m_metadata := m_metadata m; m_methods := m_methods m;
          m_ngenProcessedInlinerModules := m_ngenProcessedInlinerModules m ++ [moduleId] |}
     else m, requests).

(** [for (const auto& mod : m_modules)] *)
Fixpoint modules_RequestRejitForInliners (moduleInliner : Z) (ids : list Z) (p : RejitPreprocessor) :
    RejitPreprocessor * list (list (Z * Z)) :=
  match ids with
  | [] => (p, [])
  | id :: ids =>
      match m_modules p !! id with
      | None => modules_RequestRejitForInliners moduleInliner ids p
      | Some m =>
          let '(m, requests) := module_RequestRejitForInlinersInModule moduleInliner m in
          let '(p, requests') := modules_RequestRejitForInliners moduleInliner ids (with_module id m p) in
          (p, requests ++ requests')
      end
  end.

Definition all_modules_RequestRejitForInliners (moduleInliner : Z) (p : RejitPreprocessor) : RejitPreprocessor * list (list (Z * Z)) :=
  modules_RequestRejitForInliners moduleInliner (fst <$> visit _ (m_modules p)) p.

Fixpoint inliners_RequestRejit (moduleInliners : list Z) (p : RejitPreprocessor) : RejitPreprocessor * list (list (Z * Z)) :=
  match moduleInliners with
  | [] => (p, [])
  | moduleInliner :: moduleInliners =>
      let '(p, requests) := all_modules_RequestRejitForInliners moduleInliner p in
      let '(p, requests') := inliners_RequestRejit moduleInliners p in
      (p, requests ++ requests')
  end.

(** The requests are those that [EnqueueForRejit] is given, in order. *)
Definition AddNGenInlinerModule (shutdown : bool) (moduleId : Z) (p : RejitPreprocessor) : RejitPreprocessor * list (list (Z * Z)) :=
  if shutdown then (p, [])
  else
    let alreadyAdded := bool_decide (moduleId ∈ m_ngenInlinersModules p) in
    let '(p, requests) := inliners_RequestRejit (m_ngenInlinersModules p) p in
    if alreadyAdded then (p, requests)
    else
      let p := {| m_modules := m_modules p; m_ngenInlinersModules := m_ngenInlinersModules p ++ [moduleId] |} in
      let '(p, requests') := all_modules_RequestRejitForInliners moduleId p in
      (p, requests ++ requests').
End Inliners.

(** ** Requests to the runtime *)

Inductive runtime_call :=
| RequestRevert (modules methods : list Z)
| RequestReJIT (modules methods : list Z).

Definition RequestRejit (shutdown : bool) (modulesVector modulesMethodDef : list Z) (callRevertExplicitly : bool) : list runtime_call :=
  if shutdown || bool_decide (modulesVector = []) then []
  else (if callRevertExplicitly then [RequestRevert modulesVector modulesMethodDef] else []) ++
       [RequestReJIT modulesVector modulesMethodDef].

(** ** The body of a method, on its way through the rewriters *)

(** The method, the body that a rewriter has set. *)
Record FunctionControlWrapper := {
  fc_moduleId : Z;
  fc_methodId : Z;
  m_methodBody : option (list Z);
  m_isDirty : bool;
}.

Definition FunctionControlWrapper_new (moduleId methodId : Z) : FunctionControlWrapper :=
  {| fc_moduleId := moduleId; fc_methodId := methodId; m_methodBody := None; m_isDirty := false |}.

Definition E_OUTOFMEMORY : Z := sgn 32 0x8007000e.

(** What a rewriter passes as the new body: a null pointer, the wrapper's own body, other memory. *)
Inductive il_pointer := Null | OwnBody | Memory (bytes : list Z).

(** [allocated]: [new (std::nothrow)] succeeds. *)
Definition SetILFunctionBody (allocated : bool) (bodyLen : Z) (pNewIL : il_pointer) (w : FunctionControlWrapper) :
    outcome unit (Z * FunctionControlWrapper) :=
  match pNewIL with
  | Null => mret (E_INVALIDARG, w)
  | OwnBody => mret (if decide (bodyLen = 0 ∨ m_methodBody w = None) then E_INVALIDARG else S_FALSE, w)
  | Memory bytes =>
      if decide (bodyLen = 0) then mret (E_INVALIDARG, w)
      else if negb allocated then mret (E_OUTOFMEMORY, w)
      else if decide (0 ≤ bodyLen ≤ Z.of_nat (length bytes)) then
        mret (S_OK, {| fc_moduleId := fc_moduleId w; fc_methodId := fc_methodId w;
                       m_methodBody := Some (take (Z.to_nat bodyLen) bytes); m_isDirty := true |})
      else Stuck
  end.

(** [original] is what the runtime's [GetILFunctionBody] returns. *)
Definition GetILFunctionBody (original : Z → Z → Z * list Z) (moduleId methodId : Z) (w : FunctionControlWrapper) : Z * list Z :=
  if decide (moduleId ≠ fc_moduleId w ∨ methodId ≠ fc_methodId w) then (E_INVALIDARG, [])
  else match m_methodBody w with Some body => (S_OK, body) | None => original moduleId methodId end.

(** [ApplyChanges]: the HRESULT and what the runtime is given, [set] being its answer. *)
Definition ApplyChanges (set : list Z → Z) (w : FunctionControlWrapper) : Z * option (list Z) :=
  if m_isDirty w then let body := default [] (m_methodBody w) in (set body, Some body) else (S_FALSE, None).

(** ** The handler *)

(** A rejitter: its priority and its [RejitMethod]. *)
Record Rejitter := {
  GetPriority : Z;
  RejitMethod_of : FunctionControlWrapper → Z * FunctionControlWrapper;
}.

(** [RegisterRejitter]: in front of the first one of a lower priority, that is of a greater number. *)
Fixpoint insert_rejitter (r : Rejitter) (rs : list Rejitter) : list Rejitter :=
  match rs with
  | [] => [r]
  | x :: rs => if decide (GetPriority r < GetPriority x) then r :: x :: rs else x :: insert_rejitter r rs
  end.
Definition RegisterRejitter (r : Rejitter) (m_rejitters : list Rejitter) : list Rejitter :=
  match m_rejitters with [] => [r] | _ => insert_rejitter r m_rejitters end.

(** The loop over the rejitters; [None]: none has failed. *)
Fixpoint call_rejitters (rs : list Rejitter) (w : FunctionControlWrapper) : option Z * FunctionControlWrapper :=
  match rs with
  | [] => (None, w)
  | r :: rs =>
      let '(hr, w) := RejitMethod_of r w in
      if decide (hr < 0) then (Some hr, w) else call_rejitters rs w
  end.

Definition NotifyReJITParameters (shutdown : bool) (m_rejitters : list Rejitter) (moduleId methodId : Z) (set : list Z → Z) :
    Z * option (list Z) :=
  if shutdown then (S_FALSE, None)
  else
    match call_rejitters m_rejitters (FunctionControlWrapper_new moduleId methodId) with
    | (Some hr, _) => (hr, None)
    | (None, w) => ApplyChanges set w
    end.

(** [RejitHandler::HasModuleAndMethod] over the preprocessors of the handler. *)
Definition Handler_HasModuleAndMethod (shutdown : bool) (preprocessors : list RejitPreprocessor) (moduleId methodDef : Z) : bool :=
  if shutdown then false else existsb (HasModuleAndMethod shutdown moduleId methodDef) preprocessors.

(** [CorProfiler::JITInlining]: whether the callee may be inlined, [pfShouldInline] being what the
    runtime proposes.  [handler] is [None] for the null pointer, [callee] what [GetFunctionInfo]
    says of the callee. *)
Definition JITInlining (is_attached : bool) (handler : option (bool * list RejitPreprocessor)) (callee : option (Z * Z))
    (pfShouldInline : bool) : bool :=
  if negb is_attached then pfShouldInline
  else
    match handler with
    | None => pfShouldInline
    | Some (shutdown, preprocessors) =>
        match callee with
        | None => true
        | Some (calleeModuleId, calleFunctionToken) =>
            negb (Handler_HasModuleAndMethod shutdown preprocessors calleeModuleId calleFunctionToken)
        end
    end.

(** [RejitPreprocessor::RejitMethod]; [Rewrite] is that of the method's rewriter. *)
Definition RejitMethod (shutdown : bool) (Rewrite : RejitHandlerModule → RejitHandlerModuleMethod → FunctionControlWrapper → Z * FunctionControlWrapper)
    (functionControl : FunctionControlWrapper) (p : RejitPreprocessor) : Z * FunctionControlWrapper * RejitPreprocessor :=
  let '(moduleHandler, p) := GetOrAddModule shutdown (fc_moduleId functionControl) p in
  match moduleHandler with
  | None => (S_FALSE, functionControl, p)
  | Some moduleHandler =>
      match TryGetMethod (fc_methodId functionControl) moduleHandler with
      | None => (S_FALSE, functionControl, p)
      | Some methodHandler =>
          if bool_decide (m_methodDef methodHandler = TypeNames.mdtMethodDef) || bool_decide (m_functionInfo methodHandler = None) ||
             bool_decide (m_moduleId moduleHandler = 0) || bool_decide (m_metadata moduleHandler = None) ||
             negb (m_methodRewriter methodHandler)
          then (S_FALSE, functionControl, p)
          else let '(hr, functionControl) := Rewrite moduleHandler methodHandler functionControl in (hr, functionControl, p)
      end
  end.

(** ** The order of the rejitters *)

Definition by_priority (r r' : Rejitter) : Prop := GetPriority r ≤ GetPriority r'.

Lemma filter_none {A} (Q : A → Prop) `{∀ x, Decision (Q x)} l : Forall (λ x, ¬ Q x) l → filter Q l = [].
Proof. induction 1 as [|x l Hx _ IH]; [done|]. by rewrite filter_cons, decide_False. Qed.

Lemma insert_rejitter_perm r rs : insert_rejitter r rs ≡ₚ r :: rs.
Proof. induction rs as [|x rs IH]; cbn; [done|]. case_decide; [done|]. rewrite IH. apply Permutation_swap. Qed.

Lemma insert_rejitter_sorted r rs : Sorted by_priority rs → Sorted by_priority (insert_rejitter r rs).
Proof.
  induction 1 as [|x rs Hs IH Hd]; cbn; [by repeat constructor|]. case_decide as Hp.
  - constructor; [by constructor|]. constructor. unfold by_priority. lia.
  - constructor; [done|]. destruct rs as [|y rs]; cbn; [constructor; unfold by_priority; lia|].
    case_decide; constructor; [unfold by_priority; lia|by inversion Hd].
Qed.

(** The rejitters are kept in the order of their priorities, those of one priority in the order in
    which they were registered: [filter] leaves their sequence. *)
Lemma RegisterRejitter_ordered r rs :
  Sorted by_priority rs →
  Sorted by_priority (RegisterRejitter r rs) ∧ RegisterRejitter r rs ≡ₚ r :: rs ∧
  ∀ n, filter (λ x, GetPriority x = n) (RegisterRejitter r rs) = filter (λ x, GetPriority x = n) (rs ++ [r]).
Proof.
  intros Hs. assert (E : RegisterRejitter r rs = insert_rejitter r rs) by (by destruct rs). rewrite E. split_and!.
  - by apply insert_rejitter_sorted.
  - apply insert_rejitter_perm.
  - intros n. clear E. induction Hs as [|x rs Hs IH Hd]; [done|]. cbn [insert_rejitter app]. case_decide as Hp.
    + rewrite !filter_cons. destruct (decide (GetPriority r = n)) as [<-|Hr].
      * rewrite (decide_False (P := GetPriority x = GetPriority r)) by lia. rewrite filter_app, !filter_cons, filter_nil.
        rewrite ?(decide_False (P := GetPriority x = GetPriority r)) by lia. rewrite (decide_True (P := GetPriority r = GetPriority r)) by done.
        rewrite (filter_none _ rs); [done|]. assert (Forall (by_priority x) rs) as Hall.
        { apply Sorted_extends; [intros a b c; unfold by_priority; lia|by constructor]. }
        eapply Forall_impl; [exact Hall|]. unfold by_priority. cbn. lia.
      * rewrite filter_app, !filter_cons, (decide_False (P := GetPriority r = n)) by done. by rewrite filter_nil, app_nil_r.
    + rewrite !filter_cons, IH. by case_decide.
Qed.

(** ** One body for the runtime *)

(** What a rewriter makes of the body it sees. *)
Inductive rewriting := Kept | Rewrote (body : list Z) | Failed (hr : Z).

(** A rejitter that uses the wrapper through its interface: it reads the body, and sets one if it
    changes it. *)
Definition through_wrapper (original : Z → Z → Z * list Z) (rewrite : list Z → rewriting) (w : FunctionControlWrapper) :
    Z * FunctionControlWrapper :=
  match rewrite (GetILFunctionBody original (fc_moduleId w) (fc_methodId w) w).2 with
  | Kept => (S_FALSE, w)
  | Failed hr => (hr, w)
  | Rewrote body =>
      match SetILFunctionBody true (Z.of_nat (length body)) (Memory body) w with
      | Ret (hr, w') => (hr, w')
      | _ => (S_OK, w)
      end
  end.

(** The bodies one after the other; the HRESULT of a failure, or the last body and whether it is
    new. *)
Fixpoint rewrite_in_turn (rewrites : list (list Z → rewriting)) (body : list Z) (changed : bool) : Z + (list Z * bool) :=
  match rewrites with
  | [] => inr (body, changed)
  | rewrite :: rewrites =>
      match rewrite body with
      | Kept => rewrite_in_turn rewrites body changed
      | Rewrote body => rewrite_in_turn rewrites body true
      | Failed hr => inl hr
      end
  end.

(** What the loop over the rejitters says against what is expected. *)
Definition agrees (r : Z + (list Z * bool)) (c : option Z * FunctionControlWrapper) : Prop :=
  match r with
  | inl hr => c.1 = Some hr
  | inr (body, changed) => c.1 = None ∧ m_isDirty c.2 = changed ∧ (changed = true → m_methodBody c.2 = Some body)
  end.

Lemma call_rejitters_in_turn original rewrites priority w body :
  (∀ rewrite b b', rewrite ∈ rewrites → rewrite b = Rewrote b' → b' ≠ []) →
  (∀ rewrite b hr, rewrite ∈ rewrites → rewrite b = Failed hr → hr < 0) →
  (GetILFunctionBody original (fc_moduleId w) (fc_methodId w) w).2 = body →
  (m_isDirty w = true → m_methodBody w = Some body) →
  agrees (rewrite_in_turn rewrites body (m_isDirty w))
    (call_rejitters ((λ f, {| GetPriority := priority; RejitMethod_of := through_wrapper original f |}) <$> rewrites) w).
Proof.
  revert w body. induction rewrites as [|f fs IH]; intros w body Hne Hneg Hb Hd; [by cbn|].
  cbn [rewrite_in_turn fmap list_fmap call_rejitters RejitMethod_of]. unfold through_wrapper at 1. rewrite Hb.
  destruct (f body) as [|b|hr] eqn:E.
  - rewrite decide_False by done. apply IH; try done; intros ? ? ? Hin; [apply Hne|apply Hneg]; by right.
  - pose proof (Hne f body b ltac:(by left) E) as Hb'. unfold SetILFunctionBody. rewrite decide_False by (by destruct b).
    cbn [negb]. rewrite decide_True by lia. cbn [mret outcome_ret]. rewrite decide_False by done. rewrite Nat2Z.id, firstn_all.
    apply (IH {| fc_moduleId := fc_moduleId w; fc_methodId := fc_methodId w; m_methodBody := Some b; m_isDirty := true |} b).
    + intros ? ? ? Hin. apply Hne. by right.
    + intros ? ? ? Hin. apply Hneg. by right.
    + unfold GetILFunctionBody. cbn. by rewrite decide_False by tauto.
    + done.
  - rewrite decide_True; [done|]. eapply Hneg; [by left|done].
Qed.

(** C17: A method that is compiled again is passed through its rewriters in turn, each of them seeing
    what the ones before it made of the body; the runtime is given the last body, once, and nothing
    at all if no rewriter changed it, if one of them failed, or behind the shutdown. *)
Theorem rewriters_in_turn original rewrites priority moduleId methodId set :
  (∀ rewrite b b', rewrite ∈ rewrites → rewrite b = Rewrote b' → b' ≠ []) →
  (∀ rewrite b hr, rewrite ∈ rewrites → rewrite b = Failed hr → hr < 0) →
  let rejitters := (λ f, {| GetPriority := priority; RejitMethod_of := through_wrapper original f |}) <$> rewrites in
  NotifyReJITParameters false rejitters moduleId methodId set =
    match rewrite_in_turn rewrites (original moduleId methodId).2 false with
    | inl hr => (hr, None)
    | inr (body, true) => (set body, Some body)
    | inr (_, false) => (S_FALSE, None)
    end ∧
  NotifyReJITParameters true rejitters moduleId methodId set = (S_FALSE, None).
Proof.
  intros Hne Hneg rejitters. split; [|done]. unfold NotifyReJITParameters.
  pose proof (call_rejitters_in_turn original rewrites priority (FunctionControlWrapper_new moduleId methodId)
    (original moduleId methodId).2 Hne Hneg) as H. cbn [m_isDirty m_methodBody FunctionControlWrapper_new] in H.
  specialize (H ltac:(unfold GetILFunctionBody; cbn; by rewrite decide_False by tauto) ltac:(done)). fold rejitters in H.
  unfold agrees in H. destruct (rewrite_in_turn _ _ _) as [hr|[body []]], (call_rejitters rejitters _) as [r w]; cbn [fst snd] in H.
  - by subst r.
  - destruct H as (-> & Hd & Hb). unfold ApplyChanges. by rewrite Hd, Hb.
  - destruct H as (-> & Hd & _). unfold ApplyChanges. by rewrite Hd.
Qed.

Lemma rewriters_in_turn_witness :
  let append b := through_wrapper (λ _ _, (S_OK, [1; 42])) (λ body, Rewrote (body ++ [b])) in
  let keep := through_wrapper (λ _ _, (S_OK, [1; 42])) (λ _, Kept) in
  NotifyReJITParameters false
    [{| GetPriority := 2; RejitMethod_of := append 7 |}; {| GetPriority := 2; RejitMethod_of := keep |};
     {| GetPriority := 2; RejitMethod_of := append 8 |}] 5 0x06000001 (λ _, S_OK) =
    (S_OK, Some [1; 42; 7; 8]).
Proof.
  intros append keep.
  refine (proj1 (rewriters_in_turn (λ _ _, (S_OK, [1; 42])) [λ body, Rewrote (body ++ [7]); λ _, Kept; λ body, Rewrote (body ++ [8])]
    2 5 0x06000001 (λ _, S_OK) _ _)).
  - intros rewrite b b' Hin. repeat (apply elem_of_cons in Hin as [->|Hin]; [intros [= <-]; by destruct b|]). by apply elem_of_nil in Hin.
  - intros rewrite b hr Hin. repeat (apply elem_of_cons in Hin as [->|Hin]; [done|]). by apply elem_of_nil in Hin.
Defined.
