(* ===== verification/RejitSelection.v ===== *)
(** * Which methods are rewritten (rejit_preprocessor.cpp)

    Given modules and integration definitions, the preprocessor finds the methods that the
    definitions describe, records what their rewriting needs ([RejitModules]) and requests that the
    runtime compiles them again.  It is run by the worker ([RejitQueue]).  The metadata of a module
    are those of [ClrHelpers].

    The main result: what is requested are exactly the methods described, module by module and
    definition by definition, all of them recorded before the request, so that none of them is
    inlined any more; metadata that cannot be had cost one module only. *)

From S2P Require Import Prelude Utf CorSig Signature TypeNames ClrHelpers Integrations RejitModules.

Definition mdtAssemblyRef : Z := 0x23000000.

Abbreviation P := (stM RejitPreprocessor unit).

Definition lift_pure {A} (r : outcome unit A) : P A :=
  match r with Ret a => mret a | Err e => throw e | Stuck => stuck | Fuel => out_of_fuel end.

Section Module_.
(** The metadata of the module, a bound on chains in them, and what is known of the module. *)
Context (metadataImport : metadata) (type_fuel : nat) (moduleInfo : ModuleInfo) (shutdown : bool).

(** ** The methods of a type *)

Section Definition_.
Context (definition : IntegrationDefinition).

Let targetMethod := target_method definition.
Let targetType := MethodReference_type targetMethod.

(** The loop over the arguments: [n] of them are left, [i] is the first. *)
Fixpoint arguments_match (pb : list Z) (methodArguments : list TypeSignature) (n i : nat) : outcome unit bool :=
  match n with
  | O => mret true
  | S n =>
      argument ← of_option (methodArguments !! i);
      argumentTypeName ← GetTypeTokName metadataImport pb type_fuel argument;
      integrationArgumentTypeName ← of_option (signature_types targetMethod !! S i);
      if bool_decide (argumentTypeName ≠ integrationArgumentTypeName) && bool_decide (integrationArgumentTypeName ≠ WStr "_")
      then mret false
      else arguments_match pb methodArguments n (S i)
  end.

Definition CheckExactSignatureMatch (pb : list Z) (method_signature : FunctionMethodSignature) : outcome unit bool :=
  let numOfArgs := numberOfArguments method_signature in
  if decide (numOfArgs ≠ u64 (Z.of_nat (length (signature_types targetMethod)) - 1)) then mret false
  else arguments_match pb (params method_signature) (Z.to_nat numOfArgs) 0.

Definition wildcard_enabled : bool := bool_decide (method_name targetMethod = tracemethodintegration_wildcardmethodname).

(** The methods that a wildcard does not mean. *)
Definition special_method (name : list Z) : bool :=
  bool_decide (name ∈ tracemethodintegration_wildcard_ignored_methods) ||
  bool_decide (tracemethodintegration_setterprefix `prefix_of` name) ||
  bool_decide (tracemethodintegration_getterprefix `prefix_of` name).

(** The checks of the loop over methods: the function, unless one of them makes it [continue]. *)
Definition method_wanted (methodDef : Z) : outcome unit (option FunctionInfo) :=
  caller ← GetFunctionInfo metadataImport type_fuel methodDef;
  if negb (FunctionInfo_IsValid caller) then mret None
  else
    let '(pb, len) := method_signature caller in
    match FunctionMethodSignature_TryParse pb len (0%nat, empty_signature) with
    | (Err _, _) => mret None
    | (Stuck, _) => Stuck
    | (Fuel, _) => Fuel
    | (Ret _, (_, functionInfo)) =>
        if wildcard_enabled && special_method (FunctionInfo_name caller) then mret None
        else
          matches ← (if is_exact_signature_match definition then CheckExactSignatureMatch pb functionInfo else mret true);
          mret (if matches : bool then Some caller else None)
    end.

(** What the loop does for a method that is wanted; [false]: the handler has been shut down. *)
Definition record_method (methodDef : Z) (functionInfo : FunctionInfo) : P bool := λ p,
  match GetOrAddModule shutdown (ModuleInfo_id moduleInfo) p with
  | (None, p) => (Ret false, p)
  | (Some moduleHandler, p) =>
      let moduleHandler :=
        match m_metadata moduleHandler with
        | Some _ => moduleHandler
        | None => SetModuleMetadata {| assemblyName := assembly_name moduleInfo; app_domain_id := ModuleInfo_app_domain_id moduleInfo |} moduleHandler
        end in
      let '(_, moduleHandler) :=
        CreateMethodIfNotExists methodDef (CreateMethod functionInfo definition) (UpdateMethod definition) moduleHandler in
      (Ret true, with_module (ModuleInfo_id moduleInfo) moduleHandler p)
  end.

Definition iterate_explicit_interface_methods : bool := is_interface definition && negb wildcard_enabled.

(** The batches of the two enumerators, which are told apart as 0 and 1. *)
Definition enumMethods (typeDef : Z) : list (list Z) :=
  if wildcard_enabled then EnumMethods metadataImport typeDef
  else EnumMethodsWithName metadataImport typeDef (method_name targetMethod).
Definition enumExplicitInterfaceMethods (typeDef : Z) : list (list Z) :=
  EnumMethodsWithName metadataImport typeDef (TypeReference_name targetType ++ WStr "." ++ method_name targetMethod).

(** The loop; [fuel] bounds the number of methods. *)
Fixpoint process_methods (typeDef : Z) (fuel : nat) (enumIterator : EnumeratorIterator) (explicitMode : bool)
    (rejitRequests : list (Z * Z)) : P (list (Z * Z)) :=
  let iteratorEnd := end_ 0 (enumMethods typeDef) in
  if differs enumIterator iteratorEnd then
    match fuel with
    | O => out_of_fuel
    | S fuel =>
        let switch := iterate_explicit_interface_methods &&
                      negb (differs enumIterator (end_ 1 (enumExplicitInterfaceMethods typeDef))) in
        let enumIterator := if switch then begin 0 (enumMethods typeDef) else enumIterator in
        let explicitMode := if switch then false else explicitMode in
        if switch && negb (differs enumIterator iteratorEnd) then mret rejitRequests
        else
          methodDef ← lift_option (current enumIterator);
          wanted ← lift_pure (method_wanted methodDef);
          match wanted with
          | None => process_methods typeDef fuel (increment enumIterator) explicitMode rejitRequests
          | Some functionInfo =>
              recorded ← record_method methodDef functionInfo;
              if negb recorded then mret rejitRequests
              else
                let rejitRequests := rejitRequests ++ [(ModuleInfo_id moduleInfo, methodDef)] in
                if explicitMode then mret rejitRequests
                else process_methods typeDef fuel (increment enumIterator) explicitMode rejitRequests
          end
    end
  else mret rejitRequests.

Definition ProcessTypeDefForRejit (typeDef : Z) (rejitRequests : list (Z * Z)) : P (list (Z * Z)) :=
  process_methods typeDef (S (length (concat (enumMethods typeDef)) + length (concat (enumExplicitInterfaceMethods typeDef))))
    (if iterate_explicit_interface_methods then begin 1 (enumExplicitInterfaceMethods typeDef) else begin 0 (enumMethods typeDef))
    iterate_explicit_interface_methods rejitRequests.

(** ** The types of a module *)

Context (assemblyMetadata : AssemblyMetadata).

(** The name and the versions of an assembly against those of the target. *)
Definition assembly_matches (name : list Z) (version : Version) : bool :=
  bool_decide (name = TypeReference_assembly targetType) && Version_le (min_version targetType) version &&
  Version_ge (max_version targetType) version.
Definition metadata_matches (m : AssemblyMetadata) : bool := assembly_matches (AssemblyMetadata_name m) (AssemblyMetadata_version m).

(** The loop over the assembly references. *)
Fixpoint assembly_ref_found (refs : list Z) : bool :=
  match refs with
  | [] => false
  | assemblyRef :: refs =>
      if metadata_matches (GetReferencedAssemblyMetadata metadataImport assemblyRef) then true else assembly_ref_found refs
  end.

(** The body of the loop over the interfaces of a type: whether it is the target. *)
Definition interface_is_target (typeDef interfaceImpl : Z) : bool :=
  match GetInterfaceImplProps metadataImport interfaceImpl with
  | None => false
  | Some (classToken, interfaceToken) =>
      if decide (classToken ≠ typeDef) then false
      else
        let interfaceTokenType := TypeFromToken interfaceToken in
        if decide (interfaceTokenType = mdtTypeRef) then
          match GetTypeRefProps metadataImport interfaceToken with
          | Some (assemblyToken, type_name, _) =>
              bool_decide (until_nul type_name = TypeReference_name targetType) &&
              bool_decide (TypeFromToken assemblyToken = mdtAssemblyRef) &&
              metadata_matches (GetReferencedAssemblyMetadata metadataImport assemblyToken)
          | None => false
          end
        else if decide (interfaceTokenType = mdtTypeDef) then
          match GetTypeDefProps metadataImport interfaceToken with
          | Some (type_name, _, _) => bool_decide (until_nul type_name = TypeReference_name targetType) && metadata_matches assemblyMetadata
          | None => false
          end
        else false
  end.

(** The loop over the interfaces, which stops at the first that is. *)
Fixpoint interface_found (typeDef : Z) (impls : list Z) : bool :=
  match impls with
  | [] => false
  | interfaceImpl :: impls => if interface_is_target typeDef interfaceImpl then true else interface_found typeDef impls
  end.

(** Whether a base type is the target. *)
Definition ancestor_is_target (ancestor : TypeInfo) : bool :=
  bool_decide (TypeInfo_name ancestor = TypeReference_name targetType) &&
  (if decide (scopeToken ancestor ≠ mdTokenNil) then
     bool_decide (TypeFromToken (scopeToken ancestor) = mdtAssemblyRef) &&
     metadata_matches (GetReferencedAssemblyMetadata metadataImport (scopeToken ancestor))
   else assembly_matches (assembly_name moduleInfo) (AssemblyMetadata_version assemblyMetadata)).

(** The loop over the base types. *)
Fixpoint ancestor_found (maxDepth : nat) (ancestorTypeInfo : option TypeInfo) : bool :=
  match maxDepth, ancestorTypeInfo with
  | S maxDepth, Some ancestor =>
      if ancestor_is_target ancestor then true
      else
        ancestor_found maxDepth
          match extend_from ancestor with
          | Some a =>
              if bool_decide (TypeInfo_name a = WStr "System.ValueType" ∨ TypeInfo_name a = WStr "System.Object" ∨
                              TypeInfo_name a = WStr "System.Enum")
              then None else Some a
          | None => None
          end
  | _, _ => false
  end.

(** The body of the loop over the types: whether its methods are looked at. *)
Definition rewrite_type (typeDef : Z) : outcome unit bool :=
  typeInfo ← GetTypeInfo metadataImport type_fuel typeDef;
  rewriteType ←
    (if is_interface definition then impls ← elements (EnumInterfaceImpls metadataImport typeDef); mret (interface_found typeDef impls)
     else mret false);
  mret (rewriteType || is_derived definition && ancestor_found 1 (extend_from typeInfo)).

Fixpoint process_types (typeDefs : list Z) (rejitRequests : list (Z * Z)) : P (list (Z * Z)) :=
  match typeDefs with
  | [] => mret rejitRequests
  | typeDef :: typeDefs =>
      rewriteType ← lift_pure (rewrite_type typeDef);
      rejitRequests ← (if rewriteType : bool then ProcessTypeDefForRejit typeDef rejitRequests else mret rejitRequests);
      process_types typeDefs rejitRequests
  end.

(** The body of the loop over the definitions, behind the loading of the metadata. *)
Definition process_derived_or_interface (rejitRequests : list (Z * Z)) : P (list (Z * Z)) :=
  refs ← lift_pure (elements (EnumAssemblyRefs metadataImport));
  if bool_decide (AssemblyMetadata_name assemblyMetadata ≠ TypeReference_assembly targetType) && negb (assembly_ref_found refs)
  then mret rejitRequests
  else
    typeDefs ← lift_pure (elements (EnumTypeDefs metadataImport));
    process_types typeDefs rejitRequests.

Definition process_direct (rejitRequests : list (Z * Z)) : P (list (Z * Z)) :=
  if Version_gt (min_version targetType) (AssemblyMetadata_version assemblyMetadata) then mret rejitRequests
  else if Version_lt (max_version targetType) (AssemblyMetadata_version assemblyMetadata) then mret rejitRequests
  else
    match FindTypeDefByName metadataImport (TypeReference_name targetType) with
    | None => mret rejitRequests
    | Some typeDef => ProcessTypeDefForRejit typeDef rejitRequests
    end.
End Definition_.
End Module_.

(** ** The modules *)

Section Modules.
(** [GetModuleMetaData]; a module's metadata are looked up at most once. *)
Context (info : module_queries) (GetModuleMetaData : Z → option metadata) (type_fuel : nat) (shutdown : bool).

(** Whether the metadata are asked for. *)
Definition concerns_module (moduleInfo : ModuleInfo) (definition : IntegrationDefinition) : bool :=
  let assembly := TypeReference_assembly (MethodReference_type (target_method definition)) in
  is_derived definition || is_interface definition ||
  bool_decide (assembly = tracemethodintegration_assemblyname) || bool_decide (assembly = assembly_name moduleInfo).

(** The loop over the definitions; [loaded] is what has been loaded.  When nothing can be loaded the
    loop is left. *)
Fixpoint process_definitions (moduleInfo : ModuleInfo) (definitions : list IntegrationDefinition)
    (loaded : option (metadata * AssemblyMetadata)) (rejitRequests : list (Z * Z)) : P (list (Z * Z)) :=
  match definitions with
  | [] => mret rejitRequests
  | definition :: definitions =>
      if negb (GetEnabled definition) then process_definitions moduleInfo definitions loaded rejitRequests
      else if negb (concerns_module moduleInfo definition) then process_definitions moduleInfo definitions loaded rejitRequests
      else
        match
          match loaded with
          | Some l => Some l
          | None => (λ md, (md, GetAssemblyImportMetadata md)) <$> GetModuleMetaData (ModuleInfo_id moduleInfo)
          end
        with
        | None => mret rejitRequests
        | Some (metadataImport, assemblyMetadata) =>
            rejitRequests ←
              (if is_derived definition || is_interface definition
               then process_derived_or_interface metadataImport type_fuel moduleInfo shutdown definition assemblyMetadata rejitRequests
               else process_direct metadataImport type_fuel moduleInfo shutdown definition assemblyMetadata rejitRequests);
            process_definitions moduleInfo definitions (Some (metadataImport, assemblyMetadata)) rejitRequests
        end
  end.

Fixpoint process_modules (modules : list Z) (definitions : list IntegrationDefinition) (rejitRequests : list (Z * Z)) : P (list (Z * Z)) :=
  match modules with
  | [] => mret rejitRequests
  | module :: modules =>
      rejitRequests ← process_definitions (GetModuleInfo info module) definitions None rejitRequests;
      process_modules modules definitions rejitRequests
  end.

(** On the worker, the only caller: [enqueueInSameThread] is set.  The number of requests, and the
    calls of the runtime. *)
Definition RequestRejitForLoadedModules (modules : list Z) (definitions : list IntegrationDefinition) : P (Z * list runtime_call) :=
  if shutdown then mret (0, [])
  else
    rejitRequests ← process_modules modules definitions [];
    let rejitCount := u32 (Z.of_nat (length rejitRequests)) in
    mret (rejitCount, if decide (0 < rejitCount) then RequestRejit shutdown (fst <$> rejitRequests) (snd <$> rejitRequests) false else []).
End Modules.

(** ** The methods of a type *)

Section MethodsProofs.
Context (md : metadata) (type_fuel : nat) (mi : ModuleInfo) (d : IntegrationDefinition).

Abbreviation wanted := (method_wanted md type_fuel d).

(** The methods that pass the checks. *)
Definition accepted (m : Z) : bool := match wanted m with Ret (Some _) => true | _ => false end.
Definition function_of (m : Z) : FunctionInfo := match wanted m with Ret (Some f) => f | _ => no_function end.

Definition regular_methods (ty : Z) : list Z := filter (λ m, accepted m = true) (concat (enumMethods md d ty)).
Definition explicit_methods (ty : Z) : list Z := filter (λ m, accepted m = true) (concat (enumExplicitInterfaceMethods md d ty)).

(** The methods of a type that the definition describes: those of its name, or all but the special
    ones for a wildcard.  Of the implementations of an interface's method the first explicit one
    goes before all others. *)
Definition described_methods (ty : Z) : list Z :=
  if iterate_explicit_interface_methods d then
    match explicit_methods ty with m :: _ => [m] | [] => regular_methods ty end
  else regular_methods ty.

(** The checks of the methods that are enumerated come to a result. *)
Record methods_readable (ty : Z) : Prop := {
  mr_regular : batches_ok (enumMethods md d ty);
  mr_explicit : batches_ok (enumExplicitInterfaceMethods md d ty);
  mr_checked : ∀ m, m ∈ concat (enumMethods md d ty) ∨ m ∈ concat (enumExplicitInterfaceMethods md d ty) → returns (wanted m);
}.

(** The state behind the recording of a method. *)
Definition record (m : Z) (f : FunctionInfo) (p : RejitPreprocessor) : RejitPreprocessor := (record_method mi false d m f p).2.

Lemma record_method_run m f p : record_method mi false d m f p = (Ret true, record m f p).
Proof.
  unfold record, record_method, GetOrAddModule. destruct (m_modules p !! ModuleInfo_id mi) as [mh|].
  - by destruct (CreateMethodIfNotExists _ _ _ _).
  - by destruct (CreateMethodIfNotExists _ _ _ _).
Qed.

Definition record_all (ms : list Z) (p : RejitPreprocessor) : RejitPreprocessor := foldl (λ p m, record m (function_of m) p) p ms.
Definition request (m : Z) : Z * Z := (ModuleInfo_id mi, m).

(** One iteration for a method. *)
Definition visit_method (m : Z) (reqs : list (Z * Z)) (k : list (Z * Z) → P (list (Z * Z))) (skip : P (list (Z * Z))) : P (list (Z * Z)) :=
  wanted ← lift_pure (wanted m);
  match wanted with
  | None => skip
  | Some f =>
      recorded ← record_method mi false d m f;
      if negb recorded then mret reqs else k (reqs ++ [request m])
  end.

Lemma visit_method_run m reqs k skip p :
  returns (wanted m) →
  visit_method m reqs k skip p =
    if accepted m then k (reqs ++ [request m]) (record m (function_of m) p) else skip p.
Proof.
  intros [o E]. unfold visit_method, accepted, function_of. rewrite E. destruct o as [f|]; [|done].
  run_by (reflexivity). cbv iota. run_by (apply record_method_run). done.
Qed.

Abbreviation loop ty := (process_methods md type_fuel mi false d ty).

Lemma regular_run ty l fuel i reqs p :
  batches_ok (enumMethods md d ty) → before 0 (enumMethods md d ty) i l → (∀ m, m ∈ l → returns (wanted m)) → (length l < fuel)%nat →
  loop ty fuel i false reqs p =
    (Ret (reqs ++ (request <$> filter (λ m, accepted m = true) l)), record_all (filter (λ m, accepted m = true) l) p).
Proof.
  intros Hb. revert l i reqs p. induction fuel as [|fuel IH]; intros l i reqs p Hi Hl Hf; [lia|]. cbn [process_methods].
  rewrite (differs_end _ _ _ _ _ Hi). destruct l as [|m l]; [by rewrite app_nil_r|]. rewrite bool_decide_eq_true_2 by done.
  rewrite (differs_other _ _ _ _ (end_ 1 (enumExplicitInterfaceMethods md d ty)) Hi) by done. rewrite andb_false_r. cbn [andb].
  rewrite (current_before _ _ _ _ _ Hi). cbn [lift_option]. run_by (done).
  change (visit_method m reqs (λ reqs, loop ty fuel (increment i) false reqs) (loop ty fuel (increment i) false reqs) p =
    (Ret (reqs ++ (request <$> filter (λ m, accepted m = true) (m :: l))), record_all (filter (λ m, accepted m = true) (m :: l)) p)).
  rewrite visit_method_run by (apply Hl; by left). rewrite filter_cons. apply increment_before in Hi; [|done].
  assert (∀ m, m ∈ l → returns (wanted m)) by (intros; apply Hl; by right). simpl in Hf.
  destruct (accepted m) eqn:E.
  - rewrite (IH l) by (done || lia). rewrite decide_True by done. cbn. by rewrite <-app_assoc.
  - rewrite (IH l) by (done || lia). by rewrite decide_False.
Qed.

Lemma explicit_run ty l fuel i reqs p :
  methods_readable ty → iterate_explicit_interface_methods d = true → before 1 (enumExplicitInterfaceMethods md d ty) i l →
  (∀ m, m ∈ l → returns (wanted m)) → (length l + length (concat (enumMethods md d ty)) < fuel)%nat →
  let ms := match filter (λ m, accepted m = true) l with m :: _ => [m] | [] => regular_methods ty end in
  loop ty fuel i true reqs p = (Ret (reqs ++ (request <$> ms)), record_all ms p).
Proof.
  intros [Hb1 Hb2 Hc] Hit. revert l i reqs p. induction fuel as [|fuel IH]; intros l i reqs p Hi Hl Hf; [lia|].
  cbn [process_methods]. rewrite (differs_other _ _ _ _ (end_ 0 (enumMethods md d ty)) Hi) by done. rewrite Hit. cbn [andb].
  rewrite (differs_end _ _ _ _ _ Hi). destruct l as [|m l].
  - rewrite bool_decide_eq_false_2 by (by intros []). cbn [negb andb filter list_filter].
    pose proof (begin_before 0 (enumMethods md d ty) Hb1) as Hi0. pose proof (regular_run ty (concat (enumMethods md d ty)) (S fuel)
      (begin 0 (enumMethods md d ty)) reqs p Hb1 Hi0 ltac:(intros; apply Hc; by left) ltac:(simpl in Hf; lia)) as Hreg.
    cbn [process_methods] in Hreg. rewrite Hit in Hreg.
    rewrite (differs_other _ _ _ _ (end_ 1 (enumExplicitInterfaceMethods md d ty)) Hi0) in Hreg by done. cbn [negb andb] in Hreg.
    destruct (differs (begin 0 (enumMethods md d ty)) (end_ 0 (enumMethods md d ty))); [exact Hreg|]. cbn [negb]. exact Hreg.
  - rewrite bool_decide_eq_true_2 by done. cbn [negb andb]. rewrite (current_before _ _ _ _ _ Hi). cbn [lift_option]. run_by (done).
    change (visit_method m reqs (λ reqs, mret reqs) (loop ty fuel (increment i) true reqs) p =
      (Ret (reqs ++ (request <$> match filter (λ m, accepted m = true) (m :: l) with m :: _ => [m] | [] => regular_methods ty end)),
       record_all match filter (λ m, accepted m = true) (m :: l) with m :: _ => [m] | [] => regular_methods ty end p)).
    rewrite visit_method_run by (apply Hl; by left). rewrite filter_cons. destruct (accepted m) eqn:E.
    + by rewrite decide_True.
    + rewrite decide_False by done. apply increment_before in Hi; [|done]. apply IH; [done|intros; apply Hl; by right|simpl in Hf; lia].
Qed.

(** What is requested of a type, and the state behind it. *)
Lemma ProcessTypeDefForRejit_run ty reqs p :
  methods_readable ty →
  ProcessTypeDefForRejit md type_fuel mi false d ty reqs p =
    (Ret (reqs ++ (request <$> described_methods ty)), record_all (described_methods ty) p).
Proof.
  intros Hr. unfold ProcessTypeDefForRejit, described_methods. pose proof Hr as [Hb1 Hb2 Hc].
  destruct (iterate_explicit_interface_methods d) eqn:E.
  - apply explicit_run; [done|done|by apply begin_before|intros; apply Hc; by right|lia].
  - apply regular_run; [done|by apply begin_before|intros; apply Hc; by left|lia].
Qed.
End MethodsProofs.
