(* ===== verification/RejitRequests.v ===== *)
(** * What is requested of the runtime (rejit_preprocessor.cpp)

    The loops of [RejitSelection] without loops, enumerators or state: the methods they find are the
    list [described], which [RejitDescription] relates to what the definitions say. *)

From S2P Require Import Prelude Utf CorSig Signature ClrSignatures TypeNames ClrHelpers ClrNames Integrations RejitModules RejitSelection.

(** ** The types of a module that a definition describes *)

Lemma Version_gt_le v w : Version_gt v w = negb (Version_le v w).
Proof. unfold Version_le. by rewrite negb_involutive. Qed.

Section Types.
Context (md : metadata) (type_fuel : nat) (mi : ModuleInfo) (am : AssemblyMetadata) (d : IntegrationDefinition).

Let target := MethodReference_type (target_method d).

Definition refers_to_target : bool :=
  bool_decide (Exists (λ r, metadata_matches d (GetReferencedAssemblyMetadata md r) = true) (concat (EnumAssemblyRefs md))).

Definition implements_target (ty : Z) : bool :=
  bool_decide (Exists (λ impl, interface_is_target md d am ty impl = true) (concat (EnumInterfaceImpls md ty))).

(** Its base type is the target; base types further up do not count. *)
Definition derives_target (ty : Z) : bool :=
  match GetTypeInfo md type_fuel ty with
  | Ret ti => match extend_from ti with Some base => ancestor_is_target md mi d am base | None => false end
  | _ => false
  end.

Definition described_types : list Z :=
  if is_derived d || is_interface d then
    if bool_decide (AssemblyMetadata_name am = TypeReference_assembly target) || refers_to_target then
      filter (λ ty, is_interface d && implements_target ty || is_derived d && derives_target ty = true) (concat (EnumTypeDefs md))
    else []
  else if Version_le (min_version target) (AssemblyMetadata_version am) && Version_le (AssemblyMetadata_version am) (max_version target)
  then option_list (FindTypeDefByName md (TypeReference_name target))
  else [].

Definition described_in_module : list Z := concat (described_methods md type_fuel d <$> described_types).

(** The metadata can be read. *)
Record types_readable : Prop := {
  tr_refs : batches_ok (EnumAssemblyRefs md);
  tr_types : batches_ok (EnumTypeDefs md);
  tr_impls : ∀ ty, batches_ok (EnumInterfaceImpls md ty);
  tr_info : ∀ ty, returns (GetTypeInfo md type_fuel ty);
  tr_methods : ∀ ty, methods_readable md type_fuel d ty;
}.

Lemma assembly_ref_found_Exists refs :
  assembly_ref_found md d refs = bool_decide (Exists (λ r, metadata_matches d (GetReferencedAssemblyMetadata md r) = true) refs).
Proof.
  induction refs as [|r refs IH]; [done|]. cbn [assembly_ref_found]. rewrite IH. clear IH.
  destruct (metadata_matches _ _) eqn:E; symmetry.
  - apply bool_decide_eq_true. by left.
  - apply bool_decide_ext. rewrite Exists_cons, E. naive_solver.
Qed.

Lemma interface_found_Exists ty impls :
  interface_found md d am ty impls = bool_decide (Exists (λ impl, interface_is_target md d am ty impl = true) impls).
Proof.
  induction impls as [|i impls IH]; [done|]. cbn [interface_found]. rewrite IH. clear IH.
  destruct (interface_is_target _ _ _ _ _) eqn:E; symmetry.
  - apply bool_decide_eq_true. by left.
  - apply bool_decide_ext. rewrite Exists_cons, E. naive_solver.
Qed.

Lemma rewrite_type_run ty :
  types_readable →
  rewrite_type md type_fuel mi d am ty = Ret (is_interface d && implements_target ty || is_derived d && derives_target ty).
Proof.
  intros Hr. unfold rewrite_type, derives_target, implements_target. destruct (tr_info Hr ty) as [ti ->]. cbn [mbind outcome_bind].
  rewrite elements_batches by apply Hr. cbn [mbind outcome_bind ancestor_found].
  assert (Ha : (match extend_from ti with
                | Some a => if ancestor_is_target md mi d am a then true else false
                | None => false
                end) = match extend_from ti with Some base => ancestor_is_target md mi d am base | None => false end).
  { destruct (extend_from ti) as [a|]; [|done]. by destruct (ancestor_is_target _ _ _ _ _). }
  destruct (is_interface d); cbn [mbind outcome_bind mret outcome_ret andb]; [rewrite interface_found_Exists|]; by rewrite <-Ha.
Qed.

Abbreviation reqs_of ms := (request mi <$> ms).

Lemma process_types_run tys reqs p :
  types_readable →
  let ms := concat (described_methods md type_fuel d <$>
    filter (λ ty, is_interface d && implements_target ty || is_derived d && derives_target ty = true) tys) in
  process_types md type_fuel mi false d am tys reqs p = (Ret (reqs ++ reqs_of ms), record_all md type_fuel mi d ms p).
Proof.
  intros Hr. revert reqs p. induction tys as [|ty tys IH]; intros reqs p; cbn [process_types]; [by rewrite app_nil_r|].
  run_by (by rewrite rewrite_type_run). rewrite filter_cons. destruct (_ || _) eqn:E.
  - run_by (apply ProcessTypeDefForRejit_run, Hr). rewrite IH. rewrite decide_True by done. cbn [fmap list_fmap concat].
    unfold record_all. by rewrite fmap_app, <-app_assoc, foldl_app.
  - run_by (done). rewrite IH. by rewrite decide_False.
Qed.

Lemma process_derived_run reqs p :
  types_readable → is_derived d || is_interface d = true →
  process_derived_or_interface md type_fuel mi false d am reqs p =
    (Ret (reqs ++ reqs_of described_in_module), record_all md type_fuel mi d described_in_module p).
Proof.
  intros Hr Hd. unfold process_derived_or_interface, described_in_module, described_types. rewrite Hd.
  run_by (rewrite elements_batches by apply Hr; reflexivity). fold target. rewrite assembly_ref_found_Exists. fold refers_to_target.
  rewrite bool_decide_not, <-negb_orb. destruct (_ || refers_to_target); cbn [negb]; [|by rewrite app_nil_r].
  run_by (rewrite elements_batches by apply Hr; reflexivity). by apply process_types_run.
Qed.

Lemma process_direct_run reqs p :
  types_readable → is_derived d || is_interface d = false →
  process_direct md type_fuel mi false d am reqs p =
    (Ret (reqs ++ reqs_of described_in_module), record_all md type_fuel mi d described_in_module p).
Proof.
  intros Hr Hd. unfold process_direct, described_in_module, described_types. rewrite Hd. fold target.
  rewrite Version_lt_le, Version_gt_le.
  destruct (Version_le (min_version target) _); cbn [negb andb]; [|by rewrite app_nil_r].
  destruct (Version_le (AssemblyMetadata_version am) _); cbn [negb]; [|by rewrite app_nil_r].
  destruct (FindTypeDefByName _ _) as [ty|]; [|by rewrite app_nil_r]. cbn. rewrite (app_nil_r (described_methods md type_fuel d ty)).
  apply ProcessTypeDefForRejit_run, Hr.
Qed.
End Types.

(** ** The methods to be rewritten *)

Record selected := {
  sel_module : ModuleInfo;
  sel_definition : IntegrationDefinition;
  sel_function : FunctionInfo;
  sel_method : Z;
}.

(** What a request names. *)
Definition sel_key (e : selected) : Z * Z := (ModuleInfo_id (sel_module e), sel_method e).

Section Modules.
Context (info : module_queries) (GetModuleMetaData : Z → option metadata) (type_fuel : nat).

Definition described_by (mi : ModuleInfo) (md : metadata) (d : IntegrationDefinition) : list selected :=
  (λ m, {| sel_module := mi; sel_definition := d; sel_function := function_of md type_fuel d m; sel_method := m |}) <$>
    described_in_module md type_fuel mi (GetAssemblyImportMetadata md) d.

(** Module by module, and in a module definition by definition: of the enabled ones that concern it. *)
Definition described_of_module (definitions : list IntegrationDefinition) (mi : ModuleInfo) : list selected :=
  match GetModuleMetaData (ModuleInfo_id mi) with
  | Some md => concat (described_by mi md <$> filter (λ d, GetEnabled d && concerns_module mi d = true) definitions)
  | None => []
  end.

Definition described (modules : list Z) (definitions : list IntegrationDefinition) : list selected :=
  concat ((λ module, described_of_module definitions (GetModuleInfo info module)) <$> modules).

Definition record_entries (l : list selected) (p : RejitPreprocessor) : RejitPreprocessor :=
  foldl (λ p e, record (sel_module e) (sel_definition e) (sel_method e) (sel_function e) p) p l.

Lemma record_all_entries mi md d p :
  record_all md type_fuel mi d (described_in_module md type_fuel mi (GetAssemblyImportMetadata md) d) p =
  record_entries (described_by mi md d) p.
Proof.
  unfold record_entries, described_by, record_all. generalize (described_in_module md type_fuel mi (GetAssemblyImportMetadata md) d).
  intros ms. revert p. induction ms as [|m ms IH]; intros p; cbn; [done|]. apply IH.
Qed.

Definition definitions_readable (md : metadata) (definitions : list IntegrationDefinition) : Prop :=
  ∀ d, d ∈ definitions → types_readable md type_fuel d.

Lemma process_definitions_run mi definitions loaded reqs p :
  (∀ md, GetModuleMetaData (ModuleInfo_id mi) = Some md → definitions_readable md definitions) →
  loaded = None ∨ loaded = (λ md, (md, GetAssemblyImportMetadata md)) <$> GetModuleMetaData (ModuleInfo_id mi) →
  let l := described_of_module definitions mi in
  process_definitions GetModuleMetaData type_fuel false mi definitions loaded reqs p =
    (Ret (reqs ++ (sel_key <$> l)), record_entries l p).
Proof.
  intros Hr Hl. unfold described_of_module. revert loaded reqs p Hl. induction definitions as [|d ds IH]; intros loaded reqs p Hl.
  { cbn. destruct (GetModuleMetaData _); by rewrite app_nil_r. }
  assert (Hr' : ∀ md, GetModuleMetaData (ModuleInfo_id mi) = Some md → definitions_readable md ds).
  { intros md E d' Hd. apply (Hr md E). by right. }
  specialize (IH Hr'). cbn [process_definitions].
  assert (Hskip : GetEnabled d && concerns_module mi d = false →
    process_definitions GetModuleMetaData type_fuel false mi ds loaded reqs p =
    (Ret (reqs ++ (sel_key <$> match GetModuleMetaData (ModuleInfo_id mi) with
        Some md => concat (described_by mi md <$> filter (λ d, GetEnabled d && concerns_module mi d = true) (d :: ds)) | None => [] end)),
     record_entries (match GetModuleMetaData (ModuleInfo_id mi) with
        Some md => concat (described_by mi md <$> filter (λ d, GetEnabled d && concerns_module mi d = true) (d :: ds)) | None => [] end) p)).
  { intros E. rewrite filter_cons, E, decide_False by done. by apply IH. }
  destruct (GetEnabled d) eqn:E1; cbn [negb]; [|by apply Hskip]. destruct (concerns_module mi d) eqn:E2; cbn [negb]; [|by apply Hskip].
  clear Hskip.
  assert (El : match loaded with Some l => Some l | None => (λ md, (md, GetAssemblyImportMetadata md)) <$> GetModuleMetaData (ModuleInfo_id mi) end =
               (λ md, (md, GetAssemblyImportMetadata md)) <$> GetModuleMetaData (ModuleInfo_id mi)).
  { destruct Hl as [->| ->]; [done|]. by destruct (GetModuleMetaData _). }
  rewrite El. destruct (GetModuleMetaData (ModuleInfo_id mi)) as [md|] eqn:Emd; cbn [fmap option_fmap option_map];
    [|by rewrite app_nil_r].
  rewrite filter_cons, E1, E2, decide_True by done. cbn [fmap list_fmap concat].
  assert (Hd : types_readable md type_fuel d) by (apply (Hr md); [done|by left]).
  assert (Hrun : (if is_derived d || is_interface d
      then process_derived_or_interface md type_fuel mi false d (GetAssemblyImportMetadata md) reqs
      else process_direct md type_fuel mi false d (GetAssemblyImportMetadata md) reqs) p =
    (Ret (reqs ++ (sel_key <$> described_by mi md d)), record_entries (described_by mi md d) p)).
  { unfold described_by at 1. rewrite <-list_fmap_compose, <-record_all_entries.
    destruct (is_derived d || is_interface d) eqn:E; [by apply process_derived_run|by apply process_direct_run]. }
  erewrite stM_bind_Ret by exact Hrun. rewrite (IH (Some (md, GetAssemblyImportMetadata md))) by (by right).
  unfold record_entries. by rewrite fmap_app, <-app_assoc, foldl_app.
Qed.

Definition modules_readable (modules : list Z) (definitions : list IntegrationDefinition) : Prop :=
  ∀ module md, module ∈ modules → GetModuleMetaData (ModuleInfo_id (GetModuleInfo info module)) = Some md → definitions_readable md definitions.

Lemma process_modules_run modules definitions reqs p :
  modules_readable modules definitions →
  process_modules info GetModuleMetaData type_fuel false modules definitions reqs p =
    (Ret (reqs ++ (sel_key <$> described modules definitions)), record_entries (described modules definitions) p).
Proof.
  unfold described. revert reqs p. induction modules as [|m ms IH]; intros reqs p Hr; cbn; [by rewrite app_nil_r|].
  erewrite stM_bind_Ret by (apply process_definitions_run; [intros md E; apply (Hr m md); [by left|done]|by left]).
  rewrite IH by (intros m' md Hm; apply Hr; by right). unfold record_entries. by rewrite fmap_app, <-app_assoc, foldl_app.
Qed.
End Modules.

(** ** What is recorded *)

Definition method_at (id m : Z) (p : RejitPreprocessor) : option RejitHandlerModuleMethod := m_modules p !! id ≫= λ h, m_methods h !! m.

(** What becomes of the record of a method: the first definition that describes it is kept, the last
    one decides whether it is enabled. *)
Definition recorded (old : option RejitHandlerModuleMethod) (l : list selected) : option RejitHandlerModuleMethod :=
  match l with
  | [] => old
  | e :: _ =>
      Some (UpdateMethod (sel_definition (List.last l e)) (default (CreateMethod (sel_function e) (sel_definition e) (sel_method e)) old))
  end.

(** The module that a method is recorded in. *)
Definition handler_for (mi : ModuleInfo) (p : RejitPreprocessor) : RejitHandlerModule :=
  let h := match m_modules p !! ModuleInfo_id mi with Some h => h | None => RejitHandlerModule_new (ModuleInfo_id mi) end in
  match m_metadata h with
  | Some _ => h
  | None => SetModuleMetadata {| assemblyName := assembly_name mi; app_domain_id := ModuleInfo_app_domain_id mi |} h
  end.

Lemma handler_for_methods mi p m : m_methods (handler_for mi p) !! m = method_at (ModuleInfo_id mi) m p.
Proof.
  unfold handler_for, method_at. destruct (m_modules p !! ModuleInfo_id mi) as [h|]; cbn.
  - by destruct (m_metadata h).
  - apply lookup_empty.
Qed.

Lemma record_modules mi d m f p :
  m_modules (record mi d m f p) = <[ModuleInfo_id mi :=
    (CreateMethodIfNotExists m (CreateMethod f d) (UpdateMethod d) (handler_for mi p)).2]> (m_modules p).
Proof.
  unfold record, record_method, GetOrAddModule, handler_for. destruct (m_modules p !! ModuleInfo_id mi) as [h|].
  - destruct (m_metadata h); by destruct (CreateMethodIfNotExists _ _ _ _).
  - cbn [m_metadata RejitHandlerModule_new]. destruct (CreateMethodIfNotExists _ _ _ _). cbn. apply insert_insert_eq.
Qed.

Lemma CreateMethodIfNotExists_methods m create update h :
  m_methods (CreateMethodIfNotExists m create update h).2 = <[m := update (default (create m) (m_methods h !! m))]> (m_methods h).
Proof. unfold CreateMethodIfNotExists. by destruct (m_methods h !! m). Qed.

Lemma method_at_record mi d m0 f p id m :
  method_at id m (record mi d m0 f p) =
    if decide ((ModuleInfo_id mi, m0) = (id, m)) then Some (UpdateMethod d (default (CreateMethod f d m0) (method_at id m p)))
    else method_at id m p.
Proof.
  unfold method_at at 1. rewrite record_modules. destruct (decide (ModuleInfo_id mi = id)) as [<-|Hid].
  - rewrite lookup_insert_eq. cbn [mbind option_bind]. rewrite CreateMethodIfNotExists_methods, handler_for_methods.
    destruct (decide (m0 = m)) as [<-|Hm].
    + by rewrite lookup_insert_eq, decide_True.
    + rewrite lookup_insert_ne, decide_False by congruence. apply handler_for_methods.
  - by rewrite lookup_insert_ne, decide_False by congruence.
Qed.

Lemma UpdateMethod_twice d d' mm : UpdateMethod d' (UpdateMethod d mm) = UpdateMethod d' mm.
Proof. done. Qed.

Lemma recorded_app old e l : recorded (recorded old [e]) l = recorded old (e :: l).
Proof.
  destruct l as [|e' l]; [done|]. cbn [recorded from_option List.last]. unfold id at 1. rewrite UpdateMethod_twice. repeat f_equal.
  destruct l as [|x l]; [done|]. revert x. induction l as [|y l IH]; intros x; [done|]. exact (IH y).
Qed.

Lemma method_at_entries l id m p :
  method_at id m (record_entries l p) = recorded (method_at id m p) (filter (λ e, sel_key e = (id, m)) l).
Proof.
  revert p. induction l as [|e l IH]; intros p; [done|]. change (record_entries (e :: l) p) with
    (record_entries l (record (sel_module e) (sel_definition e) (sel_method e) (sel_function e) p)).
  rewrite IH, method_at_record, filter_cons. change (ModuleInfo_id (sel_module e), sel_method e) with (sel_key e).
  case_decide as E; [|done]. rewrite <-recorded_app. f_equal.
Qed.

(** Records are complete: [RejitMethod] leaves no method of theirs alone. *)
Definition well_recorded (p : RejitPreprocessor) : Prop := ∀ id h, m_modules p !! id = Some h →
  m_moduleId h = id ∧ ∀ m mm, m_methods h !! m = Some mm →
    is_Some (m_metadata h) ∧ m_methodDef mm = m ∧ is_Some (m_functionInfo mm) ∧ m_methodRewriter mm = true.

Lemma well_recorded_record mi d m0 f p : well_recorded p → well_recorded (record mi d m0 f p).
Proof.
  intros Hp id h. rewrite record_modules. intros [[<- <-]|[Hid Hh]]%lookup_insert_Some; [|by apply Hp].
  assert (Hh : m_moduleId (handler_for mi p) = ModuleInfo_id mi ∧ is_Some (m_metadata (handler_for mi p)) ∧
    ∀ m mm, m_methods (handler_for mi p) !! m = Some mm → m_methodDef mm = m ∧ is_Some (m_functionInfo mm) ∧ m_methodRewriter mm = true).
  { unfold handler_for. destruct (m_modules p !! ModuleInfo_id mi) as [h|] eqn:E.
    - destruct (Hp _ _ E) as [<- Hm]. destruct (m_metadata h) eqn:Em; cbn; rewrite ?Em; (split_and!; [done|done|]); apply Hm.
    - cbn. split_and!; [done|done|]. intros m mm. by rewrite lookup_empty. }
  destruct Hh as (Hid & Hmd & Hm). assert (Hids : m_moduleId (CreateMethodIfNotExists m0 (CreateMethod f d) (UpdateMethod d) (handler_for mi p)).2 =
    m_moduleId (handler_for mi p) ∧ m_metadata (CreateMethodIfNotExists m0 (CreateMethod f d) (UpdateMethod d) (handler_for mi p)).2 =
    m_metadata (handler_for mi p)) by (unfold CreateMethodIfNotExists; by destruct (m_methods _ !! m0)).
  destruct Hids as [-> ->]. split; [done|]. intros m mm. rewrite CreateMethodIfNotExists_methods.
  intros [[<- <-]|[_ Hmm]]%lookup_insert_Some; [|by eauto]. split; [done|].
  destruct (m_methods (handler_for mi p) !! m0) as [mm|] eqn:E; cbn; [by apply Hm in E|done].
Qed.

Lemma well_recorded_entries l p : well_recorded p → well_recorded (record_entries l p).
Proof. revert p. induction l as [|e l IH]; intros p Hp; [done|]. by apply IH, well_recorded_record. Qed.

Lemma well_recorded_new : well_recorded RejitPreprocessor_new.
Proof. intros id h. cbn. by rewrite lookup_empty. Qed.

(** ** Metadata that can be read *)

Section Readable.
Context (md : metadata) (type_fuel : nat).

(** Parents, enclosing types, base types and the definitions of generic types descend; batches are
    not empty; signatures are in memory, and those the parser accepts have parameters of ECMA
    types. *)
Record metadata_readable : Prop := {
  rd_rank : ∃ rank : Z → nat, (∀ t t', leads_to md t t' → (rank t' < rank t)%nat) ∧ ∀ t, (2 * rank t + 1 < type_fuel)%nat;
  rd_specs : specs_readable md;
  rd_refs : batches_ok (EnumAssemblyRefs md);
  rd_types : batches_ok (EnumTypeDefs md);
  rd_impls : ∀ ty, batches_ok (EnumInterfaceImpls md ty);
  rd_methods : ∀ ty, batches_ok (EnumMethods md ty);
  rd_named : ∀ ty name, batches_ok (EnumMethodsWithName md ty name);
  rd_signatures : ∀ m f, GetFunctionInfo md type_fuel m = Ret f →
    Forall (λ b, is_byte b) (method_signature f).1 ∧ ((method_signature f).2 ≤ length (method_signature f).1)%nat;
  rd_parameters : ∀ m f c s, GetFunctionInfo md type_fuel m = Ret f →
    method_sig (method_signature f).1 (method_signature f).2 s c →
    Forall (λ t, clr_param (take (length_ t) (drop (offset t) (method_signature f).1))) (params s);
}.

Lemma number_sig_packable bs n : Forall (λ b, is_byte b) bs → number_sig bs n → packable n.
Proof.
  intros Hb Hn. pose proof (number_sig_nonempty _ _ Hn). unfold number_sig in Hn.
  destruct (CorSigUncompressData_bounds bs (Z.of_nat (length bs)) Hb) as [E|(n' & size & E & Hp & _)]; [lia|lia|congruence|congruence].
Qed.

(** The number of arguments of a signature: as many as there are parameters, and not many. *)
Lemma method_sig_arguments pb len s c :
  Forall (λ b, is_byte b) pb → method_sig pb len s c → packable (numberOfArguments s) ∧ length (params s) = Z.to_nat (numberOfArguments s).
Proof.
  intros Hb (cc & counts & ret & R & Hc & _ & _ & _ & Hl). split; [|done].
  assert (Hbytes : Forall (λ b, is_byte b) counts).
  { apply Forall_forall. intros b [i Hi]%list_elem_of_lookup. destruct R as [_ R]. specialize (R (S i) b).
    apply (lookup_app_l_Some counts ret i b), R, list_elem_of_lookup_2 in Hi.
    by apply (proj1 (Forall_forall _ _) Hb) in Hi. }
  unfold counts_sig in Hc. case_decide.
  - destruct Hc as (bs1 & bs2 & Hcounts & _ & Hn). subst counts. apply Forall_app in Hbytes as [_ Hbytes]. by eapply number_sig_packable.
  - destruct Hc as [_ Hn]. by eapply number_sig_packable.
Qed.

Lemma arguments_match_returns d pb args n i :
  (∀ t, t ∈ args → returns (GetTypeTokName md pb type_fuel t)) → (i + n ≤ length args)%nat →
  (i + n < length (signature_types (target_method d)))%nat → returns (arguments_match md type_fuel d pb args n i).
Proof.
  intros Ht. revert i. induction n as [|n IH]; intros i Hi Hs; [apply returns_ret|]. cbn [arguments_match].
  destruct (lookup_lt_is_Some_2 args i) as [t Et]; [lia|]. rewrite Et. cbn [of_option mbind outcome_bind].
  apply returns_bind; [by eapply Ht, list_elem_of_lookup_2|]. intros name.
  destruct (lookup_lt_is_Some_2 (signature_types (target_method d)) (S i)) as [t' Et']; [lia|]. rewrite Et'. cbn [of_option mbind outcome_bind].
  destruct (_ && _); [apply returns_ret|]. apply IH; lia.
Qed.

Lemma CheckExactSignatureMatch_returns d pb len s c :
  Forall (λ b, is_byte b) pb → method_sig pb len s c → (∀ t, t ∈ params s → returns (GetTypeTokName md pb type_fuel t)) →
  Z.of_nat (length (signature_types (target_method d))) < 2 ^ 64 → returns (CheckExactSignatureMatch md type_fuel d pb s).
Proof.
  intros Hb Hs Ht Hsize. destruct (method_sig_arguments _ _ _ _ Hb Hs) as [Hp Hl]. unfold CheckExactSignatureMatch.
  case_decide as E; [apply returns_ret|].
  destruct (signature_types (target_method d)) as [|r ts] eqn:Ets.
  { change (u64 (Z.of_nat (length ([] : list (list Z))) - 1)) with (2 ^ 64 - 1) in E. lia. }
  cbn [length] in *. rewrite wrap_small in E by lia. apply arguments_match_returns; [done|lia|]. rewrite Ets. cbn [length]. lia.
Qed.

Lemma method_wanted_returns d m :
  metadata_readable → Z.of_nat (length (signature_types (target_method d))) < 2 ^ 64 →
  returns (method_wanted md type_fuel d m).
Proof.
  intros Hr Hsize. destruct (rd_rank Hr) as (rank & Hrank & Hfuel). unfold method_wanted.
  destruct (GetFunctionInfo_returns md rank Hrank (rd_specs Hr) type_fuel m) as [f Ef]; [specialize (Hfuel m); lia|].
  rewrite Ef. cbn [mbind outcome_bind]. destruct (FunctionInfo_IsValid f); [|apply returns_ret]. cbn [negb].
  destruct (rd_signatures Hr m f Ef) as [Hb Hl]. destruct (method_signature f) as [pb len] eqn:Es. cbn [fst snd] in *.
  pose proof (FunctionMethodSignature_TryParse_wp pb len Hb Hl) as Hp. unfold wp in Hp.
  destruct (FunctionMethodSignature_TryParse pb len (0%nat, empty_signature)) as [[[]|[]| |] [c s]] eqn:Ep; try done; [|apply returns_ret].
  destruct (_ && _); [apply returns_ret|]. destruct (is_exact_signature_match d) eqn:Ex; [|apply returns_ret].
  apply returns_bind; [|intros; apply returns_ret]. cbn in Hp. apply (CheckExactSignatureMatch_returns d pb len s c); [done|done| |done].
  intros t Ht. pose proof (rd_parameters Hr m f c s Ef) as Hn. rewrite Es in Hn.
  apply GetTypeTokName_returns; [|by apply (proj1 (Forall_forall _ _) (Hn Hp))].
  intros t'. by apply (GetTypeInfo_returns md rank Hrank (rd_specs Hr)).
Qed.

Lemma readable_types d :
  metadata_readable → Z.of_nat (length (signature_types (target_method d))) < 2 ^ 64 →
  types_readable md type_fuel d.
Proof.
  intros Hr Hsize. split; try apply Hr.
  - intros ty. destruct (rd_rank Hr) as (rank & Hrank & Hfuel). by apply (GetTypeInfo_returns md rank Hrank (rd_specs Hr)).
  - intros ty. split.
    + unfold enumMethods. destruct (wildcard_enabled d); apply Hr.
    + apply Hr.
    + intros m _. by apply method_wanted_returns.
Qed.
End Readable.

(** ** Requests *)

Section Requests.
Context (info : module_queries) (GetModuleMetaData : Z → option metadata) (type_fuel : nat).
Context (modules : list Z) (definitions : list IntegrationDefinition).

(** Every module whose metadata are had can be read, and no signature fills the memory. *)
Definition all_readable : Prop :=
  Forall (λ d, Z.of_nat (length (signature_types (target_method d))) < 2 ^ 64) definitions ∧
  ∀ module md, module ∈ modules → GetModuleMetaData (ModuleInfo_id (GetModuleInfo info module)) = Some md →
    metadata_readable md type_fuel.

Lemma all_readable_modules : all_readable → modules_readable info GetModuleMetaData type_fuel modules definitions.
Proof.
  intros [Hs Hr] module md Hm E d Hd. apply (readable_types md type_fuel); [by eapply Hr|].
  by apply (proj1 (Forall_forall _ _) Hs).
Qed.

Lemma recorded_some old l e : e ∈ l → is_Some (recorded old l).
Proof. destruct l; [by intros ?%elem_of_nil|]. by eexists. Qed.

Lemma recorded_method p l e :
  e ∈ l → is_Some (method_at (ModuleInfo_id (sel_module e)) (sel_method e) (record_entries l p)).
Proof. intros He. rewrite method_at_entries. apply (recorded_some _ _ e). by apply list_elem_of_filter. Qed.

(** A recorded method is not inlined, and is rewritten when the runtime asks. *)
Lemma method_at_not_inlined p m_id m b :
  is_Some (method_at m_id m p) → JITInlining true (Some (false, [p])) (Some (m_id, m)) b = false.
Proof.
  intros [mm Hm]. unfold method_at in Hm. cbn. unfold HasModuleAndMethod.
  destruct (m_modules p !! m_id) as [h|]; [|done]. cbn in Hm. unfold ContainsMethod. rewrite Hm. by rewrite bool_decide_eq_true_2.
Qed.

Lemma method_at_rewritten p m_id m Rewrite :
  well_recorded p → is_Some (method_at m_id m p) → m_id ≠ 0 → m ≠ TypeNames.mdtMethodDef →
  ∃ h mm, m_modules p !! m_id = Some h ∧ m_methods h !! m = Some mm ∧
    RejitMethod false Rewrite (FunctionControlWrapper_new m_id m) p = (Rewrite h mm (FunctionControlWrapper_new m_id m), p).
Proof.
  intros Hp [mm Hm] Hid Hdef. unfold method_at in Hm. destruct (m_modules p !! m_id) as [h|] eqn:Eh; [|done]. cbn in Hm.
  exists h, mm. split_and!; [done|done|]. destruct (Hp _ _ Eh) as [Hh Hmm]. destruct (Hmm _ _ Hm) as (Hmd & Hdm & Hf & Hrw).
  unfold RejitMethod, GetOrAddModule, TryGetMethod. cbn [fc_moduleId fc_methodId FunctionControlWrapper_new]. rewrite Eh, Hm.
  rewrite Hdm, Hh, Hrw. destruct Hmd as [md ->], Hf as [f ->]. rewrite !bool_decide_eq_false_2 by done. cbn.
  by destruct (Rewrite _ _ _).
Qed.

End Requests.
