(* ===== verification/RejitDescription.v ===== *)
(** * The methods that definitions describe

    What an integration definition says, in terms of the metadata alone: which assemblies, types and
    methods it means, stated without the checks and loops of the preprocessor.  The main result is
    that the preprocessor requests exactly these methods, and has recorded them by then. *)

From S2P Require Import Prelude Utf CorSig Signature ClrSignatures TypeNames ClrHelpers ClrNames Integrations RejitModules RejitSelection RejitRequests.

(** ** Specification *)

(** [xs] are the elements of [l] that have the property, in their order. *)
Inductive selects {A} (P : A → Prop) : list A → list A → Prop :=
  | selects_nil : selects P [] []
  | selects_take x l xs : P x → selects P l xs → selects P (x :: l) (x :: xs)
  | selects_skip x l xs : ¬ P x → selects P l xs → selects P (x :: l) xs.

(** The order of versions: major, minor, build. *)
Definition precedes (v w : Version) : Prop :=
  let '(major, minor, build, _) := v in
  let '(major', minor', build', _) := w in
  major < major' ∨ major = major' ∧ (minor < minor' ∨ minor = minor' ∧ build < build').
Definition between (low high v : Version) : Prop := ¬ precedes v low ∧ ¬ precedes high v.

Section Definition_.
Context (md : metadata) (type_fuel : nat) (mi : ModuleInfo) (am : AssemblyMetadata) (d : IntegrationDefinition).

Let target := target_method d.
Let type := MethodReference_type target.

(** *** Assemblies *)

Definition means_version (v : Version) : Prop := between (min_version type) (max_version type) v.
Definition means_assembly (a : AssemblyMetadata) : Prop :=
  AssemblyMetadata_name a = TypeReference_assembly type ∧ means_version (AssemblyMetadata_version a).

(** *** Methods *)

Definition means_all_methods : Prop := method_name target = WStr "*".

(** The methods that the wildcard does not mean: constructors, those of every object, and the
    accessors of properties. *)
Definition excepted (name : list Z) : Prop :=
  name ∈ (WStr <$> [".ctor"; ".cctor"; "Equals"; "Finalize"; "GetHashCode"; "ToString"]) ∨
  ∃ rest, name = WStr "get_" ++ rest ∨ name = WStr "set_" ++ rest.

(** The type of a parameter has the name that is expected, or any is. *)
Definition means_parameter (pb : list Z) (t : TypeSignature) (expected : list Z) : Prop :=
  expected = WStr "_" ∨ GetTypeTokName md pb type_fuel t = Ret expected.

(** The method [m], which is the function [f]. *)
Definition means_method (m : Z) (f : FunctionInfo) : Prop :=
  let '(pb, len) := method_signature f in
  GetFunctionInfo md type_fuel m = Ret f ∧ FunctionInfo_id f ≠ 0 ∧
  (means_all_methods → ¬ excepted (FunctionInfo_name f)) ∧
  ∃ s c, method_sig pb len s c ∧
    (is_exact_signature_match d = true →
     ∃ result expected, signature_types target = result :: expected ∧ Forall2 (means_parameter pb) (params s) expected).

(** The methods of a type that carry the name, and those that implement it explicitly. *)
Definition named_methods (ty : Z) : list Z :=
  concat (if decide (method_name target = WStr "*") then EnumMethods md ty else EnumMethodsWithName md ty (method_name target)).
Definition explicit_implementations (ty : Z) : list Z :=
  concat (EnumMethodsWithName md ty (TypeReference_name type ++ WStr "." ++ method_name target)).

(** Of the explicit implementations of an interface's method the first is meant, and no other. *)
Definition means_explicit (ty m : Z) : Prop :=
  is_interface d = true ∧ ¬ means_all_methods ∧ ∃ ms, selects (λ m, ∃ f, means_method m f) (explicit_implementations ty) (m :: ms).
Definition means_methods (ty : Z) (ms : list Z) : Prop :=
  (∃ m, means_explicit ty m ∧ ms = [m]) ∨
  (∀ m, ¬ means_explicit ty m) ∧ selects (λ m, ∃ f, means_method m f) (named_methods ty) ms.

(** *** Types *)

(** The interface of another assembly, or of this one. *)
Definition means_interface (interface : Z) : Prop :=
  TypeFromToken interface = mdtTypeRef ∧ (∃ scope name len, GetTypeRefProps md interface = Some (scope, name, len) ∧
    until_nul name = TypeReference_name type ∧ TypeFromToken scope = mdtAssemblyRef ∧
    means_assembly (GetReferencedAssemblyMetadata md scope)) ∨
  TypeFromToken interface = mdtTypeDef ∧ (∃ name len base, GetTypeDefProps md interface = Some (name, len, base) ∧
    until_nul name = TypeReference_name type ∧ means_assembly am).
Definition implements (ty : Z) : Prop :=
  ∃ impl interface, impl ∈ concat (EnumInterfaceImpls md ty) ∧ GetInterfaceImplProps md impl = Some (ty, interface) ∧ means_interface interface.

(** The base type, of another assembly or of this one; base types further up do not count. *)
Definition derives (ty : Z) : Prop :=
  ∃ ti base, GetTypeInfo md type_fuel ty = Ret ti ∧ extend_from ti = Some base ∧ TypeInfo_name base = TypeReference_name type ∧
    (scopeToken base ≠ mdTokenNil ∧ TypeFromToken (scopeToken base) = mdtAssemblyRef ∧
       means_assembly (GetReferencedAssemblyMetadata md (scopeToken base)) ∨
     scopeToken base = mdTokenNil ∧ assembly_name mi = TypeReference_assembly type ∧ means_version (AssemblyMetadata_version am)).

Definition indirect : Prop := is_derived d = true ∨ is_interface d = true.
Definition means_type (ty : Z) : Prop := is_interface d = true ∧ implements ty ∨ is_derived d = true ∧ derives ty.

(** Whether the module is of the assembly or refers to it. *)
Definition knows_assembly : Prop :=
  AssemblyMetadata_name am = TypeReference_assembly type ∨
  ∃ r, r ∈ concat (EnumAssemblyRefs md) ∧ means_assembly (GetReferencedAssemblyMetadata md r).

(** The types: all that implement or derive, or the one of the name if the assembly's version is meant. *)
Inductive means_types : list Z → Prop :=
  | types_indirect tys : indirect → knows_assembly → selects means_type (concat (EnumTypeDefs md)) tys → means_types tys
  | types_unknown : indirect → ¬ knows_assembly → means_types []
  | types_direct ty : ¬ indirect → means_version (AssemblyMetadata_version am) →
      FindTypeDefByName md (TypeReference_name type) = Some ty → means_types [ty]
  | types_missing : ¬ indirect → means_version (AssemblyMetadata_version am) →
      FindTypeDefByName md (TypeReference_name type) = None → means_types []
  | types_other_version : ¬ indirect → ¬ means_version (AssemblyMetadata_version am) → means_types [].

(** What is to be rewritten because of the definition. *)
Definition describes_methods (l : list selected) : Prop := ∃ tys mss,
  means_types tys ∧ Forall2 means_methods tys mss ∧
  Forall2 (λ m e, sel_module e = mi ∧ sel_definition e = d ∧ sel_method e = m ∧ means_method m (sel_function e)) (concat mss) l.

(** The definitions that a module is searched for. *)
Definition searched : Prop :=
  GetEnabled d = true ∧
  (indirect ∨ TypeReference_assembly type = WStr "#TraceMethodFeature" ∨ TypeReference_assembly type = assembly_name mi).
End Definition_.

(** Module by module, and in a module definition by definition; nothing of a module without metadata. *)
Definition describes_module (GetModuleMetaData : Z → option metadata) (type_fuel : nat) (definitions : list IntegrationDefinition)
    (mi : ModuleInfo) (l : list selected) : Prop :=
  match GetModuleMetaData (ModuleInfo_id mi) with
  | None => l = []
  | Some md => ∃ ds ls, selects (searched mi) definitions ds ∧
      Forall2 (describes_methods md type_fuel mi (GetAssemblyImportMetadata md)) ds ls ∧ l = concat ls
  end.

Definition describes (info : module_queries) (GetModuleMetaData : Z → option metadata) (type_fuel : nat) (modules : list Z)
    (definitions : list IntegrationDefinition) (l : list selected) : Prop :=
  ∃ ls, Forall2 (λ module, describes_module GetModuleMetaData type_fuel definitions (GetModuleInfo info module)) modules ls ∧ l = concat ls.

(** ** The checks mean what is specified *)

Lemma selects_filter {A} (P : A → Prop) (f : A → bool) l :
  (∀ x, x ∈ l → f x = true ↔ P x) → selects P l (filter (λ x, f x = true) l).
Proof.
  induction l as [|x l IH]; intros H; [constructor|]. rewrite filter_cons. assert (Hx := H x ltac:(by left)).
  assert (selects P l (filter (λ x, f x = true) l)) by (apply IH; intros y Hy; apply H; by right).
  case_decide; constructor; tauto.
Qed.

Lemma selects_unique {A} (P : A → Prop) l xs ys : selects P l xs → selects P l ys → xs = ys.
Proof. intros Hx. revert ys. induction Hx; inversion 1; subst; f_equal; auto; by exfalso. Qed.

Lemma Version_le_precedes v w : Version_le v w = true ↔ ¬ precedes w v.
Proof. rewrite Version_le_iff. unfold precedes. destruct v as [[[? ?] ?] ?], w as [[[? ?] ?] ?]. lia. Qed.

Lemma version_meant low high v : Version_le low v && Version_ge high v = true ↔ between low high v.
Proof. rewrite andb_true_iff, Version_ge_le, !Version_le_precedes. done. Qed.

Section Checks.
Context (md : metadata) (type_fuel : nat) (mi : ModuleInfo) (am : AssemblyMetadata) (d : IntegrationDefinition).
Context (Hr : metadata_readable md type_fuel) (Hsize : Z.of_nat (length (signature_types (target_method d))) < 2 ^ 64).

Let target := target_method d.
Let type := MethodReference_type target.

Lemma assembly_matches_meant name v :
  assembly_matches d name v = true ↔ name = TypeReference_assembly type ∧ means_version d v.
Proof. unfold assembly_matches, means_version. rewrite <-andb_assoc, andb_true_iff, bool_decide_eq_true, version_meant. done. Qed.

Lemma metadata_matches_meant a : metadata_matches d a = true ↔ means_assembly d a.
Proof. apply assembly_matches_meant. Qed.

Lemma concerns_module_searched : GetEnabled d && concerns_module mi d = true ↔ searched mi d.
Proof.
  unfold concerns_module, searched, indirect. rewrite andb_true_iff, !orb_true_iff, !bool_decide_eq_true.
  unfold tracemethodintegration_assemblyname. tauto.
Qed.

(** *** Methods *)

Lemma special_excepted name : special_method name = true ↔ excepted name.
Proof.
  unfold special_method, excepted. rewrite !orb_true_iff, !bool_decide_eq_true. unfold prefix.
  change tracemethodintegration_wildcard_ignored_methods with (WStr <$> [".ctor"; ".cctor"; "Equals"; "Finalize"; "GetHashCode"; "ToString"]).
  unfold tracemethodintegration_setterprefix, tracemethodintegration_getterprefix. naive_solver.
Qed.

Lemma wildcard_means_all : wildcard_enabled d = true ↔ means_all_methods d.
Proof. unfold wildcard_enabled. by rewrite bool_decide_eq_true. Qed.

Lemma type_info_returns t : returns (GetTypeInfo md type_fuel t).
Proof. destruct (rd_rank _ _ Hr) as (rank & Hrank & Hfuel). by apply (GetTypeInfo_returns md rank Hrank (rd_specs _ _ Hr)). Qed.

(** Comparing the types one by one. *)
Lemma arguments_match_iff pb args n i :
  (∀ t, t ∈ args → returns (GetTypeTokName md pb type_fuel t)) →
  (i + n ≤ length args)%nat → (i + n < length (signature_types target))%nat →
  arguments_match md type_fuel d pb args n i = Ret true ↔
  Forall2 (means_parameter md type_fuel pb) (take n (drop i args)) (take n (drop (S i) (signature_types target))).
Proof.
  intros Ht. revert i. induction n as [|n IH]; intros i Ha Hs; [by split; [constructor|]|]. cbn [arguments_match].
  destruct (lookup_lt_is_Some_2 args i) as [t Et]; [lia|]. destruct (lookup_lt_is_Some_2 (signature_types target) (S i)) as [e Ee]; [lia|].
  destruct (Ht t) as [name En]; [by eapply list_elem_of_lookup_2|]. rewrite Et. cbn [of_option mbind outcome_bind]. rewrite En.
  cbn [mbind outcome_bind]. fold target. rewrite Ee. cbn [of_option mbind outcome_bind].
  rewrite (drop_S args t i Et), (drop_S (signature_types target) e (S i) Ee). cbn [take]. rewrite Forall2_cons, <-IH by lia.
  unfold means_parameter. rewrite En. destruct (decide (name = e)) as [->|Hne].
  - rewrite bool_decide_eq_false_2 by tauto. cbn [andb]. split; [intros; split; [by right|done]|by intros [_ ?]].
  - rewrite bool_decide_eq_true_2 by done. cbn [andb]. destruct (decide (e = WStr "_")) as [->|He].
    + rewrite bool_decide_eq_false_2 by tauto. split; [intros; split; [by left|done]|by intros [_ ?]].
    + rewrite bool_decide_eq_true_2 by done. split; [done|]. intros [[?|[= ?]] _]; by exfalso.
Qed.

Lemma exact_match_iff pb len s c :
  Forall (λ b, is_byte b) pb → method_sig pb len s c → (∀ t, t ∈ params s → returns (GetTypeTokName md pb type_fuel t)) →
  CheckExactSignatureMatch md type_fuel d pb s = Ret true ↔
  ∃ result expected, signature_types target = result :: expected ∧ Forall2 (means_parameter md type_fuel pb) (params s) expected.
Proof.
  intros Hb Hs Ht. destruct (method_sig_arguments _ _ _ _ Hb Hs) as [Hp Hl]. unfold CheckExactSignatureMatch. fold target in Hsize |- *.
  destruct (signature_types target) as [|r ts] eqn:Ets.
  { change (u64 (Z.of_nat (length ([] : list (list Z))) - 1)) with (2 ^ 64 - 1). rewrite decide_True by lia. split; [done|by intros (? & ? & ? & _)]. }
  cbn [length] in *. rewrite wrap_small by lia. case_decide as E.
  - split; [done|]. intros (result & expected & [= <- <-] & HF%Forall2_length). lia.
  - rewrite arguments_match_iff by (done || rewrite ?Ets; cbn [length]; lia). rewrite Ets, drop_0. cbn [drop].
    rewrite (take_ge (params s)), (take_ge ts) by lia. split; [by eauto|]. by intros (result & expected & [= <- <-] & HF).
Qed.

(** Whether a method is wanted, and as which function. *)
Lemma method_wanted_function m f :
  GetFunctionInfo md type_fuel m = Ret f → method_wanted md type_fuel d m = Ret (Some f) ↔ means_method md type_fuel d m f.
Proof using Hr Hsize.
  intros Ef. unfold method_wanted, means_method. rewrite Ef. cbn [mbind outcome_bind]. unfold FunctionInfo_IsValid.
  destruct (rd_signatures _ _ Hr m f Ef) as [Hb Hl]. pose proof (rd_parameters _ _ Hr m f) as Hpar.
  destruct (method_signature f) as [pb len] eqn:Es. cbn [fst snd] in *.
  destruct (decide (FunctionInfo_id f = 0)) as [Hid|Hid]; [rewrite bool_decide_eq_false_2 by tauto; cbn [negb]; split; [done|by intros (_ & ? & _)]|].
  rewrite bool_decide_eq_true_2 by done. cbn [negb].
  pose proof (FunctionMethodSignature_TryParse_wp pb len Hb Hl) as Hp. unfold wp in Hp.
  destruct (FunctionMethodSignature_TryParse pb len (0%nat, empty_signature)) as [[[]|[]| |] [c s]] eqn:Ep; [| |done|done].
  2: { split; [done|]. intros (_ & _ & _ & s' & c' & Hs' & _). apply FunctionMethodSignature_TryParse_run in Hs'; [|done|done]. congruence. }
  assert (Huniq : ∀ s' c', method_sig pb len s' c' → s' = s).
  { intros s' c' Hs'. apply FunctionMethodSignature_TryParse_run in Hs'; [|done|done]. congruence. }
  cbn [snd fst] in Hp. destruct (wildcard_enabled d && special_method (FunctionInfo_name f)) eqn:Ew.
  { apply andb_prop in Ew as [Hw%wildcard_means_all Hsp%special_excepted]. split; [done|]. intros (_ & _ & Hn & _). by destruct (Hn Hw). }
  assert (Hw : means_all_methods d → ¬ excepted (FunctionInfo_name f)).
  { intros Hw%wildcard_means_all Hsp%special_excepted. by rewrite Hw, Hsp in Ew. }
  assert (Hnames : ∀ t, t ∈ params s → returns (GetTypeTokName md pb type_fuel t)).
  { intros t Ht. apply GetTypeTokName_returns; [apply type_info_returns|]. by apply (proj1 (Forall_forall _ _) (Hpar c s Ef Hp)). }
  destruct (is_exact_signature_match d) eqn:Ex.
  - pose proof (exact_match_iff pb len s c Hb Hp Hnames) as He.
    destruct (CheckExactSignatureMatch_returns md type_fuel d pb len s c Hb Hp Hnames Hsize) as [b Eb]. rewrite Eb in *. cbn.
    assert (Hiff : b = true ↔ ∃ result expected, signature_types target = result :: expected ∧ Forall2 (means_parameter md type_fuel pb) (params s) expected).
    { rewrite <-He. split; [by intros ->|by intros [=]]. }
    split.
    + destruct b; [|done]. intros _. split_and!; [done|done|done|]. exists s, c. split; [done|]. intros _. by apply Hiff.
    + intros (_ & _ & _ & s' & c' & Hs' & Hx). apply Huniq in Hs' as ->. by rewrite (proj2 Hiff (Hx eq_refl)).
  - cbn. split; [|done]. intros _. split_and!; [done|done|done|]. by exists s, c.
Qed.

Lemma method_wanted_iff m f : method_wanted md type_fuel d m = Ret (Some f) ↔ means_method md type_fuel d m f.
Proof using Hr Hsize.
  split.
  - intros H. destruct (GetFunctionInfo md type_fuel m) as [f'|[]| |] eqn:Ef; [|by unfold method_wanted in H; rewrite Ef in H..].
    enough (f' = f) as -> by by apply method_wanted_function. revert H. unfold method_wanted. rewrite Ef. cbn [mbind outcome_bind].
    destruct (negb _); [done|]. destruct (method_signature f') as [pb len].
    destruct (FunctionMethodSignature_TryParse _ _ _) as [[[]|[]| |] [c s]]; try done. destruct (_ && _); [done|].
    destruct (if is_exact_signature_match d then _ else _) as [[]|[]| |]; [|done..]. by intros [= ?].
  - intros H. apply method_wanted_function; [|done]. unfold means_method in H. destruct (method_signature f). apply H.
Qed.

Lemma accepted_means m : accepted md type_fuel d m = true ↔ ∃ f, means_method md type_fuel d m f.
Proof.
  unfold accepted. split.
  - destruct (method_wanted md type_fuel d m) as [[f|]|[]| |] eqn:E; try done. intros _. exists f. by apply method_wanted_iff.
  - intros [f ->%method_wanted_iff]. done.
Qed.

Lemma function_of_means m : accepted md type_fuel d m = true → means_method md type_fuel d m (function_of md type_fuel d m).
Proof.
  unfold accepted, function_of. destruct (method_wanted md type_fuel d m) as [[f|]|[]| |] eqn:E; try done. intros _. by apply method_wanted_iff.
Qed.
Lemma described_methods_mean ty : means_methods md type_fuel d ty (described_methods md type_fuel d ty).
Proof using Hr Hsize.
  assert (Hsel : ∀ l, selects (λ m, ∃ f, means_method md type_fuel d m f) l (filter (λ m, accepted md type_fuel d m = true) l))
    by (intros l; apply selects_filter; intros m _; apply accepted_means).
  pose proof (Hsel (explicit_implementations md d ty)) as Hexp. assert (Hreg := Hsel (named_methods md d ty)).
  change (filter _ (named_methods md d ty)) with (filter (λ m, accepted md type_fuel d m = true) (named_methods md d ty)) in Hreg.
  assert (Ereg : regular_methods md type_fuel d ty = filter (λ m, accepted md type_fuel d m = true) (named_methods md d ty)).
  { unfold regular_methods, enumMethods, named_methods, wildcard_enabled, tracemethodintegration_wildcardmethodname. fold target.
    by case_decide as E; [rewrite bool_decide_eq_true_2|rewrite bool_decide_eq_false_2]. }
  rewrite <-Ereg in Hreg. unfold described_methods, iterate_explicit_interface_methods, explicit_methods.
  change (concat (enumExplicitInterfaceMethods md d ty)) with (explicit_implementations md d ty).
  assert (Hnone : (is_interface d && negb (wildcard_enabled d) = false ∨
      filter (λ m, accepted md type_fuel d m = true) (explicit_implementations md d ty) = []) →
    means_methods md type_fuel d ty (regular_methods md type_fuel d ty)).
  { intros Hn. right. split; [|done]. intros m (Hi & Hw & ms & Hms). rewrite <-wildcard_means_all, not_true_iff_false in Hw.
    destruct Hn as [Hn|Hn]; [by rewrite Hi, Hw in Hn|]. rewrite Hn in Hexp. by pose proof (selects_unique _ _ _ _ Hexp Hms). }
  destruct (is_interface d && negb (wildcard_enabled d)) eqn:E; [|by apply Hnone; left].
  destruct (filter _ (explicit_implementations md d ty)) as [|m ms] eqn:Ef; [by apply Hnone; right|].
  left. exists m. split; [|done]. apply andb_prop in E as [Hi Hw]. split; [done|]. split; [|by exists ms].
  rewrite <-wildcard_means_all. by apply negb_true_iff, not_true_iff_false in Hw.
Qed.

(** *** Types *)

Lemma interface_is_target_iff ty impl :
  interface_is_target md d am ty impl = true ↔
  ∃ interface, GetInterfaceImplProps md impl = Some (ty, interface) ∧ means_interface md am d interface.
Proof.
  unfold interface_is_target, means_interface. destruct (GetInterfaceImplProps md impl) as [[class interface]|]; [|naive_solver].
  case_decide as Hc; [naive_solver|]. subst class.
  transitivity (means_interface md am d interface); [|unfold means_interface; naive_solver]. unfold means_interface.
  case_decide as Hr'; [rewrite Hr'|case_decide as Hd; [rewrite Hd|naive_solver]].
  - destruct (GetTypeRefProps md interface) as [[[scope name] len]|]; [|split; [done|naive_solver]].
    rewrite !andb_true_iff, !bool_decide_eq_true, metadata_matches_meant. split; [|naive_solver]. intros [[? ?] ?]. left. eauto 10.
  - destruct (GetTypeDefProps md interface) as [[[name len] base]|]; [|split; [done|naive_solver]].
    rewrite andb_true_iff, bool_decide_eq_true, metadata_matches_meant. split; [|naive_solver]. intros [? ?]. right. eauto 10.
Qed.

Lemma implements_target_iff ty : implements_target md am d ty = true ↔ implements md am d ty.
Proof.
  unfold implements_target, implements. rewrite bool_decide_eq_true, Exists_exists. setoid_rewrite interface_is_target_iff. naive_solver.
Qed.

Lemma ancestor_is_target_iff base :
  ancestor_is_target md mi d am base = true ↔ TypeInfo_name base = TypeReference_name type ∧
    (scopeToken base ≠ mdTokenNil ∧ TypeFromToken (scopeToken base) = mdtAssemblyRef ∧
       means_assembly d (GetReferencedAssemblyMetadata md (scopeToken base)) ∨
     scopeToken base = mdTokenNil ∧ assembly_name mi = TypeReference_assembly type ∧ means_version d (AssemblyMetadata_version am)).
Proof.
  unfold ancestor_is_target. rewrite andb_true_iff, bool_decide_eq_true. case_decide.
  - rewrite andb_true_iff, bool_decide_eq_true, metadata_matches_meant. tauto.
  - rewrite assembly_matches_meant. tauto.
Qed.

Lemma derives_target_iff ty : derives_target md type_fuel mi am d ty = true ↔ derives md type_fuel mi am d ty.
Proof using Hr.
  unfold derives_target, derives. destruct (type_info_returns ty) as [ti ->]. destruct (extend_from ti) as [base|] eqn:E; [|naive_solver].
  rewrite ancestor_is_target_iff. split.
  - intros H. exists ti, base. tauto.
  - intros (? & ? & [= <-] & Eb & H). rewrite E in Eb. by injection Eb as <-.
Qed.

Lemma knows_assembly_iff :
  bool_decide (AssemblyMetadata_name am = TypeReference_assembly type) || refers_to_target md d = true ↔ knows_assembly md am d.
Proof.
  unfold knows_assembly, refers_to_target. rewrite orb_true_iff, !bool_decide_eq_true, Exists_exists. setoid_rewrite metadata_matches_meant. done.
Qed.

Lemma described_types_mean : means_types md type_fuel mi am d (described_types md type_fuel mi am d).
Proof using Hr.
  unfold described_types. fold type. assert (Hind : is_derived d || is_interface d = true ↔ indirect d) by (by rewrite orb_true_iff).
  destruct (is_derived d || is_interface d).
  - assert (Hi : indirect d) by by apply Hind. destruct (_ || refers_to_target _ _) eqn:E.
    + apply types_indirect; [done|by apply knows_assembly_iff|]. apply selects_filter. intros ty _. unfold means_type.
      by rewrite orb_true_iff, !andb_true_iff, implements_target_iff, derives_target_iff.
    + apply types_unknown; [done|]. by rewrite <-knows_assembly_iff, not_true_iff_false.
  - assert (Hi : ¬ indirect d) by (rewrite <-Hind; done). destruct (_ && _) eqn:E.
    + apply version_meant in E. destruct (FindTypeDefByName _ _) as [ty|] eqn:Ef; cbn [option_list]; [by apply types_direct|by apply types_missing].
    + apply types_other_version; [done|]. unfold means_version. fold type. rewrite <-version_meant. change (Version_ge ?h ?v) with (Version_le v h).
      by rewrite not_true_iff_false.
Qed.
End Checks.

(** ** What the preprocessor finds is what the definitions describe *)

Lemma Forall2_image {A B} (R : A → B → Prop) (f : A → B) l : (∀ x, x ∈ l → R x (f x)) → Forall2 R l (f <$> l).
Proof. intros H. apply Forall2_fmap_r. induction l as [|x l IH]; constructor; [apply H; by left|apply IH; intros y Hy; apply H; by right]. Qed.

Lemma described_methods_accepted md type_fuel d ty m :
  m ∈ described_methods md type_fuel d ty → accepted md type_fuel d m = true.
Proof.
  unfold described_methods, explicit_methods, regular_methods. destruct (iterate_explicit_interface_methods d); [|intros H; by apply list_elem_of_filter in H as [? _]].
  destruct (filter _ (concat (enumExplicitInterfaceMethods md d ty))) as [|m' ms] eqn:E.
  - intros H. by apply list_elem_of_filter in H as [? _].
  - intros ->%list_elem_of_singleton. assert (m' ∈ m' :: ms) as H by (by left). rewrite <-E in H. by apply list_elem_of_filter in H as [? _].
Qed.

Lemma described_by_describes md type_fuel mi d :
  metadata_readable md type_fuel → Z.of_nat (length (signature_types (target_method d))) < 2 ^ 64 →
  describes_methods md type_fuel mi (GetAssemblyImportMetadata md) d (described_by type_fuel mi md d).
Proof.
  intros Hr Hs. eexists _, (described_methods md type_fuel d <$> described_types md type_fuel mi (GetAssemblyImportMetadata md) d).
  split; [by apply described_types_mean|]. split.
  - apply Forall2_image. intros ty _. by apply described_methods_mean.
  - apply Forall2_image. intros m Hm. cbn. split_and!; [done..|].
    apply list_elem_of_In, in_concat in Hm as (ms & (ty & -> & _)%list_elem_of_In%list_elem_of_fmap & Hm%list_elem_of_In).
    apply function_of_means; [done..|]. by eapply described_methods_accepted.
Qed.

(** Nothing else is described. *)
Lemma Forall2_unique {A B} (R : A → B → Prop) l xs ys :
  (∀ a x y, R a x → R a y → x = y) → Forall2 R l xs → Forall2 R l ys → xs = ys.
Proof. intros HR Hx. revert ys. induction Hx; inversion 1; subst; f_equal; eauto. Qed.

Lemma means_methods_unique md type_fuel d ty xs ys :
  means_methods md type_fuel d ty xs → means_methods md type_fuel d ty ys → xs = ys.
Proof.
  intros [(x & Hx & ->)|[Nx Hx]] [(y & Hy & ->)|[Ny Hy]]; [|by destruct (Ny x)|by destruct (Nx y)|by eapply selects_unique].
  destruct Hx as (_ & _ & ms & Hx), Hy as (_ & _ & ms' & Hy). by injection (selects_unique _ _ _ _ Hx Hy) as ->.
Qed.

Lemma means_types_unique md type_fuel mi am d xs ys :
  means_types md type_fuel mi am d xs → means_types md type_fuel mi am d ys → xs = ys.
Proof. destruct 1; destruct 1; try done; try congruence. by eapply selects_unique. Qed.

Lemma means_method_unique md type_fuel d m f g :
  means_method md type_fuel d m f → means_method md type_fuel d m g → f = g.
Proof. unfold means_method. destruct (method_signature f), (method_signature g). intros [Hf _] [Hg _]. congruence. Qed.

Lemma describes_methods_unique md type_fuel mi am d xs ys :
  describes_methods md type_fuel mi am d xs → describes_methods md type_fuel mi am d ys → xs = ys.
Proof.
  intros (tys & mss & Ht & Hm & Hx) (tys' & mss' & Ht' & Hm' & Hy). rewrite (means_types_unique _ _ _ _ _ _ _ Ht' Ht) in Hm'.
  rewrite (Forall2_unique _ _ _ _ (means_methods_unique md type_fuel d) Hm' Hm) in Hy.
  refine (Forall2_unique _ _ _ _ _ Hx Hy). intros m [mi1 d1 f1 m1] [mi2 d2 f2 m2] (E1 & E2 & E3 & Hf) (F1 & F2 & F3 & Hg). cbn in *.
  rewrite (means_method_unique _ _ _ _ _ _ Hf Hg). congruence.
Qed.

Lemma describes_unique info GetModuleMetaData type_fuel modules definitions xs ys :
  describes info GetModuleMetaData type_fuel modules definitions xs → describes info GetModuleMetaData type_fuel modules definitions ys → xs = ys.
Proof.
  intros (ls & Hx & ->) (ls' & Hy & ->). f_equal. refine (Forall2_unique _ _ _ _ _ Hx Hy). intros module l l'. unfold describes_module.
  destruct (GetModuleMetaData _); [|by intros -> ->]. intros (ds & ms & Hd & Hm & ->) (ds' & ms' & Hd' & Hm' & ->). f_equal.
  rewrite (selects_unique _ _ _ _ Hd' Hd) in Hm'. refine (Forall2_unique _ _ _ _ _ Hm Hm'). intros. by eapply describes_methods_unique.
Qed.

Section Requests.
Context (info : module_queries) (GetModuleMetaData : Z → option metadata) (type_fuel : nat).
Context (modules : list Z) (definitions : list IntegrationDefinition).

Lemma described_describes :
  all_readable info GetModuleMetaData type_fuel modules definitions →
  describes info GetModuleMetaData type_fuel modules definitions (described info GetModuleMetaData type_fuel modules definitions).
Proof.
  intros [Hs Hr]. eexists. split; [|done]. apply Forall2_image. intros module Hm.
  unfold describes_module, described_of_module. destruct (GetModuleMetaData _) as [md|] eqn:E; [|done].
  eexists _, _. split; [|split; [|done]].
  - apply selects_filter. intros d _. apply concerns_module_searched.
  - apply Forall2_image. intros d [_ Hd]%list_elem_of_filter.
    apply described_by_describes; [by eapply Hr|]. by apply (proj1 (Forall_forall _ _) Hs).
Qed.

(** C4: Given modules and definitions, the worker finds the methods that the definitions describe,
    module by module and definition by definition, and requests them in one call, or makes none if
    there are none.  At the time of the request every such method has been recorded: it is no longer
    inlined into others, and when the runtime compiles it again its rewriter is called.  The first
    definition that describes a method is the one it is rewritten by, the last one decides whether
    that is enabled; a method that was recorded before keeps its integration; the records of other
    methods do not change.  What is described is stated of the metadata and the definitions:
    versions within the bounds, the name of the assembly, interfaces and base types, explicit
    implementations, the wildcard's exceptions and the types of the signature.  Conditions: the
    metadata can be read, and fewer than 2^32 methods are found. *)
Theorem requested_methods_exact p :
  all_readable info GetModuleMetaData type_fuel modules definitions → well_recorded p →
  ∃ l, describes info GetModuleMetaData type_fuel modules definitions l ∧
  (∀ l', describes info GetModuleMetaData type_fuel modules definitions l' → l' = l) ∧
  (Z.of_nat (length l) < 2 ^ 32 →
  ∃ p', RequestRejitForLoadedModules info GetModuleMetaData type_fuel false modules definitions p =
          (Ret (Z.of_nat (length l),
                if bool_decide (l = []) then []
                else [RequestReJIT ((λ e, ModuleInfo_id (sel_module e)) <$> l) (sel_method <$> l)]), p') ∧
    well_recorded p' ∧
    (∀ m_id m, method_at m_id m p' = recorded (method_at m_id m p) (filter (λ e, sel_key e = (m_id, m)) l)) ∧
    (∀ e b, e ∈ l → JITInlining true (Some (false, [p'])) (Some (sel_key e)) b = false) ∧
    (∀ e Rewrite, e ∈ l → ModuleInfo_id (sel_module e) ≠ 0 → sel_method e ≠ TypeNames.mdtMethodDef →
       let w := FunctionControlWrapper_new (ModuleInfo_id (sel_module e)) (sel_method e) in
       ∃ h mm, m_modules p' !! ModuleInfo_id (sel_module e) = Some h ∧ m_methods h !! sel_method e = Some mm ∧
         RejitMethod false Rewrite w p' = (Rewrite h mm w, p'))).
Proof.
  intros Hr Hp. set (l := described info GetModuleMetaData type_fuel modules definitions).
  exists l. split; [by apply described_describes|].
  split; [intros l' Hl'; eapply describes_unique; [done|by apply described_describes]|]. intros Hl. exists (record_entries l p). unfold RequestRejitForLoadedModules.
  erewrite stM_bind_Ret by (apply process_modules_run, all_readable_modules, Hr). fold l. cbn [app].
  rewrite wrap_small by (rewrite length_fmap; lia). rewrite length_fmap. split_and!.
  - unfold mret, stM_ret. do 3 f_equal. rewrite <-!list_fmap_compose. destruct l as [|e l']; [done|].
    rewrite decide_True by (cbn [length]; lia). rewrite bool_decide_eq_false_2 by done. done.
  - by apply well_recorded_entries.
  - intros. apply method_at_entries.
  - intros e b He. by apply method_at_not_inlined, recorded_method.
  - intros e Rewrite He Hid Hm. apply method_at_rewritten; [by apply well_recorded_entries|by apply recorded_method|done|done].
Qed.
End Requests.

(** ** Instance: a type whose method two definitions describe, one by its name, one as an
    implementation of its base type's *)

Definition example_metadata : metadata := {|
  GetMemberRefProps _ := None;
  GetMemberProps m :=
    if decide (m = 0x06000001) then Some (0x02000001, WStr "Run" ++ [0], 4, ([0x20; 0x00; 0x01], 3%nat), 0)
    else if decide (m = 0x06000002) then Some (0x02000001, WStr "Stop" ++ [0], 5, ([0x20; 0x00; 0x01], 3%nat), 0)
    else None;
  GetMethodSpecProps _ := None;
  GetTypeDefProps t := if decide (t = 0x02000001) then Some (WStr "App.C" ++ [0], 6, 0x01000001) else None;
  GetNestedClassProps _ := None;
  GetTypeRefProps t := if decide (t = 0x01000001) then Some (0x23000001, WStr "Lib.Base" ++ [0], 9) else None;
  GetTypeSpecFromToken _ := None;
  FindTypeDefByName_query name _ := if decide (name = WStr "App.C") then Some 0x02000001 else None;
  EnumTypeDefs := [[0x02000001]];
  EnumInterfaceImpls _ := [];
  GetInterfaceImplProps _ := None;
  EnumMethods _ := [[0x06000001]; [0x06000002]];
  EnumMethodsWithName _ name := if decide (name = WStr "Run") then [[0x06000001]] else [];
  GetAssemblyFromScope := Some 0x20000001;
  GetAssemblyProps _ := Some (WStr "App" ++ [0], 4, (1, 0, 0, 0));
  EnumAssemblyRefs := [[0x23000001]];
  GetAssemblyRefProps _ := Some (WStr "Lib" ++ [0], 4, (2, 1, 0, 0));
|}.

Definition example_info : module_queries := {|
  GetModuleInfo2 m := if decide (m = 7) then Some (5, 9, 0) else None;
  GetAssemblyInfo_query _ := Some (WStr "App" ++ [0], 4, 1);
  GetAppDomainInfo _ := Some 8;
|}.

Definition example_definition (assembly type : list Z) (derived : bool) (low high : Version) : IntegrationDefinition :=
  IntegrationDefinition_new
    {| MethodReference_type := TypeReference_new assembly type low high; method_name := WStr "Run"; signature_types := [WStr "System.Void"] |}
    example_integration derived false true 1 1.

Definition example_definitions : list IntegrationDefinition :=
  [example_definition (WStr "App") (WStr "App.C") false (1, 0, 0, 0) (1, 9, 0, 0);
   example_definition (WStr "App") (WStr "App.C") false (2, 0, 0, 0) (2, 9, 0, 0);
   example_definition (WStr "Lib") (WStr "Lib.Base") true (2, 0, 0, 0) (2, 9, 0, 0)].

Definition example_GetModuleMetaData (m : Z) : option metadata := if decide (m = 7) then Some example_metadata else None.

Definition example_function (m : Z) : FunctionInfo :=
  match GetFunctionInfo example_metadata 8 m with Ret f => f | _ => no_function end.

Lemma rejit_example_function_cases m :
  m = 0x06000001 ∨ m = 0x06000002 ∨ GetFunctionInfo example_metadata 8 m = Ret no_function.
Proof.
  destruct (decide (m = 0x06000001)) as [->|H1]; [by left|]. destruct (decide (m = 0x06000002)) as [->|H2]; [by right; left|].
  right; right. cbn [GetFunctionInfo]. case_decide; [done|]. case_decide.
  - unfold GetMemberProps, example_metadata. by rewrite !decide_False by done.
  - by case_decide.
Qed.

Definition example_rank (t : Z) : nat :=
  if decide (t = 0x06000001) then 2%nat else if decide (t = 0x06000002) then 2%nat else if decide (t = 0x02000001) then 1%nat else 0%nat.

Lemma rejit_example_descends t t' : leads_to example_metadata t t' → (example_rank t' < example_rank t)%nat.
Proof.
  intros [(_ & ? & ? & ? & E)|[(_ & ? & ? & ? & ? & E)|[(_ & ? & E)|[(_ & E & _)|[(_ & ? & ? & E & _)|(_ & ? & ? & E & _)]]]]]; [done| |done|done| |done].
  - unfold GetMemberProps, example_metadata in E. unfold example_rank at 2.
    destruct (decide (t = 0x06000001)); [injection E as <- _ _ _ _; apply Nat.ltb_lt; reflexivity|].
    destruct (decide (t = 0x06000002)); [injection E as <- _ _ _ _; apply Nat.ltb_lt; reflexivity|done].
  - unfold GetTypeDefProps, example_metadata in E. destruct (decide (t = 0x02000001)) as [->|]; [|done].
    injection E as _ _ <-. apply Nat.ltb_lt. reflexivity.
Qed.

Lemma rejit_example_readable : metadata_readable example_metadata 8.
Proof.
  assert (Hsig : ∀ m f, GetFunctionInfo example_metadata 8 m = Ret f →
    method_signature f = ([0x20; 0x00; 0x01], 3%nat) ∨ method_signature f = ([], 0%nat)).
  { intros m f. destruct (rejit_example_function_cases m) as [->|[->| ->]]; vm_compute; intros E; injection E as <-; auto. }
  split.
  - exists example_rank. split; [apply rejit_example_descends|]. intros t. unfold example_rank. repeat case_match; lia.
  - intros t sig len E. done.
  - by repeat constructor.
  - by repeat constructor.
  - intros ty. constructor.
  - intros ty. by repeat constructor.
  - intros ty name. cbn. case_decide; by repeat constructor.
  - intros m f [->| ->]%Hsig; (split; [|cbn; lia]); repeat constructor; done.
  - intros m f c s [->| ->]%Hsig E; apply FunctionMethodSignature_TryParse_run in E; try (repeat constructor; done); try (cbn; lia).
    vm_compute in E. injection E as <- <-. constructor.
Qed.

(** The method is recorded once, with the first definition, and requested twice; the definition for
    another version plays no part. *)
Lemma requested_methods_exact_witness :
  all_readable example_info example_GetModuleMetaData 8 [7; 8] example_definitions ∧
  (sel_key <$> described example_info example_GetModuleMetaData 8 [7; 8] example_definitions) = [(7, 0x06000001); (7, 0x06000001)] ∧
  ∃ p', RequestRejitForLoadedModules example_info example_GetModuleMetaData 8 false [7; 8] example_definitions RejitPreprocessor_new =
          (Ret (2, [RequestReJIT [7; 7] [0x06000001; 0x06000001]]), p') ∧
    (m_integrationDefinition <$> method_at 7 0x06000001 p') = head example_definitions ∧
    method_at 7 0x06000002 p' = None ∧
    JITInlining true (Some (false, [p'])) (Some (7, 0x06000001)) true = false.
Proof.
  assert (Hr : all_readable example_info example_GetModuleMetaData 8 [7; 8] example_definitions).
  { split; [by repeat constructor|]. intros module md _ E. unfold example_GetModuleMetaData in E.
    case_decide; [|done]. injection E as <-. apply rejit_example_readable. }
  set (l := described example_info example_GetModuleMetaData 8 [7; 8] example_definitions).
  assert (El : sel_key <$> l = [(7, 0x06000001); (7, 0x06000001)]) by (vm_compute; reflexivity).
  split; [exact Hr|]. split; [exact El|].
  destruct (requested_methods_exact example_info example_GetModuleMetaData 8 [7; 8] example_definitions RejitPreprocessor_new Hr
    well_recorded_new) as (l' & _ & Hl & Hrun).
  rewrite <-(Hl l) in Hrun by by apply described_describes. clear l' Hl.
  destruct Hrun as (p' & Hrun & _ & Hat & Hin & _); [vm_compute; reflexivity|].
  exists p'. split; [rewrite Hrun; vm_compute; reflexivity|]. rewrite !Hat. split; [vm_compute; reflexivity|].
  split; [vm_compute; reflexivity|].
  fold l in Hin. destruct l as [|e l'] eqn:E; [done|]. apply (f_equal (λ x, List.hd (0, 0) x)) in El.
  change (sel_key e = (7, 0x06000001)) in El. rewrite <-El. apply Hin. by left.
Defined.
